(* ===== verification/_CoqProject ===== *)
-Q . S2P
Prelude.v
Collections.v
Net.v
RustStd.v
Model.v
Stores.v
Validation.v
Traffic.v
MatrixStats.v
Matrix.v
Packet.v
DnsWire.v
Bootstrap.v
Observations.v
Runtime.v
DnsResolve.v
Recovery.v
SlideBuffer.v
TlsRecords.v
TlsHello.v
Wire.v
HostFiles.v
AeadStream.v
Replay.v
Shadowsocks.v
Vmess.v
Trojan.v
Vless.v
RealityRecords.v
RealityMessages.v
RealityKeys.v
RealityClient.v
RealitySession.v
Transport.v
RealityStream.v
RealityDuplex.v
RealityConnect.v
ConfigData.v
ServiceArtifact.v
Service.v
Supervisor.v
Forwarding.v
Settings.v
TakeoverScope.v
Takeover.v
TakeoverHooks.v
DnsMapping.v
TakeoverPolicy.v
TakeoverSafety.v
HookSafety.v
TakeoverHost.v
TakeoverClaims.v
Maintenance.v
Sink.v
Egress.v
Reload.v
Socks.v
Vision.v
VisionStream.v
VisionDuplex.v
VisionDelivery.v
VlessClient.v
IngressFields.v
IngressReport.v
Inbound.v
InboundPool.v
InboundScope.v
InboundIsolation.v
InboundAccounts.v
InboundPermits.v
InboundCapacity.v
InboundRun.v
EgressRelay.v
EgressUdp.v
