(* ===== verification/Prelude.v ===== *)
(** * dynet: a verification library

    dynet is a forwarding process for a router or a host: it captures traffic, decides for
    every session which egress node it takes, resolves names under the same policy, relays
    the data through proxy protocols, keeps statistics that the decisions use, stores
    its configuration and observations in SQLite, and can replace its configuration while it
    runs. This library models the parts of the Rust workspace under src/ that carry this
    logic and proves what makes them correct. Definitions keep the names of the code.

    ** How the program is put together

    A client enters through an inbound (a relay, SOCKS5, DNS, captured packets). The runtime
    ([crates/dynet-runtime]) matches the routing rules and walks the group graph to a node,
    asking the traffic matrix for the choice inside a hop; the egress graph
    ([crates/dynet-ingress/src/egress]) maps the decision to a medium and a protocol client
    ([prototype/]). Every session leaves events, from which statistics are built and
    rows are written in the background. [crates/dynet-state] loads and validates the
    configuration, [crates/dynet-cli] reloads it, [crates/dynet-capture] reads packets, and
    [crates/dynet-service] installs and supervises the process.

    ** Files and what they model

    - Prelude (this file): outcomes of Rust computations ([Ok], [Err], [Panic]), bytes,
      machine-width integers, indexing and slicing, bounded queues, tactics.
      Collections: Rust's [Ord], stable sort, [BTreeMap]. Net: [std::net], UTF-8, input
      streams. RustStd: [str], integer and IP address texts. Wire: actions with a state and
      early return, their rules ([obeys]), the I/O of the protocol clients. HostFiles:
      files, paths and commands of the host.
    - Model, Stores, Validation, Runtime: [dynet-runtime/src/model.rs] and its submodules,
      [stores.rs], [model/bootstrap_validation*], [lib.rs]. A store is a record of lists and maps; the
      generation-checked replacement is a step relation.
    - Traffic, MatrixStats, Matrix: [event.rs], [traffic_session.rs], [model/matrix_*.rs].
    - DnsWire, DnsResolve: [dns.rs], [dns/https.rs]; what reaches the resolver is a list of
      arrivals.
    - Bootstrap, Observations, Recovery, Maintenance, Sink: [persistence.rs] and its
      submodules; a table is the list of its rows.
    - ConfigData, Forwarding, Settings: the records and loaders of [dynet-state].
    - Egress, Reload: [dynet-ingress/src/egress.rs], [egress/graph.rs], [egress/reloadable.rs],
      [egress/observation.rs]; [dynet-state/src/reload.rs] and [dynet-cli/src/runtime_reload.rs].
    - Socks, Packet: [dynet-ingress/src/socks/protocol.rs], [socks/udp.rs];
      [dynet-capture/src/packet.rs], [flow.rs].
    - IngressFields, Inbound: [dynet-ingress/src/lib.rs], [inbound.rs], [captured.rs],
      [socks.rs], [socks/events.rs], [dns.rs]: the fields of the events, and every handler as
      a program over the calls it makes on the runtime, the egress and the sockets.
      InboundPool: all tasks over one runtime as a step relation, one call at a time, with
      the semaphores and the log. IngressReport: what the session records read back from the
      fields. InboundScope, InboundIsolation: a task only reports for sessions that it
      knows, so the events of a session are those of its tasks. InboundAccounts,
      InboundPermits, InboundCapacity: the theorems. InboundRun: an executable schedule and
      runs on concrete inputs.
    - EgressRelay, EgressUdp: [egress/direct.rs], [shadowsocks.rs], [trojan.rs], [vmess.rs],
      [vless.rs], [udp_downstream.rs], [udp_observation.rs]: dialing, copying with the idle
      watchdog and the byte counters; the UDP loops over an interface ([UdpTransport],
      [DuplexLaws]) that the modelled protocol clients implement.
    - AeadStream, Shadowsocks, Replay, Vmess, Trojan, Vless: the protocol clients of
      [prototype/shadowsocks], [vmess], [trojan], [vless].
    - SlideBuffer, TlsRecords, TlsHello, Vision: the buffer, the TLS record deframers, the
      server hello filter and the padding of [prototype/vless/src].
    - RealityRecords, RealityMessages, RealityKeys, RealityClient, RealitySession: the TLS 1.3
      client of [prototype/vless/src/reality]: its record layer, its messages, its key schedule,
      the connection with its handshake states, and what a session of it reads and sends.
    - Transport, RealityStream, RealityDuplex, RealityConnect: the transport below a client
      as a script of answers ([Pending], errors, short reads and writes), the adapter that
      turns the connection into a stream ([reality/tokio_*.rs]), its loops, and the connect.
    - VisionStream, VisionDuplex, VisionDelivery, VlessClient: [vision_stream.rs] with both
      kinds of [crypto.rs] connection under it, its invariants when written to and when read
      from, and the client of [lib.rs] that owns it.
    - ServiceArtifact, Service, Supervisor: [dynet-service].
    - TakeoverScope, Takeover, TakeoverHooks, DnsMapping: [dynet-capture/src/scope.rs],
      [linux.rs], [hooks.rs], [status.rs], [router_ingress.rs], [dns_mapping.rs]: the checks
      and the plan of the takeover, its commands as actions on a host (routes, rules,
      nft tables, artifacts), the hooks and the pinning of DNS answers. TakeoverPolicy states
      what the takeover may do as a step relation on hosts, with the laws of the commands
      ([CommandLaws]); TakeoverSafety and HookSafety hold the lemmas, TakeoverHost a host on
      which the laws hold, TakeoverClaims the theorems.

    ** What the theorems show

    - Selection: a decision is a sound walk of the configured graph from the group of the
      preferred matching rule; the walk ends for every store; a validated configuration only
      fails where no enabled member exists; the validator accepts exactly the well-formed seeds.
    - Configuration: every one that loads is valid; storing and loading it again is
      the identity up to what the columns keep; a reload moves everything to the new generation or nothing,
      and interleaved reloads are linear.
    - Observation: the restored sessions are those of memory, identifiers stay fresh over a
      restart, the background sink keeps order and accounts for every loss, a flush is
      a barrier, maintenance ends and deletes only what was asked for.
    - DNS: the race of upstreams equals its reference; reading a name ends on every message; a
      denied AAAA question gets no answer; the input on which filtering panics is
      characterised.
    - Inbound servers: every relayed TCP connection is accounted for exactly once in the log
      of the process whatever runs beside it; the session limits hold under every order of
      arrivals and ends.
    - Egress relays: a captured TCP session is copied exactly and what is reported is what
      passed; a UDP association relays each direction as if it were alone, however the two
      interleave, for all five protocols; what a read loses that a datagram of the client
      interrupts is part of the model.
    - Protocols: parsers accept exactly the encodings of their formats; requests, headers and
      datagrams are read back by a server with the key; relays deliver what was
      sent; nonces are fresh within the stated bounds; the replay window refines the
      set of accepted ids; deframers and the unpadder give the same under every chunking.
    - Reality and Vision: a handshake that completes has authenticated the server by the
      key the two share; no message of a peer makes the handshake panic; the records of a
      session decrypt to what was written, in order, whatever the transport splits; what
      the application writes to the VLESS client over Vision, in writes of up to 47098 bytes, is what a server that
      follows the protocol takes out of the transport, but for what is not sent yet and
      what the deframer holds back.
    - Host: replacing the service file is all or nothing under every failing call, files of others
      are never touched, the supervisor cleans up however its child ends, leaves none behind and never runs it as
      root. Every operation of the takeover is a path of its policy: it takes
      only what is free and gives back only what it owns, where the interface is known by
      its name alone and the two files are guarded as long as no call on a file fails; an apply that fails and whose
      rollback meets no second failure leaves the host as it was; a scope is accepted
      exactly when it is well formed.

    ** Bounds and fuel

    Recursion that is not structural takes fuel, and a lemma or the totality theorem
    of the component shows that the fuel given is enough: the walk over groups takes
    the number of groups plus two, eviction one more than the size of the map, digits of a number 40,
    name reading 9 * (length + 1) + 1, the unpadder 3 * length + 4, pruning the rows plus
    two, chunk loops length + 2, record and extension loops length + 1, relay loops one more than
    what is to come, a DNS session over TCP one more than its bytes. The loops of the servers
    have no end of their own: they run for a number of rounds, and the theorems hold for every
    number. Integers keep their width: [wrap_u], [sat_u], [try_u] and [in_u] say where
    they wrap, saturate or are checked; a [usize] that cannot exceed a length is a [nat].

    ** Parameters

    Code that is not under src/ is an argument of the definitions that use it: SHA-256 and the
    other hashes, HKDF, AEADs (with the law that opening undoes sealing), block ciphers,
    base64, random draws, the clock, the TOML and JSON parsers, SQLite (which rows a statement
    meets is modelled, whether a transaction fails and how many pages it takes is given),
    the order in which replies arrive, what a transport answers, the X25519 and signature functions of
    Reality (the class [Crypto] and its laws [CryptoLaws]), the byte search of memchr, the commands of
    the host and the calls on it that fail, the child process.

    ** Not modelled

    - Pure I/O and glue: binding sockets, the connect of the VMess and VLESS clients for UDP,
      tokio's [copy_bidirectional] and name lookup, the TUN device of [dynet-capture] ([linux_tun.rs], [ipstack_poc.rs]),
      the HTTP service of [dynet-api], argument parsing of [dynet-cli], the SQL text of
      [persistence/schema.rs], display code ([summary.rs], labels).
    - Many error texts of the standard library and of sockets: a message then keeps the placeholder
      of its format string. A [write_all] takes place as a
      whole or fails; where a part of it matters (files, the transport of Reality and Vision) the part is modelled.
    - Weak memory, timing and cancellation of tasks: interleavings are sequences of whole
      steps at the points where the code takes its locks.

    ** What is left

    The JSON views of the API over the modelled stores and the argument parser of the command
    line. *)
From Stdlib Require Import ZArith Lia Strings.Byte.
From stdpp Require Import base list numbers option strings.

(** ** Outcomes of a Rust computation

    [Ok] and [Err] are the two constructors of [Result]; [Panic] is an
    out-of-range index, a failed [expect] or an explicit [panic!]. *)
Inductive outcome (E A : Type) : Type :=
| Ok (a : A)
| Err (e : E)
| Panic.
Arguments Ok {E A} a.
Arguments Err {E A} e.
Arguments Panic {E A}.

#[export] Instance outcome_ret E : MRet (outcome E) := λ A a, Ok a.
#[export] Instance outcome_bind E : MBind (outcome E) := λ A B f m,
  match m with Ok a => f a | Err e => Err e | Panic => Panic end.
#[export] Instance outcome_fmap E : FMap (outcome E) := λ A B f m,
  match m with Ok a => Ok (f a) | Err e => Err e | Panic => Panic end.

Definition is_ok {E A} (m : outcome E A) : bool :=
  match m with Ok _ => true | _ => false end.

Definition no_panic {E A} (m : outcome E A) : Prop := m ≠ Panic.

(** [Option::ok_or] *)
Definition ok_or {E A} (o : option A) (e : E) : outcome E A :=
  match o with Some a => Ok a | None => Err e end.

(** [Option::expect] and [Option::unwrap] *)
Definition expect {E A} (o : option A) : outcome E A :=
  match o with Some a => Ok a | None => Panic end.

(** A [Result] of code outside the model, which does not panic. *)
Definition of_result {E A} (r : E + A) : outcome E A :=
  match r with inl e => Err e | inr a => Ok a end.

(** The value of a success, for closed computations. *)
Definition unwrap_or {E A} (d : A) (m : outcome E A) : A :=
  match m with Ok a => a | _ => d end.

Lemma is_ok_unwrap {E A} (d : A) (m : outcome E A) : is_ok m = true → m = Ok (unwrap_or d m).
Proof. by destruct m. Qed.

Lemma outcome_bind_ok {E A B} (f : A → outcome E B) a : Ok a ≫= f = f a.
Proof. reflexivity. Qed.

Lemma outcome_bind_Ok_inv {E A B} (m : outcome E A) (f : A → outcome E B) b :
  m ≫= f = Ok b ↔ ∃ a, m = Ok a ∧ f a = Ok b.
Proof.
  destruct m as [a| |]; cbn; split.
  - by exists a.
  - by intros (? & [= ->] & ?).
  - done.
  - by intros (? & ? & ?).
  - done.
  - by intros (? & ? & ?).
Qed.

Lemma outcome_bind_assoc {E A B C} (m : outcome E A) (f : A → outcome E B)
    (g : B → outcome E C) :
  (m ≫= f) ≫= g = m ≫= (λ a, f a ≫= g).
Proof. by destruct m. Qed.

(** Steps of a checking function: [cond?;] and [if bad { return Err }]. *)
Lemma guard_ok {E} (b : bool) (e : E) : (if b then Err e else Ok tt) = Ok tt ↔ b = false.
Proof. by destruct b. Qed.

Lemma seq_ok {E A} (m : outcome E unit) (k : outcome E A) a :
  (_ ← m; k) = Ok a ↔ m = Ok tt ∧ k = Ok a.
Proof. destruct m as [[]| |]; cbn; split; try done; by intros [? ?]. Qed.

Lemma no_panic_bind {E A B} (m : outcome E A) (f : A → outcome E B) :
  no_panic m → (∀ a, m = Ok a → no_panic (f a)) → no_panic (m ≫= f).
Proof. destruct m as [a| |]; cbn; intros Hm Hf; [by apply Hf|done|done]. Qed.

Lemma no_panic_ok {E A} (a : A) : no_panic (E:=E) (Ok a).
Proof. done. Qed.

Lemma no_panic_err {E A} (e : E) : no_panic (A:=A) (Err e).
Proof. done. Qed.

(** Iterator [collect::<Result<Vec<_>, _>>]: the first error wins. *)
Fixpoint collect_ok {E A B} (f : A → outcome E B) (l : list A) : outcome E (list B) :=
  match l with
  | [] => Ok []
  | a :: l' => b ← f a; bs ← collect_ok f l'; Ok (b :: bs)
  end.

(** A [for] loop whose body may return early with an error. *)
Fixpoint for_each {E A S} (body : S → A → outcome E S) (s : S) (l : list A) : outcome E S :=
  match l with
  | [] => Ok s
  | a :: l' => s' ← body s a; for_each body s' l'
  end.

Lemma ok_or_Ok {E A} (o : option A) (e : E) a : ok_or o e = Ok a ↔ o = Some a.
Proof. destruct o; cbn; split; congruence. Qed.

Lemma no_panic_ok_or {E A} (o : option A) (e : E) : no_panic (ok_or o e).
Proof. by destruct o. Qed.

Lemma collect_ok_Forall2 {E A B} (f : A → outcome E B) l bs :
  collect_ok f l = Ok bs ↔ Forall2 (λ a b, f a = Ok b) l bs.
Proof.
  revert bs; induction l as [|a l IH]; intros bs; cbn.
  { split; [by intros [= <-]|by intros ->%Forall2_nil_inv_l]. }
  rewrite outcome_bind_Ok_inv. setoid_rewrite outcome_bind_Ok_inv. setoid_rewrite IH. split.
  - intros (b & Hb & bs' & Hl & [= <-]). by constructor.
  - intros (b & bs' & Hb & Hl & ->)%Forall2_cons_inv_l. by exists b; split; [|exists bs'].
Qed.

Lemma no_panic_collect_ok {E A B} (f : A → outcome E B) l :
  (∀ a, no_panic (f a)) → no_panic (collect_ok f l).
Proof.
  intros Hf. induction l as [|a l IH]; cbn; [done|].
  apply no_panic_bind; [done|]. intros b _. by apply no_panic_bind.
Qed.

Lemma no_panic_for_each {E A S} (body : S → A → outcome E S) s l :
  (∀ s a, no_panic (body s a)) → no_panic (for_each body s l).
Proof.
  intros Hb. revert s; induction l as [|a l IH]; intros s; cbn; [done|].
  apply no_panic_bind; [done|]. intros s' _. apply IH.
Qed.

Lemma for_each_app {E A S} (body : S → A → outcome E S) s l l' :
  for_each body s (l ++ l') = (s' ← for_each body s l; for_each body s' l').
Proof.
  revert s; induction l as [|a l IH]; intros s; cbn; [done|].
  destruct (body s a); cbn; [apply IH|done|done].
Qed.

(** An invariant of the loop, indexed by the elements consumed so far. *)
Lemma for_each_ind {E A S} (body : S → A → outcome E S) (I : list A → S → Prop) l s s' :
  I [] s →
  (∀ done a s1 s2, I done s1 → body s1 a = Ok s2 → I (done ++ [a])%list s2) →
  for_each body s l = Ok s' → I l s'.
Proof.
  intros H0 Hstep.
  assert (∀ l' done s1, I done s1 → for_each body s1 l' = Ok s' → I (done ++ l')%list s') as Hgen.
  { induction l' as [|a l' IH]; intros d s1 Hi; cbn.
    - intros [= <-]. by rewrite app_nil_r.
    - intros (s2 & Ha & Hl)%outcome_bind_Ok_inv.
      change (a :: l') with ([a] ++ l')%list. rewrite app_assoc. eauto. }
  intros Hl. by apply (Hgen l [] s).
Qed.

(** ** Bytes and machine integers *)
Abbreviation byte := Byte.byte.
Abbreviation bytes := (list Byte.byte).

#[export] Instance byte_eq_dec : EqDecision byte := Byte.byte_eq_dec.

Definition b2z (b : byte) : Z := Z.of_N (Byte.to_N b).
Definition z2b (z : Z) : byte := default x00 (Byte.of_N (Z.to_N (z mod 256))).

Definition u8_max : Z := 255.
Definition u16_max : Z := 65535.
Definition u32_max : Z := 2 ^ 32 - 1.
Definition u64_max : Z := 2 ^ 64 - 1.
Definition u128_max : Z := 2 ^ 128 - 1.
Definition i64_max : Z := 2 ^ 63 - 1.
Definition i64_min : Z := - 2 ^ 63.

Definition in_u (w z : Z) : Prop := (0 ≤ z < 2 ^ w)%Z.

(** [as uN], [wrapping_*] and the release-profile arithmetic on [uN]. *)
Definition wrap_u (w z : Z) : Z := z mod 2 ^ w.

(** Two's complement arithmetic on [i64] in the release profile. *)
Definition wrap_i64 (z : Z) : Z := (z + 2 ^ 63) mod 2 ^ 64 - 2 ^ 63.

Definition sat_sub (a b : Z) : Z := Z.max 0 (a - b).
Definition sat_u (w z : Z) : Z := Z.max 0 (Z.min (2 ^ w - 1) z).

(** [uN::try_from] and [i64::try_from]. *)
Definition try_u (w z : Z) : option Z :=
  if ((0 <=? z) && (z <? 2 ^ w))%Z then Some z else None.
Definition try_i64 (z : Z) : option Z :=
  if ((i64_min <=? z) && (z <=? i64_max))%Z then Some z else None.

(** [usize::checked_add] on a 64-bit target; offsets and lengths are [nat]. *)
Definition checked_add (a b : nat) : option nat :=
  if (Z.of_nat a + Z.of_nat b <=? u64_max)%Z then Some (a + b) else None.

(** Big-endian encoding: [from_be_bytes] and [to_be_bytes]. *)
Definition from_be (l : bytes) : Z := fold_left (λ acc b, (acc * 256 + b2z b)%Z) l 0%Z.

Fixpoint to_be (n : nat) (z : Z) : bytes :=
  match n with
  | O => []
  | S n' => to_be n' (z / 256)%Z ++ [z2b z]
  end.

Lemma b2z_range b : (0 ≤ b2z b < 256)%Z.
Proof.
  unfold b2z. pose proof (Byte.to_N_bounded b) as H.
  split; [lia|]. change 256%Z with (Z.of_N 256). lia.
Qed.

Lemma z2b_b2z b : z2b (b2z b) = b.
Proof.
  unfold z2b. rewrite Z.mod_small by apply b2z_range.
  unfold b2z. rewrite N2Z.id, Byte.of_to_N. reflexivity.
Qed.

Lemma b2z_z2b z : b2z (z2b z) = (z mod 256)%Z.
Proof.
  unfold z2b, b2z. pose proof (Z.mod_pos_bound z 256 eq_refl) as Hz.
  destruct (Byte.of_N (Z.to_N (z mod 256))) as [b|] eqn:E; cbn.
  - apply Byte.to_of_N in E. rewrite E. lia.
  - apply Byte.of_N_None_iff in E. lia.
Qed.

#[export] Instance b2z_inj : Inj (=) (=) b2z.
Proof. intros x y H. rewrite <- (z2b_b2z x), <- (z2b_b2z y). by rewrite H. Qed.

Lemma length_to_be n z : length (to_be n z) = n.
Proof. revert z; induction n as [|n IH]; intros z; cbn; [done|]. rewrite length_app, IH. cbn. lia. Qed.

Lemma from_be_app l b : from_be (l ++ [b]) = (from_be l * 256 + b2z b)%Z.
Proof. unfold from_be. by rewrite fold_left_app. Qed.

Lemma from_be_range l : (0 ≤ from_be l < 256 ^ Z.of_nat (length l))%Z.
Proof.
  induction l as [|b l IH] using rev_ind; [cbn; lia|].
  rewrite from_be_app, length_app. pose proof (b2z_range b).
  replace (Z.of_nat (length l + length [b])) with (Z.succ (Z.of_nat (length l))) by (cbn; lia).
  rewrite Z.pow_succ_r by lia. lia.
Qed.

Lemma from_be_to_be n z : from_be (to_be n z) = (z mod 256 ^ Z.of_nat n)%Z.
Proof.
  revert z; induction n as [|n IH]; intros z.
  - cbn [to_be]. change (256 ^ Z.of_nat 0)%Z with 1%Z. by rewrite Z.mod_1_r.
  - cbn [to_be]. rewrite from_be_app, IH, b2z_z2b.
    rewrite Nat2Z.inj_succ, Z.pow_succ_r by lia.
    rewrite Z.rem_mul_r by lia. lia.
Qed.

Lemma to_be_from_be l : to_be (length l) (from_be l) = l.
Proof.
  induction l as [|b l IH] using rev_ind; [done|].
  rewrite length_app. cbn [length]. rewrite Nat.add_1_r. cbn [to_be].
  rewrite from_be_app. pose proof (b2z_range b).
  replace ((from_be l * 256 + b2z b) / 256)%Z with (from_be l)
    by (rewrite Z.div_add_l, Z.div_small by lia; lia).
  rewrite IH. f_equal. f_equal. rewrite <- (z2b_b2z b) at 2.
  unfold z2b. by rewrite Z.add_comm, Z.mod_add by lia.
Qed.

Lemma to_be_from_be_n n l : length l = n → to_be n (from_be l) = l.
Proof. intros <-. apply to_be_from_be. Qed.

Lemma from_be_to_be_u16 z : in_u 16 z → from_be (to_be 2 z) = z.
Proof. intros H. rewrite from_be_to_be. apply Z.mod_small. exact H. Qed.

Lemma in_u_u8_from_be b : in_u 8 (b2z b).
Proof. apply b2z_range. Qed.

(** ** Bits of machine words *)
Lemma in_u_testbit w z k : in_u w z → (0 ≤ w)%Z → (w ≤ k)%Z → Z.testbit z k = false.
Proof.
  intros [H1 H2] Hw Hk. rewrite <- (Z.mod_small z (2 ^ w)) by done.
  apply Z.mod_pow2_bits_high. lia.
Qed.

Lemma in_u_lor w a b : (0 ≤ w)%Z → in_u w a → in_u w b → in_u w (Z.lor a b).
Proof.
  intros Hw Ha Hb. split; [apply Z.lor_nonneg; split; [apply Ha|apply Hb]|].
  destruct (Z.eq_dec (Z.lor a b) 0)%Z as [->|Hne]; [by apply Z.pow_pos_nonneg|].
  apply Z.log2_lt_pow2.
  { pose proof (proj2 (Z.lor_nonneg a b) (conj (proj1 Ha) (proj1 Hb))). lia. }
  rewrite Z.log2_lor by (apply Ha || apply Hb).
  destruct (Z.eq_dec w 0)%Z as [->|].
  { destruct Ha, Hb. change (2 ^ 0)%Z with 1%Z in *.
    assert (a = 0%Z) as -> by lia. assert (b = 0%Z) as -> by lia. done. }
  apply Z.max_lub_lt.
  - destruct (Z.eq_dec a 0)%Z as [->|]; [change (Z.log2 0) with 0%Z; lia|].
    apply Z.log2_lt_pow2; [|apply Ha]. destruct Ha; lia.
  - destruct (Z.eq_dec b 0)%Z as [->|]; [change (Z.log2 0) with 0%Z; lia|].
    apply Z.log2_lt_pow2; [|apply Hb]. destruct Hb; lia.
Qed.

Lemma wrap_u_small w z : in_u w z → wrap_u w z = z.
Proof. apply Z.mod_small. Qed.

Lemma in_u_wrap w z : (0 ≤ w)%Z → in_u w (wrap_u w z).
Proof. intros Hw. apply Z.mod_pos_bound, Z.pow_pos_nonneg; lia. Qed.

Lemma in_u_bit w k : (0 ≤ k < w)%Z → in_u w (Z.shiftl 1 k).
Proof.
  intros Hk. rewrite Z.shiftl_1_l. split; [apply Z.pow_nonneg; lia|].
  apply Z.pow_lt_mono_r; lia.
Qed.

Lemma testbit_one k : (0 ≤ k)%Z → Z.testbit 1 k = bool_decide (k = 0)%Z.
Proof.
  intros Hk. destruct (Z.eq_dec k 0)%Z as [->|Hne]; [done|].
  rewrite bool_decide_eq_false_2 by done.
  apply Z.bits_above_log2; [lia|]. change (Z.log2 1) with 0%Z. lia.
Qed.

Lemma testbit_shifted_one b k : (0 ≤ b)%Z → (0 ≤ k)%Z →
  Z.testbit (Z.shiftl 1 b) k = bool_decide (k = b)%Z.
Proof.
  intros Hb Hk. rewrite Z.shiftl_1_l, Z.pow2_bits_eqb by done.
  destruct (Z.eqb_spec b k); [rewrite bool_decide_eq_true_2|rewrite bool_decide_eq_false_2];
    auto.
Qed.

(** The test [self.seen & bit != 0] reads one bit. *)
Lemma land_bit_test z k : (0 ≤ k)%Z →
  negb (Z.land z (Z.shiftl 1 k) =? 0)%Z = Z.testbit z k.
Proof.
  intros Hk. destruct (Z.testbit z k) eqn:E.
  - apply negb_true_iff, Z.eqb_neq. intros H0.
    assert (Z.testbit (Z.land z (Z.shiftl 1 k)) k = true) as Ht
      by (rewrite Z.land_spec, E, testbit_shifted_one, bool_decide_eq_true_2; done).
    rewrite H0, Z.bits_0 in Ht. done.
  - apply negb_false_iff, Z.eqb_eq, Z.bits_inj_0. intros n.
    destruct (Z.neg_nonneg_cases n) as [Hn|Hn]; [by apply Z.testbit_neg_r|].
    rewrite Z.land_spec, testbit_shifted_one by done.
    destruct (Z.eq_dec n k)%Z as [->|Hne]; [by rewrite E|].
    rewrite bool_decide_eq_false_2 by done. apply andb_false_r.
Qed.

(** ** Slices

    [p[i]], [&p[a..b]] panic when out of range; [p.get(i)] and
    [p.get(a..b)] return [None]. *)
Definition index {E A} (p : list A) (i : nat) : outcome E A := expect (p !! i).

Definition get_range {A} (p : list A) (a b : nat) : option (list A) :=
  if ((a <=? b) && (b <=? length p))%nat then Some (take (b - a) (drop a p)) else None.

Definition slice {E A} (p : list A) (a b : nat) : outcome E (list A) := expect (get_range p a b).

Lemma index_lt {E A} (p : list A) i d :
  i < length p → index (E:=E) p i = Ok (nth i p d).
Proof.
  intros Hi. unfold index. destruct (lookup_lt_is_Some_2 p i Hi) as [x Hx].
  rewrite Hx. cbn. f_equal. symmetry. apply nth_lookup_Some. done.
Qed.

Lemma no_panic_index {E A} (p : list A) i : i < length p → no_panic (index (E:=E) p i).
Proof.
  intros Hi. unfold index. destruct (lookup_lt_is_Some_2 p i Hi) as [x Hx]. by rewrite Hx.
Qed.

Lemma get_range_Some {A} (p : list A) a b :
  a ≤ b ≤ length p → get_range p a b = Some (take (b - a) (drop a p)).
Proof.
  intros [? ?]. unfold get_range.
  by rewrite (proj2 (Nat.leb_le a b)), (proj2 (Nat.leb_le b (length p))) by done.
Qed.

Lemma get_range_inv {A} (p : list A) a b l :
  get_range p a b = Some l → a ≤ b ≤ length p ∧ l = take (b - a) (drop a p) ∧ length l = b - a.
Proof.
  unfold get_range. destruct (a <=? b) eqn:Ha, (b <=? length p) eqn:Hb; cbn; try done.
  intros [= <-]. apply Nat.leb_le in Ha, Hb. repeat split; try done.
  rewrite length_take, length_drop. lia.
Qed.

Lemma slice_ok {E A} (p : list A) a b :
  a ≤ b ≤ length p → slice (E:=E) p a b = Ok (take (b - a) (drop a p)).
Proof. intros H. unfold slice. by rewrite get_range_Some. Qed.

Lemma slice_at {E} (pre l post : bytes) a b : length pre = a → length pre + length l = b → slice (E:=E) (pre ++ l ++ post) a b = Ok l.
Proof.
  intros <- <-. unfold slice. rewrite get_range_Some by (rewrite !length_app; lia). cbn [expect].
  rewrite drop_app_length. replace (length pre + length l - length pre) with (length l) by lia. by rewrite take_app_length.
Qed.

(** ** Bounded queues

    The idiom [if q.len() == LIMIT { q.pop_front(); } q.push_back(x)] of the
    event store, the shadow store and the reload audit. *)
Definition push_bounded {A} (limit : nat) (q : list A) (x : A) : list A :=
  (if length q =? limit then drop 1 q else q) ++ [x].

(** The last [n] elements of a list. *)
Definition last_n {A} (n : nat) (l : list A) : list A := drop (length l - n) l.

Lemma length_last_n {A} n (l : list A) : length (last_n n l) = Nat.min n (length l).
Proof. unfold last_n. rewrite length_drop. lia. Qed.

Lemma elem_of_last_n {A} n (l : list A) x : x ∈ last_n n l → x ∈ l.
Proof.
  unfold last_n. intros Hx. rewrite <- (take_drop (length l - n) l). apply elem_of_app. by right.
Qed.

Lemma push_bounded_last_n {A} limit (l : list A) x :
  0 < limit → push_bounded limit (last_n limit l) x = last_n limit (l ++ [x]).
Proof.
  intros Hl. unfold push_bounded. rewrite length_last_n. unfold last_n.
  rewrite length_app. cbn [length].
  destruct (Nat.eqb_spec (limit `min` length l) limit) as [E|E].
  - rewrite drop_drop. rewrite drop_app_le by lia. f_equal. f_equal. lia.
  - rewrite drop_app_le by lia. f_equal. f_equal. lia.
Qed.

Lemma fold_push_bounded {A} limit (l q : list A) :
  0 < limit →
  fold_left (push_bounded limit) l (last_n limit q) = last_n limit (q ++ l).
Proof.
  intros Hl. revert q; induction l as [|x l IH]; intros q; cbn.
  - by rewrite app_nil_r.
  - rewrite push_bounded_last_n by done. rewrite IH. by rewrite <- app_assoc.
Qed.

Lemma length_push_bounded {A} limit (q : list A) x :
  0 < limit → length q ≤ limit → length (push_bounded limit q x) ≤ limit.
Proof.
  intros Hl Hq. unfold push_bounded. rewrite length_app. cbn.
  destruct (Nat.eqb_spec (length q) limit); [rewrite length_drop|]; lia.
Qed.

(** ** Automation *)
Create HintDb dynet discriminated.
#[export] Hint Resolve b2z_range in_u_u8_from_be no_panic_ok no_panic_err no_panic_ok_or no_panic_index : dynet.
#[export] Hint Resolve length_push_bounded : dynet.

(** Case analysis on the guards of the code: the boolean tests that block
    a match or an [if] are replaced by their propositional reading. *)
Ltac bool_hyps :=
  repeat match goal with
  | H : (_ && _)%bool = true |- _ => apply andb_prop in H; destruct H
  | H : (_ || _)%bool = false |- _ => apply orb_false_elim in H; destruct H
  | H : negb _ = true |- _ => apply negb_true_iff in H
  | H : negb _ = false |- _ => apply negb_false_iff in H
  | H : (_ <=? _)%nat = true |- _ => apply Nat.leb_le in H
  | H : (_ <=? _)%nat = false |- _ => apply Nat.leb_gt in H
  | H : (_ <? _)%nat = true |- _ => apply Nat.ltb_lt in H
  | H : (_ <? _)%nat = false |- _ => apply Nat.ltb_ge in H
  | H : (_ =? _)%nat = true |- _ => apply Nat.eqb_eq in H
  | H : (_ =? _)%nat = false |- _ => apply Nat.eqb_neq in H
  | H : (_ <=? _)%Z = true |- _ => apply Z.leb_le in H
  | H : (_ <=? _)%Z = false |- _ => apply Z.leb_gt in H
  | H : (_ <? _)%Z = true |- _ => apply Z.ltb_lt in H
  | H : (_ <? _)%Z = false |- _ => apply Z.ltb_ge in H
  | H : (_ =? _)%Z = true |- _ => apply Z.eqb_eq in H
  | H : (_ =? _)%Z = false |- _ => apply Z.eqb_neq in H
  | H : bool_decide _ = true |- _ => apply bool_decide_eq_true in H
  | H : bool_decide _ = false |- _ => apply bool_decide_eq_false in H
  end.

Ltac split_guard :=
  match goal with
  | |- context [if ?b then _ else _] => let E := fresh "Hg" in destruct b eqn:E
  | H : context [if ?b then _ else _] |- _ => let E := fresh "Hg" in destruct b eqn:E
  end; bool_hyps.

(** Split every guard that blocks the goal, discarding impossible branches. *)
Ltac split_guards := repeat (split_guard; try done).

(** [bind_inv H] opens a successful sequence of fallible steps, one equation each. *)
Ltac bind_inv H :=
  cbn beta in H;
  repeat match type of H with
  | (_ ≫= _) = Ok _ =>
      let x := fresh "x" in let E := fresh "E" in
      apply outcome_bind_Ok_inv in H as (x & E & H); cbn beta in H
  end.

(** Panic-freedom of a term built from binds, conditionals and safe calls. *)
Ltac no_panics :=
  repeat first
    [ progress auto with dynet
    | apply no_panic_bind; intros
    | apply no_panic_collect_ok; intros
    | apply no_panic_for_each; intros
    | case_match ].
