(* ===== verification/Collections.v ===== *)
(** * Collections: ordering, stable sorting and ordered maps

    Rust's [Ord] as a type class of lawful three-way comparisons,
    [slice::sort_by] as a stable insertion sort, and [BTreeMap] as a finite map
    whose iteration is sorted by key. *)
From Stdlib Require Import ZArith Lia Strings.Byte Sorting.Sorted Sorting.Permutation.
From stdpp Require Import base list numbers option strings gmap sets sorting.
From S2P Require Import Prelude.

(** ** Comparisons *)
Class OrdLaws {A} (cmp : A → A → comparison) : Prop := {
  ord_eq : ∀ x y, cmp x y = Eq ↔ x = y;
  ord_antisym : ∀ x y, cmp y x = CompOpp (cmp x y);
  ord_trans : ∀ x y z, cmp x y = Lt → cmp y z = Lt → cmp x z = Lt;
}.

Class Ord (A : Type) := { cmp : A → A → comparison; cmp_laws :: OrdLaws cmp }.

(** [Ordering::then_with] *)
Definition then_with (a b : comparison) : comparison :=
  match a with Eq => b | _ => a end.

Definition cmp_leb {A} (c : A → A → comparison) (x y : A) : bool :=
  match c x y with Gt => false | _ => true end.

Definition cmp_lt {A} `{Ord A} (x y : A) : Prop := cmp x y = Lt.
Definition cmp_le {A} `{Ord A} (x y : A) : Prop := cmp x y ≠ Gt.

Lemma compopp_lt c : CompOpp c = Lt → c = Gt.
Proof. by destruct c. Qed.

Section ord.
Context {A} `{Ord A}.

Lemma cmp_eq (x y : A) : cmp x y = Eq ↔ x = y.
Proof. apply ord_eq. Qed.

Lemma cmp_refl (x : A) : cmp x x = Eq.
Proof. by apply cmp_eq. Qed.

Lemma cmp_antisym (x y : A) : cmp y x = CompOpp (cmp x y).
Proof. apply ord_antisym. Qed.

Lemma cmp_trans (x y z : A) : cmp x y = Lt → cmp y z = Lt → cmp x z = Lt.
Proof. apply ord_trans. Qed.

#[export] Instance cmp_lt_trans : Transitive cmp_lt.
Proof. intros x y z. apply cmp_trans. Qed.

#[export] Instance cmp_lt_irrefl : Irreflexive cmp_lt.
Proof. intros x Hx. unfold cmp_lt in Hx. by rewrite cmp_refl in Hx. Qed.

Lemma cmp_gt x y : cmp x y = Gt ↔ cmp_lt y x.
Proof. unfold cmp_lt. rewrite (cmp_antisym x y). by destruct (cmp x y). Qed.

Lemma cmp_le_lteq x y : cmp_le x y ↔ cmp_lt x y ∨ x = y.
Proof.
  unfold cmp_le, cmp_lt. rewrite <- cmp_eq. destruct (cmp x y); split; try done; auto.
  by intros [?|?].
Qed.

Lemma cmp_le_refl x : cmp_le x x.
Proof. apply cmp_le_lteq. by right. Qed.

Lemma cmp_le_trans x y z : cmp_le x y → cmp_le y z → cmp_le x z.
Proof.
  rewrite !cmp_le_lteq. intros [Hxy| ->] [Hyz| ->]; auto. left. by trans y.
Qed.

Lemma cmp_le_total x y : cmp_le x y ∨ cmp_le y x.
Proof. unfold cmp_le. rewrite (cmp_antisym x y). by destruct (cmp x y); auto. Qed.

Lemma cmp_le_antisym x y : cmp_le x y → cmp_le y x → x = y.
Proof.
  rewrite !cmp_le_lteq. intros [?|?] [?|?]; auto. exfalso. by apply (cmp_lt_irrefl x); trans y.
Qed.
End ord.

Lemma Z_ord_laws : OrdLaws Z.compare.
Proof.
  split.
  - apply Z.compare_eq_iff.
  - intros x y. by rewrite Z.compare_antisym.
  - intros x y z. rewrite !Z.compare_lt_iff. lia.
Qed.
#[export] Instance Z_ord : Ord Z := {| cmp := Z.compare; cmp_laws := Z_ord_laws |}.

(** Rust compares strings bytewise, as [String.compare] does. *)
Lemma string_compare_trans x y z :
  String.compare x y = Lt → String.compare y z = Lt → String.compare x z = Lt.
Proof.
  revert y z; induction x as [|a x IH]; intros [|b y] [|c z]; cbn; try done.
  unfold Ascii.compare.
  destruct (N.compare_spec (Ascii.N_of_ascii a) (Ascii.N_of_ascii b)) as [E1|E1|E1]; try done;
  destruct (N.compare_spec (Ascii.N_of_ascii b) (Ascii.N_of_ascii c)) as [E2|E2|E2]; try done;
  intros H1 H2.
  - rewrite E1, E2, N.compare_refl. by apply (IH y).
  - rewrite E1. by apply N.compare_lt_iff in E2 as ->.
  - rewrite <- E2. by apply N.compare_lt_iff in E1 as ->.
  - assert (Ascii.N_of_ascii a < Ascii.N_of_ascii c)%N as E by lia.
    by apply N.compare_lt_iff in E as ->.
Qed.

Lemma string_ord_laws : OrdLaws String.compare.
Proof.
  split.
  - intros x y. split; [apply String.compare_eq_iff|]. intros ->.
    induction y as [|a y IH]; cbn; [done|]. unfold Ascii.compare. by rewrite N.compare_refl.
  - intros x y. apply String.compare_antisym.
  - apply string_compare_trans.
Qed.
#[export] Instance string_ord : Ord string :=
  {| cmp := String.compare; cmp_laws := string_ord_laws |}.

(** Tuples compare lexicographically. *)
Definition pair_cmp {A B} `{Ord A, Ord B} (p q : A * B) : comparison :=
  then_with (cmp p.1 q.1) (cmp p.2 q.2).

Lemma pair_ord_laws {A B} `{Ord A, Ord B} : OrdLaws (pair_cmp (A:=A) (B:=B)).
Proof.
  split; unfold pair_cmp, then_with.
  - intros [a b] [c d]; cbn. destruct (cmp a c) eqn:E.
    + apply cmp_eq in E as ->. rewrite cmp_eq. split; congruence.
    + split; [done|]. intros [= -> ->]. by rewrite cmp_refl in E.
    + split; [done|]. intros [= -> ->]. by rewrite cmp_refl in E.
  - intros [a b] [c d]; cbn. rewrite (cmp_antisym a c). destruct (cmp a c); cbn; try done.
    apply cmp_antisym.
  - intros [a b] [c d] [e f]; cbn.
    destruct (cmp a c) eqn:E1; [apply cmp_eq in E1 as ->| |done].
    + destruct (cmp c e) eqn:E2; [|done|done]. apply cmp_trans.
    + intros _. destruct (cmp c e) eqn:E2; [apply cmp_eq in E2 as ->| |done].
      * by rewrite E1.
      * intros _. by rewrite (cmp_trans a c e).
Qed.
#[export] Instance pair_ord {A B} `{Ord A, Ord B} : Ord (A * B) :=
  {| cmp := pair_cmp; cmp_laws := pair_ord_laws |}.

(** ** Stable sorting *)
Section sort.
Context {A : Type} (c : A → A → comparison).

(** An element goes before the elements it does not exceed, so equal
    elements keep the order of the input. *)
Fixpoint sort_insert (x : A) (l : list A) : list A :=
  match l with
  | [] => [x]
  | y :: l' => if cmp_leb c x y then x :: l else y :: sort_insert x l'
  end.

(** [slice::sort_by] *)
Definition sort_by (l : list A) : list A := foldr sort_insert [] l.

Lemma sort_insert_perm x l : sort_insert x l ≡ₚ x :: l.
Proof.
  induction l as [|y l IH]; cbn; [done|]. destruct (cmp_leb c x y); [done|].
  rewrite IH. by constructor.
Qed.

Lemma sort_by_perm l : sort_by l ≡ₚ l.
Proof. induction l as [|x l IH]; cbn; [done|]. by rewrite sort_insert_perm, IH. Qed.

Lemma elem_of_sort_by x l : x ∈ sort_by l ↔ x ∈ l.
Proof. by rewrite sort_by_perm. Qed.

Lemma length_sort_by l : length (sort_by l) = length l.
Proof. by rewrite sort_by_perm. Qed.

(** A preorder given by a comparison function. *)
Class CmpPreorder : Prop := {
  leb_total : ∀ x y, cmp_leb c x y = false → cmp_leb c y x = true;
  leb_trans : ∀ x y z, cmp_leb c x y = true → cmp_leb c y z = true → cmp_leb c x z = true;
}.

Context `{CmpPreorder}.

Lemma sort_insert_sorted x l :
  StronglySorted (λ a b, cmp_leb c a b = true) l →
  StronglySorted (λ a b, cmp_leb c a b = true) (sort_insert x l).
Proof.
  induction 1 as [|y l Hs IH Hall]; cbn; [by repeat constructor|].
  destruct (cmp_leb c x y) eqn:E.
  - constructor; [by constructor|]. constructor; [done|].
    eapply Forall_impl; [exact Hall|]. intros z Hz. by eapply leb_trans.
  - constructor; [done|]. rewrite sort_insert_perm. constructor; [by apply leb_total|done].
Qed.

Lemma sort_by_sorted l : StronglySorted (λ a b, cmp_leb c a b = true) (sort_by l).
Proof. induction l; cbn; [constructor|]. by apply sort_insert_sorted. Qed.

Lemma sort_insert_head x l :
  Forall (λ y, cmp_leb c x y = true) l → sort_insert x l = x :: l.
Proof. destruct l as [|y l]; [done|]. intros [Hy _]%Forall_cons. cbn. by rewrite Hy. Qed.

(** Sorting leaves a sorted list as it is. *)
Lemma sort_by_id l : StronglySorted (λ a b, cmp_leb c a b = true) l → sort_by l = l.
Proof.
  induction 1 as [|x l _ IH Hall]; [done|].
  change (sort_by (x :: l)) with (sort_insert x (sort_by l)). rewrite IH. by apply sort_insert_head.
Qed.

(** Stability: the elements that satisfy a predicate which does not separate
    equal elements are those of the input in the order of the input, when
    the predicate selects one equivalence class. *)
Lemma sort_insert_filter_class (f : A → bool) x l :
  (∀ a b, f a = true → f b = true → cmp_leb c a b = true) →
  List.filter f (sort_insert x l) = (if f x then [x] else []) ++ List.filter f l.
Proof.
  intros Hc. induction l as [|y l IH]; cbn; [by destruct (f x)|].
  destruct (cmp_leb c x y) eqn:E; cbn; [by destruct (f x)|].
  rewrite IH. destruct (f y) eqn:Ey, (f x) eqn:Ex; cbn; try done.
  by rewrite (Hc x y) in E.
Qed.

Lemma sort_by_stable (f : A → bool) l :
  (∀ a b, f a = true → f b = true → cmp_leb c a b = true) →
  List.filter f (sort_by l) = List.filter f l.
Proof.
  intros Hc. induction l as [|x l IH]; [done|].
  change (sort_by (x :: l)) with (sort_insert x (sort_by l)).
  rewrite sort_insert_filter_class, IH by done. cbn. by destruct (f x).
Qed.

(** The first element of a sorted list that passes a test is a least one of
    those that pass. *)
Lemma find_sorted_least (f : A → bool) l x :
  StronglySorted (λ a b, cmp_leb c a b = true) l →
  List.find f l = Some x →
  ∀ y, y ∈ l → f y = true → x = y ∨ cmp_leb c x y = true.
Proof.
  induction 1 as [|z l Hs IH Hall]; cbn; [done|].
  destruct (f z) eqn:Ez.
  - intros [= ->] y [->|Hy]%elem_of_cons _; [by left|right].
    rewrite Forall_forall in Hall. by apply Hall.
  - intros Hf y [->|Hy]%elem_of_cons Hfy; [congruence|]. by apply IH.
Qed.
End sort.
Arguments CmpPreorder {A} c.

(** Comparison through a key, and lexicographic chains of comparisons. *)
Lemma ord_preorder {A} `{Ord A} : CmpPreorder (cmp (A:=A)).
Proof.
  assert (∀ x y : A, cmp_leb cmp x y = true ↔ cmp_le x y) as Hiff.
  { intros x y. unfold cmp_leb, cmp_le. by destruct (cmp x y). }
  split.
  - intros x y Hf. apply Hiff. destruct (cmp_le_total x y) as [Hle|Hle]; [|done].
    apply Hiff in Hle. congruence.
  - intros x y z. rewrite !Hiff. apply cmp_le_trans.
Qed.

Lemma cmp_leb_on {A B} (c : B → B → comparison) (f : A → B) :
  CmpPreorder c → CmpPreorder (λ x y, c (f x) (f y)).
Proof.
  intros [Ht Htr]. split; unfold cmp_leb in *.
  - intros x y. apply (Ht (f x) (f y)).
  - intros x y z. apply (Htr (f x) (f y) (f z)).
Qed.

Lemma find_filter {A} (f g : A → bool) l :
  List.find f (List.filter g l) = List.find (λ x, g x && f x) l.
Proof. induction l as [|x l IH]; cbn; [done|]. destruct (g x); cbn; [|done]. by rewrite IH. Qed.

Lemma find_Some_elem {A} (f : A → bool) l x :
  List.find f l = Some x → x ∈ l ∧ f x = true.
Proof. intros [Hin Hf]%List.find_some. split; [by apply list_elem_of_In|done]. Qed.

Lemma find_None_elem {A} (f : A → bool) l :
  List.find f l = None ↔ ∀ x, x ∈ l → f x = false.
Proof.
  split.
  - intros Hn x Hx. eapply List.find_none; [exact Hn|]. by apply list_elem_of_In.
  - induction l as [|y l IH]; cbn; [done|]. intros Hall.
    rewrite (Hall y) by apply list_elem_of_here. apply IH.
    intros x Hx. apply Hall. by apply list_elem_of_further.
Qed.

(** ** [BTreeMap]

    A finite map together with the iteration in key order. *)
Section btree.
Context {K} `{Ord K, Countable K} {V : Type}.
Implicit Types m : gmap K V.

Definition key_cmp (p q : K * V) : comparison := cmp p.1 q.1.

(** [BTreeMap::iter] *)
Definition btree_iter m : list (K * V) := sort_by key_cmp (map_to_list m).
Definition btree_keys m : list K := (btree_iter m).*1.
Definition btree_values m : list V := (btree_iter m).*2.

(** [Iterator::collect::<BTreeMap<_, _>>]: the last pair with a key wins. *)
Definition btree_collect (l : list (K * V)) : gmap K V :=
  fold_left (λ m p, <[p.1 := p.2]> m) l ∅.

Lemma elem_of_btree_iter m k v : (k, v) ∈ btree_iter m ↔ m !! k = Some v.
Proof. unfold btree_iter. rewrite elem_of_sort_by. apply elem_of_map_to_list. Qed.

Lemma elem_of_btree_values m v : v ∈ btree_values m ↔ ∃ k, m !! k = Some v.
Proof.
  unfold btree_values. rewrite list_elem_of_fmap. split.
  - intros ([k w] & -> & Hin). exists k. by apply elem_of_btree_iter.
  - intros [k Hk]. exists (k, v). by rewrite elem_of_btree_iter.
Qed.

Lemma elem_of_btree_keys m k : k ∈ btree_keys m ↔ is_Some (m !! k).
Proof.
  unfold btree_keys. rewrite list_elem_of_fmap. split.
  - intros ([k' w] & -> & Hin). exists w. by apply elem_of_btree_iter.
  - intros [v Hk]. exists (k, v). by rewrite elem_of_btree_iter.
Qed.

Lemma length_btree_iter m : length (btree_iter m) = size m.
Proof. unfold btree_iter. rewrite length_sort_by. apply length_map_to_list. Qed.

Lemma NoDup_btree_keys m : NoDup (btree_keys m).
Proof.
  unfold btree_keys, btree_iter. rewrite sort_by_perm. apply NoDup_fst_map_to_list.
Qed.

#[export] Instance key_cmp_preorder : CmpPreorder key_cmp.
Proof. apply (cmp_leb_on cmp fst), ord_preorder. Qed.

Lemma btree_iter_sorted m : StronglySorted (λ p q, cmp_leb key_cmp p q = true) (btree_iter m).
Proof. apply sort_by_sorted, _. Qed.

Lemma btree_keys_sorted m : StronglySorted (λ a b, cmp_le a b) (btree_keys m).
Proof.
  unfold btree_keys. pose proof (btree_iter_sorted m) as Hs. revert Hs.
  generalize (btree_iter m). intros l. induction 1 as [|p l _ IH Hall]; cbn; constructor; [done|].
  apply Forall_fmap. eapply Forall_impl; [exact Hall|]. intros q Hq. unfold compose.
  unfold cmp_leb, key_cmp in Hq. unfold cmp_le. by destruct (cmp p.1 q.1).
Qed.

(** The keys are the only sorted enumeration of the domain. *)
Lemma btree_keys_unique m l :
  StronglySorted (λ a b, cmp_le a b) l → NoDup l → (∀ k, k ∈ l ↔ is_Some (m !! k)) → btree_keys m = l.
Proof.
  intros Hs Hnd Hin. eapply (StronglySorted_unique_strong (λ a b, cmp_le a b)).
  - intros x y _ _. apply cmp_le_antisym.
  - apply btree_keys_sorted.
  - done.
  - apply NoDup_Permutation; [apply NoDup_btree_keys|done|]. intros k. by rewrite elem_of_btree_keys, Hin.
Qed.

Lemma btree_keys_insert_last m k v :
  (∀ k', k' ∈ btree_keys m → cmp_lt k' k) → btree_keys (<[k := v]> m) = (btree_keys m ++ [k])%list.
Proof.
  intros Hlt. apply btree_keys_unique.
  - pose proof (btree_keys_sorted m) as Hs. revert Hs Hlt. generalize (btree_keys m) as l.
    induction 1 as [|x l _ IH Hall]; intros Hlt; cbn; [repeat constructor|].
    constructor; [apply IH; intros; apply Hlt; by apply list_elem_of_further|].
    apply Forall_app. split; [done|]. apply Forall_singleton. apply cmp_le_lteq. left.
    apply Hlt, list_elem_of_here.
  - apply NoDup_app. split_and!; [apply NoDup_btree_keys| |apply NoDup_singleton].
    intros x Hx%Hlt ->%list_elem_of_singleton. unfold cmp_lt in Hx. by rewrite cmp_refl in Hx.
  - intros x. rewrite elem_of_app, elem_of_btree_keys, list_elem_of_singleton, lookup_insert_is_Some.
    destruct (decide (k = x)); naive_solver.
Qed.

Lemma btree_keys_delete_head m k l :
  btree_keys m = k :: l → btree_keys (delete k m) = l.
Proof.
  intros Hk. pose proof (btree_keys_sorted m) as Hs. pose proof (NoDup_btree_keys m) as Hnd.
  rewrite Hk in Hs, Hnd. inversion_clear Hs. apply NoDup_cons in Hnd as [Hnin Hnd].
  apply btree_keys_unique; [done|done|]. intros x.
  rewrite lookup_delete_is_Some, <- elem_of_btree_keys, Hk, elem_of_cons. naive_solver.
Qed.

Lemma fold_insert_lookup_ne (l : list (K * V)) m k :
  k ∉ l.*1 → fold_left (λ m p, <[p.1 := p.2]> m) l m !! k = m !! k.
Proof.
  revert m; induction l as [|[k' v'] l IH]; intros m Hk; cbn in *; [done|].
  apply not_elem_of_cons in Hk as [Hne Hk]. rewrite IH by done.
  by rewrite lookup_insert_ne.
Qed.

Lemma btree_collect_Some l k v : btree_collect l !! k = Some v → (k, v) ∈ l.
Proof.
  unfold btree_collect.
  assert (∀ m, fold_left (λ m p, <[p.1 := p.2]> m) l m !! k = Some v →
               (k, v) ∈ l ∨ m !! k = Some v) as Hgen.
  { induction l as [|[k' v'] l IH]; intros m; cbn; [by right|].
    intros [Hin|Hin]%IH; [left; by apply list_elem_of_further|].
    destruct (decide (k = k')) as [->|Hne].
    - rewrite lookup_insert_eq in Hin. injection Hin as ->. left. apply list_elem_of_here.
    - rewrite lookup_insert_ne in Hin by done. by right. }
  intros [?|Hem]%Hgen; [done|]. by rewrite lookup_empty in Hem.
Qed.

(** Without duplicate keys the map holds exactly the pairs of the list. *)
Lemma btree_collect_NoDup l k v :
  NoDup l.*1 → btree_collect l !! k = Some v ↔ (k, v) ∈ l.
Proof.
  intros Hnd. split; [apply btree_collect_Some|]. unfold btree_collect.
  generalize (∅ : gmap K V). induction l as [|[k' v'] l IH]; intros m Hin; cbn in *.
  { by apply elem_of_nil in Hin. }
  apply NoDup_cons in Hnd as [Hk' Hnd].
  apply elem_of_cons in Hin as [[= <- <-]|Hin].
  - rewrite fold_insert_lookup_ne by done. apply lookup_insert_eq.
  - by apply IH.
Qed.

Lemma btree_collect_None l k : btree_collect l !! k = None ↔ k ∉ l.*1.
Proof.
  split.
  - unfold btree_collect. intros Hn Hin.
    assert (∀ m, k ∈ l.*1 → is_Some (fold_left (λ m p, <[p.1 := p.2]> m) l m !! k)) as Hs.
    { clear. induction l as [|[k' v'] l IH]; intros m Hin; cbn in *.
      { by apply elem_of_nil in Hin. }
      destruct (decide (k ∈ l.*1)) as [Hk|Hk]; [by apply IH|].
      apply elem_of_cons in Hin as [->|Hin]; [|done].
      rewrite fold_insert_lookup_ne by done. rewrite lookup_insert_eq. by eexists. }
    destruct (Hs ∅ Hin) as [? Hx]. congruence.
  - unfold btree_collect. intros Hk. by rewrite fold_insert_lookup_ne, lookup_empty.
Qed.
End btree.

(** [BTreeSet<u64>] and [BTreeSet<String>] are used only for membership and
    size and are modelled by [gset]. *)

(** ** Extrema

    [Iterator::max_by] keeps the last of several greatest elements,
    [Iterator::min_by] the first of several least ones. *)
Definition fold_choose {A} (choose : A → A → A) (l : list A) : option A :=
  fold_left (λ acc x, match acc with None => Some x | Some y => Some (choose y x) end) l None.

Definition max_by {A} (c : A → A → comparison) : list A → option A :=
  fold_choose (λ y x, match c y x with Gt => y | _ => x end).

Definition min_by {A} (c : A → A → comparison) : list A → option A :=
  fold_choose (λ y x, match c y x with Gt => x | _ => y end).

Lemma NoDup_fst_inj {A B} (l : list (A * B)) k x y :
  NoDup l.*1 → (k, x) ∈ l → (k, y) ∈ l → x = y.
Proof.
  induction l as [|[k' z] l IH]; cbn; [by intros _ ?%elem_of_nil|].
  intros [Hk Hnd]%NoDup_cons Hx Hy.
  assert (∀ w, (k', w) ∈ l → False) as Hno.
  { intros w Hw. apply Hk. apply list_elem_of_fmap. by exists (k', w). }
  rewrite elem_of_cons in Hx, Hy. naive_solver.
Qed.

Lemma size_list_to_set_le (l : list string) : size (list_to_set (C:=gset string) l) ≤ length l.
Proof.
  induction l as [|x l IH]; cbn; [by rewrite size_empty|].
  rewrite size_union_alt, size_singleton.
  pose proof (subseteq_size (list_to_set (C:=gset string) l ∖ {[x]}) (list_to_set l) ltac:(set_solver)).
  lia.
Qed.

(** The head of a sorted list is its first least element. *)
Lemma min_by_head {A} (c : A → A → comparison) x l :
  Forall (λ y, cmp_leb c x y = true) l → min_by c (x :: l) = Some x.
Proof.
  unfold min_by, fold_choose; cbn. induction 1 as [|y l Hy _ IH]; [done|]. cbn.
  unfold cmp_leb in Hy. destruct (c x y); [exact IH|exact IH|done].
Qed.

Section extrema.
Context {A : Type}.

Lemma fold_choose_Some (choose : A → A → A) (R : relation A) l :
  PreOrder R → (∀ a z, choose a z = a ∨ choose a z = z) →
  (∀ a z, R (choose a z) a ∧ R (choose a z) z) → l ≠ [] →
  ∃ x, fold_choose choose l = Some x ∧ x ∈ l ∧ ∀ y, y ∈ l → R x y.
Proof.
  intros HR Hin HRc. destruct l as [|a l]; [done|]. intros _. unfold fold_choose; cbn.
  revert a; induction l as [|z l IH]; intros a; cbn.
  { exists a. split_and!; [done|apply list_elem_of_here|].
    by intros y [->|?%elem_of_nil]%elem_of_cons. }
  destruct (IH (choose a z)) as (x & -> & Hx & Hle). exists x. split_and!; [done| |].
  - apply elem_of_cons in Hx as [->|Hx]; [|by do 2 apply list_elem_of_further].
    destruct (Hin a z) as [-> | ->]; [|apply list_elem_of_further]; apply list_elem_of_here.
  - destruct (HRc a z) as [Ha Hz]. assert (R x (choose a z)) as Hxc by apply Hle, list_elem_of_here.
    intros y [->|[->|Hy]%elem_of_cons]%elem_of_cons; [by etrans..|].
    apply Hle. by apply list_elem_of_further.
Qed.

Context (c : A → A → comparison) `{CmpPreorder A c}.

Lemma min_by_Some l : l ≠ [] →
  ∃ x, min_by c l = Some x ∧ x ∈ l ∧ ∀ y, y ∈ l → x = y ∨ cmp_leb c x y = true.
Proof.
  apply (fold_choose_Some _ (λ x y, x = y ∨ cmp_leb c x y = true)).
  - split; [by left|]. intros x y z [->|Hxy] [->|Hyz]; auto. right. by eapply leb_trans.
  - intros a z. destruct (c a z); auto.
  - intros a z. destruct (c a z) eqn:E; split; auto; right;
      first [by unfold cmp_leb; rewrite E|apply leb_total; [done|]; unfold cmp_leb; by rewrite E].
Qed.

Lemma max_by_Some l : l ≠ [] →
  ∃ x, max_by c l = Some x ∧ x ∈ l ∧ ∀ y, y ∈ l → x = y ∨ cmp_leb c y x = true.
Proof.
  apply (fold_choose_Some _ (λ x y, x = y ∨ cmp_leb c y x = true)).
  - split; [by left|]. intros x y z [->|Hxy] [->|Hyz]; auto. right. by eapply leb_trans.
  - intros a z. destruct (c a z); auto.
  - intros a z. destruct (c a z) eqn:E; split; auto; right;
      first [by unfold cmp_leb; rewrite E|apply leb_total; [done|]; unfold cmp_leb; by rewrite E].
Qed.
End extrema.

(** Reversed comparisons and chains of comparisons. *)
Lemma flip_ord_laws {A} (c : A → A → comparison) : OrdLaws c → OrdLaws (flip c).
Proof.
  intros [He Ha Ht]. split; unfold flip.
  - intros x y. rewrite He. done.
  - intros x y. apply Ha.
  - intros x y z Hxy Hyz. by apply (Ht z y x).
Qed.

Lemma lex_preorder {A B C} (c1 : B → B → comparison) (c2 : C → C → comparison)
    (f : A → B) (g : A → C) :
  OrdLaws c1 → OrdLaws c2 →
  CmpPreorder (λ x y, then_with (c1 (f x) (f y)) (c2 (g x) (g y))).
Proof.
  intros H1 H2. set (o1 := Build_Ord B c1 H1). set (o2 := Build_Ord C c2 H2).
  exact (cmp_leb_on (cmp (Ord:=@pair_ord B C o1 o2)) (λ x, (f x, g x)) ord_preorder).
Qed.
