(* ===== verification/Net.v ===== *)
(** * Net: [std::net] values and byte streams

    The part of [std::net] and of tokio's [AsyncReadExt] that the protocol
    code uses: addresses as integers with their big-endian octets, an input stream
    that delivers a finite list of bytes and then end-of-file, and the check that
    [String::from_utf8] makes. *)
From Stdlib Require Import ZArith Lia Strings.Byte.
From stdpp Require Import base list numbers option strings.
From S2P Require Import Prelude.

(** [Ipv4Addr] and [Ipv6Addr] are the [u32] and the [u128] they convert to. *)
Inductive IpAddr :=
| V4 (bits : Z)
| V6 (bits : Z).

(** [SocketAddr]; the scope id is that of [SocketAddrV6] and is 0 for IPv4. The
    flow information is 0 in every address that the code builds or parses. *)
Record SocketAddr := { sa_ip : IpAddr; sa_port : Z; sa_scope : Z }.

(** [SocketAddr::new] *)
Definition socket_addr (ip : IpAddr) (port : Z) : SocketAddr :=
  {| sa_ip := ip; sa_port := port; sa_scope := 0 |}.

#[export] Instance IpAddr_eq_dec : EqDecision IpAddr.
Proof. solve_decision. Defined.

#[export] Instance SocketAddr_eq_dec : EqDecision SocketAddr.
Proof. solve_decision. Defined.

Definition wf_ip (a : IpAddr) : Prop :=
  match a with V4 n => in_u 32 n | V6 n => in_u 128 n end.

Definition wf_addr (a : SocketAddr) : Prop := wf_ip (sa_ip a) ∧ in_u 16 (sa_port a).

Definition is_ipv4 (a : IpAddr) : bool := match a with V4 _ => true | V6 _ => false end.

(** [Ipv4Addr::octets], [Ipv6Addr::octets] *)
Definition octets (a : IpAddr) : bytes :=
  match a with V4 n => to_be 4 n | V6 n => to_be 16 n end.

(** [Ipv4Addr::from([u8; 4])] and [Ipv6Addr::from([u8; 16])] *)
Definition ipv4_from (l : bytes) : IpAddr := V4 (from_be l).
Definition ipv6_from (l : bytes) : IpAddr := V6 (from_be l).

Lemma wf_ipv4_from l : length l = 4 → wf_ip (ipv4_from l).
Proof. intros H. cbn. pose proof (from_be_range l) as R. rewrite H in R. exact R. Qed.

Lemma wf_ipv6_from l : length l = 16 → wf_ip (ipv6_from l).
Proof. intros H. cbn. pose proof (from_be_range l) as R. rewrite H in R. exact R. Qed.

Lemma ipv4_from_octets n : in_u 32 n → ipv4_from (octets (V4 n)) = V4 n.
Proof.
  intros H. unfold ipv4_from, octets. rewrite from_be_to_be. f_equal.
  apply Z.mod_small. exact H.
Qed.

Lemma ipv6_from_octets n : in_u 128 n → ipv6_from (octets (V6 n)) = V6 n.
Proof.
  intros H. unfold ipv6_from, octets. rewrite from_be_to_be. f_equal.
  apply Z.mod_small. exact H.
Qed.

Lemma length_octets a : length (octets a) = if is_ipv4 a then 4 else 16.
Proof. destruct a; cbn -[to_be]; apply length_to_be. Qed.

(** ** Byte streams

    [AsyncReadExt::read_exact]: the bytes that are still to come, then
    end-of-file. A short read reports [UnexpectedEof]. *)
Definition stream := bytes.

Definition read_exact (n : nat) (s : stream) : option (bytes * stream) :=
  if n <=? length s then Some (take n s, drop n s) else None.

Lemma read_exact_app n l s : length l = n → read_exact n (l ++ s) = Some (l, s).
Proof.
  intros <-. unfold read_exact. rewrite length_app.
  rewrite (proj2 (Nat.leb_le _ _)) by lia. by rewrite take_app_length, drop_app_length.
Qed.

Lemma read_exact_inv n s l s' :
  read_exact n s = Some (l, s') → length l = n ∧ s = l ++ s'.
Proof.
  unfold read_exact. destruct (n <=? length s) eqn:E; [|done].
  intros [= <- <-]. apply Nat.leb_le in E. rewrite length_take, take_drop. split; [lia|done].
Qed.

Lemma read_exact_None n s : read_exact n s = None ↔ length s < n.
Proof.
  unfold read_exact. destruct (n <=? length s) eqn:E.
  - apply Nat.leb_le in E. split; [done|lia].
  - apply Nat.leb_gt in E. done.
Qed.

(** ** [String::from_utf8]: well-formed UTF-8 *)
Definition in_range (lo hi : Z) (b : byte) : bool := ((lo <=? b2z b) && (b2z b <=? hi))%Z.
Definition continuation (b : byte) : bool := in_range 128 191 b.

(** The second byte of a sequence of three, and of four. *)
Definition second_of_three (first second : byte) : bool :=
  if (b2z first =? 224)%Z then in_range 160 191 second
  else if (b2z first =? 237)%Z then in_range 128 159 second
  else continuation second.

Definition second_of_four (first second : byte) : bool :=
  if (b2z first =? 240)%Z then in_range 144 191 second
  else if (b2z first =? 244)%Z then in_range 128 143 second
  else continuation second.

Fixpoint utf8_valid (l : bytes) : bool :=
  match l with
  | [] => true
  | b :: l1 =>
      if in_range 0 127 b then utf8_valid l1
      else
        match l1 with
        | [] => false
        | c1 :: l2 =>
            if in_range 194 223 b then continuation c1 && utf8_valid l2
            else
              match l2 with
              | [] => false
              | c2 :: l3 =>
                  if in_range 224 239 b then second_of_three b c1 && continuation c2 && utf8_valid l3
                  else
                    match l3 with
                    | [] => false
                    | c3 :: l4 =>
                        in_range 240 244 b && second_of_four b c1 && continuation c2
                        && continuation c3 && utf8_valid l4
                    end
              end
        end
  end.
