(* ===== verification/RustStd.v ===== *)
(** * RustStd: the text operations of the Rust standard library

    [str] methods, integer parsing and formatting, and the [FromStr] and
    [Display] implementations of [IpAddr] as [core::net] defines them. A Rust
    string is the sequence of its UTF-8 bytes. *)
From Stdlib Require Import ZArith Lia Strings.Byte Ascii String.
From stdpp Require Import base list numbers option strings.
From S2P Require Import Prelude Net.
Local Open Scope string_scope.
Local Open Scope nat_scope.

(** ** Characters *)
Definition code (c : ascii) : Z := Z.of_N (N_of_ascii c).
Definition chr (z : Z) : ascii := ascii_of_N (Z.to_N z).

Definition lower_char (c : ascii) : ascii :=
  if ((65 <=? code c) && (code c <=? 90))%Z then chr (code c + 32) else c.

(** [char::to_digit] *)
Definition to_digit (radix : Z) (c : ascii) : option Z :=
  let n := code c in
  let d := if ((48 <=? n) && (n <=? 57))%Z then Some (n - 48)%Z
           else if ((97 <=? n) && (n <=? 122))%Z then Some (n - 87)%Z
           else if ((65 <=? n) && (n <=? 90))%Z then Some (n - 55)%Z
           else None in
  match d with Some v => if (v <? radix)%Z then Some v else None | None => None end.

Definition digit_char (d : Z) : ascii := if (d <? 10)%Z then chr (48 + d) else chr (87 + d).

(** ** [str] *)
Fixpoint to_ascii_lowercase (s : string) : string :=
  match s with "" => "" | String c s' => String (lower_char c) (to_ascii_lowercase s') end.

Definition eq_ignore_ascii_case (a b : string) : bool :=
  String.eqb (to_ascii_lowercase a) (to_ascii_lowercase b).

Fixpoint str_drop (n : nat) (s : string) : string :=
  match n, s with
  | O, _ => s
  | S n', String _ s' => str_drop n' s'
  | S _, "" => ""
  end.

Definition ends_with (s suffix : string) : bool :=
  (String.length suffix <=? String.length s) &&
  String.eqb (str_drop (String.length s - String.length suffix) s) suffix.

Definition starts_with (s p : string) : bool := String.prefix p s.

(** [str::contains] on a string *)
Fixpoint contains (p s : string) : bool :=
  String.prefix p s || match s with "" => false | String _ s' => contains p s' end.

Definition is_empty (s : string) : bool := String.eqb s "".

Fixpoint str_contains (c : ascii) (s : string) : bool :=
  match s with "" => false | String d s' => Ascii.eqb c d || str_contains c s' end.

(** [str::split_once] on one character *)
Fixpoint split_once (c : ascii) (s : string) : option (string * string) :=
  match s with
  | "" => None
  | String d s' =>
      if Ascii.eqb c d then Some ("", s')
      else match split_once c s' with Some (a, b) => Some (String d a, b) | None => None end
  end.

(** [str::split] on one character: always at least one part *)
Fixpoint split (c : ascii) (s : string) : list string :=
  match s with
  | "" => [""]
  | String d s' =>
      if Ascii.eqb c d then "" :: split c s'
      else match split c s' with
           | p :: ps => String d p :: ps
           | [] => [String d ""]
           end
  end.

Definition rev_string (s : string) : string :=
  string_of_list_ascii (rev (list_ascii_of_string s)).

(** The white space of [char::is_whitespace] in UTF-8: the length of the
    encoding that starts with the given bytes. *)
Definition ws_codes (l : list Z) : nat :=
  match l with
  | 9 :: _ | 10 :: _ | 11 :: _ | 12 :: _ | 13 :: _ | 32 :: _ => 1%nat
  | 194 :: 133 :: _ | 194 :: 160 :: _ => 2%nat
  | 225 :: 154 :: 128 :: _ => 3%nat
  | 226 :: 128 :: b :: _ =>
      if ((128 <=? b) && (b <=? 138) || (b =? 168) || (b =? 169) || (b =? 175))%Z then 3%nat else 0%nat
  | 226 :: 129 :: 159 :: _ => 3%nat
  | 227 :: 128 :: 128 :: _ => 3%nat
  | _ => 0%nat
  end%Z.

Definition ws_start (s : string) : nat :=
  ws_codes (List.map code (firstn 3 (list_ascii_of_string s))).

(** The same for the reversed text: the encodings that end there. *)
Definition ws_end (r : string) : nat :=
  let l := List.map code (firstn 3 (list_ascii_of_string r)) in
  match l with
  | a :: b :: c :: _ =>
      if ws_codes [a] =? 1 then 1 else if ws_codes [b; a] =? 2 then 2
      else if ws_codes [c; b; a] =? 3 then 3 else 0
  | [a; b] => if ws_codes [a] =? 1 then 1 else if ws_codes [b; a] =? 2 then 2 else 0
  | [a] => ws_codes [a]
  | [] => 0
  end.

Fixpoint trim_with (ws : string → nat) (fuel : nat) (s : string) : string :=
  match fuel with
  | O => s
  | S f => match ws s with O => s | n => trim_with ws f (str_drop n s) end
  end.

(** [str::trim]: one step per character at most *)
Definition trim_start (s : string) : string := trim_with ws_start (String.length s) s.
Definition trim_end (s : string) : string :=
  rev_string (trim_with ws_end (String.length s) (rev_string s)).
Definition trim (s : string) : string := trim_end (trim_start s).

(** [Option::filter] *)
Definition opt_filter {A} (p : A → bool) (o : option A) : option A :=
  match o with Some a => if p a then Some a else None | None => None end.

(** ** Integers *)
Fixpoint digits_of (radix : Z) (fuel : nat) (z : Z) : string :=
  match fuel with
  | O => ""
  | S f => (if (z <? radix)%Z then "" else digits_of radix f (z / radix))
           ++ String (digit_char (z mod radix)) ""
  end.

(** [to_string] of an unsigned integer; 40 digits hold any [u128]. *)
Definition to_string (z : Z) : string := digits_of 10 40 z.
(** [{:x}] *)
Definition to_hex (z : Z) : string := digits_of 16 40 z.

Fixpoint parse_digits (w : Z) (acc : Z) (s : string) : option Z :=
  match s with
  | "" => Some acc
  | String c s' =>
      match to_digit 10 c with
      | Some d => let v := (acc * 10 + d)%Z in
                  if (v <? 2 ^ w)%Z then parse_digits w v s' else None
      | None => None
      end
  end.

(** [str::parse::<uN>]: an optional plus sign and at least one digit *)
Definition parse_uint (w : Z) (s : string) : option Z :=
  match s with
  | "" => None
  | "+" => None
  | String "+" s' => parse_digits w 0 s'
  | _ => parse_digits w 0 s
  end.

(** ** [IpAddr::from_str]

    The parser of [core::net]: each reader returns the value and the rest of
    the text, or nothing, and then consumes nothing. *)
Fixpoint read_digits (radix : Z) (max : nat) (acc : Z) (count : nat) (s : string)
    : option (Z * nat * string) :=
  match s with
  | "" => Some (acc, count, s)
  | String c s' =>
      match to_digit radix c with
      | Some d => if max <? S count then None
                  else read_digits radix max (acc * radix + d) (S count) s'
      | None => Some (acc, count, s)
      end
  end.

(** [Parser::read_number] with a limit on the digits *)
Definition read_number (radix : Z) (max : nat) (allow_zero_prefix : bool) (w : Z) (s : string)
    : option (Z * string) :=
  let has_leading_zero := String.prefix "0" s in
  match read_digits radix max 0 0 s with
  | Some (v, count, s') =>
      if count =? 0 then None
      else if negb allow_zero_prefix && has_leading_zero && (1 <? count) then None
      else if (v <? 2 ^ w)%Z then Some (v, s') else None
  | None => None
  end.

Definition read_given_char (c : ascii) (s : string) : option string :=
  match s with String d s' => if Ascii.eqb c d then Some s' else None | "" => None end.

(** [Parser::read_separator] *)
Definition read_separator {T} (sep : ascii) (i : nat) (inner : string → option (T * string))
    (s : string) : option (T * string) :=
  if 0 <? i then match read_given_char sep s with Some s' => inner s' | None => None end
  else inner s.

Definition read_octet (i : nat) (s : string) : option (Z * string) :=
  read_separator "." i (read_number 10 3 false 8) s.

(** [Parser::read_ipv4_addr] *)
Definition read_ipv4_addr (s : string) : option (Z * string) :=
  match read_octet 0 s with
  | Some (a, s1) => match read_octet 1 s1 with
    | Some (b, s2) => match read_octet 2 s2 with
      | Some (c, s3) => match read_octet 3 s3 with
        | Some (d, s4) => Some ((((a * 256 + b) * 256 + c) * 256 + d)%Z, s4)
        | None => None end
      | None => None end
    | None => None end
  | None => None
  end.

(** [read_groups]: the groups read, whether an IPv4 tail was read, the rest *)
Fixpoint read_groups (limit i left : nat) (s : string) : list Z * bool * string :=
  match left with
  | O => ([], false, s)
  | S left' =>
      let v4 := if i + 1 <? limit then read_separator ":" i read_ipv4_addr s else None in
      match v4 with
      | Some (a, s') => ([(a / 65536)%Z; (a mod 65536)%Z], true, s')
      | None =>
          match read_separator ":" i (read_number 16 4 true 16) s with
          | Some (g, s') => let '(gs, v4, r) := read_groups limit (S i) left' s' in (g :: gs, v4, r)
          | None => ([], false, s)
          end
      end
  end.

Definition join_groups (gs : list Z) : Z := fold_left (λ acc g, acc * 65536 + g)%Z gs 0%Z.

(** [Parser::read_ipv6_addr] *)
Definition read_ipv6_addr (s : string) : option (Z * string) :=
  let '(head, head_ipv4, s1) := read_groups 8 0 8 s in
  if length head =? 8 then Some (join_groups head, s1)
  else if head_ipv4 then None
  else match read_given_char ":" s1 with
       | Some s2 => match read_given_char ":" s2 with
         | Some s3 =>
             let limit := 8 - (length head + 1) in
             let '(tail, _, s4) := read_groups limit 0 limit s3 in
             Some (join_groups (head ++ replicate (8 - length head - length tail) 0%Z ++ tail)%list, s4)
         | None => None end
       | None => None
       end.

(** [str::parse::<IpAddr>]: the whole text has to be read *)
Definition parse_ip (s : string) : option IpAddr :=
  match read_ipv4_addr s with
  | Some (a, s') => if is_empty s' then Some (V4 a) else None
  | None => match read_ipv6_addr s with
            | Some (a, s') => if is_empty s' then Some (V6 a) else None
            | None => None
            end
  end.

(** [Parser::read_port] and [Parser::read_scope_id]: any number of digits *)
Definition read_port (s : string) : option (Z * string) :=
  match read_given_char ":" s with
  | Some s' => read_number 10 (String.length s') true 16 s'
  | None => None
  end.

Definition read_scope_id (s : string) : option (Z * string) :=
  match read_given_char "%" s with
  | Some s' => read_number 10 (String.length s') true 32 s'
  | None => None
  end.

(** [Parser::read_socket_addr_v4] and [Parser::read_socket_addr_v6] *)
Definition read_socket_addr_v4 (s : string) : option (SocketAddr * string) :=
  match read_ipv4_addr s with
  | Some (a, s1) =>
      match read_port s1 with
      | Some (port, s2) => Some (socket_addr (V4 a) port, s2)
      | None => None
      end
  | None => None
  end.

Definition read_socket_addr_v6 (s : string) : option (SocketAddr * string) :=
  match read_given_char "[" s with
  | Some s1 =>
      match read_ipv6_addr s1 with
      | Some (a, s2) =>
          let '(scope, s3) := default (0%Z, s2) (read_scope_id s2) in
          match read_given_char "]" s3 with
          | Some s4 =>
              match read_port s4 with
              | Some (port, s5) =>
                  Some ({| sa_ip := V6 a; sa_port := port; sa_scope := scope |}, s5)
              | None => None
              end
          | None => None
          end
      | None => None
      end
  | None => None
  end.

(** [str::parse::<SocketAddr>] *)
Definition parse_socket_addr (s : string) : option SocketAddr :=
  match match read_socket_addr_v4 s with Some r => Some r | None => read_socket_addr_v6 s end with
  | Some (a, s') => if is_empty s' then Some a else None
  | None => None
  end.

(** ** [Display] of [IpAddr] *)
Definition ipv4_to_string (n : Z) : string :=
  to_string (n / 2 ^ 24 mod 256) ++ "." ++ to_string (n / 2 ^ 16 mod 256) ++ "."
  ++ to_string (n / 2 ^ 8 mod 256) ++ "." ++ to_string (n mod 256).

Definition segments (n : Z) : list Z :=
  List.map (λ i, n / 2 ^ (16 * i) mod 65536)%Z [7; 6; 5; 4; 3; 2; 1; 0]%Z.

(** The first longest run of zero segments, as start and length. *)
Fixpoint longest_zeroes (i : nat) (cur best : nat * nat) (l : list Z) : nat * nat :=
  match l with
  | [] => best
  | z :: l' =>
      if (z =? 0)%Z then
        let cur' := (if snd cur =? 0 then i else fst cur, S (snd cur)) in
        longest_zeroes (S i) cur' (if snd best <? snd cur' then cur' else best) l'
      else longest_zeroes (S i) (0, 0) best l'
  end.

Definition fmt_subslice (l : list Z) : string := String.concat ":" (List.map to_hex l).

Definition ipv6_to_string (n : Z) : string :=
  if (n / 2 ^ 32 =? 65535)%Z then "::ffff:" ++ ipv4_to_string (n mod 2 ^ 32)
  else
    let segs := segments n in
    let '(start, len) := longest_zeroes 0 (0, 0) (0, 0) segs in
    if 1 <? len then
      fmt_subslice (firstn start segs) ++ "::" ++ fmt_subslice (skipn (start + len) segs)
    else fmt_subslice segs.

Definition ip_to_string (a : IpAddr) : string :=
  match a with V4 n => ipv4_to_string n | V6 n => ipv6_to_string n end.

(** ** [Display] of [SocketAddr] *)
Definition socket_to_string (a : SocketAddr) : string :=
  match sa_ip a with
  | V4 n => ipv4_to_string n ++ ":" ++ to_string (sa_port a)
  | V6 n =>
      "[" ++ ipv6_to_string n
      ++ (if (sa_scope a =? 0)%Z then "" else "%" ++ to_string (sa_scope a))
      ++ "]:" ++ to_string (sa_port a)
  end.

(** ** Checks of the transcription *)
Example parse_ip_v4 : parse_ip "192.168.1.10" = Some (V4 3232235786).
Proof. reflexivity. Qed.
Example parse_ip_leading_zero : parse_ip "192.168.01.1" = None.
Proof. reflexivity. Qed.
Example parse_ip_v6_mapped : parse_ip "::ffff:1.2.3.4" = Some (V6 281470698652420).
Proof. reflexivity. Qed.
Example parse_ip_v6_gap : parse_ip "2001:db8::1" = Some (V6 42540766411282592856903984951653826561).
Proof. reflexivity. Qed.
Example show_ip_v6_gap : ip_to_string (V6 42540766411282592856903984951653826561) = "2001:db8::1".
Proof. reflexivity. Qed.
Example show_ip_v4 : ip_to_string (V4 3232235786) = "192.168.1.10".
Proof. reflexivity. Qed.
Example parse_socket_v6 :
  parse_socket_addr "[fe80::1%2]:053" =
  Some {| sa_ip := V6 338288524927261089654018896841347694593; sa_port := 53; sa_scope := 2 |}.
Proof. reflexivity. Qed.
Example parse_socket_no_port : parse_socket_addr "1.2.3.4" = None.
Proof. reflexivity. Qed.
Example trim_unicode : trim (String "194" (String "160" " a b 	")) = "a b".
Proof. reflexivity. Qed.

(** ** Decimal round trip *)
Lemma string_app_assoc (a b c : string) : (a ++ b) ++ c = a ++ (b ++ c).
Proof. induction a as [|x a IH]; [done|]. change ((String x a ++ b) ++ c) with (String x ((a ++ b) ++ c)). by rewrite IH. Qed.

Lemma string_app_nil_r (a : string) : a ++ "" = a.
Proof. induction a as [|x a IH]; [done|]. change (String x a ++ "") with (String x (a ++ "")). by rewrite IH. Qed.

Lemma code_chr z : (0 ≤ z < 256)%Z → code (chr z) = z.
Proof.
  intros Hz. unfold code, chr. rewrite N_ascii_embedding; [lia|].
  change 256%N with (Z.to_N 256). lia.
Qed.

Lemma to_digit_digit_char d : (0 ≤ d < 10)%Z → to_digit 10 (digit_char d) = Some d.
Proof.
  intros Hd. unfold digit_char. rewrite (proj2 (Z.ltb_lt d 10)) by lia.
  unfold to_digit. rewrite code_chr by lia.
  rewrite (proj2 (Z.leb_le 48 (48 + d))), (proj2 (Z.leb_le (48 + d) 57)) by lia. cbn [andb].
  rewrite (proj2 (Z.ltb_lt (48 + d - 48) 10)) by lia. f_equal. lia.
Qed.

Lemma parse_digits_digits_of w fuel z s :
  (0 ≤ z < 2 ^ w)%Z → (z < 10 ^ Z.of_nat fuel)%Z → 0 < fuel →
  parse_digits w 0 (digits_of 10 fuel z ++ s) = parse_digits w z s.
Proof.
  revert z s; induction fuel as [|f IH]; intros z s Hz Hf Hpos; [lia|].
  cbn [digits_of]. rewrite string_app_assoc.
  change (String (digit_char (z mod 10)) "" ++ s) with (String (digit_char (z mod 10)) s).
  assert (0 ≤ z mod 10 < 10)%Z as Hm by (apply Z.mod_pos_bound; lia).
  destruct (Z.ltb_spec z 10) as [Hlt|Hge].
  - change ("" ++ String (digit_char (z mod 10)) s) with (String (digit_char (z mod 10)) s).
    cbn [parse_digits]. rewrite to_digit_digit_char by done.
    rewrite Z.mod_small by lia. cbv zeta. replace (0 * 10 + z)%Z with z by lia.
    by rewrite (proj2 (Z.ltb_lt z (2 ^ w))) by lia.
  - rewrite Nat2Z.inj_succ, Z.pow_succ_r in Hf by lia.
    assert (0 < f) as Hf0 by (destruct f; [cbn in Hf; lia|lia]).
    assert (z / 10 < 10 ^ Z.of_nat f)%Z as Hd by (apply Z.div_lt_upper_bound; lia).
    rewrite IH by (first [done | split; [apply Z.div_pos; lia|];
      apply Z.le_lt_trans with z; [apply Z.div_le_upper_bound|]; lia]).
    cbn [parse_digits]. rewrite to_digit_digit_char by done. cbv zeta.
    replace (z / 10 * 10 + z mod 10)%Z with z by (pose proof (Z_div_mod_eq_full z 10); lia).
    by rewrite (proj2 (Z.ltb_lt z (2 ^ w))) by lia.
Qed.

Lemma to_digit_range radix c d : to_digit radix c = Some d → (0 ≤ d < radix)%Z.
Proof.
  unfold to_digit. intros H. repeat (case_match; try done); bool_hyps; simplify_eq; lia.
Qed.

Lemma parse_digits_range w acc s v : in_u w acc → parse_digits w acc s = Some v → in_u w v.
Proof.
  revert acc; induction s as [|c s IH]; intros acc Ha; cbn; [by intros [= <-]|].
  destruct (to_digit 10 c) as [d|] eqn:Ed; [|done]. apply to_digit_range in Ed.
  destruct (Z.ltb_spec (acc * 10 + d) (2 ^ w)); [|done]. apply IH.
  unfold in_u in *. lia.
Qed.

Lemma parse_uint_range w s v : (0 ≤ w)%Z → parse_uint w s = Some v → in_u w v.
Proof.
  intros Hw. assert (in_u w 0) as H0 by (split; [done|by apply Z.pow_pos_nonneg]).
  unfold parse_uint. intros H. repeat (case_match; try done); by eapply parse_digits_range.
Qed.

(** The characters of a decimal numeral. *)
Fixpoint all_digits (s : string) : bool :=
  match s with
  | "" => true
  | String c s' => match to_digit 10 c with Some _ => all_digits s' | None => false end
  end.

Lemma all_digits_app a b : all_digits (a ++ b) = all_digits a && all_digits b.
Proof.
  induction a as [|x a IH]; [done|]. change (String x a ++ b) with (String x (a ++ b)).
  cbn. by destruct (to_digit 10 x).
Qed.

Lemma all_digits_digits_of fuel z : all_digits (digits_of 10 fuel z) = true.
Proof.
  revert z; induction fuel as [|f IH]; intros z; [done|]. cbn [digits_of].
  rewrite all_digits_app. apply andb_true_intro. split; [by destruct (z <? 10)%Z|].
  cbn. by rewrite to_digit_digit_char by (apply Z.mod_pos_bound; lia).
Qed.

Lemma to_string_all_digits z : all_digits (to_string z) = true.
Proof. apply all_digits_digits_of. Qed.

Lemma digits_of_nonempty fuel z : 0 < fuel → digits_of 10 fuel z ≠ "".
Proof.
  destruct fuel as [|f]; [lia|]. intros _. cbn [digits_of].
  destruct (if (z <? 10)%Z then "" else digits_of 10 f (z / 10)); done.
Qed.

Lemma all_digits_head c s : all_digits (String c s) = true → c ≠ "+"%char ∧ c ≠ ":"%char.
Proof. by split; intros ->. Qed.

Lemma parse_uint_digits w s :
  all_digits s = true → s ≠ "" → parse_uint w s = parse_digits w 0 s.
Proof.
  destruct s as [|c s]; [done|]. intros Hd _. apply all_digits_head in Hd as [Hp _].
  unfold parse_uint. by destruct c as [[] [] [] [] [] [] [] []].
Qed.

Lemma parse_uint_to_string w z :
  (0 ≤ z < 2 ^ w)%Z → (w ≤ 128)%Z → parse_uint w (to_string z) = Some z.
Proof.
  intros Hz Hw. rewrite parse_uint_digits.
  - unfold to_string. rewrite <- (string_app_nil_r (digits_of 10 40 z)).
    rewrite parse_digits_digits_of; [done|done| |lia].
    apply Z.lt_trans with (2 ^ 128)%Z; [|done].
    apply Z.lt_le_trans with (2 ^ w)%Z; [lia|]. apply Z.pow_le_mono_r; lia.
  - apply to_string_all_digits.
  - apply digits_of_nonempty. lia.
Qed.

Lemma to_string_inj x y :
  in_u 128 x → in_u 128 y → to_string x = to_string y → x = y.
Proof.
  intros Hx Hy He. pose proof (parse_uint_to_string 128 x Hx ltac:(lia)) as H1.
  rewrite He, parse_uint_to_string in H1 by (done || lia). congruence.
Qed.

(** ** The parsed addresses are in range *)
Lemma read_digits_nonneg radix max acc count s v n s' :
  (0 ≤ radix)%Z → (0 ≤ acc)%Z → read_digits radix max acc count s = Some (v, n, s') → (0 ≤ v)%Z.
Proof.
  intros Hr. revert acc count; induction s as [|c s IH]; intros acc count Ha; cbn.
  { intros [= <- _ _]. done. }
  destruct (to_digit radix c) as [d|] eqn:Ed; [|intros [= <- _ _]; done].
  apply to_digit_range in Ed. split_guard; [done|]. apply IH. nia.
Qed.

Lemma read_number_range radix max az w s v s' :
  (0 ≤ radix)%Z → read_number radix max az w s = Some (v, s') → in_u w v.
Proof.
  intros Hr. unfold read_number.
  destruct (read_digits radix max 0 0 s) as [[[v' n] s'']|] eqn:E; [|done].
  apply read_digits_nonneg in E; [|done|done]. split_guards. intros [= <- _]. by split.
Qed.

Lemma read_separator_inv {T} sep i (inner : string → option (T * string)) s r :
  read_separator sep i inner s = Some r → ∃ s0, inner s0 = Some r.
Proof.
  unfold read_separator. split_guard; [|by exists s].
  destruct (read_given_char sep s) as [s0|]; [|done]. by exists s0.
Qed.

Lemma read_octet_range i s v s' : read_octet i s = Some (v, s') → (0 ≤ v < 256)%Z.
Proof. intros [s0 H0]%read_separator_inv. by eapply (read_number_range 10 3 false 8) in H0. Qed.

Lemma read_ipv4_range s a s' : read_ipv4_addr s = Some (a, s') → in_u 32 a.
Proof.
  unfold read_ipv4_addr. intros H.
  repeat (case_match; try done). simplify_eq.
  repeat match goal with E : read_octet _ _ = _ |- _ => apply read_octet_range in E end.
  unfold in_u. lia.
Qed.

Lemma read_groups_range limit i left s gs v4 r :
  read_groups limit i left s = (gs, v4, r) → i + left = limit →
  Forall (λ g, 0 ≤ g < 65536)%Z gs ∧ length gs ≤ left.
Proof.
  revert i s gs v4 r; induction left as [|left IH]; intros i s gs v4 r; cbn.
  { intros [= <- _ _] _. by split; [constructor|]. }
  destruct (if i + 1 <? limit then _ else _) as [[a s']|] eqn:E4.
  - destruct (Nat.ltb_spec (i + 1) limit); [|done].
    apply read_separator_inv in E4 as [s0 E4]. apply read_ipv4_range in E4.
    intros [= <- _ _] Hl. split; [|cbn; lia].
    repeat constructor; unfold in_u in E4.
    + apply Z.div_pos; lia.
    + apply Z.div_lt_upper_bound; lia.
    + apply Z.mod_pos_bound; lia.
    + apply Z.mod_pos_bound; lia.
  - destruct (read_separator ":" i (read_number 16 4 true 16) s) as [[g s']|] eqn:Eg; [|intros [= <- _ _] _; by split; [constructor|cbn; lia]].
    apply read_separator_inv in Eg as [s0 Eg]. apply read_number_range in Eg; [|lia].
    destruct (read_groups limit (S i) left s') as [[gs' v4'] r'] eqn:Er.
    intros [= <- _ _] Hl. apply IH in Er as [Hall Hlen]; [|lia].
    split; [by constructor|cbn; lia].
Qed.

Lemma join_groups_app gs g : join_groups (gs ++ [g])%list = (join_groups gs * 65536 + g)%Z.
Proof. unfold join_groups. by rewrite fold_left_app. Qed.

Lemma join_groups_range gs :
  Forall (λ g, 0 ≤ g < 65536)%Z gs → (0 ≤ join_groups gs < 65536 ^ Z.of_nat (length gs))%Z.
Proof.
  induction gs as [|g gs IH] using rev_ind; [cbn; lia|].
  rewrite Forall_app, Forall_singleton. intros [Hgs Hg]. specialize (IH Hgs).
  rewrite join_groups_app, length_app. cbn [length].
  rewrite Nat2Z.inj_add, Z.pow_add_r by lia. change (65536 ^ Z.of_nat 1)%Z with 65536%Z. nia.
Qed.

Lemma read_ipv6_range s a s' : read_ipv6_addr s = Some (a, s') → in_u 128 a.
Proof.
  unfold read_ipv6_addr.
  destruct (read_groups 8 0 8 s) as [[head v4] s1] eqn:Eh.
  apply read_groups_range in Eh as [Hh Hlh]; [|done].
  assert (∀ gs : list Z, Forall (λ g, 0 ≤ g < 65536)%Z gs → length gs = 8 → in_u 128 (join_groups gs)) as Hj.
  { intros gs Hgs Hl. apply join_groups_range in Hgs. rewrite Hl in Hgs. exact Hgs. }
  destruct (length head =? 8) eqn:E8; bool_hyps.
  { intros [= <- _]. by apply Hj. }
  destruct v4; [done|].
  destruct (read_given_char ":" s1) as [s2|]; [|done].
  destruct (read_given_char ":" s2) as [s3|]; [|done].
  destruct (read_groups (8 - (length head + 1)) 0 _ _) as [[tail v4] s4] eqn:Et.
  apply read_groups_range in Et as [Ht Hlt]; [|lia]. intros [= <- _]. apply Hj.
  - rewrite !Forall_app. split_and!; try done. apply Forall_replicate. lia.
  - rewrite !length_app, length_replicate. lia.
Qed.

Lemma parse_ip_wf s a : parse_ip s = Some a → wf_ip a.
Proof.
  unfold parse_ip. destruct (read_ipv4_addr s) as [[n s']|] eqn:E4.
  - destruct (is_empty s'); [|done]. intros [= <-]. by apply read_ipv4_range in E4.
  - destruct (read_ipv6_addr s) as [[n s']|] eqn:E6; [|done].
    destruct (is_empty s'); [|done]. intros [= <-]. by apply read_ipv6_range in E6.
Qed.

(** ** Suffixes *)
Lemma string_length_app a b : String.length (a ++ b) = String.length a + String.length b.
Proof. induction a as [|c a IH]; [done|]. change (String c a ++ b) with (String c (a ++ b)). cbn. by rewrite IH. Qed.

Lemma str_drop_app a b : str_drop (String.length a) (a ++ b) = b.
Proof. induction a as [|c a IH]; [by destruct b|]. exact IH. Qed.

Lemma str_drop_split n s : n ≤ String.length s → ∃ p, String.length p = n ∧ s = p ++ str_drop n s.
Proof.
  revert s; induction n as [|n IH]; intros s Hn; [exists ""; by destruct s|].
  destruct s as [|c s]; cbn in *; [lia|]. destruct (IH s) as (p & Hl & Hp); [lia|].
  exists (String c p). split; [cbn; lia|].
  change (String c p ++ str_drop n s) with (String c (p ++ str_drop n s)). congruence.
Qed.

Lemma ends_with_spec s suffix : ends_with s suffix = true ↔ ∃ p, s = p ++ suffix.
Proof.
  unfold ends_with. split.
  - intros H. bool_hyps. apply String.eqb_eq in H0.
    destruct (str_drop_split (String.length s - String.length suffix) s) as (p & _ & Hp); [lia|].
    exists p. congruence.
  - intros [p ->]. rewrite string_length_app.
    apply andb_true_intro. split; [apply Nat.leb_le; lia|].
    replace (String.length p + String.length suffix - String.length suffix) with (String.length p) by lia.
    by rewrite str_drop_app, String.eqb_refl.
Qed.

Lemma lower_char_idem c : lower_char (lower_char c) = lower_char c.
Proof. by destruct c as [[] [] [] [] [] [] [] []]. Qed.

Lemma to_ascii_lowercase_idem s : to_ascii_lowercase (to_ascii_lowercase s) = to_ascii_lowercase s.
Proof. induction s as [|c s IH]; cbn; [done|]. by rewrite lower_char_idem, IH. Qed.

(** ** Separators *)
Lemma str_contains_app c a x : str_contains c (a ++ String c x) = true.
Proof.
  induction a as [|d a IH].
  { change ("" ++ String c x) with (String c x). cbn [str_contains]. by rewrite Ascii.eqb_refl. }
  change (String d a ++ String c x) with (String d (a ++ String c x)). cbn [str_contains].
  by rewrite IH, orb_true_r.
Qed.

Lemma all_digits_no_colon s : all_digits s = true → str_contains ":" s = false.
Proof.
  induction s as [|c s IH]; [done|]. intros Hd. pose proof (all_digits_head c s Hd) as [_ Hc].
  cbn [all_digits] in Hd. destruct (to_digit 10 c); [|done]. cbn [str_contains].
  rewrite IH by done. rewrite orb_false_r. destruct (Ascii.eqb_spec ":" c); congruence.
Qed.

(** The last separator of a text is determined when nothing after it contains it. *)
Lemma split_last_inj c p p' x x' :
  str_contains c x = false → str_contains c x' = false →
  p ++ String c x = p' ++ String c x' → p = p' ∧ x = x'.
Proof.
  intros Hx Hx'. revert p'; induction p as [|d p IH]; intros [|d' p'].
  - by intros [= ->].
  - change (String d' p' ++ String c x') with (String d' (p' ++ String c x')).
    intros [= <- Hs]. rewrite Hs, str_contains_app in Hx. done.
  - change (String d p ++ String c x) with (String d (p ++ String c x)).
    intros [= <- Hs]. rewrite <- Hs, str_contains_app in Hx'. done.
  - change (String d p ++ String c x) with (String d (p ++ String c x)).
    change (String d' p' ++ String c x') with (String d' (p' ++ String c x')).
    intros [= <- [-> ->]%IH]. done.
Qed.
