(* ===== verification/Model.v ===== *)
(** * Model: the data of the runtime and the route matchers

    [crates/dynet-runtime/src/model.rs] and its submodules [cidr],
    [ip_family], [selection_error], [target_context] and [forward_node].
    The newtypes [NodeId], [GroupId], [RuleId] and [DnsUpstreamId] are the
    strings they wrap. A [Duration] is its number of nanoseconds. *)
From Stdlib Require Import ZArith Lia Strings.Byte Ascii String.
From stdpp Require Import base list numbers option strings gmap.
From S2P Require Import Prelude Collections Net RustStd.
Local Open Scope string_scope.
Local Open Scope nat_scope.

Abbreviation NodeId := string.
Abbreviation GroupId := string.
Abbreviation RuleId := string.
Abbreviation DnsUpstreamId := string.

Definition DEFAULT_NODE_ID : string := "default-node".
Definition DEFAULT_GROUP_ID : string := "default".
Definition DIRECT_AUDIT_OUTLET : string := "direct".

(** ** model/ip_family.rs *)
Inductive Ipv6RulePolicy := Inherit | Allow | Deny.
Inductive IpFamily := Ipv4 | Ipv6.
Inductive Ipv6PolicySource := SourceGlobal | SourceRule.

#[export] Instance Ipv6RulePolicy_eq_dec : EqDecision Ipv6RulePolicy.
Proof. solve_decision. Defined.
#[export] Instance IpFamily_eq_dec : EqDecision IpFamily.
Proof. solve_decision. Defined.

Definition from_address (a : IpAddr) : IpFamily :=
  match a with V4 _ => Ipv4 | V6 _ => Ipv6 end.

Definition family_str (f : IpFamily) : string :=
  match f with Ipv4 => "ipv4" | Ipv6 => "ipv6" end.

(** ** Records of model.rs *)
Record ForwardNode := {
  node_id : NodeId;
  node_tag : string;
  node_enabled : bool;
  node_fingerprint : string;
  supports_ipv6 : bool;
}.

Inductive SchedulerPolicy := SingleFirstEnabled.

Record GroupThresholds := {
  min_success_rate_ppm : Z;
  min_samples : Z;
  max_active_sessions : option Z;
}.

Inductive NextRef := DirectAuditOutlet | Named (name : string).

Record ForwardGroup := {
  group_id : GroupId;
  group_enabled : bool;
  group_scheduler : SchedulerPolicy;
  group_thresholds : GroupThresholds;
  group_next : NextRef;
}.

Record GroupMember := {
  member_group_id : GroupId;
  member_node_id : NodeId;
  member_enabled : bool;
  member_priority : Z;
}.

Inductive RouteMatcher :=
| DomainExact (domain : string)
| DomainSuffix (suffix : string)
| IpExact (address : IpAddr)
| IpCidr (cidr : string).

Record RouteRule := {
  rule_id : RuleId;
  rule_priority : Z;
  rule_enabled : bool;
  rule_matcher : RouteMatcher;
  rule_group_id : GroupId;
  rule_ipv6 : Ipv6RulePolicy;
}.

Record DnsHttpsEndpoint := { host : string; path : string }.

Inductive DnsUpstreamTransport := TransportUdp | TransportHttps (endpoint : DnsHttpsEndpoint).

Record DnsUpstream := {
  upstream_id : DnsUpstreamId;
  upstream_address : SocketAddr;
  upstream_transport : DnsUpstreamTransport;
  upstream_enabled : bool;
  upstream_priority : Z;
}.

Inductive DnsRaceStrategy := Parallel.

Record DnsRacePolicy := { dns_timeout : Z; dns_strategy : DnsRaceStrategy }.

Inductive TargetSource := FixedUpstream | ObservedDns | ExternalContext.

Record TargetContext := {
  target_address : SocketAddr;
  target_domain : option string;
  target_source : TargetSource;
}.

Inductive InboundKind := InboundTcp | InboundUdp.

Record SelectionContext := {
  ctx_session_id : Z;
  ctx_inbound : InboundKind;
  ctx_target : TargetContext;
}.

Record RuntimeSeed := {
  seed_ipv6_enabled : bool;
  seed_nodes : list ForwardNode;
  seed_default_group_id : GroupId;
  seed_groups : list ForwardGroup;
  seed_group_members : list GroupMember;
  seed_route_rules : list RouteRule;
  seed_dns_upstreams : list DnsUpstream;
  seed_dns_policy : DnsRacePolicy;
}.

Record SelectionTraceHop := {
  hop_group_id : GroupId;
  hop_node_id : NodeId;
  hop_next : NextRef;
  hop_scheduler : SchedulerPolicy;
  hop_candidate_count : nat;
}.

Inductive SelectionTerminal := TerminalDirect | TerminalNode (id : NodeId).

Inductive SelectionReason := SingleNode.

Record SelectionDecision := {
  decision_id : Z;
  config_generation : Z;
  decision_group_id : GroupId;
  matched_rule_id : option RuleId;
  decision_node_id : NodeId;
  decision_next : NextRef;
  trace : list SelectionTraceHop;
  terminal : SelectionTerminal;
  reason : SelectionReason;
  scheduler : SchedulerPolicy;
  candidate_count : nat;
  ip_family : IpFamily;
  ipv6_policy_source : option Ipv6PolicySource;
}.

(** ** Constructors and small methods *)
Definition new_node (id tag : string) (enabled : bool) : ForwardNode :=
  {| node_id := id; node_tag := tag; node_enabled := enabled;
     node_fingerprint := "node-id:" ++ id; supports_ipv6 := true |}.

Definition with_fingerprint (id tag : string) (enabled : bool) (fp : string) : ForwardNode :=
  {| node_id := id; node_tag := tag; node_enabled := enabled;
     node_fingerprint := fp; supports_ipv6 := true |}.

Definition with_capabilities (n : ForwardNode) (v6 : bool) : ForwardNode :=
  {| node_id := node_id n; node_tag := node_tag n; node_enabled := node_enabled n;
     node_fingerprint := node_fingerprint n; supports_ipv6 := v6 |}.

Definition default_thresholds : GroupThresholds :=
  {| min_success_rate_ppm := 980000; min_samples := 1; max_active_sessions := None |}.

Definition default_group : ForwardGroup :=
  {| group_id := DEFAULT_GROUP_ID; group_enabled := true;
     group_scheduler := SingleFirstEnabled; group_thresholds := default_thresholds;
     group_next := DirectAuditOutlet |}.

Definition default_member (nid : NodeId) (gid : GroupId) : GroupMember :=
  {| member_group_id := gid; member_node_id := nid; member_enabled := true;
     member_priority := 0 |}.

(** [NextRef::named], [NextRef::label] *)
Definition named (value : string) : NextRef :=
  if String.eqb value DIRECT_AUDIT_OUTLET then DirectAuditOutlet else Named value.

Definition next_label (n : NextRef) : string :=
  match n with DirectAuditOutlet => DIRECT_AUDIT_OUTLET | Named v => v end.

(** [SelectionTraceHop::label] *)
Definition hop_label (h : SelectionTraceHop) : string :=
  hop_group_id h ++ ":" ++ hop_node_id h ++ "->" ++ next_label (hop_next h).

Definition terminal_kind (t : SelectionTerminal) : string :=
  match t with TerminalDirect => "direct" | TerminalNode _ => "node" end.

Definition terminal_label (t : SelectionTerminal) : string :=
  match t with TerminalDirect => DIRECT_AUDIT_OUTLET | TerminalNode id => id end.

Definition default_parallel : DnsRacePolicy :=
  {| dns_timeout := 2000000000; dns_strategy := Parallel |}.

Definition default_dns_upstreams : list DnsUpstream :=
  [ {| upstream_id := "cloudflare";
       upstream_address := (socket_addr (V4 16843009) 53);
       upstream_transport := TransportUdp; upstream_enabled := true; upstream_priority := 0 |};
    {| upstream_id := "google";
       upstream_address := (socket_addr (V4 134744072) 53);
       upstream_transport := TransportUdp; upstream_enabled := true; upstream_priority := 1 |} ].

(** [RuntimeSeed::single_node] *)
Definition single_node (tag : string) : RuntimeSeed :=
  let node := new_node DEFAULT_NODE_ID tag true in
  let group := default_group in
  {| seed_ipv6_enabled := false;
     seed_nodes := [node];
     seed_default_group_id := group_id group;
     seed_groups := [group];
     seed_group_members := [default_member (node_id node) (group_id group)];
     seed_route_rules := [];
     seed_dns_upstreams := default_dns_upstreams;
     seed_dns_policy := default_parallel |}.

(** ** model/target_context.rs *)
Definition fixed_upstream (a : SocketAddr) : TargetContext :=
  {| target_address := a; target_domain := None; target_source := FixedUpstream |}.
Definition external_context (a : SocketAddr) (domain : option string) : TargetContext :=
  {| target_address := a; target_domain := domain; target_source := ExternalContext |}.
Definition dynet_dns (a : SocketAddr) (domain : string) : TargetContext :=
  {| target_address := a; target_domain := Some domain; target_source := ObservedDns |}.

(** ** model/selection_error.rs *)
Record SelectionError := {
  err_message : string;
  err_code : string;
  err_matched_rule_id : option RuleId;
}.

Definition selection_error (msg : string) : SelectionError :=
  {| err_message := msg; err_code := "selection-error"; err_matched_rule_id := None |}.

Definition ipv6_disabled : SelectionError :=
  {| err_message := "IPv6 target rejected because dynet IPv6 participation is disabled";
     err_code := "ipv6-disabled"; err_matched_rule_id := None |}.

Definition ipv6_denied (rule : option RuleId) : SelectionError :=
  {| err_message := "IPv6 target rejected by forwarding rule " ++ default "<default>" rule;
     err_code := "ipv6-policy-deny"; err_matched_rule_id := rule |}.

(** ** model/cidr.rs *)
Definition cidr_mask (w prefix : Z) : Z :=
  if (prefix =? 0)%Z then 0%Z else wrap_u w (Z.shiftl (2 ^ w - 1) (w - prefix)).

Definition ip_matches_cidr (address : IpAddr) (cidr : string) : bool :=
  match split_once "/" cidr with
  | None => false
  | Some (base, prefix) =>
      match address, parse_ip base, parse_uint 8 prefix with
      | V4 a, Some (V4 b), Some p =>
          if (p <=? 32)%Z then
            (Z.land a (cidr_mask 32 p) =? Z.land b (cidr_mask 32 p))%Z
          else false
      | V6 a, Some (V6 b), Some p =>
          if (p <=? 128)%Z then
            (Z.land a (cidr_mask 128 p) =? Z.land b (cidr_mask 128 p))%Z
          else false
      | _, _, _ => false
      end
  end.

(** ** [RouteMatcher::matches] *)
Definition matches (m : RouteMatcher) (t : TargetContext) : bool :=
  match m with
  | DomainExact domain =>
      match target_domain t with
      | Some d => eq_ignore_ascii_case d domain
      | None => false
      end
  | DomainSuffix suffix =>
      match target_domain t with
      | Some d => eq_ignore_ascii_case d suffix
                  || ends_with (to_ascii_lowercase d) ("." ++ to_ascii_lowercase suffix)
      | None => false
      end
  | IpExact a => bool_decide (sa_ip (target_address t) = a)
  | IpCidr c => ip_matches_cidr (sa_ip (target_address t)) c
  end.

(** ** [ObservedDnsMap] *)
Abbreviation ObservedDnsMap := (gmap string (list IpAddr)).

Definition dns_map_record (m : ObservedDnsMap) (domain : string) (answers : list IpAddr)
    : ObservedDnsMap :=
  match answers with
  | [] => m
  | _ => <[to_ascii_lowercase domain := answers]> m
  end.

Definition ip_mem (a : IpAddr) (l : list IpAddr) : bool := existsb (λ b, bool_decide (b = a)) l.

(** The first domain, in key order, that was answered with the address. *)
Definition domain_for_ip (m : ObservedDnsMap) (a : IpAddr) : option string :=
  match List.find (λ p : string * list IpAddr, ip_mem a p.2) (btree_iter m) with
  | Some (d, _) => Some d
  | None => None
  end.

(** ** Prefix masks *)
Definition addr_width (a : IpAddr) : Z := if is_ipv4 a then 32 else 128.
Definition addr_bits (a : IpAddr) : Z := match a with V4 n => n | V6 n => n end.

Lemma testbit_cidr_mask w p k :
  (0 ≤ p ≤ w)%Z → (0 ≤ k)%Z →
  Z.testbit (cidr_mask w p) k = bool_decide (w - p ≤ k < w)%Z.
Proof.
  intros Hp Hk. unfold cidr_mask. destruct (Z.eqb_spec p 0) as [->|Hp0].
  { rewrite Z.bits_0. symmetry. apply bool_decide_eq_false. lia. }
  unfold wrap_u. destruct (Z.lt_ge_cases k w) as [Hkw|Hkw].
  - rewrite Z.mod_pow2_bits_low, Z.shiftl_spec by lia.
    replace (2 ^ w - 1)%Z with (Z.ones w) by (rewrite Z.ones_equiv; lia).
    destruct (Z.lt_ge_cases k (w - p)) as [Hl|Hl].
    + rewrite Z.testbit_neg_r by lia. symmetry. apply bool_decide_eq_false. lia.
    + rewrite Z.ones_spec_low by lia. symmetry. apply bool_decide_eq_true. lia.
  - rewrite Z.mod_pow2_bits_high by lia. symmetry. apply bool_decide_eq_false. lia.
Qed.

Lemma masked_eq_iff w p a b :
  (0 ≤ p ≤ w)%Z → in_u w a → in_u w b →
  Z.land a (cidr_mask w p) = Z.land b (cidr_mask w p) ↔ (a / 2 ^ (w - p) = b / 2 ^ (w - p))%Z.
Proof.
  intros Hp Ha Hb. rewrite <- !Z.shiftr_div_pow2 by lia. split; intros He.
  - apply Z.bits_inj'. intros n Hn. rewrite !Z.shiftr_spec by lia.
    destruct (Z.lt_ge_cases (n + (w - p)) w) as [Hw|Hw].
    + assert (Z.testbit (Z.land a (cidr_mask w p)) (n + (w - p))
              = Z.testbit (Z.land b (cidr_mask w p)) (n + (w - p))) as Ht by by rewrite He.
      rewrite !Z.land_spec, testbit_cidr_mask, bool_decide_eq_true_2, !andb_true_r in Ht by lia.
      exact Ht.
    + by rewrite !(in_u_testbit w) by (done || lia).
  - apply Z.bits_inj'. intros n Hn. rewrite !Z.land_spec, testbit_cidr_mask by lia.
    case_bool_decide; [|by rewrite !andb_false_r]. rewrite !andb_true_r.
    replace n with (n - (w - p) + (w - p))%Z by lia.
    rewrite <- !Z.shiftr_spec by lia. by rewrite He.
Qed.

Lemma domain_match_lower d s :
  eq_ignore_ascii_case d s = true ↔ to_ascii_lowercase d = to_ascii_lowercase s.
Proof. apply String.eqb_eq. Qed.

(** a domain-suffix rule matches the domain itself and its subdomains and
    nothing else: the lower-cased target is the lower-cased suffix or ends with it
    after a dot, so a suffix never matches inside a label. *)
Theorem domain_suffix_matches_iff suffix t :
  matches (DomainSuffix suffix) t = true ↔
    ∃ d, target_domain t = Some d ∧
      (to_ascii_lowercase d = to_ascii_lowercase suffix ∨
       ∃ sub, to_ascii_lowercase d = sub ++ "." ++ to_ascii_lowercase suffix).
Proof.
  cbn. destruct (target_domain t) as [d|].
  - rewrite orb_true_iff, domain_match_lower, ends_with_spec. split.
    + intros Hm. by exists d.
    + by intros (d' & [= <-] & Hm).
  - split; [done|by intros (d & ? & _)].
Qed.

(** a CIDR rule matches exactly the addresses of the family of its base
    address whose first [p] bits are those of the base: for every text
    [base/prefix] that parses, [ip_matches_cidr] decides equality of the network
    parts, and prefixes longer than the address match nothing. *)
Theorem cidr_matches_iff address cidr base prefix b p :
  wf_ip address →
  split_once "/" cidr = Some (base, prefix) →
  parse_ip base = Some b → parse_uint 8 prefix = Some p →
  ip_matches_cidr address cidr = true ↔
    is_ipv4 address = is_ipv4 b ∧ (p ≤ addr_width b)%Z ∧
    (addr_bits address / 2 ^ (addr_width b - p) = addr_bits b / 2 ^ (addr_width b - p))%Z.
Proof.
  intros Hwf Hs Hb Hp. unfold ip_matches_cidr. rewrite Hs, Hb, Hp.
  apply parse_ip_wf in Hb. apply parse_uint_range in Hp as [Hp0 _]; [|done].
  destruct address as [a|a], b as [b|b]; cbn in *.
  - destruct (Z.leb_spec p 32) as [Hle|Hgt]; [|split; [done|lia]].
    rewrite Z.eqb_eq, masked_eq_iff by (done || lia). tauto.
  - split; [done|by intros [? _]].
  - split; [done|by intros [? _]].
  - destruct (Z.leb_spec p 128) as [Hle|Hgt]; [|split; [done|lia]].
    rewrite Z.eqb_eq, masked_eq_iff by (done || lia). tauto.
Qed.

Lemma cidr_matches_iff_witness :
  ip_matches_cidr (V4 3232235786) "192.168.0.0/16" = true.
Proof.
  apply (cidr_matches_iff (V4 3232235786) "192.168.0.0/16" "192.168.0.0" "16" (V4 3232235520) 16);
    [by split|reflexivity|reflexivity|reflexivity|split_and!; by vm_compute].
Defined.
