(* ===== verification/Stores.v ===== *)
(** * Stores: the routing tables of the runtime

    [crates/dynet-runtime/src/stores.rs]: the node, group, route-rule and DNS
    upstream stores, the walk over the group graph and the route match. The
    [Arc<RwLock<_>>] around each store is written once, when the store is built,
    and only read afterwards, so a store is the value it holds. *)
From Stdlib Require Import ZArith Lia Strings.Byte Ascii String Sorting.Sorted.
From stdpp Require Import base list numbers option strings gmap sets.
From S2P Require Import Prelude Collections Net RustStd Model.
Local Open Scope string_scope.
Local Open Scope nat_scope.

(** ** Nodes *)
Record NodeStore := { default_node : option NodeId; nodes : gmap NodeId ForwardNode }.

Definition single_node_store (node : ForwardNode) : NodeStore :=
  {| default_node := Some (node_id node); nodes := <[node_id node := node]> ∅ |}.

(** [Option::or_else] *)
Definition or_else {A} (a b : option A) : option A := match a with Some _ => a | None => b end.

Definition from_nodes (l : list ForwardNode) : NodeStore :=
  {| default_node :=
       option_map node_id
         (or_else (List.find (λ n, String.eqb (node_id n) DEFAULT_NODE_ID && node_enabled n) l)
                  (List.find node_enabled l));
     nodes := btree_collect (List.map (λ n, (node_id n, n)) l) |}.

Definition default_node_id (s : NodeStore) : option NodeId :=
  nid ← default_node s;
  node ← nodes s !! nid;
  if node_enabled node then Some nid else None.

Definition is_enabled (s : NodeStore) (nid : NodeId) : bool :=
  match nodes s !! nid with Some n => node_enabled n | None => false end.

Definition is_eligible (s : NodeStore) (nid : NodeId) (f : IpFamily) : bool :=
  match nodes s !! nid with
  | Some n => node_enabled n && (bool_decide (f = Ipv4) || supports_ipv6 n)
  | None => false
  end.

Definition enabled_node_id (s : NodeStore) (id : string) : option NodeId :=
  match nodes s !! id with
  | Some n => if node_enabled n then Some (node_id n) else None
  | None => None
  end.

Definition node_snapshot (s : NodeStore) : list ForwardNode := btree_values (nodes s).

Definition fingerprints_by_id (s : NodeStore) : gmap string string :=
  btree_collect (List.map (λ n, (node_id n, node_fingerprint n)) (btree_values (nodes s))).

(** ** Groups *)
Record GroupStore := {
  store_default_group : option GroupId;
  groups : gmap GroupId ForwardGroup;
  members : gmap GroupId (list GroupMember);
}.

(** [MatrixCandidateInput] of model/matrix_shadow.rs *)
Record MatrixCandidateInput := { cand_node_id : NodeId; cand_priority : Z }.

Record GroupCandidateSet := {
  set_group_id : GroupId;
  set_scheduler : SchedulerPolicy;
  set_thresholds : GroupThresholds;
  set_candidates : list MatrixCandidateInput;
}.

Record GroupSelection := {
  sel_trace : list SelectionTraceHop;
  sel_terminal : SelectionTerminal;
  sel_scheduler : SchedulerPolicy;
  sel_candidate_count : nat;
}.

Definition member_cmp (a b : GroupMember) : comparison :=
  cmp (member_priority a, member_node_id a) (member_priority b, member_node_id b).

(** [entry(group_id).or_default().push(member)] *)
Definition push_member (m : gmap GroupId (list GroupMember)) (x : GroupMember)
    : gmap GroupId (list GroupMember) :=
  <[member_group_id x := (default [] (m !! member_group_id x) ++ [x])%list]> m.

Definition from_parts (default_gid : GroupId) (gs : list ForwardGroup) (ms : list GroupMember)
    : GroupStore :=
  let groups := btree_collect (List.map (λ g, (group_id g, g)) gs) in
  {| store_default_group :=
       or_else
         (match groups !! default_gid with
          | Some g => if group_enabled g then Some default_gid else None
          | None => None
          end)
         (option_map group_id (List.find group_enabled (btree_values groups)));
     groups := groups;
     members := sort_by member_cmp <$> fold_left push_member ms ∅ |}.

Definition group_missing (g : GroupId) : string := "forwarding group " ++ g ++ " is missing".
Definition group_disabled (g : GroupId) : string := "forwarding group " ++ g ++ " is disabled".
Definition no_enabled_node (g : GroupId) : string := "forwarding group " ++ g ++ " has no enabled node".
Definition no_capable_node (g : GroupId) (f : IpFamily) : string :=
  "forwarding group " ++ g ++ " has no " ++ family_str f ++ "-capable enabled node".
Definition next_cycle (g : GroupId) : string := "group next cycle includes " ++ g.

Definition candidate_input (m : GroupMember) : MatrixCandidateInput :=
  {| cand_node_id := member_node_id m; cand_priority := member_priority m |}.

Definition member_candidate (ns : NodeStore) (f : IpFamily) (m : GroupMember) : bool :=
  member_enabled m && is_eligible ns (member_node_id m) f.

(** [GroupStore::enabled_candidates] *)
Definition enabled_candidates (store : GroupStore) (gid : GroupId) (ns : NodeStore) (f : IpFamily)
    : outcome string (list MatrixCandidateInput) :=
  g ← ok_or (groups store !! gid) (group_missing gid);
  if negb (group_enabled g) then Err (group_disabled gid)
  else
    ms ← ok_or (members store !! gid) (no_enabled_node gid);
    Ok (List.map candidate_input (List.filter (member_candidate ns f) ms)).

Section select.
  (** The closure [FnMut(&GroupCandidateSet) -> Option<NodeId>] with the state
      it mutates. *)
  Context {S : Type} (select_node : S → GroupCandidateSet → S * option NodeId).
  Context (store : GroupStore) (ns : NodeStore) (f : IpFamily).

Definition select_group_hop (gid : GroupId) (s : S) : S * outcome string SelectionTraceHop :=
  match groups store !! gid with
  | None => (s, Err (group_missing gid))
  | Some g =>
      if negb (group_enabled g) then (s, Err (group_disabled gid))
      else
        match members store !! gid with
        | None => (s, Err (no_enabled_node gid))
        | Some ms =>
            match List.filter (member_candidate ns f) ms with
            | [] => (s, Err (no_capable_node gid f))
            | (first :: _) as candidates =>
                let '(s', choice) :=
                  select_node s {| set_group_id := group_id g;
                                   set_scheduler := group_scheduler g;
                                   set_thresholds := group_thresholds g;
                                   set_candidates := List.map candidate_input candidates |} in
                let selected :=
                  default (member_node_id first)
                    (opt_filter (λ id, existsb (λ m, String.eqb (member_node_id m) id) candidates)
                                choice) in
                (s', Ok {| hop_group_id := group_id g; hop_node_id := selected;
                           hop_next := group_next g; hop_scheduler := group_scheduler g;
                           hop_candidate_count := length candidates |})
            end
        end
  end.

(** The end of the walk: [trace.first().expect(..)] and the result. *)
Definition finish_selection (t : SelectionTerminal) (hops : list SelectionTraceHop)
    : outcome string GroupSelection :=
  first ← expect (head hops);
  Ok {| sel_trace := hops; sel_terminal := t; sel_scheduler := hop_scheduler first;
        sel_candidate_count := hop_candidate_count first |}.

(** The loop of [GroupStore::select_graph_with]; [None] when the fuel is spent. *)
Fixpoint select_graph_loop (fuel : nat) (seen : gset GroupId) (hops : list SelectionTraceHop)
    (current : GroupId) (s : S) : option (S * outcome string GroupSelection) :=
  match fuel with
  | O => None
  | Datatypes.S fuel' =>
      if bool_decide (current ∈ seen) then Some (s, Err (next_cycle current))
      else
        match select_group_hop current s with
        | (s', Ok hop) =>
            let hops' := (hops ++ [hop])%list in
            match hop_next hop with
            | DirectAuditOutlet => Some (s', finish_selection TerminalDirect hops')
            | Named name =>
                match enabled_node_id ns name with
                | Some nid => Some (s', finish_selection (TerminalNode nid) hops')
                | None => select_graph_loop fuel' ({[current]} ∪ seen) hops' name s'
                end
            end
        | (s', Err e) => Some (s', Err e)
        | (s', Panic) => Some (s', Panic)
        end
  end.

(** Every round but the last visits a new group of the store. *)
Definition select_graph_with (gid : GroupId) (s : S) : option (S * outcome string GroupSelection) :=
  select_graph_loop (size (groups store) + 2) ∅ [] gid s.
End select.

Definition group_snapshot (s : GroupStore) : list ForwardGroup := btree_values (groups s).
Definition member_snapshot (s : GroupStore) : list GroupMember :=
  List.concat (btree_values (members s)).

(** ** Route rules *)
Abbreviation RouteRuleStore := (list RouteRule).

Record RouteMatch := {
  match_group_id : option GroupId;
  match_rule_id : option RuleId;
  match_ipv6 : Ipv6RulePolicy;
}.

(** Descending priority, then ascending id. *)
Definition rule_cmp (a b : RouteRule) : comparison :=
  then_with (cmp (rule_priority b) (rule_priority a)) (cmp (rule_id a) (rule_id b)).

Definition from_rules (rules : list RouteRule) : RouteRuleStore := sort_by rule_cmp rules.

Definition route_match (r : RouteRule) : RouteMatch :=
  {| match_group_id := Some (rule_group_id r); match_rule_id := Some (rule_id r);
     match_ipv6 := rule_ipv6 r |}.

Definition no_route : RouteMatch :=
  {| match_group_id := None; match_rule_id := None; match_ipv6 := Inherit |}.

Definition match_group (store : RouteRuleStore) (t : TargetContext) : RouteMatch :=
  match List.find (λ r, matches (rule_matcher r) t) (List.filter rule_enabled store) with
  | Some r => route_match r
  | None => no_route
  end.

(** ** DNS upstreams *)
Abbreviation DnsUpstreamStore := (gmap DnsUpstreamId DnsUpstream).

Definition from_upstreams (l : list DnsUpstream) : DnsUpstreamStore :=
  btree_collect (List.map (λ u, (upstream_id u, u)) l).

Definition dns_snapshot (s : DnsUpstreamStore) : list DnsUpstream := btree_values s.

(** ** Lemmas on the stores *)
Lemma lookup_keyed {A} (key : A → string) (l : list A) k x :
  btree_collect (List.map (λ a, (key a, a)) l) !! k = Some x → x ∈ l ∧ key x = k.
Proof.
  intros Hin%btree_collect_Some. apply list_elem_of_In, in_map_iff in Hin as (y & [= <- <-] & Hy).
  split; [by apply list_elem_of_In|done].
Qed.

Lemma fst_keyed {A} (key : A → string) (l : list A) :
  (List.map (λ a, (key a, a)) l).*1 = List.map key l.
Proof. induction l as [|a l IH]; [done|]. cbn. by f_equal. Qed.

(** With unique keys the store holds exactly the elements of the list. *)
Lemma lookup_keyed_unique {A} (key : A → string) (l : list A) x :
  NoDup (List.map key l) → x ∈ l →
  btree_collect (List.map (λ a, (key a, a)) l) !! key x = Some x.
Proof.
  intros Hnd Hx. apply btree_collect_NoDup; [by rewrite fst_keyed|].
  apply list_elem_of_In, in_map_iff. exists x. split; [done|by apply list_elem_of_In].
Qed.

Lemma lookup_keyed_None {A} (key : A → string) (l : list A) k :
  btree_collect (List.map (λ a, (key a, a)) l) !! k = None ↔ ∀ x, x ∈ l → key x ≠ k.
Proof.
  rewrite btree_collect_None, fst_keyed. split.
  - intros Hk x Hx <-. apply Hk. apply list_elem_of_In, in_map. by apply list_elem_of_In.
  - intros Hall Hk. apply list_elem_of_In, in_map_iff in Hk as (x & <- & Hx).
    apply (Hall x); [by apply list_elem_of_In|done].
Qed.

Lemma fold_push_member ms m g :
  fold_left push_member ms m !! g =
    match List.filter (λ x, String.eqb (member_group_id x) g) ms, m !! g with
    | [], o => o
    | l, o => Some (default [] o ++ l)%list
    end.
Proof.
  revert m; induction ms as [|x ms IH]; intros m; cbn; [done|].
  rewrite IH. unfold push_member.
  destruct (String.eqb_spec (member_group_id x) g) as [<-|Hne].
  - rewrite lookup_insert_eq. cbn.
    destruct (List.filter _ ms) as [|y l]; [done|]. by rewrite <- app_assoc.
  - rewrite lookup_insert_ne by done. done.
Qed.

#[export] Instance member_cmp_preorder : CmpPreorder member_cmp.
Proof. apply (cmp_leb_on cmp (λ m, (member_priority m, member_node_id m))), ord_preorder. Qed.

#[export] Instance rule_cmp_preorder : CmpPreorder rule_cmp.
Proof.
  assert (∀ a b, rule_cmp a b = cmp (- rule_priority a, rule_id a)%Z (- rule_priority b, rule_id b)%Z) as Hk.
  { intros a b. unfold rule_cmp. cbn. unfold pair_cmp. cbn. by rewrite Z.compare_opp. }
  pose proof (cmp_leb_on cmp (λ r, (- rule_priority r, rule_id r)%Z) ord_preorder) as [Ht Htr].
  split; unfold cmp_leb in *.
  - intros x y. rewrite !Hk. apply (Ht x y).
  - intros x y z. rewrite !Hk. apply (Htr x y z).
Qed.

(** The members of a group: those of the input in priority order. *)
Lemma lookup_members d gs ms g l :
  members (from_parts d gs ms) !! g = Some l →
  l = sort_by member_cmp (List.filter (λ x, String.eqb (member_group_id x) g) ms) ∧ l ≠ [].
Proof.
  cbn. rewrite lookup_fmap, fold_push_member, lookup_empty.
  destruct (List.filter _ ms) as [|x l'] eqn:E; [done|]. intros [= <-]. split; [done|].
  intros Hnil%(f_equal length). change (length (sort_by member_cmp (x :: l')) = 0) in Hnil.
  by rewrite length_sort_by in Hnil.
Qed.

Lemma lookup_members_Some d gs ms g m :
  m ∈ ms → member_group_id m = g →
  ∃ l, members (from_parts d gs ms) !! g = Some l ∧ m ∈ l.
Proof.
  intros Hm Hg. cbn. rewrite lookup_fmap, fold_push_member, lookup_empty.
  assert (m ∈ List.filter (λ x, String.eqb (member_group_id x) g) ms) as Hf.
  { apply list_elem_of_In, filter_In. split; [by apply list_elem_of_In|by apply String.eqb_eq]. }
  destruct (List.filter _ ms) as [|x l']; [by apply elem_of_nil in Hf|].
  eexists. split; [done|]. by apply elem_of_sort_by.
Qed.

(** The groups of the store are filed under their own ids. *)
Definition keyed (store : GroupStore) : Prop :=
  ∀ k g, groups store !! k = Some g → group_id g = k.

Lemma from_parts_keyed d gs ms : keyed (from_parts d gs ms).
Proof. intros k g Hk. cbn in Hk. by apply (lookup_keyed group_id) in Hk as [_ ?]. Qed.

Definition node_store_keyed (s : NodeStore) : Prop :=
  ∀ k n, nodes s !! k = Some n → node_id n = k.

Lemma from_nodes_keyed l : node_store_keyed (from_nodes l).
Proof. intros k n Hk. cbn in Hk. by apply (lookup_keyed node_id) in Hk as [_ ?]. Qed.

Lemma enabled_node_id_Some s name nid :
  enabled_node_id s name = Some nid → ∃ n, nodes s !! name = Some n ∧ node_enabled n = true ∧ nid = node_id n.
Proof.
  unfold enabled_node_id. destruct (nodes s !! name) as [n|]; [|done].
  destruct (node_enabled n) eqn:E; [|done]. intros [= <-]. by exists n.
Qed.

(** ** The walk over the group graph *)
Section walk.
  Context {S : Type} (select_node : S → GroupCandidateSet → S * option NodeId).
  Context (store : GroupStore) (ns : NodeStore) (f : IpFamily).

(** What a hop through group [gid] promises: the group exists and is enabled,
    and the node is that of an enabled member that can carry the family. *)
Definition hop_sound (gid : GroupId) (h : SelectionTraceHop) : Prop :=
  ∃ g ms m, groups store !! gid = Some g ∧ group_enabled g = true ∧
    hop_group_id h = group_id g ∧ hop_next h = group_next g ∧
    hop_scheduler h = group_scheduler g ∧
    members store !! gid = Some ms ∧ m ∈ ms ∧ member_candidate ns f m = true ∧
    member_node_id m = hop_node_id h ∧
    hop_candidate_count h = length (List.filter (member_candidate ns f) ms).

(** The walks of the group graph: the trace from a group to a terminal. *)
Inductive walk : GroupId → list SelectionTraceHop → SelectionTerminal → Prop :=
| walk_direct gid h :
    hop_sound gid h → hop_next h = DirectAuditOutlet → walk gid [h] TerminalDirect
| walk_node gid h name nid :
    hop_sound gid h → hop_next h = Named name → enabled_node_id ns name = Some nid →
    walk gid [h] (TerminalNode nid)
| walk_group gid h name hs t :
    hop_sound gid h → hop_next h = Named name → enabled_node_id ns name = None →
    walk name hs t → walk gid (h :: hs) t.

Lemma select_group_hop_ok gid s s' h :
  select_group_hop select_node store ns f gid s = (s', Ok h) → hop_sound gid h.
Proof.
  unfold select_group_hop. destruct (groups store !! gid) as [g|] eqn:Eg; [|done].
  destruct (group_enabled g) eqn:Een; [cbn|done].
  destruct (members store !! gid) as [ms|] eqn:Em; [|done].
  destruct (List.filter (member_candidate ns f) ms) as [|m0 l] eqn:Ef; [done|].
  destruct (select_node s _) as [s1 choice]. intros [= <- <-].
  assert (∀ m, m ∈ m0 :: l → m ∈ ms ∧ member_candidate ns f m = true) as Hin.
  { intros m Hm. rewrite <- Ef in Hm. apply list_elem_of_In, filter_In in Hm as [Hm ?].
    split; [by apply list_elem_of_In|done]. }
  assert (∃ m, m ∈ m0 :: l ∧ member_node_id m =
    default (member_node_id m0) (opt_filter (λ id, existsb (λ m, String.eqb (member_node_id m) id) (m0 :: l)) choice))
    as (m & Hm & Hid).
  { destruct choice as [id|]; [|exists m0; split; [apply list_elem_of_here|done]].
    cbn [opt_filter]. destruct (existsb _ _) eqn:Eex; [|exists m0; split; [apply list_elem_of_here|done]].
    apply existsb_exists in Eex as (m & Hm & Hid). apply String.eqb_eq in Hid.
    exists m. split; [by apply list_elem_of_In|done]. }
  exists g, ms, m. destruct (Hin m Hm). rewrite Ef. done.
Qed.

Lemma select_group_hop_no_panic gid s : no_panic (select_group_hop select_node store ns f gid s).2.
Proof.
  unfold select_group_hop. destruct (groups store !! gid) as [g|]; [|done].
  destruct (negb (group_enabled g)); [done|].
  destruct (members store !! gid) as [ms|]; [|done].
  destruct (List.filter (member_candidate ns f) ms) as [|m0 l]; [done|].
  by destruct (select_node s _) as [s1 choice].
Qed.

(** The errors of one hop, by cause. *)
Lemma select_group_hop_err gid s s' e :
  select_group_hop select_node store ns f gid s = (s', Err e) →
  (e = group_missing gid ∧ groups store !! gid = None) ∨
  (∃ g, groups store !! gid = Some g ∧
     ((e = group_disabled gid ∧ group_enabled g = false) ∨
      (e = no_enabled_node gid ∧ group_enabled g = true ∧ members store !! gid = None) ∨
      (e = no_capable_node gid f ∧ group_enabled g = true ∧
       ∃ ms, members store !! gid = Some ms ∧ List.filter (member_candidate ns f) ms = []))).
Proof.
  unfold select_group_hop. destruct (groups store !! gid) as [g|] eqn:Eg.
  2: { intros [= <- <-]. by left. }
  intros H. right. exists g. split; [done|]. revert H.
  destruct (group_enabled g) eqn:Een; cbn; [|intros [= <- <-]; by left].
  destruct (members store !! gid) as [ms|] eqn:Em; [|intros [= <- <-]; by right; left].
  destruct (List.filter (member_candidate ns f) ms) as [|m0 l] eqn:Ef.
  - intros [= <- <-]. right. right. split_and!; try done. by exists ms.
  - by destruct (select_node s _) as [s1 choice].
Qed.

Lemma finish_selection_snoc t hops h :
  ∃ sel, finish_selection t (hops ++ [h]) = Ok sel ∧ sel_trace sel = (hops ++ [h])%list
    ∧ sel_terminal sel = t.
Proof. by destruct hops as [|h0 hops]; eexists. Qed.

(** ** Termination *)
Lemma hop_ok_in_store gid s s' h :
  select_group_hop select_node store ns f gid s = (s', Ok h) → gid ∈ dom (groups store).
Proof. intros (g & ms & m & Hg & _)%select_group_hop_ok. apply elem_of_dom. by exists g. Qed.

Lemma select_graph_loop_total fuel seen hops gid s :
  seen ⊆ dom (groups store) → size (groups store) - size seen < fuel →
  ∃ s' r, select_graph_loop select_node store ns f fuel seen hops gid s = Some (s', r) ∧ no_panic r.
Proof.
  revert seen hops gid s; induction fuel as [|fuel IH]; intros seen hops gid s Hsub Hf; [lia|].
  cbn [select_graph_loop]. case_bool_decide as Hseen; [by eexists _, _|].
  destruct (select_group_hop select_node store ns f gid s) as [s1 [h|e|]] eqn:Eh.
  - destruct (hop_next h) as [|name].
    + destruct (finish_selection_snoc TerminalDirect hops h) as (sel & -> & _). by eexists _, _.
    + destruct (enabled_node_id ns name) as [nid|].
      * destruct (finish_selection_snoc (TerminalNode nid) hops h) as (sel & -> & _). by eexists _, _.
      * apply hop_ok_in_store in Eh.
        assert ({[gid]} ∪ seen ⊆ dom (groups store)) as Hsub' by (apply union_subseteq; split; [by apply singleton_subseteq_l|done]).
        apply IH; [done|]. pose proof (subseteq_size _ _ Hsub') as Hle.
        rewrite size_dom in Hle. rewrite size_union, size_singleton in * by set_solver. lia.
  - by eexists _, _.
  - pose proof (select_group_hop_no_panic gid s) as Hnp. by rewrite Eh in Hnp.
Qed.

(** ** Soundness of the trace *)
Lemma select_graph_loop_walk fuel seen hops gid s s' sel :
  select_graph_loop select_node store ns f fuel seen hops gid s = Some (s', Ok sel) →
  keyed store → (∀ h, h ∈ hops → hop_group_id h ∈ seen) → NoDup (hop_group_id <$> hops) →
  ∃ hs, sel_trace sel = (hops ++ hs)%list ∧ walk gid hs (sel_terminal sel)
    ∧ NoDup (hop_group_id <$> sel_trace sel).
Proof.
  intros Hl Hk. revert seen hops gid s Hl; induction fuel as [|fuel IH]; [done|].
  intros seen hops gid s. cbn [select_graph_loop]. case_bool_decide as Hseen; [done|].
  destruct (select_group_hop select_node store ns f gid s) as [s1 [h|e|]] eqn:Eh; [|done|done].
  apply select_group_hop_ok in Eh. intros Hl Hin Hnd.
  assert (hop_group_id h = gid) as Hid.
  { destruct Eh as (g & ms & m & Hg & _ & -> & _). by apply Hk. }
  assert (NoDup (hop_group_id <$> (hops ++ [h])%list)) as Hnd'.
  { rewrite fmap_app. apply NoDup_app. split_and!; [done| |apply NoDup_singleton].
    intros g Hg Hg'. apply list_elem_of_singleton in Hg' as ->.
    apply list_elem_of_fmap in Hg as (h' & Hh & Hin'). apply Hseen. rewrite <- Hid, Hh. by apply Hin. }
  destruct (hop_next h) as [|name] eqn:En.
  - destruct (finish_selection_snoc TerminalDirect hops h) as (sel' & Hf & Ht & Htm).
    rewrite Hf in Hl. injection Hl as <- <-. exists [h]. rewrite Ht, Htm.
    split_and!; [done|by apply walk_direct|done].
  - destruct (enabled_node_id ns name) as [nid|] eqn:Ee.
    + destruct (finish_selection_snoc (TerminalNode nid) hops h) as (sel' & Hf & Ht & Htm).
      rewrite Hf in Hl. injection Hl as <- <-. exists [h]. rewrite Ht, Htm.
      split_and!; [done|by eapply walk_node|done].
    + apply IH in Hl as (hs & Ht & Hw & Hn); [| |done].
      * exists (h :: hs). rewrite Ht, <- app_assoc. split_and!; [done|by eapply walk_group|].
        by rewrite Ht, <- app_assoc in Hn.
      * intros h' [Hh'|Hh']%elem_of_app; [set_solver|].
        apply list_elem_of_singleton in Hh' as ->. set_solver.
Qed.

Lemma select_graph_loop_first fuel seen hops gid s s' sel :
  select_graph_loop select_node store ns f fuel seen hops gid s = Some (s', Ok sel) →
  ∃ h, head (sel_trace sel) = Some h ∧ sel_scheduler sel = hop_scheduler h
    ∧ sel_candidate_count sel = hop_candidate_count h.
Proof.
  revert seen hops gid s; induction fuel as [|fuel IH]; [done|].
  intros seen hops gid s. cbn [select_graph_loop]. case_bool_decide; [done|].
  assert (∀ t hs, finish_selection t hs = Ok sel → ∃ h, head (sel_trace sel) = Some h ∧
    sel_scheduler sel = hop_scheduler h ∧ sel_candidate_count sel = hop_candidate_count h) as Hfin.
  { intros t [|h hs]; [done|]. cbn. intros [= <-]. by exists h. }
  destruct (select_group_hop select_node store ns f gid s) as [s1 [h|e|]]; [|done|done].
  destruct (hop_next h) as [|name]; [intros [= _ Hf]; by eapply Hfin|].
  destruct (enabled_node_id ns name); [intros [= _ Hf]; by eapply Hfin|apply IH].
Qed.
End walk.

(** ** The properties *)

(** C2: the walk over the group graph terminates for every store, even one whose
    [next] references form a cycle, and never panics: [select_graph_with] always
    returns a selection or an error message, because each round visits a group
    of the store that was not visited before. *)
Theorem select_graph_total {S} (select_node : S → GroupCandidateSet → S * option NodeId)
    store ns f gid s :
  ∃ s' r, select_graph_with select_node store ns f gid s = Some (s', r) ∧ no_panic r.
Proof.
  apply select_graph_loop_total; [apply empty_subseteq|]. rewrite size_empty. lia.
Qed.

(** a selection is a walk of the configured graph: it starts at the requested
    group, every hop goes through an enabled group to the node of an enabled
    member that can carry the address family, consecutive hops follow the
    groups' [next] references to the reported terminal, no group is visited
    twice, and the summary fields are those of the first hop. *)
Theorem select_graph_sound {S} (select_node : S → GroupCandidateSet → S * option NodeId)
    d gs ms ns f gid s s' sel :
  select_graph_with select_node (from_parts d gs ms) ns f gid s = Some (s', Ok sel) →
  walk (from_parts d gs ms) ns f gid (sel_trace sel) (sel_terminal sel)
  ∧ NoDup (hop_group_id <$> sel_trace sel)
  ∧ ∃ h, head (sel_trace sel) = Some h ∧ sel_scheduler sel = hop_scheduler h
      ∧ sel_candidate_count sel = hop_candidate_count h.
Proof.
  intros Hsel. split_and!; [| |by eapply select_graph_loop_first];
    (eapply select_graph_loop_walk in Hsel as (hs & Ht & Hw & Hn);
     [|apply from_parts_keyed|by intros h ?%elem_of_nil|apply NoDup_nil_2]);
    [by rewrite Ht|done].
Qed.

(** A rule is preferred when its priority is higher, or equal with a smaller id. *)
Definition rule_preferred (r r' : RouteRule) : Prop :=
  (rule_priority r' < rule_priority r)%Z ∨
  (rule_priority r' = rule_priority r ∧ cmp_le (rule_id r) (rule_id r')).

Lemma rule_cmp_leb r r' : cmp_leb rule_cmp r r' = true ↔ rule_preferred r r'.
Proof.
  unfold cmp_leb, rule_cmp, then_with, rule_preferred, cmp_le. cbn.
  destruct (Z.compare_spec (rule_priority r') (rule_priority r)) as [E|E|E].
  - destruct (String.compare (rule_id r) (rule_id r')); split; auto; intros [?|[_ ?]]; lia || done.
  - split; [by left|done].
  - split; [done|]. intros [?|[? _]]; lia.
Qed.

(** route matching is correct on every rule set: the rule that decides is
    enabled, matches the target and is preferred to every other enabled rule
    that matches, by descending priority and then by id; without such a rule the
    target falls through to the default group with the inherited IPv6 policy. *)
Theorem match_group_spec rules t :
  (match_group (from_rules rules) t = no_route ∧
   ∀ r, r ∈ rules → rule_enabled r = true → matches (rule_matcher r) t = false)
  ∨ (∃ r, match_group (from_rules rules) t = route_match r ∧ r ∈ rules ∧
      rule_enabled r = true ∧ matches (rule_matcher r) t = true ∧
      ∀ r', r' ∈ rules → rule_enabled r' = true → matches (rule_matcher r') t = true →
        rule_preferred r r').
Proof.
  unfold match_group. rewrite find_filter.
  destruct (List.find _ (from_rules rules)) as [r|] eqn:E.
  - right. exists r. pose proof (find_Some_elem _ _ _ E) as [Hin Hb]. bool_hyps.
    apply elem_of_sort_by in Hin. split_and!; try done.
    intros r' Hr' He Hm. apply rule_cmp_leb.
    destruct (find_sorted_least rule_cmp _ _ _ (sort_by_sorted rule_cmp rules) E r') as [->|?];
      [by apply elem_of_sort_by|by rewrite He, Hm| |done].
    unfold cmp_leb, rule_cmp. by rewrite !cmp_refl.
  - left. split; [done|]. intros r Hr He.
    pose proof (proj1 (find_None_elem _ _) E r) as Hf. cbn in Hf. rewrite He in Hf.
    apply Hf. by apply elem_of_sort_by.
Qed.

(** the default schedule of a hop is first-enabled: when the active matrix
    abstains, the chosen node is that of the eligible member of the group with the
    least priority number, ties going to the smallest node id. *)
Theorem hop_default_first {S} (s s' : S) d gs ms ns f gid h :
  select_group_hop (λ s _, (s, None)) (from_parts d gs ms) ns f gid s = (s', Ok h) →
  ∃ m, m ∈ ms ∧ member_group_id m = gid ∧ member_candidate ns f m = true ∧
    hop_node_id h = member_node_id m ∧
    ∀ m', m' ∈ ms → member_group_id m' = gid → member_candidate ns f m' = true →
      cmp_le (member_priority m, member_node_id m) (member_priority m', member_node_id m').
Proof.
  unfold select_group_hop.
  destruct (groups (from_parts d gs ms) !! gid) as [g|]; [|done].
  destruct (negb (group_enabled g)); [done|].
  destruct (members (from_parts d gs ms) !! gid) as [l|] eqn:Em; [|done].
  apply lookup_members in Em as [-> _]. set (l := List.filter _ ms).
  assert (∀ m, m ∈ l ↔ m ∈ ms ∧ member_group_id m = gid) as Hl.
  { intros m. unfold l. by rewrite !list_elem_of_In, filter_In, String.eqb_eq. }
  pose proof (sort_by_sorted member_cmp l) as Hs.
  destruct (List.filter _ (sort_by member_cmp l)) as [|m0 l'] eqn:Ef; [done|].
  assert (List.find (member_candidate ns f) (sort_by member_cmp l) = Some m0) as Hfind.
  { clear -Ef. induction (sort_by member_cmp l) as [|x k IH]; [done|]. cbn in *.
    destruct (member_candidate ns f x); [congruence|by apply IH]. }
  intros [= <- <-]. exists m0. pose proof (find_Some_elem _ _ _ Hfind) as [Hin Hc].
  rewrite elem_of_sort_by, Hl in Hin. destruct Hin. split_and!; try done.
  intros m' Hm' Hg' Hc'. unfold cmp_le.
  destruct (find_sorted_least member_cmp _ _ _ Hs Hfind m') as [->|Hle];
    [by apply elem_of_sort_by, Hl|done|by rewrite cmp_refl|].
  unfold cmp_leb, member_cmp in Hle. by destruct (cmp _ _).
Qed.

(** ** A concrete configuration *)
Definition demo_nodes : list ForwardNode :=
  [new_node "n1" "first" true; new_node "n2" "second" true; new_node "n3" "third" false].

Definition demo_groups : list ForwardGroup :=
  [{| group_id := "entry"; group_enabled := true; group_scheduler := SingleFirstEnabled;
      group_thresholds := default_thresholds; group_next := Named "exit" |};
   {| group_id := "exit"; group_enabled := true; group_scheduler := SingleFirstEnabled;
      group_thresholds := default_thresholds; group_next := Named "n2" |}].

Definition demo_members : list GroupMember :=
  [default_member "n3" "entry"; default_member "n2" "entry"; default_member "n1" "entry";
   default_member "n1" "exit"].

Definition abstain (s : unit) (c : GroupCandidateSet) : unit * option NodeId := (s, None).

Lemma select_graph_sound_witness :
  ∃ sel, select_graph_with abstain (from_parts "entry" demo_groups demo_members)
           (from_nodes demo_nodes) Ipv6 "entry" tt = Some (tt, Ok sel) ∧
    walk (from_parts "entry" demo_groups demo_members) (from_nodes demo_nodes) Ipv6 "entry"
      (sel_trace sel) (sel_terminal sel).
Proof.
  eexists. match goal with |- ?A ∧ _ => assert A as H by (vm_compute; reflexivity) end.
  exact (conj H (proj1 (select_graph_sound _ _ _ _ _ _ _ _ _ _ H))).
Defined.

Lemma hop_default_first_witness :
  ∃ h, select_group_hop (λ s _, (s, None)) (from_parts "entry" demo_groups demo_members)
         (from_nodes demo_nodes) Ipv4 "entry" tt = (tt, Ok h) ∧
    ∃ m, m ∈ demo_members ∧ hop_node_id h = member_node_id m.
Proof.
  eexists. match goal with |- ?A ∧ _ => assert A as H by (vm_compute; reflexivity) end.
  split; [exact H|]. destruct (hop_default_first _ _ _ _ _ _ _ _ _ H) as (m & Hm & _ & _ & Hn & _).
  by exists m.
Defined.
