(* ===== verification/Validation.v ===== *)
(** * Validation: the seed of the runtime

    [crates/dynet-runtime/src/persistence/validation.rs]. A message built by
    [format!] is the constructor of its text with the values it prints. *)
From Stdlib Require Import ZArith Lia Strings.Byte Ascii String Sorting.Sorted.
From stdpp Require Import base list numbers option strings gmap sets.
From S2P Require Import Prelude Collections Net RustStd Model Stores.
Local Open Scope string_scope.
Local Open Scope nat_scope.

Inductive bootstrap_message :=
| NodeRequired
| DefaultGroupMissing (g : GroupId)
| DefaultGroupDisabled (g : GroupId)
| DefaultGroupNoMember (g : GroupId)
| MemberMissingGroup (g : GroupId)
| MemberMissingNode (n : NodeId)
| RuleMissingGroup (r : RuleId) (g : GroupId)
| NodeIdReserved
| GroupIdReserved
| ForwardingNameDuplicated (id : string)
| RouteRuleDuplicated (id : string)
| DnsUpstreamDuplicated (id : string)
| DnsUpstreamRequired
| RaceTimeoutZero
| NextDisabledNode (g : GroupId) (next : string)
| NextDisabledGroup (g : GroupId) (next : string)
| NextUndeclared (g : GroupId) (next : string)
| NextCycle (current : string).

(** The variants of [RuntimeStoreError] that validation constructs. *)
Inductive RuntimeStoreError :=
| InvalidBootstrap (m : bootstrap_message)
| InvalidDnsUpstream (id : string) (message : string).

Abbreviation check := (outcome RuntimeStoreError).

Definition fail {A} (m : bootstrap_message) : check A := Err (InvalidBootstrap m).

(** One round of the insert-or-reject loops. *)
Definition insert_unique (e : string → bootstrap_message) (seen : gset string) (id : string)
    : check (gset string) :=
  if bool_decide (id ∈ seen) then fail (e id) else Ok ({[id]} ∪ seen).

Definition insert_name (reserved : bootstrap_message) (seen : gset string) (id : string)
    : check (gset string) :=
  if String.eqb id DIRECT_AUDIT_OUTLET then fail reserved
  else insert_unique ForwardingNameDuplicated seen id.

Definition validate_unique_rule_ids (rules : list RouteRule) : check unit :=
  _ ← for_each (insert_unique RouteRuleDuplicated) ∅ (List.map rule_id rules); Ok tt.

Definition validate_unique_dns_ids (ups : list DnsUpstream) : check unit :=
  _ ← for_each (insert_unique DnsUpstreamDuplicated) ∅ (List.map upstream_id ups); Ok tt.

Definition validate_unique_ids (nodes : list ForwardNode) (groups : list ForwardGroup)
    (rules : list RouteRule) (ups : list DnsUpstream) : check unit :=
  names ← for_each (insert_name NodeIdReserved) ∅ (List.map node_id nodes);
  _ ← for_each (insert_name GroupIdReserved) names (List.map group_id groups);
  _ ← validate_unique_rule_ids rules;
  validate_unique_dns_ids ups.

Definition validate_dns_upstream (_ : unit) (u : DnsUpstream) : check unit :=
  match upstream_transport u with
  | TransportHttps endpoint =>
      if is_empty (trim (host endpoint)) then
        Err (InvalidDnsUpstream (upstream_id u) "HTTPS DNS upstream host must not be empty")
      else if negb (starts_with (path endpoint) "/") then
        Err (InvalidDnsUpstream (upstream_id u) "HTTPS DNS upstream path must start with '/'")
      else Ok tt
  | TransportUdp => Ok tt
  end.

Definition validate_dns_upstreams (ups : list DnsUpstream) : check unit :=
  for_each validate_dns_upstream tt ups.

Definition find_node (nodes : list ForwardNode) (id : string) : option ForwardNode :=
  List.find (λ n, String.eqb (node_id n) id) nodes.
Definition find_group (groups : list ForwardGroup) (id : string) : option ForwardGroup :=
  List.find (λ g, String.eqb (group_id g) id) groups.

Definition validate_group_next_reference (nodes : list ForwardNode) (groups : list ForwardGroup)
    (g : ForwardGroup) : check unit :=
  let next := next_label (group_next g) in
  if String.eqb next DIRECT_AUDIT_OUTLET then Ok tt
  else
    match find_node nodes next with
    | Some n => if node_enabled n then Ok tt else fail (NextDisabledNode (group_id g) next)
    | None =>
        match find_group groups next with
        | Some g' => if group_enabled g' then Ok tt else fail (NextDisabledGroup (group_id g) next)
        | None => fail (NextUndeclared (group_id g) next)
        end
    end.

(** The loop of [validate_group_next_cycle]; [None] when the fuel is spent. *)
Fixpoint next_cycle_loop (nodes : list ForwardNode) (groups : list ForwardGroup) (fuel : nat)
    (seen : gset string) (current : string) : option (check unit) :=
  match fuel with
  | O => None
  | S fuel' =>
      if bool_decide (current ∈ seen) then Some (fail (NextCycle current))
      else
        match find_group groups current with
        | None => Some (Ok tt)
        | Some g =>
            let next := next_label (group_next g) in
            if String.eqb next DIRECT_AUDIT_OUTLET then Some (Ok tt)
            else if existsb (λ n, String.eqb (node_id n) next) nodes then Some (Ok tt)
            else next_cycle_loop nodes groups fuel' ({[current]} ∪ seen) next
        end
  end.

(** Every round but the last records a new group id. Out of fuel is an error
    here, so that acceptance never rests on the bound. *)
Definition validate_group_next_cycle (nodes : list ForwardNode) (groups : list ForwardGroup)
    (start : string) : check unit :=
  default (fail (NextCycle start)) (next_cycle_loop nodes groups (length groups + 2) ∅ start).

Definition validate_group_next_refs (nodes : list ForwardNode) (groups : list ForwardGroup)
    : check unit :=
  _ ← for_each (λ _, validate_group_next_reference nodes groups) tt groups;
  for_each (λ _ g, validate_group_next_cycle nodes groups (group_id g)) tt groups.

Definition validate_member (nodes : list ForwardNode) (groups : list ForwardGroup)
    (_ : unit) (m : GroupMember) : check unit :=
  if negb (existsb (λ g, String.eqb (group_id g) (member_group_id m)) groups) then
    fail (MemberMissingGroup (member_group_id m))
  else if negb (existsb (λ n, String.eqb (node_id n) (member_node_id m)) nodes) then
    fail (MemberMissingNode (member_node_id m))
  else Ok tt.

Definition validate_rule (groups : list ForwardGroup) (_ : unit) (r : RouteRule) : check unit :=
  if negb (existsb (λ g, String.eqb (group_id g) (rule_group_id r)) groups) then
    fail (RuleMissingGroup (rule_id r) (rule_group_id r))
  else Ok tt.

Definition validate_references (nodes : list ForwardNode) (groups : list ForwardGroup)
    (members : list GroupMember) (rules : list RouteRule) : check unit :=
  _ ← for_each (validate_member nodes groups) tt members;
  _ ← for_each (validate_rule groups) tt rules;
  validate_group_next_refs nodes groups.

Definition validate_bootstrap (nodes : list ForwardNode) (default_gid : GroupId)
    (groups : list ForwardGroup) (members : list GroupMember) (rules : list RouteRule)
    (ups : list DnsUpstream) (policy : DnsRacePolicy) : check unit :=
  _ ← validate_unique_ids nodes groups rules ups;
  _ ← (if length nodes =? 0 then fail NodeRequired else Ok tt);
  g ← ok_or (find_group groups default_gid) (InvalidBootstrap (DefaultGroupMissing default_gid));
  _ ← (if negb (group_enabled g) then fail (DefaultGroupDisabled default_gid) else Ok tt);
  _ ← (if negb (existsb (λ m, String.eqb (member_group_id m) default_gid && member_enabled m) members)
       then fail (DefaultGroupNoMember default_gid) else Ok tt);
  _ ← validate_references nodes groups members rules;
  _ ← (if negb (existsb upstream_enabled ups) then fail DnsUpstreamRequired else Ok tt);
  _ ← validate_dns_upstreams ups;
  (if (dns_timeout policy =? 0)%Z then fail RaceTimeoutZero else Ok tt).

Definition validate_seed (s : RuntimeSeed) : check unit :=
  validate_bootstrap (seed_nodes s) (seed_default_group_id s) (seed_groups s)
    (seed_group_members s) (seed_route_rules s) (seed_dns_upstreams s) (seed_dns_policy s).

(** Validation returns. *)
Lemma next_cycle_no_panic nodes groups fuel seen current :
  match next_cycle_loop nodes groups fuel seen current with Some r => no_panic r | None => True end.
Proof.
  revert seen current; induction fuel as [|fuel IH]; intros seen current; cbn [next_cycle_loop]; [done|].
  destruct (bool_decide _); [done|]. destruct (find_group groups current) as [g|]; [|done].
  destruct (String.eqb _ _); [done|]. destruct (existsb _ nodes); [done|apply IH].
Qed.

Lemma validate_seed_no_panic s : no_panic (validate_seed s).
Proof.
  assert (∀ nodes groups start, no_panic (validate_group_next_cycle nodes groups start)) as Hc.
  { intros nodes groups start. unfold validate_group_next_cycle.
    pose proof (next_cycle_no_panic nodes groups (length groups + 2) ∅ start).
    by destruct (next_cycle_loop nodes groups (length groups + 2) ∅ start). }
  unfold validate_seed, validate_bootstrap, validate_unique_ids, validate_unique_rule_ids,
    validate_unique_dns_ids, validate_references, validate_group_next_refs, validate_dns_upstreams,
    validate_group_next_reference, validate_dns_upstream, validate_member, validate_rule,
    insert_name, insert_unique, fail. no_panics; apply Hc.
Qed.

(** ** Declarative well-formedness *)

(** The group that a group hands over to, if it is another group. *)
Definition next_group (nodes : list ForwardNode) (groups : list ForwardGroup) (id : string)
    : option string :=
  match find_group groups id with
  | None => None
  | Some g =>
      let next := next_label (group_next g) in
      if String.eqb next DIRECT_AUDIT_OUTLET then None
      else if existsb (λ n, String.eqb (node_id n) next) nodes then None
      else Some next
  end.

Fixpoint next_iter (nodes : list ForwardNode) (groups : list ForwardGroup) (k : nat) (id : string)
    : option string :=
  match k with
  | O => Some id
  | S k' => match next_group nodes groups id with
            | Some id' => next_iter nodes groups k' id'
            | None => None
            end
  end.

(** Following [next] from the id ends. *)
Definition next_ends (nodes : list ForwardNode) (groups : list ForwardGroup) (id : string) : Prop :=
  ∃ k, next_iter nodes groups k id = None.

Definition next_valid (nodes : list ForwardNode) (groups : list ForwardGroup) (g : ForwardGroup) : Prop :=
  let next := next_label (group_next g) in
  next = DIRECT_AUDIT_OUTLET ∨
  (∃ n, n ∈ nodes ∧ node_id n = next ∧ node_enabled n = true) ∨
  (∃ g', g' ∈ groups ∧ group_id g' = next ∧ group_enabled g' = true).

Definition endpoint_valid (u : DnsUpstream) : Prop :=
  match upstream_transport u with
  | TransportHttps e => trim (host e) ≠ "" ∧ starts_with (path e) "/" = true
  | TransportUdp => True
  end.

Record well_formed (s : RuntimeSeed) : Prop := {
  wf_names : NoDup (List.map node_id (seed_nodes s) ++ List.map group_id (seed_groups s))%list;
  wf_not_reserved : DIRECT_AUDIT_OUTLET ∉ (List.map node_id (seed_nodes s) ++ List.map group_id (seed_groups s))%list;
  wf_rule_ids : NoDup (List.map rule_id (seed_route_rules s));
  wf_dns_ids : NoDup (List.map upstream_id (seed_dns_upstreams s));
  wf_nodes : seed_nodes s ≠ [];
  wf_default : ∃ g, g ∈ seed_groups s ∧ group_id g = seed_default_group_id s ∧ group_enabled g = true;
  wf_default_member : ∃ m, m ∈ seed_group_members s ∧
    member_group_id m = seed_default_group_id s ∧ member_enabled m = true;
  wf_members : ∀ m, m ∈ seed_group_members s →
    (∃ g, g ∈ seed_groups s ∧ group_id g = member_group_id m) ∧
    (∃ n, n ∈ seed_nodes s ∧ node_id n = member_node_id m);
  wf_rules : ∀ r, r ∈ seed_route_rules s → ∃ g, g ∈ seed_groups s ∧ group_id g = rule_group_id r;
  wf_next : ∀ g, g ∈ seed_groups s → next_valid (seed_nodes s) (seed_groups s) g;
  wf_acyclic : ∀ g, g ∈ seed_groups s → next_ends (seed_nodes s) (seed_groups s) (group_id g);
  wf_dns_enabled : ∃ u, u ∈ seed_dns_upstreams s ∧ upstream_enabled u = true;
  wf_endpoints : ∀ u, u ∈ seed_dns_upstreams s → endpoint_valid u;
  wf_timeout : dns_timeout (seed_dns_policy s) ≠ 0%Z;
}.

(** ** The checks one by one *)
Lemma for_each_check {A} (c : unit → A → check unit) l :
  for_each c tt l = Ok tt ↔ ∀ x, x ∈ l → c tt x = Ok tt.
Proof.
  induction l as [|x l IH]; cbn.
  { split; [|done]. by intros _ x ?%elem_of_nil. }
  split.
  - intros ([] & Hx & Hl)%outcome_bind_Ok_inv y [->|Hy]%elem_of_cons; [done|].
    by apply (proj1 IH).
  - intros Hall. rewrite (Hall x) by apply list_elem_of_here. apply IH.
    intros y Hy. apply Hall. by apply list_elem_of_further.
Qed.

Lemma for_each_insert (step : gset string → string → check (gset string)) (ok : string → Prop) l seen s' :
  (∀ seen id seen', step seen id = Ok seen' ↔ ok id ∧ (id ∉ seen) ∧ seen' = {[id]} ∪ seen) →
  for_each step seen l = Ok s' ↔
    Forall ok l ∧ NoDup l ∧ (∀ x, x ∈ l → (x ∉ seen)) ∧ s' = list_to_set l ∪ seen.
Proof.
  intros Hstep. revert seen; induction l as [|x l IH]; intros seen; cbn [for_each].
  { split.
    - intros [= <-]. split_and!; [constructor|constructor|by intros x ?%elem_of_nil|].
      cbn. by rewrite union_empty_l_L.
    - intros (_ & _ & _ & ->). cbn. by rewrite union_empty_l_L. }
  rewrite outcome_bind_Ok_inv. setoid_rewrite Hstep. setoid_rewrite IH.
  rewrite Forall_cons, NoDup_cons. split.
  - intros (s1 & (Hok & Hx & ->) & Hl & Hnd & Hd & ->). split_and!; try done.
    + intros Hin. apply (Hd x Hin). by apply elem_of_union_l, elem_of_singleton.
    + intros y [->|Hy]%elem_of_cons; [done|]. intros Hs. apply (Hd y Hy). by apply elem_of_union_r.
    + cbn. apply set_eq. intros y. rewrite !elem_of_union. tauto.
  - intros ((Hok & Hl) & (Hx & Hnd) & Hd & ->). eexists. split_and!; try done.
    + apply Hd, list_elem_of_here.
    + intros y Hy. rewrite elem_of_union, elem_of_singleton. intros [->|Hs]; [done|].
      apply (Hd y); [by apply list_elem_of_further|done].
    + cbn. apply set_eq. intros y. rewrite !elem_of_union. tauto.
Qed.

Lemma insert_unique_spec e seen id seen' :
  insert_unique e seen id = Ok seen' ↔ True ∧ (id ∉ seen) ∧ seen' = {[id]} ∪ seen.
Proof.
  unfold insert_unique. case_bool_decide as Hin; [by split; [|intros (_ & ? & _)]|].
  split; [by intros [= <-]|by intros (_ & _ & ->)].
Qed.

Lemma insert_name_spec r seen id seen' :
  insert_name r seen id = Ok seen' ↔ id ≠ DIRECT_AUDIT_OUTLET ∧ (id ∉ seen) ∧ seen' = {[id]} ∪ seen.
Proof.
  unfold insert_name. destruct (String.eqb_spec id DIRECT_AUDIT_OUTLET) as [->|Hne].
  { by split; [|intros (? & _)]. }
  rewrite insert_unique_spec. tauto.
Qed.

Lemma unit_bind_ok {E A} (m : outcome E A) :
  (_ ← m; Ok tt) = Ok tt ↔ ∃ a, m = Ok a.
Proof. rewrite outcome_bind_Ok_inv. split; [intros (a & ? & _)|intros (a & ?)]; by exists a. Qed.

Lemma validate_unique_rule_ids_ok rules :
  validate_unique_rule_ids rules = Ok tt ↔ NoDup (List.map rule_id rules).
Proof.
  unfold validate_unique_rule_ids. rewrite unit_bind_ok.
  setoid_rewrite (for_each_insert _ _ _ _ _ (insert_unique_spec RouteRuleDuplicated)).
  split; [by intros (s & _ & ? & _)|]. intros Hnd. eexists.
  split_and!; [by apply Forall_true|done|by intros x _ ?%elem_of_empty|done].
Qed.

Lemma validate_unique_dns_ids_ok ups :
  validate_unique_dns_ids ups = Ok tt ↔ NoDup (List.map upstream_id ups).
Proof.
  unfold validate_unique_dns_ids. rewrite unit_bind_ok.
  setoid_rewrite (for_each_insert _ _ _ _ _ (insert_unique_spec DnsUpstreamDuplicated)).
  split; [by intros (s & _ & ? & _)|]. intros Hnd. eexists.
  split_and!; [by apply Forall_true|done|by intros x _ ?%elem_of_empty|done].
Qed.

Lemma validate_unique_ids_ok nodes groups rules ups :
  validate_unique_ids nodes groups rules ups = Ok tt ↔
    NoDup (List.map node_id nodes ++ List.map group_id groups)%list ∧
    (DIRECT_AUDIT_OUTLET ∉ (List.map node_id nodes ++ List.map group_id groups)%list) ∧
    NoDup (List.map rule_id rules) ∧ NoDup (List.map upstream_id ups).
Proof.
  assert (∀ l : list string, Forall (λ id, id ≠ DIRECT_AUDIT_OUTLET) l ↔ DIRECT_AUDIT_OUTLET ∉ l) as Hres.
  { intros l. rewrite Forall_forall. split; [|by intros Hn x Hx ->].
    intros Hall Hin. by apply (Hall _ Hin). }
  unfold validate_unique_ids. rewrite NoDup_app, not_elem_of_app, <- !Hres.
  rewrite <- validate_unique_rule_ids_ok, <- validate_unique_dns_ids_ok.
  rewrite outcome_bind_Ok_inv.
  setoid_rewrite (for_each_insert _ _ _ _ _ (insert_name_spec NodeIdReserved)).
  setoid_rewrite outcome_bind_Ok_inv.
  setoid_rewrite (for_each_insert _ _ _ _ _ (insert_name_spec GroupIdReserved)).
  setoid_rewrite outcome_bind_Ok_inv. split.
  - intros (s1 & (Hn & Hnd & _ & ->) & s2 & (Hg & Hgd & Hdisj & _) & [] & Hr & Hd).
    split_and!; try done; try (by apply outcome_bind_Ok_inv).
    intros x Hx Hx'. apply (Hdisj x Hx'). by apply elem_of_union_l, elem_of_list_to_set.
  - intros ((Hnd & Hdisj & Hgd) & (Hn & Hg) & Hr & Hd).
    eexists. split; [split_and!; [done|done|by intros x _ ?%elem_of_empty|done]|].
    apply outcome_bind_Ok_inv in Hr, Hd.
    eexists. split; [split_and!; [done|done| |done]|by exists tt].
    intros x Hx. rewrite union_empty_r_L, elem_of_list_to_set. intros Hx'. by apply (Hdisj x).
Qed.

Lemma find_group_Some gs id g : find_group gs id = Some g → g ∈ gs ∧ group_id g = id.
Proof. intros [Hin Hid]%find_Some_elem. by apply String.eqb_eq in Hid. Qed.

Lemma find_node_Some ns id n : find_node ns id = Some n → n ∈ ns ∧ node_id n = id.
Proof. intros [Hin Hid]%find_Some_elem. by apply String.eqb_eq in Hid. Qed.

Lemma NoDup_key_inj {A} (key : A → string) l x y :
  NoDup (List.map key l) → x ∈ l → y ∈ l → key x = key y → x = y.
Proof.
  intros Hnd Hx Hy Hk. pose proof (lookup_keyed_unique key l x Hnd Hx) as H1.
  pose proof (lookup_keyed_unique key l y Hnd Hy) as H2. rewrite Hk in H1. congruence.
Qed.

Lemma find_key_unique {A} (key : A → string) l x :
  NoDup (List.map key l) → x ∈ l → List.find (λ y, String.eqb (key y) (key x)) l = Some x.
Proof.
  intros Hnd Hx. destruct (List.find _ l) as [y|] eqn:E.
  - apply find_Some_elem in E as [Hy Hk]. apply String.eqb_eq in Hk. f_equal.
    by eapply NoDup_key_inj.
  - pose proof (proj1 (find_None_elem _ _) E x Hx) as Hf. cbn in Hf. by rewrite String.eqb_refl in Hf.
Qed.

Lemma existsb_key {A} (key : A → string) l k :
  existsb (λ x, String.eqb (key x) k) l = true ↔ ∃ x, x ∈ l ∧ key x = k.
Proof.
  rewrite existsb_exists. setoid_rewrite String.eqb_eq. setoid_rewrite <- list_elem_of_In. done.
Qed.

Lemma existsb_key_find {A} (key : A → string) l k :
  existsb (λ x, String.eqb (key x) k) l = false ↔ List.find (λ x, String.eqb (key x) k) l = None.
Proof.
  induction l as [|x l IH]; cbn; [done|]. by destruct (String.eqb (key x) k).
Qed.

Lemma names_nodes ns gs :
  NoDup (List.map node_id ns ++ List.map group_id gs)%list → NoDup (List.map node_id ns).
Proof. by intros (? & _ & _)%NoDup_app. Qed.
Lemma names_groups ns gs :
  NoDup (List.map node_id ns ++ List.map group_id gs)%list → NoDup (List.map group_id gs).
Proof. by intros (_ & _ & ?)%NoDup_app. Qed.
Lemma names_disjoint ns gs n g :
  NoDup (List.map node_id ns ++ List.map group_id gs)%list → n ∈ ns → g ∈ gs → node_id n ≠ group_id g.
Proof.
  intros (_ & Hd & _)%NoDup_app Hn Hg He.
  apply (Hd (node_id n)); [|rewrite He]; apply list_elem_of_In, in_map; by apply list_elem_of_In.
Qed.

Lemma validate_next_reference_ok ns gs g :
  NoDup (List.map node_id ns ++ List.map group_id gs)%list →
  validate_group_next_reference ns gs g = Ok tt ↔ next_valid ns gs g.
Proof.
  intros Hnd. unfold validate_group_next_reference, next_valid.
  set (next := next_label (group_next g)).
  destruct (String.eqb_spec next DIRECT_AUDIT_OUTLET) as [->|Hne]; [split; [by left|done]|].
  destruct (find_node ns next) as [n|] eqn:En.
  - apply find_node_Some in En as [Hin Hid]. destruct (node_enabled n) eqn:Ee.
    + split; [|done]. intros _. right. left. by exists n.
    + split; [done|]. intros [?|[(n' & Hn' & Hid' & He')|(g' & Hg' & Hid' & _)]]; [done| |].
      * assert (n = n') as <- by (eapply (NoDup_key_inj node_id); [by eapply names_nodes|done..|congruence]).
        congruence.
      * by destruct (names_disjoint ns gs n g' Hnd Hin Hg'); congruence.
  - assert (∀ n, n ∈ ns → node_id n ≠ next) as Hno.
    { intros n Hn He. pose proof (proj1 (find_None_elem _ _) En n Hn) as Hf. cbn in Hf.
      by rewrite He, String.eqb_refl in Hf. }
    destruct (find_group gs next) as [g'|] eqn:Eg.
    + apply find_group_Some in Eg as [Hin Hid]. destruct (group_enabled g') eqn:Ee.
      * split; [|done]. intros _. right. right. by exists g'.
      * split; [done|]. intros [?|[(n' & Hn' & Hid' & He')|(g2 & Hg' & Hid' & He')]]; [done| |].
        -- by destruct (Hno n').
        -- assert (g' = g2) as <- by (eapply (NoDup_key_inj group_id); [by eapply names_groups|done..|congruence]).
           congruence.
    + split; [done|]. intros [?|[(n' & Hn' & Hid' & He')|(g2 & Hg' & Hid' & He')]]; [done| |].
      * by destruct (Hno n').
      * pose proof (proj1 (find_None_elem _ _) Eg g2 Hg') as Hf. cbn in Hf.
        by rewrite Hid', String.eqb_refl in Hf.
Qed.

(** ** Cycles *)
Section cycles.
  Context (ns : list ForwardNode) (gs : list ForwardGroup).
  Local Abbreviation next_group := (next_group ns gs).
  Local Abbreviation next_iter := (next_iter ns gs).
  Local Abbreviation next_ends := (next_ends ns gs).
  Local Abbreviation next_cycle_loop := (next_cycle_loop ns gs).

Lemma next_cycle_loop_unfold fuel seen cur :
  next_cycle_loop (S fuel) seen cur =
    if bool_decide (cur ∈ seen) then Some (fail (NextCycle cur))
    else match next_group cur with
         | None => Some (Ok tt)
         | Some next => next_cycle_loop fuel ({[cur]} ∪ seen) next
         end.
Proof.
  cbn. unfold Validation.next_group. case_bool_decide; [done|].
  destruct (find_group gs cur) as [g|]; [|done].
  destruct (String.eqb _ _); [done|]. by destruct (existsb _ _).
Qed.

Lemma next_iter_plus j k id : next_iter (j + k) id = (next_iter j id ≫= next_iter k).
Proof.
  revert id; induction j as [|j IH]; intros id; cbn; [done|].
  destruct (next_group id) as [id'|]; [apply IH|done].
Qed.

Lemma next_iter_None_mono j k id : j ≤ k → next_iter j id = None → next_iter k id = None.
Proof. intros Hle Hj. replace k with (j + (k - j)) by lia. by rewrite next_iter_plus, Hj. Qed.

(** A chain that returns to its start never ends. *)
Lemma next_iter_loop k id : 0 < k → next_iter k id = Some id → ¬ next_ends id.
Proof.
  intros Hk Hloop [n Hn].
  assert (∀ m, next_iter (m * k) id = Some id) as Hm.
  { induction m as [|m IH]; cbn [Nat.mul]; [done|]. by rewrite next_iter_plus, Hloop. }
  pose proof (next_iter_None_mono n (n * k) id ltac:(nia) Hn) as Hnone. by rewrite Hm in Hnone.
Qed.

Lemma next_cycle_loop_ends fuel seen cur :
  next_cycle_loop fuel seen cur = Some (Ok tt) → next_ends cur.
Proof.
  revert seen cur; induction fuel as [|fuel IH]; intros seen cur; [done|].
  rewrite next_cycle_loop_unfold. case_bool_decide; [done|].
  destruct (next_group cur) as [next|] eqn:En.
  - intros [k Hk]%IH. exists (S k). cbn. by rewrite En.
  - intros _. exists 1. cbn. by rewrite En.
Qed.

(** The group ids seen so far lead to the current one. *)
Definition leads_to (cur id : string) : Prop := ∃ k, 0 < k ∧ next_iter k id = Some cur.

Lemma next_group_in cur next : next_group cur = Some next → cur ∈ List.map group_id gs.
Proof.
  unfold Validation.next_group. destruct (find_group gs cur) as [g|] eqn:Eg; [|done]. intros _.
  apply find_group_Some in Eg as [Hin <-]. apply list_elem_of_In, in_map. by apply list_elem_of_In.
Qed.

Lemma next_cycle_loop_complete fuel seen cur :
  next_ends cur → (∀ id, id ∈ seen → leads_to cur id) →
  seen ⊆ list_to_set (List.map group_id gs) → length gs - size seen < fuel →
  next_cycle_loop fuel seen cur = Some (Ok tt).
Proof.
  revert seen cur; induction fuel as [|fuel IH]; intros seen cur Hend Hseen Hsub Hf; [lia|].
  rewrite next_cycle_loop_unfold. rewrite bool_decide_eq_false_2.
  2: { intros Hin. destruct (Hseen cur Hin) as (k & Hk & Hc). by apply (next_iter_loop k cur). }
  destruct (next_group cur) as [next|] eqn:En; [|done].
  assert (cur ∉ seen) as Hnew.
  { intros Hin. destruct (Hseen cur Hin) as (k & Hk & Hc). by apply (next_iter_loop k cur). }
  assert ({[cur]} ∪ seen ⊆ list_to_set (List.map group_id gs)) as Hsub'.
  { apply union_subseteq. split; [|done]. apply singleton_subseteq_l, elem_of_list_to_set.
    by eapply next_group_in. }
  apply IH; [| |done|].
  - destruct Hend as [[|k] Hk]; [done|]. exists k. cbn in Hk. by rewrite En in Hk.
  - intros id [->%elem_of_singleton|Hid]%elem_of_union.
    + exists 1. cbn. rewrite En. split; [lia|done].
    + destruct (Hseen id Hid) as (k & Hk & Hc). exists (k + 1). split; [lia|].
      rewrite next_iter_plus, Hc. cbn. by rewrite En.
  - pose proof (subseteq_size _ _ Hsub') as Hle.
    assert (size (list_to_set (C:=gset string) (List.map group_id gs)) ≤ length gs) as Hsz.
    { etrans; [apply size_list_to_set_le|]. by rewrite length_map. }
    rewrite size_union, size_singleton in * by set_solver. lia.
Qed.

Lemma validate_next_cycle_ok id :
  validate_group_next_cycle ns gs id = Ok tt ↔ next_ends id.
Proof.
  unfold validate_group_next_cycle. split.
  - destruct (Validation.next_cycle_loop _ _ _ _ _) as [r|] eqn:E; [|done]. cbn. intros ->.
    by eapply next_cycle_loop_ends.
  - intros Hend. rewrite next_cycle_loop_complete; [done|done| |apply empty_subseteq|].
    + by intros ? ?%elem_of_empty.
    + rewrite size_empty. lia.
Qed.
End cycles.

(** ** Acceptance *)
Lemma validate_dns_upstream_ok u : validate_dns_upstream tt u = Ok tt ↔ endpoint_valid u.
Proof.
  unfold validate_dns_upstream, endpoint_valid. destruct (upstream_transport u) as [|e]; [done|].
  unfold is_empty. destruct (String.eqb_spec (trim (host e)) "") as [->|Hne]; [by split; [|intros [? _]]|].
  destruct (starts_with (path e) "/"); cbn; [done|]. by split; [|intros [_ ?]].
Qed.

Lemma validate_member_ok ns gs m :
  validate_member ns gs tt m = Ok tt ↔
    (∃ g, g ∈ gs ∧ group_id g = member_group_id m) ∧ (∃ n, n ∈ ns ∧ node_id n = member_node_id m).
Proof.
  unfold validate_member. rewrite <- !existsb_key.
  destruct (existsb (λ g, String.eqb (group_id g) _) gs); cbn; [|by split; [|intros [? _]]].
  destruct (existsb (λ n, String.eqb (node_id n) _) ns); cbn; [done|by split; [|intros [_ ?]]].
Qed.

Lemma validate_rule_ok gs r :
  validate_rule gs tt r = Ok tt ↔ ∃ g, g ∈ gs ∧ group_id g = rule_group_id r.
Proof. unfold validate_rule. rewrite <- existsb_key. by destruct (existsb _ gs). Qed.

Lemma validate_references_ok ns gs ms rs :
  NoDup (List.map node_id ns ++ List.map group_id gs)%list →
  validate_references ns gs ms rs = Ok tt ↔
    (∀ m, m ∈ ms → (∃ g, g ∈ gs ∧ group_id g = member_group_id m) ∧
                   (∃ n, n ∈ ns ∧ node_id n = member_node_id m)) ∧
    (∀ r, r ∈ rs → ∃ g, g ∈ gs ∧ group_id g = rule_group_id r) ∧
    (∀ g, g ∈ gs → next_valid ns gs g) ∧ (∀ g, g ∈ gs → next_ends ns gs (group_id g)).
Proof.
  intros Hnd. setoid_rewrite <- validate_member_ok. setoid_rewrite <- validate_rule_ok.
  setoid_rewrite <- validate_next_cycle_ok.
  assert (∀ g, next_valid ns gs g ↔ validate_group_next_reference ns gs g = Ok tt) as Href.
  { intros g. by rewrite validate_next_reference_ok. }
  setoid_rewrite Href. unfold validate_references, validate_group_next_refs.
  rewrite <- (for_each_check (validate_member ns gs)), <- (for_each_check (validate_rule gs)),
    <- (for_each_check (λ _, validate_group_next_reference ns gs)),
    <- (for_each_check (λ _ g, validate_group_next_cycle ns gs (group_id g))).
  rewrite !seq_ok. done.
Qed.


Lemma length_eqb_nil {A} (l : list A) : (length l =? 0) = false ↔ l ≠ [].
Proof. by destruct l. Qed.

Lemma existsb_Exists {A} (p : A → bool) l : existsb p l = true ↔ ∃ x, x ∈ l ∧ p x = true.
Proof. rewrite existsb_exists. by setoid_rewrite <- list_elem_of_In. Qed.

Lemma find_default_ok (gs : list ForwardGroup) d (k : ForwardGroup → check unit) :
  NoDup (List.map group_id gs) →
  (g ← ok_or (find_group gs d) (InvalidBootstrap (DefaultGroupMissing d)); k g) = Ok tt ↔
    ∃ g, g ∈ gs ∧ group_id g = d ∧ k g = Ok tt.
Proof.
  intros Hnd. rewrite outcome_bind_Ok_inv. split.
  - intros (g & Hg & Hk). exists g. destruct (find_group gs d) as [g'|] eqn:E; [|done].
    injection Hg as ->. by apply find_group_Some in E as [? ?].
  - intros (g & Hin & <- & Hk). exists g. split; [|done].
    unfold find_group. by rewrite (find_key_unique group_id).
Qed.

Lemma validate_seed_ok s : validate_seed s = Ok tt ↔ well_formed s.
Proof.
  unfold validate_seed, validate_bootstrap, fail. rewrite seq_ok, validate_unique_ids_ok.
  split.
  - intros ((Hnm & Hres & Hr & Hd) & Hrest). rewrite seq_ok, guard_ok, length_eqb_nil in Hrest.
    destruct Hrest as [Hn Hrest].
    apply find_default_ok in Hrest as (g & Hg & Hgd & Hrest); [|by eapply names_groups].
    rewrite !seq_ok, !guard_ok, !negb_false_iff, !existsb_Exists, validate_references_ok in Hrest by done.
    destruct Hrest as (Hge & Hm & (Hms & Hrs & Hnx & Hac) & Hde & Hep & Ht).
    destruct Hm as (m & Hm & Hmb). bool_hyps.
    match goal with H : String.eqb _ _ = true |- _ => apply String.eqb_eq in H end.
    constructor; try done; [by exists g|by exists m|].
    intros u Hu. apply validate_dns_upstream_ok. by eapply for_each_check in Hep.
  - intros []. split; [done|]. rewrite seq_ok, guard_ok, length_eqb_nil. split; [done|].
    destruct wf_default0 as (g & Hg & Hgd & Hge). destruct wf_default_member0 as (m & Hm & Hmg & Hme).
    apply find_default_ok; [by eapply names_groups|]. exists g. split_and!; [done|done|].
    rewrite !seq_ok, !guard_ok, !negb_false_iff, validate_references_ok by done.
    split_and!; try done.
    + apply existsb_Exists. exists m. by rewrite Hmg, String.eqb_refl, Hme.
    + by apply existsb_Exists.
    + apply for_each_check. intros u Hu. by apply validate_dns_upstream_ok, wf_endpoints0.
    + by apply Z.eqb_neq.
Qed.

(** C25: validation accepts exactly the well-formed seeds: [validate_seed]
    succeeds iff the names of nodes and groups are unique and not reserved, every
    reference resolves, the default group is usable, every [next] reference
    resolves to something enabled, following [next] always ends, and the DNS
    section is usable. *)
Theorem validate_seed_iff s : validate_seed s = Ok tt ↔ well_formed s.
Proof. apply validate_seed_ok. Qed.

(** ** Selection over a validated seed *)

(** [NextRef] values as [NextRef::named] builds them. *)
Definition next_normal (g : ForwardGroup) : Prop := group_next g = named (next_label (group_next g)).

Definition seed_store (s : RuntimeSeed) : GroupStore :=
  from_parts (seed_default_group_id s) (seed_groups s) (seed_group_members s).

Section validated.
  Context (s : RuntimeSeed) (Hwf : well_formed s).
  Context (Hnormal : ∀ g, g ∈ seed_groups s → next_normal g).
  Local Abbreviation ns := (from_nodes (seed_nodes s)).
  Local Abbreviation gs := (seed_groups s).

Lemma seed_group_lookup g : g ∈ gs → groups (seed_store s) !! group_id g = Some g.
Proof.
  intros Hg. cbn. apply lookup_keyed_unique; [|done]. eapply names_groups, Hwf.
Qed.

Lemma seed_group_lookup_inv k g : groups (seed_store s) !! k = Some g → g ∈ gs ∧ group_id g = k.
Proof. cbn. apply lookup_keyed. Qed.

Lemma seed_find_group g : g ∈ gs → find_group gs (group_id g) = Some g.
Proof. intros Hg. apply (find_key_unique group_id); [|done]. eapply names_groups, Hwf. Qed.

Lemma seed_node_lookup n : n ∈ seed_nodes s → nodes ns !! node_id n = Some n.
Proof.
  intros Hn. cbn. apply lookup_keyed_unique; [|done]. eapply names_nodes, Hwf.
Qed.

(** A [next] that the walk follows is the [next] of the cycle check, and it
    resolves to an enabled group. *)
Lemma seed_next_step g name :
  g ∈ gs → group_next g = Named name → enabled_node_id ns name = None →
  next_group (seed_nodes s) gs (group_id g) = Some name ∧
  ∃ g', g' ∈ gs ∧ group_id g' = name ∧ group_enabled g' = true.
Proof.
  intros Hg Hn He.
  assert (name ≠ DIRECT_AUDIT_OUTLET) as Hdir.
  { intros ->. pose proof (Hnormal g Hg) as Hk. unfold next_normal in Hk.
    rewrite Hn in Hk. by cbn in Hk. }
  pose proof (wf_next s Hwf g Hg) as Hv. unfold next_valid in Hv. rewrite Hn in Hv. cbn in Hv.
  destruct Hv as [?|[(n & Hin & Hid & Hen)|(g' & Hin & Hid & Hen)]]; [done| |].
  { unfold enabled_node_id in He. by rewrite <- Hid, (seed_node_lookup n Hin), Hen in He. }
  split; [|by exists g']. unfold next_group. rewrite (seed_find_group g Hg), Hn. cbn [next_label].
  destruct (String.eqb_spec name DIRECT_AUDIT_OUTLET) as [?|_]; [done|].
  destruct (existsb _ (seed_nodes s)) eqn:Eex; [|done].
  apply (existsb_key node_id) in Eex as (n & Hn' & Hid').
  exfalso. apply (names_disjoint (seed_nodes s) gs n g' (wf_names s Hwf) Hn' Hin). congruence.
Qed.

Definition no_eligible_member (f : IpFamily) (g : ForwardGroup) : Prop :=
  ∀ m, m ∈ seed_group_members s → member_group_id m = group_id g → member_candidate ns f m = false.

(** The only way a hop through an enabled group of the seed fails. *)
Lemma seed_hop_err {S} (select_node : S → GroupCandidateSet → S * option NodeId) f g st st' e :
  g ∈ gs → group_enabled g = true →
  select_group_hop select_node (seed_store s) ns f (group_id g) st = (st', Err e) →
  (e = no_enabled_node (group_id g) ∨ e = no_capable_node (group_id g) f) ∧ no_eligible_member f g.
Proof.
  intros Hg He Hhop. pose proof (seed_group_lookup g Hg) as Hlk.
  apply select_group_hop_err in Hhop as [[_ Hn]|(g2 & Hg2 & Hcase)]; [congruence|].
  assert (g2 = g) as -> by congruence.
  destruct Hcase as [[_ ?]|[(-> & _ & Hm)|(-> & _ & ms & Hms & Hf)]]; [congruence| |].
  - split; [by left|]. intros m Hm' Hid.
    destruct (lookup_members_Some (seed_default_group_id s) gs _ _ m Hm' Hid) as (l & Hl & _).
    unfold seed_store in Hm. congruence.
  - split; [by right|]. intros m Hm' Hid.
    destruct (lookup_members_Some (seed_default_group_id s) gs _ _ m Hm' Hid) as (l & Hl & Hin).
    assert (l = ms) as -> by (unfold seed_store in Hms; congruence).
    destruct (member_candidate ns f m) eqn:Ec; [|done].
    assert (m ∈ List.filter (member_candidate ns f) ms) as Hfm.
    { apply list_elem_of_In, filter_In. split; [by apply list_elem_of_In|done]. }
    rewrite Hf in Hfm. by apply elem_of_nil in Hfm.
Qed.

Lemma seed_select_loop {S} (select_node : S → GroupCandidateSet → S * option NodeId)
    f fuel seen hops g st st' r :
  g ∈ gs → group_enabled g = true → next_ends (seed_nodes s) gs (group_id g) →
  (∀ id, id ∈ seen → leads_to (seed_nodes s) gs (group_id g) id) →
  select_graph_loop select_node (seed_store s) ns f fuel seen hops (group_id g) st = Some (st', r) →
  (∃ sel, r = Ok sel) ∨
  ∃ g', g' ∈ gs ∧ group_enabled g' = true ∧ no_eligible_member f g' ∧
    (r = Err (no_enabled_node (group_id g')) ∨ r = Err (no_capable_node (group_id g') f)).
Proof.
  revert seen hops g st; induction fuel as [|fuel IH]; [done|].
  intros seen hops g st Hg He Hend Hseen. cbn [select_graph_loop].
  rewrite bool_decide_eq_false_2.
  2: { intros Hin. destruct (Hseen _ Hin) as (k & Hk & Hc). by eapply next_iter_loop. }
  destruct (select_group_hop select_node (seed_store s) ns f (group_id g) st) as [s1 [h|e|]] eqn:Eh.
  - destruct (select_group_hop_ok _ _ _ _ _ _ _ _ Eh) as (g2 & ms & m & Hg2 & _ & _ & Hnx & _).
    rewrite (seed_group_lookup g Hg) in Hg2. injection Hg2 as <-. rewrite Hnx.
    destruct (group_next g) as [|name] eqn:En.
    + destruct (finish_selection_snoc TerminalDirect hops h) as (sel & -> & _).
      intros [= _ <-]. left. by exists sel.
    + destruct (enabled_node_id ns name) as [nid|] eqn:Een.
      * destruct (finish_selection_snoc (TerminalNode nid) hops h) as (sel & -> & _).
        intros [= _ <-]. left. by exists sel.
      * destruct (seed_next_step g name Hg En Een) as (Hstep & g' & Hg' & <- & He').
        apply IH; [done|done| |].
        -- destruct Hend as [[|k] Hk]; [done|]. exists k. cbn in Hk. by rewrite Hstep in Hk.
        -- intros id [->%elem_of_singleton|Hid]%elem_of_union.
           ++ exists 1. cbn. rewrite Hstep. split; [lia|done].
           ++ destruct (Hseen id Hid) as (k & Hk & Hc). exists (k + 1). split; [lia|].
              rewrite next_iter_plus, Hc. cbn. by rewrite Hstep.
  - intros [= _ <-]. right. exists g.
    destruct (seed_hop_err select_node f g st s1 e Hg He Eh) as [[->| ->] Hno]; auto.
  - pose proof (select_group_hop_no_panic select_node (seed_store s) ns f (group_id g) st) as Hnp.
    by rewrite Eh in Hnp.
Qed.
End validated.

(** C4: once a seed is validated, the walk from any enabled group cannot fail for
    structural reasons: it never reports a missing group, a disabled group or a
    cycle, for either address family and any choice function; the only error left
    is that some enabled group has no enabled member that can carry the family,
    and then indeed none of its members can. *)
Theorem validated_selection {S} (select_node : S → GroupCandidateSet → S * option NodeId)
    seed f g st st' r :
  validate_seed seed = Ok tt →
  (∀ g', g' ∈ seed_groups seed → next_normal g') →
  g ∈ seed_groups seed → group_enabled g = true →
  select_graph_with select_node (seed_store seed) (from_nodes (seed_nodes seed)) f (group_id g) st
    = Some (st', r) →
  (∃ sel, r = Ok sel) ∨
  ∃ g', g' ∈ seed_groups seed ∧ group_enabled g' = true ∧ no_eligible_member seed f g' ∧
    (r = Err (no_enabled_node (group_id g')) ∨ r = Err (no_capable_node (group_id g') f)).
Proof.
  intros Hv Hnorm Hg He. apply validate_seed_ok in Hv.
  apply seed_select_loop; [done|done|done|done|by apply Hv|]. by intros ? ?%elem_of_empty.
Qed.

Definition demo_seed : RuntimeSeed :=
  {| seed_ipv6_enabled := true; seed_nodes := demo_nodes; seed_default_group_id := "entry";
     seed_groups := demo_groups; seed_group_members := demo_members; seed_route_rules := [];
     seed_dns_upstreams := default_dns_upstreams; seed_dns_policy := default_parallel |}.

Lemma validated_selection_witness :
  ∃ r, select_graph_with abstain (seed_store demo_seed) (from_nodes (seed_nodes demo_seed)) Ipv4
         "entry" tt = Some (tt, r) ∧ is_ok r = true ∧
    ((∃ sel, r = Ok sel) ∨
     ∃ g', g' ∈ seed_groups demo_seed ∧ group_enabled g' = true ∧ no_eligible_member demo_seed Ipv4 g' ∧
       (r = Err (no_enabled_node (group_id g')) ∨ r = Err (no_capable_node (group_id g') Ipv4))).
Proof.
  eexists. match goal with |- ?A ∧ _ => assert A as H by (vm_compute; reflexivity) end.
  split; [exact H|]. split; [reflexivity|].
  refine (validated_selection abstain demo_seed Ipv4 (List.hd default_group demo_groups) tt tt _
            _ _ _ _ H).
  - vm_compute. reflexivity.
  - intros g' Hg'. apply list_elem_of_In in Hg'. cbn in Hg'.
    destruct Hg' as [<-|[<-|[]]]; reflexivity.
  - vm_compute. constructor.
  - reflexivity.
Defined.
