(* ===== verification/Traffic.v ===== *)
(** * Traffic: ingress events and the sessions reconstructed from them

    [crates/dynet-runtime/src/event.rs] and
    [crates/dynet-runtime/src/traffic_session.rs]. The clock ([unix_ms]) is an
    argument; the atomics and locks are state passing, one operation at a time. *)
From Stdlib Require Import ZArith Lia Strings.Byte Ascii String Sorting.Sorted.
From stdpp Require Import base list numbers option strings gmap sets.
From S2P Require Import Prelude Collections Net RustStd.
Local Open Scope string_scope.
Local Open Scope nat_scope.

Definition EVENT_LIMIT : nat := 1024.
Definition TRAFFIC_SESSION_LIMIT : nat := 1024.

(** ** Events *)
Inductive IngressEventKind :=
| DnsQuery | DnsResponse | DnsError | TcpAccept | TcpClose | TcpError
| UdpSessionStart | UdpDatagram | UdpSessionClose | UdpError.

Definition kind_str (k : IngressEventKind) : string :=
  match k with
  | DnsQuery => "dns-query" | DnsResponse => "dns-response" | DnsError => "dns-error"
  | TcpAccept => "tcp-accept" | TcpClose => "tcp-close" | TcpError => "tcp-error"
  | UdpSessionStart => "udp-session-start" | UdpDatagram => "udp-datagram"
  | UdpSessionClose => "udp-session-close" | UdpError => "udp-error"
  end.

Record IngressEvent := {
  event_id : Z;
  event_at : Z;
  event_kind : IngressEventKind;
  event_fields : gmap string string;
}.

Record EventStore := {
  next_event_id : Z;
  next_session_id : Z;
  events : list IngressEvent;
}.

Definition with_watermarks (event_id session_id : Z) : EventStore :=
  {| next_event_id := event_id; next_session_id := session_id; events := [] |}.

(** [fetch_add(1) + 1] *)
Definition alloc_session_id (s : EventStore) : EventStore * Z :=
  let next := wrap_u 64 (next_session_id s + 1) in
  ({| next_event_id := next_event_id s; next_session_id := next; events := events s |}, next).

(** [EventStore::record] up to the hand-over to the matrix, which takes the
    returned event. *)
Definition record_event (s : EventStore) (now : Z) (k : IngressEventKind)
    (fields : gmap string string) : EventStore * IngressEvent :=
  let next := wrap_u 64 (next_event_id s + 1) in
  let e := {| event_id := next; event_at := now; event_kind := k; event_fields := fields |} in
  ({| next_event_id := next; next_session_id := next_session_id s;
      events := push_bounded EVENT_LIMIT (events s) e |}, e).

(** [IntoFields::into_fields] *)
Definition into_fields (l : list (string * string)) : gmap string string := btree_collect l.

(** ** Sessions *)
Record TrafficSession := {
  ts_session_key : string;
  ts_session_id : Z;
  ts_decision_id : option Z;
  ts_config_generation : option Z;
  ts_inbound : string;
  ts_node_protocol : option string;
  ts_peer : option string;
  ts_target : option string;
  ts_target_ip : option string;
  ts_target_port : option Z;
  ts_target_domain : option string;
  ts_target_source : option string;
  ts_upstream : option string;
  ts_selection_groups : option string;
  ts_selection_nodes : option string;
  ts_selection_trace : option string;
  ts_started_at : Z;
  ts_closed_at : option Z;
  ts_duration : option Z;
  ts_close_reason : option string;
  ts_error_stage : option string;
  ts_error_code : option string;
  ts_error_class : option string;
  ts_error_side : option string;
  ts_error_phase : option string;
  ts_error_protocol_phase : option string;
  ts_error_score_impact : option string;
  ts_error : option string;
  ts_client_to_upstream_bytes : Z;
  ts_upstream_to_client_bytes : Z;
  ts_client_to_upstream_datagrams : Z;
  ts_upstream_to_client_datagrams : Z;
  ts_first_upstream_at : option Z;
  ts_first_downstream_at : option Z;
  ts_first_response_latency : option Z;
  ts_last_observed_at : Z;
}.

Record TrafficSessionUpdate := {
  up_session_key : string;
  up_session_id : Z;
  up_decision_id : option Z;
  up_config_generation : option Z;
  up_inbound : string;
  up_observed_at : Z;
  up_node_protocol : option string;
  up_peer : option string;
  up_target : option string;
  up_target_ip : option string;
  up_target_port : option Z;
  up_target_domain : option string;
  up_target_source : option string;
  up_upstream : option string;
  up_selection_groups : option string;
  up_selection_nodes : option string;
  up_selection_trace : option string;
  up_close_reason : option string;
  up_error_stage : option string;
  up_error_code : option string;
  up_error_class : option string;
  up_error_side : option string;
  up_error_phase : option string;
  up_error_protocol_phase : option string;
  up_error_score_impact : option string;
  up_error : option string;
  up_client_to_upstream_bytes : option Z;
  up_upstream_to_client_bytes : option Z;
  up_client_to_upstream_datagram : option Z;
  up_upstream_to_client_datagram : option Z;
  up_closes_session : bool;
}.

Definition new_session (u : TrafficSessionUpdate) : TrafficSession :=
  {| ts_session_key := up_session_key u;
     ts_session_id := up_session_id u;
     ts_decision_id := up_decision_id u;
     ts_config_generation := up_config_generation u;
     ts_inbound := up_inbound u;
     ts_node_protocol := None; ts_peer := None; ts_target := None; ts_target_ip := None;
     ts_target_port := None; ts_target_domain := None; ts_target_source := None;
     ts_upstream := None; ts_selection_groups := None; ts_selection_nodes := None;
     ts_selection_trace := None;
     ts_started_at := up_observed_at u;
     ts_closed_at := None; ts_duration := None; ts_close_reason := None;
     ts_error_stage := None; ts_error_code := None; ts_error_class := None;
     ts_error_side := None; ts_error_phase := None; ts_error_protocol_phase := None;
     ts_error_score_impact := None; ts_error := None;
     ts_client_to_upstream_bytes := 0; ts_upstream_to_client_bytes := 0;
     ts_client_to_upstream_datagrams := 0; ts_upstream_to_client_datagrams := 0;
     ts_first_upstream_at := None; ts_first_downstream_at := None;
     ts_first_response_latency := None;
     ts_last_observed_at := up_observed_at u |}.

(** [Option::or] *)
Definition opt_or {A} (a b : option A) : option A := match a with Some _ => a | None => b end.

(** [set_if_some]: the new value of the target *)
Definition set_if_some (target value : option string) : option string :=
  match value with Some _ => value | None => target end.

(** [bytes = update] then [bytes += datagram] *)
Definition add_bytes (cur : Z) (total datagram : option Z) : Z :=
  let cur := match total with Some b => b | None => cur end in
  match datagram with Some b => wrap_u 64 (cur + b) | None => cur end.

Definition add_datagram (cur : Z) (datagram : option Z) : Z :=
  match datagram with Some _ => wrap_u 64 (cur + 1) | None => cur end.

(** [TrafficSession::apply_update] *)
Definition apply_session_update (t : TrafficSession) (u : TrafficSessionUpdate) : TrafficSession :=
  let first_up := match up_client_to_upstream_datagram u with
                  | Some _ => opt_or (ts_first_upstream_at t) (Some (up_observed_at u))
                  | None => ts_first_upstream_at t end in
  let first_down := match up_upstream_to_client_datagram u with
                    | Some _ => opt_or (ts_first_downstream_at t) (Some (up_observed_at u))
                    | None => ts_first_downstream_at t end in
  {| ts_session_key := ts_session_key t;
     ts_session_id := ts_session_id t;
     ts_decision_id := opt_or (ts_decision_id t) (up_decision_id u);
     ts_config_generation := opt_or (ts_config_generation t) (up_config_generation u);
     ts_inbound := ts_inbound t;
     ts_node_protocol := set_if_some (ts_node_protocol t) (up_node_protocol u);
     ts_peer := set_if_some (ts_peer t) (up_peer u);
     ts_target := set_if_some (ts_target t) (up_target u);
     ts_target_ip := set_if_some (ts_target_ip t) (up_target_ip u);
     ts_target_port := opt_or (ts_target_port t) (up_target_port u);
     ts_target_domain := set_if_some (ts_target_domain t) (up_target_domain u);
     ts_target_source := set_if_some (ts_target_source t) (up_target_source u);
     ts_upstream := set_if_some (ts_upstream t) (up_upstream u);
     ts_selection_groups := set_if_some (ts_selection_groups t) (up_selection_groups u);
     ts_selection_nodes := set_if_some (ts_selection_nodes t) (up_selection_nodes u);
     ts_selection_trace := set_if_some (ts_selection_trace t) (up_selection_trace u);
     ts_started_at := ts_started_at t;
     ts_closed_at := if up_closes_session u then Some (up_observed_at u) else ts_closed_at t;
     ts_duration := if up_closes_session u
                    then Some (sat_sub (up_observed_at u) (ts_started_at t)) else ts_duration t;
     ts_close_reason := set_if_some (ts_close_reason t) (up_close_reason u);
     ts_error_stage := set_if_some (ts_error_stage t) (up_error_stage u);
     ts_error_code := set_if_some (ts_error_code t) (up_error_code u);
     ts_error_class := set_if_some (ts_error_class t) (up_error_class u);
     ts_error_side := set_if_some (ts_error_side t) (up_error_side u);
     ts_error_phase := set_if_some (ts_error_phase t) (up_error_phase u);
     ts_error_protocol_phase := set_if_some (ts_error_protocol_phase t) (up_error_protocol_phase u);
     ts_error_score_impact := set_if_some (ts_error_score_impact t) (up_error_score_impact u);
     ts_error := set_if_some (ts_error t) (up_error u);
     ts_client_to_upstream_bytes :=
       add_bytes (ts_client_to_upstream_bytes t) (up_client_to_upstream_bytes u)
                 (up_client_to_upstream_datagram u);
     ts_upstream_to_client_bytes :=
       add_bytes (ts_upstream_to_client_bytes t) (up_upstream_to_client_bytes u)
                 (up_upstream_to_client_datagram u);
     ts_client_to_upstream_datagrams :=
       add_datagram (ts_client_to_upstream_datagrams t) (up_client_to_upstream_datagram u);
     ts_upstream_to_client_datagrams :=
       add_datagram (ts_upstream_to_client_datagrams t) (up_upstream_to_client_datagram u);
     ts_first_upstream_at := first_up;
     ts_first_downstream_at := first_down;
     ts_first_response_latency :=
       match ts_first_response_latency t with
       | Some l => Some l
       | None => option_map (λ at_, sat_sub at_ (ts_started_at t)) first_down
       end;
     ts_last_observed_at := up_observed_at u |}.

(** ** Updates from events *)
Definition is_dns_event (k : IngressEventKind) : bool :=
  match k with DnsQuery | DnsResponse | DnsError => true | _ => false end.

Definition is_close_event (k : IngressEventKind) : bool :=
  match k with TcpClose | TcpError | UdpSessionClose | UdpError => true | _ => false end.

Definition parse_u64 (s : string) : option Z := parse_uint 64 s.

Definition session_key (inbound : string) (session_id : Z) (decision_id : option Z) : string :=
  inbound ++ ":" ++ to_string session_id ++ ":" ++
  match decision_id with Some d => to_string d | None => "none" end.

Definition session_update_from_event (e : IngressEvent) : option TrafficSessionUpdate :=
  let get k := event_fields e !! k in
  let num k := match get k with Some v => parse_u64 v | None => None end in
  if is_dns_event (event_kind e) then None
  else
    session_id ← num "sessionId";
    let decision_id := num "decisionId" in
    match event_kind e, decision_id with
    | UdpSessionStart, None => None
    | _, _ =>
      let inbound := default "unknown" (get "inbound") in
      let direction := get "direction" in
      let datagram_bytes := num "bytes" in
      Some
        {| up_session_key := session_key inbound session_id decision_id;
           up_session_id := session_id;
           up_decision_id := decision_id;
           up_config_generation := num "configGeneration";
           up_inbound := inbound;
           up_observed_at := event_at e;
           up_node_protocol := get "nodeProtocol";
           up_peer := get "peer";
           up_target := get "target";
           up_target_ip := get "targetIp";
           up_target_port := match get "targetPort" with Some v => parse_uint 16 v | None => None end;
           up_target_domain := get "targetDomain";
           up_target_source := get "targetSource";
           up_upstream := get "upstream";
           up_selection_groups := get "selectionGroups";
           up_selection_nodes := get "selectionNodes";
           up_selection_trace := get "selectionTrace";
           up_close_reason := get "closeReason";
           up_error_stage := get "errorStage";
           up_error_code := get "errorCode";
           up_error_class := get "errorClass";
           up_error_side := get "errorSide";
           up_error_phase := get "errorPhase";
           up_error_protocol_phase := get "errorProtocolPhase";
           up_error_score_impact := get "errorScoreImpact";
           up_error := get "error";
           up_client_to_upstream_bytes := num "clientToUpstreamBytes";
           up_upstream_to_client_bytes := num "upstreamToClientBytes";
           up_client_to_upstream_datagram :=
             if bool_decide (direction = Some "client-to-upstream") then datagram_bytes else None;
           up_upstream_to_client_datagram :=
             if bool_decide (direction = Some "upstream-to-client") then datagram_bytes else None;
           up_closes_session := is_close_event (event_kind e) |}
    end.

(** ** [TrafficSessionStore] *)
Abbreviation SessionMap := (gmap string TrafficSession).

Definition age_cmp (p q : string * TrafficSession) : comparison :=
  then_with (cmp (ts_last_observed_at p.2) (ts_last_observed_at q.2)) (cmp p.1 q.1).

Definition oldest_session_key (m : SessionMap) : option string :=
  option_map fst (min_by age_cmp (btree_iter m)).

(** Make room for one session: the oldest one goes. *)
Definition evict_oldest (m : SessionMap) : SessionMap :=
  match oldest_session_key m with Some k => delete k m | None => m end.

Definition take_last {A} (n : nat) (l : list A) : list A := rev (firstn n (rev l)).

Definition from_sessions (l : list TrafficSession) : SessionMap :=
  fold_left
    (λ m t, <[ts_session_key t := t]>
              (if size m =? TRAFFIC_SESSION_LIMIT then evict_oldest m else m))
    (take_last TRAFFIC_SESSION_LIMIT l) ∅.

Definition apply_update (m : SessionMap) (u : TrafficSessionUpdate) : SessionMap :=
  let m := match m !! up_session_key u with
           | None => if size m =? TRAFFIC_SESSION_LIMIT then evict_oldest m else m
           | Some _ => m
           end in
  let t := default (new_session u) (m !! up_session_key u) in
  <[up_session_key u := apply_session_update t u]> m.

Definition record_session_event (m : SessionMap) (e : IngressEvent) : SessionMap :=
  match session_update_from_event e with Some u => apply_update m u | None => m end.

Definition session_snapshot (m : SessionMap) : list TrafficSession := btree_values m.

(** ** The event log *)
Record event_input := { in_now : Z; in_kind : IngressEventKind; in_fields : gmap string string }.

Definition record_all (s : EventStore) (l : list event_input) : EventStore :=
  fold_left (λ s i, (record_event s (in_now i) (in_kind i) (in_fields i)).1) l s.

(** The events numbered from a watermark. *)
Definition numbered (w : Z) (l : list event_input) : list IngressEvent :=
  imap (λ n i, {| event_id := wrap_u 64 (w + Z.of_nat n + 1); event_at := in_now i;
                  event_kind := in_kind i; event_fields := in_fields i |}) l.

Lemma wrap_wrap_add w a b : (0 < w)%Z → wrap_u w (wrap_u w a + b) = wrap_u w (a + b).
Proof. intros Hw. unfold wrap_u. by rewrite Z.add_mod_idemp_l by (apply Z.pow_nonzero; lia). Qed.

Lemma numbered_shift w l : numbered (wrap_u 64 (w + 1)) l = imap (λ n i,
   {| event_id := wrap_u 64 (w + Z.of_nat (S n) + 1); event_at := in_now i;
      event_kind := in_kind i; event_fields := in_fields i |}) l.
Proof.
  unfold numbered. apply imap_ext. intros n i _. f_equal.
  rewrite <- Z.add_assoc, wrap_wrap_add by lia. f_equal. lia.
Qed.

Lemma record_all_events s l q :
  events s = last_n EVENT_LIMIT q →
  events (record_all s l) = last_n EVENT_LIMIT (q ++ numbered (next_event_id s) l)
  ∧ next_session_id (record_all s l) = next_session_id s.
Proof.
  revert s q; induction l as [|i l IH]; intros s q Hq.
  { cbn. by rewrite app_nil_r. }
  change (record_all s (i :: l)) with (record_all (record_event s (in_now i) (in_kind i) (in_fields i)).1 l).
  destruct (IH (record_event s (in_now i) (in_kind i) (in_fields i)).1
    (q ++ [{| event_id := wrap_u 64 (next_event_id s + 1); event_at := in_now i;
              event_kind := in_kind i; event_fields := in_fields i |}])%list) as [He Hs].
  { cbn [record_event fst events]. rewrite Hq. apply push_bounded_last_n. unfold EVENT_LIMIT. lia. }
  rewrite He, Hs. split; [|done]. f_equal.
  rewrite <- app_assoc. f_equal. cbn [record_event fst next_event_id app]. rewrite numbered_shift.
  unfold numbered. cbn [imap]. f_equal. f_equal. f_equal. lia.
Qed.

(** the event log keeps exactly the most recent 1024 events, in order, and
    numbers the recorded events consecutively from the watermark, so ids of
    retained events never repeat before the 64-bit counter wraps. *)
Theorem event_log_recent w sid l :
  events (record_all (with_watermarks w sid) l) = last_n EVENT_LIMIT (numbered w l).
Proof. by apply (record_all_events (with_watermarks w sid) l []). Qed.

(** ** The session store *)
#[export] Instance age_cmp_preorder : CmpPreorder age_cmp.
Proof.
  exact (cmp_leb_on cmp (λ p : string * TrafficSession, (ts_last_observed_at p.2, p.1)) ord_preorder).
Qed.

Definition store_ok (m : SessionMap) : Prop :=
  size m ≤ TRAFFIC_SESSION_LIMIT ∧ ∀ k t, m !! k = Some t → ts_session_key t = k.

(** The session that has been silent for longest, ties going to the least key. *)
Definition is_oldest (m : SessionMap) (k : string) : Prop :=
  ∃ t, m !! k = Some t ∧ ∀ k' t', m !! k' = Some t' →
    (ts_last_observed_at t < ts_last_observed_at t')%Z ∨
    (ts_last_observed_at t = ts_last_observed_at t' ∧ cmp_le k k').

Lemma evict_oldest_spec m : size m ≠ 0 → ∃ k, is_oldest m k ∧ evict_oldest m = delete k m.
Proof.
  intros Hm. unfold evict_oldest, oldest_session_key.
  destruct (min_by_Some age_cmp (btree_iter m)) as ([k t] & Hmin & Hin & Hle).
  { intros Hnil. pose proof (length_btree_iter m) as Hl. rewrite Hnil in Hl. by rewrite <- Hl in Hm. }
  rewrite Hmin. exists k. split; [|done]. apply elem_of_btree_iter in Hin. exists t. split; [done|].
  intros k' t' Hk'. destruct (Hle (k', t')) as [[= <- <-]|Hl]; [by apply elem_of_btree_iter| |].
  - right. split; [done|apply cmp_le_refl].
  - revert Hl. unfold cmp_leb, age_cmp, then_with; cbn [fst snd].
    change (cmp (ts_last_observed_at t) (ts_last_observed_at t'))
      with (Z.compare (ts_last_observed_at t) (ts_last_observed_at t')).
    destruct (Z.compare_spec (ts_last_observed_at t) (ts_last_observed_at t')); [|by left|done].
    intros Hl. right. split; [done|]. unfold cmp_le. by destruct (cmp k k').
Qed.

Lemma size_delete_some (m : SessionMap) k : is_Some (m !! k) → size (delete k m) = pred (size m).
Proof. apply map_size_delete_Some. Qed.

(** Room for a new session. *)
Definition make_room (m : SessionMap) : SessionMap :=
  if size m =? TRAFFIC_SESSION_LIMIT then evict_oldest m else m.

Lemma make_room_ok m :
  store_ok m → size (make_room m) < TRAFFIC_SESSION_LIMIT ∧ make_room m ⊆ m.
Proof.
  intros [Hs _]. unfold make_room. destruct (Nat.eqb_spec (size m) TRAFFIC_SESSION_LIMIT) as [E|E].
  - destruct (evict_oldest_spec m) as (k & (t & Hk & _) & ->); [rewrite E; done|].
    split; [|apply delete_subseteq]. rewrite size_delete_some by by exists t.
    rewrite E. unfold TRAFFIC_SESSION_LIMIT. lia.
  - split; [|done]. unfold TRAFFIC_SESSION_LIMIT in *. lia.
Qed.

Lemma insert_session_ok m k t :
  size m < TRAFFIC_SESSION_LIMIT ∨ is_Some (m !! k) →
  size m ≤ TRAFFIC_SESSION_LIMIT → (∀ k t, m !! k = Some t → ts_session_key t = k) →
  ts_session_key t = k → store_ok (<[k := t]> m).
Proof.
  intros Hroom Hs Hk Ht. split.
  - destruct (m !! k) eqn:E; [by rewrite map_size_insert_Some by by eexists|].
    rewrite map_size_insert_None by done. destruct Hroom as [?|[? ?]]; [lia|done].
  - intros k' t'. destruct (decide (k' = k)) as [->|Hne].
    + rewrite lookup_insert_eq. by intros [= <-].
    + rewrite lookup_insert_ne by done. apply Hk.
Qed.

Lemma subseteq_keyed (m m' : SessionMap) :
  m' ⊆ m → (∀ k t, m !! k = Some t → ts_session_key t = k) → ∀ k t, m' !! k = Some t → ts_session_key t = k.
Proof. intros Hsub Hk k t Ht. apply Hk. by eapply lookup_weaken. Qed.

Lemma apply_update_ok m u : store_ok m → store_ok (apply_update m u).
Proof.
  intros Hok. pose proof (make_room_ok m Hok) as [Hroom Hsub]. destruct Hok as [Hs Hk].
  unfold apply_update. destruct (m !! up_session_key u) as [t|] eqn:E.
  - apply insert_session_ok; [right; by exists t|done|done|]. rewrite E. cbn. by apply Hk.
  - fold (make_room m). apply insert_session_ok; [by left|lia|by apply (subseteq_keyed m)|].
    assert (make_room m !! up_session_key u = None) as -> by by eapply lookup_weaken_None. done.
Qed.

Lemma record_session_event_ok m e : store_ok m → store_ok (record_session_event m e).
Proof.
  unfold record_session_event. destruct (session_update_from_event e); [apply apply_update_ok|done].
Qed.

Lemma empty_store_ok : store_ok ∅.
Proof. split; [rewrite map_size_empty; unfold TRAFFIC_SESSION_LIMIT; lia|]. intros k t. by rewrite lookup_empty. Qed.

Lemma from_sessions_ok l : store_ok (from_sessions l).
Proof.
  unfold from_sessions. generalize (take_last TRAFFIC_SESSION_LIMIT l) as l'. clear l.
  intros l. assert (store_ok ∅) as Hok by apply empty_store_ok. revert Hok.
  generalize (∅ : SessionMap). induction l as [|t l IH]; intros m Hok; cbn [fold_left]; [done|].
  apply IH. fold (make_room m). destruct (make_room_ok m Hok) as [Hroom Hsub]. destruct Hok as [_ Hk].
  apply insert_session_ok; [by left|lia|by apply (subseteq_keyed m)|done].
Qed.

(** whatever sessions it was restored from and whatever events it records,
    the session store never holds more than 1024 sessions and files every session
    under its own key. *)
Theorem session_store_invariant sessions evs :
  store_ok (fold_left record_session_event evs (from_sessions sessions)).
Proof.
  assert (store_ok (from_sessions sessions)) as Hok by apply from_sessions_ok.
  revert Hok. generalize (from_sessions sessions).
  induction evs as [|e evs IH]; intros m Hok; cbn [fold_left]; [done|].
  by apply IH, record_session_event_ok.
Qed.

(** recording an update touches one session: the session of the update is
    updated, or created, and every other session stays as it was, except that a
    new session arriving in a full store displaces exactly the session that has
    been silent for longest. *)
Theorem apply_update_effect m u :
  store_ok m →
  (apply_update m u =
     <[up_session_key u := apply_session_update (default (new_session u) (m !! up_session_key u)) u]> m ∧
   (is_Some (m !! up_session_key u) ∨ size m < TRAFFIC_SESSION_LIMIT))
  ∨ (m !! up_session_key u = None ∧ size m = TRAFFIC_SESSION_LIMIT ∧
     ∃ k, is_oldest m k ∧
       apply_update m u =
         <[up_session_key u := apply_session_update (new_session u) u]> (delete k m)).
Proof.
  intros [Hs _]. unfold apply_update. destruct (m !! up_session_key u) as [t|] eqn:E.
  - left. rewrite E. split; [done|left; by eexists].
  - destruct (Nat.eqb_spec (size m) TRAFFIC_SESSION_LIMIT) as [El|El].
    + right. split_and!; [done|done|].
      destruct (evict_oldest_spec m) as (k & Hold & ->); [rewrite El; done|].
      exists k. split; [done|].
      assert (delete k m !! up_session_key u = None) as ->
        by (eapply lookup_weaken_None; [exact E|apply delete_subseteq]). done.
    + left. rewrite E. split; [done|]. right. lia.
Qed.

(** ** Session keys *)
Lemma parse_u64_range s v : parse_u64 s = Some v → in_u 64 v.
Proof. by apply parse_uint_range. Qed.

Lemma session_update_ids e u :
  session_update_from_event e = Some u →
  up_session_key u = session_key (up_inbound u) (up_session_id u) (up_decision_id u) ∧
  in_u 64 (up_session_id u) ∧ (∀ d, up_decision_id u = Some d → in_u 64 d).
Proof.
  unfold session_update_from_event. destruct (is_dns_event (event_kind e)); [done|].
  destruct (event_fields e !! "sessionId") as [v|]; [|done].
  destruct (parse_u64 v) as [sid|] eqn:Ev; [|done]. cbn.
  set (d := match event_fields e !! "decisionId" with Some v => parse_u64 v | None => None end).
  assert (∀ x, d = Some x → in_u 64 x) as Hd.
  { intros x. unfold d. destruct (event_fields e !! "decisionId"); [apply parse_u64_range|done]. }
  intros Hu. assert (∃ k, u = k ∧ up_session_id k = sid ∧ up_decision_id k = d ∧
    up_session_key k = session_key (up_inbound k) sid d) as (k & -> & -> & -> & ->).
  { destruct (event_kind e), d; first [discriminate Hu | injection Hu as <-; by eexists]. }
  split_and!; [done|by eapply parse_u64_range|done].
Qed.

Definition decision_str (d : option Z) : string :=
  match d with Some d => to_string d | None => "none" end.

Lemma decision_str_no_colon d : str_contains ":" (decision_str d) = false.
Proof. destruct d; cbn; [|done]. apply all_digits_no_colon, to_string_all_digits. Qed.

Lemma in_u_mono w w' z : (0 ≤ w ≤ w')%Z → in_u w z → in_u w' z.
Proof. intros Hw [? ?]. split; [done|]. apply Z.lt_le_trans with (2 ^ w)%Z; [done|]. apply Z.pow_le_mono_r; lia. Qed.

Lemma decision_str_inj d d' :
  (∀ x, d = Some x → in_u 64 x) → (∀ x, d' = Some x → in_u 64 x) →
  decision_str d = decision_str d' → d = d'.
Proof.
  assert (∀ x : Z, to_string x ≠ "none") as Hne.
  { intros x Hx. pose proof (to_string_all_digits x) as Hd. by rewrite Hx in Hd. }
  intros Hd Hd'. destruct d as [x|], d' as [x'|]; cbn; intros He; [| | |done].
  - f_equal. apply to_string_inj; [..|done]; apply (in_u_mono 64); (lia || auto).
  - by destruct (Hne x).
  - by destruct (Hne x').
Qed.

(** session keys do not collide: two events with the same session key agree on
    the inbound, the session id and the decision id, although the inbound is free
    text that may itself contain the separator. *)
Theorem session_key_identifies e e' u u' :
  session_update_from_event e = Some u → session_update_from_event e' = Some u' →
  up_session_key u = up_session_key u' →
  up_inbound u = up_inbound u' ∧ up_session_id u = up_session_id u' ∧
  up_decision_id u = up_decision_id u'.
Proof.
  intros (Hk & Hs & Hd)%session_update_ids (Hk' & Hs' & Hd')%session_update_ids.
  rewrite Hk, Hk'. unfold session_key.
  fold (decision_str (up_decision_id u)). fold (decision_str (up_decision_id u')).
  change (":" ++ decision_str (up_decision_id u)) with (String ":" (decision_str (up_decision_id u))).
  change (":" ++ decision_str (up_decision_id u')) with (String ":" (decision_str (up_decision_id u'))).
  rewrite <- !string_app_assoc. intros [He He2]%split_last_inj; [|apply decision_str_no_colon..].
  apply decision_str_inj in He2; [|done..].
  rewrite !string_app_assoc in He.
  change (":" ++ to_string (up_session_id u)) with (String ":" (to_string (up_session_id u))) in He.
  change (":" ++ to_string (up_session_id u')) with (String ":" (to_string (up_session_id u'))) in He.
  apply split_last_inj in He as [He1 He3]; [|apply all_digits_no_colon, to_string_all_digits..].
  split_and!; [done| |done]. apply to_string_inj; [..|done]; apply (in_u_mono 64); (lia || done).
Qed.

Definition demo_event (kind : IngressEventKind) (now : Z) (fields : list (string * string)) : IngressEvent :=
  {| event_id := 1; event_at := now; event_kind := kind; event_fields := into_fields fields |}.

Lemma session_key_identifies_witness :
  ∃ u, session_update_from_event
         (demo_event TcpAccept 5 [("sessionId", "7"); ("inbound", "socks:1")]) = Some u ∧
    up_inbound u = up_inbound u ∧ up_session_id u = up_session_id u ∧
    up_decision_id u = up_decision_id u.
Proof.
  eexists. match goal with |- ?A ∧ _ => assert A as H by (vm_compute; reflexivity) end.
  exact (conj H (session_key_identifies _ _ _ _ H H eq_refl)).
Defined.

(** ** The account of one session *)
Definition is_up_datagram (u : TrafficSessionUpdate) : bool :=
  match up_client_to_upstream_datagram u with Some _ => true | None => false end.
Definition is_down_datagram (u : TrafficSessionUpdate) : bool :=
  match up_upstream_to_client_datagram u with Some _ => true | None => false end.

Definition count {A} (p : A → bool) (l : list A) : Z := Z.of_nat (length (List.filter p l)).

(** The last element that satisfies a predicate. *)
Definition find_last {A} (p : A → bool) (l : list A) : option A := List.find p (rev l).

Lemma count_snoc {A} (p : A → bool) l x : count p (l ++ [x])%list = (count p l + if p x then 1 else 0)%Z.
Proof. unfold count. rewrite List.filter_app, length_app. cbn. destruct (p x); cbn; lia. Qed.

Lemma find_snoc {A} (p : A → bool) l x :
  List.find p (l ++ [x])%list = opt_or (List.find p l) (if p x then Some x else None).
Proof. induction l as [|y l IH]; cbn; [done|]. by destruct (p y). Qed.

Lemma find_last_snoc {A} (p : A → bool) l x :
  find_last p (l ++ [x])%list = if p x then Some x else find_last p l.
Proof. unfold find_last. rewrite rev_app_distr. cbn. by destruct (p x). Qed.

Definition summary_of (u0 : TrafficSessionUpdate) (us : list TrafficSessionUpdate)
    (t : TrafficSession) : Prop :=
  let started := up_observed_at u0 in
  ts_session_key t = up_session_key u0 ∧ ts_started_at t = started ∧
  ts_last_observed_at t = up_observed_at (List.last us u0) ∧
  ts_client_to_upstream_datagrams t = wrap_u 64 (count is_up_datagram us) ∧
  ts_upstream_to_client_datagrams t = wrap_u 64 (count is_down_datagram us) ∧
  ts_first_upstream_at t = option_map up_observed_at (List.find is_up_datagram us) ∧
  ts_first_downstream_at t = option_map up_observed_at (List.find is_down_datagram us) ∧
  ts_first_response_latency t =
    option_map (λ u, sat_sub (up_observed_at u) started) (List.find is_down_datagram us) ∧
  ts_closed_at t = option_map up_observed_at (find_last up_closes_session us) ∧
  ts_duration t =
    option_map (λ u, sat_sub (up_observed_at u) started) (find_last up_closes_session us).

Lemma add_datagram_count p (l : list TrafficSessionUpdate) u d :
  (p u = match d with Some _ => true | None => false end) →
  add_datagram (wrap_u 64 (count p l)) d = wrap_u 64 (count p (l ++ [u])%list).
Proof.
  intros Hp. rewrite count_snoc, Hp. unfold add_datagram. destruct d; [|by rewrite Z.add_0_r].
  by rewrite wrap_wrap_add.
Qed.

Lemma first_seen_snoc p (l : list TrafficSessionUpdate) u (d : option Z) :
  (p u = match d with Some _ => true | None => false end) →
  match d with
  | Some _ => opt_or (option_map up_observed_at (List.find p l)) (Some (up_observed_at u))
  | None => option_map up_observed_at (List.find p l)
  end = option_map up_observed_at (List.find p (l ++ [u])%list).
Proof. intros Hp. rewrite find_snoc, Hp. by destruct (List.find p l), d. Qed.

Lemma last_snoc {A} (l : list A) x d : List.last (l ++ [x])%list d = x.
Proof. induction l as [|y l IH]; [done|]. cbn. destruct (l ++ [x])%list eqn:E; [by destruct l|done]. Qed.

Lemma summary_step u0 us t u :
  summary_of u0 us t → summary_of u0 (us ++ [u])%list (apply_session_update t u).
Proof.
  intros (H1 & H2 & H3 & H4 & H5 & H6 & H7 & H8 & H9 & H10). unfold summary_of; cbn.
  split_and!; [done|done|by rewrite last_snoc| | | | | | |].
  - rewrite H4. by apply add_datagram_count.
  - rewrite H5. by apply add_datagram_count.
  - rewrite H6. by apply first_seen_snoc.
  - rewrite H7. by apply first_seen_snoc.
  - rewrite H8, H7, H2, (first_seen_snoc is_down_datagram) by done.
    rewrite find_snoc. destruct (List.find is_down_datagram us); [done|]. cbn.
    by destruct (is_down_datagram u).
  - rewrite H9, find_last_snoc. by destruct (up_closes_session u).
  - rewrite H10, H2, find_last_snoc. by destruct (up_closes_session u).
Qed.

(** a session that is created by an update and then sees a sequence of updates
    accounts for exactly that sequence: it starts at the first observation,
    counts the datagrams of each direction (modulo 2^64), measures the
    first-response latency from the first downstream datagram once and for all,
    and reports the close time and duration of the last closing update. *)
Theorem session_summary u0 us :
  summary_of u0 (u0 :: us) (fold_left apply_session_update (u0 :: us) (new_session u0)).
Proof.
  induction us as [|u us IH] using rev_ind.
  - apply (summary_step u0 []). unfold summary_of; cbn. by split_and!.
  - rewrite app_comm_cons, fold_left_app. by apply summary_step.
Qed.

Lemma apply_update_effect_witness :
  ∃ u, session_update_from_event (demo_event UdpDatagram 9 [("sessionId", "3")]) = Some u ∧
    (∅ : SessionMap) !! up_session_key u = None ∧
    ts_last_observed_at <$> (apply_update ∅ u !! up_session_key u) = Some 9%Z.
Proof.
  eexists. match goal with |- ?A ∧ _ => assert A as H by (vm_compute; reflexivity) end.
  split; [exact H|]. split; [done|].
  match type of H with _ = Some ?u =>
    destruct (apply_update_effect ∅ u empty_store_ok) as [[-> _]|(_ & Hs & _)]
  end.
  - vm_compute. reflexivity.
  - exfalso. rewrite map_size_empty in Hs. discriminate Hs.
Defined.
