(* ===== verification/MatrixStats.v ===== *)
(** * MatrixStats: aggregation of traffic sessions

    [crates/dynet-runtime/src/model/matrix_stats.rs]: per-node, per-target and
    per-error statistics over the retained sessions. Counters are [u64] and
    wrap, the latency total is [u128]. *)
From Stdlib Require Import ZArith Lia Strings.Byte Ascii String Sorting.Sorted.
From stdpp Require Import base list numbers option strings gmap sets.
From S2P Require Import Prelude Collections Net RustStd Traffic.
Local Open Scope string_scope.
Local Open Scope nat_scope.

(** ** Rows *)
Record MatrixNodeStats := {
  ns_group_id : string;
  ns_node_id : string;
  ns_node_fingerprint : string;
  ns_session_count : Z;
  ns_success_count : Z;
  ns_error_count : Z;
  ns_effective_error_count : Z;
  ns_effective_error_millis : Z;
  ns_active_session_count : Z;
  ns_error_rate_ppm : Z;
  ns_effective_error_rate_ppm : Z;
  ns_avg_first_response_latency : option Z;
  ns_client_to_upstream_bytes : Z;
  ns_upstream_to_client_bytes : Z;
  ns_client_to_upstream_datagrams : Z;
  ns_upstream_to_client_datagrams : Z;
  ns_last_observed_at : Z;
}.

(** The same columns for one target of the node. *)
Record MatrixTargetNodeStats := {
  tn_stats : MatrixNodeStats;
  tn_target_scope : string;
  tn_target_value : string;
}.

Record MatrixErrorSignalStats := {
  es_group_id : string;
  es_node_id : string;
  es_node_fingerprint : string;
  es_target_scope : string;
  es_target_value : string;
  es_node_protocol : string;
  es_error_class : string;
  es_error_code : string;
  es_error_side : string;
  es_error_phase : string;
  es_error_protocol_phase : string;
  es_error_score_impact : string;
  es_attempt_count : Z;
  es_logical_session_count : Z;
  es_effective_error_count : Z;
  es_effective_error_millis : Z;
  es_client_to_upstream_bytes : Z;
  es_upstream_to_client_bytes : Z;
  es_client_to_upstream_datagrams : Z;
  es_upstream_to_client_datagrams : Z;
  es_last_observed_at : Z;
}.

Record MatrixNodeStatsAccumulator := {
  acc_session_count : Z;
  acc_success_count : Z;
  acc_error_count : Z;
  acc_effective_error_millis : Z;
  acc_active_session_count : Z;
  acc_latency_total : Z;
  acc_latency_count : Z;
  acc_client_to_upstream_bytes : Z;
  acc_upstream_to_client_bytes : Z;
  acc_client_to_upstream_datagrams : Z;
  acc_upstream_to_client_datagrams : Z;
  acc_last_observed_at : Z;
}.

Record MatrixErrorSignalAccumulator := {
  ea_attempt_count : Z;
  ea_logical_session_ids : gset Z;
  ea_effective_error_millis : Z;
  ea_client_to_upstream_bytes : Z;
  ea_upstream_to_client_bytes : Z;
  ea_client_to_upstream_datagrams : Z;
  ea_upstream_to_client_datagrams : Z;
  ea_last_observed_at : Z;
}.

Definition default_acc : MatrixNodeStatsAccumulator :=
  {| acc_session_count := 0; acc_success_count := 0; acc_error_count := 0;
     acc_effective_error_millis := 0; acc_active_session_count := 0; acc_latency_total := 0;
     acc_latency_count := 0; acc_client_to_upstream_bytes := 0; acc_upstream_to_client_bytes := 0;
     acc_client_to_upstream_datagrams := 0; acc_upstream_to_client_datagrams := 0;
     acc_last_observed_at := 0 |}.

Definition default_error_acc : MatrixErrorSignalAccumulator :=
  {| ea_attempt_count := 0; ea_logical_session_ids := ∅; ea_effective_error_millis := 0;
     ea_client_to_upstream_bytes := 0; ea_upstream_to_client_bytes := 0;
     ea_client_to_upstream_datagrams := 0; ea_upstream_to_client_datagrams := 0;
     ea_last_observed_at := 0 |}.

(** ** Keys of a session *)
Definition split_list (v : string) : list string :=
  List.filter (λ p, negb (is_empty p)) (List.map trim (split "," v)).

Definition selection_pairs (t : TrafficSession) : option (list (string * string)) :=
  gs ← ts_selection_groups t;
  ns ← ts_selection_nodes t;
  let groups := split_list gs in
  let nodes := split_list ns in
  if (length groups =? 0) || negb (length groups =? length nodes) then None
  else Some (zip groups nodes).

Definition optional_value (v : option string) : string :=
  default "unknown" (opt_filter (λ s, negb (is_empty s)) (option_map trim v)).

Definition target_scope (t : TrafficSession) : option (string * string) :=
  match opt_filter (λ d, negb (is_empty d)) (option_map trim (ts_target_domain t)) with
  | Some domain => Some ("domain", to_ascii_lowercase domain)
  | None =>
      match opt_filter (λ d, negb (is_empty d)) (option_map trim (ts_target_ip t)) with
      | Some ip => Some ("ip", ip)
      | None => None
      end
  end.

Definition stats_fingerprint (node_id : string) (fps : gmap string string) : string :=
  default ("node-id:" ++ node_id) (opt_filter (λ f, negb (is_empty f)) (fps !! node_id)).

(** ** Weights and rates *)
Definition effective_error_millis (t : TrafficSession) : Z :=
  match ts_error_class t with
  | Some c =>
      if String.eqb c "client-aborted" then 0
      else if String.eqb c "response-interrupted" && (0 <? ts_upstream_to_client_bytes t) then 250
      else if String.eqb c "no-response-before-first-byte" then 750
      else if String.eqb c "response-interrupted" then 750
      else 1000
  | None => 1000
  end%Z.

(** [u64::div_ceil] *)
Definition millis_to_count (v : Z) : Z := ((v + 999) / 1000)%Z.

Definition rate_ppm (numerator denominator : Z) : Z :=
  if (denominator =? 0)%Z then 0%Z
  else default u32_max (try_u 32 (numerator * 1000000 / denominator)).

Definition effective_rate_ppm (millis sessions : Z) : Z :=
  if (sessions =? 0)%Z then 0%Z
  else default u32_max (try_u 32 (millis * 1000 / sessions)).

(** ** Recording *)
Definition acc_record (a : MatrixNodeStatsAccumulator) (t : TrafficSession)
    : MatrixNodeStatsAccumulator :=
  let is_error := bool_decide (is_Some (ts_error t)) in
  let is_closed := bool_decide (is_Some (ts_closed_at t)) in
  let add c (b : bool) := if b then wrap_u 64 (c + 1) else c in
  {| acc_session_count := wrap_u 64 (acc_session_count a + 1);
     acc_success_count := add (acc_success_count a) (negb is_error && is_closed);
     acc_error_count := add (acc_error_count a) is_error;
     acc_effective_error_millis :=
       if is_error then wrap_u 64 (acc_effective_error_millis a + effective_error_millis t)
       else acc_effective_error_millis a;
     acc_active_session_count := add (acc_active_session_count a) (negb is_error && negb is_closed);
     acc_latency_total :=
       match ts_first_response_latency t with
       | Some l => wrap_u 128 (acc_latency_total a + l)
       | None => acc_latency_total a
       end;
     acc_latency_count :=
       add (acc_latency_count a) (bool_decide (is_Some (ts_first_response_latency t)));
     acc_client_to_upstream_bytes :=
       wrap_u 64 (acc_client_to_upstream_bytes a + ts_client_to_upstream_bytes t);
     acc_upstream_to_client_bytes :=
       wrap_u 64 (acc_upstream_to_client_bytes a + ts_upstream_to_client_bytes t);
     acc_client_to_upstream_datagrams :=
       wrap_u 64 (acc_client_to_upstream_datagrams a + ts_client_to_upstream_datagrams t);
     acc_upstream_to_client_datagrams :=
       wrap_u 64 (acc_upstream_to_client_datagrams a + ts_upstream_to_client_datagrams t);
     acc_last_observed_at := Z.max (acc_last_observed_at a) (ts_last_observed_at t) |}.

Definition error_record (a : MatrixErrorSignalAccumulator) (t : TrafficSession)
    : MatrixErrorSignalAccumulator :=
  {| ea_attempt_count := wrap_u 64 (ea_attempt_count a + 1);
     ea_logical_session_ids := {[ts_session_id t]} ∪ ea_logical_session_ids a;
     ea_effective_error_millis :=
       wrap_u 64 (ea_effective_error_millis a + effective_error_millis t);
     ea_client_to_upstream_bytes :=
       wrap_u 64 (ea_client_to_upstream_bytes a + ts_client_to_upstream_bytes t);
     ea_upstream_to_client_bytes :=
       wrap_u 64 (ea_upstream_to_client_bytes a + ts_upstream_to_client_bytes t);
     ea_client_to_upstream_datagrams :=
       wrap_u 64 (ea_client_to_upstream_datagrams a + ts_client_to_upstream_datagrams t);
     ea_upstream_to_client_datagrams :=
       wrap_u 64 (ea_upstream_to_client_datagrams a + ts_upstream_to_client_datagrams t);
     ea_last_observed_at := Z.max (ea_last_observed_at a) (ts_last_observed_at t) |}.

(** [finish], and [finish_target] which adds the target columns *)
Definition acc_finish (a : MatrixNodeStatsAccumulator) (g n fp : string) : MatrixNodeStats :=
  {| ns_group_id := g; ns_node_id := n; ns_node_fingerprint := fp;
     ns_session_count := acc_session_count a;
     ns_success_count := acc_success_count a;
     ns_error_count := acc_error_count a;
     ns_effective_error_count := millis_to_count (acc_effective_error_millis a);
     ns_effective_error_millis := acc_effective_error_millis a;
     ns_active_session_count := acc_active_session_count a;
     ns_error_rate_ppm := rate_ppm (acc_error_count a) (acc_session_count a);
     ns_effective_error_rate_ppm :=
       effective_rate_ppm (acc_effective_error_millis a) (acc_session_count a);
     ns_avg_first_response_latency :=
       if (0 <? acc_latency_count a)%Z then Some (acc_latency_total a / acc_latency_count a)%Z
       else None;
     ns_client_to_upstream_bytes := acc_client_to_upstream_bytes a;
     ns_upstream_to_client_bytes := acc_upstream_to_client_bytes a;
     ns_client_to_upstream_datagrams := acc_client_to_upstream_datagrams a;
     ns_upstream_to_client_datagrams := acc_upstream_to_client_datagrams a;
     ns_last_observed_at := acc_last_observed_at a |}.

Definition acc_finish_target (a : MatrixNodeStatsAccumulator) (g n fp scope value : string)
    : MatrixTargetNodeStats :=
  {| tn_stats := acc_finish a g n fp; tn_target_scope := scope; tn_target_value := value |}.

Definition error_finish (a : MatrixErrorSignalAccumulator)
    (g n fp scope value protocol class code side phase protocol_phase impact : string)
    : MatrixErrorSignalStats :=
  {| es_group_id := g; es_node_id := n; es_node_fingerprint := fp;
     es_target_scope := scope; es_target_value := value; es_node_protocol := protocol;
     es_error_class := class; es_error_code := code; es_error_side := side;
     es_error_phase := phase; es_error_protocol_phase := protocol_phase;
     es_error_score_impact := impact;
     es_attempt_count := ea_attempt_count a;
     es_logical_session_count :=
       default u64_max (try_u 64 (Z.of_nat (size (ea_logical_session_ids a))));
     es_effective_error_count := millis_to_count (ea_effective_error_millis a);
     es_effective_error_millis := ea_effective_error_millis a;
     es_client_to_upstream_bytes := ea_client_to_upstream_bytes a;
     es_upstream_to_client_bytes := ea_upstream_to_client_bytes a;
     es_client_to_upstream_datagrams := ea_client_to_upstream_datagrams a;
     es_upstream_to_client_datagrams := ea_upstream_to_client_datagrams a;
     es_last_observed_at := ea_last_observed_at a |}.

(** ** The three tables *)
Section tally.
  Context {K : Type} `{Countable K} {A : Type} (zero : A) (record : A → TrafficSession → A).

(** [stats.entry(key).or_default().record(session)] *)
Definition tally_entry (t : TrafficSession) (m : gmap K A) (k : K) : gmap K A :=
  <[k := record (default zero (m !! k)) t]> m.

(** The nested loop over the sessions and the keys of each. *)
Definition tally (keys : TrafficSession → list K) (sessions : list TrafficSession) : gmap K A :=
  fold_left (λ m t, fold_left (tally_entry t) (keys t) m) sessions ∅.
End tally.

Definition node_keys (t : TrafficSession) : list (string * string) := default [] (selection_pairs t).

Definition target_key := (string * (string * (string * string)))%type.

Definition target_keys (t : TrafficSession) : list target_key :=
  match target_scope t, selection_pairs t with
  | Some (scope, value), Some pairs => List.map (λ p : string * string, (p.1, (p.2, (scope, value)))) pairs
  | _, _ => []
  end.

Definition node_stats_from_sessions (sessions : list TrafficSession) (fps : gmap string string)
    : list MatrixNodeStats :=
  List.map (λ e : string * string * MatrixNodeStatsAccumulator,
              let '((g, n), a) := e in acc_finish a g n (stats_fingerprint n fps))
    (btree_iter (tally default_acc acc_record node_keys sessions)).

Definition target_stats_from_sessions (sessions : list TrafficSession) (fps : gmap string string)
    : list MatrixTargetNodeStats :=
  List.map (λ e : target_key * MatrixNodeStatsAccumulator,
              let '((g, (n, (scope, value))), a) := e in
              acc_finish_target a g n (stats_fingerprint n fps) scope value)
    (btree_iter (tally default_acc acc_record target_keys sessions)).

(** Group, node, scope, value, protocol, class, code, side, phase, protocol
    phase and score impact. *)
Definition error_key :=
  (string * (string * (string * (string * (string * (string * (string *
   (string * (string * (string * string))))))))))%type.

Definition error_keys (t : TrafficSession) : list error_key :=
  match ts_error t, selection_pairs t with
  | Some _, Some pairs =>
      let '(scope, value) := default ("unknown", "") (target_scope t) in
      List.map (λ p : string * string,
        (p.1, (p.2, (scope, (value, (optional_value (ts_node_protocol t),
         (optional_value (ts_error_class t), (optional_value (ts_error_code t),
         (optional_value (ts_error_side t), (optional_value (ts_error_phase t),
         (optional_value (ts_error_protocol_phase t),
          optional_value (ts_error_score_impact t)))))))))))) pairs
  | _, _ => []
  end.

Definition error_signals_from_sessions (sessions : list TrafficSession) (fps : gmap string string)
    : list MatrixErrorSignalStats :=
  List.map (λ e : error_key * MatrixErrorSignalAccumulator,
              let '((g, (n, (scope, (value, (protocol, (class, (code, (side, (phase,
                     (protocol_phase, impact)))))))))), a) := e in
              error_finish a g n (stats_fingerprint n fps) scope value protocol class code side
                phase protocol_phase impact)
    (btree_iter (tally default_error_acc error_record error_keys sessions)).

(** ** What an entry of a table has recorded *)
Section hits.
  Context {K : Type} `{Countable K} {A : Type} (zero : A) (record : A → TrafficSession → A).
  Context (keys : TrafficSession → list K).

(** The sessions that name the key, once per occurrence. *)
Definition session_hits (k : K) (t : TrafficSession) : list TrafficSession :=
  List.map (λ _, t) (List.filter (λ k', bool_decide (k' = k)) (keys t)).
Definition hits (k : K) (sessions : list TrafficSession) : list TrafficSession :=
  List.flat_map (session_hits k) sessions.

Definition recorded (l : list TrafficSession) (o : option A) : option A :=
  match l with [] => o | _ => Some (fold_left record l (default zero o)) end.

Lemma recorded_app l l' (o : option A) : recorded (l ++ l')%list o = recorded l' (recorded l o).
Proof.
  destruct l as [|x l]; [done|]. cbn. destruct l' as [|y l']; cbn.
  - by rewrite app_nil_r.
  - by rewrite fold_left_app.
Qed.

Lemma tally_entries_lookup t ks (m : gmap K A) (k : K) :
  fold_left (tally_entry zero record t) ks m !! k =
    recorded (List.map (λ _, t) (List.filter (λ k', bool_decide (k' = k)) ks)) (m !! k).
Proof.
  revert m; induction ks as [|k' ks IH]; intros m; cbn [fold_left List.filter]; [done|].
  rewrite IH. unfold tally_entry. case_bool_decide as Hk.
  - subst. rewrite lookup_insert_eq. change (?f (k :: ?l)) with (f [k] ++ f l)%list.
    cbn [List.map]. by destruct (List.map _ _).
  - by rewrite lookup_insert_ne.
Qed.

Lemma tally_fold_lookup sessions (m : gmap K A) (k : K) :
  fold_left (λ m t, fold_left (tally_entry zero record t) (keys t) m) sessions m !! k =
    recorded (hits k sessions) (m !! k).
Proof.
  revert m; induction sessions as [|t l IH]; intros m; [done|]. cbn [fold_left].
  rewrite IH, tally_entries_lookup. cbn. by rewrite recorded_app.
Qed.

Lemma tally_lookup sessions (k : K) :
  tally zero record keys sessions !! k = recorded (hits k sessions) None.
Proof. unfold tally. by rewrite tally_fold_lookup, lookup_empty. Qed.

Lemma tally_Some sessions (k : K) (a : A) :
  tally zero record keys sessions !! k = Some a ↔
    hits k sessions ≠ [] ∧ a = fold_left record (hits k sessions) zero.
Proof.
  rewrite tally_lookup. destruct (hits k sessions) as [|t l]; cbn; [by split; [|intros [? _]]|].
  split; [by intros [= <-]|by intros [_ ->]].
Qed.
End hits.

(** ** Conservation *)
Definition acc_inv (l : list TrafficSession) (a : MatrixNodeStatsAccumulator) : Prop :=
  acc_session_count a = Z.of_nat (length l) ∧
  acc_session_count a = (acc_success_count a + acc_error_count a + acc_active_session_count a)%Z ∧
  (0 ≤ acc_success_count a ∧ 0 ≤ acc_error_count a ∧ 0 ≤ acc_active_session_count a)%Z ∧
  (0 ≤ acc_effective_error_millis a ≤ 1000 * acc_error_count a)%Z.

Lemma effective_error_millis_range t : (0 ≤ effective_error_millis t ≤ 1000)%Z.
Proof. unfold effective_error_millis. destruct (ts_error_class t); [|lia]. split_guards; lia. Qed.

Lemma wrap_small w z : in_u w z → wrap_u w z = z.
Proof. apply Z.mod_small. Qed.

Lemma acc_record_inv l a t :
  acc_inv l a → (1000 * Z.of_nat (length (l ++ [t])) < 2 ^ 64)%Z →
  acc_inv (l ++ [t])%list (acc_record a t).
Proof.
  intros (Hc & Hs & Hp & Hm) Hlen. rewrite length_app in Hlen. cbn [length] in Hlen.
  pose proof (effective_error_millis_range t). unfold acc_inv, acc_record; cbn.
  rewrite length_app. cbn [length].
  assert (∀ z, (0 ≤ z < 2 ^ 64)%Z → wrap_u 64 z = z) as Hw by (intros; by apply wrap_small).
  repeat case_bool_decide; cbn; rewrite !Hw by lia; lia.
Qed.

Lemma fold_acc_inv l :
  (1000 * Z.of_nat (length l) < 2 ^ 64)%Z → acc_inv l (fold_left acc_record l default_acc).
Proof.
  induction l as [|t l IH] using rev_ind; intros Hlen; [unfold acc_inv; cbn; lia|].
  rewrite fold_left_app. apply acc_record_inv; [|done]. apply IH.
  rewrite length_app in Hlen. cbn in Hlen. lia.
Qed.

Lemma rate_ppm_bounds num den :
  (0 ≤ num ≤ den)%Z → (0 ≤ rate_ppm num den ≤ 1000000)%Z ∧
  rate_ppm num den = (if (den =? 0)%Z then 0 else num * 1000000 / den)%Z.
Proof.
  intros Hn. unfold rate_ppm. destruct (Z.eqb_spec den 0) as [->|Hd]; [lia|].
  assert (0 ≤ num * 1000000 / den ≤ 1000000)%Z as Hb.
  { split; [apply Z.div_pos; lia|]. apply Z.div_le_upper_bound; nia. }
  unfold try_u. rewrite (proj2 (Z.leb_le _ _)), (proj2 (Z.ltb_lt _ _)) by lia. cbn. done.
Qed.

Lemma effective_rate_bounds millis num den :
  (0 ≤ millis ≤ 1000 * num)%Z → (0 ≤ num ≤ den)%Z →
  (0 ≤ effective_rate_ppm millis den ≤ rate_ppm num den)%Z.
Proof.
  intros Hm Hn. destruct (rate_ppm_bounds num den Hn) as [_ ->]. unfold effective_rate_ppm.
  destruct (Z.eqb_spec den 0) as [->|Hd]; [lia|].
  assert (0 ≤ millis * 1000 / den ≤ num * 1000000 / den)%Z as Hb.
  { split; [apply Z.div_pos; lia|]. apply Z.div_le_mono; lia. }
  assert (num * 1000000 / den ≤ 1000000)%Z by (apply Z.div_le_upper_bound; nia).
  unfold try_u. rewrite (proj2 (Z.leb_le _ _)), (proj2 (Z.ltb_lt _ _)) by lia. done.
Qed.

Lemma millis_to_count_bounds millis n :
  (0 ≤ millis ≤ 1000 * n)%Z → (0 ≤ millis_to_count millis ≤ n)%Z.
Proof. unfold millis_to_count. intros. split; [apply Z.div_pos; lia|]. apply Z.lt_succ_r, Z.div_lt_upper_bound; lia. Qed.

(** What a row promises about its counters. *)
Definition row_consistent (n : Z) (r : MatrixNodeStats) : Prop :=
  ns_session_count r = n ∧
  ns_session_count r = (ns_success_count r + ns_error_count r + ns_active_session_count r)%Z ∧
  (0 ≤ ns_success_count r ∧ 0 ≤ ns_error_count r ∧ 0 ≤ ns_active_session_count r)%Z ∧
  (0 ≤ ns_effective_error_millis r ≤ 1000 * ns_error_count r)%Z ∧
  (0 ≤ ns_effective_error_count r ≤ ns_error_count r)%Z ∧
  (0 ≤ ns_effective_error_rate_ppm r ≤ ns_error_rate_ppm r)%Z ∧
  (ns_error_rate_ppm r ≤ 1000000)%Z.

Lemma acc_finish_consistent l g n fp :
  (1000 * Z.of_nat (length l) < 2 ^ 64)%Z →
  row_consistent (Z.of_nat (length l)) (acc_finish (fold_left acc_record l default_acc) g n fp).
Proof.
  intros Hlen. destruct (fold_acc_inv l Hlen) as (Hc & Hs & Hp & Hm). unfold row_consistent; cbn.
  assert (0 ≤ acc_error_count (fold_left acc_record l default_acc)
          ≤ acc_session_count (fold_left acc_record l default_acc))%Z as He by lia.
  pose proof (effective_rate_bounds _ _ _ Hm He). pose proof (rate_ppm_bounds _ _ He) as [? _].
  pose proof (millis_to_count_bounds _ _ Hm). lia.
Qed.

(** the node table has one row for every group and node that some retained
    session went through, sorted by group and node without repetition, and the row
    is the fold of exactly those sessions, in order, once per occurrence of the
    pair in the session's selection lists. *)
Theorem node_stats_rows sessions fps :
  (∀ row, row ∈ node_stats_from_sessions sessions fps ↔
    ∃ g n, let l := hits node_keys (g, n) sessions in
      l ≠ [] ∧ row = acc_finish (fold_left acc_record l default_acc) g n (stats_fingerprint n fps))
  ∧ NoDup ((λ r, (ns_group_id r, ns_node_id r)) <$> node_stats_from_sessions sessions fps).
Proof.
  unfold node_stats_from_sessions. split.
  - intros row. rewrite list_elem_of_In, in_map_iff. setoid_rewrite <- list_elem_of_In. split.
    + intros ([[g n] a] & <- & Ha). apply elem_of_btree_iter, tally_Some in Ha as [Hne ->].
      by exists g, n.
    + intros (g & n & Hne & ->). eexists ((g, n), _). split; [reflexivity|].
      apply elem_of_btree_iter, tally_Some. done.
  - set (m := tally _ _ _ _).
    assert (((λ r, (ns_group_id r, ns_node_id r)) <$>
      List.map (λ e : string * string * MatrixNodeStatsAccumulator,
              let '((g, n), a) := e in acc_finish a g n (stats_fingerprint n fps)) (btree_iter m))
      = btree_keys m) as ->; [|apply NoDup_btree_keys].
    unfold btree_keys. induction (btree_iter m) as [|[[g n] a] l IH]; [done|]. cbn. by f_equal.
Qed.

(** node statistics are conservative: in every row, sessions split into
    successes, errors and active ones, the weighted error never exceeds the number
    of errors, both rates are at most 1,000,000 parts per million and the weighted
    rate is at most the raw one, provided fewer than 2^64/1000 sessions were
    recorded (below that no counter of these wraps). *)
Theorem node_stats_conservation sessions fps row :
  row ∈ node_stats_from_sessions sessions fps →
  let l := hits node_keys (ns_group_id row, ns_node_id row) sessions in
  (1000 * Z.of_nat (length l) < 2 ^ 64)%Z → row_consistent (Z.of_nat (length l)) row.
Proof.
  unfold node_stats_from_sessions.
  rewrite list_elem_of_In, in_map_iff. intros ([[g n] a] & <- & Ha).
  apply list_elem_of_In, elem_of_btree_iter, tally_Some in Ha as [_ ->].
  apply acc_finish_consistent.
Qed.

(** ** A concrete table *)
Definition demo_session (key : string) (nodes : string) (class err : option string)
    (closed : option Z) : TrafficSession :=
  {| ts_session_key := key; ts_session_id := 1; ts_decision_id := Some 1%Z;
     ts_config_generation := Some 1%Z; ts_inbound := "tcp"; ts_node_protocol := None;
     ts_peer := None; ts_target := None; ts_target_ip := Some "1.2.3.4"; ts_target_port := None;
     ts_target_domain := None; ts_target_source := None; ts_upstream := None;
     ts_selection_groups := Some "entry, exit"; ts_selection_nodes := Some nodes;
     ts_selection_trace := None; ts_started_at := 1; ts_closed_at := closed;
     ts_duration := None; ts_close_reason := None; ts_error_stage := None; ts_error_code := None;
     ts_error_class := class; ts_error_side := None; ts_error_phase := None;
     ts_error_protocol_phase := None; ts_error_score_impact := None; ts_error := err;
     ts_client_to_upstream_bytes := 10; ts_upstream_to_client_bytes := 20;
     ts_client_to_upstream_datagrams := 0; ts_upstream_to_client_datagrams := 0;
     ts_first_upstream_at := None; ts_first_downstream_at := None;
     ts_first_response_latency := None; ts_last_observed_at := 5 |}.

Definition demo_sessions : list TrafficSession :=
  [demo_session "a" "n1,n2" (Some "response-interrupted") (Some "reset") (Some 4%Z);
   demo_session "b" "n1, n2" None None (Some 4%Z)].

Lemma node_stats_conservation_witness :
  ∃ row, row ∈ node_stats_from_sessions demo_sessions ∅ ∧
    ns_session_count row = 2%Z ∧ ns_effective_error_rate_ppm row = 125000%Z ∧ row_consistent 2 row.
Proof.
  exists (acc_finish (fold_left acc_record demo_sessions default_acc) "entry" "n1" "node-id:n1").
  assert (acc_finish (fold_left acc_record demo_sessions default_acc) "entry" "n1" "node-id:n1"
    ∈ node_stats_from_sessions demo_sessions ∅) as H by (vm_compute; constructor).
  split; [exact H|]. split; [reflexivity|]. split; [reflexivity|].
  exact (node_stats_conservation demo_sessions ∅ _ H eq_refl).
Defined.
