(* ===== verification/Matrix.v ===== *)
(** * Matrix: scoring of candidates

    [crates/dynet-runtime/src/model/matrix_active.rs] chooses the node of a hop in
    the rollout groups, [matrix_shadow.rs] scores the same candidates for the
    record, and [matrix_service.rs] keeps both beside the traffic sessions.
    Scores are [i64]; every operation wraps as in the release profile. *)
From Stdlib Require Import ZArith Lia Strings.Byte Ascii String Sorting.Sorted.
From stdpp Require Import base list numbers option strings gmap sets.
From S2P Require Import Prelude Collections Net RustStd Model Stores Traffic MatrixStats.
Local Open Scope string_scope.
Local Open Scope nat_scope.

(** ** Arithmetic on [i64] *)
Definition isub (a b : Z) : Z := wrap_i64 (a - b).
Definition iadd (a b : Z) : Z := wrap_i64 (a + b).
Definition imul (a b : Z) : Z := wrap_i64 (a * b).

(** [i64::try_from(value).unwrap_or(i64::MAX)] *)
Definition to_i64 (v : Z) : Z := default i64_max (try_i64 v).

Definition PRIORITY_WEIGHT : Z := 1000000000.
Definition NO_HISTORY_SCORE : Z := 4000000000000.
Definition BASE_SCORE : Z := 1000000000000.
Definition COOLDOWN_PENALTY : Z := 2000000000000.
Definition CONCURRENCY_CAP_PENALTY : Z := 3000000000000.
Definition ERROR_RATE_WEIGHT : Z := 100.
Definition LATENCY_WEIGHT : Z := 1000.
Definition ACTIVE_SESSION_WEIGHT : Z := 10000.
Definition RECENT_USAGE_WEIGHT : Z := 10.

(** ** The target of a selection *)
Definition context_target_scope (c : SelectionContext) : string * string :=
  match opt_filter (λ d, negb (is_empty d)) (option_map trim (target_domain (ctx_target c))) with
  | Some domain => ("domain", to_ascii_lowercase domain)
  | None => ("ip", ip_to_string (sa_ip (target_address (ctx_target c))))
  end.

(** ** matrix_active.rs *)
Definition active_rollout_group (g : GroupId) : bool :=
  String.eqb g "GitHub" || String.eqb g "Common" || String.eqb g "Tunnel".

Definition weighted_success_rate_ppm (success completed_millis : Z) : Z :=
  if (completed_millis =? 0)%Z then 0%Z
  else default u32_max (try_u 32 (success * 1000000000 / completed_millis)).

Definition latency_penalty (v : option Z) : Z := to_i64 (Z.min (default 0%Z v) 100000).
Definition u64_penalty (v : Z) : Z := to_i64 v.

(** [aggregate_penalty] and [target_penalty] read the same columns. *)
Definition stats_penalty (s : MatrixNodeStats) : Z :=
  iadd (iadd (iadd (imul (ns_effective_error_rate_ppm s) ERROR_RATE_WEIGHT)
                   (imul (latency_penalty (ns_avg_first_response_latency s)) LATENCY_WEIGHT))
             (imul (u64_penalty (ns_active_session_count s)) ACTIVE_SESSION_WEIGHT))
       (imul (u64_penalty (ns_session_count s)) RECENT_USAGE_WEIGHT).

Definition aggregate_penalty (s : MatrixNodeStats) : Z := stats_penalty s.
Definition target_penalty (s : MatrixTargetNodeStats) : Z := stats_penalty (tn_stats s).

Definition capped_node (s : MatrixNodeStats) (th : GroupThresholds) : bool :=
  match max_active_sessions th with
  | Some limit => (limit <=? ns_active_session_count s)%Z
  | None => false
  end.

Definition cooled_node (s : MatrixNodeStats) (th : GroupThresholds) : bool :=
  let completed := wrap_u 64 (sat_u 64 (ns_success_count s * 1000) + ns_effective_error_millis s) in
  (sat_u 64 (min_samples th * 1000) <=? completed)%Z
  && (weighted_success_rate_ppm (ns_success_count s) completed <? min_success_rate_ppm th)%Z.

Definition cooled_target (s : MatrixTargetNodeStats) (th : GroupThresholds) : bool :=
  cooled_node (tn_stats s) th.

Definition active_score (priority : Z) (rank : nat) (th : GroupThresholds)
    (target : option MatrixTargetNodeStats) (aggregate : option MatrixNodeStats) : Z :=
  match target, aggregate with
  | None, None =>
      isub (isub NO_HISTORY_SCORE (imul priority PRIORITY_WEIGHT)) (to_i64 (Z.of_nat rank))
  | _, _ =>
      let score := isub (isub BASE_SCORE (imul priority PRIORITY_WEIGHT)) (to_i64 (Z.of_nat rank)) in
      let score := match aggregate with
                   | Some s => if capped_node s th then isub score CONCURRENCY_CAP_PENALTY else score
                   | None => score end in
      let score := match aggregate with
                   | Some s => let score := isub score (aggregate_penalty s) in
                               if cooled_node s th then isub score COOLDOWN_PENALTY else score
                   | None => score end in
      match target with
      | Some s => let score := isub score (target_penalty s) in
                  if cooled_target s th then isub score COOLDOWN_PENALTY else score
      | None => score
      end
  end.

Definition matching_target_stats (c : SelectionContext) (g : GroupId) (n : NodeId)
    (stats : list MatrixTargetNodeStats) : option MatrixTargetNodeStats :=
  let '(scope, value) := context_target_scope c in
  List.find (λ s, String.eqb (ns_group_id (tn_stats s)) g && String.eqb (ns_node_id (tn_stats s)) n
                  && String.eqb (tn_target_scope s) scope && String.eqb (tn_target_value s) value) stats.

Definition matching_node_stats (g : GroupId) (n : NodeId) (stats : list MatrixNodeStats)
    : option MatrixNodeStats :=
  List.find (λ s, String.eqb (ns_group_id s) g && String.eqb (ns_node_id s) n) stats.

(** Higher score first, then the smaller node id. *)
Definition score_cmp (l r : NodeId * Z) : comparison :=
  then_with (cmp l.2 r.2) (cmp r.1 l.1).

Definition candidate_score (c : SelectionContext) (g : GroupId) (th : GroupThresholds)
    (node_stats : list MatrixNodeStats) (target_stats : list MatrixTargetNodeStats)
    (rank : nat) (cand : MatrixCandidateInput) : Z :=
  active_score (cand_priority cand) rank th
    (matching_target_stats c g (cand_node_id cand) target_stats)
    (matching_node_stats g (cand_node_id cand) node_stats).

Definition scored_candidates (c : SelectionContext) (g : GroupId) (th : GroupThresholds)
    (candidates : list MatrixCandidateInput) (node_stats : list MatrixNodeStats)
    (target_stats : list MatrixTargetNodeStats) : list (NodeId * Z) :=
  imap (λ rank cand, (cand_node_id cand, candidate_score c g th node_stats target_stats rank cand))
    candidates.

Definition select_active_candidate (c : SelectionContext) (g : GroupId) (th : GroupThresholds)
    (candidates : list MatrixCandidateInput) (node_stats : list MatrixNodeStats)
    (target_stats : list MatrixTargetNodeStats) : option NodeId :=
  if negb (active_rollout_group g) then None
  else option_map fst (max_by score_cmp (scored_candidates c g th candidates node_stats target_stats)).

(** ** matrix_shadow.rs *)
Definition MATRIX_SHADOW_LIMIT : nat := 1024.

Record MatrixShadowCandidate := {
  sc_node_id : string;
  sc_priority : Z;
  sc_score : Z;
  sc_reason : string;
  sc_selected_by_actual : bool;
  sc_selected_by_shadow : bool;
}.

Record MatrixShadowDecision := {
  sd_decision_id : Z;
  sd_session_id : Z;
  sd_observed_at : Z;
  sd_inbound : string;
  sd_group_id : string;
  sd_actual_node_id : string;
  sd_shadow_top_node_id : option string;
  sd_shadow_differs_from_actual : bool;
  sd_shadow_reason : string;
  sd_candidates : list MatrixShadowCandidate;
}.

(** [MatrixShadowStore]: a bounded queue *)
Definition shadow_record (q : list MatrixShadowDecision) (d : MatrixShadowDecision)
    : list MatrixShadowDecision := push_bounded MATRIX_SHADOW_LIMIT q d.

Definition shadow_from_decisions (l : list MatrixShadowDecision) : list MatrixShadowDecision :=
  fold_left shadow_record (take_last MATRIX_SHADOW_LIMIT l) [].

Definition stats_by_node (g : GroupId) (stats : list MatrixNodeStats) : gmap string MatrixNodeStats :=
  btree_collect (List.map (λ s, (ns_node_id s, s))
                   (List.filter (λ s, String.eqb (ns_group_id s) g) stats)).

Definition target_stats_by_node (c : SelectionContext) (g : GroupId)
    (stats : list MatrixTargetNodeStats) : gmap string MatrixTargetNodeStats :=
  let '(scope, value) := context_target_scope c in
  btree_collect (List.map (λ s, (ns_node_id (tn_stats s), s))
    (List.filter (λ s, String.eqb (ns_group_id (tn_stats s)) g
                       && String.eqb (tn_target_scope s) scope
                       && String.eqb (tn_target_value s) value) stats)).

Definition balanced_penalty (score : Z) (s : MatrixNodeStats) : Z :=
  isub (isub (isub (isub score (imul (ns_effective_error_rate_ppm s) ERROR_RATE_WEIGHT))
                   (imul (latency_penalty (ns_avg_first_response_latency s)) LATENCY_WEIGHT))
             (imul (u64_penalty (ns_active_session_count s)) ACTIVE_SESSION_WEIGHT))
       (imul (u64_penalty (ns_session_count s)) RECENT_USAGE_WEIGHT).

Definition stats_balanced_score (priority : Z) (rank : nat) (stats : option MatrixNodeStats)
    (target_stats : option MatrixTargetNodeStats) : Z :=
  let priority_penalty := iadd (imul priority PRIORITY_WEIGHT) (to_i64 (Z.of_nat rank)) in
  match target_stats, stats with
  | None, None => isub NO_HISTORY_SCORE priority_penalty
  | Some s, _ => balanced_penalty (isub BASE_SCORE priority_penalty) (tn_stats s)
  | None, Some s => balanced_penalty (isub BASE_SCORE priority_penalty) s
  end.

Definition latency_text (l : option Z) : string :=
  match l with Some v => to_string v | None => "none" end.

Definition counters_text (s : MatrixNodeStats) : string :=
  "sessions=" ++ to_string (ns_session_count s) ++ ",errors=" ++ to_string (ns_error_count s)
  ++ ",effectiveErrors=" ++ to_string (ns_effective_error_count s)
  ++ ",active=" ++ to_string (ns_active_session_count s)
  ++ ",latencyMs=" ++ latency_text (ns_avg_first_response_latency s).

Definition stats_balanced_reason (stats : option MatrixNodeStats)
    (target_stats : option MatrixTargetNodeStats) : string :=
  match target_stats, stats with
  | Some s, _ => "stats-balanced-shadow:target=" ++ tn_target_scope s ++ ":" ++ tn_target_value s
                 ++ "," ++ counters_text (tn_stats s)
  | None, Some s => "stats-balanced-shadow:" ++ counters_text s
  | None, None => "stats-balanced-shadow:no-history"
  end.

Definition inbound_label (k : InboundKind) : string :=
  match k with InboundTcp => "tcp" | InboundUdp => "udp" end.

Definition shadow_cmp (l r : MatrixShadowCandidate) : comparison :=
  then_with (cmp (sc_score r) (sc_score l)) (cmp (sc_node_id l) (sc_node_id r)).

Definition select_by_shadow (c : MatrixShadowCandidate) : MatrixShadowCandidate :=
  {| sc_node_id := sc_node_id c; sc_priority := sc_priority c; sc_score := sc_score c;
     sc_reason := sc_reason c; sc_selected_by_actual := sc_selected_by_actual c;
     sc_selected_by_shadow := true |}.

(** The candidates before sorting. *)
Definition shadow_candidates (c : SelectionContext) (g : GroupId) (actual : SelectionDecision)
    (candidates : list MatrixCandidateInput) (node_stats : list MatrixNodeStats)
    (target_stats : list MatrixTargetNodeStats) : list MatrixShadowCandidate :=
  let by_node := stats_by_node g node_stats in
  let by_target := target_stats_by_node c g target_stats in
  imap (λ rank cand,
    let stats := by_node !! cand_node_id cand in
    let target := by_target !! cand_node_id cand in
    {| sc_node_id := cand_node_id cand; sc_priority := cand_priority cand;
       sc_score := stats_balanced_score (cand_priority cand) rank stats target;
       sc_reason := stats_balanced_reason stats target;
       sc_selected_by_actual := String.eqb (cand_node_id cand) (decision_node_id actual);
       sc_selected_by_shadow := false |}) candidates.

Definition score_candidates (now : Z) (c : SelectionContext) (g : GroupId)
    (actual : SelectionDecision) (candidates : list MatrixCandidateInput)
    (node_stats : list MatrixNodeStats) (target_stats : list MatrixTargetNodeStats)
    : MatrixShadowDecision :=
  let scored := sort_by shadow_cmp (shadow_candidates c g actual candidates node_stats target_stats) in
  let top := option_map sc_node_id (head scored) in
  {| sd_decision_id := decision_id actual; sd_session_id := ctx_session_id c;
     sd_observed_at := now; sd_inbound := inbound_label (ctx_inbound c); sd_group_id := g;
     sd_actual_node_id := decision_node_id actual;
     sd_shadow_top_node_id := top;
     sd_shadow_differs_from_actual :=
       match top with Some n => negb (String.eqb n (decision_node_id actual)) | None => false end;
     sd_shadow_reason := "stats-balanced-shadow";
     sd_candidates := match scored with x :: l => select_by_shadow x :: l | [] => [] end |}.

(** ** matrix_service.rs

    The observation sink hands copies to the persistence thread and is outside
    the model. *)
Record MatrixService := {
  traffic_sessions : SessionMap;
  shadow_decisions : list MatrixShadowDecision;
}.

Definition matrix_from_parts (sessions : list TrafficSession) (decisions : list MatrixShadowDecision)
    : MatrixService :=
  {| traffic_sessions := from_sessions sessions; shadow_decisions := shadow_from_decisions decisions |}.

Definition record_ingress_event (m : MatrixService) (e : IngressEvent) : MatrixService :=
  {| traffic_sessions := record_session_event (traffic_sessions m) e;
     shadow_decisions := shadow_decisions m |}.

Definition matrix_node_stats (m : MatrixService) (fps : gmap string string) : list MatrixNodeStats :=
  node_stats_from_sessions (session_snapshot (traffic_sessions m)) fps.
Definition matrix_target_node_stats (m : MatrixService) (fps : gmap string string)
    : list MatrixTargetNodeStats :=
  target_stats_from_sessions (session_snapshot (traffic_sessions m)) fps.
Definition matrix_error_signal_stats (m : MatrixService) (fps : gmap string string)
    : list MatrixErrorSignalStats :=
  error_signals_from_sessions (session_snapshot (traffic_sessions m)) fps.

Definition record_shadow_selection (m : MatrixService) (now : Z) (c : SelectionContext) (g : GroupId)
    (actual : SelectionDecision) (candidates : list MatrixCandidateInput) (fps : gmap string string)
    : MatrixService :=
  let d := score_candidates now c g actual candidates (matrix_node_stats m fps)
             (matrix_target_node_stats m fps) in
  {| traffic_sessions := traffic_sessions m;
     shadow_decisions := shadow_record (shadow_decisions m) d |}.

(** ** Exact scores *)
Lemma wrap_i64_small z : (- 2 ^ 63 ≤ z < 2 ^ 63)%Z → wrap_i64 z = z.
Proof. intros Hz. unfold wrap_i64. rewrite Z.mod_small by lia. lia. Qed.

(** Remove the wraps from the inside out. *)
Ltac no_wrap :=
  repeat match goal with
  | |- context [wrap_i64 ?z] =>
      lazymatch z with
      | context [wrap_i64 _] => fail
      | _ => rewrite (wrap_i64_small z) by lia
      end
  end.

Lemma to_i64_small v : (0 ≤ v < 2 ^ 63)%Z → to_i64 v = v.
Proof.
  intros Hv. unfold to_i64, try_i64, i64_min, i64_max.
  rewrite (proj2 (Z.leb_le _ _)), (proj2 (Z.leb_le _ _)) by lia. done.
Qed.

(** The columns that a score reads, within bounds that no table of the runtime
    reaches. *)
Definition row_bounded (s : MatrixNodeStats) : Prop :=
  in_u 32 (ns_effective_error_rate_ppm s) ∧ in_u 40 (ns_active_session_count s) ∧
  in_u 40 (ns_session_count s) ∧ (∀ l, ns_avg_first_response_latency s = Some l → (0 ≤ l)%Z).

Definition latency_z (s : MatrixNodeStats) : Z :=
  Z.min (default 0%Z (ns_avg_first_response_latency s)) 100000.

Definition penalty_z (s : MatrixNodeStats) : Z :=
  (ns_effective_error_rate_ppm s * 100 + latency_z s * 1000
   + ns_active_session_count s * 10000 + ns_session_count s * 10)%Z.

Definition row_score_z (th : GroupThresholds) (s : MatrixNodeStats) : Z :=
  (penalty_z s + if cooled_node s th then COOLDOWN_PENALTY else 0)%Z.

(** The score over the integers. *)
Definition active_score_z (priority : Z) (rank : nat) (th : GroupThresholds)
    (target : option MatrixTargetNodeStats) (aggregate : option MatrixNodeStats) : Z :=
  (match target, aggregate with None, None => NO_HISTORY_SCORE | _, _ => BASE_SCORE end
   - priority * PRIORITY_WEIGHT - Z.of_nat rank
   - match aggregate with
     | Some s => (if capped_node s th then CONCURRENCY_CAP_PENALTY else 0) + row_score_z th s
     | None => 0 end
   - match target with Some s => row_score_z th (tn_stats s) | None => 0 end)%Z.

Lemma latency_z_bounds s : row_bounded s → (0 ≤ latency_z s ≤ 100000)%Z.
Proof.
  intros (_ & _ & _ & Hl). unfold latency_z.
  destruct (ns_avg_first_response_latency s) as [l|]; cbn; [specialize (Hl l eq_refl)|]; lia.
Qed.

Lemma latency_penalty_exact s :
  row_bounded s → latency_penalty (ns_avg_first_response_latency s) = latency_z s.
Proof. intros Hb%latency_z_bounds. change (to_i64 (latency_z s) = latency_z s). apply to_i64_small. lia. Qed.

Lemma penalty_z_bounds s : row_bounded s → (0 ≤ penalty_z s < 2 ^ 54)%Z.
Proof.
  intros Hb. pose proof (latency_z_bounds s Hb). destruct Hb as (H1 & H2 & H3 & _).
  unfold in_u, penalty_z in *. lia.
Qed.

Lemma stats_penalty_exact s : row_bounded s → stats_penalty s = penalty_z s.
Proof.
  intros Hb. unfold stats_penalty. rewrite latency_penalty_exact by done.
  pose proof (latency_z_bounds s Hb). destruct Hb as (H1 & H2 & H3 & _). unfold in_u in *.
  unfold u64_penalty. rewrite !to_i64_small by lia.
  unfold iadd, imul, ERROR_RATE_WEIGHT, LATENCY_WEIGHT, ACTIVE_SESSION_WEIGHT, RECENT_USAGE_WEIGHT, penalty_z.
  no_wrap; lia.
Qed.

Definition option_bounded (o : option MatrixNodeStats) : Prop := ∀ s, o = Some s → row_bounded s.

Lemma active_score_exact_aux priority rank th target aggregate :
  in_u 32 priority → in_u 40 (Z.of_nat rank) →
  option_bounded aggregate → option_bounded (option_map tn_stats target) →
  active_score priority rank th target aggregate = active_score_z priority rank th target aggregate.
Proof.
  intros Hp Hr Ha Ht. unfold in_u in *.
  unfold active_score, active_score_z, row_score_z, aggregate_penalty, target_penalty, cooled_target.
  assert (to_i64 (Z.of_nat rank) = Z.of_nat rank) as -> by (apply to_i64_small; lia).
  unfold isub, imul, NO_HISTORY_SCORE, BASE_SCORE, PRIORITY_WEIGHT, COOLDOWN_PENALTY, CONCURRENCY_CAP_PENALTY.
  destruct aggregate as [s|], target as [s'|]; cbn [option_map];
    try (pose proof (Ha _ eq_refl) as Hs; pose proof (penalty_z_bounds _ Hs); rewrite (stats_penalty_exact s Hs));
    try (pose proof (Ht _ eq_refl) as Hs'; pose proof (penalty_z_bounds _ Hs');
         rewrite (stats_penalty_exact _ Hs')).
  - destruct (capped_node s th), (cooled_node s th), (cooled_node (tn_stats s') th);
      no_wrap; lia.
  - destruct (capped_node s th), (cooled_node s th); no_wrap; lia.
  - destruct (cooled_node (tn_stats s') th); no_wrap; lia.
  - no_wrap; lia.
Qed.

(** ** The active choice *)
#[export] Instance score_cmp_preorder : CmpPreorder score_cmp.
Proof. 
  exact (lex_preorder (cmp (A:=Z)) (flip (cmp (A:=string))) (@snd NodeId Z) (@fst NodeId Z) _
           (flip_ord_laws _ string_ord_laws)).
 Qed.

Lemma scored_lookup c g th cands nst tst p :
  p ∈ scored_candidates c g th cands nst tst ↔
    ∃ rank cand, cands !! rank = Some cand ∧
      p = (cand_node_id cand, candidate_score c g th nst tst rank cand).
Proof.
  unfold scored_candidates. rewrite list_elem_of_lookup. split.
  - intros [i Hi]. rewrite list_lookup_imap in Hi. destruct (cands !! i) as [cand|] eqn:E; [|done].
    injection Hi as <-. by exists i, cand.
  - intros (rank & cand & Hr & ->). exists rank. by rewrite list_lookup_imap, Hr.
Qed.

(** The position and candidate a choice stands for. *)
Definition best_candidate (c : SelectionContext) (g : GroupId) (th : GroupThresholds)
    (cands : list MatrixCandidateInput) (nst : list MatrixNodeStats)
    (tst : list MatrixTargetNodeStats) (rank : nat) (cand : MatrixCandidateInput) : Prop :=
  cands !! rank = Some cand ∧
  ∀ rank' cand', cands !! rank' = Some cand' →
    (candidate_score c g th nst tst rank' cand' < candidate_score c g th nst tst rank cand)%Z ∨
    (candidate_score c g th nst tst rank' cand' = candidate_score c g th nst tst rank cand ∧
     cmp_le (cand_node_id cand) (cand_node_id cand')).

Lemma active_choice_Some c g th cands nst tst nid :
  select_active_candidate c g th cands nst tst = Some nid →
  active_rollout_group g = true ∧
  ∃ rank cand, cand_node_id cand = nid ∧ best_candidate c g th cands nst tst rank cand.
Proof.
  unfold select_active_candidate. destruct (active_rollout_group g); cbn; [|done].
  destruct cands as [|cand0 cands]; [done|].
  destruct (max_by_Some score_cmp (scored_candidates c g th (cand0 :: cands) nst tst))
    as ([nid' sc] & -> & Hin & Hmax); [done|].
  cbn. intros [= <-]. split; [done|]. apply scored_lookup in Hin as (rank & cand & Hr & [= -> ->]).
  exists rank, cand. split; [done|]. split; [done|]. intros rank' cand' Hr'.
  destruct (Hmax (cand_node_id cand', candidate_score c g th nst tst rank' cand')) as [[= He1 He2]|Hle].
  - apply scored_lookup. by exists rank', cand'.
  - right. rewrite He1, He2. split; [done|apply cmp_le_refl].
  - revert Hle. unfold cmp_leb, score_cmp, then_with; cbn [fst snd].
    set (s1 := candidate_score c g th nst tst rank' cand').
    set (s2 := candidate_score c g th nst tst rank cand).
    change (cmp s1 s2) with (Z.compare s1 s2).
    destruct (Z.compare_spec s1 s2); [|by left|done]. intros Hc. right. split; [done|].
    unfold cmp_le. by destruct (cmp (cand_node_id cand) (cand_node_id cand')).
Qed.

(** the active matrix abstains outside the rollout groups (and without
    candidates); inside them it returns the node of a candidate whose score no
    other candidate exceeds, ties going to the smallest node id, so the choice
    does not depend on the order of equally scored candidates. *)
Theorem active_choice_best c g th cands nst tst :
  match select_active_candidate c g th cands nst tst with
  | None => active_rollout_group g = false ∨ cands = []
  | Some nid => active_rollout_group g = true ∧
      ∃ rank cand, cand_node_id cand = nid ∧ best_candidate c g th cands nst tst rank cand
  end.
Proof.
  destruct (select_active_candidate c g th cands nst tst) as [nid|] eqn:E.
  - by apply active_choice_Some.
  - unfold select_active_candidate in E. destruct (active_rollout_group g); [right|by left].
    cbn in E. destruct cands as [|cand cands]; [done|].
    by destruct (max_by_Some score_cmp (scored_candidates c g th (cand :: cands) nst tst))
      as (x & Hx & _); [|rewrite Hx in E].
Qed.

(** Inputs within the bounds under which scores are exact. *)
Definition inputs_bounded (cands : list MatrixCandidateInput) (nst : list MatrixNodeStats)
    (tst : list MatrixTargetNodeStats) : Prop :=
  (∀ cand, cand ∈ cands → in_u 32 (cand_priority cand)) ∧ in_u 29 (Z.of_nat (length cands)) ∧
  (∀ s, s ∈ nst → row_bounded s) ∧ (∀ s, s ∈ tst → row_bounded (tn_stats s)).

Lemma matching_node_bounded g n nst :
  (∀ s, s ∈ nst → row_bounded s) → option_bounded (matching_node_stats g n nst).
Proof. intros Hn s [Hs _]%find_Some_elem. by apply Hn. Qed.

Lemma matching_target_bounded c g n tst :
  (∀ s, s ∈ tst → row_bounded (tn_stats s)) →
  option_bounded (option_map tn_stats (matching_target_stats c g n tst)).
Proof.
  intros Ht s. unfold matching_target_stats. destruct (context_target_scope c) as [scope value].
  destruct (List.find _ tst) as [t|] eqn:E; [|done]. intros [= <-].
  apply find_Some_elem in E as [Hin _]. by apply Ht.
Qed.

(** The score of a candidate over the integers. *)
Definition candidate_score_z (c : SelectionContext) (g : GroupId) (th : GroupThresholds)
    (nst : list MatrixNodeStats) (tst : list MatrixTargetNodeStats)
    (rank : nat) (cand : MatrixCandidateInput) : Z :=
  active_score_z (cand_priority cand) rank th
    (matching_target_stats c g (cand_node_id cand) tst)
    (matching_node_stats g (cand_node_id cand) nst).

Lemma candidate_score_small c g th cands nst tst rank cand :
  inputs_bounded cands nst tst → cands !! rank = Some cand →
  candidate_score c g th nst tst rank cand = candidate_score_z c g th nst tst rank cand.
Proof.
  intros (Hp & Hl & Hn & Ht) Hr. apply active_score_exact_aux.
  - apply Hp. by eapply list_elem_of_lookup_2.
  - apply lookup_lt_Some in Hr. unfold in_u in *. lia.
  - by apply matching_node_bounded.
  - by apply matching_target_bounded.
Qed.

(** A candidate without any statistics, and one that no threshold holds back. *)
Definition untried (c : SelectionContext) (g : GroupId) (nst : list MatrixNodeStats)
    (tst : list MatrixTargetNodeStats) (cand : MatrixCandidateInput) : Prop :=
  matching_target_stats c g (cand_node_id cand) tst = None ∧
  matching_node_stats g (cand_node_id cand) nst = None.

Definition held_back (c : SelectionContext) (g : GroupId) (th : GroupThresholds)
    (nst : list MatrixNodeStats) (tst : list MatrixTargetNodeStats) (cand : MatrixCandidateInput) : Prop :=
  (∃ s, matching_node_stats g (cand_node_id cand) nst = Some s ∧
        (capped_node s th = true ∨ cooled_node s th = true)) ∨
  (∃ s, matching_target_stats c g (cand_node_id cand) tst = Some s ∧ cooled_target s th = true).

Definition row_small (s : MatrixNodeStats) : Prop :=
  row_bounded s ∧ (ns_effective_error_rate_ppm s ≤ 1000000)%Z ∧
  (ns_active_session_count s ≤ 1000000)%Z ∧ (ns_session_count s ≤ 1000000)%Z.

Lemma row_small_penalty s : row_small s → (0 ≤ penalty_z s ≤ 10210000000)%Z.
Proof.
  intros (Hb & H1 & H2 & H3). pose proof (penalty_z_bounds s Hb). pose proof (latency_z_bounds s Hb).
  unfold penalty_z in *. lia.
Qed.

Lemma score_z_upper_tried priority rank th target aggregate :
  ¬ (target = None ∧ aggregate = None) →
  option_bounded aggregate → option_bounded (option_map tn_stats target) →
  (active_score_z priority rank th target aggregate
   ≤ BASE_SCORE - priority * PRIORITY_WEIGHT - Z.of_nat rank)%Z.
Proof.
  intros Hne Ha Ht. unfold active_score_z, row_score_z, CONCURRENCY_CAP_PENALTY, COOLDOWN_PENALTY.
  assert (∀ s : MatrixNodeStats, row_bounded s → (0 ≤ penalty_z s)%Z) as Hpos
    by (intros s Hs; apply penalty_z_bounds in Hs; lia).
  destruct aggregate as [s|], target as [s'|]; [| | |tauto];
    try (pose proof (Hpos _ (Ha _ eq_refl))); try (pose proof (Hpos _ (Ht _ eq_refl)));
    repeat match goal with |- context [if ?b then _ else _] => destruct b end; lia.
Qed.

Definition rows_small (nst : list MatrixNodeStats) (tst : list MatrixTargetNodeStats) : Prop :=
  (∀ s, s ∈ nst → row_small s) ∧ (∀ s, s ∈ tst → row_small (tn_stats s)).

Section scores.
  Context (c : SelectionContext) (g : GroupId) (th : GroupThresholds).
  Context (nst : list MatrixNodeStats) (tst : list MatrixTargetNodeStats).
  Context (Hsmall : rows_small nst tst).
  Local Abbreviation score := (candidate_score_z c g th nst tst).

Lemma node_row_small n s : matching_node_stats g n nst = Some s → row_small s.
Proof. intros [Hs _]%find_Some_elem. by apply Hsmall. Qed.

Lemma target_row_small n s : matching_target_stats c g n tst = Some s → row_small (tn_stats s).
Proof.
  unfold matching_target_stats. destruct (context_target_scope c).
  intros [Hs _]%find_Some_elem. by apply Hsmall.
Qed.

(** The parts of a score that the statistics contribute. *)
Lemma score_parts rank cand :
  ∃ a t, score rank cand =
    ((if bool_decide (untried c g nst tst cand) then NO_HISTORY_SCORE else BASE_SCORE)
     - cand_priority cand * PRIORITY_WEIGHT - Z.of_nat rank - a - t)%Z ∧
    (0 ≤ a ∧ 0 ≤ t)%Z ∧
    (untried c g nst tst cand → a = 0 ∧ t = 0)%Z ∧
    (¬ held_back c g th nst tst cand → a ≤ 10210000000 ∧ t ≤ 10210000000)%Z ∧
    (held_back c g th nst tst cand → 2000000000000 ≤ a + t)%Z.
Proof.
  unfold candidate_score_z, active_score_z, untried, held_back.
  set (ag := matching_node_stats g (cand_node_id cand) nst).
  set (ta := matching_target_stats c g (cand_node_id cand) tst).
  exists (match ag with
     | Some s => (if capped_node s th then CONCURRENCY_CAP_PENALTY else 0) + row_score_z th s
     | None => 0 end)%Z, (match ta with Some s => row_score_z th (tn_stats s) | None => 0 end)%Z.
  unfold row_score_z, CONCURRENCY_CAP_PENALTY, COOLDOWN_PENALTY, cooled_target.
  assert (∀ s, ag = Some s → (0 ≤ penalty_z s ≤ 10210000000)%Z) as Hag
    by (intros s Hs; by eapply row_small_penalty, node_row_small).
  assert (∀ s, ta = Some s → (0 ≤ penalty_z (tn_stats s) ≤ 10210000000)%Z) as Hta
    by (intros s Hs; by eapply row_small_penalty, target_row_small).
  destruct ag as [s|], ta as [s'|];
    try specialize (Hag _ eq_refl); try specialize (Hta _ eq_refl);
    (split; [case_bool_decide; [try (destruct H; done)|try tauto]; done|]);
    (split; [split; [|]; repeat case_match; lia|]);
    (split; [intros [? ?]; done|]); split.
  all: try (intros Hn; repeat case_match; try lia;
            exfalso; apply Hn; first [left; eexists; split; [done|tauto]|right; eexists; split; done]).
  all: intros [(x & [= <-] & [Hx|Hx])|(x & [= <-] & Hx)] || intros [(x & [= <-] & [Hx|Hx])|(x & [=] & _)]
       || intros [(x & [=] & _)|(x & [= <-] & Hx)] || intros [(x & [=] & _)|(x & [=] & _)];
    rewrite Hx; repeat case_match; lia.
Qed.
End scores.

(** C10: the active matrix explores and sheds load: its choice keeps a tried node
    over an untried one only when the untried one's priority number is at least
    3000 larger, and keeps a node that its group's thresholds hold back (capped or
    cooling down) over one that nothing holds back only when the other's priority
    number is at least 1980 larger. *)
Theorem active_prefers_usable c g th cands nst tst nid :
  select_active_candidate c g th cands nst tst = Some nid →
  inputs_bounded cands nst tst → rows_small nst tst →
  ∃ w, w ∈ cands ∧ cand_node_id w = nid ∧
    (∀ o, o ∈ cands → untried c g nst tst o → ¬ untried c g nst tst w →
       (cand_priority w + 3000 ≤ cand_priority o)%Z) ∧
    (∀ o, o ∈ cands → ¬ held_back c g th nst tst o → held_back c g th nst tst w →
       (cand_priority w + 1980 ≤ cand_priority o)%Z).
Proof.
  intros (_ & rank & w & Hid & Hr & Hbest)%active_choice_Some Hb Hs.
  assert (∀ rank o, cands !! rank = Some o → (0 ≤ Z.of_nat rank < 2 ^ 29)%Z) as Hrk.
  { intros i o Hi%lookup_lt_Some. destruct Hb as (_ & Hl & _). unfold in_u in Hl. lia. }
  pose proof (Hrk _ _ Hr). exists w. split; [by eapply list_elem_of_lookup_2|]. split; [done|].
  destruct (score_parts c g th nst tst Hs rank w) as (a & t & Hw & Hpos & _ & _ & Hheld).
  split; intros o [i Hi]%list_elem_of_lookup Ho Hwc; pose proof (Hrk _ _ Hi);
    destruct (score_parts c g th nst tst Hs i o) as (a' & t' & Hsc & Hpos' & Hun & Hfree & _);
    assert (candidate_score_z c g th nst tst i o ≤ candidate_score_z c g th nst tst rank w)%Z as Hle
      by (rewrite <- !(candidate_score_small c g th cands) by done; destruct (Hbest i o Hi); lia);
    rewrite Hw, Hsc in Hle; revert Hle; unfold NO_HISTORY_SCORE, BASE_SCORE, PRIORITY_WEIGHT.
  - rewrite bool_decide_eq_true_2, bool_decide_eq_false_2 by done. destruct (Hun Ho). lia.
  - destruct (Hfree Ho). specialize (Hheld Hwc).
    rewrite (bool_decide_eq_false_2 (untried c g nst tst w)).
    + case_bool_decide; lia.
    + intros [Hu1 Hu2]. destruct Hwc as [(x & Hx & _)|(x & Hx & _)]; congruence.
Qed.

(** ** The shadow score *)
Definition stats_balanced_score_z (priority : Z) (rank : nat) (stats : option MatrixNodeStats)
    (target_stats : option MatrixTargetNodeStats) : Z :=
  (match target_stats, stats with
   | None, None => NO_HISTORY_SCORE
   | Some s, _ => BASE_SCORE - penalty_z (tn_stats s)
   | None, Some s => BASE_SCORE - penalty_z s
   end - priority * PRIORITY_WEIGHT - Z.of_nat rank)%Z.

Lemma balanced_penalty_exact score s :
  row_bounded s → (- 2 ^ 62 < score < 2 ^ 62)%Z → balanced_penalty score s = (score - penalty_z s)%Z.
Proof.
  intros Hb Hs. unfold balanced_penalty. rewrite latency_penalty_exact by done.
  pose proof (latency_z_bounds s Hb). destruct Hb as (H1 & H2 & H3 & _). unfold in_u in *.
  unfold u64_penalty. rewrite !to_i64_small by lia.
  unfold isub, imul, ERROR_RATE_WEIGHT, LATENCY_WEIGHT, ACTIVE_SESSION_WEIGHT, RECENT_USAGE_WEIGHT, penalty_z.
  no_wrap. lia.
Qed.

Lemma shadow_score_exact priority rank stats target :
  in_u 32 priority → in_u 40 (Z.of_nat rank) →
  option_bounded stats → option_bounded (option_map tn_stats target) →
  stats_balanced_score priority rank stats target = stats_balanced_score_z priority rank stats target.
Proof.
  intros Hp Hr Hs Ht. unfold in_u in *. unfold stats_balanced_score, stats_balanced_score_z.
  assert (to_i64 (Z.of_nat rank) = Z.of_nat rank) as -> by (apply to_i64_small; lia).
  assert (iadd (imul priority PRIORITY_WEIGHT) (Z.of_nat rank) = priority * PRIORITY_WEIGHT + Z.of_nat rank)%Z as ->.
  { unfold iadd, imul, PRIORITY_WEIGHT. no_wrap. lia. }
  unfold isub, NO_HISTORY_SCORE, BASE_SCORE, PRIORITY_WEIGHT.
  destruct target as [t|], stats as [s|]; no_wrap;
    rewrite ?balanced_penalty_exact; first [lia | by apply Ht | by apply Hs | idtac].
Qed.

(** scores are exact: with 32-bit priorities, fewer than 2^29 candidates and
    fewer than 2^40 sessions per row, no operation of the active or of the shadow
    score overflows [i64]; both are the integer expressions of their weights. *)
Theorem scores_exact c g th cands nst tst rank cand :
  inputs_bounded cands nst tst → cands !! rank = Some cand →
  candidate_score c g th nst tst rank cand = candidate_score_z c g th nst tst rank cand ∧
  (let stats := matching_node_stats g (cand_node_id cand) nst in
   let target := matching_target_stats c g (cand_node_id cand) tst in
   stats_balanced_score (cand_priority cand) rank stats target
   = stats_balanced_score_z (cand_priority cand) rank stats target).
Proof.
  intros Hb Hr. split; [by eapply candidate_score_small|].
  destruct Hb as (Hp & Hl & Hn & Ht). apply shadow_score_exact.
  - apply Hp. by eapply list_elem_of_lookup_2.
  - apply lookup_lt_Some in Hr. unfold in_u in *. lia.
  - by apply matching_node_bounded.
  - by apply matching_target_bounded.
Qed.

(** ** The shadow decision *)
#[export] Instance shadow_cmp_preorder : CmpPreorder shadow_cmp.
Proof.
  exact (lex_preorder (flip (cmp (A:=Z))) (cmp (A:=string)) sc_score sc_node_id
           (flip_ord_laws _ Z_ord_laws) string_ord_laws).
Qed.

(** A candidate of the record before the winner is marked. *)
Definition unmarked (x y : MatrixShadowCandidate) : Prop :=
  sc_node_id x = sc_node_id y ∧ sc_priority x = sc_priority y ∧ sc_score x = sc_score y ∧
  sc_reason x = sc_reason y ∧ sc_selected_by_actual x = sc_selected_by_actual y.

(** the shadow record is faithful: it lists every candidate once with its
    score, marks the actual node, orders the candidates by descending score and
    then node id, marks exactly the first as the shadow choice, reports its node,
    and flags a difference iff that node is not the one actually used. *)
Theorem shadow_decision_faithful now c g actual cands nst tst :
  let d := score_candidates now c g actual cands nst tst in
  let raw := shadow_candidates c g actual cands nst tst in
  (∃ scored, scored ≡ₚ raw ∧ StronglySorted (λ x y, cmp_leb shadow_cmp x y = true) scored ∧
     Forall2 unmarked (sd_candidates d) scored) ∧
  (List.map sc_selected_by_shadow (sd_candidates d) =
     match cands with [] => [] | _ :: cs => true :: List.map (λ _, false) cs end) ∧
  sd_shadow_top_node_id d = option_map sc_node_id (head (sd_candidates d)) ∧
  (sd_shadow_differs_from_actual d = true ↔
     ∃ n, sd_shadow_top_node_id d = Some n ∧ n ≠ decision_node_id actual).
Proof.
  intros d raw. unfold d, score_candidates; cbn. fold raw.
  assert (sort_by shadow_cmp raw ≡ₚ raw) as Hperm by apply sort_by_perm.
  assert (Forall (λ x, sc_selected_by_shadow x = false) (sort_by shadow_cmp raw)) as Hmark.
  { rewrite Hperm. apply Forall_lookup. intros i x Hx. unfold raw, shadow_candidates in Hx.
    rewrite list_lookup_imap in Hx. by destruct (cands !! i); [injection Hx as <-|]. }
  assert (length (sort_by shadow_cmp raw) = length cands) as Hlen.
  { rewrite length_sort_by. apply length_imap. }
  assert (∀ l : list MatrixShadowCandidate, Forall2 unmarked l l) as Hrefl.
  { intros l. induction l; by constructor. }
  split_and!.
  - exists (sort_by shadow_cmp raw). split_and!; [done|apply sort_by_sorted, _|].
    destruct (sort_by shadow_cmp raw); constructor; done.
  - destruct (sort_by shadow_cmp raw) as [|x l], cands as [|cand cs]; try done.
    cbn in *. apply Forall_cons in Hmark as [_ Hmark]. f_equal. injection Hlen as Hlen. clear -Hmark Hlen.
    revert cs Hlen. induction Hmark as [|y l Hy _ IH]; intros [|z cs]; cbn; try done.
    intros [= Hl]. by rewrite Hy, (IH cs).
  - by destruct (sort_by shadow_cmp raw).
  - destruct (sort_by shadow_cmp raw) as [|x l]; cbn; [by split; [|intros (n & ? & _)]|].
    rewrite negb_true_iff, String.eqb_neq. split; [intros Hne; by exists (sc_node_id x)|].
    by intros (n & [= <-] & Hne).
Qed.

(** ** A concrete choice *)
Definition demo_context : SelectionContext :=
  {| ctx_session_id := 1; ctx_inbound := InboundTcp;
     ctx_target := fixed_upstream (socket_addr (V4 16843009) 443) |}.

Definition demo_candidates : list MatrixCandidateInput :=
  [{| cand_node_id := "n1"; cand_priority := 0 |}; {| cand_node_id := "n2"; cand_priority := 5 |}].

Definition demo_rows : list MatrixNodeStats :=
  [acc_finish (fold_left acc_record demo_sessions default_acc) "GitHub" "n1" "node-id:n1"].

Lemma demo_rows_small : rows_small demo_rows [].
Proof.
  split; [|by intros s ?%elem_of_nil]. intros s ->%list_elem_of_singleton.
  split; [|split_and!; vm_compute; congruence].
  split_and!; try (split; vm_compute; congruence). by intros l.
Defined.

Lemma demo_inputs_bounded : inputs_bounded demo_candidates demo_rows [].
Proof.
  split_and!.
  - intros cand Hc. apply list_elem_of_In in Hc.
    destruct Hc as [<-|[<-|[]]]; split; vm_compute; congruence.
  - split; vm_compute; congruence.
  - intros s Hs. by apply demo_rows_small.
  - by intros s ?%elem_of_nil.
Defined.

Lemma active_prefers_usable_witness :
  select_active_candidate demo_context "GitHub" default_thresholds demo_candidates demo_rows []
    = Some "n2" ∧
  ∃ w, w ∈ demo_candidates ∧ cand_node_id w = "n2".
Proof.
  assert (select_active_candidate demo_context "GitHub" default_thresholds demo_candidates demo_rows []
    = Some "n2") as H by (vm_compute; reflexivity).
  split; [exact H|].
  destruct (active_prefers_usable _ _ _ _ _ _ _ H demo_inputs_bounded demo_rows_small)
    as (w & Hw & Hid & _).
  exists w. split; [exact Hw|exact Hid].
Defined.

Lemma scores_exact_witness :
  candidate_score demo_context "GitHub" default_thresholds demo_rows [] 0
    {| cand_node_id := "n1"; cand_priority := 0 |} = (-1000012500020)%Z.
Proof.
  rewrite (proj1 (scores_exact demo_context "GitHub" default_thresholds demo_candidates demo_rows [] 0 _
    demo_inputs_bounded eq_refl)).
  vm_compute. reflexivity.
Defined.
