(* ===== verification/Packet.v ===== *)
(** * Packet: flows of captured IP packets

    [crates/dynet-capture/src/packet.rs] and [flow.rs]: the parser of IPv4 and IPv6
    packets, indexing and slicing as the code does, and the flows that it makes. *)
From Stdlib Require Import ZArith Lia Strings.Byte.
From stdpp Require Import base list numbers option strings.
From S2P Require Import Prelude Net.
Local Open Scope nat_scope.

(** ** flow.rs *)
Inductive TargetCaptureSource := PacketDestination | ObservedDns.
Inductive CapturedTransport := TDnsUdp | TDnsTcp | TTcp | TUdp.
Record CapturedTarget := { target_address : SocketAddr; target_domain : option string; target_source : TargetCaptureSource }.
Record CapturedFlow := { flow_id : Z; peer : option IpAddr; target : CapturedTarget; flow_transport : CapturedTransport }.

Definition packet_destination (a : SocketAddr) : CapturedTarget :=
  {| target_address := a; target_domain := None; target_source := PacketDestination |}.
Definition observed_dns (a : SocketAddr) (domain : string) : CapturedTarget :=
  {| target_address := a; target_domain := Some domain; target_source := ObservedDns |}.

(** ** packet.rs *)
Definition IPV4_MIN_HEADER_LEN : nat := 20.
Definition IPV6_HEADER_LEN : nat := 40.
Definition TCP_PROTOCOL : Z := 6.
Definition UDP_PROTOCOL : Z := 17.
Definition DNS_PORT : Z := 53.

Record PacketFlow := { pf_source : SocketAddr; pf_destination : SocketAddr; pf_transport : CapturedTransport }.

Inductive PacketParseError :=
| TooShort
| UnsupportedVersion (version : Z)
| InvalidHeaderLength
| TruncatedPacket
| UnsupportedProtocol (protocol : Z)
| MissingTransportHeader.

Definition into_captured_flow (f : PacketFlow) (id : Z) : CapturedFlow :=
  {| flow_id := id; peer := Some (sa_ip (pf_source f)); target := packet_destination (pf_destination f); flow_transport := pf_transport f |}.

Abbreviation parse := (outcome PacketParseError).

Definition classify_tcp (source_port destination_port : Z) : CapturedTransport :=
  if (source_port =? DNS_PORT)%Z || (destination_port =? DNS_PORT)%Z then TDnsTcp else TTcp.
Definition classify_udp (source_port destination_port : Z) : CapturedTransport :=
  if (source_port =? DNS_PORT)%Z || (destination_port =? DNS_PORT)%Z then TDnsUdp else TUdp.

Definition parse_ports (packet : bytes) : parse (Z * Z) :=
  if length packet <? 4 then Err MissingTransportHeader
  else
    a ← index packet 0; b ← index packet 1; c ← index packet 2; d ← index packet 3;
    Ok (from_be [a; b], from_be [c; d]).

(** The match on the protocol, the same in both parsers. *)
Definition flow_of_transport (protocol : Z) (source destination : IpAddr) (transport : bytes) : parse PacketFlow :=
  if (protocol =? TCP_PROTOCOL)%Z then
    '(s, d) ← parse_ports transport;
    Ok {| pf_source := socket_addr source s; pf_destination := socket_addr destination d; pf_transport := classify_tcp s d |}
  else if (protocol =? UDP_PROTOCOL)%Z then
    '(s, d) ← parse_ports transport;
    Ok {| pf_source := socket_addr source s; pf_destination := socket_addr destination d; pf_transport := classify_udp s d |}
  else Err (UnsupportedProtocol protocol).

Definition parse_ipv4_packet (packet : bytes) : parse PacketFlow :=
  if length packet <? IPV4_MIN_HEADER_LEN then Err TooShort
  else
    b0 ← index packet 0;
    let version := Z.shiftr (b2z b0) 4 in
    if negb (version =? 4)%Z then Err (UnsupportedVersion version)
    else
      let ihl := Z.to_nat (Z.land (b2z b0) 15) * 4 in
      if ihl <? IPV4_MIN_HEADER_LEN then Err InvalidHeaderLength
      else if length packet <? ihl then Err TruncatedPacket
      else
        b2 ← index packet 2; b3 ← index packet 3;
        let total_len := Z.to_nat (from_be [b2; b3]) in
        if (total_len <? ihl) || (length packet <? total_len) then Err TruncatedPacket
        else
          protocol ← index packet 9;
          source ← slice packet 12 16;
          destination ← slice packet 16 20;
          transport ← slice packet ihl total_len;
          flow_of_transport (b2z protocol) (ipv4_from source) (ipv4_from destination) transport.

Definition parse_ipv6_packet (packet : bytes) : parse PacketFlow :=
  if length packet <? IPV6_HEADER_LEN then Err TooShort
  else
    b0 ← index packet 0;
    let version := Z.shiftr (b2z b0) 4 in
    if negb (version =? 6)%Z then Err (UnsupportedVersion version)
    else
      b4 ← index packet 4; b5 ← index packet 5;
      let total_len := IPV6_HEADER_LEN + Z.to_nat (from_be [b4; b5]) in
      if length packet <? total_len then Err TruncatedPacket
      else
        protocol ← index packet 6;
        source ← slice packet 8 24;
        destination ← slice packet 24 40;
        transport ← slice packet IPV6_HEADER_LEN total_len;
        flow_of_transport (b2z protocol) (ipv6_from source) (ipv6_from destination) transport.

Definition parse_ip_packet (packet : bytes) : parse PacketFlow :=
  match packet !! 0 with
  | None => Err TooShort
  | Some first =>
      let version := Z.shiftr (b2z first) 4 in
      if (version =? 4)%Z then parse_ipv4_packet packet
      else if (version =? 6)%Z then parse_ipv6_packet packet
      else Err (UnsupportedVersion version)
  end.

(** ** Packets, by their fields

    [other] fields are the bytes that the parser does not look at. *)
Record Datagram := {
  d_protocol : byte; d_source : IpAddr; d_destination : IpAddr; d_sport : Z; d_dport : Z; d_payload : bytes; d_trailing : bytes }.

Definition datagram_ok (d : Datagram) : Prop :=
  (b2z (d_protocol d) = TCP_PROTOCOL ∨ b2z (d_protocol d) = UDP_PROTOCOL) ∧ wf_ip (d_source d) ∧ wf_ip (d_destination d) ∧
  in_u 16 (d_sport d) ∧ in_u 16 (d_dport d).

Definition body_of (d : Datagram) : bytes := to_be 2 (d_sport d) ++ to_be 2 (d_dport d) ++ d_payload d.

Definition flow_of (d : Datagram) : PacketFlow := {|
  pf_source := socket_addr (d_source d) (d_sport d);
  pf_destination := socket_addr (d_destination d) (d_dport d);
  pf_transport := (if (b2z (d_protocol d) =? TCP_PROTOCOL)%Z then classify_tcp else classify_udp) (d_sport d) (d_dport d) |}.

(** An IPv4 packet: header length in words, options, and what else is in the header. *)
Inductive ipv4_packet : Datagram → bytes → Prop :=
| Ipv4Packet d src dst ihl tos other1 other2 options :
    d_source d = V4 src → d_destination d = V4 dst → (5 ≤ ihl < 16)%nat → length other1 = 5 → length other2 = 2 →
    length options = 4 * (ihl - 5) → in_u 16 (Z.of_nat (4 * ihl + length (body_of d))) →
    ipv4_packet d
      ([z2b (64 + Z.of_nat ihl); tos] ++ to_be 2 (Z.of_nat (4 * ihl + length (body_of d))) ++ other1 ++ [d_protocol d] ++ other2 ++
       octets (d_source d) ++ octets (d_destination d) ++ options ++ body_of d ++ d_trailing d).

Inductive ipv6_packet : Datagram → bytes → Prop :=
| Ipv6Packet d src dst low other hop :
    d_source d = V6 src → d_destination d = V6 dst → (0 ≤ low < 16)%Z → length other = 3 → in_u 16 (Z.of_nat (length (body_of d))) →
    ipv6_packet d
      ([z2b (96 + low)] ++ other ++ to_be 2 (Z.of_nat (length (body_of d))) ++ [d_protocol d; hop] ++
       octets (d_source d) ++ octets (d_destination d) ++ body_of d ++ d_trailing d).

(** ** Lemmas *)
Lemma index_ok_lt {E} (l : bytes) i : i < length l → ∃ b, l !! i = Some b ∧ index (E:=E) l i = Ok b.
Proof. intros Hi. unfold index. destruct (lookup_lt_is_Some_2 l i Hi) as [b ->]. by exists b. Qed.

Lemma nibbles b : b = z2b (16 * Z.shiftr (b2z b) 4 + Z.land (b2z b) 15) ∧ (0 ≤ Z.land (b2z b) 15 < 16)%Z.
Proof. destruct b; vm_compute; repeat split; discriminate. Qed.

Lemma first_byte hi lo : (0 ≤ hi < 16)%Z → (0 ≤ lo < 16)%Z →
  Z.shiftr (b2z (z2b (16 * hi + lo))) 4 = hi ∧ Z.land (b2z (z2b (16 * hi + lo))) 15 = lo.
Proof.
  intros Hh Hl. rewrite b2z_z2b, (Z.mod_small _ 256) by lia. rewrite Z.shiftr_div_pow2 by lia. change (2 ^ 4)%Z with 16%Z. split; [Z.div_mod_to_equations; lia|].
  change 15%Z with (Z.ones 4). rewrite Z.land_ones by lia. change (2 ^ 4)%Z with 16%Z. Z.div_mod_to_equations; lia.
Qed.

Lemma four_bytes (l : bytes) : 4 ≤ length l → ∃ a b c d r, l = [a; b; c; d] ++ r.
Proof. destruct l as [|a [|b [|c [|d r]]]]; cbn; intros; try lia. by exists a, b, c, d, r. Qed.

Lemma parse_ports_iff l s d : parse_ports l = Ok (s, d) ↔ ∃ rest, in_u 16 s ∧ in_u 16 d ∧ l = to_be 2 s ++ to_be 2 d ++ rest.
Proof.
  unfold parse_ports. split.
  - destruct (Nat.ltb_spec (length l) 4) as [|Hl]; [done|]. destruct (four_bytes l Hl) as (a & b & c & e & r & ->).
    cbn [app index lookup list_lookup expect mbind outcome_bind]. intros H. exists r.
    assert (s = from_be [a; b]) as -> by congruence. assert (d = from_be [c; e]) as -> by congruence.
    split; [exact (from_be_range [a; b])|]. split; [exact (from_be_range [c; e])|].
    by rewrite (to_be_from_be_n 2 [a; b]), (to_be_from_be_n 2 [c; e]).
  - intros (rest & Hs & Hd & ->). pose proof (from_be_to_be_u16 s Hs) as Fs. pose proof (from_be_to_be_u16 d Hd) as Fd.
    pose proof (length_to_be 2 s) as Ls. pose proof (length_to_be 2 d) as Ld. revert Fs Fd Ls Ld. generalize (to_be 2 s) (to_be 2 d).
    intros [|a [|b [|]]] [|c [|e [|]]] Fs Fd; try done. intros _ _. cbn [app length].
    destruct (Nat.ltb_spec (S (S (S (S (length rest))))) 4); [lia|]. cbn [index lookup list_lookup expect mbind outcome_bind]. by rewrite Fs, Fd.
Qed.

Lemma flow_of_transport_iff p src dst t f :
  flow_of_transport p src dst t = Ok f ↔
  ∃ s d rest, in_u 16 s ∧ in_u 16 d ∧ t = to_be 2 s ++ to_be 2 d ++ rest ∧ (p = TCP_PROTOCOL ∨ p = UDP_PROTOCOL) ∧
    f = {| pf_source := socket_addr src s; pf_destination := socket_addr dst d;
           pf_transport := (if (p =? TCP_PROTOCOL)%Z then classify_tcp else classify_udp) s d |}.
Proof.
  unfold flow_of_transport. split.
  - destruct (Z.eqb_spec p TCP_PROTOCOL) as [->|_]; [|destruct (Z.eqb_spec p UDP_PROTOCOL) as [->|_]; [|done]].
    all: intros ([s d] & (rest & Hs & Hd & ->)%parse_ports_iff & [= <-])%outcome_bind_Ok_inv; exists s, d, rest; by auto 6.
  - intros (s & d & rest & Hs & Hd & -> & Hp & ->). assert (parse_ports (to_be 2 s ++ to_be 2 d ++ rest) = Ok (s, d)) as ->
      by (apply parse_ports_iff; by exists rest). by destruct Hp as [-> | ->].
Qed.

Lemma no_panic_ports l : no_panic (parse_ports l).
Proof.
  unfold parse_ports. destruct (Nat.ltb_spec (length l) 4) as [|Hl]; [done|]. destruct (four_bytes l Hl) as (a & b & c & e & r & ->). done.
Qed.

Lemma no_panic_transport p a b t : no_panic (flow_of_transport p a b t).
Proof. unfold flow_of_transport. repeat case_match; try done; (apply no_panic_bind; [apply no_panic_ports|by intros []]). Qed.

Lemma slice_parts {E} (a l r : bytes) i j : length a = i → length l = j - i → i ≤ j → slice (E:=E) (a ++ l ++ r) i j = Ok l.
Proof.
  intros Ha Hl Hij. unfold slice. rewrite get_range_Some by (rewrite ?length_app; lia). cbn [expect].
  rewrite drop_app_length' by done. by rewrite take_app_length' by lia.
Qed.

Lemma index_at_parts {E} (a r : bytes) b i : length a = i → index (E:=E) (a ++ b :: r) i = Ok b.
Proof. intros <-. unfold index. by rewrite list_lookup_middle. Qed.

Lemma cut_at {A} n (l : list A) : n ≤ length l → ∃ a b, l = a ++ b ∧ length a = n.
Proof. intros H. exists (take n l), (drop n l). rewrite take_drop, length_take. split; [done|lia]. Qed.

(** The parsers on a header split into its fields. *)
Section ipv4.
Context (b0 b1 b2 b3 pr : byte) (o1 o2 src dst rest : bytes).
Hypothesis Ho1 : length o1 = 5.
Hypothesis Ho2 : length o2 = 2.
Hypothesis Hsrc : length src = 4.
Hypothesis Hdst : length dst = 4.
Let p := [b0; b1; b2; b3] ++ o1 ++ [pr] ++ o2 ++ src ++ dst ++ rest.
Let ihl := Z.to_nat (Z.land (b2z b0) 15) * 4.
Let total := Z.to_nat (from_be [b2; b3]).

Lemma ipv4_length : length p = 20 + length rest.
Proof. unfold p. rewrite !length_app. cbn [length]. lia. Qed.

Lemma parse_ipv4_parts :
  parse_ipv4_packet p =
    if negb (Z.shiftr (b2z b0) 4 =? 4)%Z then Err (UnsupportedVersion (Z.shiftr (b2z b0) 4))
    else if ihl <? 20 then Err InvalidHeaderLength
    else if 20 + length rest <? ihl then Err TruncatedPacket
    else if (total <? ihl) || (20 + length rest <? total) then Err TruncatedPacket
    else flow_of_transport (b2z pr) (ipv4_from src) (ipv4_from dst) (take (total - ihl) (drop (ihl - 20) rest)).
Proof.
  pose proof ipv4_length as Hl. unfold parse_ipv4_packet, IPV4_MIN_HEADER_LEN. rewrite Hl.
  destruct (Nat.ltb_spec (20 + length rest) 20); [lia|].
  assert (index (E:=PacketParseError) p 0 = Ok b0) as -> by done. cbn [mbind outcome_bind]. destruct (negb _); [done|]. fold ihl.
  destruct (Nat.ltb_spec ihl 20) as [|Hi]; [done|]. destruct (Nat.ltb_spec (20 + length rest) ihl) as [|Hj]; [done|].
  assert (index (E:=PacketParseError) p 2 = Ok b2) as -> by done. assert (index (E:=PacketParseError) p 3 = Ok b3) as -> by done.
  cbn [mbind outcome_bind]. fold total. destruct (Nat.ltb_spec total ihl) as [|Ht]; [done|]. destruct (Nat.ltb_spec (20 + length rest) total) as [|Hu]; [done|]. cbn [orb].
  assert (index (E:=PacketParseError) p 9 = Ok pr) as ->.
  { unfold p. rewrite (app_assoc [b0; b1; b2; b3]). apply index_at_parts. rewrite length_app, Ho1. done. }
  cbn [mbind outcome_bind]. assert (slice (E:=PacketParseError) p 12 16 = Ok src) as ->.
  { unfold p. rewrite (app_assoc _ o1), (app_assoc _ [pr]), (app_assoc _ o2). apply slice_parts; rewrite ?length_app, ?Ho1, ?Ho2, ?Hsrc; cbn [length]; lia. }
  cbn [mbind outcome_bind]. assert (slice (E:=PacketParseError) p 16 20 = Ok dst) as ->.
  { unfold p. rewrite (app_assoc _ o1), (app_assoc _ [pr]), (app_assoc _ o2), (app_assoc _ src). apply slice_parts; rewrite ?length_app, ?Ho1, ?Ho2, ?Hsrc, ?Hdst; cbn [length]; lia. }
  cbn [mbind outcome_bind]. assert (slice (E:=PacketParseError) p ihl total = Ok (take (total - ihl) (drop (ihl - 20) rest))) as ->; [|done].
  unfold slice. rewrite get_range_Some by lia. cbn [expect]. do 2 f_equal. unfold p.
  rewrite (app_assoc _ o1), (app_assoc _ [pr]), (app_assoc _ o2), (app_assoc _ src), (app_assoc _ dst).
  rewrite drop_app_ge by (rewrite !length_app; cbn [length]; lia). f_equal. rewrite !length_app, Ho1, Ho2, Hsrc, Hdst. cbn [length]. lia.
Qed.
End ipv4.

Section ipv6.
Context (b0 b4 b5 pr hop : byte) (o src dst rest : bytes).
Hypothesis Ho : length o = 3.
Hypothesis Hsrc : length src = 16.
Hypothesis Hdst : length dst = 16.
Let p := [b0] ++ o ++ [b4; b5; pr; hop] ++ src ++ dst ++ rest.
Let total := 40 + Z.to_nat (from_be [b4; b5]).

Lemma ipv6_length : length p = 40 + length rest.
Proof. unfold p. rewrite !length_app. cbn [length]. lia. Qed.

Lemma parse_ipv6_parts :
  parse_ipv6_packet p =
    if negb (Z.shiftr (b2z b0) 4 =? 6)%Z then Err (UnsupportedVersion (Z.shiftr (b2z b0) 4))
    else if 40 + length rest <? total then Err TruncatedPacket
    else flow_of_transport (b2z pr) (ipv6_from src) (ipv6_from dst) (take (total - 40) rest).
Proof.
  pose proof ipv6_length as Hl. unfold parse_ipv6_packet, IPV6_HEADER_LEN. rewrite Hl.
  destruct (Nat.ltb_spec (40 + length rest) 40); [lia|].
  assert (index (E:=PacketParseError) p 0 = Ok b0) as -> by done. cbn [mbind outcome_bind]. destruct (negb _); [done|].
  assert (∀ i b, [b4; b5; pr; hop] !! i = Some b → index (E:=PacketParseError) p (4 + i) = Ok b) as Hix.
  { intros i b Hi. unfold index, p. rewrite (app_assoc [b0]), lookup_app_r by (rewrite length_app, Ho; cbn; lia).
    rewrite length_app, Ho. cbn [length]. replace (4 + i - (1 + 3)) with i by lia. by rewrite (lookup_app_l_Some _ _ _ _ Hi). }
  pose proof (Hix 0 b4 eq_refl) as H4. pose proof (Hix 1 b5 eq_refl) as H5. pose proof (Hix 2 pr eq_refl) as H6. cbn [Nat.add] in H4, H5, H6.
  rewrite H4, H5. cbn [mbind outcome_bind]. fold total. destruct (Nat.ltb_spec (40 + length rest) total) as [|Hu]; [done|].
  rewrite H6. cbn [mbind outcome_bind]. assert (slice (E:=PacketParseError) p 8 24 = Ok src) as ->.
  { unfold p. rewrite (app_assoc _ o), (app_assoc _ [b4; b5; pr; hop]). apply slice_parts; rewrite ?length_app, ?Ho, ?Hsrc; cbn [length]; lia. }
  cbn [mbind outcome_bind]. assert (slice (E:=PacketParseError) p 24 40 = Ok dst) as ->.
  { unfold p. rewrite (app_assoc _ o), (app_assoc _ [b4; b5; pr; hop]), (app_assoc _ src). apply slice_parts; rewrite ?length_app, ?Ho, ?Hsrc, ?Hdst; cbn [length]; lia. }
  cbn [mbind outcome_bind]. assert (slice (E:=PacketParseError) p 40 total = Ok (take (total - 40) rest)) as ->; [|done].
  unfold slice. rewrite get_range_Some by (unfold total in *; lia). cbn [expect]. do 2 f_equal. unfold p.
  rewrite (app_assoc _ o), (app_assoc _ [b4; b5; pr; hop]), (app_assoc _ src), (app_assoc _ dst).
  apply drop_app_length'. rewrite !length_app, Ho, Hsrc, Hdst. done.
Qed.
End ipv6.

Lemma split_ipv4 (p : bytes) : 20 ≤ length p → ∃ b0 b1 b2 b3 pr o1 o2 src dst rest,
  p = [b0; b1; b2; b3] ++ o1 ++ [pr] ++ o2 ++ src ++ dst ++ rest ∧ length o1 = 5 ∧ length o2 = 2 ∧ length src = 4 ∧ length dst = 4.
Proof.
  intros H. destruct (four_bytes p) as (b0 & b1 & b2 & b3 & r & ->); [lia|]. rewrite length_app in H. cbn [length] in H.
  destruct (cut_at 5 r) as (o1 & r1 & -> & ?); [lia|]. rewrite length_app in H. destruct r1 as [|pr r1]; [cbn in H; lia|]. cbn [length] in H.
  destruct (cut_at 2 r1) as (o2 & r2 & -> & ?); [lia|]. rewrite length_app in H. destruct (cut_at 4 r2) as (src & r3 & -> & ?); [lia|]. rewrite length_app in H.
  destruct (cut_at 4 r3) as (dst & rest & -> & ?); [lia|]. by exists b0, b1, b2, b3, pr, o1, o2, src, dst, rest.
Qed.

Lemma split_ipv6 (p : bytes) : 40 ≤ length p → ∃ b0 b4 b5 pr hop o src dst rest,
  p = [b0] ++ o ++ [b4; b5; pr; hop] ++ src ++ dst ++ rest ∧ length o = 3 ∧ length src = 16 ∧ length dst = 16.
Proof.
  intros H. destruct p as [|b0 p]; [cbn in H; lia|]. cbn [length] in H. destruct (cut_at 3 p) as (o & r & -> & ?); [lia|]. rewrite length_app in H.
  destruct (four_bytes r) as (b4 & b5 & pr & hop & r1 & ->); [lia|]. rewrite length_app in H. cbn [length] in H.
  destruct (cut_at 16 r1) as (src & r2 & -> & ?); [lia|]. rewrite length_app in H. destruct (cut_at 16 r2) as (dst & rest & -> & ?); [lia|].
  by exists b0, b4, b5, pr, hop, o, src, dst, rest.
Qed.

Lemma no_panic_ip p : no_panic (parse_ip_packet p).
Proof.
  unfold parse_ip_packet. destruct (p !! 0); [|done]. cbn zeta. destruct (_ =? 4)%Z; [|destruct (_ =? 6)%Z; [|done]].
  - destruct (decide (20 ≤ length p)) as [Hp|Hp].
    + destruct (split_ipv4 p Hp) as (b0 & b1 & b2 & b3 & pr & o1 & o2 & src & dst & rest & -> & ? & ? & ? & ?). rewrite parse_ipv4_parts by done.
      repeat (match goal with |- no_panic (if ?b then _ else _) => destruct b; [done|] end). apply no_panic_transport.
    + unfold parse_ipv4_packet, IPV4_MIN_HEADER_LEN. destruct (Nat.ltb_spec (length p) 20); [done|lia].
  - destruct (decide (40 ≤ length p)) as [Hp|Hp].
    + destruct (split_ipv6 p Hp) as (b0 & b4 & b5 & pr & hop & o & src & dst & rest & -> & ? & ? & ?). rewrite parse_ipv6_parts by done.
      repeat (match goal with |- no_panic (if ?b then _ else _) => destruct b; [done|] end). apply no_panic_transport.
    + unfold parse_ipv6_packet, IPV6_HEADER_LEN. destruct (Nat.ltb_spec (length p) 40); [done|lia].
Qed.

(** ** The parsers and the fields *)
Lemma b2z_z2b_small z : (0 ≤ z < 256)%Z → b2z (z2b z) = z.
Proof. intros Hz. rewrite b2z_z2b. by apply Z.mod_small. Qed.

Lemma length_body d : length (body_of d) = 4 + length (d_payload d).
Proof. unfold body_of. rewrite !length_app, !length_to_be. lia. Qed.

Lemma flow_of_body d : datagram_ok d →
  flow_of_transport (b2z (d_protocol d)) (d_source d) (d_destination d) (body_of d) = Ok (flow_of d).
Proof. intros (Hp & _ & _ & Hs & Hd). apply flow_of_transport_iff. by exists (d_sport d), (d_dport d), (d_payload d). Qed.

Lemma u16_of_two z : in_u 16 z → ∃ a b, to_be 2 z = [a; b] ∧ from_be [a; b] = z.
Proof.
  intros Hz. pose proof (from_be_to_be_u16 z Hz) as F. pose proof (length_to_be 2 z) as L. revert F L. generalize (to_be 2 z).
  intros [|a [|b [|]]] F L; try done. by exists a, b.
Qed.

Lemma parse_ipv4_complete d p : datagram_ok d → ipv4_packet d p → parse_ipv4_packet p = Ok (flow_of d).
Proof.
  intros Hok Hp. revert Hok. destruct Hp as [d' src dst ihl tos o1 o2 options Hs Hd Hi Ho1 Ho2 Hopt Htot]. intros Hok. pose proof (length_body d') as Hb.
  destruct (u16_of_two _ Htot) as (t1 & t2 & Et & Ft). rewrite Et. pose proof (first_byte 4 (Z.of_nat ihl)) as [F4 Fi]; [lia|lia|].
  change (16 * 4)%Z with 64%Z in F4, Fi. pose proof Hok as (_ & Wsrc & Wdst & _). rewrite Hs in Wsrc. rewrite Hd in Wdst.
  cbn [app]. change (?a :: ?b :: ?c :: ?e :: ?l) with ([a; b; c; e] ++ l). change (d_protocol d' :: ?l) with ([d_protocol d'] ++ l).
  rewrite parse_ipv4_parts by (done || (rewrite ?Hs, ?Hd, length_octets; done)). rewrite F4, Fi, Ft, !Nat2Z.id. cbn [Z.eqb Pos.eqb negb].
  rewrite !length_app, Hopt.
  destruct (Nat.ltb_spec (ihl * 4) 20); [lia|]. destruct (Nat.ltb_spec (20 + (4 * (ihl - 5) + (length (body_of d') + length (d_trailing d')))) (ihl * 4)); [lia|].
  destruct (Nat.ltb_spec (4 * ihl + length (body_of d')) (ihl * 4)); [lia|].
  destruct (Nat.ltb_spec (20 + (4 * (ihl - 5) + (length (body_of d') + length (d_trailing d')))) (4 * ihl + length (body_of d'))); [lia|]. cbn [orb].
  rewrite drop_app_length' by lia. rewrite take_app_length' by lia. rewrite Hs, Hd, ipv4_from_octets, ipv4_from_octets by done. rewrite <- Hs, <- Hd. by apply flow_of_body.
Qed.

Lemma parse_ipv6_complete d p : datagram_ok d → ipv6_packet d p → parse_ipv6_packet p = Ok (flow_of d).
Proof.
  intros Hok Hp. revert Hok. destruct Hp as [d' src dst low o hop Hs Hd Hlow Ho Htot]. intros Hok. pose proof (length_body d') as Hb.
  destruct (u16_of_two _ Htot) as (t1 & t2 & Et & Ft). rewrite Et. pose proof (first_byte 6 low) as [F6 _]; [lia|lia|].
  change (16 * 6)%Z with 96%Z in F6. pose proof Hok as (_ & Wsrc & Wdst & _). rewrite Hs in Wsrc. rewrite Hd in Wdst.
  rewrite (app_assoc [t1; t2]). cbn [app]. change (t1 :: t2 :: ?c :: ?e :: ?l) with ([t1; t2; c; e] ++ l). change (?a :: o ++ ?l) with ([a] ++ o ++ l).
  rewrite parse_ipv6_parts by (done || (rewrite ?Hs, ?Hd, length_octets; done)). rewrite F6, Ft, Nat2Z.id. cbn [Z.eqb Pos.eqb negb].
  rewrite length_app. destruct (Nat.ltb_spec (40 + (length (body_of d') + length (d_trailing d'))) (40 + length (body_of d'))); [lia|].
  rewrite take_app_length' by lia. rewrite Hs, Hd, ipv6_from_octets, ipv6_from_octets by done. rewrite <- Hs, <- Hd. by apply flow_of_body.
Qed.

Lemma cut_rest {A} (rest : list A) i n : rest = take i rest ++ take n (drop i rest) ++ drop (i + n) rest.
Proof. rewrite <- drop_drop, (take_drop n). by rewrite take_drop. Qed.

Lemma byte_of_header b hi : Z.shiftr (b2z b) 4 = hi → b = z2b (16 * hi + Z.land (b2z b) 15) ∧ (0 ≤ Z.land (b2z b) 15 < 16)%Z.
Proof. intros <-. apply nibbles. Qed.

Lemma parse_ipv4_sound p f : parse_ipv4_packet p = Ok f → ∃ d, datagram_ok d ∧ ipv4_packet d p ∧ f = flow_of d.
Proof.
  intros H. assert (20 ≤ length p) as Hp.
  { unfold parse_ipv4_packet, IPV4_MIN_HEADER_LEN in H. destruct (Nat.ltb_spec (length p) 20); [done|lia]. }
  destruct (split_ipv4 p Hp) as (b0 & b1 & b2 & b3 & pr & o1 & o2 & src & dst & rest & -> & Ho1 & Ho2 & Hs & Hd). rewrite parse_ipv4_parts in H by done. clear Hp.
  destruct (Z.eqb_spec (Z.shiftr (b2z b0) 4) 4) as [Hv|]; [|done]. cbn [negb] in H. destruct (byte_of_header b0 4 Hv) as [Eb Hn]. change (16 * 4)%Z with 64%Z in Eb.
  set (n := Z.land (b2z b0) 15) in *. destruct (Nat.ltb_spec (Z.to_nat n * 4) 20) as [|Hi]; [done|]. destruct (Nat.ltb_spec (20 + length rest) (Z.to_nat n * 4)) as [|_]; [done|].
  pose proof (from_be_range [b2; b3]) as Ht. set (t := Z.to_nat (from_be [b2; b3])) in *. destruct (Nat.ltb_spec t (Z.to_nat n * 4)) as [|Ht1]; [done|].
  destruct (Nat.ltb_spec (20 + length rest) t) as [|Ht2]; [done|]. cbn [orb] in H. apply flow_of_transport_iff in H as (s & e & payload & Hse & He & Et & Hpr & ->).
  pose (d := {| d_protocol := pr; d_source := ipv4_from src; d_destination := ipv4_from dst; d_sport := s; d_dport := e; d_payload := payload; d_trailing := drop (t - 20) rest |}).
  assert (length (body_of d) = t - Z.to_nat n * 4) as Hb. { unfold body_of, d. cbn [d_sport d_dport d_payload]. rewrite <- Et, length_take, length_drop. lia. }
  exists d. split; [|split; [|done]].
  - repeat split; try done; try apply Hse; try apply He; first [apply (wf_ipv4_from src Hs)|apply (wf_ipv4_from dst Hd)].
  - pose proof (Ipv4Packet d (from_be src) (from_be dst) (Z.to_nat n) b1 o1 o2 (take (Z.to_nat n * 4 - 20) rest) eq_refl eq_refl) as K. rewrite Hb in K.
    replace (4 * Z.to_nat n + (t - Z.to_nat n * 4)) with t in K by lia. 
    assert (Z.of_nat t = from_be [b2; b3]) as Ez by (apply Z2Nat.id, Ht). rewrite Ez in K.
    rewrite (to_be_from_be_n 2 [b2; b3] eq_refl), Z2Nat.id, <- Eb in K by lia. cbn [d d_source d_destination d_protocol d_trailing octets ipv4_from] in K.
    rewrite (to_be_from_be_n 4 src Hs), (to_be_from_be_n 4 dst Hd) in K.
    assert (rest = take (Z.to_nat n * 4 - 20) rest ++ body_of d ++ drop (t - 20) rest) as ER.
    { unfold body_of, d. cbn [d_sport d_dport d_payload]. rewrite <- Et. replace (t - 20) with ((Z.to_nat n * 4 - 20) + (t - Z.to_nat n * 4)) by lia. apply cut_rest. }
    rewrite ER at 1. apply K; first [done | exact Ht | lia | rewrite length_take; lia].
Qed.

Lemma parse_ipv6_sound p f : parse_ipv6_packet p = Ok f → ∃ d, datagram_ok d ∧ ipv6_packet d p ∧ f = flow_of d.
Proof.
  intros H. assert (40 ≤ length p) as Hp.
  { unfold parse_ipv6_packet, IPV6_HEADER_LEN in H. destruct (Nat.ltb_spec (length p) 40); [done|lia]. }
  destruct (split_ipv6 p Hp) as (b0 & b4 & b5 & pr & hop & o & src & dst & rest & -> & Ho & Hs & Hd). rewrite parse_ipv6_parts in H by done. clear Hp.
  destruct (Z.eqb_spec (Z.shiftr (b2z b0) 4) 6) as [Hv|]; [|done]. cbn [negb] in H. destruct (byte_of_header b0 6 Hv) as [Eb Hn]. change (16 * 6)%Z with 96%Z in Eb.
  pose proof (from_be_range [b4; b5]) as Ht. set (t := Z.to_nat (from_be [b4; b5])) in *. assert (Z.of_nat t = from_be [b4; b5]) as Ez by (apply Z2Nat.id, Ht).
  destruct (Nat.ltb_spec (40 + length rest) (40 + t)) as [|Ht2]; [done|]. replace (40 + t - 40) with t in H by lia.
  apply flow_of_transport_iff in H as (s & e & payload & Hse & He & Et & Hpr & ->).
  pose (d := {| d_protocol := pr; d_source := ipv6_from src; d_destination := ipv6_from dst; d_sport := s; d_dport := e; d_payload := payload; d_trailing := drop t rest |}).
  assert (body_of d = take t rest) as Ebody by (unfold body_of, d; cbn [d_sport d_dport d_payload]; by rewrite <- Et).
  exists d. split; [|split; [|done]].
  - repeat split; try done; try apply Hse; try apply He; first [apply (wf_ipv6_from src Hs)|apply (wf_ipv6_from dst Hd)].
  - pose proof (Ipv6Packet d (from_be src) (from_be dst) (Z.land (b2z b0) 15) o hop eq_refl eq_refl) as K. rewrite Ebody, length_take, Nat.min_l, Ez in K by lia.
    rewrite (to_be_from_be_n 2 [b4; b5] eq_refl), <- Eb in K. cbn [d d_source d_destination d_protocol d_trailing octets ipv6_from] in K.
    rewrite (to_be_from_be_n 16 src Hs), (to_be_from_be_n 16 dst Hd), take_drop in K. apply K; first [done | exact Ht | lia].
Qed.

(** C39: [parse_ip_packet] never panics, and it accepts exactly the TCP and UDP packets of both
    versions whose lengths are consistent, whatever the bytes that it does not look at and the bytes after the
    packet: the flow is the one of the addresses and ports of the packet. *)
Theorem parse_ip_packet_iff :
  (∀ p, no_panic (parse_ip_packet p)) ∧
  ∀ p f, parse_ip_packet p = Ok f ↔ ∃ d, datagram_ok d ∧ (ipv4_packet d p ∨ ipv6_packet d p) ∧ f = flow_of d.
Proof.
  split; [exact no_panic_ip|]. intros p f. unfold parse_ip_packet. split.
  - destruct (p !! 0); [|done]. cbn zeta. destruct (_ =? 4)%Z; [|destruct (_ =? 6)%Z; [|done]].
    + intros (d & Hok & Hp & ->)%parse_ipv4_sound. exists d. by auto.
    + intros (d & Hok & Hp & ->)%parse_ipv6_sound. exists d. by auto.
  - intros (d & Hok & [Hp|Hp] & ->).
    + rewrite <- (parse_ipv4_complete d p Hok Hp). revert Hok. destruct Hp as [d' src dst ihl]. cbn [app lookup list_lookup]. pose proof (first_byte 4 (Z.of_nat ihl)) as [F4 _]; [lia|lia|].
      change (16 * 4)%Z with 64%Z in F4. by rewrite F4.
    + rewrite <- (parse_ipv6_complete d p Hok Hp). revert Hok. destruct Hp as [d' src dst low]. cbn [app lookup list_lookup]. pose proof (first_byte 6 low) as [F6 _]; [lia|lia|].
      change (16 * 6)%Z with 96%Z in F6. by rewrite F6.
Qed.
