(* ===== verification/DnsWire.v ===== *)
(** * DnsWire: the DNS messages that the runtime reads, writes and edits

    The parsers and the query builder of [crates/dynet-runtime/src/dns.rs]. A message is
    a list of bytes; every access is checked as in the code, so that the parsers cannot
    panic, while the filter slices unchecked and can. Positions stay far below the word
    size, so that [checked_add] on them is exact addition. *)
From Stdlib Require Import ZArith Lia Strings.Byte Ascii String.
From stdpp Require Import base list numbers option strings.
From S2P Require Import Prelude Net RustStd.
Local Open Scope string_scope.
Local Open Scope nat_scope.

Definition DNS_CLASS_IN : Z := 1.
Definition DNS_QTYPE_A : Z := 1.
Definition DNS_QTYPE_AAAA : Z := 28.

Record DnsQueryInfo := { q_transaction_id : Z; q_query_name : string; q_query_type : string }.

Record DnsResponseInfo := {
  r_transaction_id : Z;
  r_query_name : option string;
  r_query_type : option string;
  r_answer_ips : list IpAddr }.

Record DnsResolveError := { message : string }.
Definition dns_error (m : string) : DnsResolveError := {| message := m |}.

(** The text of UTF-8 bytes. *)
Definition text_of (l : bytes) : string := string_of_list_byte l.
Definition bytes_of (s : string) : bytes := list_byte_of_string s.

Definition u16_at (packet : bytes) (offset : nat) : option Z :=
  bs ← get_range packet offset (offset + 2); Some (from_be bs).

Definition transaction_id (packet : bytes) : option Z := u16_at packet 0.

Definition qtype_label (qtype : Z) : string :=
  if (qtype =? DNS_QTYPE_A)%Z then "A"
  else if (qtype =? DNS_QTYPE_AAAA)%Z then "AAAA"
  else if (qtype =? 5)%Z then "CNAME"
  else if (qtype =? 65)%Z then "HTTPS"
  else to_string qtype.

(** ** Names

    The loop of [read_name]: [Some None] is its [None], and the outer [None] that the
    fuel is spent. *)
Definition MAX_JUMPS : nat := 8.

Fixpoint name_loop (fuel : nat) (packet : bytes) (cursor : nat) (next_offset : option nat) (jumps : nat)
    (labels : list string) : option (option (string * nat)) :=
  match fuel with
  | O => None
  | S fuel =>
      match packet !! cursor with
      | None => Some None
      | Some length =>
          if (Z.land (b2z length) 192 =? 192)%Z then
            match packet !! (cursor + 1) with
            | None => Some None
            | Some next =>
                let pointer := Z.to_nat (from_be [z2b (Z.land (b2z length) 63); next]) in
                let next_offset := match next_offset with None => Some (cursor + 2) | Some _ => next_offset end in
                let jumps := jumps + 1 in
                if MAX_JUMPS <? jumps then Some None
                else name_loop fuel packet pointer next_offset jumps labels
            end
          else if (b2z length =? 0)%Z then
            Some (Some (String.concat "." labels, default (cursor + 1) next_offset))
          else
            let label_start := cursor + 1 in
            let label_end := label_start + Z.to_nat (b2z length) in
            match get_range packet label_start label_end with
            | None => Some None
            | Some label =>
                if utf8_valid label then
                  name_loop fuel packet label_end next_offset jumps (labels ++ [to_ascii_lowercase (text_of label)])
                else Some None
            end
      end
  end.

(** Between two jumps the cursor only moves forward, and there are at most eight jumps. *)
Definition name_fuel (packet : bytes) : nat := (MAX_JUMPS + 1) * (length packet + 1) + 1.

Definition read_name (packet : bytes) (offset : nat) : option (string * nat) :=
  default None (name_loop (name_fuel packet) packet offset None 0 []).

(** ** Queries and responses *)
Definition sniff_dns_query (packet : bytes) : option DnsQueryInfo :=
  id ← transaction_id packet;
  qdcount ← u16_at packet 4;
  if (qdcount =? 0)%Z then None
  else
    '(name, offset) ← read_name packet 12;
    qtype ← u16_at packet offset;
    Some {| q_transaction_id := id; q_query_name := name; q_query_type := qtype_label qtype |}.

(** The question loop; [first] holds what the first question said. *)
Fixpoint read_questions (n : nat) (packet : bytes) (offset : nat) (first : option (string * string))
    : option (option (string * string) * nat) :=
  match n with
  | O => Some (first, offset)
  | S n =>
      '(name, next) ← read_name packet offset;
      qtype ← u16_at packet next;
      let first := match first with None => Some (name, qtype_label qtype) | Some _ => first end in
      read_questions n packet (next + 4) first
  end.

Definition answer_ip (answer_type : Z) (data : bytes) : list IpAddr :=
  if (answer_type =? DNS_QTYPE_A)%Z && (length data =? 4) then [ipv4_from data]
  else if (answer_type =? DNS_QTYPE_AAAA)%Z && (length data =? 16) then [ipv6_from data]
  else [].

Fixpoint read_answers (n : nat) (packet : bytes) (offset : nat) (answer_ips : list IpAddr) : option (list IpAddr) :=
  match n with
  | O => Some answer_ips
  | S n =>
      '(_, next) ← read_name packet offset;
      answer_type ← u16_at packet next;
      data_len ← u16_at packet (next + 8);
      let offset := next + 10 in
      let data_end := offset + Z.to_nat data_len in
      data ← get_range packet offset data_end;
      read_answers n packet data_end (answer_ips ++ answer_ip answer_type data)
  end.

Definition sniff_dns_response (packet : bytes) : option DnsResponseInfo :=
  id ← transaction_id packet;
  qdcount ← u16_at packet 4;
  ancount ← u16_at packet 6;
  '(first, offset) ← read_questions (Z.to_nat qdcount) packet 12 None;
  answer_ips ← read_answers (Z.to_nat ancount) packet offset [];
  Some {| r_transaction_id := id; r_query_name := fst <$> first; r_query_type := snd <$> first;
          r_answer_ips := answer_ips |}.

Fixpoint question_end (n : nat) (packet : bytes) (offset : nat) : option nat :=
  match n with
  | O => Some offset
  | S n =>
      '(_, next) ← read_name packet offset;
      let offset := next + 4 in
      _ ← get_range packet 0 offset;
      question_end n packet offset
  end.

Definition dns_question_end (packet : bytes) : option nat :=
  qdcount ← u16_at packet 4;
  question_end (Z.to_nat qdcount) packet 12.

(** [response[6..12].fill(0)] *)
Definition fill_counts (response : bytes) : outcome DnsResolveError bytes :=
  if length response <? 12 then Panic
  else Ok (take 6 response ++ replicate 6 x00 ++ drop 12 response)%list.

(** ** [build_a_query] *)

(** [str::trim_end_matches('.')] *)
Fixpoint trim_dots_start (s : string) : string :=
  match s with String c s' => if Ascii.eqb c "." then trim_dots_start s' else s | "" => "" end.
Definition trim_end_dots (s : string) : string := rev_string (trim_dots_start (rev_string s)).

Definition build_label (query : bytes) (label : string) : outcome DnsResolveError bytes :=
  if is_empty label || (63 <? String.length label) then Err (dns_error "invalid DNS label in {domain}")
  else Ok (query ++ [z2b (Z.of_nat (String.length label))] ++ bytes_of label)%list.

Definition build_a_query (unix_ms : Z) (domain : string) : outcome DnsResolveError bytes :=
  let domain := trim_end_dots domain in
  if is_empty domain then Err (dns_error "domain is empty")
  else
    let transaction_id := Z.land unix_ms 65535 in
    let header := (to_be 2 transaction_id ++ to_be 2 256 ++ to_be 2 1 ++ to_be 2 0 ++ to_be 2 0 ++ to_be 2 0)%list in
    query ← for_each build_label header (split "." domain);
    Ok (query ++ [x00] ++ to_be 2 DNS_QTYPE_A ++ to_be 2 DNS_CLASS_IN)%list.

(** ** Fake addresses *)
Definition is_fake_ip (a : IpAddr) : bool :=
  match a with
  | V4 _ =>
      match octets a with
      | o0 :: o1 :: _ => (b2z o0 =? 198)%Z && ((b2z o1 =? 18)%Z || (b2z o1 =? 19)%Z)
      | _ => false
      end
  | V6 _ => false
  end.

(** ** What [read_name] accepts *)
Definition is_pointer (b : byte) : bool := (Z.land (b2z b) 192 =? 192)%Z.
Definition pointer_of (b b' : byte) : nat := Z.to_nat (from_be [z2b (Z.land (b2z b) 63); b']).

(** The labels at an offset, through at most [k] pointers, and the offset behind them. *)
Inductive name_at (p : bytes) : nat → nat → list bytes → nat → Prop :=
| name_root o k b : p !! o = Some b → is_pointer b = false → b2z b = 0%Z → name_at p o k [] (o + 1)
| name_label o k b l ls e :
    p !! o = Some b → is_pointer b = false → b2z b ≠ 0%Z →
    get_range p (o + 1) (o + 1 + Z.to_nat (b2z b)) = Some l → utf8_valid l = true →
    name_at p (o + 1 + Z.to_nat (b2z b)) k ls e → name_at p o k (l :: ls) e
| name_pointer o k b b' ls e :
    p !! o = Some b → is_pointer b = true → p !! (o + 1) = Some b' →
    name_at p (pointer_of b b') k ls e → name_at p o (S k) ls (o + 2).

Definition lower_label (l : bytes) : string := to_ascii_lowercase (text_of l).

(** The result of a loop run is determined by the name at its cursor. *)
Definition loop_result (p : bytes) (cursor : nat) (next : option nat) (k : nat) (acc : list string)
    (r : option (string * nat)) : Prop :=
  ∀ s e, r = Some (s, e) ↔
    ∃ ls e', name_at p cursor k ls e' ∧ s = String.concat "." (acc ++ List.map lower_label ls) ∧ e = default e' next.

Lemma loop_result_none p cursor next k acc :
  (∀ ls e, ¬ name_at p cursor k ls e) → loop_result p cursor next k acc None.
Proof. intros Hn s e. split; [done|]. intros (ls & e' & H & _). by destruct (Hn ls e'). Qed.

Lemma name_loop_spec p fuel cursor next jumps acc :
  jumps ≤ MAX_JUMPS → (MAX_JUMPS - jumps) * (length p + 1) + (length p + 1 - cursor) < fuel →
  ∃ r, name_loop fuel p cursor next jumps acc = Some r ∧ loop_result p cursor next (MAX_JUMPS - jumps) acc r.
Proof.
  revert cursor next jumps acc. induction fuel as [|fuel IH]; intros cursor next jumps acc Hj Hf; [by apply Nat.nlt_0_r in Hf|].
  cbn [name_loop]. destruct (p !! cursor) as [b|] eqn:Eb.
  2: { exists None. split; [done|]. apply loop_result_none. intros ls e H. inversion H; congruence. }
  assert (cursor < length p) as Hlt by by eapply lookup_lt_Some.
  fold (is_pointer b). destruct (is_pointer b) eqn:Ep.
  - destruct (p !! (cursor + 1)) as [b'|] eqn:Eb'.
    2: { exists None. split; [done|]. apply loop_result_none. intros ls e H. inversion H; congruence. }
    fold (pointer_of b b'). destruct (Nat.ltb_spec MAX_JUMPS (jumps + 1)) as [Hm|Hm].
    + exists None. split; [done|]. apply loop_result_none. intros ls e H. inversion H; try congruence. lia.
    + destruct (IH (pointer_of b b') (match next with None => Some (cursor + 2) | Some _ => next end) (jumps + 1) acc) as (r & Hr & Hs);
        [lia|replace (MAX_JUMPS - jumps) with (S (MAX_JUMPS - (jumps + 1))) in Hf by lia; lia|].
      exists r. split; [exact Hr|]. intros s e. rewrite (Hs s e).
      replace (MAX_JUMPS - jumps) with (S (MAX_JUMPS - (jumps + 1))) by lia. split.
      * intros (ls & e' & Hn & -> & ->). exists ls, (cursor + 2). split; [by eapply name_pointer|]. split; [done|]. by destruct next.
      * intros (ls & e' & Hn & -> & ->). inversion Hn as [| |? ? b1 b2 ? e1 H1 H2 H3 H4]; try congruence. subst.
        rewrite Eb in H1. rewrite Eb' in H3. injection H1 as <-. injection H3 as <-. exists ls, e1.
        split; [done|]. split; [done|]. by destruct next.
  - destruct (Z.eqb_spec (b2z b) 0) as [E0|E0].
    + exists (Some (String.concat "." acc, default (cursor + 1) next)). split; [done|]. intros s e. split.
      * intros [= <- <-]. exists [], (cursor + 1). split; [by eapply name_root|]. cbn. by rewrite app_nil_r.
      * intros (ls & e' & Hn & -> & ->). inversion Hn; try congruence. cbn. by rewrite app_nil_r.
    + destruct (get_range p (cursor + 1) _) as [l|] eqn:El.
      2: { exists None. split; [done|]. apply loop_result_none. intros ls e H. inversion H; congruence. }
      destruct (utf8_valid l) eqn:Eu.
      2: { exists None. split; [done|]. apply loop_result_none. intros ls e H. inversion H; congruence. }
      pose proof (get_range_inv _ _ _ _ El) as (Hle & _ & _). pose proof (b2z_range b).
      destruct (IH (cursor + 1 + Z.to_nat (b2z b)) next jumps (acc ++ [lower_label l])%list) as (r & Hr & Hs); [done|lia|].
      exists r. split; [exact Hr|]. intros s e. rewrite (Hs s e). split.
      * intros (ls & e' & Hn & -> & ->). exists (l :: ls), e'. split; [by eapply name_label|]. by rewrite <- app_assoc.
      * intros (ls & e' & Hn & -> & ->). inversion Hn as [|? ? b1 l1 ls1 ? H1 H2 H3 H4 H5 H6|]; try congruence. subst.
        rewrite Eb in H1. injection H1 as <-. rewrite El in H4. injection H4 as <-. exists ls1, e'. split; [done|]. by rewrite <- app_assoc.
Qed.

Lemma read_name_iff p o :
  ∃ r, name_loop (name_fuel p) p o None 0 [] = Some r ∧ read_name p o = r ∧
    ∀ s e, r = Some (s, e) ↔ ∃ ls, name_at p o MAX_JUMPS ls e ∧ s = String.concat "." (List.map lower_label ls).
Proof.
  destruct (name_loop_spec p (name_fuel p) o None 0 []) as (r & Hr & Hs); [lia|unfold name_fuel, MAX_JUMPS; lia|].
  exists r. split; [exact Hr|]. split; [unfold read_name; by rewrite Hr|].
  intros s e. rewrite (Hs s e). cbn [default app]. split.
  - intros (ls & e' & Hn & -> & ->). by exists ls.
  - intros (ls & Hn & ->). by exists ls, e.
Qed.

(** ** The query that the runtime builds *)
Definition dot : byte := z2b 46.

Lemma utf8_split_dot n a b : length a ≤ n → utf8_valid (a ++ dot :: b) = utf8_valid a && utf8_valid b.
Proof.
  revert a. induction n as [|n IH]; intros a Hn; [destruct a; [reflexivity|cbn in Hn; lia]|].
  destruct a as [|c a1]; [reflexivity|]. cbn [app length] in *. cbn [utf8_valid].
  destruct (in_range 0 127 c) eqn:E0; [rewrite <- (IH a1) by lia; done|].
  destruct a1 as [|c1 a2]; cbn [app].
  { replace (continuation dot) with false by done. destruct (in_range 194 223 c); [done|].
    assert (second_of_three c dot = false) as ->.
    { unfold second_of_three. by destruct (_ =? _)%Z; [|destruct (_ =? _)%Z]. }
    assert (second_of_four c dot = false) as ->.
    { unfold second_of_four. by destruct (_ =? _)%Z; [|destruct (_ =? _)%Z]. }
    destruct b as [|b1 b]; [done|]. destruct (in_range 224 239 c); [done|]. destruct b; [done|]. by rewrite andb_false_r. }
  destruct (in_range 194 223 c).
  { cbn [length] in Hn. rewrite (IH a2) by lia. by rewrite andb_assoc. }
  destruct a2 as [|c2 a3]; cbn [app].
  { replace (continuation dot) with false by done. rewrite andb_false_r. destruct (in_range 224 239 c); [done|].
    destruct b; [done|]. by rewrite andb_false_r. }
  destruct (in_range 224 239 c).
  { cbn [length] in Hn. rewrite (IH a3) by lia. by rewrite !andb_assoc. }
  destruct a3 as [|c3 a4]; cbn [app].
  { replace (continuation dot) with false by done. by rewrite andb_false_r. }
  cbn [length] in Hn. rewrite (IH a4) by lia. by rewrite !andb_assoc.
Qed.

Lemma bytes_of_cons c s : bytes_of (String c s) = (byte_of_ascii c :: bytes_of s).
Proof. reflexivity. Qed.

Lemma bytes_of_app a b : bytes_of (a ++ b) = (bytes_of a ++ bytes_of b)%list.
Proof. induction a as [|c a IH]; [done|]. change (String c a ++ b) with (String c (a ++ b)). rewrite !bytes_of_cons, IH. done. Qed.

Lemma length_bytes_of s : length (bytes_of s) = String.length s.
Proof. induction s as [|c s IH]; [done|]. rewrite bytes_of_cons. cbn. by rewrite IH. Qed.

Lemma text_of_bytes_of s : text_of (bytes_of s) = s.
Proof. apply string_of_list_byte_of_string. Qed.

(** [s.split(c)] and joining are inverse. *)
Lemma split_nonempty c s : split c s ≠ [].
Proof. destruct s as [|d s]; [done|]. cbn. destruct (Ascii.eqb c d); [done|]. by destruct (split c s). Qed.

Lemma concat_cons sep s ls : ls ≠ [] → String.concat sep (s :: ls) = s ++ sep ++ String.concat sep ls.
Proof. by destruct ls. Qed.

Lemma concat_split c s : String.concat (String c "") (split c s) = s.
Proof.
  induction s as [|d s IH]; [done|]. cbn [split]. pose proof (split_nonempty c s) as Hn.
  destruct (Ascii.eqb_spec c d) as [->|].
  - rewrite concat_cons by done. by rewrite IH.
  - destruct (split c s) as [|p ps] eqn:E; [done|]. rewrite <- IH. destruct ps; done.
Qed.

Lemma split_pieces_valid s : utf8_valid (bytes_of s) = true → Forall (λ l, utf8_valid (bytes_of l) = true) (split "." s).
Proof.
  rewrite <- (concat_split "." s) at 1. generalize (split "." s) as ls. induction ls as [|l ls IH]; [by constructor|].
  destruct ls as [|l' ls]; [by constructor|]. rewrite (concat_cons "." l (l' :: ls)), !bytes_of_app by done.
  change (bytes_of "." ++ bytes_of (String.concat "." (l' :: ls)))%list with (dot :: bytes_of (String.concat "." (l' :: ls))).
  rewrite (utf8_split_dot (length (bytes_of l))) by done. intros [H1 H2]%andb_true_iff. constructor; [done|by apply IH].
Qed.

Lemma to_ascii_lowercase_app a b : to_ascii_lowercase (a ++ b) = to_ascii_lowercase a ++ to_ascii_lowercase b.
Proof. induction a as [|c a IH]; [done|]. change (String c a ++ b) with (String c (a ++ b)). cbn [to_ascii_lowercase]. by rewrite IH. Qed.

Lemma lower_concat ls : String.concat "." (List.map to_ascii_lowercase ls) = to_ascii_lowercase (String.concat "." ls).
Proof.
  induction ls as [|l ls IH]; [done|]. destruct ls as [|l' ls]; [done|]. cbn [List.map] in *.
  rewrite (concat_cons "." l (l' :: ls)) by done. rewrite !to_ascii_lowercase_app, <- IH. by rewrite concat_cons.
Qed.

(** A label as it is written. *)
Definition label_bytes (l : string) : bytes := (z2b (Z.of_nat (String.length l)) :: bytes_of l)%list.
Definition label_ok (l : string) : bool := negb (is_empty l) && (String.length l <=? 63).

Lemma build_labels ls q q' :
  for_each build_label q ls = Ok q' ↔ Forall (λ l, label_ok l = true) ls ∧ q' = (q ++ List.concat (List.map label_bytes ls))%list.
Proof.
  revert q. induction ls as [|l ls IH]; intros q; cbn [for_each].
  { cbn. rewrite app_nil_r. split; [by intros [= <-]|by intros [_ ->]]. }
  rewrite outcome_bind_Ok_inv. unfold build_label at 1. rewrite Forall_cons. unfold label_ok at 1.
  assert ((63 <? String.length l) = negb (String.length l <=? 63)) as -> by apply Nat.ltb_antisym.
  destruct (is_empty l), (String.length l <=? 63); cbn [negb andb orb]; split.
  all: try (by intros (? & [=] & _)); try (by intros [[? _] _]).
  - intros (x & [= <-] & [H ->]%IH). split; [done|]. cbn. by rewrite <- app_assoc.
  - intros [[_ H] ->]. eexists. split; [reflexivity|]. apply IH. split; [done|]. cbn. by rewrite <- app_assoc.
Qed.

Lemma label_length l : label_ok l = true → 1 ≤ String.length l ≤ 63.
Proof.
  unfold label_ok, is_empty. intros [H1 H2%Nat.leb_le]%andb_true_iff. split; [|done].
  destruct l as [|c l]; cbn in *; [done|lia].
Qed.

(** A written length is not a pointer. *)
Lemma label_head n : 1 ≤ n ≤ 63 → is_pointer (z2b (Z.of_nat n)) = false ∧ b2z (z2b (Z.of_nat n)) = Z.of_nat n.
Proof.
  intros Hn. assert (b2z (z2b (Z.of_nat n)) = Z.of_nat n) as E by (rewrite b2z_z2b, Z.mod_small; lia).
  split; [|done]. unfold is_pointer. rewrite E. apply Z.eqb_neq. intros He.
  assert (Z.testbit (Z.land (Z.of_nat n) 192) 7 = Z.testbit 192 7) as Hb by by rewrite He.
  rewrite Z.land_spec in Hb. rewrite (in_u_testbit 6 (Z.of_nat n) 7) in Hb; [done|split; lia|lia|lia].
Qed.

Lemma lookup_pre {A} (pre : list A) x rest : (pre ++ x :: rest)%list !! length pre = Some x.
Proof. by rewrite lookup_app_r, Nat.sub_diag by lia. Qed.

Lemma get_range_pre {A} (pre l rest : list A) a b :
  a = length pre → b = length pre + length l → get_range (pre ++ l ++ rest)%list a b = Some l.
Proof.
  intros -> ->. rewrite get_range_Some by (rewrite !length_app; lia).
  rewrite drop_app_length. f_equal. apply take_app_length'. lia.
Qed.

Lemma written_name pre ls rest k :
  Forall (λ l, label_ok l = true) ls → Forall (λ l, utf8_valid (bytes_of l) = true) ls →
  name_at (pre ++ List.concat (List.map label_bytes ls) ++ x00 :: rest)%list (length pre) k (List.map bytes_of ls)
    (length pre + length (List.concat (List.map label_bytes ls)) + 1).
Proof.
  revert pre. induction ls as [|l ls IH]; intros pre Hok Hu.
  { cbn. rewrite Nat.add_0_r. by apply (name_root _ _ _ x00); [apply lookup_pre| |]. }
  apply Forall_cons in Hok as [Hl Hok]. apply Forall_cons in Hu as [Hul Hu].
  apply label_length in Hl. destruct (label_head _ Hl) as [Hp Hb].
  cbn [List.map List.concat]. set (rest' := (List.concat (List.map label_bytes ls) ++ x00 :: rest)%list).
  replace (pre ++ (label_bytes l ++ List.concat (List.map label_bytes ls)) ++ x00 :: rest)%list
    with (pre ++ z2b (Z.of_nat (String.length l)) :: bytes_of l ++ rest')%list by (unfold rest', label_bytes; by rewrite <- !app_assoc).
  specialize (IH (pre ++ label_bytes l)%list Hok Hu). rewrite <- app_assoc in IH. fold rest' in IH.
  change (label_bytes l ++ rest')%list with (z2b (Z.of_nat (String.length l)) :: bytes_of l ++ rest')%list in IH.
  assert (length (pre ++ label_bytes l) = length pre + 1 + Z.to_nat (b2z (z2b (Z.of_nat (String.length l))))) as El.
  { rewrite Hb, Nat2Z.id, length_app. unfold label_bytes. cbn [length]. rewrite length_bytes_of. lia. }
  eapply name_label.
  - apply lookup_pre.
  - exact Hp.
  - rewrite Hb. lia.
  - rewrite Hb, Nat2Z.id. rewrite cons_middle, app_assoc.
    apply get_range_pre; rewrite length_app; cbn [length]; [lia|]. rewrite length_bytes_of. lia.
  - exact Hul.
  - rewrite El in IH. rewrite length_app. replace (length pre + (length (label_bytes l) + _) + 1)
      with (length pre + 1 + Z.to_nat (b2z (z2b (Z.of_nat (String.length l)))) + length (List.concat (List.map label_bytes ls)) + 1); [exact IH|].
    unfold label_bytes at 2. cbn [length]. rewrite length_bytes_of, Hb, Nat2Z.id. lia.
Qed.

Lemma u16_at_pre pre z rest o : o = length pre → in_u 16 z → u16_at (pre ++ to_be 2 z ++ rest)%list o = Some z.
Proof.
  intros -> Hz. unfold u16_at. rewrite get_range_pre by (rewrite ?length_to_be; done). cbn [mbind option_bind]. by rewrite from_be_to_be_u16.
Qed.

Lemma rev_string_cons c s : rev_string (String c s) = rev_string s ++ String c "".
Proof.
  unfold rev_string. cbn [list_ascii_of_string rev]. generalize (rev (list_ascii_of_string s)) as l.
  induction l as [|d l IH]; [done|]. cbn. by rewrite IH.
Qed.

Lemma rev_string_involutive s : rev_string (rev_string s) = s.
Proof. unfold rev_string. by rewrite list_ascii_of_string_of_list_ascii, rev_involutive, string_of_list_ascii_of_string. Qed.

Lemma trim_end_dots_valid s : utf8_valid (bytes_of s) = true → utf8_valid (bytes_of (trim_end_dots s)) = true.
Proof.
  unfold trim_end_dots. rewrite <- (rev_string_involutive s) at 1. generalize (rev_string s) as r.
  induction r as [|c r IH]; [done|]. cbn [trim_dots_start]. destruct (Ascii.eqb_spec c ".") as [->|]; [|done].
  rewrite rev_string_cons, bytes_of_app. change (bytes_of (String "." "")) with [dot].
  rewrite (utf8_split_dot (length (bytes_of (rev_string r)))) by done. intros [H _]%andb_true_iff. by apply IH.
Qed.

(** The header of a query, and a query. *)
Definition query_header (id : Z) : bytes :=
  (to_be 2 id ++ to_be 2 256 ++ to_be 2 1 ++ to_be 2 0 ++ to_be 2 0 ++ to_be 2 0)%list.

Lemma build_a_query_Ok ms domain q :
  build_a_query ms domain = Ok q ↔
    trim_end_dots domain ≠ "" ∧ Forall (λ l, label_ok l = true) (split "." (trim_end_dots domain)) ∧
    q = (query_header (Z.land ms 65535) ++ List.concat (List.map label_bytes (split "." (trim_end_dots domain))) ++
         [x00] ++ to_be 2 DNS_QTYPE_A ++ to_be 2 DNS_CLASS_IN)%list.
Proof.
  unfold build_a_query, is_empty. destruct (String.eqb_spec (trim_end_dots domain) "") as [->|Hn]; [naive_solver|].
  rewrite outcome_bind_Ok_inv. split.
  - intros (x & [H ->]%build_labels & [= <-]). split_and!; [done|done|]. unfold query_header. by rewrite <- !app_assoc.
  - intros (_ & H & ->). eexists. split; [apply build_labels; split; [exact H|reflexivity]|].
    unfold query_header. by rewrite <- !app_assoc.
Qed.

(** The query that is built for a domain says what the sniffer of queries reads from
    it: the low 16 bits of the clock, the domain in lower case without its final dots,
    and the type A. *)
Theorem query_roundtrip ms domain q :
  utf8_valid (bytes_of domain) = true → build_a_query ms domain = Ok q →
  sniff_dns_query q =
    Some {| q_transaction_id := Z.land ms 65535; q_query_name := to_ascii_lowercase (trim_end_dots domain);
            q_query_type := "A" |}.
Proof.
  intros Hu%trim_end_dots_valid (_ & Hok & ->)%build_a_query_Ok. set (ls := split "." (trim_end_dots domain)) in *.
  assert (in_u 16 (Z.land ms 65535)) as Hid.
  { change 65535%Z with (Z.ones 16). rewrite Z.land_ones by lia. split; [apply Z.mod_pos_bound; lia|]. apply Z.mod_pos_bound. lia. }
  set (tail := ([x00] ++ to_be 2 DNS_QTYPE_A ++ to_be 2 DNS_CLASS_IN)%list).
  set (names := List.concat (List.map label_bytes ls)).
  assert (length (query_header (Z.land ms 65535)) = 12) as Hlen by (unfold query_header; by rewrite !length_app, !length_to_be).
  unfold sniff_dns_query, transaction_id.
  replace (u16_at _ 0) with (Some (Z.land ms 65535)).
  2: { symmetry. unfold query_header. rewrite <- !app_assoc. by apply (u16_at_pre []). }
  cbn [mbind option_bind].
  replace (u16_at _ 4) with (Some 1%Z).
  2: { symmetry. unfold query_header. rewrite <- !app_assoc, (app_assoc (to_be 2 (Z.land ms 65535))).
       apply (u16_at_pre _ 1); [by rewrite length_app, !length_to_be|done]. }
  cbn [mbind option_bind Z.eqb].
  destruct (read_name_iff (query_header (Z.land ms 65535) ++ names ++ tail)%list 12) as (r & _ & Hr & Hs). rewrite Hr.
  rewrite (proj2 (Hs (String.concat "." (List.map lower_label (List.map bytes_of ls))) (12 + length names + 1))).
  2: { exists (List.map bytes_of ls). split; [|done].
       pose proof (written_name (query_header (Z.land ms 65535)) ls (to_be 2 DNS_QTYPE_A ++ to_be 2 DNS_CLASS_IN) MAX_JUMPS Hok
         (split_pieces_valid _ Hu)) as Hw. rewrite Hlen in Hw. exact Hw. }
  cbn [mbind option_bind].
  unfold tail. rewrite (app_assoc names), app_assoc, (u16_at_pre _ DNS_QTYPE_A);
    [|rewrite !length_app, Hlen; cbn [length]; lia|done].
  f_equal. f_equal. rewrite map_map. unfold lower_label, compose. erewrite map_ext; [|intros; by rewrite text_of_bytes_of].
  rewrite lower_concat. unfold ls. by rewrite concat_split.
Qed.

(** C32: Reading a name ends after finitely many steps on every message, however its
    pointers lead, and finds exactly the names of the format: labels of UTF-8 text,
    through at most eight pointers, up to an empty label; the end is the place behind
    the first pointer, or behind the name when there is none. *)
Theorem read_name_spec p o :
  ∃ r, name_loop (name_fuel p) p o None 0 [] = Some r ∧ read_name p o = r ∧
    ∀ s e, r = Some (s, e) ↔ ∃ ls, name_at p o MAX_JUMPS ls e ∧ s = String.concat "." (List.map lower_label ls).
Proof. apply read_name_iff. Qed.

Lemma query_roundtrip_witness :
  match build_a_query 1700000000123 "Example.org." with
  | Ok q => sniff_dns_query q =
      Some {| q_transaction_id := 26747; q_query_name := "example.org"; q_query_type := "A" |}
  | _ => False
  end.
Proof.
  pose proof (query_roundtrip 1700000000123 "Example.org.") as H.
  destruct (build_a_query 1700000000123 "Example.org.") as [q|e|] eqn:E; [|vm_compute in E; discriminate E|vm_compute in E; discriminate E].
  rewrite (H q); [vm_compute; reflexivity|reflexivity|reflexivity].
Defined.
