(* ===== verification/Bootstrap.v ===== *)
(** * Bootstrap: the configuration tables of the runtime store

    [crates/dynet-runtime/src/persistence/bootstrap.rs], its submodules [insert] and
    [row_value], and [dns_policy.rs]. A table is the list of its rows in the order of
    insertion, an SQL statement is the operation it denotes, and a transaction that
    fails leaves the tables as they were. The failures that SQLite itself reports
    (I/O, lock, full) are arguments; a violated primary key is not. The
    [updated_at_unix_ms] columns are written and never read, and are left out. *)
From Stdlib Require Import ZArith Lia Strings.Byte Ascii String Sorting.Sorted.
From stdpp Require Import base list numbers option strings gmap sets.
From S2P Require Import Prelude Collections Net RustStd Model Stores Validation.
Local Open Scope string_scope.
Local Open Scope nat_scope.

(** ** Integers of the store *)
Definition I64_MAX : Z := 9223372036854775807.

(** [u64_to_i64], [u128_to_i64] and [usize_to_i64] saturate. *)
Definition u64_to_i64 (z : Z) : Z := if (z <=? I64_MAX)%Z then z else I64_MAX.
Definition bool_to_i64 (b : bool) : Z := if b then 1 else 0.
Definition bool_from_i64 (z : Z) : option bool :=
  if (z =? 0)%Z then Some false else if (z =? 1)%Z then Some true else None.
Definition u32_from_i64 (z : Z) : option Z := if ((0 <=? z) && (z <? 2 ^ 32))%Z then Some z else None.
(** [u64::try_from] of an [i64] *)
Definition u64_from_i64 (z : Z) : option Z := if (0 <=? z)%Z then Some z else None.

(** ** Errors *)
Inductive SqlxError := ConstraintViolation | DatabaseFull | OtherSqlx.

(** [RuntimeStoreError]; the variants that validation builds are those of [Validation]. *)
Inductive StoreError :=
| ErrSqlx (e : SqlxError)
| ErrSerde
| ErrValidation (e : RuntimeStoreError)
| ErrInvalidNode (id message : string)
| ErrInvalidGroup (id message : string)
| ErrInvalidGroupMember (gid nid message : string)
| ErrInvalidUpstream (id message : string)
| ErrInvalidRule (id message : string)
| ErrBootstrapMessage (message : string)
| ErrPolicy (message : string).

Abbreviation store := (outcome StoreError).

(** [is_database_full] *)
Definition is_database_full (e : StoreError) : bool :=
  match e with ErrSqlx DatabaseFull => true | _ => false end.

Definition lift_validation {A} (r : check A) : store A :=
  match r with Ok a => Ok a | Err e => Err (ErrValidation e) | Panic => Panic end.

(** ** Rows *)
Record NodeRow := {
  nr_id : string; nr_tag : string; nr_enabled : Z; nr_fingerprint : string; nr_supports_ipv6 : Z }.
Record GroupRow := {
  gr_id : string; gr_enabled : Z; gr_scheduler : string; gr_min_success_rate_ppm : Z;
  gr_min_samples : Z; gr_max_active_sessions : option Z; gr_next : string }.
Record MemberRow := { mr_group_id : string; mr_node_id : string; mr_enabled : Z; mr_priority : Z }.
Record RuleRow := {
  rr_id : string; rr_priority : Z; rr_enabled : Z; rr_matcher_kind : string; rr_matcher_value : string;
  rr_group_id : string; rr_ipv6_policy : string }.
Record UpstreamRow := {
  ur_id : string; ur_address : string; ur_transport : string; ur_host : option string;
  ur_path : option string; ur_enabled : Z; ur_priority : Z }.

(** The configuration tables; [runtime_meta] is a map from its key. *)
Record Tables := {
  runtime_meta : gmap string string;
  runtime_nodes : list NodeRow;
  runtime_forward_groups : list GroupRow;
  runtime_group_members : list MemberRow;
  runtime_route_rules : list RuleRow;
  runtime_dns_upstreams : list UpstreamRow }.

Definition SCHEMA_VERSION : string := "14".

(** The tables as [migrate] leaves a new database. *)
Definition fresh_tables : Tables :=
  {| runtime_meta := {["schema_version" := SCHEMA_VERSION]}; runtime_nodes := []; runtime_forward_groups := [];
     runtime_group_members := []; runtime_route_rules := []; runtime_dns_upstreams := [] |}.

(** An [insert] into a table with a primary key. *)
Definition insert_row {K R} `{EqDecision K} (key : R → K) (table : list R) (r : R) : store (list R) :=
  if existsb (λ r', bool_decide (key r' = key r)) table then Err (ErrSqlx ConstraintViolation)
  else Ok (table ++ [r])%list.

(** [insert into runtime_meta ... on conflict(key) do update set value = excluded.value] *)
Definition set_meta (key value : string) (m : gmap string string) : gmap string string := <[key := value]> m.

(** ** insert.rs *)
Definition scheduler_str (s : SchedulerPolicy) : string :=
  match s with SingleFirstEnabled => "single-first-enabled" end.

Definition node_to_row (n : ForwardNode) : NodeRow :=
  {| nr_id := node_id n; nr_tag := node_tag n; nr_enabled := bool_to_i64 (node_enabled n);
     nr_fingerprint := node_fingerprint n; nr_supports_ipv6 := bool_to_i64 (supports_ipv6 n) |}.

Definition group_to_row (g : ForwardGroup) : GroupRow :=
  {| gr_id := group_id g; gr_enabled := bool_to_i64 (group_enabled g);
     gr_scheduler := scheduler_str (group_scheduler g);
     gr_min_success_rate_ppm := min_success_rate_ppm (group_thresholds g);
     gr_min_samples := u64_to_i64 (min_samples (group_thresholds g));
     gr_max_active_sessions := option_map u64_to_i64 (max_active_sessions (group_thresholds g));
     gr_next := next_label (group_next g) |}.

Definition member_to_row (m : GroupMember) : MemberRow :=
  {| mr_group_id := member_group_id m; mr_node_id := member_node_id m;
     mr_enabled := bool_to_i64 (member_enabled m); mr_priority := member_priority m |}.

Definition ipv6_policy_str (p : Ipv6RulePolicy) : string :=
  match p with Inherit => "inherit" | Allow => "allow" | Deny => "deny" end.

Definition matcher_columns (m : RouteMatcher) : string * string :=
  match m with
  | DomainExact v => ("domain-exact", v)
  | DomainSuffix v => ("domain-suffix", v)
  | IpExact a => ("ip-exact", ip_to_string a)
  | IpCidr v => ("ip-cidr", v)
  end.

Definition rule_to_row (r : RouteRule) : RuleRow :=
  let '(kind, value) := matcher_columns (rule_matcher r) in
  {| rr_id := rule_id r; rr_priority := rule_priority r; rr_enabled := bool_to_i64 (rule_enabled r);
     rr_matcher_kind := kind; rr_matcher_value := value; rr_group_id := rule_group_id r;
     rr_ipv6_policy := ipv6_policy_str (rule_ipv6 r) |}.

Definition upstream_to_row (u : DnsUpstream) : UpstreamRow :=
  let '(transport, h, p) :=
    match upstream_transport u with
    | TransportUdp => ("udp", None, None)
    | TransportHttps e => ("https", Some (host e), Some (path e))
    end in
  {| ur_id := upstream_id u; ur_address := socket_to_string (upstream_address u); ur_transport := transport;
     ur_host := h; ur_path := p; ur_enabled := bool_to_i64 (upstream_enabled u);
     ur_priority := upstream_priority u |}.

Definition insert_node (t : list NodeRow) (n : ForwardNode) := insert_row nr_id t (node_to_row n).
Definition insert_group (t : list GroupRow) (g : ForwardGroup) := insert_row gr_id t (group_to_row g).
Definition member_key (r : MemberRow) : string * string := (mr_group_id r, mr_node_id r).
Definition insert_group_member (t : list MemberRow) (m : GroupMember) := insert_row member_key t (member_to_row m).
Definition insert_route_rule (t : list RuleRow) (r : RouteRule) := insert_row rr_id t (rule_to_row r).
Definition insert_dns_upstream (t : list UpstreamRow) (u : DnsUpstream) := insert_row ur_id t (upstream_to_row u).

(** [insert_dns_policy]; a duration is in nanoseconds, [as_millis] drops the fraction. *)
Definition strategy_str (s : DnsRaceStrategy) : string := match s with Parallel => "parallel" end.
Definition as_millis (d : Z) : Z := d / 1000000.
Definition from_millis (ms : Z) : Z := ms * 1000000.

Definition insert_dns_policy (m : gmap string string) (p : DnsRacePolicy) : gmap string string :=
  set_meta "dns_race_timeout_ms" (to_string (as_millis (dns_timeout p)))
    (set_meta "dns_race_strategy" (strategy_str (dns_strategy p)) m).

(** The body of the transaction of [replace_bootstrap]. *)
Definition replace_tables (t : Tables) (seed : RuntimeSeed) : store Tables :=
  nodes ← for_each insert_node [] (seed_nodes seed);
  groups ← for_each insert_group [] (seed_groups seed);
  members ← for_each insert_group_member [] (seed_group_members seed);
  rules ← for_each insert_route_rule [] (seed_route_rules seed);
  upstreams ← for_each insert_dns_upstream [] (seed_dns_upstreams seed);
  let meta := set_meta "default_group_id" (seed_default_group_id seed) (runtime_meta t) in
  let meta := set_meta "ipv6_enabled" (if seed_ipv6_enabled seed then "1" else "0") meta in
  Ok {| runtime_meta := insert_dns_policy meta (seed_dns_policy seed); runtime_nodes := nodes;
        runtime_forward_groups := groups; runtime_group_members := members;
        runtime_route_rules := rules; runtime_dns_upstreams := upstreams |}.

(** [RuntimeStore::replace_bootstrap]: [failure] is what SQLite reports when the
    transaction cannot begin, run or commit. *)
Definition replace_bootstrap (t : Tables) (seed : RuntimeSeed) (failure : option SqlxError) : Tables * store unit :=
  match lift_validation (validate_seed seed) with
  | Ok _ =>
      match failure with
      | Some e => (t, Err (ErrSqlx e))
      | None =>
          match replace_tables t seed with
          | Ok t' => (t', Ok tt)
          | Err e => (t, Err e)
          | Panic => (t, Panic)
          end
      end
  | Err e => (t, Err e)
  | Panic => (t, Panic)
  end.

(** ** Loading *)
Record RuntimeBootstrap := {
  boot_ipv6_enabled : bool;
  boot_nodes : list ForwardNode;
  boot_default_group_id : GroupId;
  boot_groups : list ForwardGroup;
  boot_group_members : list GroupMember;
  boot_route_rules : list RouteRule;
  boot_dns_upstreams : list DnsUpstream;
  boot_dns_policy : DnsRacePolicy }.

Definition row_to_node (r : NodeRow) : store ForwardNode :=
  v6 ← ok_or (bool_from_i64 (nr_supports_ipv6 r)) (ErrInvalidNode (nr_id r) "supports_ipv6 must be 0 or 1");
  if negb (nr_enabled r =? 0)%Z && negb (nr_enabled r =? 1)%Z then
    Err (ErrInvalidNode (nr_id r) ("enabled must be 0 or 1, got {enabled}"))
  else
    Ok {| node_id := nr_id r; node_tag := nr_tag r; node_enabled := (nr_enabled r =? 1)%Z;
          node_fingerprint := nr_fingerprint r; supports_ipv6 := v6 |}.

Definition scheduler_from_str (s : string) : option SchedulerPolicy :=
  if String.eqb s "single-first-enabled" then Some SingleFirstEnabled else None.

(** [Option::map(u64::try_from).transpose()] *)
Definition transpose_u64 (o : option Z) : option (option Z) :=
  match o with None => Some None | Some z => option_map Some (u64_from_i64 z) end.

Definition row_to_group (r : GroupRow) : store ForwardGroup :=
  let bad m := ErrInvalidGroup (gr_id r) m in
  enabled ← ok_or (bool_from_i64 (gr_enabled r)) (bad "enabled must be 0 or 1");
  scheduler ← ok_or (scheduler_from_str (gr_scheduler r)) (bad "scheduler is unsupported");
  ppm ← ok_or (u32_from_i64 (gr_min_success_rate_ppm r)) (bad "min_success_rate_ppm must fit u32");
  samples ← ok_or (u64_from_i64 (gr_min_samples r)) (bad "min_samples must fit u64");
  active ← ok_or (transpose_u64 (gr_max_active_sessions r)) (bad "max_active_sessions must fit u64");
  Ok {| group_id := gr_id r; group_enabled := enabled; group_scheduler := scheduler;
        group_thresholds := {| min_success_rate_ppm := ppm; min_samples := samples; max_active_sessions := active |};
        group_next := named (gr_next r) |}.

Definition row_to_group_member (r : MemberRow) : store GroupMember :=
  let bad m := ErrInvalidGroupMember (mr_group_id r) (mr_node_id r) m in
  enabled ← ok_or (bool_from_i64 (mr_enabled r)) (bad "enabled must be 0 or 1");
  priority ← ok_or (u32_from_i64 (mr_priority r)) (bad "priority must fit u32");
  Ok {| member_group_id := mr_group_id r; member_node_id := mr_node_id r; member_enabled := enabled;
        member_priority := priority |}.

Definition row_to_matcher (r : RuleRow) : store RouteMatcher :=
  let kind := rr_matcher_kind r in let value := rr_matcher_value r in
  if String.eqb kind "domain-exact" then Ok (DomainExact (to_ascii_lowercase value))
  else if String.eqb kind "domain-suffix" then Ok (DomainSuffix (to_ascii_lowercase value))
  else if String.eqb kind "ip-exact" then
    a ← ok_or (parse_ip value) (ErrInvalidRule (rr_id r) "matcher_value must be an IP address: {error}");
    Ok (IpExact a)
  else if String.eqb kind "ip-cidr" then Ok (IpCidr value)
  else Err (ErrInvalidRule (rr_id r) "matcher_kind {matcher_kind} is unsupported").

Definition ipv6_policy_from_str (s : string) : option Ipv6RulePolicy :=
  if String.eqb s "inherit" then Some Inherit
  else if String.eqb s "allow" then Some Allow
  else if String.eqb s "deny" then Some Deny else None.

Definition row_to_route_rule (r : RuleRow) : store RouteRule :=
  enabled ← ok_or (bool_from_i64 (rr_enabled r)) (ErrInvalidRule (rr_id r) "enabled must be 0 or 1");
  matcher ← row_to_matcher r;
  ipv6 ← ok_or (ipv6_policy_from_str (rr_ipv6_policy r)) (ErrInvalidRule (rr_id r) "ipv6_policy {value} is unsupported");
  Ok {| rule_id := rr_id r; rule_priority := rr_priority r; rule_enabled := enabled; rule_matcher := matcher;
        rule_group_id := rr_group_id r; rule_ipv6 := ipv6 |}.

Definition dns_transport_from_row (r : UpstreamRow) : store DnsUpstreamTransport :=
  if String.eqb (ur_transport r) "udp" then Ok TransportUdp
  else if String.eqb (ur_transport r) "https" then
    h ← ok_or (ur_host r) (ErrInvalidUpstream (ur_id r) "host is required for HTTPS DNS upstream");
    Ok (TransportHttps {| host := h; path := default "/dns-query" (ur_path r) |})
  else Err (ErrInvalidUpstream (ur_id r) "transport {other} is unsupported").

Definition row_to_dns_upstream (r : UpstreamRow) : store DnsUpstream :=
  let bad m := ErrInvalidUpstream (ur_id r) m in
  enabled ← ok_or (bool_from_i64 (ur_enabled r)) (bad "enabled must be 0 or 1");
  address ← ok_or (parse_socket_addr (ur_address r)) (bad "address must be a socket address: {error}");
  priority ← ok_or (u32_from_i64 (ur_priority r)) (bad "priority must fit u32");
  transport ← dns_transport_from_row r;
  Ok {| upstream_id := ur_id r; upstream_address := address; upstream_transport := transport;
        upstream_enabled := enabled; upstream_priority := priority |}.

(** [select ... order by ...] and the conversion of its rows. *)
Definition select_rows {R A} (order : R → R → comparison) (row_to : R → store A) (table : list R) : store (list A) :=
  collect_ok row_to (sort_by order table).

Definition node_rank (id : string) : Z := if String.eqb id "default-node" then 0 else 1.
Definition node_row_order (a b : NodeRow) : comparison :=
  then_with (cmp (node_rank (nr_id a)) (node_rank (nr_id b))) (cmp (nr_id a) (nr_id b)).
Definition group_row_order (a b : GroupRow) : comparison := cmp (gr_id a) (gr_id b).
Definition member_row_order (a b : MemberRow) : comparison :=
  then_with (cmp (mr_group_id a) (mr_group_id b))
    (then_with (cmp (mr_priority a) (mr_priority b)) (cmp (mr_node_id a) (mr_node_id b))).
Definition rule_row_order (a b : RuleRow) : comparison :=
  then_with (cmp (rr_priority b) (rr_priority a)) (cmp (rr_id a) (rr_id b)).
Definition upstream_row_order (a b : UpstreamRow) : comparison :=
  then_with (cmp (ur_priority a) (ur_priority b)) (cmp (ur_id a) (ur_id b)).

Definition load_nodes (t : Tables) := select_rows node_row_order row_to_node (runtime_nodes t).
Definition load_groups (t : Tables) := select_rows group_row_order row_to_group (runtime_forward_groups t).
Definition load_group_members (t : Tables) := select_rows member_row_order row_to_group_member (runtime_group_members t).
Definition load_route_rules (t : Tables) := select_rows rule_row_order row_to_route_rule (runtime_route_rules t).
Definition load_dns_upstreams (t : Tables) := select_rows upstream_row_order row_to_dns_upstream (runtime_dns_upstreams t).

Definition meta_value (t : Tables) (key : string) : option string := runtime_meta t !! key.

Definition dns_strategy_from_str (s : string) : option DnsRaceStrategy :=
  if String.eqb s "parallel" then Some Parallel else None.

Definition load_dns_policy (t : Tables) : store DnsRacePolicy :=
  s ← ok_or (meta_value t "dns_race_strategy") (ErrBootstrapMessage "missing dns_race_strategy");
  strategy ← ok_or (dns_strategy_from_str s) (ErrBootstrapMessage "dns_race_strategy {value} is unsupported");
  v ← ok_or (meta_value t "dns_race_timeout_ms") (ErrBootstrapMessage "missing dns_race_timeout_ms");
  ms ← ok_or (parse_uint 64 v) (ErrBootstrapMessage "dns_race_timeout_ms must be an integer: {error}");
  Ok {| dns_timeout := from_millis ms; dns_strategy := strategy |}.

Definition load_ipv6_enabled (t : Tables) : store bool :=
  match meta_value t "ipv6_enabled" with
  | Some v =>
      if String.eqb v "1" then Ok true else if String.eqb v "0" then Ok false
      else Err (ErrBootstrapMessage "ipv6_enabled must be 0 or 1, got {value}")
  | None => Ok false
  end.

Definition load_bootstrap (t : Tables) : store RuntimeBootstrap :=
  if negb (bool_decide (meta_value t "schema_version" = Some SCHEMA_VERSION)) then
    Err (ErrBootstrapMessage "runtime store schema_version must be {SCHEMA_VERSION}")
  else
    default_gid ← ok_or (meta_value t "default_group_id") (ErrBootstrapMessage "missing default_group_id");
    ipv6 ← load_ipv6_enabled t;
    nodes ← load_nodes t;
    groups ← load_groups t;
    members ← load_group_members t;
    rules ← load_route_rules t;
    upstreams ← load_dns_upstreams t;
    policy ← load_dns_policy t;
    _ ← lift_validation (validate_bootstrap nodes default_gid groups members rules upstreams policy);
    Ok {| boot_ipv6_enabled := ipv6; boot_nodes := nodes; boot_default_group_id := default_gid;
          boot_groups := groups; boot_group_members := members; boot_route_rules := rules;
          boot_dns_upstreams := upstreams; boot_dns_policy := policy |}.

Definition replace_and_load_bootstrap (t : Tables) (seed : RuntimeSeed) (failure : option SqlxError)
    : Tables * store RuntimeBootstrap :=
  let '(t', r) := replace_bootstrap t seed failure in
  (t', _ ← r; load_bootstrap t').

(** ** What the store keeps of a seed

    Everything except what the columns cannot hold: sample counts and session limits
    above [i64::MAX] saturate, the race timeout is cut to milliseconds, domain matchers
    are lower-cased, and the tables come back in the order of their queries. *)
Definition keep_thresholds (t : GroupThresholds) : GroupThresholds :=
  {| min_success_rate_ppm := min_success_rate_ppm t; min_samples := u64_to_i64 (min_samples t);
     max_active_sessions := option_map u64_to_i64 (max_active_sessions t) |}.

Definition keep_group (g : ForwardGroup) : ForwardGroup :=
  {| group_id := group_id g; group_enabled := group_enabled g; group_scheduler := group_scheduler g;
     group_thresholds := keep_thresholds (group_thresholds g); group_next := named (next_label (group_next g)) |}.

Definition keep_matcher (m : RouteMatcher) : RouteMatcher :=
  match m with
  | DomainExact v => DomainExact (to_ascii_lowercase v)
  | DomainSuffix v => DomainSuffix (to_ascii_lowercase v)
  | _ => m
  end.

Definition keep_rule (r : RouteRule) : RouteRule :=
  {| rule_id := rule_id r; rule_priority := rule_priority r; rule_enabled := rule_enabled r;
     rule_matcher := keep_matcher (rule_matcher r); rule_group_id := rule_group_id r; rule_ipv6 := rule_ipv6 r |}.

Definition keep_policy (p : DnsRacePolicy) : DnsRacePolicy :=
  {| dns_timeout := from_millis (as_millis (dns_timeout p)); dns_strategy := dns_strategy p |}.

Definition on {A B} (f : A → B) (c : B → B → comparison) (x y : A) : comparison := c (f x) (f y).

Definition kept_seed (s : RuntimeSeed) : RuntimeSeed :=
  {| seed_ipv6_enabled := seed_ipv6_enabled s;
     seed_nodes := sort_by (on node_to_row node_row_order) (seed_nodes s);
     seed_default_group_id := seed_default_group_id s;
     seed_groups := List.map keep_group (sort_by (on group_to_row group_row_order) (seed_groups s));
     seed_group_members := sort_by (on member_to_row member_row_order) (seed_group_members s);
     seed_route_rules := List.map keep_rule (sort_by (on rule_to_row rule_row_order) (seed_route_rules s));
     seed_dns_upstreams := sort_by (on upstream_to_row upstream_row_order) (seed_dns_upstreams s);
     seed_dns_policy := keep_policy (seed_dns_policy s) |}.

Definition bootstrap_of (s : RuntimeSeed) : RuntimeBootstrap :=
  {| boot_ipv6_enabled := seed_ipv6_enabled s; boot_nodes := seed_nodes s;
     boot_default_group_id := seed_default_group_id s; boot_groups := seed_groups s;
     boot_group_members := seed_group_members s; boot_route_rules := seed_route_rules s;
     boot_dns_upstreams := seed_dns_upstreams s; boot_dns_policy := seed_dns_policy s |}.

(** The values have the types of the Rust structures. *)
Definition thresholds_typed (t : GroupThresholds) : Prop :=
  in_u 32 (min_success_rate_ppm t) ∧ in_u 64 (min_samples t) ∧ (∀ z, max_active_sessions t = Some z → in_u 64 z).

(** The text of an address is read back; [std] prints and parses addresses so. *)
Definition matcher_readable (m : RouteMatcher) : Prop :=
  match m with IpExact a => parse_ip (ip_to_string a) = Some a | _ => True end.

Record seed_typed (s : RuntimeSeed) : Prop := {
  st_groups : Forall (λ g, thresholds_typed (group_thresholds g)) (seed_groups s);
  st_members : Forall (λ m, in_u 32 (member_priority m)) (seed_group_members s);
  st_upstreams : Forall (λ u, in_u 32 (upstream_priority u)) (seed_dns_upstreams s);
  st_matchers : Forall (λ r, matcher_readable (rule_matcher r)) (seed_route_rules s);
  st_addresses : Forall (λ u, parse_socket_addr (socket_to_string (upstream_address u)) = Some (upstream_address u))
    (seed_dns_upstreams s) }.

(** ** Rows and values *)
Lemma bool_round b : bool_from_i64 (bool_to_i64 b) = Some b.
Proof. by destruct b. Qed.

Lemma u32_round z : in_u 32 z → u32_from_i64 z = Some z.
Proof. intros Hz. unfold u32_from_i64. case_match; [done|]. unfold in_u in Hz. bool_hyps; lia. Qed.

Lemma u64_to_i64_nonneg z : in_u 64 z → (0 ≤ u64_to_i64 z)%Z.
Proof. intros [? _]. unfold u64_to_i64, I64_MAX. case_match; lia. Qed.

Lemma u64_round z : in_u 64 z → u64_from_i64 (u64_to_i64 z) = Some (u64_to_i64 z).
Proof. intros Hz%u64_to_i64_nonneg. unfold u64_from_i64. case_match; [done|]. lia. Qed.

Lemma row_node n : row_to_node (node_to_row n) = Ok n.
Proof. destruct n as [? ? e ? v]. by destruct e, v. Qed.

Lemma row_group g : thresholds_typed (group_thresholds g) → row_to_group (group_to_row g) = Ok (keep_group g).
Proof.
  intros (Hp & Hs & Ha). unfold row_to_group, group_to_row; cbn [gr_enabled gr_scheduler gr_min_success_rate_ppm gr_min_samples gr_max_active_sessions gr_id gr_next].
  rewrite bool_round, u32_round, u64_round by done. destruct (group_scheduler g) eqn:Es. cbn.
  unfold keep_group, keep_thresholds. rewrite Es. destruct (max_active_sessions (group_thresholds g)) as [z|]; cbn; [|done].
  by rewrite u64_round by by apply Ha.
Qed.

Lemma row_member m : in_u 32 (member_priority m) → row_to_group_member (member_to_row m) = Ok m.
Proof.
  intros Hp. unfold row_to_group_member, member_to_row. cbn [mr_enabled mr_priority mr_group_id mr_node_id].
  rewrite bool_round, u32_round by done. by destruct m.
Qed.

Lemma row_rule r : matcher_readable (rule_matcher r) → row_to_route_rule (rule_to_row r) = Ok (keep_rule r).
Proof.
  destruct r as [id pr en m gid v6]; intros Hm. unfold row_to_route_rule, rule_to_row. cbn in Hm.
  destruct m as [v|v|a|v]; cbn -[ip_to_string parse_ip]; rewrite bool_round; cbn -[ip_to_string parse_ip].
  3: rewrite Hm.
  all: by destruct v6.
Qed.

Lemma row_upstream u :
  in_u 32 (upstream_priority u) → parse_socket_addr (socket_to_string (upstream_address u)) = Some (upstream_address u) →
  row_to_dns_upstream (upstream_to_row u) = Ok u.
Proof.
  destruct u as [id addr tr en pr]; cbn; intros Hp Ha. unfold row_to_dns_upstream, upstream_to_row.
  destruct tr as [|[h p]]; cbn -[parse_socket_addr socket_to_string]; by rewrite bool_round, Ha, u32_round by done.
Qed.

(** ** Tables *)
Lemma insert_row_Ok {K R} `{EqDecision K} (key : R → K) t r t' :
  insert_row key t r = Ok t' ↔ (key r ∉ List.map key t) ∧ t' = (t ++ [r])%list.
Proof.
  unfold insert_row. assert (existsb (λ r', bool_decide (key r' = key r)) t = true ↔ key r ∈ List.map key t) as Hex.
  { rewrite existsb_Exists, list_elem_of_In, in_map_iff. split.
    - intros (x & Hx & He%bool_decide_eq_true). exists x. by rewrite <- list_elem_of_In.
    - intros (x & He & Hx). exists x. rewrite list_elem_of_In. by rewrite bool_decide_eq_true. }
  destruct (existsb _ t); split.
  - done.
  - intros [Hn _]. exfalso. by apply Hn, Hex.
  - intros [= <-]. split; [|done]. rewrite <- Hex. done.
  - by intros [_ ->].
Qed.

Lemma insert_rows_Ok {A K R} `{EqDecision K} (key : R → K) (to_row : A → R) t l t' :
  for_each (λ t x, insert_row key t (to_row x)) t l = Ok t' ↔
    NoDup (List.map (key ∘ to_row) l) ∧ (∀ x, x ∈ l → key (to_row x) ∉ List.map key t) ∧
    t' = (t ++ List.map to_row l)%list.
Proof.
  revert t. induction l as [|x l IH]; intros t; cbn [for_each List.map].
  { rewrite app_nil_r. split; [intros [= <-]|by intros (_ & _ & ->)]. split_and!; [constructor|by intros ? ?%elem_of_nil|done]. }
  rewrite outcome_bind_Ok_inv, NoDup_cons. split.
  - intros (t1 & [Hx ->]%insert_row_Ok & (Hnd & Hfresh & ->)%IH). rewrite map_app in Hfresh.
    split_and!; [|done| |by rewrite <- app_assoc].
    + intros (y & He & Hy)%list_elem_of_In%in_map_iff. apply (Hfresh y); [by apply list_elem_of_In|].
      apply elem_of_app. right. unfold compose in He. rewrite He. by left.
    + intros y [->|Hy]%elem_of_cons; [done|]. intros Hin. apply (Hfresh y Hy), elem_of_app. by left.
  - intros ([Hx Hnd] & Hfresh & ->). exists (t ++ [to_row x])%list. rewrite insert_row_Ok.
    split; [split; [apply Hfresh; by left|done]|]. apply IH. split_and!; [done| |by rewrite <- app_assoc].
    intros y Hy. rewrite map_app. intros [Hin|Hin%list_elem_of_singleton]%elem_of_app.
    + apply (Hfresh y); [by right|done].
    + apply Hx. apply list_elem_of_In, in_map_iff. exists y. split; [done|]. by apply list_elem_of_In.
Qed.

Lemma sort_insert_map {A R} (c : R → R → comparison) (f : A → R) x l :
  sort_insert c (f x) (List.map f l) = List.map f (sort_insert (on f c) x l).
Proof.
  induction l as [|y l IH]; [done|]. cbn [List.map sort_insert]. unfold cmp_leb at 1, on at 1, cmp_leb at 1.
  destruct (c (f x) (f y)); cbn; rewrite ?IH; done.
Qed.

Lemma sort_by_map {A R} (c : R → R → comparison) (f : A → R) l :
  sort_by c (List.map f l) = List.map f (sort_by (on f c) l).
Proof.
  induction l as [|x l IH]; [done|]. cbn [List.map].
  change (sort_insert c (f x) (sort_by c (List.map f l)) = List.map f (sort_insert (on f c) x (sort_by (on f c) l))).
  by rewrite IH, sort_insert_map.
Qed.

(** A table that was filled from values loads as these values in query order. *)
Lemma select_rows_map {R A B} (order : R → R → comparison) (row_to : R → store B) (to_row : A → R) (keep : A → B) l :
  (∀ x, x ∈ l → row_to (to_row x) = Ok (keep x)) →
  select_rows order row_to (List.map to_row l) = Ok (List.map keep (sort_by (on to_row order) l)).
Proof.
  intros Hrow. unfold select_rows. rewrite sort_by_map. apply collect_ok_Forall2.
  assert (∀ x, x ∈ sort_by (on to_row order) l → row_to (to_row x) = Ok (keep x)) as Hs.
  { intros x Hx. apply Hrow. by apply elem_of_sort_by in Hx. }
  revert Hs. generalize (sort_by (on to_row order) l) as l'. intros l'. induction l' as [|x l' IH]; intros Hs; cbn; constructor.
  - apply Hs. by left.
  - apply IH. intros y Hy. apply Hs. by right.
Qed.

(** ** The kept seed is as well formed as the seed *)
Section kept.
Context (s : RuntimeSeed).
Let gs := seed_groups s.
Let gs' := seed_groups (kept_seed s).
Let ns := seed_nodes s.
Let ns' := seed_nodes (kept_seed s).

Lemma kept_nodes_perm : ns' ≡ₚ ns.
Proof. apply sort_by_perm. Qed.

Lemma kept_group_ids : List.map group_id gs' ≡ₚ List.map group_id gs.
Proof.
  unfold gs', kept_seed. cbn. rewrite map_map.
  change (List.map (λ x, group_id (keep_group x)) ?l) with (List.map group_id l). apply Permutation_map, sort_by_perm.
Qed.

Lemma elem_kept_group g' : g' ∈ gs' ↔ ∃ g, g ∈ gs ∧ g' = keep_group g.
Proof.
  unfold gs', kept_seed. cbn. rewrite list_elem_of_In, in_map_iff. split.
  - intros (g & <- & Hg%list_elem_of_In). exists g. split; [|done]. by apply elem_of_sort_by in Hg.
  - intros (g & Hg & ->). exists g. split; [done|]. apply list_elem_of_In. by apply elem_of_sort_by.
Qed.

Lemma kept_names : (List.map node_id ns' ++ List.map group_id gs')%list ≡ₚ (List.map node_id ns ++ List.map group_id gs)%list.
Proof. apply Permutation_app; [apply Permutation_map, kept_nodes_perm|apply kept_group_ids]. Qed.

Lemma keep_next_label g : next_label (group_next (keep_group g)) = next_label (group_next g).
Proof.
  cbn. unfold named. destruct (String.eqb _ DIRECT_AUDIT_OUTLET) eqn:E; [|done].
  apply String.eqb_eq in E. by rewrite E.
Qed.

Lemma find_kept_group id : NoDup (List.map group_id gs) → find_group gs' id = option_map keep_group (find_group gs id).
Proof.
  intros Hnd. assert (NoDup (List.map group_id gs')) as Hnd' by (by rewrite kept_group_ids).
  destruct (find_group gs id) as [g|] eqn:E; cbn.
  - apply find_group_Some in E as [Hg <-].
    apply (find_key_unique group_id gs' (keep_group g)); [done|]. apply elem_kept_group. by exists g.
  - destruct (find_group gs' id) as [g'|] eqn:E'; [|done]. exfalso.
    apply find_group_Some in E' as [(g & Hg & ->)%elem_kept_group <-]. change (group_id (keep_group g)) with (group_id g) in E.
    unfold find_group in E. by rewrite (find_key_unique group_id) in E.
Qed.

Lemma existsb_perm {A} (p : A → bool) l l' : l ≡ₚ l' → existsb p l = existsb p l'.
Proof.
  intros Hp. apply eq_true_iff_eq. rewrite !existsb_Exists. by setoid_rewrite Hp.
Qed.

Lemma kept_next_group id : NoDup (List.map group_id gs) → next_group ns' gs' id = next_group ns gs id.
Proof.
  intros Hnd. unfold next_group. rewrite find_kept_group by done. destruct (find_group gs id) as [g|]; [|done].
  cbn [option_map]. cbv zeta.
  rewrite keep_next_label. by rewrite (existsb_perm _ _ _ kept_nodes_perm).
Qed.

Lemma kept_next_iter k id : NoDup (List.map group_id gs) → next_iter ns' gs' k id = next_iter ns gs k id.
Proof.
  intros Hnd. revert id. induction k as [|k IH]; intros id; cbn; [done|]. rewrite kept_next_group by done.
  destruct (next_group ns gs id); [apply IH|done].
Qed.

Lemma kept_well_formed :
  well_formed s → (1000000 ≤ dns_timeout (seed_dns_policy s))%Z → well_formed (kept_seed s).
Proof.
  intros [Hn Hres Hrid Hdid Hne (g & Hg & Hgd & Hge) (m & Hm & Hmg & Hme) Hms Hrs Hnx Hac (u & Hu & Hue) Hep Ht] Hms'.
  assert (NoDup (List.map group_id gs)) as Hnd by (by apply NoDup_app in Hn as (_ & _ & ?)).
  constructor.
  - change (NoDup (List.map node_id ns' ++ List.map group_id gs')%list). by rewrite kept_names.
  - change (DIRECT_AUDIT_OUTLET ∉ (List.map node_id ns' ++ List.map group_id gs')%list). by rewrite kept_names.
  - cbn. rewrite map_map. change (List.map (λ x, rule_id (keep_rule x)) ?l) with (List.map rule_id l).
    by rewrite (sort_by_perm _ (seed_route_rules s)).
  - cbn. by rewrite (sort_by_perm _ (seed_dns_upstreams s)).
  - intros Hnil. apply Hne. apply Permutation_nil. rewrite <- Hnil. apply kept_nodes_perm.
  - exists (keep_group g). split_and!; [apply elem_kept_group; by exists g|done|done].
  - exists m. split_and!; [by apply elem_of_sort_by|done|done].
  - intros m' Hm'. cbn in Hm'. apply elem_of_sort_by in Hm'. destruct (Hms m' Hm') as [(g' & Hg' & Heq) (n & Hn' & Heqn)]. split.
    + exists (keep_group g'). split; [apply elem_kept_group; by exists g'|done].
    + exists n. split; [by apply elem_of_sort_by|done].
  - intros r' Hr'. cbn in Hr'. apply list_elem_of_In, in_map_iff in Hr' as (r & <- & Hr%list_elem_of_In).
    apply elem_of_sort_by in Hr. destruct (Hrs r Hr) as (g' & Hg' & Heq). exists (keep_group g').
    split; [apply elem_kept_group; by exists g'|done].
  - intros g' (g0 & Hg0 & ->)%elem_kept_group. unfold next_valid. rewrite keep_next_label.
    destruct (Hnx g0 Hg0) as [Hd|[(n & Hn' & Hid & Hen)|(g1 & Hg1 & Hid & Hen)]]; [by left|right; left|right; right].
    + exists n. split_and!; [by apply elem_of_sort_by|done|done].
    + exists (keep_group g1). split_and!; [apply elem_kept_group; by exists g1|done|done].
  - intros g' (g0 & Hg0 & ->)%elem_kept_group. destruct (Hac g0 Hg0) as [k Hk]. exists k.
    change (next_iter ns' gs' k (group_id g0) = None). by rewrite kept_next_iter.
  - exists u. split; [by apply elem_of_sort_by|done].
  - intros u' Hu'. cbn in Hu'. apply elem_of_sort_by in Hu'. by apply Hep.
  - cbn. unfold from_millis, as_millis. assert (1 ≤ dns_timeout (seed_dns_policy s) / 1000000)%Z by (apply Z.div_le_lower_bound; lia). lia.
Qed.
End kept.

(** ** Storing and loading *)
Lemma replace_tables_Ok t s t' :
  replace_tables t s = Ok t' →
  runtime_nodes t' = List.map node_to_row (seed_nodes s) ∧
  runtime_forward_groups t' = List.map group_to_row (seed_groups s) ∧
  runtime_group_members t' = List.map member_to_row (seed_group_members s) ∧
  runtime_route_rules t' = List.map rule_to_row (seed_route_rules s) ∧
  runtime_dns_upstreams t' = List.map upstream_to_row (seed_dns_upstreams s) ∧
  runtime_meta t' = insert_dns_policy (set_meta "ipv6_enabled" (if seed_ipv6_enabled s then "1" else "0")
    (set_meta "default_group_id" (seed_default_group_id s) (runtime_meta t))) (seed_dns_policy s).
Proof.
  unfold replace_tables. intros H.
  apply outcome_bind_Ok_inv in H as (a & (_ & _ & ->)%(insert_rows_Ok nr_id node_to_row) & H).
  apply outcome_bind_Ok_inv in H as (b & (_ & _ & ->)%(insert_rows_Ok gr_id group_to_row) & H).
  apply outcome_bind_Ok_inv in H as (c & (_ & _ & ->)%(insert_rows_Ok member_key member_to_row) & H).
  apply outcome_bind_Ok_inv in H as (d & (_ & _ & ->)%(insert_rows_Ok rr_id rule_to_row) & H).
  apply outcome_bind_Ok_inv in H as (e & (_ & _ & ->)%(insert_rows_Ok ur_id upstream_to_row) & H).
  injection H as <-. by cbn.
Qed.

Definition member_pair (m : GroupMember) : string * string := (member_group_id m, member_node_id m).

Lemma fresh_rows {A K R} `{EqDecision K} (key : R → K) (to_row : A → R) (l : list A) :
  NoDup (List.map (key ∘ to_row) l) → for_each (λ t x, insert_row key t (to_row x)) [] l = Ok (List.map to_row l).
Proof.
  intros Hnd. apply insert_rows_Ok. split_and!; [done| |done]. by intros x _ ?%elem_of_nil.
Qed.

Lemma rule_row_id r : rr_id (rule_to_row r) = rule_id r.
Proof. unfold rule_to_row. by destruct (rule_matcher r). Qed.

Lemma upstream_row_id u : ur_id (upstream_to_row u) = upstream_id u.
Proof. unfold upstream_to_row. by destruct (upstream_transport u). Qed.

Lemma replace_tables_total t s :
  well_formed s → NoDup (List.map member_pair (seed_group_members s)) → ∃ t', replace_tables t s = Ok t'.
Proof.
  intros Hwf Hm. pose proof (wf_names _ Hwf) as (Hn & _ & Hg)%NoDup_app.
  unfold replace_tables.
  rewrite (fresh_rows nr_id node_to_row (seed_nodes s) Hn : for_each insert_node [] _ = _). cbn [mbind outcome_bind].
  rewrite (fresh_rows gr_id group_to_row (seed_groups s) Hg : for_each insert_group [] _ = _). cbn [mbind outcome_bind].
  rewrite (fresh_rows member_key member_to_row (seed_group_members s) Hm : for_each insert_group_member [] _ = _). cbn [mbind outcome_bind].
  assert (NoDup (List.map (rr_id ∘ rule_to_row) (seed_route_rules s))) as Hr.
  { rewrite (map_ext (rr_id ∘ rule_to_row) rule_id); [apply Hwf|apply rule_row_id]. }
  rewrite (fresh_rows rr_id rule_to_row (seed_route_rules s) Hr : for_each insert_route_rule [] _ = _). cbn [mbind outcome_bind].
  assert (NoDup (List.map (ur_id ∘ upstream_to_row) (seed_dns_upstreams s))) as Hu.
  { rewrite (map_ext (ur_id ∘ upstream_to_row) upstream_id); [apply Hwf|apply upstream_row_id]. }
  rewrite (fresh_rows ur_id upstream_to_row (seed_dns_upstreams s) Hu : for_each insert_dns_upstream [] _ = _). cbn [mbind outcome_bind].
  by eexists.
Qed.

Lemma select_rows_same {R A} (order : R → R → comparison) (row_to : R → store A) (to_row : A → R) l :
  (∀ x, x ∈ l → row_to (to_row x) = Ok x) →
  select_rows order row_to (List.map to_row l) = Ok (sort_by (on to_row order) l).
Proof.
  intros H. rewrite (select_rows_map order row_to to_row id) by done. by rewrite map_id.
Qed.

Lemma load_stored t s t' :
  meta_value t "schema_version" = Some SCHEMA_VERSION → well_formed s → seed_typed s →
  (1000000 ≤ dns_timeout (seed_dns_policy s))%Z → in_u 64 (as_millis (dns_timeout (seed_dns_policy s))) →
  replace_tables t s = Ok t' → load_bootstrap t' = Ok (bootstrap_of (kept_seed s)).
Proof.
  intros Hv Hwf [Hg Hm Hu Hr Ha] Hms Hmax (En & Eg & Em & Er & Eu & Emeta)%replace_tables_Ok.
  pose proof (kept_well_formed s Hwf Hms) as Hkwf. apply validate_seed_ok in Hkwf.
  rewrite Forall_forall in Hg. rewrite Forall_forall in Hm. rewrite Forall_forall in Hu. rewrite Forall_forall in Hr. rewrite Forall_forall in Ha.
  unfold load_bootstrap, meta_value. rewrite Emeta. unfold insert_dns_policy, set_meta.
  rewrite !lookup_insert_ne by done. unfold meta_value in Hv. rewrite Hv, bool_decide_eq_true_2 by done. cbn [negb].
  rewrite lookup_insert_eq. cbn [ok_or mbind outcome_bind].
  assert (load_ipv6_enabled t' = Ok (seed_ipv6_enabled s)) as ->.
  { unfold load_ipv6_enabled, meta_value. rewrite Emeta. unfold insert_dns_policy, set_meta.
    rewrite !lookup_insert_ne, lookup_insert_eq by done. by destruct (seed_ipv6_enabled s). }
  cbn [mbind outcome_bind]. unfold load_nodes, load_groups, load_group_members, load_route_rules, load_dns_upstreams.
  rewrite En, Eg, Em, Er, Eu.
  rewrite (select_rows_same node_row_order row_to_node node_to_row) by (intros; apply row_node). cbn [mbind outcome_bind].
  rewrite (select_rows_map group_row_order row_to_group group_to_row keep_group) by (intros; by apply row_group, Hg). cbn [mbind outcome_bind].
  rewrite (select_rows_same member_row_order row_to_group_member member_to_row) by (intros; by apply row_member, Hm). cbn [mbind outcome_bind].
  rewrite (select_rows_map rule_row_order row_to_route_rule rule_to_row keep_rule) by (intros; by apply row_rule, Hr). cbn [mbind outcome_bind].
  rewrite (select_rows_same upstream_row_order row_to_dns_upstream upstream_to_row) by (intros; apply row_upstream; [by apply Hu|by apply Ha]). cbn [mbind outcome_bind].
  assert (load_dns_policy t' = Ok (keep_policy (seed_dns_policy s))) as ->.
  { unfold load_dns_policy, meta_value. rewrite Emeta. unfold insert_dns_policy, set_meta.
    rewrite (lookup_insert_ne _ "dns_race_timeout_ms" "dns_race_strategy"), !lookup_insert_eq by done. cbn [ok_or mbind outcome_bind].
    destruct (dns_strategy (seed_dns_policy s)) eqn:Es. cbn [strategy_str].
    change (dns_strategy_from_str "parallel") with (Some Parallel). cbn [ok_or mbind outcome_bind].
    rewrite parse_uint_to_string by (done || lia). cbn [ok_or mbind outcome_bind]. unfold keep_policy. by rewrite Es. }
  cbn [mbind outcome_bind]. unfold validate_seed in Hkwf. cbn [kept_seed seed_nodes seed_default_group_id seed_groups seed_group_members seed_route_rules seed_dns_upstreams seed_dns_policy] in Hkwf.
  rewrite Hkwf. done.
Qed.

(** C8: the round trip through the store: a seed that validation accepts, whose values
    fit their Rust types, whose members are listed once and whose race timeout is at
    least a millisecond, is stored in one transaction and loads as itself, in the order
    of the queries and up to what the columns cannot hold ([kept_seed]); and the loaded
    configuration passes validation again. *)
Theorem bootstrap_roundtrip t s :
  meta_value t "schema_version" = Some SCHEMA_VERSION →
  validate_seed s = Ok tt → seed_typed s →
  NoDup (List.map member_pair (seed_group_members s)) →
  (1000000 ≤ dns_timeout (seed_dns_policy s))%Z → in_u 64 (as_millis (dns_timeout (seed_dns_policy s))) →
  (replace_and_load_bootstrap t s None).2 = Ok (bootstrap_of (kept_seed s)) ∧
  validate_seed (kept_seed s) = Ok tt.
Proof.
  intros Hv Hval Ht Hm Hms Hmax. pose proof (proj1 (validate_seed_ok s) Hval) as Hwf.
  split; [|by apply validate_seed_ok, kept_well_formed].
  unfold replace_and_load_bootstrap, replace_bootstrap. rewrite Hval. cbn [lift_validation].
  destruct (replace_tables_total t s Hwf Hm) as [t' Et]. rewrite Et. cbn [snd mbind outcome_bind].
  by eapply load_stored.
Qed.

Lemma replace_tables_fails t s :
  well_formed s → ¬ NoDup (List.map member_pair (seed_group_members s)) → ∃ e, replace_tables t s = Err e.
Proof.
  intros Hwf Hm. destruct (replace_tables t s) as [t'|e|] eqn:E; [|by exists e|].
  - exfalso. apply Hm. unfold replace_tables in E.
    apply outcome_bind_Ok_inv in E as (a & _ & E). apply outcome_bind_Ok_inv in E as (b & _ & E).
    apply outcome_bind_Ok_inv in E as (c & (Hnd & _ & _)%(insert_rows_Ok member_key member_to_row) & _). done.
  - exfalso. assert (no_panic (replace_tables t s)) as Hnp; [|by rewrite E in Hnp].
    unfold replace_tables, insert_node, insert_group, insert_group_member, insert_route_rule, insert_dns_upstream, insert_row.
    no_panics.
Qed.

(** storing a configuration is all or nothing and never panics: it fails exactly
    when validation rejects the seed, when SQLite reports a failure, or when a group
    lists a node twice, which validation does not look at; and when it fails the tables
    are as they were. *)
Theorem replace_bootstrap_error t s failure :
  ((∃ e, (replace_bootstrap t s failure).2 = Err e) ↔
     validate_seed s ≠ Ok tt ∨ failure ≠ None ∨ ¬ NoDup (List.map member_pair (seed_group_members s))) ∧
  no_panic (replace_bootstrap t s failure).2 ∧
  (∀ e, (replace_bootstrap t s failure).2 = Err e → (replace_bootstrap t s failure).1 = t).
Proof.
  unfold replace_bootstrap. pose proof (validate_seed_no_panic s) as Hnp.
  destruct (validate_seed s) as [[]|e|] eqn:Hv; cbn [lift_validation]; [|by split_and!; [split; [by left|by exists (ErrValidation e)]|..]|done].
  apply validate_seed_ok in Hv. destruct failure as [e|].
  { cbn. split_and!; [|done|done]. split; [right; by left|by exists (ErrSqlx e)]. }
  destruct (decide (NoDup (List.map member_pair (seed_group_members s)))) as [Hm|Hm].
  - destruct (replace_tables_total t s Hv Hm) as [t' ->]. cbn. split_and!; [|done|done].
    split; [by intros [e ?]|]. by intros [?|[?|?]].
  - destruct (replace_tables_fails t s Hv Hm) as [e ->]. cbn. split_and!; [|done|done].
    split; [|by exists e]. intros _. right. by right.
Qed.

(** A seed with an IPv6 rule, an HTTPS upstream and a saturating threshold. *)
Definition store_demo : RuntimeSeed :=
  {| seed_ipv6_enabled := true;
     seed_nodes := [new_node "zeta" "vless" true; new_node "default-node" "direct" true];
     seed_default_group_id := "entry";
     seed_groups := [{| group_id := "entry"; group_enabled := true; group_scheduler := SingleFirstEnabled;
       group_thresholds := {| min_success_rate_ppm := 980000; min_samples := 2 ^ 63; max_active_sessions := Some 8%Z |};
       group_next := DirectAuditOutlet |}];
     seed_group_members := [default_member "zeta" "entry"; default_member "default-node" "entry"];
     seed_route_rules :=
       [{| rule_id := "r"; rule_priority := 5; rule_enabled := true;
           rule_matcher := IpExact (V6 42540766411282592856903984951653826561); rule_group_id := "entry"; rule_ipv6 := Deny |};
        {| rule_id := "d"; rule_priority := 5; rule_enabled := true;
           rule_matcher := DomainSuffix "GitHub.com"; rule_group_id := "entry"; rule_ipv6 := Inherit |}];
     seed_dns_upstreams :=
       [{| upstream_id := "doh"; upstream_address := socket_addr (V4 16843009) 443;
           upstream_transport := TransportHttps {| host := "one.one"; path := "/dns-query" |};
           upstream_enabled := true; upstream_priority := 1 |}];
     seed_dns_policy := default_parallel |}.

Lemma bootstrap_roundtrip_witness :
  (replace_and_load_bootstrap fresh_tables store_demo None).2 = Ok (bootstrap_of (kept_seed store_demo)) ∧
  validate_seed (kept_seed store_demo) = Ok tt.
Proof.
  apply (bootstrap_roundtrip fresh_tables store_demo).
  - reflexivity.
  - vm_compute. reflexivity.
  - split; repeat apply Forall_cons_2; try apply Forall_nil_2; cbn; try reflexivity; try (split; [by vm_compute|reflexivity]).
    split_and!; [split; [by vm_compute|reflexivity]..|]. intros z [= <-]. split; [by vm_compute|reflexivity].
  - apply NoDup_cons_2; [|apply NoDup_singleton]. intros H%list_elem_of_singleton. discriminate H.
  - by vm_compute.
  - split; [by vm_compute|reflexivity].
Defined.
