(* ===== verification/Observations.v ===== *)
(** * Observations: the tables of events, decisions and sessions

    The statements of [crates/dynet-runtime/src/persistence.rs],
    [persistence/recovery.rs] and [persistence/maintenance.rs]: what is written for
    each observation, what is read back when the runtime starts, and what maintenance
    deletes. [runtime_traffic_sessions] is a map from its primary key; the tables with
    an autoincrement [row_id] are lists in the order of that id, with the id. The sum
    of two SQLite integers is taken as exact: SQLite turns a sum beyond 64 bits into a
    float, and the theorems assume that no total gets there. *)
From Stdlib Require Import ZArith Lia Strings.Byte Ascii String Sorting.Sorted.
From stdpp Require Import base list numbers option strings gmap sets.
From S2P Require Import Prelude Collections Net RustStd Model Stores Validation Traffic MatrixStats Matrix Bootstrap.
Local Open Scope string_scope.
Local Open Scope nat_scope.

(** ** Rows *)
Record SessionRow := {
  sr_session_key : string;
  sr_session_id : Z;
  sr_decision_id : option Z;
  sr_config_generation : option Z;
  sr_inbound : string;
  sr_node_protocol : option string;
  sr_peer_addr : option string;
  sr_target_addr : option string;
  sr_target_ip : option string;
  sr_target_port : option Z;
  sr_target_domain : option string;
  sr_target_source : option string;
  sr_upstream_addr : option string;
  sr_selection_groups : option string;
  sr_selection_nodes : option string;
  sr_selection_trace : option string;
  sr_started_at : Z;
  sr_closed_at : option Z;
  sr_duration : option Z;
  sr_close_reason : option string;
  sr_error_stage : option string;
  sr_error_code : option string;
  sr_error_class : option string;
  sr_error_side : option string;
  sr_error_phase : option string;
  sr_error_protocol_phase : option string;
  sr_error_score_impact : option string;
  sr_error : option string;
  sr_client_to_upstream_bytes : Z;
  sr_upstream_to_client_bytes : Z;
  sr_client_to_upstream_datagrams : Z;
  sr_upstream_to_client_datagrams : Z;
  sr_first_upstream_at : option Z;
  sr_first_downstream_at : option Z;
  sr_first_response_latency : option Z;
  sr_last_observed_at : Z;
}.

Record EventRow := { er_row_id : Z; er_event_id : Z; er_observed_at : Z; er_kind : string;
                     er_fields : gmap string string }.

Record DecisionRow := {
  dr_row_id : Z; dr_decision_id : Z; dr_config_generation : Z; dr_observed_at : Z; dr_session_id : Z;
  dr_inbound : string; dr_target_addr : string; dr_target_domain : option string; dr_target_source : string;
  dr_group_id : string; dr_matched_rule_id : option string; dr_node_id : string; dr_next : string;
  dr_reason : string; dr_scheduler : string; dr_candidate_count : Z; dr_ip_family : string;
  dr_ipv6_policy_source : option string }.

(** [candidates_json] is the list that it encodes. *)
Record ShadowRow := {
  hr_row_id : Z; hr_decision_id : Z; hr_session_id : Z; hr_observed_at : Z; hr_inbound : string;
  hr_group_id : string; hr_actual_node_id : string; hr_shadow_node_id : option string;
  hr_differs : Z; hr_reason : string; hr_candidates : list MatrixShadowCandidate }.

Record Observations := {
  runtime_events : list EventRow;
  selection_decisions : list DecisionRow;
  runtime_traffic_sessions : gmap string SessionRow;
  matrix_shadow_decisions : list ShadowRow;
  (** the last [row_id] given out in each of the three tables *)
  last_row_id : Z * Z * Z }.

Definition no_observations : Observations :=
  {| runtime_events := []; selection_decisions := []; runtime_traffic_sessions := ∅;
     matrix_shadow_decisions := []; last_row_id := (0, 0, 0)%Z |}.

(** ** [upsert_traffic_session]

    [?16] and [?31] are bound to the same value, the time of the update. *)
Definition coalesce {A} (a b : option A) : option A := match a with Some _ => a | None => b end.
Definition zero_if_null (a : option Z) : Z := default 0%Z a.

(** The row of the [values] clause, which [excluded] names in the conflict clause. *)
Definition inserted_row (u : TrafficSessionUpdate) : SessionRow :=
  let p16 := u64_to_i64 (up_observed_at u) in
  let p26 := option_map u64_to_i64 (up_client_to_upstream_bytes u) in
  let p27 := option_map u64_to_i64 (up_upstream_to_client_bytes u) in
  let p28 := option_map u64_to_i64 (up_client_to_upstream_datagram u) in
  let p29 := option_map u64_to_i64 (up_upstream_to_client_datagram u) in
  let p30 := up_closes_session u in
  let p31 := u64_to_i64 (up_observed_at u) in
  {| sr_session_key := up_session_key u;
     sr_session_id := u64_to_i64 (up_session_id u);
     sr_decision_id := option_map u64_to_i64 (up_decision_id u);
     sr_config_generation := option_map u64_to_i64 (up_config_generation u);
     sr_inbound := up_inbound u;
     sr_node_protocol := up_node_protocol u;
     sr_peer_addr := up_peer u;
     sr_target_addr := up_target u;
     sr_target_ip := up_target_ip u;
     sr_target_port := up_target_port u;
     sr_target_domain := up_target_domain u;
     sr_target_source := up_target_source u;
     sr_upstream_addr := up_upstream u;
     sr_selection_groups := up_selection_groups u;
     sr_selection_nodes := up_selection_nodes u;
     sr_selection_trace := up_selection_trace u;
     sr_started_at := p16;
     sr_closed_at := if p30 then Some p31 else None;
     sr_duration := if p30 then Some (Z.max (p31 - p16) 0) else None;
     sr_close_reason := up_close_reason u;
     sr_error_stage := up_error_stage u;
     sr_error_code := up_error_code u;
     sr_error_class := up_error_class u;
     sr_error_side := up_error_side u;
     sr_error_phase := up_error_phase u;
     sr_error_protocol_phase := up_error_protocol_phase u;
     sr_error_score_impact := up_error_score_impact u;
     sr_error := up_error u;
     sr_client_to_upstream_bytes := zero_if_null p26 + zero_if_null p28;
     sr_upstream_to_client_bytes := zero_if_null p27 + zero_if_null p29;
     sr_client_to_upstream_datagrams := match p28 with None => 0 | Some _ => 1 end;
     sr_upstream_to_client_datagrams := match p29 with None => 0 | Some _ => 1 end;
     sr_first_upstream_at := match p28 with None => None | Some _ => Some p31 end;
     sr_first_downstream_at := match p29 with None => None | Some _ => Some p31 end;
     sr_first_response_latency := match p29 with None => None | Some _ => Some (Z.max (p31 - p16) 0) end;
     sr_last_observed_at := p31 |}.

(** [on conflict(session_key) do update set ...] *)
Definition updated_row (r : SessionRow) (u : TrafficSessionUpdate) : SessionRow :=
  let excluded := inserted_row u in
  let p26 := option_map u64_to_i64 (up_client_to_upstream_bytes u) in
  let p27 := option_map u64_to_i64 (up_upstream_to_client_bytes u) in
  let p28 := option_map u64_to_i64 (up_client_to_upstream_datagram u) in
  let p29 := option_map u64_to_i64 (up_upstream_to_client_datagram u) in
  {| sr_session_key := sr_session_key r;
     sr_session_id := sr_session_id r;
     sr_decision_id := coalesce (sr_decision_id r) (sr_decision_id excluded);
     sr_config_generation := coalesce (sr_config_generation r) (sr_config_generation excluded);
     sr_inbound := sr_inbound r;
     sr_node_protocol := coalesce (sr_node_protocol excluded) (sr_node_protocol r);
     sr_peer_addr := coalesce (sr_peer_addr excluded) (sr_peer_addr r);
     sr_target_addr := coalesce (sr_target_addr excluded) (sr_target_addr r);
     sr_target_ip := coalesce (sr_target_ip excluded) (sr_target_ip r);
     sr_target_port := coalesce (sr_target_port excluded) (sr_target_port r);
     sr_target_domain := coalesce (sr_target_domain excluded) (sr_target_domain r);
     sr_target_source := coalesce (sr_target_source excluded) (sr_target_source r);
     sr_upstream_addr := coalesce (sr_upstream_addr excluded) (sr_upstream_addr r);
     sr_selection_groups := coalesce (sr_selection_groups excluded) (sr_selection_groups r);
     sr_selection_nodes := coalesce (sr_selection_nodes excluded) (sr_selection_nodes r);
     sr_selection_trace := coalesce (sr_selection_trace excluded) (sr_selection_trace r);
     sr_started_at := sr_started_at r;
     sr_closed_at := coalesce (sr_closed_at excluded) (sr_closed_at r);
     sr_duration := coalesce (sr_duration excluded) (sr_duration r);
     sr_close_reason := coalesce (sr_close_reason excluded) (sr_close_reason r);
     sr_error_stage := coalesce (sr_error_stage excluded) (sr_error_stage r);
     sr_error_code := coalesce (sr_error_code excluded) (sr_error_code r);
     sr_error_class := coalesce (sr_error_class excluded) (sr_error_class r);
     sr_error_side := coalesce (sr_error_side excluded) (sr_error_side r);
     sr_error_phase := coalesce (sr_error_phase excluded) (sr_error_phase r);
     sr_error_protocol_phase := coalesce (sr_error_protocol_phase excluded) (sr_error_protocol_phase r);
     sr_error_score_impact := coalesce (sr_error_score_impact excluded) (sr_error_score_impact r);
     sr_error := coalesce (sr_error excluded) (sr_error r);
     sr_client_to_upstream_bytes :=
       match p26 with Some b => b | None => sr_client_to_upstream_bytes r + zero_if_null p28 end;
     sr_upstream_to_client_bytes :=
       match p27 with Some b => b | None => sr_upstream_to_client_bytes r + zero_if_null p29 end;
     sr_client_to_upstream_datagrams :=
       sr_client_to_upstream_datagrams r + match p28 with None => 0 | Some _ => 1 end;
     sr_upstream_to_client_datagrams :=
       sr_upstream_to_client_datagrams r + match p29 with None => 0 | Some _ => 1 end;
     sr_first_upstream_at := coalesce (sr_first_upstream_at r) (sr_first_upstream_at excluded);
     sr_first_downstream_at := coalesce (sr_first_downstream_at r) (sr_first_downstream_at excluded);
     sr_first_response_latency := coalesce (sr_first_response_latency r) (sr_first_response_latency excluded);
     sr_last_observed_at := sr_last_observed_at excluded |}.

Definition upsert_row (r : option SessionRow) (u : TrafficSessionUpdate) : SessionRow :=
  match r with None => inserted_row u | Some r => updated_row r u end.

Definition upsert_traffic_session (m : gmap string SessionRow) (u : TrafficSessionUpdate) : gmap string SessionRow :=
  <[up_session_key u := upsert_row (m !! up_session_key u) u]> m.

(** ** The other inserts *)
Definition insert_event (o : Observations) (e : IngressEvent) : Observations :=
  let '(er, dr, hr) := last_row_id o in
  {| runtime_events :=
       (runtime_events o ++
        [{| er_row_id := er + 1; er_event_id := u64_to_i64 (event_id e); er_observed_at := u64_to_i64 (event_at e);
            er_kind := kind_str (event_kind e); er_fields := event_fields e |}])%list;
     selection_decisions := selection_decisions o;
     runtime_traffic_sessions :=
       match session_update_from_event e with
       | Some u => upsert_traffic_session (runtime_traffic_sessions o) u
       | None => runtime_traffic_sessions o
       end;
     matrix_shadow_decisions := matrix_shadow_decisions o;
     last_row_id := (er + 1, dr, hr)%Z |}.

Definition inbound_str (k : InboundKind) : string := match k with InboundTcp => "tcp" | InboundUdp => "udp" end.
Definition target_source_str (t : TargetSource) : string :=
  match t with FixedUpstream => "fixed-upstream" | ObservedDns => "observed-dns" | ExternalContext => "external-context" end.
Definition reason_str (r : SelectionReason) : string := match r with SingleNode => "single-node" end.
Definition policy_source_str (p : Ipv6PolicySource) : string :=
  match p with SourceGlobal => "global" | SourceRule => "rule" end.

Definition decision_row (row_id observed_at : Z) (c : SelectionContext) (d : SelectionDecision) : DecisionRow :=
  {| dr_row_id := row_id; dr_decision_id := u64_to_i64 (decision_id d);
     dr_config_generation := u64_to_i64 (config_generation d); dr_observed_at := u64_to_i64 observed_at;
     dr_session_id := u64_to_i64 (ctx_session_id c); dr_inbound := inbound_str (ctx_inbound c);
     dr_target_addr := socket_to_string (target_address (ctx_target c));
     dr_target_domain := target_domain (ctx_target c);
     dr_target_source := target_source_str (target_source (ctx_target c));
     dr_group_id := decision_group_id d; dr_matched_rule_id := matched_rule_id d;
     dr_node_id := decision_node_id d; dr_next := next_label (decision_next d);
     dr_reason := reason_str (reason d); dr_scheduler := scheduler_str (scheduler d);
     dr_candidate_count := u64_to_i64 (Z.of_nat (candidate_count d)); dr_ip_family := family_str (ip_family d);
     dr_ipv6_policy_source := option_map policy_source_str (ipv6_policy_source d) |}.

Definition insert_selection_decision (o : Observations) (observed_at : Z) (c : SelectionContext) (d : SelectionDecision)
    : Observations :=
  let '(er, dr, hr) := last_row_id o in
  {| runtime_events := runtime_events o;
     selection_decisions := (selection_decisions o ++ [decision_row (dr + 1) observed_at c d])%list;
     runtime_traffic_sessions := runtime_traffic_sessions o;
     matrix_shadow_decisions := matrix_shadow_decisions o;
     last_row_id := (er, dr + 1, hr)%Z |}.

Definition insert_matrix_shadow (o : Observations) (d : MatrixShadowDecision) : Observations :=
  let '(er, dr, hr) := last_row_id o in
  {| runtime_events := runtime_events o;
     selection_decisions := selection_decisions o;
     runtime_traffic_sessions := runtime_traffic_sessions o;
     matrix_shadow_decisions :=
       (matrix_shadow_decisions o ++
        [{| hr_row_id := hr + 1; hr_decision_id := u64_to_i64 (sd_decision_id d);
            hr_session_id := u64_to_i64 (sd_session_id d); hr_observed_at := u64_to_i64 (sd_observed_at d);
            hr_inbound := sd_inbound d; hr_group_id := sd_group_id d; hr_actual_node_id := sd_actual_node_id d;
            hr_shadow_node_id := sd_shadow_top_node_id d;
            hr_differs := bool_to_i64 (sd_shadow_differs_from_actual d); hr_reason := sd_shadow_reason d;
            hr_candidates := sd_candidates d |}])%list;
     last_row_id := (er, dr, hr + 1)%Z |}.

(** ** recovery.rs *)
Definition i64_to_u64 (z : Z) : Z := if (0 <=? z)%Z then z else 0%Z.
Definition i64_to_u16 (z : Z) : option Z := if ((0 <=? z) && (z <? 2 ^ 16))%Z then Some z else None.

Definition row_to_traffic_session (r : SessionRow) : TrafficSession :=
  {| ts_session_key := sr_session_key r;
     ts_session_id := i64_to_u64 (sr_session_id r);
     ts_decision_id := option_map i64_to_u64 (sr_decision_id r);
     ts_config_generation := option_map i64_to_u64 (sr_config_generation r);
     ts_inbound := sr_inbound r;
     ts_node_protocol := sr_node_protocol r;
     ts_peer := sr_peer_addr r;
     ts_target := sr_target_addr r;
     ts_target_ip := sr_target_ip r;
     ts_target_port := sr_target_port r ≫= i64_to_u16;
     ts_target_domain := sr_target_domain r;
     ts_target_source := sr_target_source r;
     ts_upstream := sr_upstream_addr r;
     ts_selection_groups := sr_selection_groups r;
     ts_selection_nodes := sr_selection_nodes r;
     ts_selection_trace := sr_selection_trace r;
     ts_started_at := i64_to_u64 (sr_started_at r);
     ts_closed_at := option_map i64_to_u64 (sr_closed_at r);
     ts_duration := option_map i64_to_u64 (sr_duration r);
     ts_close_reason := sr_close_reason r;
     ts_error_stage := sr_error_stage r;
     ts_error_code := sr_error_code r;
     ts_error_class := sr_error_class r;
     ts_error_side := sr_error_side r;
     ts_error_phase := sr_error_phase r;
     ts_error_protocol_phase := sr_error_protocol_phase r;
     ts_error_score_impact := sr_error_score_impact r;
     ts_error := sr_error r;
     ts_client_to_upstream_bytes := i64_to_u64 (sr_client_to_upstream_bytes r);
     ts_upstream_to_client_bytes := i64_to_u64 (sr_upstream_to_client_bytes r);
     ts_client_to_upstream_datagrams := i64_to_u64 (sr_client_to_upstream_datagrams r);
     ts_upstream_to_client_datagrams := i64_to_u64 (sr_upstream_to_client_datagrams r);
     ts_first_upstream_at := option_map i64_to_u64 (sr_first_upstream_at r);
     ts_first_downstream_at := option_map i64_to_u64 (sr_first_downstream_at r);
     ts_first_response_latency := option_map i64_to_u64 (sr_first_response_latency r);
     ts_last_observed_at := i64_to_u64 (sr_last_observed_at r) |}.

Definition row_to_shadow (r : ShadowRow) : MatrixShadowDecision :=
  {| sd_decision_id := i64_to_u64 (hr_decision_id r);
     sd_session_id := i64_to_u64 (hr_session_id r);
     sd_observed_at := i64_to_u64 (hr_observed_at r);
     sd_inbound := hr_inbound r;
     sd_group_id := hr_group_id r;
     sd_actual_node_id := hr_actual_node_id r;
     sd_shadow_top_node_id := hr_shadow_node_id r;
     sd_shadow_differs_from_actual := negb (hr_differs r =? 0)%Z;
     sd_shadow_reason := hr_reason r;
     sd_candidates := hr_candidates r |}.

(** [select * from (select ... order by c desc limit n) order by c asc] *)
Definition most_recent {A} (c : A → A → comparison) (n : nat) (l : list A) : list A :=
  sort_by c (firstn n (sort_by (flip c) l)).

Definition completed_row (r : SessionRow) : bool :=
  match sr_closed_at r, sr_error r with None, None => false | _, _ => true end.

Definition session_row_order (a b : SessionRow) : comparison :=
  then_with (cmp (sr_last_observed_at a) (sr_last_observed_at b)) (cmp (sr_session_key a) (sr_session_key b)).
Definition shadow_row_order (a b : ShadowRow) : comparison :=
  then_with (cmp (hr_observed_at a) (hr_observed_at b)) (cmp (hr_row_id a) (hr_row_id b)).

Definition session_rows (o : Observations) : list SessionRow := btree_values (runtime_traffic_sessions o).

Definition load_recent_traffic_sessions (o : Observations) : list TrafficSession :=
  List.map row_to_traffic_session
    (most_recent session_row_order TRAFFIC_SESSION_LIMIT (List.filter completed_row (session_rows o))).

Definition load_recent_shadows (o : Observations) : list MatrixShadowDecision :=
  List.map row_to_shadow (most_recent shadow_row_order MATRIX_SHADOW_LIMIT (matrix_shadow_decisions o)).

(** [max(column)], null on an empty table; a null column is passed over. *)
Definition sql_max (l : list Z) : option Z :=
  match l with [] => None | x :: l' => Some (fold_left Z.max l' x) end.
Definition max_of_all (l : list (option Z)) : Z := zero_if_null (sql_max (omap id l)).

Record RuntimeIdWatermarks := { wm_event_id : Z; wm_session_id : Z; wm_decision_id : Z }.

Definition load_id_watermarks (o : Observations) : RuntimeIdWatermarks :=
  let event := zero_if_null (sql_max (List.map er_event_id (runtime_events o))) in
  let session := max_of_all
    [sql_max (List.map sr_session_id (session_rows o));
     sql_max (List.map dr_session_id (selection_decisions o));
     sql_max (List.map hr_session_id (matrix_shadow_decisions o))] in
  let decision := max_of_all
    [sql_max (omap sr_decision_id (session_rows o));
     sql_max (List.map dr_decision_id (selection_decisions o));
     sql_max (List.map hr_decision_id (matrix_shadow_decisions o))] in
  {| wm_event_id := i64_to_u64 event; wm_session_id := i64_to_u64 session; wm_decision_id := i64_to_u64 decision |}.

(** ** The row of a session *)

(** The row that mirrors a session of the in-memory store, with the target port last
    reported: times measured against the start are stored as zero. *)
Definition mirror_row (t : TrafficSession) (port : option Z) : SessionRow :=
  {| sr_session_key := ts_session_key t;
     sr_session_id := u64_to_i64 (ts_session_id t);
     sr_decision_id := option_map u64_to_i64 (ts_decision_id t);
     sr_config_generation := option_map u64_to_i64 (ts_config_generation t);
     sr_inbound := ts_inbound t;
     sr_node_protocol := ts_node_protocol t;
     sr_peer_addr := ts_peer t;
     sr_target_addr := ts_target t;
     sr_target_ip := ts_target_ip t;
     sr_target_port := port;
     sr_target_domain := ts_target_domain t;
     sr_target_source := ts_target_source t;
     sr_upstream_addr := ts_upstream t;
     sr_selection_groups := ts_selection_groups t;
     sr_selection_nodes := ts_selection_nodes t;
     sr_selection_trace := ts_selection_trace t;
     sr_started_at := u64_to_i64 (ts_started_at t);
     sr_closed_at := option_map u64_to_i64 (ts_closed_at t);
     sr_duration := option_map (λ _, 0%Z) (ts_closed_at t);
     sr_close_reason := ts_close_reason t;
     sr_error_stage := ts_error_stage t;
     sr_error_code := ts_error_code t;
     sr_error_class := ts_error_class t;
     sr_error_side := ts_error_side t;
     sr_error_phase := ts_error_phase t;
     sr_error_protocol_phase := ts_error_protocol_phase t;
     sr_error_score_impact := ts_error_score_impact t;
     sr_error := ts_error t;
     sr_client_to_upstream_bytes := ts_client_to_upstream_bytes t;
     sr_upstream_to_client_bytes := ts_upstream_to_client_bytes t;
     sr_client_to_upstream_datagrams := ts_client_to_upstream_datagrams t;
     sr_upstream_to_client_datagrams := ts_upstream_to_client_datagrams t;
     sr_first_upstream_at := option_map u64_to_i64 (ts_first_upstream_at t);
     sr_first_downstream_at := option_map u64_to_i64 (ts_first_downstream_at t);
     sr_first_response_latency := option_map (λ _, 0%Z) (ts_first_downstream_at t);
     sr_last_observed_at := u64_to_i64 (ts_last_observed_at t) |}.

(** An amount that fits the columns. *)
Definition amount_ok (z : Z) : Prop := (0 ≤ z ≤ I64_MAX)%Z.
Definition amounts_ok (o : option Z) : Prop := match o with Some z => amount_ok z | None => True end.

(** The byte counts of an update fit, and it does not give a total and a datagram of
    the same direction. *)
Definition counts_ok (u : TrafficSessionUpdate) : Prop :=
  amounts_ok (up_client_to_upstream_bytes u) ∧ amounts_ok (up_upstream_to_client_bytes u) ∧
  amounts_ok (up_client_to_upstream_datagram u) ∧ amounts_ok (up_upstream_to_client_datagram u) ∧
  (is_Some (up_client_to_upstream_bytes u) → up_client_to_upstream_datagram u = None) ∧
  (is_Some (up_upstream_to_client_bytes u) → up_upstream_to_client_datagram u = None).

Definition totals_ok (t : TrafficSession) : Prop :=
  amount_ok (ts_client_to_upstream_bytes t) ∧ amount_ok (ts_upstream_to_client_bytes t) ∧
  amount_ok (ts_client_to_upstream_datagrams t) ∧ amount_ok (ts_upstream_to_client_datagrams t).

Lemma saturate_id z : amount_ok z → u64_to_i64 z = z.
Proof. intros [_ H]. unfold u64_to_i64. by rewrite (proj2 (Z.leb_le _ _) H). Qed.

Lemma wrap_sum z w : amount_ok z → amount_ok w → wrap_u 64 (z + w) = (z + w)%Z.
Proof. unfold amount_ok, I64_MAX. intros ? ?. apply wrap_u_small. split; [lia|]. change (2 ^ 64)%Z with 18446744073709551616%Z. lia. Qed.

(** The columns of bytes and datagrams, for either direction. *)
Lemma bytes_column cur total datagram :
  amount_ok cur → amounts_ok total → amounts_ok datagram → (is_Some total → datagram = None) →
  match option_map u64_to_i64 total with
  | Some b => b
  | None => cur + zero_if_null (option_map u64_to_i64 datagram)
  end%Z = add_bytes cur total datagram.
Proof.
  intros Hc Ht Hd Hx. unfold add_bytes. destruct total as [b|]; cbn.
  - rewrite Hx by done. by apply saturate_id.
  - destruct datagram as [d|]; cbn; [|lia]. rewrite saturate_id, wrap_sum by done. lia.
Qed.

Lemma datagrams_column cur datagram :
  amount_ok cur →
  (cur + match option_map u64_to_i64 datagram with None => 0 | Some _ => 1 end)%Z = add_datagram cur datagram.
Proof.
  intros Hc. unfold add_datagram. destruct datagram; cbn; [|lia]. rewrite wrap_sum; [lia|done|]. by vm_compute.
Qed.

Lemma zero_age p : Z.max (p - p) 0 = 0%Z.
Proof. lia. Qed.

Lemma option_map_or {A B} (f : A → B) a b : option_map f (opt_or a b) = coalesce (option_map f a) (option_map f b).
Proof. by destruct a. Qed.

(** One column: both sides are cases on the same optional values. *)
Ltac column :=
  unfold opt_or, set_if_some, coalesce, zero_if_null, option_map, default;
  repeat match goal with
  | |- context [if ?x then _ else _] => lazymatch type of x with bool => destruct x end
  | |- context [match ?x with Some _ => _ | None => _ end] =>
      lazymatch x with context [match _ with _ => _ end] => fail | _ => destruct x end
  end; done.

Lemma bytes_inserted total datagram :
  amounts_ok total → amounts_ok datagram → (is_Some total → datagram = None) →
  (zero_if_null (option_map u64_to_i64 total) + zero_if_null (option_map u64_to_i64 datagram))%Z = add_bytes 0 total datagram.
Proof.
  intros Ht Hd Hx. rewrite <- (bytes_column 0) by (done || by vm_compute). destruct total as [b|]; [|done].
  rewrite Hx by done. cbn. lia.
Qed.

Lemma mirror_inserted u :
  counts_ok u → inserted_row u = mirror_row (apply_session_update (new_session u) u) (up_target_port u).
Proof.
  intros (Hb1 & Hb2 & Hd1 & Hd2 & Hx1 & Hx2).
  unfold inserted_row, mirror_row, apply_session_update.
  cbn -[Z.max Z.add add_bytes add_datagram opt_or set_if_some option_map zero_if_null].
  rewrite !zero_age, !bytes_inserted by done.
  rewrite <- !datagrams_column by by vm_compute. clear. f_equal; column.
Qed.

(** The updates of a row follow those of the session. *)
Lemma mirror_updated t port u :
  counts_ok u → totals_ok t →
  updated_row (mirror_row t port) u = mirror_row (apply_session_update t u) (coalesce (up_target_port u) port).
Proof.
  intros (Hb1 & Hb2 & Hd1 & Hd2 & Hx1 & Hx2) (Ht1 & Ht2 & Ht3 & Ht4).
  unfold updated_row, inserted_row, mirror_row, apply_session_update.
  cbn -[Z.max Z.add add_bytes add_datagram opt_or set_if_some option_map zero_if_null].
  rewrite !zero_age, !bytes_column, !datagrams_column by done. clear. f_equal; column.
Qed.

(** ** Histories of events *)
Definition record_events (o : Observations) (evs : list IngressEvent) : Observations := fold_left insert_event evs o.

Definition updates_of (evs : list IngressEvent) : list TrafficSessionUpdate := omap session_update_from_event evs.
Definition updates_for (k : string) (evs : list IngressEvent) : list TrafficSessionUpdate :=
  List.filter (λ u, String.eqb (up_session_key u) k) (updates_of evs).

(** What the in-memory store keeps of a session that is never evicted. *)
Definition session_of (u0 : TrafficSessionUpdate) (us : list TrafficSessionUpdate) : TrafficSession :=
  fold_left apply_session_update (u0 :: us) (new_session u0).
Definition last_port (us : list TrafficSessionUpdate) : option Z :=
  fold_left (λ p u, coalesce (up_target_port u) p) us None.

Lemma record_events_sessions o evs :
  runtime_traffic_sessions (record_events o evs) = fold_left upsert_traffic_session (updates_of evs) (runtime_traffic_sessions o).
Proof.
  revert o. induction evs as [|e evs IH]; intros o; [done|].
  change (record_events o (e :: evs)) with (record_events (insert_event o e) evs). rewrite IH. unfold insert_event, updates_of.
  cbn [omap list_omap]. destruct (last_row_id o) as [[? ?] ?]. by destruct (session_update_from_event e).
Qed.

Lemma upserts_lookup us m k :
  fold_left upsert_traffic_session us m !! k =
    fold_left (λ r u, Some (upsert_row r u)) (List.filter (λ u, String.eqb (up_session_key u) k) us) (m !! k).
Proof.
  revert m. induction us as [|u us IH]; intros m; cbn; [done|]. rewrite IH. unfold upsert_traffic_session.
  destruct (String.eqb_spec (up_session_key u) k) as [->|Hne]; cbn.
  - by rewrite lookup_insert_eq.
  - by rewrite lookup_insert_ne.
Qed.

(** The row of a key is built from the updates of that key alone. *)
Lemma session_row evs k :
  runtime_traffic_sessions (record_events no_observations evs) !! k =
    fold_left (λ r u, Some (upsert_row r u)) (updates_for k evs) None.
Proof. by rewrite record_events_sessions, upserts_lookup. Qed.

Definition totals_stay_ok (u0 : TrafficSessionUpdate) (us : list TrafficSessionUpdate) : Prop :=
  ∀ us', us' `prefix_of` us → totals_ok (session_of u0 us').

Lemma session_of_snoc u0 us u : session_of u0 (us ++ [u]) = apply_session_update (session_of u0 us) u.
Proof. unfold session_of. rewrite app_comm_cons. by rewrite fold_left_app. Qed.

Lemma last_port_snoc us u : last_port (us ++ [u]) = coalesce (up_target_port u) (last_port us).
Proof. unfold last_port. by rewrite fold_left_app. Qed.

Lemma rows_mirror u0 us :
  Forall counts_ok (u0 :: us) → totals_stay_ok u0 us →
  fold_left (λ r u, Some (upsert_row r u)) (u0 :: us) None = Some (mirror_row (session_of u0 us) (last_port (u0 :: us))).
Proof.
  intros Hc Ht. induction us as [|u us IH] using rev_ind.
  - cbn. f_equal. apply Forall_cons in Hc as [Hc _]. rewrite mirror_inserted by done. f_equal. by destruct (up_target_port u0).
  - rewrite !app_comm_cons, fold_left_app, session_of_snoc, last_port_snoc. rewrite app_comm_cons in Hc.
    apply Forall_app in Hc as [Hc [Hu _]%Forall_cons].
    rewrite IH; [|done|intros us' Hp; apply Ht; by apply prefix_app_r]. cbn [fold_left upsert_row].
    rewrite mirror_updated; [done|done|]. apply Ht. by eexists.
Qed.

(** The numbers of an update fit the columns. *)
Definition storable (u : TrafficSessionUpdate) : Prop :=
  counts_ok u ∧ amount_ok (up_session_id u) ∧ amounts_ok (up_decision_id u) ∧ amounts_ok (up_config_generation u) ∧
  amount_ok (up_observed_at u) ∧ (∀ p, up_target_port u = Some p → in_u 16 p).

(** A session as a restart gives it back. *)
Definition restored_view (t : TrafficSession) (port : option Z) : TrafficSession :=
  {| ts_session_key := ts_session_key t; ts_session_id := ts_session_id t; ts_decision_id := ts_decision_id t;
     ts_config_generation := ts_config_generation t; ts_inbound := ts_inbound t;
     ts_node_protocol := ts_node_protocol t; ts_peer := ts_peer t; ts_target := ts_target t;
     ts_target_ip := ts_target_ip t; ts_target_port := port; ts_target_domain := ts_target_domain t;
     ts_target_source := ts_target_source t; ts_upstream := ts_upstream t;
     ts_selection_groups := ts_selection_groups t; ts_selection_nodes := ts_selection_nodes t;
     ts_selection_trace := ts_selection_trace t; ts_started_at := ts_started_at t; ts_closed_at := ts_closed_at t;
     ts_duration := option_map (λ _, 0%Z) (ts_closed_at t);
     ts_close_reason := ts_close_reason t; ts_error_stage := ts_error_stage t; ts_error_code := ts_error_code t;
     ts_error_class := ts_error_class t; ts_error_side := ts_error_side t; ts_error_phase := ts_error_phase t;
     ts_error_protocol_phase := ts_error_protocol_phase t; ts_error_score_impact := ts_error_score_impact t;
     ts_error := ts_error t; ts_client_to_upstream_bytes := ts_client_to_upstream_bytes t;
     ts_upstream_to_client_bytes := ts_upstream_to_client_bytes t;
     ts_client_to_upstream_datagrams := ts_client_to_upstream_datagrams t;
     ts_upstream_to_client_datagrams := ts_upstream_to_client_datagrams t;
     ts_first_upstream_at := ts_first_upstream_at t; ts_first_downstream_at := ts_first_downstream_at t;
     ts_first_response_latency := option_map (λ _, 0%Z) (ts_first_downstream_at t);
     ts_last_observed_at := ts_last_observed_at t |}.

(** The numbers of a session fit the columns. *)
Definition session_storable (t : TrafficSession) : Prop :=
  amount_ok (ts_session_id t) ∧ amounts_ok (ts_decision_id t) ∧ amounts_ok (ts_config_generation t) ∧
  amount_ok (ts_started_at t) ∧ amounts_ok (ts_closed_at t) ∧ amounts_ok (ts_first_upstream_at t) ∧
  amounts_ok (ts_first_downstream_at t) ∧ amount_ok (ts_last_observed_at t) ∧ totals_ok t.

Lemma i64_back z : amount_ok z → i64_to_u64 z = z.
Proof. intros [H _]. unfold i64_to_u64. by rewrite (proj2 (Z.leb_le _ _) H). Qed.

Lemma i64_round z : amount_ok z → i64_to_u64 (u64_to_i64 z) = z.
Proof. intros H. by rewrite saturate_id, i64_back. Qed.

Lemma i64_rounds o : amounts_ok o → option_map i64_to_u64 (option_map u64_to_i64 o) = o.
Proof. destruct o as [z|]; [|done]. intros H. cbn. by rewrite i64_round. Qed.

Lemma zeros_back (o : option Z) : option_map i64_to_u64 (option_map (λ _, 0%Z) o) = option_map (λ _, 0%Z) o.
Proof. by destruct o. Qed.

Lemma row_back t port :
  session_storable t → (∀ p, port = Some p → in_u 16 p) → row_to_traffic_session (mirror_row t port) = restored_view t port.
Proof.
  intros (H1 & H2 & H3 & H4 & H5 & H6 & H7 & H8 & H9 & H10 & H11 & H12) Hp.
  unfold row_to_traffic_session, mirror_row, restored_view. cbn -[option_map].
  rewrite !i64_round, !i64_rounds, !zeros_back, !i64_back by done.
  f_equal. destruct port as [p|]; [|done]. cbn. unfold i64_to_u16. specialize (Hp p eq_refl) as [Hp1 Hp2].
  rewrite (proj2 (Z.leb_le _ _) Hp1), (proj2 (Z.ltb_lt _ _) Hp2). done.
Qed.

Lemma opt_or_amounts a b : amounts_ok a → amounts_ok b → amounts_ok (opt_or a b).
Proof. by destruct a. Qed.

Lemma session_storable_step t u :
  storable u → session_storable t → totals_ok (apply_session_update t u) → session_storable (apply_session_update t u).
Proof.
  intros (_ & U1 & U2 & U3 & U4 & _) (H1 & H2 & H3 & H4 & H5 & H6 & H7 & H8 & _) Htot.
  unfold session_storable. split_and!; try apply Htot; cbn; try done; try (by apply opt_or_amounts).
  - by destruct (up_closes_session u).
  - destruct (up_client_to_upstream_datagram u); [by apply opt_or_amounts|done].
  - destruct (up_upstream_to_client_datagram u); [by apply opt_or_amounts|done].
Qed.

Lemma session_of_storable u0 us :
  Forall storable (u0 :: us) → totals_stay_ok u0 us → session_storable (session_of u0 us).
Proof.
  intros [Hu0 Hus]%Forall_cons Ht. induction us as [|u us IH] using rev_ind.
  - apply (session_storable_step (new_session u0)); [done| |apply (Ht []); apply prefix_nil].
    destruct Hu0 as (_ & U1 & U2 & U3 & U4 & _). unfold session_storable, totals_ok. cbn. by split_and!.
  - apply Forall_app in Hus as [Hus [Hu _]%Forall_cons]. rewrite session_of_snoc.
    apply session_storable_step; [done| |rewrite <- session_of_snoc; by apply Ht].
    apply IH; [done|]. intros us' Hp. apply Ht. by apply prefix_app_r.
Qed.

Lemma last_port_range us p : Forall storable us → last_port us = Some p → in_u 16 p.
Proof.
  revert p. induction us as [|u us IH] using rev_ind; intros p; [done|].
  intros [Hus [(_ & _ & _ & _ & _ & Hu) _]%Forall_cons]%Forall_app. rewrite last_port_snoc.
  destruct (up_target_port u) as [q|] eqn:E; [|by apply IH]. intros [= <-]. by apply Hu.
Qed.

(** what a restart gives back of a session is what the running process kept of it,
    column by column, except for three: the target port is the last one reported where
    memory keeps the first, and the duration and the first-response latency come back
    as zero whatever they were, since the statement takes both times from the same
    update. Counts and ids have to fit 63 bits, and no update may give a total and a
    datagram of one direction, which the statement counts differently. *)
Theorem restored_session evs k u0 us :
  updates_for k evs = (u0 :: us)%list → Forall storable (u0 :: us) → totals_stay_ok u0 us →
  row_to_traffic_session <$> (runtime_traffic_sessions (record_events no_observations evs) !! k) =
    Some (restored_view (session_of u0 us) (last_port (u0 :: us))).
Proof.
  intros Hk Hs Ht. rewrite session_row, Hk, rows_mirror; [|by eapply Forall_impl; [exact Hs|intros ? []]|done].
  cbn [fmap option_fmap option_map]. f_equal. apply row_back; [by apply session_of_storable|].
  intros p. by apply last_port_range.
Qed.

(** The side conditions are decidable. *)
Definition amount_okb (z : Z) : bool := ((0 <=? z) && (z <=? I64_MAX))%Z.
Definition totals_okb (t : TrafficSession) : bool :=
  amount_okb (ts_client_to_upstream_bytes t) && amount_okb (ts_upstream_to_client_bytes t) &&
  amount_okb (ts_client_to_upstream_datagrams t) && amount_okb (ts_upstream_to_client_datagrams t).

Lemma totals_okb_spec t : totals_okb t = true → totals_ok t.
Proof. unfold totals_okb, amount_okb, totals_ok, amount_ok. intros H. bool_hyps. lia. Qed.

Definition history_okb (l : list TrafficSessionUpdate) : bool :=
  match l with
  | [] => true
  | u0 :: us => forallb (λ n, totals_okb (session_of u0 (firstn n us))) (seq 0 (S (length us)))
  end.

Lemma history_okb_spec u0 us : history_okb (u0 :: us) = true → totals_stay_ok u0 us.
Proof.
  intros H us' [l ->]. cbn [history_okb] in H. rewrite forallb_forall in H. apply totals_okb_spec.
  specialize (H (length us')). rewrite take_app_length in H. apply H. apply in_seq. rewrite length_app. lia.
Qed.

Definition amounts_okb (o : option Z) : bool := match o with Some z => amount_okb z | None => true end.
Definition not_both (a b : option Z) : bool := match a, b with Some _, Some _ => false | _, _ => true end.
Definition storableb (u : TrafficSessionUpdate) : bool :=
  amounts_okb (up_client_to_upstream_bytes u) && amounts_okb (up_upstream_to_client_bytes u) &&
  amounts_okb (up_client_to_upstream_datagram u) && amounts_okb (up_upstream_to_client_datagram u) &&
  not_both (up_client_to_upstream_bytes u) (up_client_to_upstream_datagram u) &&
  not_both (up_upstream_to_client_bytes u) (up_upstream_to_client_datagram u) &&
  amount_okb (up_session_id u) && amounts_okb (up_decision_id u) && amounts_okb (up_config_generation u) &&
  amount_okb (up_observed_at u) &&
  match up_target_port u with Some p => (0 <=? p)%Z && (p <? 2 ^ 16)%Z | None => true end.

Lemma amounts_okb_spec o : amounts_okb o = true → amounts_ok o.
Proof. destruct o; [|done]. cbn. unfold amount_okb, amount_ok. intros H. bool_hyps. lia. Qed.

Lemma not_both_spec a b : not_both a b = true → is_Some a → b = None.
Proof. intros H [x ->]. by destruct b. Qed.

Lemma storableb_spec u : storableb u = true → storable u.
Proof.
  unfold storableb. rewrite !andb_true_iff. intros [[[[[[[[[[H1 H2] H3] H4] H5] H6] H7] H8] H9] H10] H11].
  unfold storable, counts_ok. split_and!; try (by apply amounts_okb_spec); try (by apply not_both_spec);
    try (by apply (amounts_okb_spec (Some _))).
  intros p Hp. rewrite Hp in H11. unfold in_u. bool_hyps. lia.
Qed.

(** A UDP session: start, a response after 4 ms with the target port, the close. *)
Definition demo_events : list IngressEvent :=
  [demo_event UdpSessionStart 5 [("sessionId", "7"); ("decisionId", "3"); ("targetPort", "53")];
   demo_event UdpDatagram 9 [("sessionId", "7"); ("decisionId", "3"); ("direction", "upstream-to-client"); ("bytes", "120"); ("targetPort", "54")];
   demo_event UdpSessionClose 30 [("sessionId", "7"); ("decisionId", "3"); ("upstreamToClientBytes", "120")]].

Lemma restored_session_witness :
  match updates_for "unknown:7:3" demo_events with
  | u0 :: us =>
      row_to_traffic_session <$> (runtime_traffic_sessions (record_events no_observations demo_events) !! "unknown:7:3") =
        Some (restored_view (session_of u0 us) (last_port (u0 :: us))) ∧
      (ts_duration (session_of u0 us), ts_first_response_latency (session_of u0 us), ts_target_port (session_of u0 us)) =
        (Some 25, Some 4, Some 53)%Z ∧
      (λ t, (ts_duration t, ts_first_response_latency t, ts_target_port t))
        (restored_view (session_of u0 us) (last_port (u0 :: us))) = (Some 0, Some 0, Some 54)%Z
  | [] => False
  end.
Proof.
  pose proof (restored_session demo_events "unknown:7:3") as H.
  assert (forallb storableb (updates_for "unknown:7:3" demo_events) = true) as Hs by (vm_compute; reflexivity).
  assert (history_okb (updates_for "unknown:7:3" demo_events) = true) as Ht by (vm_compute; reflexivity).
  assert (match updates_for "unknown:7:3" demo_events with
    | u0 :: us =>
      (ts_duration (session_of u0 us), ts_first_response_latency (session_of u0 us), ts_target_port (session_of u0 us)) =
        (Some 25, Some 4, Some 53)%Z ∧
      (λ t, (ts_duration t, ts_first_response_latency t, ts_target_port t))
        (restored_view (session_of u0 us) (last_port (u0 :: us))) = (Some 0, Some 0, Some 54)%Z
    | [] => False end) as Hc by (vm_compute; split; reflexivity).
  destruct (updates_for "unknown:7:3" demo_events) as [|u0 us]; [exact Hc|].
  split; [|exact Hc]. apply H; [reflexivity| |by apply history_okb_spec].
  apply Forall_forall. intros u Hu. apply storableb_spec. rewrite forallb_forall in Hs. by apply Hs, list_elem_of_In.
Defined.
