(* ===== verification/Runtime.v ===== *)
(** * Runtime: the shared state of the router

    [crates/dynet-runtime/src/lib.rs]: selection of a forwarding path, the
    generation-checked replacement of the routing tables, and the IPv6 policy of
    DNS answers. One call is one atomic step of the model; [reconfigure] is split,
    as in the code, into a preparation that reads the generation and a commit that
    may run after other commits. *)
From Stdlib Require Import ZArith Lia Strings.Byte Ascii String Sorting.Sorted.
From stdpp Require Import base list numbers option strings gmap sets.
From S2P Require Import Prelude Collections Net RustStd Model Stores Traffic MatrixStats Matrix.
Local Open Scope string_scope.
Local Open Scope nat_scope.

Record RuntimeRouting := {
  generation : Z;
  ipv6_enabled : bool;
  routing_nodes : NodeStore;
  routing_groups : GroupStore;
  routing_routes : RouteRuleStore;
  routing_dns_upstreams : DnsUpstreamStore;
  routing_dns_policy : DnsRacePolicy;
}.

(** The event log and the matrix it feeds. *)
Record RuntimeState := {
  rt_events : EventStore;
  rt_routing : RuntimeRouting;
  rt_dns_map : ObservedDnsMap;
  rt_matrix : MatrixService;
  rt_next_decision_id : Z;
}.

Record RuntimeReconfigure := {
  previous_generation : Z;
  prepared_routing : RuntimeRouting;
}.

(** [RuntimeRouting::from_seed] *)
Definition routing_from_seed (gen : Z) (seed : RuntimeSeed) : RuntimeRouting :=
  {| generation := gen;
     ipv6_enabled := seed_ipv6_enabled seed;
     routing_nodes := from_nodes (seed_nodes seed);
     routing_groups := from_parts (seed_default_group_id seed) (seed_groups seed)
                         (seed_group_members seed);
     routing_routes := from_rules (seed_route_rules seed);
     routing_dns_upstreams := from_upstreams (seed_dns_upstreams seed);
     routing_dns_policy := seed_dns_policy seed |}.

(** [RuntimeState::from_seed] *)
Definition from_seed (seed : RuntimeSeed) : RuntimeState :=
  {| rt_events := with_watermarks 0 0; rt_routing := routing_from_seed 1 seed; rt_dns_map := ∅;
     rt_matrix := matrix_from_parts [] []; rt_next_decision_id := 0 |}.

(** [RuntimeState::single_node_dns_policy] *)
Definition single_node_dns_policy (tag : string) (ups : list DnsUpstream) (policy : DnsRacePolicy)
    : RuntimeState :=
  let node := new_node DEFAULT_NODE_ID tag true in
  let group := default_group in
  let member := default_member (node_id node) (group_id group) in
  {| rt_events := with_watermarks 0 0;
     rt_routing :=
       {| generation := 1; ipv6_enabled := false; routing_nodes := single_node_store node;
          routing_groups := from_parts (group_id group) [group] [member]; routing_routes := [];
          routing_dns_upstreams := from_upstreams ups; routing_dns_policy := policy |};
     rt_dns_map := ∅; rt_matrix := matrix_from_parts [] []; rt_next_decision_id := 0 |}.

(** [RuntimeState::from_bootstrap], with the watermarks of recovered ids *)
Definition from_bootstrap (seed : RuntimeSeed) (sessions : list TrafficSession)
    (decisions : list MatrixShadowDecision) (event_id session_id decision_id : Z) : RuntimeState :=
  {| rt_events := with_watermarks event_id session_id; rt_routing := routing_from_seed 1 seed;
     rt_dns_map := ∅; rt_matrix := matrix_from_parts sessions decisions;
     rt_next_decision_id := decision_id |}.

(** [EventStore::record], which also feeds the matrix *)
Definition runtime_record (st : RuntimeState) (now : Z) (k : IngressEventKind)
    (fields : gmap string string) : RuntimeState :=
  let '(events, e) := record_event (rt_events st) now k fields in
  {| rt_events := events; rt_routing := rt_routing st; rt_dns_map := rt_dns_map st;
     rt_matrix := record_ingress_event (rt_matrix st) e;
     rt_next_decision_id := rt_next_decision_id st |}.

(** ** Reconfiguration *)
Definition prepare_reconfigure (st : RuntimeState) (seed : RuntimeSeed) : RuntimeReconfigure :=
  let prev := generation (rt_routing st) in
  {| previous_generation := prev; prepared_routing := routing_from_seed (wrap_u 64 (prev + 1)) seed |}.

Definition generation_changed (prepared current : Z) : string :=
  "runtime generation changed from " ++ to_string prepared ++ " to " ++ to_string current
  ++ " while reload was prepared".

Definition commit_reconfigure (st : RuntimeState) (p : RuntimeReconfigure)
    : RuntimeState * outcome string Z :=
  if negb (generation (rt_routing st) =? previous_generation p)%Z then
    (st, Err (generation_changed (previous_generation p) (generation (rt_routing st))))
  else
    ({| rt_events := rt_events st; rt_routing := prepared_routing p; rt_dns_map := rt_dns_map st;
        rt_matrix := rt_matrix st; rt_next_decision_id := rt_next_decision_id st |},
     Ok (generation (prepared_routing p))).

(** ** DNS policy *)
Definition dns_ipv6_deny_rule (st : RuntimeState) (domain : string) : option RuleId :=
  let r := rt_routing st in
  if negb (ipv6_enabled r) then None
  else
    let target := external_context (socket_addr (V6 0) 53)
                    (Some (to_ascii_lowercase domain)) in
    let m := match_group (routing_routes r) target in
    if bool_decide (match_ipv6 m = Deny) then match_rule_id m else None.

(** ** Selection *)
Definition ipv6_policy (enabled : bool) (m : RouteMatch) (f : IpFamily)
    : outcome SelectionError (option Ipv6PolicySource) :=
  match f with
  | Ipv4 => Ok None
  | Ipv6 =>
      if negb enabled then Err ipv6_disabled
      else if bool_decide (match_ipv6 m = Deny) then Err (ipv6_denied (match_rule_id m))
      else if bool_decide (match_ipv6 m = Allow) then Ok (Some SourceRule)
      else Ok (Some SourceGlobal)
  end.

(** [Result::map_err] *)
Definition map_err {E F A} (f : E → F) (m : outcome E A) : outcome F A :=
  match m with Ok a => Ok a | Err e => Err (f e) | Panic => Panic end.

(** The part of [RuntimeState::select] that only reads the state. *)
Definition select_path (st : RuntimeState) (c : SelectionContext)
    : outcome SelectionError (RouteMatch * IpFamily * option Ipv6PolicySource * GroupId * GroupSelection) :=
  let r := rt_routing st in
  let m := match_group (routing_routes r) (ctx_target c) in
  let family := from_address (sa_ip (target_address (ctx_target c))) in
  source ← ipv6_policy (ipv6_enabled r) m family;
  gid ← ok_or (or_else (match_group_id m) (store_default_group (routing_groups r)))
              (selection_error "no default forwarding group is available");
  let fps := fingerprints_by_id (routing_nodes r) in
  let node_stats := matrix_node_stats (rt_matrix st) fps in
  let target_stats := matrix_target_node_stats (rt_matrix st) fps in
  let choose (s : unit) (set : GroupCandidateSet) :=
    (s, select_active_candidate c (set_group_id set) (set_thresholds set) (set_candidates set)
          node_stats target_stats) in
  result ← expect (select_graph_with choose (routing_groups r) (routing_nodes r) family gid tt);
  selection ← map_err selection_error (snd result);
  Ok (m, family, source, gid, selection).

Definition select (st : RuntimeState) (now : Z) (c : SelectionContext)
    : RuntimeState * outcome SelectionError SelectionDecision :=
  match select_path st c with
  | Err e => (st, Err e)
  | Panic => (st, Panic)
  | Ok (m, family, source, gid, selection) =>
      match head (sel_trace selection) with
      | None => (st, Panic)
      | Some first =>
          let id := wrap_u 64 (rt_next_decision_id st + 1) in
          let decision :=
            {| decision_id := id; config_generation := generation (rt_routing st);
               decision_group_id := gid; matched_rule_id := match_rule_id m;
               decision_node_id := hop_node_id first; decision_next := hop_next first;
               trace := sel_trace selection; terminal := sel_terminal selection;
               reason := SingleNode; scheduler := sel_scheduler selection;
               candidate_count := sel_candidate_count selection; ip_family := family;
               ipv6_policy_source := source |} in
          let r := rt_routing st in
          let matrix :=
            match enabled_candidates (routing_groups r) gid (routing_nodes r) family with
            | Ok candidates =>
                record_shadow_selection (rt_matrix st) now c gid decision candidates
                  (fingerprints_by_id (routing_nodes r))
            | _ => rt_matrix st
            end in
          ({| rt_events := rt_events st; rt_routing := r; rt_dns_map := rt_dns_map st;
              rt_matrix := matrix; rt_next_decision_id := id |}, Ok decision)
      end
  end.

(** ** Steps of the shared state *)
Definition next_session (st : RuntimeState) : RuntimeState * Z :=
  let '(events, id) := alloc_session_id (rt_events st) in
  ({| rt_events := events; rt_routing := rt_routing st; rt_dns_map := rt_dns_map st;
      rt_matrix := rt_matrix st; rt_next_decision_id := rt_next_decision_id st |}, id).

Definition observe_dns (st : RuntimeState) (domain : string) (answers : list IpAddr) : RuntimeState :=
  {| rt_events := rt_events st; rt_routing := rt_routing st;
     rt_dns_map := dns_map_record (rt_dns_map st) domain answers;
     rt_matrix := rt_matrix st; rt_next_decision_id := rt_next_decision_id st |}.

(** A commit may carry a preparation made in any earlier state. *)
Inductive rt_step : RuntimeState → RuntimeState → Prop :=
| step_record st now k fields : rt_step st (runtime_record st now k fields)
| step_session st : rt_step st (next_session st).1
| step_dns st domain answers : rt_step st (observe_dns st domain answers)
| step_select st now c : rt_step st (select st now c).1
| step_commit st st0 seed : rt_step st (commit_reconfigure st (prepare_reconfigure st0 seed)).1.

Inductive reachable : RuntimeState → Prop :=
| reach_seed seed : reachable (from_seed seed)
| reach_single tag ups policy : reachable (single_node_dns_policy tag ups policy)
| reach_bootstrap seed sessions decisions e s d :
    reachable (from_bootstrap seed sessions decisions e s d)
| reach_step st st' : reachable st → rt_step st st' → reachable st'.

(** ** Invariant *)
Definition rt_inv (st : RuntimeState) : Prop :=
  keyed (routing_groups (rt_routing st)) ∧
  store_ok (traffic_sessions (rt_matrix st)) ∧
  length (shadow_decisions (rt_matrix st)) ≤ MATRIX_SHADOW_LIMIT ∧
  length (events (rt_events st)) ≤ EVENT_LIMIT.

Lemma select_path_cases st c :
  match select_path st c with
  | Ok (m, family, source, gid, sel) =>
      m = match_group (routing_routes (rt_routing st)) (ctx_target c) ∧
      family = from_address (sa_ip (target_address (ctx_target c))) ∧
      ipv6_policy (ipv6_enabled (rt_routing st)) m family = Ok source ∧
      or_else (match_group_id m) (store_default_group (routing_groups (rt_routing st))) = Some gid ∧
      ∃ choose : unit → GroupCandidateSet → unit * option NodeId,
        ∃ s', select_graph_with choose (routing_groups (rt_routing st)) (routing_nodes (rt_routing st))
                family gid tt = Some (s', Ok sel)
  | Err e =>
      let m := match_group (routing_routes (rt_routing st)) (ctx_target c) in
      ipv6_policy (ipv6_enabled (rt_routing st)) m
        (from_address (sa_ip (target_address (ctx_target c)))) = Err e
      ∨ err_code e = "selection-error"
  | Panic => False
  end.
Proof.
  unfold select_path.
  set (m := match_group (routing_routes (rt_routing st)) (ctx_target c)).
  set (family := from_address (sa_ip (target_address (ctx_target c)))).
  destruct (ipv6_policy (ipv6_enabled (rt_routing st)) m family) as [source|e|] eqn:Ep; cbn [mbind outcome_bind].
  2: by left.
  2: { unfold ipv6_policy in Ep. repeat (case_match; try done). }
  destruct (or_else _ _) as [gid|] eqn:Eg; cbn [mbind outcome_bind ok_or]; [|by right].
  set (choose := λ (s : unit) (set : GroupCandidateSet), (s, select_active_candidate c _ _ _ _ _)).
  pose proof (select_graph_loop_total choose (routing_groups (rt_routing st)) (routing_nodes (rt_routing st))
    family (size (groups (routing_groups (rt_routing st))) + 2) ∅ [] gid tt) as Htot.
  destruct Htot as (s' & r & Hr & Hnp); [apply empty_subseteq|rewrite size_empty; lia|].
  fold (select_graph_with choose (routing_groups (rt_routing st)) (routing_nodes (rt_routing st)) family gid tt) in Hr.
  rewrite Hr. cbn [expect mbind outcome_bind snd]. destruct r as [sel|e|]; cbn; [|by right|done].
  split_and!; try done. by exists choose, s'.
Qed.

Lemma select_graph_first {S} (sn : S → GroupCandidateSet → S * option NodeId) store ns f gid s s' sel :
  select_graph_with sn store ns f gid s = Some (s', Ok sel) → ∃ h, head (sel_trace sel) = Some h.
Proof. intros (h & Hh & _)%select_graph_loop_first. by exists h. Qed.

Lemma select_state st now c :
  (select st now c).1 = st ∨
  ∃ q id, (select st now c).1 =
    {| rt_events := rt_events st; rt_routing := rt_routing st; rt_dns_map := rt_dns_map st;
       rt_matrix := {| traffic_sessions := traffic_sessions (rt_matrix st); shadow_decisions := q |};
       rt_next_decision_id := id |} ∧
    (length (shadow_decisions (rt_matrix st)) ≤ MATRIX_SHADOW_LIMIT → length q ≤ MATRIX_SHADOW_LIMIT).
Proof.
  unfold select. destruct (select_path st c) as [[[[[m family] source] gid] sel]|e|]; [|by left..].
  destruct (head (sel_trace sel)) as [first|]; [|by left]. right. cbn [fst].
  destruct (enabled_candidates _ _ _ _) as [cands|e|].
  - do 2 eexists. split; [reflexivity|]. intros Hl. apply length_push_bounded; [|done].
    unfold MATRIX_SHADOW_LIMIT. lia.
  - exists (shadow_decisions (rt_matrix st)). eexists. by destruct (rt_matrix st).
  - exists (shadow_decisions (rt_matrix st)). eexists. by destruct (rt_matrix st).
Qed.

Lemma fold_shadow_bounded l q :
  length q ≤ MATRIX_SHADOW_LIMIT → length (fold_left shadow_record l q) ≤ MATRIX_SHADOW_LIMIT.
Proof.
  revert q; induction l as [|x l IH]; intros q Hq; [exact Hq|].
  apply IH, length_push_bounded; [unfold MATRIX_SHADOW_LIMIT; lia|done].
Qed.

Lemma from_bootstrap_inv seed sessions decisions e s d :
  rt_inv (from_bootstrap seed sessions decisions e s d).
Proof.
  split_and!; cbn.
  - apply from_parts_keyed.
  - apply from_sessions_ok.
  - apply fold_shadow_bounded. cbn. lia.
  - unfold EVENT_LIMIT. lia.
Qed.

Lemma rt_step_inv st st' : rt_inv st → rt_step st st' → rt_inv st'.
Proof.
  intros (Hk & Hs & Hq & He) Hstep. destruct Hstep.
  - split_and!; cbn; [done|by apply record_session_event_ok|done|].
    apply length_push_bounded; [unfold EVENT_LIMIT; lia|done].
  - by split_and!.
  - by split_and!.
  - destruct (select_state st now c) as [->|(q & id & -> & Hl)]; [by split_and!|].
    split_and!; cbn; [done|done|by apply Hl|done].
  - unfold commit_reconfigure. destruct (negb _); [by split_and!|].
    split_and!; cbn; try done. apply from_parts_keyed.
Qed.

(** in every reachable state of the runtime, whatever the interleaving of
    events, selections, DNS observations and reloads, the group table is keyed by
    group id, the session store is well-formed and bounded, and the shadow log and
    the event log hold at most 1024 entries. *)
Theorem reachable_invariant st : reachable st → rt_inv st.
Proof.
  induction 1 as [seed|tag ups policy|seed sessions decisions e s d|st st' _ IH Hstep].
  - apply (from_bootstrap_inv seed [] [] 0 0 0).
  - split_and!; cbn; [apply from_parts_keyed|apply (from_sessions_ok [])|unfold MATRIX_SHADOW_LIMIT; lia|unfold EVENT_LIMIT; lia].
  - apply from_bootstrap_inv.
  - by eapply rt_step_inv.
Qed.

(** ** Selection *)

(** selection never panics: for every state of the runtime and every context
    [RuntimeState::select] returns a decision or an error, the [expect] on the
    first hop included. *)
Theorem select_no_panic st now c : no_panic (select st now c).2.
Proof.
  unfold select. pose proof (select_path_cases st c) as Hc.
  destruct (select_path st c) as [[[[[m family] source] gid] sel]|e|]; [|done|done].
  destruct Hc as (_ & _ & _ & _ & choose & s' & Hsel).
  by destruct (select_graph_first _ _ _ _ _ _ _ _ Hsel) as [h ->].
Qed.

(** The decision that a state promises for a context. *)
Definition decision_sound (st : RuntimeState) (c : SelectionContext) (d : SelectionDecision) : Prop :=
  let r := rt_routing st in
  let m := match_group (routing_routes r) (ctx_target c) in
  let family := from_address (sa_ip (target_address (ctx_target c))) in
  walk (routing_groups r) (routing_nodes r) family (decision_group_id d) (trace d) (terminal d) ∧
  NoDup (hop_group_id <$> trace d) ∧
  or_else (match_group_id m) (store_default_group (routing_groups r)) = Some (decision_group_id d) ∧
  matched_rule_id d = match_rule_id m ∧ ip_family d = family ∧
  config_generation d = generation r ∧
  decision_id d = wrap_u 64 (rt_next_decision_id st + 1) ∧
  (∃ h, head (trace d) = Some h ∧ decision_node_id d = hop_node_id h ∧ decision_next d = hop_next h) ∧
  (family = Ipv6 → ipv6_enabled r = true ∧ match_ipv6 m ≠ Deny ∧
     ipv6_policy_source d = Some (if bool_decide (match_ipv6 m = Allow) then SourceRule else SourceGlobal)) ∧
  (family = Ipv4 → ipv6_policy_source d = None).

(** The errors of selection, by cause. *)
Definition error_sound (st : RuntimeState) (c : SelectionContext) (e : SelectionError) : Prop :=
  let r := rt_routing st in
  let m := match_group (routing_routes r) (ctx_target c) in
  let family := from_address (sa_ip (target_address (ctx_target c))) in
  (e = ipv6_disabled ∧ family = Ipv6 ∧ ipv6_enabled r = false) ∨
  (e = ipv6_denied (match_rule_id m) ∧ family = Ipv6 ∧ ipv6_enabled r = true ∧ match_ipv6 m = Deny) ∨
  err_code e = "selection-error".

Lemma ipv6_policy_ok enabled m f source :
  ipv6_policy enabled m f = Ok source →
  (f = Ipv6 → enabled = true ∧ match_ipv6 m ≠ Deny ∧
     source = Some (if bool_decide (match_ipv6 m = Allow) then SourceRule else SourceGlobal)) ∧
  (f = Ipv4 → source = None).
Proof.
  unfold ipv6_policy. destruct f; [by intros [= <-]|].
  destruct enabled; [cbn|done]. case_bool_decide; [done|].
  case_bool_decide; intros [= <-]; done.
Qed.

Lemma ipv6_policy_err enabled m f e :
  ipv6_policy enabled m f = Err e →
  (e = ipv6_disabled ∧ f = Ipv6 ∧ enabled = false) ∨
  (e = ipv6_denied (match_rule_id m) ∧ f = Ipv6 ∧ enabled = true ∧ match_ipv6 m = Deny).
Proof.
  unfold ipv6_policy. destruct f; [done|]. destruct enabled; cbn; [|intros [= <-]; by left].
  case_bool_decide; [intros [= <-]; by right|]. by case_bool_decide.
Qed.

Lemma reachable_keyed st : reachable st → keyed (routing_groups (rt_routing st)).
Proof.
  induction 1 as [| | |st st' _ IH Hs]; [apply from_parts_keyed..|].
  destruct Hs as [| | |st now c|]; try done.
  - by destruct (select_state st now c) as [->|(q & id & -> & _)].
  - unfold commit_reconfigure. destruct (negb _); [done|apply from_parts_keyed].
Qed.

(** Selection over a store filed under its own ids. *)
Lemma select_cases st now c :
  keyed (routing_groups (rt_routing st)) →
  match select st now c with
  | (st', Ok d) => decision_sound st c d ∧ rt_routing st' = rt_routing st ∧
      rt_next_decision_id st' = decision_id d ∧
      traffic_sessions (rt_matrix st') = traffic_sessions (rt_matrix st)
  | (st', Err e) => st' = st ∧ error_sound st c e
  | (_, Panic) => False
  end.
Proof.
  intros Hk. unfold select. pose proof (select_path_cases st c) as Hc.
  destruct (select_path st c) as [[[[[m family] source] gid] sel]|e|]; [| |done].
  - destruct Hc as (-> & -> & Hp & Hg & choose & s' & Hsel).
    destruct (select_graph_first _ _ _ _ _ _ _ _ Hsel) as [h Hh]. rewrite Hh.
    eapply select_graph_loop_walk in Hsel as (hs & Ht & Hw & Hn);
      [|done|by intros x ?%elem_of_nil|apply NoDup_nil_2].
    cbn in Ht. apply ipv6_policy_ok in Hp as [Hp6 Hp4].
    split; [|by destruct (enabled_candidates _ _ _ _)].
    unfold decision_sound; cbn. rewrite Ht in *. split_and!; try done. by exists h.
  - split; [done|]. unfold error_sound. destruct Hc as [Hc|Hc]; [|by right; right].
    apply ipv6_policy_err in Hc as [?|?]; [by left|by right; left].
Qed.

(** C1: selection implements the routing policy in every reachable state: a
    decision is a sound walk from the group of the preferred matching rule (or the
    default group), carries the generation it was made under and a fresh id, and
    an IPv6 target is only ever routed when IPv6 is enabled and the matched rule
    does not deny it; an error leaves the state unchanged and is one of the three
    documented kinds for its stated cause. *)
Theorem select_sound st now c :
  reachable st →
  match select st now c with
  | (st', Ok d) => decision_sound st c d ∧ rt_routing st' = rt_routing st ∧
      rt_next_decision_id st' = decision_id d ∧
      traffic_sessions (rt_matrix st') = traffic_sessions (rt_matrix st)
  | (st', Err e) => st' = st ∧ error_sound st c e
  | (_, Panic) => False
  end.
Proof. intros Hr. by apply select_cases, reachable_keyed. Qed.

(** ** Concurrent reloads

    Several threads prepare and commit in any order: a schedule names the seed to
    prepare or the preparation to commit. The log records the generation each
    successful commit replaced and the one it installed. *)
Inductive reload_op := Prepare (seed : RuntimeSeed) | Commit (n : nat).

Record reload_sys := {
  sys_state : RuntimeState;
  sys_prepared : list RuntimeReconfigure;
  sys_log : list (Z * Z);
}.

Definition reload_step (s : reload_sys) (op : reload_op) : reload_sys :=
  match op with
  | Prepare seed =>
      {| sys_state := sys_state s;
         sys_prepared := (sys_prepared s ++ [prepare_reconfigure (sys_state s) seed])%list;
         sys_log := sys_log s |}
  | Commit n =>
      match sys_prepared s !! n with
      | None => s
      | Some p =>
          match commit_reconfigure (sys_state s) p with
          | (st', Ok g) => {| sys_state := st'; sys_prepared := sys_prepared s;
                              sys_log := (sys_log s ++ [(previous_generation p, g)])%list |}
          | (st', _) => {| sys_state := st'; sys_prepared := sys_prepared s; sys_log := sys_log s |}
          end
      end
  end.

Definition reload_run (st : RuntimeState) (ops : list reload_op) : reload_sys :=
  fold_left reload_step ops {| sys_state := st; sys_prepared := []; sys_log := [] |}.

(** The history of a linear sequence of reloads. *)
Definition linear_log (g : Z) (n : nat) : list (Z * Z) :=
  List.map (λ i, (g + Z.of_nat i, g + Z.of_nat i + 1)%Z) (List.seq 0 n).
Arguments linear_log : simpl never.

Definition reload_inv (g : Z) (k : nat) (s : reload_sys) : Prop :=
  length (sys_log s) ≤ k ∧
  generation (rt_routing (sys_state s)) = (g + Z.of_nat (length (sys_log s)))%Z ∧
  sys_log s = linear_log g (length (sys_log s)) ∧
  Forall (λ p, ∃ st seed, p = prepare_reconfigure st seed ∧
    (g ≤ previous_generation p ≤ generation (rt_routing (sys_state s)))%Z) (sys_prepared s).

Lemma linear_log_snoc g n :
  linear_log g (S n) = (linear_log g n ++ [(g + Z.of_nat n, g + Z.of_nat n + 1)%Z])%list.
Proof. unfold linear_log. by rewrite List.seq_S, List.map_app. Qed.

Lemma reload_step_inv g k s op :
  (0 ≤ g)%Z → (g + Z.of_nat (S k) < 2 ^ 64)%Z →
  reload_inv g k s → reload_inv g (S k) (reload_step s op).
Proof.
  intros Hg0 Hk (Hlen & Hgen & Hlog & Hall). destruct op as [seed|n]; cbn [reload_step].
  - split_and!; cbn; [lia|done|done|]. apply Forall_app. split; [done|].
    apply Forall_singleton. exists (sys_state s), seed. split; [done|]. cbn. lia.
  - destruct (sys_prepared s !! n) as [p|] eqn:Ep; [|by split_and!; [lia|..]].
    destruct (Forall_lookup_1 _ _ _ _ Hall Ep) as (st0 & seed & -> & Hprev).
    unfold commit_reconfigure.
    destruct (Z.eqb_spec (generation (rt_routing (sys_state s)))
                (previous_generation (prepare_reconfigure st0 seed))) as [E|E]; cbn [negb];
      [|by split_and!; [cbn; lia|..]].
    set (gen := generation (rt_routing st0)) in *. cbn in E. fold gen in E.
    assert (wrap_u 64 (gen + 1) = gen + 1)%Z as Hw by (apply Z.mod_small; lia).
    assert (length (sys_log s ++ [(gen, gen + 1)%Z])%list = S (length (sys_log s))) as Hl
      by (rewrite length_app; cbn; lia).
    unfold reload_inv; cbn. fold gen. rewrite Hw, Hl. split_and!.
    + lia.
    + lia.
    + rewrite linear_log_snoc, Hlog at 1. rewrite <- Hlog. f_equal. f_equal. f_equal; lia.
    + eapply Forall_impl; [exact Hall|]. intros p (st & sd & -> & Hp).
      exists st, sd. split; [done|]. lia.
Qed.

(** C5: concurrent reloads are linear: for every schedule of preparations and
    commits, the successful commits install the generations [g+1, g+2, ...] one
    after the other, each from a preparation made under exactly the generation it
    replaces, so a stale preparation never overwrites a newer configuration. *)
Theorem reload_linear st ops :
  let g := generation (rt_routing st) in
  (0 ≤ g)%Z → (g + Z.of_nat (length ops) < 2 ^ 64)%Z →
  let s := reload_run st ops in
  sys_log s = linear_log g (length (sys_log s)) ∧
  generation (rt_routing (sys_state s)) = (g + Z.of_nat (length (sys_log s)))%Z ∧
  NoDup (sys_log s).*1.
Proof.
  intros g Hg Hb s.
  assert (reload_inv g (length ops) s) as (_ & Hgen & Hlog & _).
  { unfold s, reload_run. clear s. revert Hb. induction ops as [|op ops IH] using rev_ind; intros Hb.
    - split_and!; cbn; [lia|lia|done|constructor].
    - rewrite length_app in *. cbn [length] in *. rewrite fold_left_app, Nat.add_1_r in *.
      apply reload_step_inv; [done|lia|]. apply IH. lia. }
  split_and!; [done|done|]. rewrite Hlog. unfold linear_log.
  generalize (length (sys_log s)). intros n. apply NoDup_fmap_fst.
  - intros x y1 y2 H1 H2. apply list_elem_of_In, in_map_iff in H1 as (i & [= <- <-] & _).
    apply list_elem_of_In, in_map_iff in H2 as (j & [= H3 <-] & _). lia.
  - apply NoDup_fmap; [intros i j [= ?]; lia|]. apply NoDup_ListNoDup, List.seq_NoDup.
Qed.

Definition demo_runtime : RuntimeState := from_seed (Model.single_node "direct").

Lemma reload_linear_witness :
  sys_log (reload_run demo_runtime
    [Prepare (Model.single_node "a"); Prepare (Model.single_node "b"); Commit 1; Commit 0;
     Prepare (Model.single_node "c"); Commit 2]) = [(1, 2); (2, 3)]%Z.
Proof.
  destruct (reload_linear demo_runtime
    [Prepare (Model.single_node "a"); Prepare (Model.single_node "b"); Commit 1; Commit 0;
     Prepare (Model.single_node "c"); Commit 2]) as (H & _ & _); [by vm_compute|by vm_compute|].
  rewrite H. vm_compute. reflexivity.
Defined.

Lemma select_sound_witness :
  ∃ st' d, select demo_runtime 7 demo_context = (st', Ok d) ∧ decision_sound demo_runtime demo_context d.
Proof.
  pose proof (select_sound demo_runtime 7 demo_context (reach_seed _)) as Hs.
  destruct (select demo_runtime 7 demo_context) as [st' [d|e|]] eqn:E.
  - exists st', d. split; [reflexivity|]. exact (proj1 Hs).
  - exfalso. vm_compute in E. discriminate E.
  - exfalso. exact Hs.
Defined.

Lemma reachable_invariant_witness : rt_inv (runtime_record demo_runtime 3 TcpAccept ∅).
Proof. apply reachable_invariant. eapply reach_step; [apply reach_seed|apply step_record]. Defined.
