(* ===== verification/DnsResolve.v ===== *)
(** * DnsResolve: the race of DNS upstreams

    [RuntimeState::resolve_dns_wire] of [crates/dynet-runtime/src/dns.rs] and the
    reading of HTTPS responses in [dns/https.rs]. What reaches the task is a list of
    arrivals: the replies of the upstreams in the order of the channel, cut short by the
    deadline or ended when every upstream has reported. Connecting, sending and TLS are
    the network's: an upstream answers with bytes or with an error. *)
From Stdlib Require Import ZArith Lia Strings.Byte Ascii String Sorting.Sorted.
From stdpp Require Import base list numbers option strings gmap sets.
From S2P Require Import Prelude Collections Net RustStd Model Stores Validation Traffic MatrixStats Matrix Runtime DnsWire.
Local Open Scope string_scope.
Local Open Scope nat_scope.

Record DnsResolution := {
  response : bytes;
  upstream : DnsUpstream;
  source : SocketAddr;
  query_info : option DnsQueryInfo;
  response_info : option DnsResponseInfo;
  ipv6_filtered : bool;
  resolution_rule_id : option RuleId }.

Abbreviation resolve := (outcome DnsResolveError).

(** ** One upstream *)
Definition validate_response_info (query : option DnsQueryInfo) (info : option DnsResponseInfo) : resolve unit :=
  match query, info with
  | Some q, Some r =>
      if negb (q_transaction_id q =? r_transaction_id r)%Z then
        Err (dns_error "DNS response transaction id mismatch from upstream {id}")
      else Ok tt
  | Some _, None => Err (dns_error "invalid DNS response from upstream {id}")
  | None, _ => Ok tt
  end.

(** What both kinds of upstream make of the bytes of a response. *)
Definition resolution_of (u : DnsUpstream) (from : SocketAddr) (query : option DnsQueryInfo) (bytes : bytes)
    : resolve DnsResolution :=
  let info := sniff_dns_response bytes in
  _ ← validate_response_info query info;
  Ok {| response := bytes; upstream := u; source := from; query_info := query; response_info := info;
        ipv6_filtered := false; resolution_rule_id := None |}.

(** ** dns/https.rs *)
Definition HTTP_HEADER_LIMIT : nat := Z.to_nat 65536.
Definition crlf : bytes := [x0d; x0a].

(** [windows(n).position(|w| w == pattern)] *)
Fixpoint find_bytes (pattern : bytes) (l : bytes) : option nat :=
  if bool_decide (take (length pattern) l = pattern) then Some 0
  else match l with [] => None | _ :: l' => S <$> find_bytes pattern l' end.

(** [str::split("\r\n")] on the bytes of a text, with the fuel of its length *)
Fixpoint first_line (l : bytes) : bytes :=
  match l with
  | [] => []
  | b :: l' => if bool_decide (take 2 l = crlf) then [] else b :: first_line l'
  end.

(** [str::lines]: at line feeds, a carriage return before one dropped, no line after the
    last line feed *)
Definition strip_cr (l : bytes) : bytes :=
  match rev l with b :: l' => if bool_decide (b = x0d) then rev l' else l | [] => l end.
Fixpoint lines_from (acc : bytes) (l : bytes) : list bytes :=
  match l with
  | [] => match acc with [] => [] | _ => [acc] end
  | b :: l' => if bool_decide (b = x0a) then strip_cr acc :: lines_from [] l' else lines_from (acc ++ [b]) l'
  end.
Definition lines (l : bytes) : list bytes := lines_from [] l.

Definition is_chunked_header (line : bytes) : bool :=
  match split_once ":" (text_of line) with
  | None => false
  | Some (name, value) =>
      eq_ignore_ascii_case name "transfer-encoding" &&
      existsb (λ part, eq_ignore_ascii_case (trim part) "chunked") (split "," value)
  end.

Definition has_chunked_transfer_encoding (headers : bytes) : bool := existsb is_chunked_header (lines headers).

(** [usize::from_str_radix(_, 16)] *)
Fixpoint hex_digits (acc : Z) (s : string) : option Z :=
  match s with
  | "" => Some acc
  | String c s' => d ← to_digit 16 c; v ← try_u 64 (acc * 16 + d); hex_digits v s'
  end.
Definition from_str_radix_16 (s : string) : option Z :=
  match s with
  | "" => None
  | String "+" "" => None
  | String "+" s' => hex_digits 0 s'
  | _ => hex_digits 0 s
  end.

Definition chunk_error {A} : resolve A := Err (dns_error "invalid chunked DNS-over-HTTPS body from upstream {upstream_id}").
Definition size_error {A} : resolve A := Err (dns_error "invalid chunk size from DNS-over-HTTPS upstream {upstream_id}: {error}").

(** The loop of [decode_chunked_body]; the outer [None] when the fuel is spent. *)
Fixpoint chunk_loop (fuel : nat) (body : bytes) (cursor : nat) (decoded : bytes) : option (resolve bytes) :=
  match fuel with
  | O => None
  | S fuel =>
      if length body <? cursor then Some Panic
      else
        match find_bytes crlf (drop cursor body) with
        | None => Some chunk_error
        | Some offset =>
            let line_end := cursor + offset in
            let size_line := take offset (drop cursor body) in
            if negb (utf8_valid size_line) then Some size_error
            else
              match from_str_radix_16 (default "" (head (split ";" (text_of size_line)))) with
              | None => Some size_error
              | Some size =>
                  let cursor := line_end + 2 in
                  if (size =? 0)%Z then Some (Ok decoded)
                  else if (2 ^ 64 <=? Z.of_nat cursor + size + 2)%Z then Some chunk_error
                  else
                    let chunk_end := cursor + Z.to_nat size in
                    let trailer_end := chunk_end + 2 in
                    if negb (bool_decide (get_range body chunk_end trailer_end = Some crlf)) then Some chunk_error
                    else
                      match get_range body cursor chunk_end with
                      | None => Some chunk_error
                      | Some chunk => chunk_loop fuel body trailer_end (decoded ++ chunk)
                      end
              end
        end
  end.

(** Every chunk takes at least two bytes. *)
Definition decode_chunked_body (body : bytes) : resolve bytes := default Panic (chunk_loop (length body + 2) body 0 []).

Definition parse_https_dns_response (resp : bytes) : resolve bytes :=
  match find_bytes (crlf ++ crlf) resp with
  | None => Err (dns_error "invalid DNS-over-HTTPS response from upstream {upstream_id}: missing HTTP headers")
  | Some header_end =>
      if HTTP_HEADER_LIMIT <? header_end then
        Err (dns_error "invalid DNS-over-HTTPS response from upstream {upstream_id}: headers too large")
      else
        let headers := take header_end resp in
        if negb (utf8_valid headers) then
          Err (dns_error "invalid DNS-over-HTTPS response headers from upstream {upstream_id}: {error}")
        else if negb (contains " 200 " (text_of (first_line headers))) then
          Err (dns_error "DNS-over-HTTPS upstream {upstream_id} returned {status}")
        else if length resp <? header_end + 4 then Panic
        else
          let body := drop (header_end + 4) resp in
          if has_chunked_transfer_encoding headers then decode_chunked_body body else Ok body
  end.

(** ** [apply_ipv6_dns_filter] *)
Definition apply_ipv6_dns_filter (r : DnsResolution) (rule : RuleId) : resolve DnsResolution :=
  question_end ← ok_or (dns_question_end (response r)) (dns_error "cannot filter malformed AAAA response");
  filled ← fill_counts (response r);
  let resp := take question_end filled in
  Ok {| response := resp; upstream := upstream r; source := source r; query_info := query_info r;
        response_info := sniff_dns_response resp; ipv6_filtered := true; resolution_rule_id := Some rule |}.

Definition only_fake_answers (r : DnsResolution) : bool :=
  match response_info r with
  | None => false
  | Some i => negb (bool_decide (r_answer_ips i = [])) && forallb is_fake_ip (r_answer_ips i)
  end.

(** ** The race *)
Inductive arrival := Received (u : DnsUpstream) (r : resolve DnsResolution) | DeadlinePassed.

Definition filter_denied (deny : option RuleId) (r : DnsResolution) : resolve DnsResolution :=
  match deny with Some rule => apply_ipv6_dns_filter r rule | None => Ok r end.

Fixpoint race (deny : option RuleId) (last_error : option DnsResolveError) (fake_candidate : option DnsResolution)
    (arrivals : list arrival) : resolve DnsResolution :=
  match arrivals with
  | [] =>
      match fake_candidate with
      | Some r => Ok r
      | None => Err (default (dns_error "all DNS upstreams failed") last_error)
      end
  | DeadlinePassed :: _ =>
      match fake_candidate with
      | Some r => Ok r
      | None => Err (default (dns_error "timed out waiting for DNS upstream response") last_error)
      end
  | Received _ (Ok r) :: rest =>
      r ← filter_denied deny r;
      if only_fake_answers r then
        race deny last_error (Some (default r fake_candidate)) rest
      else Ok r
  | Received _ (Err e) :: rest => race deny (Some e) fake_candidate rest
  | Received _ Panic :: rest => race deny last_error fake_candidate rest
  end.

Definition enabled_upstreams (l : list DnsUpstream) : list DnsUpstream :=
  sort_by (λ a b, then_with (cmp (upstream_priority a) (upstream_priority b)) (cmp (upstream_id a) (upstream_id b)))
    (List.filter upstream_enabled l).

Definition record_dns_resolution (st : RuntimeState) (r : DnsResolution) : RuntimeState :=
  match response_info r with
  | Some i => match r_query_name i with Some name => observe_dns st name (r_answer_ips i) | None => st end
  | None => st
  end.

Definition ipv6_deny_rule (st : RuntimeState) (info : option DnsQueryInfo) : option RuleId :=
  i ← opt_filter (λ i, String.eqb (q_query_type i) "AAAA") info;
  dns_ipv6_deny_rule st (q_query_name i).

(** What an upstream sends back: the bytes of a datagram with their source, the whole
    HTTPS response, or an error. *)
Inductive reply := Datagram (bytes : bytes) (from : SocketAddr) | HttpsResponse (bytes : bytes) | Failed (e : DnsResolveError).

Definition query_upstream (u : DnsUpstream) (query : option DnsQueryInfo) (r : reply) : resolve DnsResolution :=
  match r with
  | Datagram bytes from => resolution_of u from query bytes
  | HttpsResponse bytes => body ← parse_https_dns_response bytes; resolution_of u (upstream_address u) query body
  | Failed e => Err e
  end.

(** The replies in the order of the channel, until the deadline if it passes. *)
Definition resolve_dns_wire (st : RuntimeState) (query : bytes) (replies : list (DnsUpstream * reply)) (deadline : bool)
    : RuntimeState * resolve DnsResolution :=
  let info := sniff_dns_query query in
  let deny := ipv6_deny_rule st info in
  match enabled_upstreams (dns_snapshot (routing_dns_upstreams (rt_routing st))) with
  | [] => (st, Err (dns_error "no enabled DNS upstreams are configured"))
  | _ =>
      let arrivals := (List.map (λ ur : DnsUpstream * reply, Received ur.1 (query_upstream ur.1 info ur.2)) replies
                       ++ if deadline then [DeadlinePassed] else [])%list in
      match race deny None None arrivals with
      | Ok r => (record_dns_resolution st r, Ok r)
      | Err e => (st, Err e)
      | Panic => (st, Panic)
      end
  end.

(** [resolve_domain_a]; the address of the first IPv4 answer. *)
Definition first_ipv4 (port : Z) (r : DnsResolution) : resolve SocketAddr :=
  match response_info r with
  | None => Err (dns_error "DNS response for {domain} is invalid")
  | Some i =>
      ok_or (option_map (λ a, socket_addr a port) (List.find is_ipv4 (r_answer_ips i)))
        (dns_error "no A answer resolved for {domain}:{port}")
  end.

Definition resolve_domain_a (st : RuntimeState) (unix_ms : Z) (domain : string) (port : Z)
    (replies : bytes → list (DnsUpstream * reply)) (deadline : bool) : RuntimeState * resolve SocketAddr :=
  match build_a_query unix_ms domain with
  | Ok query =>
      let '(st', r) := resolve_dns_wire st query (replies query) deadline in
      (st', r ← r; first_ipv4 port r)
  | Err e => (st, Err e)
  | Panic => (st, Panic)
  end.

(** ** The filter *)
Lemma read_name_in_range p o s e : read_name p o = Some (s, e) → o < length p.
Proof.
  destruct (read_name_iff p o) as (r & _ & -> & Hr). intros (ls & Hn & _)%Hr.
  destruct Hn; by eapply lookup_lt_Some.
Qed.

Lemma name_at_behind p o k ls e : name_at p o k ls e → o < e.
Proof. induction 1; lia. Qed.

Lemma read_name_behind p o s e : read_name p o = Some (s, e) → o < e.
Proof. destruct (read_name_iff p o) as (r & _ & -> & Hr). intros (ls & Hn & _)%Hr. by eapply name_at_behind. Qed.

Lemma question_end_ge n p o e : question_end n p o = Some e → n = 0 ∧ e = o ∨ 0 < n ∧ o < length p ∧ e ≤ length p.
Proof.
  revert o e. induction n as [|n IH]; intros o e; cbn [question_end]; [intros [= <-]; by left|].
  destruct (read_name p o) as [[s next]|] eqn:E; cbn; [|done]. apply read_name_in_range in E.
  destruct (get_range p 0 (next + 4)) eqn:Eg; cbn; [|done]. apply get_range_inv in Eg as ((_ & Hg) & _).
  intros H. right. split; [lia|]. split; [done|]. destruct (IH _ _ H) as [[_ ->]|(_ & _ & ?)]; lia.
Qed.

Lemma question_end_from n p o e : question_end n p o = Some e → o ≤ e.
Proof.
  revert o e. induction n as [|n IH]; intros o e; cbn [question_end]; [by intros [= <-]|].
  destruct (read_name p o) as [[s next]|] eqn:E; cbn; [|done]. apply read_name_behind in E.
  destruct (get_range p 0 (next + 4)); cbn; [|done]. intros H%IH. lia.
Qed.

Lemma u16_at_Some p o : is_Some (u16_at p o) ↔ o + 2 ≤ length p.
Proof.
  unfold u16_at. destruct (get_range p o (o + 2)) as [l|] eqn:E; cbn.
  - apply get_range_inv in E as ((_ & ?) & _). split; [done|by eexists].
  - split; [by intros [? ?]|]. intros Hl. rewrite get_range_Some in E by lia. done.
Qed.

Lemma u16_at_range p o z : u16_at p o = Some z → in_u 16 z.
Proof.
  unfold u16_at. destruct (get_range p o (o + 2)) as [l|] eqn:E; cbn; [|done]. intros [= <-].
  apply get_range_inv in E as (_ & _ & Hl). pose proof (from_be_range l) as Hr. rewrite Hl in Hr.
  replace (o + 2 - o) with 2 in Hr by lia. exact Hr.
Qed.

(** Filtering a denied AAAA response panics exactly on the responses of six to eleven
    bytes that count no question: the end of the questions is then found without looking
    at the message, and the header is sliced beyond its end. *)
Theorem dns_filter_panics r rule :
  apply_ipv6_dns_filter r rule = Panic ↔ 6 ≤ length (response r) < 12 ∧ u16_at (response r) 4 = Some 0%Z.
Proof.
  unfold apply_ipv6_dns_filter, dns_question_end. destruct (u16_at (response r) 4) as [qd|] eqn:E4; cbn [mbind option_bind ok_or].
  2: { split; [done|]. by intros [_ ?]. }
  assert (6 ≤ length (response r)) as H6 by (apply (u16_at_Some _ 4); by eexists).
  destruct (question_end (Z.to_nat qd) (response r) 12) as [e|] eqn:Eq; cbn [ok_or mbind outcome_bind].
  - unfold fill_counts. destruct (Nat.ltb_spec (length (response r)) 12) as [Hl|Hl]; cbn; split; try done.
    + intros _. split; [lia|]. apply question_end_ge in Eq as [[Hz _]|(_ & ? & _)]; [|lia].
      apply u16_at_range in E4. f_equal. destruct E4. lia.
    + intros [? _]. lia.
  - split; [done|]. intros [_ [= ->]]. done.
Qed.

Lemma read_answers_none p o acc : read_answers 0 p o acc = Some acc.
Proof. done. Qed.

(** A filtered response says that there are no answers. *)
Lemma filtered_counts r rule r' :
  apply_ipv6_dns_filter r rule = Ok r' →
  12 ≤ length (response r') ∧ u16_at (response r') 6 = Some 0%Z ∧ take 6 (response r') = take 6 (response r) ∧
  response_info r' = sniff_dns_response (response r') ∧ resolution_rule_id r' = Some rule ∧ ipv6_filtered r' = true.
Proof.
  unfold apply_ipv6_dns_filter. intros (e & He & H)%outcome_bind_Ok_inv. apply ok_or_Ok in He.
  apply outcome_bind_Ok_inv in H as (f & Hf & H). unfold fill_counts in Hf.
  destruct (Nat.ltb_spec (length (response r)) 12) as [Hl|Hl]; [done|].
  remember (take 6 (response r) ++ replicate 6 x00 ++ drop 12 (response r))%list as filled eqn:Ef.
  assert (f = filled) as -> by congruence. clear Hf.
  injection H as <-. cbn [response response_info resolution_rule_id ipv6_filtered].
  assert (12 ≤ e) as Hge.
  { unfold dns_question_end in He. destruct (u16_at (response r) 4) as [qd|]; cbn in He; [|done].
    apply question_end_from in He. lia. }
  assert (length filled = length (response r)) as Hlen.
  { rewrite Ef, !length_app, length_take, length_replicate, length_drop. lia. }
  assert (take 12 filled = (take 6 (response r) ++ replicate 6 x00)%list) as H12.
  { rewrite Ef, app_assoc. apply take_app_length'. rewrite length_app, length_take, length_replicate. lia. }
  split_and!; try done.
  - rewrite length_take, Hlen. lia.
  - unfold u16_at. rewrite get_range_Some by (rewrite length_take, Hlen; lia). cbn [mbind option_bind].
    replace (take (6 + 2 - 6) (drop 6 (take e filled))) with (take 2 (drop 6 (take 12 (take e filled)))).
    2: { change (6 + 2 - 6) with 2. rewrite !firstn_skipn_comm, (take_take (take e filled)). done. }
    rewrite take_take. replace (12 `min` e) with 12 by lia. rewrite H12, drop_app_length' by (rewrite length_take; lia). done.
  - rewrite take_take. replace (6 `min` e) with 6 by lia. replace (take 6 filled) with (take 6 (take 12 filled)) by by rewrite take_take.
    rewrite H12. apply take_app_length'. rewrite length_take. lia.
Qed.

(** ** The race, declaratively *)
Fixpoint in_time (l : list arrival) : list (resolve DnsResolution) :=
  match l with Received _ r :: l => r :: in_time l | _ => [] end.

(** The resolutions that arrive in time, each after the filter. *)
Definition answers (deny : option RuleId) (l : list arrival) : list (resolve DnsResolution) :=
  omap (λ r, match r with Ok r => Some (filter_denied deny r) | _ => None end) (in_time l).

Definition decisive (r : resolve DnsResolution) : bool :=
  match r with Ok r => negb (only_fake_answers r) | _ => true end.

Definition last_failure (l : list arrival) : option DnsResolveError :=
  last (omap (λ r, match r with Err e => Some e | _ => None end) (in_time l)).

Definition timed_out (l : list arrival) : bool :=
  existsb (λ a, match a with DeadlinePassed => true | _ => false end) l.

Definition race_reference (deny : option RuleId) (l : list arrival) : resolve DnsResolution :=
  match List.find decisive (answers deny l), head (answers deny l) with
  | Some r, _ => r
  | None, Some fake => fake
  | None, None =>
      Err (default (dns_error (if timed_out l then "timed out waiting for DNS upstream response" else "all DNS upstreams failed"))
             (last_failure l))
  end.

Lemma last_cons_default {A} (x : A) l : last (x :: l) = Some (default x (last l)).
Proof. rewrite last_cons. by destruct (last l). Qed.

Lemma race_general deny last_error fake l :
  race deny last_error fake l =
    match List.find decisive (answers deny l), match fake with Some r => Some (Ok r) | None => head (answers deny l) end with
    | Some r, _ => r
    | None, Some r => r
    | None, None =>
        Err (default (default (dns_error (if timed_out l then "timed out waiting for DNS upstream response" else "all DNS upstreams failed"))
                        last_error) (last_failure l))
    end.
Proof.
  revert last_error fake. induction l as [|a l IH]; intros le fake; [by destruct fake|].
  destruct a as [u [r|e|]|]; cbn [race].
  - unfold answers. cbn [in_time omap list_omap]. fold (answers deny l).
    change (timed_out (Received u (Ok r) :: l)) with (timed_out l). change (last_failure (Received u (Ok r) :: l)) with (last_failure l).
    destruct (filter_denied deny r) as [r'|e|]; cbn [mbind outcome_bind List.find decisive head]; try done.
    destruct (only_fake_answers r') eqn:Ef; cbn [negb]; [|done]. rewrite IH. by destruct fake.
  - unfold answers. cbn [in_time omap list_omap]. fold (answers deny l). rewrite IH.
    change (timed_out (Received u (Err e) :: l)) with (timed_out l).
    assert (last_failure (Received u (Err e) :: l) = Some (default e (last_failure l))) as -> by apply last_cons_default.
    destruct (List.find _ _); [done|]. destruct fake; [done|]. destruct (head (answers deny l)); [done|]. cbn. by destruct (last_failure l).
  - unfold answers. cbn [in_time omap list_omap]. fold (answers deny l). apply IH.
  - by destruct fake.
Qed.

(** C31: The race of the upstreams is won by the first resolution, after the filter, that
    has a real answer or whose filtering fails, among those that arrive before the
    deadline; failing that by the first one, whose answers are then all fake; and
    otherwise it reports the last failure, or what ended it. *)
Theorem race_is_reference deny l : race deny None None l = race_reference deny l.
Proof. rewrite race_general. unfold race_reference. destruct (List.find _ _); [done|]. by destruct (head (answers deny l)). Qed.

(** ** Resolving *)
Lemma race_source deny le fake l r :
  race deny le fake l = Ok r → fake = Some r ∨ ∃ u r0, Received u (Ok r0) ∈ l ∧ filter_denied deny r0 = Ok r.
Proof.
  revert le fake. induction l as [|a l IH]; intros le fake; cbn [race].
  { destruct fake; [intros [= ->]; by left|done]. }
  destruct a as [u [r0|e|]|].
  - intros (r1 & H1 & H)%outcome_bind_Ok_inv. destruct (only_fake_answers r1).
    + destruct (IH _ _ H) as [Hf|(u' & r' & Hin & Hr)].
      * destruct fake as [f|]; cbn in Hf; [by left|]. injection Hf as ->. right. exists u, r0. split; [by left|done].
      * right. exists u', r'. split; [by right|done].
    + injection H as ->. right. exists u, r0. split; [by left|done].
  - intros H%IH. destruct H as [?|(u' & r' & ? & ?)]; [by left|right]. exists u', r'. split; [by right|done].
  - intros H%IH. destruct H as [?|(u' & r' & ? & ?)]; [by left|right]. exists u', r'. split; [by right|done].
  - destruct fake; [intros [= ->]; by left|done].
Qed.

Lemma resolved_from st query replies deadline st' r :
  resolve_dns_wire st query replies deadline = (st', Ok r) →
  st' = record_dns_resolution st r ∧
  ∃ u rep r0, (u, rep) ∈ replies ∧ query_upstream u (sniff_dns_query query) rep = Ok r0 ∧
    filter_denied (ipv6_deny_rule st (sniff_dns_query query)) r0 = Ok r.
Proof.
  unfold resolve_dns_wire. destruct (enabled_upstreams _); [done|]. destruct (race _ _ _ _) as [r1|e|] eqn:Er; intros [= <- <-].
  split; [done|]. apply race_source in Er as [?|(u & r0 & Hin & Hf)]; [done|].
  apply elem_of_app in Hin as [Hin|Hin].
  - apply list_elem_of_In, in_map_iff in Hin as ([u' rep] & [= <- Hq] & Hin%list_elem_of_In). by exists u', rep, r0.
  - destruct deadline; [by apply list_elem_of_singleton in Hin|by apply elem_of_nil in Hin].
Qed.

(** An answer without questions asked of the parser has none. *)
Lemma no_answers p i : sniff_dns_response p = Some i → u16_at p 6 = Some 0%Z → r_answer_ips i = [].
Proof.
  intros H H6. unfold sniff_dns_response in H. destruct (transaction_id p); cbn in H; [|done].
  destruct (u16_at p 4); cbn in H; [|done]. rewrite H6 in H. cbn in H.
  destruct (read_questions _ p 12 None) as [[? ?]|]; cbn in H; [|done]. by injection H as <-.
Qed.

Lemma observe_nothing st name : observe_dns st name [] = st.
Proof. by destruct st. Qed.

(** C30: When the rules deny IPv6 for the name of an AAAA query, whatever is resolved has
    no answer: its answer count is zero, no address is read from it, it names the rule
    that denied it, its transaction id is that of the reply, and the map of observed
    names is left as it was. *)
Theorem denied_resolution st query replies deadline st' r rule :
  ipv6_deny_rule st (sniff_dns_query query) = Some rule →
  resolve_dns_wire st query replies deadline = (st', Ok r) →
  u16_at (response r) 6 = Some 0%Z ∧ (∀ i, response_info r = Some i → r_answer_ips i = []) ∧
  only_fake_answers r = false ∧ ipv6_filtered r = true ∧ resolution_rule_id r = Some rule ∧ st' = st.
Proof.
  intros Hd (-> & u & rep & r0 & _ & _ & Hf)%resolved_from. rewrite Hd in Hf.
  apply filtered_counts in Hf as (_ & H6 & _ & Hi & Hr & Hv).
  assert (∀ i, response_info r = Some i → r_answer_ips i = []) as Hno.
  { intros i. rewrite Hi. intros H. by eapply no_answers. }
  split_and!; try done.
  - unfold only_fake_answers. destruct (response_info r) as [i|]; [|done]. by rewrite (Hno i eq_refl).
  - unfold record_dns_resolution. destruct (response_info r) as [i|]; [|done]. destruct (r_query_name i); [|done].
    rewrite (Hno i eq_refl). apply observe_nothing.
Qed.

(** Without a denying rule a resolution is the response of one of the upstreams, as
    it came: if the query can be read, so can the response, and their transaction ids
    agree; and all that changes is that its addresses are observed under its name. *)
Theorem plain_resolution st query replies deadline st' r :
  ipv6_deny_rule st (sniff_dns_query query) = None →
  resolve_dns_wire st query replies deadline = (st', Ok r) →
  (∃ u rep, (u, rep) ∈ replies ∧ query_upstream u (sniff_dns_query query) rep = Ok r) ∧
  response_info r = sniff_dns_response (response r) ∧ ipv6_filtered r = false ∧
  (∀ q, sniff_dns_query query = Some q → ∃ i, response_info r = Some i ∧ r_transaction_id i = q_transaction_id q) ∧
  st' = match response_info r with
        | Some {| r_query_name := Some name; r_answer_ips := ips |} => observe_dns st name ips
        | _ => st
        end.
Proof.
  intros Hd (-> & u & rep & r0 & Hin & Hq & Hf)%resolved_from. rewrite Hd in Hf. injection Hf as ->.
  assert (∃ from bytes, resolution_of u from (sniff_dns_query query) bytes = Ok r) as (from & bytes & Hr).
  { destruct rep as [bytes from|bytes|e]; cbn in Hq; [by exists from, bytes| |done].
    apply outcome_bind_Ok_inv in Hq as (body & _ & Hq). by exists (upstream_address u), body. }
  unfold resolution_of in Hr. apply outcome_bind_Ok_inv in Hr as ([] & Hv & Hr). injection Hr as <-. cbn [response response_info ipv6_filtered].
  split_and!; [by exists u, rep|done|done| |].
  - intros q Hq'. rewrite Hq' in Hv. unfold validate_response_info in Hv. destruct (sniff_dns_response bytes) as [i|]; [|done].
    exists i. split; [done|]. destruct (Z.eqb_spec (q_transaction_id q) (r_transaction_id i)); [done|done].
  - unfold record_dns_resolution. cbn [response_info]. destruct (sniff_dns_response bytes) as [[? [?|] ? ?]|]; done.
Qed.

(** ** Chunked bodies *)
Lemma find_bytes_bound pat l n : find_bytes pat l = Some n → n + length pat ≤ length l ∧ take (length pat) (drop n l) = pat.
Proof.
  revert n. induction l as [|b l IH]; intros n; cbn [find_bytes]; case_bool_decide as Hb; intros H.
  - injection H as <-. rewrite <- Hb at 1. split; [|done]. rewrite length_take. cbn. lia.
  - done.
  - injection H as <-. split; [|done]. rewrite <- Hb at 1. rewrite length_take. cbn [length]. lia.
  - destruct (find_bytes pat l) as [m|]; [|done]. injection H as <-. destruct (IH m eq_refl). cbn [length drop]. split; [lia|done].
Qed.

Lemma chunk_loop_total fuel body cursor decoded :
  cursor ≤ length body → length body + 1 - cursor < fuel →
  ∃ r, chunk_loop fuel body cursor decoded = Some r ∧ no_panic r.
Proof.
  revert cursor decoded. induction fuel as [|fuel IH]; intros cursor decoded Hc Hf; [lia|]. cbn [chunk_loop].
  destruct (Nat.ltb_spec (length body) cursor); [lia|].
  destruct (find_bytes crlf (drop cursor body)) as [o|] eqn:Ef; [|by eexists].
  destruct (utf8_valid _); [cbn [negb]|by eexists].
  destruct (from_str_radix_16 _) as [size|]; [|by eexists].
  destruct (size =? 0)%Z; [by eexists|]. destruct (2 ^ 64 <=? _)%Z; [by eexists|].
  case_bool_decide as Hb; cbn [negb]; [|by eexists].
  apply get_range_inv in Hb as (Hb & _). destruct (get_range body _ _); [|by eexists].
  apply IH; lia.
Qed.

Lemma no_panic_decode body : no_panic (decode_chunked_body body).
Proof.
  unfold decode_chunked_body. destruct (chunk_loop_total (length body + 2) body 0 []) as (r & -> & Hr); [lia|lia|]. exact Hr.
Qed.

Lemma no_panic_https resp : no_panic (parse_https_dns_response resp).
Proof.
  unfold parse_https_dns_response. destruct (find_bytes _ resp) as [h|] eqn:Ef; [|done].
  apply find_bytes_bound in Ef as [Hl _]. cbn in Hl. destruct (_ <? h); [done|]. destruct (utf8_valid _); [|done]. cbn [negb].
  destruct (contains _ _); [|done]. cbn [negb]. destruct (Nat.ltb_spec (length resp) (h + 4)); [lia|].
  destruct (has_chunked_transfer_encoding _); [apply no_panic_decode|done].
Qed.

(** The size line of a chunk. *)
Definition hex_char (c : ascii) : bool := match to_digit 16 c with Some _ => true | None => false end.
Fixpoint hex_text (s : string) : bool := match s with "" => true | String c s => hex_char c && hex_text s end.

Lemma hex_char_plain c : hex_char c = true →
  in_range 0 127 (byte_of_ascii c) = true ∧ byte_of_ascii c ≠ x0d ∧ Ascii.eqb ";" c = false ∧ Ascii.eqb "+" c = false.
Proof. destruct c as [[] [] [] [] [] [] [] []]; vm_compute; intros H; try done; split_and!; done. Qed.

Lemma hex_text_app a b : hex_text (a ++ b) = hex_text a && hex_text b.
Proof. induction a as [|c a IH]; [done|]. change (String c a ++ b) with (String c (a ++ b)). cbn [hex_text]. by rewrite IH, andb_assoc. Qed.

Lemma to_digit_hex d : (0 ≤ d < 16)%Z → to_digit 16 (digit_char d) = Some d.
Proof.
  intros Hd. assert (∃ n, n < 16 ∧ d = Z.of_nat n) as (n & Hn & ->) by (exists (Z.to_nat d); lia).
  do 16 (destruct n as [|n]; [reflexivity|]). lia.
Qed.

Lemma digits_of_hex fuel z : hex_text (digits_of 16 fuel z) = true.
Proof.
  revert z. induction fuel as [|f IH]; intros z; [done|]. cbn [digits_of]. rewrite hex_text_app. apply andb_true_intro.
  split; [by destruct (z <? 16)%Z|]. cbn. unfold hex_char. rewrite to_digit_hex; [done|]. apply Z.mod_pos_bound. lia.
Qed.

Lemma hex_digits_of fuel z s :
  (0 ≤ z < 16 ^ Z.of_nat fuel)%Z → (z < 2 ^ 64)%Z → hex_digits 0 (digits_of 16 fuel z ++ s) = hex_digits z s.
Proof.
  revert z s. induction fuel as [|f IH]; intros z s Hz H64.
  { change (16 ^ Z.of_nat 0)%Z with 1%Z in Hz. by replace z with 0%Z by lia. }
  cbn [digits_of]. rewrite string_app_assoc.
  assert (hex_digits (z / 16) (String (digit_char (z mod 16)) "" ++ s) = hex_digits z s) as Hstep.
  { change (String (digit_char (z mod 16)) "" ++ s) with (String (digit_char (z mod 16)) s). cbn [hex_digits].
    rewrite to_digit_hex by (apply Z.mod_pos_bound; lia). cbn [mbind option_bind].
    replace (z / 16 * 16 + z mod 16)%Z with z by (pose proof (Z.div_mod z 16); lia).
    unfold try_u. rewrite (proj2 (Z.leb_le 0 z)), (proj2 (Z.ltb_lt z (2 ^ 64))) by lia. done. }
  destruct (Z.ltb_spec z 16) as [Hl|Hl].
  - rewrite Z.div_small in Hstep by lia. exact Hstep.
  - rewrite IH; [exact Hstep| |].
    + split; [apply Z.div_pos; lia|]. apply Z.div_lt_upper_bound; [lia|]. rewrite Nat2Z.inj_succ, Z.pow_succ_r in Hz by lia. lia.
    + pose proof (Z.div_le_upper_bound z 16 z). lia.
Qed.

Lemma parse_hex z : (0 ≤ z < 2 ^ 64)%Z → from_str_radix_16 (to_hex z) = Some z.
Proof.
  intros Hz. unfold to_hex. pose proof (hex_digits_of 40 z "" ) as H. rewrite string_app_nil_r in H.
  pose proof (digits_of_hex 40 z) as Hh.
  assert (hex_digits 0 (digits_of 16 40 z) = Some z) as Hd.
  { apply H; [|lia]. split; [lia|]. apply Z.lt_le_trans with (2 ^ 64)%Z; [lia|]. by vm_compute. }
  destruct (digits_of 16 40 z) as [|c s] eqn:E.
  { exfalso. cbn [digits_of] in E. destruct (if (z <? 16)%Z then _ else _) in E; done. }
  cbn [hex_text] in Hh. apply andb_true_iff in Hh as [Hc _]. apply hex_char_plain in Hc as (_ & _ & _ & Hp).
  rewrite <- Hd. unfold from_str_radix_16. destruct c as [[] [] [] [] [] [] [] []]; done.
Qed.

Lemma hex_bytes_valid s : hex_text s = true → utf8_valid (bytes_of s) = true.
Proof.
  induction s as [|c s IH]; [done|]. cbn [hex_text]. intros [Hc Hs]%andb_true_iff. apply hex_char_plain in Hc as (Hr & _).
  rewrite bytes_of_cons. cbn [utf8_valid]. rewrite Hr. by apply IH.
Qed.

Lemma hex_split s : hex_text s = true → split ";" s = [s].
Proof.
  induction s as [|c s IH]; [done|]. cbn [hex_text]. intros [Hc Hs]%andb_true_iff. apply hex_char_plain in Hc as (_ & _ & Hsemi & _).
  cbn [split]. by rewrite Hsemi, IH.
Qed.

Lemma find_crlf s rest : hex_text s = true → find_bytes crlf (bytes_of s ++ crlf ++ rest)%list = Some (length (bytes_of s)).
Proof.
  induction s as [|c s IH].
  { intros _. change (bytes_of "") with (@nil byte). unfold crlf at 2. cbn [app find_bytes]. by rewrite bool_decide_eq_true_2. }
  cbn [hex_text]. intros [Hc Hs]%andb_true_iff.
  apply hex_char_plain in Hc as (_ & Hcr & _). rewrite bytes_of_cons. cbn [app find_bytes].
  case_bool_decide as Hb; [exfalso; unfold crlf in Hb; cbn [length take app] in Hb; by injection Hb as Hb _|]. by rewrite IH.
Qed.

(** A chunk as a server writes it, and a body. *)
Definition encode_chunk (c : bytes) : bytes := (bytes_of (to_hex (Z.of_nat (length c))) ++ crlf ++ c ++ crlf)%list.
Definition encode_chunks (cs : list bytes) : bytes := (List.concat (List.map encode_chunk cs) ++ bytes_of "0" ++ crlf)%list.

Lemma drop_pre {A} (pre l : list A) : drop (length pre) (pre ++ l) = l.
Proof. apply drop_app_length. Qed.

Lemma chunk_step fuel pre c rest decoded :
  c ≠ [] → (Z.of_nat (length (pre ++ encode_chunk c ++ rest)) < 2 ^ 64)%Z →
  chunk_loop (S fuel) (pre ++ encode_chunk c ++ rest)%list (length pre) decoded =
  chunk_loop fuel (pre ++ encode_chunk c ++ rest)%list (length (pre ++ encode_chunk c)) (decoded ++ c).
Proof.
  intros Hc Hlen. cbn [chunk_loop]. set (body := (pre ++ encode_chunk c ++ rest)%list) in *.
  set (hex := to_hex (Z.of_nat (length c))).
  assert (hex_text hex = true) as Hh by apply digits_of_hex.
  assert (body = pre ++ bytes_of hex ++ crlf ++ c ++ crlf ++ rest)%list as Hbody.
  { unfold body, encode_chunk. by rewrite <- !app_assoc. }
  assert (length body = length pre + (length (bytes_of hex) + (2 + (length c + (2 + length rest))))) as Hl.
  { rewrite Hbody, !length_app. done. }
  destruct (Nat.ltb_spec (length body) (length pre)); [lia|].
  replace (drop (length pre) body) with (bytes_of hex ++ crlf ++ c ++ crlf ++ rest)%list by by rewrite Hbody, drop_pre.
  rewrite find_crlf by done. rewrite take_app_length, (hex_bytes_valid hex) by done. cbn [negb].
  rewrite text_of_bytes_of, hex_split by done. change (default "" (head [hex])) with hex.
  assert (from_str_radix_16 hex = Some (Z.of_nat (length c))) as -> by (apply parse_hex; lia).
  destruct (Z.eqb_spec (Z.of_nat (length c)) 0) as [Hz|_]; [destruct c; [done|cbn in Hz; lia]|].
  destruct (Z.leb_spec (2 ^ 64) (Z.of_nat (length pre + length (bytes_of hex) + 2) + Z.of_nat (length c) + 2)); [lia|].
  rewrite Nat2Z.id.
  assert (get_range body (length pre + length (bytes_of hex) + 2 + length c) (length pre + length (bytes_of hex) + 2 + length c + 2) = Some crlf) as ->.
  { rewrite Hbody. replace (pre ++ bytes_of hex ++ crlf ++ c ++ crlf ++ rest)%list with ((pre ++ bytes_of hex ++ crlf ++ c) ++ crlf ++ rest)%list by by rewrite <- !app_assoc.
    apply get_range_pre; rewrite !length_app; cbn [length crlf]; lia. }
  rewrite bool_decide_eq_true_2 by done. cbn [negb].
  assert (get_range body (length pre + length (bytes_of hex) + 2) (length pre + length (bytes_of hex) + 2 + length c) = Some c) as ->.
  { rewrite Hbody. replace (pre ++ bytes_of hex ++ crlf ++ c ++ crlf ++ rest)%list with ((pre ++ bytes_of hex ++ crlf) ++ c ++ crlf ++ rest)%list by by rewrite <- !app_assoc.
    apply get_range_pre; rewrite !length_app; cbn [length crlf]; lia. }
  f_equal. unfold encode_chunk. fold hex. rewrite !length_app. cbn [length crlf]. lia.
Qed.

Lemma chunk_end fuel pre tail decoded :
  chunk_loop (S fuel) (pre ++ bytes_of "0" ++ crlf ++ tail)%list (length pre) decoded = Some (Ok decoded).
Proof.
  cbn [chunk_loop]. destruct (Nat.ltb_spec (length (pre ++ bytes_of "0" ++ crlf ++ tail)) (length pre)) as [Hl|_].
  { rewrite length_app in Hl. lia. }
  rewrite drop_pre, find_crlf by done. rewrite take_app_length. done.
Qed.

Lemma chunk_loop_encoded cs pre tail fuel decoded :
  Forall (λ c, c ≠ []) cs → length cs < fuel →
  (Z.of_nat (length (pre ++ encode_chunks cs ++ tail)) < 2 ^ 64)%Z →
  chunk_loop fuel (pre ++ encode_chunks cs ++ tail)%list (length pre) decoded = Some (Ok (decoded ++ List.concat cs)%list).
Proof.
  intros Hcs. revert pre fuel decoded. induction Hcs as [|c cs Hc _ IH]; intros pre fuel decoded Hf Hl; (destruct fuel as [|fuel]; [cbn in Hf; lia|]).
  - unfold encode_chunks. cbn [List.map List.concat]. rewrite app_nil_r. cbn [app]. rewrite <- app_assoc. apply chunk_end.
  - unfold encode_chunks in *. cbn [List.map List.concat] in *. rewrite <- !app_assoc in *. rewrite chunk_step by done.
    rewrite (app_assoc pre) in *. rewrite (app_assoc (List.concat (List.map encode_chunk cs))) in *.
    rewrite (app_assoc decoded). cbn [length] in Hf.
    specialize (IH (pre ++ encode_chunk c)%list fuel (decoded ++ c)%list). rewrite <- !app_assoc in IH |- *. rewrite <- !app_assoc in Hl.
    apply IH; [lia|exact Hl].
Qed.

Lemma encoded_length cs : length cs ≤ length (List.concat (List.map encode_chunk cs)).
Proof.
  induction cs as [|c cs IH]; [done|]. cbn [List.map List.concat length]. unfold encode_chunk at 1. rewrite !length_app. cbn [length crlf]. lia.
Qed.

(** The bytes of an HTTPS response never make its reading panic, whatever they are;
    and a chunked body gives back the chunks that were encoded, whatever follows the
    last one. *)
Theorem https_body_roundtrip :
  (∀ resp, no_panic (parse_https_dns_response resp)) ∧
  ∀ cs tail, Forall (λ c, c ≠ []) cs → (Z.of_nat (length (encode_chunks cs ++ tail)) < 2 ^ 64)%Z →
    decode_chunked_body (encode_chunks cs ++ tail) = Ok (List.concat cs).
Proof.
  split; [exact no_panic_https|]. intros cs tail Hcs Hl. unfold decode_chunked_body.
  pose proof (encoded_length cs). rewrite (chunk_loop_encoded cs [] tail); [done|done| |done].
  unfold encode_chunks. rewrite !length_app. lia.
Qed.

(** ** Witnesses

    Names under [blocked.test] are denied IPv6; one upstream. *)
Definition demo_rule : RouteRule :=
  {| rule_id := "v4-only"; rule_priority := 1; rule_enabled := true; rule_matcher := DomainSuffix "blocked.test";
     rule_group_id := "default"; rule_ipv6 := Deny |}.
Definition demo_upstream : DnsUpstream :=
  {| upstream_id := "one"; upstream_address := socket_addr (V4 16843009) 53; upstream_transport := TransportUdp;
     upstream_enabled := true; upstream_priority := 1 |}.
Definition resolver_seed : RuntimeSeed :=
  {| seed_ipv6_enabled := true; seed_nodes := []; seed_default_group_id := "default"; seed_groups := [];
     seed_group_members := []; seed_route_rules := [demo_rule]; seed_dns_upstreams := [demo_upstream];
     seed_dns_policy := default_parallel |}.
Definition resolver_demo : RuntimeState := from_seed resolver_seed.

Definition question (name : string) (qtype : Z) : bytes :=
  (List.concat (List.map label_bytes (split "." name)) ++ [x00] ++ to_be 2 qtype ++ to_be 2 1)%list.
Definition demo_query (name : string) : bytes := (query_header 7 ++ question name 28)%list.
(** One AAAA answer, whose name points at the question. *)
Definition demo_response (name : string) : bytes :=
  (to_be 2 7 ++ to_be 2 33152 ++ to_be 2 1 ++ to_be 2 1 ++ to_be 2 0 ++ to_be 2 0 ++ question name 28 ++
   [xc0; x0c] ++ to_be 2 28 ++ to_be 2 1 ++ to_be 4 60 ++ to_be 2 16 ++ to_be 16 1)%list.

Definition demo_resolution (name : string) : RuntimeState * resolve DnsResolution :=
  resolve_dns_wire resolver_demo (demo_query name) [(demo_upstream, Datagram (demo_response name) (upstream_address demo_upstream))] false.

Definition resolved (r : RuntimeState * resolve DnsResolution) : DnsResolution :=
  unwrap_or {| response := []; upstream := demo_upstream; source := upstream_address demo_upstream; query_info := None;
               response_info := None; ipv6_filtered := false; resolution_rule_id := None |} r.2.

Lemma demo_resolution_eq name : is_ok (demo_resolution name).2 = true →
  resolve_dns_wire resolver_demo (demo_query name) [(demo_upstream, Datagram (demo_response name) (upstream_address demo_upstream))] false
  = ((demo_resolution name).1, Ok (resolved (demo_resolution name))).
Proof.
  intros H. fold (demo_resolution name). unfold resolved. rewrite <- (is_ok_unwrap _ _ H). by destruct (demo_resolution name).
Qed.

Lemma denied_resolution_witness :
  u16_at (response (resolved (demo_resolution "www.blocked.test"))) 6 = Some 0%Z ∧
  (demo_resolution "www.blocked.test").1 = resolver_demo ∧
  length (response (resolved (demo_resolution "www.blocked.test"))) = 34.
Proof.
  destruct (denied_resolution resolver_demo (demo_query "www.blocked.test")
    [(demo_upstream, Datagram (demo_response "www.blocked.test") (upstream_address demo_upstream))] false
    (demo_resolution "www.blocked.test").1 (resolved (demo_resolution "www.blocked.test")) "v4-only")
    as (H & _ & _ & _ & _ & Hst).
  - vm_compute. reflexivity.
  - apply demo_resolution_eq. vm_compute. reflexivity.
  - split; [exact H|]. split; [exact Hst|]. vm_compute. reflexivity.
Defined.

Lemma plain_resolution_witness :
  ipv6_filtered (resolved (demo_resolution "free.test")) = false ∧
  option_map r_answer_ips (response_info (resolved (demo_resolution "free.test"))) = Some [V6 1] ∧
  domain_for_ip (rt_dns_map (demo_resolution "free.test").1) (V6 1) = Some "free.test".
Proof.
  destruct (plain_resolution resolver_demo (demo_query "free.test")
    [(demo_upstream, Datagram (demo_response "free.test") (upstream_address demo_upstream))] false
    (demo_resolution "free.test").1 (resolved (demo_resolution "free.test"))) as (_ & _ & H & _ & _).
  - vm_compute. reflexivity.
  - apply demo_resolution_eq. vm_compute. reflexivity.
  - split; [exact H|]. split; vm_compute; reflexivity.
Defined.

(** A reply of eight bytes that counts no question reaches the panic. *)
Example short_reply_panics :
  (resolve_dns_wire resolver_demo (demo_query "www.blocked.test")
    [(demo_upstream, Datagram (to_be 2 7 ++ to_be 2 33152 ++ to_be 2 0 ++ to_be 2 0)%list (upstream_address demo_upstream))] false).2 = Panic.
Proof. vm_compute. reflexivity. Qed.

Lemma https_body_roundtrip_witness :
  decode_chunked_body (encode_chunks [[x01; x02]; [x03]] ++ crlf) = Ok [x01; x02; x03].
Proof.
  destruct https_body_roundtrip as [_ H]. apply (H [[x01; x02]; [x03]] crlf).
  - apply Forall_cons_2; [done|]. apply Forall_cons_2; [done|]. apply Forall_nil_2.
  - vm_compute. reflexivity.
Defined.
