(* ===== verification/Recovery.v ===== *)
(** * Recovery: what a restart finds in the store

    The queries of [persistence/recovery.rs] as the runtime uses them when it starts
    ([RuntimeState::from_bootstrap]): which sessions and shadow decisions come back,
    and that the ids handed out afterwards are new. *)
From Stdlib Require Import ZArith Lia Strings.Byte Ascii String Sorting.Sorted.
From stdpp Require Import base list numbers option strings gmap sets.
From S2P Require Import Prelude Collections Net RustStd Model Stores Validation Traffic MatrixStats Matrix Bootstrap Observations Runtime.
Local Open Scope string_scope.
Local Open Scope nat_scope.

(** ** The most recent rows of a table *)
Section recent.
Context {A : Type} (c : A → A → comparison) `{!CmpPreorder c}.
Context (c_antisym : ∀ x y, c y x = CompOpp (c x y)).

Definition newer (x y : A) : bool := match c x y with Lt => true | _ => false end.
Definition rank (x : A) (l : list A) : nat := length (List.filter (newer x) l).

#[local] Instance flip_preorder : CmpPreorder (flip c).
Proof.
  assert (∀ x y, cmp_leb (flip c) x y = cmp_leb c y x) as E by done.
  split; intros *; rewrite !E; [intros H; by apply leb_total|]. intros H1 H2. by eapply leb_trans.
Qed.

Lemma rank_perm x l l' : l ≡ₚ l' → rank x l = rank x l'.
Proof.
  unfold rank. induction 1 as [|y l l' _ IH|y z l|l1 l2 l3 _ IH1 _ IH2]; cbn; [done| | |congruence].
  - destruct (newer x y); cbn; lia.
  - by destruct (newer x y), (newer x z).
Qed.

(** No two rows of the table are equal in the order. *)
Definition strict (l : list A) : Prop := ∀ x y, x ∈ l → y ∈ l → c x y = Eq → x = y.

Lemma firstn_rank n l x :
  StronglySorted (λ a b, cmp_leb (flip c) a b = true) l → NoDup l → strict l →
  x ∈ firstn n l ↔ x ∈ l ∧ rank x l < n.
Proof.
  intros Hs. revert n. induction Hs as [|y l Hs IH Hall]; intros n Hnd Hst.
  { rewrite firstn_nil. split; [by intros ?%elem_of_nil|by intros [?%elem_of_nil _]]. }
  apply NoDup_cons in Hnd as [Hy Hnd]. rewrite Forall_forall in Hall.
  assert (strict l) as Hst' by (intros a b Ha Hb; apply Hst; by right).
  assert (∀ z, z ∈ l → newer y z = false) as Hyz.
  { intros z Hz. specialize (Hall z Hz). unfold cmp_leb, flip in Hall. unfold newer. rewrite c_antisym in Hall. by destruct (c y z). }
  assert (∀ z, z ∈ l → newer z y = true) as Hzy.
  { intros z Hz. specialize (Hall z Hz). unfold cmp_leb, flip in Hall. unfold newer.
    destruct (c z y) eqn:E; [|done|done]. exfalso. apply Hy.
    assert (z = y) as <-; [|done]. apply Hst; [by right|by left|done]. }
  destruct n as [|n]; [cbn; split; [by intros ?%elem_of_nil|lia]|]. cbn [firstn]. rewrite !elem_of_cons, IH by done.
  unfold rank; cbn [List.filter]. split.
  - intros [->|[Hx Hr]].
    + split; [by left|]. assert (newer y y = false) as ->.
      { unfold newer. pose proof (c_antisym y y) as E. by destruct (c y y). }
      assert (List.filter (newer y) l = []) as ->; [|cbn; lia].
      clear -Hyz. induction l as [|z l IH]; cbn; [done|]. rewrite Hyz by by left. apply IH. intros w Hw. apply Hyz. by right.
    + split; [by right|]. rewrite Hzy by done. cbn. unfold rank in Hr. lia.
  - intros [[->|Hx] Hr]; [by left|]. right. split; [done|]. rewrite Hzy in Hr by done. cbn in Hr. unfold rank. lia.
Qed.

Lemma elem_most_recent n l x : NoDup l → strict l → x ∈ most_recent c n l ↔ x ∈ l ∧ rank x l < n.
Proof.
  intros Hnd Hst. unfold most_recent. rewrite elem_of_sort_by.
  pose proof (sort_by_perm (flip c) l) as Hp.
  rewrite firstn_rank; [|exact (sort_by_sorted (flip c) l)| |].
  - rewrite (rank_perm x _ _ Hp). by rewrite (elem_of_Permutation_proper x _ _ Hp).
  - by rewrite Hp.
  - intros a b Ha Hb. rewrite Hp in Ha, Hb. by apply Hst.
Qed.

Lemma length_most_recent n l : length (most_recent c n l) ≤ n.
Proof. unfold most_recent. rewrite length_sort_by, length_firstn. lia. Qed.

Lemma NoDup_most_recent n l : NoDup l → NoDup (most_recent c n l).
Proof.
  intros Hnd. unfold most_recent. rewrite sort_by_perm. pose proof (sort_by_perm (flip c) l) as Hp.
  rewrite <- Hp in Hnd. rewrite <- (firstn_skipn n) in Hnd. by apply NoDup_app in Hnd as [? _].
Qed.
End recent.

(** ** Sessions *)
Lemma session_row_order_antisym x y : session_row_order y x = CompOpp (session_row_order x y).
Proof. exact (cmp_antisym (A:=Z * string) (sr_last_observed_at x, sr_session_key x) (sr_last_observed_at y, sr_session_key y)). Qed.

#[export] Instance session_row_preorder : CmpPreorder session_row_order.
Proof. exact (lex_preorder Z.compare String.compare sr_last_observed_at sr_session_key Z_ord_laws string_ord_laws). Qed.

(** Every row is filed under its key. *)
Definition rows_keyed (m : gmap string SessionRow) : Prop := ∀ k r, m !! k = Some r → sr_session_key r = k.

Lemma upsert_keyed m u : rows_keyed m → rows_keyed (upsert_traffic_session m u).
Proof.
  intros Hm k r. unfold upsert_traffic_session. destruct (decide (k = up_session_key u)) as [->|Hne].
  - rewrite lookup_insert_eq. intros [= <-]. destruct (m !! up_session_key u) as [r|] eqn:E; cbn; [by apply Hm|done].
  - rewrite lookup_insert_ne by done. apply Hm.
Qed.

Lemma record_events_keyed evs o : rows_keyed (runtime_traffic_sessions o) → rows_keyed (runtime_traffic_sessions (record_events o evs)).
Proof.
  rewrite record_events_sessions. generalize (runtime_traffic_sessions o). generalize (updates_of evs) as us. clear.
  induction us as [|u us IH]; intros m Hm; cbn; [done|]. by apply IH, upsert_keyed.
Qed.

Definition completed_rows (o : Observations) : list SessionRow := List.filter completed_row (session_rows o).

Lemma elem_session_rows o r : r ∈ session_rows o ↔ ∃ k, runtime_traffic_sessions o !! k = Some r.
Proof. apply elem_of_btree_values. Qed.

Lemma elem_completed o r : r ∈ completed_rows o ↔ (∃ k, runtime_traffic_sessions o !! k = Some r) ∧ completed_row r = true.
Proof.
  unfold completed_rows. rewrite list_elem_of_In, filter_In, <- list_elem_of_In, elem_session_rows. done.
Qed.

Lemma session_keys_NoDup o : rows_keyed (runtime_traffic_sessions o) → NoDup (List.map sr_session_key (session_rows o)).
Proof.
  intros Hk. unfold session_rows, btree_values. pose proof (NoDup_btree_keys (runtime_traffic_sessions o)) as Hnd.
  unfold btree_keys in Hnd. replace (List.map sr_session_key (btree_iter (runtime_traffic_sessions o)).*2) with ((btree_iter (runtime_traffic_sessions o)).*1); [done|].
  assert (∀ p, p ∈ btree_iter (runtime_traffic_sessions o) → sr_session_key p.2 = p.1) as Hp.
  { intros [k r] Hp%elem_of_btree_iter. by apply Hk. }
  revert Hp. generalize (btree_iter (runtime_traffic_sessions o)) as l. induction l as [|p l IH]; intros Hp; [done|].
  cbn. rewrite (Hp p) by by left. f_equal. apply IH. intros q Hq. apply Hp. by right.
Qed.

Lemma NoDup_map_filter {A B} (f : A → B) (p : A → bool) l : NoDup (List.map f l) → NoDup (List.map f (List.filter p l)).
Proof.
  induction l as [|x l IH]; cbn; [done|]. intros [Hx Hnd]%NoDup_cons. destruct (p x); [|by apply IH].
  cbn. apply NoDup_cons. split; [|by apply IH]. intros (y & He & [Hy _]%filter_In)%list_elem_of_In%in_map_iff.
  apply Hx, list_elem_of_In, in_map_iff. by exists y.
Qed.

Lemma NoDup_of_map {A B} (f : A → B) l : NoDup (List.map f l) → NoDup l.
Proof. apply (NoDup_fmap_1 f). Qed.

Lemma take_last_all {A} n (l : list A) : length l ≤ n → take_last n l = l.
Proof. intros Hl. unfold take_last. rewrite firstn_all2 by by rewrite length_rev. apply rev_involutive. Qed.

(** Up to its limit the store takes every session it is given. *)
Lemma from_sessions_lookup l k t :
  length l ≤ TRAFFIC_SESSION_LIMIT → NoDup (List.map ts_session_key l) →
  from_sessions l !! k = Some t ↔ t ∈ l ∧ ts_session_key t = k.
Proof.
  intros Hl Hnd. unfold from_sessions. rewrite take_last_all by done.
  assert (∀ m : SessionMap, size m + length l ≤ TRAFFIC_SESSION_LIMIT →
    fold_left (λ m t, <[ts_session_key t := t]> (if size m =? TRAFFIC_SESSION_LIMIT then evict_oldest m else m)) l m !! k = Some t ↔
    (t ∈ l ∧ ts_session_key t = k) ∨ ((k ∉ List.map ts_session_key l) ∧ m !! k = Some t)) as Hgen.
  { clear Hl. revert Hnd. induction l as [|x l IH]; intros Hnd m Hm; cbn [fold_left List.map].
    { split; [intros H; right; split; [by intros ?%elem_of_nil|done]|]. by intros [[?%elem_of_nil _]|[_ ?]]. }
    apply NoDup_cons in Hnd as [Hx Hnd]. cbn [length] in Hm.
    destruct (Nat.eqb_spec (size m) TRAFFIC_SESSION_LIMIT) as [E|_]; [lia|].
    rewrite IH; [|done|pose proof (map_size_insert (ts_session_key x) x m) as Hs; rewrite Hs; destruct (m !! ts_session_key x); cbn; lia].
    rewrite !elem_of_cons. destruct (decide (ts_session_key x = k)) as [<-|Hne].
    - rewrite lookup_insert_eq. split.
      + intros [[Ht Hk]|[_ [= <-]]]; [|left; by split; [left|]]. left. by split; [right|].
      + intros [[[->|Ht] Hk]|[Hn _]]; [by right| |exfalso; apply Hn; by left].
        exfalso. apply Hx. rewrite <- Hk. apply list_elem_of_In, in_map_iff. exists t. by rewrite <- list_elem_of_In.
    - rewrite lookup_insert_ne by done. split.
      + intros [[Ht Hk]|[Hn Hm']]; [left; by split; [right|]|right; split; [|done]]. by intros [?|?].
      + intros [[[->|Ht] Hk]|[Hn Hm']]; [done|by left|right; split; [|done]]. intros ?. apply Hn. by right. }
  rewrite Hgen by (rewrite map_size_empty; lia). split; [|by left]. by intros [?|[_ ?]].
Qed.

Lemma newest_rows_spec o r :
  rows_keyed (runtime_traffic_sessions o) →
  r ∈ most_recent session_row_order TRAFFIC_SESSION_LIMIT (completed_rows o) ↔
    r ∈ completed_rows o ∧ rank session_row_order r (completed_rows o) < TRAFFIC_SESSION_LIMIT.
Proof.
  intros Hk. pose proof (session_keys_NoDup o Hk) as Hnd.
  assert (NoDup (List.map sr_session_key (completed_rows o))) as Hnd' by by apply NoDup_map_filter.
  apply elem_most_recent; [exact _|apply session_row_order_antisym|by eapply NoDup_of_map|].
  intros x y Hx Hy E. apply (NoDup_key_inj sr_session_key (completed_rows o)); [done|done|done|].
  assert ((sr_last_observed_at x, sr_session_key x) = (sr_last_observed_at y, sr_session_key y)) as [= _ ?]; [|done].
  by apply (cmp_eq (A:=Z * string)).
Qed.

(** a restart restores exactly the newest completed sessions: after any history of
    events the session store of the restarted process files under a key the stored row
    of that key, iff the session was closed or failed and fewer than 1024 completed
    sessions were observed later (ties going to the greater key); sessions that were
    still open are not restored. *)
Theorem restart_sessions evs k t :
  let o := record_events no_observations evs in
  from_sessions (load_recent_traffic_sessions o) !! k = Some t ↔
    ∃ r, runtime_traffic_sessions o !! k = Some r ∧ completed_row r = true ∧ t = row_to_traffic_session r ∧
      rank session_row_order r (completed_rows o) < TRAFFIC_SESSION_LIMIT.
Proof.
  intros o. assert (rows_keyed (runtime_traffic_sessions o)) as Hk by (apply record_events_keyed; intros k0 r0; cbn [runtime_traffic_sessions no_observations]; by rewrite lookup_empty).
  set (L := most_recent session_row_order TRAFFIC_SESSION_LIMIT (completed_rows o)).
  change (load_recent_traffic_sessions o) with (List.map row_to_traffic_session L).
  assert (NoDup (List.map sr_session_key L)) as HL.
  { unfold L, most_recent. rewrite (sort_by_perm _ (firstn _ _)).
    assert (NoDup (List.map sr_session_key (sort_by (flip session_row_order) (completed_rows o)))) as H.
    { rewrite (sort_by_perm _ (completed_rows o)). apply NoDup_map_filter. by apply session_keys_NoDup. }
    rewrite <- (firstn_skipn TRAFFIC_SESSION_LIMIT (sort_by (flip session_row_order) (completed_rows o))), map_app in H. by apply NoDup_app in H as [? _]. }
  rewrite from_sessions_lookup; [|rewrite length_map; apply length_most_recent|rewrite map_map; exact HL].
  rewrite list_elem_of_In, in_map_iff. split.
  - intros ((r & <- & Hr%list_elem_of_In) & <-). apply newest_rows_spec in Hr as [Hr Hrank]; [|done].
    apply elem_completed in Hr as [[k' Hk'] Hc]. exists r. split_and!; [|done|done|done].
    change (ts_session_key (row_to_traffic_session r)) with (sr_session_key r). by rewrite (Hk _ _ Hk').
  - intros (r & Hr & Hc & -> & Hrank). split; [|by apply Hk]. exists r. split; [done|]. apply list_elem_of_In.
    apply newest_rows_spec; [done|]. split; [apply elem_completed; split; [by exists k|done]|done].
Qed.

(** ** Identifiers *)
Lemma fold_max_start l x : (x ≤ fold_left Z.max l x)%Z.
Proof. revert x. induction l as [|z l IH]; intros x; cbn; [done|]. transitivity (Z.max x z); [lia|apply IH]. Qed.

Lemma fold_max_le l x y : y = x ∨ y ∈ l → (y ≤ fold_left Z.max l x)%Z.
Proof.
  intros [->|Hy]; [apply fold_max_start|]. revert x. induction Hy as [z l|z w l _ IH]; intros x; cbn; [|apply IH].
  transitivity (Z.max x z); [lia|apply fold_max_start].
Qed.

Lemma sql_max_le l y : y ∈ l → (y ≤ zero_if_null (sql_max l))%Z.
Proof. destruct l as [|x l]; [by intros ?%elem_of_nil|]. intros Hy%elem_of_cons. by apply fold_max_le. Qed.

Lemma sql_max_Some l y : y ∈ l → ∃ m, sql_max l = Some m ∧ (y ≤ m)%Z.
Proof. destruct l as [|x l]; [by intros ?%elem_of_nil|]. intros Hy%elem_of_cons. eexists. split; [done|]. by apply fold_max_le. Qed.

Lemma max_of_all_le ls l y : sql_max l ∈ ls → y ∈ l → (y ≤ max_of_all ls)%Z.
Proof.
  intros Hl Hy. destruct (sql_max_Some l y Hy) as (m & Em & Hm). transitivity m; [done|].
  apply sql_max_le. apply list_elem_of_omap. exists (Some m). by rewrite <- Em.
Qed.

Lemma i64_to_u64_le z : (z ≤ i64_to_u64 z)%Z.
Proof. unfold i64_to_u64. destruct (Z.leb_spec 0 z); lia. Qed.

(** Every id of the store is at most the watermark of its kind. *)
Lemma watermarks_bound o :
  let w := load_id_watermarks o in
  (∀ e, e ∈ runtime_events o → (er_event_id e ≤ wm_event_id w)%Z) ∧
  (∀ r, r ∈ session_rows o → (sr_session_id r ≤ wm_session_id w)%Z ∧ ∀ d, sr_decision_id r = Some d → (d ≤ wm_decision_id w)%Z) ∧
  (∀ r, r ∈ selection_decisions o → (dr_session_id r ≤ wm_session_id w)%Z ∧ (dr_decision_id r ≤ wm_decision_id w)%Z) ∧
  (∀ r, r ∈ matrix_shadow_decisions o → (hr_session_id r ≤ wm_session_id w)%Z ∧ (hr_decision_id r ≤ wm_decision_id w)%Z).
Proof.
  assert (∀ {A} (f : A → Z) l x, x ∈ l → f x ∈ List.map f l) as Hmap.
  { intros A f l x Hx. apply list_elem_of_In, in_map_iff. exists x. by rewrite <- list_elem_of_In. }
  cbn. split_and!.
  - intros e He. etransitivity; [|apply i64_to_u64_le]. apply sql_max_le. by apply (Hmap _ er_event_id).
  - intros r Hr. split.
    + etransitivity; [|apply i64_to_u64_le]. apply (max_of_all_le _ (List.map sr_session_id (session_rows o))); [by left|by apply Hmap].
    + intros d Hd. etransitivity; [|apply i64_to_u64_le]. apply (max_of_all_le _ (omap sr_decision_id (session_rows o))); [by left|].
      apply list_elem_of_omap. by exists r.
  - intros r Hr. split; (etransitivity; [|apply i64_to_u64_le]).
    + apply (max_of_all_le _ (List.map dr_session_id (selection_decisions o))); [by right; left|by apply Hmap].
    + apply (max_of_all_le _ (List.map dr_decision_id (selection_decisions o))); [by right; left|by apply Hmap].
  - intros r Hr. split; (etransitivity; [|apply i64_to_u64_le]).
    + apply (max_of_all_le _ (List.map hr_session_id (matrix_shadow_decisions o))); [by right; right; left|by apply Hmap].
    + apply (max_of_all_le _ (List.map hr_decision_id (matrix_shadow_decisions o))); [by right; right; left|by apply Hmap].
Qed.

(** Ids that the counters of a running process give out stay below the sign bit. *)
Definition ids_in_range (o : Observations) : Prop :=
  let w := load_id_watermarks o in
  (wm_event_id w < 2 ^ 63)%Z ∧ (wm_session_id w < 2 ^ 63)%Z ∧ (wm_decision_id w < 2 ^ 63)%Z.

(** The state of a restarted process. *)
Definition restart (seed : RuntimeSeed) (o : Observations) : RuntimeState :=
  let w := load_id_watermarks o in
  from_bootstrap seed (load_recent_traffic_sessions o) (load_recent_shadows o)
    (wm_event_id w) (wm_session_id w) (wm_decision_id w).

Lemma next_above z w : (z ≤ w)%Z → (0 ≤ w)%Z → (w < 2 ^ 63)%Z → (z < wrap_u 64 (w + 1))%Z.
Proof.
  intros Hz H0 Hw. rewrite wrap_u_small; [lia|]. split; [lia|].
  change (2 ^ 63)%Z with 9223372036854775808%Z in Hw. change (2 ^ 64)%Z with 18446744073709551616%Z. lia.
Qed.

Lemma i64_to_u64_nonneg z : (0 ≤ i64_to_u64 z)%Z.
Proof. unfold i64_to_u64. destruct (Z.leb_spec 0 z); lia. Qed.

(** the ids of a restarted process are new: the next event, session and decision
    that it numbers exceed every event, session and decision id that is still in the
    store, in whichever table it is. *)
Theorem restart_ids_fresh seed o :
  ids_in_range o →
  let st := restart seed o in
  (∀ e now k fields, e ∈ runtime_events o → (er_event_id e < event_id (record_event (rt_events st) now k fields).2)%Z) ∧
  (∀ r, r ∈ session_rows o → (sr_session_id r < (next_session st).2)%Z ∧
     ∀ d, sr_decision_id r = Some d → (d < wrap_u 64 (rt_next_decision_id st + 1))%Z) ∧
  (∀ r, r ∈ selection_decisions o → (dr_session_id r < (next_session st).2)%Z ∧
     (dr_decision_id r < wrap_u 64 (rt_next_decision_id st + 1))%Z) ∧
  (∀ r, r ∈ matrix_shadow_decisions o → (hr_session_id r < (next_session st).2)%Z ∧
     (hr_decision_id r < wrap_u 64 (rt_next_decision_id st + 1))%Z) ∧
  (∀ now c st' d, select st now c = (st', Ok d) → decision_id d = wrap_u 64 (rt_next_decision_id st + 1)).
Proof.
  intros (He & Hs & Hd). pose proof (watermarks_bound o) as (Be & Br & Bd & Bh).
  pose proof (i64_to_u64_nonneg : ∀ z, _) as Hnn.
  split_and!.
  - intros e now k fields Hin. apply next_above; [by apply Be|apply Hnn|done].
  - intros r Hr. destruct (Br r Hr) as [B1 B2]. split; [apply next_above; [done|apply Hnn|done]|].
    intros d Hd'. apply next_above; [by apply B2|apply Hnn|done].
  - intros r Hr. destruct (Bd r Hr). split; (apply next_above; [done|apply Hnn|done]).
  - intros r Hr. destruct (Bh r Hr). split; (apply next_above; [done|apply Hnn|done]).
  - intros now c st' d. unfold select. destruct (select_path _ c) as [[[[[? ?] ?] ?] sel]|?|]; [|done|done].
    destruct (head (sel_trace sel)); [|done]. by intros [= _ <-].
Qed.

Lemma restart_ids_fresh_witness :
  let o := record_events no_observations demo_events in
  ids_in_range o ∧ ∀ r, r ∈ session_rows o → (sr_session_id r < (next_session (restart store_demo o)).2)%Z.
Proof.
  intros o. assert (ids_in_range o) as H by (vm_compute; repeat split; reflexivity).
  split; [exact H|]. intros r Hr. destruct (restart_ids_fresh store_demo o H) as (_ & Hs & _). by apply Hs.
Defined.
