(* ===== verification/SlideBuffer.v ===== *)
(** * SlideBuffer: the linear buffer of the TLS code

    [prototype/vless/src/slide_buffer.rs]: a byte array with the offsets of the part in
    use. The debug assertions are kept, as panics; the array starts with whatever its
    allocation held. The specification is a queue of bytes of bounded size. *)
From Stdlib Require Import ZArith Lia Strings.Byte.
From stdpp Require Import base list numbers option.
From S2P Require Import Prelude Net.
Local Open Scope nat_scope.

Record SlideBuffer := { data : bytes; start : nat; end_ : nat }.

Abbreviation run := (outcome Empty_set).

(** ** Operations *)
Definition new (allocated : bytes) : SlideBuffer := {| data := allocated; start := 0; end_ := 0 |}.
Definition len (b : SlideBuffer) : nat := end_ b - start b.
Definition is_empty (b : SlideBuffer) : bool := end_ b <=? start b.
Definition remaining_capacity (b : SlideBuffer) : nat := length (data b) - end_ b.
Definition as_slice (b : SlideBuffer) : run bytes := slice (data b) (start b) (end_ b).

(** [dest[i..i + l.len()].copy_from_slice(l)] *)
Definition copy_at (dest : bytes) (i : nat) (l : bytes) : run bytes :=
  if i + length l <=? length dest then Ok (take i dest ++ l ++ drop (i + length l) dest)%list else Panic.

(** Writing [l] to the front of [write_slice] *)
Definition fill_write_slice (b : SlideBuffer) (l : bytes) : run SlideBuffer :=
  d ← copy_at (data b) (end_ b) l; Ok {| data := d; start := start b; end_ := end_ b |}.

Definition advance_write (b : SlideBuffer) (n : nat) : run SlideBuffer :=
  if negb (end_ b + n <=? length (data b)) then Panic
  else Ok {| data := data b; start := start b; end_ := end_ b + n |}.

Definition extend_from_slice (b : SlideBuffer) (l : bytes) : run SlideBuffer :=
  if negb (length l <=? remaining_capacity b) then Panic
  else d ← copy_at (data b) (end_ b) l; Ok {| data := d; start := start b; end_ := end_ b + length l |}.

Definition consume (b : SlideBuffer) (n : nat) : run SlideBuffer :=
  if negb (n <=? len b) then Panic
  else
    let s := start b + n in
    if end_ b <=? s then Ok {| data := data b; start := 0; end_ := 0 |}
    else Ok {| data := data b; start := s; end_ := end_ b |}.

(** [copy_within] of the part in use to the front *)
Definition compact (b : SlideBuffer) : run SlideBuffer :=
  if (0 <? start b) && (start b <? end_ b) then
    l ← slice (data b) (start b) (end_ b);
    d ← copy_at (data b) 0 l;
    Ok {| data := d; start := 0; end_ := end_ b - start b |}
  else if end_ b <=? start b then Ok {| data := data b; start := 0; end_ := 0 |}
  else Ok b.

Definition maybe_compact (b : SlideBuffer) (threshold : nat) : run SlideBuffer :=
  if threshold <? start b then compact b else Ok b.

Definition get_u16_be (b : SlideBuffer) (offset : nat) : run (option Z) :=
  if offset + 2 <=? len b then
    let idx := start b + offset in
    x ← index (data b) idx; y ← index (data b) (idx + 1);
    Ok (Some (from_be [x; y]))
  else Ok None.

(** [slice_mut(range)] overwritten by [l] *)
Definition overwrite (b : SlideBuffer) (from : nat) (l : bytes) : run SlideBuffer :=
  d ← copy_at (data b) (start b + from) l; Ok {| data := d; start := start b; end_ := end_ b |}.

(** [Read::read] into a buffer of [n] bytes *)
Definition read (b : SlideBuffer) (n : nat) : run (SlideBuffer * bytes) :=
  let available := len b in
  if available =? 0 then Ok (b, [])
  else
    let to_read := n `min` available in
    l ← slice (data b) (start b) (start b + to_read);
    b' ← consume b to_read;
    Ok (b', l).

(** [Index] by a position and by ranges *)
Definition index_at (b : SlideBuffer) (i : nat) : run byte := index (data b) (start b + i).
Definition index_range (b : SlideBuffer) (i j : nat) : run bytes := slice (data b) (start b + i) (start b + j).
Definition index_from (b : SlideBuffer) (i : nat) : run bytes := slice (data b) (start b + i) (end_ b).
Definition index_to (b : SlideBuffer) (j : nat) : run bytes := slice (data b) (start b) (start b + j).

(** ** The queue it stands for *)
Record buffer_ok (b : SlideBuffer) : Prop := { ok_start : start b ≤ end_ b; ok_end : end_ b ≤ length (data b) }.

Definition contents (b : SlideBuffer) : bytes := take (len b) (drop (start b) (data b)).
Definition capacity (b : SlideBuffer) : nat := length (data b).

(** [b] is a buffer of capacity [cap] that holds [q]. *)
Definition holds (b : SlideBuffer) (cap : nat) (q : bytes) : Prop := buffer_ok b ∧ capacity b = cap ∧ contents b = q.

Section buffer.
Context (b : SlideBuffer) (cap : nat) (q : bytes).
Hypothesis Hb : holds b cap q.

Lemma holds_len : len b = length q.
Proof. destruct Hb as ([H1 H2] & _ & <-). unfold contents. rewrite length_take, length_drop. unfold len. lia. Qed.

(** The array, split at the part in use. *)
Lemma holds_split : ∃ pre post, data b = (pre ++ q ++ post)%list ∧ length pre = start b ∧ end_ b = length pre + length q ∧
  cap = length pre + length q + length post.
Proof.
  pose proof holds_len as Hl. destruct Hb as ([H1 H2] & <- & Hq). unfold contents in Hq. unfold len in *.
  exists (take (start b) (data b)), (drop (end_ b) (data b)).
  assert (data b = take (start b) (data b) ++ q ++ drop (end_ b) (data b))%list as Hd.
  { rewrite <- Hq. rewrite <- (take_drop (start b) (data b)) at 1. f_equal.
    rewrite <- (take_drop (end_ b - start b) (drop (start b) (data b))) at 1. f_equal. rewrite drop_drop. f_equal. lia. }
  split_and!; [exact Hd|rewrite length_take; lia|rewrite length_take; lia|].
  unfold capacity. rewrite Hd at 1. rewrite !length_app. lia.
Qed.

Lemma slice_contents : as_slice b = Ok q.
Proof.
  destruct holds_split as (pre & post & Hd & Hs & He & _). unfold as_slice, slice. rewrite Hd, <- Hs, He.
  rewrite get_range_Some by (rewrite !length_app; lia). rewrite drop_app_length.
  replace (length pre + length q - length pre) with (length q) by lia. by rewrite take_app_length.
Qed.
End buffer.

Lemma holds_intro pre q post : holds {| data := (pre ++ q ++ post)%list; start := length pre; end_ := length pre + length q |}
  (length pre + length q + length post) q.
Proof.
  split_and!.
  - split; cbn; [lia|]. rewrite !length_app. lia.
  - unfold capacity. cbn. rewrite !length_app. lia.
  - unfold contents, len. cbn. rewrite drop_app_length. replace (length pre + length q - length pre) with (length q) by lia.
    by rewrite take_app_length.
Qed.

(** A buffer is known by its parts. *)
Lemma holds_build b pre q post : data b = (pre ++ q ++ post)%list → start b = length pre → end_ b = length pre + length q →
  holds b (length pre + length q + length post) q.
Proof. destruct b as [d s e]. cbn. intros -> -> ->. apply holds_intro. Qed.

Lemma holds_parts b cap q : holds b cap q →
  ∃ pre post, b = {| data := (pre ++ q ++ post)%list; start := length pre; end_ := length pre + length q |} ∧
    cap = length pre + length q + length post.
Proof.
  intros Hb. destruct (holds_split b cap q Hb) as (pre & post & Hd & Hs & He & Hc). exists pre, post. split; [|done].
  destruct b as [d s e]. cbn in *. by subst.
Qed.

Lemma copy_at_parts pre x post l i : i = length pre → length l = length x → copy_at (pre ++ x ++ post) i l = Ok (pre ++ l ++ post)%list.
Proof.
  intros -> Hl. unfold copy_at. rewrite !length_app. destruct (Nat.leb_spec (length pre + length l) (length pre + (length x + length post))); [|lia].
  rewrite take_app_length. do 3 f_equal. rewrite drop_app_ge by lia. replace (length pre + length l - length pre) with (length x) by lia.
  apply drop_app_length.
Qed.

Lemma copy_at_short d i l : length d < i + length l → copy_at d i l = Panic.
Proof. intros Hl. unfold copy_at. by destruct (Nat.leb_spec (i + length l) (length d)); [lia|]. Qed.

(** The bytes behind the part in use, cut after [n]. *)
Lemma cut {A} (l : list A) n : n ≤ length l → ∃ a b, l = (a ++ b)%list ∧ length a = n.
Proof. intros Hn. exists (take n l), (drop n l). rewrite take_drop, length_take. split; [done|lia]. Qed.

(** ** The specification

    A queue and the room behind it. *)
Inductive op := Extend (l : bytes) | Append (l : bytes) | Consume (n : nat) | Compact | MaybeCompact (threshold : nat) | Read (n : nat).

Definition exec (b : SlideBuffer) (o : op) : run (SlideBuffer * bytes) :=
  match o with
  | Extend l => b' ← extend_from_slice b l; Ok (b', [])
  | Append l => b1 ← fill_write_slice b l; b2 ← advance_write b1 (length l); Ok (b2, [])
  | Consume n => b' ← consume b n; Ok (b', [])
  | Compact => b' ← compact b; Ok (b', [])
  | MaybeCompact t => b' ← maybe_compact b t; Ok (b', [])
  | Read n => read b n
  end.

Definition room_after (cap room : nat) (q : bytes) : nat := match q with [] => cap | _ => room end.

Definition spec (cap : nat) (q : bytes) (room : nat) (o : op) : option (bytes * nat * bytes) :=
  match o with
  | Extend l | Append l => if length l <=? room then Some ((q ++ l)%list, room - length l, []) else None
  | Consume n => if n <=? length q then Some (drop n q, room_after cap room (drop n q), []) else None
  | Compact => Some (q, cap - length q, [])
  | MaybeCompact t => Some (q, if t <? cap - room - length q then cap - length q else room, [])
  | Read n =>
      match q with
      | [] => Some ([], room, [])
      | _ => Some (drop n q, room_after cap room (drop n q), take n q)
      end
  end.

(** A step of the buffer is a step of the queue. *)
Definition simulates (cap : nat) (q : bytes) (room : nat) (o : op) (r : run (SlideBuffer * bytes)) : Prop :=
  match r with
  | Ok (b', out) => ∃ q' room', spec cap q room o = Some (q', room', out) ∧ holds b' cap q' ∧ remaining_capacity b' = room'
  | Panic => spec cap q room o = None
  | Err _ => False
  end.

Section steps.
Context (pre q post : bytes).
Let b : SlideBuffer := {| data := (pre ++ q ++ post)%list; start := length pre; end_ := length pre + length q |}.
Let cap : nat := length pre + length q + length post.

Lemma room_is : remaining_capacity b = length post.
Proof. unfold remaining_capacity, b. cbn. rewrite !length_app. lia. Qed.

Lemma append_data l post2 : length l = length (take (length l) post) → post = (take (length l) post ++ post2)%list →
  copy_at (data b) (end_ b) l = Ok ((pre ++ q) ++ l ++ post2)%list.
Proof.
  intros Hl Hp. cbn. rewrite app_assoc, Hp at 1. apply copy_at_parts; [by rewrite length_app|done].
Qed.

Lemma appended l post2 : post = (take (length l) post ++ post2)%list → length l ≤ length post →
  holds {| data := ((pre ++ q) ++ l ++ post2)%list; start := length pre; end_ := length pre + length q + length l |} cap (q ++ l) ∧
  length post2 = length post - length l.
Proof.
  intros Hp Hl. assert (length post2 = length post - length l) as H2.
  { rewrite Hp at 1. rewrite length_app, length_take. lia. }
  split; [|done]. replace cap with (length pre + length (q ++ l) + length post2) by (unfold cap; rewrite length_app; lia).
  apply holds_build; cbn; rewrite ?length_app; [by rewrite <- !app_assoc|done|lia].
Qed.

Lemma extend_step l : simulates cap q (length post) (Extend l) (exec b (Extend l)).
Proof.
  cbn [exec]. unfold extend_from_slice. rewrite room_is. unfold simulates. cbn [spec].
  destruct (Nat.leb_spec (length l) (length post)) as [Hl|Hl]; cbn [negb]; [|done].
  pose proof (take_drop (length l) post) as Hp. rewrite (append_data l (drop (length l) post)); [|rewrite length_take; lia|done].
  cbn [mbind outcome_bind]. destruct (appended l (drop (length l) post)) as [H H2]; [done|done|].
  eexists _, _. split; [reflexivity|]. split; [exact H|]. unfold remaining_capacity. cbn. rewrite !length_app, H2. lia.
Qed.

Lemma append_step l : simulates cap q (length post) (Append l) (exec b (Append l)).
Proof.
  cbn [exec]. unfold fill_write_slice, simulates. cbn [spec].
  destruct (Nat.leb_spec (length l) (length post)) as [Hl|Hl].
  - pose proof (take_drop (length l) post) as Hp. rewrite (append_data l (drop (length l) post)); [|rewrite length_take; lia|done].
    cbn [mbind outcome_bind]. destruct (appended l (drop (length l) post)) as [H H2]; [done|done|]. unfold advance_write. cbn [end_ data start b].
    destruct (Nat.leb_spec (length pre + length q + length l) (length ((pre ++ q) ++ l ++ drop (length l) post))) as [Hx|Hx];
      rewrite !length_app in Hx; [|lia]. cbn [negb mbind outcome_bind].
    eexists _, _. split; [reflexivity|]. split; [exact H|]. unfold remaining_capacity. cbn. rewrite !length_app, H2. lia.
  - rewrite copy_at_short; [done|]. cbn. rewrite !length_app. lia.
Qed.

Lemma consumed n : n ≤ length q →
  ∃ b', consume b n = Ok b' ∧ holds b' cap (drop n q) ∧ remaining_capacity b' = room_after cap (length post) (drop n q).
Proof.
  intros Hn. unfold consume, len. cbn [end_ start data b].
  destruct (Nat.leb_spec n (length pre + length q - length pre)); [|lia]. cbn [negb].
  assert (pre ++ q ++ post = (pre ++ take n q) ++ drop n q ++ post)%list as Hd.
  { rewrite <- !app_assoc. f_equal. rewrite app_assoc. by rewrite take_drop. }
  destruct (Nat.leb_spec (length pre + length q) (length pre + n)) as [Hall|Hsome].
  - assert (drop n q = []) as Hnil by (apply drop_ge; lia). rewrite Hnil. eexists. split; [reflexivity|]. split.
    + replace cap with (length (@nil byte) + length (@nil byte) + length (pre ++ q ++ post)) by (unfold cap; rewrite !length_app; cbn; lia).
      by apply holds_build.
    + unfold remaining_capacity, cap. cbn. rewrite !length_app. lia.
  - eexists. split; [reflexivity|]. split.
    + replace cap with (length (pre ++ take n q) + length (drop n q) + length post)
        by (unfold cap; rewrite length_app, length_take, length_drop; lia).
      apply holds_build; cbn; rewrite ?length_app, ?length_take, ?length_drop; [exact Hd|lia|lia].
    + unfold remaining_capacity. cbn. destruct (drop n q) eqn:E; [apply (f_equal length) in E; rewrite length_drop in E; cbn in E; lia|].
      cbn [room_after]. rewrite !length_app. lia.
Qed.

Lemma consume_step n : simulates cap q (length post) (Consume n) (exec b (Consume n)).
Proof.
  cbn [exec]. unfold simulates. cbn [spec]. destruct (Nat.leb_spec n (length q)) as [Hn|Hn].
  - destruct (consumed n Hn) as (b' & -> & Hh & Hr). cbn. eexists _, _. split; [reflexivity|]. done.
  - unfold consume, len. cbn [end_ start b]. destruct (Nat.leb_spec n (length pre + length q - length pre)); [lia|]. done.
Qed.

Lemma compacted : ∃ b', compact b = Ok b' ∧ holds b' cap q ∧ remaining_capacity b' = cap - length q.
Proof.
  unfold compact. cbn [start end_ data b]. destruct (Nat.ltb_spec 0 (length pre)) as [Hp|Hp]; cbn [andb].
  - destruct (Nat.ltb_spec (length pre) (length pre + length q)) as [Hq|Hq].
    + pose proof (slice_contents b cap q) as Hs. unfold as_slice in Hs. cbn [data start end_ b] in Hs.
      rewrite Hs by (unfold cap; apply holds_intro). cbn [mbind outcome_bind].
      destruct (cut (pre ++ q ++ post) (length q)) as (x & y & Hxy & Hx); [rewrite !length_app; lia|]. rewrite Hxy.
      pose proof (copy_at_parts [] x y q 0 eq_refl (eq_sym Hx)) as Hc. cbn [app] in Hc. rewrite Hc. cbn [mbind outcome_bind].
      assert (length y = length pre + length post) as Hy.
      { apply (f_equal length) in Hxy. rewrite !length_app in Hxy. lia. }
      eexists. split; [reflexivity|]. split.
      * replace cap with (length (@nil byte) + length q + length y) by (unfold cap; cbn; lia). apply holds_build; [done|done|cbn; lia].
      * unfold remaining_capacity, cap. cbn. rewrite length_app. lia.
    + destruct q; [|cbn in Hq; lia]. cbn [length] in *. rewrite Nat.add_0_r, Nat.leb_refl. eexists. split; [reflexivity|]. split.
      * replace cap with (length (@nil byte) + length (@nil byte) + length (pre ++ [] ++ post)) by (unfold cap; rewrite !length_app; cbn; lia).
        by apply holds_build.
      * unfold remaining_capacity, cap. cbn. rewrite length_app. lia.
  - destruct pre as [|]; [|cbn in Hp; lia]. cbn [length Nat.add]. destruct (Nat.leb_spec (length q) 0) as [Hq|Hq].
    + destruct q; [|cbn in Hq; lia]. eexists. split; [reflexivity|]. split; [by apply (holds_intro [] [] post)|].
      unfold remaining_capacity, cap. cbn. lia.
    + eexists. split; [reflexivity|]. split; [by apply (holds_intro [] q post)|]. unfold remaining_capacity, cap. cbn. rewrite length_app. lia.
Qed.

Lemma compact_step : simulates cap q (length post) Compact (exec b Compact).
Proof. cbn [exec]. destruct compacted as (b' & -> & Hh & Hr). cbn. eexists _, _. split; [reflexivity|]. done. Qed.

Lemma maybe_compact_step t : simulates cap q (length post) (MaybeCompact t) (exec b (MaybeCompact t)).
Proof.
  pose proof room_is as Hroom. cbn [exec]. unfold maybe_compact, simulates. cbn [spec]. replace (cap - length post - length q) with (start b) by (unfold cap; cbn; lia).
  destruct (t <? start b).
  - destruct compacted as (b' & -> & Hh & Hr). cbn. eexists _, _. split; [reflexivity|]. done.
  - cbn [mbind outcome_bind]. eexists _, _. split; [reflexivity|]. split; [apply holds_intro|exact Hroom].
Qed.

Lemma read_step n : simulates cap q (length post) (Read n) (exec b (Read n)).
Proof.
  pose proof room_is as Hroom. cbn [exec]. unfold read. assert (len b = length q) as Hlen by (unfold len, b; cbn; lia). rewrite Hlen.
  destruct (Nat.eqb_spec (length q) 0) as [E|E].
  - unfold simulates. cbn [spec]. destruct q; [|done]. eexists _, _. split; [reflexivity|]. split; [apply (holds_intro pre [])|exact Hroom].
  - unfold simulates. replace (spec cap q (length post) (Read n)) with (Some (drop n q, room_after cap (length post) (drop n q), take n q))
      by (cbn [spec]; by destruct q).
    unfold slice. rewrite get_range_Some by (unfold b; cbn [data start]; rewrite !length_app; lia).
    cbn [expect mbind outcome_bind]. destruct (consumed (n `min` length q)) as (b' & -> & Hh & Hr); [lia|]. cbn [mbind outcome_bind].
    assert (drop (n `min` length q) q = drop n q) as Hdrop.
    { destruct (Nat.le_gt_cases n (length q)); [by replace (n `min` length q) with n by lia|]. rewrite !drop_ge by lia. done. }
    rewrite Hdrop in *. eexists _, _. split; [|split; [exact Hh|exact Hr]].
    do 2 f_equal. cbn [data start b]. rewrite drop_app_length.
    replace (length pre + n `min` length q - length pre) with (n `min` length q) by lia.
    rewrite take_app_le by lia. destruct (Nat.le_gt_cases n (length q)); [by replace (n `min` length q) with n by lia|].
    rewrite !take_ge by lia. done.
Qed.
End steps.

Lemma exec_simulates b cap q o : holds b cap q → simulates cap q (remaining_capacity b) o (exec b o).
Proof.
  intros (pre & post & -> & ->)%holds_parts. rewrite room_is. destruct o.
  - apply extend_step.
  - apply append_step.
  - apply consume_step.
  - apply compact_step.
  - apply maybe_compact_step.
  - apply read_step.
Qed.

(** The operations, one by one, in terms of the queue. *)
Lemma consume_holds b cap q n : holds b cap q → n ≤ length q →
  ∃ b', consume b n = Ok b' ∧ holds b' cap (drop n q) ∧ remaining_capacity b' = room_after cap (remaining_capacity b) (drop n q).
Proof.
  intros Hb Hn. pose proof (exec_simulates b cap q (Consume n) Hb) as Hs. unfold simulates in Hs. cbn [exec spec] in Hs. rewrite (proj2 (Nat.leb_le n (length q)) Hn) in Hs.
  destruct (consume b n) as [b'|[]|]; cbn [mbind outcome_bind] in Hs; [|done]. destruct Hs as (q' & r' & [= <- <-] & Hh & Hr). by exists b'.
Qed.

Lemma extend_holds b cap q l : holds b cap q → length l ≤ remaining_capacity b →
  ∃ b', extend_from_slice b l = Ok b' ∧ holds b' cap (q ++ l) ∧ remaining_capacity b' = remaining_capacity b - length l.
Proof.
  intros Hb Hn. pose proof (exec_simulates b cap q (Extend l) Hb) as Hs. unfold simulates in Hs. cbn [exec spec] in Hs. rewrite (proj2 (Nat.leb_le _ _) Hn) in Hs.
  destruct (extend_from_slice b l) as [b'|[]|]; cbn [mbind outcome_bind] in Hs; [|done]. destruct Hs as (q' & r' & [= <- <-] & Hh & Hr). by exists b'.
Qed.

Lemma extend_full b cap q l : holds b cap q → remaining_capacity b < length l → extend_from_slice b l = Panic.
Proof.
  intros Hb Hn. unfold extend_from_slice. by destruct (Nat.leb_spec (length l) (remaining_capacity b)); [lia|].
Qed.

Lemma compact_holds b cap q : holds b cap q → ∃ b', compact b = Ok b' ∧ holds b' cap q ∧ remaining_capacity b' = cap - length q.
Proof.
  intros Hb. pose proof (exec_simulates b cap q Compact Hb) as Hs. unfold simulates in Hs. cbn [exec spec] in Hs.
  destruct (compact b) as [b'|[]|]; cbn [mbind outcome_bind] in Hs; [|done]. destruct Hs as (q' & r' & [= <- <-] & Hh & Hr). by exists b'.
Qed.

Lemma remaining_le b cap q : holds b cap q → length q + remaining_capacity b ≤ cap.
Proof. intros (pre & post & -> & ->)%holds_parts. unfold remaining_capacity. cbn. rewrite !length_app. lia. Qed.

Lemma maybe_compact_holds b cap q t : holds b cap q →
  ∃ b', maybe_compact b t = Ok b' ∧ holds b' cap q ∧ remaining_capacity b ≤ remaining_capacity b'.
Proof.
  intros Hb. pose proof (exec_simulates b cap q (MaybeCompact t) Hb) as Hs. pose proof (remaining_le b cap q Hb). unfold simulates in Hs. cbn [exec spec] in Hs.
  destruct (maybe_compact b t) as [b'|[]|]; cbn [mbind outcome_bind] in Hs; [|done]. destruct Hs as (q' & r' & [= <- <-] & Hh & Hr). exists b'. split_and!; [done|done|]. rewrite Hr. case_match; lia.
Qed.

Lemma index_to_holds b cap q j : holds b cap q → j ≤ length q → index_to b j = Ok (take j q).
Proof.
  intros (pre & post & -> & _)%holds_parts Hj. unfold index_to, slice. cbn [data start]. rewrite get_range_Some by (rewrite !length_app; lia). cbn [expect].
  rewrite drop_app_length. replace (length pre + j - length pre) with j by lia. by rewrite take_app_le.
Qed.

Lemma index_range_holds b cap q i j : holds b cap q → i ≤ j ≤ length q → index_range b i j = Ok (take (j - i) (drop i q)).
Proof.
  intros (pre & post & -> & _)%holds_parts Hj. unfold index_range, slice. cbn [data start]. rewrite get_range_Some by (rewrite !length_app; lia). cbn [expect].
  rewrite drop_app_add, drop_app_le by lia. replace (length pre + j - (length pre + i)) with (j - i) by lia. rewrite take_app_le; [done|]. rewrite length_drop. lia.
Qed.

Lemma index_at_holds b cap q i x : holds b cap q → q !! i = Some x → index_at b i = Ok x.
Proof.
  intros (pre & post & -> & _)%holds_parts Hx. unfold index_at, index. cbn [data start]. rewrite lookup_app_r by lia.
  replace (length pre + i - length pre) with i by lia. by rewrite (lookup_app_l_Some _ _ _ _ Hx).
Qed.

(** Sequences of operations, with everything that was read. *)
Fixpoint exec_all (b : SlideBuffer) (os : list op) : run (SlideBuffer * bytes) :=
  match os with
  | [] => Ok (b, [])
  | o :: os => '(b1, l1) ← exec b o; '(b2, l2) ← exec_all b1 os; Ok (b2, (l1 ++ l2)%list)
  end.

Fixpoint spec_all (cap : nat) (q : bytes) (room : nat) (os : list op) : option (bytes * nat * bytes) :=
  match os with
  | [] => Some (q, room, [])
  | o :: os =>
      '(q1, r1, l1) ← spec cap q room o;
      '(q2, r2, l2) ← spec_all cap q1 r1 os;
      Some (q2, r2, (l1 ++ l2)%list)
  end.

(** C34: A buffer is a bounded queue: whatever sequence of operations runs on it, it reads
    out the bytes, holds the bytes and has the room that the queue of the same capacity
    has, and it panics exactly when the queue refuses an operation, for want of room or
    of bytes. *)
Theorem slide_buffer_refines b cap q os :
  holds b cap q →
  match exec_all b os with
  | Ok (b', out) =>
      ∃ q', spec_all cap q (remaining_capacity b) os = Some (q', remaining_capacity b', out) ∧
        holds b' cap q' ∧ as_slice b' = Ok q' ∧ len b' = length q'
  | Panic => spec_all cap q (remaining_capacity b) os = None
  | Err _ => False
  end.
Proof.
  revert b q. induction os as [|o os IH]; intros b q Hb; cbn [exec_all spec_all].
  { exists q. split_and!; [done|done|by eapply slice_contents|by eapply holds_len]. }
  pose proof (exec_simulates b cap q o Hb) as Hs. destruct (exec b o) as [[b1 l1]|[]|]; cbn [simulates] in Hs; cbn [mbind outcome_bind].
  2: { by rewrite Hs. }
  destruct Hs as (q1 & r1 & -> & Hb1 & <-). specialize (IH b1 q1 Hb1). destruct (exec_all b1 os) as [[b2 l2]|[]|]; cbn [mbind outcome_bind option_bind].
  - destruct IH as (q' & -> & H). cbn. by exists q'.
  - by rewrite IH.
Qed.

(** Looking inside, and changing bytes in place. *)
Lemma get_u16_be_spec b cap q offset : holds b cap q →
  get_u16_be b offset = Ok (match q !! offset, q !! (offset + 1) with Some x, Some y => Some (from_be [x; y]) | _, _ => None end).
Proof.
  intros Hb. pose proof (holds_len b cap q Hb) as Hl. destruct (holds_parts b cap q Hb) as (pre & post & -> & _).
  unfold get_u16_be. rewrite Hl. cbn [data start]. destruct (Nat.leb_spec (offset + 2) (length q)) as [Ho|Ho].
  - destruct (lookup_lt_is_Some_2 q offset) as [x Hx]; [lia|]. destruct (lookup_lt_is_Some_2 q (offset + 1)) as [y Hy]; [lia|].
    assert (∀ i z, q !! i = Some z → (pre ++ q ++ post)%list !! (length pre + i) = Some z) as Hat.
    { intros i z Hz. rewrite lookup_app_r by lia. replace (length pre + i - length pre) with i by lia. by apply lookup_app_l_Some. }
    unfold index. rewrite (Hat _ _ Hx). replace (length pre + offset + 1) with (length pre + (offset + 1)) by lia.
    rewrite (Hat _ _ Hy), Hx, Hy. done.
  - destruct (q !! offset); [|done]. by rewrite lookup_ge_None_2 by lia.
Qed.

Lemma overwrite_spec b cap q i l : holds b cap q → i + length l ≤ length q →
  ∃ b', overwrite b i l = Ok b' ∧ holds b' cap (take i q ++ l ++ drop (i + length l) q).
Proof.
  intros (pre & post & -> & ->)%holds_parts Hi. unfold overwrite. cbn [data start end_].
  replace (pre ++ q ++ post)%list with ((pre ++ take i q) ++ take (length l) (drop i q) ++ (drop (i + length l) q ++ post))%list.
  2: { rewrite <- (take_drop i q) at 4. rewrite <- (take_drop (length l) (drop i q)) at 2. rewrite drop_drop. by rewrite <- !app_assoc. }
  rewrite (copy_at_parts (pre ++ take i q)) by (rewrite ?length_app, ?length_take, ?length_drop; lia). cbn [mbind outcome_bind].
  eexists. split; [reflexivity|].
  assert (length (take i q ++ l ++ drop (i + length l) q) = length q) as Hl by (rewrite !length_app, length_take, length_drop; lia).
  rewrite <- Hl. apply holds_build; cbn; [by rewrite <- !app_assoc|done|by rewrite Hl].
Qed.

(** A new buffer is an empty queue with all of its room. *)
Lemma new_holds allocated : holds (new allocated) (length allocated) [] ∧ remaining_capacity (new allocated) = length allocated.
Proof. split; [by apply (holds_intro [] [] allocated)|]. unfold remaining_capacity, new. cbn. lia. Qed.

Lemma slide_buffer_refines_witness :
  match exec_all (new [x00; x00; x00; x00]) [Extend [x01; x02; x03]; Read 2; Compact; Append [x04; x05; x06]; Consume 1] with
  | Ok (b', out) => contents b' = [x04; x05; x06] ∧ out = [x01; x02] ∧ holds b' 4 [x04; x05; x06]
  | _ => False
  end.
Proof.
  destruct (new_holds [x00; x00; x00; x00]) as [Hn _].
  pose proof (slide_buffer_refines (new [x00; x00; x00; x00]) 4 []
    [Extend [x01; x02; x03]; Read 2; Compact; Append [x04; x05; x06]; Consume 1] Hn) as H.
  destruct (exec_all _ _) as [[b' out]|[]|] eqn:E; [|vm_compute in E; discriminate E].
  destruct H as (q' & Hs & Hh & _). vm_compute in Hs. injection Hs as <- _ <-. split; [apply Hh|]. split; [reflexivity|exact Hh].
Defined.
