(* ===== verification/TlsRecords.v ===== *)
(** * TlsRecords: finding and deframing TLS records in a byte stream

    [tls_deframer.rs], [tls_handshake_util.rs] and [tls_fuzzy_deframer.rs] of
    [prototype/vless/src]. The search for two bytes of the [memchr] crate is a parameter
    with its documented result. *)
From Stdlib Require Import ZArith Lia Strings.Byte Ascii String.
From stdpp Require Import base list numbers option.
From S2P Require Import Prelude Net.
Local Open Scope string_scope.
Local Open Scope nat_scope.

Definition TLS_RECORD_HEADER_SIZE : nat := 5.
Definition MAX_TLS_CIPHERTEXT_LEN : nat := Z.to_nat (16384 + 2048).
Definition TLS_PROTOCOL_VERSION_MAJOR : Z := 3.
Definition TLS_PROTOCOL_VERSION_MINOR_MIN : Z := 1.
Definition TLS_PROTOCOL_VERSION_MINOR_MAX : Z := 3.

(** ** TlsDeframer *)
Inductive DeframerState := ReadingHeader | ReadingPayload (payload_len : nat).
Record TlsDeframer := { buffer : bytes; state : DeframerState }.

Abbreviation tls := (outcome string).

Definition new_deframer : TlsDeframer := {| buffer := []; state := ReadingHeader |}.
Definition feed (d : TlsDeframer) (l : bytes) : TlsDeframer := {| buffer := buffer d ++ l; state := state d |}.

(** The checks on a header; the payload's length. *)
Definition check_header (b : bytes) : tls nat :=
  content_type ← index b 0; version_major ← index b 1; version_minor ← index b 2;
  l1 ← index b 3; l2 ← index b 4;
  let payload_len := Z.to_nat (from_be [l1; l2]) in
  if negb (b2z version_major =? TLS_PROTOCOL_VERSION_MAJOR)%Z
     || negb ((TLS_PROTOCOL_VERSION_MINOR_MIN <=? b2z version_minor) && (b2z version_minor <=? TLS_PROTOCOL_VERSION_MINOR_MAX))%Z
  then Err "Invalid TLS protocol version"
  else if MAX_TLS_CIPHERTEXT_LEN <? payload_len then Err "TLS record ciphertext length exceeds maximum"
  else if negb ((20 <=? b2z content_type) && (b2z content_type <=? 24))%Z then Err "Invalid TLS content type"
  else Ok payload_len.

(** The two arms of the loop of [next_record]; the first one goes on to the second. *)
Definition payload_arm (b : bytes) (payload_len : nat) : TlsDeframer * option bytes :=
  let total_len := TLS_RECORD_HEADER_SIZE + payload_len in
  if length b <? total_len then ({| buffer := b; state := ReadingPayload payload_len |}, None)
  else ({| buffer := drop total_len b; state := ReadingHeader |}, Some (take total_len b)).

Definition next_record (d : TlsDeframer) : TlsDeframer * tls (option bytes) :=
  match state d with
  | ReadingHeader =>
      if length (buffer d) <? TLS_RECORD_HEADER_SIZE then (d, Ok None)
      else
        match check_header (buffer d) with
        | Ok n => let '(d', r) := payload_arm (buffer d) n in (d', Ok r)
        | Err e => (d, Err e)
        | Panic => (d, Panic)
        end
  | ReadingPayload n => let '(d', r) := payload_arm (buffer d) n in (d', Ok r)
  end.

(** Every record takes at least five bytes, so this fuel is enough. *)
Fixpoint records_loop (fuel : nat) (d : TlsDeframer) (records : list bytes) : option (TlsDeframer * tls (list bytes)) :=
  match fuel with
  | O => None
  | S fuel =>
      match next_record d with
      | (d', Ok (Some r)) => records_loop fuel d' (records ++ [r])
      | (d', Ok None) => Some (d', Ok records)
      | (d', Err e) => Some (d', Err e)
      | (d', Panic) => Some (d', Panic)
      end
  end.
Definition next_records (d : TlsDeframer) : TlsDeframer * tls (list bytes) :=
  default (d, Panic) (records_loop (S (length (buffer d))) d []).

Definition pending_bytes (d : TlsDeframer) : nat := length (buffer d).
Definition clear (d : TlsDeframer) : TlsDeframer := new_deframer.
(** [deallocate] drops the bytes and keeps the state. *)
Definition deallocate (d : TlsDeframer) : TlsDeframer := {| buffer := []; state := state d |}.

(** ** tls_handshake_util.rs *)
Definition MIN_TLS_HANDSHAKE_PATTERN_LEN : nat := 6.

Definition byte_is (z : Z) (o : option byte) : bool := match o with Some b => (b2z b =? z)%Z | None => false end.
Definition byte_in (lo hi : Z) (o : option byte) : bool :=
  match o with Some b => ((lo <=? b2z b) && (b2z b <=? hi))%Z | None => false end.

Definition is_valid_tls_handshake_prefix (d : bytes) : bool :=
  match d with
  | [] => true
  | _ =>
      if negb (byte_is 22 (d !! 0)) then false
      else if (2 <=? length d) && negb (byte_is 3 (d !! 1)) then false
      else if (3 <=? length d) && negb (byte_in 1 3 (d !! 2)) then false
      else true
  end.

Fixpoint longest_prefix_suffix (n : nat) (d : bytes) : nat :=
  match n with
  | O => 0
  | S n' => if is_valid_tls_handshake_prefix (drop (length d - n) d) then n else longest_prefix_suffix n' d
  end.
Definition find_potential_tls_suffix_len (d : bytes) : nat := longest_prefix_suffix (length d `min` 5) d.

Section search.
(** [memmem::Finder::new(&[0x16, 0x03]).find] *)
Context (find : bytes → option nat).

Fixpoint scan (fuel : nat) (d : bytes) (pos : nat) : option (option nat) :=
  match fuel with
  | O => None
  | S fuel =>
      match find (drop pos d) with
      | None => Some None
      | Some offset =>
          let absolute := pos + offset in
          if length d <? absolute + MIN_TLS_HANDSHAKE_PATTERN_LEN then Some None
          else
            let candidate := drop absolute d in
            if byte_in 1 3 (candidate !! 2) && byte_in 1 2 (candidate !! 5) then Some (Some absolute)
            else scan fuel d (absolute + 1)
      end
  end.

Definition find_tls_handshake_start (d : bytes) : option nat :=
  if length d <? MIN_TLS_HANDSHAKE_PATTERN_LEN then None else default None (scan (S (length d)) d 0).

(** ** FuzzyTlsDeframer *)
Inductive FuzzyState := Searching | Deframing.
Inductive DeframeResult := TlsRecord (r : bytes) | UnknownPrefix (p : bytes) | NeedData.

Record FuzzyTlsDeframer := {
  inner : TlsDeframer; search_buffer : bytes; fuzzy_state : FuzzyState; total_prefix_bytes : nat }.

Definition new_fuzzy : FuzzyTlsDeframer :=
  {| inner := new_deframer; search_buffer := []; fuzzy_state := Searching; total_prefix_bytes := 0 |}.

Definition fuzzy_feed (f : FuzzyTlsDeframer) (l : bytes) : FuzzyTlsDeframer :=
  match fuzzy_state f with
  | Searching =>
      {| inner := inner f; search_buffer := search_buffer f ++ l; fuzzy_state := Searching; total_prefix_bytes := total_prefix_bytes f |}
  | Deframing =>
      {| inner := feed (inner f) l; search_buffer := search_buffer f; fuzzy_state := Deframing; total_prefix_bytes := total_prefix_bytes f |}
  end.

(** The arm of [Deframing] *)
Definition deframing_arm (f : FuzzyTlsDeframer) : FuzzyTlsDeframer * tls DeframeResult :=
  let '(d, r) := next_record (inner f) in
  ({| inner := d; search_buffer := search_buffer f; fuzzy_state := Deframing; total_prefix_bytes := total_prefix_bytes f |},
   r ← r; Ok (match r with Some r => TlsRecord r | None => NeedData end)).

(** What cannot be the start of a pattern is given out, the rest is kept. *)
Definition flush_prefix (f : FuzzyTlsDeframer) : FuzzyTlsDeframer * tls DeframeResult :=
  let b := search_buffer f in
  let suffix_len := find_potential_tls_suffix_len b in
  if suffix_len <? length b then
    let prefix_len := length b - suffix_len in
    ({| inner := inner f; search_buffer := drop prefix_len b; fuzzy_state := Searching;
        total_prefix_bytes := total_prefix_bytes f + prefix_len |},
     Ok (UnknownPrefix (take prefix_len b)))
  else (f, Ok NeedData).

(** A pattern was found at [offset]. *)
Definition start_deframing (f : FuzzyTlsDeframer) (offset : nat) : FuzzyTlsDeframer :=
  {| inner := feed (inner f) (drop offset (search_buffer f)); search_buffer := []; fuzzy_state := Deframing;
     total_prefix_bytes := total_prefix_bytes f + offset |}.

Definition fuzzy_clear (f : FuzzyTlsDeframer) : FuzzyTlsDeframer :=
  {| inner := clear (inner f); search_buffer := []; fuzzy_state := Searching; total_prefix_bytes := 0 |}.
Definition fuzzy_deallocate (f : FuzzyTlsDeframer) : FuzzyTlsDeframer :=
  {| inner := deallocate (inner f); search_buffer := []; fuzzy_state := fuzzy_state f; total_prefix_bytes := total_prefix_bytes f |}.

Definition fuzzy_next (f : FuzzyTlsDeframer) : FuzzyTlsDeframer * tls DeframeResult :=
  match fuzzy_state f with
  | Searching =>
      let b := search_buffer f in
      if length b =? 0 then (f, Ok NeedData)
      else if MIN_TLS_HANDSHAKE_PATTERN_LEN <=? length b then
        match find_tls_handshake_start b with
        | None => flush_prefix f
        | Some offset =>
            if 0 <? offset then (start_deframing f offset, Ok (UnknownPrefix (take offset b)))
            else deframing_arm (start_deframing f 0)
        end
      else flush_prefix f
  | Deframing => deframing_arm f
  end.

Definition fuzzy_pending_bytes (f : FuzzyTlsDeframer) : nat :=
  match fuzzy_state f with Searching => length (search_buffer f) | Deframing => pending_bytes (inner f) end.
Definition remaining_data (f : FuzzyTlsDeframer) : bytes :=
  match fuzzy_state f with Searching => search_buffer f | Deframing => buffer (inner f) end.
End search.

(** ** The deframer, without its state *)
Definition spec_next (u : bytes) : bytes * tls (option bytes) :=
  if length u <? TLS_RECORD_HEADER_SIZE then (u, Ok None)
  else
    match check_header u with
    | Ok n =>
        if length u <? TLS_RECORD_HEADER_SIZE + n then (u, Ok None)
        else (drop (TLS_RECORD_HEADER_SIZE + n) u, Ok (Some (take (TLS_RECORD_HEADER_SIZE + n) u)))
    | Err e => (u, Err e)
    | Panic => (u, Panic)
    end.

(** The state only remembers the length that the buffered header gives. *)
Definition deframer_ok (d : TlsDeframer) : Prop :=
  match state d with
  | ReadingHeader => True
  | ReadingPayload n => TLS_RECORD_HEADER_SIZE ≤ length (buffer d) ∧ check_header (buffer d) = Ok n
  end.

Lemma five_bytes (b : bytes) : TLS_RECORD_HEADER_SIZE ≤ length b → ∃ a c e f g b', b = (a :: c :: e :: f :: g :: b').
Proof. unfold TLS_RECORD_HEADER_SIZE. destruct b as [|a [|c [|e [|f [|g b']]]]]; cbn; intros; try lia. by exists a, c, e, f, g, b'. Qed.

Lemma check_header_app b l : TLS_RECORD_HEADER_SIZE ≤ length b → check_header (b ++ l) = check_header b.
Proof. intros (a & c & e & f & g & b' & ->)%five_bytes. done. Qed.

Lemma check_header_no_panic b : TLS_RECORD_HEADER_SIZE ≤ length b → no_panic (check_header b).
Proof.
  intros (a & c & e & f & g & b' & ->)%five_bytes. unfold check_header. cbn [index lookup list_lookup expect mbind outcome_bind].
  by repeat case_match.
Qed.

Lemma feed_ok d l : deframer_ok d → deframer_ok (feed d l).
Proof.
  unfold deframer_ok, feed. cbn. destruct (state d); [done|]. intros [H1 H2]. rewrite check_header_app, length_app by done. split; [lia|done].
Qed.

Lemma next_record_spec d : deframer_ok d →
  deframer_ok (next_record d).1 ∧ spec_next (buffer d) = (buffer (next_record d).1, (next_record d).2).
Proof.
  intros Hd. unfold deframer_ok in Hd. unfold next_record, spec_next, payload_arm.
  destruct (state d) eqn:Es.
  - destruct (Nat.ltb_spec (length (buffer d)) TLS_RECORD_HEADER_SIZE) as [Hl|Hl].
    { split; [|done]. cbn. unfold deframer_ok. by rewrite Es. }
    destruct (check_header (buffer d)) as [n|e|] eqn:Ec.
    + destruct (Nat.ltb_spec (length (buffer d)) (TLS_RECORD_HEADER_SIZE + n)); by split.
    + split; [|done]. cbn. unfold deframer_ok. by rewrite Es.
    + split; [|done]. cbn. unfold deframer_ok. by rewrite Es.
  - destruct Hd as [Hl Hc]. destruct (Nat.ltb_spec (length (buffer d)) TLS_RECORD_HEADER_SIZE); [lia|]. rewrite Hc.
    destruct (Nat.ltb_spec (length (buffer d)) (TLS_RECORD_HEADER_SIZE + payload_len)); by split.
Qed.

(** ** Streams of records *)
Definition record_ok (r : bytes) : Prop :=
  TLS_RECORD_HEADER_SIZE ≤ length r ∧ check_header r = Ok (length r - TLS_RECORD_HEADER_SIZE).
Definition incomplete (tail : bytes) : Prop := spec_next tail = (tail, Ok None).

Lemma spec_next_prefix rs tail u v :
  Forall record_ok rs → incomplete tail → (u ++ v = List.concat rs ++ tail)%list →
  spec_next u = (u, Ok None) ∨
  ∃ r rs' u', rs = r :: rs' ∧ spec_next u = (u', Ok (Some r)) ∧ (u' ++ v = List.concat rs' ++ tail)%list.
Proof.
  intros Hrs Ht Huv. unfold spec_next at 1 2. destruct (Nat.ltb_spec (length u) TLS_RECORD_HEADER_SIZE) as [Hl|Hl]; [by left|].
  rewrite <- (check_header_app u v) by done. rewrite Huv. destruct Hrs as [|r rs Hr Hrs].
  - cbn [List.concat app] in *. left. unfold incomplete, spec_next in Ht. subst tail. rewrite length_app in Ht.
    destruct (Nat.ltb_spec (length u + length v) TLS_RECORD_HEADER_SIZE); [lia|].
    destruct (check_header (u ++ v)) as [n|e|]; try done.
    destruct (Nat.ltb_spec (length u + length v) (TLS_RECORD_HEADER_SIZE + n)); [|done].
    by destruct (Nat.ltb_spec (length u) (TLS_RECORD_HEADER_SIZE + n)); [|lia].
  - cbn [List.concat] in *. destruct Hr as [Hlr Hc]. rewrite <- app_assoc in *. rewrite check_header_app, Hc by done.
    replace (TLS_RECORD_HEADER_SIZE + (length r - TLS_RECORD_HEADER_SIZE)) with (length r) by lia.
    destruct (Nat.ltb_spec (length u) (length r)); [by left|]. right.
    assert (take (length r) u = r) as Htake.
    { apply (f_equal (take (length r))) in Huv. rewrite take_app_le, take_app_length in Huv by lia. exact Huv. }
    exists r, rs, (drop (length r) u). split; [done|]. split; [by rewrite Htake|].
    apply (f_equal (drop (length r))) in Huv. rewrite drop_app_le, drop_app_length in Huv by lia. exact Huv.
Qed.

Inductive feed_op := Feed (l : bytes) | Next.

Fixpoint drive (d : TlsDeframer) (ops : list feed_op) : TlsDeframer * list (tls (option bytes)) :=
  match ops with
  | [] => (d, [])
  | Feed l :: ops => drive (feed d l) ops
  | Next :: ops => let '(d1, r) := next_record d in let '(d2, outs) := drive d1 ops in (d2, r :: outs)
  end.

Definition fed (ops : list feed_op) : bytes := List.concat (omap (λ o, match o with Feed l => Some l | Next => None end) ops).
Definition taken (outs : list (tls (option bytes))) : list bytes :=
  omap (λ o, match o with Ok (Some r) => Some r | _ => None end) outs.
Definition all_fine (outs : list (tls (option bytes))) : Prop := Forall (λ o, is_ok o = true) outs.

Lemma drive_stream ops d rs tail rest :
  deframer_ok d → Forall record_ok rs → incomplete tail → (buffer d ++ fed ops ++ rest = List.concat rs ++ tail)%list →
  ∃ k, let '(d', outs) := drive d ops in
    taken outs = take k rs ∧ all_fine outs ∧ deframer_ok d' ∧ (buffer d' ++ rest = List.concat (drop k rs) ++ tail)%list.
Proof.
  revert d rs. induction ops as [|[l|] ops IH]; intros d rs Hd Hrs Ht Hb.
  - exists 0. cbn. split_and!; [done|constructor|done|done].
  - cbn [drive]. apply IH; [by apply feed_ok|done|done|]. cbn. rewrite <- app_assoc. unfold fed in Hb. cbn in Hb. rewrite <- app_assoc in Hb. exact Hb.
  - cbn [drive]. change (fed (Next :: ops)) with (fed ops) in Hb. destruct (next_record_spec d Hd) as [Hd1 Hs].
    destruct (next_record d) as [d1 r]. cbn [fst snd] in *.
    destruct (spec_next_prefix rs tail (buffer d) (fed ops ++ rest)%list Hrs Ht Hb) as [Hn|(r' & rs' & u' & -> & Hn & Hu)]; rewrite Hs in Hn.
    + injection Hn as Hb1 ->. rewrite <- Hb1 in Hb. destruct (IH d1 rs Hd1 Hrs Ht Hb) as (k & Hk). exists k. destruct (drive d1 ops) as [d2 outs].
      destruct Hk as (H1 & H2 & H3 & H4). split_and!; [done|by constructor|done|done].
    + injection Hn as <- ->. apply Forall_cons_1 in Hrs as [_ Hrs]. destruct (IH d1 rs' Hd1 Hrs Ht Hu) as (k & Hk). exists (S k).
      destruct (drive d1 ops) as [d2 outs]. destruct Hk as (H1 & H2 & H3 & H4). split_and!; [cbn; by rewrite <- H1|by constructor|done|done].
Qed.

Lemma records_loop_stream rs tail fuel d acc :
  deframer_ok d → Forall record_ok rs → incomplete tail → buffer d = (List.concat rs ++ tail)%list → length (buffer d) < fuel →
  ∃ d', records_loop fuel d acc = Some (d', Ok (acc ++ rs)%list) ∧ buffer d' = tail ∧ deframer_ok d'.
Proof.
  revert rs d acc. induction fuel as [|fuel IH]; intros rs d acc Hd Hrs Ht Hb Hf; [lia|]. cbn [records_loop].
  destruct (next_record_spec d Hd) as [Hd1 Hs]. destruct (next_record d) as [d1 r]. cbn [fst snd] in *.
  destruct (spec_next_prefix rs tail (buffer d) [] Hrs Ht) as [Hn|(r' & rs' & u' & -> & Hn & Hu)]; [by rewrite app_nil_r| |]; rewrite Hs in Hn.
  - injection Hn as Hb1 ->. destruct Hrs as [|r rs Hr Hrs].
    + exists d1. rewrite app_nil_r. split; [done|]. rewrite Hb1. split; [exact Hb|done].
    + exfalso. unfold spec_next in Hs. cbn [List.concat] in Hb. destruct Hr as [Hl Hc].
      rewrite Hb, !length_app, <- app_assoc, check_header_app, Hc in Hs by done.
      destruct (Nat.ltb_spec (length r + length (List.concat rs) + length tail) TLS_RECORD_HEADER_SIZE); [lia|].
      destruct (Nat.ltb_spec (length r + length (List.concat rs) + length tail) (TLS_RECORD_HEADER_SIZE + (length r - TLS_RECORD_HEADER_SIZE))); [lia|done].
  - injection Hn as <- ->. rewrite app_nil_r in Hu. apply Forall_cons_1 in Hrs as [[Hl _] Hrs].
    destruct (IH rs' d1 (acc ++ [r'])%list Hd1 Hrs Ht Hu) as (d' & Hr & H2 & H3).
    { rewrite Hb in Hf. rewrite Hu. cbn [List.concat] in Hf. rewrite !length_app in *. unfold TLS_RECORD_HEADER_SIZE in Hl. lia. }
    exists d'. rewrite Hr, <- app_assoc. done.
Qed.

(** Deframing does not depend on how the stream is cut. Feed it in any pieces, and ask
    for records at any moments: what comes out are its first records, in order and
    whole, and never an error; and once everything is fed, [next_records] gives all the
    others and keeps exactly the incomplete rest. *)
Theorem deframer_stream rs tail ops rest d outs :
  Forall record_ok rs → incomplete tail → (fed ops ++ rest = List.concat rs ++ tail)%list →
  drive new_deframer ops = (d, outs) →
  ∃ k, taken outs = take k rs ∧ all_fine outs ∧
    (rest = [] → ∃ d', next_records d = (d', Ok (drop k rs)) ∧ buffer d' = tail).
Proof.
  intros Hrs Ht Hb Hd. destruct (drive_stream ops new_deframer rs tail rest I Hrs Ht Hb) as (k & Hk). rewrite Hd in Hk.
  destruct Hk as (H1 & H2 & H3 & H4). exists k. split_and!; [done|done|]. intros ->. rewrite app_nil_r in H4.
  destruct (records_loop_stream (drop k rs) tail (S (length (buffer d))) d [] H3) as (d' & Hr & Hb' & _); [by apply Forall_drop|done|done|lia|].
  exists d'. unfold next_records. by rewrite Hr.
Qed.

(** ** Handshake patterns *)
Definition pattern_at (d : bytes) (o : nat) : Prop :=
  byte_is 22 (d !! o) = true ∧ byte_is 3 (d !! (o + 1)) = true ∧ byte_in 1 3 (d !! (o + 2)) = true ∧
  byte_in 1 2 (d !! (o + 5)) = true.

(** The search for the first two bytes finds their first occurrence. *)
Definition pair_at (d : bytes) (o : nat) : Prop := byte_is 22 (d !! o) = true ∧ byte_is 3 (d !! (o + 1)) = true.
Definition finds_first (find : bytes → option nat) : Prop :=
  ∀ d, match find d with Some o => pair_at d o ∧ ∀ j, j < o → ¬ pair_at d j | None => ∀ j, ¬ pair_at d j end.

Lemma pair_at_drop n d o : pair_at (drop n d) o ↔ pair_at d (n + o).
Proof. unfold pair_at. rewrite !lookup_drop. by rewrite Nat.add_assoc. Qed.

Lemma byte_in_lt lo hi d o : byte_in lo hi (d !! o) = true → o < length d.
Proof. destruct (d !! o) eqn:E; [|done]. intros _. by eapply lookup_lt_Some. Qed.

Section finder.
Context (find : bytes → option nat) (Hfind : finds_first find).

Lemma scan_spec fuel d pos :
  pos ≤ length d → length d - pos < fuel → (∀ j, j < pos → ¬ pattern_at d j) →
  ∃ r, scan find fuel d pos = Some r ∧
    match r with Some o => pattern_at d o ∧ ∀ j, j < o → ¬ pattern_at d j | None => ∀ j, ¬ pattern_at d j end.
Proof.
  revert pos. induction fuel as [|fuel IH]; intros pos Hp Hf Hbefore; [lia|]. cbn [scan].
  pose proof (Hfind (drop pos d)) as Hs. destruct (find (drop pos d)) as [o|].
  2: { exists None. split; [done|]. intros j Hpat. destruct (Nat.le_gt_cases pos j) as [Hj|Hj]; [|by apply (Hbefore j)].
       apply (Hs (j - pos)). apply pair_at_drop. replace (pos + (j - pos)) with j by lia. destruct Hpat as (? & ? & _). by split. }
  destruct Hs as [Hpair Hfirst]. apply pair_at_drop in Hpair.
  assert (∀ j, j < pos + o → ¬ pattern_at d j) as Hno.
  { intros j Hj Hpat. destruct (Nat.le_gt_cases pos j) as [Hj'|Hj']; [|by apply (Hbefore j)].
    apply (Hfirst (j - pos)); [lia|]. apply pair_at_drop. replace (pos + (j - pos)) with j by lia. destruct Hpat as (? & ? & _). by split. }
  destruct (Nat.ltb_spec (length d) (pos + o + MIN_TLS_HANDSHAKE_PATTERN_LEN)) as [Hl|Hl].
  - exists None. split; [done|]. intros j Hpat. destruct (Nat.le_gt_cases (pos + o) j) as [Hj|Hj]; [|by apply (Hno j)].
    destruct Hpat as (_ & _ & _ & H5%byte_in_lt). unfold MIN_TLS_HANDSHAKE_PATTERN_LEN in Hl. lia.
  - rewrite !lookup_drop. destruct (byte_in 1 3 (d !! (pos + o + 2)) && byte_in 1 2 (d !! (pos + o + 5))) eqn:E.
    + apply andb_true_iff in E as [E2 E5]. exists (Some (pos + o)). split; [done|]. split; [|done]. destruct Hpair. by split_and!.
    + unfold MIN_TLS_HANDSHAKE_PATTERN_LEN in Hl. apply IH; [lia|lia|]. intros j Hj Hpat.
      destruct (Nat.eq_dec j (pos + o)) as [->|Hne]; [|by apply (Hno j); [lia|]].
      destruct Hpat as (_ & _ & H2 & H5). by rewrite H2, H5 in E.
Qed.

Lemma find_start_spec d :
  match find_tls_handshake_start find d with
  | Some o => pattern_at d o ∧ ∀ j, j < o → ¬ pattern_at d j
  | None => ∀ j, ¬ pattern_at d j
  end.
Proof.
  unfold find_tls_handshake_start. destruct (Nat.ltb_spec (length d) MIN_TLS_HANDSHAKE_PATTERN_LEN) as [Hl|Hl].
  - intros j (_ & _ & _ & H5%byte_in_lt). unfold MIN_TLS_HANDSHAKE_PATTERN_LEN in Hl. lia.
  - destruct (scan_spec (S (length d)) d 0) as (r & -> & Hr); [lia|lia|intros j Hj; lia|]. exact Hr.
Qed.
End finder.

(** ** Prefixes that may still become a pattern *)
Lemma prefix_needed d e o : o < length d → pattern_at (d ++ e) o → pattern_at d o ∨ (length d - o ≤ 5 ∧ is_valid_tls_handshake_prefix (drop o d) = true).
Proof.
  intros Ho (H0 & H1 & H2 & H5). destruct (Nat.le_gt_cases (length d) (o + 5)) as [Hl|Hl].
  - right. split; [lia|]. unfold is_valid_tls_handshake_prefix.
    destruct (drop o d) as [|b l] eqn:E; [done|]. rewrite <- E, !lookup_drop, length_drop, Nat.add_0_r. rewrite lookup_app_l in H0 by lia. rewrite H0.
    cbn [negb]. destruct (Nat.leb_spec 2 (length d - o)); cbn [andb].
    + rewrite lookup_app_l in H1 by lia. rewrite H1. cbn [negb]. destruct (Nat.leb_spec 3 (length d - o)); cbn [andb]; [|done].
      rewrite lookup_app_l in H2 by lia. by rewrite H2.
    + destruct (Nat.leb_spec 3 (length d - o)); [lia|done].
  - left. rewrite !lookup_app_l in * by lia. by split_and!.
Qed.

Lemma longest_suffix_spec n d o : n ≤ length d → length d - n ≤ o → o < length d - longest_prefix_suffix n d →
  is_valid_tls_handshake_prefix (drop o d) = false.
Proof.
  revert o. induction n as [|n IH]; intros o Hn Ho Hlt; cbn [longest_prefix_suffix] in Hlt; [lia|].
  destruct (is_valid_tls_handshake_prefix (drop (length d - S n) d)) eqn:E; [lia|].
  destruct (Nat.eq_dec o (length d - S n)) as [->|]; [done|]. apply IH; lia.
Qed.

Lemma longest_suffix_le n d : longest_prefix_suffix n d ≤ n.
Proof. induction n as [|n IH]; cbn; [done|]. destruct (is_valid_tls_handshake_prefix _); lia. Qed.

(** What is given out can be no part of a pattern, whatever follows. *)
Lemma flushed_positions d e o :
  (∀ j, ¬ pattern_at d j) → o < length d - find_potential_tls_suffix_len d → ¬ pattern_at (d ++ e) o.
Proof.
  intros Hno Ho Hpat. unfold find_potential_tls_suffix_len in Ho. destruct (prefix_needed d e o) as [Hd|[Hl Hv]]; [lia|done|by apply (Hno o)|].
  rewrite (longest_suffix_spec (length d `min` 5) d o) in Hv; [done|lia|lia|done].
Qed.

Lemma pattern_at_app_r d e o : pattern_at (d ++ e) (length d + o) ↔ pattern_at e o.
Proof.
  unfold pattern_at. rewrite !lookup_app_r by lia. replace (length d + o - length d) with o by lia.
  replace (length d + o + 1 - length d) with (o + 1) by lia. replace (length d + o + 2 - length d) with (o + 2) by lia.
  by replace (length d + o + 5 - length d) with (o + 5) by lia.
Qed.

Lemma pattern_at_app_l d e o : pattern_at d o → pattern_at (d ++ e) o.
Proof.
  intros (H0 & H1 & H2 & H5). pose proof (byte_in_lt _ _ _ _ H5). unfold pattern_at. rewrite !lookup_app_l by lia. by split_and!.
Qed.

(** ** The fuzzy deframer over a stream *)
Lemma spec_next_parts u u' r : spec_next u = (u', r) →
  match r with Ok (Some rec) => u = (rec ++ u')%list | _ => u' = u end.
Proof.
  unfold spec_next. destruct (length u <? TLS_RECORD_HEADER_SIZE); [by intros [= <- <-]|].
  destruct (check_header u) as [n|e|]; [|by intros [= <- <-]|by intros [= <- <-]].
  destruct (length u <? TLS_RECORD_HEADER_SIZE + n); intros [= <- <-]; [done|]. by rewrite take_drop.
Qed.

Definition prefixes (outs : list (tls DeframeResult)) : list bytes :=
  omap (λ o, match o with Ok (UnknownPrefix p) => Some p | _ => None end) outs.
Definition records (outs : list (tls DeframeResult)) : list bytes :=
  omap (λ o, match o with Ok (TlsRecord r) => Some r | _ => None end) outs.

Section fuzzy.
Context (find : bytes → option nat) (Hfind : finds_first find).

(** [P] was given out as prefixes and [R] as records of the stream [w]. *)
Record fuzzy_inv (f : FuzzyTlsDeframer) (w P R : bytes) : Prop := {
  inv_parts : w = (P ++ R ++ remaining_data f)%list;
  inv_before : ∀ o e, o < length P → ¬ pattern_at (w ++ e) o;
  inv_count : total_prefix_bytes f = length P;
  inv_state : match fuzzy_state f with
              | Searching => inner f = new_deframer ∧ R = []
              | Deframing => deframer_ok (inner f) ∧ search_buffer f = [] ∧ pattern_at w (length P)
              end }.

Lemma new_fuzzy_inv : fuzzy_inv new_fuzzy [] [] [].
Proof. split; [done| |done|done]. intros o e Ho. cbn in Ho. lia. Qed.

Lemma fuzzy_feed_inv f w P R l : fuzzy_inv f w P R → fuzzy_inv (fuzzy_feed f l) (w ++ l) P R.
Proof.
  intros [H1 H2 H3 H4]. unfold fuzzy_feed, remaining_data in *. destruct (fuzzy_state f) eqn:Es.
  - split; [rewrite H1; by rewrite <- !app_assoc| |done|done]. intros o e Ho. rewrite <- app_assoc. by apply H2.
  - destruct H4 as (Hd & Hs & Hp). split; [rewrite H1; by rewrite <- !app_assoc| |done|].
    + intros o e Ho. rewrite <- app_assoc. by apply H2.
    + split_and!; [by apply feed_ok|done|by apply pattern_at_app_l].
Qed.

(** What one answer adds to the prefixes and the records. *)
Definition prefix_of_result (r : tls DeframeResult) : bytes := match r with Ok (UnknownPrefix p) => p | _ => [] end.
Definition record_of_result (r : tls DeframeResult) : bytes := match r with Ok (TlsRecord r) => r | _ => [] end.
Definition result_ok (r : tls DeframeResult) : Prop := match r with Ok (UnknownPrefix p) => p ≠ [] | _ => True end.

Lemma deframing_arm_inv f w P R : fuzzy_state f = Deframing → fuzzy_inv f w P R →
  let '(f', r) := deframing_arm f in
  fuzzy_inv f' w (P ++ prefix_of_result r) (R ++ record_of_result r) ∧ result_ok r ∧ fuzzy_state f' = Deframing.
Proof.
  intros Es [H1 H2 H3 H4]. rewrite Es in H4. destruct H4 as (Hd & Hs & Hp). unfold remaining_data in H1. rewrite Es in H1.
  unfold deframing_arm. destruct (next_record_spec (inner f) Hd) as [Hd' Hn]. destruct (next_record (inner f)) as [d r]. cbn [fst snd] in *.
  apply spec_next_parts in Hn. destruct r as [[rec|]|e|]; cbn [mbind outcome_bind prefix_of_result record_of_result result_ok]; rewrite ?app_nil_r.
  all: split; [|done]; split; cbn; [|done|done|done].
  - rewrite H1, Hn. by rewrite <- !app_assoc.
  - by rewrite Hn.
  - by rewrite Hn.
  - by rewrite Hn.
Qed.

Lemma searching_positions f w P b e o offset :
  w = (P ++ b)%list → search_buffer f = b → (∀ o e, o < length P → ¬ pattern_at (w ++ e) o) →
  (∀ j, j < offset → ¬ pattern_at (b ++ e) j) → o < length P + offset → ¬ pattern_at (w ++ e) o.
Proof.
  intros Hw Hb Hbefore Hj Ho Hpat. destruct (Nat.le_gt_cases (length P) o) as [Hle|Hlt]; [|by apply (Hbefore o e)].
  rewrite Hw, <- app_assoc in Hpat. replace o with (length P + (o - length P)) in Hpat by lia.
  apply pattern_at_app_r in Hpat. apply (Hj (o - length P)); [lia|done].
Qed.

Lemma start_deframing_inv f w P R offset :
  fuzzy_state f = Searching → fuzzy_inv f w P R → pattern_at (search_buffer f) offset → (∀ j, j < offset → ¬ pattern_at (search_buffer f) j) →
  fuzzy_inv (start_deframing f offset) w (P ++ take offset (search_buffer f)) R.
Proof.
  intros Es [H1 H2 H3 H4] Hp Hfirst. rewrite Es in H4. destruct H4 as [Hi ->]. unfold remaining_data in H1. rewrite Es in H1. cbn [app] in H1.
  pose proof (byte_in_lt _ _ _ _ (proj2 (proj2 (proj2 Hp)))) as Hlen.
  assert (length (P ++ take offset (search_buffer f)) = length P + offset) as HlP by (rewrite length_app, length_take; lia).
  split; unfold remaining_data, start_deframing; cbn.
  - rewrite H1, Hi. cbn. rewrite <- app_assoc. f_equal. by rewrite take_drop.
  - intros o e Ho. eapply (searching_positions f w P (search_buffer f) e o offset H1 eq_refl H2); [|lia].
    intros j Hj Hpat. destruct (prefix_needed (search_buffer f) e j) as [Hd|[Hl _]]; [lia|done|by apply (Hfirst j)|lia].
  - rewrite HlP. lia.
  - split_and!; [rewrite Hi; apply feed_ok; exact I|done|]. rewrite HlP, H1. by apply pattern_at_app_r.
Qed.

Lemma flush_prefix_inv f w P R :
  fuzzy_state f = Searching → fuzzy_inv f w P R → (∀ j, ¬ pattern_at (search_buffer f) j) →
  let '(f', r) := flush_prefix f in
  fuzzy_inv f' w (P ++ prefix_of_result r) (R ++ record_of_result r) ∧ result_ok r ∧ fuzzy_state f' = Searching ∧
  (r = Ok NeedData → length (search_buffer f) ≤ 5 ∧ f' = f).
Proof.
  intros Es Hinv Hno. unfold flush_prefix. pose proof (longest_suffix_le (length (search_buffer f) `min` 5) (search_buffer f)) as Hle.
  fold (find_potential_tls_suffix_len (search_buffer f)) in Hle.
  destruct (Nat.ltb_spec (find_potential_tls_suffix_len (search_buffer f)) (length (search_buffer f))) as [Hl|Hl].
  2: { cbn. rewrite !app_nil_r. split_and!; [done|done|done|]. intros _. split; [lia|done]. }
  destruct Hinv as [H1 H2 H3 H4]. rewrite Es in H4. destruct H4 as [Hi ->]. unfold remaining_data in H1. rewrite Es in H1. cbn [app] in H1.
  set (n := length (search_buffer f) - find_potential_tls_suffix_len (search_buffer f)). cbn [prefix_of_result record_of_result result_ok].
  assert (length (P ++ take n (search_buffer f)) = length P + n) as HlP by (rewrite length_app, length_take; lia).
  split_and!; [|intros Hx; apply (f_equal length) in Hx; rewrite length_take in Hx; cbn in Hx; lia|done|done].
  split; unfold remaining_data; cbn.
  - rewrite H1, <- app_assoc. f_equal. by rewrite take_drop.
  - intros o e Ho. eapply (searching_positions f w P (search_buffer f) e o n H1 eq_refl H2); [|lia].
    intros j Hj. by apply flushed_positions.
  - rewrite HlP. lia.
  - done.
Qed.

Lemma fuzzy_next_inv f w P R : fuzzy_inv f w P R →
  let '(f', r) := fuzzy_next find f in
  fuzzy_inv f' w (P ++ prefix_of_result r) (R ++ record_of_result r) ∧ result_ok r ∧
  (r = Ok NeedData → fuzzy_state f' = Searching → length (search_buffer f') ≤ 5 ∧ ∀ o, ¬ pattern_at w o).
Proof.
  intros Hinv. unfold fuzzy_next. destruct (fuzzy_state f) eqn:Es.
  2: { pose proof (deframing_arm_inv f w P R Es Hinv) as H. destruct (deframing_arm f) as [f' r].
       destruct H as (H1 & H2 & H3). split_and!; [done|done|]. intros _ Hs. congruence. }
  assert (∀ o, (∀ j, ¬ pattern_at (search_buffer f) j) → ¬ pattern_at w o) as Hwhole.
  { intros o Hno Hpat. destruct Hinv as [H1 H2 _ H4]. rewrite Es in H4. destruct H4 as [_ ->]. unfold remaining_data in H1. rewrite Es in H1. cbn [app] in H1.
    destruct (Nat.le_gt_cases (length P) o) as [Hle|Hlt].
    - rewrite H1 in Hpat. replace o with (length P + (o - length P)) in Hpat by lia. apply pattern_at_app_r in Hpat. by apply (Hno (o - length P)).
    - apply (H2 o []); [done|]. by rewrite app_nil_r. }
  assert ((∀ j, ¬ pattern_at (search_buffer f) j) →
    let '(f', r) := flush_prefix f in
    fuzzy_inv f' w (P ++ prefix_of_result r) (R ++ record_of_result r) ∧ result_ok r ∧
    (r = Ok NeedData → fuzzy_state f' = Searching → length (search_buffer f') ≤ 5 ∧ ∀ o, ¬ pattern_at w o)) as Hflush.
  { intros Hno. pose proof (flush_prefix_inv f w P R Es Hinv Hno) as H. destruct (flush_prefix f) as [f' r].
    destruct H as (H1 & H2 & _ & H4). split_and!; [done|done|]. intros Hr _. destruct (H4 Hr) as [Hl ->]. split; [done|]. intros o. by apply Hwhole. }
  destruct (Nat.eqb_spec (length (search_buffer f)) 0) as [E0|E0].
  { cbn. rewrite !app_nil_r. split_and!; [done|done|]. intros _ _. split; [lia|]. intros o. apply Hwhole.
    intros j (_ & _ & _ & H5%byte_in_lt). lia. }
  destruct (Nat.leb_spec MIN_TLS_HANDSHAKE_PATTERN_LEN (length (search_buffer f))) as [Hl|Hl].
  - pose proof (find_start_spec find Hfind (search_buffer f)) as Hf. destruct (find_tls_handshake_start find (search_buffer f)) as [o|]; [|by apply Hflush].
    destruct Hf as [Hp Hfirst]. pose proof (start_deframing_inv f w P R o Es Hinv Hp Hfirst) as Hi.
    destruct (Nat.ltb_spec 0 o) as [Ho|Ho].
    + cbn [prefix_of_result record_of_result result_ok]. rewrite app_nil_r. split_and!; [done| |done].
      intros Hx. apply (f_equal length) in Hx. rewrite length_take in Hx. cbn in Hx. lia.
    + replace o with 0 in Hi by lia. cbn [take] in Hi. rewrite take_0, app_nil_r in Hi.
      pose proof (deframing_arm_inv (start_deframing f 0) w P R eq_refl Hi) as H. destruct (deframing_arm (start_deframing f 0)) as [f' r].
      destruct H as (H1 & H2 & H3). split_and!; [done|done|]. intros _ Hs. congruence.
  - apply Hflush. intros j (_ & _ & _ & H5%byte_in_lt). unfold MIN_TLS_HANDSHAKE_PATTERN_LEN in Hl. lia.
Qed.

Fixpoint fuzzy_drive (f : FuzzyTlsDeframer) (ops : list feed_op) : FuzzyTlsDeframer * list (tls DeframeResult) :=
  match ops with
  | [] => (f, [])
  | Feed l :: ops => fuzzy_drive (fuzzy_feed f l) ops
  | Next :: ops => let '(f1, r) := fuzzy_next find f in let '(f2, outs) := fuzzy_drive f1 ops in (f2, r :: outs)
  end.

Lemma fuzzy_drive_inv ops f w P R : fuzzy_inv f w P R →
  let '(f', outs) := fuzzy_drive f ops in
  fuzzy_inv f' (w ++ fed ops) (P ++ List.concat (prefixes outs)) (R ++ List.concat (records outs)) ∧ Forall result_ok outs.
Proof.
  revert f w P R. induction ops as [|[l|] ops IH]; intros f w P R Hinv; cbn [fuzzy_drive].
  - cbn. rewrite !app_nil_r. by split.
  - specialize (IH _ _ _ _ (fuzzy_feed_inv f w P R l Hinv)). destruct (fuzzy_drive _ ops) as [f' outs]. unfold fed in *. cbn. rewrite <- app_assoc in IH. exact IH.
  - pose proof (fuzzy_next_inv f w P R Hinv) as H. destruct (fuzzy_next find f) as [f1 r]. destruct H as (H1 & H2 & _).
    specialize (IH _ _ _ _ H1). destruct (fuzzy_drive f1 ops) as [f' outs]. destruct IH as [Hi Ho]. split; [|by constructor].
    rewrite <- !app_assoc in Hi. change (fed (Next :: ops)) with (fed ops).
    assert (List.concat (prefixes (r :: outs)) = prefix_of_result r ++ List.concat (prefixes outs))%list as -> by by destruct r as [[]| |].
    assert (List.concat (records (r :: outs)) = record_of_result r ++ List.concat (records outs))%list as -> by by destruct r as [[]| |].
    exact Hi.
Qed.
End fuzzy.

(** C35: Nothing is lost and no handshake is missed or invented, however the stream is cut
    and whenever it is asked. What came out as prefix, then as records, then what is
    still held is the stream; a prefix is never empty; no byte given out as prefix can be
    the start of a handshake pattern, whatever follows; once records are cut, they start
    at the first pattern; and when the deframer wants more data and has found none, there
    is none, and it holds at most five bytes back. *)
Theorem fuzzy_stream find ops f outs :
  finds_first find → fuzzy_drive find new_fuzzy ops = (f, outs) →
  let w := fed ops in
  let P := List.concat (prefixes outs) in
  (P ++ List.concat (records outs) ++ remaining_data f)%list = w ∧
  Forall result_ok outs ∧
  (∀ o e, o < length P → ¬ pattern_at (w ++ e) o) ∧
  (fuzzy_state f = Deframing → pattern_at w (length P)) ∧
  (fuzzy_state f = Searching → List.concat (records outs) = []) ∧
  (∀ f', fuzzy_next find f = (f', Ok NeedData) → fuzzy_state f' = Searching →
     length (search_buffer f') ≤ 5 ∧ ∀ o, ¬ pattern_at w o).
Proof.
  intros Hfind Hd w P. pose proof (fuzzy_drive_inv find Hfind ops new_fuzzy [] [] [] new_fuzzy_inv) as H. rewrite Hd in H.
  destruct H as [Hinv Hok]. cbn [app] in Hinv. fold w P in Hinv. pose proof Hinv as [H1 H2 _ H4].
  split_and!; [done|done|done| | |].
  - intros Es. rewrite Es in H4. apply H4.
  - intros Es. rewrite Es in H4. apply H4.
  - intros f' Hn Hs. pose proof (fuzzy_next_inv find Hfind f w P _ Hinv) as H. rewrite Hn in H. destruct H as (_ & _ & H). by apply H.
Qed.

(** ** Witnesses *)
Fixpoint first_pair (d : bytes) : option nat :=
  match d with
  | [] => None
  | b :: d' => if (b2z b =? 22)%Z && byte_is 3 (head d') then Some 0 else S <$> first_pair d'
  end.

Lemma first_pair_first : finds_first first_pair.
Proof.
  intros d. induction d as [|b d IH]; [by intros j [H _]|]. cbn [first_pair].
  assert (pair_at (b :: d) 0 ↔ (b2z b =? 22)%Z && byte_is 3 (head d) = true) as H0.
  { unfold pair_at. cbn. rewrite andb_true_iff. by destruct d. }
  destruct ((b2z b =? 22)%Z && byte_is 3 (head d)) eqn:E.
  - split; [by apply H0|]. intros j Hj. lia.
  - destruct (first_pair d) as [o|]; cbn.
    + destruct IH as [H1 H2]. split; [exact H1|]. intros [|j] Hj; [rewrite H0; done|]. apply (H2 j). lia.
    + intros [|j]; [rewrite H0; done|]. apply (IH j).
Qed.

(** Two bytes of another protocol, then a record in two pieces. *)
Definition demo_record : bytes := [x16; x03; x01; x00; x02; x01; xff].
Definition demo_ops : list feed_op := [Feed [x00; x41; x16]; Next; Next; Feed [x03; x01; x00; x02; x01]; Next; Next; Feed [xff; x17]; Next; Next].

Lemma fuzzy_stream_witness :
  let '(f, outs) := fuzzy_drive first_pair new_fuzzy demo_ops in
  (List.concat (prefixes outs) ++ List.concat (records outs) ++ remaining_data f)%list = fed demo_ops ∧
  prefixes outs = [[x00; x41]] ∧ records outs = [demo_record] ∧ remaining_data f = [x17].
Proof.
  destruct (fuzzy_drive first_pair new_fuzzy demo_ops) as [f outs] eqn:E.
  destruct (fuzzy_stream first_pair demo_ops f outs first_pair_first E) as (H & _). split; [exact H|].
  vm_compute in E. injection E as <- <-. split_and!; reflexivity.
Defined.

Lemma deframer_stream_witness :
  let '(d, outs) := drive new_deframer [Feed (take 3 demo_record); Next; Feed (drop 3 demo_record ++ [x17; x03]); Next] in
  taken outs = [demo_record] ∧ all_fine outs ∧ buffer d = [x17; x03].
Proof.
  destruct (drive new_deframer _) as [d outs] eqn:E.
  destruct (deframer_stream [demo_record] [x17; x03] [Feed (take 3 demo_record); Next; Feed (drop 3 demo_record ++ [x17; x03]); Next] [] d outs)
    as (k & _ & Hf & _); [|reflexivity|reflexivity|exact E|].
  - apply Forall_cons_2; [|apply Forall_nil_2]. split; [vm_compute; lia|reflexivity].
  - vm_compute in E. injection E as <- <-. split; [reflexivity|]. split; [exact Hf|reflexivity].
Defined.

(** The records that were complete before a malformed header are taken from the buffer and
    not returned. *)
Example complete_records_lost :
  next_records (feed new_deframer (demo_record ++ [x16; x02; x00; x00; x00])) =
    ({| buffer := [x16; x02; x00; x00; x00]; state := ReadingHeader |}, Err "Invalid TLS protocol version").
Proof. reflexivity. Qed.
