(* ===== verification/TlsHello.v ===== *)
(** * TlsHello: the server's hello and the filter that looks for it

    [buf_reader.rs], [tls_parse.rs] and [vision_filter.rs] of [prototype/vless/src]. A
    reader is its bytes and its position, as in the code, and every read checks as the
    code checks; the texts of the errors are kept. *)
From Stdlib Require Import ZArith Lia Strings.Byte Ascii String.
From stdpp Require Import base list numbers option.
From S2P Require Import Prelude Net.
Local Open Scope string_scope.
Local Open Scope nat_scope.

Abbreviation tls := (outcome string).

(** ** BufReader *)
Record BufReader := { buf : bytes; pos : nat }.

Definition new_reader (l : bytes) : BufReader := {| buf := l; pos := 0 |}.
Definition is_consumed (r : BufReader) : bool := pos r =? length (buf r).
Definition remaining (r : BufReader) : nat := length (buf r) - pos r.
Definition eof {A} : tls A := Err "Read past end of buffer".
Definition advance (r : BufReader) (n : nat) : BufReader := {| buf := buf r; pos := pos r + n |}.

Definition read_u8 (r : BufReader) : tls (byte * BufReader) :=
  if length (buf r) <=? pos r then eof
  else v ← index (buf r) (pos r); Ok (v, advance r 1).

Definition read_u16_be (r : BufReader) : tls (Z * BufReader) :=
  if length (buf r) <=? pos r + 1 then eof
  else a ← index (buf r) (pos r); b ← index (buf r) (pos r + 1); Ok (from_be [a; b], advance r 2).

Definition read_u24_be (r : BufReader) : tls (Z * BufReader) :=
  if length (buf r) <=? pos r + 2 then eof
  else
    a ← index (buf r) (pos r); b ← index (buf r) (pos r + 1); c ← index (buf r) (pos r + 2);
    Ok (from_be [x00; a; b; c], advance r 3).

Definition read_slice (r : BufReader) (n : nat) : tls (bytes * BufReader) :=
  if length (buf r) <? pos r + n then eof
  else l ← slice (buf r) (pos r) (pos r + n); Ok (l, advance r n).

Definition read_str (r : BufReader) (n : nat) : tls (bytes * BufReader) :=
  '(l, r) ← read_slice r n;
  if utf8_valid l then Ok (l, r) else Err "Invalid UTF-8 sequence: {e}".

Definition skip (r : BufReader) (n : nat) : tls (unit * BufReader) :=
  if length (buf r) <? pos r + n then eof else Ok (tt, advance r n).

(** ** parse_server_hello *)
Definition CONTENT_TYPE_HANDSHAKE : Z := 22.
Definition HANDSHAKE_TYPE_SERVER_HELLO : Z := 2.
Definition TLS_HEADER_LEN : nat := 5.
Definition TLS_EXT_SUPPORTED_VERSIONS : Z := 43.
Definition RETRY_REQUEST_RANDOM_BYTES : bytes :=
  List.map z2b
    [207; 33; 173; 116; 229; 154; 97; 17; 190; 29; 140; 2; 30; 101; 184; 145;
     194; 162; 17; 22; 122; 187; 140; 94; 7; 158; 9; 226; 200; 168; 51; 156]%Z.

Record ParsedServerHello := { cipher_suite : Z; is_tls13 : bool }.

(** The loop over the extensions; each takes at least four bytes. *)
Fixpoint extensions_loop (fuel : nat) (r : BufReader) (tls13 : bool) : option (tls bool) :=
  match fuel with
  | O => None
  | S fuel =>
      if is_consumed r then Some (Ok tls13)
      else
        match '(ext_type, r) ← read_u16_be r; '(ext_len, r) ← read_u16_be r;
              if (ext_type =? TLS_EXT_SUPPORTED_VERSIONS)%Z then
                if negb (ext_len =? 2)%Z then Err "invalid supported_versions length"
                else '(version, r) ← read_slice r 2; Ok (bool_decide (version = [x03; x04]), r)
              else '(_, r) ← skip r (Z.to_nat ext_len); Ok (tls13, r)
        with
        | Ok (tls13, r) => extensions_loop fuel r tls13
        | Err e => Some (Err e)
        | Panic => Some Panic
        end
  end.

Definition parse_extensions (l : bytes) : tls bool := default Panic (extensions_loop (S (length l)) (new_reader l) false).

(** What follows the compression method. *)
Definition parse_hello_tail (r : BufReader) : tls bool :=
  if negb (is_consumed r) then
    '(extensions_len, r) ← read_u16_be r;
    if remaining r <? Z.to_nat extensions_len then Err "extensions length exceeds ServerHello"
    else '(l, _) ← read_slice r (Z.to_nat extensions_len); parse_extensions l
  else Ok false.

(** From the handshake type on. *)
Definition parse_hello_message (r : BufReader) : tls ParsedServerHello :=
  '(t, r) ← read_u8 r;
  if negb (b2z t =? HANDSHAKE_TYPE_SERVER_HELLO)%Z then Err "expected ServerHello handshake type"
  else
    '(message_len, r) ← read_u24_be r;
    if remaining r <? Z.to_nat message_len then Err "ServerHello message length exceeds frame"
    else
      '(major, r) ← read_u8 r;
      if negb (b2z major =? 3)%Z then Err "expected ServerHello legacy TLS version 3.3"
      else
        '(minor, r) ← read_u8 r;
        if negb (b2z minor =? 3)%Z then Err "expected ServerHello legacy TLS version 3.3"
        else
          '(server_random, r) ← read_slice r 32;
          if bool_decide (server_random = RETRY_REQUEST_RANDOM_BYTES) then Err "server sent HelloRetryRequest"
          else
            '(session_id_len, r) ← read_u8 r;
            if (32 <? b2z session_id_len)%Z then Err "invalid ServerHello session id length"
            else
              '(_, r) ← skip r (Z.to_nat (b2z session_id_len));
              '(cipher, r) ← read_u16_be r;
              '(_, r) ← skip r 1;
              tls13 ← parse_hello_tail r;
              Ok {| cipher_suite := cipher; is_tls13 := tls13 |}.

Definition parse_server_hello (frame : bytes) : tls ParsedServerHello :=
  if length frame <? 47 then Err "ServerHello frame too short"
  else
    b0 ← index frame 0;
    if negb (b2z b0 =? CONTENT_TYPE_HANDSHAKE)%Z then Err "expected handshake content type"
    else
      b1 ← index frame 1; b2 ← index frame 2;
      if negb (b2z b1 =? 3)%Z || negb (b2z b2 =? 3)%Z then Err "unexpected ServerHello record TLS version"
      else body ← slice frame TLS_HEADER_LEN (length frame); parse_hello_message (new_reader body).

(** ** VisionFilter *)
Definition TLS13_CIPHER_AES_128_CCM_8_SHA256 : Z := 4869.

Record VisionFilter := {
  record_filter_count : nat; is_tls : bool; is_tls12_or_above : bool; supports_xtls : bool }.

Definition new_with_record_count (n : nat) : VisionFilter :=
  {| record_filter_count := n; is_tls := false; is_tls12_or_above := false; supports_xtls := false |}.
Definition new_filter : VisionFilter := new_with_record_count 8.
Definition is_filtering (f : VisionFilter) : bool := 0 <? record_filter_count f.

Definition with_count (f : VisionFilter) (n : nat) : VisionFilter :=
  {| record_filter_count := n; is_tls := is_tls f; is_tls12_or_above := is_tls12_or_above f; supports_xtls := supports_xtls f |}.
Definition decrement_filter_count (f : VisionFilter) : VisionFilter := with_count f (record_filter_count f - 1).
Definition stop_filtering (f : VisionFilter) : VisionFilter := with_count f 0.

Definition byte_eq (z : Z) (d : bytes) (i : nat) : bool := match d !! i with Some b => (b2z b =? z)%Z | None => false end.

(** A short-circuiting conjunction guards every index with the length. *)
Definition client_hello_shaped (d : bytes) : bool :=
  (6 <=? length d) && byte_eq 22 d 0 && byte_eq 3 d 1 && byte_eq 1 d 5.
Definition server_hello_shaped (d : bytes) : bool :=
  (6 <=? length d) && byte_eq 22 d 0 && byte_eq 3 d 1 && byte_eq 3 d 2 && byte_eq 2 d 5.

Definition xtls_hello (h : ParsedServerHello) : bool :=
  is_tls13 h && negb (cipher_suite h =? TLS13_CIPHER_AES_128_CCM_8_SHA256)%Z.

Definition filter_record (f : VisionFilter) (d : bytes) : outcome string VisionFilter :=
  if record_filter_count f =? 0 then Ok f
  else
    let f := decrement_filter_count f in
    if length d <? 5 then Ok (stop_filtering f)
    else
      let f :=
        if negb (is_tls f) && client_hello_shaped d then
          {| record_filter_count := record_filter_count f; is_tls := true; is_tls12_or_above := is_tls12_or_above f;
             supports_xtls := supports_xtls f |}
        else f in
      if negb (is_tls12_or_above f) && server_hello_shaped d then
        let f := {| record_filter_count := record_filter_count f; is_tls := true; is_tls12_or_above := true;
                    supports_xtls := supports_xtls f |} in
        match parse_server_hello d with
        | Ok parsed =>
            if is_tls13 parsed then
              let f := if (cipher_suite parsed =? TLS13_CIPHER_AES_128_CCM_8_SHA256)%Z then f
                       else {| record_filter_count := record_filter_count f; is_tls := is_tls f;
                               is_tls12_or_above := is_tls12_or_above f; supports_xtls := true |} in
              Ok (stop_filtering f)
            else Ok f
        | Err _ => Ok (stop_filtering f)
        | Panic => Panic
        end
      else Ok f.

(** ** Readers *)
Definition reader_ok (r : BufReader) : Prop := pos r ≤ length (buf r).

(** A read that succeeds leaves a reader of the same bytes, further on. *)
Definition reads {A} (n : nat) (r : BufReader) (m : tls (A * BufReader)) : Prop :=
  no_panic m ∧ ∀ a r', m = Ok (a, r') → r' = advance r n ∧ reader_ok r'.

Lemma index_ok {E} (l : bytes) i : i < length l → ∃ b, index (E:=E) l i = Ok b.
Proof. intros Hi. unfold index. destruct (lookup_lt_is_Some_2 l i Hi) as [b ->]. by exists b. Qed.

Lemma read_u8_reads r : reads 1 r (read_u8 r).
Proof.
  unfold read_u8. destruct (Nat.leb_spec (length (buf r)) (pos r)) as [Hl|Hl]; [by split|].
  destruct (index_ok (E:=string) (buf r) (pos r) Hl) as [b ->]. cbn. split; [done|]. intros a r' [= <- <-]. split; [done|]. unfold reader_ok. cbn. lia.
Qed.

Lemma read_u16_reads r : reads 2 r (read_u16_be r).
Proof.
  unfold read_u16_be. destruct (Nat.leb_spec (length (buf r)) (pos r + 1)) as [Hl|Hl]; [by split|].
  destruct (index_ok (E:=string) (buf r) (pos r)) as [a ->]; [lia|]. destruct (index_ok (E:=string) (buf r) (pos r + 1) Hl) as [b ->].
  cbn [mbind outcome_bind]. split; [done|]. intros z r' [= <- <-]. split; [done|]. unfold reader_ok. cbn. lia.
Qed.

Lemma read_u24_reads r : reads 3 r (read_u24_be r).
Proof.
  unfold read_u24_be. destruct (Nat.leb_spec (length (buf r)) (pos r + 2)) as [Hl|Hl]; [by split|].
  destruct (index_ok (E:=string) (buf r) (pos r)) as [a ->]; [lia|]. destruct (index_ok (E:=string) (buf r) (pos r + 1)) as [b ->]; [lia|].
  destruct (index_ok (E:=string) (buf r) (pos r + 2) Hl) as [c ->].
  cbn [mbind outcome_bind]. split; [done|]. intros z r' [= <- <-]. split; [done|]. unfold reader_ok. cbn. lia.
Qed.

Lemma read_slice_reads r n : reads n r (read_slice r n).
Proof.
  unfold read_slice. destruct (Nat.ltb_spec (length (buf r)) (pos r + n)) as [Hl|Hl]; [by split|].
  unfold slice. rewrite get_range_Some by lia. cbn [expect mbind outcome_bind]. split; [done|]. intros l r' [= <- <-].
  split; [done|]. unfold reader_ok. cbn. lia.
Qed.

Lemma skip_reads r n : reads n r (skip r n).
Proof.
  unfold skip. destruct (Nat.ltb_spec (length (buf r)) (pos r + n)) as [Hl|Hl]; [by split|]. split; [done|].
  intros [] r' [= <-]. split; [done|]. unfold reader_ok. cbn. lia.
Qed.

(** A bind after a read does not panic if its continuation does not. *)
Lemma reads_bind {A B} n r (m : tls (A * BufReader)) (k : A * BufReader → tls B) :
  reads n r m → (∀ a r', m = Ok (a, r') → reader_ok r' → no_panic (k (a, r'))) → no_panic (m ≫= k).
Proof. intros [Hn Hr] Hk. apply no_panic_bind; [done|]. intros [a r'] Ha. apply Hk; [done|]. by apply (Hr a r'). Qed.

Lemma extensions_total fuel r t :
  reader_ok r → length (buf r) - pos r < fuel → ∃ x, extensions_loop fuel r t = Some x ∧ no_panic x.
Proof.
  revert r t. induction fuel as [|fuel IH]; intros r t Hr Hf; [lia|]. cbn [extensions_loop]. unfold is_consumed.
  destruct (Nat.eqb_spec (pos r) (length (buf r))) as [He|He]; [by eexists|].
  destruct (read_u16_reads r) as [Hn1 H1]. destruct (read_u16_be r) as [[ty r1]|e|]; cbn [mbind outcome_bind]; [|by eexists|done].
  destruct (H1 _ _ eq_refl) as [-> Hr1]. destruct (read_u16_reads (advance r 2)) as [Hn2 H2].
  destruct (read_u16_be (advance r 2)) as [[n r2]|e|]; cbn [mbind outcome_bind]; [|by eexists|done].
  destruct (H2 _ _ eq_refl) as [-> Hr2]. destruct (ty =? TLS_EXT_SUPPORTED_VERSIONS)%Z.
  - destruct (n =? 2)%Z; cbn [negb]; [|by eexists].
    destruct (read_slice_reads (advance (advance r 2) 2) 2) as [Hn3 H3].
    destruct (read_slice _ 2) as [[v r3]|e|]; cbn [mbind outcome_bind]; [|by eexists|done].
    destruct (H3 _ _ eq_refl) as [-> Hr3]. apply IH; [done|]. unfold reader_ok in Hr3. cbn in *. lia.
  - destruct (skip_reads (advance (advance r 2) 2) (Z.to_nat n)) as [Hn3 H3].
    destruct (skip _ _) as [[v r3]|e|]; cbn [mbind outcome_bind]; [|by eexists|done].
    destruct (H3 _ _ eq_refl) as [-> Hr3]. apply IH; [done|]. unfold reader_ok in Hr3. cbn in *. lia.
Qed.

Lemma no_panic_extensions l : no_panic (parse_extensions l).
Proof.
  unfold parse_extensions. destruct (extensions_total (S (length l)) (new_reader l) false) as (x & -> & Hx); [unfold reader_ok; cbn; lia|cbn; lia|]. exact Hx.
Qed.

Lemma no_panic_message r : no_panic (parse_hello_message r).
Proof.
  unfold parse_hello_message. eapply reads_bind; [apply read_u8_reads|]. intros t r1 _ _. cbn beta iota.
  destruct (negb _); [done|]. eapply reads_bind; [apply read_u24_reads|]. intros n r2 _ _. cbn beta iota.
  destruct (remaining r2 <? Z.to_nat n); [done|]. eapply reads_bind; [apply read_u8_reads|]. intros a r3 _ _. cbn beta iota.
  destruct (negb _); [done|]. eapply reads_bind; [apply read_u8_reads|]. intros b r4 _ _. cbn beta iota.
  destruct (negb _); [done|]. eapply reads_bind; [apply read_slice_reads|]. intros rnd r5 _ _. cbn beta iota.
  case_bool_decide; [done|]. eapply reads_bind; [apply read_u8_reads|]. intros s r6 _ _. cbn beta iota.
  destruct (32 <? b2z s)%Z; [done|]. eapply reads_bind; [apply skip_reads|]. intros [] r7 _ _. cbn beta iota.
  eapply reads_bind; [apply read_u16_reads|]. intros c r8 _ _. cbn beta iota.
  eapply reads_bind; [apply skip_reads|]. intros [] r9 _ _. cbn beta iota.
  apply no_panic_bind; [|done]. unfold parse_hello_tail. destruct (is_consumed r9); [done|]. cbn [negb].
  eapply reads_bind; [apply read_u16_reads|]. intros k r10 _ _. cbn beta iota.
  destruct (remaining r10 <? Z.to_nat k); [done|]. eapply reads_bind; [apply read_slice_reads|]. intros l r11 _ _. apply no_panic_extensions.
Qed.

Lemma no_panic_server_hello d : no_panic (parse_server_hello d).
Proof.
  unfold parse_server_hello. destruct (Nat.ltb_spec (length d) 47) as [Hl|Hl]; [done|].
  destruct (index_ok (E:=string) d 0) as [b0 ->]; [lia|]. cbn [mbind outcome_bind]. destruct (negb _); [done|].
  destruct (index_ok (E:=string) d 1) as [b1 ->]; [lia|]. destruct (index_ok (E:=string) d 2) as [b2 ->]; [lia|]. cbn [mbind outcome_bind].
  destruct (_ || _); [done|]. unfold slice. rewrite get_range_Some by (unfold TLS_HEADER_LEN; lia). cbn [expect mbind outcome_bind].
  apply no_panic_message.
Qed.

Lemma filter_record_Ok f d : ∃ f', filter_record f d = Ok f'.
Proof.
  unfold filter_record. destruct (record_filter_count f =? 0); [by eexists|]. destruct (length d <? 5); [by eexists|].
  destruct (negb (is_tls (decrement_filter_count f)) && client_hello_shaped d).
  all: destruct (negb _ && server_hello_shaped d); [|by eexists].
  all: pose proof (no_panic_server_hello d) as Hn; destruct (parse_server_hello d) as [h|e|]; [|by eexists|done].
  all: destruct (is_tls13 h); [by eexists|by eexists].
Qed.

(** ** The messages that the parser accepts *)
Record ServerHello := {
  h_random : bytes; h_session : bytes; h_cipher : Z; h_compression : byte; h_extensions : option (list (Z * bytes)) }.

Definition encode_extension (e : Z * bytes) : bytes := (to_be 2 e.1 ++ to_be 2 (Z.of_nat (length e.2)) ++ e.2)%list.
Definition encode_extensions (es : list (Z * bytes)) : bytes := List.concat (List.map encode_extension es).
Definition encode_tail (es : option (list (Z * bytes))) : bytes :=
  match es with
  | None => []
  | Some es => (to_be 2 (Z.of_nat (length (encode_extensions es))) ++ encode_extensions es)%list
  end.
Definition encode_body (h : ServerHello) : bytes :=
  ([x03; x03] ++ h_random h ++ [z2b (Z.of_nat (length (h_session h)))] ++ h_session h ++ to_be 2 (h_cipher h) ++
   [h_compression h] ++ encode_tail (h_extensions h))%list.
Definition encode_message (h : ServerHello) : bytes :=
  ([x02] ++ to_be 3 (Z.of_nat (length (encode_body h))) ++ encode_body h)%list.
Definition encode_record (h : ServerHello) : bytes :=
  ([x16; x03; x03] ++ to_be 2 (Z.of_nat (length (encode_message h))) ++ encode_message h)%list.

Definition extension_ok (e : Z * bytes) : Prop :=
  in_u 16 e.1 ∧ in_u 16 (Z.of_nat (length e.2)) ∧ (e.1 = TLS_EXT_SUPPORTED_VERSIONS → length e.2 = 2).

Record hello_ok (h : ServerHello) : Prop := {
  ok_random : length (h_random h) = 32 ∧ h_random h ≠ RETRY_REQUEST_RANDOM_BYTES;
  ok_session : length (h_session h) ≤ 32;
  ok_cipher : in_u 16 (h_cipher h);
  ok_extensions : ∀ es, h_extensions h = Some es →
    Forall extension_ok es ∧ in_u 16 (Z.of_nat (length (encode_extensions es))) }.

(** The last supported_versions extension decides. *)
Definition tls13_of (es : list (Z * bytes)) : bool :=
  fold_left (λ t e, if (e.1 =? TLS_EXT_SUPPORTED_VERSIONS)%Z then bool_decide (e.2 = [x03; x04]) else t) es false.

(** A reader in front of [rest]. *)
Definition at_ (pre rest : bytes) : BufReader := {| buf := (pre ++ rest)%list; pos := length pre |}.

Lemma at_advance pre l rest : advance (at_ pre (l ++ rest)) (length l) = at_ (pre ++ l) rest.
Proof. unfold advance, at_. cbn. by rewrite <- app_assoc, length_app. Qed.

Lemma index_pre {E} (pre rest : bytes) i : index (E:=E) (pre ++ rest)%list (length pre + i) = index rest i.
Proof. unfold index. rewrite lookup_app_r by lia. by replace (length pre + i - length pre) with i by lia. Qed.

Lemma read_u8_at pre b rest : read_u8 (at_ pre (b :: rest)) = Ok (b, at_ (pre ++ [b]) rest).
Proof.
  unfold read_u8. cbn [buf pos at_]. rewrite length_app. cbn [length]. destruct (Nat.leb_spec (length pre + S (length rest)) (length pre)); [lia|].
  rewrite <- (Nat.add_0_r (length pre)) at 1. rewrite index_pre. cbn [index lookup list_lookup expect mbind outcome_bind].
  do 2 f_equal. exact (at_advance pre [b] rest).
Qed.

Lemma read_u16_at pre z rest : in_u 16 z → read_u16_be (at_ pre (to_be 2 z ++ rest)) = Ok (z, at_ (pre ++ to_be 2 z) rest).
Proof.
  intros Hz. pose proof (from_be_to_be_u16 z Hz) as Hf. pose proof (length_to_be 2 z) as Hl. revert Hf Hl. generalize (to_be 2 z) as l.
  intros [|a [|b [|]]] Hf; try done. intros _. unfold read_u16_be. cbn [buf pos at_]. rewrite length_app. cbn [length app].
  destruct (Nat.leb_spec (length pre + S (S (length rest))) (length pre + 1)); [lia|].
  rewrite <- (Nat.add_0_r (length pre)) at 1. rewrite !index_pre. cbn [index lookup list_lookup expect mbind outcome_bind].
  rewrite Hf. do 2 f_equal. exact (at_advance pre [a; b] rest).
Qed.

Lemma read_u24_at pre z rest : in_u 24 z → read_u24_be (at_ pre (to_be 3 z ++ rest)) = Ok (z, at_ (pre ++ to_be 3 z) rest).
Proof.
  intros Hz. assert (from_be (to_be 3 z) = z) as Hf by (rewrite from_be_to_be; by apply Z.mod_small).
  pose proof (length_to_be 3 z) as Hl. revert Hf Hl. generalize (to_be 3 z) as l.
  intros [|a [|b [|c [|]]]] Hf; try done. intros _. unfold read_u24_be. cbn [buf pos at_]. rewrite length_app. cbn [length app].
  destruct (Nat.leb_spec (length pre + S (S (S (length rest)))) (length pre + 2)); [lia|].
  rewrite <- (Nat.add_0_r (length pre)) at 1. rewrite !index_pre. cbn [index lookup list_lookup expect mbind outcome_bind].
  replace (from_be [x00; a; b; c]) with z by by rewrite <- Hf. do 2 f_equal. exact (at_advance pre [a; b; c] rest).
Qed.

Lemma read_slice_at pre l rest n : length l = n → read_slice (at_ pre (l ++ rest)) n = Ok (l, at_ (pre ++ l) rest).
Proof.
  intros <-. unfold read_slice. cbn [buf pos at_]. rewrite !length_app. destruct (Nat.ltb_spec (length pre + (length l + length rest)) (length pre + length l)); [lia|].
  unfold slice. rewrite get_range_Some by (rewrite !length_app; lia). cbn [expect mbind outcome_bind]. rewrite drop_app_length.
  replace (length pre + length l - length pre) with (length l) by lia. rewrite take_app_length. do 2 f_equal. apply at_advance.
Qed.

Lemma skip_at pre l rest n : length l = n → skip (at_ pre (l ++ rest)) n = Ok (tt, at_ (pre ++ l) rest).
Proof.
  intros <-. unfold skip. cbn [buf pos at_]. rewrite !length_app. destruct (Nat.ltb_spec (length pre + (length l + length rest)) (length pre + length l)); [lia|].
  do 2 f_equal. apply at_advance.
Qed.

Lemma is_consumed_at pre rest : is_consumed (at_ pre rest) = match rest with [] => true | _ => false end.
Proof.
  unfold is_consumed. cbn. rewrite length_app. destruct rest; cbn [length].
  - rewrite Nat.add_0_r. apply Nat.eqb_refl.
  - destruct (Nat.eqb_spec (length pre) (length pre + S (length rest))); [lia|done].
Qed.

Lemma remaining_at pre rest : remaining (at_ pre rest) = length rest.
Proof. unfold remaining. cbn. rewrite length_app. lia. Qed.

Lemma extensions_at es pre fuel t :
  Forall extension_ok es → length es < fuel →
  extensions_loop fuel (at_ pre (encode_extensions es)) t =
    Some (Ok (fold_left (λ t e, if (e.1 =? TLS_EXT_SUPPORTED_VERSIONS)%Z then bool_decide (e.2 = [x03; x04]) else t) es t)).
Proof.
  intros Hes. revert pre fuel t. induction Hes as [|[ty d] es (H1 & H2 & H3) _ IH]; intros pre fuel t Hf; (destruct fuel as [|fuel]; [cbn in Hf; lia|]); cbn [extensions_loop].
  - rewrite is_consumed_at. done.
  - unfold encode_extensions. cbn [List.map List.concat]. fold (encode_extensions es). unfold encode_extension. cbn [fst snd] in *.
    rewrite <- !app_assoc, is_consumed_at.
    replace (match (to_be 2 ty ++ to_be 2 (Z.of_nat (length d)) ++ d ++ encode_extensions es)%list with [] => true | _ => false end) with false
      by (pose proof (length_to_be 2 ty); by destruct (to_be 2 ty)).
    rewrite read_u16_at by done. cbn [mbind outcome_bind]. rewrite read_u16_at by done. cbn [mbind outcome_bind fold_left fst snd].
    cbn [length] in Hf. destruct (Z.eqb_spec ty TLS_EXT_SUPPORTED_VERSIONS) as [Hty|Hty].
    + specialize (H3 Hty). replace (Z.of_nat (length d) =? 2)%Z with true by (rewrite H3; done). cbn [negb].
      rewrite (read_slice_at _ d _ 2 H3). cbn [mbind outcome_bind]. apply IH. lia.
    + rewrite Nat2Z.id, skip_at by done. cbn [mbind outcome_bind]. apply IH. lia.
Qed.

Lemma encode_extensions_length es : length es ≤ length (encode_extensions es).
Proof.
  induction es as [|e es IH]; [done|]. unfold encode_extensions in *. cbn [List.map List.concat length]. unfold encode_extension at 1.
  rewrite !length_app, !length_to_be. lia.
Qed.

Lemma parse_tail_at pre es :
  (∀ l, es = Some l → Forall extension_ok l ∧ in_u 16 (Z.of_nat (length (encode_extensions l)))) →
  parse_hello_tail (at_ pre (encode_tail es)) = Ok (default false (option_map tls13_of es)).
Proof.
  intros Hes. unfold parse_hello_tail. rewrite is_consumed_at. destruct es as [l|]; [|done]. destruct (Hes l eq_refl) as [Hl Hn].
  unfold encode_tail. replace (negb _) with true.
  2: { pose proof (length_to_be 2 (Z.of_nat (length (encode_extensions l)))). by destruct (to_be 2 _). }
  rewrite read_u16_at by done. cbn [mbind outcome_bind]. rewrite Nat2Z.id, remaining_at, Nat.ltb_irrefl.
  rewrite <- (app_nil_r (encode_extensions l)) at 2. rewrite read_slice_at by done. cbn [mbind outcome_bind].
  unfold parse_extensions. change (new_reader (encode_extensions l)) with (at_ [] (encode_extensions l)).
  pose proof (encode_extensions_length l). rewrite extensions_at by (done || lia). done.
Qed.

Lemma length_encode_body h : hello_ok h → length (encode_body h) = 38 + length (h_session h) + length (encode_tail (h_extensions h)).
Proof. intros [[Hr _] _ _ _]. unfold encode_body. rewrite !length_app, Hr, length_to_be. cbn [length]. lia. Qed.

Lemma length_encode_tail h : hello_ok h → length (encode_tail (h_extensions h)) < Z.to_nat 65540.
Proof.
  intros [_ _ _ He]. destruct (h_extensions h) as [es|]; [|cbn; lia]. destruct (He es eq_refl) as [_ [_ Hn]].
  unfold encode_tail. rewrite length_app, length_to_be. change (2 ^ 16)%Z with 65536%Z in Hn. lia.
Qed.

Lemma parse_encoded h : hello_ok h →
  parse_server_hello (encode_record h) =
    Ok {| cipher_suite := h_cipher h; is_tls13 := default false (option_map tls13_of (h_extensions h)) |}.
Proof.
  intros Hh. pose proof (length_encode_body h Hh) as Hlb. pose proof (length_encode_tail h Hh) as Hlt.
  destruct Hh as [[Hr Hn] Hs Hc He].
  assert (length (encode_message h) = 4 + length (encode_body h)) as Hlm.
  { unfold encode_message. rewrite !length_app, length_to_be. cbn. lia. }
  unfold parse_server_hello. destruct (Nat.ltb_spec (length (encode_record h)) 47) as [Hl|_].
  { unfold encode_record in Hl. rewrite !length_app, length_to_be in Hl. cbn [length] in Hl. lia. }
  change (index (encode_record h) 0) with (@Ok string byte x16). cbn [mbind outcome_bind]. replace (negb (b2z x16 =? CONTENT_TYPE_HANDSHAKE)%Z) with false by done.
  change (index (encode_record h) 1) with (@Ok string byte x03). change (index (encode_record h) 2) with (@Ok string byte x03).
  cbn [mbind outcome_bind]. replace (negb (b2z x03 =? 3)%Z || negb (b2z x03 =? 3)%Z) with false by done.
  replace (slice (encode_record h) TLS_HEADER_LEN (length (encode_record h))) with (@Ok string bytes (encode_message h)).
  2: { unfold encode_record, TLS_HEADER_LEN, slice. rewrite (app_assoc [x16; x03; x03]).
       rewrite get_range_Some by (rewrite !length_app, length_to_be; cbn [length]; lia). cbn [expect]. f_equal.
       rewrite drop_app_length' by by rewrite length_app, length_to_be. symmetry. apply take_ge. rewrite !length_app, length_to_be. cbn [length]. lia. }
  cbn [mbind outcome_bind]. change (new_reader (encode_message h)) with (at_ [] (encode_message h)).
  unfold parse_hello_message, encode_message. cbn [app]. rewrite read_u8_at. cbn [mbind outcome_bind].
  replace (negb (b2z x02 =? HANDSHAKE_TYPE_SERVER_HELLO)%Z) with false by done.
  rewrite read_u24_at.
  2: { split; [lia|]. rewrite Hlb. change (2 ^ 24)%Z with 16777216%Z. lia. }
  cbn [mbind outcome_bind]. rewrite Nat2Z.id, remaining_at, Nat.ltb_irrefl. unfold encode_body. cbn [app].
  do 2 (rewrite read_u8_at; cbn [mbind outcome_bind]; replace (negb (b2z x03 =? 3)%Z) with false by done).
  rewrite (read_slice_at _ (h_random h) _ 32 Hr). cbn [mbind outcome_bind]. rewrite bool_decide_eq_false_2 by done.
  rewrite read_u8_at. cbn [mbind outcome_bind].
  assert (b2z (z2b (Z.of_nat (length (h_session h)))) = Z.of_nat (length (h_session h))) as -> by (rewrite b2z_z2b; apply Z.mod_small; lia).
  destruct (Z.ltb_spec 32 (Z.of_nat (length (h_session h)))); [lia|]. rewrite Nat2Z.id, skip_at by done. cbn [mbind outcome_bind].
  rewrite read_u16_at by done. cbn [mbind outcome_bind].
  change (h_compression h :: encode_tail (h_extensions h)) with ([h_compression h] ++ encode_tail (h_extensions h))%list.
  rewrite (skip_at _ [h_compression h] _ 1 eq_refl). cbn [mbind outcome_bind].
  rewrite parse_tail_at by done. done.
Qed.

(** Every server hello that the format allows is read back: from its record the parser
    finds the cipher suite, and TLS 1.3 exactly when its last supported_versions
    extension says so; and on no bytes at all does the parser panic. *)
Theorem server_hello_roundtrip :
  (∀ d, no_panic (parse_server_hello d)) ∧
  ∀ h, hello_ok h →
    parse_server_hello (encode_record h) =
      Ok {| cipher_suite := h_cipher h; is_tls13 := default false (option_map tls13_of (h_extensions h)) |}.
Proof. split; [exact no_panic_server_hello|exact parse_encoded]. Qed.

(** A server hello of TLS 1.3. *)
Definition sample_hello : ServerHello := {|
  h_random := replicate 32 x07; h_session := replicate 32 x09; h_cipher := 4865; h_compression := x00;
  h_extensions := Some [(51%Z, replicate 36 x05); (43%Z, [x03; x04])] |}.

Lemma server_hello_roundtrip_witness :
  parse_server_hello (encode_record sample_hello) = Ok {| cipher_suite := 4865; is_tls13 := true |}.
Proof.
  apply (proj2 server_hello_roundtrip sample_hello). split.
  - split; [done|]. vm_compute. discriminate.
  - vm_compute. lia.
  - vm_compute. split; [discriminate|done].
  - intros es [= <-]. split.
    + repeat constructor; cbn; try lia. all: try (intros [=]).
    + vm_compute. split; [discriminate|done].
Defined.

(** ** A run of the filter *)
Fixpoint filter_records (f : VisionFilter) (ds : list bytes) : outcome string VisionFilter :=
  match ds with
  | [] => Ok f
  | d :: ds => f ← filter_record f d; filter_records f ds
  end.

(** The record at [i] is the server hello that the filter examines. *)
Definition examined (n : nat) (ds : list bytes) (i : nat) (d : bytes) : Prop :=
  i < n ∧ ds !! i = Some d ∧ server_hello_shaped d = true ∧
  ∀ j e, j < i → ds !! j = Some e → 5 ≤ length e ∧ server_hello_shaped e = false.

Definition found_xtls (n : nat) (ds : list bytes) : Prop :=
  ∃ i d h, examined n ds i d ∧ parse_server_hello d = Ok h ∧ xtls_hello h = true.

Lemma shaped_length d : server_hello_shaped d = true → 6 ≤ length d.
Proof. unfold server_hello_shaped. rewrite !andb_true_iff. intros [[[[H _] _] _] _]. by apply Nat.leb_le in H. Qed.

Lemma filter_settled f ds :
  record_filter_count f = 0 ∨ is_tls12_or_above f = true →
  ∃ f', filter_records f ds = Ok f' ∧ supports_xtls f' = supports_xtls f.
Proof.
  revert f. induction ds as [|d ds IH]; intros f Hf; cbn [filter_records]; [by exists f|].
  assert (∃ f', filter_record f d = Ok f' ∧ supports_xtls f' = supports_xtls f ∧ (record_filter_count f' = 0 ∨ is_tls12_or_above f' = true))
    as (f1 & -> & Hs & Hf1).
  { unfold filter_record. destruct (Nat.eqb_spec (record_filter_count f) 0) as [H0|H0]; [by exists f|].
    destruct Hf as [Hf|Hf]; [done|]. destruct (length d <? 5); [eexists; split_and!; [done..|by left]|].
    destruct (negb (is_tls _) && client_hello_shaped d); cbn; rewrite Hf; cbn; eexists; (split_and!; [done..|by right]). }
  cbn [mbind outcome_bind]. destruct (IH f1 Hf1) as (f' & -> & Hs'). exists f'. split; congruence.
Qed.

Lemma examined_S n d ds i e :
  5 ≤ length d → server_hello_shaped d = false → examined n ds i e → examined (S n) (d :: ds) (S i) e.
Proof.
  intros Hl Hd (Hi & He & Hs & Hb). split_and!; [lia|done..|]. intros [|j] x Hj [= Hx]; [by subst|]. eapply Hb; [|done]. lia.
Qed.

Lemma found_xtls_skip n d ds :
  5 ≤ length d → server_hello_shaped d = false → found_xtls (S n) (d :: ds) ↔ found_xtls n ds.
Proof.
  intros Hl Hd. split; intros (i & e & h & He & Hp & Hx).
  - destruct He as (Hi & He & Hs & Hb). destruct i as [|i]; cbn in He; [simplify_eq; congruence|].
    exists i, e, h. split_and!; [|done..]. split_and!; [lia|done..|]. intros j x Hj Hjx. apply (Hb (S j)); [lia|done].
  - exists (S i), e, h. split_and!; [by apply examined_S|done..].
Qed.

Lemma found_xtls_stop n d ds : length d < 5 → ¬ found_xtls n (d :: ds).
Proof.
  intros Hl ([|i] & e & h & (_ & He & Hs & Hb) & _).
  - injection He as ->. apply shaped_length in Hs. lia.
  - destruct (Hb 0 d) as [Hb' _]; [lia|done|lia].
Qed.

Lemma found_xtls_hello n d ds :
  server_hello_shaped d = true → found_xtls (S n) (d :: ds) ↔ ∃ h, parse_server_hello d = Ok h ∧ xtls_hello h = true.
Proof.
  intros Hd. split.
  - intros ([|i] & e & h & (_ & He & Hs & Hb) & Hp); [injection He as ->; by exists h|]. destruct (Hb 0 d) as [_ Hb']; [lia|done|congruence].
  - intros (h & Hp). exists 0, d, h. split; [|done]. split_and!; [lia|done..|]. intros j x Hj. lia.
Qed.

(** Ends a run whose filter is settled. *)
Local Ltac settle f :=
  match goal with |- context [filter_records ?g ?ds] =>
    let Hf := fresh "Hf" in
    destruct (filter_settled g ds) as (f & -> & Hf); [by (left + right)|]; exists f; split; [done|]; rewrite Hf; cbn
  end.

Lemma filter_searching n t ds :
  ∃ f, filter_records {| record_filter_count := n; is_tls := t; is_tls12_or_above := false; supports_xtls := false |} ds = Ok f ∧
       (supports_xtls f = true ↔ found_xtls n ds).
Proof.
  revert n t. induction ds as [|d ds IH]; intros n t; cbn [filter_records].
  { eexists. split; [done|]. split; [done|]. intros (i & d & h & (_ & He & _) & _). by destruct i. }
  unfold filter_record. cbn [record_filter_count]. destruct (Nat.eqb_spec n 0) as [->|Hn].
  { cbn [mbind outcome_bind]. settle f. split; [done|]. intros (i & e & h & (Hi & _) & _). lia. }
  destruct n as [|n]; [done|]. unfold decrement_filter_count, with_count. cbn [record_filter_count is_tls is_tls12_or_above supports_xtls negb andb].
  replace (S n - 1) with n by lia.
  destruct (Nat.ltb_spec (length d) 5) as [Hl|Hl].
  { cbn [mbind outcome_bind]. settle f. split; [done|]. intros H. by apply found_xtls_stop in H. }
  set (g := if negb t && client_hello_shaped d then _ else _).
  assert (∃ t', g = {| record_filter_count := n; is_tls := t'; is_tls12_or_above := false; supports_xtls := false |}) as [t' ->]
    by (subst g; destruct (negb t && _); by eexists). cbn.
  destruct (server_hello_shaped d) eqn:Hd; cbn [mbind outcome_bind].
  2: { destruct (IH n t') as (f & -> & Hf). exists f. split; [done|]. by rewrite found_xtls_skip. }
  setoid_rewrite (found_xtls_hello n d ds Hd).
  pose proof (no_panic_server_hello d) as Hp. destruct (parse_server_hello d) as [h|e|] eqn:Hh; [|clear Hp|done].
  - unfold xtls_hello. destruct (is_tls13 h) eqn:H13; [destruct (cipher_suite h =? _)%Z eqn:Hc|]; cbn [mbind outcome_bind].
    all: settle f.
    + split; [done|]. intros (x & [= <-] & Hx). rewrite H13, Hc in Hx. done.
    + split; [|done]. intros _. exists h. by rewrite H13, Hc.
    + split; [done|]. intros (x & [= <-] & Hx). by rewrite H13 in Hx.
  - cbn [mbind outcome_bind]. settle f. split; [done|]. by intros (x & ? & _).
Qed.

(** The filter never panics, and after any records it has chosen the direct copy exactly
    when the first record shaped like a server hello came among the first eight, after
    none too short to be one, and parses to TLS 1.3 with a cipher suite other than the
    one that Vision excludes. *)
Theorem filter_supports_iff ds :
  ∃ f, filter_records new_filter ds = Ok f ∧ (supports_xtls f = true ↔ found_xtls 8 ds).
Proof. apply filter_searching. Qed.
