(* ===== verification/Wire.v ===== *)
(** * Wire: the I/O that the protocol clients of [prototype/] share

    A client reads from a stream that delivers finitely many bytes and then ends or
    fails, copies from a source that hands out its data read by read, and writes to a
    sink that accepts some number of writes. The methods of the code take [&mut self]
    and return early with [?]: an action returns the new state also when it fails. *)
From Stdlib Require Import ZArith Lia Strings.Byte Ascii String.
From stdpp Require Import base list numbers option strings.
From S2P Require Import Prelude.
Local Open Scope nat_scope.

(** [Error] of the [lib.rs] of the four clients, which declare the same struct. *)
Record Error := mk_error { stage : string; message : string }.

(** ** Actions *)
Definition act (S E A : Type) : Type := S → S * outcome E A.

#[export] Instance act_ret S E : MRet (act S E) := λ A a s, (s, Ok a).
#[export] Instance act_bind S E : MBind (act S E) := λ A B f m s,
  match m s with
  | (s', Ok a) => f a s'
  | (s', Err e) => (s', Err e)
  | (s', Panic) => (s', Panic)
  end.

Definition fail {S E A} (e : E) : act S E A := λ s, (s, Err e).
Definition get {S E} : act S E S := λ s, (s, Ok s).
Definition modify {S E} (f : S → S) : act S E unit := λ s, (f s, Ok tt).
Definition lift {S E A} (m : outcome E A) : act S E A := λ s, (s, m).

(** An action on one part of the state. *)
Definition on_fst {S T E A} (m : act S E A) : act (S * T) E A := λ '(s, t), let '(s', r) := m s in ((s', t), r).
Definition on_snd {S T E A} (m : act T E A) : act (S * T) E A := λ '(s, t), let '(t', r) := m t in ((s, t'), r).

Lemma act_bind_ok {S E A B} (m : act S E A) (f : A → act S E B) s s' a : m s = (s', Ok a) → (m ≫= f) s = f a s'.
Proof. intros H. unfold mbind, act_bind. by rewrite H. Qed.

Lemma act_bind_inv {S E A B} (m : act S E A) (f : A → act S E B) s s' b :
  (m ≫= f) s = (s', Ok b) → ∃ s1 a, m s = (s1, Ok a) ∧ f a s1 = (s', Ok b).
Proof. unfold mbind, act_bind. destruct (m s) as [s1 [a|e|]] eqn:Em; [|done..]. intros H. by exists s1, a. Qed.

Lemma act_bind_cong {S E A B} (m : act S E A) (f : A → act S E B) s1 s2 : m s1 = m s2 → (m ≫= f) s1 = (m ≫= f) s2.
Proof. intros H. unfold mbind, act_bind. by rewrite H. Qed.

Lemma act_bind_cases {S E A B} (m : act S E A) (f : A → act S E B) w w' r : (m ≫= f) w = (w', r) →
  (∃ w1 a, m w = (w1, Ok a) ∧ f a w1 = (w', r)) ∨ (∃ e, m w = (w', Err e) ∧ r = Err e) ∨ (m w = (w', Panic) ∧ r = Panic).
Proof. unfold mbind, act_bind. destruct (m w) as [w1 [a|e|]]; [intros Hf; left; by exists w1, a|intros [= <- <-]; right; left; by exists e|intros [= <- <-]; by auto]. Qed.

(** ** Rules

    Actions without a panic that take the state along a relation. *)
Definition obeys {S E A} (R : S → S → Prop) (m : act S E A) : Prop :=
  ∀ w w' r, m w = (w', r) → R w w' ∧ no_panic r.

Section rules.
Context {S E : Type} (R : S → S → Prop) `{!PreOrder R}.
Abbreviation action := (act S E).

Lemma obeys_ret {A} (a : A) : obeys R (mret a : action A).
Proof. intros w w' r [= <- <-]. split; [reflexivity|done]. Qed.

Lemma obeys_fail {A} (e : E) : obeys R (fail e : action A).
Proof. intros w w' r [= <- <-]. split; [reflexivity|done]. Qed.

Lemma obeys_get : obeys R (get : action S).
Proof. intros w w' r [= <- <-]. split; [reflexivity|done]. Qed.

Lemma obeys_lift {A} (o : outcome E A) : no_panic o → obeys R (lift o : action A).
Proof. intros Ho w w' r [= <- <-]. split; [reflexivity|done]. Qed.

Lemma obeys_bind {A B} (m : action A) (f : A → action B) : obeys R m → (∀ a, obeys R (f a)) → obeys R (m ≫= f).
Proof.
  intros Hm Hf w w' r. unfold mbind, act_bind. destruct (m w) as [w1 [a|e|]] eqn:Em.
  - intros Hk. destruct (Hm _ _ _ Em) as [H1 _]. destruct (Hf a _ _ _ Hk) as [H2 Hp]. split; [by etransitivity|done].
  - intros [= <- <-]. by destruct (Hm _ _ _ Em).
  - intros [= <- <-]. by destruct (Hm _ _ _ Em).
Qed.

(** The rule of sequences whose first part fixes what it returns. *)
Lemma obeys_bind_post {A B} (m : action A) (P : A → Prop) (f : A → action B) :
  obeys R m → (∀ w w' a, m w = (w', Ok a) → P a) → (∀ a, P a → obeys R (f a)) → obeys R (m ≫= f).
Proof.
  intros Hm HP Hf w w' r. unfold mbind, act_bind. destruct (m w) as [w1 [a|e|]] eqn:Em.
  - intros Hk. destruct (Hm _ _ _ Em) as [H1 _]. destruct (Hf a (HP _ _ _ Em) _ _ _ Hk) as [H2 Hp]. split; [by etransitivity|done].
  - intros [= <- <-]. by destruct (Hm _ _ _ Em).
  - intros [= <- <-]. by destruct (Hm _ _ _ Em).
Qed.
End rules.

Lemma obeys_mono {S E A} (R1 R2 : S → S → Prop) (m : act S E A) : (∀ w w', R1 w w' → R2 w w') → obeys R1 m → obeys R2 m.
Proof. intros Hi Hm w w' r Ew. destruct (Hm _ _ _ Ew). auto. Qed.

(** ** Triples

    From states where [P] holds an action does not panic; [Q] holds after a success and
    [X] after an error. *)
Definition triple {S E A} (P : S → Prop) (m : act S E A) (Q : A → S → Prop) (X : S → Prop) : Prop :=
  ∀ s s' r, P s → m s = (s', r) → match r with Ok a => Q a s' | Err _ => X s' | Panic => False end.

Section triples.
Context {S E : Type} (P X : S → Prop).
Abbreviation action := (act S E).

Lemma triple_ret {A} (a : A) (Q : A → S → Prop) : (∀ s, P s → Q a s) → triple P (mret a : action A) Q X.
Proof. intros H s s' r Hs [= <- <-]. by apply H. Qed.

Lemma triple_fail {A} (e : E) (Q : A → S → Prop) : (∀ s, P s → X s) → triple P (fail e : action A) Q X.
Proof. intros H s s' r Hs [= <- <-]. by apply H. Qed.

Lemma triple_lift {A} (o : outcome E A) (Q : A → S → Prop) :
  no_panic o → (∀ s, P s → X s) → (∀ a s, o = Ok a → P s → Q a s) → triple P (lift o : action A) Q X.
Proof. intros Ho HX HQ s s' r Hs [= <- <-]. destruct o as [a|e|]; [by apply HQ|by apply HX|done]. Qed.

Lemma triple_modify f (Q : S → Prop) : (∀ s, P s → Q (f s)) → triple P (modify f : action unit) (λ _, Q) X.
Proof. intros H s s' r Hs [= <- <-]. by apply H. Qed.

Lemma triple_bind {A B} (m : action A) (f : A → action B) (R : A → S → Prop) (Q : B → S → Prop) :
  triple P m R X → (∀ a, triple (R a) (f a) Q X) → triple P (m ≫= f) Q X.
Proof.
  intros Hm Hf s s' r Hs. unfold mbind, act_bind. destruct (m s) as [s1 [a|e|]] eqn:Em.
  - intros Hk. exact (Hf a s1 s' r (Hm _ _ _ Hs Em) Hk).
  - intros [= <- <-]. exact (Hm _ _ _ Hs Em).
  - intros [= <- <-]. exact (Hm _ _ _ Hs Em).
Qed.

(** A [get] in front: the rest runs with the state it read. *)
Lemma triple_get {B} (f : S → action B) (Q : B → S → Prop) : (∀ s0, P s0 → triple (λ s, s = s0 ∧ P s) (f s0) Q X) → triple P (get ≫= f) Q X.
Proof. intros Hf s s' r Hs. unfold mbind, act_bind, get. by apply Hf. Qed.

Lemma triple_lift_bind {A B} (o : outcome E A) (f : A → action B) (Q : B → S → Prop) :
  no_panic o → (∀ s, P s → X s) → (∀ a, o = Ok a → triple P (f a) Q X) → triple P (lift o ≫= f) Q X.
Proof.
  intros Ho HX Hf. eapply triple_bind; [apply (triple_lift o (λ a s, o = Ok a ∧ P s)); [done|done|by auto]|].
  intros a s s' r [Ha Hs] Hk. exact (Hf a Ha s s' r Hs Hk).
Qed.

(** State by state *)
Lemma triple_at {A} (m : action A) (Q : A → S → Prop) : (∀ s, P s → triple (λ x, x = s) m Q X) → triple P m Q X.
Proof. intros H s s' r Hs Hm. by apply (H s Hs s s' r). Qed.

(** A first step that is known. *)
Lemma triple_run {A B} (m : action A) (f : A → action B) (Q : B → S → Prop) s s1 a :
  m s = (s1, Ok a) → triple (λ x, x = s1) (f a) Q X → triple (λ x, x = s) (m ≫= f) Q X.
Proof. intros Hm Hf x s' r -> H. rewrite (act_bind_ok _ _ _ _ _ Hm) in H. by apply (Hf s1 s' r). Qed.
End triples.

Lemma triple_conseq {S E A} (P P' X X' : S → Prop) (m : act S E A) (Q Q' : A → S → Prop) :
  triple P m Q X → (∀ s, P' s → P s) → (∀ a s, Q a s → Q' a s) → (∀ s, X s → X' s) → triple P' m Q' X'.
Proof. intros Hm HP HQ HX s s' r Hs E1. specialize (Hm s s' r (HP s Hs) E1). destruct r; eauto. Qed.

(** ** Frames

    What an action does to the state however it ends, a panic included. *)
Definition always {S E A} (R : S → S → Prop) (m : act S E A) : Prop := ∀ s s' r, m s = (s', r) → R s s'.

Section frames.
Context {S E : Type} (R : S → S → Prop) `{!PreOrder R}.
Abbreviation action := (act S E).

Lemma always_ret {A} (a : A) : always R (mret a : action A).
Proof. by intros s s' r [= <- _]. Qed.

Lemma always_fail {A} (e : E) : always R (fail e : action A).
Proof. by intros s s' r [= <- _]. Qed.

Lemma always_get : always R (get : action S).
Proof. by intros s s' r [= <- _]. Qed.

Lemma always_lift {A} (o : outcome E A) : always R (lift o : action A).
Proof. by intros s s' r [= <- _]. Qed.

Lemma always_modify f : (∀ s, R s (f s)) → always R (modify f : action unit).
Proof. intros H s s' r [= <- _]. apply H. Qed.

Lemma always_bind {A B} (m : action A) (f : A → action B) : always R m → (∀ a, always R (f a)) → always R (m ≫= f).
Proof.
  intros Hm Hf s s' r [(s1 & a & E1 & E2)|[(e & E1 & _)|[E1 _]]]%act_bind_cases; [|by eapply Hm..].
  transitivity s1; [by eapply Hm|by eapply Hf].
Qed.

(** A [get] in front gives the state it read. *)
Lemma always_get_bind {B} (f : S → action B) : (∀ s s' r, f s s = (s', r) → R s s') → always R (get ≫= f).
Proof. intros H s s' r Hs. exact (H s s' r Hs). Qed.
End frames.

Create HintDb always discriminated.
#[export] Hint Resolve always_ret always_fail always_get always_lift always_modify : always.

(** An action composed of others, the frames of which are hints *)
Ltac frames := repeat first
  [ progress eauto with always typeclass_instances
  | apply always_bind; [typeclasses eauto| |intros ?]
  | apply always_modify; by intros ?
  | match goal with |- always _ (match ?x with _ => _ end) => destruct x end
  | match goal with |- always _ (if ?x then _ else _) => destruct x end ].

(** ** Partial triples

    Like [triple], where the action may also panic. *)
Definition ptriple {S E A} (P : S → Prop) (m : act S E A) (Q : A → S → Prop) (X : S → Prop) : Prop :=
  ∀ s s' r, P s → m s = (s', r) → match r with Ok a => Q a s' | Err _ => X s' | Panic => True end.

Section ptriples.
Context {S E : Type} (P X : S → Prop).
Abbreviation action := (act S E).

Lemma ptriple_ret {A} (a : A) (Q : A → S → Prop) : (∀ s, P s → Q a s) → ptriple P (mret a : action A) Q X.
Proof. intros H s s' r Hs [= <- <-]. by apply H. Qed.

Lemma ptriple_fail {A} (e : E) (Q : A → S → Prop) : (∀ s, P s → X s) → ptriple P (fail e : action A) Q X.
Proof. intros H s s' r Hs [= <- <-]. by apply H. Qed.

Lemma ptriple_modify f (Q : S → Prop) : (∀ s, P s → Q (f s)) → ptriple P (modify f : action unit) (λ _, Q) X.
Proof. intros H s s' r Hs [= <- <-]. by apply H. Qed.

Lemma ptriple_bind {A B} (m : action A) (f : A → action B) (R : A → S → Prop) (Q : B → S → Prop) :
  ptriple P m R X → (∀ a, ptriple (R a) (f a) Q X) → ptriple P (m ≫= f) Q X.
Proof.
  intros Hm Hf s s' r Hs [(s1 & a & E1 & E2)|[(e & E1 & ->)|[_ ->]]]%act_bind_cases; [|exact (Hm _ _ _ Hs E1)|done].
  exact (Hf a s1 s' r (Hm _ _ _ Hs E1) E2).
Qed.

Lemma ptriple_get {B} (f : S → action B) (Q : B → S → Prop) : (∀ s0, ptriple (λ s, s = s0 ∧ P s) (f s0) Q X) → ptriple P (get ≫= f) Q X.
Proof. intros Hf s s' r Hs E1. by apply (Hf s s s' r). Qed.
End ptriples.

Lemma ptriple_conseq {S E A} (P P' X X' : S → Prop) (m : act S E A) (Q Q' : A → S → Prop) :
  ptriple P m Q X → (∀ s, P' s → P s) → (∀ a s, Q a s → Q' a s) → (∀ s, X s → X' s) → ptriple P' m Q' X'.
Proof. intros Hm HP HQ HX s s' r Hs E1. specialize (Hm s s' r (HP s Hs) E1). destruct r; eauto. Qed.

Lemma ptriple_of_triple {S E A} (P X : S → Prop) (m : act S E A) (Q : A → S → Prop) : triple P m Q X → ptriple P m Q X.
Proof. intros Hm s s' r Hs E1. specialize (Hm s s' r Hs E1). by destruct r. Qed.

(** *** Either: [total] says that a panic is excluded. *)
Definition judged {S E A} (total : bool) (P : S → Prop) (m : act S E A) (Q : A → S → Prop) (X : S → Prop) : Prop :=
  if total then triple P m Q X else ptriple P m Q X.

Lemma judged_of_triple {S E A} total (P X : S → Prop) (m : act S E A) (Q : A → S → Prop) : triple P m Q X → judged total P m Q X.
Proof. destruct total; [done|apply ptriple_of_triple]. Qed.

Lemma judged_bind {S E A B} total (P X : S → Prop) (m : act S E A) (f : A → act S E B) (R : A → S → Prop) (Q : B → S → Prop) :
  triple P m R X → (∀ a, judged total (R a) (f a) Q X) → judged total P (m ≫= f) Q X.
Proof. destruct total; [apply triple_bind|]. intros Hm. by apply ptriple_bind, ptriple_of_triple. Qed.

Lemma judged_at {S E A} total (P X : S → Prop) (m : act S E A) (Q : A → S → Prop) : (∀ s, P s → judged total (λ x, x = s) m Q X) → judged total P m Q X.
Proof. destruct total; intros H s s' r Hs Hm; exact (H s Hs s s' r eq_refl Hm). Qed.

Lemma judged_run {S E A B} total (X : S → Prop) (m : act S E A) (f : A → act S E B) (Q : B → S → Prop) s s1 a :
  m s = (s1, Ok a) → judged total (λ x, x = s1) (f a) Q X → judged total (λ x, x = s) (m ≫= f) Q X.
Proof. destruct total; intros Hm Hf x s' r -> H; rewrite (act_bind_ok _ _ _ _ _ Hm) in H; exact (Hf s1 s' r eq_refl H). Qed.

Lemma judged_get {S E B} total (P X : S → Prop) (f : S → act S E B) (Q : B → S → Prop) : (∀ s0, P s0 → judged total (λ s, s = s0 ∧ P s) (f s0) Q X) → judged total P (get ≫= f) Q X.
Proof. destruct total; intros Hf s s' r Hs H; exact (Hf s Hs s s' r (conj eq_refl Hs) H). Qed.

(** ** Reading: [AsyncReadExt::read_exact]

    What is still to come, and the failure that ends the stream where it does not just
    end. *)
Inductive io_error := UnexpectedEof | OtherError (e : string).
Record input := { pending : bytes; broken : option string }.

Definition ended_by (i : input) : io_error := match broken i with None => UnexpectedEof | Some e => OtherError e end.

Definition read_exactly (n : nat) : act input io_error bytes := λ i,
  if n <=? length (pending i) then
    ({| pending := drop n (pending i); broken := broken i |}, Ok (take n (pending i)))
  else ({| pending := []; broken := broken i |}, Err (ended_by i)).

Definition map_err {S E F A} (f : E → F) (m : act S E A) : act S F A := λ s,
  match m s with
  | (s', Ok a) => (s', Ok a)
  | (s', Err e) => (s', Err (f e))
  | (s', Panic) => (s', Panic)
  end.

Lemma read_exactly_app l rest b : read_exactly (length l) {| pending := l ++ rest; broken := b |} = ({| pending := rest; broken := b |}, Ok l).
Proof.
  unfold read_exactly. cbn. rewrite length_app. destruct (Nat.leb_spec (length l) (length l + length rest)); [|lia].
  by rewrite drop_app_length, take_app_length.
Qed.

Lemma read_exactly_n n l rest b : length l = n → read_exactly n {| pending := l ++ rest; broken := b |} = ({| pending := rest; broken := b |}, Ok l).
Proof. intros <-. apply read_exactly_app. Qed.

Lemma read_exactly_short n i : length (pending i) < n → read_exactly n i = ({| pending := []; broken := broken i |}, Err (ended_by i)).
Proof. intros H. unfold read_exactly. destruct (Nat.leb_spec n (length (pending i))); [lia|done]. Qed.

Lemma map_err_inv {S E F A} (f : E → F) (m : act S E A) s s' r : map_err f m s = (s', r) → ∃ r0, m s = (s', r0) ∧
  r = match r0 with Ok a => Ok a | Err e => Err (f e) | Panic => Panic end.
Proof. unfold map_err. destruct (m s) as [s1 [a|e|]]; intros [= <- <-]; by eexists. Qed.

Lemma obeys_map_err {S E F A} (R : S → S → Prop) (f : E → F) (m : act S E A) : obeys R m → obeys R (map_err f m).
Proof. intros Hm s s' r (r0 & E0 & ->)%map_err_inv. destruct (Hm _ _ _ E0) as [HR Hp]. split; [done|]. by destruct r0. Qed.

Lemma map_err_ok {S E F A} (f : E → F) (m : act S E A) s s' a : m s = (s', Ok a) → map_err f m s = (s', Ok a).
Proof. intros H. unfold map_err. by rewrite H. Qed.

(** ** Copying

    [reads] are the buffers that [read] returns before it returns 0 or fails. *)
Record source := { reads : list bytes; source_broken : option string }.

(** A sink accepts [budget] more writes, or all of them; what it got, write by write. *)
Record sink := { written : list bytes; budget : option nat; shut : bool }.

Definition new_sink (b : option nat) : sink := {| written := []; budget := b; shut := false |}.
Definition sent (s : sink) : bytes := List.concat (written s).

(** [write_all] *)
Definition write_all {E} (e : E) (l : bytes) : act sink E unit := λ s,
  match budget s with
  | Some 0 => (s, Err e)
  | Some (S n) => ({| written := written s ++ [l]; budget := Some n; shut := shut s |}, Ok tt)
  | None => ({| written := written s ++ [l]; budget := None; shut := shut s |}, Ok tt)
  end.

(** [shutdown] *)
Definition shutdown {E} (e : E) : act sink E unit := λ s,
  match budget s with
  | Some 0 => (s, Err e)
  | _ => ({| written := written s; budget := budget s; shut := true |}, Ok tt)
  end.

Definition open_sink (s : sink) : Prop := budget s = None.

Lemma write_all_open {E} (e : E) l s : open_sink s →
  write_all e l s = ({| written := written s ++ [l]; budget := None; shut := shut s |}, Ok tt).
Proof. unfold open_sink, write_all. by intros ->. Qed.

Lemma sent_app s l b c : sent {| written := written s ++ [l]; budget := b; shut := c |} = sent s ++ l.
Proof. unfold sent. cbn. rewrite concat_app. cbn. by rewrite app_nil_r. Qed.

(** ** [tokio::try_join!] of two directions that share no state

    Both succeed, or the error that came first is returned. *)
Definition try_join {E A B} (second_first : bool) (a : outcome E A) (b : outcome E B) : outcome E (A * B) :=
  match a, b with
  | Panic, _ | _, Panic => Panic
  | Ok x, Ok y => Ok (x, y)
  | Err e, Err f => Err (if second_first then f else e)
  | Err e, _ => Err e
  | _, Err f => Err f
  end.
