(* ===== verification/HostFiles.v ===== *)
(** * HostFiles: the file system and the commands of the host

    What [std::fs], [std::path] and [std::process] give to [crates/dynet-service]: nodes
    at paths, calls that can fail, and a runner of commands, which is a parameter
    ([runner.rs], trait [ServiceRunner]). *)
From Stdlib Require Import ZArith Lia Ascii String Strings.Byte.
From stdpp Require Import base list numbers option strings gmap.
From S2P Require Import Prelude Net RustStd Wire.
Local Open Scope string_scope.

(** ** [std::path::Path]

    A path is looked up by its components: empty ones and [.] do not count. *)
Definition is_absolute (p : string) : bool := starts_with p "/".
Definition counts (c : string) : bool := negb (is_empty c) && negb (String.eqb c ".").
Definition components (p : string) : list string := List.filter counts (split "/" p).

Definition FileKey : Type := bool * list string.
Definition key (p : string) : FileKey := (is_absolute p, components p).

Definition parent (p : string) : option FileKey :=
  match components p with [] => None | cs => Some (is_absolute p, removelast cs) end.
Definition file_name (p : string) : option string :=
  match last (components p) with Some c => if String.eqb c ".." then None else Some c | None => None end.

(** [Path::join] on a name that is not absolute. *)
Definition join_key (k : FileKey) (name : string) : FileKey := (k.1, (k.2 ++ [name])%list).
Definition join (p name : string) : string :=
  if is_empty p then name else if ends_with p "/" then p ++ name else p ++ "/" ++ name.
Definition display (k : FileKey) : string := (if k.1 then "/" else "") ++ String.concat "/" k.2.

(** ** Text *)
Definition lf : ascii := "010".
Definition cr : ascii := "013".
Definition nl : string := String lf "".
Definition dq : string := String "034" "".

(** [str::lines]: a carriage return before a line feed is dropped, and there is no line after
    the last line feed. *)
Definition strip_cr (l : string) : string :=
  if ends_with l (String cr "") then String.substring 0 (String.length l - 1) l else l.
Fixpoint line_list (pieces : list string) : list string :=
  match pieces with
  | [] => []
  | [p] => if is_empty p then [] else [p]
  | p :: r => strip_cr p :: line_list r
  end.
Definition lines (s : string) : list string := line_list (split lf s).

Lemma prefix_app p s : String.prefix p (p ++ s) = true.
Proof. induction p as [|c p IH]; [by destruct s|]. change (String c p ++ s) with (String c (p ++ s)). cbn. destruct (ascii_dec c c); [done|done]. Qed.

(** ** Nodes and calls

    A node that is neither a regular file nor a directory (a symbolic link, a device) is
    known by what following it finds. *)
Inductive followed := ToFile | ToDirectory | ToDevice | ToNothing.
Inductive Node := Regular (content : string) (mode : Z) | Directory | Special (to : followed).

(** The next calls that fail: the error, and how much a write has written before. *)
Record Fault := { fault_text : string; fault_written : nat }.
Abbreviation Files := (gmap FileKey Node).

Record Machine (H : Type) := mk_machine { files : Files; host : H }.
Arguments mk_machine {H} _ _.
Arguments files {H} _.
Arguments host {H} _.

Record World (H : Type) := mk_world { machine : Machine H; faults : list (option Fault) }.
Arguments mk_world {H} _ _.
Arguments machine {H} _.
Arguments faults {H} _.

Record CommandOutput := { success : bool; stdout : string; stderr : string }.

(** Reading and writing through a node that is not a regular file, which the tree does not hold. *)
Class LinkedFiles (H : Type) := {
  linked_read : FileKey → Machine H → string + string;
  linked_write : FileKey → string → Machine H → Machine H * (string + unit) }.

(** [ServiceRunner]: commands can change anything on the host. *)
Class ServiceRunner (H : Type) := {
  run_command : string → list string → Machine H → Machine H * (string + CommandOutput);
  stream_command : string → list string → Machine H → Machine H * (string + unit) }.

Section host.
Context {H : Type}.

Abbreviation service := (act (World H) string).

Definition tree (w : World H) : Files := files (machine w).
Definition set_tree (w : World H) (t : Files) : World H := mk_world (mk_machine t (host (machine w))) (faults w).

(** Whether the next call fails. *)
Definition next_fault : service (option Fault) := λ w,
  match faults w with
  | f :: r => (mk_world (machine w) r, Ok f)
  | [] => (w, Ok None)
  end.

Definition fs_call {A} (describe : string → string) (m : service A) : service A :=
  f ← next_fault;
  match f with Some x => fail (describe (fault_text x)) | None => m end.

(** [Path::is_dir], [Path::is_file]: an error is [false]. *)
Definition is_dir (k : FileKey) : service bool :=
  f ← next_fault; w ← get;
  mret match f, tree w !! k with None, Some (Directory | Special ToDirectory) => true | _, _ => false end.
Definition is_file (k : FileKey) : service bool :=
  f ← next_fault; w ← get;
  mret match f, tree w !! k with None, Some (Regular _ _ | Special ToFile) => true | _, _ => false end.

(** Reading calls leave the machine as it is. *)
Definition reads_only (w w' : World H) : Prop := machine w' = machine w.
#[export] Instance reads_only_pre : PreOrder reads_only.
Proof. split; [done|]. intros a b c Hab Hbc. unfold reads_only in *. congruence. Qed.

Lemma obeys_next_fault : obeys reads_only next_fault.
Proof. intros w w' r. unfold next_fault. destruct (faults w); intros [= <- <-]; done. Qed.

Lemma obeys_is_dir k : obeys reads_only (is_dir k).
Proof. unfold is_dir. apply obeys_bind; [apply _|apply obeys_next_fault|intros f]. apply obeys_bind; [apply _|by apply obeys_get, _|intros w]. apply obeys_ret, _. Qed.

Lemma obeys_is_file k : obeys reads_only (is_file k).
Proof. unfold is_file. apply obeys_bind; [apply _|apply obeys_next_fault|intros f]. apply obeys_bind; [apply _|by apply obeys_get, _|intros w]. apply obeys_ret, _. Qed.

Lemma next_fault_inv w w' r : next_fault w = (w', r) → machine w' = machine w ∧ ∃ f, r = Ok f.
Proof. unfold next_fault. destruct (faults w); intros [= <- <-]; split; by try eexists. Qed.

(** A call fails before it does anything, or takes place. *)
Lemma fs_call_inv {A} describe (m : service A) w w' r : fs_call describe m w = (w', r) →
  (machine w' = machine w ∧ ∃ e, r = Err e) ∨ ∃ w1, machine w1 = machine w ∧ m w1 = (w', r).
Proof.
  unfold fs_call, mbind, act_bind. destruct (next_fault w) as [w1 o] eqn:E. apply next_fault_inv in E as [Em [f ->]].
  destruct f as [x|]; [intros [= <- <-]; left; eauto|]. right. by exists w1.
Qed.

Lemma obeys_fs_call {A} (R : World H → World H → Prop) `{!PreOrder R} describe (m : service A) :
  (∀ w w', reads_only w w' → R w w') → obeys R m → obeys R (fs_call describe m).
Proof.
  intros Hi Hm. unfold fs_call. apply obeys_bind; [done| |].
  - intros w w' r E. destruct (obeys_next_fault _ _ _ E). auto.
  - intros [x|]; [by apply obeys_fail|done].
Qed.

Definition put (k : FileKey) (n : Node) : service unit := modify (λ w, set_tree w (<[k := n]> (tree w))).
Definition unlink (k : FileKey) : service unit := modify (λ w, set_tree w (delete k (tree w))).

(** [fs::remove_file] *)
Definition remove_file (k : FileKey) (describe : string → string) : service unit :=
  fs_call describe
    (w ← get;
     match tree w !! k with
     | None => fail (describe "No such file or directory (os error 2)")
     | Some Directory => fail (describe "Is a directory (os error 21)")
     | Some _ => unlink k
     end).

Lemma tree_machine w w' : machine w' = machine w → tree w' = tree w.
Proof. unfold tree. by intros ->. Qed.

(** [Path::exists]: an error is [false]. *)
Definition path_exists (k : FileKey) : service bool :=
  f ← next_fault; w ← get;
  mret match f, tree w !! k with None, Some (Regular _ _ | Directory | Special (ToFile | ToDirectory | ToDevice)) => true | _, _ => false end.

(** What an absent file gives to a call that needs one. *)
Definition not_found : string := "No such file or directory (os error 2)".

(** What is above a path: the root and the working directory are directories. *)
Definition node_above (t : Files) (k : FileKey) : option Node :=
  match k.2 with [] | [_] => Some Directory | cs => t !! (k.1, removelast cs) end.

(** [fs::read_to_string] *)
Inductive read_result := Content (text : string) | NotFound | ReadError (e : string).
Definition read_text (content : string) : read_result :=
  if utf8_valid (list_byte_of_string content) then Content content else ReadError "stream did not contain valid UTF-8".
Definition read_to_string `{!LinkedFiles H} (k : FileKey) : service read_result :=
  f ← next_fault; w ← get;
  mret match f, tree w !! k with
    | Some x, _ => ReadError (fault_text x)
    | None, (None | Some (Special ToNothing)) => NotFound
    | None, Some (Directory | Special ToDirectory) => ReadError "Is a directory (os error 21)"
    | None, Some (Regular content _) => read_text content
    | None, Some (Special _) => match linked_read k (machine w) with inl e => ReadError e | inr content => read_text content end
    end.

(** [fs::write]: a failing one can have truncated the file and written some of it. *)
Definition write_body (describe : string → string) (k : FileKey) (content : string) (mode : Z) : service unit :=
  _ ← put k (Regular "" mode);
  f ← next_fault;
  match f with
  | Some x => _ ← put k (Regular (String.substring 0 (fault_written x) content) mode); fail (describe (fault_text x))
  | None => put k (Regular content mode)
  end.
Definition fs_write `{!LinkedFiles H} (creation_mode : Z) (describe : string → string) (k : FileKey) (content : string) : service unit :=
  fs_call describe
    (w ← get;
     match tree w !! k with
     | Some (Regular _ mode) => write_body describe k content mode
     | Some (Directory | Special ToDirectory) => fail (describe "Is a directory (os error 21)")
     | Some (Special _) => λ w, let '(m, r) := linked_write k content (machine w) in
         (mk_world m (faults w), match r with inl e => Err (describe e) | inr _ => Ok tt end)
     | None =>
         match node_above (tree w) k with
         | Some (Directory | Special ToDirectory) => write_body describe k content creation_mode
         | None | Some (Special ToNothing) => fail (describe not_found)
         | Some _ => fail (describe "Not a directory (os error 20)")
         end
     end).

(** [mkdir]: [inl] is the error, where none of the text means that there is no parent. *)
Definition mkdir (k : FileKey) : service (option string + unit) :=
  f ← next_fault; w ← get;
  match f, tree w !! k, node_above (tree w) k with
  | Some x, _, _ => mret (inl (Some (fault_text x)))
  | None, Some _, _ => mret (inl (Some "File exists (os error 17)"))
  | None, None, Some (Directory | Special ToDirectory) => _ ← put k Directory; mret (inr tt)
  | None, None, (None | Some (Special ToNothing)) => mret (inl None)
  | None, None, Some (Regular _ _ | Special (ToFile | ToDevice)) => mret (inl (Some "Not a directory (os error 20)"))
  end.

(** [DirBuilder::create_dir_all], by the components from the last one. *)
Fixpoint create_dirs (describe : string → string) (absolute : bool) (rcs : list string) : service unit :=
  match rcs with
  | [] => mret tt
  | _ :: above =>
      let k := (absolute, rev rcs) in
      let accept e := b ← is_dir k; if b : bool then mret tt else fail (describe (default not_found e)) in
      r ← mkdir k;
      match r with
      | inr _ => mret tt
      | inl None => _ ← create_dirs describe absolute above; r' ← mkdir k; match r' with inr _ => mret tt | inl e => accept e end
      | inl (Some e) => accept (Some e)
      end
  end.
Definition create_dir_all (describe : string → string) (k : FileKey) : service unit := create_dirs describe k.1 (rev k.2).

Lemma tree_set w t : tree (set_tree w t) = t.
Proof. done. Qed.

Lemma remove_file_spec t describe w w' r : remove_file t describe w = (w', r) →
  host (machine w') = host (machine w) ∧
  match r with
  | Ok _ => tree w' = delete t (tree w)
  | Err _ => tree w' = tree w
  | Panic => False
  end.
Proof.
  intros [[E [e ->]]|(w1 & E & Hw)]%fs_call_inv; [rewrite E; split; [done|by apply tree_machine]|].
  rewrite <- (tree_machine _ _ E), <- E. unfold mbind, act_bind, get in Hw. destruct (tree w1 !! t) as [[]|]; injection Hw as <- <-; done.
Qed.

End host.
