(* ===== verification/AeadStream.v ===== *)
(** * AeadStream: streams of sealed chunks

    The struct [AeadStream] of [aead2017.rs] and [aead2022.rs] of
    [prototype/shadowsocks/src]: a length and a payload, each sealed under the next
    nonce. The two files differ in the texts of their errors and in the bounds, which
    are the parameters here. The cipher is a parameter with the contract of an AEAD. *)
From Stdlib Require Import ZArith Lia Strings.Byte Ascii String.
From stdpp Require Import base list numbers option strings.
From S2P Require Import Prelude Wire.
Local Open Scope nat_scope.

Definition TAG_SIZE : nat := 16.
Definition NONCE_SIZE : nat := 12.

(** ** The contract of a cipher: key, nonce, associated data and text *)
Class Aead := {
  seal : bytes → bytes → bytes → bytes → option bytes;
  unseal : bytes → bytes → bytes → bytes → option bytes }.

Class AeadLaws (A : Aead) : Prop := {
  unseal_seal k n a m c : seal k n a m = Some c → unseal k n a c = Some m;
  seal_length k n a m c : seal k n a m = Some c → length c = length m + TAG_SIZE;
  unseal_length k n a c m : unseal k n a c = Some m → length c = length m + TAG_SIZE }.

(** ** Nonces: little-endian counters *)
Fixpoint increment_nonce (n : bytes) : bytes :=
  match n with
  | [] => []
  | b :: rest =>
      let next := z2b (b2z b + 1) in
      if (b2z b =? 255)%Z then next :: increment_nonce rest else next :: rest
  end.

Definition zero_nonce : bytes := replicate NONCE_SIZE x00.

Fixpoint from_le (l : bytes) : Z :=
  match l with [] => 0%Z | b :: l => (b2z b + 256 * from_le l)%Z end.

Lemma length_increment n : length (increment_nonce n) = length n.
Proof. induction n as [|b n IH]; cbn; [done|]. destruct (b2z b =? 255)%Z; cbn; lia. Qed.

Lemma from_le_range l : (0 ≤ from_le l < 256 ^ Z.of_nat (length l))%Z.
Proof.
  induction l as [|b l IH]; [done|]. cbn [from_le length]. pose proof (b2z_range b).
  rewrite Nat2Z.inj_succ, Z.pow_succ_r by lia. nia.
Qed.

Lemma from_le_inj a b : length a = length b → from_le a = from_le b → a = b.
Proof.
  revert b. induction a as [|x a IH]; intros [|y b] Hl H; try done. cbn [from_le length] in *.
  pose proof (b2z_range x). pose proof (b2z_range y). assert (b2z x = b2z y ∧ from_le a = from_le b) as [Hx Ha] by lia.
  f_equal; [rewrite <- (z2b_b2z x), Hx; apply z2b_b2z|]. apply IH; [lia|done].
Qed.

Lemma from_le_increment n : from_le (increment_nonce n) = ((from_le n + 1) mod 256 ^ Z.of_nat (length n))%Z.
Proof.
  induction n as [|b n IH]; [done|]. cbn [increment_nonce length]. pose proof (b2z_range b). pose proof (from_le_range n) as Hr.
  rewrite Nat2Z.inj_succ, Z.pow_succ_r by lia. set (p := (256 ^ Z.of_nat (length n))%Z) in *. assert (0 < p)%Z by (subst p; lia).
  destruct (Z.eqb_spec (b2z b) 255) as [Hb|Hb]; cbn [from_le].
  - rewrite IH, b2z_z2b, Hb. change ((255 + 1) mod 256)%Z with 0%Z.
    replace (255 + 256 * from_le n + 1)%Z with (256 * (from_le n + 1))%Z by lia. rewrite Z.mul_mod_distr_l by lia. lia.
  - rewrite b2z_z2b, (Z.mod_small (b2z b + 1)) by lia. rewrite Z.mod_small; nia.
Qed.

Lemma iter_increment i n :
  length (Nat.iter i increment_nonce n) = length n ∧
  from_le (Nat.iter i increment_nonce n) = ((from_le n + Z.of_nat i) mod 256 ^ Z.of_nat (length n))%Z.
Proof.
  induction i as [|i [IHl IH]].
  - split; [done|]. cbn [Nat.iter]. rewrite Z.add_0_r. symmetry. apply Z.mod_small, from_le_range.
  - rewrite Nat.iter_succ. split; [by rewrite length_increment|]. rewrite from_le_increment, IHl, IH.
    rewrite Zplus_mod_idemp_l. f_equal. lia.
Qed.

(** Within the first 2^96 increments no nonce comes back. *)
Lemma increments_distinct n i j :
  length n = NONCE_SIZE → (Z.of_nat i < 2 ^ 96)%Z → (Z.of_nat j < 2 ^ 96)%Z →
  Nat.iter i increment_nonce n = Nat.iter j increment_nonce n → i = j.
Proof.
  intros Hn Hi Hj H. destruct (iter_increment i n) as [_ H1]. destruct (iter_increment j n) as [_ H2].
  rewrite Hn in *. change (256 ^ Z.of_nat NONCE_SIZE)%Z with (2 ^ 96)%Z in *. rewrite H in H1.
  assert ((from_le n + Z.of_nat i) mod 2 ^ 96 = (from_le n + Z.of_nat j) mod 2 ^ 96)%Z as Hm by congruence.
  assert ((Z.of_nat i - Z.of_nat j) mod 2 ^ 96 = 0)%Z as Hd.
  { replace (Z.of_nat i - Z.of_nat j)%Z with ((from_le n + Z.of_nat i) - (from_le n + Z.of_nat j))%Z by lia.
    rewrite Zminus_mod, Hm, Z.sub_diag. done. }
  apply Z.mod_divide in Hd as [q Hq]; [|lia]. assert (q = 0)%Z by nia. lia.
Qed.

(** ** The stream *)
Record AeadStream := { cipher : bytes; nonce : bytes }.

Section stream.
Context `{Aead} (label : string) (send_limit : nat) (receive_limit : option nat).

Definition crypto_error (text : string) : Error := mk_error "outbound-crypto" (label ++ text).

Definition advance_nonce (s : AeadStream) : AeadStream := {| cipher := cipher s; nonce := increment_nonce (nonce s) |}.

Definition encrypt (p : bytes) : act AeadStream Error bytes := λ s,
  match seal (cipher s) (nonce s) [] p with
  | Some c => (advance_nonce s, Ok c)
  | None => (s, Err (crypto_error " AEAD encrypt failed: {error:?}"))
  end.

Definition decrypt (c : bytes) : act AeadStream Error bytes := λ s,
  match unseal (cipher s) (nonce s) [] c with
  | Some p => (advance_nonce s, Ok p)
  | None => (s, Err (crypto_error " AEAD decrypt failed: {error:?}"))
  end.

Definition encrypt_chunk (payload : bytes) : act AeadStream Error bytes :=
  if send_limit <? length payload then fail (crypto_error " TCP chunk exceeds {TCP_CHUNK_LIMIT} bytes")
  else
    l ← encrypt (to_be 2 (Z.of_nat (length payload)));
    p ← encrypt payload;
    mret (l ++ p).

Definition read_error (what : string) (_ : io_error) : Error :=
  mk_error "outbound-read" ("failed reading " ++ label ++ what ++ ": {error}").

(** The sealed length; the end of the stream is not an error here. *)
Definition read_length : act input Error (option bytes) := λ i,
  match read_exactly (2 + TAG_SIZE) i with
  | (i', Ok c) => (i', Ok (Some c))
  | (i', Err UnexpectedEof) => (i', Ok None)
  | (i', Err e) => (i', Err (read_error " TCP length chunk" e))
  | (i', Panic) => (i', Panic)
  end.

Definition read_payload_chunk (size : nat) : act (AeadStream * input) Error bytes :=
  c ← on_snd (map_err (read_error " TCP payload chunk") (read_exactly (size + TAG_SIZE)));
  on_fst (decrypt c).

Definition over_limit (size : nat) : bool := match receive_limit with Some n => n <? size | None => false end.

Definition decrypt_chunk : act (AeadStream * input) Error (option bytes) :=
  o ← on_snd read_length;
  match o with
  | None => mret None
  | Some c =>
      l ← on_fst (decrypt c);
      if negb (length l =? 2) then fail (mk_error "outbound-crypto" ("invalid " ++ label ++ " TCP length chunk"))
      else
        a ← lift (index l 0); b ← lift (index l 1);
        let size := Z.to_nat (from_be [a; b]) in
        if over_limit size then fail (crypto_error " TCP payload length exceeds limit")
        else p ← read_payload_chunk size; mret (Some p)
  end.

(** ** The two directions of a relay *)
Fixpoint client_loop (rs : list bytes) (broken : option string) (total : Z) : act (AeadStream * sink) Error Z :=
  match rs with
  | [] =>
      match broken with
      | Some _ => fail (mk_error "inbound-read" "failed reading TCP downstream: {error}")
      | None =>
          _ ← on_snd (shutdown (mk_error "outbound-write" ("failed shutting down " ++ label ++ " TCP writer: {error}")));
          mret total
      end
  | p :: rs =>
      packet ← on_fst (encrypt_chunk p);
      _ ← on_snd (write_all (mk_error "outbound-write" ("failed writing " ++ label ++ " TCP chunk: {error}")) packet);
      client_loop rs broken (total + Z.of_nat (length p))
  end.
Definition client_to_upstream (downstream : source) : act (AeadStream * sink) Error Z :=
  client_loop (reads downstream) (source_broken downstream) 0.

(** Every chunk takes at least the eighteen bytes of its length, so the bytes that are
    pending bound the rounds; out of fuel counts as a panic. *)
Fixpoint server_loop (fuel : nat) (total : Z) : act (AeadStream * input * sink) Error Z :=
  match fuel with
  | O => lift Panic
  | S fuel =>
      o ← on_fst decrypt_chunk;
      match o with
      | None => mret total
      | Some payload =>
          _ ← on_snd (write_all (mk_error "inbound-write" "failed writing TCP downstream: {error}") payload);
          server_loop fuel (total + Z.of_nat (length payload))
      end
  end.
Definition read_chunks (total : Z) : act (AeadStream * input * sink) Error Z := λ st,
  server_loop (S (length (pending st.1.2))) total st.

(** ** What a writer sends, a reader gets *)
Fixpoint encrypt_all (ps : list bytes) : act AeadStream Error bytes :=
  match ps with
  | [] => mret []
  | p :: ps => c ← encrypt_chunk p; cs ← encrypt_all ps; mret (c ++ cs)
  end.

(** What a reader delivers from the first [n] bytes of the chunks of [ps], and whether it
    then stops without an error. *)
Fixpoint delivered (n : nat) (ps : list bytes) : list bytes * bool :=
  match ps with
  | [] => ([], true)
  | p :: ps =>
      if n <? 2 + TAG_SIZE then ([], true)
      else if n <? 2 + TAG_SIZE + (length p + TAG_SIZE) then ([], false)
      else let '(l, clean) := delivered (n - (2 + TAG_SIZE + (length p + TAG_SIZE))) ps in (p :: l, clean)
  end.

Definition total_length (ps : list bytes) : Z := Z.of_nat (length (List.concat ps)).

Lemma encrypt_inv s p s' c : encrypt p s = (s', Ok c) → seal (cipher s) (nonce s) [] p = Some c ∧ s' = advance_nonce s.
Proof. unfold encrypt. destruct (seal _ _ _ _) as [x|] eqn:E; [|done]. by intros [= <- <-]. Qed.

Lemma encrypt_all_inv p ps s s' out : encrypt_all (p :: ps) s = (s', Ok out) →
  ∃ s1 c cs, encrypt_chunk p s = (s1, Ok c) ∧ encrypt_all ps s1 = (s', Ok cs) ∧ out = (c ++ cs)%list.
Proof.
  cbn [encrypt_all]. intros (s1 & c & Hc & (s2 & cs & Hcs & [= <- <-])%act_bind_inv)%act_bind_inv. by exists s1, c, cs.
Qed.

Lemma encrypt_chunk_inv (p : bytes) s s' (out : bytes) : encrypt_chunk p s = (s', Ok out) →
  ∃ l c, out = (l ++ c)%list ∧ length p ≤ send_limit ∧ s' = advance_nonce (advance_nonce s) ∧
    seal (cipher s) (nonce s) [] (to_be 2 (Z.of_nat (length p))) = Some l ∧
    seal (cipher s) (increment_nonce (nonce s)) [] p = Some c.
Proof.
  unfold encrypt_chunk. destruct (Nat.ltb_spec send_limit (length p)) as [|Hp]; [done|].
  intros (s1 & l & [Hl ->]%encrypt_inv & (s2 & c & [Hc ->]%encrypt_inv & [= <- <-])%act_bind_inv)%act_bind_inv. by exists l, c.
Qed.

Context {Laws : AeadLaws H}.
Hypothesis limit_u16 : (Z.of_nat send_limit ≤ 65535)%Z.
Hypothesis limits : over_limit send_limit = false.

Lemma under_limit n : n ≤ send_limit → over_limit n = false.
Proof.
  revert limits. unfold over_limit. destruct receive_limit; [|done]. rewrite !Nat.ltb_ge. lia.
Qed.

Lemma decrypt_seal s p c : seal (cipher s) (nonce s) [] p = Some c → decrypt c s = (advance_nonce s, Ok p).
Proof. intros Hc. unfold decrypt. by rewrite (unseal_seal _ _ _ _ _ Hc). Qed.

Lemma read_payload_sealed s (p c rest : bytes) b : seal (cipher s) (nonce s) [] p = Some c →
  read_payload_chunk (length p) (s, {| pending := c ++ rest; broken := b |}) = ((advance_nonce s, {| pending := rest; broken := b |}), Ok p).
Proof.
  intros Hc. unfold read_payload_chunk.
  rewrite (act_bind_ok _ _ _ (s, {| pending := rest; broken := b |}) c).
  - unfold on_fst. by rewrite (decrypt_seal _ _ _ Hc).
  - unfold on_snd. erewrite map_err_ok; [done|]. by apply read_exactly_n, (seal_length _ _ _ _ _ Hc).
Qed.

(** What [decrypt_chunk] does once the sealed length is there. *)
Lemma decrypt_chunk_length s (p l rest : bytes) b :
  length p ≤ send_limit → seal (cipher s) (nonce s) [] (to_be 2 (Z.of_nat (length p))) = Some l →
  decrypt_chunk (s, {| pending := l ++ rest; broken := b |}) =
    (p' ← read_payload_chunk (length p); mret (Some p')) (advance_nonce s, {| pending := rest; broken := b |}).
Proof.
  intros Hp Hl. unfold decrypt_chunk.
  rewrite (act_bind_ok _ _ _ (s, {| pending := rest; broken := b |}) (Some l)).
  2: { unfold on_snd, read_length. pose proof (seal_length _ _ _ _ _ Hl) as Hn. rewrite length_to_be in Hn. by rewrite (read_exactly_n _ l rest b Hn). }
  rewrite (act_bind_ok _ _ _ (advance_nonce s, {| pending := rest; broken := b |}) (to_be 2 (Z.of_nat (length p)))).
  2: { unfold on_fst. by rewrite (decrypt_seal _ _ _ Hl). }
  rewrite length_to_be. pose proof (from_be_to_be_u16 (Z.of_nat (length p))) as Hf. pose proof (length_to_be 2 (Z.of_nat (length p))) as Hn.
  revert Hf Hn. generalize (to_be 2 (Z.of_nat (length p))). intros [|x [|y [|]]] Hf; try done. intros _.
  cbn [Nat.eqb negb]. unfold lift, mbind, act_bind. cbn [index lookup list_lookup expect].
  rewrite Hf, Nat2Z.id by (split; [lia|change (2 ^ 16)%Z with 65536%Z; lia]). by rewrite under_limit.
Qed.

Lemma decrypt_encrypted p s s' c rest b : encrypt_chunk p s = (s', Ok c) →
  decrypt_chunk (s, {| pending := c ++ rest; broken := b |}) = ((s', {| pending := rest; broken := b |}), Ok (Some p)).
Proof.
  intros (l & d & -> & Hp & -> & Hl & Hd)%encrypt_chunk_inv. rewrite <- app_assoc, (decrypt_chunk_length _ p) by done.
  erewrite act_bind_ok; [|by apply read_payload_sealed]. done.
Qed.

Lemma decrypt_cut (p : bytes) s s' (c : bytes) n : encrypt_chunk p s = (s', Ok c) → n < length c →
  ∃ s1, decrypt_chunk (s, {| pending := take n c; broken := None |}) =
    ((s1, {| pending := []; broken := None |}), if n <? 2 + TAG_SIZE then Ok None else Err (read_error " TCP payload chunk" UnexpectedEof)).
Proof.
  intros (l & d & -> & Hp & -> & Hl & Hd)%encrypt_chunk_inv. rewrite length_app. intros Hn.
  pose proof (seal_length _ _ _ _ _ Hl) as Hll. rewrite length_to_be in Hll. pose proof (seal_length _ _ _ _ _ Hd) as Hld.
  destruct (Nat.ltb_spec n (2 + TAG_SIZE)) as [Hs|Hs].
  - exists s. unfold decrypt_chunk. rewrite (act_bind_ok _ _ _ (s, {| pending := []; broken := None |}) None); [done|].
    unfold on_snd, read_length. rewrite read_exactly_short; [done|]. cbn [pending]. rewrite length_take, length_app. lia.
  - exists (advance_nonce s). rewrite take_app_ge by lia. rewrite (decrypt_chunk_length _ p) by done.
    unfold read_payload_chunk, mbind, act_bind, on_snd, map_err. rewrite read_exactly_short; [done|]. cbn [pending]. rewrite length_take. lia.
Qed.

Lemma chunk_length (p : bytes) s s' (c : bytes) : encrypt_chunk p s = (s', Ok c) → length c = 2 + TAG_SIZE + (length p + TAG_SIZE).
Proof.
  intros (l & d & -> & _ & _ & Hl & Hd)%encrypt_chunk_inv. rewrite length_app, (seal_length _ _ _ _ _ Hl), (seal_length _ _ _ _ _ Hd), length_to_be. lia.
Qed.

Lemma server_loop_delivers ps s s' out n fuel total d :
  encrypt_all ps s = (s', Ok out) → open_sink d → length (take n out) < fuel →
  ∃ st, server_loop fuel total (s, {| pending := take n out; broken := None |}, d) =
    (st, if (delivered n ps).2 then Ok (total + total_length (delivered n ps).1)%Z else Err (read_error " TCP payload chunk" UnexpectedEof)) ∧
    written st.2 = (written d ++ (delivered n ps).1)%list.
Proof.
  revert s out n fuel total d. induction ps as [|p ps IH]; intros s out n fuel total d He Hd Hf; (destruct fuel as [|fuel]; [lia|]).
  - injection He as <- <-. rewrite take_nil. cbn [server_loop delivered fst snd].
    rewrite (act_bind_ok _ _ _ (s, {| pending := []; broken := None |}, d) None) by done. eexists. split; [cbn; by rewrite Z.add_0_r|]. cbn. by rewrite app_nil_r.
  - apply encrypt_all_inv in He as (s1 & c & cs & Hc & Hcs & ->). pose proof (chunk_length _ _ _ _ Hc) as Hlc.
    cbn [server_loop delivered]. destruct (Nat.ltb_spec n (length c)) as [Hn|Hn].
    + destruct (decrypt_cut p s s1 c n Hc Hn) as [s2 Hcut]. rewrite take_app_le by lia.
      destruct (Nat.ltb_spec n (2 + TAG_SIZE)) as [Hs|Hs].
      * rewrite (act_bind_ok _ _ _ (s2, {| pending := []; broken := None |}, d) None) by (unfold on_fst at 1; by rewrite Hcut).
        cbn [fst snd]. eexists. split; [cbn; by rewrite Z.add_0_r|]. cbn. by rewrite app_nil_r.
      * destruct (Nat.ltb_spec n (2 + TAG_SIZE + (length p + TAG_SIZE))); [|lia]. cbn [fst snd].
        unfold mbind, act_bind, on_fst at 1. rewrite Hcut. eexists. split; [done|]. cbn. by rewrite app_nil_r.
    + destruct (Nat.ltb_spec n (2 + TAG_SIZE)); [lia|]. destruct (Nat.ltb_spec n (2 + TAG_SIZE + (length p + TAG_SIZE))); [lia|].
      rewrite <- Hlc. rewrite take_app_ge by done.
      rewrite (act_bind_ok _ _ _ (s1, {| pending := take (n - length c) cs; broken := None |}, d) (Some p)).
      2: { unfold on_fst at 1. by rewrite (decrypt_encrypted p s s1). }
      erewrite act_bind_ok by (unfold on_snd; by rewrite write_all_open).
      rewrite take_app_ge, length_app in Hf by done.
      destruct (IH s1 cs (n - length c) fuel (total + Z.of_nat (length p))%Z {| written := written d ++ [p]; budget := None; shut := shut d |})
        as (st & Hst & Hw); [done..|lia|].
      exists st. rewrite Hst, Hw. destruct (delivered (n - length c) ps) as [q clean]. cbn [fst snd written]. split; [|by rewrite <- app_assoc].
      unfold total_length. cbn [List.concat]. rewrite length_app, Nat2Z.inj_add, Z.add_assoc. done.
Qed.

Lemma delivered_all n ps s s' out : encrypt_all ps s = (s', Ok out) → length out ≤ n → delivered n ps = (ps, true).
Proof.
  revert n s out. induction ps as [|p ps IH]; intros n s out; [done|]. intros (s1 & c & cs & Hc & Hcs & ->)%encrypt_all_inv.
  rewrite length_app, (chunk_length _ _ _ _ Hc). intros Hn. cbn [delivered].
  destruct (Nat.ltb_spec n (2 + TAG_SIZE)); [lia|]. destruct (Nat.ltb_spec n (2 + TAG_SIZE + (length p + TAG_SIZE))); [lia|].
  rewrite (IH _ s1 cs Hcs) by lia. done.
Qed.

Lemma delivered_prefix n ps : (delivered n ps).1 `prefix_of` ps.
Proof.
  revert n. induction ps as [|p ps IH]; intros n; [done|]. cbn [delivered]. destruct (n <? 2 + TAG_SIZE); [apply prefix_nil|].
  destruct (n <? _); [apply prefix_nil|]. specialize (IH (n - (2 + TAG_SIZE + (length p + TAG_SIZE)))).
  destruct (delivered _ ps) as [l c]. by apply prefix_cons.
Qed.

Lemma read_chunks_delivers ps s s' out n total d :
  encrypt_all ps s = (s', Ok out) → open_sink d →
  ∃ st, read_chunks total (s, {| pending := take n out; broken := None |}, d) =
    (st, if (delivered n ps).2 then Ok (total + total_length (delivered n ps).1)%Z else Err (read_error " TCP payload chunk" UnexpectedEof)) ∧
    written st.2 = (written d ++ (delivered n ps).1)%list.
Proof. intros He Hd. unfold read_chunks. apply (server_loop_delivers ps s s' out); [done..|cbn [fst snd pending]; lia]. Qed.

Lemma read_chunks_all ps s s' out :
  encrypt_all ps s = (s', Ok out) →
  ∃ st, read_chunks 0 (s, {| pending := out; broken := None |}, new_sink None) = (st, Ok (total_length ps)) ∧ written st.2 = ps.
Proof.
  intros He. destruct (read_chunks_delivers ps s s' out (length out) 0 (new_sink None) He eq_refl) as (st & Hst & Hw).
  rewrite take_ge in Hst by done. rewrite (delivered_all _ _ _ _ _ He) in * by done. by exists st.
Qed.

(** The client's direction seals what it reads and shuts the upstream down. *)
Lemma client_sends ps s d total :
  Forall (λ p, length p ≤ send_limit) ps → (∀ k n m, is_Some (seal k n [] m)) → open_sink d →
  ∃ s' out d', encrypt_all ps s = (s', Ok out) ∧
    client_loop ps None total (s, d) = ((s', d'), Ok (total + total_length ps)%Z) ∧
    sent d' = (sent d ++ out)%list ∧ shut d' = true.
Proof.
  intros Hps Hseal. revert s d total. induction Hps as [|p ps Hp _ IH]; intros s d total Hd.
  - exists s, [], {| written := written d; budget := budget d; shut := true |}. split; [done|]. cbn [client_loop]. split; [|split; [|done]].
    + unfold mbind, act_bind, on_snd, shutdown. rewrite Hd. cbn. by rewrite Z.add_0_r.
    + by rewrite app_nil_r.
  - assert (∃ s1 c, encrypt_chunk p s = (s1, Ok c)) as (s1 & c & Hc).
    { unfold encrypt_chunk. destruct (Nat.ltb_spec send_limit (length p)); [lia|].
      unfold mbind, act_bind, encrypt. destruct (Hseal (cipher s) (nonce s) (to_be 2 (Z.of_nat (length p)))) as [l ->].
      destruct (Hseal (cipher (advance_nonce s)) (nonce (advance_nonce s)) p) as [q ->]. eexists _, _. done. }
    destruct (IH s1 {| written := written d ++ [c]; budget := None; shut := shut d |} (total + Z.of_nat (length p))%Z)
      as (s' & out & d' & Hall & Hrun & Hsent & Hshut); [done|].
    exists s', (c ++ out)%list, d'. cbn [encrypt_all client_loop]. split; [|split; [|split; [|done]]].
    + by rewrite (act_bind_ok _ _ _ _ _ Hc), (act_bind_ok _ _ _ _ _ Hall).
    + rewrite (act_bind_ok _ _ _ (s1, d) c) by (unfold on_fst; by rewrite Hc).
      erewrite act_bind_ok by (unfold on_snd; by rewrite write_all_open). rewrite Hrun. do 2 f_equal.
      unfold total_length. cbn [List.concat]. rewrite length_app. lia.
    + rewrite Hsent, sent_app. by rewrite <- app_assoc.
Qed.

(** ** Any input *)
Lemma decrypt_chunk_any s i :
  match decrypt_chunk (s, i) with
  | ((_, i'), Ok (Some _)) => length (pending i') + (2 + TAG_SIZE) ≤ length (pending i)
  | (_, Panic) => False
  | _ => True
  end.
Proof.
  unfold decrypt_chunk, mbind, act_bind, on_snd at 1, read_length, read_exactly.
  destruct (Nat.leb_spec (2 + TAG_SIZE) (length (pending i))) as [Hi|Hi].
  2: { unfold ended_by. by destruct (broken i). }
  unfold on_fst, decrypt. destruct (unseal _ _ _ _) as [l|]; [|done]. destruct (Nat.eqb_spec (length l) 2) as [Hl|]; [|done]. cbn [negb].
  destruct l as [|x [|y [|]]]; try done. unfold lift. cbn [index lookup list_lookup expect].
  destruct (over_limit (Z.to_nat (from_be [x; y]))); [done|].
  unfold read_payload_chunk, mbind, act_bind, on_snd, map_err, read_exactly. cbn [pending].
  match goal with |- context [if ?b then _ else _] => destruct b end; [|done]. unfold on_fst, decrypt. destruct (unseal _ _ _ _); [|done]. unfold mret, act_ret. cbn beta iota delta [pending]. rewrite !length_drop. lia.
Qed.

Lemma server_loop_no_panic fuel total s i d : length (pending i) < fuel → (server_loop fuel total (s, i, d)).2 ≠ Panic.
Proof.
  revert total s i d. induction fuel as [|fuel IH]; intros total s i d Hf; [lia|]. cbn [server_loop].
  pose proof (decrypt_chunk_any s i) as Hc. unfold mbind, act_bind, on_fst at 1.
  destruct (decrypt_chunk (s, i)) as [[s' i'] [[p|]|e|]]; [|done..].
  unfold on_snd, write_all. destruct (budget d) as [[|n]|]; [done|..]; apply IH; lia.
Qed.

(** ** The nonces of a stream

    A chunk is two blocks, its length and its payload. *)
Fixpoint blocks_of (ps : list bytes) : list bytes :=
  match ps with [] => [] | p :: ps => to_be 2 (Z.of_nat (length p)) :: p :: blocks_of ps end.

Fixpoint encrypt_each (ts : list bytes) : act AeadStream Error bytes :=
  match ts with [] => mret [] | t :: ts => c ← encrypt t; cs ← encrypt_each ts; mret (c ++ cs) end.

Lemma encrypt_each_app ts ts' s s1 s' out out' : encrypt_each ts s = (s1, Ok out) → encrypt_each ts' s1 = (s', Ok out') →
  encrypt_each (ts ++ ts') s = (s', Ok (out ++ out')).
Proof.
  revert s out. induction ts as [|t ts IH]; intros s out; [by intros [= <- <-]|].
  intros (s2 & c & Hc & (s3 & cs & Hcs & [= <- <-])%act_bind_inv)%act_bind_inv H'. cbn [app encrypt_each].
  rewrite (act_bind_ok _ _ _ _ _ Hc), (act_bind_ok _ _ _ _ _ (IH _ _ Hcs H')). by rewrite <- app_assoc.
Qed.

Lemma encrypt_each_blocks ts s s' out : encrypt_each ts s = (s', Ok out) →
  ∃ cs, out = List.concat cs ∧ length cs = length ts ∧
    ∀ i t, ts !! i = Some t → ∃ c, cs !! i = Some c ∧ seal (cipher s) (Nat.iter i increment_nonce (nonce s)) [] t = Some c.
Proof.
  revert s out. induction ts as [|t ts IH]; intros s out; [intros [= <- <-]; by exists []|].
  intros (s1 & c & [Hc ->]%encrypt_inv & (s2 & o & Ho & [= <- <-])%act_bind_inv)%act_bind_inv.
  destruct (IH _ _ Ho) as (cs & -> & Hl & Hb). exists (c :: cs). split; [done|]. split; [by cbn; rewrite Hl|].
  intros [|i] t'; [intros [= <-]; by exists c|]. intros (c' & Hi & Hs)%Hb. exists c'. split; [done|]. rewrite Nat.iter_succ_r. exact Hs.
Qed.

(** What the client's direction seals, however it ends: the blocks of what it reads, up to some
    block, and what is sent is what they give, up to some write. *)
Lemma client_loop_each rs broken total s d s' d' r : client_loop rs broken total (s, d) = ((s', d'), r) →
  ∃ ts out more, ts `prefix_of` blocks_of rs ∧ encrypt_each ts s = (s', Ok out) ∧ sent d' = (sent d ++ more)%list ∧ more `prefix_of` out.
Proof.
  revert total s d. induction rs as [|p rs IH]; intros total s d.
  - cbn [client_loop]. intros Hr. exists [], [], []. rewrite app_nil_r. split; [done|]. destruct broken.
    + by injection Hr as <- <- _.
    + unfold shutdown, mbind, act_bind, on_snd in Hr. destruct (budget d) as [[|]|]; cbn in Hr; by injection Hr as <- <- _.
  - intros Hr. assert (∀ ts out, ts `prefix_of` blocks_of (p :: rs) → encrypt_each ts s = (s', Ok out) → d' = d →
      ∃ ts out more, ts `prefix_of` blocks_of (p :: rs) ∧ encrypt_each ts s = (s', Ok out) ∧ sent d' = (sent d ++ more)%list ∧ more `prefix_of` out) as Hstop.
    { intros ts out H1 H2 ->. exists ts, out, []. rewrite app_nil_r. split; [done|]. split; [done|]. split; [done|apply prefix_nil]. }
    cbn [client_loop] in Hr. unfold on_fst, mbind at 1, act_bind at 1 in Hr. unfold encrypt_chunk in Hr.
    destruct (send_limit <? length p); [cbn in Hr; injection Hr as <- <- _; by apply (Hstop [] []); [apply prefix_nil|..]|].
    unfold mbind, act_bind at 1 2, encrypt at 1 in Hr.
    destruct (seal (cipher s) (nonce s) [] _) as [l|] eqn:Hl; [|injection Hr as <- <- _; by apply (Hstop [] []); [apply prefix_nil|..]].
    assert (encrypt (to_be 2 (Z.of_nat (length p))) s = (advance_nonce s, Ok l)) as El by (unfold encrypt; by rewrite Hl).
    unfold encrypt at 1 in Hr. destruct (seal _ _ [] p) as [c|] eqn:Hc.
    2: { injection Hr as <- <- _. apply (Hstop [to_be 2 (Z.of_nat (length p))] l); [by exists (p :: blocks_of rs)|cbn [encrypt_each]|done].
         rewrite (act_bind_ok _ _ _ _ _ El). unfold mbind, act_bind, mret, act_ret. by rewrite app_nil_r. }
    assert (encrypt p (advance_nonce s) = (advance_nonce (advance_nonce s), Ok c)) as Ec by (unfold encrypt; by rewrite Hc).
    assert (encrypt_each [to_be 2 (Z.of_nat (length p)); p] s = (advance_nonce (advance_nonce s), Ok (l ++ c)%list)) as E2.
    { cbn [encrypt_each]. rewrite (act_bind_ok _ _ _ _ _ El). unfold mbind at 1, act_bind at 1. rewrite (act_bind_ok _ _ _ _ _ Ec).
      unfold mbind, act_bind, mret, act_ret. by rewrite app_nil_r. }
    cbn in Hr. unfold mbind, act_bind, on_snd, write_all in Hr. cbn -[client_loop] in Hr.
    destruct (budget d) as [[|n]|]; [injection Hr as <- <- _; by apply (Hstop [_; _] _ (prefix_app_r [_; _] [_; _] (blocks_of rs) (reflexivity _)) E2)|..];
      apply IH in Hr as (ts & out & more & Hts & He & Hs & Hm);
      (exists ([to_be 2 (Z.of_nat (length p)); p] ++ ts)%list, ((l ++ c) ++ out)%list, ((l ++ c) ++ more)%list;
       split; [by apply (prefix_app [_; _])|]; split; [by eapply encrypt_each_app|]; split; [rewrite Hs, sent_app; by rewrite !app_assoc|by apply prefix_app]).
Qed.
End stream.

(** The bytes are the texts, sealed one by one under nonces that are all different. *)
Definition sealed_fresh {A : Aead} (key : bytes) (ts : list bytes) (out : bytes) : Prop :=
  ∃ ns cs, out = List.concat cs ∧ NoDup ns ∧ length ns = length ts ∧ length cs = length ts ∧
    ∀ i t, ts !! i = Some t → ∃ n c, ns !! i = Some n ∧ cs !! i = Some c ∧ seal key n [] t = Some c.

Lemma encrypt_each_fresh {A : Aead} label key ts s' out :
  encrypt_each label ts {| cipher := key; nonce := zero_nonce |} = (s', Ok out) → (Z.of_nat (length ts) ≤ 2 ^ 96)%Z → sealed_fresh key ts out.
Proof.
  intros (cs & -> & Hl & Hb)%encrypt_each_blocks Hn. cbn [cipher nonce] in Hb.
  exists ((λ i, Nat.iter i increment_nonce zero_nonce) <$> seq 0 (length ts)), cs.
  split_and!; [done| |by rewrite length_fmap, length_seq|done|].
  - apply NoDup_fmap_2_strong; [|apply NoDup_seq]. intros i j [_ Hi]%elem_of_seq [_ Hj]%elem_of_seq. by apply increments_distinct; [|lia..].
  - intros i t Ht. destruct (Hb i t Ht) as (c & Hc & Hs). exists (Nat.iter i increment_nonce zero_nonce), c.
    split_and!; [|done..]. rewrite list_lookup_fmap, lookup_seq_lt; [done|]. by eapply lookup_lt_Some.
Qed.

Lemma length_blocks ps : length (blocks_of ps) = 2 * length ps.
Proof. induction ps as [|p ps IH]; [done|]. cbn [blocks_of length]. lia. Qed.

(** ** A cipher for examples: the tag is the start of nonce and key *)
Definition toy_tag (k n a : bytes) : bytes := take TAG_SIZE (n ++ k ++ a ++ replicate TAG_SIZE x00).
#[export] Instance toy_aead : Aead := {
  seal k n a m := Some (m ++ toy_tag k n a);
  unseal k n a c :=
    let m := take (length c - TAG_SIZE) c in
    if bool_decide (c = m ++ toy_tag k n a) then Some m else None }.

Lemma length_toy_tag k n a : length (toy_tag k n a) = TAG_SIZE.
Proof. unfold toy_tag. rewrite length_take, !length_app, length_replicate. unfold TAG_SIZE. lia. Qed.

#[export] Instance toy_laws : AeadLaws toy_aead.
Proof.
  split; cbn [seal unseal toy_aead].
  - intros k n a m c [= <-]. rewrite length_app, length_toy_tag. replace (length m + TAG_SIZE - TAG_SIZE) with (length m) by lia.
    rewrite take_app_length. by rewrite bool_decide_eq_true_2.
  - intros k n a m c [= <-]. by rewrite length_app, length_toy_tag.
  - intros k n a c m. case_bool_decide as Hc; [|done]. intros [= <-]. apply (f_equal length) in Hc. by rewrite length_app, length_toy_tag in Hc.
Qed.
