(* ===== verification/Replay.v ===== *)
(** * Replay: the Shadowsocks 2022 UDP replay window

    [prototype/shadowsocks/src/aead2022/replay.rs]: a 64-bit sliding window
    over the packet identifiers of one server session, against the abstract
    specification that remembers every accepted identifier. *)
From Stdlib Require Import ZArith Lia Strings.Byte.
From stdpp Require Import base list numbers option strings gmap sets.
From S2P Require Import Prelude Wire.

Definition replay_error (msg : string) : Error :=
  mk_error "outbound-crypto" ("Shadowsocks 2022 UDP replay check failed: " +:+ msg).

Definition WINDOW_BITS : Z := 64.

Record ReplayWindow := { latest : option Z; seen : Z }.

Definition default_window : ReplayWindow := {| latest := None; seen := 0 |}.

(** The method takes [&mut self]: the new window is returned beside the result. *)
Definition check_and_update (w : ReplayWindow) (packet_id : Z)
    : ReplayWindow * outcome Error unit :=
  match latest w with
  | None => ({| latest := Some packet_id; seen := 1 |}, Ok tt)
  | Some l =>
      if (l <? packet_id)%Z then
        let shift := (packet_id - l)%Z in
        let seen' :=
          if (WINDOW_BITS <=? shift)%Z then 1%Z
          else Z.lor (wrap_u 64 (Z.shiftl (seen w) shift)) 1 in
        ({| latest := Some packet_id; seen := seen' |}, Ok tt)
      else
        let behind := (l - packet_id)%Z in
        if (WINDOW_BITS <=? behind)%Z then
          (w, Err (replay_error "packet ID is outside the replay window"))
        else
          let bit := Z.shiftl 1 behind in
          if negb (Z.land (seen w) bit =? 0)%Z then
            (w, Err (replay_error "duplicate packet ID"))
          else ({| latest := latest w; seen := Z.lor (seen w) bit |}, Ok tt)
  end.

(** ** Specification

    The abstract state is the set of identifiers accepted so far together
    with the largest of them. *)
Module Spec.
Record state := { accepted : gset Z; newest : option Z }.

Definition init : state := {| accepted := ∅; newest := None |}.

(** A packet is fresh when it is newer than everything accepted, or at most
    63 behind the newest and not accepted before. *)
Definition fresh (s : state) (id : Z) : bool :=
  match newest s with
  | None => true
  | Some m => bool_decide (m < id)%Z
              || (bool_decide (m - id < 64)%Z && bool_decide (id ∉ accepted s))
  end.

Definition accept (s : state) (id : Z) : state :=
  {| accepted := {[id]} ∪ accepted s;
     newest := Some (match newest s with None => id | Some m => Z.max m id end) |}.

Definition step (s : state) (id : Z) : state * bool :=
  if fresh s id then (accept s id, true) else (s, false).
End Spec.

(** Run a sequence of packets, keeping the verdict of each. *)
Fixpoint run (w : ReplayWindow) (ids : list Z) : ReplayWindow * list bool :=
  match ids with
  | [] => (w, [])
  | id :: ids' =>
      let '(w1, r) := check_and_update w id in
      let '(w2, rs) := run w1 ids' in (w2, is_ok r :: rs)
  end.

Fixpoint spec_run (s : Spec.state) (ids : list Z) : Spec.state * list bool :=
  match ids with
  | [] => (s, [])
  | id :: ids' =>
      let '(s1, r) := Spec.step s id in
      let '(s2, rs) := spec_run s1 ids' in (s2, r :: rs)
  end.

(** The identifiers whose verdict was positive. *)
Definition accepted_ids (ids : list Z) (verdicts : list bool) : list Z :=
  omap (λ p : Z * bool, if snd p then Some (fst p) else None) (zip ids verdicts).

(** ** Simulation relation

    Bit [k] of [seen] says whether the identifier [latest - k] was accepted. *)
Definition window_rel (w : ReplayWindow) (s : Spec.state) : Prop :=
  latest w = Spec.newest s ∧
  in_u 64 (seen w) ∧
  match Spec.newest s with
  | None => Spec.accepted s = ∅
  | Some m =>
      (∀ id, id ∈ Spec.accepted s → (id ≤ m)%Z) ∧
      (∀ k, (0 ≤ k < 64)%Z → Z.testbit (seen w) k = bool_decide ((m - k)%Z ∈ Spec.accepted s))
  end.

Lemma testbit_shift_window z sh k : (0 ≤ sh)%Z → (0 ≤ k < 64)%Z →
  Z.testbit (Z.lor (wrap_u 64 (Z.shiftl z sh)) 1) k
  = bool_decide (k = 0)%Z || (bool_decide (sh ≤ k)%Z && Z.testbit z (k - sh)).
Proof.
  intros Hs Hk. rewrite Z.lor_spec, testbit_one by lia. rewrite orb_comm. f_equal.
  unfold wrap_u. rewrite Z.mod_pow2_bits_low by lia.
  rewrite Z.shiftl_spec by lia.
  destruct (Z.le_gt_cases sh k).
  - by rewrite bool_decide_eq_true_2.
  - rewrite bool_decide_eq_false_2 by lia. cbn. apply Z.testbit_neg_r. lia.
Qed.

Lemma window_rel_init : window_rel default_window Spec.init.
Proof. unfold window_rel, in_u; cbn; split_and!; try done; lia. Qed.

(** ** Simulation *)
Lemma window_rel_newer w s id :
  window_rel w s → (∀ m, Spec.newest s = Some m → (m < id)%Z) →
  ∃ z, check_and_update w id = ({| latest := Some id; seen := z |}, Ok tt)
    ∧ Spec.step s id = (Spec.accept s id, true)
    ∧ window_rel {| latest := Some id; seen := z |} (Spec.accept s id).
Proof.
  intros (Hl & Hu & Hb) Hnew. unfold check_and_update, Spec.step, Spec.fresh, Spec.accept.
  rewrite Hl. destruct (Spec.newest s) as [m|] eqn:Em.
  - specialize (Hnew m eq_refl). destruct Hb as [Hle Hbits].
    rewrite (proj2 (Z.ltb_lt m id)), bool_decide_eq_true_2 by done. cbn.
    eexists; split_and!; [done|done|]. unfold window_rel; cbn. split_and!.
    + f_equal. lia.
    + destruct (WINDOW_BITS <=? id - m)%Z; [unfold in_u; lia|].
      apply in_u_lor; [lia|by apply in_u_wrap|unfold in_u; lia].
    + intros i. rewrite elem_of_union, elem_of_singleton.
      intros [->|Hi]; [lia|]. specialize (Hle i Hi). lia.
    + intros k Hk. replace (Z.max m id) with id by lia.
      assert (bool_decide ((id - k)%Z ∈ {[id]} ∪ Spec.accepted s)
              = bool_decide (k = 0)%Z || bool_decide ((id - k)%Z ∈ Spec.accepted s)) as ->.
      { rewrite <- bool_decide_or. apply bool_decide_ext.
        rewrite elem_of_union, elem_of_singleton. intuition lia. }
      destruct (WINDOW_BITS <=? id - m)%Z eqn:E; bool_hyps; change WINDOW_BITS with 64%Z in E.
      * rewrite testbit_one by lia.
        rewrite (bool_decide_eq_false_2 (_ ∈ _)); [by rewrite orb_false_r|].
        intros Hin. specialize (Hle _ Hin). lia.
      * rewrite testbit_shift_window by lia. f_equal.
        destruct (Z.le_gt_cases (id - m) k) as [Hc|Hc].
        -- rewrite bool_decide_eq_true_2 by done. cbn.
           rewrite Hbits by lia. by replace (m - (k - (id - m)))%Z with (id - k)%Z by lia.
        -- rewrite !bool_decide_eq_false_2; [done| |lia].
           intros Hin. specialize (Hle _ Hin). lia.
  - eexists; split_and!; [done|done|]. unfold window_rel; cbn. split_and!.
    + done.
    + unfold in_u; lia.
    + intros i. rewrite Hb. rewrite union_empty_r_L. intros ->%elem_of_singleton. done.
    + intros k Hk. rewrite testbit_one by lia. apply bool_decide_ext.
      rewrite Hb. split; [intros ->; apply elem_of_union_l, elem_of_singleton; lia|].
      rewrite union_empty_r_L. intros Hi%elem_of_singleton. lia.
Qed.

Lemma window_rel_older w s id m :
  window_rel w s → Spec.newest s = Some m → (id ≤ m)%Z →
  ∃ w' r, check_and_update w id = (w', r)
    ∧ Spec.step s id = ((Spec.step s id).1, is_ok r)
    ∧ window_rel w' (Spec.step s id).1.
Proof.
  intros (Hl & Hu & Hb) Hm Hid. unfold check_and_update, Spec.step, Spec.fresh.
  rewrite Hl, Hm in *. destruct Hb as [Hle Hbits].
  rewrite (proj2 (Z.ltb_ge m id)), (bool_decide_eq_false_2 (m < id)%Z) by lia. cbn [orb].
  change WINDOW_BITS with 64%Z.
  destruct (Z.leb_spec 64 (m - id)) as [Hfar|Hnear].
  { rewrite (bool_decide_eq_false_2 (m - id < 64)%Z) by lia. cbn.
    do 2 eexists; split_and!; [done|done|].
    unfold window_rel. rewrite Hm. done. }
  rewrite (bool_decide_eq_true_2 (m - id < 64)%Z) by lia. cbn [andb].
  rewrite land_bit_test, Hbits by lia. replace (m - (m - id))%Z with id by lia.
  destruct (decide (id ∈ Spec.accepted s)) as [Hin|Hout].
  - rewrite bool_decide_eq_true_2, bool_decide_eq_false_2 by tauto. cbn.
    do 2 eexists; split_and!; [done|done|]. unfold window_rel. rewrite Hm. done.
  - rewrite bool_decide_eq_false_2, bool_decide_eq_true_2 by done. cbn.
    do 2 eexists; split_and!; [done|done|]. unfold window_rel, Spec.accept; cbn. rewrite Hm.
    replace (Z.max m id) with m by lia. split_and!; [done| | |].
    + apply in_u_lor; [lia|done|apply in_u_bit; lia].
    + intros i. rewrite elem_of_union, elem_of_singleton. intros [->|Hi]; [done|by apply Hle].
    + intros k Hk. rewrite Z.lor_spec, Hbits, testbit_shifted_one, orb_comm by lia.
      rewrite <- bool_decide_or. apply bool_decide_ext.
      rewrite elem_of_union, elem_of_singleton. intuition lia.
Qed.

(** One packet: the window and the specification give the same verdict and
    stay related. *)
Lemma check_and_update_simulates w s id :
  window_rel w s →
  let '(w', r) := check_and_update w id in
  let '(s', b) := Spec.step s id in
  is_ok r = b ∧ window_rel w' s'.
Proof.
  intros Hrel. destruct (Spec.newest s) as [m|] eqn:Em.
  - destruct (Z.le_gt_cases id m) as [Hc|Hc].
    + destruct (window_rel_older w s id m Hrel Em Hc) as (w' & r & -> & Hs & Hr).
      rewrite Hs. done.
    + destruct (window_rel_newer w s id Hrel) as (z & -> & -> & Hr); [|done].
      intros ?; rewrite Em; intros [= <-]; lia.
  - destruct (window_rel_newer w s id Hrel) as (z & -> & -> & Hr); [|done].
    by rewrite Em.
Qed.

Lemma run_simulates ids w s :
  window_rel w s →
  snd (run w ids) = snd (spec_run s ids) ∧ window_rel (fst (run w ids)) (fst (spec_run s ids)).
Proof.
  revert w s; induction ids as [|id ids IH]; intros w s Hrel; cbn; [done|].
  pose proof (check_and_update_simulates w s id Hrel) as Hstep.
  destruct (check_and_update w id) as [w1 r], (Spec.step s id) as [s1 b].
  destruct Hstep as [<- Hrel1]. specialize (IH w1 s1 Hrel1).
  destruct (run w1 ids), (spec_run s1 ids); cbn in *. destruct IH as [-> ?]. done.
Qed.

(** The accepted set of the specification collects exactly the accepted ids,
    and it never accepts an id twice. *)
Lemma spec_step_accepted s id s' :
  Spec.step s id = (s', true) → (∀ m i, Spec.newest s = Some m → i ∈ Spec.accepted s → (i ≤ m)%Z) →
  (Spec.newest s = None → Spec.accepted s = ∅) →
  (id ∉ Spec.accepted s) ∧ Spec.accepted s' = {[id]} ∪ Spec.accepted s.
Proof.
  unfold Spec.step, Spec.fresh. intros Hs Hle He.
  destruct (Spec.newest s) as [m|] eqn:Em.
  - destruct (bool_decide (m < id)%Z || _) eqn:E; [|done]. injection Hs as <-. split; [|done].
    apply orb_prop in E as [E|E]; bool_hyps; [|done].
    intros Hin. specialize (Hle m id eq_refl Hin). lia.
  - injection Hs as <-. split; [rewrite He by done; set_solver|done].
Qed.

(** ** The replay protection *)

(** C40: the 64-bit bitmap of [ReplayWindow::check_and_update] gives, for every
    sequence of packet identifiers, the verdicts of the specification that
    remembers every accepted identifier exactly: a packet is accepted iff it is
    newer than all accepted ones or at most 63 behind the newest and unseen. *)
Theorem replay_window_refines ids :
  snd (run default_window ids) = snd (spec_run Spec.init ids).
Proof. apply run_simulates, window_rel_init. Qed.

Lemma window_rel_accepts w s id s' :
  window_rel w s → Spec.step s id = (s', true) → (id ∉ Spec.accepted s) ∧ Spec.accepted s' = {[id]} ∪ Spec.accepted s.
Proof.
  intros (_ & _ & Hb) Hs. apply (spec_step_accepted s id s' Hs).
  - intros m i Hm. rewrite Hm in Hb. apply Hb.
  - intros Hn. by rewrite Hn in Hb.
Qed.

Lemma run_accepted_fresh ids w s :
  window_rel w s →
  NoDup (accepted_ids ids (snd (run w ids)))
  ∧ ∀ i, i ∈ accepted_ids ids (snd (run w ids)) → i ∉ Spec.accepted s.
Proof.
  revert w s; induction ids as [|id ids IH]; intros w s Hrel; cbn.
  { split; [constructor|]. intros i Hi. by apply elem_of_nil in Hi. }
  pose proof (check_and_update_simulates w s id Hrel) as Hstep.
  destruct (check_and_update w id) as [w1 r], (Spec.step s id) as [s1 b] eqn:Es.
  destruct Hstep as [<- Hrel1]. specialize (IH w1 s1 Hrel1) as [IHn IHd].
  destruct (run w1 ids) as [w2 rs]; cbn in *. unfold accepted_ids in *. cbn.
  destruct (is_ok r) eqn:Er; cbn.
  - destruct (window_rel_accepts w s id s1 Hrel Es) as [Hnin Heq]. rewrite Heq in IHd. split.
    + constructor; [|done]. intros Hi. apply IHd in Hi. apply Hi. by apply elem_of_union_l, elem_of_singleton.
    + intros i Hi. apply elem_of_cons in Hi as [->|Hi]; [done|].
      apply IHd in Hi. contradict Hi. by apply elem_of_union_r.
  - split; [done|]. intros i Hi. apply IHd in Hi.
    unfold Spec.step in Es. destruct (Spec.fresh s id); [done|]. by injection Es as <-.
Qed.

(** no sequence of packets makes the window accept the same packet
    identifier twice. *)
Theorem replay_never_accepts_twice ids :
  NoDup (accepted_ids ids (snd (run default_window ids))).
Proof. eapply run_accepted_fresh, window_rel_init. Qed.
