(* ===== verification/Shadowsocks.v ===== *)
(** * Shadowsocks: the client of both protocol generations

    [prototype/shadowsocks/src]: the address block, the keys, the TCP relay and the UDP
    sessions of [aead2017.rs] and [aead2022.rs], on the chunk streams of AeadStream.v and
    the replay window of Replay.v. The ciphers, the hashes, base64, the randomness and
    the clock are parameters. *)
From Stdlib Require Import ZArith Lia Strings.Byte Ascii String.
From stdpp Require Import base list numbers option strings gmap countable.
From S2P Require Import Prelude Net Wire AeadStream Replay.
Local Open Scope string_scope.
Local Open Scope nat_scope.

Abbreviation ss := (outcome Error).

(** ** address.rs *)
Definition socks_address (target : SocketAddr) : bytes :=
  ([z2b (if is_ipv4 (sa_ip target) then 1 else 4)] ++ octets (sa_ip target) ++ to_be 2 (sa_port target))%list.

Definition packet_error (text : string) : Error := mk_error "outbound-crypto" ("invalid Shadowsocks UDP payload: " ++ text).

Definition socks_payload_offset (packet : bytes) : ss nat :=
  match packet !! 0 with
  | None => Err (packet_error "missing SOCKS address type")
  | Some atyp =>
      offset ← (if (b2z atyp =? 1)%Z then Ok (1 + 4 + 2)
                else if (b2z atyp =? 3)%Z then
                  match packet !! 1 with
                  | None => Err (packet_error "missing SOCKS domain length")
                  | Some n => Ok (1 + 1 + Z.to_nat (b2z n) + 2)
                  end
                else if (b2z atyp =? 4)%Z then Ok (1 + 16 + 2)
                else Err (packet_error "unsupported SOCKS address type"));
      if length packet <? offset then Err (packet_error "truncated SOCKS address") else Ok offset
  end.

(** What follows the address; the code slices with the offset. *)
Definition after_address (packet : bytes) : ss bytes :=
  offset ← socks_payload_offset packet; slice packet offset (length packet).

Record TcpRelayOutcome := { upstream : SocketAddr; client_to_upstream_bytes : Z; upstream_to_client_bytes : Z }.

Definition relayed (upstream_addr : SocketAddr) (r : ss (Z * Z)) : ss TcpRelayOutcome :=
  '(up, down) ← r; Ok {| upstream := upstream_addr; client_to_upstream_bytes := up; upstream_to_client_bytes := down |}.

(** ** aead2017.rs *)
Module Aead2017.
Definition KEY_SIZE : nat := 32.
Definition SALT_SIZE : nat := 32.
Definition TCP_CHUNK_LIMIT : nat := Z.to_nat 16383.
Definition label : string := "Shadowsocks".

Section aead2017.
Context (aes256 : Aead) (hkdf : bytes → bytes → option bytes) (md5 : bytes → bytes).

(** Two rounds of sixteen bytes fill the key. *)
Fixpoint key_loop (fuel : nat) (password previous key : bytes) : bytes :=
  match fuel with
  | O => key
  | S fuel =>
      if length key <? KEY_SIZE then
        let previous := md5 (previous ++ password) in key_loop fuel password previous (key ++ previous)
      else key
  end.
Definition evp_bytes_to_key (password : bytes) : bytes := take KEY_SIZE (key_loop KEY_SIZE password [] []).

Definition derive_subkey (key salt : bytes) : ss bytes :=
  ok_or (hkdf salt key) (mk_error "outbound-crypto" "failed deriving Shadowsocks AEAD subkey: {error:?}").

(** [Aes256Gcm::new_from_slice] *)
Definition cipher_of (text : string) (subkey : bytes) : ss bytes :=
  if length subkey =? KEY_SIZE then Ok subkey else Err (mk_error "outbound-crypto" text).

Definition from_salt (key salt : bytes) : ss AeadStream :=
  subkey ← derive_subkey key salt;
  c ← cipher_of "failed initializing AEAD cipher: {error:?}" subkey;
  Ok {| cipher := c; nonce := zero_nonce |}.

Definition read_salt : act input Error bytes :=
  map_err (λ _, mk_error "outbound-read" "failed reading Shadowsocks TCP response salt: {error}") (read_exactly SALT_SIZE).

Definition upstream_to_client (key : bytes) : act (input * sink) Error Z := λ '(i, d),
  match read_salt i with
  | (i, Ok salt) =>
      match from_salt key salt with
      | Ok reader =>
          let '((_, i, d), r) := read_chunks label (Some TCP_CHUNK_LIMIT) 0 (reader, i, d) in ((i, d), r)
      | Err e => ((i, d), Err e)
      | Panic => ((i, d), Panic)
      end
  | (i, Err e) => ((i, d), Err e)
  | (i, Panic) => ((i, d), Panic)
  end.

(** [Cipher::relay_tcp_stream] with the salt drawn; the sinks are upstream and client. *)
Definition relay_tcp_stream (key salt target_header : bytes) (upstream_addr : SocketAddr) (downstream : source)
    (from_upstream : input) (second_first : bool) : act (sink * sink) Error TcpRelayOutcome := λ '(up, down),
  match from_salt key salt with
  | Ok writer =>
      match encrypt_chunk label TCP_CHUNK_LIMIT target_header writer with
      | (writer, Ok initial) =>
          match write_all (mk_error "outbound-write" "failed writing Shadowsocks TCP header to {upstream_addr}: {error}") (salt ++ initial) up with
          | (up, Ok _) =>
              let '((_, up), sent_bytes) := client_to_upstream label TCP_CHUNK_LIMIT downstream (writer, up) in
              let '((_, down), got_bytes) := upstream_to_client key (from_upstream, down) in
              ((up, down), relayed upstream_addr (try_join second_first sent_bytes got_bytes))
          | (up, Err e) => ((up, down), Err e)
          | (up, Panic) => ((up, down), Panic)
          end
      | (_, Err e) => ((up, down), Err e)
      | (_, Panic) => ((up, down), Panic)
      end
  | Err e => ((up, down), Err e)
  | Panic => ((up, down), Panic)
  end.

(** *** UDP *)
Definition udp_cipher (key salt : bytes) : ss bytes :=
  subkey ← derive_subkey key salt; cipher_of "failed initializing UDP AEAD cipher: {error:?}" subkey.

Definition encrypt_udp_packet (key salt plaintext : bytes) : ss bytes :=
  c ← udp_cipher key salt;
  encrypted ← ok_or (seal c zero_nonce [] plaintext) (mk_error "outbound-crypto" "Shadowsocks UDP encrypt failed: {error:?}");
  Ok (salt ++ encrypted)%list.

Definition decrypt_udp_packet (key packet : bytes) : ss bytes :=
  if length packet <? SALT_SIZE + TAG_SIZE then Err (mk_error "outbound-crypto" "Shadowsocks UDP packet is too short")
  else
    c ← udp_cipher key (take SALT_SIZE packet);
    ok_or (unseal c zero_nonce [] (drop SALT_SIZE packet)) (mk_error "outbound-crypto" "Shadowsocks UDP decrypt failed: {error:?}").

Definition encode_udp_datagram (key salt : bytes) (target : SocketAddr) (payload : bytes) : ss bytes :=
  encrypt_udp_packet key salt (socks_address target ++ payload).
Definition decode_udp_datagram (key packet : bytes) : ss bytes :=
  plaintext ← decrypt_udp_packet key packet; after_address plaintext.
End aead2017.
End Aead2017.

(** ** aead2022.rs, aead2022/crypto.rs and aead2022/udp.rs *)
#[export] Instance byte_countable : Countable byte := inj_countable' b2z z2b z2b_b2z.

Module Aead2022.
Definition KEY_SIZE : nat := 16.
Definition SALT_SIZE : nat := 16.
Definition SESSION_ID_SIZE : nat := 8.
Definition SEPARATE_HEADER_SIZE : nat := 16.
Definition TCP_CHUNK_LIMIT : nat := Z.to_nat 65535.
Definition REQUEST_FIXED_HEADER_SIZE : nat := 11.
Definition RESPONSE_FIXED_HEADER_SIZE : nat := 27.
Definition HEADER_TYPE_CLIENT_STREAM : Z := 0.
Definition HEADER_TYPE_SERVER_STREAM : Z := 1.
Definition HEADER_TYPE_CLIENT_PACKET : Z := 0.
Definition HEADER_TYPE_SERVER_PACKET : Z := 1.
Definition TIMESTAMP_TOLERANCE_SECS : Z := 30.
Definition label : string := "Shadowsocks 2022".

Definition crypto (text : string) : Error := mk_error "outbound-crypto" text.

(** [new_aes_128_gcm] on the decoded password *)
Definition new_aes_128_gcm (decoded : option bytes) : ss bytes :=
  key ← ok_or decoded (mk_error "outbound-config" "{SS2022_AES_128_GCM_METHOD} password must be base64: {error}");
  if length key =? KEY_SIZE then Ok key
  else Err (mk_error "outbound-config" "{SS2022_AES_128_GCM_METHOD} password must decode to {KEY_SIZE} bytes").

Definition validate_timestamp (now timestamp : Z) (context : string) : ss unit :=
  if (TIMESTAMP_TOLERANCE_SECS <? Z.abs (now - timestamp))%Z
  then Err (crypto ("Shadowsocks 2022 " ++ context ++ " timestamp outside replay window"))
  else Ok tt.

Section aead2022.
Context (aes128 : Aead) (derive_key : bytes → bytes) (encrypt_block decrypt_block : bytes → bytes → bytes).

(** *** crypto.rs *)
Definition session_subkey (key salt : bytes) : bytes := take KEY_SIZE (derive_key (key ++ salt)).
Definition session_cipher (key salt : bytes) : ss bytes :=
  let subkey := session_subkey key salt in
  if length subkey =? KEY_SIZE then Ok subkey else Err (crypto "failed initializing Shadowsocks 2022 AEAD cipher: {error:?}").
Definition block_cipher (key : bytes) : ss bytes :=
  if length key =? KEY_SIZE then Ok key else Err (crypto "failed initializing Shadowsocks 2022 AES block cipher: {error:?}").
Definition encrypt_separate_header (key header : bytes) : ss bytes :=
  k ← block_cipher key; if length header =? 16 then Ok (encrypt_block k header) else Panic.
Definition decrypt_separate_header (key header : bytes) : ss bytes :=
  k ← block_cipher key; if length header =? 16 then Ok (decrypt_block k header) else Panic.

(** *** The TCP relay *)
Definition from_salt (key salt : bytes) : ss AeadStream :=
  c ← session_cipher key salt; Ok {| cipher := c; nonce := zero_nonce |}.

Definition variable_header (target_header padding : bytes) : bytes :=
  (target_header ++ to_be 2 (Z.of_nat (length padding)) ++ padding)%list.
Definition fixed_header (now : Z) (variable : bytes) : bytes :=
  ([z2b HEADER_TYPE_CLIENT_STREAM] ++ to_be 8 now ++ to_be 2 (Z.of_nat (length variable)))%list.

Definition encrypt_request_header (now : Z) (padding target_header : bytes) : act AeadStream Error bytes :=
  let variable := variable_header target_header padding in
  f ← encrypt label (fixed_header now variable);
  v ← encrypt label variable;
  mret (f ++ v)%list.

(** The checks on the opened header; the result is the length of the first payload. *)
Definition check_response_header (now : Z) (request_salt header : bytes) : ss nat :=
  if negb (length header =? RESPONSE_FIXED_HEADER_SIZE) then Err (crypto "invalid Shadowsocks 2022 TCP response header length")
  else
    t ← index header 0;
    if negb (b2z t =? HEADER_TYPE_SERVER_STREAM)%Z then Err (crypto "invalid Shadowsocks 2022 TCP response header type")
    else
      ts ← slice header 1 9;
      _ ← validate_timestamp now (from_be ts) "TCP response";
      s ← slice header 9 25;
      if negb (bool_decide (s = request_salt)) then Err (crypto "invalid Shadowsocks 2022 TCP response request salt")
      else a ← index header 25; b ← index header 26; Ok (Z.to_nat (from_be [a; b])).

Definition decrypt_response_header (now : Z) (request_salt : bytes) : act (AeadStream * input) Error nat :=
  c ← on_snd (map_err (read_error label " TCP response header") (read_exactly (RESPONSE_FIXED_HEADER_SIZE + TAG_SIZE)));
  header ← on_fst (decrypt label c);
  lift (check_response_header now request_salt header).

Definition write_downstream (l : bytes) : act sink Error unit :=
  write_all (mk_error "inbound-write" "failed writing TCP downstream: {error}") l.

(** From the opened stream of the response on. *)
Definition relay_response (now : Z) (request_salt : bytes) : act (AeadStream * input * sink) Error Z :=
  first_length ← on_fst (decrypt_response_header now request_salt);
  first ← on_fst (read_payload_chunk label first_length);
  _ ← (match first with [] => mret tt | _ => on_snd (write_downstream first) end);
  read_chunks label None (Z.of_nat (length first)).

Definition upstream_to_client (key request_salt : bytes) (now : Z) : act (input * sink) Error Z := λ '(i, d),
  match map_err (read_error label " TCP response salt") (read_exactly SALT_SIZE) i with
  | (i, Ok response_salt) =>
      match from_salt key response_salt with
      | Ok reader => let '((_, i, d), r) := relay_response now request_salt (reader, i, d) in ((i, d), r)
      | Err e => ((i, d), Err e)
      | Panic => ((i, d), Panic)
      end
  | (i, Err e) => ((i, d), Err e)
  | (i, Panic) => ((i, d), Panic)
  end.

Definition relay_tcp_stream (key salt padding : bytes) (sent_at received_at : Z) (target_header : bytes) (upstream_addr : SocketAddr)
    (downstream : source) (from_upstream : input) (second_first : bool) : act (sink * sink) Error TcpRelayOutcome := λ '(up, down),
  match from_salt key salt with
  | Ok writer =>
      match encrypt_request_header sent_at padding target_header writer with
      | (writer, Ok initial) =>
          match write_all (mk_error "outbound-write" "failed writing Shadowsocks 2022 TCP header to {upstream_addr}: {error}") (salt ++ initial) up with
          | (up, Ok _) =>
              let '((_, up), sent_bytes) := client_to_upstream label TCP_CHUNK_LIMIT downstream (writer, up) in
              let '((_, down), got_bytes) := upstream_to_client key salt received_at (from_upstream, down) in
              ((up, down), relayed upstream_addr (try_join second_first sent_bytes got_bytes))
          | (up, Err e) => ((up, down), Err e)
          | (up, Panic) => ((up, down), Panic)
          end
      | (_, Err e) => ((up, down), Err e)
      | (_, Panic) => ((up, down), Panic)
      end
  | Err e => ((up, down), Err e)
  | Panic => ((up, down), Panic)
  end.

(** *** UDP sessions *)
Record UdpSession := { session_key : bytes; session_id : bytes; packet_id : Z; server_windows : gmap bytes ReplayWindow }.

Definition new_session (key session_id : bytes) : UdpSession :=
  {| session_key := key; session_id := session_id; packet_id := 0; server_windows := ∅ |}.

Definition encrypt_udp_body (key separate_header body : bytes) : ss bytes :=
  encrypted_header ← encrypt_separate_header key separate_header;
  c ← session_cipher key (take SESSION_ID_SIZE separate_header);
  encrypted_body ← ok_or (seal c (drop 4 separate_header) [] body) (crypto "Shadowsocks 2022 UDP encrypt failed: {error:?}");
  Ok (encrypted_header ++ encrypted_body)%list.

Definition decrypt_udp_body (key separate_header encrypted_body : bytes) : ss bytes :=
  c ← session_cipher key (take SESSION_ID_SIZE separate_header);
  ok_or (unseal c (drop 4 separate_header) [] encrypted_body) (crypto "Shadowsocks 2022 UDP decrypt failed: {error:?}").

Definition client_body (now : Z) (target : SocketAddr) (payload : bytes) : bytes :=
  ([z2b HEADER_TYPE_CLIENT_PACKET] ++ to_be 8 now ++ to_be 2 0 ++ socks_address target ++ payload)%list.

Definition encode_udp_datagram (now : Z) (target : SocketAddr) (payload : bytes) : act UdpSession Error bytes := λ s,
  match try_u 64 (packet_id s + 1) with
  | None => (s, Err (crypto "Shadowsocks 2022 UDP packet ID overflow"))
  | Some next =>
      let s' := {| session_key := session_key s; session_id := session_id s; packet_id := next; server_windows := server_windows s |} in
      (s', encrypt_udp_body (session_key s) (session_id s ++ to_be 8 (packet_id s)) (client_body now target payload))
  end.

Definition decode_server_packet (now : Z) (client_session_id plaintext : bytes) : ss bytes :=
  if length plaintext <? 1 + 8 + SESSION_ID_SIZE + 2 then Err (packet_error "truncated Shadowsocks 2022 UDP header")
  else
    t ← index plaintext 0;
    if negb (b2z t =? HEADER_TYPE_SERVER_PACKET)%Z then Err (packet_error "unsupported Shadowsocks 2022 UDP packet type")
    else
      ts ← slice plaintext 1 9;
      _ ← validate_timestamp now (from_be ts) "UDP packet";
      let session_start := 1 + 8 in
      let session_end := session_start + SESSION_ID_SIZE in
      s ← slice plaintext session_start session_end;
      if negb (bool_decide (s = client_session_id)) then Err (packet_error "unexpected Shadowsocks 2022 client session ID")
      else
        let padding_start := session_end + 2 in
        a ← index plaintext session_end; b ← index plaintext (session_end + 1);
        let address_start := padding_start + Z.to_nat (from_be [a; b]) in
        if length plaintext <? address_start then Err (packet_error "truncated Shadowsocks 2022 UDP padding")
        else
          rest ← slice plaintext address_start (length plaintext);
          offset ← socks_payload_offset rest;
          slice plaintext (address_start + offset) (length plaintext).

(** What a datagram says: the session and the number of its sender, and its payload. *)
Definition open_udp_datagram (now : Z) (s : UdpSession) (packet : bytes) : ss (bytes * Z * bytes) :=
  if length packet <? SEPARATE_HEADER_SIZE + TAG_SIZE then Err (crypto "Shadowsocks 2022 UDP packet is too short")
  else
    separate_header ← decrypt_separate_header (session_key s) (take SEPARATE_HEADER_SIZE packet);
    let server_session_id := take SESSION_ID_SIZE separate_header in
    if bool_decide (server_session_id = session_id s) then Err (packet_error "server reused Shadowsocks 2022 client session ID")
    else
      let server_packet_id := from_be (drop SESSION_ID_SIZE separate_header) in
      plaintext ← decrypt_udp_body (session_key s) separate_header (drop SEPARATE_HEADER_SIZE packet);
      payload ← decode_server_packet now (session_id s) plaintext;
      Ok (server_session_id, server_packet_id, payload).

Definition window_of (s : UdpSession) (sid : bytes) : ReplayWindow := default default_window (server_windows s !! sid).

Definition decode_udp_datagram (now : Z) (packet : bytes) : act UdpSession Error bytes := λ s,
  match open_udp_datagram now s packet with
  | Ok (sid, id, payload) =>
      let '(w, r) := check_and_update (window_of s sid) id in
      ({| session_key := session_key s; session_id := session_id s; packet_id := packet_id s;
          server_windows := <[sid := w]> (server_windows s) |}, _ ← r; Ok payload)
  | Err e => (s, Err e)
  | Panic => (s, Panic)
  end.
End aead2022.
End Aead2022.

(** ** lib.rs: the client over both generations *)
Module Client.
Inductive Method := Aes256Gcm | Blake3Aes128Gcm2022.
Record ClientConfig := { config_server : string; config_port : Z; method : Method; password : bytes }.
Inductive Protocol := ProtoAead2017 (key : bytes) | ProtoAead2022 (key : bytes).
Record Client := { server : string; port : Z; protocol : Protocol }.
Inductive UdpProtocol := UdpAead2017 (key : bytes) | UdpAead2022 (session : Aead2022.UdpSession).

Section client.
Context (aes256 aes128 : Aead) (hkdf : bytes → bytes → option bytes) (md5 derive_key : bytes → bytes)
  (encrypt_block decrypt_block : bytes → bytes → bytes) (base64_decode : bytes → option bytes).

Definition try_new (c : ClientConfig) : ss Client :=
  protocol ← (match method c with
              | Aes256Gcm => Ok (ProtoAead2017 (Aead2017.evp_bytes_to_key md5 (password c)))
              | Blake3Aes128Gcm2022 => ProtoAead2022 <$> Aead2022.new_aes_128_gcm (base64_decode (password c))
              end);
  Ok {| server := config_server c; port := config_port c; protocol := protocol |}.

(** [udp_session] with the session identifier drawn *)
Definition udp_session (session_id : bytes) (c : Client) : UdpProtocol :=
  match protocol c with
  | ProtoAead2017 key => UdpAead2017 key
  | ProtoAead2022 key => UdpAead2022 (Aead2022.new_session key session_id)
  end.

Definition encode_udp_datagram (salt : bytes) (now : Z) (target : SocketAddr) (payload : bytes) : act UdpProtocol Error bytes := λ s,
  match s with
  | UdpAead2017 key => (s, Aead2017.encode_udp_datagram aes256 hkdf key salt target payload)
  | UdpAead2022 session =>
      let '(session, r) := Aead2022.encode_udp_datagram aes128 derive_key encrypt_block now target payload session in (UdpAead2022 session, r)
  end.

Definition decode_udp_datagram (now : Z) (packet : bytes) : act UdpProtocol Error bytes := λ s,
  match s with
  | UdpAead2017 key => (s, Aead2017.decode_udp_datagram aes256 hkdf key packet)
  | UdpAead2022 session =>
      let '(session, r) := Aead2022.decode_udp_datagram aes128 derive_key decrypt_block now packet session in (UdpAead2022 session, r)
  end.
End client.
End Client.

(** Two hashes of the password fill the key of the first generation. *)
Lemma evp_two_rounds md5 password : (∀ m, length (md5 m) = 16) →
  Aead2017.evp_bytes_to_key md5 password = (md5 password ++ md5 (md5 password ++ password))%list.
Proof.
  intros Hm. unfold Aead2017.evp_bytes_to_key. change Aead2017.KEY_SIZE with (S (S (S 29))) at 2. cbn [Aead2017.key_loop].
  change (length (@nil byte) <? Aead2017.KEY_SIZE) with true. cbv iota. cbn [app].
  assert ((length (md5 password) <? Aead2017.KEY_SIZE) = true) as -> by (by rewrite Hm).
  assert ((length (md5 password ++ md5 (md5 password ++ password))%list <? Aead2017.KEY_SIZE) = false) as -> by (by rewrite length_app, !Hm).
  apply take_ge. by rewrite length_app, !Hm.
Qed.

(** ** Addresses *)
Lemma after_address_write t payload : after_address (socks_address t ++ payload) = Ok payload.
Proof.
  unfold after_address, socks_payload_offset, socks_address. pose proof (length_octets (sa_ip t)) as Ho.
  set (kind := z2b _). set (tail := (octets (sa_ip t) ++ to_be 2 (sa_port t))%list).
  change ([kind] ++ tail)%list with (kind :: tail). cbn [app lookup list_lookup].
  assert (length tail = (if is_ipv4 (sa_ip t) then 6 else 18)) as Ht.
  { subst tail. rewrite length_app, Ho, length_to_be. by destruct (is_ipv4 _). }
  assert (b2z kind = if is_ipv4 (sa_ip t) then 1%Z else 4%Z) as Hk by (subst kind; by destruct (is_ipv4 _)).
  rewrite Hk. cbn [length]. rewrite length_app, Ht.
  destruct (is_ipv4 (sa_ip t)); cbn [Z.eqb Pos.eqb mbind outcome_bind Nat.add].
  all: match goal with |- context [Nat.ltb ?a ?b] => destruct (Nat.ltb_spec a b); [lia|] end; cbn [mbind outcome_bind]; unfold slice.
  all: rewrite get_range_Some by (cbn [length]; rewrite length_app, Ht; lia).
  all: cbn [expect skipn drop]; rewrite <- Ht, drop_app_length; cbn [length]; rewrite Ht; f_equal; apply take_ge; lia.
Qed.

Lemma offset_bound p n : socks_payload_offset p = Ok n → n ≤ length p.
Proof.
  unfold socks_payload_offset. destruct (p !! 0); [|done]. intros (o & _ & H)%outcome_bind_Ok_inv.
  destruct (Nat.ltb_spec (length p) o); [done|]. by injection H as <-.
Qed.

Lemma no_panic_offset p : no_panic (socks_payload_offset p).
Proof. unfold socks_payload_offset. destruct (p !! 0); [|done]. apply no_panic_bind; [by repeat case_match|]. intros o. cbn beta. by destruct (_ <? o). Qed.

Lemma no_panic_slice {A} (l : list A) a b : a ≤ b → b ≤ length l → no_panic (slice (E:=Error) l a b).
Proof. intros. unfold slice. by rewrite get_range_Some. Qed.

Lemma no_panic_after p : no_panic (after_address p).
Proof. unfold after_address. apply no_panic_bind; [apply no_panic_offset|]. intros n Hn%offset_bound. by apply no_panic_slice. Qed.

(** What the relay reports when both directions have ended. *)
Lemma relayed_ok a b c f : relayed a (try_join f (Ok b) (Ok c)) = Ok {| upstream := a; client_to_upstream_bytes := b; upstream_to_client_bytes := c |}.
Proof. done. Qed.

Lemma limit_2017_u16 : (Z.of_nat Aead2017.TCP_CHUNK_LIMIT ≤ 65535)%Z.
Proof. unfold Aead2017.TCP_CHUNK_LIMIT. rewrite Z2Nat.id; lia. Qed.

Lemma limit_2017_receive : over_limit (Some Aead2017.TCP_CHUNK_LIMIT) Aead2017.TCP_CHUNK_LIMIT = false.
Proof. apply Nat.ltb_irrefl. Qed.

Lemma limit_2022_u16 : (Z.of_nat Aead2022.TCP_CHUNK_LIMIT ≤ 65535)%Z.
Proof. unfold Aead2022.TCP_CHUNK_LIMIT. rewrite Z2Nat.id; lia. Qed.

(** A sealed chunk, when sealing succeeds. *)
Lemma chunk_sealed `{Aead} label limit p s : (∀ k x m, is_Some (seal k x [] m)) → length p ≤ limit →
  ∃ s' c, encrypt_chunk label limit p s = (s', Ok c).
Proof.
  intros Hseal Hp. unfold encrypt_chunk. destruct (Nat.ltb_spec limit (length p)); [lia|]. unfold mbind, act_bind, encrypt.
  destruct (Hseal (cipher s) (nonce s) (to_be 2 (Z.of_nat (length p)))) as [l ->].
  destruct (Hseal (cipher (advance_nonce s)) (nonce (advance_nonce s)) p) as [q ->]. by eexists _, _.
Qed.

(** ** The relay of the first generation *)
Section relay_2017.
Context {aes256 : Aead} {Laws : AeadLaws aes256} (hkdf : bytes → bytes → option bytes).
Import Aead2017.

Abbreviation stream_of := (from_salt hkdf).
Abbreviation seal_all := (encrypt_all label TCP_CHUNK_LIMIT).

(** The relay sends its salt and, sealed chunk by chunk, the target and everything that the
    client writes, which a reader with the same key opens again chunk by chunk; to the
    client it writes exactly the chunks of the server that came whole, however the
    response is cut off. It reports both lengths, or the cut if it fell into a payload. *)
Theorem relay_2017_delivers key salt salt' hdr addr ds up down flag ps n w r r' out :
  (∀ k x m, is_Some (seal k x [] m)) →
  stream_of key salt = Ok w → stream_of key salt' = Ok r → length salt' = SALT_SIZE →
  length hdr ≤ TCP_CHUNK_LIMIT → Forall (λ p, length p ≤ TCP_CHUNK_LIMIT) (reads ds) → source_broken ds = None →
  open_sink up → open_sink down → seal_all ps r = (r', Ok out) →
  ∃ up2 down2 sealed w',
    relay_tcp_stream aes256 hkdf key salt hdr addr ds {| pending := salt' ++ take n out; broken := None |} flag (up, down) =
      ((up2, down2),
       if (delivered n ps).2 then
         Ok {| upstream := addr; client_to_upstream_bytes := total_length (reads ds); upstream_to_client_bytes := total_length (delivered n ps).1 |}
       else Err (read_error label " TCP payload chunk" UnexpectedEof)) ∧
    seal_all (hdr :: reads ds) w = (w', Ok sealed) ∧ sent up2 = (sent up ++ salt ++ sealed)%list ∧ shut up2 = true ∧
    written down2 = (written down ++ (delivered n ps).1)%list ∧
    (∃ st, read_chunks label (Some TCP_CHUNK_LIMIT) 0 (w, {| pending := sealed; broken := None |}, new_sink None) =
       (st, Ok (total_length (hdr :: reads ds))) ∧ written st.2 = hdr :: reads ds).
Proof.
  intros Hseal Hw Hr Hs' Hhdr Hds Hclean Hup Hdown Hps.
  destruct (chunk_sealed label TCP_CHUNK_LIMIT hdr w Hseal Hhdr) as (w1 & c & Hc).
  set (up1 := {| written := written up ++ [(salt ++ c)%list]; budget := None; shut := shut up |}).
  destruct (client_sends label TCP_CHUNK_LIMIT (reads ds) w1 up1 0 Hds Hseal eq_refl) as (w' & cs & up2 & Hall & Hrun & Hsent & Hshut).
  destruct (read_chunks_delivers label TCP_CHUNK_LIMIT (Some TCP_CHUNK_LIMIT) limit_2017_u16 limit_2017_receive ps r r' out n 0 down Hps Hdown)
    as (st & Hst & Hwr).
  assert (seal_all (hdr :: reads ds) w = (w', Ok (c ++ cs)%list)) as Hseals.
  { cbn [encrypt_all]. by rewrite (act_bind_ok _ _ _ _ _ Hc), (act_bind_ok _ _ _ _ _ Hall). }
  destruct st as [[s2 i2] down2]. cbn [snd] in Hwr. exists up2, down2, (c ++ cs)%list, w'. split_and!; [|exact Hseals| |exact Hshut|exact Hwr|].
  - unfold relay_tcp_stream. rewrite Hw, Hc. rewrite (write_all_open _ _ _ Hup). fold up1. unfold client_to_upstream. rewrite Hclean, Hrun.
    unfold upstream_to_client, read_salt. rewrite (map_err_ok _ _ _ _ _ (read_exactly_n SALT_SIZE salt' (take n out) None Hs')). rewrite Hr, Hst. rewrite !Z.add_0_l.
    destruct (delivered n ps).2; reflexivity.
  - rewrite Hsent. unfold up1. rewrite sent_app. by rewrite <- !app_assoc.
  - exact (read_chunks_all label TCP_CHUNK_LIMIT (Some TCP_CHUNK_LIMIT) limit_2017_u16 limit_2017_receive _ _ _ _ Hseals).
Qed.

(** No packet makes the UDP decoder panic, and it gives back the payload of every
    datagram that was encoded under its key, whatever the target. *)
Theorem udp_2017_roundtrip key :
  (∀ packet, no_panic (decode_udp_datagram aes256 hkdf key packet)) ∧
  ∀ salt target payload packet, length salt = SALT_SIZE →
    encode_udp_datagram aes256 hkdf key salt target payload = Ok packet → decode_udp_datagram aes256 hkdf key packet = Ok payload.
Proof.
  split.
  - intros p. unfold decode_udp_datagram. apply no_panic_bind; [|intros; apply no_panic_after].
    unfold decrypt_udp_packet. case_match; [done|]. apply no_panic_bind; [|intros; apply no_panic_ok_or].
    unfold udp_cipher, derive_subkey, cipher_of. apply no_panic_bind; [apply no_panic_ok_or|]. intros k. cbn beta. by destruct (_ =? _).
  - intros salt target payload packet Hs. unfold encode_udp_datagram, encrypt_udp_packet, decode_udp_datagram, decrypt_udp_packet.
    intros (c & Hc & (e & He%ok_or_Ok & [= <-])%outcome_bind_Ok_inv)%outcome_bind_Ok_inv.
    rewrite length_app, (seal_length _ _ _ _ _ He). destruct (Nat.ltb_spec (length salt + (length (socks_address target ++ payload) + TAG_SIZE)) (SALT_SIZE + TAG_SIZE)); [lia|].
    rewrite <- Hs, take_app_length, drop_app_length, Hc. cbn [mbind outcome_bind]. rewrite (unseal_seal _ _ _ _ _ He).
    apply after_address_write.
Qed.
End relay_2017.

(** ** The relay of the second generation *)
Section relay_2022.
Context {aes128 : Aead} {Laws : AeadLaws aes128} (derive_key : bytes → bytes).
Import Aead2022.

(** The headers that the client accepts. *)
Definition response_header (timestamp : Z) (request_salt : bytes) (first_length : nat) : bytes :=
  ([z2b HEADER_TYPE_SERVER_STREAM] ++ to_be 8 timestamp ++ request_salt ++ to_be 2 (Z.of_nat first_length))%list.

Lemma no_panic_timestamp now ts what : no_panic (validate_timestamp now ts what).
Proof. unfold validate_timestamp. by case_match. Qed.

Lemma no_panic_response now salt header : no_panic (check_response_header now salt header).
Proof.
  unfold check_response_header. destruct (Nat.eqb_spec (length header) RESPONSE_FIXED_HEADER_SIZE) as [Hl|]; [|done]. cbn [negb].
  unfold RESPONSE_FIXED_HEADER_SIZE in Hl.
  apply no_panic_bind; [apply no_panic_index; lia|]. intros t _. cbn beta. destruct (negb _); [done|].
  apply no_panic_bind; [apply no_panic_slice; lia|]. intros ts _. cbn beta. apply no_panic_bind; [apply no_panic_timestamp|]. intros _ _. cbn beta.
  apply no_panic_bind; [apply no_panic_slice; lia|]. intros s _. cbn beta. destruct (negb _); [done|].
  apply no_panic_bind; [apply no_panic_index; lia|]. intros a _. cbn beta. apply no_panic_bind; [apply no_panic_index; lia|]. done.
Qed.

Lemma index_app_r {E} (pre post : bytes) (i j : nat) : i = length pre + j → index (E:=E) (pre ++ post) i = index post j.
Proof. intros ->. unfold index. rewrite lookup_app_r by lia. by replace (length pre + j - length pre) with j by lia. Qed.

Lemma to_be_bytes2 z : in_u 16 z → ∃ a b, to_be 2 z = [a; b] ∧ from_be [a; b] = z.
Proof.
  intros Hz. pose proof (from_be_to_be_u16 z Hz) as Hf. pose proof (length_to_be 2 z) as Hl.
  destruct (to_be 2 z) as [|a [|b [|]]]; try done. by exists a, b.
Qed.

Lemma from_be_u64 z : in_u 64 z → from_be (to_be 8 z) = z.
Proof. intros Hz. rewrite from_be_to_be. by apply Z.mod_small. Qed.

Lemma timestamp_ok now ts what : (Z.abs (now - ts) ≤ 30)%Z → validate_timestamp now ts what = Ok tt.
Proof. intros H. unfold validate_timestamp, TIMESTAMP_TOLERANCE_SECS. destruct (Z.ltb_spec 30 (Z.abs (now - ts))); [lia|done]. Qed.

Lemma check_response_ok now ts salt n :
  in_u 64 ts → (Z.abs (now - ts) ≤ 30)%Z → length salt = SALT_SIZE → in_u 16 (Z.of_nat n) →
  check_response_header now salt (response_header ts salt n) = Ok n.
Proof.
  intros Hts Hd Hs Hn. unfold check_response_header.
  assert (length (response_header ts salt n) = RESPONSE_FIXED_HEADER_SIZE) as ->.
  { unfold response_header. rewrite !length_app, Hs, !length_to_be. done. }
  rewrite Nat.eqb_refl. cbn [negb]. destruct (to_be_bytes2 _ Hn) as (a & b & Htb & Hab).
  assert (response_header ts salt n = (([z2b HEADER_TYPE_SERVER_STREAM] ++ to_be 8 ts) ++ salt) ++ [a; b])%list as Hsplit
    by (unfold response_header; by rewrite Htb, <- !app_assoc).
  assert (length (([z2b HEADER_TYPE_SERVER_STREAM] ++ to_be 8 ts) ++ salt)%list = 25) as Hl by (rewrite !length_app, length_to_be, Hs; done).
  assert (index (E:=Error) (response_header ts salt n) 0 = Ok (z2b HEADER_TYPE_SERVER_STREAM)) as -> by done. cbn [mbind outcome_bind].
  change (negb (b2z (z2b HEADER_TYPE_SERVER_STREAM) =? HEADER_TYPE_SERVER_STREAM)%Z) with false. cbv iota.
  assert (slice (E:=Error) (response_header ts salt n) 1 9 = Ok (to_be 8 ts)) as -> by (apply (slice_at [_]); rewrite ?length_to_be; done).
  cbn [mbind outcome_bind]. rewrite from_be_u64, timestamp_ok by done. cbn [mbind outcome_bind].
  assert (slice (E:=Error) (response_header ts salt n) 9 25 = Ok salt) as ->.
  { rewrite Hsplit, <- (app_assoc _ salt). apply slice_at; rewrite length_app, length_to_be, ?Hs; done. }
  cbn [mbind outcome_bind]. rewrite bool_decide_eq_true_2 by done. cbn [negb].
  rewrite Hsplit, (index_app_r _ [a; b] 25 0), (index_app_r _ [a; b] 26 1) by (rewrite Hl; done). cbn [index lookup list_lookup expect mbind outcome_bind].
  by rewrite Hab, Nat2Z.id.
Qed.

(** What a server sends: the header, the first payload and further chunks. *)
Definition server_response (ts : Z) (request_salt first : bytes) (ps : list bytes) : act AeadStream Error bytes :=
  h ← encrypt label (response_header ts request_salt (length first));
  f ← encrypt label first;
  cs ← encrypt_all label TCP_CHUNK_LIMIT ps;
  mret (h ++ f ++ cs)%list.

Definition nonempty (l : bytes) : list bytes := match l with [] => [] | _ => [l] end.

Lemma relay_response_delivers now ts salt first ps r r' out down :
  in_u 64 ts → (Z.abs (now - ts) ≤ 30)%Z → length salt = SALT_SIZE → in_u 16 (Z.of_nat (length first)) → open_sink down →
  server_response ts salt first ps r = (r', Ok out) →
  ∃ st, relay_response aes128 now salt (r, {| pending := out; broken := None |}, down) =
          (st, Ok (total_length (first :: ps))) ∧ written st.2 = (written down ++ nonempty first ++ ps)%list.
Proof.
  intros Hts Hd Hs Hf Hdown.
  intros (s1 & h & [Hh ->]%encrypt_inv & (s2 & f & [Hff ->]%encrypt_inv & (s3 & cs & Hcs & [= <- <-])%act_bind_inv)%act_bind_inv)%act_bind_inv.
  assert (length h = RESPONSE_FIXED_HEADER_SIZE + TAG_SIZE) as Hlh.
  { rewrite (seal_length _ _ _ _ _ Hh). unfold response_header. rewrite !length_app, Hs, !length_to_be. done. }
  unfold relay_response.
  rewrite (act_bind_ok _ _ _ (advance_nonce r, {| pending := f ++ cs; broken := None |}, down) (length first)).
  2: { unfold on_fst at 1, decrypt_response_header. rewrite (act_bind_ok _ _ _ (r, {| pending := f ++ cs; broken := None |}) h).
       - rewrite (act_bind_ok _ _ _ (advance_nonce r, {| pending := f ++ cs; broken := None |}) (response_header ts salt (length first))).
         + unfold lift. by rewrite check_response_ok.
         + unfold on_fst. by rewrite (decrypt_seal _ _ _ _ Hh).
       - unfold on_snd. by rewrite (map_err_ok _ _ _ _ _ (read_exactly_n _ h (f ++ cs) None Hlh)). }
  rewrite (act_bind_ok _ _ _ (advance_nonce (advance_nonce r), {| pending := cs; broken := None |}, down) first).
  2: { unfold on_fst at 1. by rewrite (read_payload_sealed label _ first f cs None Hff). }
  set (down1 := match first with [] => down | _ => {| written := written down ++ [first]; budget := None; shut := shut down |} end).
  rewrite (act_bind_ok _ _ _ (advance_nonce (advance_nonce r), {| pending := cs; broken := None |}, down1) tt).
  2: { subst down1. destruct first; [done|]. unfold on_snd, write_downstream. by rewrite (write_all_open _ _ _ Hdown). }
  destruct (read_chunks_delivers label TCP_CHUNK_LIMIT None limit_2022_u16 eq_refl ps _ _ cs (length cs) (Z.of_nat (length first)) down1 Hcs) as (st & Hst & Hw).
  { subst down1. by destruct first. }
  rewrite take_ge in Hst by done. rewrite (delivered_all label TCP_CHUNK_LIMIT _ _ _ _ _ Hcs) in * by done. exists st. split.
  - rewrite Hst. cbn [fst snd]. do 2 f_equal. unfold total_length. cbn [List.concat]. rewrite length_app. lia.
  - rewrite Hw. subst down1. destruct first; [done|]. cbn. by rewrite <- app_assoc.
Qed.

(** The second generation's relay sends its salt, the two sealed headers and, sealed chunk
    by chunk, what the client writes, which opens again under the same key; and it accepts
    every response whose header carries its salt and a timestamp at most thirty seconds
    off, and writes exactly its payloads to the client. *)
Theorem relay_2022_delivers key salt padding sent_at now hdr addr ds up down flag salt' ts first ps w r r' out :
  (∀ k x m, is_Some (seal k x [] m)) →
  from_salt derive_key key salt = Ok w → from_salt derive_key key salt' = Ok r → length salt = SALT_SIZE → length salt' = SALT_SIZE →
  Forall (λ p, length p ≤ TCP_CHUNK_LIMIT) (reads ds) → source_broken ds = None → open_sink up → open_sink down →
  in_u 64 ts → (Z.abs (now - ts) ≤ 30)%Z → in_u 16 (Z.of_nat (length first)) →
  server_response ts salt first ps r = (r', Ok out) →
  ∃ up2 down2 f v sealed w',
    relay_tcp_stream aes128 derive_key key salt padding sent_at now hdr addr ds {| pending := salt' ++ out; broken := None |} flag (up, down) =
      ((up2, down2), Ok {| upstream := addr; client_to_upstream_bytes := total_length (reads ds); upstream_to_client_bytes := total_length (first :: ps) |}) ∧
    written down2 = (written down ++ nonempty first ++ ps)%list ∧
    sent up2 = (sent up ++ salt ++ (f ++ v) ++ sealed)%list ∧ shut up2 = true ∧
    unseal (cipher w) (nonce w) [] f = Some (fixed_header sent_at (variable_header hdr padding)) ∧
    unseal (cipher w) (nonce (advance_nonce w)) [] v = Some (variable_header hdr padding) ∧
    encrypt_all label TCP_CHUNK_LIMIT (reads ds) (advance_nonce (advance_nonce w)) = (w', Ok sealed) ∧
    (∃ st, read_chunks label None 0 (advance_nonce (advance_nonce w), {| pending := sealed; broken := None |}, new_sink None) =
       (st, Ok (total_length (reads ds))) ∧ written st.2 = reads ds).
Proof.
  intros Hseal Hw Hr Hsalt Hsalt' Hds Hclean Hup Hdown Hts Hnow Hf Hresp.
  destruct (Hseal (cipher w) (nonce w) (fixed_header sent_at (variable_header hdr padding))) as [f Hff].
  destruct (Hseal (cipher w) (nonce (advance_nonce w)) (variable_header hdr padding)) as [v Hv].
  set (w2 := advance_nonce (advance_nonce w)).
  assert (encrypt_request_header aes128 sent_at padding hdr w = (w2, Ok (f ++ v)%list)) as Hreq.
  { unfold encrypt_request_header, encrypt, mbind, act_bind. rewrite Hff. cbn [advance_nonce cipher] in Hv |- *. by rewrite Hv. }
  set (up1 := {| written := written up ++ [(salt ++ f ++ v)%list]; budget := None; shut := shut up |}).
  destruct (client_sends label TCP_CHUNK_LIMIT (reads ds) w2 up1 0 Hds Hseal eq_refl) as (w' & cs & up2 & Hall & Hrun & Hsent & Hshut).
  destruct (relay_response_delivers now ts salt first ps r r' out down Hts Hnow Hsalt Hf Hdown Hresp) as ([[s2 i2] down2] & Hst & Hwr).
  exists up2, down2, f, v, cs, w'. split_and!; [|exact Hwr| |exact Hshut|by apply unseal_seal|by apply unseal_seal|exact Hall|].
  - unfold relay_tcp_stream. rewrite Hw, Hreq, (write_all_open _ _ _ Hup). fold up1. unfold client_to_upstream. rewrite Hclean, Hrun.
    unfold upstream_to_client. rewrite (map_err_ok _ _ _ _ _ (read_exactly_n SALT_SIZE salt' out None Hsalt')), Hr, Hst. by rewrite Z.add_0_l.
  - rewrite Hsent. unfold up1. rewrite sent_app. by rewrite <- !app_assoc.
  - exact (read_chunks_all label TCP_CHUNK_LIMIT None limit_2022_u16 eq_refl _ _ _ _ Hall).
Qed.
End relay_2022.

(** ** The nonces of a request

    What a relay sent to the server: the salt and sealed blocks, up to where it stopped. *)
Definition sends_fresh {A : Aead} (key salt : bytes) (ts : list bytes) (up up' : sink) : Prop :=
  ∃ sealed out more, sealed `prefix_of` ts ∧ sealed_fresh key sealed out ∧
    sent up' = (sent up ++ more)%list ∧ more `prefix_of` (salt ++ out)%list.

Lemma sends_nothing {A : Aead} key salt ts up : sends_fresh key salt ts up up.
Proof.
  exists [], [], []. rewrite app_nil_r. split; [apply prefix_nil|]. split; [|split; [done|apply prefix_nil]].
  exists [], []. split; [done|]. split; [apply NoDup_nil_2|]. done.
Qed.

(** Behind the blocks of the header come those of the client's data. *)
Lemma sends_behind {A : Aead} label limit heads initial key salt w1 (ds : source) (up : sink) b w2 up2 r :
  encrypt_each label heads {| cipher := key; nonce := zero_nonce |} = (w1, Ok initial) →
  (Z.of_nat (length heads + 2 * length (reads ds)) ≤ 2 ^ 96)%Z →
  client_to_upstream label limit ds (w1, {| written := written up ++ [(salt ++ initial)%list]; budget := b; shut := shut up |}) = ((w2, up2), r) →
  sends_fresh key salt (heads ++ blocks_of (reads ds)) up up2.
Proof.
  intros Hh Hn (ts & out & more & Hts & He & Hs & Hm)%client_loop_each. rewrite sent_app in Hs.
  exists (heads ++ ts)%list, (initial ++ out)%list, ((salt ++ initial) ++ more)%list. split; [by apply prefix_app|]. split.
  - apply (encrypt_each_fresh label key _ w2); [by eapply encrypt_each_app|]. rewrite length_app.
    apply prefix_length in Hts. rewrite length_blocks in Hts. lia.
  - split; [by rewrite Hs, <- !app_assoc|]. rewrite <- app_assoc. by do 2 apply prefix_app.
Qed.

Lemma encrypt_chunk_each {A : Aead} label limit p s s' out : encrypt_chunk label limit p s = (s', Ok out) →
  encrypt_each label (blocks_of [p]) s = (s', Ok out).
Proof.
  intros (l & c & -> & _ & -> & Hl & Hc)%encrypt_chunk_inv. cbn [blocks_of encrypt_each]. unfold mbind, act_bind, encrypt.
  rewrite Hl. cbn [advance_nonce cipher nonce] in Hc |- *. rewrite Hc. unfold mret, act_ret. by rewrite app_nil_r.
Qed.

Lemma header_each {A : Aead} now padding hdr s s' out : Aead2022.encrypt_request_header A now padding hdr s = (s', Ok out) →
  encrypt_each Aead2022.label [Aead2022.fixed_header now (Aead2022.variable_header hdr padding); Aead2022.variable_header hdr padding] s = (s', Ok out).
Proof.
  intros (s1 & f & Hf & (s2 & v & Hv & [= <- <-])%act_bind_inv)%act_bind_inv. cbn [encrypt_each].
  rewrite (act_bind_ok _ _ _ _ _ Hf). unfold mbind at 1, act_bind at 1. rewrite (act_bind_ok _ _ _ _ _ Hv).
  unfold mbind, act_bind, mret, act_ret. by rewrite app_nil_r.
Qed.

(** C37: Both generations of the relay, whatever the client sends, the upstream answers and whichever call
    fails, send a prefix of their salt and of sealed blocks: those of the target - for the second generation the
    fixed and the variable header - and behind them the length and the payload of every chunk that the client
    writes. Below 2^95 chunks all of these blocks, the headers among them, are
    sealed under nonces that are all different. *)
Theorem request_nonces_fresh (aes256 aes128 : Aead) (hkdf : bytes → bytes → option bytes) (derive_key : bytes → bytes)
    key salt hdr addr ds from flag up down up' down' r w : (Z.of_nat (length (reads ds)) < 2 ^ 95)%Z →
  (Aead2017.from_salt hkdf key salt = Ok w →
   Aead2017.relay_tcp_stream aes256 hkdf key salt hdr addr ds from flag (up, down) = ((up', down'), r) →
   sends_fresh (A := aes256) (cipher w) salt (blocks_of (hdr :: reads ds)) up up') ∧
  ∀ padding sent_at received_at, Aead2022.from_salt derive_key key salt = Ok w →
   Aead2022.relay_tcp_stream aes128 derive_key key salt padding sent_at received_at hdr addr ds from flag (up, down) = ((up', down'), r) →
   let variable := Aead2022.variable_header hdr padding in
   sends_fresh (A := aes128) (cipher w) salt ([Aead2022.fixed_header sent_at variable; variable] ++ blocks_of (reads ds))%list up up'.
Proof.
  intros Hn. split; [intros Hw|intros padding sent_at received_at Hw].
  - assert (w = {| cipher := cipher w; nonce := zero_nonce |}) as Hz.
    { apply outcome_bind_Ok_inv in Hw as (k & _ & (c & _ & Hw)%outcome_bind_Ok_inv). by injection Hw as <-. }
    unfold Aead2017.relay_tcp_stream. rewrite Hw. destruct (encrypt_chunk _ _ hdr w) as [w1 [initial|e|]] eqn:Ei;
      [|intros Hr; injection Hr as <- _ _; apply sends_nothing..].
    apply encrypt_chunk_each in Ei. rewrite Hz in Ei. unfold write_all.
    destruct (budget up) as [[|n]|]; [intros Hr; injection Hr as <- _ _; apply sends_nothing|..];
      (destruct (client_to_upstream _ _ ds _) as [[w2 up2] r2] eqn:Ec; destruct (Aead2017.upstream_to_client _ _ _ _) as [[i2 down2] r3];
       intros Hr; injection Hr as <- _ _; apply (sends_behind _ _ _ _ _ _ _ _ _ _ _ _ _ Ei) in Ec; [exact Ec|cbn [blocks_of length]; lia]).
  - assert (w = {| cipher := cipher w; nonce := zero_nonce |}) as Hz.
    { apply outcome_bind_Ok_inv in Hw as (c & _ & Hw). by injection Hw as <-. }
    unfold Aead2022.relay_tcp_stream. rewrite Hw. destruct (Aead2022.encrypt_request_header _ _ _ _ w) as [w1 [initial|e|]] eqn:Ei;
      [|intros Hr; injection Hr as <- _ _; apply sends_nothing..].
    apply header_each in Ei. rewrite Hz in Ei. unfold write_all.
    destruct (budget up) as [[|n]|]; [intros Hr; injection Hr as <- _ _; apply sends_nothing|..];
      (destruct (client_to_upstream _ _ ds _) as [[w2 up2] r2] eqn:Ec; destruct (Aead2022.upstream_to_client _ _ _ _ _ _) as [[i2 down2] r3];
       intros Hr; injection Hr as <- _ _; apply (sends_behind _ _ _ _ _ _ _ _ _ _ _ _ _ Ei) in Ec; [exact Ec|cbn [length]; lia]).
Qed.

(** ** The UDP sessions of the second generation *)
Section udp_2022.
Context {aes128 : Aead} {Laws : AeadLaws aes128} (derive_key : bytes → bytes) (decrypt_block : bytes → bytes → bytes).
Hypothesis derived_length : ∀ m, length (derive_key m) = 32.
Import Aead2022.

Abbreviation open_udp := (open_udp_datagram aes128 derive_key decrypt_block).
Abbreviation decode_udp := (decode_udp_datagram aes128 derive_key decrypt_block).

(** The packets as they arrive, each with its time; the accepted (session, number) pairs. *)
Fixpoint session_run (s : UdpSession) (ps : list (Z * bytes)) : UdpSession * list (bytes * Z) :=
  match ps with
  | [] => (s, [])
  | (now, p) :: ps =>
      let '(s1, r) := decode_udp now p s in
      let '(s2, accepted) := session_run s1 ps in
      (s2, match open_udp now s p, r with Ok (sid, id, _), Ok _ => (sid, id) :: accepted | _, _ => accepted end)
  end.

Definition windows_rel (s : UdpSession) (a : bytes → Spec.state) : Prop := ∀ sid, window_rel (window_of s sid) (a sid).

Lemma session_run_fresh ps s a : windows_rel s a →
  NoDup (session_run s ps).2 ∧ ∀ sid id, (sid, id) ∈ (session_run s ps).2 → id ∉ Spec.accepted (a sid).
Proof.
  revert s a. induction ps as [|[now p] ps IH]; intros s a Hrel; cbn [session_run].
  { split; [constructor|]. intros sid id Hi. by apply elem_of_nil in Hi. }
  unfold decode_udp_datagram. destruct (open_udp now s p) as [[[sid id] payload]|e|] eqn:Ho.
  2,3: destruct (session_run s ps) as [s2 acc] eqn:Er; specialize (IH s a Hrel); by rewrite Er in IH.
  pose proof (check_and_update_simulates _ _ id (Hrel sid)) as Hstep. pose proof (window_rel_accepts _ _ id (Spec.step (a sid) id).1 (Hrel sid)) as Hacc.
  destruct (check_and_update (window_of s sid) id) as [w r], (Spec.step (a sid) id) as [st b] eqn:Es. destruct Hstep as [Hok Hw]. cbn [fst] in Hacc.
  set (s1 := {| session_key := _ |}). set (a1 := λ x, if decide (x = sid) then st else a x).
  assert (windows_rel s1 a1) as Hrel1.
  { intros x. unfold a1, window_of, s1. cbn [server_windows]. destruct (decide (x = sid)) as [->|Hx].
    - by rewrite lookup_insert_eq.
    - rewrite lookup_insert_ne by done. apply Hrel. }
  specialize (IH s1 a1 Hrel1). destruct (session_run s1 ps) as [s2 acc]. cbn [snd] in *. destruct IH as [Hn Hfresh].
  destruct r as [[]|e|]; cbn [is_ok mbind outcome_bind] in *; subst b.
  - destruct (Hacc eq_refl) as [Hnin Heq]. split.
    + constructor; [|done]. intros Hin. apply Hfresh in Hin. unfold a1 in Hin. rewrite decide_True in Hin by done. rewrite Heq in Hin. set_solver.
    + intros x i [[= -> ->]|Hin]%elem_of_cons; [done|]. apply Hfresh in Hin. unfold a1 in Hin. destruct (decide (x = sid)) as [->|]; [|done].
      rewrite Heq in Hin. set_solver.
  - split; [done|]. intros x i Hin. apply Hfresh in Hin. unfold a1 in Hin. destruct (decide (x = sid)) as [->|]; [|done].
    unfold Spec.step in Es. destruct (Spec.fresh (a sid) id); [done|]. by injection Es as <-.
  - split; [done|]. intros x i Hin. apply Hfresh in Hin. unfold a1 in Hin. destruct (decide (x = sid)) as [->|]; [|done].
    unfold Spec.step in Es. destruct (Spec.fresh (a sid) id); [done|]. by injection Es as <-.
Qed.

Lemma session_key_checked key : length key = KEY_SIZE → block_cipher key = Ok key.
Proof. intros H. unfold block_cipher. by rewrite H. Qed.

Lemma session_cipher_ok key salt : session_cipher derive_key key salt = Ok (session_subkey derive_key key salt).
Proof.
  unfold session_cipher. assert (length (session_subkey derive_key key salt) = KEY_SIZE) as ->; [|done].
  unfold session_subkey. rewrite length_take, derived_length. done.
Qed.

Lemma no_panic_server_packet now sid p : no_panic (decode_server_packet now sid p).
Proof.
  unfold decode_server_packet, SESSION_ID_SIZE. destruct (Nat.ltb_spec (length p) (1 + 8 + 8 + 2)) as [|Hl]; [done|]. cbn [Nat.add] in *.
  apply no_panic_bind; [apply no_panic_index; lia|]. intros t _. cbn beta. destruct (negb _); [done|].
  apply no_panic_bind; [apply no_panic_slice; lia|]. intros ts _. cbn beta. apply no_panic_bind; [apply no_panic_timestamp|]. intros _ _. cbn beta.
  apply no_panic_bind; [apply no_panic_slice; lia|]. intros x _. cbn beta. destruct (negb _); [done|].
  apply no_panic_bind; [apply no_panic_index; lia|]. intros a _. cbn beta. apply no_panic_bind; [apply no_panic_index; lia|]. intros b _. cbn beta.
  match goal with |- context [Nat.ltb ?n ?m] => destruct (Nat.ltb_spec n m) as [|Hs]; [done|] end.
  apply no_panic_bind; [apply no_panic_slice; lia|]. intros rest Hrest. cbn beta. apply no_panic_bind; [apply no_panic_offset|]. intros o Ho%offset_bound. cbn beta.
  apply no_panic_slice; [|].
  all: unfold slice in Hrest; rewrite get_range_Some in Hrest by lia; cbn [expect] in Hrest; injection Hrest as <-;
    rewrite length_take, length_drop in Ho; lia.
Qed.

Lemma no_panic_open now s p : length (session_key s) = KEY_SIZE → no_panic (open_udp now s p).
Proof.
  intros Hk. unfold open_udp_datagram. destruct (Nat.ltb_spec (length p) (SEPARATE_HEADER_SIZE + TAG_SIZE)) as [|Hl]; [done|].
  unfold SEPARATE_HEADER_SIZE, TAG_SIZE in *. apply no_panic_bind.
  - unfold decrypt_separate_header. rewrite session_key_checked by done. cbn [mbind outcome_bind].
    assert (length (take 16 p) = 16) as -> by (rewrite length_take; lia). done.
  - intros h _. cbn beta. case_bool_decide; [done|]. apply no_panic_bind.
    + unfold decrypt_udp_body. rewrite session_cipher_ok. apply no_panic_ok_or.
    + intros x _. cbn beta. apply no_panic_bind; [apply no_panic_server_packet|done].
Qed.

(** C36: However the datagrams arrive, replayed, reordered or forged, no two that the session
    accepts carry the same server session and packet number; and no bytes make the
    decoder panic. *)
Theorem datagrams_accepted_once :
  (∀ now p s, length (session_key s) = KEY_SIZE → (decode_udp now p s).2 ≠ Panic) ∧
  ∀ key sid ps, NoDup (session_run (new_session key sid) ps).2.
Proof.
  split.
  - intros now p s Hk. pose proof (no_panic_open now s p Hk) as Ho. unfold decode_udp_datagram.
    destruct (open_udp now s p) as [[[sid id] payload]|e|]; [|done..].
    assert ((check_and_update (window_of s sid) id).2 ≠ Panic) as Hc by (unfold check_and_update; by repeat case_match).
    destruct (check_and_update (window_of s sid) id) as [w [[]|e|]]; by cbn in *.
  - intros key sid ps. apply (session_run_fresh ps _ (λ _, Spec.init)). intros x. unfold window_of, new_session. cbn [server_windows].
    rewrite lookup_empty. apply window_rel_init.
Qed.

(** *** Datagrams of a server *)
Definition server_body (ts : Z) (client_sid padding : bytes) (from : SocketAddr) (payload : bytes) : bytes :=
  ([z2b HEADER_TYPE_SERVER_PACKET] ++ to_be 8 ts ++ client_sid ++ to_be 2 (Z.of_nat (length padding)) ++ padding ++ socks_address from ++ payload)%list.

Lemma decode_server_body now ts sid padding from payload :
  in_u 64 ts → (Z.abs (now - ts) ≤ 30)%Z → length sid = SESSION_ID_SIZE → in_u 16 (Z.of_nat (length padding)) →
  decode_server_packet now sid (server_body ts sid padding from payload) = Ok payload.
Proof.
  intros Hts Hd Hsid Hpad. unfold SESSION_ID_SIZE in *. set (tail := (socks_address from ++ payload)%list). destruct (to_be_bytes2 _ Hpad) as (a & b & Htb & Hab).
  set (head := ([z2b HEADER_TYPE_SERVER_PACKET] ++ to_be 8 ts ++ sid)%list).
  assert (length head = 17) as Hh by (subst head; rewrite !length_app, length_to_be, Hsid; done).
  assert (server_body ts sid padding from payload = head ++ [a; b] ++ padding ++ tail)%list as Hb
    by (unfold server_body, head, tail; by rewrite Htb, <- !app_assoc).
  assert (length (head ++ [a; b] ++ padding ++ tail)%list = 19 + length padding + length tail) as Hlen by (rewrite !length_app, Hh; cbn [length]; lia).
  unfold decode_server_packet. rewrite Hb, Hlen. unfold SESSION_ID_SIZE. cbn [Nat.add].
  match goal with |- context [Nat.ltb ?n ?m] => destruct (Nat.ltb_spec n m) as [|_]; [lia|] end.
  change (index (head ++ _)%list 0) with (@Ok Error byte (z2b HEADER_TYPE_SERVER_PACKET)). cbn [mbind outcome_bind].
  change (negb (b2z (z2b HEADER_TYPE_SERVER_PACKET) =? HEADER_TYPE_SERVER_PACKET)%Z) with false. cbv iota.
  assert (slice (E:=Error) (head ++ [a; b] ++ padding ++ tail)%list 1 9 = Ok (to_be 8 ts)) as ->.
  { unfold head. rewrite <- !app_assoc. apply (slice_at [_]); rewrite ?length_to_be; done. }
  cbn [mbind outcome_bind]. rewrite from_be_u64, timestamp_ok by done. cbn [mbind outcome_bind].
  assert (slice (E:=Error) (head ++ [a; b] ++ padding ++ tail)%list 9 17 = Ok sid) as ->.
  { unfold head. rewrite (app_assoc [_]), <- (app_assoc _ sid). apply slice_at; rewrite length_app, length_to_be, ?Hsid; done. }
  cbn [mbind outcome_bind]. rewrite bool_decide_eq_true_2 by done. cbn [negb].
  rewrite (index_app_r head _ 17 0), (index_app_r head _ 18 1) by (rewrite Hh; done). cbn [app index lookup list_lookup expect mbind outcome_bind].
  rewrite Hab, Nat2Z.id. match goal with |- context [Nat.ltb ?n ?m] => destruct (Nat.ltb_spec n m) as [|_]; [cbn in *; lia|] end.
  pose proof (after_address_write from payload) as Ha. unfold after_address in Ha. fold tail in Ha.
  assert (∀ o, o ≤ length tail → slice (E:=Error) (head ++ a :: b :: padding ++ tail)%list (19 + length padding + o) (19 + length padding + length tail) = slice tail o (length tail)) as Hs.
  { intros o Ho. unfold slice. change (head ++ a :: b :: padding ++ tail)%list with (head ++ [a; b] ++ padding ++ tail)%list.
    rewrite get_range_Some by (rewrite ?Hlen; lia). rewrite get_range_Some by lia. cbn [expect]. f_equal.
    rewrite !app_assoc. replace (19 + length padding + o) with (length ((head ++ [a; b]) ++ padding)%list + o) by (rewrite !length_app, Hh; cbn [length]; lia).
    rewrite <- drop_drop, drop_app_length. f_equal. rewrite !length_app, Hh. cbn [length]. lia. }
  pose proof (Hs 0 ltac:(lia)) as Hs0. rewrite Nat.add_0_r in Hs0. cbn [Nat.add] in Hs, Hs0. rewrite Hs0.
  assert (slice (E:=Error) tail 0 (length tail) = Ok tail) as -> by (unfold slice; rewrite get_range_Some by lia; cbn [expect]; by rewrite drop_0, Nat.sub_0_r, take_ge by lia).
  cbn [mbind outcome_bind]. apply outcome_bind_Ok_inv in Ha as (o & Ho & Ha). rewrite Ho. cbn [mbind outcome_bind].
  rewrite Hs by by apply offset_bound. exact Ha.
Qed.

Context (encrypt_block : bytes → bytes → bytes).
Hypothesis block_length : ∀ k b, length b = 16 → length (encrypt_block k b) = 16.
Hypothesis block_inverse : ∀ k b, length b = 16 → decrypt_block k (encrypt_block k b) = b.

(** A datagram that a server seals for this session, with a timestamp at most thirty
    seconds off, any padding and any address, gives its payload exactly when the replay
    window of its server session takes its number. *)
Theorem server_datagram_accepted s now ts sid id padding from payload packet :
  length (session_key s) = KEY_SIZE → length (session_id s) = SESSION_ID_SIZE → length sid = SESSION_ID_SIZE → sid ≠ session_id s →
  in_u 64 id → in_u 64 ts → (Z.abs (now - ts) ≤ 30)%Z → in_u 16 (Z.of_nat (length padding)) →
  encrypt_udp_body aes128 derive_key encrypt_block (session_key s) (sid ++ to_be 8 id) (server_body ts (session_id s) padding from payload) = Ok packet →
  (decode_udp now packet s).2 = (_ ← (check_and_update (window_of s sid) id).2; Ok payload).
Proof.
  intros Hkey Hown Hsid Hne Hid Hts Hnow Hpad. unfold SESSION_ID_SIZE in *.
  assert (length (sid ++ to_be 8 id)%list = 16) as Hl by (rewrite length_app, length_to_be, Hsid; done).
  unfold encrypt_udp_body, encrypt_separate_header. rewrite session_key_checked by done. cbn [mbind outcome_bind]. rewrite Hl. cbn [Nat.eqb mbind outcome_bind].
  rewrite session_cipher_ok. cbn [mbind outcome_bind]. remember (encrypt_block (session_key s) (sid ++ to_be 8 id)) as h eqn:Eh.
  assert (length h = 16) as Hh by (rewrite Eh; by apply block_length). intros (c & Hc%ok_or_Ok & [= <-])%outcome_bind_Ok_inv.
  unfold decode_udp_datagram, open_udp_datagram. rewrite length_app, (seal_length _ _ _ _ _ Hc), Hh. unfold SEPARATE_HEADER_SIZE.
  match goal with |- context [Nat.ltb ?n ?m] => destruct (Nat.ltb_spec n m) as [|_]; [lia|] end.
  rewrite take_app_length' by done. rewrite drop_app_length' by done. unfold decrypt_separate_header. rewrite session_key_checked, Hh by done.
  cbn [mbind outcome_bind Nat.eqb]. rewrite Eh, block_inverse by done. unfold SESSION_ID_SIZE. rewrite take_app_length' by done.
  rewrite bool_decide_eq_false_2 by done. unfold decrypt_udp_body. rewrite session_cipher_ok. cbn [mbind outcome_bind]. rewrite (unseal_seal _ _ _ _ _ Hc).
  cbn [ok_or mbind outcome_bind]. rewrite decode_server_body by done. cbn [mbind outcome_bind]. rewrite drop_app_length' by done. rewrite from_be_u64 by done.
  by destruct (check_and_update _ id).
Qed.
End udp_2022.

(** ** Closed runs *)
Definition toy_hkdf (salt key : bytes) : option bytes := Some (take 32 (salt ++ key ++ replicate 32 x00)).
Definition toy_derive (m : bytes) : bytes := take 32 (m ++ replicate 32 x00).
Definition toy_block (k b : bytes) : bytes := rev b.
Definition toy_addr : SocketAddr := socket_addr (V4 16909060) 443.

Lemma length_toy_derive m : length (toy_derive m) = 32.
Proof. unfold toy_derive. rewrite length_take, length_app, length_replicate. lia. Qed.

Lemma length_toy_block k b : length b = 16 → length (toy_block k b) = 16.
Proof. intros H. unfold toy_block. by rewrite length_rev. Qed.

Lemma toy_block_inverse k b : length b = 16 → toy_block k (toy_block k b) = b.
Proof. intros _. apply rev_involutive. Qed.

Lemma toy_seals k x m : is_Some (seal (Aead:=toy_aead) k x [] m).
Proof. by eexists. Qed.

Definition toy_salt (b : byte) : bytes := replicate 32 b.
Definition toy_stream (b : byte) : AeadStream := {| cipher := toy_salt b; nonce := zero_nonce |}.
Definition toy_reads : source := {| reads := [[x41; x42]; [x43]]; source_broken := None |}.
Definition toy_response : bytes := unwrap_or [] (encrypt_all Aead2017.label Aead2017.TCP_CHUNK_LIMIT [[x61]; [x62; x63]] (toy_stream x02)).2.

Lemma toy_response_sealed : encrypt_all Aead2017.label Aead2017.TCP_CHUNK_LIMIT [[x61]; [x62; x63]] (toy_stream x02) =
  ((encrypt_all Aead2017.label Aead2017.TCP_CHUNK_LIMIT [[x61]; [x62; x63]] (toy_stream x02)).1, Ok toy_response).
Proof. vm_compute. reflexivity. Qed.

Lemma toy_reads_short n : 2 ≤ n → Forall (λ p, length p ≤ n) (reads toy_reads).
Proof. intros H. repeat constructor; cbn; lia. Qed.

Lemma relay_2017_delivers_witness :
  ∃ up2 down2, Aead2017.relay_tcp_stream toy_aead toy_hkdf [x0a] (toy_salt x01) [x01; x02] toy_addr toy_reads
    {| pending := toy_salt x02 ++ take 40 toy_response; broken := None |} false (new_sink None, new_sink None) =
    ((up2, down2), Ok {| upstream := toy_addr; client_to_upstream_bytes := 3; upstream_to_client_bytes := 1 |}) ∧
    written down2 = [[x61]].
Proof.
  destruct (relay_2017_delivers toy_hkdf [x0a] (toy_salt x01) (toy_salt x02) [x01; x02] toy_addr toy_reads (new_sink None) (new_sink None) false
    [[x61]; [x62; x63]] 40 (toy_stream x01) (toy_stream x02)
    (encrypt_all Aead2017.label Aead2017.TCP_CHUNK_LIMIT [[x61]; [x62; x63]] (toy_stream x02)).1 toy_response toy_seals eq_refl eq_refl eq_refl) as (up2 & down2 & sealed & w' & Hrun & _ & _ & _ & Hw & _).
  - unfold Aead2017.TCP_CHUNK_LIMIT. cbn [length]. lia.
  - apply toy_reads_short. unfold Aead2017.TCP_CHUNK_LIMIT. lia.
  - reflexivity.
  - reflexivity.
  - reflexivity.
  - exact toy_response_sealed.
  - exists up2, down2. split; [exact Hrun|exact Hw].
Defined.

Lemma udp_2017_roundtrip_witness :
  Aead2017.decode_udp_datagram toy_aead toy_hkdf [x0a]
    (unwrap_or [] (Aead2017.encode_udp_datagram toy_aead toy_hkdf [x0a] (toy_salt x01) toy_addr [x41])) = Ok [x41].
Proof. apply (proj2 (udp_2017_roundtrip toy_hkdf [x0a]) (toy_salt x01) toy_addr [x41]); reflexivity. Defined.

Definition toy_salt16 (b : byte) : bytes := replicate 16 b.
Definition toy_stream16 (b : byte) : AeadStream := {| cipher := replicate 16 x0a; nonce := zero_nonce |}.
Definition toy_key16 : bytes := replicate 16 x0a.
Definition toy_response16 : bytes := unwrap_or [] (server_response 100 (toy_salt16 x01) [x61] [[x62; x63]] (toy_stream16 x02)).2.

Lemma toy_response16_sealed : server_response 100 (toy_salt16 x01) [x61] [[x62; x63]] (toy_stream16 x02) =
  ((server_response 100 (toy_salt16 x01) [x61] [[x62; x63]] (toy_stream16 x02)).1, Ok toy_response16).
Proof. vm_compute. reflexivity. Qed.

Lemma relay_2022_delivers_witness :
  ∃ up2 down2, Aead2022.relay_tcp_stream toy_aead toy_derive toy_key16 (toy_salt16 x01) [x00] 90 110 [x01; x02] toy_addr toy_reads
    {| pending := toy_salt16 x02 ++ toy_response16; broken := None |} true (new_sink None, new_sink None) =
    ((up2, down2), Ok {| upstream := toy_addr; client_to_upstream_bytes := 3; upstream_to_client_bytes := 3 |}) ∧
    written down2 = [[x61]; [x62; x63]].
Proof.
  destruct (relay_2022_delivers toy_derive toy_key16 (toy_salt16 x01) [x00] 90 110 [x01; x02] toy_addr toy_reads (new_sink None) (new_sink None) true
    (toy_salt16 x02) 100 [x61] [[x62; x63]] (toy_stream16 x01) (toy_stream16 x02)
    (server_response 100 (toy_salt16 x01) [x61] [[x62; x63]] (toy_stream16 x02)).1 toy_response16 toy_seals eq_refl eq_refl eq_refl eq_refl)
    as (up2 & down2 & f & v & sealed & w' & Hrun & Hw & _).
  - apply toy_reads_short. unfold Aead2022.TCP_CHUNK_LIMIT. lia.
  - reflexivity.
  - reflexivity.
  - reflexivity.
  - split; [discriminate|reflexivity].
  - vm_compute. discriminate.
  - split; [discriminate|reflexivity].
  - exact toy_response16_sealed.
  - exists up2, down2. split; [exact Hrun|exact Hw].
Defined.

(** A request of the second generation whose third write fails: the headers and one chunk are sent. *)
Definition toy_run16 : (sink * sink) * outcome Error TcpRelayOutcome :=
  Aead2022.relay_tcp_stream toy_aead toy_derive toy_key16 (toy_salt16 x01) [x00] 90 110 [x01; x02] toy_addr toy_reads
    {| pending := []; broken := None |} true (new_sink (Some 2), new_sink None).

Lemma request_nonces_fresh_witness :
  length (sent toy_run16.1.1) = 16 + (11 + 16) + (5 + 16) + (2 + 16) + (2 + 16) ∧
  let variable := Aead2022.variable_header [x01; x02] [x00] in
  sends_fresh (A := toy_aead) (cipher (toy_stream16 x01)) (toy_salt16 x01)
    ([Aead2022.fixed_header 90 variable; variable] ++ blocks_of [[x41; x42]; [x43]])%list (new_sink (Some 2)) toy_run16.1.1.
Proof.
  split; [vm_compute; reflexivity|].
  apply (proj2 (request_nonces_fresh toy_aead toy_aead toy_hkdf toy_derive toy_key16 (toy_salt16 x01) [x01; x02] toy_addr toy_reads
    {| pending := []; broken := None |} true (new_sink (Some 2)) (new_sink None) toy_run16.1.1 toy_run16.1.2 toy_run16.2 (toy_stream16 x01) eq_refl)
    [x00] 90%Z 110%Z); [vm_compute; reflexivity|].
  exact (eq_trans (surjective_pairing toy_run16) (f_equal2 pair (surjective_pairing toy_run16.1) eq_refl)).
Defined.

Definition toy_session : Aead2022.UdpSession := Aead2022.new_session toy_key16 (replicate 8 x11).

Lemma datagrams_accepted_once_witness :
  NoDup (session_run (aes128:=toy_aead) toy_derive toy_block toy_session [(100%Z, [x00]); (100%Z, replicate 64 x01)]).2.
Proof. apply (proj2 (datagrams_accepted_once toy_derive toy_block length_toy_derive)). Defined.

Definition toy_datagram : bytes :=
  unwrap_or [] (Aead2022.encrypt_udp_body toy_aead toy_derive toy_block toy_key16 (replicate 8 x22 ++ to_be 8 7)
    (server_body 95 (replicate 8 x11) [x00; x00] toy_addr [x41])).

Lemma server_datagram_accepted_witness :
  (Aead2022.decode_udp_datagram toy_aead toy_derive toy_block 100 toy_datagram toy_session).2 = Ok [x41].
Proof.
  rewrite (server_datagram_accepted toy_derive toy_block length_toy_derive toy_block length_toy_block toy_block_inverse
    toy_session 100 95 (replicate 8 x22) 7 [x00; x00] toy_addr [x41]).
  - reflexivity.
  - reflexivity.
  - reflexivity.
  - reflexivity.
  - discriminate.
  - split; [discriminate|reflexivity].
  - split; [discriminate|reflexivity].
  - vm_compute. discriminate.
  - split; [discriminate|reflexivity].
  - vm_compute. reflexivity.
Defined.
