(* ===== verification/Vmess.v ===== *)
(** * Vmess: requests, chunks and responses of the VMess client

    [prototype/vmess/src/protocol.rs] and [lib.rs]. The hashes, the block cipher, the
    AEAD, CRC-32, the randomness and the clock are parameters; the key derivation, the
    checksum and the chunk streams are the code's. *)
From Stdlib Require Import ZArith Lia Strings.Byte Ascii String.
From stdpp Require Import base list numbers option strings.
From S2P Require Import Prelude Net Wire AeadStream.
Local Open Scope string_scope.
Local Open Scope nat_scope.

Abbreviation vm := (outcome Error).

Definition CHUNK_LIMIT : nat := Z.to_nat 16383.
Definition CMD_TCP : Z := 1.
Definition CMD_UDP : Z := 2.
Definition OPTION_STANDARD_CHUNK : Z := 1.
Definition SECURITY_AES_128_GCM : Z := 3.
Definition AEAD_TAG_SIZE : nat := 16.

Definition ascii_bytes (s : string) : bytes := List.map (λ c, z2b (Z.of_nat (nat_of_ascii c))) (list_ascii_of_string s).
Definition VMESS_AEAD_KDF : bytes := ascii_bytes "VMess AEAD KDF".
Definition CMD_KEY_SALT : bytes := ascii_bytes "c48619fe-8f02-49e0-b9e9-edf763e17e21".
Definition AUTH_ID_KEY : bytes := ascii_bytes "AES Auth ID Encryption".
Definition HEADER_LEN_KEY : bytes := ascii_bytes "VMess Header AEAD Key_Length".
Definition HEADER_LEN_IV : bytes := ascii_bytes "VMess Header AEAD Nonce_Length".
Definition HEADER_KEY : bytes := ascii_bytes "VMess Header AEAD Key".
Definition HEADER_IV : bytes := ascii_bytes "VMess Header AEAD Nonce".
Definition RESP_LEN_KEY : bytes := ascii_bytes "AEAD Resp Header Len Key".
Definition RESP_LEN_IV : bytes := ascii_bytes "AEAD Resp Header Len IV".
Definition RESP_HEADER_KEY : bytes := ascii_bytes "AEAD Resp Header Key".
Definition RESP_HEADER_IV : bytes := ascii_bytes "AEAD Resp Header IV".

Record RequestContext := { request_iv : bytes; request_key : bytes; response_auth : byte }.

Definition protocol_error (text : string) : Error := mk_error "outbound-protocol" text.

(** ** The checksum *)
Definition fnv1a_step (hash : Z) (b : byte) : Z := wrap_u 32 (Z.lxor hash (b2z b) * 16777619).
Definition fnv1a (l : bytes) : Z := fold_left fnv1a_step l 2166136261%Z.

Section protocol.
Context (aes128 : Aead) (hmac_sha256 : bytes → bytes → bytes) (sha256 md5 : bytes → bytes) (encrypt_block : bytes → bytes → bytes) (crc32 : bytes → Z).

(** ** Key derivation *)
Definition xor_bytes (z : Z) (l : bytes) : bytes := List.map (λ b, z2b (Z.lxor (b2z b) z)) l.
Definition resize (n : nat) (l : bytes) : bytes := (take n l ++ replicate (n - length l) x00)%list.

Definition hmac_with_hash (hash : bytes → bytes) (key msg : bytes) : bytes :=
  let normalized := resize 64 (if 64 <? length key then hash key else key) in
  hash (xor_bytes 92 normalized ++ hash (xor_bytes 54 normalized ++ msg))%list.

(** The keys are matched from the last one on; the list here is reversed. *)
Fixpoint nested_hmac_rev (keys : list bytes) (msg : bytes) : option bytes :=
  match keys with
  | [] => None
  | [key] => Some (hmac_sha256 key msg)
  | key :: parents => Some (hmac_with_hash (λ l, default [] (nested_hmac_rev parents l)) key msg)
  end.
Definition nested_hmac (keys : list bytes) (msg : bytes) : vm bytes := expect (nested_hmac_rev (reverse keys) msg).

Definition kdf (key : bytes) (path : list bytes) : vm bytes := nested_hmac (VMESS_AEAD_KDF :: path) key.
Definition kdf16 (key : bytes) (path : list bytes) : vm bytes := digest ← kdf key path; slice digest 0 16.
Definition kdf12 (key : bytes) (path : list bytes) : vm bytes := digest ← kdf key path; slice digest 0 12.

Definition command_key (user_id : bytes) : bytes := md5 (user_id ++ CMD_KEY_SALT).
Definition sha256_16 (l : bytes) : bytes := take 16 (sha256 l).

(** ** Sealing *)
Definition encrypt_aead (key nonce ad plaintext : bytes) : vm bytes :=
  if length key =? 16 then ok_or (seal key nonce ad plaintext) (mk_error "outbound-crypto" "VMess AEAD encrypt failed: {error:?}")
  else Err (mk_error "outbound-crypto" "failed initializing VMess AEAD cipher: {error:?}").
Definition decrypt_aead (key nonce ad ciphertext : bytes) : vm bytes :=
  if length key =? 16 then ok_or (unseal key nonce ad ciphertext) (mk_error "outbound-crypto" "VMess AEAD decrypt failed: {error:?}")
  else Err (mk_error "outbound-crypto" "failed initializing VMess AEAD cipher: {error:?}").

(** ** Requests *)
Definition write_address (target : SocketAddr) : bytes :=
  (to_be 2 (sa_port target) ++ [z2b (if is_ipv4 (sa_ip target) then 1 else 3)] ++ octets (sa_ip target))%list.

Definition header_fields (command : Z) (target : SocketAddr) (c : RequestContext) : bytes :=
  ([x01] ++ request_iv c ++ request_key c ++
   [response_auth c; z2b OPTION_STANDARD_CHUNK; z2b SECURITY_AES_128_GCM; x00; z2b command] ++ write_address target)%list.
Definition instruction_header (command : Z) (target : SocketAddr) (c : RequestContext) : bytes :=
  let header := header_fields command target c in (header ++ to_be 4 (fnv1a header))%list.

(** [auth_id] at a time in seconds, with the four random bytes drawn *)
Definition auth_id (cmd_key : bytes) (timestamp : Z) (random4 : bytes) : vm bytes :=
  let head := (to_be 8 timestamp ++ random4)%list in
  let plaintext := (head ++ to_be 4 (crc32 head))%list in
  key ← kdf16 cmd_key [AUTH_ID_KEY];
  Ok (encrypt_block key plaintext).

Definition encrypt_header_length (cmd_key id nonce : bytes) (length : nat) : vm bytes :=
  n ← ok_or (try_u 16 (Z.of_nat length)) (protocol_error "VMess header is too large");
  key ← kdf16 cmd_key [HEADER_LEN_KEY; id; nonce];
  iv ← kdf12 cmd_key [HEADER_LEN_IV; id; nonce];
  encrypt_aead key iv id (to_be 2 n).

Definition encrypt_header (cmd_key id nonce header : bytes) : vm bytes :=
  key ← kdf16 cmd_key [HEADER_KEY; id; nonce];
  iv ← kdf12 cmd_key [HEADER_IV; id; nonce];
  encrypt_aead key iv id header.

Definition request (cmd_key : bytes) (timestamp : Z) (random4 nonce8 : bytes) (command : Z) (target : SocketAddr) (c : RequestContext) : vm bytes :=
  id ← auth_id cmd_key timestamp random4;
  let header := instruction_header command target c in
  encrypted_length ← encrypt_header_length cmd_key id nonce8 (length header);
  encrypted_header ← encrypt_header cmd_key id nonce8 header;
  Ok (id ++ encrypted_length ++ nonce8 ++ encrypted_header)%list.

(** ** Chunks *)
Definition chunk_nonce (counter : Z) (iv : bytes) : bytes := (to_be 2 counter ++ take 10 (drop 2 iv))%list.

Definition encrypt_chunk (key iv : bytes) (counter : Z) (payload : bytes) : vm bytes :=
  ciphertext ← encrypt_aead key (chunk_nonce counter iv) [] payload;
  n ← ok_or (try_u 16 (Z.of_nat (length ciphertext))) (protocol_error "VMess encrypted chunk is too large");
  Ok (to_be 2 n ++ ciphertext)%list.
Definition decrypt_chunk (key iv : bytes) (counter : Z) (ciphertext : bytes) : vm bytes :=
  decrypt_aead key (chunk_nonce counter iv) [] ciphertext.

(** ** Responses *)
Definition decrypt_response_length (key iv packet : bytes) : vm bytes :=
  k ← kdf16 key [RESP_LEN_KEY]; n ← kdf12 iv [RESP_LEN_IV]; decrypt_aead k n [] packet.
Definition decrypt_response_header (key iv packet : bytes) : vm bytes :=
  k ← kdf16 key [RESP_HEADER_KEY]; n ← kdf12 iv [RESP_HEADER_IV]; decrypt_aead k n [] packet.

Definition validate_response_header (auth : byte) (header : bytes) : vm unit :=
  if length header <? 4 then Err (protocol_error "truncated VMess response header")
  else
    a ← index header 0;
    if negb (bool_decide (a = auth)) then Err (protocol_error "VMess response auth mismatch")
    else
      n ← index header 3;
      if negb (length header =? 4 + Z.to_nat (b2z n)) then Err (protocol_error "invalid VMess response command length")
      else Ok tt.

(** ** lib.rs: the writer and the reader *)
Record VmessWriter := { w_key : bytes; w_iv : bytes; w_counter : Z }.
Record VmessReader := { r_key : bytes; r_iv : bytes; r_response_auth : byte; header_read : bool; r_counter : Z }.

Definition new_writer (key iv : bytes) : VmessWriter := {| w_key := key; w_iv := iv; w_counter := 0 |}.
Definition new_reader (c : RequestContext) : VmessReader :=
  {| r_key := sha256_16 (request_key c); r_iv := sha256_16 (request_iv c); r_response_auth := response_auth c; header_read := false; r_counter := 0 |}.

Definition write_chunk (payload : bytes) : act (VmessWriter * sink) Error unit := λ '(w, s),
  if CHUNK_LIMIT <? length payload then ((w, s), Err (protocol_error "VMess chunk exceeds {CHUNK_LIMIT} bytes"))
  else
    match encrypt_chunk (w_key w) (w_iv w) (w_counter w) payload with
    | Ok packet =>
        on_snd (write_all (mk_error "outbound-write" "failed writing VMess data chunk: {error}") packet)
          ({| w_key := w_key w; w_iv := w_iv w; w_counter := wrap_u 16 (w_counter w + 1) |}, s)
    | Err e => ((w, s), Err e)
    | Panic => ((w, s), Panic)
    end.

Fixpoint copy_loop (rs : list bytes) (broken : option string) (total : Z) : act (VmessWriter * sink) Error Z :=
  match rs with
  | [] => match broken with Some _ => fail (mk_error "inbound-read" "failed reading TCP downstream: {error}") | None => mret total end
  | p :: rs => _ ← write_chunk p; copy_loop rs broken (total + Z.of_nat (length p))
  end.
Definition copy_from (src : source) : act (VmessWriter * sink) Error Z := copy_loop (reads src) (source_broken src) 0.

Definition close : act (VmessWriter * sink) Error unit :=
  _ ← write_chunk [];
  on_snd (shutdown (mk_error "outbound-write" "failed shutting down VMess writer: {error}")).

Definition client_to_upstream (src : source) : act (VmessWriter * sink) Error Z := n ← copy_from src; _ ← close; mret n.

Definition read_failed (what : string) (_ : io_error) : Error := mk_error "outbound-read" ("failed reading VMess " ++ what ++ ": {error}").

Definition read_response_header : act (VmessReader * input) Error unit :=
  encrypted_length ← on_snd (map_err (read_failed "response header length") (read_exactly (2 + AEAD_TAG_SIZE)));
  '(r, _) ← get;
  l ← lift (decrypt_response_length (r_key r) (r_iv r) encrypted_length);
  if negb (length l =? 2) then fail (protocol_error "invalid VMess response header length")
  else
    a ← lift (index l 0); b ← lift (index l 1);
    encrypted_header ← on_snd (map_err (read_failed "response header") (read_exactly (Z.to_nat (from_be [a; b]) + AEAD_TAG_SIZE)));
    header ← lift (decrypt_response_header (r_key r) (r_iv r) encrypted_header);
    _ ← lift (validate_response_header (r_response_auth r) header);
    on_fst (modify (λ r, {| r_key := r_key r; r_iv := r_iv r; r_response_auth := r_response_auth r; header_read := true; r_counter := r_counter r |})).

Definition count_chunk (r : VmessReader) : VmessReader :=
  {| r_key := r_key r; r_iv := r_iv r; r_response_auth := r_response_auth r; header_read := header_read r; r_counter := wrap_u 16 (r_counter r + 1) |}.

(** The length of the next chunk; the end of the stream is not an error here. *)
Definition read_chunk_length : act input Error (option nat) := λ i,
  match read_exactly 2 i with
  | (i', Ok l) => (i', Ok (Some (Z.to_nat (from_be l))))
  | (i', Err UnexpectedEof) => (i', Ok None)
  | (i', Err e) => (i', Err (read_failed "chunk length" e))
  | (i', Panic) => (i', Panic)
  end.

Definition read_chunk_body (n : nat) : act (VmessReader * input) Error (option bytes) :=
  ciphertext ← on_snd (map_err (read_failed "data chunk") (read_exactly n));
  '(r, _) ← get;
  payload ← lift (decrypt_chunk (r_key r) (r_iv r) (r_counter r) ciphertext);
  _ ← on_fst (modify count_chunk);
  mret (match payload with [] => None | _ => Some payload end).

Definition read_chunk : act (VmessReader * input) Error (option bytes) :=
  '(r, _) ← get;
  _ ← (if header_read r then mret tt else read_response_header);
  o ← on_snd read_chunk_length;
  match o with
  | None | Some 0 => mret None
  | Some n => read_chunk_body n
  end.

(** Every chunk takes at least three bytes, so the pending bytes bound the rounds; out of
    fuel counts as a panic. *)
Fixpoint downstream_loop (fuel : nat) (total : Z) : act (VmessReader * input * sink) Error Z :=
  match fuel with
  | O => lift Panic
  | S fuel =>
      o ← on_fst read_chunk;
      match o with
      | None => mret total
      | Some payload =>
          _ ← on_snd (write_all (mk_error "inbound-write" "failed writing TCP downstream: {error}") payload);
          downstream_loop fuel (total + Z.of_nat (length payload))
      end
  end.
Definition upstream_to_client : act (VmessReader * input * sink) Error Z := λ st, downstream_loop (S (length (pending st.1.2))) 0 st.

Definition write_datagram (payload : bytes) : act (VmessWriter * sink) Error unit := write_chunk payload.
Definition read_datagram : act (VmessReader * input) Error bytes :=
  o ← read_chunk; match o with Some p => mret p | None => fail (mk_error "outbound-read" "VMess UDP stream closed") end.

Record TcpRelayOutcome := { upstream : SocketAddr; client_to_upstream_bytes : Z; upstream_to_client_bytes : Z }.

(** [relay_tcp_with_io] with what it draws; the sinks are upstream and client. *)
Definition relay_tcp_with_io (cmd_key : bytes) (timestamp : Z) (random4 nonce8 : bytes) (c : RequestContext) (upstream_addr target : SocketAddr)
    (downstream : source) (from_upstream : input) (second_first : bool) : act (sink * sink) Error TcpRelayOutcome := λ '(up, down),
  match request cmd_key timestamp random4 nonce8 CMD_TCP target c with
  | Ok packet =>
      match write_all (mk_error "outbound-write" "failed writing VMess TCP request to {upstream_addr}: {error}") packet up with
      | (up, Ok _) =>
          let '((_, up), sent_bytes) := client_to_upstream downstream (new_writer (request_key c) (request_iv c), up) in
          let '((_, _, down), got_bytes) := upstream_to_client (new_reader c, from_upstream, down) in
          ((up, down), '(a, b) ← try_join second_first sent_bytes got_bytes;
                       Ok {| upstream := upstream_addr; client_to_upstream_bytes := a; upstream_to_client_bytes := b |})
      | (up, Err e) => ((up, down), Err e)
      | (up, Panic) => ((up, down), Panic)
      end
  | Err e => ((up, down), Err e)
  | Panic => ((up, down), Panic)
  end.
End protocol.

(** ** Nonces repeat after 65536 chunks *)
Lemma chunk_nonce_eq iv i j :
  chunk_nonce (wrap_u 16 i) iv = chunk_nonce (wrap_u 16 j) iv ↔ (i mod 65536 = j mod 65536)%Z.
Proof.
  unfold chunk_nonce, wrap_u. change (2 ^ 16)%Z with 65536%Z. split; [|by intros ->].
  intros [H _]%app_inj_1; [|by rewrite !length_to_be]. apply (f_equal from_be) in H. rewrite !from_be_to_be in H.
  change (256 ^ Z.of_nat 2)%Z with 65536%Z in H. by rewrite !Z.mod_mod in H by lia.
Qed.

Section proofs.
Context {aes128 : Aead} {Laws : AeadLaws aes128} (hmac_sha256 : bytes → bytes → bytes) (sha256 md5 : bytes → bytes)
  (encrypt_block : bytes → bytes → bytes) (crc32 : bytes → Z).

Lemma encrypt_aead_inv key nonce ad p c : encrypt_aead aes128 key nonce ad p = Ok c →
  length key = 16 ∧ seal key nonce ad p = Some c ∧ length c = length p + 16.
Proof.
  unfold encrypt_aead. destruct (Nat.eqb_spec (length key) 16) as [Hk|]; [|done]. intros Hc%ok_or_Ok.
  split_and!; [done..|]. exact (seal_length _ _ _ _ _ Hc).
Qed.

Lemma decrypt_encrypted_aead key nonce ad p c : encrypt_aead aes128 key nonce ad p = Ok c → decrypt_aead aes128 key nonce ad c = Ok p.
Proof. intros (Hk & Hc & _)%encrypt_aead_inv. unfold decrypt_aead. by rewrite Hk, (unseal_seal _ _ _ _ _ Hc). Qed.

(** *** A server that reads requests *)
Definition parse_address (l : bytes) : option (SocketAddr * bytes) :=
  '(port, l) ← read_exact 2 l;
  '(kind, l) ← read_exact 1 l;
  if bool_decide (kind = [x01]) then '(a, l) ← read_exact 4 l; Some (socket_addr (ipv4_from a) (from_be port), l)
  else if bool_decide (kind = [x03]) then '(a, l) ← read_exact 16 l; Some (socket_addr (ipv6_from a) (from_be port), l)
  else None.

Definition parse_header (h : bytes) : option (Z * SocketAddr * RequestContext) :=
  '(version, l) ← read_exact 1 h;
  '(iv, l) ← read_exact 16 l;
  '(key, l) ← read_exact 16 l;
  '(auth, l) ← read_exact 1 l;
  '(options, l) ← read_exact 4 l;
  '(target, l) ← parse_address l;
  if bool_decide (version = [x01]) && bool_decide (l = to_be 4 (fnv1a (take (length h - 4) h))) then
    match auth, options with
    | [v], [o; s; z; command] =>
        if bool_decide ([o; s; z] = [x01; x03; x00]) then Some (b2z command, target, {| request_iv := iv; request_key := key; response_auth := v |})
        else None
    | _, _ => None
    end
  else None.

Definition open_request (cmd_key packet : bytes) : vm (option (Z * SocketAddr * RequestContext)) :=
  let id := take 16 packet in
  let encrypted_length := take 18 (drop 16 packet) in
  let nonce := take 8 (drop 34 packet) in
  key ← kdf16 hmac_sha256 cmd_key [HEADER_LEN_KEY; id; nonce];
  iv ← kdf12 hmac_sha256 cmd_key [HEADER_LEN_IV; id; nonce];
  l ← decrypt_aead aes128 key iv id encrypted_length;
  key ← kdf16 hmac_sha256 cmd_key [HEADER_KEY; id; nonce];
  iv ← kdf12 hmac_sha256 cmd_key [HEADER_IV; id; nonce];
  header ← decrypt_aead aes128 key iv id (take (Z.to_nat (from_be l) + 16) (drop 42 packet));
  Ok (parse_header header).

(** The addresses that the code writes: no scope, 32 or 128 bits. *)
Lemma parse_write_address t rest : wf_addr t → sa_scope t = 0%Z → parse_address (write_address t ++ rest) = Some (t, rest).
Proof.
  intros [Hip Hport] Hscope. unfold parse_address, write_address. rewrite <- !app_assoc.
  rewrite (read_exact_app 2) by apply length_to_be. cbn [mbind option_bind]. rewrite (read_exact_app 1) by done. cbn [mbind option_bind].
  destruct t as [[n|n] port scope]; cbn [sa_ip sa_port sa_scope is_ipv4] in *; subst scope.
  - rewrite bool_decide_eq_true_2 by done. rewrite (read_exact_app 4) by apply (length_octets (V4 n)). cbn [mbind option_bind].
    by rewrite ipv4_from_octets, from_be_to_be_u16.
  - rewrite bool_decide_eq_false_2 by done. rewrite bool_decide_eq_true_2 by done. rewrite (read_exact_app 16) by apply (length_octets (V6 n)).
    cbn [mbind option_bind]. by rewrite ipv6_from_octets, from_be_to_be_u16.
Qed.

Lemma parse_instruction_header command t c :
  wf_addr t → sa_scope t = 0%Z → in_u 8 command → length (request_iv c) = 16 → length (request_key c) = 16 →
  parse_header (instruction_header command t c) = Some (command, t, c).
Proof.
  intros Ht Hscope Hcmd Hiv Hkey. unfold instruction_header. set (h := header_fields command t c).
  unfold parse_header. rewrite length_app, length_to_be. replace (length h + 4 - 4) with (length h) by lia. rewrite take_app_length.
  remember (to_be 4 (fnv1a h)) as sum eqn:Es. unfold h, header_fields. rewrite <- !app_assoc.
  rewrite (read_exact_app 1 [x01]) by done. cbn [mbind option_bind]. rewrite (read_exact_app 16) by done. cbn [mbind option_bind].
  rewrite (read_exact_app 16) by done. cbn [mbind option_bind].
  change ([response_auth c; ?o; ?s; ?z; ?k] ++ ?l)%list with ([response_auth c] ++ [o; s; z; k] ++ l)%list.
  rewrite (read_exact_app 1) by done. cbn [mbind option_bind]. rewrite (read_exact_app 4) by done. cbn [mbind option_bind].
  rewrite parse_write_address by done. cbn [mbind option_bind]. rewrite !bool_decide_eq_true_2 by done. cbn [andb].
  assert (b2z (z2b command) = command) as -> by (rewrite b2z_z2b; by apply Z.mod_small). by destruct c.
Qed.

(** C38: Whatever is drawn for a request, a server with the command key opens it to exactly the
    command, the target, the response authenticator, the key and the vector of the client. *)
Theorem request_roundtrip cmd_key timestamp random4 nonce8 command t c packet :
  (∀ k b, length (encrypt_block k b) = 16) → length nonce8 = 8 →
  wf_addr t → sa_scope t = 0%Z → in_u 8 command → length (request_iv c) = 16 → length (request_key c) = 16 →
  request aes128 hmac_sha256 encrypt_block crc32 cmd_key timestamp random4 nonce8 command t c = Ok packet →
  open_request cmd_key packet = Ok (Some (command, t, c)).
Proof.
  intros Hblock Hn Ht Hscope Hcmd Hiv Hkey. unfold request. intros (id & Hid & H)%outcome_bind_Ok_inv.
  assert (length id = 16) as Hl.
  { unfold auth_id in Hid. apply outcome_bind_Ok_inv in Hid as (k & _ & Hid). cbn beta in Hid. injection Hid as <-. apply Hblock. }
  remember (instruction_header command t c) as header eqn:Eh. apply outcome_bind_Ok_inv in H as (el & Hel & H). apply outcome_bind_Ok_inv in H as (eh & Heh & [= <-]).
  unfold encrypt_header_length in Hel. apply outcome_bind_Ok_inv in Hel as (n & Hlen%ok_or_Ok & Hel).
  apply outcome_bind_Ok_inv in Hel as (k1 & Hk1 & Hel). apply outcome_bind_Ok_inv in Hel as (i1 & Hi1 & Hel).
  unfold encrypt_header in Heh. apply outcome_bind_Ok_inv in Heh as (k2 & Hk2 & Heh). apply outcome_bind_Ok_inv in Heh as (i2 & Hi2 & Heh).
  assert (n = Z.of_nat (length header) ∧ in_u 16 n) as [Hnl Hn16].
  { unfold try_u in Hlen. case_match eqn:Hg; [|done]. injection Hlen as <-. split; [done|]. bool_hyps. unfold in_u. lia. }
  pose proof (encrypt_aead_inv _ _ _ _ _ Hel) as (_ & _ & Hell). rewrite length_to_be in Hell. cbn [Nat.add] in Hell.
  pose proof (encrypt_aead_inv _ _ _ _ _ Heh) as (_ & _ & Hehl).
  unfold open_request. set (packet := (id ++ el ++ nonce8 ++ eh)%list).
  assert (take 16 packet = id) as -> by by apply take_app_length'.
  assert (take 18 (drop 16 packet) = el) as -> by (unfold packet; rewrite drop_app_length' by done; by apply take_app_length').
  assert (take 8 (drop 34 packet) = nonce8) as ->
    by (unfold packet; rewrite (app_assoc id), drop_app_length' by (rewrite length_app; lia); by apply take_app_length').
  assert (drop 42 packet = eh) as ->
    by (unfold packet; rewrite (app_assoc id), (app_assoc (id ++ el)), drop_app_length' by (rewrite !length_app; lia); done).
  rewrite Hk1. cbn [mbind outcome_bind]. rewrite Hi1. cbn [mbind outcome_bind]. rewrite (decrypt_encrypted_aead _ _ _ _ _ Hel). cbn [mbind outcome_bind].
  rewrite Hk2. cbn [mbind outcome_bind]. rewrite Hi2. cbn [mbind outcome_bind].
  rewrite from_be_to_be_u16 by done. rewrite Hnl, Nat2Z.id, <- Hehl.
  rewrite take_ge by done. rewrite (decrypt_encrypted_aead _ _ _ _ _ Heh). cbn [mbind outcome_bind].
  rewrite Eh. by rewrite parse_instruction_header.
Qed.

(** *** The streams *)
Fixpoint chunks (key iv : bytes) (n : Z) (ps : list bytes) : vm bytes :=
  match ps with
  | [] => Ok []
  | p :: ps => c ← encrypt_chunk aes128 key iv n p; cs ← chunks key iv (wrap_u 16 (n + 1)) ps; Ok (c ++ cs)%list
  end.

Definition counted (r : VmessReader) (n : Z) : VmessReader :=
  {| r_key := r_key r; r_iv := r_iv r; r_response_auth := r_response_auth r; header_read := header_read r; r_counter := n |}.

Lemma read_exactly_0 b : read_exactly 2 {| pending := []; broken := b |} = ({| pending := []; broken := b |}, Err (ended_by {| pending := []; broken := b |})).
Proof. done. Qed.

Lemma read_chunk_sealed r p c rest b : header_read r = true → encrypt_chunk aes128 (r_key r) (r_iv r) (r_counter r) p = Ok c →
  read_chunk aes128 hmac_sha256 (r, {| pending := c ++ rest; broken := b |}) =
    ((count_chunk r, {| pending := rest; broken := b |}), Ok (match p with [] => None | _ => Some p end)).
Proof.
  intros Hr. unfold encrypt_chunk. intros (d & Hd & (n & Hn%ok_or_Ok & H)%outcome_bind_Ok_inv)%outcome_bind_Ok_inv.
  assert (c = (to_be 2 n ++ d)%list) as -> by (revert H; generalize (to_be 2 n); by intros l [= <-]).
  assert (n = Z.of_nat (length d) ∧ in_u 16 n) as [Hnl Hn16].
  { unfold try_u in Hn. case_match eqn:Hg; [|done]. injection Hn as <-. split; [done|]. bool_hyps. unfold in_u. lia. }
  pose proof (encrypt_aead_inv _ _ _ _ _ Hd) as (_ & _ & Hl). rewrite <- app_assoc. unfold read_chunk.
  rewrite (act_bind_ok _ _ _ (r, {| pending := to_be 2 n ++ d ++ rest; broken := b |}) (r, {| pending := to_be 2 n ++ d ++ rest; broken := b |})) by done.
  cbn beta iota. rewrite Hr. rewrite (act_bind_ok _ _ _ (r, {| pending := to_be 2 n ++ d ++ rest; broken := b |}) tt) by done.
  rewrite (act_bind_ok _ _ _ (r, {| pending := d ++ rest; broken := b |}) (Some (length d))).
  2: { unfold on_snd, read_chunk_length. rewrite (read_exactly_n 2 (to_be 2 n) (d ++ rest) b (length_to_be 2 n)).
       rewrite from_be_to_be_u16 by done. by rewrite Hnl, Nat2Z.id. }
  destruct (length d) as [|m] eqn:Em; [lia|]. cbn beta iota. rewrite <- Em. unfold read_chunk_body.
  rewrite (act_bind_ok _ _ _ (r, {| pending := rest; broken := b |}) d) by (unfold on_snd; by rewrite (map_err_ok _ _ _ _ _ (read_exactly_app d rest b))).
  rewrite (act_bind_ok _ _ _ (r, {| pending := rest; broken := b |}) (r, {| pending := rest; broken := b |})) by done. cbn beta iota.
  rewrite (act_bind_ok _ _ _ (r, {| pending := rest; broken := b |}) p) by (unfold lift, decrypt_chunk; by rewrite (decrypt_encrypted_aead _ _ _ _ _ Hd)).
  by destruct p.
Qed.

Lemma chunks_cons key iv n p ps out : chunks key iv n (p :: ps) = Ok out →
  ∃ c cs, encrypt_chunk aes128 key iv n p = Ok c ∧ chunks key iv (wrap_u 16 (n + 1)) ps = Ok cs ∧ out = (c ++ cs)%list ∧ 0 < length c.
Proof.
  cbn [chunks]. intros (c & Hc & (cs & Hcs & [= <-])%outcome_bind_Ok_inv)%outcome_bind_Ok_inv. exists c, cs. split_and!; [done..|].
  unfold encrypt_chunk in Hc. apply outcome_bind_Ok_inv in Hc as (d & _ & (n' & _ & Hc)%outcome_bind_Ok_inv).
  revert Hc. pose proof (length_to_be 2 n') as Hl. revert Hl. generalize (to_be 2 n'). intros l Hl [= <-]. rewrite length_app. lia.
Qed.

(** The chunks end with the end of the stream or with an empty one. *)
Lemma downstream_delivers ps fin r i d fuel total :
  header_read r = true → Forall (λ p, p ≠ []) ps → fin = [] ∨ fin = [[]] → open_sink d →
  chunks (r_key r) (r_iv r) (r_counter r) (ps ++ fin) = Ok i → length i < fuel →
  ∃ st, downstream_loop aes128 hmac_sha256 fuel total (r, {| pending := i; broken := None |}, d) = (st, Ok (total + total_length ps)%Z) ∧
    written st.2 = (written d ++ ps)%list.
Proof.
  intros Hr Hps Hfin. revert r i d fuel total Hr. induction Hps as [|p ps Hp _ IH]; intros r i d fuel total Hr Hd Hi Hf; (destruct fuel as [|fuel]; [lia|]).
  - cbn [app] in Hi. exists (if decide (fin = []) then (r, {| pending := []; broken := None |}, d) else (count_chunk r, {| pending := []; broken := None |}, d)).
    cbn [downstream_loop]. destruct Hfin as [->| ->].
    + injection Hi as <-. rewrite decide_True by done. rewrite (act_bind_ok _ _ _ (r, {| pending := []; broken := None |}, d) None).
      * split; [cbn; by rewrite Z.add_0_r|]. by rewrite app_nil_r.
      * unfold on_fst at 1, read_chunk, mbind, act_bind, get. by rewrite Hr.
    + apply chunks_cons in Hi as (c & cs & Hc & [= <-] & -> & _). rewrite decide_False by done.
      rewrite (act_bind_ok _ _ _ (count_chunk r, {| pending := []; broken := None |}, d) None).
      * split; [cbn; by rewrite Z.add_0_r|]. by rewrite app_nil_r.
      * unfold on_fst at 1. by rewrite (read_chunk_sealed r [] c [] None Hr Hc).
  - cbn [app] in Hi. apply chunks_cons in Hi as (c & cs & Hc & Hcs & -> & Hl). rewrite length_app in Hf. cbn [downstream_loop].
    rewrite (act_bind_ok _ _ _ (count_chunk r, {| pending := cs; broken := None |}, d) (Some p)).
    2: { unfold on_fst at 1. rewrite (read_chunk_sealed r p c cs None Hr Hc). by destruct p. }
    cbn beta iota. erewrite act_bind_ok by (unfold on_snd; by rewrite write_all_open).
    destruct (IH (count_chunk r) cs {| written := written d ++ [p]; budget := None; shut := shut d |} fuel (total + Z.of_nat (length p))%Z)
      as (st & Hst & Hw); [done|done|exact Hcs|lia|].
    exists st. rewrite Hst, Hw. split; [|cbn; by rewrite <- app_assoc]. do 2 f_equal. unfold total_length. cbn [List.concat]. rewrite length_app. lia.
Qed.

(** *** What the client sends *)
Lemma limit_sealed c : c ≤ CHUNK_LIMIT → in_u 16 (Z.of_nat (c + 16)).
Proof. intros H. unfold CHUNK_LIMIT in H. split; [lia|]. change (2 ^ 16)%Z with 65536%Z. lia. Qed.

Lemma write_chunk_ok key iv n p d : (∀ k x m, is_Some (seal k x [] m)) → length key = 16 → length p ≤ CHUNK_LIMIT → open_sink d →
  ∃ c, encrypt_chunk aes128 key iv n p = Ok c ∧
    write_chunk aes128 p ({| w_key := key; w_iv := iv; w_counter := n |}, d) =
      (({| w_key := key; w_iv := iv; w_counter := wrap_u 16 (n + 1) |}, {| written := written d ++ [c]; budget := None; shut := shut d |}), Ok tt).
Proof.
  intros Hseal Hk Hp Hd. destruct (Hseal key (chunk_nonce n iv) p) as [e He].
  assert (encrypt_chunk aes128 key iv n p = Ok (to_be 2 (Z.of_nat (length e)) ++ e)%list) as Hc.
  { unfold encrypt_chunk, encrypt_aead. rewrite Hk, He. cbn [Nat.eqb ok_or mbind outcome_bind]. rewrite (seal_length _ _ _ _ _ He).
    pose proof (limit_sealed _ Hp) as Hl. unfold try_u, TAG_SIZE. destruct Hl as [H1 H2].
    rewrite (proj2 (Z.leb_le _ _) H1), (proj2 (Z.ltb_lt _ _) H2). done. }
  exists (to_be 2 (Z.of_nat (length e)) ++ e)%list. split; [exact Hc|]. unfold write_chunk.
  destruct (Nat.ltb_spec CHUNK_LIMIT (length p)); [lia|]. cbn [w_key w_iv w_counter]. rewrite Hc. unfold on_snd. by rewrite write_all_open.
Qed.

Lemma copy_loop_sends ps key iv n d total : (∀ k x m, is_Some (seal k x [] m)) → length key = 16 →
  Forall (λ p, length p ≤ CHUNK_LIMIT) ps → open_sink d →
  ∃ out n' d', chunks key iv n (ps ++ [[]]) = Ok out ∧
    (x ← copy_loop aes128 ps None total; _ ← close aes128; mret x) ({| w_key := key; w_iv := iv; w_counter := n |}, d) =
      (({| w_key := key; w_iv := iv; w_counter := n' |}, d'), Ok (total + total_length ps)%Z) ∧
    sent d' = (sent d ++ out)%list ∧ shut d' = true.
Proof.
  intros Hseal Hk Hps. revert n d total. induction Hps as [|p ps Hp _ IH]; intros n d total Hd.
  - destruct (write_chunk_ok key iv n [] d Hseal Hk) as (c & Hc & Hw); [cbn; lia|done|].
    exists (c ++ [])%list, (wrap_u 16 (n + 1)), {| written := written d ++ [c]; budget := None; shut := true |}.
    cbn [app chunks]. rewrite Hc. cbn [mbind outcome_bind]. split; [done|]. split; [|split; [rewrite sent_app; by rewrite app_nil_r|done]].
    rewrite (act_bind_ok _ _ _ ({| w_key := key; w_iv := iv; w_counter := n |}, d) total) by done. unfold close.
    erewrite (act_bind_ok _ _ _ _ tt); [cbn; by rewrite Z.add_0_r|]. erewrite act_bind_ok by exact Hw. done.
  - destruct (write_chunk_ok key iv n p d Hseal Hk Hp Hd) as (c & Hc & Hw).
    destruct (IH (wrap_u 16 (n + 1)) {| written := written d ++ [c]; budget := None; shut := shut d |} (total + Z.of_nat (length p))%Z eq_refl)
      as (out & n' & d' & Hout & Hrun & Hsent & Hshut).
    exists (c ++ out)%list, n', d'. cbn [app chunks]. rewrite Hc. cbn [mbind outcome_bind]. rewrite Hout. cbn [mbind outcome_bind]. split; [done|].
    split; [|split; [rewrite Hsent, sent_app; by rewrite <- app_assoc|done]].
    cbn [copy_loop]. unfold mbind at 1, act_bind at 1. rewrite (act_bind_ok _ _ _ _ _ Hw). unfold mbind at 1, act_bind at 1 in Hrun.
    rewrite Hrun. do 2 f_equal. unfold total_length. cbn [List.concat]. rewrite length_app. lia.
Qed.

(** *** What a server answers *)
Definition server_header (key iv header : bytes) : vm bytes :=
  k ← kdf16 hmac_sha256 key [RESP_LEN_KEY]; n ← kdf12 hmac_sha256 iv [RESP_LEN_IV];
  l ← encrypt_aead aes128 k n [] (to_be 2 (Z.of_nat (length header)));
  k ← kdf16 hmac_sha256 key [RESP_HEADER_KEY]; n ← kdf12 hmac_sha256 iv [RESP_HEADER_IV];
  h ← encrypt_aead aes128 k n [] header;
  Ok (l ++ h)%list.

Definition after_header (r : VmessReader) : VmessReader :=
  {| r_key := r_key r; r_iv := r_iv r; r_response_auth := r_response_auth r; header_read := true; r_counter := r_counter r |}.

Lemma header_length auth header : validate_response_header auth header = Ok tt → in_u 16 (Z.of_nat (length header)).
Proof.
  unfold validate_response_header. case_match; [done|]. intros (a & _ & H1)%outcome_bind_Ok_inv. revert H1. case_match; [done|].
  intros (n & _ & H2)%outcome_bind_Ok_inv. destruct (Nat.eqb_spec (length header) (4 + Z.to_nat (b2z n))) as [He|]; [|done].
  pose proof (b2z_range n). split; [lia|]. change (2 ^ 16)%Z with 65536%Z. lia.
Qed.

Lemma read_header_sealed r header sealed rest b :
  server_header (r_key r) (r_iv r) header = Ok sealed → validate_response_header (r_response_auth r) header = Ok tt →
  read_response_header aes128 hmac_sha256 (r, {| pending := sealed ++ rest; broken := b |}) = ((after_header r, {| pending := rest; broken := b |}), Ok tt).
Proof.
  unfold server_header. intros H Hv. apply outcome_bind_Ok_inv in H as (k1 & Hk1 & H). apply outcome_bind_Ok_inv in H as (n1 & Hn1 & H).
  apply outcome_bind_Ok_inv in H as (l & Hl & H). apply outcome_bind_Ok_inv in H as (k2 & Hk2 & H). apply outcome_bind_Ok_inv in H as (n2 & Hn2 & H).
  apply outcome_bind_Ok_inv in H as (h & Hh & [= <-]). pose proof (header_length _ _ Hv) as H16. destruct (to_be 2 (Z.of_nat (length header))) as [|x [|y [|]]] eqn:Et.
  all: pose proof (length_to_be 2 (Z.of_nat (length header))) as Hlt; rewrite Et in Hlt; try done.
  pose proof (from_be_to_be_u16 _ H16) as Hf. rewrite Et in Hf.
  pose proof (encrypt_aead_inv _ _ _ _ _ Hl) as (_ & _ & Hll). pose proof (encrypt_aead_inv _ _ _ _ _ Hh) as (_ & _ & Hlh).
  rewrite <- app_assoc. unfold read_response_header.
  rewrite (act_bind_ok _ _ _ (r, {| pending := h ++ rest; broken := b |}) l) by (unfold on_snd; by rewrite (map_err_ok _ _ _ _ _ (read_exactly_n 18 l (h ++ rest) b Hll))).
  rewrite (act_bind_ok _ _ _ (r, {| pending := h ++ rest; broken := b |}) (r, {| pending := h ++ rest; broken := b |})) by done. cbn beta iota.
  rewrite (act_bind_ok _ _ _ (r, {| pending := h ++ rest; broken := b |}) [x; y]).
  2: { unfold lift, decrypt_response_length. rewrite Hk1. cbn [mbind outcome_bind]. rewrite Hn1. cbn [mbind outcome_bind]. by rewrite (decrypt_encrypted_aead _ _ _ _ _ Hl). }
  cbn [length Nat.eqb negb]. rewrite (act_bind_ok _ _ _ (r, {| pending := h ++ rest; broken := b |}) x) by done.
  rewrite (act_bind_ok _ _ _ (r, {| pending := h ++ rest; broken := b |}) y) by done. rewrite Hf, Nat2Z.id.
  rewrite (act_bind_ok _ _ _ (r, {| pending := rest; broken := b |}) h) by (unfold on_snd; by rewrite (map_err_ok _ _ _ _ _ (read_exactly_n _ h rest b Hlh))).
  rewrite (act_bind_ok _ _ _ (r, {| pending := rest; broken := b |}) header).
  2: { unfold lift, decrypt_response_header. rewrite Hk2. cbn [mbind outcome_bind]. rewrite Hn2. cbn [mbind outcome_bind]. by rewrite (decrypt_encrypted_aead _ _ _ _ _ Hh). }
  rewrite (act_bind_ok _ _ _ (r, {| pending := rest; broken := b |}) tt) by (unfold lift; by rewrite Hv). done.
Qed.

Lemma downstream_after_header r header sealed i d fuel total :
  header_read r = false → server_header (r_key r) (r_iv r) header = Ok sealed → validate_response_header (r_response_auth r) header = Ok tt →
  downstream_loop aes128 hmac_sha256 (S fuel) total (r, {| pending := sealed ++ i; broken := None |}, d) =
  downstream_loop aes128 hmac_sha256 (S fuel) total (after_header r, {| pending := i; broken := None |}, d).
Proof.
  intros Hr Hs Hv. cbn [downstream_loop].
  assert (read_chunk aes128 hmac_sha256 (r, {| pending := sealed ++ i; broken := None |}) = read_chunk aes128 hmac_sha256 (after_header r, {| pending := i; broken := None |})) as He.
  { unfold read_chunk. rewrite (act_bind_ok _ _ _ (r, {| pending := sealed ++ i; broken := None |}) (r, {| pending := sealed ++ i; broken := None |})) by done. cbn beta iota. rewrite Hr.
    rewrite (act_bind_ok _ _ _ _ _ (read_header_sealed r header sealed i None Hs Hv)). done. }
  apply act_bind_cong. unfold on_fst. by rewrite He.
Qed.

(** The relay sends a request and then, chunk by chunk and closed by an empty chunk, everything
    that the client writes, which a reader with its key and vector opens again; and when the
    server answers with a valid header and nonempty chunks, closed or just ended, the client
    is written exactly these chunks. *)
Theorem vmess_relay_delivers cmd_key timestamp random4 nonce8 c addr target packet ds up down flag header sealed ps fin out r :
  (∀ k x m, is_Some (seal k x [] m)) → length (request_key c) = 16 →
  request aes128 hmac_sha256 encrypt_block crc32 cmd_key timestamp random4 nonce8 CMD_TCP target c = Ok packet →
  Forall (λ p, length p ≤ CHUNK_LIMIT) (reads ds) → source_broken ds = None → open_sink up → open_sink down →
  r = new_reader sha256 c → server_header (r_key r) (r_iv r) header = Ok sealed → validate_response_header (response_auth c) header = Ok tt →
  Forall (λ p, p ≠ []) ps → fin = [] ∨ fin = [[]] → chunks (r_key r) (r_iv r) 0 (ps ++ fin) = Ok out →
  ∃ up2 down2 body,
    relay_tcp_with_io aes128 hmac_sha256 sha256 encrypt_block crc32 cmd_key timestamp random4 nonce8 c addr target ds {| pending := sealed ++ out; broken := None |} flag (up, down) =
      ((up2, down2), Ok {| upstream := addr; client_to_upstream_bytes := total_length (reads ds); upstream_to_client_bytes := total_length ps |}) ∧
    sent up2 = (sent up ++ packet ++ body)%list ∧ shut up2 = true ∧ written down2 = (written down ++ ps)%list ∧
    chunks (request_key c) (request_iv c) 0 (reads ds ++ [[]]) = Ok body ∧
    (Forall (λ p, p ≠ []) (reads ds) →
     ∃ st, downstream_loop aes128 hmac_sha256 (S (length body)) 0
             ({| r_key := request_key c; r_iv := request_iv c; r_response_auth := response_auth c; header_read := true; r_counter := 0 |},
              {| pending := body; broken := None |}, new_sink None) = (st, Ok (total_length (reads ds))) ∧ written st.2 = reads ds).
Proof.
  intros Hseal Hk Hreq Hds Hclean Hup Hdown -> Hsealed Hvalid Hps Hfin Hout.
  set (up1 := {| written := written up ++ [packet]; budget := None; shut := shut up |}).
  destruct (copy_loop_sends (reads ds) (request_key c) (request_iv c) 0 up1 0 Hseal Hk Hds eq_refl) as (body & n' & up2 & Hbody & Hrun & Hsent & Hshut).
  destruct (downstream_delivers ps fin (after_header (new_reader sha256 c)) out down (S (length (sealed ++ out))) 0 eq_refl Hps Hfin Hdown Hout)
    as ([[r2 i2] down2] & Hst & Hw); [rewrite length_app; lia|].
  exists up2, down2, body. split_and!; [|rewrite Hsent; unfold up1; rewrite sent_app; by rewrite <- app_assoc|exact Hshut|exact Hw|exact Hbody|].
  - unfold relay_tcp_with_io. rewrite Hreq, (write_all_open _ _ _ Hup). fold up1.
    assert (client_to_upstream aes128 ds (new_writer (request_key c) (request_iv c), up1) = (({| w_key := request_key c; w_iv := request_iv c; w_counter := n' |}, up2), Ok (total_length (reads ds)))) as ->.
    { unfold client_to_upstream, copy_from. rewrite Hclean. exact Hrun. }
    unfold upstream_to_client. cbn [fst snd pending]. rewrite (downstream_after_header (new_reader sha256 c) header sealed out down _ 0 eq_refl Hsealed Hvalid), Hst. done.
  - intros Hne. destruct (downstream_delivers (reads ds) [[]] {| r_key := request_key c; r_iv := request_iv c; r_response_auth := response_auth c; header_read := true; r_counter := 0 |}
      body (new_sink None) (S (length body)) 0 eq_refl Hne (or_intror eq_refl) eq_refl Hbody) as (st & Hst' & Hw'); [lia|]. by exists st.
Qed.
End proofs.

(** The nonces of two chunks of one direction are the same exactly when their numbers agree
    modulo 65536: the counter of the code wraps around, under one key. *)
Theorem chunk_nonces_repeat_iff iv i j :
  chunk_nonce (wrap_u 16 i) iv = chunk_nonce (wrap_u 16 j) iv ↔ (i mod 65536 = j mod 65536)%Z.
Proof. apply chunk_nonce_eq. Qed.

(** ** Closed runs *)
Definition toy_hmac (k m : bytes) : bytes := take 32 (m ++ k ++ replicate 32 x00).
Definition toy_sha (m : bytes) : bytes := take 32 (m ++ replicate 32 x00).
Definition toy_cipher (k b : bytes) : bytes := take 16 (b ++ replicate 16 x00).
Definition toy_crc (m : bytes) : Z := 7.
Definition toy_context : RequestContext := {| request_iv := replicate 16 x01; request_key := replicate 16 x02; response_auth := x55 |}.
Definition toy_target : SocketAddr := socket_addr (V4 16909060) 443.
Definition toy_request : bytes :=
  unwrap_or [] (request toy_aead toy_hmac toy_cipher toy_crc (replicate 16 x0b) 100 (replicate 4 x0c) (replicate 8 x0d) CMD_TCP toy_target toy_context).

Lemma toy_request_ok :
  request toy_aead toy_hmac toy_cipher toy_crc (replicate 16 x0b) 100 (replicate 4 x0c) (replicate 8 x0d) CMD_TCP toy_target toy_context = Ok toy_request.
Proof. apply (is_ok_unwrap []). vm_compute. reflexivity. Qed.

Lemma length_toy_cipher k b : length (toy_cipher k b) = 16.
Proof. unfold toy_cipher. rewrite length_take, length_app, length_replicate. lia. Qed.

Lemma request_roundtrip_witness :
  open_request toy_hmac (replicate 16 x0b) toy_request = Ok (Some (CMD_TCP, toy_target, toy_context)).
Proof.
  apply (request_roundtrip toy_hmac toy_cipher toy_crc (replicate 16 x0b) 100 (replicate 4 x0c) (replicate 8 x0d)).
  - exact length_toy_cipher.
  - reflexivity.
  - repeat split; try reflexivity; try discriminate.
  - reflexivity.
  - split; [discriminate|reflexivity].
  - reflexivity.
  - reflexivity.
  - exact toy_request_ok.
Defined.

Definition toy_reader : VmessReader := new_reader toy_sha toy_context.
Definition toy_source : source := {| reads := [[x41; x42]; [x43]]; source_broken := None |}.
Definition toy_answer : bytes := unwrap_or [] (server_header toy_hmac (r_key toy_reader) (r_iv toy_reader) [x55; x00; x00; x00]).
Definition toy_chunks : bytes := unwrap_or [] (chunks (aes128:=toy_aead) (r_key toy_reader) (r_iv toy_reader) 0 [[x61]; [x62; x63]; []]).

Lemma vmess_relay_delivers_witness :
  ∃ up2 down2, relay_tcp_with_io toy_aead toy_hmac toy_sha toy_cipher toy_crc (replicate 16 x0b) 100 (replicate 4 x0c) (replicate 8 x0d) toy_context
    toy_target toy_target toy_source {| pending := toy_answer ++ toy_chunks; broken := None |} false (new_sink None, new_sink None) =
    ((up2, down2), Ok {| upstream := toy_target; client_to_upstream_bytes := 3; upstream_to_client_bytes := 3 |}) ∧
    written down2 = [[x61]; [x62; x63]].
Proof.
  destruct (vmess_relay_delivers toy_hmac toy_sha toy_cipher toy_crc (replicate 16 x0b) 100 (replicate 4 x0c) (replicate 8 x0d) toy_context
    toy_target toy_target toy_request toy_source (new_sink None) (new_sink None) false [x55; x00; x00; x00] toy_answer [[x61]; [x62; x63]] [[]] toy_chunks toy_reader)
    as (up2 & down2 & body & Hrun & _ & _ & Hw & _).
  - by eexists.
  - reflexivity.
  - exact toy_request_ok.
  - repeat apply List.Forall_cons; try apply List.Forall_nil; unfold CHUNK_LIMIT; cbn [length]; lia.
  - reflexivity.
  - reflexivity.
  - reflexivity.
  - reflexivity.
  - apply (is_ok_unwrap []). vm_compute. reflexivity.
  - reflexivity.
  - repeat constructor; discriminate.
  - right. reflexivity.
  - apply (is_ok_unwrap []). vm_compute. reflexivity.
  - exists up2, down2. split; [exact Hrun|exact Hw].
Defined.
