(* ===== verification/Trojan.v ===== *)
(** * Trojan: requests and UDP packets of the Trojan client

    [prototype/trojan/src/lib.rs]. TLS is an opaque stream; SHA-224 is a parameter. *)
From Stdlib Require Import ZArith Lia Strings.Byte Ascii String.
From stdpp Require Import base list numbers option strings.
From S2P Require Import Prelude Net Wire.
Local Open Scope string_scope.
Local Open Scope nat_scope.

Definition CRLF : bytes := [x0d; x0a].
Definition CMD_CONNECT : Z := 1.
Definition CMD_UDP_ASSOCIATE : Z := 3.

(** [write!("{byte:02x}")] *)
Definition hex_digit (z : Z) : byte := z2b (if (z <? 10)%Z then 48 + z else 87 + z).
Definition hex_byte (b : byte) : bytes := [hex_digit (b2z b / 16); hex_digit (b2z b mod 16)].
Definition password_hash (sha224 : bytes → bytes) (password : bytes) : bytes := List.concat (List.map hex_byte (sha224 password)).

Definition write_address (target : SocketAddr) : bytes :=
  ([z2b (if is_ipv4 (sa_ip target) then 1 else 4)] ++ octets (sa_ip target) ++ to_be 2 (sa_port target))%list.

Definition request_header (hash : bytes) (cmd : Z) (target : SocketAddr) : bytes :=
  (hash ++ CRLF ++ [z2b cmd] ++ write_address target ++ CRLF)%list.

Definition udp_packet (target : SocketAddr) (payload : bytes) : outcome Error bytes :=
  n ← ok_or (try_u 16 (Z.of_nat (length payload))) (mk_error "outbound-protocol" "Trojan UDP payload exceeds 65535 bytes");
  Ok (write_address target ++ to_be 2 n ++ CRLF ++ payload)%list.

Definition trojan_read (n : nat) : act input Error bytes :=
  map_err (λ _, mk_error "outbound-read" "failed reading Trojan UDP packet: {error}") (read_exactly n).

Definition read_address : act input Error unit :=
  atyp ← trojan_read 1;
  a ← lift (index atyp 0);
  if (b2z a =? 1)%Z then _ ← trojan_read (4 + 2); mret tt
  else if (b2z a =? 3)%Z then
    n ← trojan_read 1; k ← lift (index n 0); _ ← trojan_read (Z.to_nat (b2z k) + 2); mret tt
  else if (b2z a =? 4)%Z then _ ← trojan_read (16 + 2); mret tt
  else fail (mk_error "outbound-protocol" "unsupported Trojan UDP address type").

Definition read_udp_packet : act input Error bytes :=
  _ ← read_address;
  n ← trojan_read 2;
  crlf ← trojan_read 2;
  if negb (bool_decide (crlf = CRLF)) then fail (mk_error "outbound-protocol" "invalid Trojan UDP packet delimiter")
  else trojan_read (Z.to_nat (from_be n)).

Definition write_datagram (target : SocketAddr) (payload : bytes) : act sink Error unit :=
  packet ← lift (udp_packet target payload);
  write_all (mk_error "outbound-write" "failed writing Trojan UDP packet: {error}") packet.

(** [connect_udp_with_tls] on an open TLS stream *)
Definition connect_udp (hash : bytes) (target : SocketAddr) : act sink Error unit :=
  write_all (mk_error "outbound-write" "failed writing Trojan UDP associate request: {error}") (request_header hash CMD_UDP_ASSOCIATE target).

(** ** What a server reads *)
Definition parse_target (l : bytes) : option (SocketAddr * bytes) :=
  '(kind, l) ← read_exact 1 l;
  '(ip, l) ← (if bool_decide (kind = [x01]) then '(a, l) ← read_exact 4 l; Some (ipv4_from a, l)
              else if bool_decide (kind = [x04]) then '(a, l) ← read_exact 16 l; Some (ipv6_from a, l)
              else None);
  '(port, l) ← read_exact 2 l;
  Some (socket_addr ip (from_be port), l).

Definition parse_request (hash_length : nat) (l : bytes) : option (bytes * Z * SocketAddr * bytes) :=
  '(hash, l) ← read_exact hash_length l;
  '(end1, l) ← read_exact 2 l;
  '(cmd, l) ← read_exact 1 l;
  '(target, l) ← parse_target l;
  '(end2, l) ← read_exact 2 l;
  if bool_decide (end1 = CRLF ∧ end2 = CRLF) then Some (hash, from_be cmd, target, l) else None.

Lemma parse_write_target t rest : wf_addr t → sa_scope t = 0%Z → parse_target (write_address t ++ rest) = Some (t, rest).
Proof.
  intros [Hip Hport] Hscope. unfold parse_target, write_address. rewrite <- !app_assoc. rewrite (read_exact_app 1) by done. cbn [mbind option_bind].
  destruct t as [[n|n] port scope]; cbn [sa_ip sa_port sa_scope is_ipv4] in *; subst scope.
  - rewrite bool_decide_eq_true_2 by done. rewrite (read_exact_app 4) by apply (length_octets (V4 n)). cbn [mbind option_bind].
    rewrite (read_exact_app 2) by apply length_to_be. cbn [mbind option_bind]. by rewrite ipv4_from_octets, from_be_to_be_u16.
  - rewrite bool_decide_eq_false_2 by done. rewrite bool_decide_eq_true_2 by done. rewrite (read_exact_app 16) by apply (length_octets (V6 n)). cbn [mbind option_bind].
    rewrite (read_exact_app 2) by apply length_to_be. cbn [mbind option_bind]. by rewrite ipv6_from_octets, from_be_to_be_u16.
Qed.

Lemma length_password_hash sha224 p : length (password_hash sha224 p) = 2 * length (sha224 p).
Proof. unfold password_hash. induction (sha224 p) as [|b l IH]; [done|]. cbn [List.map List.concat]. rewrite length_app, IH. cbn. lia. Qed.

Lemma trojan_read_app l rest b n : length l = n → trojan_read n {| pending := l ++ rest; broken := b |} = ({| pending := rest; broken := b |}, Ok l).
Proof. intros H. unfold trojan_read. by rewrite (map_err_ok _ _ _ _ _ (read_exactly_n n l rest b H)). Qed.

Lemma read_address_write t rest b : read_address {| pending := write_address t ++ rest; broken := b |} = ({| pending := rest; broken := b |}, Ok tt).
Proof.
  unfold read_address, write_address. rewrite <- app_assoc. set (kind := z2b _).
  rewrite (act_bind_ok _ _ _ {| pending := (octets (sa_ip t) ++ to_be 2 (sa_port t)) ++ rest; broken := b |} [kind]) by by apply trojan_read_app.
  rewrite (act_bind_ok _ _ _ {| pending := (octets (sa_ip t) ++ to_be 2 (sa_port t)) ++ rest; broken := b |} kind) by done.
  pose proof (length_octets (sa_ip t)) as Ho. assert (b2z kind = if is_ipv4 (sa_ip t) then 1%Z else 4%Z) as -> by (subst kind; by destruct (is_ipv4 _)).
  destruct (is_ipv4 (sa_ip t)); cbn [Z.eqb Pos.eqb].
  all: erewrite act_bind_ok; [|apply trojan_read_app; rewrite length_app, Ho, length_to_be; done]; done.
Qed.

Lemma read_packet_written t payload packet rest b : udp_packet t payload = Ok packet →
  read_udp_packet {| pending := packet ++ rest; broken := b |} = ({| pending := rest; broken := b |}, Ok payload).
Proof.
  unfold udp_packet. intros (n & Hn%ok_or_Ok & H)%outcome_bind_Ok_inv.
  assert (n = Z.of_nat (length payload) ∧ in_u 16 n) as [Hnl Hn16].
  { unfold try_u in Hn. case_match eqn:Hg; [|done]. injection Hn as <-. split; [done|]. bool_hyps. unfold in_u. lia. }
  assert (packet = write_address t ++ to_be 2 n ++ CRLF ++ payload)%list as -> by congruence. clear H.
  unfold read_udp_packet. rewrite <- !app_assoc. rewrite (act_bind_ok _ _ _ _ _ (read_address_write t _ b)).
  rewrite (act_bind_ok _ _ _ _ _ (trojan_read_app (to_be 2 n) _ b 2 (length_to_be 2 n))).
  rewrite (act_bind_ok _ _ _ _ _ (trojan_read_app CRLF (payload ++ rest) b 2 eq_refl)). rewrite bool_decide_eq_true_2 by done. cbn [negb].
  rewrite from_be_to_be_u16, Hnl, Nat2Z.id by done. by apply trojan_read_app.
Qed.

Fixpoint udp_packets (l : list (SocketAddr * bytes)) : outcome Error bytes :=
  match l with [] => Ok [] | (t, p) :: l => c ← udp_packet t p; cs ← udp_packets l; Ok (c ++ cs)%list end.

Fixpoint read_packets (n : nat) : act input Error (list bytes) :=
  match n with O => mret [] | S n => p ← read_udp_packet; ps ← read_packets n; mret (p :: ps) end.

Definition trojan_no_panic (i : input) : Prop := (read_udp_packet i).2 ≠ Panic.

Lemma trojan_read_any n i : ∃ i' r, trojan_read n i = (i', r) ∧ match r with Ok l => length l = n | Err _ => True | Panic => False end.
Proof.
  unfold trojan_read, map_err, read_exactly. destruct (Nat.leb_spec n (length (pending i))); eexists _, _; (split; [done|]); [|done].
  cbn. rewrite length_take. lia.
Qed.

(** One read of the reader, with whatever it gives. *)
Local Ltac read_any :=
  match goal with |- context [(trojan_read ?n ≫= ?f) ?i] =>
    let i' := fresh "i" in let r := fresh "r" in let E := fresh "E" in let H := fresh "H" in
    destruct (trojan_read_any n i) as (i' & r & E & H); unfold mbind at 1, act_bind at 1; rewrite E; clear E; destruct r; [|done|done]
  end.

Lemma read_address_any i : (read_address i).2 ≠ Panic.
Proof.
  unfold read_address. read_any. destruct a as [|x [|]]; try done. unfold mbind at 1, act_bind at 1, lift. cbn [index lookup list_lookup expect].
  destruct (b2z x =? 1)%Z; [read_any; done|]. destruct (b2z x =? 3)%Z; [|destruct (b2z x =? 4)%Z; [read_any; done|done]].
  read_any. destruct a as [|y [|]]; try done. unfold mbind at 1, act_bind at 1, lift. cbn [index lookup list_lookup expect]. read_any. done.
Qed.

(** The server reads back the hash, the command and the target of every request, whatever
    follows; the client reads back the payloads of any sequence of UDP packets, from any
    socket addresses; and no bytes make its reader panic. *)
Theorem trojan_roundtrip :
  (∀ i, trojan_no_panic i) ∧
  (∀ hash cmd t rest, wf_addr t → sa_scope t = 0%Z → in_u 8 cmd →
     parse_request (length hash) (request_header hash cmd t ++ rest) = Some (hash, cmd, t, rest)) ∧
  (∀ l stream rest b, udp_packets l = Ok stream →
     read_packets (length l) {| pending := stream ++ rest; broken := b |} = ({| pending := rest; broken := b |}, Ok (List.map snd l))).
Proof.
  split_and!.
  - intros i. unfold trojan_no_panic, read_udp_packet. pose proof (read_address_any i) as Ha. unfold mbind at 1, act_bind at 1.
    destruct (read_address i) as [i1 [[]|e|]]; [|done..]. read_any. read_any. case_bool_decide; cbn [negb]; [|done].
    destruct (trojan_read_any (Z.to_nat (from_be a)) i2) as (i3 & r & -> & Hr). by destruct r.
  - intros hash cmd t rest Ht Hscope Hcmd. unfold parse_request, request_header. rewrite <- !app_assoc.
    rewrite (read_exact_app _ hash) by done. cbn [mbind option_bind]. rewrite (read_exact_app 2 CRLF) by done. cbn [mbind option_bind].
    rewrite (read_exact_app 1) by done. cbn [mbind option_bind]. rewrite parse_write_target by done. cbn [mbind option_bind].
    rewrite (read_exact_app 2 CRLF) by done. cbn [mbind option_bind]. rewrite bool_decide_eq_true_2 by done.
    assert (from_be [z2b cmd] = cmd) as -> by (unfold from_be; cbn; rewrite b2z_z2b; by apply Z.mod_small). done.
  - intros l. induction l as [|[t p] l IH]; intros stream rest b; cbn [udp_packets]; [by intros [= <-]|].
    intros (c & Hc & (cs & Hcs & [= <-])%outcome_bind_Ok_inv)%outcome_bind_Ok_inv. cbn [length read_packets List.map snd]. rewrite <- app_assoc.
    rewrite (act_bind_ok _ _ _ _ _ (read_packet_written t p c (cs ++ rest) b Hc)). by rewrite (act_bind_ok _ _ _ _ _ (IH cs rest b Hcs)).
Qed.

Lemma trojan_roundtrip_witness :
  parse_request 2 (request_header [x61; x62] CMD_CONNECT (socket_addr (V4 1) 443)) = Some ([x61; x62], CMD_CONNECT, socket_addr (V4 1) 443, []).
Proof.
  assert (request_header [x61; x62] CMD_CONNECT (socket_addr (V4 1) 443) = request_header [x61; x62] CMD_CONNECT (socket_addr (V4 1) 443) ++ [])%list as -> by reflexivity.
  apply (proj1 (proj2 trojan_roundtrip) [x61; x62]).
  - repeat split; try reflexivity; discriminate.
  - reflexivity.
  - split; [discriminate|reflexivity].
Defined.
