(* ===== verification/Vless.v ===== *)
(** * Vless: headers and UDP frames of the VLESS client

    [prototype/vless/src/vless_protocol.rs] and the UDP halves of [lib.rs]. The Reality
    stream underneath is an input and a sink; UUID parsing is a parameter. *)
From Stdlib Require Import ZArith Lia Strings.Byte Ascii String.
From stdpp Require Import base list numbers option strings.
From S2P Require Import Prelude Net Wire.
Local Open Scope string_scope.
Local Open Scope nat_scope.

Definition VERSION : Z := 0.
Definition COMMAND_TCP : Z := 1.
Definition COMMAND_UDP : Z := 2.
Definition ADDRESS_IPV4 : Z := 1.
Definition ADDRESS_DOMAIN : Z := 2.
Definition ADDRESS_IPV6 : Z := 3.
Definition UDP_FRAME_LIMIT : Z := 65535.
Definition VISION_FLOW : bytes := List.map (λ c, z2b (Z.of_nat (nat_of_ascii c))) (list_ascii_of_string "xtls-rprx-vision").

Inductive TargetHost := HostIp (ip : IpAddr) | HostDomain (domain : bytes).
Record TargetAddress := { host : TargetHost; port : Z }.

(** [TargetAddress::socket] *)
Definition target_socket (a : SocketAddr) : TargetAddress := {| host := HostIp (sa_ip a); port := sa_port a |}.

Definition vless_protocol_error (text : string) : Error := mk_error "outbound-protocol" text.

Definition encode_flow_addon (flow : bytes) : bytes := ([x0a; z2b (Z.of_nat (length flow))] ++ flow)%list.
Definition vision_flow_addon_data : bytes := encode_flow_addon VISION_FLOW.

Definition write_target (t : TargetAddress) : outcome Error bytes :=
  match host t with
  | HostIp (V4 n) => Ok (to_be 2 (port t) ++ [z2b ADDRESS_IPV4] ++ octets (V4 n))%list
  | HostIp (V6 n) => Ok (to_be 2 (port t) ++ [z2b ADDRESS_IPV6] ++ octets (V6 n))%list
  | HostDomain d =>
      n ← ok_or (try_u 8 (Z.of_nat (length d))) (vless_protocol_error "VLESS domain target exceeds 255 bytes");
      Ok (to_be 2 (port t) ++ [z2b ADDRESS_DOMAIN; z2b n] ++ d)%list
  end.

Definition vless_request_header (user_id : bytes) (cmd : Z) (addon_data : bytes) (t : TargetAddress) : outcome Error bytes :=
  n ← ok_or (try_u 8 (Z.of_nat (length addon_data))) (vless_protocol_error "VLESS addon data exceeds 255 bytes");
  target ← write_target t;
  Ok ([z2b VERSION] ++ user_id ++ [z2b n] ++ addon_data ++ [z2b cmd] ++ target)%list.

Definition tcp_request_header (user_id : bytes) (t : TargetAddress) : outcome Error bytes :=
  vless_request_header user_id COMMAND_TCP vision_flow_addon_data t.
Definition udp_request_header (user_id : bytes) (t : TargetAddress) : outcome Error bytes :=
  vless_request_header user_id COMMAND_UDP [] t.

Definition udp_frame (payload : bytes) : outcome Error bytes :=
  if (UDP_FRAME_LIMIT <? Z.of_nat (length payload))%Z then Err (vless_protocol_error "VLESS UDP payload exceeds 65535 bytes")
  else Ok (to_be 2 (Z.of_nat (length payload)) ++ payload)%list.

Definition vless_read (what : string) (n : nat) : act input Error bytes :=
  map_err (λ _, mk_error "outbound-read" ("failed reading VLESS " ++ what ++ ": {error}")) (read_exactly n).

Definition read_udp_frame : act input Error bytes :=
  n ← vless_read "UDP payload length" 2;
  vless_read "UDP payload" (Z.to_nat (from_be n)).

Definition read_vless_response_header : act input Error unit :=
  header ← vless_read "response header" 2;
  v ← lift (index header 0);
  if negb (b2z v =? VERSION)%Z then fail (vless_protocol_error "invalid VLESS response version: {}")
  else
    n ← lift (index header 1);
    let addon_length := Z.to_nat (b2z n) in
    if 0 <? addon_length then _ ← vless_read "response addon" addon_length; mret tt else mret tt.

(** ** The UDP halves: the reader takes the response header first, once *)
Definition write_datagram (payload : bytes) : act sink Error unit :=
  frame ← lift (udp_frame payload);
  write_all (mk_error "outbound-write" "failed writing VLESS UDP frame: {error}") frame.

(** The flag is [response_pending]. *)
Definition read_datagram : act (bool * input) Error bytes :=
  '(response_pending, _) ← get;
  _ ← (if (response_pending : bool) then _ ← on_snd read_vless_response_header; on_fst (modify (λ _, false)) else mret tt);
  on_snd read_udp_frame.

(** ** What a server reads and writes *)
Definition parse_vless_target (l : bytes) : option (TargetAddress * bytes) :=
  '(port, l) ← read_exact 2 l;
  '(kind, l) ← read_exact 1 l;
  if bool_decide (kind = [x01]) then '(a, l) ← read_exact 4 l; Some ({| host := HostIp (ipv4_from a); port := from_be port |}, l)
  else if bool_decide (kind = [x03]) then '(a, l) ← read_exact 16 l; Some ({| host := HostIp (ipv6_from a); port := from_be port |}, l)
  else if bool_decide (kind = [x02]) then
    '(n, l) ← read_exact 1 l; '(d, l) ← read_exact (Z.to_nat (from_be n)) l; Some ({| host := HostDomain d; port := from_be port |}, l)
  else None.

(** The user, the addon, the command and the target. *)
Definition parse_vless_request (l : bytes) : option (bytes * bytes * Z * TargetAddress * bytes) :=
  '(version, l) ← read_exact 1 l;
  '(user, l) ← read_exact 16 l;
  '(n, l) ← read_exact 1 l;
  '(addon, l) ← read_exact (Z.to_nat (from_be n)) l;
  '(cmd, l) ← read_exact 1 l;
  '(t, l) ← parse_vless_target l;
  if bool_decide (version = [x00]) then Some (user, addon, from_be cmd, t, l) else None.

Definition wf_target (t : TargetAddress) : Prop := in_u 16 (port t) ∧ match host t with HostIp a => wf_ip a | HostDomain _ => True end.

Lemma try_u_Some w z n : try_u w z = Some n → n = z ∧ in_u w z.
Proof. unfold try_u. case_match eqn:Hg; [|done]. intros [= <-]. bool_hyps. unfold in_u. split; [done|lia]. Qed.

Lemma from_be_one z : in_u 8 z → from_be [z2b z] = z.
Proof. intros H. unfold from_be. cbn. rewrite b2z_z2b. by apply Z.mod_small. Qed.

Lemma parse_written_target t l rest : wf_target t → write_target t = Ok l → parse_vless_target (l ++ rest) = Some (t, rest).
Proof.
  intros [Hport Hip]. unfold write_target, parse_vless_target. destruct t as [[[n|n]|d] port]; cbn [host Vless.port] in *.
  - intros H. assert (l = to_be 2 port ++ [z2b ADDRESS_IPV4] ++ octets (V4 n))%list as -> by congruence. rewrite <- !app_assoc.
    rewrite (read_exact_app 2) by apply length_to_be. cbn [mbind option_bind]. rewrite (read_exact_app 1) by done. cbn [mbind option_bind].
    rewrite bool_decide_eq_true_2 by done. rewrite (read_exact_app 4) by apply (length_octets (V4 n)). cbn [mbind option_bind].
    by rewrite ipv4_from_octets, from_be_to_be_u16.
  - intros H. assert (l = to_be 2 port ++ [z2b ADDRESS_IPV6] ++ octets (V6 n))%list as -> by congruence. rewrite <- !app_assoc.
    rewrite (read_exact_app 2) by apply length_to_be. cbn [mbind option_bind]. rewrite (read_exact_app 1) by done. cbn [mbind option_bind].
    rewrite bool_decide_eq_false_2 by done. rewrite bool_decide_eq_true_2 by done. rewrite (read_exact_app 16) by apply (length_octets (V6 n)). cbn [mbind option_bind].
    by rewrite ipv6_from_octets, from_be_to_be_u16.
  - intros (k & [-> Hk]%ok_or_Ok%try_u_Some & H)%outcome_bind_Ok_inv.
    assert (l = to_be 2 port ++ [z2b ADDRESS_DOMAIN] ++ [z2b (Z.of_nat (length d))] ++ d)%list as -> by (cbn [app] in *; congruence). rewrite <- !app_assoc.
    rewrite (read_exact_app 2) by apply length_to_be. cbn [mbind option_bind]. rewrite (read_exact_app 1) by done. cbn [mbind option_bind].
    rewrite !bool_decide_eq_false_2 by done. rewrite bool_decide_eq_true_2 by done. rewrite (read_exact_app 1) by done. cbn [mbind option_bind].
    rewrite from_be_one, Nat2Z.id by done. rewrite (read_exact_app _ d) by done. cbn [mbind option_bind]. by rewrite from_be_to_be_u16.
Qed.

(** *** Streams of frames *)
Fixpoint udp_frames (ps : list bytes) : outcome Error bytes :=
  match ps with [] => Ok [] | p :: ps => c ← udp_frame p; cs ← udp_frames ps; Ok (c ++ cs)%list end.
Fixpoint read_datagrams (n : nat) : act (bool * input) Error (list bytes) :=
  match n with O => mret [] | S n => p ← read_datagram; ps ← read_datagrams n; mret (p :: ps) end.

Definition response_header_of (addon : bytes) : bytes := ([x00; z2b (Z.of_nat (length addon))] ++ addon)%list.

Lemma vless_read_app what l rest b n : length l = n → vless_read what n {| pending := l ++ rest; broken := b |} = ({| pending := rest; broken := b |}, Ok l).
Proof. intros H. unfold vless_read. by rewrite (map_err_ok _ _ _ _ _ (read_exactly_n n l rest b H)). Qed.

Lemma read_frame p c rest b : udp_frame p = Ok c → read_udp_frame {| pending := c ++ rest; broken := b |} = ({| pending := rest; broken := b |}, Ok p).
Proof.
  unfold udp_frame, UDP_FRAME_LIMIT. destruct (Z.ltb_spec 65535 (Z.of_nat (length p))) as [|Hp]; [done|]. intros H.
  assert (c = to_be 2 (Z.of_nat (length p)) ++ p)%list as -> by congruence. unfold read_udp_frame. rewrite <- app_assoc.
  rewrite (act_bind_ok _ _ _ _ _ (vless_read_app _ (to_be 2 (Z.of_nat (length p))) (p ++ rest) b 2 (length_to_be 2 _))).
  rewrite from_be_to_be_u16, Nat2Z.id by (split; [lia|change (2 ^ 16)%Z with 65536%Z; lia]). by apply vless_read_app.
Qed.

Lemma read_header addon rest b : length addon ≤ 255 →
  read_vless_response_header {| pending := response_header_of addon ++ rest; broken := b |} = ({| pending := rest; broken := b |}, Ok tt).
Proof.
  intros Ha. unfold read_vless_response_header, response_header_of. rewrite <- app_assoc.
  rewrite (act_bind_ok _ _ _ _ _ (vless_read_app _ [x00; z2b (Z.of_nat (length addon))] (addon ++ rest) b 2 eq_refl)).
  rewrite (act_bind_ok _ _ _ {| pending := addon ++ rest; broken := b |} x00) by done. change (negb (b2z x00 =? VERSION)%Z) with false. cbv iota.
  rewrite (act_bind_ok _ _ _ {| pending := addon ++ rest; broken := b |} (z2b (Z.of_nat (length addon)))) by done.
  rewrite b2z_z2b, Z.mod_small, Nat2Z.id by lia. destruct (Nat.ltb_spec 0 (length addon)) as [Hl|Hl].
  - by rewrite (act_bind_ok _ _ _ _ _ (vless_read_app _ addon rest b _ eq_refl)).
  - destruct addon; [done|cbn in Hl; lia].
Qed.

Lemma read_datagrams_frames ps stream rest b : udp_frames ps = Ok stream →
  read_datagrams (length ps) (false, {| pending := stream ++ rest; broken := b |}) = ((false, {| pending := rest; broken := b |}), Ok ps).
Proof.
  revert stream. induction ps as [|p ps IH]; intros stream; cbn [udp_frames]; [by intros [= <-]|].
  intros (c & Hc & (cs & Hcs & [= <-])%outcome_bind_Ok_inv)%outcome_bind_Ok_inv. cbn [length read_datagrams]. rewrite <- app_assoc.
  rewrite (act_bind_ok _ _ _ (false, {| pending := cs ++ rest; broken := b |}) p).
  - by rewrite (act_bind_ok _ _ _ _ _ (IH cs Hcs)).
  - unfold read_datagram. rewrite (act_bind_ok _ _ _ (false, {| pending := c ++ cs ++ rest; broken := b |}) (false, {| pending := c ++ cs ++ rest; broken := b |})) by done.
    cbn beta iota. rewrite (act_bind_ok _ _ _ (false, {| pending := c ++ cs ++ rest; broken := b |}) tt) by done.
    unfold on_snd. by rewrite (read_frame p c (cs ++ rest) b Hc).
Qed.

Lemma request_parses user cmd addon t l rest : length user = 16 → in_u 8 cmd → wf_target t → vless_request_header user cmd addon t = Ok l →
  parse_vless_request (l ++ rest) = Some (user, addon, cmd, t, rest).
Proof.
  intros Hu Hcmd Ht. unfold vless_request_header.
  intros (n & [-> Hn]%ok_or_Ok%try_u_Some & (tl & Htl & H)%outcome_bind_Ok_inv)%outcome_bind_Ok_inv.
  assert (l = [z2b VERSION] ++ user ++ [z2b (Z.of_nat (length addon))] ++ addon ++ [z2b cmd] ++ tl)%list as -> by congruence. clear H.
  unfold parse_vless_request. rewrite <- !app_assoc. rewrite (read_exact_app 1) by done. cbn [mbind option_bind].
  rewrite (read_exact_app 16) by done. cbn [mbind option_bind]. rewrite (read_exact_app 1) by done. cbn [mbind option_bind].
  rewrite from_be_one, Nat2Z.id by done. rewrite (read_exact_app _ addon) by done. cbn [mbind option_bind].
  rewrite (read_exact_app 1) by done. cbn [mbind option_bind]. rewrite (parse_written_target t tl rest Ht Htl). cbn [mbind option_bind].
  rewrite bool_decide_eq_true_2 by done. by rewrite from_be_one.
Qed.

(** The server reads back the user, the flow, the command and the target of every request;
    and the client, after taking the response header with any addon once, reads back the
    payloads of any sequence of frames. *)
Theorem vless_roundtrip :
  (∀ user cmd addon t l rest, length user = 16 → in_u 8 cmd → wf_target t → vless_request_header user cmd addon t = Ok l →
     parse_vless_request (l ++ rest) = Some (user, addon, cmd, t, rest)) ∧
  (∀ addon p ps stream rest b, length addon ≤ 255 → udp_frames (p :: ps) = Ok stream →
     read_datagrams (length (p :: ps)) (true, {| pending := response_header_of addon ++ stream ++ rest; broken := b |}) =
       ((false, {| pending := rest; broken := b |}), Ok (p :: ps))).
Proof.
  split.
  - intros user cmd addon t l rest Hu Hcmd Ht. by apply request_parses.
  - intros addon p ps stream rest b Ha Hs. rewrite <- (read_datagrams_frames (p :: ps) stream rest b Hs). cbn [length read_datagrams].
    apply act_bind_cong.
    unfold read_datagram.
    rewrite (act_bind_ok _ _ _ (true, {| pending := response_header_of addon ++ stream ++ rest; broken := b |}) (true, {| pending := response_header_of addon ++ stream ++ rest; broken := b |})) by done.
    cbn beta iota. rewrite (act_bind_ok _ _ _ (false, {| pending := stream ++ rest; broken := b |}) tt); [done|].
    rewrite (act_bind_ok _ _ _ (true, {| pending := stream ++ rest; broken := b |}) tt); [done|]. unfold on_snd. by rewrite read_header.
Qed.

Lemma vless_roundtrip_witness :
  read_datagrams 2 (true, {| pending := response_header_of [x07] ++ unwrap_or [] (udp_frames [[x41]; []]) ++ [x00]; broken := None |}) =
    ((false, {| pending := [x00]; broken := None |}), Ok [[x41]; []]).
Proof. apply (proj2 vless_roundtrip [x07] [x41] [[]]); [cbn; lia|reflexivity]. Defined.
