(* ===== verification/RealityRecords.v ===== *)
(** * RealityRecords: the record layer of the Reality client

    [common.rs], [reality_cipher_suite.rs], [reality_aead.rs] and [reality_records.rs] of
    [prototype/vless/src/reality]: TLS 1.3 records, sealed under the initial vector
    combined with the number of the record. The ciphers are parameters with the
    contract of an AEAD, one for each suite. *)
From Stdlib Require Import ZArith Lia Strings.Byte Ascii String.
From stdpp Require Import base list numbers option strings.
From S2P Require Import Prelude Wire AeadStream.
Local Open Scope nat_scope.

(** ** [io::Error] *)
Inductive ErrorKind :=
  | InvalidInput | InvalidData | PermissionDenied | ConnectionAborted | Other
  | WouldBlock | UnexpectedEof | BrokenPipe | WriteZero | NotConnected.
#[export] Instance ErrorKind_eq_dec : EqDecision ErrorKind.
Proof. solve_decision. Defined.
Record IoError := io_error { kind : ErrorKind; text : string }.
Definition other (t : string) : IoError := io_error Other t.
Definition invalid_data (t : string) : IoError := io_error InvalidData t.

(** ** common.rs *)
Definition CONTENT_TYPE_CHANGE_CIPHER_SPEC : byte := x14.
Definition CONTENT_TYPE_ALERT : byte := x15.
Definition CONTENT_TYPE_HANDSHAKE : byte := x16.
Definition CONTENT_TYPE_APPLICATION_DATA : byte := x17.
Definition ALERT_LEVEL_WARNING : byte := x01.
Definition ALERT_DESC_CLOSE_NOTIFY : byte := x00.
Definition HANDSHAKE_TYPE_SERVER_HELLO : byte := x02.
Definition HANDSHAKE_TYPE_ENCRYPTED_EXTENSIONS : byte := x08.
Definition HANDSHAKE_TYPE_CERTIFICATE : byte := x0b.
Definition HANDSHAKE_TYPE_CERTIFICATE_VERIFY : byte := x0f.
Definition HANDSHAKE_TYPE_FINISHED : byte := x14.
Definition MAX_TLS_CIPHERTEXT_LEN : nat := Eval cbv in 65 * 256.
Definition MAX_TLS_PLAINTEXT_LEN : nat := Eval cbv in 64 * 256.
Definition TLS_RECORD_HEADER_SIZE : nat := 5.

Definition valid_content_type (b : byte) : bool :=
  bool_decide (b = CONTENT_TYPE_HANDSHAKE) || bool_decide (b = CONTENT_TYPE_APPLICATION_DATA) || bool_decide (b = CONTENT_TYPE_ALERT).
Definition invalid_content_type {A} : outcome IoError A := Err (invalid_data "Invalid content type: 0x{:02x}").

(** The loops that drop zeros from the end. *)
Fixpoint drop_zeros (l : bytes) : bytes :=
  match l with [] => [] | b :: r => if bool_decide (b = x00) then drop_zeros r else l end.
Definition trim_zeros (l : bytes) : bytes := rev (drop_zeros (rev l)).

Definition strip_content_type_slice (plaintext : bytes) : outcome IoError (byte * nat) :=
  match last plaintext with
  | None => Err (invalid_data "Empty plaintext")
  | Some t => if valid_content_type t then Ok (t, length plaintext - 1) else invalid_content_type
  end.

Definition strip_content_type_with_padding (plaintext : bytes) : outcome IoError (byte * bytes) :=
  if bool_decide (plaintext = []) then Err (invalid_data "Empty plaintext")
  else
    let p := trim_zeros plaintext in
    match last p with
    | None => Err (invalid_data "Plaintext is all zeros")
    | Some t => if valid_content_type t then Ok (t, removelast p) else invalid_content_type
    end.

(** ** reality_cipher_suite.rs *)
Inductive CipherSuite := AES_128_GCM_SHA256 | AES_256_GCM_SHA384 | CHACHA20_POLY1305_SHA256.
#[export] Instance CipherSuite_eq_dec : EqDecision CipherSuite.
Proof. solve_decision. Defined.

Definition DEFAULT_CIPHER_SUITES : list CipherSuite := [AES_128_GCM_SHA256; AES_256_GCM_SHA384; CHACHA20_POLY1305_SHA256].
Definition suite_id (c : CipherSuite) : Z :=
  match c with AES_128_GCM_SHA256 => 4865 | AES_256_GCM_SHA384 => 4866 | CHACHA20_POLY1305_SHA256 => 4867 end%Z.
Definition from_id (id : Z) : option CipherSuite :=
  if (id =? 4865)%Z then Some AES_128_GCM_SHA256
  else if (id =? 4866)%Z then Some AES_256_GCM_SHA384
  else if (id =? 4867)%Z then Some CHACHA20_POLY1305_SHA256
  else None.
Definition suite_name (c : CipherSuite) : string :=
  (match c with
   | AES_128_GCM_SHA256 => "TLS_AES_128_GCM_SHA256" | AES_256_GCM_SHA384 => "TLS_AES_256_GCM_SHA384"
   | CHACHA20_POLY1305_SHA256 => "TLS_CHACHA20_POLY1305_SHA256"
   end)%string.
Definition from_name (name : string) : option CipherSuite :=
  if String.eqb name "TLS_AES_128_GCM_SHA256" then Some AES_128_GCM_SHA256
  else if String.eqb name "TLS_AES_256_GCM_SHA384" then Some AES_256_GCM_SHA384
  else if String.eqb name "TLS_CHACHA20_POLY1305_SHA256" then Some CHACHA20_POLY1305_SHA256
  else None.

(** The lengths of the algorithms of the suites. *)
Definition key_len (c : CipherSuite) : nat := match c with AES_128_GCM_SHA256 => 16 | _ => 32 end.
Definition nonce_len (c : CipherSuite) : nat := NONCE_SIZE.
Definition hash_len (c : CipherSuite) : nat := match c with AES_256_GCM_SHA384 => 48 | _ => 32 end.

(** ** reality_aead.rs *)
Record AeadKey := { key_suite : CipherSuite; key_bytes : bytes }.

Definition new_key (c : CipherSuite) (key : bytes) : outcome IoError AeadKey :=
  if negb (length key =? key_len c) then Err (io_error InvalidInput "Invalid key length for {:?}: {} (expected {})")
  else Ok {| key_suite := c; key_bytes := key |}.

Definition xor_byte (a b : byte) : byte := z2b (Z.lxor (b2z a) (b2z b)).

Definition make_nonce (iv : bytes) (seq : Z) : outcome IoError bytes :=
  if negb (length iv =? 12) then Err (io_error InvalidInput "Invalid IV length: {} (expected 12)")
  else Ok (take 4 iv ++ zip_with xor_byte (drop 4 iv) (to_be 8 seq)).

(** [make_record_header]: the length is cut to 16 bits. *)
Definition make_record_header (ciphertext_len : nat) : bytes :=
  [CONTENT_TYPE_APPLICATION_DATA; x03; x03] ++ to_be 2 (Z.of_nat ciphertext_len).

Section records.
Context (aead : CipherSuite → Aead).

Definition seal_in_place (k : AeadKey) (buf iv : bytes) (seq : Z) (aad : bytes) : outcome IoError bytes :=
  nonce ← make_nonce iv seq;
  ok_or (seal (Aead:=aead (key_suite k)) (key_bytes k) nonce aad buf) (invalid_data "Encryption failed: {:?}").

Definition open_in_place_slice (k : AeadKey) (buf iv : bytes) (seq : Z) (aad : bytes) : outcome IoError bytes :=
  nonce ← make_nonce iv seq;
  ok_or (unseal (Aead:=aead (key_suite k)) (key_bytes k) nonce aad buf) (invalid_data "Decryption failed: {:?}").

Definition decrypt_handshake_message (c : CipherSuite) (key iv : bytes) (seq : Z) (ciphertext : bytes) (record_len : nat) : outcome IoError bytes :=
  let aad := [x17; x03; x03] ++ to_be 2 (Z.of_nat record_len) in
  aead_key ← new_key c key;
  plaintext ← open_in_place_slice aead_key ciphertext iv seq aad;
  '(_, content) ← strip_content_type_with_padding plaintext;
  Ok content.

(** ** reality_records.rs

    The encryptor's state: the number of the next record and the output. *)
Record Encryptor := { seq : Z; out : bytes }.
Abbreviation enc := (act Encryptor IoError).

Definition next_seq (n : Z) : outcome IoError Z := if (n =? u64_max)%Z then Err (other "TLS sequence number exhausted") else Ok (n + 1)%Z.

(** [debug_assert!]: the length never exceeds its bound. *)
Definition debug_assert (b : bool) : enc unit := lift (if b then Ok tt else Panic).

(** What both record functions do once the inner plaintext is ready. *)
Definition seal_record (k : AeadKey) (iv buf : bytes) : enc unit := λ s,
  let ciphertext_len := length buf + 16 in
  (_ ← debug_assert (ciphertext_len <=? MAX_TLS_CIPHERTEXT_LEN);
   let header := make_record_header ciphertext_len in
   sealed ← lift (seal_in_place k buf iv (seq s) header);
   n ← lift (next_seq (seq s));
   modify (λ s, {| seq := n; out := out s ++ header ++ sealed |})) s.

Definition encrypt_record_in_place (k : AeadKey) (iv buf : bytes) (content_type : byte) : enc unit := seal_record k iv (buf ++ [content_type]).

Definition pad_record (buf : bytes) (target_record_size : nat) : bytes :=
  let target_inner_len := target_record_size - (TLS_RECORD_HEADER_SIZE + 16) in
  if (length buf <? target_inner_len) && (target_inner_len <=? MAX_TLS_PLAINTEXT_LEN + 1) then buf ++ replicate (target_inner_len - length buf) x00
  else buf.

Definition encrypt_record_with_padding (k : AeadKey) (iv buf : bytes) (content_type : byte) (target_record_size : nat) : enc unit :=
  seal_record k iv (pad_record (buf ++ [content_type]) target_record_size).

(** [slice::chunks] *)
Fixpoint chunks (fuel n : nat) (l : bytes) : list bytes :=
  match fuel, l with
  | S fuel, _ :: _ => take n l :: chunks fuel n (drop n l)
  | _, _ => []
  end.
Definition plaintext_chunks (l : bytes) : list bytes := chunks (length l) MAX_TLS_PLAINTEXT_LEN l.

Fixpoint encrypt_each (k : AeadKey) (iv : bytes) (content_type : byte) (cs : list bytes) : enc unit :=
  match cs with
  | [] => mret tt
  | c :: cs => _ ← encrypt_record_in_place k iv c content_type; encrypt_each k iv content_type cs
  end.

Definition encrypt_fragmented (k : AeadKey) (iv data : bytes) (content_type : byte) : enc unit :=
  encrypt_each k iv content_type (plaintext_chunks data).

Definition encrypt_app_data (k : AeadKey) (iv plaintext : bytes) : enc unit :=
  if bool_decide (plaintext = []) then mret tt
  else if length plaintext <=? MAX_TLS_PLAINTEXT_LEN then encrypt_record_in_place k iv plaintext CONTENT_TYPE_APPLICATION_DATA
  else encrypt_fragmented k iv plaintext CONTENT_TYPE_APPLICATION_DATA.

Definition encrypt_handshake (k : AeadKey) (iv data : bytes) : enc unit :=
  if bool_decide (data = []) then mret tt
  else if length data <=? MAX_TLS_PLAINTEXT_LEN then encrypt_record_in_place k iv data CONTENT_TYPE_HANDSHAKE
  else encrypt_each k iv CONTENT_TYPE_HANDSHAKE (plaintext_chunks data).

(** The chunks, the last one padded. *)
Fixpoint encrypt_last_padded (k : AeadKey) (iv : bytes) (target_record_size : nat) (cs : list bytes) : enc unit :=
  match cs with
  | [] => mret tt
  | [c] =>
      if 0 <? target_record_size then encrypt_record_with_padding k iv c CONTENT_TYPE_HANDSHAKE target_record_size
      else encrypt_record_in_place k iv c CONTENT_TYPE_HANDSHAKE
  | c :: cs => _ ← encrypt_record_in_place k iv c CONTENT_TYPE_HANDSHAKE; encrypt_last_padded k iv target_record_size cs
  end.

Definition encrypt_handshake_with_padding (k : AeadKey) (iv data : bytes) (target_record_size : nat) : enc unit :=
  if bool_decide (data = []) then mret tt
  else if MAX_TLS_PLAINTEXT_LEN <? length data then encrypt_last_padded k iv target_record_size (plaintext_chunks data)
  else if 0 <? target_record_size then encrypt_record_with_padding k iv data CONTENT_TYPE_HANDSHAKE target_record_size
  else encrypt_record_in_place k iv data CONTENT_TYPE_HANDSHAKE.

Definition encrypt_close_notify (k : AeadKey) (iv : bytes) : enc unit := encrypt_record_in_place k iv [x01; x00] CONTENT_TYPE_ALERT.

(** The decryptor's state is the number of the next record. *)
Definition decrypt_record_in_place (k : AeadKey) (iv ciphertext : bytes) (record_len : nat) : act Z IoError (byte * bytes) := λ n,
  (plaintext ← lift (open_in_place_slice k ciphertext iv n (make_record_header record_len));
   n' ← lift (next_seq n);
   _ ← modify (λ _, n');
   let p := trim_zeros plaintext in
   match last p with
   | None => fail (invalid_data "Plaintext is all zeros")
   | Some t => if valid_content_type t then mret (t, removelast p) else lift invalid_content_type
   end) n.
End records.

(** ** Chunks and padding *)
Lemma max_plaintext_pos : 0 < MAX_TLS_PLAINTEXT_LEN.
Proof. apply Nat.ltb_lt. vm_compute. reflexivity. Qed.

Lemma max_lengths : MAX_TLS_PLAINTEXT_LEN + 256 = MAX_TLS_CIPHERTEXT_LEN.
Proof. vm_compute. reflexivity. Qed.

Lemma max_u16 : (Z.of_nat MAX_TLS_CIPHERTEXT_LEN < 65536)%Z.
Proof. vm_compute. reflexivity. Qed.

Lemma two_plaintext : 2 ≤ MAX_TLS_PLAINTEXT_LEN.
Proof. apply Nat.leb_le. vm_compute. reflexivity. Qed.

#[global] Opaque MAX_TLS_PLAINTEXT_LEN MAX_TLS_CIPHERTEXT_LEN.

Lemma chunks_spec n fuel l : 0 < n → length l ≤ fuel →
  List.concat (chunks fuel n l) = l ∧ Forall (λ c, c ≠ [] ∧ length c ≤ n) (chunks fuel n l).
Proof.
  intros Hn. revert l. induction fuel as [|fuel IH]; intros l Hl; [destruct l; [split; [done|constructor]|cbn in Hl; lia]|].
  destruct l as [|b l]; [split; [done|constructor]|]. cbn [chunks]. destruct (IH (drop n (b :: l))) as [H1 H2]; [rewrite length_drop; cbn [length] in *; lia|]. split.
  - cbn [List.concat]. by rewrite H1, take_drop.
  - constructor; [|done]. split; [destruct n; [lia|done]|]. rewrite length_take. lia.
Qed.

Lemma plaintext_chunks_spec l :
  List.concat (plaintext_chunks l) = l ∧ Forall (λ c, c ≠ [] ∧ length c ≤ MAX_TLS_PLAINTEXT_LEN) (plaintext_chunks l).
Proof. by apply chunks_spec; [apply max_plaintext_pos|]. Qed.

Lemma plaintext_chunks_one l : l ≠ [] → length l ≤ MAX_TLS_PLAINTEXT_LEN → plaintext_chunks l = [l].
Proof.
  intros Hne Hl. unfold plaintext_chunks. destruct l as [|b l]; [done|]. cbn [length chunks]. rewrite take_ge, drop_ge by done. by destruct (length l).
Qed.

Lemma drop_zeros_replicate n l : drop_zeros (replicate n x00 ++ l) = drop_zeros l.
Proof. induction n as [|n IH]; [done|]. cbn. exact IH. Qed.

Lemma rev_replicate {A} n (x : A) : rev (replicate n x) = replicate n x.
Proof. induction n as [|n IH]; [done|]. cbn [replicate rev]. by rewrite IH, <- replicate_cons_app. Qed.

Lemma trim_zeros_padded c t n : t ≠ x00 → trim_zeros ((c ++ [t]) ++ replicate n x00) = c ++ [t].
Proof.
  intros Ht. unfold trim_zeros. rewrite rev_app_distr, rev_replicate, drop_zeros_replicate.
  rewrite rev_app_distr. cbn [rev app drop_zeros]. rewrite bool_decide_eq_false_2 by done. change (t :: rev c) with ([t] ++ rev c). rewrite rev_app_distr, rev_involutive. done.
Qed.

Lemma valid_nonzero t : valid_content_type t = true → t ≠ x00.
Proof. intros H ->. discriminate. Qed.

Lemma pad_record_shape buf target : ∃ n, pad_record buf target = buf ++ replicate n x00 ∧
  length (pad_record buf target) ≤ Nat.max (length buf) (MAX_TLS_PLAINTEXT_LEN + 1).
Proof.
  unfold pad_record. destruct (length buf <? _) eqn:E1; cbn [andb]; [destruct (_ <=? _) eqn:E2|].
  - eexists. split; [done|]. rewrite length_app, length_replicate. apply Nat.ltb_lt in E1. apply Nat.leb_le in E2. lia.
  - exists 0. rewrite app_nil_r. split; [done|lia].
  - exists 0. rewrite app_nil_r. split; [done|lia].
Qed.

(** ** Nonces *)
Lemma xor_byte_inj a b c : xor_byte a b = xor_byte a c → b = c.
Proof.
  unfold xor_byte. intros H. apply (f_equal b2z) in H. rewrite !b2z_z2b in H.
  assert (∀ x y : byte, (Z.lxor (b2z x) (b2z y) mod 256 = Z.lxor (b2z x) (b2z y))%Z) as Hs.
  { intros x y. apply Z.bits_inj'. intros n Hn. change 256%Z with (2 ^ 8)%Z. destruct (Z.lt_ge_cases n 8); [by rewrite Z.mod_pow2_bits_low|].
    rewrite Z.mod_pow2_bits_high, Z.lxor_spec by lia. rewrite !(in_u_testbit 8) by (first [apply b2z_range|lia]). done. }
  rewrite !Hs in H. apply (f_equal (Z.lxor (b2z a))) in H. rewrite <- !Z.lxor_assoc, !Z.lxor_nilpotent, !Z.lxor_0_l in H.
  rewrite <- (z2b_b2z b), <- (z2b_b2z c). by rewrite H.
Qed.

Lemma nonce_some iv n : length iv = 12 → make_nonce iv n = Ok (take 4 iv ++ zip_with xor_byte (drop 4 iv) (to_be 8 n)).
Proof. intros H. unfold make_nonce. by rewrite H. Qed.

Lemma zip_xor_inj a b c : length a = length b → length a = length c → zip_with xor_byte a b = zip_with xor_byte a c → b = c.
Proof.
  revert b c. induction a as [|x a IH]; intros [|y b] [|z c] Hb Hc H; try done. cbn in *. injection H as H1 H2. f_equal; [by apply xor_byte_inj in H1|].
  apply IH; [lia..|done].
Qed.

Lemma Ok_inj {E A} (a b : A) : Ok (E:=E) a = Ok b → a = b.
Proof. by intros [=]. Qed.

(** No two records of a connection are sealed under one nonce. *)
Lemma make_nonce_inj iv n m : length iv = 12 → in_u 64 n → in_u 64 m → make_nonce iv n = make_nonce iv m → n = m.
Proof.
  intros Hiv Hn Hm H. rewrite !nonce_some in H by done. apply Ok_inj, app_inv_head in H. apply zip_xor_inj in H; [|rewrite length_drop, ?length_to_be; lia..].
  apply (f_equal from_be) in H. rewrite !from_be_to_be in H. change (256 ^ Z.of_nat 8)%Z with (2 ^ 64)%Z in H. unfold in_u in *.
  by rewrite !Z.mod_small in H.
Qed.

(** ** What the encryptor writes, the decryptor reads *)

(** What is sent: a call of one of the public methods. *)
Inductive item := AppData (l : bytes) | Handshake (l : bytes) | PaddedHandshake (l : bytes) (target_record_size : nat) | CloseNotify.

(** The fragments it has to arrive as, with their content types. *)
Definition fragments (i : item) : list (byte * bytes) :=
  match i with
  | AppData l => pair CONTENT_TYPE_APPLICATION_DATA <$> plaintext_chunks l
  | Handshake l | PaddedHandshake l _ => pair CONTENT_TYPE_HANDSHAKE <$> plaintext_chunks l
  | CloseNotify => [(CONTENT_TYPE_ALERT, [x01; x00])]
  end.

Section sessions.
Context (aead : CipherSuite → Aead) (k : AeadKey) (iv : bytes).

Definition send_item (i : item) : act Encryptor IoError unit :=
  match i with
  | AppData l => encrypt_app_data aead k iv l
  | Handshake l => encrypt_handshake aead k iv l
  | PaddedHandshake l n => encrypt_handshake_with_padding aead k iv l n
  | CloseNotify => encrypt_close_notify aead k iv
  end.

Fixpoint send_all (l : list item) : act Encryptor IoError unit :=
  match l with [] => mret tt | i :: l => _ ← send_item i; send_all l end.

(** The record in front of [wire], cut off by the length of its header. *)
Definition next_record (wire : bytes) : option (nat * bytes * bytes) :=
  let n := Z.to_nat (from_be (take 2 (drop 3 wire))) in
  if TLS_RECORD_HEADER_SIZE + n <=? length wire then Some (n, take n (drop TLS_RECORD_HEADER_SIZE wire), drop n (drop TLS_RECORD_HEADER_SIZE wire)) else None.

(** A decryptor at number [n] reads the fragments off the wire and is at [n'] then. *)
Inductive opens : Z → list (byte * bytes) → Z → bytes → Prop :=
  | opens_nil n : opens n [] n []
  | opens_record n len c wire t m n1 frags n' rest :
      next_record wire = Some (len, c, rest) →
      decrypt_record_in_place aead k iv c len n = (n1, Ok (t, m)) →
      opens n1 frags n' rest →
      opens n ((t, m) :: frags) n' wire.

Lemma length_drop_zeros l : length (drop_zeros l) ≤ length l.
Proof. induction l as [|b l IH]; [done|]. cbn [drop_zeros]. destruct (bool_decide _); cbn [length] in *; lia. Qed.

Lemma length_trim_zeros l : length (trim_zeros l) ≤ length l.
Proof. unfold trim_zeros. rewrite length_rev. rewrite <- (length_rev l). apply length_drop_zeros. Qed.

Lemma length_removelast (l : bytes) : length (removelast l) ≤ length l.
Proof. induction l as [|b l IH]; [done|]. cbn [removelast length]. destruct l; cbn [length] in *; lia. Qed.

(** What a record opens to is shorter than the record, and of one of three types. *)
Lemma decrypted_shape `{!∀ c, AeadLaws (aead c)} n ct len n' t m :
  decrypt_record_in_place aead k iv ct len n = (n', Ok (t, m)) → length m ≤ length ct ∧ valid_content_type t = true.
Proof.
  unfold decrypt_record_in_place, open_in_place_slice, make_nonce, mbind, act_bind, outcome_bind, lift, modify. destruct (negb _); [done|].
  destruct (unseal _ _ _ _) as [p|] eqn:E; cbn [ok_or]; [|done]. unfold next_seq. destruct (n =? u64_max)%Z; [done|]. apply unseal_length in E.
  destruct (last (trim_zeros p)) as [b|]; [|done]. destruct (valid_content_type b) eqn:Eb; [|done]. intros [= _ <- <-]. split; [|done].
  pose proof (length_removelast (trim_zeros p)). pose proof (length_trim_zeros p). lia.
Qed.

Lemma no_panic_decrypt ct len n n' r : decrypt_record_in_place aead k iv ct len n = (n', r) → no_panic r.
Proof.
  unfold decrypt_record_in_place, open_in_place_slice, make_nonce, mbind, act_bind, outcome_bind, lift, modify. destruct (negb _); [by intros [= _ <-]|].
  destruct (unseal _ _ _ _) as [p|]; cbn [ok_or]; [|by intros [= _ <-]]. unfold next_seq. destruct (n =? u64_max)%Z; [by intros [= _ <-]|].
  destruct (last (trim_zeros p)) as [b|]; [|by intros [= _ <-]]. destruct (valid_content_type b); by intros [= _ <-].
Qed.

(** The cipher never refuses. *)
Definition seals : Prop := ∀ nonce aad m, is_Some (seal (Aead:=aead (key_suite k)) (key_bytes k) nonce aad m).

(** A call leaves a prefix of the fragments on the wire: all of them, or those before
    the number ran out. *)
Definition sends (s : Encryptor) (frags : list (byte * bytes)) (s' : Encryptor) (r : outcome IoError unit) : Prop :=
  ∃ sent rest wire, frags = sent ++ rest ∧ out s' = out s ++ wire ∧ opens (seq s) sent (seq s') wire ∧
    seq s' = (seq s + Z.of_nat (length sent))%Z ∧ in_u 64 (seq s') ∧
    match r with Ok _ => rest = [] | Err _ => rest ≠ [] ∧ (seals → seq s' = u64_max) | Panic => False end.

Lemma next_record_app wire n c rest tail : next_record wire = Some (n, c, rest) → next_record (wire ++ tail) = Some (n, c, rest ++ tail).
Proof.
  unfold next_record. destruct (Nat.leb_spec (TLS_RECORD_HEADER_SIZE + Z.to_nat (from_be (take 2 (drop 3 wire)))) (length wire)) as [Hl|]; [|done].
  intros [= <- <- <-]. unfold TLS_RECORD_HEADER_SIZE in *. rewrite length_app, drop_app_le, take_app_le by (rewrite ?length_drop; lia).
  destruct (Nat.leb_spec (5 + Z.to_nat (from_be (take 2 (drop 3 wire)))) (length wire + length tail)); [|lia].
  by rewrite drop_app_le, take_app_le, drop_app_le by (rewrite ?length_drop; lia).
Qed.

Lemma opens_app n f1 n1 w1 f2 n2 w2 : opens n f1 n1 w1 → opens n1 f2 n2 w2 → opens n (f1 ++ f2) n2 (w1 ++ w2).
Proof.
  intros H. revert f2 n2 w2. induction H as [n|n len c wire t m n1 frags n' rest Hn Hd _ IH]; intros f2 n2 w2 H2; [done|].
  apply (opens_record n len c (wire ++ w2) t m n1 (frags ++ f2) n2 (rest ++ w2)); [by apply next_record_app|done|by apply IH].
Qed.

Lemma opens_split n f1 f2 n2 w : opens n (f1 ++ f2) n2 w → ∃ n1 w1 w2, w = w1 ++ w2 ∧ opens n f1 n1 w1 ∧ opens n1 f2 n2 w2.
Proof.
  revert n w. induction f1 as [|f f1 IH]; intros n w Hw; [exists n, [], w; split; [done|]; split; [constructor|done]|].
  cbn [app] in Hw. inversion Hw as [|? len c ? t m n1 frags n' rest Hn Hd Ho]; subst. destruct (IH _ _ Ho) as (n3 & w1 & w2 & -> & H1 & H2).
  pose proof Hn as Hn'. unfold next_record in Hn'. destruct (_ <=? _) eqn:El in Hn'; [|done]. apply Nat.leb_le in El.
  set (ln := Z.to_nat (from_be (take 2 (drop 3 w)))) in *. assert (len = ln ∧ c = take ln (drop 5 w) ∧ w1 ++ w2 = drop ln (drop 5 w)) as (-> & -> & Hr) by by injection Hn'.
  exists n3, (take (5 + ln) w ++ w1), w2. unfold TLS_RECORD_HEADER_SIZE in El. assert (w = take (5 + ln) w ++ w1 ++ w2) as Hw2 by (rewrite Hr, drop_drop; symmetry; apply take_drop).
  split; [by rewrite <- app_assoc|]. split; [|done]. apply (opens_record _ ln (take ln (drop 5 w)) _ t m n1 f1 n3 w1); [|done|done].
  assert (length (take (5 + ln) w) = 5 + ln) as Hlt by (rewrite length_take; lia).
  assert (take 2 (drop 3 (take (5 + ln) w ++ w1)) = take 2 (drop 3 w)) as Hh.
  { rewrite Hw2 at 2. rewrite !(drop_app_le (take (5 + ln) w)) by lia. rewrite !take_app_le by (rewrite length_drop; lia). done. }
  unfold next_record. rewrite Hh. fold ln. unfold TLS_RECORD_HEADER_SIZE. rewrite length_app, Hlt. destruct (Nat.leb_spec (5 + ln) (5 + ln + length w1)); [|lia].
  assert (∀ l, take ln (drop 5 (take (5 + ln) w ++ l)) = take ln (drop 5 (take (5 + ln) w)) ∧ drop ln (drop 5 (take (5 + ln) w ++ l)) = l) as Hcut.
  { intros l. rewrite (drop_app_le (take (5 + ln) w)) by lia. split; [apply take_app_le; rewrite length_drop; lia|]. apply drop_app_length'. rewrite length_drop. lia. }
  destruct (Hcut w1) as [-> ->]. do 2 f_equal. f_equal. rewrite Hw2 at 2. destruct (Hcut (w1 ++ w2)) as [-> _]. done.
Qed.

Lemma sends_nil s : in_u 64 (seq s) → sends s [] s (Ok tt).
Proof. intros H. exists [], [], []. rewrite (app_nil_r (out s)). split_and!; try done; [constructor|cbn; lia]. Qed.

Lemma sends_step s f1 s1 r1 f2 s2 r2 (m : act Encryptor IoError unit) :
  sends s f1 s1 r1 → (∀ s1 s2 r2, in_u 64 (seq s1) → m s1 = (s2, r2) → sends s1 f2 s2 r2) →
  match r1 with Ok _ => m s1 | Err e => (s1, Err e) | Panic => (s1, Panic) end = (s2, r2) → sends s (f1 ++ f2) s2 r2.
Proof.
  intros (a & b & w & -> & Ho & Hw & Hs & Hu & Hr) Hm. destruct r1 as [[]|e|]; [|intros [= <- <-]|done].
  - intros (a2 & b2 & w2 & -> & Ho2 & Hw2 & Hs2 & Hu2 & Hr2)%Hm; [|done]. subst b. rewrite app_nil_r.
    exists (a ++ a2), b2, (w ++ w2). rewrite Ho2, Ho, <- !app_assoc. split_and!; try done; [by eapply opens_app|rewrite Hs2, Hs, length_app; lia].
  - destruct Hr as [Hb Hse]. exists a, (b ++ f2), w. rewrite <- app_assoc. split_and!; try done. by destruct b.
Qed.

Lemma sends_bind s f1 f2 (m1 m2 : act Encryptor IoError unit) s2 r2 :
  (∀ s1 r1, m1 s = (s1, r1) → sends s f1 s1 r1) → (∀ s1 s2 r2, in_u 64 (seq s1) → m2 s1 = (s2, r2) → sends s1 f2 s2 r2) →
  (_ ← m1; m2) s = (s2, r2) → sends s (f1 ++ f2) s2 r2.
Proof.
  intros H1 H2 H. destruct (m1 s) as [s1 r1] eqn:E. apply (sends_step s f1 s1 r1 f2 s2 r2 m2); [by apply H1|done|].
  unfold mbind, act_bind in H. rewrite E in H. by destruct r1.
Qed.

Hypothesis laws : ∀ c, AeadLaws (aead c).
Hypothesis Hiv : length iv = 12.

Lemma next_record_intro c rest : (Z.of_nat (length c) < 65536)%Z → next_record (make_record_header (length c) ++ c ++ rest) = Some (length c, c, rest).
Proof.
  intros Hc. unfold next_record, make_record_header. rewrite <- app_assoc. pose proof (length_to_be 2 (Z.of_nat (length c))) as H2.
  assert (in_u 16 (Z.of_nat (length c))) as Hz%from_be_to_be_u16 by (split; [lia|exact Hc]). set (h := to_be 2 _) in *.
  change (drop 3 ([CONTENT_TYPE_APPLICATION_DATA; x03; x03] ++ h ++ c ++ rest)) with (h ++ c ++ rest). rewrite (take_app_length' h) by done.
  rewrite Hz, Nat2Z.id. change (drop TLS_RECORD_HEADER_SIZE ([CONTENT_TYPE_APPLICATION_DATA; x03; x03] ++ h ++ c ++ rest)) with (drop 2 (h ++ c ++ rest)).
  rewrite (drop_app_length' h) by done. rewrite !length_app, H2. unfold TLS_RECORD_HEADER_SIZE. cbn [length]. destruct (Nat.leb_spec (5 + length c) (3 + (2 + (length c + length rest)))); [|lia].
  by rewrite take_app_length, drop_app_length.
Qed.

(** One record: [content], its type and [n] zeros of padding. *)
Lemma seal_record_sends content t n s s' r :
  in_u 64 (seq s) → valid_content_type t = true → length ((content ++ [t]) ++ replicate n x00) + 16 ≤ MAX_TLS_CIPHERTEXT_LEN →
  seal_record aead k iv ((content ++ [t]) ++ replicate n x00) s = (s', r) → sends s [(t, content)] s' r.
Proof.
  intros Hu Ht Hl. set (buf := (content ++ [t]) ++ _) in *. unfold seal_record, debug_assert, seal_in_place. destruct (Nat.leb_spec (length buf + 16) MAX_TLS_CIPHERTEXT_LEN); [|lia].
  rewrite nonce_some by done. set (nonce := take 4 iv ++ _). unfold mbind, act_bind, outcome_bind, lift, modify. 
  destruct (seal (Aead:=aead (key_suite k)) (key_bytes k) nonce (make_record_header (length buf + 16)) buf) as [c|] eqn:Ec; cbn [ok_or].
  2: { intros [= <- <-]. exists [], [(t, content)], []. split_and!; try done; [by rewrite app_nil_r|constructor|cbn; lia|]. intros Hs. destruct (Hs nonce (make_record_header (length buf + 16)) buf). congruence. }
  unfold next_seq. destruct (Z.eqb_spec (seq s) u64_max) as [Hx|Hx].
  { intros [= <- <-]. exists [], [(t, content)], []. split_and!; try done; [by rewrite app_nil_r|constructor|cbn; lia]. }
  intros [= <- <-]. assert (seal_l := seal_length _ _ _ _ _ Ec). unfold TAG_SIZE in seal_l. apply unseal_seal in Ec.
  exists [(t, content)], [], (make_record_header (length c) ++ c). cbn [out seq length]. rewrite seal_l. split_and!; try done.
  2: { unfold in_u, u64_max in *. lia. }
  pose proof (next_record_intro c []) as Hn. rewrite app_nil_r, seal_l in Hn.
  eapply opens_record; [apply Hn; pose proof max_u16; lia| |constructor].
  unfold decrypt_record_in_place, open_in_place_slice. rewrite nonce_some by done. fold nonce. unfold mbind, act_bind, outcome_bind, lift, modify.
  rewrite Ec. cbn [ok_or]. unfold next_seq. destruct (Z.eqb_spec (seq s) u64_max); [done|]. subst buf. rewrite trim_zeros_padded by by apply valid_nonzero.
  rewrite last_snoc, Ht, removelast_last. done.
Qed.

Lemma record_sends content t s s' r : in_u 64 (seq s) → valid_content_type t = true → length content ≤ MAX_TLS_PLAINTEXT_LEN →
  encrypt_record_in_place aead k iv content t s = (s', r) → sends s [(t, content)] s' r.
Proof.
  intros Hu Ht Hl H. apply (seal_record_sends content t 0); [done..| |].
  - rewrite !length_app. cbn [length replicate]. pose proof max_lengths. lia.
  - cbn [replicate]. by rewrite app_nil_r.
Qed.

Lemma padded_sends content t target s s' r : in_u 64 (seq s) → valid_content_type t = true → length content ≤ MAX_TLS_PLAINTEXT_LEN →
  encrypt_record_with_padding aead k iv content t target s = (s', r) → sends s [(t, content)] s' r.
Proof.
  intros Hu Ht Hl. unfold encrypt_record_with_padding. destruct (pad_record_shape (content ++ [t]) target) as (n & E & Hn). rewrite E in *.
  apply seal_record_sends; [exact Hu|exact Ht|]. rewrite !length_app in *. cbn [length] in *. pose proof max_lengths. lia.
Qed.

Lemma each_sends t l s s' r : valid_content_type t = true → in_u 64 (seq s) → Forall (λ c, c ≠ [] ∧ length c ≤ MAX_TLS_PLAINTEXT_LEN) l →
  encrypt_each aead k iv t l s = (s', r) → sends s (pair t <$> l) s' r.
Proof.
  intros Ht. revert s s' r. induction l as [|c l IH]; intros s s' r Hu Hl.
  - intros [= <- <-]. by apply sends_nil.
  - apply Forall_cons in Hl as [[_ Hc] Hl]. cbn [encrypt_each fmap list_fmap]. apply (sends_bind _ [(t, c)]).
    + intros s1 r1. by apply record_sends.
    + intros s1 s2 r2 Hu1. by apply IH.
Qed.

Lemma last_padded_sends target l s s' r : in_u 64 (seq s) → Forall (λ c, c ≠ [] ∧ length c ≤ MAX_TLS_PLAINTEXT_LEN) l →
  encrypt_last_padded aead k iv target l s = (s', r) → sends s (pair CONTENT_TYPE_HANDSHAKE <$> l) s' r.
Proof.
  revert s s' r. induction l as [|c l IH]; intros s s' r Hu Hl.
  - intros [= <- <-]. by apply sends_nil.
  - apply Forall_cons in Hl as [[_ Hc] Hl]. cbn [encrypt_last_padded fmap list_fmap]. destruct l as [|c2 l].
    + destruct (0 <? target); [by apply padded_sends|by apply record_sends].
    + apply (sends_bind _ [(CONTENT_TYPE_HANDSHAKE, c)]); [intros s1 r1; by apply record_sends|]. intros s1 s2 r2 Hu1. by apply IH.
Qed.

Lemma item_sends i s s' r : in_u 64 (seq s) → send_item i s = (s', r) → sends s (fragments i) s' r.
Proof.
  intros Hu. assert (∀ l, l ≠ [] → (length l <=? MAX_TLS_PLAINTEXT_LEN) = true → plaintext_chunks l = [l] ∧ length l ≤ MAX_TLS_PLAINTEXT_LEN) as H1.
  { intros l Hne Hl%Nat.leb_le. split; [by apply plaintext_chunks_one|done]. }
  destruct i as [l|l|l n|]; cbn [send_item fragments]; [| | |apply record_sends; [done..|apply two_plaintext]].
  - unfold encrypt_app_data. destruct (bool_decide_reflect (l = [])) as [->|Hne]; [intros [= <- <-]; by apply sends_nil|].
    destruct (length l <=? _) eqn:E; [destruct (H1 l) as [-> Hl]; [done..|by apply record_sends]|]. apply each_sends; [done..|apply plaintext_chunks_spec].
  - unfold encrypt_handshake. destruct (bool_decide_reflect (l = [])) as [->|Hne]; [intros [= <- <-]; by apply sends_nil|].
    destruct (length l <=? _) eqn:E; [destruct (H1 l) as [-> Hl]; [done..|by apply record_sends]|]. apply each_sends; [done..|apply plaintext_chunks_spec].
  - unfold encrypt_handshake_with_padding. destruct (bool_decide_reflect (l = [])) as [->|Hne]; [intros [= <- <-]; by apply sends_nil|].
    destruct (_ <? length l) eqn:E; [apply last_padded_sends; [done|apply plaintext_chunks_spec]|]. apply Nat.ltb_ge, Nat.leb_le in E.
    destruct (H1 l) as [-> Hl]; [done..|]. destruct (0 <? n); [by apply padded_sends|by apply record_sends].
Qed.

Lemma all_sends l s s' r : in_u 64 (seq s) → send_all l s = (s', r) → sends s (l ≫= fragments) s' r.
Proof.
  revert s s' r. induction l as [|i l IH]; intros s s' r Hu.
  - intros [= <- <-]. by apply sends_nil.
  - cbn [send_all]. change ((i :: l) ≫= fragments) with (fragments i ++ (l ≫= fragments)). apply sends_bind; [intros s1 r1; by apply item_sends|].
    intros s1 s2 r2 Hu1. by apply IH.
Qed.

(** any sequence of application data, handshake messages, padded handshake messages
    and close notifications goes out, without a panic, as records that the decryptor of
    the peer opens in order to their fragments of at most 16384 bytes with their content
    types, whatever padding was asked for; a call fails only if the cipher refuses or the
    64-bit record number is exhausted, and then the records before are intact. The
    number advances by one for every record, so no nonce is used twice. *)
Theorem records_roundtrip l s s' r : in_u 64 (seq s) → send_all l s = (s', r) →
  sends s (l ≫= fragments) s' r ∧
  (seals → (seq s + Z.of_nat (length (l ≫= fragments)) ≤ u64_max)%Z → r = Ok tt) ∧
  (∀ n m, (seq s ≤ n < seq s')%Z → (seq s ≤ m < seq s')%Z → make_nonce iv n = make_nonce iv m → n = m).
Proof.
  intros Hu H. pose proof (all_sends l s s' r Hu H) as Hs. split_and!; [done| |].
  - intros Hse Hn. destruct Hs as (a & b & w & E & _ & _ & Hs & _ & Hr). destruct r as [[]|e|]; [done| |done]. destruct Hr as [Hb Hr]. specialize (Hr Hse).
    rewrite E, length_app in Hn. destruct b; [done|]. cbn [length] in Hn. lia.
  - destruct Hs as (_ & _ & _ & _ & _ & _ & _ & Hu' & _). intros n m Hn Hm. unfold in_u in *. apply make_nonce_inj; [done|split; lia..].
Qed.
End sessions.

(** A short session under the toy cipher; [x7f] pads nothing. *)
Definition demo_key : AeadKey := {| key_suite := AES_128_GCM_SHA256; key_bytes := replicate 16 x01 |}.
Definition demo_iv : bytes := replicate 12 x02.
Definition demo_items : list item := [Handshake [x14; x00]; PaddedHandshake [x0b] 64; AppData []; AppData [x41; x42; x00]; CloseNotify].

Example demo_length : length (out (send_all (λ _, toy_aead) demo_key demo_iv demo_items {| seq := 7; out := [] |}).1) = 137.
Proof. vm_compute. reflexivity. Qed.

Lemma records_roundtrip_witness : ∃ s' wire,
  send_all (λ _, toy_aead) demo_key demo_iv demo_items {| seq := 7; out := [] |} = (s', Ok tt) ∧ out s' = wire ∧ seq s' = 11%Z ∧
  opens (λ _, toy_aead) demo_key demo_iv 7
    [(CONTENT_TYPE_HANDSHAKE, [x14; x00]); (CONTENT_TYPE_HANDSHAKE, [x0b]); (CONTENT_TYPE_APPLICATION_DATA, [x41; x42; x00]); (CONTENT_TYPE_ALERT, [x01; x00])] 11 wire.
Proof.
  destruct (send_all (λ _, toy_aead) demo_key demo_iv demo_items {| seq := 7; out := [] |}) as [s' r] eqn:E.
  assert (in_u 64 (seq {| seq := 7; out := [] |})) as Hu by (split; vm_compute; [discriminate|reflexivity]).
  destruct (records_roundtrip (λ _, toy_aead) demo_key demo_iv (λ _, toy_laws) eq_refl demo_items _ s' r Hu E) as ((a & b & w & Ef & Ho & Hw & Hs & _ & Hr) & H2 & _).
  assert (r = Ok tt) as -> by (apply H2; [intros nonce aad m; by eexists|vm_compute; discriminate]). subst b. rewrite app_nil_r in Ef. subst a.
  assert (demo_items ≫= fragments = [(CONTENT_TYPE_HANDSHAKE, [x14; x00]); (CONTENT_TYPE_HANDSHAKE, [x0b]); (CONTENT_TYPE_APPLICATION_DATA, [x41; x42; x00]); (CONTENT_TYPE_ALERT, [x01; x00])]) as Ef
    by (vm_compute; reflexivity).
  rewrite Ef in Hs, Hw. cbn in Hs. exists s', w. rewrite Hs in Hw. split_and!; try done.
Defined.
