(* ===== verification/RealityMessages.v ===== *)
(** * RealityMessages: the handshake messages of the Reality client

    [reality_tls13_messages.rs] and [reality_util.rs] of [prototype/vless/src/reality]:
    the messages are built byte by byte and read back with the bounds-checked reader of
    [TlsHello]. Texts are their UTF-8 bytes; base64, signing and certificates are
    parameters. An error is its text. *)
From Stdlib Require Import ZArith Lia Strings.Byte Ascii String.
From stdpp Require Import base list numbers option.
From S2P Require Import Prelude Net TlsHello RealityRecords.
Local Open Scope nat_scope.

(** [x as u8] and [(x as u16).to_be_bytes()] of a length *)
Definition be8 (n : nat) : bytes := [z2b (Z.of_nat n)].
Definition be16 (n : nat) : bytes := to_be 2 (Z.of_nat n).
Definition be24 (n : nat) : bytes := to_be 3 (Z.of_nat n).

(** ** reality_tls13_messages.rs *)
Definition construct_server_hello (server_random session_id : bytes) (cipher_suite : Z) (key_share_data : bytes) : bytes :=
  let extensions :=
    [x00; x2b] ++ [x00; x02] ++ [x03; x04] ++
    [x00; x33] ++ be16 (2 + 2 + length key_share_data) ++ [x00; x1d] ++ be16 (length key_share_data) ++ key_share_data in
  let payload :=
    [x03; x03] ++ server_random ++ be8 (length session_id) ++ session_id ++ to_be 2 cipher_suite ++ [x00] ++
    be16 (length extensions) ++ extensions in
  [HANDSHAKE_TYPE_SERVER_HELLO] ++ be24 (length payload) ++ payload.

Definition construct_encrypted_extensions : bytes := [HANDSHAKE_TYPE_ENCRYPTED_EXTENSIONS] ++ [x00; x00; x02] ++ to_be 2 0.

Definition construct_certificate (cert_der : bytes) : bytes :=
  let cert_list_len := 3 + length cert_der + 2 in
  let payload_len := 1 + 3 + cert_list_len in
  [HANDSHAKE_TYPE_CERTIFICATE] ++ be24 payload_len ++ [x00] ++ be24 cert_list_len ++ be24 (length cert_der) ++ cert_der ++ [x00; x00].

(** What a CertificateVerify signs *)
Definition context_string : bytes := list_byte_of_string "TLS 1.3, server CertificateVerify".
Definition signed_content (handshake_hash : bytes) : bytes := replicate 64 x20 ++ context_string ++ [x00] ++ handshake_hash.

Definition construct_certificate_verify (sign : bytes → bytes) (handshake_hash : bytes) : bytes :=
  let signature := sign (signed_content handshake_hash) in
  let payload := [x08; x07] ++ be16 (length signature) ++ signature in
  [HANDSHAKE_TYPE_CERTIFICATE_VERIFY] ++ be24 (length payload) ++ payload.

Definition construct_finished (verify_data : bytes) : bytes := [HANDSHAKE_TYPE_FINISHED] ++ be24 (length verify_data) ++ verify_data.

Definition DEFAULT_ALPN_PROTOCOLS : list bytes := [list_byte_of_string "h2"; list_byte_of_string "http/1.1"].

(** The extensions of the client hello, one definition for each block of the code *)
Definition server_name_extension (server_name : bytes) : bytes :=
  let server_name_len := length server_name in
  [x00; x00] ++ be16 (5 + server_name_len) ++ be16 (server_name_len + 3) ++ [x00] ++ be16 server_name_len ++ server_name.
Definition supported_versions_extension : bytes := [x00; x2b] ++ [x00; x03] ++ [x02] ++ [x03; x04].
Definition supported_groups_extension : bytes := [x00; x0a] ++ [x00; x04] ++ [x00; x02] ++ [x00; x1d].
Definition key_share_extension (client_public_key : bytes) : bytes :=
  [x00; x33] ++ be16 (2 + 4 + length client_public_key) ++ be16 (4 + length client_public_key) ++ [x00; x1d] ++
  be16 (length client_public_key) ++ client_public_key.
Definition signature_algorithms_extension : bytes :=
  [x00; x0d] ++ [x00; x12] ++ [x00; x10] ++ [x04; x03] ++ [x08; x04] ++ [x04; x01] ++ [x05; x03] ++ [x08; x05] ++ [x05; x01] ++ [x08; x06] ++ [x06; x01].
Definition alpn_extension (alpn_protocols : list bytes) : bytes :=
  if bool_decide (alpn_protocols = []) then []
  else
    let protocols_list_len := sum_list_with (λ p, 1 + length p) alpn_protocols in
    [x00; x10] ++ be16 (2 + protocols_list_len) ++ be16 protocols_list_len ++ List.concat ((λ p, be8 (length p) ++ p) <$> alpn_protocols).

Definition client_extensions (client_public_key server_name : bytes) (alpn_protocols : list bytes) : bytes :=
  server_name_extension server_name ++ supported_versions_extension ++ supported_groups_extension ++
  key_share_extension client_public_key ++ signature_algorithms_extension ++ alpn_extension alpn_protocols.

(** The two placeholders for lengths are shown with what is written over them. *)
Definition construct_client_hello (client_random session_id client_public_key server_name : bytes) (cipher_suites : list Z) (alpn_protocols : list bytes) : bytes :=
  let extensions := client_extensions client_public_key server_name alpn_protocols in
  let body :=
    [x03; x03] ++ client_random ++ [x20] ++ session_id ++ be16 (length cipher_suites * 2) ++ List.concat (to_be 2 <$> cipher_suites) ++
    [x01; x00] ++ be16 (length extensions) ++ extensions in
  [x01] ++ be24 (length body) ++ body.

Definition write_record_header (record_type : byte) (len : nat) : bytes := [record_type] ++ [x03; x03] ++ be16 len.

(** ** reality_util.rs *)
Definition decode_key (base64_decode : bytes → option bytes) (what_length : string) (encoded : bytes) : tls bytes :=
  decoded ← ok_or (base64_decode encoded) "Invalid base64: {}"%string;
  if negb (length decoded =? 32) then Err what_length else Ok decoded.
Definition decode_public_key (base64_decode : bytes → option bytes) : bytes → tls bytes := decode_key base64_decode "Invalid public key length: {} (expected 32)".
Definition decode_private_key (base64_decode : bytes → option bytes) : bytes → tls bytes := decode_key base64_decode "Invalid private key length: {} (expected 32)".

Definition hex_char_to_value (c : byte) : tls Z :=
  let c := b2z c in
  if ((48 <=? c) && (c <=? 57))%Z then Ok (c - 48)%Z
  else if ((97 <=? c) && (c <=? 102))%Z then Ok (c - 97 + 10)%Z
  else if ((65 <=? c) && (c <=? 70))%Z then Ok (c - 65 + 10)%Z
  else Err "Invalid hex character"%string.

Fixpoint decode_hex_pairs (hex : bytes) : tls bytes :=
  match hex with
  | c0 :: c1 :: rest =>
      high ← hex_char_to_value c0; low ← hex_char_to_value c1;
      l ← decode_hex_pairs rest;
      Ok (z2b (Z.lor (Z.shiftl high 4) low) :: l)
  | _ => Ok []
  end.
Definition decode_hex_to_slice (hex : bytes) (output_len : nat) : tls bytes :=
  if negb (length hex =? output_len * 2) then Err "Invalid hex length"%string else decode_hex_pairs hex.

(** [format!("{:0<16}")] counts characters, not bytes. *)
Definition chars_count (l : bytes) : nat := length (List.filter (λ b, negb (continuation b)) l).
Definition pad_right (n : nat) (l : bytes) : bytes := l ++ replicate (n - chars_count l) x30.

Definition decode_short_id (hex : bytes) : tls bytes :=
  if 16 <? length hex then Err "Short ID too long: {} (max 16 hex chars)"%string
  else match decode_hex_to_slice (pad_right 16 hex) 8 with Err _ => Err "Invalid hex: {}"%string | r => r end.

Definition extract_client_random (client_hello : bytes) : tls bytes :=
  if length client_hello <? 11 + 32 then Err "ClientHello too short to extract random"%string
  else slice client_hello 11 (11 + 32).

Definition extract_session_id_slice (client_hello : bytes) : tls bytes :=
  if length client_hello <? 43 + 1 then Err "ClientHello too short to extract session ID"%string
  else
    b ← index client_hello 43;
    let session_id_len := Z.to_nat (b2z b) in
    if length client_hello <? 43 + 1 + session_id_len then Err "ClientHello session ID extends past end"%string
    else slice client_hello (43 + 1) (43 + 1 + session_id_len).

(** The part that every extractor starts with: up to the session identifier. *)
Definition skip_to_suites (hello : bytes) (short : string) : tls BufReader :=
  if length hello <? TLS_HEADER_LEN then Err short
  else
    l ← slice hello TLS_HEADER_LEN (length hello);
    '(_, r) ← read_u8 (new_reader l);
    '(_, r) ← read_u24_be r;
    '(_, r) ← read_u16_be r;
    '(_, r) ← skip r 32;
    '(session_id_len, r) ← read_u8 r;
    '(_, r) ← skip r (Z.to_nat (b2z session_id_len));
    Ok r.

(** The loop over the extensions up to key_share; each takes at least four bytes. *)
Fixpoint find_keyshare (fuel : nat) (r : BufReader) (extensions_end : nat) : option (tls (option bytes)) :=
  match fuel with
  | O => None
  | S fuel =>
      if negb (pos r <? extensions_end) then Some (Ok None)
      else
        match '(ext_type, r) ← read_u16_be r; '(ext_len, r) ← read_u16_be r;
              if (ext_type =? 51)%Z then '(l, r) ← read_slice r (Z.to_nat ext_len); Ok (Some l, r)
              else '(_, r) ← skip r (Z.to_nat ext_len); Ok (None, r)
        with
        | Ok (Some l, _) => Some (Ok (Some l))
        | Ok (None, r) => find_keyshare fuel r extensions_end
        | Err e => Some (Err e)
        | Panic => Some Panic
        end
  end.

(** The length of the extensions, then the loop. *)
Definition keyshare_extension (r : BufReader) (parse : bytes → tls bytes) (missing : string) : tls bytes :=
  '(extensions_len, r) ← read_u16_be r;
  o ← default Panic (find_keyshare (S (length (buf r))) r (pos r + Z.to_nat extensions_len));
  match o with Some l => parse l | None => Err missing end.

Fixpoint keyshare_loop (fuel : nat) (r : BufReader) : option (tls bytes) :=
  match fuel with
  | O => None
  | S fuel =>
      if length (buf r) <? pos r + 4 then Some (Err "X25519 key share not found in KeyShare extension"%string)
      else
        match '(group, r) ← read_u16_be r; '(key_len, r) ← read_u16_be r;
              let key_len := Z.to_nat key_len in
              if length (buf r) <? pos r + key_len then Err "KeyShare entry extends past end"%string
              else if (group =? 29)%Z then
                if negb (key_len =? 32) then Err "Invalid X25519 key length: {}"%string
                else '(l, r) ← read_slice r 32; Ok (Some l, r)
              else '(_, r) ← skip r key_len; Ok (None, r)
        with
        | Ok (Some l, _) => Some (Ok l)
        | Ok (None, r) => keyshare_loop fuel r
        | Err e => Some (Err e)
        | Panic => Some Panic
        end
  end.
Definition parse_keyshare_extension (data : bytes) : tls bytes :=
  '(_, r) ← read_u16_be (new_reader data);
  default Panic (keyshare_loop (S (length data)) r).

Definition extract_client_public_key (client_hello : bytes) : tls bytes :=
  r ← skip_to_suites client_hello "ClientHello too short";
  '(cipher_suites_len, r) ← read_u16_be r;
  '(_, r) ← skip r (Z.to_nat cipher_suites_len);
  '(compression_len, r) ← read_u8 r;
  '(_, r) ← skip r (Z.to_nat (b2z compression_len));
  keyshare_extension r parse_keyshare_extension "KeyShare extension not found in ClientHello".

Definition parse_server_keyshare_extension (data : bytes) : tls bytes :=
  '(group, r) ← read_u16_be (new_reader data);
  '(key_len, r) ← read_u16_be r;
  if (group =? 29)%Z then
    if negb (Z.to_nat key_len =? 32) then Err "Invalid X25519 key length: {}"%string
    else '(l, _) ← read_slice r 32; Ok l
  else Err "X25519 key share not found in ServerHello KeyShare extension"%string.

Definition extract_server_public_key (server_hello : bytes) : tls bytes :=
  r ← skip_to_suites server_hello "ServerHello too short";
  '(_, r) ← skip r 2;
  '(_, r) ← skip r 1;
  keyshare_extension r parse_server_keyshare_extension "KeyShare extension not found in ServerHello".

Definition extract_server_cipher_suite (server_hello : bytes) : tls Z :=
  r ← skip_to_suites server_hello "ServerHello too short";
  '(cipher_suite, _) ← read_u16_be r; Ok cipher_suite.

(** [chunks(2)] of an even number of bytes *)
Fixpoint u16s (l : bytes) : list Z := match l with a :: b :: l => from_be [a; b] :: u16s l | _ => [] end.

Definition extract_client_cipher_suites (client_hello : bytes) : tls (list Z) :=
  r ← skip_to_suites client_hello "ClientHello too short";
  '(cipher_suites_len, r) ← read_u16_be r;
  if negb (cipher_suites_len mod 2 =? 0)%Z then Err "Invalid cipher suites length (not even)"%string
  else '(l, _) ← read_slice r (Z.to_nat cipher_suites_len); Ok (u16s l).

Definition negotiate_cipher_suite (server_preferences : list CipherSuite) (client_cipher_suite_ids : list Z) : option CipherSuite :=
  List.find (λ s, bool_decide (suite_id s ∈ client_cipher_suite_ids)) server_preferences.

(** ** No extractor panics *)
Definition safe_reader (m : tls BufReader) : Prop := no_panic m ∧ ∀ r, m = Ok r → reader_ok r.

Lemma skip_to_suites_safe d short : safe_reader (skip_to_suites d short).
Proof.
  unfold skip_to_suites, TLS_HEADER_LEN. destruct (Nat.ltb_spec (length d) 5) as [|Hl]; [by split|].
  rewrite slice_ok by lia. cbn [mbind outcome_bind]. generalize (take (length d - 5) (drop 5 d)) as l. clear. intros l.
  split.
  - eapply reads_bind; [apply read_u8_reads|]. intros t r1 _ _. eapply reads_bind; [apply read_u24_reads|]. intros n r2 _ _.
    eapply reads_bind; [apply read_u16_reads|]. intros v r3 _ _. eapply reads_bind; [apply skip_reads|]. intros [] r4 _ _.
    eapply reads_bind; [apply read_u8_reads|]. intros s r5 _ _. eapply reads_bind; [apply skip_reads|]. done.
  - intros r H. do 6 (apply outcome_bind_Ok_inv in H as ([? ?] & ? & H)). injection H as <-. by eapply skip_reads.
Qed.

Lemma find_keyshare_total fuel r e : reader_ok r → length (buf r) - pos r < fuel → ∃ x, find_keyshare fuel r e = Some x ∧ no_panic x.
Proof.
  revert r. induction fuel as [|fuel IH]; intros r Hr Hf; [lia|]. cbn [find_keyshare].
  destruct (negb (pos r <? e)); [by eexists|].
  destruct (read_u16_reads r) as [Hn1 H1]. destruct (read_u16_be r) as [[ty r1]|x|]; cbn [mbind outcome_bind]; [|by eexists|done].
  destruct (H1 _ _ eq_refl) as [-> Hr1]. destruct (read_u16_reads (advance r 2)) as [Hn2 H2].
  destruct (read_u16_be (advance r 2)) as [[n r2]|x|]; cbn [mbind outcome_bind]; [|by eexists|done].
  destruct (H2 _ _ eq_refl) as [-> Hr2]. destruct (ty =? 51)%Z.
  - destruct (read_slice_reads (advance (advance r 2) 2) (Z.to_nat n)) as [Hn3 H3].
    destruct (read_slice _ _) as [[v r3]|x|]; cbn [mbind outcome_bind]; [by eexists..|done].
  - destruct (skip_reads (advance (advance r 2) 2) (Z.to_nat n)) as [Hn3 H3].
    destruct (skip _ _) as [[v r3]|x|]; cbn [mbind outcome_bind]; [|by eexists|done].
    destruct (H3 _ _ eq_refl) as [-> Hr3]. apply IH; [done|]. unfold reader_ok in Hr3. cbn in *. lia.
Qed.

Lemma keyshare_loop_total fuel r : reader_ok r → length (buf r) - pos r < fuel → ∃ x, keyshare_loop fuel r = Some x ∧ no_panic x.
Proof.
  revert r. induction fuel as [|fuel IH]; intros r Hr Hf; [lia|]. cbn [keyshare_loop].
  destruct (_ <? _); [by eexists|].
  destruct (read_u16_reads r) as [Hn1 H1]. destruct (read_u16_be r) as [[ty r1]|x|]; cbn [mbind outcome_bind]; [|by eexists|done].
  destruct (H1 _ _ eq_refl) as [-> Hr1]. destruct (read_u16_reads (advance r 2)) as [Hn2 H2].
  destruct (read_u16_be (advance r 2)) as [[n r2]|x|]; cbn [mbind outcome_bind]; [|by eexists|done].
  destruct (H2 _ _ eq_refl) as [-> Hr2]. destruct (_ <? _); [by eexists|]. destruct (ty =? 29)%Z.
  - destruct (negb _); [by eexists|]. destruct (read_slice_reads (advance (advance r 2) 2) 32) as [Hn3 H3].
    destruct (read_slice _ _) as [[v r3]|x|]; cbn [mbind outcome_bind]; [by eexists..|done].
  - destruct (skip_reads (advance (advance r 2) 2) (Z.to_nat n)) as [Hn3 H3].
    destruct (skip _ _) as [[v r3]|x|]; cbn [mbind outcome_bind]; [|by eexists|done].
    destruct (H3 _ _ eq_refl) as [-> Hr3]. apply IH; [done|]. unfold reader_ok in Hr3. cbn in *. lia.
Qed.

Lemma no_panic_keyshare_extension r parse missing : reader_ok r → (∀ l, no_panic (parse l)) → no_panic (keyshare_extension r parse missing).
Proof.
  intros Hr Hp. unfold keyshare_extension. eapply reads_bind; [apply read_u16_reads|]. intros n r' _ Hr'.
  destruct (find_keyshare_total (S (length (buf r'))) r' (pos r' + Z.to_nat n)) as (x & -> & Hx); [done|lia|]. cbn [default].
  apply no_panic_bind; [done|]. intros [l|] _; [apply Hp|done].
Qed.

Lemma no_panic_parse_keyshare l : no_panic (parse_keyshare_extension l).
Proof.
  unfold parse_keyshare_extension. destruct (read_u16_reads (new_reader l)) as [Hn H]. destruct (read_u16_be _) as [[n r]|e|]; [|done..].
  destruct (H _ _ eq_refl) as [-> Hr]. cbn [mbind outcome_bind]. destruct (keyshare_loop_total (S (length l)) (advance (new_reader l) 2)) as (x & E & Hx); [done|cbn; lia|].
  by rewrite E.
Qed.

Lemma no_panic_parse_server_keyshare l : no_panic (parse_server_keyshare_extension l).
Proof.
  unfold parse_server_keyshare_extension. eapply reads_bind; [apply read_u16_reads|]. intros g r1 _ _. eapply reads_bind; [apply read_u16_reads|]. intros n r2 _ _.
  destruct (_ =? _)%Z; [|done]. destruct (negb _); [done|]. eapply reads_bind; [apply read_slice_reads|]. done.
Qed.

Lemma no_panic_extractors d :
  no_panic (extract_client_random d) ∧ no_panic (extract_session_id_slice d) ∧ no_panic (extract_client_public_key d) ∧
  no_panic (extract_client_cipher_suites d) ∧ no_panic (extract_server_public_key d) ∧ no_panic (extract_server_cipher_suite d).
Proof.
  split_and!.
  - unfold extract_client_random. destruct (Nat.ltb_spec (length d) (11 + 32)); [done|]. by rewrite slice_ok by lia.
  - unfold extract_session_id_slice. destruct (Nat.ltb_spec (length d) (43 + 1)) as [|Hl]; [done|].
    destruct (index_ok (E:=string) d 43) as [b ->]; [lia|]. cbn [mbind outcome_bind].
    destruct (Nat.ltb_spec (length d) (43 + 1 + Z.to_nat (b2z b))); [done|]. by rewrite slice_ok by lia.
  - unfold extract_client_public_key. destruct (skip_to_suites_safe d "ClientHello too short") as [Hn _]. apply no_panic_bind; [done|]. intros r _.
    eapply reads_bind; [apply read_u16_reads|]. intros n r1 _ _. eapply reads_bind; [apply skip_reads|]. intros [] r2 _ _.
    eapply reads_bind; [apply read_u8_reads|]. intros c r3 _ _. eapply reads_bind; [apply skip_reads|]. intros [] r4 _ Hr.
    by apply no_panic_keyshare_extension; [|apply no_panic_parse_keyshare].
  - unfold extract_client_cipher_suites. destruct (skip_to_suites_safe d "ClientHello too short") as [Hn _]. apply no_panic_bind; [done|]. intros r _.
    eapply reads_bind; [apply read_u16_reads|]. intros n r1 _ _. destruct (negb _); [done|]. eapply reads_bind; [apply read_slice_reads|]. done.
  - unfold extract_server_public_key. destruct (skip_to_suites_safe d "ServerHello too short") as [Hn _]. apply no_panic_bind; [done|]. intros r _.
    eapply reads_bind; [apply skip_reads|]. intros [] r2 _ _. eapply reads_bind; [apply skip_reads|]. intros [] r4 _ Hr.
    by apply no_panic_keyshare_extension; [|apply no_panic_parse_server_keyshare].
  - unfold extract_server_cipher_suite. destruct (skip_to_suites_safe d "ServerHello too short") as [Hn _]. apply no_panic_bind; [done|]. intros r _.
    eapply reads_bind; [apply read_u16_reads|]. done.
Qed.

(** ** What is constructed is read back *)
Lemma be16_range n : (Z.of_nat n < 65536)%Z → in_u 16 (Z.of_nat n).
Proof. intros H. split; [lia|exact H]. Qed.

Lemma skip_to_suites_at head t n v random sid rest short :
  length head = 5 → length v = 2 → length random = 32 → length sid < 256 → in_u 24 (Z.of_nat n) →
  skip_to_suites (head ++ [t] ++ be24 n ++ v ++ random ++ be8 (length sid) ++ sid ++ rest) short =
    Ok (at_ ([t] ++ be24 n ++ v ++ random ++ be8 (length sid) ++ sid) rest).
Proof.
  intros Hh Hv Hr Hs Hn. unfold skip_to_suites, TLS_HEADER_LEN. set (body := [t] ++ _). destruct (Nat.ltb_spec (length (head ++ body)) 5) as [Hx|_]; [rewrite length_app in Hx; lia|].
  rewrite slice_ok by (rewrite length_app; lia). rewrite drop_app_length' by done. rewrite take_ge by (rewrite length_app; lia). subst body. cbn [mbind outcome_bind].
  change (new_reader ?l) with (at_ [] l). cbn [app]. rewrite read_u8_at. cbn [mbind outcome_bind]. unfold be24. rewrite read_u24_at by done. cbn [mbind outcome_bind].
  assert (∃ z, in_u 16 z ∧ v = to_be 2 z) as (z & Hz & ->).
  { exists (from_be v). split; [pose proof (from_be_range v) as Hf; rewrite Hv in Hf; exact Hf|]. symmetry. by apply to_be_from_be_n. }
  rewrite read_u16_at by done. cbn [mbind outcome_bind]. rewrite (skip_at _ random _ 32 Hr). cbn [mbind outcome_bind]. unfold be8. cbn [app]. rewrite read_u8_at. cbn [mbind outcome_bind].
  assert (b2z (z2b (Z.of_nat (length sid))) = Z.of_nat (length sid)) as -> by (rewrite b2z_z2b; apply Z.mod_small; lia).
  rewrite Nat2Z.id, skip_at by done. cbn [mbind outcome_bind]. by rewrite <- !app_assoc.
Qed.

Lemma find_keyshare_skip fuel e pre x rest : in_u 16 x.1 → in_u 16 (Z.of_nat (length x.2)) → x.1 ≠ 51%Z → length pre < e →
  find_keyshare (S fuel) (at_ pre (encode_extension x ++ rest)) e = find_keyshare fuel (at_ (pre ++ encode_extension x) rest) e.
Proof.
  intros H1 H2 Hx He. cbn [find_keyshare]. cbn [pos at_]. destruct (Nat.ltb_spec (length pre) e); [|lia]. cbn [negb].
  unfold encode_extension. rewrite <- !app_assoc, read_u16_at by done. cbn [mbind outcome_bind]. rewrite read_u16_at by done. cbn [mbind outcome_bind].
  destruct (Z.eqb_spec x.1 51); [done|]. rewrite Nat2Z.id, skip_at by done. cbn [mbind outcome_bind]. by rewrite <- !app_assoc.
Qed.

Lemma find_keyshare_hit fuel e pre l rest : in_u 16 (Z.of_nat (length l)) → length pre < e →
  find_keyshare (S fuel) (at_ pre (encode_extension (51%Z, l) ++ rest)) e = Some (Ok (Some l)).
Proof.
  intros H2 He. cbn [find_keyshare]. cbn [pos at_]. destruct (Nat.ltb_spec (length pre) e); [|lia]. cbn [negb].
  unfold encode_extension. cbn [fst snd]. rewrite <- !app_assoc, read_u16_at by (split; [lia|reflexivity]). cbn [mbind outcome_bind]. rewrite read_u16_at by done. cbn [mbind outcome_bind].
  rewrite Z.eqb_refl, Nat2Z.id, read_slice_at by done. done.
Qed.

Lemma length_suites (l : list Z) : length (List.concat (to_be 2 <$> l)) = length l * 2.
Proof. induction l as [|z l IH]; [done|]. change (List.concat (to_be 2 <$> z :: l)) with (to_be 2 z ++ List.concat (to_be 2 <$> l)). rewrite length_app, length_to_be. cbn [length]. lia. Qed.

Lemma u16s_suites l : Forall (in_u 16) l → u16s (List.concat (to_be 2 <$> l)) = l.
Proof.
  induction 1 as [|z l Hz _ IH]; [done|]. cbn [fmap list_fmap List.concat]. pose proof (from_be_to_be_u16 z Hz) as Hf. pose proof (length_to_be 2 z) as Hl.
  revert Hf Hl. generalize (to_be 2 z). intros [|a [|b [|]]] Hf Hl; try done. cbn [app u16s]. rewrite Hf. f_equal. exact IH.
Qed.

(** The blocks are well-formed extensions. *)
Lemma server_name_encoded name : server_name_extension name = encode_extension (0%Z, be16 (length name + 3) ++ [x00] ++ be16 (length name) ++ name).
Proof.
  unfold server_name_extension, encode_extension, be16. cbn [fst snd]. change (to_be 2 0) with [x00; x00]. rewrite !length_app, !length_to_be. cbn [length].
  by replace (2 + (1 + (2 + length name))) with (5 + length name) by lia.
Qed.

Lemma versions_encoded : supported_versions_extension = encode_extension (43%Z, [x02; x03; x04]).
Proof. reflexivity. Qed.

Lemma groups_encoded : supported_groups_extension = encode_extension (10%Z, [x00; x02; x00; x1d]).
Proof. reflexivity. Qed.

Lemma key_share_encoded pk : key_share_extension pk = encode_extension (51%Z, be16 (4 + length pk) ++ [x00; x1d] ++ be16 (length pk) ++ pk).
Proof.
  unfold key_share_extension, encode_extension, be16. cbn [fst snd]. change (to_be 2 51) with [x00; x33]. rewrite !length_app, !length_to_be. cbn [length].
  by replace (2 + (2 + (2 + length pk))) with (2 + 4 + length pk) by lia.
Qed.

Lemma read_slice_end pre l n : length l = n → read_slice (at_ pre l) n = Ok (l, at_ (pre ++ l) []).
Proof. intros H. rewrite <- (read_slice_at pre l [] n H). by rewrite app_nil_r. Qed.

Lemma parse_keyshare_at pk : length pk = 32 → parse_keyshare_extension (be16 (4 + length pk) ++ [x00; x1d] ++ be16 (length pk) ++ pk) = Ok pk.
Proof.
  intros Hpk. unfold parse_keyshare_extension. change (new_reader ?l) with (at_ [] l). unfold be16. rewrite read_u16_at by (apply be16_range; lia). cbn [mbind outcome_bind].
  change [x00; x1d] with (to_be 2 29). set (rest := to_be 2 29 ++ _). assert (length rest = 36) as Hrest by (unfold rest; rewrite !length_app, !length_to_be; lia).
  cbn [keyshare_loop]. destruct (_ <? _) eqn:Hx; [exfalso; apply Nat.ltb_lt in Hx; revert Hx; unfold at_; cbn [buf pos]; rewrite length_app; cbn [length app]; lia|].
  unfold rest. rewrite read_u16_at by (split; [lia|reflexivity]). cbn [mbind outcome_bind]. rewrite read_u16_at by (apply be16_range; lia). cbn [mbind outcome_bind].
  clear Hx. rewrite Nat2Z.id. destruct (_ <? _) eqn:Hy; [exfalso; apply Nat.ltb_lt in Hy; revert Hy; unfold at_; cbn [buf pos]; rewrite length_app; lia|].
  rewrite Hpk. cbn [Z.eqb Pos.eqb Nat.eqb negb]. by rewrite read_slice_end.
Qed.

Section client_hello.
Context (random sid pk name : bytes) (suites : list Z) (alpn : list bytes).
Hypotheses (Hrandom : length random = 32) (Hsid : length sid = 32) (Hpk : length pk = 32).
Hypotheses (Hsuites : Forall (in_u 16) suites) (Hmany : (Z.of_nat (length suites) < 32768)%Z).
Hypothesis Hexts : (Z.of_nat (length (client_extensions pk name alpn)) < 65536)%Z.

Definition hello_tail : bytes :=
  be16 (length suites * 2) ++ List.concat (to_be 2 <$> suites) ++ [x01; x00] ++
  be16 (length (client_extensions pk name alpn)) ++ client_extensions pk name alpn.
Definition hello_body_length : nat := length ([x03; x03] ++ random ++ [x20] ++ sid ++ hello_tail).
Definition client_record : bytes :=
  let hello := construct_client_hello random sid pk name suites alpn in write_record_header x16 (length hello) ++ hello.

Lemma client_record_shape : ∃ head, length head = 5 ∧
  client_record = head ++ [x01] ++ be24 hello_body_length ++ [x03; x03] ++ random ++ be8 (length sid) ++ sid ++ hello_tail.
Proof.
  eexists. split; [|unfold client_record, construct_client_hello; rewrite Hsid; reflexivity]. unfold write_record_header, be16. by rewrite !length_app, length_to_be.
Qed.

Lemma length_hello_tail : length hello_tail = 6 + length suites * 2 + length (client_extensions pk name alpn).
Proof. unfold hello_tail, be16. rewrite !length_app, !length_to_be, length_suites. cbn [length]. lia. Qed.

Lemma hello_body_u24 : in_u 24 (Z.of_nat hello_body_length).
Proof. unfold hello_body_length. rewrite !length_app, length_hello_tail, Hrandom, Hsid. cbn [length]. split; [lia|]. change (2 ^ 24)%Z with 16777216%Z. lia. Qed.

Lemma client_skip short : ∃ pre, skip_to_suites client_record short = Ok (at_ pre hello_tail) ∧ 0 < length pre.
Proof.
  destruct client_record_shape as (head & Hh & ->). eexists. split; [apply skip_to_suites_at; try done; [lia|apply hello_body_u24]|]. cbn. lia.
Qed.

Lemma client_random_read : extract_client_random client_record = Ok random.
Proof.
  destruct client_record_shape as (head & Hh & ->). unfold extract_client_random.
  rewrite (app_assoc [x01]), (app_assoc ([x01] ++ _)), (app_assoc head). set (pre := head ++ _). assert (length pre = 11) as Hp by (unfold pre, be24; rewrite !length_app, length_to_be, Hh; done).
  destruct (Nat.ltb_spec (length (pre ++ random ++ be8 (length sid) ++ sid ++ hello_tail)) (11 + 32)) as [Hx|_]; [rewrite !length_app, Hp, Hrandom in Hx; lia|].
  apply slice_at; lia.
Qed.

Lemma client_session_read : extract_session_id_slice client_record = Ok sid.
Proof.
  destruct client_record_shape as (head & Hh & ->). unfold extract_session_id_slice.
  rewrite (app_assoc [x01]), (app_assoc ([x01] ++ _)), (app_assoc (([x01] ++ _) ++ _)), (app_assoc head). set (pre := head ++ _).
  assert (length pre = 43) as Hp by (unfold pre, be24; rewrite !length_app, length_to_be, Hh, Hrandom; done).
  unfold be8. rewrite Hsid. change [z2b (Z.of_nat 32)] with [x20]. rewrite !length_app, Hp, Hsid. cbn [length]. destruct (_ <? 43 + 1) eqn:Hx; [apply Nat.ltb_lt in Hx; lia|]. clear Hx.
  rewrite <- (Nat.add_0_r 43), <- Hp, index_pre, Hp. change (index (E:=string) ([x20] ++ sid ++ hello_tail) 0) with (@Ok string byte x20). cbn [mbind outcome_bind].
  change (Z.to_nat (b2z x20)) with 32. destruct (_ <? _) eqn:Hx; [apply Nat.ltb_lt in Hx; lia|]. rewrite app_assoc. apply slice_at; rewrite !length_app, Hp; [done|]. rewrite Hsid. done.
Qed.

Lemma client_suites_read : extract_client_cipher_suites client_record = Ok suites.
Proof.
  unfold extract_client_cipher_suites. destruct (client_skip "ClientHello too short") as (pre & -> & _). cbn [mbind outcome_bind]. unfold hello_tail.
  unfold be16 at 1. rewrite read_u16_at by (apply be16_range; lia). cbn [mbind outcome_bind]. rewrite Nat2Z.inj_mul, Z.mod_mul by done. cbn [Z.eqb negb].
  rewrite <- Nat2Z.inj_mul, Nat2Z.id, read_slice_at by apply length_suites. cbn [mbind outcome_bind]. by rewrite u16s_suites.
Qed.

Lemma exts_count : 3 ≤ length (client_extensions pk name alpn).
Proof. unfold client_extensions. rewrite !length_app. cbn [supported_versions_extension length app]. lia. Qed.

(** The loop passes three extensions and finds the key. *)
Lemma find_key_share pre e fuel : e = length pre + length (client_extensions pk name alpn) → 3 ≤ fuel →
  find_keyshare (S fuel) (at_ pre (client_extensions pk name alpn)) e = Some (Ok (Some (be16 (4 + length pk) ++ [x00; x1d] ++ be16 (length pk) ++ pk))).
Proof.
  intros He Hf. assert (∀ x, 0 < length (encode_extension x)) as Hpos by (intros x; unfold encode_extension; rewrite !length_app, length_to_be; lia).
  do 3 (destruct fuel as [|fuel]; [lia|]). clear Hf. pose proof Hexts as Hlen. revert He Hlen. unfold client_extensions.
  rewrite server_name_encoded, versions_encoded, groups_encoded, key_share_encoded. unfold be16.
  set (x0 := (0%Z, _)). set (x1 := (43%Z, _)). set (x2 := (10%Z, _)). set (x3 := (51%Z, _)). intros He Hlen. rewrite !length_app in He, Hlen.
  pose proof (Hpos x0) as P0. pose proof (Hpos x1) as P1. pose proof (Hpos x2) as P2. pose proof (Hpos x3) as P3.
  assert (∀ x, (Z.of_nat (length (encode_extension x)) < 65536)%Z → in_u 16 (Z.of_nat (length x.2))) as Hok.
  { intros x Hx. unfold encode_extension in Hx. rewrite !length_app in Hx. apply be16_range. lia. }
  do 3 (rewrite find_keyshare_skip; [|by split|apply Hok; lia|done|rewrite ?length_app; lia]).
  apply find_keyshare_hit; [|rewrite !length_app; lia]. apply be16_range. unfold encode_extension, x3 in Hlen. cbn [snd] in Hlen. rewrite !length_app in *. lia.
Qed.

Lemma client_key_read : extract_client_public_key client_record = Ok pk.
Proof.
  unfold extract_client_public_key. destruct (client_skip "ClientHello too short") as (pre & -> & Hpre). cbn [mbind outcome_bind]. unfold hello_tail.
  unfold be16 at 1. rewrite read_u16_at by (apply be16_range; lia). cbn [mbind outcome_bind]. rewrite Nat2Z.id, skip_at by apply length_suites. cbn [mbind outcome_bind app].
  rewrite read_u8_at. cbn [mbind outcome_bind]. change (Z.to_nat (b2z x01)) with 1. change (x00 :: ?l) with ([x00] ++ l). rewrite (skip_at _ [x00] _ 1 eq_refl). cbn [mbind outcome_bind].
  unfold keyshare_extension. unfold be16 at 1. rewrite read_u16_at by by apply be16_range. cbn [mbind outcome_bind]. rewrite Nat2Z.id.
  rewrite find_key_share; [|cbn [pos at_]; lia|unfold at_; cbn [buf]; rewrite length_app; pose proof exts_count; lia]. cbn [default id mbind outcome_bind].
  by apply parse_keyshare_at.
Qed.
End client_hello.

Section server_hello.
Context (random sid pk : bytes) (suite : Z).
Hypotheses (Hrandom : length random = 32) (Hsid : length sid ≤ 32) (Hpk : length pk = 32) (Hsuite : in_u 16 suite).

Definition server_fields : ServerHello := {|
  h_random := random; h_session := sid; h_cipher := suite; h_compression := x00;
  h_extensions := Some [(43%Z, [x03; x04]); (51%Z, [x00; x1d] ++ be16 (length pk) ++ pk)] |}.
Definition server_record : bytes :=
  let hello := construct_server_hello random sid suite pk in write_record_header x16 (length hello) ++ hello.

Lemma server_hello_encoded : construct_server_hello random sid suite pk = encode_message server_fields.
Proof.
  unfold construct_server_hello, encode_message, encode_body, be8, be16, be24. cbn [h_random h_session h_cipher h_compression h_extensions server_fields encode_tail].
  set (e1 := [x00; x2b] ++ _). set (e2 := encode_extensions _). assert (e1 = e2) as ->; [|reflexivity].
  unfold e1, e2, encode_extensions, encode_extension. cbn [List.map List.concat fst snd]. rewrite app_nil_r, <- !app_assoc.
  change (to_be 2 43) with [x00; x2b]. change (to_be 2 51) with [x00; x33]. unfold be16. rewrite !length_app, length_to_be. cbn [length].
  by replace (2 + (2 + length pk)) with (2 + 2 + length pk) by lia.
Qed.

Lemma server_record_encoded : server_record = encode_record server_fields.
Proof. unfold server_record, encode_record. rewrite server_hello_encoded. unfold write_record_header, be16. by rewrite <- !app_assoc. Qed.

Lemma server_extensions_length : length (encode_extensions [(43%Z, [x03; x04]); (51%Z, [x00; x1d] ++ be16 (length pk) ++ pk)]) = 46.
Proof. unfold encode_extensions, encode_extension. cbn [List.map List.concat fst snd]. unfold be16. rewrite !length_app, !length_to_be, Hpk. done. Qed.

Lemma server_fields_ok : random ≠ RETRY_REQUEST_RANDOM_BYTES → hello_ok server_fields.
Proof.
  intros Hne. split; [done..|]. intros es Hes%(inj Some). subst es. split; [|apply be16_range; pose proof server_extensions_length as Hl; lia].
  repeat apply Forall_cons_2; [| |apply Forall_nil_2]; (split_and!; [by split|apply be16_range; cbn [snd]; unfold be16; rewrite ?length_app, ?length_to_be, ?Hpk; cbn [length]; lia|done]).
Qed.

(** Behind the session identifier. *)
Definition server_tail : bytes := to_be 2 suite ++ [x00] ++ encode_tail (h_extensions server_fields).

Lemma server_skip short : ∃ pre, skip_to_suites server_record short = Ok (at_ pre server_tail).
Proof.
  assert (in_u 24 (Z.of_nat (length (encode_body server_fields)))) as Hn.
  { unfold encode_body. cbn [server_fields h_random h_session h_cipher h_compression h_extensions encode_tail]. rewrite !length_app, !length_to_be, server_extensions_length, Hrandom. cbn [length].
    split; [lia|]. change (2 ^ 24)%Z with 16777216%Z. lia. }
  pose proof (skip_to_suites_at ([x16; x03; x03] ++ to_be 2 (Z.of_nat (length (encode_message server_fields)))) x02 (length (encode_body server_fields)) [x03; x03] random sid server_tail short) as H.
  eexists. rewrite server_record_encoded. unfold encode_record. rewrite app_assoc. apply H; [by rewrite length_app, length_to_be|done|done|lia|done].
Qed.

Lemma server_suite_read : extract_server_cipher_suite server_record = Ok suite.
Proof.
  unfold extract_server_cipher_suite. destruct (server_skip "ServerHello too short") as [pre ->]. cbn [mbind outcome_bind]. unfold server_tail. by rewrite read_u16_at.
Qed.

Lemma server_key_read : extract_server_public_key server_record = Ok pk.
Proof.
  unfold extract_server_public_key. destruct (server_skip "ServerHello too short") as [pre ->]. cbn [mbind outcome_bind]. unfold server_tail.
  rewrite skip_at by apply length_to_be. cbn [mbind outcome_bind]. rewrite (skip_at _ [x00] _ 1 eq_refl). cbn [mbind outcome_bind server_fields h_extensions encode_tail].
  pose proof server_extensions_length as Hl. unfold keyshare_extension. rewrite read_u16_at by (apply be16_range; lia). cbn [mbind outcome_bind]. rewrite Nat2Z.id. rewrite Hl.
  set (es := encode_extensions _) in *. assert (es = encode_extension (43%Z, [x03; x04]) ++ encode_extension (51%Z, [x00; x1d] ++ be16 (length pk) ++ pk) ++ []) as Hes by reflexivity.
  generalize ((pre ++ to_be 2 suite) ++ [x00]) as pre1. intros pre1. set (pre2 := pre1 ++ to_be 2 _). cbn [pos at_].
  destruct (length (buf (at_ pre2 es))) as [|n] eqn:En; [unfold at_ in En; cbn [buf] in En; rewrite length_app, Hl in En; lia|].
  rewrite Hes, find_keyshare_skip; [|by split|by split|done|lia]. rewrite find_keyshare_hit; [|apply be16_range; unfold be16; rewrite !length_app, length_to_be, Hpk; cbn [length]; lia|rewrite length_app; change (length (encode_extension (43%Z, [x03; x04]))) with 6; lia].
  cbn [default id mbind outcome_bind]. unfold parse_server_keyshare_extension. change (new_reader ?l) with (at_ [] l). change [x00; x1d] with (to_be 2 29). rewrite read_u16_at by by split. cbn [mbind outcome_bind].
  unfold be16. rewrite read_u16_at by (apply be16_range; lia). cbn [mbind outcome_bind]. rewrite Nat2Z.id, Hpk. cbn [Z.eqb Pos.eqb Nat.eqb negb]. by rewrite read_slice_end.
Qed.
End server_hello.

(** On no bytes does an extractor panic, and what the client constructs it reads
    back: from the record of a client hello with a random and a session identifier of 32
    bytes, an X25519 key, fewer than 32768 suites and extensions below 65536 bytes, the
    extractors of the server's side find the random, the identifier, the suites in
    order and the key behind three other extensions. *)
Theorem client_hello_roundtrip :
  (∀ d, no_panic (extract_client_random d) ∧ no_panic (extract_session_id_slice d) ∧ no_panic (extract_client_public_key d) ∧
    no_panic (extract_client_cipher_suites d) ∧ no_panic (extract_server_public_key d) ∧ no_panic (extract_server_cipher_suite d)) ∧
  ∀ random sid pk name suites alpn,
    length random = 32 → length sid = 32 → length pk = 32 → Forall (in_u 16) suites → (Z.of_nat (length suites) < 32768)%Z →
    (Z.of_nat (length (client_extensions pk name alpn)) < 65536)%Z →
    let r := client_record random sid pk name suites alpn in
    extract_client_random r = Ok random ∧ extract_session_id_slice r = Ok sid ∧
    extract_client_cipher_suites r = Ok suites ∧ extract_client_public_key r = Ok pk.
Proof.
  split; [exact no_panic_extractors|]. intros random sid pk name suites alpn H1 H2 H3 H4 H5 H6 r. split_and!;
    [by apply client_random_read|by apply client_session_read|by apply client_suites_read|by apply client_key_read].
Qed.

Lemma client_hello_roundtrip_witness :
  let r := client_record (replicate 32 x07) (replicate 32 x08) (replicate 32 x09) (list_byte_of_string "example.org") (suite_id <$> DEFAULT_CIPHER_SUITES) DEFAULT_ALPN_PROTOCOLS in
  extract_client_cipher_suites r = Ok [4865; 4866; 4867]%Z ∧ extract_client_public_key r = Ok (replicate 32 x09).
Proof.
  destruct (proj2 client_hello_roundtrip (replicate 32 x07) (replicate 32 x08) (replicate 32 x09) (list_byte_of_string "example.org") (suite_id <$> DEFAULT_CIPHER_SUITES) DEFAULT_ALPN_PROTOCOLS)
    as (_ & _ & H1 & H2); [reflexivity..| | | |by split].
  - repeat apply Forall_cons_2; [by split..|apply Forall_nil_2].
  - reflexivity.
  - vm_compute. reflexivity.
Defined.

(** The server hello that the messages module constructs for an X25519 key carries
    what was put in: the extractors of the client find the suite and the key in its
    record, and the independent parser of the Vision filter reads the same suite and
    TLS 1.3, unless the random is that of a retry request. *)
Theorem server_hello_agreed random sid pk suite :
  length random = 32 → length sid ≤ 32 → length pk = 32 → in_u 16 suite →
  let r := server_record random sid pk suite in
  extract_server_cipher_suite r = Ok suite ∧ extract_server_public_key r = Ok pk ∧
  (random ≠ RETRY_REQUEST_RANDOM_BYTES → parse_server_hello r = Ok {| cipher_suite := suite; is_tls13 := true |}).
Proof.
  intros H1 H2 H3 H4 r. split_and!; [by apply server_suite_read|by apply server_key_read|]. intros Hne. unfold r. rewrite server_record_encoded by done.
  rewrite parse_encoded by by apply server_fields_ok. done.
Qed.

Lemma server_hello_agreed_witness :
  let r := server_record (replicate 32 x07) (replicate 32 x08) (replicate 32 x09) 4865 in
  extract_server_public_key r = Ok (replicate 32 x09) ∧ parse_server_hello r = Ok {| cipher_suite := 4865; is_tls13 := true |}.
Proof.
  destruct (server_hello_agreed (replicate 32 x07) (replicate 32 x08) (replicate 32 x09) 4865) as (_ & H1 & H2); [reflexivity|cbn; lia|reflexivity|by split|].
  split; [exact H1|]. apply H2. discriminate.
Defined.
