(* ===== verification/RealityKeys.v ===== *)
(** * RealityKeys: the key schedule, the authentication key and the verification

    [reality_tls13_keys.rs], [reality_auth.rs] and [reality_client_verify.rs] of
    [prototype/vless/src/reality]. The primitives of the cryptographic libraries and the
    X.509 parser are the class [Crypto]; what is relied on is [CryptoLaws]. *)
From Stdlib Require Import ZArith Lia Strings.Byte Ascii String.
From stdpp Require Import base list numbers option.
From S2P Require Import Prelude Net AeadStream TlsHello RealityRecords RealityMessages.
Local Open Scope nat_scope.

Abbreviation res := (outcome IoError).

(** ** The primitives *)
Class Crypto := {
  suite_aead : CipherSuite → Aead;
  hmac : CipherSuite → bytes → bytes → bytes;
  digest : CipherSuite → bytes → bytes;
  hmac_sha512 : bytes → bytes → bytes;
  hkdf_sha256_extract : bytes → bytes → bytes;
  hkdf_sha256_expand : bytes → bytes → option bytes;
  aes_256_gcm : Aead;
  compute_public_key : bytes → option bytes;
  agree : bytes → bytes → option bytes;
  ed25519_verify : bytes → bytes → bytes → bool;
  x509_from_der : bytes → option (bytes * bytes) }.

Class CryptoLaws (C : Crypto) : Prop := {
  suite_laws s :: AeadLaws (suite_aead s);
  gcm_laws :: AeadLaws aes_256_gcm;
  hmac_length s k m : length (hmac s k m) = hash_len s;
  digest_length s m : length (digest s m) = hash_len s;
  public_length a p : compute_public_key a = Some p → length p = 32;
  agree_length a b s : agree a b = Some s → length s = 32 }.

Section keys.
Context `{Crypto}.

(** ** reality_tls13_keys.rs *)
Record Tls13HandshakeKeys := {
  client_handshake_traffic_secret : bytes;
  server_handshake_traffic_secret : bytes;
  master_secret : bytes }.

Definition div_ceil (a b : nat) : nat := a / b + (if a mod b =? 0 then 0 else 1).

(** The iterations from [i] on: the previous block and the output. *)
Fixpoint expand_loop (s : CipherSuite) (prk info : bytes) (n : nat) (i : nat) (prev output : bytes) : bytes :=
  match n with
  | O => output
  | S n =>
      let tag := hmac s prk (prev ++ info ++ be8 i) in
      expand_loop s prk info n (S i) tag (output ++ tag)
  end.

Definition hkdf_expand (s : CipherSuite) (prk info : bytes) (len : nat) : res bytes :=
  let n := div_ceil len (hash_len s) in
  if 255 <? n then Err (invalid_data "HKDF output too long")
  else Ok (take len (expand_loop s prk info n 1 [] [])).

(** [str::from_utf8(label).unwrap()] *)
Definition hkdf_label (label context : bytes) (len : nat) : res bytes :=
  if utf8_valid label then
    let full_label := list_byte_of_string "tls13 " ++ label in
    Ok (be16 len ++ be8 (length full_label) ++ full_label ++ be8 (length context) ++ context)
  else Panic.

Definition hkdf_expand_label_with_algorithm (s : CipherSuite) (secret label context : bytes) (len : nat) : res bytes :=
  info ← hkdf_label label context len;
  hkdf_expand s secret info len.

Definition derive_secret_with_algorithm (s : CipherSuite) (secret label messages_hash : bytes) : res bytes :=
  hkdf_expand_label_with_algorithm s secret label messages_hash (hash_len s).

Definition hkdf_extract_with_algorithm (s : CipherSuite) (salt ikm : bytes) : bytes := hmac s salt ikm.

Definition derive_traffic_keys (traffic_secret : bytes) (s : CipherSuite) : res (bytes * bytes) :=
  key ← hkdf_expand_label_with_algorithm s traffic_secret (list_byte_of_string "key") [] (key_len s);
  iv ← hkdf_expand_label_with_algorithm s traffic_secret (list_byte_of_string "iv") [] (nonce_len s);
  Ok (key, iv).

Definition derive_handshake_keys (s : CipherSuite) (shared_secret server_hello_hash : bytes) : res Tls13HandshakeKeys :=
  if negb (length shared_secret =? 32) then Err (io_error InvalidInput "Invalid shared_secret length: {} (expected 32)")
  else if negb (length server_hello_hash =? hash_len s) then Err (io_error InvalidInput "Hash length mismatch: {} (expected {})")
  else
    let zero_salt := replicate (hash_len s) x00 in
    let early_secret := hkdf_extract_with_algorithm s zero_salt zero_salt in
    let empty_hash := digest s [] in
    derived_secret ← derive_secret_with_algorithm s early_secret (list_byte_of_string "derived") empty_hash;
    let handshake_secret := hkdf_extract_with_algorithm s derived_secret shared_secret in
    client ← derive_secret_with_algorithm s handshake_secret (list_byte_of_string "c hs traffic") server_hello_hash;
    server ← derive_secret_with_algorithm s handshake_secret (list_byte_of_string "s hs traffic") server_hello_hash;
    let empty_hash_2 := digest s [] in
    derived_secret_2 ← derive_secret_with_algorithm s handshake_secret (list_byte_of_string "derived") empty_hash_2;
    let master := hkdf_extract_with_algorithm s derived_secret_2 zero_salt in
    Ok {| client_handshake_traffic_secret := client; server_handshake_traffic_secret := server; master_secret := master |}.

Definition derive_application_secrets (s : CipherSuite) (master handshake_hash : bytes) : res (bytes * bytes) :=
  if negb (length master =? hash_len s) || negb (length handshake_hash =? hash_len s) then
    Err (io_error InvalidInput "Master secret and handshake hash must be {} bytes")
  else
    client ← derive_secret_with_algorithm s master (list_byte_of_string "c ap traffic") handshake_hash;
    server ← derive_secret_with_algorithm s master (list_byte_of_string "s ap traffic") handshake_hash;
    Ok (client, server).

Definition compute_finished_verify_data (s : CipherSuite) (base_key handshake_hash : bytes) : res bytes :=
  finished_key ← hkdf_expand_label_with_algorithm s base_key (list_byte_of_string "finished") [] (hash_len s);
  Ok (hmac s finished_key handshake_hash).

(** ** reality_auth.rs *)
Inductive CryptoError :=
  | InvalidKeyLength | InvalidNonceLength | InvalidCiphertextLength | EncryptionFailed | DecryptionFailed
  | EcdhFailed | HkdfFailed | CertificateGenerationFailed (e : string).

Definition crypto_text (e : CryptoError) : string :=
  (match e with
   | InvalidKeyLength => "Invalid key length" | InvalidNonceLength => "Invalid nonce length"
   | InvalidCiphertextLength => "Invalid ciphertext length" | EncryptionFailed => "Encryption failed"
   | DecryptionFailed => "Decryption failed" | EcdhFailed => "ECDH key exchange failed"
   | HkdfFailed => "HKDF derivation failed" | CertificateGenerationFailed e => "Certificate generation failed: " ++ e
   end)%string.

(** [From<CryptoError> for io::Error] *)
Definition from_crypto {A} (m : outcome CryptoError A) : res A :=
  match m with Ok a => Ok a | Err e => Err (invalid_data (crypto_text e)) | Panic => Panic end.

(** [aws_lc_rs] takes any 32 bytes as a private key. *)
Definition perform_ecdh (private_key public_key : bytes) : outcome CryptoError bytes :=
  _ ← ok_or (compute_public_key private_key) EcdhFailed;
  ok_or (agree private_key public_key) EcdhFailed.

Definition derive_auth_key (shared_secret salt info : bytes) : outcome CryptoError bytes :=
  if negb (length salt =? 20) then Panic
  else ok_or (hkdf_sha256_expand (hkdf_sha256_extract salt shared_secret) info) HkdfFailed.

Definition encrypt_session_id (plaintext auth_key nonce aad : bytes) : outcome CryptoError bytes :=
  if negb (length nonce =? 12) then Panic
  else
    in_out ← ok_or (seal (Aead:=aes_256_gcm) auth_key nonce aad plaintext) EncryptionFailed;
    if negb (length in_out =? 32) then Err EncryptionFailed else Ok in_out.

Definition decrypt_session_id (ciphertext_and_tag auth_key nonce aad : bytes) : outcome CryptoError bytes :=
  if negb (length nonce =? 12) then Panic
  else
    plaintext ← ok_or (unseal (Aead:=aes_256_gcm) auth_key nonce aad ciphertext_and_tag) DecryptionFailed;
    if negb (length plaintext =? 16) then Err DecryptionFailed else Ok plaintext.

(** ** reality_client_verify.rs *)

(** Three bytes at [pos], behind a check that they are there *)
Definition u24_at (l : bytes) (pos : nat) : res nat :=
  a ← index l pos; b ← index l (pos + 1); c ← index l (pos + 2);
  Ok (Z.to_nat (from_be [x00; a; b; c])).

Definition extract_certificate_der (m : bytes) : res bytes :=
  if length m <? 4 then Err (invalid_data "Certificate message too short")
  else if length m <=? 4 then Err (invalid_data "Certificate message truncated at context length")
  else
    b ← index m 4;
    let pos := 4 + (1 + Z.to_nat (b2z b)) in
    if length m <? pos + 3 then Err (invalid_data "Certificate message truncated at list length")
    else
      _ ← u24_at m pos;
      let pos := pos + 3 in
      if length m <? pos + 3 then Err (invalid_data "Certificate message truncated at cert length")
      else
        cert_len ← u24_at m pos;
        let pos := pos + 3 in
        if length m <? pos + cert_len then Err (invalid_data "Certificate message truncated at cert data")
        else slice m pos (pos + cert_len).

Definition parse_x509 (cert_der : bytes) : res (bytes * bytes) := ok_or (x509_from_der cert_der) (invalid_data "Failed to parse X.509 certificate: {}").

Definition verify_certificate_hmac (cert_der auth_key : bytes) : res unit :=
  '(pubkey_data, signature) ← parse_x509 cert_der;
  if negb (length pubkey_data =? 32) then Err (invalid_data "Expected Ed25519 public key (32 bytes), got {} bytes")
  else if negb (length signature =? 64) then Err (invalid_data "Expected 64-byte signature for HMAC-SHA512 verification, got {} bytes")
  else if negb (bool_decide (hmac_sha512 auth_key pubkey_data = signature)) then
    Err (io_error PermissionDenied "Certificate HMAC verification failed - not a REALITY-signed certificate")
  else Ok tt.

Definition extract_ed25519_public_key (cert_der : bytes) : res bytes :=
  '(pubkey_data, _) ← parse_x509 cert_der;
  if negb (length pubkey_data =? 32) then Err (invalid_data "Expected Ed25519 public key (32 bytes), got {} bytes") else Ok pubkey_data.

Definition extract_certificate_verify_signature (m : bytes) : res bytes :=
  if length m <? 72 then Err (invalid_data "CertificateVerify message too short: {} bytes")
  else
    t ← index m 0;
    if negb (bool_decide (t = x0f)) then Err (invalid_data "Expected CertificateVerify type (0x0f), got 0x{:02x}")
    else
      a ← index m 4; b ← index m 5;
      if negb (from_be [a; b] =? 2055)%Z then Err (invalid_data "Unsupported signature algorithm: 0x{:04x}, expected Ed25519 (0x0807)")
      else
        c ← index m 6; d ← index m 7;
        let sig_len := Z.to_nat (from_be [c; d]) in
        if negb (sig_len =? 64) then Err (invalid_data "Invalid Ed25519 signature length: {}, expected 64")
        else if length m <? 8 + sig_len then Err (invalid_data "CertificateVerify message truncated")
        else slice m 8 (8 + sig_len).

Definition verify_certificate_verify_signature (public_key signature transcript_hash : bytes) : res unit :=
  if negb (length signature =? 64) then Err (invalid_data "Invalid signature length: {}, expected 64")
  else if ed25519_verify public_key (signed_content transcript_hash) signature then Ok tt
  else Err (io_error PermissionDenied "CertificateVerify signature verification failed").

(** ** The lengths *)
Context `{!CryptoLaws _}.

Lemma hash_len_pos s : 32 ≤ hash_len s ≤ 48.
Proof. destruct s; cbn; lia. Qed.

Lemma expand_loop_length s prk info n i prev output : length (expand_loop s prk info n i prev output) = length output + n * hash_len s.
Proof. revert i prev output. induction n as [|n IH]; intros i prev output; cbn [expand_loop]; [lia|]. rewrite IH, length_app, hmac_length. lia. Qed.

Lemma div_ceil_spec a b : 0 < b → a ≤ div_ceil a b * b < a + b.
Proof.
  intros Hb. unfold div_ceil. pose proof (Nat.div_mod_eq a b) as Hm. pose proof (Nat.mod_upper_bound a b). destruct (a mod b =? 0) eqn:E; bool_hyps; nia.
Qed.

(** The expansion is the chain of RFC 5869: block [i] is keyed by the secret over the
    block before, the label and the number, and the output is the first [len] bytes. *)
Fixpoint blocks (s : CipherSuite) (prk info : bytes) (i : nat) : bytes :=
  match i with O => [] | S i => hmac s prk (blocks s prk info i ++ info ++ be8 (S i)) end.

Lemma expand_loop_blocks s prk info n i output :
  expand_loop s prk info n (S i) (blocks s prk info i) output = output ++ List.concat (List.map (blocks s prk info) (List.seq (S i) n)).
Proof.
  revert i output. induction n as [|n IH]; intros i output; cbn [expand_loop List.seq List.map List.concat]; [by rewrite app_nil_r|].
  change (hmac s prk (blocks s prk info i ++ info ++ be8 (S i))) with (blocks s prk info (S i)). rewrite IH. by rewrite <- app_assoc.
Qed.

Lemma hkdf_expand_ok s prk info len : len ≤ 255 * hash_len s →
  ∃ l, hkdf_expand s prk info len = Ok l ∧ length l = len ∧
    l = take len (List.concat (List.map (blocks s prk info) (List.seq 1 (div_ceil len (hash_len s))))).
Proof.
  intros Hl. unfold hkdf_expand. pose proof (hash_len_pos s) as Hp. pose proof (div_ceil_spec len (hash_len s) ltac:(lia)) as Hd.
  destruct (Nat.ltb_spec 255 (div_ceil len (hash_len s))) as [Hx|Hx]; [nia|]. eexists. split; [done|]. split.
  - rewrite length_take, expand_loop_length. cbn [length]. lia.
  - f_equal. apply (expand_loop_blocks s prk info _ 0 []).
Qed.

Lemma expand_label_ok s secret label context len : utf8_valid label = true → len ≤ 48 →
  ∃ l, hkdf_expand_label_with_algorithm s secret label context len = Ok l ∧ length l = len.
Proof.
  intros Hv Hl. unfold hkdf_expand_label_with_algorithm, hkdf_label. rewrite Hv. cbn [mbind outcome_bind]. pose proof (hash_len_pos s).
  edestruct hkdf_expand_ok as (l & -> & Hn & _); [|by eexists]. lia.
Qed.

Lemma derive_secret_ok s secret label h : utf8_valid label = true → ∃ l, derive_secret_with_algorithm s secret label h = Ok l ∧ length l = hash_len s.
Proof. intros Hv. apply expand_label_ok; [done|]. pose proof (hash_len_pos s). lia. Qed.

Lemma traffic_keys_ok secret s : ∃ key iv, derive_traffic_keys secret s = Ok (key, iv) ∧ length key = key_len s ∧ length iv = 12.
Proof.
  unfold derive_traffic_keys. destruct (expand_label_ok s secret (list_byte_of_string "key") [] (key_len s)) as (k & -> & Hk); [done|destruct s; cbn; lia|].
  cbn [mbind outcome_bind]. destruct (expand_label_ok s secret (list_byte_of_string "iv") [] (nonce_len s)) as (i & -> & Hi); [done|apply Nat.leb_le; reflexivity|].
  cbn [mbind outcome_bind]. by exists k, i.
Qed.

Lemma handshake_keys_ok s shared hash : length shared = 32 → length hash = hash_len s →
  ∃ k, derive_handshake_keys s shared hash = Ok k ∧ length (client_handshake_traffic_secret k) = hash_len s ∧
    length (server_handshake_traffic_secret k) = hash_len s ∧ length (master_secret k) = hash_len s.
Proof.
  intros H1 H2. unfold derive_handshake_keys. rewrite H1, H2, !Nat.eqb_refl. cbn [negb].
  do 4 (edestruct derive_secret_ok as (? & -> & ?); [|cbn [mbind outcome_bind]]; [done|]).
  eexists. split; [done|]. cbn. split_and!; [done|done|apply hmac_length].
Qed.

Lemma application_secrets_ok s master hash : length master = hash_len s → length hash = hash_len s →
  ∃ c d, derive_application_secrets s master hash = Ok (c, d) ∧ length c = hash_len s ∧ length d = hash_len s.
Proof.
  intros H1 H2. unfold derive_application_secrets. rewrite H1, H2, !Nat.eqb_refl. cbn [negb orb].
  do 2 (edestruct derive_secret_ok as (? & -> & ?); [|cbn [mbind outcome_bind]]; [done|]). by eexists _, _.
Qed.

Lemma finished_ok s base hash : ∃ l, compute_finished_verify_data s base hash = Ok l ∧ length l = hash_len s.
Proof.
  unfold compute_finished_verify_data. destruct (expand_label_ok s base (list_byte_of_string "finished") [] (hash_len s)) as (k & -> & _); [done|pose proof (hash_len_pos s); lia|].
  cbn [mbind outcome_bind]. eexists. split; [done|]. apply hmac_length.
Qed.

Lemma new_key_ok s k : length k = key_len s → new_key s k = Ok {| key_suite := s; key_bytes := k |}.
Proof. intros Hk. unfold new_key. by rewrite Hk, Nat.eqb_refl. Qed.

(** ** Certificates *)
Lemma u24_at_ok l pos : pos + 3 ≤ length l → ∃ n, u24_at l pos = Ok n.
Proof.
  intros Hl. unfold u24_at. destruct (index_ok (E:=IoError) l pos) as [a ->]; [lia|]. destruct (index_ok (E:=IoError) l (pos + 1)) as [b ->]; [lia|].
  destruct (index_ok (E:=IoError) l (pos + 2)) as [c ->]; [lia|]. by eexists.
Qed.

Lemma no_panic_certificate_der m : no_panic (extract_certificate_der m).
Proof.
  unfold extract_certificate_der. destruct (Nat.ltb_spec (length m) 4); [done|]. destruct (Nat.leb_spec (length m) 4); [done|].
  destruct (index_ok (E:=IoError) m 4) as [b ->]; [lia|]. cbn [mbind outcome_bind]. set (pos := 4 + (1 + Z.to_nat (b2z b))).
  destruct (Nat.ltb_spec (length m) (pos + 3)); [done|]. destruct (u24_at_ok m pos) as [x ->]; [lia|]. cbn [mbind outcome_bind].
  destruct (Nat.ltb_spec (length m) (pos + 3 + 3)); [done|]. destruct (u24_at_ok m (pos + 3)) as [n ->]; [lia|]. cbn [mbind outcome_bind].
  destruct (Nat.ltb_spec (length m) (pos + 3 + 3 + n)); [done|]. by rewrite slice_ok by lia.
Qed.

Lemma no_panic_certificate_verify m : no_panic (extract_certificate_verify_signature m).
Proof.
  unfold extract_certificate_verify_signature. destruct (Nat.ltb_spec (length m) 72); [done|]. destruct (index_ok (E:=IoError) m 0) as [t ->]; [lia|]. cbn [mbind outcome_bind].
  destruct (negb _); [done|]. destruct (index_ok (E:=IoError) m 4) as [a ->]; [lia|]. destruct (index_ok (E:=IoError) m 5) as [b ->]; [lia|]. cbn [mbind outcome_bind].
  destruct (negb _); [done|]. destruct (index_ok (E:=IoError) m 6) as [c ->]; [lia|]. destruct (index_ok (E:=IoError) m 7) as [d ->]; [lia|]. cbn [mbind outcome_bind].
  destruct (negb _); [done|]. destruct (Nat.ltb_spec (length m) (8 + Z.to_nat (from_be [c; d]))); [done|]. by rewrite slice_ok by lia.
Qed.

Lemma u24_at_be24 pre n rest : in_u 24 (Z.of_nat n) → u24_at (pre ++ be24 n ++ rest) (length pre) = Ok n.
Proof.
  intros Hn. assert (from_be (to_be 3 (Z.of_nat n)) = Z.of_nat n) as Hf by (rewrite from_be_to_be; by apply Z.mod_small).
  unfold be24. pose proof (length_to_be 3 (Z.of_nat n)) as Hl. revert Hf Hl. generalize (to_be 3 (Z.of_nat n)) as l. intros [|a [|b [|c [|]]]] Hf Hl; try done.
  unfold u24_at. rewrite <- (Nat.add_0_r (length pre)) at 1. rewrite !index_pre. cbn [app index lookup list_lookup expect mbind outcome_bind].
  replace (from_be [x00; a; b; c]) with (Z.of_nat n) by by rewrite <- Hf. by rewrite Nat2Z.id.
Qed.

Lemma certificate_read der : (Z.of_nat (length der) < 2 ^ 24 - 9)%Z → extract_certificate_der (construct_certificate der) = Ok der.
Proof.
  intros Hd. change (2 ^ 24 - 9)%Z with 16777207%Z in Hd. assert (∀ n, n ≤ 9 → in_u 24 (Z.of_nat (length der + n))) as Hu by (intros n Hn; split; [lia|change (2 ^ 24)%Z with 16777216%Z; lia]).
  unfold extract_certificate_der, construct_certificate. set (h := [HANDSHAKE_TYPE_CERTIFICATE] ++ be24 (1 + 3 + (3 + length der + 2))).
  assert (length h = 4) as Hh by (unfold h, be24; by rewrite length_app, length_to_be).
  replace ([HANDSHAKE_TYPE_CERTIFICATE] ++ be24 (1 + 3 + (3 + length der + 2)) ++ [x00] ++ be24 (3 + length der + 2) ++ be24 (length der) ++ der ++ [x00; x00])
    with (h ++ [x00] ++ be24 (3 + length der + 2) ++ be24 (length der) ++ der ++ [x00; x00]) by (unfold h; by rewrite <- !app_assoc).
  set (m := h ++ _). assert (length m = 13 + length der) as Hm by (unfold m, be24; rewrite !length_app, !length_to_be, Hh; cbn [length]; lia). rewrite Hm.
  destruct (Nat.ltb_spec (13 + length der) 4); [lia|]. destruct (Nat.leb_spec (13 + length der) 4); [lia|].
  assert (index (E:=IoError) m 4 = Ok x00) as -> by (unfold m; rewrite <- Hh, <- (Nat.add_0_r (length h)), index_pre; done).
  cbn [mbind outcome_bind]. change (4 + (1 + Z.to_nat (b2z x00))) with 5. destruct (Nat.ltb_spec (13 + length der) (5 + 3)); [lia|].
  assert (u24_at m 5 = Ok (3 + length der + 2)) as ->.
  { unfold m. rewrite app_assoc. replace 5 with (length (h ++ [x00])) by (rewrite length_app, Hh; done). apply u24_at_be24. replace (3 + length der + 2) with (length der + 5) by lia. apply Hu. lia. }
  cbn [mbind outcome_bind]. destruct (Nat.ltb_spec (13 + length der) (5 + 3 + 3)); [lia|].
  assert (u24_at m (5 + 3) = Ok (length der)) as ->.
  { unfold m. rewrite (app_assoc h), (app_assoc (h ++ _)). replace (5 + 3) with (length ((h ++ [x00]) ++ be24 (3 + length der + 2))) by (unfold be24; rewrite !length_app, length_to_be, Hh; done).
    apply u24_at_be24. rewrite <- (Nat.add_0_r (length der)). apply Hu. lia. }
  cbn [mbind outcome_bind]. destruct (Nat.ltb_spec (13 + length der) (5 + 3 + 3 + length der)); [lia|]. unfold m.
  rewrite (app_assoc h), (app_assoc (h ++ _)), (app_assoc ((h ++ _) ++ _)). apply slice_at; unfold be24; rewrite !length_app, !length_to_be, Hh; done.
Qed.

Lemma certificate_verify_read sign hash : length (sign (signed_content hash)) = 64 →
  extract_certificate_verify_signature (construct_certificate_verify sign hash) = Ok (sign (signed_content hash)).
Proof.
  intros Hs. unfold construct_certificate_verify. set (sig := sign _) in *. unfold be16, be24. rewrite !length_app, length_to_be, Hs. cbn [length].
  change (to_be 3 (Z.of_nat (2 + (2 + 64)))) with [x00; x00; x44]. change (to_be 2 (Z.of_nat 64)) with [x00; x40]. cbn [app].
  unfold extract_certificate_verify_signature. set (m := HANDSHAKE_TYPE_CERTIFICATE_VERIFY :: _). assert (length m = 72) as -> by (unfold m; cbn [length]; by rewrite Hs).
  change (72 <? 72) with false. cbv iota. change (index m 0) with (@Ok IoError byte x0f). change (index m 4) with (@Ok IoError byte x08). change (index m 5) with (@Ok IoError byte x07).
  change (index m 6) with (@Ok IoError byte x00). change (index m 7) with (@Ok IoError byte x40). cbn [mbind outcome_bind]. rewrite bool_decide_eq_true_2 by done. cbn [negb].
  change (negb (from_be [x08; x07] =? 2055)%Z) with false. cbv iota. change (Z.to_nat (from_be [x00; x40])) with 64. change (negb (64 =? 64)) with false. cbv iota.
  change (72 <? 8 + 64) with false. cbv iota. unfold m. change (HANDSHAKE_TYPE_CERTIFICATE_VERIFY :: ?l) with ([HANDSHAKE_TYPE_CERTIFICATE_VERIFY; x00; x00; x44; x08; x07; x00; x40] ++ sig).
  rewrite <- (app_nil_r sig) at 1. apply slice_at; [done|by rewrite Hs].
Qed.

(** What the check of the certificate accepts. *)
Definition authentic (auth_key der pk : bytes) : Prop := x509_from_der der = Some (pk, hmac_sha512 auth_key pk) ∧ length pk = 32.

Lemma verify_hmac_Ok der auth_key : verify_certificate_hmac der auth_key = Ok tt → ∃ pk, authentic auth_key der pk ∧ extract_ed25519_public_key der = Ok pk.
Proof.
  unfold verify_certificate_hmac, extract_ed25519_public_key, parse_x509, authentic. destruct (x509_from_der der) as [[pk sig]|]; cbn [ok_or mbind outcome_bind]; [|done].
  destruct (length pk =? 32) eqn:E1; cbn [negb]; [|done]. destruct (length sig =? 64); cbn [negb]; [|done].
  destruct (bool_decide_reflect (hmac_sha512 auth_key pk = sig)) as [<-|]; [|done]. intros _. exists pk. apply Nat.eqb_eq in E1. done.
Qed.

Lemma no_panic_verify_hmac der auth_key : no_panic (verify_certificate_hmac der auth_key).
Proof. unfold verify_certificate_hmac, parse_x509. destruct (x509_from_der der) as [[pk sig]|]; cbn [ok_or mbind outcome_bind]; [|done]. by repeat case_match. Qed.

Lemma no_panic_ed25519 der : no_panic (extract_ed25519_public_key der).
Proof. unfold extract_ed25519_public_key, parse_x509. destruct (x509_from_der der) as [[pk sig]|]; cbn [ok_or mbind outcome_bind]; [|done]. by case_match. Qed.

Lemma verify_signature_Ok pk sig hash : verify_certificate_verify_signature pk sig hash = Ok tt → length sig = 64 ∧ ed25519_verify pk (signed_content hash) sig = true.
Proof. unfold verify_certificate_verify_signature. destruct (length sig =? 64) eqn:E; cbn [negb]; [|done]. destruct (ed25519_verify _ _ _); [|done]. apply Nat.eqb_eq in E. done. Qed.

Lemma no_panic_verify_signature pk sig hash : no_panic (verify_certificate_verify_signature pk sig hash).
Proof. unfold verify_certificate_verify_signature. by repeat case_match. Qed.

(** ** Session identifiers *)
Lemma session_id_opened plaintext key nonce aad : length nonce = 12 → length plaintext = 16 →
  no_panic (encrypt_session_id plaintext key nonce aad) ∧
  ∀ c, encrypt_session_id plaintext key nonce aad = Ok c → length c = 32 ∧ decrypt_session_id c key nonce aad = Ok plaintext.
Proof.
  intros Hn Hp. unfold encrypt_session_id, decrypt_session_id. rewrite Hn. cbn [Nat.eqb negb]. split.
  - destruct (seal _ _ _ _); cbn; [|done]. by case_match.
  - intros c. destruct (seal key nonce aad plaintext) as [x|] eqn:E; cbn [ok_or mbind outcome_bind]; [|done]. destruct (length x =? 32) eqn:El; cbn [negb]; [|done].
    intros Hx%Ok_inj. subst x. split; [by apply Nat.eqb_eq|]. apply unseal_seal in E. rewrite E. cbn [ok_or mbind outcome_bind]. by rewrite Hp.
Qed.
End keys.
