(* ===== verification/RealityClient.v ===== *)
(** * RealityClient: the client connection

    [reality_client_connection.rs], [reality_reader_writer.rs] and [reality_io_state.rs]
    of [prototype/vless/src/reality]: the handshake of the client and the records behind
    it, over the linear buffers of [SlideBuffer]. Random bytes, the clock, and what a
    read or write of the transport returns are arguments. *)
From Stdlib Require Import ZArith Lia Strings.Byte Ascii String.
From stdpp Require Import base list numbers option.
From S2P Require Import Prelude Wire SlideBuffer AeadStream TlsHello RealityRecords RealityMessages RealityKeys.
Local Open Scope nat_scope.

Definition TLS_MAX_RECORD_SIZE : nat := MAX_TLS_CIPHERTEXT_LEN + TLS_RECORD_HEADER_SIZE.
Definition CIPHERTEXT_READ_BUF_CAPACITY : nat := TLS_MAX_RECORD_SIZE * 2.
Definition PLAINTEXT_READ_BUF_CAPACITY : nat := TLS_MAX_RECORD_SIZE * 2.
Definition COMPACT_THRESHOLD : nat := 16 * 256.

(** ** State *)
Record RealityClientConfig := { public_key : bytes; short_id : bytes; server_name : bytes; cipher_suites : list CipherSuite }.

(** The fields of [HandshakeState::ProcessingHandshake] *)
Record Progress := {
  client_secret : bytes; server_secret : bytes; p_master_secret : bytes; p_suite : CipherSuite;
  handshake_transcript_bytes : bytes; p_auth_key : bytes; handshake_seq : Z; accumulated_plaintext : bytes;
  messages_found : nat; certificate_verified : bool; ed25519_public_key : option bytes; cert_verify_offset : option nat }.

Inductive HandshakeState :=
  | AwaitingServerHello (client_hello_bytes client_private_key auth_key : bytes)
  | ProcessingHandshake (p : Progress)
  | Complete.

Record Connection := {
  config : RealityClientConfig; handshake_state : HandshakeState;
  app_read_key : option AeadKey; app_read_iv : option bytes; app_write_key : option AeadKey; app_write_iv : option bytes;
  read_seq : Z; write_seq : Z; c_suite : option CipherSuite;
  ciphertext_read_buf : SlideBuffer; ciphertext_write_buf : bytes; plaintext_read_buf : SlideBuffer; plaintext_write_buf : bytes;
  received_close_notify : bool; fatal_error : option ErrorKind }.

(** Assignments to the fields *)
Definition set_state (h : HandshakeState) (c : Connection) : Connection :=
  Build_Connection (config c) h (app_read_key c) (app_read_iv c) (app_write_key c) (app_write_iv c) (read_seq c) (write_seq c) (c_suite c)
    (ciphertext_read_buf c) (ciphertext_write_buf c) (plaintext_read_buf c) (plaintext_write_buf c) (received_close_notify c) (fatal_error c).
Definition set_cipher (b : SlideBuffer) (c : Connection) : Connection :=
  Build_Connection (config c) (handshake_state c) (app_read_key c) (app_read_iv c) (app_write_key c) (app_write_iv c) (read_seq c) (write_seq c) (c_suite c)
    b (ciphertext_write_buf c) (plaintext_read_buf c) (plaintext_write_buf c) (received_close_notify c) (fatal_error c).
Definition set_plain (b : SlideBuffer) (c : Connection) : Connection :=
  Build_Connection (config c) (handshake_state c) (app_read_key c) (app_read_iv c) (app_write_key c) (app_write_iv c) (read_seq c) (write_seq c) (c_suite c)
    (ciphertext_read_buf c) (ciphertext_write_buf c) b (plaintext_write_buf c) (received_close_notify c) (fatal_error c).
Definition set_outgoing (l : bytes) (n : Z) (c : Connection) : Connection :=
  Build_Connection (config c) (handshake_state c) (app_read_key c) (app_read_iv c) (app_write_key c) (app_write_iv c) (read_seq c) n (c_suite c)
    (ciphertext_read_buf c) l (plaintext_read_buf c) (plaintext_write_buf c) (received_close_notify c) (fatal_error c).
Definition set_pending (l : bytes) (c : Connection) : Connection :=
  Build_Connection (config c) (handshake_state c) (app_read_key c) (app_read_iv c) (app_write_key c) (app_write_iv c) (read_seq c) (write_seq c) (c_suite c)
    (ciphertext_read_buf c) (ciphertext_write_buf c) (plaintext_read_buf c) l (received_close_notify c) (fatal_error c).
Definition set_read_seq (n : Z) (c : Connection) : Connection :=
  Build_Connection (config c) (handshake_state c) (app_read_key c) (app_read_iv c) (app_write_key c) (app_write_iv c) n (write_seq c) (c_suite c)
    (ciphertext_read_buf c) (ciphertext_write_buf c) (plaintext_read_buf c) (plaintext_write_buf c) (received_close_notify c) (fatal_error c).
Definition set_closed (c : Connection) : Connection :=
  Build_Connection (config c) (handshake_state c) (app_read_key c) (app_read_iv c) (app_write_key c) (app_write_iv c) (read_seq c) (write_seq c) (c_suite c)
    (ciphertext_read_buf c) (ciphertext_write_buf c) (plaintext_read_buf c) (plaintext_write_buf c) true (fatal_error c).
Definition set_fatal (k : ErrorKind) (c : Connection) : Connection :=
  Build_Connection (config c) (handshake_state c) (app_read_key c) (app_read_iv c) (app_write_key c) (app_write_iv c) (read_seq c) (write_seq c) (c_suite c)
    (ciphertext_read_buf c) (ciphertext_write_buf c) (plaintext_read_buf c) (plaintext_write_buf c) (received_close_notify c) (Some k).
Definition set_keys (s : CipherSuite) (rk : AeadKey) (ri : bytes) (wk : AeadKey) (wi : bytes) (c : Connection) : Connection :=
  Build_Connection (config c) Complete (Some rk) (Some ri) (Some wk) (Some wi) 0 0 (Some s)
    (ciphertext_read_buf c) (ciphertext_write_buf c) (plaintext_read_buf c) (plaintext_write_buf c) (received_close_notify c) (fatal_error c).

Abbreviation io := (act Connection IoError).

(** An operation of one of the buffers; its assertions are panics. *)
Definition on_cipher (f : SlideBuffer → run SlideBuffer) : io unit := λ c,
  match f (ciphertext_read_buf c) with Ok b => (set_cipher b c, Ok tt) | _ => (c, Panic) end.
Definition on_plain (f : SlideBuffer → run SlideBuffer) : io unit := λ c,
  match f (plaintext_read_buf c) with Ok b => (set_plain b c, Ok tt) | _ => (c, Panic) end.
Definition peek {A} (f : SlideBuffer → run A) : io A := λ c,
  match f (ciphertext_read_buf c) with Ok a => (c, Ok a) | _ => (c, Panic) end.
Definition peek_plain {A} (f : SlideBuffer → run A) : io A := λ c,
  match f (plaintext_read_buf c) with Ok a => (c, Ok a) | _ => (c, Panic) end.

Definition u16_or_short (offset : nat) : io Z :=
  o ← peek (λ b, get_u16_be b offset);
  lift (ok_or o (invalid_data "Buffer too short")).

(** The errors of the reader, and what the extractors add *)
Definition from_tls {A} (m : tls A) : res A := match m with Ok a => Ok a | Err e => Err (invalid_data e) | Panic => Panic end.

(** ** The hello *)
Section client.
Context `{Crypto}.

Definition REALITY_INFO : bytes := list_byte_of_string "REALITY".

(** [l[i..i + x.len()].copy_from_slice(x)] *)
Definition fill_at (l : bytes) (i : nat) (x : bytes) : res bytes := match copy_at l i x with Ok l => Ok l | _ => Panic end.

Definition generate_client_hello (our_private_bytes client_random : bytes) (now : option Z) : io unit :=
  our_public ← lift (ok_or (compute_public_key our_private_bytes) (other "Failed to compute public key"));
  c ← get;
  shared_secret ← lift (from_crypto (perform_ecdh our_private_bytes (public_key (config c))));
  auth_key ← lift (from_crypto (derive_auth_key shared_secret (take 20 client_random) REALITY_INFO));
  timestamp ← lift (ok_or now (other "System time error"));
  let session_id_plaintext := [x01; x08; x00; x00] ++ to_be 4 timestamp ++ short_id (config c) in
  let session_id_for_hello := session_id_plaintext ++ replicate 16 x00 in
  let suites := if bool_decide (cipher_suites (config c) = []) then DEFAULT_CIPHER_SUITES else cipher_suites (config c) in
  let client_hello := construct_client_hello client_random session_id_for_hello our_public (server_name (config c)) (suite_id <$> suites) DEFAULT_ALPN_PROTOCOLS in
  let nonce := take 12 (drop 20 client_random) in
  aad ← lift (fill_at client_hello 39 (replicate 32 x00));
  encrypted_session_id ← lift (from_crypto (encrypt_session_id session_id_plaintext auth_key nonce aad));
  client_hello ← lift (fill_at aad 39 encrypted_session_id);
  let record := write_record_header RealityRecords.CONTENT_TYPE_HANDSHAKE (length client_hello) ++ client_hello in
  _ ← modify (λ c, set_outgoing (ciphertext_write_buf c ++ record) (write_seq c) c);
  modify (set_state (AwaitingServerHello client_hello our_private_bytes auth_key)).

(** The memory of the two buffers is what their allocation held. *)
Definition initial (config : RealityClientConfig) (memory_c memory_p : bytes) : Connection :=
  Build_Connection config (AwaitingServerHello [] (replicate 32 x00) (replicate 32 x00)) None None None None 0 0 None
    (SlideBuffer.new memory_c) [] (SlideBuffer.new memory_p) [] false None.

Definition new_connection (config : RealityClientConfig) (memory_c memory_p our_private_bytes client_random : bytes) (now : option Z) : res Connection :=
  let '(conn, r) := generate_client_hello our_private_bytes client_random now (initial config memory_c memory_p) in
  _ ← r; Ok conn.

(** ** Reading *)
Definition read_tls (delivered : res bytes) : io nat :=
  c ← get;
  _ ← (if remaining_capacity (ciphertext_read_buf c) <? TLS_MAX_RECORD_SIZE then on_cipher compact else mret tt);
  l ← lift delivered;
  _ ← (if 0 <? length l then on_cipher (λ b, extend_from_slice b l) else mret tt);
  mret (length l).

(** The first record of the buffer, when it is there: its length without the header *)
Definition next_record_len : io (option nat) :=
  c ← get;
  if len (ciphertext_read_buf c) <? TLS_RECORD_HEADER_SIZE then mret None
  else
    n ← u16_or_short 3;
    let record_len := Z.to_nat n in
    if len (ciphertext_read_buf c) <? TLS_RECORD_HEADER_SIZE + record_len then mret None else mret (Some record_len).

Definition process_server_hello (client_hello_bytes client_private_key auth_key : bytes) : io bool :=
  o ← next_record_len;
  match o with
  | None => mret false
  | Some record_len =>
      let total_record_len := TLS_RECORD_HEADER_SIZE + record_len in
      record ← peek (λ b, index_to b total_record_len);
      _ ← on_cipher (λ b, consume b total_record_len);
      server_hello ← lift (slice record TLS_RECORD_HEADER_SIZE (length record));
      server_public_key ← lift (from_tls (extract_server_public_key record));
      cipher_suite_id ← lift (from_tls (extract_server_cipher_suite record));
      s ← lift (ok_or (from_id cipher_suite_id) (invalid_data "Server selected unsupported cipher suite: 0x{:04x}"));
      let server_hello_hash := digest s (client_hello_bytes ++ server_hello) in
      tls_shared_secret ← lift (ok_or (agree client_private_key server_public_key) (other "ECDH failed"));
      hs_keys ← lift (derive_handshake_keys s tls_shared_secret server_hello_hash);
      _ ← modify (set_state (ProcessingHandshake {|
        client_secret := client_handshake_traffic_secret hs_keys; server_secret := server_handshake_traffic_secret hs_keys;
        p_master_secret := master_secret hs_keys; p_suite := s; handshake_transcript_bytes := client_hello_bytes ++ server_hello;
        p_auth_key := auth_key; handshake_seq := 0; accumulated_plaintext := []; messages_found := 0; certificate_verified := false;
        ed25519_public_key := None; cert_verify_offset := None |}));
      mret true
  end.

(** ** The encrypted messages *)
Record Scan := { offset : nat; found : nat; verified : bool; cert_key : option bytes; cv_offset : option nat }.

(** At most four messages are counted. *)
Fixpoint scan_messages (fuel : nat) (auth_key acc : bytes) (s : Scan) : res Scan :=
  match fuel with
  | O => Panic
  | S fuel =>
      if negb ((offset s <? length acc) && (found s <? 4)) then Ok s
      else if length acc <? offset s + 4 then Ok s
      else
        msg_type ← index acc (offset s);
        msg_len ← u24_at acc (offset s + 1);
        if length acc <? offset s + 4 + msg_len then Ok s
        else
          '(v, k) ←
            (if bool_decide (msg_type = HANDSHAKE_TYPE_CERTIFICATE) then
               message ← slice acc (offset s) (offset s + 4 + msg_len);
               cert_der ← extract_certificate_der message;
               _ ← verify_certificate_hmac cert_der auth_key;
               pk ← extract_ed25519_public_key cert_der;
               Ok (true, Some pk)
             else Ok (verified s, cert_key s));
          let cv := if bool_decide (msg_type = HANDSHAKE_TYPE_CERTIFICATE_VERIFY) then Some (offset s) else cv_offset s in
          scan_messages fuel auth_key acc {| offset := offset s + (4 + msg_len); found := found s + 1; verified := v; cert_key := k; cv_offset := cv |}
  end.

(** The checks once four messages are there *)
Definition check_server (p : Progress) (acc : bytes) (s : Scan) : res unit :=
  if negb (verified s) then Err (io_error PermissionDenied "REALITY handshake failed: Certificate message not received or not verified")
  else
    match cert_key s, cv_offset s with
    | Some public_key, Some cv =>
        signed ← slice acc 0 cv;
        let cv_transcript_hash := digest (p_suite p) (handshake_transcript_bytes p ++ signed) in
        cv_msg_len ← u24_at acc (cv + 1);
        cv_message ← slice acc cv (cv + 4 + cv_msg_len);
        signature ← extract_certificate_verify_signature cv_message;
        verify_certificate_verify_signature public_key signature cv_transcript_hash
    | _, _ => Err (io_error PermissionDenied "REALITY handshake failed: CertificateVerify not verified")
    end.

(** Sealing records at the end of the write buffer under the given number *)
Definition with_encryptor {A} (n : Z) (m : act Encryptor IoError A) : io (A * Z) := λ c,
  let '(e, r) := m {| seq := n; out := ciphertext_write_buf c |} in
  (set_outgoing (out e) (write_seq c) c, match r with Ok a => Ok (a, seq e) | Err x => Err x | Panic => Panic end).

Definition finish_handshake (p : Progress) (acc : bytes) (s : Scan) : io bool :=
  _ ← lift (check_server p acc s);
  let suite := p_suite p in
  let handshake_hash := digest suite (handshake_transcript_bytes p ++ acc) in
  client_verify_data ← lift (compute_finished_verify_data suite (client_secret p) handshake_hash);
  let client_finished := construct_finished client_verify_data in
  '(client_hs_key, client_hs_iv) ← lift (derive_traffic_keys (client_secret p) suite);
  hs_aead_key ← lift (new_key suite client_hs_key);
  _ ← with_encryptor 0 (encrypt_handshake suite_aead hs_aead_key client_hs_iv client_finished);
  '(client_app_secret, server_app_secret) ← lift (derive_application_secrets suite (p_master_secret p) handshake_hash);
  '(client_app_key_bytes, client_app_iv) ← lift (derive_traffic_keys client_app_secret suite);
  '(server_app_key_bytes, server_app_iv) ← lift (derive_traffic_keys server_app_secret suite);
  client_app_key ← lift (new_key suite client_app_key_bytes);
  server_app_key ← lift (new_key suite server_app_key_bytes);
  _ ← modify (set_keys suite server_app_key server_app_iv client_app_key client_app_iv);
  mret true.

(** [checked] addition of the number of the record in the release profile wraps. *)
Definition process_handshake_record (p : Progress) (server_hs_key server_hs_iv : bytes) (record_len : nat) : io bool :=
  let total_record_len := TLS_RECORD_HEADER_SIZE + record_len in
  ciphertext ← peek (λ b, index_range b TLS_RECORD_HEADER_SIZE total_record_len);
  _ ← on_cipher (λ b, consume b total_record_len);
  plaintext ← lift (decrypt_handshake_message suite_aead (p_suite p) server_hs_key server_hs_iv (handshake_seq p) ciphertext record_len);
  let acc := accumulated_plaintext p ++ plaintext in
  s ← lift (scan_messages 5 (p_auth_key p) acc
    {| offset := length (accumulated_plaintext p); found := messages_found p; verified := certificate_verified p;
       cert_key := ed25519_public_key p; cv_offset := cert_verify_offset p |});
  if found s <? 4 then
    _ ← modify (set_state (ProcessingHandshake {|
      client_secret := client_secret p; server_secret := server_secret p; p_master_secret := p_master_secret p; p_suite := p_suite p;
      handshake_transcript_bytes := handshake_transcript_bytes p; p_auth_key := p_auth_key p; handshake_seq := wrap_u 64 (handshake_seq p + 1);
      accumulated_plaintext := acc; messages_found := found s; certificate_verified := verified s;
      ed25519_public_key := cert_key s; cert_verify_offset := cv_offset s |}));
    mret true
  else finish_handshake p acc s.

(** ChangeCipherSpec records are skipped, one for each unit of fuel. *)
Fixpoint process_encrypted_handshake (fuel : nat) (p : Progress) : io bool :=
  match fuel with
  | O => lift Panic
  | S fuel =>
      '(server_hs_key, server_hs_iv) ← lift (derive_traffic_keys (server_secret p) (p_suite p));
      c ← get;
      if len (ciphertext_read_buf c) <? TLS_RECORD_HEADER_SIZE then mret false
      else
        record_type ← peek (λ b, index_at b 0);
        _ ← u16_or_short 1;
        o ← next_record_len;
        match o with
        | None => mret false
        | Some record_len =>
            if bool_decide (record_type = CONTENT_TYPE_CHANGE_CIPHER_SPEC) then
              _ ← on_cipher (λ b, consume b (TLS_RECORD_HEADER_SIZE + record_len));
              process_encrypted_handshake fuel p
            else if negb (bool_decide (record_type = CONTENT_TYPE_APPLICATION_DATA)) then
              fail (invalid_data "Expected Application Data record, got 0x{:02x}")
            else process_handshake_record p server_hs_key server_hs_iv record_len
        end
  end.

(** ** Application data

    Decryption is in place in the buffer; the bytes it leaves are never read again: the
    record is consumed, or the connection is closed or has failed. *)
Definition with_decryptor {A} (m : act Z IoError A) : io A := λ c, let '(n, r) := m (read_seq c) in (set_read_seq n c, r).

(** What a record does: [true] ends the processing. *)
Definition handle_content (content_type : byte) (plaintext : bytes) : io bool :=
  if bool_decide (content_type = CONTENT_TYPE_APPLICATION_DATA) then
    _ ← on_plain (λ b, maybe_compact b COMPACT_THRESHOLD);
    _ ← on_plain (λ b, extend_from_slice b plaintext);
    mret false
  else if bool_decide (content_type = CONTENT_TYPE_ALERT) then
    match plaintext with
    | alert_level :: alert_desc :: _ =>
        if bool_decide (alert_desc = ALERT_DESC_CLOSE_NOTIFY) then _ ← modify set_closed; mret true
        else if negb (bool_decide (alert_level = ALERT_LEVEL_WARNING)) then fail (io_error ConnectionAborted "received fatal alert: {}")
        else mret false
    | _ => mret false
    end
  else lift Panic.

Fixpoint application_loop (fuel : nat) (key : AeadKey) (iv : bytes) : io unit :=
  match fuel with
  | O => lift Panic
  | S fuel =>
      o ← next_record_len;
      match o with
      | None => mret tt
      | Some record_len =>
          let total_record_len := TLS_RECORD_HEADER_SIZE + record_len in
          ciphertext ← peek (λ b, index_range b TLS_RECORD_HEADER_SIZE total_record_len);
          '(content_type, plaintext) ← with_decryptor (decrypt_record_in_place suite_aead key iv ciphertext record_len);
          stop ← handle_content content_type plaintext;
          if (stop : bool) then mret tt
          else _ ← on_cipher (λ b, consume b total_record_len); application_loop fuel key iv
      end
  end.

Definition process_application_data : io unit :=
  c ← get;
  match app_read_key c, app_read_iv c with
  | Some key, Some iv => application_loop (S (len (ciphertext_read_buf c))) key iv
  | _, _ => lift Panic
  end.

(** ** process_new_packets: the bytes of plaintext that can be read *)
Fixpoint process_new_packets_inner (fuel : nat) : io nat :=
  match fuel with
  | O => lift Panic
  | S fuel =>
      c ← get;
      let ready : io nat := c ← get; mret (len (plaintext_read_buf c)) in
      match handshake_state c with
      | AwaitingServerHello hello private auth_key =>
          more ← process_server_hello hello private auth_key;
          if (more : bool) then process_new_packets_inner fuel else ready
      | ProcessingHandshake p =>
          more ← process_encrypted_handshake (S (len (ciphertext_read_buf c))) p;
          if (more : bool) then process_new_packets_inner fuel else ready
      | Complete => _ ← process_application_data; ready
      end
  end.

Definition fatal (k : ErrorKind) : bool := bool_decide (k = InvalidData) || bool_decide (k = PermissionDenied) || bool_decide (k = ConnectionAborted).

Definition process_new_packets : io nat := λ c,
  match fatal_error c with
  | Some k => (c, Err (io_error k "connection previously failed"))
  | None =>
      if received_close_notify c then (c, Ok (len (plaintext_read_buf c)))
      else
        match process_new_packets_inner (S (S (len (ciphertext_read_buf c)))) c with
        | (c', Err e) => (if fatal (kind e) then set_fatal (kind e) c' else c', Err e)
        | r => r
        end
  end.

(** ** Reader and writer *)
Inductive filled := Available (l : bytes) | NothingYet.

(** [reader()] compacts, then each call works on the buffer. *)
Definition reader : io unit := on_plain (λ b, maybe_compact b COMPACT_THRESHOLD).
Definition reader_read (n : nat) : io bytes :=
  c ← get;
  let to_read := n `min` len (plaintext_read_buf c) in
  if 0 <? to_read then
    l ← peek_plain (λ b, index_to b to_read);
    _ ← on_plain (λ b, SlideBuffer.consume b to_read);
    mret l
  else mret [].
Definition fill_buf : io filled :=
  c ← get;
  if negb (is_empty (plaintext_read_buf c)) then l ← peek_plain as_slice; mret (Available l)
  else if received_close_notify c then mret (Available [])
  else mret NothingYet.
Definition reader_consume (amt : nat) : io unit := c ← get; on_plain (λ b, SlideBuffer.consume b (amt `min` len (plaintext_read_buf c))).
Definition writer_write (l : bytes) : io nat := _ ← modify (λ c, set_pending (plaintext_write_buf c ++ l) c); mret (length l).

Definition is_handshaking (c : Connection) : bool := match handshake_state c with Complete => false | _ => true end.
Definition wants_write (c : Connection) : bool := negb (bool_decide (ciphertext_write_buf c = [])) || negb (bool_decide (plaintext_write_buf c = [])).
Definition wants_read (c : Connection) : bool :=
  if received_close_notify c then false
  else if bool_decide (is_Some (fatal_error c)) then false
  else if is_handshaking c then true
  else is_empty (plaintext_read_buf c).

(** ** Writing: [accept] is what one write of the transport returns, [drain] takes it. *)
Definition drain (accept : bytes → res nat) : io nat :=
  c ← get;
  n ← lift (accept (ciphertext_write_buf c));
  if n <=? length (ciphertext_write_buf c) then
    _ ← modify (λ c, set_outgoing (drop n (ciphertext_write_buf c)) (write_seq c) c); mret n
  else lift Panic.

Definition app_encryptor {A} (m : AeadKey → bytes → act Encryptor IoError A) (unavailable : io A) : io A :=
  c ← get;
  match app_write_key c, app_write_iv c with
  | Some key, Some iv => λ c,
      let '(e, r) := m key iv {| seq := write_seq c; out := ciphertext_write_buf c |} in (set_outgoing (out e) (seq e) c, r)
  | _, _ => unavailable
  end.

(** The pending plaintext is cleared once it is encrypted. *)
Definition encrypt_pending : io unit :=
  c ← get;
  if is_handshaking c then mret tt
  else if negb (bool_decide (plaintext_write_buf c = [])) then
    _ ← app_encryptor (λ key iv, encrypt_app_data suite_aead key iv (plaintext_write_buf c)) (fail (invalid_data "Application keys not available"));
    modify (set_pending [])
  else mret tt.

Definition write_tls (accept : bytes → res nat) : io nat := _ ← encrypt_pending; drain accept.

(** A failure to encrypt is only logged. *)
Definition send_close_notify : io unit := λ c,
  if is_handshaking c then (c, Ok tt)
  else match app_encryptor (encrypt_close_notify suite_aead) (mret tt) c with (c', Panic) => (c', Panic) | (c', _) => (c', Ok tt) end.

(** ** feed_reality_client_connection: a cursor over [data] *)
Fixpoint feed_loop (fuel : nat) (data : bytes) : io unit :=
  match fuel with
  | O => lift Panic
  | S fuel =>
      match data with
      | [] => mret tt
      | _ =>
          n ← map_err (λ e, invalid_data "failed to feed TLS connection: {e}") (read_tls (Ok (take TLS_MAX_RECORD_SIZE data)));
          feed_loop fuel (drop n data)
      end
  end.
Definition feed_reality_client_connection (data : bytes) : io unit := feed_loop (S (length data)) data.
End client.

(** ** The buffers *)
Definition cipher_holds (q : bytes) (c : Connection) : Prop := holds (ciphertext_read_buf c) CIPHERTEXT_READ_BUF_CAPACITY q.
Definition plain_holds (q : bytes) (c : Connection) : Prop :=
  holds (plaintext_read_buf c) PLAINTEXT_READ_BUF_CAPACITY q ∧ (q = [] → remaining_capacity (plaintext_read_buf c) = PLAINTEXT_READ_BUF_CAPACITY).

Lemma equal_capacities : CIPHERTEXT_READ_BUF_CAPACITY = PLAINTEXT_READ_BUF_CAPACITY.
Proof. reflexivity. Qed.

#[global] Opaque TLS_MAX_RECORD_SIZE CIPHERTEXT_READ_BUF_CAPACITY PLAINTEXT_READ_BUF_CAPACITY COMPACT_THRESHOLD.

Lemma next_record_split q n c rest : next_record q = Some (n, c, rest) →
  ∃ x y h, q = h ++ c ++ rest ∧ length h = 5 ∧ length c = n ∧ q !! 3 = Some x ∧ q !! 4 = Some y ∧ n = Z.to_nat (from_be [x; y]) ∧
    5 + n ≤ length q ∧ c = take n (drop 5 q) ∧ rest = drop (5 + n) q.
Proof.
  unfold next_record, TLS_RECORD_HEADER_SIZE. destruct q as [|b0 [|b1 [|b2 [|b3 [|b4 q]]]]]; try done. cbn [drop take]. rewrite !take_0, !drop_0.
  destruct (Nat.leb_spec (5 + Z.to_nat (from_be [b3; b4])) (length (b0 :: b1 :: b2 :: b3 :: b4 :: q))) as [Hl|]; [|done]. cbn [length] in Hl.
  intros [= <- <- <-]. exists b3, b4, [b0; b1; b2; b3; b4]. rewrite length_take. cbn [app length drop Nat.add]. rewrite take_drop. split_and!; try done; lia.
Qed.

Lemma next_record_len_eq c q : cipher_holds q c → next_record_len c = (c, Ok (match next_record q with Some (n, _, _) => Some n | None => None end)).
Proof.
  intros Hq. unfold next_record_len, u16_or_short, peek. unfold mbind, act_bind, get, lift. pose proof (holds_len _ _ _ Hq) as Hl. rewrite Hl. unfold next_record, TLS_RECORD_HEADER_SIZE.
  destruct (Nat.ltb_spec (length q) 5) as [Hs|Hs].
  { destruct (Nat.leb_spec (5 + Z.to_nat (from_be (take 2 (drop 3 q)))) (length q)); [lia|done]. }
  rewrite (get_u16_be_spec _ _ _ 3 Hq). destruct q as [|b0 [|b1 [|b2 [|b3 [|b4 q]]]]]; try (cbn in Hs; lia). change ((b0 :: b1 :: b2 :: b3 :: b4 :: q) !! 3) with (Some b3).
  change ((b0 :: b1 :: b2 :: b3 :: b4 :: q) !! (3 + 1)) with (Some b4). cbn [ok_or drop take]. rewrite !take_0. set (n := Z.to_nat (from_be [b3; b4])). set (m := length _) in *.
  destruct (Nat.leb_spec (5 + n) m), (Nat.ltb_spec m (5 + n)); [lia|done|done|lia].
Qed.

Lemma peek_record c q n ct rest : cipher_holds q c → next_record q = Some (n, ct, rest) →
  peek (λ b, index_range b TLS_RECORD_HEADER_SIZE (TLS_RECORD_HEADER_SIZE + n)) c = (c, Ok ct) ∧
  peek (λ b, index_to b (TLS_RECORD_HEADER_SIZE + n)) c = (c, Ok (take (5 + n) q)).
Proof.
  intros Hq (x & y & h & _ & _ & _ & _ & _ & _ & Hl & -> & _)%next_record_split. unfold peek, TLS_RECORD_HEADER_SIZE. split.
  - rewrite (index_range_holds _ _ _ 5 (5 + n) Hq) by lia. by replace (5 + n - 5) with n by lia.
  - by rewrite (index_to_holds _ _ _ (5 + n) Hq).
Qed.

Lemma consume_record c q n ct rest : cipher_holds q c → next_record q = Some (n, ct, rest) →
  ∃ b, on_cipher (λ b, SlideBuffer.consume b (TLS_RECORD_HEADER_SIZE + n)) c = (set_cipher b c, Ok tt) ∧ holds b CIPHERTEXT_READ_BUF_CAPACITY rest ∧ length rest + 5 + n = length q.
Proof.
  intros Hq (x & y & h & _ & _ & _ & _ & _ & _ & Hl & _ & ->)%next_record_split. unfold on_cipher, TLS_RECORD_HEADER_SIZE.
  destruct (consume_holds _ _ _ (5 + n) Hq) as (b & -> & Hb & _); [lia|]. exists b. split_and!; [done|done|]. rewrite length_drop. lia.
Qed.

(** ** What the handshake establishes *)
Section sessions.
Context `{Crypto} (hello private auth : bytes).

(** The secrets are those of the two hellos and the key share of the server. *)
Definition keyed_by_hellos (p : Progress) : Prop := ∃ record pub shared keys,
  extract_server_public_key record = Ok pub ∧ agree private pub = Some shared ∧ handshake_transcript_bytes p = hello ++ drop 5 record ∧
  derive_handshake_keys (p_suite p) shared (digest (p_suite p) (hello ++ drop 5 record)) = Ok keys ∧
  client_secret p = client_handshake_traffic_secret keys ∧ server_secret p = server_handshake_traffic_secret keys ∧ p_master_secret p = master_secret keys.

Definition scan_ok (acc : bytes) (s : Scan) : Prop :=
  (verified s = true → ∃ der pk, cert_key s = Some pk ∧ authentic auth der pk) ∧
  (∀ o, cv_offset s = Some o → ∃ n, u24_at acc (o + 1) = Ok n ∧ o + 4 + n ≤ length acc).

Definition scan_of (p : Progress) : Scan :=
  {| offset := length (accumulated_plaintext p); found := messages_found p; verified := certificate_verified p;
     cert_key := ed25519_public_key p; cv_offset := cert_verify_offset p |}.

Definition progress_ok (p : Progress) : Prop := p_auth_key p = auth ∧ keyed_by_hellos p ∧ scan_ok (accumulated_plaintext p) (scan_of p).

(** A certificate whose signature is the HMAC of its key under the authentication key,
    and a signature by that key over the transcript up to some point, behind the
    application keys of the whole transcript *)
Definition authenticated (c : Connection) : Prop := ∃ p acc der pk sig cv cs ss wk wi rk ri,
  keyed_by_hellos p ∧ authentic auth der pk ∧ cv ≤ length acc ∧
  ed25519_verify pk (signed_content (digest (p_suite p) (handshake_transcript_bytes p ++ take cv acc))) sig = true ∧
  derive_application_secrets (p_suite p) (p_master_secret p) (digest (p_suite p) (handshake_transcript_bytes p ++ acc)) = Ok (cs, ss) ∧
  derive_traffic_keys cs (p_suite p) = Ok (wk, wi) ∧ derive_traffic_keys ss (p_suite p) = Ok (rk, ri) ∧
  app_write_key c = Some {| key_suite := p_suite p; key_bytes := wk |} ∧ app_write_iv c = Some wi ∧
  app_read_key c = Some {| key_suite := p_suite p; key_bytes := rk |} ∧ app_read_iv c = Some ri.

Definition state_ok (c : Connection) : Prop :=
  match handshake_state c with
  | AwaitingServerHello h p a => h = hello ∧ p = private ∧ a = auth
  | ProcessingHandshake p => progress_ok p
  | Complete => authenticated c
  end.

Record session (c : Connection) : Prop := {
  session_cipher : ∃ q, cipher_holds q c;
  session_plain : ∃ q, plain_holds q c;
  session_state : state_ok c }.

Context `{!CryptoLaws _}.

Lemma u24_at_app acc l pos n : u24_at acc pos = Ok n → u24_at (acc ++ l) pos = Ok n.
Proof.
  unfold u24_at, index. destruct (acc !! pos) as [a|] eqn:E1; [|done]. destruct (acc !! (pos + 1)) as [b|] eqn:E2; [|done]. destruct (acc !! (pos + 2)) as [d|] eqn:E3; [|done].
  by rewrite (lookup_app_l_Some _ _ _ _ E1), (lookup_app_l_Some _ _ _ _ E2), (lookup_app_l_Some _ _ _ _ E3).
Qed.

Lemma scan_ok_app acc l s : scan_ok acc s → scan_ok (acc ++ l) s.
Proof.
  intros [H1 H2]. split; [done|]. intros o (n & Hn & Hl)%H2. exists n. split; [by apply u24_at_app|]. rewrite length_app. lia.
Qed.

(** No bytes panic the scan, and what it notes is right. *)
Lemma scan_messages_ok fuel acc s : 1 ≤ fuel → 5 ≤ fuel + found s → scan_ok acc s →
  match scan_messages fuel auth acc s with Ok s' => scan_ok acc s' | Err _ => True | Panic => False end.
Proof.
  revert s. induction fuel as [|fuel IH]; intros s H1 H5 Hs; [lia|]. cbn [scan_messages].
  destruct (_ && _) eqn:Hg; cbn [negb]; [|done]. bool_hyps. destruct (Nat.ltb_spec (length acc) (offset s + 4)); [done|].
  destruct (index_ok (E:=IoError) acc (offset s)) as [t ->]; [lia|]. destruct (u24_at_ok acc (offset s + 1)) as [n Hn]; [lia|]. rewrite Hn. cbn [mbind outcome_bind].
  destruct (Nat.ltb_spec (length acc) (offset s + 4 + n)) as [|Hlen]; [done|].
  set (cv := if bool_decide (t = HANDSHAKE_TYPE_CERTIFICATE_VERIFY) then _ else _).
  assert (∀ o, cv = Some o → ∃ n, u24_at acc (o + 1) = Ok n ∧ o + 4 + n ≤ length acc) as Hcv.
  { intros o. subst cv. destruct (bool_decide _); [intros [= <-]; by exists n|apply Hs]. }
  destruct (bool_decide (t = HANDSHAKE_TYPE_CERTIFICATE)); cbn [mbind outcome_bind].
  - rewrite slice_ok by lia. cbn [mbind outcome_bind]. destruct (extract_certificate_der _) as [der|e|] eqn:Ed; [|done|by pose proof (no_panic_certificate_der (take (offset s + 4 + n - offset s) (drop (offset s) acc))) as Hx; rewrite Ed in Hx].
    cbn [mbind outcome_bind]. destruct (verify_certificate_hmac der auth) as [[]|e|] eqn:Ev; [|done|by pose proof (no_panic_verify_hmac der auth) as Hx; rewrite Ev in Hx].
    destruct (verify_hmac_Ok der auth Ev) as (pk & Hpk & ->). cbn [mbind outcome_bind]. apply IH; [lia|cbn; lia|]. split; [|done]. intros _. by exists der, pk.
  - apply IH; [lia|cbn; lia|]. split; [apply Hs|done].
Qed.

Lemma check_server_ok p acc s : scan_ok acc s →
  no_panic (check_server p acc s) ∧
  (check_server p acc s = Ok tt → ∃ der pk sig cv, authentic auth der pk ∧ cv ≤ length acc ∧
    ed25519_verify pk (signed_content (digest (p_suite p) (handshake_transcript_bytes p ++ take cv acc))) sig = true).
Proof.
  intros [Hv Hc]. unfold check_server. destruct (verified s); cbn [negb]; [|by split]. destruct (Hv eq_refl) as (der & pk & -> & Hpk).
  destruct (cv_offset s) as [cv|]; [|by split]. destruct (Hc cv eq_refl) as (n & Hn & Hl). rewrite slice_ok by lia. cbn [mbind outcome_bind]. rewrite Hn. cbn [mbind outcome_bind].
  rewrite slice_ok by lia. cbn [mbind outcome_bind]. set (m := take _ (drop cv acc)). pose proof (no_panic_certificate_verify m) as Hnp.
  destruct (extract_certificate_verify_signature m) as [sig|e|]; cbn [mbind outcome_bind]; [|by split|done].
  split; [apply no_panic_verify_signature|]. intros (_ & Hsig)%verify_signature_Ok. exists der, pk, sig, cv. split_and!; [done|lia|]. rewrite Nat.sub_0_r in Hsig. exact Hsig.
Qed.

Lemma session_set_cipher b q c : holds b CIPHERTEXT_READ_BUF_CAPACITY q → session c → session (set_cipher b c).
Proof. intros Hb [H1 H2 H3]. split; [by exists q|exact H2|]. unfold state_ok in *. cbn. destruct (handshake_state c); exact H3. Qed.

Lemma session_set_processing p c : progress_ok p → session c → session (set_state (ProcessingHandshake p) c).
Proof. intros Hp [H1 H2 H3]. by split. Qed.

Lemma session_set_outgoing l n c : session c → session (set_outgoing l n c).
Proof. intros [H1 H2 H3]. split; [done..|]. unfold state_ok in *. cbn. destruct (handshake_state c); exact H3. Qed.

Lemma from_tls_no_panic {A} (m : tls A) : no_panic m → no_panic (from_tls m).
Proof. by destruct m. Qed.

Lemma from_tls_Ok {A} (m : tls A) a : from_tls m = Ok a → m = Ok a.
Proof. destruct m; [|done..]. intros Ha%Ok_inj. by subst. Qed.

(** The state after a step that made progress, and after one that did not. *)
Definition advanced (c : Connection) (s : Connection) : Prop := session s ∧ len (ciphertext_read_buf s) + 5 ≤ len (ciphertext_read_buf c).
Definition step_post (c : Connection) (more : bool) (s : Connection) : Prop :=
  plaintext_read_buf s = plaintext_read_buf c ∧ if more then advanced c s else session s ∧ is_handshaking s = true.
Definition step_error (s : Connection) : Prop := session s ∧ is_handshaking s = true.

Lemma server_hello_step c : session c → handshake_state c = AwaitingServerHello hello private auth →
  triple (λ s, s = c) (process_server_hello hello private auth) (step_post c) step_error.
Proof.
  intros Hc Hst. assert (is_handshaking c = true) as Hh by (unfold is_handshaking; by rewrite Hst). destruct (session_cipher c Hc) as [q Hq]. unfold process_server_hello. eapply triple_run; [by apply next_record_len_eq|].
  destruct (next_record q) as [[[n ct] rest]|] eqn:En; [|apply triple_ret; by intros s ->].
  destruct (peek_record _ _ _ _ _ Hq En) as [_ Hp]. destruct (consume_record _ _ _ _ _ Hq En) as (b & Hcons & Hb & Hlen).
  apply (triple_run _ _ _ _ _ _ _ Hp). apply (triple_run _ _ _ _ _ _ _ Hcons). assert (Hs := session_set_cipher _ _ _ Hb Hc).
  assert (step_error (set_cipher b c)) as Herr by done. destruct (next_record_split _ _ _ _ En) as (_ & _ & _ & _ & _ & _ & _ & _ & _ & Hl & _ & _).
  set (record := take (5 + n) q). assert (length record = 5 + n) as Hr by (unfold record; rewrite length_take; lia).
  destruct (no_panic_extractors record) as (_ & _ & _ & _ & Hn1 & Hn2).
  rewrite slice_ok by (unfold TLS_RECORD_HEADER_SIZE; lia). apply triple_lift_bind; [done|by intros s ->|]. intros sh Hsh%Ok_inj.
  assert (sh = drop 5 record) as -> by (rewrite <- Hsh; unfold TLS_RECORD_HEADER_SIZE; apply take_ge; rewrite length_drop; lia). clear Hsh.
  apply triple_lift_bind; [by apply from_tls_no_panic|by intros s ->|]. intros pub Hpub%from_tls_Ok. apply triple_lift_bind; [by apply from_tls_no_panic|by intros s ->|]. intros id _.
  apply triple_lift_bind; [apply no_panic_ok_or|by intros s ->|]. intros s Hsuite. apply triple_lift_bind; [apply no_panic_ok_or|by intros ? ->|]. intros shared Hshared%ok_or_Ok.
  destruct (handshake_keys_ok s shared (digest s (hello ++ drop 5 record))) as (keys & Hk & _); [by eapply agree_length|apply digest_length|].
  apply triple_lift_bind; [by rewrite Hk|by intros ? ->|]. intros keys' Hk'. rewrite Hk in Hk'. apply Ok_inj in Hk'. subst keys'.
  eapply triple_bind; [apply (triple_modify _ _ _ (step_post c true))|intros ?; apply triple_ret; by auto].
  intros x ->. split; [done|]. split.
  - apply session_set_processing; [|done]. split_and!; [done| |]. { exists record, pub, shared, keys. by split_and!. } split; [done|]. by intros o.
  - cbn. pose proof (holds_len _ _ _ Hb). pose proof (holds_len _ _ _ Hq). lia.
Qed.

Lemma no_panic_open_record (k : AeadKey) buf iv n aad : no_panic (open_in_place_slice suite_aead k buf iv n aad).
Proof. unfold open_in_place_slice, make_nonce. destruct (negb _); [done|]. apply no_panic_ok_or. Qed.

Lemma no_panic_handshake_message s key iv n ct len : no_panic (decrypt_handshake_message suite_aead s key iv n ct len).
Proof.
  unfold decrypt_handshake_message, new_key. destruct (negb _); [done|]. cbn [mbind outcome_bind]. apply no_panic_bind; [apply no_panic_open_record|]. intros p _.
  apply no_panic_bind; [|by intros [] _]. unfold strip_content_type_with_padding. destruct (bool_decide _); [done|]. by repeat case_match.
Qed.

Lemma finish_handshake_step p acc s c : session c → is_handshaking c = true → keyed_by_hellos p → scan_ok acc s →
  triple (λ x, x = c) (finish_handshake p acc s)
    (λ more x, more = true ∧ session x ∧ is_handshaking x = false ∧ ciphertext_read_buf x = ciphertext_read_buf c ∧ plaintext_read_buf x = plaintext_read_buf c) step_error.
Proof.
  intros Hc Hh Hk Hs. assert (step_error c) as Herr by done. destruct (check_server_ok p acc s Hs) as [Hn Hok]. unfold finish_handshake.
  apply triple_lift_bind; [done|by intros ? ->|]. intros [] (der & pk & sig & cv & Hpk & Hcv & Hsig)%Hok. set (suite := p_suite p) in *. set (hash := digest suite (handshake_transcript_bytes p ++ acc)).
  destruct (finished_ok suite (client_secret p) hash) as (fin & Hfin & _). apply triple_lift_bind; [by rewrite Hfin|by intros ? ->|]. intros fin' _. clear fin Hfin.
  destruct (traffic_keys_ok (client_secret p) suite) as (hk & hi & Ehk & Lhk & Lhi). apply triple_lift_bind; [by rewrite Ehk|by intros ? ->|]. intros [hk' hi']. rewrite Ehk. intros [= <- <-].
  apply triple_lift_bind; [by rewrite new_key_ok|by intros ? ->|]. rewrite new_key_ok by done. intros ? <-%Ok_inj.
  eapply (triple_bind _ _ _ _ (λ _ x, ∃ l n, x = set_outgoing l n c)).
  { intros x x' r -> Hx. unfold with_encryptor in Hx. set (m := encrypt_handshake _ _ _ _ _) in Hx. destruct m as [e r0] eqn:Em. subst m. injection Hx as <- <-.
    apply (item_sends suite_aead _ hi (λ s, suite_laws s) Lhi (RealityRecords.Handshake (construct_finished fin')) {| seq := 0; out := ciphertext_write_buf c |} e r0) in Em as (? & ? & ? & _ & _ & _ & _ & _ & Hr); [|by split].
    destruct r0; [by eexists _, _| |done]. split; [by apply session_set_outgoing|done]. }
  intros _. apply triple_at. intros x (l & n & ->). set (c1 := set_outgoing l n c). assert (session c1) as Hc1 by by apply session_set_outgoing. assert (step_error c1) as Herr1 by done.
  destruct Hk as (record & pub & shared & keys & E1 & E2 & E3 & E4 & E5 & E6 & E7). destruct (application_secrets_ok suite (p_master_secret p) hash) as (cs & ss & Eap & _ & _); [|apply digest_length|].
  { rewrite E7. destruct (handshake_keys_ok suite shared (digest suite (hello ++ drop 5 record))) as (k & Ek & _ & _ & Lm); [by eapply agree_length|apply digest_length|].
    assert (Ok (E:=IoError) k = Ok keys) as ->%Ok_inj by (rewrite <- Ek; exact E4). exact Lm. }
  apply triple_lift_bind; [by rewrite Eap|by intros ? ->|]. intros [cs' ss']. rewrite Eap. intros [= <- <-].
  destruct (traffic_keys_ok cs suite) as (wk & wi & Ew & Lwk & _). apply triple_lift_bind; [by rewrite Ew|by intros ? ->|]. intros [wk' wi']. rewrite Ew. intros [= <- <-].
  destruct (traffic_keys_ok ss suite) as (rk & ri & Er & Lrk & _). apply triple_lift_bind; [by rewrite Er|by intros ? ->|]. intros [rk' ri']. rewrite Er. intros [= <- <-].
  rewrite !new_key_ok by done. apply triple_lift_bind; [done|by intros ? ->|]. intros ? <-%Ok_inj. apply triple_lift_bind; [done|by intros ? ->|]. intros ? <-%Ok_inj.
  eapply triple_bind; [apply (triple_modify _ _ _ (λ x, session x ∧ is_handshaking x = false ∧ ciphertext_read_buf x = ciphertext_read_buf c ∧ plaintext_read_buf x = plaintext_read_buf c))|intros ?; apply triple_ret; by auto].
  intros x ->. split_and!; [|done..]. destruct Hc1 as [H1 H2 _]. split; [exact H1|exact H2|]. exists p, acc, der, pk, sig, cv, cs, ss, wk, wi, rk, ri. split_and!; try done.
  by exists record, pub, shared, keys.
Qed.

Lemma handshake_record_step p c q n ct rest key iv : session c → handshake_state c = ProcessingHandshake p → cipher_holds q c → next_record q = Some (n, ct, rest) →
  triple (λ s, s = c) (process_handshake_record p key iv n) (step_post c) step_error.
Proof.
  intros Hc Hst Hq En. pose proof (session_state c Hc) as Hp. unfold state_ok in Hp. rewrite Hst in Hp. destruct Hp as (Hauth & Hkeys & Hscan).
  assert (is_handshaking c = true) as Hh by (unfold is_handshaking; by rewrite Hst). unfold process_handshake_record.
  destruct (peek_record _ _ _ _ _ Hq En) as [Hpk _]. destruct (consume_record _ _ _ _ _ Hq En) as (b & Hcons & Hb & Hlen).
  apply (triple_run _ _ _ _ _ _ _ Hpk). apply (triple_run _ _ _ _ _ _ _ Hcons). set (c1 := set_cipher b c). assert (session c1) as Hs by by eapply session_set_cipher.
  assert (step_error c1) as Herr by done. assert (len b + 5 ≤ len (ciphertext_read_buf c)) as Hdec by (pose proof (holds_len _ _ _ Hb); pose proof (holds_len _ _ _ Hq); lia).
  apply triple_lift_bind; [apply no_panic_handshake_message|by intros ? ->|]. intros plaintext _. set (acc := accumulated_plaintext p ++ plaintext).
  pose proof (scan_messages_ok 5 acc (scan_of p) ltac:(lia) ltac:(lia) (scan_ok_app _ plaintext _ Hscan)) as Hm. fold (scan_of p). rewrite Hauth.
  apply triple_lift_bind; [by destruct (scan_messages 5 auth acc (scan_of p))|by intros ? ->|]. intros s Es. rewrite Es in Hm.
  destruct (found s <? 4).
  - eapply triple_bind; [apply (triple_modify _ _ _ (step_post c true))|intros ?; apply triple_ret; by auto]. intros x ->. split; [done|]. split; [|exact Hdec].
    apply session_set_processing; [|done]. split_and!; [done|exact Hkeys|exact Hm].
  - eapply triple_conseq; [by apply (finish_handshake_step p acc s c1)|done| |done]. intros more x (-> & Hx & Hd & Hci & Hpl). split; [exact Hpl|]. split; [done|]. rewrite Hci. exact Hdec.
Qed.

Lemma encrypted_handshake_step fuel p c q : session c → handshake_state c = ProcessingHandshake p → cipher_holds q c → length q < fuel →
  triple (λ s, s = c) (process_encrypted_handshake fuel p) (step_post c) step_error.
Proof.
  revert c q. induction fuel as [|fuel IH]; intros c q Hc Hst Hq Hf; [lia|]. cbn [process_encrypted_handshake].
  assert (is_handshaking c = true) as Hh by (unfold is_handshaking; by rewrite Hst). assert (step_error c) as Herr by done.
  destruct (traffic_keys_ok (server_secret p) (p_suite p)) as (key & iv & Ek & _). rewrite Ek. apply triple_lift_bind; [done|by intros ? ->|]. intros ? <-%Ok_inj.
  apply triple_get. intros ? ->. apply triple_at. intros s [-> _]. rewrite (holds_len _ _ _ Hq). unfold TLS_RECORD_HEADER_SIZE at 1. destruct (Nat.ltb_spec (length q) 5) as [|H5]; [apply triple_ret; by intros ? ->|].
  destruct (lookup_lt_is_Some_2 q 0) as [t Ht]; [lia|]. apply (triple_run _ _ _ _ _ c t); [unfold peek; by rewrite (index_at_holds _ _ _ _ _ Hq Ht)|].
  assert (∃ v, u16_or_short 1 c = (c, Ok v)) as [v Hv].
  { unfold u16_or_short, peek, mbind, act_bind, lift. rewrite (get_u16_be_spec _ _ _ 1 Hq). destruct (lookup_lt_is_Some_2 q 1) as [x ->]; [lia|].
    destruct (lookup_lt_is_Some_2 q (1 + 1)) as [y ->]; [lia|]. by eexists. }
  apply (triple_run _ _ _ _ _ _ _ Hv). eapply triple_run; [by apply next_record_len_eq|].
  destruct (next_record q) as [[[n ct] rest]|] eqn:En; [|apply triple_ret; by intros s ->].
  destruct (bool_decide (t = _)).
  - destruct (consume_record _ _ _ _ _ Hq En) as (b & Hcons & Hb & Hlen). apply (triple_run _ _ _ _ _ _ _ Hcons).
    eapply triple_conseq; [apply (IH (set_cipher b c) rest); [by eapply session_set_cipher|done|exact Hb|lia]|done| |done].
    intros more x [Hpl Hx]. split; [exact Hpl|]. destruct more; [|done]. destruct Hx as [Hx Hd]. split; [done|]. cbn in Hd. pose proof (holds_len _ _ _ Hb). pose proof (holds_len _ _ _ Hq). lia.
  - destruct (negb _); [apply triple_fail; by intros ? ->|]. by eapply handshake_record_step.
Qed.

(** ** Application data *)
Lemma session_set_read_seq n c : session c → session (set_read_seq n c).
Proof. intros [H1 H2 H3]. split; [done..|]. unfold state_ok in *. cbn. destruct (handshake_state c); exact H3. Qed.

Lemma session_set_closed c : session c → session (set_closed c).
Proof. intros [H1 H2 H3]. split; [done..|]. unfold state_ok in *. cbn. destruct (handshake_state c); exact H3. Qed.

Lemma session_set_plain b q c : holds b PLAINTEXT_READ_BUF_CAPACITY q → (q = [] → remaining_capacity b = PLAINTEXT_READ_BUF_CAPACITY) → session c → session (set_plain b c).
Proof. intros Hb Hq [H1 H2 H3]. split; [done|by exists q|]. unfold state_ok in *. cbn. destruct (handshake_state c); exact H3. Qed.

Lemma plaintext_arrives m c qp : plain_holds qp c → length m ≤ remaining_capacity (plaintext_read_buf c) →
  ∃ b, handle_content CONTENT_TYPE_APPLICATION_DATA m c = (set_plain b c, Ok false) ∧ holds b PLAINTEXT_READ_BUF_CAPACITY (qp ++ m) ∧
    (qp ++ m = [] → remaining_capacity b = PLAINTEXT_READ_BUF_CAPACITY) ∧ remaining_capacity (plaintext_read_buf c) - length m ≤ remaining_capacity b.
Proof.
  intros [Hp Hroom] Hm. unfold handle_content. rewrite bool_decide_eq_true_2 by done. unfold on_plain, mbind, act_bind.
  destruct (maybe_compact_holds _ _ _ COMPACT_THRESHOLD Hp) as (b1 & -> & Hb1 & Hr1). cbn [plaintext_read_buf set_plain].
  destruct (extend_holds _ _ _ m Hb1) as (b2 & -> & Hb2 & Hr2); [lia|]. exists b2. split_and!; [done|done| |lia].
  intros [-> ->]%app_eq_nil. specialize (Hroom eq_refl). pose proof (remaining_le _ _ _ Hb1). cbn [length] in *. lia.
Qed.

(** What the records of application data leave alone *)
Definition frame (c c' : Connection) : Prop :=
  handshake_state c' = handshake_state c ∧ app_read_key c' = app_read_key c ∧ app_read_iv c' = app_read_iv c.

Lemma handle_content_ok t m c c' r : session c → handle_content t m c = (c', r) →
  (no_panic r → session c' ∧ frame c c' ∧ ciphertext_read_buf c' = ciphertext_read_buf c ∧ read_seq c' = read_seq c) ∧
  (length m ≤ remaining_capacity (plaintext_read_buf c) → remaining_capacity (plaintext_read_buf c) - length m ≤ remaining_capacity (plaintext_read_buf c') ∧
    (r = Panic → valid_content_type t = true → t = RealityRecords.CONTENT_TYPE_HANDSHAKE ∧ c' = c)).
Proof.
  intros Hc. destruct (session_plain c Hc) as [qp Hqp]. destruct (bool_decide_reflect (t = CONTENT_TYPE_APPLICATION_DATA)) as [->|Ht].
  { destruct (Nat.le_gt_cases (length m) (remaining_capacity (plaintext_read_buf c))) as [Hm|Hm].
    - destruct (plaintext_arrives m c qp Hqp Hm) as (b & -> & Hb & He & Hr). intros [= <- <-]. split; [|by split]. intros _. split_and!; [by eapply session_set_plain|done..].
    - intros H1. split; [|lia]. intros Hnp. unfold handle_content in H1. rewrite bool_decide_eq_true_2 in H1 by done. unfold on_plain, mbind, act_bind in H1.
      destruct Hqp as [Hp Hroom]. destruct (maybe_compact_holds _ _ _ COMPACT_THRESHOLD Hp) as (b1 & E1 & Hb1 & Hr1). rewrite E1 in H1. cbn [plaintext_read_buf set_plain] in H1.
      destruct (Nat.le_gt_cases (length m) (remaining_capacity b1)) as [Hm1|Hm1].
      + destruct (extend_holds _ _ _ m Hb1) as (b2 & E2 & Hb2 & Hr2); [done|]. rewrite E2 in H1. injection H1 as <- <-. split_and!; [|done..].
        eapply (session_set_plain b2 (qp ++ m) (set_plain b1 c)); [done| |].
        * intros [_ ->]%app_eq_nil. cbn in Hm. lia.
        * eapply session_set_plain; [done| |done]. intros Hq. specialize (Hroom Hq). pose proof (remaining_le _ _ _ Hb1). lia.
      + rewrite (extend_full _ _ _ _ Hb1 Hm1) in H1. injection H1 as <- <-. done. }
  unfold handle_content. rewrite bool_decide_eq_false_2 by done.
  destruct (bool_decide_reflect (t = CONTENT_TYPE_ALERT)) as [Ha|Ha].
  - assert (∀ r0 : outcome IoError bool, (c, r0) = (c', r) → no_panic r0 → (no_panic r → session c' ∧ frame c c' ∧ ciphertext_read_buf c' = ciphertext_read_buf c ∧ read_seq c' = read_seq c) ∧
      (length m ≤ remaining_capacity (plaintext_read_buf c) → remaining_capacity (plaintext_read_buf c) - length m ≤ remaining_capacity (plaintext_read_buf c') ∧
       (r = Panic → valid_content_type t = true → t = RealityRecords.CONTENT_TYPE_HANDSHAKE ∧ c' = c))) as Hsame.
    { intros r0 [= <- <-] Hr0. split; [done|]. split; [lia|]. by intros ->. }
    destruct m as [|lv [|d m]]; [intros Hx; by apply (Hsame (Ok false) Hx)..|]. destruct (bool_decide (d = _)).
    + intros [= <- <-]. split; [intros _; split_and!; [by apply session_set_closed|done..]|]. cbn [plaintext_read_buf set_closed]. split; [lia|done].
    + destruct (negb _); intros Hx; [by apply (Hsame (Err _) Hx)|by apply (Hsame (Ok false) Hx)].
  - intros [= <- <-]. split; [done|]. intros _. split; [lia|]. intros _ Hv. split; [|done]. unfold valid_content_type in Hv. rewrite (bool_decide_eq_false_2 _ Ht), (bool_decide_eq_false_2 _ Ha), !orb_false_r in Hv.
    by apply bool_decide_eq_true in Hv.
Qed.

(** The one way left to a panic: a record at the front of the buffer that opens to a
    handshake message. *)
Definition handshake_record (key : AeadKey) (iv : bytes) (c : Connection) : Prop := ∃ q n ct rest k m,
  cipher_holds q c ∧ next_record q = Some (n, ct, rest) ∧
  decrypt_record_in_place suite_aead key iv ct n k = (read_seq c, Ok (RealityRecords.CONTENT_TYPE_HANDSHAKE, m)).

Lemma application_loop_ok fuel key iv c c' r q : session c → is_handshaking c = false → cipher_holds q c → application_loop fuel key iv c = (c', r) →
  (no_panic r → session c' ∧ is_handshaking c' = false) ∧
  (length q < fuel → length q ≤ remaining_capacity (plaintext_read_buf c) → r = Panic → frame c c' ∧ handshake_record key iv c').
Proof.
  revert c q. induction fuel as [|fuel IH]; intros c q Hc Hh Hq.
  { intros [= <- <-]. split; [done|]. lia. }
  cbn [application_loop]. rewrite (act_bind_ok _ _ _ _ _ (next_record_len_eq c q Hq)). destruct (next_record q) as [[[n ct] rest]|] eqn:En.
  2: { intros [= <- <-]. split; [by intros _|done]. }
  destruct (peek_record _ _ _ _ _ Hq En) as [Hpk _]. rewrite (act_bind_ok _ _ _ _ _ Hpk). intros Hx.
  apply act_bind_cases in Hx as [(c1 & [t m] & Hd & Hx)|[(e & Hd & ->)|[Hd ->]]]; unfold with_decryptor in Hd; destruct (decrypt_record_in_place _ _ _ _ _ _) as [n1 r1] eqn:Edec; injection Hd as <- ->.
  2: { split; [|done]. intros _. split; [by apply session_set_read_seq|done]. }
  2: { by apply no_panic_decrypt in Edec. }
  assert (session (set_read_seq n1 c)) as Hs1 by by apply session_set_read_seq. pose proof (decrypted_shape suite_aead key iv _ _ _ _ _ _ Edec) as [Hlen Hv].
  destruct (next_record_split _ _ _ _ En) as (_ & _ & _ & _ & _ & Hct & _ & _ & _ & Hn & _ & _).
  apply act_bind_cases in Hx as [(c2 & stop & Hc2 & Hx)|[(e & Hc2 & ->)|[Hc2 ->]]]; destruct (handle_content_ok _ _ _ _ _ Hs1 Hc2) as [HA HB].
  - destruct HA as (Hs2 & (Est & Ek & Ei) & Eci & Esq); [done|]. assert (is_handshaking c2 = false) as Hh2 by (unfold is_handshaking in *; by rewrite Est). destruct stop.
    { injection Hx as <- <-. split; [done|done]. }
    assert (cipher_holds q c2) as Hq2 by (unfold cipher_holds; by rewrite Eci). destruct (consume_record _ _ _ _ _ Hq2 En) as (b & Hcons & Hb & Hrl). rewrite (act_bind_ok _ _ _ _ _ Hcons) in Hx.
    destruct (IH (set_cipher b c2) rest) as [H1 H2]; [by eapply session_set_cipher|done|exact Hb|exact Hx|]. split; [done|]. intros Hf Hroom. cbn [plaintext_read_buf set_read_seq] in HB.
    destruct HB as [Hr _]; [lia|]. intros Hp. destruct H2 as [(F1 & F2 & F3) H2]; [lia|cbn; lia|done|]. split; [|done].
    unfold frame. rewrite F1, F2, F3. cbn. by rewrite Est, Ek, Ei.
  - destruct HA as (Hs2 & (Est & _) & _); [done|]. split; [|done]. intros _. split; [done|]. unfold is_handshaking in *. by rewrite Est.
  - split; [done|]. intros _ Hroom _. cbn [plaintext_read_buf set_read_seq] in HB. destruct HB as [_ HB]; [lia|]. destruct (HB eq_refl Hv) as [-> ->]. split; [done|]. by exists q, n, ct, rest, (read_seq c), m.
Qed.

(** ** process_new_packets *)
Lemma inner_ok fuel c c' r : session c → process_new_packets_inner fuel c = (c', r) →
  (no_panic r → session c') ∧
  (len (ciphertext_read_buf c) < fuel → plain_holds [] c → r = Panic → is_handshaking c' = false ∧
    ∃ key iv, app_read_key c' = Some key ∧ app_read_iv c' = Some iv ∧ handshake_record key iv c').
Proof.
  revert c. induction fuel as [|fuel IH]; intros c Hc; [intros [= <- <-]; split; [done|lia]|].
  cbn [process_new_packets_inner]. rewrite (act_bind_ok get _ c c c eq_refl). destruct (session_cipher c Hc) as [q Hq].
  assert (∀ m : io bool, triple (λ s, s = c) m (step_post c) step_error →
    (more ← m; if (more : bool) then process_new_packets_inner fuel else (c ← get; mret (len (plaintext_read_buf c)))) c = (c', r) →
    (no_panic r → session c') ∧ (len (ciphertext_read_buf c) < S fuel → plain_holds [] c → r = Panic → is_handshaking c' = false ∧
      ∃ key iv, app_read_key c' = Some key ∧ app_read_iv c' = Some iv ∧ handshake_record key iv c')) as Hstep.
  { intros m Hm [(c1 & more & E & Hx)|[(e & E & ->)|[E ->]]]%act_bind_cases; specialize (Hm _ _ _ eq_refl E); cbn in Hm; [|split; [by intros _; apply Hm|done]|done].
    destruct Hm as [Hpl Hm]. destruct more; [|injection Hx as <- <-; by split; [intros _; apply Hm|]]. destruct Hm as [Hs1 Hd].
    destruct (IH c1 Hs1 Hx) as [H1 H2]. split; [done|]. intros Hf Hp. apply H2; [lia|]. unfold plain_holds in *. by rewrite Hpl. }
  destruct (handshake_state c) as [h p0 a|p|] eqn:Est.
  - pose proof (session_state c Hc) as Hst. unfold state_ok in Hst. rewrite Est in Hst. destruct Hst as (-> & -> & ->). apply Hstep. by apply server_hello_step.
  - apply Hstep. apply (encrypted_handshake_step _ p c q); [done..|]. rewrite (holds_len _ _ _ Hq). lia.
  - assert (is_handshaking c = false) as Hh by (unfold is_handshaking; by rewrite Est).
    pose proof (session_state c Hc) as Hst. unfold state_ok in Hst. rewrite Est in Hst. destruct Hst as (p & acc & der & pk & sig & cv & cs & ss & wk & wi & rk & ri & _ & _ & _ & _ & _ & _ & _ & _ & _ & Hk & Hi).
    intros [(c1 & [] & E & Hx)|[(e & E & ->)|[E ->]]]%act_bind_cases; unfold process_application_data in E; rewrite (act_bind_ok get _ c c c eq_refl), Hk, Hi in E;
      destruct (application_loop_ok _ _ _ _ _ _ _ Hc Hh Hq E) as [H1 H2].
    + injection Hx as <- <-. split; [by intros _; apply H1|done].
    + split; [by intros _; apply H1|done].
    + split; [done|]. intros _ [Hp Hroom] _. destruct H2 as [(F1 & F2 & F3) H2]; [rewrite (holds_len _ _ _ Hq); lia| |done|].
      * rewrite (Hroom eq_refl), <- equal_capacities. pose proof (remaining_le _ _ _ Hq). lia.
      * split; [unfold is_handshaking; by rewrite F1, Est|]. rewrite F2, F3. eexists _, _. by split_and!.
Qed.

Lemma session_set_fatal k c : session c → session (set_fatal k c).
Proof. intros [H1 H2 H3]. split; [done..|]. unfold state_ok in *. cbn. destruct (handshake_state c); exact H3. Qed.

Lemma process_new_packets_ok c c' r : session c → process_new_packets c = (c', r) →
  (no_panic r → session c') ∧
  (plain_holds [] c → r = Panic → is_handshaking c' = false ∧ ∃ key iv, app_read_key c' = Some key ∧ app_read_iv c' = Some iv ∧ handshake_record key iv c').
Proof.
  intros Hc. unfold process_new_packets. destruct (fatal_error c); [by intros [= <- <-]|]. destruct (received_close_notify c); [by intros [= <- <-]|].
  destruct (process_new_packets_inner _ c) as [c1 r1] eqn:E. destruct (inner_ok _ _ _ _ Hc E) as [H1 H2]. destruct r1 as [n|e|]; intros [= <- <-].
  - split; [done|done].
  - split; [|done]. intros _. destruct (fatal _); [apply session_set_fatal|]; by apply H1.
  - split; [done|]. intros Hp. apply H2; [lia|done].
Qed.

(** ** The other operations *)
Lemma session_set_pending l c : session c → session (set_pending l c).
Proof. intros [H1 H2 H3]. split; [done..|]. unfold state_ok in *. cbn. destruct (handshake_state c); exact H3. Qed.

Lemma read_tls_ok delivered c c' r : session c → read_tls delivered c = (c', r) →
  (no_panic r → session c') ∧
  (∀ l, delivered = Ok l → length l + len (ciphertext_read_buf c) ≤ CIPHERTEXT_READ_BUF_CAPACITY → length l ≤ TLS_MAX_RECORD_SIZE → r = Ok (length l)).
Proof.
  intros Hc. destruct (session_cipher c Hc) as [q Hq]. unfold read_tls. rewrite (act_bind_ok get _ c c c eq_refl).
  set (room := if _ <? _ then _ else _).
  assert (∃ b, room c = (set_cipher b c, Ok tt) ∧ holds b CIPHERTEXT_READ_BUF_CAPACITY q ∧ (TLS_MAX_RECORD_SIZE ≤ remaining_capacity b ∨ remaining_capacity b = CIPHERTEXT_READ_BUF_CAPACITY - length q)) as (b & Hroom & Hb & Hr).
  { subst room. destruct (Nat.ltb_spec (remaining_capacity (ciphertext_read_buf c)) TLS_MAX_RECORD_SIZE).
    - destruct (compact_holds _ _ _ Hq) as (b & E & Hb & Hr). exists b. unfold on_cipher. rewrite E. split_and!; [done|done|by right].
    - exists (ciphertext_read_buf c). split_and!; [by destruct c|done|by left]. }
  rewrite (act_bind_ok _ _ _ _ _ Hroom). assert (session (set_cipher b c)) as Hs by by eapply session_set_cipher.
  destruct delivered as [l|e|]; [|intros [= <- <-]; by split|intros [= <- <-]; by split]. rewrite (act_bind_ok (lift (Ok l)) _ _ _ l eq_refl). destruct (Nat.ltb_spec 0 (length l)) as [Hl|Hl].
  2: { intros [= <- <-]. split; [done|]. by intros l' Hl'%Ok_inj; subst. }
  unfold on_cipher, mbind, act_bind. cbn [ciphertext_read_buf set_cipher]. destruct (Nat.le_gt_cases (length l) (remaining_capacity b)) as [Hfit|Hfit].
  - destruct (extend_holds _ _ _ _ Hb Hfit) as (b2 & -> & Hb2 & _). intros [= <- <-]. split; [intros _; by eapply session_set_cipher|]. by intros l' Hl'%Ok_inj; subst.
  - rewrite (extend_full _ _ _ _ Hb Hfit). intros [= <- <-]. split; [done|]. intros l' Hl'%Ok_inj. subst l'. rewrite (holds_len _ _ _ Hq). lia.
Qed.

Lemma session_frame c c' : handshake_state c' = handshake_state c → app_read_key c' = app_read_key c → app_read_iv c' = app_read_iv c →
  app_write_key c' = app_write_key c → app_write_iv c' = app_write_iv c → ciphertext_read_buf c' = ciphertext_read_buf c →
  (∃ q, plain_holds q c') → session c → session c'.
Proof.
  intros E1 E2 E3 E4 E5 E6 Hp [H1 _ H3]. split; [unfold cipher_holds; by rewrite E6|done|]. unfold state_ok in *. rewrite E1. destruct (handshake_state c); [exact H3..|].
  unfold authenticated in *. by rewrite E2, E3, E4, E5.
Qed.

Lemma drain_ok accept c c' r : drain accept c = (c', r) → no_panic r → ∃ l, c' = set_outgoing l (write_seq c) c.
Proof.
  unfold drain. rewrite (act_bind_ok get _ c c c eq_refl). intros [(c1 & n & [= <- En] & Hx)|[(e & [= <- En] & ->)|[[= <- En] ->]]]%act_bind_cases; [|intros _; exists (ciphertext_write_buf c); by destruct c|done].
  destruct (n <=? _); [|by injection Hx as <- <-]. intros _. injection Hx as <- <-. by eexists.
Qed.

Lemma app_encryptor_ok {A} (m : AeadKey → bytes → act Encryptor IoError A) u c c' r : app_encryptor m u c = (c', r) → (∀ c1 r1, u c = (c1, r1) → c1 = c) → ∃ l n, c' = set_outgoing l n c.
Proof.
  intros E Hu. change (match app_write_key c, app_write_iv c with Some key, Some iv => λ c, let '(e, r) := m key iv {| seq := write_seq c; out := ciphertext_write_buf c |} in (set_outgoing (out e) (seq e) c, r) | _, _ => u end c = (c', r)) in E.
  assert (∀ c1 r1, u c = (c1, r1) → ∃ l n, c1 = set_outgoing l n c) as Hu'.
  { intros c1 r1 ->%Hu. exists (ciphertext_write_buf c), (write_seq c). by destruct c. }
  destruct (app_write_key c), (app_write_iv c); [|by eapply Hu'..]. destruct (m _ _ _) as [e r0]. injection E as <- _. by eexists _, _.
Qed.

Lemma encrypt_pending_ok c c' r : session c → encrypt_pending c = (c', r) → no_panic r → session c'.
Proof.
  intros Hc. unfold encrypt_pending. rewrite (act_bind_ok get _ c c c eq_refl). destruct (is_handshaking c); [by intros [= <- <-]|]. destruct (negb _); [|by intros [= <- <-]].
  intros [(c2 & a & E & [= <- <-])|[(e & E & ->)|[_ ->]]]%act_bind_cases; [| |done];
    apply app_encryptor_ok in E as (l2 & n & ->); [intros _; by apply session_set_pending, session_set_outgoing|by intros ? ? [= <- _]|intros _; by apply session_set_outgoing|by intros ? ? [= <- _]].
Qed.

Lemma write_tls_ok accept c c' r : session c → write_tls accept c = (c', r) → no_panic r → session c'.
Proof.
  intros Hc. unfold write_tls. intros [(c1 & [] & E & Hx)|[(e & E & ->)|[E ->]]]%act_bind_cases; [| |done].
  - intros Hr. destruct (drain_ok _ _ _ _ Hx Hr) as [l ->]. apply session_set_outgoing. by eapply encrypt_pending_ok.
  - intros _. by eapply encrypt_pending_ok.
Qed.

Lemma close_notify_ok c c' r : session c → send_close_notify c = (c', r) → no_panic r → session c'.
Proof.
  intros Hc. unfold send_close_notify. destruct (is_handshaking c); [by intros [= <- <-]|]. destruct (app_encryptor _ _ c) as [c1 r1] eqn:E.
  apply app_encryptor_ok in E as (l & n & ->); [|by intros ? ? [= <- _]]. destruct r1; intros [= <- <-] Hr; by apply session_set_outgoing.
Qed.

Lemma on_plain_ok f c c' r : session c → (∀ q, plain_holds q c → ∃ b q', f (plaintext_read_buf c) = Ok b ∧ holds b PLAINTEXT_READ_BUF_CAPACITY q' ∧ (q' = [] → remaining_capacity b = PLAINTEXT_READ_BUF_CAPACITY)) →
  on_plain f c = (c', r) → r = Ok tt ∧ session c'.
Proof.
  intros Hc Hf. destruct (session_plain c Hc) as [q Hq]. destruct (Hf q Hq) as (b & q' & Eb & Hb & He). unfold on_plain. rewrite Eb. intros [= <- <-]. split; [done|]. by eapply session_set_plain.
Qed.

Lemma consume_plain n c q : plain_holds q c → n ≤ length q →
  ∃ b q', SlideBuffer.consume (plaintext_read_buf c) n = Ok b ∧ holds b PLAINTEXT_READ_BUF_CAPACITY q' ∧ (q' = [] → remaining_capacity b = PLAINTEXT_READ_BUF_CAPACITY).
Proof.
  intros [Hq Hr] Hn. destruct (consume_holds _ _ _ n Hq Hn) as (b & E & Hb & Hrb). exists b, (drop n q). split_and!; [done|done|]. intros Hd. rewrite Hrb, Hd. done.
Qed.

Lemma plain_consume_step c n q : session c → plain_holds q c → n ≤ length q → ∃ b, on_plain (λ b, SlideBuffer.consume b n) c = (set_plain b c, Ok tt) ∧ session (set_plain b c).
Proof.
  intros Hc Hq Hn. destruct (consume_plain n c q Hq Hn) as (b & q' & Eb & Hb & He). exists b. unfold on_plain. rewrite Eb. split; [done|]. by eapply session_set_plain.
Qed.

(** ** Everything that happens to a connection *)
Inductive event := Deliver (r : res bytes) | Process | Feed (l : bytes) | WritePlain (l : bytes) | Flush (accept : bytes → res nat) | CloseNotify | OpenReader | ReadPlain (n : nat) | ConsumePlain (n : nat).

Definition run_event (e : event) : io unit :=
  match e with
  | Deliver r => _ ← read_tls r; mret tt
  | Process => _ ← process_new_packets; mret tt
  | Feed l => feed_reality_client_connection l
  | WritePlain l => _ ← writer_write l; mret tt
  | Flush accept => _ ← write_tls accept; mret tt
  | CloseNotify => send_close_notify
  | OpenReader => reader
  | ReadPlain n => _ ← reader_read n; mret tt
  | ConsumePlain n => reader_consume n
  end.

(** An error does not stop the caller; a panic does. *)
Fixpoint run_events (l : list event) (c : Connection) : option Connection :=
  match l with
  | [] => Some c
  | e :: l => match run_event e c with (_, Panic) => None | (c', _) => run_events l c' end
  end.

Lemma discard_ok {A} (m : io A) c c' r : (_ ← m; mret tt) c = (c', r) → no_panic r → ∃ r0, m c = (c', r0) ∧ no_panic r0.
Proof. intros [(c1 & a & E & [= <- <-])|[(e & E & ->)|[E ->]]]%act_bind_cases Hr; [by eexists..|done]. Qed.

Lemma feed_loop_ok fuel data c c' r : session c → feed_loop fuel data c = (c', r) → no_panic r → session c'.
Proof.
  revert data c. induction fuel as [|fuel IH]; intros data c Hc; [by intros [= <- <-]|]. cbn [feed_loop]. destruct data as [|b data]; [by intros [= <- <-]|].
  intros [(c1 & n & E & Hx)|[(e & E & ->)|[E ->]]]%act_bind_cases Hr; [| |done]; apply map_err_inv in E as (r0 & E & Er0); destruct (read_tls_ok _ _ _ _ Hc E) as [H1 _].
  - destruct r0; [|done..]. eapply IH; [by apply H1|exact Hx|done].
  - by destruct r0; [|apply H1|].
Qed.

Lemma event_ok e c c' r : session c → run_event e c = (c', r) → no_panic r → session c'.
Proof.
  intros Hc. destruct e as [d| |l|l|accept| | |n|n]; cbn [run_event].
  - intros E Hr. destruct (discard_ok _ _ _ _ E Hr) as (r0 & E0 & H0). by apply (read_tls_ok _ _ _ _ Hc E0).
  - intros E Hr. destruct (discard_ok _ _ _ _ E Hr) as (r0 & E0 & H0). by apply (process_new_packets_ok _ _ _ Hc E0).
  - by apply feed_loop_ok.
  - intros [= <- <-] _. by apply session_set_pending.
  - intros E Hr. destruct (discard_ok _ _ _ _ E Hr) as (r0 & E0 & H0). by eapply write_tls_ok.
  - by apply close_notify_ok.
  - intros E _. eapply on_plain_ok; [done| |exact E]. intros q [Hq Hroom]. destruct (maybe_compact_holds _ _ _ COMPACT_THRESHOLD Hq) as (b & Eb & Hb & Hle). exists b, q. split_and!; [done|done|].
    intros Hn. specialize (Hroom Hn). pose proof (remaining_le _ _ _ Hb). lia.
  - intros E Hr. destruct (discard_ok _ _ _ _ E Hr) as (r0 & E0 & H0). clear E. unfold reader_read in E0. rewrite (act_bind_ok get _ c c c eq_refl) in E0. destruct (0 <? _); [|by injection E0 as <- <-].
    destruct (session_plain c Hc) as (q & Hq & Hroom). unfold peek_plain in E0. rewrite (holds_len _ _ _ Hq) in E0. unfold mbind at 1, act_bind at 1 in E0. rewrite (index_to_holds _ _ _ _ Hq) in E0 by lia.
    destruct (plain_consume_step c (n `min` length q) q) as (b & Eb & Hs); [done|by split|lia|]. rewrite (act_bind_ok _ _ _ _ _ Eb) in E0. by injection E0 as <- <-.
  - intros E _. unfold reader_consume in E. rewrite (act_bind_ok get _ c c c eq_refl) in E. eapply on_plain_ok; [done| |exact E]. intros q Hq. apply (consume_plain _ _ q); [done|]. destruct Hq as [Hq _]. rewrite (holds_len _ _ _ Hq). lia.
Qed.

Lemma events_ok l c c' : session c → run_events l c = Some c' → session c'.
Proof.
  revert c. induction l as [|e l IH]; intros c Hc; [by intros [= <-]|]. cbn [run_events]. destruct (run_event e c) as [c1 r] eqn:E.
  destruct r as [[]|x|]; [|
  |done]; intros Hx; eapply IH; [by eapply event_ok|exact Hx|by eapply event_ok|exact Hx].
Qed.
End sessions.
