(* ===== verification/RealitySession.v ===== *)
(** * RealitySession: what a connection of the Reality client guarantees

    The theorems on [RealityClient]: the hello authenticates the client, no handshake
    completes without the two proofs of the server, no bytes of the peer panic the
    handshake, and what the peer's encryptor sent is delivered. *)
From Stdlib Require Import ZArith Lia Strings.Byte Ascii String.
From stdpp Require Import base list numbers option.
From S2P Require Import Prelude Wire SlideBuffer AeadStream TlsHello RealityRecords RealityMessages RealityKeys RealityClient.
Local Open Scope nat_scope.

(** ** The hello *)
Definition hello_ids (cfg : RealityClientConfig) : list Z :=
  suite_id <$> (if bool_decide (cipher_suites cfg = []) then DEFAULT_CIPHER_SUITES else cipher_suites cfg).

(** A hello with the given session identifier *)
Definition hello_with (cfg : RealityClientConfig) (random pub sid : bytes) : bytes :=
  construct_client_hello random sid pub (server_name cfg) (hello_ids cfg) DEFAULT_ALPN_PROTOCOLS.

(** The identifier in clear: version 1.8.0, the time, the short identifier *)
Definition identity (cfg : RealityClientConfig) (now : Z) : bytes := [x01; x08; x00; x00] ++ to_be 4 now ++ short_id cfg.

Lemma hello_split cfg random pub : length random = 32 → ∃ a b, length a = 39 ∧ ∀ sid, length sid = 32 → hello_with cfg random pub sid = a ++ sid ++ b.
Proof.
  intros Hr. unfold hello_with, construct_client_hello. set (exts := client_extensions _ _ _). set (suites := List.concat _). set (be := be16 (length (hello_ids cfg) * 2)).
  exists ([x01] ++ be24 (2 + (32 + (1 + (32 + length (be ++ suites ++ [x01; x00] ++ be16 (length exts) ++ exts))))) ++ [x03; x03] ++ random ++ [x20]),
    (be ++ suites ++ [x01; x00] ++ be16 (length exts) ++ exts). split.
  - unfold be24. rewrite !length_app, length_to_be, Hr. done.
  - intros sid Hs. rewrite !length_app, Hr, Hs. rewrite <- !app_assoc. reflexivity.
Qed.

Lemma fill_at_parts a x b y : length x = length y → fill_at (a ++ x ++ b) (length a) y = Ok (a ++ y ++ b).
Proof. intros Hl. unfold fill_at. by rewrite (copy_at_parts a x b y (length a)). Qed.

Section hello.
Context `{CryptoLaws} (cfg : RealityClientConfig) (mc mp private random : bytes) (now : option Z).
Hypotheses (Hrandom : length random = 32) (Hshort : length (short_id cfg) = 8).

(** What a new connection is. *)
Definition fresh_connection (c : Connection) (pub auth sid : bytes) (ts : Z) : Prop :=
  ∃ shared, now = Some ts ∧ compute_public_key private = Some pub ∧ agree private (public_key cfg) = Some shared ∧
  derive_auth_key shared (take 20 random) REALITY_INFO = Ok auth ∧ length sid = 32 ∧
  encrypt_session_id (identity cfg ts) auth (take 12 (drop 20 random)) (hello_with cfg random pub (replicate 32 x00)) = Ok sid ∧
  c = set_state (AwaitingServerHello (hello_with cfg random pub sid) private auth)
        (set_outgoing (client_record random sid pub (server_name cfg) (hello_ids cfg) DEFAULT_ALPN_PROTOCOLS) 0 (initial cfg mc mp)).

Lemma from_crypto_cases {A} (m : outcome CryptoError A) r : from_crypto m = r → no_panic m → (∃ a, m = Ok a ∧ r = Ok a) ∨ (∃ e, r = Err e).
Proof. intros <- Hm. destruct m as [a|e|]; [left; by exists a|right; by eexists|done]. Qed.

Lemma new_connection_cases :
  (∃ c pub auth sid ts, new_connection cfg mc mp private random now = Ok c ∧ fresh_connection c pub auth sid ts) ∨
  (∃ e, new_connection cfg mc mp private random now = Err e).
Proof.
  unfold new_connection, generate_client_hello. set (c0 := initial cfg mc mp).
  destruct (compute_public_key private) as [pub|] eqn:Ep; [|right; by eexists]. cbn [ok_or]. rewrite (act_bind_ok (lift (Ok pub)) _ c0 c0 pub eq_refl), (act_bind_ok get _ c0 c0 c0 eq_refl).
  unfold perform_ecdh. rewrite Ep. change (public_key (config c0)) with (public_key cfg). destruct (agree private (public_key cfg)) as [shared|] eqn:Es; [|right; by eexists]. cbn [ok_or mbind outcome_bind from_crypto].
  unfold derive_auth_key. rewrite length_take, Hrandom. cbn [Nat.min Nat.eqb negb]. rewrite (act_bind_ok (lift (Ok shared)) _ c0 c0 shared eq_refl).
  destruct (hkdf_sha256_expand _ _) as [auth|] eqn:Ea; [|right; by eexists]. cbn [ok_or from_crypto]. rewrite (act_bind_ok (lift (Ok auth)) _ c0 c0 auth eq_refl).
  destruct now as [ts|] eqn:En; [|right; by eexists]. cbn [ok_or]. rewrite (act_bind_ok (lift (Ok ts)) _ c0 c0 ts eq_refl).
  destruct (hello_split cfg random pub Hrandom) as (a & b & Ha & Hsplit). assert (length (identity cfg ts) = 16) as Hid by (unfold identity; rewrite !length_app, length_to_be, Hshort; done).
  assert (∀ x y, length x = 32 → length y = 32 → fill_at (hello_with cfg random pub x) 39 y = Ok (hello_with cfg random pub y)) as Hfill.
  { intros x y Hx Hy. rewrite !Hsplit by done. rewrite <- Ha. apply fill_at_parts. by rewrite Hx, Hy. }
  set (hello := construct_client_hello _ _ _ _ _ _). assert (fill_at hello 39 (replicate 32 x00) = Ok (hello_with cfg random pub (replicate 32 x00))) as Hz.
  { apply (Hfill (identity cfg ts ++ replicate 16 x00)); [|done]. by rewrite length_app, Hid. }
  rewrite Hz. rewrite (act_bind_ok (lift (Ok _)) _ c0 c0 (hello_with cfg random pub (replicate 32 x00)) eq_refl).
  change ([x01; x08; x00; x00] ++ to_be 4 ts ++ short_id (config c0)) with (identity cfg ts).
  destruct (encrypt_session_id (identity cfg ts) auth (take 12 (drop 20 random)) (hello_with cfg random pub (replicate 32 x00))) as [sid|e|] eqn:Ee; cbn [from_crypto]; [|right; by eexists|].
  2: { pose proof (session_id_opened (identity cfg ts) auth (take 12 (drop 20 random)) (hello_with cfg random pub (replicate 32 x00))) as [Hn _]; [rewrite length_take, length_drop; lia|done|]. by rewrite Ee in Hn. }
  rewrite (act_bind_ok (lift (Ok sid)) _ c0 c0 sid eq_refl). assert (length sid = 32) as Hsid.
  { unfold encrypt_session_id in Ee. rewrite length_take, length_drop, Hrandom in Ee. cbn [Nat.sub Nat.min Nat.eqb negb] in Ee. destruct (seal _ _ _ _) as [x|]; cbn [ok_or mbind outcome_bind] in Ee; [|done].
    destruct (length x =? 32) eqn:El; cbn [negb] in Ee; [|done]. apply Ok_inj in Ee. subst x. by apply Nat.eqb_eq. }
  rewrite Hfill by done. rewrite (act_bind_ok (lift (Ok _)) _ c0 c0 (hello_with cfg random pub sid) eq_refl). left. eexists _, pub, auth, sid, ts. split; [reflexivity|].
  exists shared. unfold derive_auth_key. rewrite length_take, Hrandom. cbn [Nat.min Nat.eqb negb]. rewrite Ea. split_and!; try done.
Qed.
End hello.

Lemma hello_ids_u16 cfg : Forall (in_u 16) (hello_ids cfg).
Proof. unfold hello_ids. apply Forall_fmap, Forall_true. intros s. by destruct s. Qed.

Lemma length_client_extensions pub name : length pub = 32 → length (client_extensions pub name DEFAULT_ALPN_PROTOCOLS) = length name + 106.
Proof.
  intros Hp. unfold client_extensions. rewrite !length_app. rewrite server_name_encoded, key_share_encoded. unfold encode_extension. cbn [fst snd].
  unfold be16. rewrite !length_app, !length_to_be, Hp. change (length supported_versions_extension) with 7. change (length supported_groups_extension) with 8.
  change (length signature_algorithms_extension) with 22. change (length (alpn_extension DEFAULT_ALPN_PROTOCOLS)) with 18. cbn [length]. lia.
Qed.

(** a new connection never panics, and the hello it sends is what lets the server
    know the client: read by the server's extractors, the record holds the random, the
    public key and the suites, and a session identifier that opens, under the key derived
    from the shared secret and the random, with the last twelve bytes of the random as
    nonce and the hello with a zeroed identifier as associated data, to the version, the
    time and the short identifier of the configuration. *)
Theorem client_hello_authenticates `{CryptoLaws} cfg mc mp private random now :
  length random = 32 → length (short_id cfg) = 8 → (Z.of_nat (length (server_name cfg)) < 60000)%Z → (Z.of_nat (length (hello_ids cfg)) < 32768)%Z →
  no_panic (new_connection cfg mc mp private random now) ∧
  ∀ c, new_connection cfg mc mp private random now = Ok c → ∃ pub shared auth sid ts aad,
    compute_public_key private = Some pub ∧ agree private (public_key cfg) = Some shared ∧
    derive_auth_key shared (take 20 random) REALITY_INFO = Ok auth ∧ now = Some ts ∧
    let r := ciphertext_write_buf c in
    extract_client_random r = Ok random ∧ extract_client_public_key r = Ok pub ∧ extract_client_cipher_suites r = Ok (hello_ids cfg) ∧
    extract_session_id_slice r = Ok sid ∧ fill_at (drop 5 r) 39 (replicate 32 x00) = Ok aad ∧
    decrypt_session_id sid auth (take 12 (drop 20 random)) aad = Ok (identity cfg ts).
Proof.
  intros Hr Hs Hn Hm. destruct (new_connection_cases cfg mc mp private random now Hr Hs) as [(c & pub & auth & sid & ts & E & Hf)|[e E]]; rewrite E; (split; [done|]); [|done].
  intros c' <-%Ok_inj. destruct Hf as (shared & Hts & Hp & Hsh & Ha & Hsid & Henc & ->). assert (length pub = 32) as Hpub by by eapply public_length.
  assert (Z.of_nat (length (client_extensions pub (server_name cfg) DEFAULT_ALPN_PROTOCOLS)) < 65536)%Z as Hext by (rewrite length_client_extensions by done; lia).
  destruct (hello_split cfg random pub Hr) as (a & b & Hla & Hsplit).
  exists pub, shared, auth, sid, ts, (hello_with cfg random pub (replicate 32 x00)). pose proof (hello_ids_u16 cfg) as Hids. cbn [ciphertext_write_buf set_state set_outgoing]. split_and!; try done.
  - by apply client_random_read.
  - by apply client_key_read.
  - by apply client_suites_read.
  - by apply client_session_read.
  - unfold client_record. fold (hello_with cfg random pub sid). rewrite drop_app_length' by (unfold write_record_header, be16; by rewrite !length_app, length_to_be).
    rewrite !Hsplit by done. rewrite <- Hla. apply fill_at_parts. by rewrite Hsid.
  - eapply session_id_opened; [rewrite length_take, length_drop; lia|unfold identity; rewrite !length_app, length_to_be, Hs; done|done].
Qed.

(** ** The handshake *)
Lemma new_session `{CryptoLaws} cfg mc mp private random now c :
  length mc = CIPHERTEXT_READ_BUF_CAPACITY → length mp = PLAINTEXT_READ_BUF_CAPACITY → length random = 32 → length (short_id cfg) = 8 →
  new_connection cfg mc mp private random now = Ok c →
  ∃ hello shared auth, handshake_state c = AwaitingServerHello hello private auth ∧ agree private (public_key cfg) = Some shared ∧
    derive_auth_key shared (take 20 random) REALITY_INFO = Ok auth ∧ session hello private auth c.
Proof.
  intros Hmc Hmp Hr Hs E. destruct (new_connection_cases cfg mc mp private random now Hr Hs) as [(c1 & pub & auth & sid & ts & E1 & Hf)|[e E1]]; rewrite E1 in E; [|done].
  apply Ok_inj in E. subst c1. destruct Hf as (shared & Hts & Hp & Hsh & Ha & Hsid & Henc & ->). exists (hello_with cfg random pub sid), shared, auth. split_and!; try done.
  split; [exists []|exists []|done].
  - unfold cipher_holds. cbn. rewrite <- Hmc. apply new_holds.
  - split; cbn; [rewrite <- Hmp; apply new_holds|]. intros _. rewrite <- Hmp. apply new_holds.
Qed.

(** C21: whatever bytes arrive in whatever portions, and whatever the caller does, a
    connection is past its handshake only if the peer proved itself twice: a certificate
    came whose signature is the HMAC of its Ed25519 key under the authentication key of
    this connection, and a signature by that key verified over the transcript up to the
    message that carries it. The application keys are those of the transcript and of the
    secret shared with the key in the server's hello. *)
Theorem complete_is_authenticated `{CryptoLaws} cfg mc mp private random now c0 events c :
  length mc = CIPHERTEXT_READ_BUF_CAPACITY → length mp = PLAINTEXT_READ_BUF_CAPACITY → length random = 32 → length (short_id cfg) = 8 →
  new_connection cfg mc mp private random now = Ok c0 → run_events events c0 = Some c → is_handshaking c = false →
  ∃ hello shared auth, handshake_state c0 = AwaitingServerHello hello private auth ∧ agree private (public_key cfg) = Some shared ∧
    derive_auth_key shared (take 20 random) REALITY_INFO = Ok auth ∧ authenticated hello private auth c.
Proof.
  intros Hmc Hmp Hr Hs E Hev Hc. destruct (new_session cfg mc mp private random now c0 Hmc Hmp Hr Hs E) as (hello & shared & auth & Hst & Hsh & Ha & Hses).
  exists hello, shared, auth. split_and!; try done. pose proof (session_state _ _ _ _ (events_ok _ _ _ _ _ _ Hses Hev)) as Hok. unfold state_ok in Hok. unfold is_handshaking in Hc.
  by destruct (handshake_state c).
Qed.

(** C23: on any connection that is reached, bytes that fit the buffer are taken without a
    panic, and with the plaintext read out, processing them never panics during the
    handshake, whatever they are, and ends; the only panic left is a record that opens,
    under the keys of an authenticated server, to a handshake message after the
    handshake. *)
Theorem peer_cannot_panic_handshake `{CryptoLaws} cfg mc mp private random now c0 events c :
  length mc = CIPHERTEXT_READ_BUF_CAPACITY → length mp = PLAINTEXT_READ_BUF_CAPACITY → length random = 32 → length (short_id cfg) = 8 →
  new_connection cfg mc mp private random now = Ok c0 → run_events events c0 = Some c →
  (∀ l, length l ≤ TLS_MAX_RECORD_SIZE → length l + len (ciphertext_read_buf c) ≤ CIPHERTEXT_READ_BUF_CAPACITY → ∃ c', read_tls (Ok l) c = (c', Ok (length l))) ∧
  (plain_holds [] c → ∀ c' r, process_new_packets c = (c', r) →
    no_panic r ∨ is_handshaking c' = false ∧ ∃ key iv, app_read_key c' = Some key ∧ app_read_iv c' = Some iv ∧ handshake_record key iv c').
Proof.
  intros Hmc Hmp Hr Hs E Hev. destruct (new_session cfg mc mp private random now c0 Hmc Hmp Hr Hs E) as (hello & shared & auth & _ & _ & _ & Hses).
  pose proof (events_ok _ _ _ _ _ _ Hses Hev) as Hc. split.
  - intros l Hl Hroom. destruct (read_tls (Ok l) c) as [c' r] eqn:El. destruct (read_tls_ok _ _ _ _ _ _ _ Hc El) as [_ Hok]. exists c'. by rewrite (Hok l).
  - intros Hp c' r Ep. destruct (process_new_packets_ok _ _ _ _ _ _ Hc Ep) as [_ Hpan]. destruct r; [by left|by left|]. right. by apply Hpan.
Qed.

(** ** Delivery *)
Section delivery.
Context `{CryptoLaws} (key : AeadKey) (iv : bytes).

Definition app_fragments (frags : list (byte * bytes)) : Prop := Forall (λ f, f.1 = CONTENT_TYPE_APPLICATION_DATA) frags.
Definition payload (frags : list (byte * bytes)) : bytes := List.concat (List.map snd frags).

(** One turn of the loop over a record of application data *)
Lemma loop_record fuel c qp n ct rest k m : cipher_holds qp c → next_record qp = Some (n, ct, rest) →
  decrypt_record_in_place suite_aead key iv ct n (read_seq c) = (k, Ok (CONTENT_TYPE_APPLICATION_DATA, m)) →
  ∀ q, plain_holds q c → length m ≤ remaining_capacity (plaintext_read_buf c) →
  ∃ b1 b2, application_loop (S fuel) key iv c = application_loop fuel key iv (set_cipher b2 (set_plain b1 (set_read_seq k c))) ∧
    holds b2 CIPHERTEXT_READ_BUF_CAPACITY rest ∧ plain_holds (q ++ m) (set_plain b1 c) ∧ remaining_capacity (plaintext_read_buf c) - length m ≤ remaining_capacity b1.
Proof.
  intros Hq En Edec q Hp Hm. cbn [application_loop]. rewrite (act_bind_ok _ _ _ _ _ (next_record_len_eq c qp Hq)), En.
  destruct (peek_record _ _ _ _ _ Hq En) as [Hpk _]. rewrite (act_bind_ok _ _ _ _ _ Hpk).
  rewrite (act_bind_ok (with_decryptor _) _ c (set_read_seq k c) (CONTENT_TYPE_APPLICATION_DATA, m)) by (unfold with_decryptor; by rewrite Edec).
  destruct (plaintext_arrives m (set_read_seq k c) q Hp Hm) as (b1 & Hh & Hb1 & He1 & Hr1). rewrite (act_bind_ok _ _ _ _ _ Hh).
  assert (cipher_holds qp (set_plain b1 (set_read_seq k c))) as Hq1 by exact Hq. destruct (consume_record _ _ _ _ _ Hq1 En) as (b2 & Hc2 & Hb2 & _). rewrite (act_bind_ok _ _ _ _ _ Hc2).
  exists b1, b2. by split_and!.
Qed.

Lemma loop_opens n frags n' wire : opens suite_aead key iv n frags n' wire → app_fragments frags →
  ∀ tail c q fuel, cipher_holds (wire ++ tail) c → plain_holds q c → read_seq c = n → length (payload frags) ≤ remaining_capacity (plaintext_read_buf c) → length (wire ++ tail) < fuel →
  ∃ fuel' c1, application_loop fuel key iv c = application_loop fuel' key iv c1 ∧ length tail < fuel' ∧ cipher_holds tail c1 ∧ plain_holds (q ++ payload frags) c1 ∧
    read_seq c1 = n' ∧ received_close_notify c1 = received_close_notify c.
Proof.
  induction 1 as [n|n len c0 wire t m n1 frags n' rest Hn Hd Ho IH]; intros Hf tail c q fuel Hci Hp Hs Hroom Hfuel.
  - exists fuel, c. rewrite app_nil_r. by split_and!.
  - unfold app_fragments in Hf. apply Forall_cons_1 in Hf as [Ht Hf]. cbn in Ht. subst t. apply (next_record_app _ _ _ _ tail) in Hn. unfold payload in Hroom. cbn [List.map List.concat snd] in Hroom. rewrite length_app in Hroom. fold (payload frags) in Hroom.
    destruct fuel as [|fuel]; [lia|]. subst n. destruct (loop_record fuel c _ _ _ _ _ _ Hci Hn Hd q Hp) as (b1 & b2 & -> & Hb2 & Hp1 & Hr1); [lia|].
    pose proof (next_record_split _ _ _ _ Hn) as (_ & _ & h & _ & _ & _ & _ & _ & _ & Hl & _ & Hrest).
    destruct (IH Hf tail (set_cipher b2 (set_plain b1 (set_read_seq n1 c))) (q ++ m) fuel) as (fuel' & c1 & -> & H1 & H2 & H3 & H4 & H5); [exact Hb2|exact Hp1|done|cbn; lia|rewrite Hrest, length_drop; lia|].
    exists fuel', c1. split_and!; try done. unfold payload in *. cbn [List.map List.concat snd]. by rewrite app_assoc.
Qed.

(** The record of a close notification ends the loop and is left in the buffer. *)
Lemma loop_close fuel c q n ct rest k lv : cipher_holds q c → next_record q = Some (n, ct, rest) →
  decrypt_record_in_place suite_aead key iv ct n (read_seq c) = (k, Ok (CONTENT_TYPE_ALERT, [lv; x00])) →
  application_loop (S fuel) key iv c = (set_closed (set_read_seq k c), Ok tt).
Proof.
  intros Hq En Edec. cbn [application_loop]. rewrite (act_bind_ok _ _ _ _ _ (next_record_len_eq c q Hq)), En.
  destruct (peek_record _ _ _ _ _ Hq En) as [Hpk _]. rewrite (act_bind_ok _ _ _ _ _ Hpk).
  by rewrite (act_bind_ok (with_decryptor _) _ c (set_read_seq k c) (CONTENT_TYPE_ALERT, [lv; x00])) by (unfold with_decryptor; by rewrite Edec).
Qed.

Lemma loop_done fuel c q : cipher_holds q c → next_record q = None → application_loop (S fuel) key iv c = (c, Ok tt).
Proof. intros Hq En. cbn [application_loop]. by rewrite (act_bind_ok _ _ _ _ _ (next_record_len_eq c q Hq)), En. Qed.

Lemma app_item_fragments datas : (AppData <$> datas) ≫= fragments = datas ≫= (λ l, pair CONTENT_TYPE_APPLICATION_DATA <$> plaintext_chunks l).
Proof. induction datas as [|l datas IH]; [done|]. cbn [fmap list_fmap]. change ((AppData l :: (AppData <$> datas)) ≫= fragments) with (fragments (AppData l) ++ ((AppData <$> datas) ≫= fragments)). by rewrite IH. Qed.

Lemma payload_datas datas : app_fragments ((AppData <$> datas) ≫= fragments) ∧ payload ((AppData <$> datas) ≫= fragments) = List.concat datas.
Proof.
  rewrite app_item_fragments. unfold app_fragments, payload. induction datas as [|l datas [IH1 IH2]]; [split; [constructor|done]|].
  change ((l :: datas) ≫= ?f) with (f l ++ (datas ≫= f)). cbv beta. split.
  - apply Forall_app. split; [|done]. apply Forall_fmap, Forall_forall. done.
  - rewrite map_app, concat_app, IH2. cbn [List.concat]. f_equal. rewrite <- (proj1 (plaintext_chunks_spec l)) at 2. f_equal. induction (plaintext_chunks l) as [|x xs IHx]; [done|]. cbn. f_equal. exact IHx.
Qed.

Lemma payload_length datas : length (payload ((AppData <$> datas) ≫= fragments)) = length (List.concat datas).
Proof. by rewrite (proj2 (payload_datas datas)). Qed.
End delivery.

(** C22: what the encryptor of the peer was given, the reader of the connection gets: if
    the buffer holds the records that a sequence of writes, fragmented and sealed from the
    number that is expected next, became, possibly with a close notification, and then
    less than a record, and there is room, processing puts the bytes of the writes, in
    order and nothing else, behind the unread plaintext, leaves what is less than a
    record, is at the encryptor's number and knows whether the peer closed. *)
Theorem application_data_delivered `{CryptoLaws} c key iv q datas (closing : bool) tail e :
  is_handshaking c = false → app_read_key c = Some key → app_read_iv c = Some iv → length iv = 12 → in_u 64 (read_seq c) →
  fatal_error c = None → received_close_notify c = false →
  send_all suite_aead key iv ((AppData <$> datas) ++ if closing then [RealityRecords.CloseNotify] else []) {| seq := read_seq c; out := [] |} = (e, Ok tt) →
  cipher_holds (out e ++ tail) c → next_record tail = None → plain_holds q c → length (List.concat datas) ≤ remaining_capacity (plaintext_read_buf c) →
  ∃ c', process_new_packets c = (c', Ok (length (q ++ List.concat datas))) ∧ plain_holds (q ++ List.concat datas) c' ∧
    read_seq c' = seq e ∧ received_close_notify c' = closing ∧ (closing = false → cipher_holds tail c').
Proof.
  intros Hh Hk Hi Hiv Hu Hfat Hcl Hsend Hci Htail Hp Hroom.
  destruct (all_sends suite_aead key iv (λ s, suite_laws s) Hiv _ {| seq := read_seq c; out := [] |} _ _ Hu Hsend) as (a & b & w & Ef & Ho & Hop & Hsq & _ & ->). rewrite app_nil_r in Ef. cbn [out seq app] in Ho, Hop. rewrite Ho in Hci.
  rewrite bind_app in Ef. destruct (payload_datas datas) as [Hf Hpl].
  unfold process_new_packets. rewrite Hfat, Hcl. cbn [process_new_packets_inner]. rewrite (act_bind_ok get _ c c c eq_refl).
  unfold is_handshaking in Hh. destruct (handshake_state c) eqn:Est; [done..|]. clear Hh. unfold process_application_data. 
  set (loop := application_loop (S (len (ciphertext_read_buf c))) key iv).
  assert (∃ c', loop c = (c', Ok tt) ∧ plain_holds (q ++ List.concat datas) c' ∧ read_seq c' = seq e ∧ received_close_notify c' = closing ∧ (closing = false → cipher_holds tail c')) as (c' & El & Hp' & Hs' & Hc' & Ht').
  { subst loop. rewrite (holds_len _ _ _ Hci). destruct closing.
    - (* the fragments of the data, then the alert *)
      change ([RealityRecords.CloseNotify] ≫= fragments) with [(CONTENT_TYPE_ALERT, [x01; x00])] in Ef. subst a.
      apply opens_split in Hop as (n1 & w1 & w2 & -> & Hop1 & Hop2). rewrite <- app_assoc in *. rewrite <- Hpl in *.
      destruct (loop_opens key iv _ _ _ _ Hop1 Hf (w2 ++ tail) c q (S (length (w1 ++ w2 ++ tail))) Hci Hp eq_refl Hroom) as (fuel & c1 & -> & Hfu & Hci1 & Hp1 & Hs1 & Hc1); [lia|].
      inversion Hop2 as [|? ln ct ? t m n2 fr n3 rest Hnr Hdec Hnil]; subst. inversion Hnil; subst. destruct fuel as [|fuel]; [lia|].
      rewrite (loop_close key iv fuel c1 _ _ _ _ _ _ Hci1 (next_record_app _ _ _ _ tail Hnr) Hdec). eexists. split; [reflexivity|]. by split_and!.
    - cbn [mbind list_bind] in Ef. rewrite app_nil_r in Ef. subst a. rewrite <- Hpl in *.
      destruct (loop_opens key iv _ _ _ _ Hop Hf tail c q (S (length (w ++ tail))) Hci Hp eq_refl Hroom) as (fuel & c1 & -> & Hfu & Hci1 & Hp1 & Hs1 & Hc1); [lia|].
      destruct fuel as [|fuel]; [lia|]. rewrite (loop_done key iv fuel c1 tail Hci1 Htail). exists c1. split_and!; try done. by rewrite Hc1. }
  exists c'. split; [|by split_and!]. destruct Hp' as [Hp' Hr'].
  rewrite (act_bind_ok (λ c, _) _ c c' tt) by (rewrite (act_bind_ok get _ c c c eq_refl), Hk, Hi; exact El). rewrite (act_bind_ok get _ c' c' c' eq_refl). cbn. by rewrite (holds_len _ _ _ Hp').
Qed.

(** ** A handshake under toy primitives *)
Definition pad_to (n : nat) (l : bytes) : bytes := take n (l ++ replicate n x00).

Lemma length_pad_to n l : length (pad_to n l) = n.
Proof. unfold pad_to. rewrite length_take, length_app, length_replicate. lia. Qed.

#[export] Instance toy_crypto : Crypto := {
  suite_aead := λ _, toy_aead;
  hmac s k m := pad_to (hash_len s) (m ++ k);
  digest s m := pad_to (hash_len s) (rev m);
  hmac_sha512 k m := pad_to 64 (k ++ m);
  hkdf_sha256_extract salt ikm := ikm ++ salt;
  hkdf_sha256_expand prk info := Some (pad_to 32 (info ++ prk));
  aes_256_gcm := toy_aead;
  compute_public_key a := Some (pad_to 32 a);
  agree a b := Some (pad_to 32 (zip_with xor_byte a b));
  ed25519_verify pk content sig := bool_decide (sig = pad_to 64 (pk ++ rev content));
  x509_from_der der := Some (take 32 der, drop 32 der) }.

#[export] Instance toy_crypto_laws : CryptoLaws toy_crypto.
Proof.
  split.
  - intros s. apply toy_laws.
  - apply toy_laws.
  - intros s k m. apply length_pad_to.
  - intros s m. apply length_pad_to.
  - intros a p [= <-]. apply length_pad_to.
  - intros a b s [= <-]. apply length_pad_to.
Qed.

Definition demo_config : RealityClientConfig :=
  {| public_key := replicate 32 x01; short_id := replicate 8 x02; server_name := list_byte_of_string "example.org"; cipher_suites := [] |}.
Definition demo_private : bytes := replicate 32 x03.
Definition demo_random : bytes := replicate 32 x04.
Definition demo_memory : bytes := replicate CIPHERTEXT_READ_BUF_CAPACITY x00.
Definition demo_new : res Connection := new_connection demo_config demo_memory demo_memory demo_private demo_random (Some 1700000000)%Z.
Definition demo_c0 : Connection := unwrap_or (initial demo_config demo_memory demo_memory) demo_new.

(** The server's side: its hello, the keys it shares, and its four messages *)
Definition demo_suite : CipherSuite := CHACHA20_POLY1305_SHA256.
Definition demo_server_record : bytes := server_record (replicate 32 x06) (replicate 32 x07) (replicate 32 x08) (suite_id demo_suite).
Definition demo_transcript : bytes := drop 5 (ciphertext_write_buf demo_c0) ++ drop 5 demo_server_record.
Definition demo_auth : bytes := match handshake_state demo_c0 with AwaitingServerHello _ _ a => a | _ => [] end.
Definition demo_keys : Tls13HandshakeKeys :=
  unwrap_or {| client_handshake_traffic_secret := []; server_handshake_traffic_secret := []; master_secret := [] |}
    (derive_handshake_keys demo_suite (default [] (agree demo_private (replicate 32 x08))) (digest demo_suite demo_transcript)).
Definition demo_pk : bytes := replicate 32 x09.
Definition demo_certificate : bytes := construct_encrypted_extensions ++ construct_certificate (demo_pk ++ hmac_sha512 demo_auth demo_pk).
Definition demo_flight : bytes := demo_certificate ++
  construct_certificate_verify (λ content, pad_to 64 (demo_pk ++ rev content)) (digest demo_suite (demo_transcript ++ demo_certificate)) ++
  construct_finished (replicate 32 x0a).
Definition sealed_under (secret : bytes) (m : AeadKey → bytes → act Encryptor IoError unit) : bytes :=
  let '(k, i) := unwrap_or ([], []) (derive_traffic_keys secret demo_suite) in
  out (m {| key_suite := demo_suite; key_bytes := k |} i {| seq := 0; out := [] |}).1.
Definition demo_flight_records : bytes := sealed_under (server_handshake_traffic_secret demo_keys) (λ k i, encrypt_handshake suite_aead k i demo_flight).
Definition demo_events : list event := [Feed (take 30 demo_server_record); Process; Feed (drop 30 demo_server_record ++ [x14; x03; x03; x00; x01; x01]); Process; Feed demo_flight_records; Process].

Definition demo_done (l : list event) : option Connection := run_events l demo_c0.

(** After the handshake, under the server's application secret *)
Definition demo_app_secret : bytes :=
  (unwrap_or ([], []) (derive_application_secrets demo_suite (master_secret demo_keys) (digest demo_suite (demo_transcript ++ demo_flight)))).2.
Definition demo_writes : list bytes := [list_byte_of_string "hello"; []; list_byte_of_string " world"].
Definition demo_app_records : bytes := sealed_under demo_app_secret (λ k i, send_all suite_aead k i ((AppData <$> demo_writes) ++ [RealityRecords.CloseNotify])).
Definition demo_ticket_record : bytes := sealed_under demo_app_secret (λ k i, encrypt_handshake suite_aead k i [x04; x00; x00; x01; x00]).

Definition demo_state (l : list event) : Connection := default demo_c0 (demo_done l).

Lemma demo_new_ok : demo_new = Ok demo_c0.
Proof. apply is_ok_unwrap. vm_compute. reflexivity. Qed.

Lemma demo_memory_length : length demo_memory = CIPHERTEXT_READ_BUF_CAPACITY.
Proof. apply length_replicate. Qed.

Lemma demo_state_reached l : bool_decide (is_Some (demo_done l)) = true → run_events l demo_c0 = Some (demo_state l).
Proof. intros [c Hc]%bool_decide_eq_true. unfold demo_state. by rewrite Hc. Qed.

(** [holds] on a concrete buffer *)
Definition holds_check (b : SlideBuffer) (cap : nat) (q : bytes) : bool :=
  (start b <=? end_ b) && (end_ b <=? length (data b)) && (length (data b) =? cap) && bool_decide (contents b = q).

Lemma holds_check_ok b cap q : holds_check b cap q = true → holds b cap q.
Proof. unfold holds_check. intros H. bool_hyps. by split_and!. Qed.

Lemma complete_is_authenticated_witness : ∃ hello shared auth,
  is_handshaking demo_c0 = true ∧ is_handshaking (demo_state demo_events) = false ∧ agree demo_private (public_key demo_config) = Some shared ∧
  authenticated hello demo_private auth (demo_state demo_events).
Proof.
  assert (is_handshaking (demo_state demo_events) = false) as Hd by (vm_compute; reflexivity).
  destruct (complete_is_authenticated demo_config demo_memory demo_memory demo_private demo_random (Some 1700000000%Z) demo_c0 demo_events (demo_state demo_events))
    as (hello & shared & auth & _ & Hs & _ & Ha); [exact demo_memory_length|exact (eq_trans demo_memory_length equal_capacities)|reflexivity|reflexivity|exact demo_new_ok|apply demo_state_reached; vm_compute; reflexivity|exact Hd|].
  exists hello, shared, auth. split; [vm_compute; reflexivity|]. split; [exact Hd|]. split; [exact Hs|exact Ha].
Defined.

Lemma client_hello_authenticates_witness : ∃ sid aad auth,
  extract_session_id_slice (ciphertext_write_buf demo_c0) = Ok sid ∧
  decrypt_session_id sid auth (take 12 (drop 20 demo_random)) aad = Ok (identity demo_config 1700000000).
Proof.
  destruct (client_hello_authenticates demo_config demo_memory demo_memory demo_private demo_random (Some 1700000000%Z)) as [_ H]; [reflexivity|reflexivity|vm_compute; reflexivity|vm_compute; reflexivity|].
  destruct (H demo_c0 demo_new_ok) as (pub & shared & auth & sid & ts & aad & _ & _ & _ & Hts & _ & _ & _ & Hsid & _ & Hdec).
  injection Hts as <-. exists sid, aad, auth. split; [exact Hsid|exact Hdec].
Defined.

(** The panic that is left does happen: a session ticket *)
Lemma peer_cannot_panic_handshake_witness :
  let c := demo_state (demo_events ++ [Feed demo_ticket_record]) in
  ∃ c', process_new_packets c = (c', Panic) ∧ is_handshaking c' = false ∧ ∃ key iv, handshake_record key iv c'.
Proof.
  set (c := demo_state (demo_events ++ [Feed demo_ticket_record])). intros c1. subst c1.
  destruct (peer_cannot_panic_handshake demo_config demo_memory demo_memory demo_private demo_random (Some 1700000000%Z) demo_c0 (demo_events ++ [Feed demo_ticket_record]) c)
    as [_ H]; [exact demo_memory_length|exact (eq_trans demo_memory_length equal_capacities)|reflexivity|reflexivity|exact demo_new_ok|apply demo_state_reached; vm_compute; reflexivity|].
  assert (plain_holds [] c) as Hp.
  { split; [apply holds_check_ok; vm_compute; reflexivity|]. intros _. apply Nat.eqb_eq. vm_compute. reflexivity. }
  assert (match (process_new_packets c).2 with Panic => true | _ => false end = true) as Hpanic by (vm_compute; reflexivity).
  destruct (process_new_packets c) as [c' r] eqn:E. exists c'. cbn [snd] in Hpanic. destruct r; [discriminate Hpanic|discriminate Hpanic|]. split; [reflexivity|].
  destruct (H Hp c' Panic eq_refl) as [Hn|[Hh (key & iv & _ & _ & Hr)]]; [exfalso; apply Hn; reflexivity|]. split; [exact Hh|]. exists key, iv. exact Hr.
Defined.

Lemma application_data_delivered_witness :
  let c := demo_state (demo_events ++ [Feed (demo_app_records ++ [x17; x03; x03; x00])]) in
  ∃ c', process_new_packets c = (c', Ok 11) ∧ plain_holds (list_byte_of_string "hello world") c' ∧ received_close_notify c' = true.
Proof.
  set (c := demo_state (demo_events ++ [Feed (demo_app_records ++ [x17; x03; x03; x00])])). intros c1. subst c1.
  set (key := default {| key_suite := demo_suite; key_bytes := [] |} (app_read_key c)). set (iv := default [] (app_read_iv c)).
  set (e := (send_all suite_aead key iv ((AppData <$> demo_writes) ++ [RealityRecords.CloseNotify]) {| seq := read_seq c; out := [] |}).1).
  destruct (application_data_delivered c key iv [] demo_writes true [x17; x03; x03; x00] e) as (c' & H1 & H2 & _ & H3 & _).
  - vm_compute. reflexivity.
  - vm_compute. reflexivity.
  - vm_compute. reflexivity.
  - vm_compute. reflexivity.
  - split; vm_compute; [discriminate|reflexivity].
  - vm_compute. reflexivity.
  - vm_compute. reflexivity.
  - vm_compute. reflexivity.
  - apply holds_check_ok. vm_compute. reflexivity.
  - vm_compute. reflexivity.
  - split; [apply holds_check_ok; vm_compute; reflexivity|]. intros _. apply Nat.eqb_eq. vm_compute. reflexivity.
  - apply Nat.leb_le. vm_compute. reflexivity.
  - exists c'. split; [exact H1|]. split; [exact H2|exact H3].
Defined.
