(* ===== verification/Transport.v ===== *)
(** * Transport: the stream underneath a connection

    What an [AsyncRead + AsyncWrite] of tokio answers to each poll, and the adapters of
    [prototype/vless/src/sync_adapter.rs] through which the synchronous connection reads
    and writes it. A poll is an action that returns an option: [None] is [Poll::Pending],
    a failure is [Poll::Ready(Err(_))]. *)
From Stdlib Require Import ZArith Lia Strings.Byte Ascii String.
From stdpp Require Import base list numbers option.
From S2P Require Import Prelude Wire RealityRecords RealityKeys RealityClient.
Local Open Scope nat_scope.

(** ** Scripts

    The answers to the polls to come, in order; a script that is used up stays pending.
    A read takes no more than it has room for, and a write no more than it is given. *)
Inductive answer (A : Type) := Gives (a : A) | Fails (e : IoError) | Waits.
Arguments Gives {A} a.
Arguments Fails {A} e.
Arguments Waits {A}.

Record Transport := {
  incoming : list (answer bytes); accepts : list (answer nat); flushes : list (answer unit); closes : list (answer unit);
  received : bytes; tcp_sent : bytes }.

Abbreviation polls S A := (act S IoError (option A)).

Definition tcp_poll_read (room : nat) : polls Transport bytes := λ t,
  let next i l := {| incoming := i; accepts := accepts t; flushes := flushes t; closes := closes t; received := received t ++ l; tcp_sent := tcp_sent t |} in
  match incoming t with
  | [] => (t, Ok None)
  | Waits :: i => (next i [], Ok None)
  | Fails e :: i => (next i [], Err e)
  | Gives l :: i =>
      if length l <=? room then (next i l, Ok (Some l))
      else (next (Gives (drop room l) :: i) (take room l), Ok (Some (take room l)))
  end.

Definition tcp_poll_write (l : bytes) : polls Transport nat := λ t,
  let next a l := {| incoming := incoming t; accepts := a; flushes := flushes t; closes := closes t; received := received t; tcp_sent := tcp_sent t ++ l |} in
  match accepts t with
  | [] => (t, Ok None)
  | Waits :: a => (next a [], Ok None)
  | Fails e :: a => (next a [], Err e)
  | Gives n :: a => (next a (take n l), Ok (Some (n `min` length l)))
  end.

Definition answered {A} (a : answer A) : outcome IoError (option A) :=
  match a with Gives x => Ok (Some x) | Fails e => Err e | Waits => Ok None end.

Definition tcp_poll_flush : polls Transport unit := λ t,
  match flushes t with
  | [] => (t, Ok None)
  | a :: f => ({| incoming := incoming t; accepts := accepts t; flushes := f; closes := closes t; received := received t; tcp_sent := tcp_sent t |}, answered a)
  end.

Definition tcp_poll_shutdown : polls Transport unit := λ t,
  match closes t with
  | [] => (t, Ok None)
  | a :: f => ({| incoming := incoming t; accepts := accepts t; flushes := flushes t; closes := f; received := received t; tcp_sent := tcp_sent t |}, answered a)
  end.

(** What is left of the scripts: polls cannot go on for longer. *)
Definition answer_size (a : answer bytes) : nat := match a with Gives l => S (length l) | _ => 1 end.
Definition reads_left (t : Transport) : nat := list_sum (answer_size <$> incoming t).
Definition writes_left (t : Transport) : nat := length (accepts t).

(** ** The adapters: a poll that is pending becomes an error. *)
Definition would_block : IoError := io_error WouldBlock "operation would block".
Definition ready_or_block {S A} (p : polls S A) : act S IoError A :=
  o ← p; match o with Some a => mret a | None => fail would_block end.
Definition SyncReadAdapter_read (room : nat) : act Transport IoError bytes := ready_or_block (tcp_poll_read room).
Definition SyncWriteAdapter_write (l : bytes) : act Transport IoError nat := ready_or_block (tcp_poll_write l).
Definition SyncWriteAdapter_flush : act Transport IoError unit := ready_or_block tcp_poll_flush.

(** [match r { Ok(n) => Ready(Ok(n)), Err(e) if e.kind() == WouldBlock => Pending, Err(e) =>
    Ready(Err(e)) }] *)
Definition block_is_pending {S A} (m : act S IoError A) : polls S A := λ s,
  match m s with
  | (s', Ok a) => (s', Ok (Some a))
  | (s', Err e) => (s', if bool_decide (kind e = WouldBlock) then Ok None else Err e)
  | (s', Panic) => (s', Panic)
  end.

(** [ready!]: a pending poll is returned at once. *)
Definition poll_bind {S A B} (p : polls S A) (f : A → polls S B) : polls S B := o ← p; match o with Some a => f a | None => mret None end.

Notation "x ⇐ p ; k" := (poll_bind p (λ x, k)) (at level 20, p at level 100, k at level 200, only parsing).

(** [let _ = ...] *)
Definition ignore {S E A} (m : act S E A) : act S E unit := λ s, match m s with (s', Panic) => (s', Panic) | (s', _) => (s', Ok tt) end.

(** ** Awaiting: polled until it is ready, or for ever *)
Fixpoint await {S A} (fuel : nat) (p : polls S A) : polls S A :=
  o ← p; match o, fuel with Some a, _ => mret (Some a) | None, O => mret None | None, S fuel => await fuel p end.

Definition tcp_read (room : nat) : polls Transport bytes := t ← get; await (length (incoming t)) (tcp_poll_read room).
Definition tcp_flush : polls Transport unit := t ← get; await (length (flushes t)) tcp_poll_flush.

(** [AsyncWriteExt::write_all] *)
Section write_all.
Context {S : Type} (write : bytes → polls S nat).
Fixpoint write_all_loop (fuel : nat) (l : bytes) : polls S unit :=
  match fuel with
  | O => mret None
  | Datatypes.S fuel =>
      if bool_decide (l = []) then mret (Some tt)
      else
        o ← write l;
        match o with
        | None => write_all_loop fuel l
        | Some O => fail (io_error WriteZero "failed to write whole buffer")
        | Some n => write_all_loop fuel (drop n l)
        end
  end.
End write_all.
Definition tcp_write_all (l : bytes) : polls Transport unit := t ← get; write_all_loop tcp_poll_write (S (writes_left t)) l.

(** Polls that stay pending for longer than this stay pending for ever. *)
Definition answers_left (t : Transport) : nat := length (incoming t) + length (accepts t) + length (flushes t) + length (closes t).

(** ** A connection over its transport *)
Section links.
Context `{Crypto}.
Abbreviation Link := (Transport * Connection)%type.

(** [session.read_tls(&mut adapter)] and [session.write_tls(&mut adapter)] *)
Definition link_read_tls : act Link IoError nat := λ '(t, c),
  let '(t', r) := SyncReadAdapter_read TLS_MAX_RECORD_SIZE t in
  let '(c', n) := read_tls r c in ((t', c'), n).

Definition write_out : act Link IoError nat := λ '(t, c),
  let '(t', r) := SyncWriteAdapter_write (ciphertext_write_buf c) t in
  let '(c', n) := drain (λ _, r) c in ((t', c'), n).
Definition link_write_tls : act Link IoError nat := _ ← on_snd encrypt_pending; write_out.

Definition link_write_tls_direct : polls Link nat := block_is_pending link_write_tls.

(** [while session.wants_write() { match write_tls_direct(cx) { .. } }]: [zero] says what
    follows when nothing is taken, [each] what is noted when something is. *)
Section loops.
Context {S : Type} (wants : S → bool) (write : polls S nat) (each : act S IoError unit) (zero : polls S unit).
Fixpoint while_wants_write (fuel : nat) : polls S unit :=
  match fuel with
  | O => lift Panic
  | Datatypes.S fuel =>
      s ← get;
      if wants s then
        o ← write;
        match o with
        | None => mret None
        | Some O => zero
        | Some _ => _ ← each; while_wants_write fuel
        end
      else mret (Some tt)
  end.
End loops.

Definition write_zero {S A} : act S IoError A := fail (io_error WriteZero "write zero").
End links.

(** The loop keeps what a write keeps, and ends: each write that takes something uses up
    an answer of the transport. *)
Lemma while_rule {S} (wants : S → bool) write each zero (I X : S → Prop) (μ : S → nat) (Q : option unit → S → Prop) fuel :
  (∀ k, triple (λ s, I s ∧ μ s = k) write (λ o s, I s ∧ (o ≠ None → μ s < k)) X) →
  (∀ k, triple (λ s, I s ∧ μ s < k) each (λ _ s, I s ∧ μ s < k) X) →
  triple I zero Q X → (∀ s, I s → Q None s) → (∀ s, I s → wants s = false → Q (Some tt) s) →
  triple (λ s, I s ∧ μ s < fuel) (while_wants_write wants write each zero fuel) Q X.
Proof.
  intros Hw He Hz Hn Hd. induction fuel as [|fuel IH]; [intros s s' r [_ Hs]; lia|]. cbn [while_wants_write]. apply triple_get. intros s0 [H0 Hm].
  destruct (wants s0) eqn:Ew; [|apply triple_ret; intros s [-> _]; by apply Hd].
  eapply triple_bind; [eapply triple_conseq; [apply (Hw (μ s0))|by intros s (-> & _)|intros o s Hs; exact Hs|done]|]. intros [[|n]|].
  - eapply triple_conseq; [exact Hz|by intros s [Hs _]|done|done].
  - eapply triple_bind; [eapply triple_conseq; [apply (He fuel)| |intros ? s Hs; exact Hs|done]|intros []; exact IH].
    intros s [Hs Hlt]. split; [done|]. specialize (Hlt ltac:(done)). lia.
  - apply triple_ret. intros s [Hs _]. by apply Hn.
Qed.

Lemma triple_true {S E A} (P : S → Prop) (m : act S E A) (Q : A → S → Prop) (X : S → Prop) : triple P m Q X → triple P m Q (λ _, True).
Proof. intros H s s' r Hs Hm. specialize (H s s' r Hs Hm). by destruct r. Qed.
