(* ===== verification/RealityStream.v ===== *)
(** * RealityStream: the Reality client as a byte stream

    [prototype/vless/src/reality_stream.rs], with [connect_reality_with_io] of [lib.rs]:
    the handshake over a transport, and then [AsyncRead] and [AsyncWrite] over the
    connection of [RealityClient]. *)
From Stdlib Require Import ZArith Lia Strings.Byte Ascii String.
From stdpp Require Import base list numbers option.
From S2P Require Import Prelude Wire SlideBuffer AeadStream RealityRecords RealityMessages RealityKeys RealityClient RealitySession Transport.
Local Open Scope nat_scope.

Definition HANDSHAKE_BUFFER_SIZE : nat := Eval cbv in 64 * 256.

(** ** StreamState *)
Inductive StreamState := Stream | ReadShutdown | WriteShutdown | FullyShutdown.

Definition readable (s : StreamState) : bool := match s with ReadShutdown | FullyShutdown => false | _ => true end.
Definition writeable (s : StreamState) : bool := match s with WriteShutdown | FullyShutdown => false | _ => true end.
Definition shutdown_read (s : StreamState) : StreamState := match s with WriteShutdown | FullyShutdown => FullyShutdown | _ => ReadShutdown end.
Definition shutdown_write (s : StreamState) : StreamState := match s with ReadShutdown | FullyShutdown => FullyShutdown | _ => WriteShutdown end.

Record RealityStream := { link : Transport * Connection; mode : StreamState; need_flush : bool }.
Definition tcp (s : RealityStream) : Transport := (link s).1.
Definition conn (s : RealityStream) : Connection := (link s).2.

Definition set_mode (f : StreamState → StreamState) (s : RealityStream) : RealityStream := {| link := link s; mode := f (mode s); need_flush := need_flush s |}.
Definition set_need_flush (b : bool) (s : RealityStream) : RealityStream := {| link := link s; mode := mode s; need_flush := b |}.

Definition on_link {A} (m : act (Transport * Connection) IoError A) : act RealityStream IoError A := λ s,
  let '(l, r) := m (link s) in ({| link := l; mode := mode s; need_flush := need_flush s |}, r).
Definition on_conn {A} (m : io A) : act RealityStream IoError A := on_link (on_snd m).
Definition on_tcp {A} (m : act Transport IoError A) : act RealityStream IoError A := on_link (on_fst m).

Section stream.
Context `{Crypto}.

(** ** perform_reality_handshake *)

(** [session.write_tls(&mut write_buffer)] into a [Vec], which takes everything *)
Definition write_tls_to_vec : io bytes :=
  _ ← encrypt_pending;
  c ← get;
  _ ← drain (λ l, Ok (length l));
  mret (ciphertext_write_buf c).

Fixpoint write_session (fuel : nat) : polls (Transport * Connection) unit :=
  match fuel with
  | O => lift Panic
  | S fuel =>
      '(_, c) ← get;
      if wants_write c then
        write_buffer ← on_snd write_tls_to_vec;
        if negb (bool_decide (write_buffer = [])) then
          poll_bind (on_fst (tcp_write_all write_buffer)) (λ _, write_session fuel)
        else write_session fuel
      else mret (Some tt)
  end.

(** One read, unless the peer is at its end: whether it is now. *)
Definition handshake_read (eof : bool) : polls (Transport * Connection) bool :=
  '(_, c) ← get;
  if negb eof && is_handshaking c && wants_read c then
    poll_bind (on_fst (tcp_read HANDSHAKE_BUFFER_SIZE)) (λ read,
      if bool_decide (read = []) then mret (Some true)
      else
        _ ← on_snd (feed_reality_client_connection read);
        _ ← on_snd process_new_packets;
        mret (Some eof))
  else mret (Some eof).

(** [turns] are left of the hundred. *)
Fixpoint handshake_loop (turns : nat) (eof : bool) : polls (Transport * Connection) unit :=
  match turns with
  | O => fail (invalid_data "REALITY handshake exceeded maximum iterations")
  | S turns =>
      '(_, c) ← get;
      let until_handshaked := is_handshaking c in
      poll_bind (write_session 2) (λ _,
      poll_bind (on_fst tcp_flush) (λ _,
      poll_bind (handshake_read eof) (λ eof,
      '(_, c) ← get;
      if until_handshaked && negb (is_handshaking c) && wants_write c then handshake_loop turns eof
      else if is_handshaking c then
        if (eof : bool) then fail (io_error UnexpectedEof "EOF during REALITY handshake") else handshake_loop turns eof
      else mret (Some tt))))
  end.

Definition perform_reality_handshake : polls (Transport * Connection) unit := poll_bind (handshake_loop 100 false) (λ _, on_fst tcp_flush).

(** [RealityStream::new], with its debug assertion *)
Definition new_stream (l : Transport * Connection) : run RealityStream :=
  if is_handshaking l.2 then Panic else Ok {| link := l; mode := Stream; need_flush := false |}.

(** A stream, or a future that stays pending *)
Definition connect_reality_with_io (cfg : RealityClientConfig) (memory_c memory_p private random : bytes) (now : option Z) (t : Transport) : outcome Error (option RealityStream) :=
  match new_connection cfg memory_c memory_p private random now with
  | Err _ => Err (mk_error "outbound-tls" "failed creating VLESS Reality client connection: {error}")
  | Panic => Panic
  | Ok session =>
      match perform_reality_handshake (t, session) with
      | (_, Err _) => Err (mk_error "outbound-tls" "failed establishing VLESS Reality connection: {error}")
      | (_, Panic) => Panic
      | (_, Ok None) => Ok None
      | (l, Ok (Some _)) => match new_stream l with Ok s => Ok (Some s) | _ => Panic end
      end
  end.

(** ** Writing *)
Definition write_tls_direct : polls RealityStream nat := on_link link_write_tls_direct.
Definition stream_wants_write (s : RealityStream) : bool := wants_write (conn s).
Definition note_flush : act RealityStream IoError unit := modify (set_need_flush true).

Definition write_loop (each : act RealityStream IoError unit) (zero : polls RealityStream unit) : polls RealityStream unit :=
  s ← get; while_wants_write stream_wants_write write_tls_direct each zero (S (writes_left (tcp s))).

Definition drain_all_writes : polls RealityStream unit := write_loop note_flush (mret (Some tt)).

(** One turn of the loop over the buffer: the writer takes all that is left. *)
Fixpoint poll_write_loop (fuel : nat) (position : nat) (buf : bytes) : polls RealityStream nat :=
  match fuel with
  | O => lift Panic
  | S fuel =>
      if position <? length buf then
        written ← on_conn (writer_write (drop position buf));
        let position := position + written in
        o ← write_loop note_flush (mret None);
        match o with
        | None =>
            _ ← note_flush;
            if position =? 0 then mret None else mret (Some position)
        | Some _ => poll_write_loop fuel position buf
        end
      else mret (Some position)
  end.

Definition poll_write (buf : bytes) : polls RealityStream nat :=
  s ← get;
  if negb (writeable (mode s)) then fail (io_error BrokenPipe "write side is shut down")
  else poll_write_loop 2 0 buf.

Definition poll_flush : polls RealityStream unit :=
  poll_bind (write_loop note_flush write_zero) (λ _,
    s ← get;
    if need_flush s then
      poll_bind (on_tcp tcp_poll_flush) (λ _, _ ← modify (set_need_flush false); mret (Some tt))
    else mret (Some tt)).

Definition poll_shutdown : polls RealityStream unit :=
  poll_bind (write_loop (mret tt) write_zero) (λ _,
    s ← get;
    _ ← (if writeable (mode s) then _ ← on_conn send_close_notify; modify (set_mode shutdown_write) else mret tt);
    poll_bind (write_loop (mret tt) write_zero) (λ _, λ s,
      match on_tcp tcp_poll_shutdown s with
      | (s', Err e) => (s', if bool_decide (kind e = NotConnected) then Ok (Some tt) else Err e)
      | r => r
      end)).

(** ** Reading *)
Definition stream_read_tls : polls RealityStream nat := on_link (block_is_pending link_read_tls).

(** A failure to decrypt: what is pending is written, then it is returned. *)
Definition process_or_drain : act RealityStream IoError unit := λ s,
  match on_conn process_new_packets s with
  | (s', Ok _) => (s', Ok tt)
  | (s', Err e) => (_ ← ignore drain_all_writes; fail e) s'
  | (s', Panic) => (s', Panic)
  end.

(** Whether the transport is pending, and whether it is at its end *)
Fixpoint read_loop (fuel : nat) : act RealityStream IoError (bool * bool) :=
  match fuel with
  | O => lift Panic
  | S fuel =>
      s ← get;
      if readable (mode s) && wants_read (conn s) then
        o ← stream_read_tls;
        match o with
        | None => mret (true, false)
        | Some O => mret (false, true)
        | Some _ => _ ← process_or_drain; read_loop fuel
        end
      else mret (false, false)
  end.

Definition poll_more_ciphertext : polls RealityStream bytes :=
  o ← stream_read_tls;
  match o with
  | None => mret None
  | Some O => _ ← modify (set_mode shutdown_read); mret (Some [])
  | Some _ => _ ← ignore (on_conn process_new_packets); mret None
  end.

(** What is put into a buffer with [room]; the reader has no other error than WouldBlock. *)
Definition poll_read (room : nat) : polls RealityStream bytes :=
  s ← get;
  if negb (readable (mode s)) then mret (Some [])
  else
    '(io_pending, eof) ← read_loop (S (reads_left (tcp s)));
    _ ← on_conn reader;
    f ← on_conn fill_buf;
    match f with
    | Available [] => _ ← modify (set_mode shutdown_read); mret (Some [])
    | Available available =>
        let len := room `min` length available in
        _ ← on_conn (reader_consume len);
        mret (Some (take len available))
    | NothingYet =>
        if (eof : bool) then _ ← modify (set_mode shutdown_read); mret (Some [])
        else if (io_pending : bool) then mret None
        else poll_more_ciphertext
    end.
End stream.
