(* ===== verification/RealityDuplex.v ===== *)
(** * RealityDuplex: the Reality client as a reliable stream

    The theorems on [RealityStream]: what connecting establishes, and that what is read
    and what is written are, byte for byte and in order, the application data of the
    records that come and go. *)
From Stdlib Require Import ZArith Lia Strings.Byte Ascii String.
From stdpp Require Import base list numbers option.
From S2P Require Import Prelude Wire SlideBuffer AeadStream TlsHello RealityRecords RealityMessages RealityKeys RealityClient RealitySession Transport RealityStream.
Local Open Scope nat_scope.

(** ** What reading leaves alone, and what writing does *)
Definition same_out (c c' : Connection) : Prop :=
  (app_write_key c' = app_write_key c ∧ app_write_iv c' = app_write_iv c ∧ write_seq c' = write_seq c ∧
   ciphertext_write_buf c' = ciphertext_write_buf c ∧ plaintext_write_buf c' = plaintext_write_buf c) ∧ frame c c'.
Definition same_in (c c' : Connection) : Prop :=
  (read_seq c' = read_seq c ∧ ciphertext_read_buf c' = ciphertext_read_buf c ∧ plaintext_read_buf c' = plaintext_read_buf c ∧
   fatal_error c' = fatal_error c ∧ received_close_notify c' = received_close_notify c) ∧
  frame c c' ∧ app_write_key c' = app_write_key c ∧ app_write_iv c' = app_write_iv c.

#[export] Instance same_out_preorder : PreOrder same_out.
Proof. split; [by intros c; split_and!|]. intros a b c ((? & ? & ? & ? & ?) & ? & ? & ?) ((? & ? & ? & ? & ?) & ? & ? & ?). unfold same_out, frame. split_and!; congruence. Qed.
#[export] Instance same_in_preorder : PreOrder same_in.
Proof. split; [by intros c; split_and!|]. intros a b c ((? & ? & ? & ? & ?) & (? & ? & ?) & ? & ?) ((? & ? & ? & ? & ?) & (? & ? & ?) & ? & ?). unfold same_in, frame. split_and!; congruence. Qed.

Section frames.
Context `{Crypto}.

Lemma on_plain_out f : always same_out (on_plain f).
Proof. intros c c' r. unfold on_plain. destruct (f _); by intros [= <- _]. Qed.
Lemma on_cipher_out f : always same_out (on_cipher f).
Proof. intros c c' r. unfold on_cipher. destruct (f _); by intros [= <- _]. Qed.
Lemma peek_out {A} (f : SlideBuffer → run A) : always same_out (peek f).
Proof. intros c c' r. unfold peek. destruct (f _); by intros [= <- _]. Qed.
Lemma peek_plain_out {A} (f : SlideBuffer → run A) : always same_out (peek_plain f).
Proof. intros c c' r. unfold peek_plain. destruct (f _); by intros [= <- _]. Qed.
Lemma with_decryptor_out {A} (m : act Z IoError A) : always same_out (with_decryptor m).
Proof. intros c c' r. unfold with_decryptor. destruct (m _). by intros [= <- _]. Qed.
#[local] Hint Resolve on_plain_out on_cipher_out peek_out peek_plain_out with_decryptor_out : always.

Lemma next_record_len_out : always same_out next_record_len.
Proof. unfold next_record_len, u16_or_short. frames. Qed.
#[local] Hint Resolve next_record_len_out : always.

Lemma handle_content_out t m : always same_out (handle_content t m).
Proof. unfold handle_content. frames. Qed.
#[local] Hint Resolve handle_content_out : always.

Lemma application_loop_out fuel key iv : always same_out (application_loop fuel key iv).
Proof. induction fuel as [|fuel IH]; cbn [application_loop]; frames. Qed.
#[local] Hint Resolve application_loop_out : always.

Lemma process_application_data_out : always same_out process_application_data.
Proof. unfold process_application_data. frames. Qed.

Lemma process_inner_out fuel c c' r : handshake_state c = Complete → process_new_packets_inner fuel c = (c', r) → same_out c c'.
Proof.
  intros Hst. destruct fuel as [|fuel]; [by intros [= <- _]|]. cbn [process_new_packets_inner]. rewrite (act_bind_ok get _ c c c eq_refl), Hst. revert c c' r Hst.
  assert (always same_out (_ ← process_application_data; c ← get; mret (len (plaintext_read_buf c)))) as Ha; [|intros c c' r _; apply Ha].
  apply always_bind; [typeclasses eauto|apply process_application_data_out|intros _; frames].
Qed.

Lemma process_out c c' r : handshake_state c = Complete → process_new_packets c = (c', r) → same_out c c'.
Proof.
  intros Hst. unfold process_new_packets. destruct (fatal_error c); [by intros [= <- _]|]. destruct (received_close_notify c); [by intros [= <- _]|].
  destruct (process_new_packets_inner _ c) as [c1 r1] eqn:E1. apply process_inner_out in E1; [|done]. destruct r1 as [n|e|]; [by intros [= <- _]| |by intros [= <- _]].
  intros [= <- _]. by destruct (fatal _).
Qed.

Lemma read_tls_out d : always same_out (read_tls d).
Proof. unfold read_tls. frames. Qed.

Lemma encrypt_pending_in : always same_in encrypt_pending.
Proof.
  unfold encrypt_pending. apply always_bind; [typeclasses eauto|apply always_get; typeclasses eauto|intros c0]. destruct (is_handshaking c0); [apply always_ret; typeclasses eauto|].
  destruct (negb _); [|apply always_ret; typeclasses eauto]. apply always_bind; [typeclasses eauto| |intros ?; apply always_modify; by intros ?].
  intros c c' r E. apply app_encryptor_ok in E as (l & n & ->); [done|]. by intros ? ? [= <- _].
Qed.

Lemma drain_in accept : always same_in (drain accept).
Proof. unfold drain. frames. Qed.

Lemma close_notify_in : always same_in send_close_notify.
Proof.
  intros c c' r. unfold send_close_notify. destruct (is_handshaking c); [by intros [= <- _]|]. destruct (app_encryptor _ _ c) as [c1 r1] eqn:E1.
  apply app_encryptor_ok in E1 as (l & n & ->); [|by intros ? ? [= <- _]]. by destruct r1; intros [= <- _].
Qed.
End frames.

(** ** Reading *)
Definition app_payload (frags : list (byte * bytes)) : bytes :=
  List.concat (snd <$> filter (λ f, f.1 = CONTENT_TYPE_APPLICATION_DATA) frags).

Lemma app_payload_app a b : app_payload (a ++ b) = app_payload a ++ app_payload b.
Proof. unfold app_payload. by rewrite list.filter_app, fmap_app, concat_app. Qed.

Lemma app_payload_chunks l : app_payload (pair CONTENT_TYPE_APPLICATION_DATA <$> plaintext_chunks l) = l.
Proof.
  unfold app_payload. rewrite <- (proj1 (plaintext_chunks_spec l)) at 2. induction (plaintext_chunks l) as [|x xs IH]; [done|].
  cbn [fmap list_fmap]. rewrite filter_cons_True by done. cbn [fmap list_fmap List.concat snd]. by rewrite IH.
Qed.

(** The record in front, without what comes behind the records that matter *)
Lemma next_record_prefix q n ct w tail : next_record q = Some (n, ct, w ++ tail) → ∃ wire, q = wire ++ tail ∧ next_record wire = Some (n, ct, w).
Proof.
  intros Hn. pose proof (next_record_split _ _ _ _ Hn) as (x & y & h & Hq & Hh & Hc & H3 & H4 & Hx & _ & _ & _). exists (h ++ ct ++ w). split; [by rewrite Hq, <- !app_assoc|].
  rewrite Hq, app_assoc, app_assoc, <- (app_assoc h) in Hn. destruct h as [|h0 [|h1 [|h2 [|h3 [|h4 [|]]]]]]; try done. unfold next_record in *. cbn [app drop take] in *. rewrite !take_0 in *.
  rewrite Hq in H3, H4. cbn in H3, H4. injection H3 as ->. injection H4 as ->. rewrite <- Hx in *. unfold TLS_RECORD_HEADER_SIZE. cbn [length]. rewrite length_app, Hc.
  destruct (Nat.leb_spec (5 + n) (S (S (S (S (S (n + length w))))))); [|lia]. cbn [drop]. rewrite !drop_0. by rewrite take_app_length', drop_app_length'.
Qed.

Section reading.
Context `{CryptoLaws} (key : AeadKey) (iv : bytes).

(** Records have gone from the front of the buffer that held [q], and their application
    data is behind the plaintext [p]. *)
Definition took (q p : bytes) (c c' : Connection) (n : Z) : Prop := ∃ wire q' frags,
  q = wire ++ q' ∧ cipher_holds q' c' ∧ opens suite_aead key iv (read_seq c) frags n wire ∧ plain_holds (p ++ app_payload frags) c' ∧
  fatal_error c' = fatal_error c ∧ (received_close_notify c = true → received_close_notify c' = true).

Lemma took_nothing q p c c' : cipher_holds q c → plain_holds p c → ciphertext_read_buf c' = ciphertext_read_buf c → plaintext_read_buf c' = plaintext_read_buf c →
  fatal_error c' = fatal_error c → (received_close_notify c = true → received_close_notify c' = true) → took q p c c' (read_seq c).
Proof.
  intros Hq Hp F1 F2 F3 F4. exists [], q, []. unfold app_payload, cipher_holds, plain_holds. cbn. rewrite app_nil_r, F1, F2. split_and!; try done; [constructor|apply Hp..].
Qed.

(** What a record does to the plaintext *)
Lemma content_reads t m p c c' r : plain_holds p c → handle_content t m c = (c', r) → no_panic r →
  ciphertext_read_buf c' = ciphertext_read_buf c ∧ read_seq c' = read_seq c ∧ fatal_error c' = fatal_error c ∧
  match r with
  | Ok stop => plain_holds (p ++ if stop then [] else app_payload [(t, m)]) c' ∧ received_close_notify c' = (stop || received_close_notify c)
  | Err e => c' = c ∧ fatal (kind e) = true
  | Panic => False
  end.
Proof.
  intros Hp. unfold handle_content. destruct (bool_decide_reflect (t = CONTENT_TYPE_APPLICATION_DATA)) as [->|Ht].
  - unfold on_plain, mbind, act_bind. destruct Hp as [Hp Hroom]. destruct (maybe_compact_holds _ _ _ COMPACT_THRESHOLD Hp) as (b1 & -> & Hb1 & Hr1). cbn [plaintext_read_buf set_plain].
    destruct (Nat.le_gt_cases (length m) (remaining_capacity b1)) as [Hm|Hm]; [|rewrite (extend_full _ _ _ _ Hb1 Hm); by intros [= <- <-]].
    destruct (extend_holds _ _ _ _ Hb1 Hm) as (b2 & -> & Hb2 & Hr2). intros [= <- <-] _. split_and!; try done.
    unfold app_payload. rewrite filter_cons_True by done. cbn [fmap list_fmap filter list_filter List.concat snd]. rewrite app_nil_r. split; [exact Hb2|]. intros [-> ->]%app_eq_nil. specialize (Hroom eq_refl).
    pose proof (remaining_le _ _ _ Hb1). cbn [plaintext_read_buf set_plain]. cbn [length] in *. lia.
  - assert (app_payload [(t, m)] = []) as -> by (unfold app_payload; by rewrite filter_cons_False).
    assert (∀ stop : bool, plain_holds (p ++ if stop then [] else []) c) as Hsame by (intros []; by rewrite app_nil_r).
    destruct (bool_decide (t = CONTENT_TYPE_ALERT)); [|by intros [= <- <-]].
    destruct m as [|lv [|d m]]; [intros [= <- <-] _; split_and!; by try apply (Hsame false)..|]. destruct (bool_decide (d = _)); [intros [= <- <-] _; split_and!; by try apply (Hsame true)|].
    destruct (negb _); intros [= <- <-] _; split_and!; by try apply (Hsame false).
Qed.

Lemma decrypt_failed (n : Z) ct len n' e : decrypt_record_in_place suite_aead key iv ct len n = (n', Err e) → n' = n ∨ fatal (kind e) = true.
Proof.
  unfold decrypt_record_in_place, open_in_place_slice, make_nonce, invalid_content_type, fail, mbind, act_bind, outcome_bind, lift, modify. destruct (negb _); [intros [= <- _]; by left|].
  destruct (unseal _ _ _ _) as [p|]; cbn [ok_or]; [|intros [= <- _]; by left]. unfold next_seq. destruct (n =? u64_max)%Z; [intros [= <- _]; by left|].
  destruct (list.last (trim_zeros p)) as [b|]; [destruct (valid_content_type b); [done|]|]; intros [= _ <-]; by right.
Qed.

(** What the loop takes from the buffer are records that open, in order; what is left is
    less than a record, unless the peer has closed or the connection failed. *)
Lemma loop_reads fuel c c' r q p : cipher_holds q c → plain_holds p c → application_loop fuel key iv c = (c', r) → no_panic r →
  ∃ n, took q p c c' n ∧
    match r with
    | Ok _ => received_close_notify c' = true ∨ read_seq c' = n
    | Err e => read_seq c' = n ∨ fatal (kind e) = true
    | Panic => False
    end.
Proof.
  revert c q p. induction fuel as [|fuel IH]; intros c q p Hq Hp; [by intros [= <- <-]|].
  cbn [application_loop]. rewrite (act_bind_ok _ _ _ _ _ (next_record_len_eq c q Hq)). destruct (next_record q) as [[[n ct] rest]|] eqn:En.
  2: { intros [= <- <-] _. exists (read_seq c). split; [by apply took_nothing|by right]. }
  destruct (peek_record _ _ _ _ _ Hq En) as [Hpk _]. rewrite (act_bind_ok _ _ _ _ _ Hpk). intros Hx Hnp.
  apply act_bind_cases in Hx as [(c1 & [t m] & Hd & Hx)|[(e & Hd & ->)|[Hd ->]]]; unfold with_decryptor in Hd; destruct (decrypt_record_in_place _ _ _ _ _ _) as [n1 r1] eqn:Edec; injection Hd as <- ->.
  2: { exists (read_seq c). split; [by apply took_nothing|]. by apply decrypt_failed in Edec. }
  2: { done. }
  apply act_bind_cases in Hx as [(c2 & stop & Hc2 & Hx)|[(e & Hc2 & ->)|[Hc2 ->]]]; [..|done]; apply (content_reads _ _ p) in Hc2 as (F1 & F2 & F3 & Hc2); try done.
  2: { destruct Hc2 as [-> Hf]. exists (read_seq c). split; [by apply took_nothing|by right]. }
  destruct Hc2 as [Hp2 Hcl]. destruct stop.
  { injection Hx as <- <-. exists (read_seq c). split; [|by left]. exists [], q, []. unfold cipher_holds. rewrite F1. split_and!; [done|exact Hq|apply opens_nil|exact Hp2|exact F3|by rewrite Hcl]. }
  assert (cipher_holds q c2) as Hq2 by (unfold cipher_holds; by rewrite F1). destruct (consume_record _ _ _ _ _ Hq2 En) as (b & Hcons & Hb & _). rewrite (act_bind_ok _ _ _ _ _ Hcons) in Hx.
  destruct (IH (set_cipher b c2) rest (p ++ app_payload [(t, m)]) Hb Hp2 Hx Hnp) as (n2 & (w & q' & frags & -> & T2 & T3 & T4 & T5 & T6) & Hr). exists n2. split; [|exact Hr].
  apply next_record_prefix in En as (wire & -> & En). cbn [read_seq set_cipher fatal_error received_close_notify] in *. rewrite F2 in T3.
  exists wire, q', ((t, m) :: frags). split_and!; try done.
  - by eapply opens_record.
  - change ((t, m) :: frags) with ([(t, m)] ++ frags). by rewrite app_payload_app, app_assoc.
  - by rewrite T5, F3.
  - intros Hc. apply T6. by rewrite Hcl.
Qed.
(** Of [arrived], what came behind [base] is records that open from number 0, the
    application data of which is what was [taken] and what is readable. *)
Definition reads (base arrived taken : bytes) (c : Connection) : Prop :=
  handshake_state c = Complete ∧ app_read_key c = Some key ∧ app_read_iv c = Some iv ∧ ∃ wire q frags n p,
  arrived = base ++ wire ++ q ∧ cipher_holds q c ∧ plain_holds p c ∧ opens suite_aead key iv 0 frags n wire ∧ app_payload frags = taken ++ p ∧
  (fatal_error c = None → received_close_notify c = false → read_seq c = n).

Definition same_reader (c c' : Connection) : Prop :=
  ciphertext_read_buf c' = ciphertext_read_buf c ∧ plaintext_read_buf c' = plaintext_read_buf c ∧ read_seq c' = read_seq c ∧ received_close_notify c' = received_close_notify c.

Lemma reads_same_in base a t c c' : reads base a t c → same_in c c' → reads base a t c'.
Proof.
  intros (H1 & H2 & H3 & wire & q & frags & n & p & H4 & H5 & H6 & H7 & H8 & H9) ((F1 & F2 & F3 & F4 & F5) & (F6 & F7 & F8) & _).
  unfold reads, cipher_holds, plain_holds. rewrite F1, F2, F3, F4, F5, F6, F7, F8. split_and!; try done. exists wire, q, frags, n, p. split_and!; try done; apply H6.
Qed.

Lemma process_reads base a t c c' r : reads base a t c → process_new_packets c = (c', r) → no_panic r → reads base a t c'.
Proof.
  intros Hc. pose proof Hc as (H1 & H2 & H3 & wire & q & frags & n & p & H4 & H5 & H6 & H7 & H8 & H9). intros Hp Hnp.
  pose proof (process_out _ _ _ H1 Hp) as (_ & F1 & F2 & F3). unfold process_new_packets in Hp. destruct (fatal_error c) eqn:Hf; [by injection Hp as <- _|]. destruct (received_close_notify c) eqn:Hcl; [by injection Hp as <- _|].
  specialize (H9 eq_refl eq_refl). destruct (process_new_packets_inner _ c) as [c1 r1] eqn:E1. cbn [process_new_packets_inner] in E1. rewrite (act_bind_ok get _ c c c eq_refl), H1 in E1.
  assert (∃ r0, process_application_data c = (c1, r0) ∧ match r0 with Ok _ => ∃ x, r1 = Ok x | Err e => r1 = Err e | Panic => r1 = Panic end) as (r0 & E0 & Hr1).
  { apply act_bind_cases in E1 as [(c2 & [] & E0 & E1)|[(e & E0 & ->)|[E0 ->]]]; [injection E1 as <- <-; exists (Ok tt); by eauto|by exists (Err e)|by exists Panic]. }
  assert (no_panic r0 ∧ c' = match r0 with Err e => if fatal (kind e) then set_fatal (kind e) c1 else c1 | _ => c1 end) as [Hnp0 Hc'].
  { destruct r0 as [x|e|]; [destruct Hr1 as [y ->]|subst r1..]; injection Hp as <- <-; first [done|exfalso; by apply Hnp]. }
  unfold process_application_data in E0. rewrite (act_bind_ok get _ c c c eq_refl), H2, H3 in E0.
  destruct (loop_reads _ _ _ _ q p H5 H6 E0 Hnp0) as (n1 & (w & q' & fr & -> & T2 & T3 & T4 & T5 & T6) & Hr). rewrite H9 in T3.
  assert (same_reader c1 c') as (G1 & G2 & G3 & G4).
  { rewrite Hc'. destruct r0 as [x|e|]; [done| |done]. by destruct (fatal _). }
  split_and!; [by rewrite F1|by rewrite F2|by rewrite F3|]. exists (wire ++ w), q', (frags ++ fr), n1, (p ++ app_payload fr). unfold cipher_holds, plain_holds. rewrite G1, G2, G3, G4. split_and!; try done.
  - by rewrite H4, <- !app_assoc.
  - apply T4.
  - apply T4.
  - by eapply opens_app.
  - by rewrite app_payload_app, H8, app_assoc.
  - intros Hf' Hcl'. destruct r0 as [[]|e|]; [|destruct Hr as [Hr|Hr]; [done|]|done].
    + destruct Hr as [Hr|Hr]; congruence.
    + rewrite Hr in Hc'. by rewrite Hc' in Hf'.
Qed.
(** The buffers take what arrives, and give what is read. *)
Lemma read_tls_reads base a t d c c' r : reads base a t c → read_tls d c = (c', r) → no_panic r →
  reads base (a ++ match d with Ok l => l | _ => [] end) t c' ∧ r = match d with Ok l => Ok (length l) | Err e => Err e | Panic => Panic end.
Proof.
  intros Hc. pose proof Hc as (H1 & H2 & H3 & wire & q & frags & n & p & H4 & H5 & H6 & H7 & H8 & H9). unfold read_tls. rewrite (act_bind_ok get _ c c c eq_refl).
  set (room := if _ <? _ then _ else _). assert (∃ b, room c = (set_cipher b c, Ok tt) ∧ holds b CIPHERTEXT_READ_BUF_CAPACITY q) as (b & Hroom & Hb).
  { subst room. destruct (_ <? _); [destruct (compact_holds _ _ _ H5) as (b & E & Hb & _); exists b; unfold on_cipher; by rewrite E|]. exists (ciphertext_read_buf c). by destruct c. }
  rewrite (act_bind_ok _ _ _ _ _ Hroom). assert (∀ b' l, holds b' CIPHERTEXT_READ_BUF_CAPACITY (q ++ l) → reads base (a ++ l) t (set_cipher b' c)) as Hset.
  { intros b' l Hb'. split_and!; [done..|]. exists wire, (q ++ l), frags, n, p. split_and!; try done; [by rewrite H4, <- !app_assoc|apply H6..]. }
  assert (∀ b', set_cipher b' (set_cipher b c) = set_cipher b' c) as Hset2 by done.
  destruct d as [l|e|]; [|intros [= <- <-] _; split; [apply Hset; by rewrite app_nil_r|done]|by intros [= <- <-]].
  rewrite (act_bind_ok (lift (Ok l)) _ _ _ l eq_refl). destruct (Nat.ltb_spec 0 (length l)) as [Hl|Hl].
  2: { assert (l = []) as -> by (destruct l; [done|cbn in Hl; lia]). intros [= <- <-] _. split; [apply Hset; by rewrite app_nil_r|done]. }
  unfold on_cipher, mbind, act_bind. cbn [ciphertext_read_buf set_cipher]. destruct (Nat.le_gt_cases (length l) (remaining_capacity b)) as [Hfit|Hfit].
  - destruct (extend_holds _ _ _ _ Hb Hfit) as (b2 & -> & Hb2 & _). intros [= <- <-] _. split; [by apply (Hset b2)|done].
  - rewrite (extend_full _ _ _ _ Hb Hfit). by intros [= <- <-].
Qed.

(** Opening the reader and looking changes nothing; taking moves bytes out. *)
Lemma reader_reads base a t c : reads base a t c → ∃ b p, reader c = (set_plain b c, Ok tt) ∧ plain_holds p (set_plain b c) ∧ reads base a t (set_plain b c).
Proof.
  intros (H1 & H2 & H3 & wire & q & frags & n & p & H4 & H5 & [H6 H6r] & H7 & H8 & H9). destruct (maybe_compact_holds _ _ _ COMPACT_THRESHOLD H6) as (b & Eb & Hb & Hle).
  assert (plain_holds p (set_plain b c)) as Hp. { split; [exact Hb|]. intros Hn. specialize (H6r Hn). pose proof (remaining_le _ _ _ Hb). cbn [plaintext_read_buf set_plain]. lia. }
  exists b, p. unfold reader, on_plain. rewrite Eb. split; [done|]. split; [exact Hp|]. split_and!; [done..|]. exists wire, q, frags, n, p. split_and!; try done; apply Hp.
Qed.

Lemma fill_buf_holds c p : plain_holds p c →
  fill_buf c = (c, Ok (if bool_decide (p = []) then if received_close_notify c then Available [] else NothingYet else Available p)).
Proof.
  intros [Hp _]. unfold fill_buf. rewrite (act_bind_ok get _ c c c eq_refl). assert (is_empty (plaintext_read_buf c) = bool_decide (p = [])) as ->.
  { pose proof (holds_len _ _ _ Hp) as Hl. unfold len, is_empty in *. destruct (Nat.leb_spec (end_ (plaintext_read_buf c)) (start (plaintext_read_buf c))), (bool_decide_reflect (p = [])) as [->|Hne]; try done; [|cbn in Hl; lia]. destruct p; [done|cbn in Hl; lia]. }
  destruct (bool_decide (p = [])); cbn [negb]; [by destruct (received_close_notify c)|]. unfold peek_plain, mbind, act_bind. by rewrite (slice_contents _ _ _ Hp).
Qed.

Lemma consume_reads base a t c p n : reads base a t c → plain_holds p c → n ≤ length p → ∃ b, reader_consume n c = (set_plain b c, Ok tt) ∧ reads base a (t ++ take n p) (set_plain b c).
Proof.
  intros (H1 & H2 & H3 & wire & q & frags & k & p' & H4 & H5 & H6 & H7 & H8 & H9) Hp Hn. assert (p' = p) as ->.
  { destruct H6 as [(_ & _ & <-) _], Hp as [(_ & _ & <-) _]. done. }
  destruct Hp as [Hp Hr]. destruct (consume_holds _ _ _ n Hp Hn) as (b & Eb & Hb & Hrb). exists b. unfold reader_consume. rewrite (act_bind_ok get _ c c c eq_refl), (holds_len _ _ _ Hp).
  unfold on_plain. rewrite Nat.min_l, Eb by done. split; [done|]. split_and!; [done..|]. exists wire, q, frags, k, (drop n p).
  assert (plain_holds (drop n p) (set_plain b c)) as Hp' by (split; [exact Hb|]; intros Hd; cbn [plaintext_read_buf set_plain]; by rewrite Hrb, Hd).
  split_and!; try done; try apply Hp'. by rewrite <- app_assoc, take_drop.
Qed.
End reading.

(** ** Writing *)
Definition alert_fragment : byte * bytes := (CONTENT_TYPE_ALERT, [x01; x00]).

Section writing.
Context `{CryptoLaws} (key : AeadKey) (iv : bytes).
Hypothesis Hiv : length iv = 12.

(** What was [sent] and what is ready to be, behind [base], is records that open from
    number 0; their application data, and what waits to be encrypted, is what was [given].
    Once the stream is [closed] nothing waits, and the last record is the alert, unless
    no record could be sealed any more. *)
Definition writes (base sent given : bytes) (closed : bool) (c : Connection) : Prop :=
  handshake_state c = Complete ∧ app_write_key c = Some key ∧ app_write_iv c = Some iv ∧ in_u 64 (write_seq c) ∧ ∃ wire apps ends,
  sent ++ ciphertext_write_buf c = base ++ wire ∧ opens suite_aead key iv 0 (apps ++ ends) (write_seq c) wire ∧ app_fragments apps ∧
  app_payload apps ++ plaintext_write_buf c = given ∧
  if closed then plaintext_write_buf c = [] ∧ (ends = [alert_fragment] ∨ ends = [] ∧ (seals suite_aead key → write_seq c = u64_max)) else ends = [].

Lemma writes_same_out base s g closed c c' : writes base s g closed c → same_out c c' → writes base s g closed c'.
Proof.
  intros (H1 & H2 & H3 & H4 & wire & apps & ends & H5 & H6 & H7 & H8 & H9) ((F1 & F2 & F3 & F4 & F5) & F6 & _).
  unfold writes. rewrite F1, F2, F3, F4, F5, F6. split_and!; [done..|]. by exists wire, apps, ends.
Qed.

(** Nothing that fails to be sealed looks like a transport that is not ready. *)
Lemma sealing_errors l s s' e : encrypt_app_data suite_aead key iv l s = (s', Err e) → kind e ≠ WouldBlock.
Proof.
  assert (∀ buf s s' e, seal_record suite_aead key iv buf s = (s', Err e) → kind e ≠ WouldBlock) as Hr.
  { intros buf s0 s1 e1. unfold seal_record, debug_assert, seal_in_place, make_nonce, next_seq, mbind, act_bind, outcome_bind, lift, modify. destruct (_ <=? _); [|done].
    destruct (negb _); [by intros [= _ <-]|]. destruct (seal _ _ _ _); cbn [ok_or]; [|by intros [= _ <-]]. destruct (_ =? _)%Z; by intros [= _ <-]. }
  unfold encrypt_app_data. destruct (bool_decide _); [done|]. destruct (_ <=? _); [apply Hr|]. unfold encrypt_fragmented. generalize (plaintext_chunks l). intros cs. revert s.
  induction cs as [|c cs IH]; intros s; [done|]. cbn [encrypt_each]. intros [(s1 & [] & _ & E1)|[(e1 & E1 & [= ->])|[_ ?]]]%act_bind_cases; [by eapply IH|by eapply Hr|done].
Qed.

Lemma encrypt_writes base s g closed c c' r : writes base s g closed c → encrypt_pending c = (c', r) →
  match r with Ok _ => writes base s g closed c' ∧ plaintext_write_buf c' = [] | Err e => kind e ≠ WouldBlock | Panic => False end.
Proof.
  intros Hc. pose proof Hc as (H1 & H2 & H3 & H4 & wire & apps & ends & H5 & H6 & H7 & H8 & H9). unfold encrypt_pending. rewrite (act_bind_ok get _ c c c eq_refl).
  unfold is_handshaking. rewrite H1. destruct (bool_decide_reflect (plaintext_write_buf c = [])) as [Hn|Hn]; cbn [negb]; [by intros [= <- <-]|].
  destruct closed; [by destruct H9|]. subst ends. rewrite app_nil_r in H6. intros Hx.
  assert (∀ x : io unit, app_encryptor (λ key iv, encrypt_app_data suite_aead key iv (plaintext_write_buf c)) x c =
    let '(e, r) := encrypt_app_data suite_aead key iv (plaintext_write_buf c) {| seq := write_seq c; out := ciphertext_write_buf c |} in (set_outgoing (out e) (seq e) c, r)) as Happ.
  { intros x. unfold app_encryptor, mbind, act_bind, get. by rewrite H2, H3. }
  unfold mbind, act_bind in Hx. rewrite Happ in Hx. destruct (encrypt_app_data _ _ _ _ _) as [e r1] eqn:E1. pose proof E1 as Hs.
  apply (item_sends suite_aead key iv (λ s, suite_laws s) Hiv (AppData (plaintext_write_buf c))) in Hs as (a & b & w & Ef & Ho & Hop & Hsq & Hu & Hr); [|done].
  destruct r1 as [[]|e1|]; [|injection Hx as <- <-; by eapply sealing_errors|done]. injection Hx as <- <-. subst b. rewrite app_nil_r in Ef. subst a. cbn [out seq] in *. split; [|done].
  split_and!; try done. exists (wire ++ w), (apps ++ fragments (AppData (plaintext_write_buf c))), []. cbn [ciphertext_write_buf set_outgoing set_pending plaintext_write_buf write_seq]. rewrite !app_nil_r. split_and!.
  - by rewrite Ho, !app_assoc, H5.
  - by eapply opens_app.
  - apply Forall_app. split; [done|]. apply Forall_fmap, Forall_forall. done.
  - rewrite app_payload_app. cbn [fragments]. by rewrite app_payload_chunks.
  - done.
Qed.

(** One write to the transport *)
Lemma write_out_writes base g closed t c t' c' r : writes base (tcp_sent t) g closed c → write_out (t, c) = ((t', c'), r) →
  writes base (tcp_sent t') g closed c' ∧ received t' = received t ∧ same_in c c' ∧ plaintext_write_buf c' = plaintext_write_buf c ∧
  match r with Ok n => writes_left t' < writes_left t ∧ n ≤ length (ciphertext_write_buf c) | Err _ => True | Panic => False end.
Proof.
  intros Hc. unfold write_out, SyncWriteAdapter_write, ready_or_block, tcp_poll_write, drain, mbind, act_bind, lift, get, modify, mret, act_ret.
  assert (∀ c1 t1, c1 = c → tcp_sent t1 = tcp_sent t → writes base (tcp_sent t1) g closed c1) as Hsame by by intros ? ? -> ->.
  destruct (accepts t) as [|[n|e|] a] eqn:Ea; try (intros [= <- <- <-]; split; [apply Hsame; [done|cbn; by rewrite ?app_nil_r]|split_and!; done]).
  cbv beta iota. rewrite (proj2 (Nat.leb_le (n `min` length (ciphertext_write_buf c)) (length (ciphertext_write_buf c)))) by lia. intros [= <- <- <-]. cbn [tcp_sent received].
  split; [|split_and!; try done; unfold writes_left; cbn; rewrite ?Ea; cbn; lia].
  destruct Hc as (H1 & H2 & H3 & H4 & wire & apps & ends & H5 & H6 & H7 & H8 & H9). split_and!; [done..|]. exists wire, apps, ends. cbn [ciphertext_write_buf set_outgoing]. split_and!; try done.
  rewrite <- H5, <- app_assoc. f_equal. destruct (Nat.le_gt_cases n (length (ciphertext_write_buf c))) as [Hn|Hn].
  - rewrite Nat.min_l by done. apply take_drop.
  - rewrite Nat.min_r, drop_all, app_nil_r by lia. apply take_ge. lia.
Qed.
Lemma given_writes base s g c l : writes base s g false c → writes base s (g ++ l) false (set_pending (plaintext_write_buf c ++ l) c).
Proof.
  intros (H1 & H2 & H3 & H4 & wire & apps & ends & H5 & H6 & H7 & H8 & H9). split_and!; [done..|]. exists wire, apps, ends. split_and!; try done. cbn [plaintext_write_buf set_pending]. by rewrite app_assoc, H8.
Qed.

Lemma close_writes base s g c c' r : writes base s g false c → plaintext_write_buf c = [] → send_close_notify c = (c', r) → r = Ok tt ∧ writes base s g true c'.
Proof.
  intros (H1 & H2 & H3 & H4 & wire & apps & ends & H5 & H6 & H7 & H8 & ->) Hn. rewrite app_nil_r in H6. unfold send_close_notify, is_handshaking, app_encryptor, mbind, act_bind, get. rewrite H1, H2, H3.
  destruct (encrypt_close_notify _ _ _ _) as [e r1] eqn:E1. apply (item_sends suite_aead key iv (λ s, suite_laws s) Hiv RealityRecords.CloseNotify) in E1 as (a & b & w & Ef & Ho & Hop & Hsq & Hu & Hr); [|done].
  cbn [fragments out seq] in *. assert (∀ ends, a = ends → (ends = [alert_fragment] ∨ ends = [] ∧ (seals suite_aead key → seq e = u64_max)) → writes base s g true (set_outgoing (out e) (seq e) c)) as Hw.
  { intros ends <- He. split_and!; try done. exists (wire ++ w), apps, a. cbn [ciphertext_write_buf set_outgoing plaintext_write_buf write_seq]. rewrite Ho, !app_assoc, H5. split_and!; try done. by eapply opens_app. }
  destruct r1 as [x|e1|]; [intros [= <- <-]; split; [done|]|intros [= <- <-]; split; [done|]|done].
  - subst b. rewrite app_nil_r in Ef. apply (Hw [alert_fragment]); [done|by left].
  - destruct Hr as [Hb Hse]. apply (Hw []); [|by right]. destruct a as [|x a]; [done|]. apply (f_equal length) in Ef. cbn [length app] in Ef. rewrite length_app in Ef. destruct b; [done|cbn in Ef; lia].
Qed.
End writing.

(** ** The stream *)
Section duplex.
Context `{CryptoLaws} (rkey wkey : AeadKey) (riv wiv : bytes) (base_in base_out : bytes).
Hypothesis Hwiv : length wiv = 12.

Definition duplex (taken given : bytes) (s : RealityStream) : Prop :=
  reads rkey riv base_in (received (tcp s)) taken (conn s) ∧
  writes wkey wiv base_out (tcp_sent (tcp s)) given (negb (writeable (mode s))) (conn s).

Abbreviation any := (λ _ : RealityStream, True).

Lemma direct_ok k taken given m : triple (λ s, (duplex taken given s ∧ mode s = m) ∧ writes_left (tcp s) = k) write_tls_direct
  (λ o s, (duplex taken given s ∧ mode s = m) ∧ (o ≠ None → writes_left (tcp s) < k)) any.
Proof.
  intros [[t c] m0 f] s' r [[[Hr Hw] Hm] Hk]. cbn [mode] in Hm. subst m0. unfold write_tls_direct, on_link, link_write_tls_direct, block_is_pending, link_write_tls. cbn [link].
  destruct ((_ ← on_snd encrypt_pending; write_out) (t, c)) as [[t' c'] r'] eqn:E. unfold tcp, conn in *. cbn [link fst snd mode] in *.
  apply act_bind_cases in E as [([t1 c1] & [] & E1 & E2)|[(e & E1 & ->)|[E1 ->]]]; cbn [on_snd] in E1; destruct (encrypt_pending c) as [c2 r2] eqn:Ee; injection E1 as <- <- ->;
    pose proof (encrypt_writes _ _ Hwiv _ _ _ _ _ _ _ Hw Ee) as Hx; pose proof (encrypt_pending_in _ _ _ Ee) as Hin; [|intros [= <- <-]; by rewrite (bool_decide_eq_false_2 _ Hx)|done].
  destruct Hx as [Hw1 Hn]. destruct (write_out_writes wkey wiv Hwiv base_out given _ t c2 t' c' r' Hw1 E2) as (Hw2 & Hrc & Hin2 & Hn2 & Hres).
  assert (reads rkey riv base_in (received t') taken c') as Hr2 by (rewrite Hrc; eapply reads_same_in; [|exact Hin2]; by eapply reads_same_in).
  destruct r' as [n|e|]; [|destruct (bool_decide _)|done]; intros [= <- <-]; [|by split_and!|done]. split; [by split_and!|]. intros _. unfold tcp. cbn [link fst]. lia.
Qed.

Lemma note_flush_ok k taken given m : triple (λ s, (duplex taken given s ∧ mode s = m) ∧ writes_left (tcp s) < k) note_flush (λ _ s, (duplex taken given s ∧ mode s = m) ∧ writes_left (tcp s) < k) any.
Proof. by apply triple_modify. Qed.

(** All of the loops that write: they end, and when they were not held up nothing is left. *)
Lemma write_loop_ok each zero taken given m (stuck : Prop) :
  (∀ k, triple (λ s, (duplex taken given s ∧ mode s = m) ∧ writes_left (tcp s) < k) each (λ _ s, (duplex taken given s ∧ mode s = m) ∧ writes_left (tcp s) < k) any) →
  triple (λ s, duplex taken given s ∧ mode s = m) zero (λ o s, (duplex taken given s ∧ mode s = m) ∧ (o = Some tt → stuck)) any →
  triple (λ s, duplex taken given s ∧ mode s = m) (write_loop each zero) (λ o s, (duplex taken given s ∧ mode s = m) ∧ (o = Some tt → wants_write (conn s) = false ∨ stuck)) any.
Proof.
  intros He Hz. unfold write_loop. apply triple_get. intros s0 H0.
  eapply triple_conseq; [apply (while_rule stream_wants_write write_tls_direct each zero (λ s, duplex taken given s ∧ mode s = m) any (λ s, writes_left (tcp s))
    (λ o s, (duplex taken given s ∧ mode s = m) ∧ (o = Some tt → wants_write (conn s) = false ∨ stuck)) (S (writes_left (tcp s0))))|intros s [-> _]; split; [done|lia]|done|done].
  - intros k. apply direct_ok.
  - exact He.
  - eapply triple_conseq; [exact Hz|done| |done]. intros o s [Hs Ho]. split; [done|]. intros E. right. by apply Ho.
  - intros s Hs. by split.
  - intros s Hs Hd. split; [done|]. by left.
Qed.

Lemma drain_all_ok taken given m : triple (λ s, duplex taken given s ∧ mode s = m) drain_all_writes (λ _ s, duplex taken given s ∧ mode s = m) any.
Proof.
  eapply triple_conseq; [apply (write_loop_ok note_flush (mret (Some tt)) taken given m True)|done|by intros o s [Hs _]|done]; [intros k; apply note_flush_ok|].
  by apply triple_ret.
Qed.
(** It is the connection, what came and went, and the mode that count. *)
Lemma duplex_same taken given m s s' : conn s' = conn s → received (tcp s') = received (tcp s) → tcp_sent (tcp s') = tcp_sent (tcp s) → mode s' = mode s →
  duplex taken given s ∧ mode s = m → duplex taken given s' ∧ mode s' = m.
Proof. unfold duplex. by intros -> -> -> ->. Qed.

Lemma on_tcp_same {A} (p : polls Transport A) taken given m s s' r : (∀ t t' r, p t = (t', r) → received t' = received t ∧ tcp_sent t' = tcp_sent t ∧ no_panic r) →
  duplex taken given s ∧ mode s = m → on_tcp p s = (s', r) → (duplex taken given s' ∧ mode s' = m) ∧ conn s' = conn s ∧ no_panic r.
Proof.
  intros Hp Hs. unfold on_tcp, on_link, on_fst. destruct s as [[t c] m0 f]. cbn [link]. destruct (p t) as [t' r'] eqn:E. apply Hp in E as (E1 & E2 & E3). intros [= <- <-].
  split; [|by split]. by eapply (duplex_same taken given m); [..|exact Hs].
Qed.

Lemma tcp_poll_flush_same t t' r : tcp_poll_flush t = (t', r) → received t' = received t ∧ tcp_sent t' = tcp_sent t ∧ no_panic r.
Proof. unfold tcp_poll_flush. destruct (flushes t) as [|[x|e|] fs]; by intros [= <- <-]. Qed.

Lemma tcp_poll_shutdown_same t t' r : tcp_poll_shutdown t = (t', r) → received t' = received t ∧ tcp_sent t' = tcp_sent t ∧ no_panic r.
Proof. unfold tcp_poll_shutdown. destruct (closes t) as [|[x|e|] fs]; by intros [= <- <-]. Qed.

Lemma wants_nothing c : wants_write c = false → ciphertext_write_buf c = [] ∧ plaintext_write_buf c = [].
Proof. unfold wants_write. by destruct (bool_decide_reflect (ciphertext_write_buf c = [])), (bool_decide_reflect (plaintext_write_buf c = [])). Qed.

Lemma on_conn_run {A} (m : io A) c' a s : m (conn s) = (c', Ok a) → on_conn m s = ({| link := (tcp s, c'); mode := mode s; need_flush := need_flush s |}, Ok a).
Proof. intros E. unfold on_conn, on_link, on_snd, tcp, conn in *. destruct (link s) as [t c]. cbn in *. by rewrite E. Qed.

(** A write takes all that it is given. *)
Lemma poll_write_ok taken given m l : writeable m = true →
  triple (λ s, duplex taken given s ∧ mode s = m) (poll_write l) (λ o s, o = Some (length l) ∧ duplex taken (given ++ l) s ∧ mode s = m) any.
Proof.
  intros Hm. unfold poll_write. apply triple_get. intros s0 [H0 H0m]. rewrite H0m, Hm. cbn [negb poll_write_loop]. destruct (Nat.ltb_spec 0 (length l)) as [Hl|Hl].
  2: { destruct l; [|cbn in Hl; lia]. apply triple_ret. intros s [-> [Hs Hsm]]. by rewrite app_nil_r. }
  eapply triple_bind; [apply (triple_at _ _ _ (λ w s, (duplex taken (given ++ l) s ∧ mode s = m) ∧ w = length l))|].
  { intros s [-> _] x s' r -> E. rewrite (on_conn_run (writer_write (drop 0 l)) (set_pending (plaintext_write_buf (conn s0) ++ l) (conn s0)) (length l)) in E by by rewrite drop_0.
    injection E as <- <-. unfold duplex, tcp, conn in *. cbn [link fst snd mode]. destruct H0 as [Hr Hw]. rewrite H0m, Hm in Hw. cbn [negb] in *. split; [|done]. split; [|done]. split; [eapply reads_same_in; [exact Hr|done]|]. rewrite H0m, Hm. by apply given_writes. }
  intros w. intros s s' r [Hs ->]. revert s s' r Hs. rewrite Nat.add_0_l. apply triple_bind with (R := λ o s, (duplex taken (given ++ l) s ∧ mode s = m)).
  { eapply triple_conseq; [apply (write_loop_ok note_flush (mret None) taken (given ++ l) m True)|done|by intros o s [Hs _]|done]; [intros k; apply note_flush_ok|by apply triple_ret]. }
  intros [u|].
  - destruct (Nat.ltb_spec (length l) (length l)); [lia|]. by apply triple_ret.
  - eapply triple_bind; [by apply (triple_modify _ _ _ (λ s, duplex taken (given ++ l) s ∧ mode s = m))|]. intros []. destruct (Nat.eqb_spec (length l) 0); [lia|]. by apply triple_ret.
Qed.

(** A flush that is done has written everything. *)
Lemma poll_flush_ok taken given m : triple (λ s, duplex taken given s ∧ mode s = m) poll_flush
  (λ o s, (duplex taken given s ∧ mode s = m) ∧ (o = Some tt → wants_write (conn s) = false)) any.
Proof.
  unfold poll_flush, poll_bind. eapply triple_bind; [apply (write_loop_ok note_flush write_zero taken given m False); [intros k; apply note_flush_ok|by apply triple_fail]|].
  intros [u|]; [|apply triple_ret; intros s [Hs _]; by split]. destruct u. apply triple_get. intros s0 [H0 Hd]. destruct (Hd eq_refl) as [Hd0|[]]. destruct (need_flush s0).
  - eapply (triple_bind _ _ _ _ (λ _ s, (duplex taken given s ∧ mode s = m) ∧ wants_write (conn s) = false)).
    + intros s s' r [-> _] E. destruct (on_tcp_same _ _ _ _ _ _ _ tcp_poll_flush_same H0 E) as (Hs & Hc & Hr). destruct r; [|done..]. split; [done|]. by rewrite Hc.
    + intros [u|]; [|apply triple_ret; intros s [Hs _]; by split]. eapply triple_bind; [by apply (triple_modify _ _ _ (λ s, (duplex taken given s ∧ mode s = m) ∧ wants_write (conn s) = false))|]. intros []. apply triple_ret. intros s [Hs Hn]. by split.
  - apply triple_ret. intros s [-> Hs]. by split.
Qed.

(** A shutdown that is done has written everything, and then the alert. *)
Lemma poll_shutdown_ok taken given m : triple (λ s, duplex taken given s ∧ mode s = m) poll_shutdown
  (λ o s, duplex taken given s ∧ (mode s = m ∨ mode s = shutdown_write m) ∧ (o = Some tt → wants_write (conn s) = false ∧ writeable (mode s) = false)) any.
Proof.
  unfold poll_shutdown, poll_bind. eapply triple_bind; [apply (write_loop_ok (mret tt) write_zero taken given m False); [intros k; by apply triple_ret|by apply triple_fail]|].
  intros [u|]; [|apply triple_ret; intros s [[Hs Hm] _]; split_and!; by try left]. destruct u. apply triple_get. intros s0 [[H0 H0m] Hd]. destruct (Hd eq_refl) as [Hd0|[]]. apply wants_nothing in Hd0 as [_ Hn0].
  set (m' := if writeable m then shutdown_write m else m). assert (writeable m' = false) as Hm' by (unfold m'; by destruct m).
  assert (m' = m ∨ m' = shutdown_write m) as Hor by (unfold m'; destruct (writeable m); auto).
  eapply (triple_bind _ _ _ _ (λ _ s, duplex taken given s ∧ mode s = m')).
  { rewrite H0m. destruct (writeable m) eqn:Hwm; [|apply triple_ret; by intros s [-> _]].
    intros s s' r [-> _] E. destruct H0 as [Hr Hw]. rewrite H0m, Hwm in Hw. destruct (send_close_notify (conn s0)) as [c1 r1] eqn:Ec. destruct (close_writes _ _ Hwiv _ _ _ _ _ _ Hw Hn0 Ec) as [-> Hw1]. pose proof Ec as Ec'.
    apply close_notify_in in Ec. unfold mbind, act_bind in E. rewrite (on_conn_run send_close_notify c1 tt s0 Ec') in E. injection E as <- <-.
    unfold duplex, tcp, conn in *. cbn [link fst snd mode set_mode]. subst m'. rewrite H0m, Hm'. split_and!; [by eapply reads_same_in|done..]. }
  intros []. eapply triple_bind; [apply (write_loop_ok (mret tt) write_zero taken given m' False); [intros k; by apply triple_ret|by apply triple_fail]|].
  intros [u|]; [|apply triple_ret; intros s [[Hs ->] _]; split_and!; done]. destruct u. intros s s' r [[Hs Hsm] Hd1]. destruct (Hd1 eq_refl) as [Hd2|[]].
  destruct (on_tcp tcp_poll_shutdown s) as [s1 r1] eqn:E. destruct (on_tcp_same _ _ _ _ _ _ _ tcp_poll_shutdown_same (conj Hs Hsm) E) as ([Hs1 Hm1] & Hc & Hr).
  assert (∀ o, duplex taken given s1 ∧ (mode s1 = m ∨ mode s1 = shutdown_write m) ∧ (o = Some tt → wants_write (conn s1) = false ∧ writeable (mode s1) = false)) as Hok by by rewrite Hc, Hm1.
  destruct r1 as [o|e|]; [|destruct (bool_decide _)|done]; intros [= <- <-]; by try apply Hok.
Qed.
(** What the connection does on its own while it reads *)
Lemma on_conn_reads {A} (m : io A) taken taken' given md : (∀ c c' r, reads rkey riv base_in c.1 taken c.2 → m c.2 = (c', r) → no_panic r → reads rkey riv base_in c.1 taken' c' ∧ same_out c.2 c') →
  ptriple (λ s, duplex taken given s ∧ mode s = md) (on_conn m) (λ _ s, duplex taken' given s ∧ mode s = md) (λ s, duplex taken' given s ∧ mode s = md).
Proof.
  intros Hm s s' r [[Hr Hw] Hmd]. unfold on_conn, on_link, on_snd, duplex, tcp, conn in *. destruct s as [[t c] m0 f]. cbn [link fst snd mode] in *. destruct (m c) as [c1 r1] eqn:E.
  intros [= <- <-]. cbn [link fst snd mode]. assert (no_panic r1 → (reads rkey riv base_in (received t) taken' c1 ∧ writes wkey wiv base_out (tcp_sent t) given (negb (writeable m0)) c1) ∧ m0 = md) as Hgo.
  { intros Hnp. destruct (Hm (received t, c) c1 r1 Hr E Hnp) as [Hr1 Ho]. split_and!; try done; try apply Hr1; by eapply writes_same_out. }
  destruct r1; [by apply Hgo|by apply Hgo|done].
Qed.

Lemma process_step taken given md :
  ptriple (λ s, duplex taken given s ∧ mode s = md) (on_conn process_new_packets) (λ _ s, duplex taken given s ∧ mode s = md) (λ s, duplex taken given s ∧ mode s = md).
Proof. apply on_conn_reads. intros [a c] c' r Hr E Hnp. cbn [fst snd] in *. split; [by eapply process_reads|]. eapply process_out; [|exact E]. apply Hr. Qed.

Lemma stream_read_ok taken given md : ptriple (λ s, duplex taken given s ∧ mode s = md) stream_read_tls (λ _ s, duplex taken given s ∧ mode s = md) any.
Proof.
  intros s s' r [[Hr Hw] Hmd]. unfold stream_read_tls, on_link, block_is_pending, link_read_tls, duplex, tcp, conn in *. destruct s as [[t c] m0 f]. cbn [link fst snd mode] in *.
  destruct (SyncReadAdapter_read TLS_MAX_RECORD_SIZE t) as [t' d] eqn:Et. destruct (read_tls d c) as [c' n] eqn:Ec. intros E.
  assert (received t' = received t ++ match d with Ok l => l | _ => [] end ∧ tcp_sent t' = tcp_sent t) as [Ercv Esent].
  { unfold SyncReadAdapter_read, ready_or_block, tcp_poll_read, mbind, act_bind, fail in Et. destruct (incoming t) as [|[l|e|] i]; [|destruct (_ <=? _)|..]; injection Et as <- <-; cbn; by rewrite ?app_nil_r. }
  pose proof (read_tls_out d _ _ _ Ec) as Ho. assert (no_panic n → reads rkey riv base_in (received t') taken c' ∧ writes wkey wiv base_out (tcp_sent t') given (negb (writeable m0)) c') as Hgo.
  { intros Hnp. rewrite Ercv, Esent. split; [by eapply read_tls_reads|by eapply writes_same_out]. }
  destruct n as [n|e|]; [|destruct (bool_decide _)|]; injection E as <- <-; try done; cbn [link fst snd mode]; split; try done; by apply Hgo.
Qed.

Lemma process_or_drain_ok taken given md : ptriple (λ s, duplex taken given s ∧ mode s = md) process_or_drain (λ _ s, duplex taken given s ∧ mode s = md) any.
Proof.
  intros s s' r Hs. unfold process_or_drain. destruct (on_conn process_new_packets s) as [s1 r1] eqn:E. apply (process_step taken given md) in E; [|done].
  destruct r1 as [n|e|]; [by intros [= <- <-]| |by intros [= <- <-]]. intros [(s2 & a & _ & [= <- <-])|[(e1 & _ & ->)|[_ ->]]]%act_bind_cases; done.
Qed.

Lemma read_loop_ok fuel taken given md : ptriple (λ s, duplex taken given s ∧ mode s = md) (read_loop fuel) (λ _ s, duplex taken given s ∧ mode s = md) any.
Proof.
  induction fuel as [|fuel IH]; [by intros s s' r _ [= <- <-]|]. cbn [read_loop]. apply ptriple_get. intros s0. destruct (_ && _); [|apply ptriple_ret; by intros s [_ Hs]].
  eapply ptriple_bind; [eapply ptriple_conseq; [apply (stream_read_ok taken given md)|by intros s [_ Hs]|intros o s Hs; exact Hs|done]|].
  intros [[|n]|]; [by apply ptriple_ret| |by apply ptriple_ret]. eapply ptriple_bind; [apply process_or_drain_ok|]. intros []. apply IH.
Qed.

Lemma shutdown_read_ok taken given md s : duplex taken given s ∧ mode s = md → duplex taken given (set_mode shutdown_read s) ∧ writeable (mode (set_mode shutdown_read s)) = writeable md.
Proof.
  intros [[Hr Hw] Hm]. assert (writeable (mode (set_mode shutdown_read s)) = writeable (mode s)) as Hw' by by destruct s as [l [] f]. rewrite <- Hm. split; [|done]. split; [done|]. by rewrite Hw'.
Qed.

(** What is read is what has been opened, in order. *)
Lemma poll_read_ok taken given md room : ptriple (λ s, duplex taken given s ∧ mode s = md) (poll_read room)
  (λ o s, duplex (taken ++ default [] o) given s ∧ writeable (mode s) = writeable md) any.
Proof.
  set (Q := λ (o : option bytes) s, duplex (taken ++ default [] o) given s ∧ writeable (mode s) = writeable md). change (ptriple (λ s, duplex taken given s ∧ mode s = md) (poll_read room) Q any).
  assert (∀ s o, default [] o = [] → duplex taken given s ∧ mode s = md → Q o s) as Hnone by (intros s o Ho [Hs <-]; unfold Q; by rewrite Ho, app_nil_r).
  assert (∀ P : RealityStream → Prop, (∀ s, P s → duplex taken given s ∧ mode s = md) → ptriple P (_ ← modify (set_mode shutdown_read); mret (Some []) : polls RealityStream bytes) Q any) as Hshut.
  { intros P HP s s' r Hs [= <- <-]. unfold Q. rewrite app_nil_r. by apply (shutdown_read_ok taken given md), HP. }
  unfold poll_read. apply ptriple_get. intros s0. destruct (negb _); [apply ptriple_ret; intros s [_ Hs]; by apply Hnone|].
  eapply ptriple_bind; [eapply ptriple_conseq; [apply (read_loop_ok _ taken given md)|by intros s [_ Hs]|intros o s Hs; exact Hs|done]|]. intros [io_pending eof].
  eapply (ptriple_bind _ _ _ _ (λ _ s, (duplex taken given s ∧ mode s = md) ∧ ∃ p, plain_holds p (conn s))).
  { intros s s' r [Hs Hm] E. pose proof Hs as [Hr _]. destruct (reader_reads _ _ _ _ _ _ Hr) as (b & p & Eb & Hp & _). rewrite (on_conn_run _ _ _ _ Eb) in E. injection E as <- <-. split; [|by exists p].
    split; [|done]. destruct Hs as [_ Hw]. split; [|by eapply writes_same_out]. cbn. destruct (reader_reads _ _ _ _ _ _ Hr) as (b2 & p2 & Eb2 & _ & Hr2). rewrite Eb in Eb2. by injection Eb2 as ->. }
  intros []. eapply (ptriple_bind _ _ _ _ (λ f s, (duplex taken given s ∧ mode s = md) ∧ match f with Available [] => True | Available p => plain_holds p (conn s) | NothingYet => True end)).
  { intros s s' r [Hs [p Hp]] E. rewrite (on_conn_run fill_buf (conn s) _ s (fill_buf_holds _ p Hp)) in E. injection E as <- <-. destruct s as [[t c] m0 f]. cbn in *. split; [done|]. destruct (bool_decide_reflect (p = [])); [by destruct (received_close_notify c)|by destruct p]. }
  intros [[|x l]|]; [by apply Hshut; intros s [Hs _]| |].
  - set (av := x :: l). set (n := room `min` length av). intros s s' r [[[Hr Hw] Hm] Hp]. destruct (consume_reads rkey riv _ _ _ _ av n Hr Hp) as (b & Eb & Hr'); [lia|].
    rewrite (act_bind_ok _ _ _ _ _ (on_conn_run _ _ _ _ Eb)). intros [= <- <-]. split; [|cbn; by rewrite Hm]. split; [exact Hr'|]. by eapply writes_same_out.
  - destruct eof; [by apply Hshut; intros s [Hs _]|]. destruct io_pending; [apply ptriple_ret; intros s [Hs _]; by apply Hnone|].
    unfold poll_more_ciphertext. eapply ptriple_bind; [eapply ptriple_conseq; [apply (stream_read_ok taken given md)|by intros s [Hs _]|intros o s Hs; exact Hs|done]|].
    intros [[|n]|]; [by apply Hshut| |apply ptriple_ret; intros s Hs; by apply Hnone].
    eapply (ptriple_bind _ _ _ _ (λ _ s, duplex taken given s ∧ mode s = md)); [|intros []; apply ptriple_ret; intros s Hs; by apply Hnone].
    intros s s' r Hs. unfold ignore. destruct (on_conn process_new_packets s) as [s1 r1] eqn:E. apply (process_step taken given md) in E; [|done]. by destruct r1; intros [= <- <-].
Qed.
End duplex.
