(* ===== verification/RealityConnect.v ===== *)
(** * RealityConnect: what a connected Reality stream is

    The theorems on [connect_reality_with_io], and on everything that is done with the
    stream afterwards. *)
From Stdlib Require Import ZArith Lia Strings.Byte Ascii String.
From stdpp Require Import base list numbers option.
From S2P Require Import Prelude Wire SlideBuffer AeadStream TlsHello RealityRecords RealityMessages RealityKeys RealityClient RealitySession Transport RealityStream RealityDuplex.
Local Open Scope nat_scope.

(** ** What the handshake leaves alone *)

(** Bytes only leave the buffer at its front, nothing waits to be encrypted, and a
    handshake that is done starts to count from 0. *)
Definition suffix_held (c c' : Connection) : Prop := ∀ q, cipher_holds q c → ∃ a q', q = a ++ q' ∧ cipher_holds q' c'.
Definition from_zero (c : Connection) : Prop := is_handshaking c = false → read_seq c = 0%Z ∧ write_seq c = 0%Z.
Definition hs_rel (c c' : Connection) : Prop :=
  suffix_held c c' ∧ plaintext_write_buf c' = plaintext_write_buf c ∧ received_close_notify c' = received_close_notify c ∧ fatal_error c' = fatal_error c ∧
  (from_zero c → from_zero c').

#[export] Instance hs_rel_preorder : PreOrder hs_rel.
Proof.
  split.
  - intros c. split; [|by split_and!]. intros q Hq. by exists [], q.
  - intros a b c (H1 & H2 & H3 & H4 & H5) (G1 & G2 & G3 & G4 & G5). split; [|split_and!; [congruence..|auto]].
    intros q (x & q1 & -> & (y & q2 & -> & Hq)%G1)%H1. exists (x ++ y), q2. by rewrite app_assoc.
Qed.

Lemma suffix_same c c' : ciphertext_read_buf c' = ciphertext_read_buf c → suffix_held c c'.
Proof. intros E q Hq. exists [], q. split; [done|]. unfold cipher_holds. by rewrite E. Qed.

Lemma consume_Ok b cap q n b' : holds b cap q → SlideBuffer.consume b n = Ok b' → holds b' cap (drop n q).
Proof.
  intros Hb E. pose proof (exec_simulates b cap q (Consume n) Hb) as Hs. unfold simulates in Hs. cbn [exec spec] in Hs. rewrite E in Hs. cbn [mbind outcome_bind] in Hs.
  destruct (n <=? length q); [|by destruct Hs as (q' & r' & ? & _)]. by destruct Hs as (q' & r' & [= <- <-] & Hh & _).
Qed.

Section handshake.
Context `{Crypto}.

Lemma consume_hs n : always hs_rel (on_cipher (λ b, SlideBuffer.consume b n)).
Proof.
  intros c c' r. unfold on_cipher. destruct (SlideBuffer.consume _ n) as [b|e|] eqn:E; intros [= <- _]; [|reflexivity..].
  split; [|by split_and!]. intros q Hq. exists (take n q), (drop n q). split; [by rewrite take_drop|]. by eapply consume_Ok.
Qed.
Lemma peek_hs {A} (f : SlideBuffer → run A) : always hs_rel (peek f).
Proof. intros c c' r. unfold peek. destruct (f _); by intros [= <- _]. Qed.
Lemma with_encryptor_hs {A} n (m : act Encryptor IoError A) : always hs_rel (with_encryptor n m).
Proof. intros c c' r. unfold with_encryptor. destruct (m _). intros [= <- _]. split; [by apply suffix_same|by split_and!]. Qed.
Lemma set_processing_hs p : always hs_rel (modify (set_state (ProcessingHandshake p)) : io unit).
Proof. intros c c' r [= <- _]. split; [by apply suffix_same|by split_and!]. Qed.
Lemma set_keys_hs s rk ri wk wi : always hs_rel (modify (set_keys s rk ri wk wi) : io unit).
Proof. intros c c' r [= <- _]. split; [by apply suffix_same|by split_and!]. Qed.
#[local] Hint Resolve consume_hs peek_hs with_encryptor_hs set_processing_hs set_keys_hs : always.

Lemma next_record_len_hs : always hs_rel next_record_len.
Proof. unfold next_record_len, u16_or_short. frames. Qed.
#[local] Hint Resolve next_record_len_hs : always.

Lemma server_hello_hs h p a : always hs_rel (process_server_hello h p a).
Proof. unfold process_server_hello. frames. Qed.

Lemma finish_hs p acc s : always hs_rel (finish_handshake p acc s).
Proof. unfold finish_handshake. frames. Qed.
#[local] Hint Resolve finish_hs : always.

Lemma handshake_record_hs p k i n : always hs_rel (process_handshake_record p k i n).
Proof. unfold process_handshake_record. frames. Qed.
#[local] Hint Resolve handshake_record_hs : always.

Lemma encrypted_handshake_hs fuel p : always hs_rel (process_encrypted_handshake fuel p).
Proof. induction fuel as [|fuel IH]; cbn [process_encrypted_handshake]; unfold u16_or_short; frames. Qed.
End handshake.

(** ** The state while connecting *)
Section connecting.
Context `{CryptoLaws} (hello private auth : bytes).

(** Before the handshake is done, of what [arrived] the buffer holds the end, and no
    plaintext is there; afterwards, what came behind the handshake is read. *)
Definition hs (arrived : bytes) (c : Connection) : Prop :=
  session hello private auth c ∧ plaintext_write_buf c = [] ∧
  if is_handshaking c then fatal_error c = None ∧ received_close_notify c = false ∧ plain_holds [] c ∧ ∃ base q, arrived = base ++ q ∧ cipher_holds q c
  else write_seq c = 0%Z ∧ ∃ key iv base, reads key iv base arrived [] c.

(** A step of the handshake, whether or not it is the last one *)
Lemma hs_step arrived c c1 : hs arrived c → is_handshaking c = true → hs_rel c c1 → session hello private auth c1 → plaintext_read_buf c1 = plaintext_read_buf c → hs arrived c1.
Proof.
  intros (H1 & H2 & Hst) Hh (R1 & R2 & R3 & R4 & R5) Hs Hp. rewrite Hh in Hst. destruct Hst as (H3 & Hcl & Hpl & base & q & Ha & Hq). apply R1 in Hq as (x & q' & -> & Hq').
  unfold hs. rewrite R2, R3, R4. split_and!; try done. assert (plain_holds [] c1) as Hpl1 by (unfold plain_holds; by rewrite Hp).
  destruct (is_handshaking c1) eqn:Hh1; [split; [done|]; split; [done|]; split; [exact Hpl1|]; exists (base ++ x), q'; by rewrite Ha, app_assoc|].
  destruct R5 as [Hr Hw]; [by unfold from_zero; rewrite Hh|done|]. split; [done|]. pose proof (session_state _ _ _ _ Hs) as Hok. unfold state_ok in Hok. unfold is_handshaking in Hh1.
  destruct (handshake_state c1) eqn:Est; [done..|]. destruct Hok as (p & acc & der & pk & sig & cv & cs & ss & wk & wi & rk & ri & _ & _ & _ & _ & _ & _ & _ & _ & _ & Hk & Hi).
  exists {| key_suite := p_suite p; key_bytes := rk |}, ri, (base ++ x). split_and!; [done..|]. exists [], q', [], 0%Z, []. split_and!; try done; [by rewrite Ha, <- app_assoc|apply opens_nil|apply Hpl1..].
Qed.

Lemma inner_hs fuel arrived c c' n : hs arrived c → fatal_error c = None → received_close_notify c = false → process_new_packets_inner fuel c = (c', Ok n) → hs arrived c'.
Proof.
  revert c. induction fuel as [|fuel IH]; intros c Hc Hf Hcl; [done|]. destruct (is_handshaking c) eqn:Hh.
  - assert (∀ m : io bool, (triple (λ s, s = c) m (step_post hello private auth c) (step_error hello private auth)) → always hs_rel m →
      (more ← m; if (more : bool) then process_new_packets_inner fuel else (c ← get; mret (len (plaintext_read_buf c)))) c = (c', Ok n) → hs arrived c') as Hgo.
    { intros m Hm Hr (c1 & more & E & Hx)%act_bind_inv. pose proof (Hm _ _ _ eq_refl E) as [Hpl Hst]. pose proof (Hr _ _ _ E) as Hrel.
      assert (session hello private auth c1) as Hs1 by (destruct more; apply Hst). assert (hs arrived c1) as Hc1 by by eapply hs_step.
      destruct more; [|by injection Hx as <- _]. destruct Hrel as (_ & _ & E1 & E2 & _). apply (IH c1); [done|congruence..|done]. }
    pose proof Hc as (Hs & _). cbn [process_new_packets_inner]. rewrite (act_bind_ok get _ c c c eq_refl). pose proof (session_state _ _ _ _ Hs) as Hok. unfold state_ok in Hok. unfold is_handshaking in Hh.
    destruct (session_cipher _ _ _ _ Hs) as [q Hq]. destruct (handshake_state c) as [h p0 a|p|] eqn:Est; [| |done].
    + destruct Hok as (-> & -> & ->). apply Hgo; [by apply server_hello_step|apply server_hello_hs].
    + apply Hgo; [|apply encrypted_handshake_hs]. apply (encrypted_handshake_step _ _ _ _ p c q); [done..|]. rewrite (holds_len _ _ _ Hq). lia.
  - intros Hx. pose proof Hc as (Hs & Hn & Hst). rewrite Hh in Hst. destruct Hst as (Hw & key & iv & base & Hr). pose proof Hr as (Est & _).
    assert (process_new_packets c = (c', Ok n)) as Hp.
    { unfold process_new_packets. rewrite Hf, Hcl. cbn [process_new_packets_inner] in *. rewrite (act_bind_ok get _ c c c eq_refl), Est in Hx. rewrite (act_bind_ok get _ c c c eq_refl), Est. by rewrite Hx. }
    pose proof (process_out _ _ _ Est Hp) as ((F1 & F2 & F3 & F4 & F5) & F6 & F7 & F8). pose proof (process_reads _ _ _ _ _ _ _ _ Hr Hp ltac:(done)) as Hr'.
    unfold hs. split; [by eapply process_new_packets_ok|]. rewrite F5. split; [done|]. unfold is_handshaking in *. rewrite F6, Est, F3. split; [done|]. by exists key, iv, base.
Qed.
(** ** The transport while connecting *)
Definition same_received (t t' : Transport) : Prop := received t' = received t.
#[local] Instance same_received_preorder : PreOrder same_received.
Proof. split; [done|]. unfold same_received. congruence. Qed.

Lemma await_obeys {A} (R : Transport → Transport → Prop) `{!PreOrder R} fuel (p : polls Transport A) : obeys R p → obeys R (await fuel p).
Proof.
  intros Hp. induction fuel as [|fuel IH]; cbn [await]; (apply obeys_bind; [done|done|]); intros [a|]; by try apply obeys_ret.
Qed.

Lemma tcp_write_all_received l : obeys same_received (tcp_write_all l).
Proof.
  unfold tcp_write_all. apply obeys_bind; [typeclasses eauto|apply obeys_get; typeclasses eauto|intros t0]. generalize (S (writes_left t0)). intros fuel. revert l.
  assert (∀ l, obeys same_received (tcp_poll_write l)) as Hw. { intros l t t' r. unfold tcp_poll_write. destruct (accepts t) as [|[n|e|] a]; by intros [= <- <-]. }
  induction fuel as [|fuel IH]; intros l; cbn [write_all_loop]; [apply obeys_ret; typeclasses eauto|]. destruct (bool_decide _); [apply obeys_ret; typeclasses eauto|].
  apply obeys_bind; [typeclasses eauto|apply Hw|]. intros [[|n]|]; [apply obeys_fail; typeclasses eauto|apply IH..].
Qed.

Lemma tcp_flush_received : obeys same_received tcp_flush.
Proof.
  unfold tcp_flush. apply obeys_bind; [typeclasses eauto|apply obeys_get; typeclasses eauto|intros t0]. apply await_obeys; [typeclasses eauto|].
  intros t t' r E. by apply tcp_poll_flush_same in E as (E & _ & H').
Qed.

Lemma tcp_read_received n t t' r : tcp_read n t = (t', r) → received t' = received t ++ match r with Ok (Some l) => l | _ => [] end.
Proof.
  unfold tcp_read. rewrite (act_bind_ok get _ t t t eq_refl). generalize (length (incoming t)). intros fuel. revert t.
  assert (∀ t t' r, tcp_poll_read n t = (t', r) → received t' = received t ++ match r with Ok (Some l) => l | _ => [] end) as Hp.
  { intros u u' ru. unfold tcp_poll_read. destruct (incoming u) as [|[l|e|] i]; [|destruct (_ <=? _)|..]; intros [= <- <-]; cbn; by rewrite ?app_nil_r. }
  induction fuel as [|fuel IH]; intros t; cbn [await]; intros [(t1 & [l|] & E1 & E2)|[(e & E1 & ->)|[E1 ->]]]%act_bind_cases; apply Hp in E1.
  all: try (injection E2 as <- <-); try exact E1. rewrite app_nil_r in E1. rewrite <- E1. by apply IH.
Qed.

(** ** The turns of the handshake *)
Lemma encrypt_nothing c : plaintext_write_buf c = [] → encrypt_pending c = (c, Ok tt).
Proof. intros Hn. unfold encrypt_pending. rewrite (act_bind_ok get _ c c c eq_refl). destruct (is_handshaking c); [done|]. by rewrite bool_decide_eq_true_2. Qed.

Lemma to_vec c : plaintext_write_buf c = [] → write_tls_to_vec c = (set_outgoing [] (write_seq c) c, Ok (ciphertext_write_buf c)).
Proof.
  intros Hn. unfold write_tls_to_vec. rewrite (act_bind_ok _ _ _ _ _ (encrypt_nothing c Hn)), (act_bind_ok get _ c c c eq_refl).
  unfold drain, mbind, act_bind, get, lift, modify, mret, act_ret. rewrite Nat.leb_refl. by rewrite drop_all.
Qed.

Lemma hs_outgoing arrived l c : hs arrived c → hs arrived (set_outgoing l (write_seq c) c).
Proof.
  intros (H1 & H2 & H3). split; [by apply session_set_outgoing|]. split; [done|]. unfold is_handshaking in *. cbn. destruct (handshake_state c); try exact H3.
Qed.

Definition linked (l : Transport * Connection) : Prop := hs (received l.1) l.2.

Lemma write_session_ok b : triple (λ l, linked l ∧ is_handshaking l.2 = b) (write_session 2)
  (λ o l, linked l ∧ is_handshaking l.2 = b ∧ (o = Some tt → wants_write l.2 = false)) (λ _, True).
Proof.
  assert (∀ fuel, triple (λ l, (linked l ∧ is_handshaking l.2 = b) ∧ wants_write l.2 = false) (write_session (S fuel))
    (λ o l, linked l ∧ is_handshaking l.2 = b ∧ (o = Some tt → wants_write l.2 = false)) (λ _, True)) as Hdone.
  { intros fuel l l' r [[Hl Hb] Hw]. cbn [write_session]. rewrite (act_bind_ok get _ l l l eq_refl). destruct l as [t c]. cbn [snd] in Hw. rewrite Hw. intros [= <- <-]. by split_and!. }
  intros l l' r [Hl Hb]. cbn [write_session]. rewrite (act_bind_ok get _ l l l eq_refl). destruct l as [t c]. cbn [snd] in Hb. destruct (wants_write c) eqn:Ew; [|intros [= <- <-]; by split_and!].
  pose proof Hl as (_ & Hn & _). cbn [snd] in Hn. rewrite (act_bind_ok (on_snd write_tls_to_vec) _ _ (t, set_outgoing [] (write_seq c) c) (ciphertext_write_buf c)) by (unfold on_snd; by rewrite (to_vec c Hn)).
  assert (∀ t1, received t1 = received t → (linked (t1, set_outgoing [] (write_seq c) c) ∧ is_handshaking c = b) ∧ wants_write (set_outgoing [] (write_seq c) c) = false) as Hnext.
  { intros t1 Et. split; [split; [|done]|]; [unfold linked; cbn [fst snd]; rewrite Et; by apply hs_outgoing|]. unfold wants_write. cbn. by rewrite Hn. }
  destruct (negb _); [|by apply (Hdone 0 _ l' r (Hnext t eq_refl))]. unfold poll_bind.
  intros [(l1 & o & E1 & E2)|[(e & E1 & ->)|[E1 ->]]]%act_bind_cases; unfold on_fst in E1; destruct (tcp_write_all _ t) as [t1 r1] eqn:Et; injection E1 as <- ->; [|done|].
  - pose proof (tcp_write_all_received _ _ _ _ Et) as [Hr _]. destruct o as [u|]; [by apply (Hdone 0 _ l' r (Hnext t1 Hr))|]. injection E2 as <- <-. destruct (Hnext t1 Hr) as [[? ?] _]. by split_and!.
  - by apply tcp_write_all_received in Et as [_ Et].
Qed.

(** A flush changes nothing of the connection. *)
Lemma flush_link_ok (P : Connection → Prop) : triple (λ l, linked l ∧ P l.2) (on_fst tcp_flush) (λ _ l, linked l ∧ P l.2) (λ _, True).
Proof.
  intros [t c] l' r [Hl HP]. unfold on_fst. destruct (tcp_flush t) as [t1 r1] eqn:E. intros [= <- <-]. apply tcp_flush_received in E as [E Hn]. unfold same_received in E.
  destruct r1; [|done|done]. split; [|done]. unfold linked in *. cbn [fst snd] in *. by rewrite E.
Qed.

(** What is fed is held. *)
Lemma feed_holds fuel data c c' q : cipher_holds q c → feed_loop fuel data c = (c', Ok tt) → ∃ b, c' = set_cipher b c ∧ holds b CIPHERTEXT_READ_BUF_CAPACITY (q ++ data).
Proof.
  revert data c q. induction fuel as [|fuel IH]; intros data c q Hq; [done|]. cbn [feed_loop]. destruct data as [|x data]; [intros [= <-]; exists (ciphertext_read_buf c); rewrite app_nil_r; by destruct c|].
  set (l := x :: data). intros (c1 & n & E & Hx)%act_bind_inv. apply map_err_inv in E as (r0 & E & Er). destruct r0 as [n0|e|]; [|done..]. apply Ok_inj in Er. subst n0.
  unfold read_tls in E. rewrite (act_bind_ok get _ c c c eq_refl) in E.
  set (room := if _ <? _ then _ else _) in E. assert (∃ b, room c = (set_cipher b c, Ok tt) ∧ holds b CIPHERTEXT_READ_BUF_CAPACITY q) as (b & Hroom & Hb).
  { subst room. destruct (_ <? _); [destruct (compact_holds _ _ _ Hq) as (b & Eb & Hb & _); exists b; unfold on_cipher; by rewrite Eb|]. exists (ciphertext_read_buf c). by destruct c. }
  rewrite (act_bind_ok _ _ _ _ _ Hroom), (act_bind_ok (lift _) _ _ _ _ eq_refl) in E. set (p := take TLS_MAX_RECORD_SIZE l) in *.
  assert (∃ b, c1 = set_cipher b c ∧ holds b CIPHERTEXT_READ_BUF_CAPACITY (q ++ p) ∧ n = length p) as (b1 & -> & Hb1 & ->).
  { destruct (Nat.ltb_spec 0 (length p)) as [Hp|Hp].
    - unfold on_cipher, mbind, act_bind in E. cbn [ciphertext_read_buf set_cipher] in E. destruct (Nat.le_gt_cases (length p) (remaining_capacity b)) as [Hfit|Hfit]; [|by rewrite (extend_full _ _ _ _ Hb Hfit) in E].
      destruct (extend_holds _ _ _ _ Hb Hfit) as (b2 & Eb & Hb2 & _). rewrite Eb in E. injection E as <- <-. by exists b2.
    - injection E as <- <-. exists b. assert (p = []) as -> by (destruct p; [done|cbn in Hp; lia]). by rewrite app_nil_r. }
  destruct (IH (drop (length p) l) (set_cipher b1 c) (q ++ p) Hb1 Hx) as (b2 & -> & Hb2). exists b2. split; [done|]. rewrite <- app_assoc in Hb2.
  replace (p ++ drop (length p) l) with l in Hb2; [done|]. unfold p. rewrite length_take. destruct (Nat.le_gt_cases TLS_MAX_RECORD_SIZE (length l)).
  - by rewrite Nat.min_l, take_drop.
  - rewrite Nat.min_r, drop_all by lia. rewrite take_ge by lia. by rewrite app_nil_r.
Qed.

Lemma handshake_read_ok b eof : ptriple (λ l, linked l ∧ is_handshaking l.2 = b ∧ wants_write l.2 = false) (handshake_read eof)
  (λ _ l, linked l ∧ (b = false → is_handshaking l.2 = false ∧ wants_write l.2 = false)) (λ _, True).
Proof.
  intros [t c] l' r (Hl & Hb & Hw). unfold handshake_read. rewrite (act_bind_ok get _ _ _ _ eq_refl). cbn [snd] in *. destruct b; rewrite Hb; [|rewrite andb_false_r; cbn [andb]; intros [= <- <-]; by split_and!].
  destruct (_ && _); [|intros [= <- <-]; by split]. unfold poll_bind. intros [(l1 & o & E1 & E2)|[(e & E1 & ->)|[E1 ->]]]%act_bind_cases; [|done..].
  unfold on_fst in E1. destruct (tcp_read _ t) as [t1 r1] eqn:Et. injection E1 as <- ->. apply tcp_read_received in Et. destruct o as [read|].
  2: { injection E2 as <- <-. split; [|done]. unfold linked in *. cbn [fst snd] in *. by rewrite Et, app_nil_r. }
  destruct (bool_decide_reflect (read = [])) as [->|Hne].
  { injection E2 as <- <-. split; [|done]. unfold linked in *. cbn [fst snd] in *. by rewrite Et, app_nil_r. }
  apply act_bind_cases in E2 as [(l2 & [] & E2 & E3)|[(e & E2 & ->)|[E2 ->]]]; [|done..]. unfold on_snd in E2. destruct (feed_reality_client_connection read c) as [c2 r2] eqn:Ef. injection E2 as <- ->.
  apply act_bind_cases in E3 as [(l3 & n & E3 & [= <- <-])|[(e & E3 & ->)|[E3 ->]]]; [|done..]. unfold on_snd in E3. destruct (process_new_packets c2) as [c3 r3] eqn:Ep. injection E3 as <- ->. split; [|done].
  unfold linked in *. cbn [fst snd] in *. destruct Hl as (H1 & H2 & H3). rewrite Hb in H3. destruct H3 as (Hf & Hcl & Hpl & base & q & Ha & Hq).
  pose proof Ef as Ef'. apply (feed_holds _ _ _ _ q) in Ef as (b & -> & Hb2); [|done].
  assert (hs (received t1) (set_cipher b c)) as Hc2.
  { split; [by eapply session_set_cipher|]. split; [done|]. unfold is_handshaking in *. cbn [handshake_state set_cipher]. rewrite Hb. split; [done|]. split; [done|]. split; [exact Hpl|].
    exists base, (q ++ read). split; [|exact Hb2]. by rewrite Et, Ha, app_assoc. }
  unfold process_new_packets in Ep. cbn [fatal_error received_close_notify set_cipher] in Ep. rewrite Hf, Hcl in Ep. destruct (process_new_packets_inner _ (set_cipher b c)) as [c4 r4] eqn:Ei.
  destruct r4 as [m|e|]; [|done..]. injection Ep as <- _. by eapply inner_hs.
Qed.

(** A handshake that is done leaves nothing to write. *)
Lemma handshake_loop_ok turns eof : ptriple linked (handshake_loop turns eof) (λ o l, o = Some tt → linked l ∧ is_handshaking l.2 = false ∧ wants_write l.2 = false) (λ _, True).
Proof.
  revert eof. induction turns as [|turns IH]; intros eof; cbn [handshake_loop]; [by apply ptriple_fail|]. apply ptriple_get. intros [t0 c0]. unfold poll_bind.
  eapply ptriple_bind; [apply ptriple_of_triple; eapply triple_conseq; [apply (write_session_ok (is_handshaking c0))|by intros l [-> Hl]|intros o l Hl; exact Hl|done]|].
  intros [u|]; [|by apply ptriple_ret]. eapply ptriple_bind; [apply ptriple_of_triple; eapply triple_conseq; [apply (flush_link_ok (λ c, is_handshaking c = is_handshaking c0 ∧ wants_write c = false))| |intros o l Hl; exact Hl|done]|].
  { intros l (Hl & Hb & Hw). split_and!; try done. apply Hw. by destruct u. }
  intros [u1|]; [|by apply ptriple_ret]. eapply ptriple_bind; [eapply ptriple_conseq; [apply (handshake_read_ok (is_handshaking c0))|by intros l Hl|intros o l Hl; exact Hl|done]|].
  intros [eof'|]; [|by apply ptriple_ret]. apply ptriple_get. intros [t c]. destruct (is_handshaking c0 && negb (is_handshaking c) && wants_write c) eqn:Eg.
  { eapply ptriple_conseq; [apply IH|intros l (-> & Hl & _); exact Hl|done|done]. }
  destruct (is_handshaking c) eqn:Eh.
  { destruct eof'; [by apply ptriple_fail|]. eapply ptriple_conseq; [apply IH|intros l (-> & Hl & _); exact Hl|done|done]. }
  apply ptriple_ret. intros l (-> & Hl & Hd) _. split; [done|]. split; [done|]. cbn [negb snd] in *. destruct (is_handshaking c0); [exact Eg|by apply Hd].
Qed.

Lemma perform_ok : ptriple linked perform_reality_handshake (λ o l, o = Some tt → linked l ∧ is_handshaking l.2 = false ∧ wants_write l.2 = false) (λ _, True).
Proof.
  unfold perform_reality_handshake, poll_bind. eapply ptriple_bind; [apply handshake_loop_ok|]. intros [u|]; [|by apply ptriple_ret].
  eapply ptriple_conseq; [apply ptriple_of_triple, (flush_link_ok (λ c, is_handshaking c = false ∧ wants_write c = false))| |intros o l Hl _; exact Hl|done].
  intros l Hl. destruct u. destruct (Hl eq_refl) as (H1 & H2 & H3). by split_and!.
Qed.
End connecting.

(** ** What is done with a stream *)
Inductive operation := ReadUpTo (room : nat) | WriteSome (l : bytes) | Flushing | ShuttingDown.

(** The bytes that were read, and those that were accepted *)
Definition operate `{Crypto} (o : operation) : act RealityStream IoError (bytes * bytes) :=
  match o with
  | ReadUpTo n => r ← poll_read n; mret (default [] r, [])
  | WriteSome l => r ← poll_write l; mret ([], take (default 0 r) l)
  | Flushing => _ ← poll_flush; mret ([], [])
  | ShuttingDown => _ ← poll_shutdown; mret ([], [])
  end.

Fixpoint operate_all `{Crypto} (l : list operation) : act RealityStream IoError (bytes * bytes) :=
  match l with
  | [] => mret ([], [])
  | o :: l => '(a, b) ← operate o; '(c, d) ← operate_all l; mret (a ++ c, b ++ d)
  end.

(** Records that open from number 0, with the given data in them *)
Definition carries `{Crypto} (key : AeadKey) (iv wire data : bytes) : Prop := ∃ frags n, opens suite_aead key iv 0 frags n wire ∧ app_payload frags = data.

Section operations.
Context `{CryptoLaws} (rkey wkey : AeadKey) (riv wiv : bytes) (base_in base_out : bytes).
Hypothesis Hwiv : length wiv = 12.
Abbreviation dup := (duplex rkey wkey riv wiv base_in base_out).

Lemma shut_off l s s' r : writeable (mode s) = false → poll_write l s = (s', r) → ∃ e, r = Err e.
Proof. intros Hm. unfold poll_write. rewrite (act_bind_ok get _ s s s eq_refl), Hm. intros [= _ <-]. by eexists. Qed.

Lemma operate_ok o t g : ptriple (dup t g) (operate o) (λ p s, dup (t ++ p.1) (g ++ p.2) s) (λ _, True).
Proof.
  intros s s' r Hs. destruct o as [n|l| |]; cbn [operate]; intros [(s1 & x & E & [= <- <-])|[(e & E & ->)|[E ->]]]%act_bind_cases; try done; cbn [fst snd]; rewrite ?app_nil_r.
  - by apply (poll_read_ok rkey wkey riv wiv base_in base_out Hwiv t g (mode s)) in E as [Hd _].
  - destruct (writeable (mode s)) eqn:Hm; [|by apply shut_off in E as [e E]]. apply (poll_write_ok rkey wkey riv wiv base_in base_out Hwiv t g (mode s) l Hm) in E as (-> & Hd & _); [|done].
    cbn [default]. by rewrite take_ge.
  - by apply (poll_flush_ok rkey wkey riv wiv base_in base_out Hwiv t g (mode s)) in E as [[Hd _] _].
  - by apply (poll_shutdown_ok rkey wkey riv wiv base_in base_out Hwiv t g (mode s)) in E as [Hd _].
Qed.

Lemma operate_all_ok l t g : ptriple (dup t g) (operate_all l) (λ p s, dup (t ++ p.1) (g ++ p.2) s) (λ _, True).
Proof.
  revert t g. induction l as [|o l IH]; intros t g; cbn [operate_all]; [apply ptriple_ret; intros s Hs; by rewrite !app_nil_r|].
  eapply ptriple_bind; [apply operate_ok|]. intros [a b]. cbn [fst snd]. eapply ptriple_bind; [apply IH|]. intros [c d]. apply ptriple_ret. intros s Hs. cbn [fst snd] in *. by rewrite !app_assoc.
Qed.

Lemma app_payload_all frags : app_fragments frags → app_payload frags = payload frags.
Proof.
  unfold app_fragments, app_payload, payload. induction 1 as [|f fs Hf _ IH]; [done|]. rewrite filter_cons_True by done. cbn. f_equal. exact IH.
Qed.

Lemma payload_ends apps ends : ends = [alert_fragment] ∨ ends = [] → app_payload (apps ++ ends) = app_payload apps.
Proof. intros [->| ->]; rewrite app_payload_app; [|by rewrite app_nil_r]. replace (app_payload [alert_fragment]) with ([] : bytes) by reflexivity. by rewrite app_nil_r. Qed.

Lemma dup_sent t g s : dup t g s → ∃ wire later waiting data, tcp_sent (tcp s) ++ later = base_out ++ wire ∧ carries wkey wiv wire data ∧ data ++ waiting = g.
Proof.
  intros [_ (_ & _ & _ & _ & wire & apps & ends & H5 & H6 & H7 & H8 & H9)]. exists wire, (ciphertext_write_buf (conn s)), (plaintext_write_buf (conn s)), (app_payload apps). split_and!; [done| |done].
  eexists _, _. split; [exact H6|]. apply payload_ends. destruct (negb _); [destruct H9 as [_ [?|[? _]]]; auto|auto].
Qed.

Lemma dup_flushed t g s : dup t g s → wants_write (conn s) = false → ∃ wire, tcp_sent (tcp s) = base_out ++ wire ∧ carries wkey wiv wire g.
Proof.
  intros [_ (_ & _ & _ & _ & wire & apps & ends & H5 & H6 & H7 & H8 & H9)] [E1 E2]%wants_nothing. rewrite E1, app_nil_r in H5. rewrite E2, app_nil_r in H8. exists wire. split; [done|].
  eexists _, _. split; [exact H6|]. rewrite payload_ends; [done|]. destruct (negb _); [destruct H9 as [_ [?|[? _]]]; auto|auto].
Qed.

Lemma dup_shut t g s : dup t g s → wants_write (conn s) = false → writeable (mode s) = false →
  ∃ wire apps n, tcp_sent (tcp s) = base_out ++ wire ∧ app_payload apps = g ∧
    (opens suite_aead wkey wiv 0 (apps ++ [alert_fragment]) n wire ∨ opens suite_aead wkey wiv 0 apps n wire ∧ (seals suite_aead wkey → n = u64_max)).
Proof.
  intros [_ (_ & _ & _ & _ & wire & apps & ends & H5 & H6 & H7 & H8 & H9)] [E1 E2]%wants_nothing Hm. rewrite E1, app_nil_r in H5. rewrite E2, app_nil_r in H8. rewrite Hm in H9. cbn [negb] in H9.
  exists wire, apps, (write_seq (conn s)). split_and!; [done..|]. destruct H9 as [_ [->|[-> Hs]]]; [by left|right]. by rewrite app_nil_r in H6.
Qed.

Lemma dup_received t g s : dup t g s → ∃ wire rest unread, received (tcp s) = base_in ++ wire ++ rest ∧ carries rkey riv wire (t ++ unread).
Proof.
  intros [(_ & _ & _ & wire & q & frags & n & p & H4 & H5 & H6 & H7 & H8 & _) _]. exists wire, q, p. split; [done|]. by exists frags, n.
Qed.
End operations.

(** ** Connecting *)
Lemma new_linked `{CryptoLaws} cfg mc mp private random now c0 t :
  length mc = CIPHERTEXT_READ_BUF_CAPACITY → length mp = PLAINTEXT_READ_BUF_CAPACITY → length random = 32 → length (short_id cfg) = 8 →
  new_connection cfg mc mp private random now = Ok c0 →
  ∃ hello shared auth, agree private (public_key cfg) = Some shared ∧ derive_auth_key shared (take 20 random) REALITY_INFO = Ok auth ∧ linked hello private auth (t, c0).
Proof.
  intros Hmc Hmp Hr Hs E. destruct (new_session cfg mc mp private random now c0 Hmc Hmp Hr Hs E) as (hello & shared & auth & _ & Hsh & Ha & Hses). exists hello, shared, auth. split; [done|]. split; [done|].
  destruct (new_connection_cases cfg mc mp private random now Hr Hs) as [(c1 & pub & auth1 & sid & ts & E1 & Hf)|[e E1]]; rewrite E1 in E; [|done]. apply Ok_inj in E. subst c1. destruct Hf as (shared1 & _ & _ & _ & _ & _ & _ & ->).
  split; [exact Hses|]. split; [done|]. cbn [is_handshaking handshake_state set_state]. split; [done|]. split; [done|]. split.
  - split; cbn; [rewrite <- Hmp; apply new_holds|]. intros _. rewrite <- Hmp. apply new_holds.
  - exists (received t), []. rewrite app_nil_r. split; [done|]. unfold cipher_holds. cbn. rewrite <- Hmc. apply new_holds.
Qed.

Lemma linked_duplex `{CryptoLaws} hello private auth t c : linked hello private auth (t, c) → is_handshaking c = false → wants_write c = false →
  authenticated hello private auth c ∧ ∃ rkey riv wkey wiv base, app_read_key c = Some rkey ∧ app_read_iv c = Some riv ∧ app_write_key c = Some wkey ∧ app_write_iv c = Some wiv ∧ length wiv = 12 ∧
  duplex rkey wkey riv wiv base (tcp_sent t) [] [] {| link := (t, c); mode := Stream; need_flush := false |}.
Proof.
  intros (Hs & Hn & Hst) Hh Hw. cbn [fst snd] in *. rewrite Hh in Hst. destruct Hst as (Hw0 & key & iv & base & Hr). pose proof (session_state _ _ _ _ Hs) as Hok. unfold state_ok in Hok. pose proof Hr as (Est & Hk & Hi & _).
  rewrite Est in Hok. split; [done|]. destruct Hok as (p & acc & der & pk & sig & cv & cs & ss & wk & wi & rk & ri & _ & _ & _ & _ & _ & Hwk & _ & Ek & Ei & _ & _).
  destruct (traffic_keys_ok cs (p_suite p)) as (hk & hi & Ehk & _ & Lhi). rewrite Ehk in Hwk. apply Ok_inj in Hwk. injection Hwk as -> ->.
  exists key, iv, {| key_suite := p_suite p; key_bytes := wk |}, wi, base. do 5 (split; [done|]). split; [exact Hr|].
  apply wants_nothing in Hw as [E1 E2]. unfold conn, tcp. cbn [link fst snd mode]. do 3 (split; [done|]). split; [by rewrite Hw0|]. exists [], [], []. rewrite E1, E2, Hw0. split_and!; try done; [apply opens_nil|constructor].
Qed.

Lemma connected_duplex `{CryptoLaws} cfg mc mp private random now t s :
  length mc = CIPHERTEXT_READ_BUF_CAPACITY → length mp = PLAINTEXT_READ_BUF_CAPACITY → length random = 32 → length (short_id cfg) = 8 →
  connect_reality_with_io cfg mc mp private random now t = Ok (Some s) →
  ∃ hello shared auth, agree private (public_key cfg) = Some shared ∧ derive_auth_key shared (take 20 random) REALITY_INFO = Ok auth ∧ authenticated hello private auth (conn s) ∧
    wants_write (conn s) = false ∧ mode s = Stream ∧
    ∃ rkey riv wkey wiv base, app_read_key (conn s) = Some rkey ∧ app_read_iv (conn s) = Some riv ∧ app_write_key (conn s) = Some wkey ∧ app_write_iv (conn s) = Some wiv ∧
      length wiv = 12 ∧ duplex rkey wkey riv wiv base (tcp_sent (tcp s)) [] [] s.
Proof.
  intros Hmc Hmp Hr Hs. unfold connect_reality_with_io. destruct (new_connection _ _ _ _ _ _) as [c0|e|] eqn:E; [|done..].
  destruct (new_linked cfg mc mp private random now c0 t Hmc Hmp Hr Hs E) as (hello & shared & auth & Hsh & Ha & Hl). destruct (perform_reality_handshake (t, c0)) as [[t1 c1] r] eqn:Ep.
  destruct r as [[[]|]|e|]; [|done..]. destruct (perform_ok hello private auth _ _ _ Hl Ep eq_refl) as (Hl1 & Hh & Hw). cbn [fst snd] in *. unfold new_stream. cbn [snd]. rewrite Hh. intros [= <-].
  destruct (linked_duplex _ _ _ _ _ Hl1 Hh Hw) as (Hau & rkey & riv & wkey & wiv & base & K1 & K2 & K3 & K4 & Hwiv & Hd). exists hello, shared, auth. do 5 (split; [done|]).
  exists rkey, riv, wkey, wiv, base. do 5 (split; [done|]). exact Hd.
Qed.

(** C20: When connecting succeeds, whatever the transport and the peer do, the peer has
    proved itself and the whole handshake is written; and whatever is done with the
    stream then, in any order, under any transport, as long as no operation fails: what
    was read is a prefix of the application data of the records that came behind the
    handshake and open, from number 0, under the keys of the session; what was accepted
    is what the records sent carry, and the rest waits. A flush that is done leaves
    nothing waiting; a shutdown that is done has sent the alert behind all of it, unless
    the numbers are used up. A write on an open stream accepts all bytes or fails, and
    writing, flushing and shutting down never panic and end. *)
Theorem connected_stream_reliable `{CryptoLaws} cfg mc mp private random now t s :
  length mc = CIPHERTEXT_READ_BUF_CAPACITY → length mp = PLAINTEXT_READ_BUF_CAPACITY → length random = 32 → length (short_id cfg) = 8 →
  connect_reality_with_io cfg mc mp private random now t = Ok (Some s) →
  ∃ hello shared auth rkey riv wkey wiv base,
    agree private (public_key cfg) = Some shared ∧ derive_auth_key shared (take 20 random) REALITY_INFO = Ok auth ∧ authenticated hello private auth (conn s) ∧
    wants_write (conn s) = false ∧ app_read_key (conn s) = Some rkey ∧ app_read_iv (conn s) = Some riv ∧ app_write_key (conn s) = Some wkey ∧ app_write_iv (conn s) = Some wiv ∧
    ∀ ops s' taken given, operate_all ops s = (s', Ok (taken, given)) →
      (∃ wire rest unread, received (tcp s') = base ++ wire ++ rest ∧ carries rkey riv wire (taken ++ unread)) ∧
      (∃ wire later waiting data, tcp_sent (tcp s') ++ later = tcp_sent (tcp s) ++ wire ∧ carries wkey wiv wire data ∧ data ++ waiting = given) ∧
      (∀ s'' r, poll_flush s' = (s'', r) → no_panic r ∧ (r = Ok (Some tt) → ∃ wire, tcp_sent (tcp s'') = tcp_sent (tcp s) ++ wire ∧ carries wkey wiv wire given)) ∧
      (∀ s'' r, poll_shutdown s' = (s'', r) → no_panic r ∧ (r = Ok (Some tt) → ∃ wire apps n, tcp_sent (tcp s'') = tcp_sent (tcp s) ++ wire ∧ app_payload apps = given ∧
         (opens suite_aead wkey wiv 0 (apps ++ [alert_fragment]) n wire ∨ opens suite_aead wkey wiv 0 apps n wire ∧ (seals suite_aead wkey → n = u64_max)))) ∧
      (∀ l s'' r, poll_write l s' = (s'', r) → r = Ok (Some (length l)) ∧ writeable (mode s') = true ∨ ∃ e, r = Err e).
Proof.
  intros Hmc Hmp Hr Hs Ec. destruct (connected_duplex _ _ _ _ _ _ _ _ Hmc Hmp Hr Hs Ec) as (hello & shared & auth & Hsh & Ha & Hau & Hw & _ & rkey & riv & wkey & wiv & base & K1 & K2 & K3 & K4 & Hwiv & Hd).
  exists hello, shared, auth, rkey, riv, wkey, wiv, base. do 8 (split; [done|]). clear Ec.
  intros ops s' taken given Eo. apply (operate_all_ok rkey wkey riv wiv base (tcp_sent (tcp s)) Hwiv ops [] []) in Eo; [|done]. cbn [app fst snd] in Eo. split_and!.
  - by eapply dup_received.
  - by eapply dup_sent.
  - intros s'' r Ef. apply (poll_flush_ok rkey wkey riv wiv base (tcp_sent (tcp s)) Hwiv taken given (mode s')) in Ef; [|done]. destruct r as [o|e|]; [|by split|done]. split; [done|]. destruct Ef as [[Hd2 _] Hdone].
    intros [= ->]. by eapply dup_flushed; [exact Hd2|apply Hdone].
  - intros s'' r Ef. apply (poll_shutdown_ok rkey wkey riv wiv base (tcp_sent (tcp s)) Hwiv taken given (mode s')) in Ef; [|done]. destruct r as [o|e|]; [|by split|done]. split; [done|]. destruct Ef as (Hd2 & _ & Hdone).
    intros [= ->]. destruct (Hdone eq_refl) as [D1 D2]. by eapply dup_shut.
  - intros l s'' r Ew. destruct (writeable (mode s')) eqn:Hm; [|right; by eapply shut_off]. apply (poll_write_ok rkey wkey riv wiv base (tcp_sent (tcp s)) Hwiv taken given (mode s') l Hm) in Ew; [|done].
    destruct r as [o|e|]; [left; split; [|done]; by destruct Ew as [-> _]|right; by exists e|done].
Qed.

(** ** A connection under toy primitives: a transport that is slow on both sides, a peer
    that sends its part of the handshake, data in three writes, and closes *)
Definition demo_transport (i : list (answer bytes)) : Transport :=
  {| incoming := i; accepts := [Gives 100; Waits; Gives 4000; Gives 4000; Waits; Gives 10; Gives 4000; Gives 4000]; flushes := replicate 8 (Gives tt); closes := [Gives tt]; received := []; tcp_sent := [] |}.
Definition demo_arrivals : list (answer bytes) :=
  [Gives (take 30 demo_server_record); Waits; Gives (drop 30 demo_server_record ++ [x14; x03; x03; x00; x01; x01]); Gives demo_flight_records; Gives (take 9 demo_app_records); Waits; Gives (drop 9 demo_app_records)].
Abbreviation demo_connect i := (connect_reality_with_io demo_config demo_memory demo_memory demo_private demo_random (Some 1700000000%Z) (demo_transport i)).
Definition demo_stream : RealityStream :=
  match demo_connect demo_arrivals with Ok (Some s) => s | _ => {| link := (demo_transport [], demo_c0); mode := FullyShutdown; need_flush := false |} end.
Definition demo_operations : list operation := [WriteSome (list_byte_of_string "ping"); ReadUpTo 100; ReadUpTo 3; Flushing; ReadUpTo 100].
Definition demo_taken : bytes := list_byte_of_string "hello world".

Lemma demo_connected : demo_connect demo_arrivals = Ok (Some demo_stream).
Proof.
  assert (match demo_connect demo_arrivals with Ok (Some _) => true | _ => false end = true) as H by (vm_compute; reflexivity). unfold demo_stream. destruct (demo_connect _) as [[s|]|e|]; [reflexivity|discriminate H..].
Qed.

Definition demo_end : RealityStream := (operate_all demo_operations demo_stream).1.
Lemma demo_operated : operate_all demo_operations demo_stream = (demo_end, Ok (demo_taken, list_byte_of_string "ping")).
Proof.
  assert (match (operate_all demo_operations demo_stream).2 with Ok (a, b) => bool_decide (a = demo_taken) && bool_decide (b = list_byte_of_string "ping") | _ => false end = true) as H by (vm_compute; reflexivity).
  unfold demo_end. destruct (operate_all demo_operations demo_stream) as [s [[a b]|e|]]; [|discriminate H..]. cbn [fst snd] in *. by bool_hyps; subst.
Qed.

(** A record that announces more than the buffer of the handshake can hold: the length
    in its header is not checked, and 33 kilobytes behind it end in a panic. *)
Example oversized_record_panics :
  demo_connect [Gives ([x16; x03; x03; xff; xff] ++ replicate HANDSHAKE_BUFFER_SIZE x00); Gives (replicate HANDSHAKE_BUFFER_SIZE x00); Gives (replicate HANDSHAKE_BUFFER_SIZE x00)] = Panic.
Proof. vm_compute. reflexivity. Qed.

Definition is_ready (r : outcome IoError (option unit)) : bool := match r with Ok (Some tt) => true | _ => false end.
Lemma is_ready_ok r : is_ready r = true → r = Ok (Some tt).
Proof. by destruct r as [[[]|]|e|]. Qed.
Lemma run_snd {A B} (p : A * B) (b : B) : p.2 = b → p = (p.1, b).
Proof. destruct p. by intros <-. Qed.

Lemma connected_stream_reliable_witness : ∃ rkey riv wkey wiv base,
  (∃ wire rest unread, received (tcp demo_end) = base ++ wire ++ rest ∧ carries rkey riv wire (demo_taken ++ unread)) ∧
  (∃ s wire, poll_flush demo_end = (s, Ok (Some tt)) ∧ tcp_sent (tcp s) = tcp_sent (tcp demo_stream) ++ wire ∧ carries wkey wiv wire (list_byte_of_string "ping")).
Proof.
  destruct (connected_stream_reliable demo_config demo_memory demo_memory demo_private demo_random (Some 1700000000%Z) (demo_transport demo_arrivals) demo_stream)
    as (hello & shared & auth & rkey & riv & wkey & wiv & base & _ & _ & _ & _ & _ & _ & _ & _ & Hops); [exact demo_memory_length|exact (eq_trans demo_memory_length equal_capacities)|reflexivity|reflexivity|exact demo_connected|].
  destruct (Hops demo_operations demo_end demo_taken (list_byte_of_string "ping") demo_operated) as (H1 & _ & H3 & _).
  exists rkey, riv, wkey, wiv, base. split; [exact H1|].
  assert ((poll_flush demo_end).2 = Ok (Some tt)) as Hf by (apply is_ready_ok; vm_compute; reflexivity).
  destruct (H3 (poll_flush demo_end).1 (Ok (Some tt)) (run_snd _ _ Hf)) as [_ H3']. destruct (H3' eq_refl) as (wire & Hw & Hc).
  exists (poll_flush demo_end).1, wire. split; [exact (run_snd _ _ Hf)|]. split; [exact Hw|exact Hc].
Defined.
