(* ===== verification/ConfigData.v ===== *)
(** * ConfigData: the records of the configuration

    The configuration types of [crates/dynet-ingress/src/lib.rs] (listeners and
    egress nodes) and of [crates/dynet-state] ([Config] and its parts), with their
    defaults and the checks that several loaders share. A [Duration] is its number of
    nanoseconds, a [usize] is an integer of 64 bits, a [PathBuf] is the list of its
    components, which is what its equality compares. *)
From Stdlib Require Import ZArith Lia Strings.Byte Ascii String.
From stdpp Require Import base list numbers option strings gmap.
From S2P Require Import Prelude Collections Net RustStd Model.
Local Open Scope string_scope.
Local Open Scope nat_scope.

(** ** Messages

    [Text] is the text itself; [Format] is the format string, for a text that prints
    values with [Debug] or an error of the standard library, with those values. *)
Inductive config_error :=
| Text (text : string)
| Format (template : string) (args : list string).

Abbreviation load := (outcome config_error).

(** ** Durations *)
Definition from_millis (ms : Z) : Z := (ms * 1000000)%Z.
Definition from_secs (s : Z) : Z := (s * 1000000000)%Z.

(** ** Paths (Unix): the components of a [Path] *)
Inductive PathComponent := RootDir | CurDir | ParentDir | NormalDir (name : string).

#[export] Instance PathComponent_eq_dec : EqDecision PathComponent.
Proof. solve_decision. Defined.

Abbreviation PathBuf := (list PathComponent).

Definition path_segment (s : string) : option PathComponent :=
  if String.eqb s "" || String.eqb s "." then None
  else if String.eqb s ".." then Some ParentDir
  else Some (NormalDir s).

(** [PathBuf::from], up to [==]: a leading [.] is a component, a later one is not. *)
Definition path_from (s : string) : PathBuf :=
  let segs := split "/" s in
  let lead :=
    if starts_with s "/" then [RootDir]
    else match segs with seg :: _ => if String.eqb seg "." then [CurDir] else [] | [] => [] end in
  (lead ++ omap path_segment segs)%list.

(** ** Listeners ([dynet-ingress]) *)
Definition UDP_IDLE_TIMEOUT : Z := from_secs 30.
Definition DEFAULT_TCP_MAX_SESSIONS : Z := 1024.
Definition DEFAULT_UDP_MAX_SESSIONS : Z := 1024.
Definition DEFAULT_SOCKS5_MAX_SESSIONS : Z := 1024.
Definition DEFAULT_DNS_MAX_SESSIONS : Z := 256.

Record DnsRelayConfig := { dns_bind : SocketAddr; dns_max_sessions : Z }.

Record TcpRelayConfig := {
  tcp_bind : SocketAddr;
  tcp_upstream : SocketAddr;
  tcp_max_sessions : Z;
}.

Record UdpRelayConfig := {
  udp_bind : SocketAddr;
  udp_upstream : SocketAddr;
  udp_idle_timeout : Z;
  udp_max_sessions : Z;
}.

Record Socks5IngressConfig := {
  socks5_bind : SocketAddr;
  udp_advertise_ip : option IpAddr;
  socks5_idle_timeout : Z;
  socks5_max_sessions : Z;
}.

Record IngressConfig := {
  ingress_dns : DnsRelayConfig;
  ingress_tcp : TcpRelayConfig;
  ingress_udp : UdpRelayConfig;
  ingress_socks5 : Socks5IngressConfig;
}.

Definition loopback : IpAddr := V4 2130706433.

Definition default_dns_relay : DnsRelayConfig :=
  {| dns_bind := socket_addr loopback 1053; dns_max_sessions := DEFAULT_DNS_MAX_SESSIONS |}.

Definition default_tcp_relay : TcpRelayConfig :=
  {| tcp_bind := socket_addr loopback 18080;
     tcp_upstream := socket_addr (V4 1572395042) 80;
     tcp_max_sessions := DEFAULT_TCP_MAX_SESSIONS |}.

Definition default_udp_relay : UdpRelayConfig :=
  {| udp_bind := socket_addr loopback 18443;
     udp_upstream := socket_addr (V4 16843009) 443;
     udp_idle_timeout := UDP_IDLE_TIMEOUT;
     udp_max_sessions := DEFAULT_UDP_MAX_SESSIONS |}.

Definition default_socks5 : Socks5IngressConfig :=
  {| socks5_bind := socket_addr loopback 11080; udp_advertise_ip := None;
     socks5_idle_timeout := UDP_IDLE_TIMEOUT;
     socks5_max_sessions := DEFAULT_SOCKS5_MAX_SESSIONS |}.

Definition default_ingress : IngressConfig :=
  {| ingress_dns := default_dns_relay; ingress_tcp := default_tcp_relay;
     ingress_udp := default_udp_relay; ingress_socks5 := default_socks5 |}.

(** ** Egress nodes *)
Inductive ShadowsocksMethod := Aes256Gcm | Blake3Aes128Gcm2022.

Definition method_str (m : ShadowsocksMethod) : string :=
  match m with
  | Aes256Gcm => "aes-256-gcm"
  | Blake3Aes128Gcm2022 => "2022-blake3-aes-128-gcm"
  end.

Record ShadowsocksConfig := {
  ss_server : string;
  ss_port : Z;
  ss_method : ShadowsocksMethod;
  ss_password : string;
}.

Record TrojanConfig := {
  trojan_server : string;
  trojan_port : Z;
  trojan_password : string;
  trojan_sni : option string;
  skip_cert_verify : bool;
}.

Record VmessConfig := { vmess_server : string; vmess_port : Z; vmess_uuid : string }.

Record VlessConfig := {
  vless_server : string;
  vless_port : Z;
  vless_uuid : string;
  server_name : string;
  public_key : string;
  short_id : string;
}.

Inductive EgressNodeConfig :=
| EgressDirect
| EgressShadowsocks (c : ShadowsocksConfig)
| EgressTrojan (c : TrojanConfig)
| EgressVless (c : VlessConfig)
| EgressVmess (c : VmessConfig).

(** [EgressNodeConfig::tag] *)
Definition egress_config_tag (c : EgressNodeConfig) : string :=
  match c with
  | EgressDirect => "direct"
  | EgressShadowsocks _ => "ss"
  | EgressTrojan _ => "trojan"
  | EgressVless _ => "vless"
  | EgressVmess _ => "vmess"
  end.

(** ** [dynet-state] *)
Record ControlConfig := { control_bind : SocketAddr }.
Record Ipv6Config := { v6_enabled : bool }.

Record ForwardingConfig := {
  fwd_seed : RuntimeSeed;
  execution_nodes : gmap string EgressNodeConfig;
}.

Record TunCaptureConfig := {
  tun_enabled : bool;
  tun_interface : string;
  tun_tcp_idle_timeout : Z;
  tun_udp_idle_timeout : Z;
  tun_udp_response_timeout : Z;
}.

Record RouterIngressConfig := {
  router_interface : option string;
  ipv4_sources : list string;
  ipv6_sources : list string;
}.

Record CaptureConfig := {
  capture_tun : TunCaptureConfig;
  router_ingress : RouterIngressConfig;
}.

Record DnsMappingConfig := { map_interface : option string; source_port : Z }.

Record PersistencePolicy := { retention : Z; max_bytes : Z }.

Inductive ServiceManager := Auto | Systemd | Procd.

Record ServiceConfig := {
  manager : ServiceManager;
  service_user : string;
  runtime_database : PathBuf;
  environment_file : option PathBuf;
}.

Record Config := {
  control : ControlConfig;
  ingress : IngressConfig;
  capture : CaptureConfig;
  ipv6 : Ipv6Config;
  dns_mapping : DnsMappingConfig;
  persistence : PersistencePolicy;
  forwarding : ForwardingConfig;
  service : ServiceConfig;
}.

(** ** Defaults *)
Definition default_tun : TunCaptureConfig :=
  {| tun_enabled := false; tun_interface := "dynet0"; tun_tcp_idle_timeout := from_secs 2;
     tun_udp_idle_timeout := from_secs 2; tun_udp_response_timeout := from_millis 1500 |}.

Definition default_router_ingress : RouterIngressConfig :=
  {| router_interface := None; ipv4_sources := []; ipv6_sources := [] |}.

Definition default_forwarding : ForwardingConfig :=
  {| fwd_seed := single_node "direct";
     execution_nodes := <["default-node" := EgressDirect]> ∅ |}.

Definition default_dns_mapping : DnsMappingConfig :=
  {| map_interface := None; source_port := 53 |}.

Definition default_persistence : PersistencePolicy :=
  {| retention := from_secs (24 * 60 * 60); max_bytes := 64 * 1024 * 1024 |}.

Definition default_service : ServiceConfig :=
  {| manager := Auto; service_user := "dynet"; runtime_database := path_from "dynet.sqlite";
     environment_file := None |}.

Definition default_config : Config :=
  {| control := {| control_bind := socket_addr loopback 9977 |};
     ingress := default_ingress;
     capture := {| capture_tun := default_tun; router_ingress := default_router_ingress |};
     ipv6 := {| v6_enabled := false |};
     dns_mapping := default_dns_mapping;
     persistence := default_persistence;
     forwarding := default_forwarding;
     service := default_service |}.

(** ** Decidable equality (the derived [PartialEq] of the code) *)
#[export] Instance ForwardNode_eq_dec : EqDecision ForwardNode.
Proof. solve_decision. Defined.
#[export] Instance SchedulerPolicy_eq_dec : EqDecision SchedulerPolicy.
Proof. solve_decision. Defined.
#[export] Instance GroupThresholds_eq_dec : EqDecision GroupThresholds.
Proof. solve_decision. Defined.
#[export] Instance NextRef_eq_dec : EqDecision NextRef.
Proof. solve_decision. Defined.
#[export] Instance ForwardGroup_eq_dec : EqDecision ForwardGroup.
Proof. solve_decision. Defined.
#[export] Instance GroupMember_eq_dec : EqDecision GroupMember.
Proof. solve_decision. Defined.
#[export] Instance RouteMatcher_eq_dec : EqDecision RouteMatcher.
Proof. solve_decision. Defined.
#[export] Instance RouteRule_eq_dec : EqDecision RouteRule.
Proof. solve_decision. Defined.
#[export] Instance DnsHttpsEndpoint_eq_dec : EqDecision DnsHttpsEndpoint.
Proof. solve_decision. Defined.
#[export] Instance DnsUpstreamTransport_eq_dec : EqDecision DnsUpstreamTransport.
Proof. solve_decision. Defined.
#[export] Instance DnsUpstream_eq_dec : EqDecision DnsUpstream.
Proof. solve_decision. Defined.
#[export] Instance DnsRaceStrategy_eq_dec : EqDecision DnsRaceStrategy.
Proof. solve_decision. Defined.
#[export] Instance DnsRacePolicy_eq_dec : EqDecision DnsRacePolicy.
Proof. solve_decision. Defined.
#[export] Instance RuntimeSeed_eq_dec : EqDecision RuntimeSeed.
Proof. solve_decision. Defined.
#[export] Instance ShadowsocksMethod_eq_dec : EqDecision ShadowsocksMethod.
Proof. solve_decision. Defined.
#[export] Instance ShadowsocksConfig_eq_dec : EqDecision ShadowsocksConfig.
Proof. solve_decision. Defined.
#[export] Instance TrojanConfig_eq_dec : EqDecision TrojanConfig.
Proof. solve_decision. Defined.
#[export] Instance VmessConfig_eq_dec : EqDecision VmessConfig.
Proof. solve_decision. Defined.
#[export] Instance VlessConfig_eq_dec : EqDecision VlessConfig.
Proof. solve_decision. Defined.
#[export] Instance EgressNodeConfig_eq_dec : EqDecision EgressNodeConfig.
Proof. solve_decision. Defined.
#[export] Instance ForwardingConfig_eq_dec : EqDecision ForwardingConfig.
Proof. solve_decision. Defined.
#[export] Instance RouterIngressConfig_eq_dec : EqDecision RouterIngressConfig.
Proof. solve_decision. Defined.
#[export] Instance DnsMappingConfig_eq_dec : EqDecision DnsMappingConfig.
Proof. solve_decision. Defined.
#[export] Instance PersistencePolicy_eq_dec : EqDecision PersistencePolicy.
Proof. solve_decision. Defined.
#[export] Instance ServiceManager_eq_dec : EqDecision ServiceManager.
Proof. solve_decision. Defined.
#[export] Instance ServiceConfig_eq_dec : EqDecision ServiceConfig.
Proof. solve_decision. Defined.
#[export] Instance ControlConfig_eq_dec : EqDecision ControlConfig.
Proof. solve_decision. Defined.
#[export] Instance Ipv6Config_eq_dec : EqDecision Ipv6Config.
Proof. solve_decision. Defined.
#[export] Instance TunCaptureConfig_eq_dec : EqDecision TunCaptureConfig.
Proof. solve_decision. Defined.

(** ** Checks of the transcription *)
Example path_dots : path_from "./a//b/./../" = [CurDir; NormalDir "a"; NormalDir "b"; ParentDir].
Proof. reflexivity. Qed.
Example path_root : path_from "//etc" = [RootDir; NormalDir "etc"].
Proof. reflexivity. Qed.
