(* ===== verification/ServiceArtifact.v ===== *)
(** * ServiceArtifact: the owned file of the service

    [crates/dynet-service/src/artifact.rs] with the texts of [systemd.rs] and [procd.rs] and
    the data of [model.rs]: the unit or init script carries a marker and a digest of
    itself, by which it is told from files of others and from edited ones; it is replaced by
    writing a temporary file and renaming it. *)
From Stdlib Require Import ZArith Lia Ascii String Strings.Byte.
From stdpp Require Import base list numbers option strings gmap.
From S2P Require Import Prelude Net RustStd Wire HostFiles ConfigData.
Local Open Scope string_scope.

(** ** model.rs *)
Record ServiceSpec := {
  spec_manager : ServiceManager; spec_user : string; spec_executable : string; spec_config : string;
  spec_runtime_database : string; spec_environment_file : option string }.

Record ServicePaths := { systemd_system_dir : string; systemd_runtime_dir : string; procd_init_dir : string; procd_binary : string }.
Definition default_paths : ServicePaths := {|
  systemd_system_dir := "/etc/systemd/system"; systemd_runtime_dir := "/run/systemd/system";
  procd_init_dir := "/etc/init.d"; procd_binary := "/sbin/procd" |}.

Inductive ResourceState := Ready | Missing | ManagedUpdate | Drifted | Foreign | Invalid.
#[export] Instance ResourceState_eq_dec : EqDecision ResourceState.
Proof. solve_decision. Defined.

Definition label (s : ResourceState) : string :=
  match s with
  | Ready => "ready" | Missing => "missing" | ManagedUpdate => "managed-update"
  | Drifted => "drifted" | Foreign => "foreign" | Invalid => "invalid"
  end.
Definition is_hard_failure (s : ResourceState) : bool := match s with Drifted | Foreign | Invalid => true | _ => false end.

Fixpoint all_chars (p : ascii → bool) (s : string) : bool := match s with "" => true | String c r => p c && all_chars p r end.
Definition is_ascii_alphanumeric (c : ascii) : bool :=
  let z := code c in ((48 <=? z) && (z <=? 57) || (65 <=? z) && (z <=? 90) || (97 <=? z) && (z <=? 122))%Z.
Definition valid_user_name (user : string) : bool :=
  negb (is_empty user) && negb (starts_with user "-") &&
  all_chars (λ c, is_ascii_alphanumeric c || Ascii.eqb c "_" || Ascii.eqb c "-" || Ascii.eqb c ".") user.

(** ** artifact.rs *)
Definition OWNER_MARKER : string := "# dynet-owned: service-control".
Definition HASH_PREFIX : string := "# dynet-content-sha256:".

Fixpoint unlines (ls : list string) : string := match ls with [] => "" | l :: r => l ++ nl ++ unlines r end.

Definition strip_prefix (s p : string) : option string :=
  if starts_with s p then Some (str_drop (String.length p) s) else None.

(** [format!("{:x}", …)] of a digest *)
Definition hex_byte (b : byte) : string := String (digit_char (b2z b / 16)) (String (digit_char (b2z b mod 16)) "").
Definition hex_text (l : bytes) : string := String.concat "" (List.map hex_byte l).

Section artifact.
Context (sha256 : bytes → bytes).

Definition digest (content : string) : string := hex_text (sha256 (list_byte_of_string content)).

Definition managed_content (payload : string) : string :=
  let hash := digest payload in
  match opt_filter (λ x, starts_with x.1 "#!") (split_once lf payload) with
  | Some (shebang, body) => shebang ++ nl ++ OWNER_MARKER ++ nl ++ HASH_PREFIX ++ hash ++ nl ++ body
  | None => OWNER_MARKER ++ nl ++ HASH_PREFIX ++ hash ++ nl ++ payload
  end.

Definition mode_matches (mode desired_mode : Z) : bool := (Z.land mode 511 =? desired_mode)%Z.

(** [classify] behind the reading of the file. *)
Definition classify_text (desired : string) (desired_mode : Z) (actual : string) (mode : Z) : ResourceState :=
  if String.eqb actual desired then if mode_matches mode desired_mode then Ready else ManagedUpdate
  else
    let ls := lines actual in
    let first := head ls in
    let shebang := opt_filter (λ line, starts_with line "#!") first in
    let '(owner, rest) :=
      match shebang with Some _ => (head (tail ls), tail (tail ls)) | None => (first, tail ls) end in
    if negb (bool_decide (owner = Some OWNER_MARKER)) then Foreign
    else
      match head rest ≫= (λ line, strip_prefix line HASH_PREFIX) with
      | None => Drifted
      | Some recorded_hash =>
          let body := String.concat nl (tail rest) ++ nl in
          let payload := match shebang with None => body | Some line => line ++ nl ++ body end in
          if negb (String.eqb (digest payload) recorded_hash) then Drifted else ManagedUpdate
      end.

Section files.
Context {H : Type}.
Abbreviation service := (act (World H) string).

Definition classify (path desired : string) (desired_mode : Z) : service ResourceState :=
  f ← next_fault; w ← get;
  match f, tree w !! key path with
  | Some x, _ => fail ("failed reading metadata for " ++ path ++ ": " ++ fault_text x)
  | None, None => mret Missing
  | None, Some (Directory | Special _) => mret Invalid
  | None, Some (Regular actual mode) =>
      fs_call (λ e, "failed reading " ++ path ++ ": " ++ e)
        (if utf8_valid (list_byte_of_string actual) then mret (classify_text desired desired_mode actual mode)
         else fail ("failed reading " ++ path ++ ": stream did not contain valid UTF-8"))
  end.

(** The process id and the mode that [OpenOptions] gives to a new file. *)
Context (process_id : Z) (creation_mode : Z).

(** [OpenOptions::create_new] *)
Definition create_new (k : FileKey) : service unit :=
  fs_call (λ e, "failed creating " ++ display k ++ ": " ++ e)
    (w ← get;
     match tree w !! k with
     | Some _ => fail ("failed creating " ++ display k ++ ": File exists (os error 17)")
     | None => put k (Regular "" creation_mode)
     end).

(** [write_all] to a file that was just created: a failing one has written some of it. *)
Definition write_content (k : FileKey) (content : string) : service unit :=
  f ← next_fault;
  match f with
  | Some x =>
      _ ← put k (Regular (String.substring 0 (fault_written x) content) creation_mode);
      fail ("failed writing " ++ display k ++ ": " ++ fault_text x)
  | None => put k (Regular content creation_mode)
  end.

Definition set_mode (k : FileKey) (mode : Z) : service unit :=
  fs_call (λ e, "failed setting mode on " ++ display k ++ ": " ++ e)
    (w ← get;
     match tree w !! k with
     | Some (Regular c _) => put k (Regular c mode)
     | _ => mret tt
     end).

Definition rename (from : FileKey) (path : string) : service unit :=
  let failed e := "failed replacing " ++ path ++ " with " ++ display from ++ ": " ++ e in
  fs_call failed
    (w ← get;
     match tree w !! from, tree w !! key path with
     | None, _ => fail (failed "No such file or directory (os error 2)")
     | Some _, Some Directory => fail (failed "Is a directory (os error 21)")
     | Some n, _ => _ ← unlink from; put (key path) n
     end).

Definition try_write (temporary : FileKey) (path content : string) (mode : Z) : service unit :=
  _ ← write_content temporary content;
  _ ← fs_call (λ e, "failed syncing " ++ display temporary ++ ": " ++ e) (mret tt);
  _ ← set_mode temporary mode;
  rename temporary path.

(** The closure, and [if result.is_err()] behind it. *)
Definition write_or_remove (temporary : FileKey) (path content : string) (mode : Z) : service unit := λ w,
  let '(w1, result) := try_write temporary path content mode w in
  match result with
  | Err _ => ((remove_file temporary id w1).1, result)
  | _ => (w1, result)
  end.

Definition temporary_name (name : string) : string := "." ++ name ++ ".dynet-" ++ to_string process_id.

Definition atomic_write (path content : string) (mode : Z) : service unit :=
  parent_key ← lift (ok_or (parent path) (path ++ " has no parent directory"));
  b ← is_dir parent_key;
  if negb b then fail ("service carrier " ++ display parent_key ++ " is missing")
  else
    name ← lift (ok_or (opt_filter (λ n, utf8_valid (list_byte_of_string n)) (file_name path)) (path ++ " has an invalid file name"));
    let temporary := join_key parent_key (temporary_name name) in
    _ ← create_new temporary;
    write_or_remove temporary path content mode.

Definition remove_owned (path desired : string) (desired_mode : Z) : service bool :=
  state ← classify path desired desired_mode;
  match state with
  | Missing => mret false
  | Ready | ManagedUpdate =>
      _ ← remove_file (key path) (λ e, "failed removing " ++ path ++ ": " ++ e);
      mret true
  | _ => fail (path ++ " is " ++ label state ++ "; refusing to remove")
  end.
End files.

(** ** systemd.rs *)
Definition unit_path (paths : ServicePaths) : string := join (systemd_system_dir paths) "dynet.service".

Fixpoint any_whitespace (s : string) : bool :=
  match s with "" => false | String _ r => (0 <? ws_start s)%nat || any_whitespace r end.

Definition path_text (path : string) : outcome string string :=
  if negb (utf8_valid (list_byte_of_string path)) then Err ("service path " ++ path ++ " is not UTF-8")
  else if negb (is_absolute path) then Err ("service path " ++ path ++ " must be absolute")
  else Ok path.

Definition path_arg (path : string) : outcome string string :=
  value ← path_text path;
  if any_whitespace value then Err ("service path " ++ path ++ " must not contain whitespace") else Ok value.

Definition optional {A B E} (f : A → outcome E B) (o : option A) : outcome E (option B) :=
  match o with Some a => b ← f a; Ok (Some b) | None => Ok None end.

Definition unit_payload (user executable config : string) (environment : option string) : string :=
  unlines (List.app (List.app (List.app ["[Unit]"; "Description=dynet full-takeover runtime"; "After=network-online.target"; "Wants=network-online.target"; "";
    "[Service]"; "Type=simple"; "User=" ++ user]
    (match environment with Some p => ["EnvironmentFile=" ++ p] | None => [] end))
    ["ExecStartPre=+" ++ executable ++ " router-hooks cleanup --config " ++ config;
     "ExecStartPre=+" ++ executable ++ " hooks cleanup --config " ++ config;
     "ExecStartPre=+" ++ executable ++ " dns-mapping cleanup --config " ++ config;
     "ExecStartPre=+" ++ executable ++ " apply --auto";
     "ExecStart=" ++ executable ++ " run --config " ++ config;
     "ExecReload=/bin/kill -HUP $MAINPID";
     "ExecStopPost=+" ++ executable ++ " router-hooks cleanup --config " ++ config;
     "ExecStopPost=+" ++ executable ++ " hooks cleanup --config " ++ config;
     "ExecStopPost=+" ++ executable ++ " dns-mapping cleanup --config " ++ config;
     "Restart=on-failure"; "RestartSec=1s"; "KillSignal=SIGTERM"; "TimeoutStopSec=10s"; "LimitNOFILE=4096";
     "AmbientCapabilities=CAP_NET_ADMIN"; "CapabilityBoundingSet=CAP_NET_ADMIN"; "NoNewPrivileges=true"; ""; "[Install]"])
    ["WantedBy=multi-user.target"]).

Definition unit_content (spec : ServiceSpec) : outcome string string :=
  executable ← path_arg (spec_executable spec);
  config ← path_arg (spec_config spec);
  environment ← optional path_arg (spec_environment_file spec);
  Ok (managed_content (unit_payload (spec_user spec) executable config environment)).

(** ** procd.rs *)
Definition init_path (paths : ServicePaths) : string := join (procd_init_dir paths) "dynet".

(** [str::replace] of the single quote *)
Fixpoint escape_quotes (s : string) : string :=
  match s with
  | "" => ""
  | String c r => (if Ascii.eqb c "'" then "'\''" else String c "") ++ escape_quotes r
  end.

Definition shell_arg (path : string) : outcome string string :=
  value ← path_text path;
  Ok ("'" ++ escape_quotes value ++ "'").

Definition init_payload (executable config : string) (environment : option string) : string :=
  unlines (List.app ["#!/bin/sh /etc/rc.common"; ""; "USE_PROCD=1"; "START=95"; "STOP=10"; "";
    "start_service() {";
    "procd_open_instance";
    "procd_set_param command " ++ executable ++ " service supervise --config " ++ config;
    "procd_set_param respawn 3600 5 5";
    "procd_set_param stdout 1";
    "procd_set_param stderr 1";
    "procd_set_param limits nofile='4096 4096'" ++
      match environment with
      | Some p => nl ++ "    while IFS= read -r entry; do" ++ nl ++ "        case " ++ dq ++ "$entry" ++ dq ++ " in ''|'#'*) continue ;; esac" ++ nl ++
          "        procd_append_param env " ++ dq ++ "$entry" ++ dq ++ nl ++ "    done < " ++ p
      | None => ""
      end;
    "procd_close_instance"; "}"; "";
    "reload_service() {"; "procd_send_signal dynet '*' HUP"; "}"; "";
    "stop_service() {";
    executable ++ " router-hooks cleanup --config " ++ config;
    executable ++ " hooks cleanup --config " ++ config;
    executable ++ " dns-mapping cleanup --config " ++ config]
    ["}"]).

Definition init_content (spec : ServiceSpec) : outcome string string :=
  executable ← shell_arg (spec_executable spec);
  config ← shell_arg (spec_config spec);
  environment ← optional shell_arg (spec_environment_file spec);
  Ok (managed_content (init_payload executable config environment)).

(** ** The file of a manager ([lib.rs], [ServiceController::artifact]) *)
Record Artifact := { artifact_id : string; artifact_path : string; artifact_content : string; artifact_mode : Z }.

Definition artifact (spec : ServiceSpec) (paths : ServicePaths) (m : ServiceManager) : outcome string Artifact :=
  match m with
  | Systemd =>
      content ← unit_content spec;
      Ok {| artifact_id := "service.systemd.unit"; artifact_path := unit_path paths; artifact_content := content; artifact_mode := 420 |}
  | Procd =>
      content ← init_content spec;
      Ok {| artifact_id := "service.procd.init"; artifact_path := init_path paths; artifact_content := content; artifact_mode := 493 |}
  | Auto => Panic
  end.
End artifact.

(** ** Lines *)
Lemma string_cons_app c (a b : string) : String c a ++ b = String c (a ++ b).
Proof. done. Qed.

Lemma string_nil_app (a : string) : "" ++ a = a.
Proof. done. Qed.

Lemma str_contains_string_app c (a b : string) : str_contains c (a ++ b) = str_contains c a || str_contains c b.
Proof. induction a as [|d a IH]; [done|]. rewrite string_cons_app. cbn [str_contains]. by rewrite IH, orb_assoc. Qed.

Lemma str_contains_unlines c ls : c ≠ lf → str_contains c (unlines ls) = existsb (str_contains c) ls.
Proof.
  intros Hc. induction ls as [|l ls IH]; [done|]. cbn [unlines existsb]. rewrite !str_contains_string_app, IH. unfold nl. cbn [str_contains].
  destruct (Ascii.eqb_spec c lf); [done|]. done.
Qed.

Definition line_ok (l : string) : Prop := str_contains lf l = false ∧ str_contains cr l = false.

Lemma strip_cr_ok l : line_ok l → strip_cr l = l.
Proof.
  intros [_ Hc]. unfold strip_cr. destruct (ends_with l _) eqn:E; [|done]. apply ends_with_spec in E as [p ->].
  rewrite str_contains_string_app in Hc. cbn [str_contains] in Hc. rewrite Ascii.eqb_refl in Hc. by rewrite orb_true_r in Hc.
Qed.

Lemma split_line l s : str_contains lf l = false → split lf (l ++ nl ++ s) = l :: split lf s.
Proof.
  induction l as [|d l IH]; [done|]. rewrite string_cons_app. cbn [str_contains split]. intros [Hd Hl]%orb_false_iff. rewrite Hd. by rewrite (IH Hl).
Qed.

Lemma split_once_line l s : str_contains lf l = false → split_once lf (l ++ nl ++ s) = Some (l, s).
Proof. induction l as [|d l IH]; [done|]. rewrite string_cons_app. cbn [str_contains split_once]. intros [Hd Hl]%orb_false_iff. rewrite Hd. by rewrite (IH Hl). Qed.

Lemma split_unlines ls : Forall line_ok ls → split lf (unlines ls) = (ls ++ [""])%list.
Proof. induction 1 as [|l ls [Hl _] Hls IH]; [done|]. cbn [unlines]. rewrite split_line by done. by rewrite IH. Qed.

Lemma lines_unlines ls : Forall line_ok ls → lines (unlines ls) = ls.
Proof.
  intros Hls. unfold lines. rewrite split_unlines by done. induction Hls as [|l ls Hl Hls IH]; [done|]. cbn [app line_list].
  rewrite IH, strip_cr_ok by done. by destruct ls.
Qed.

Lemma split_pieces_ok q : str_contains cr q = false → Forall line_ok (split lf q).
Proof.
  induction q as [|d q IH]; [intros _; by repeat constructor|]. cbn [str_contains split]. intros [Hd Hq]%orb_false_iff. specialize (IH Hq).
  destruct (Ascii.eqb lf d) eqn:E; [by constructor|]. destruct IH as [|p ps [H1 H2] Hps]; constructor; try done; split; cbn [str_contains]; rewrite ?E, ?Hd; done.
Qed.

Lemma unlines_split q : unlines (split lf q) = q ++ nl.
Proof.
  induction q as [|d q IH]; [done|]. cbn [split]. destruct (Ascii.eqb_spec lf d) as [<-|_]; [cbn [unlines]; by rewrite IH|].
  destruct (split lf q) as [|p ps]; [by destruct q|]. cbn [unlines] in *. by rewrite !string_cons_app, IH.
Qed.

Lemma split_cons q : ∃ p ps, split lf q = p :: ps.
Proof. destruct q as [|d q]; cbn [split]; [by eexists _, _|]. destruct (Ascii.eqb lf d); [by eexists _, _|]. destruct (split lf q); by eexists _, _. Qed.

Lemma concat_unlines l ls : String.concat nl (l :: ls) ++ nl = unlines (l :: ls).
Proof.
  revert l. induction ls as [|k ls IH]; intros l; [done|]. specialize (IH k). cbn [unlines] in *. rewrite <- IH.
  change (String.concat nl (l :: k :: ls)) with (l ++ nl ++ String.concat nl (k :: ls)). by rewrite !string_app_assoc.
Qed.

Lemma digit_char_ok d : (0 ≤ d < 16)%Z → digit_char d ≠ lf ∧ digit_char d ≠ cr.
Proof.
  intros Hd. assert (d = Z.of_nat (Z.to_nat d)) as -> by lia. assert (Z.to_nat d < 16)%nat as Hn by lia.
  revert Hn. generalize (Z.to_nat d). intros n Hn. do 16 (destruct n as [|n]; [split; vm_compute; discriminate|]). lia.
Qed.

Lemma hex_text_ok l : line_ok (hex_text l).
Proof.
  unfold hex_text. induction l as [|b l IH]; [done|].
  assert (∃ x y, hex_byte b = String x (String y "") ∧ x ≠ lf ∧ x ≠ cr ∧ y ≠ lf ∧ y ≠ cr) as (x & y & E & ? & ? & ? & ?).
  { pose proof (b2z_range b). destruct (digit_char_ok (b2z b / 16)); [Z.div_mod_to_equations; lia|]. destruct (digit_char_ok (b2z b mod 16)); [Z.div_mod_to_equations; lia|]. by eexists _, _. }
  assert (String.concat "" (List.map hex_byte (b :: l)) = String x (String y (String.concat "" (List.map hex_byte l)))) as ->.
  { cbn [List.map]. rewrite E. destruct l; done. }
  destruct IH as [IH1 IH2]. unfold line_ok. cbn [str_contains]. rewrite IH1, IH2. destruct (Ascii.eqb_spec lf x), (Ascii.eqb_spec lf y), (Ascii.eqb_spec cr x), (Ascii.eqb_spec cr y); subst; done.
Qed.

(** ** Ownership *)
Section ownership.
Context (sha256 : bytes → bytes).
Abbreviation digest := (digest sha256).
Abbreviation managed_content := (managed_content sha256).
Abbreviation classify_text := (classify_text sha256).

Lemma marker_ok : line_ok OWNER_MARKER.
Proof. done. Qed.

Lemma hash_line_ok p : line_ok (HASH_PREFIX ++ digest p).
Proof. destruct (hex_text_ok (sha256 (list_byte_of_string p))) as [H1 H2]. unfold ServiceArtifact.digest. split; rewrite str_contains_string_app; [by rewrite H1|by rewrite H2]. Qed.

Lemma strip_prefix_app p s : strip_prefix (p ++ s) p = Some s.
Proof. unfold strip_prefix, starts_with. by rewrite prefix_app, str_drop_app. Qed.

(** The text with its marker, as lines. *)
Lemma managed_lines l1 rest : line_ok l1 →
  managed_content (l1 ++ nl ++ rest ++ nl) =
    unlines (List.app (if starts_with l1 "#!" then [l1] else [])
      (OWNER_MARKER :: (HASH_PREFIX ++ digest (l1 ++ nl ++ rest ++ nl)) :: List.app (if starts_with l1 "#!" then [] else [l1]) (split lf rest))).
Proof.
  intros [Hl _]. unfold ServiceArtifact.managed_content. rewrite split_once_line by done. unfold opt_filter. cbn [fst].
  destruct (starts_with l1 "#!"); cbn [app unlines]; rewrite unlines_split, ?string_app_assoc; done.
Qed.

Lemma classify_managed l1 rest desired desired_mode mode : line_ok l1 → str_contains cr rest = false →
  let c := managed_content (l1 ++ nl ++ rest ++ nl) in
  classify_text desired desired_mode c mode = if String.eqb c desired && mode_matches mode desired_mode then Ready else ManagedUpdate.
Proof.
  intros Hl Hr. cbn zeta. set (payload := l1 ++ nl ++ rest ++ nl). unfold ServiceArtifact.classify_text. destruct (String.eqb _ desired); [done|]. cbn [andb].
  pose proof (split_pieces_ok rest Hr) as Hok. pose proof (unlines_split rest) as Hu. destruct (split_cons rest) as (p & ps & Es). unfold payload. rewrite managed_lines by done. fold payload. rewrite Es in Hok, Hu |- *.
  pose proof (hash_line_ok payload) as Hh. pose proof marker_ok as Hm.
  destruct (starts_with l1 "#!") eqn:E; cbn [app]; rewrite lines_unlines by (do 3 (apply Forall_cons_2; [done|]); exact Hok); cbn [head opt_filter].
  - rewrite E. cbn [tail head]. rewrite bool_decide_eq_true_2 by done. cbn [negb mbind option_bind]. rewrite strip_prefix_app. cbn [tail].
    rewrite concat_unlines, Hu. fold payload. by rewrite String.eqb_refl.
  - change (starts_with OWNER_MARKER "#!") with false. cbn [tail head]. rewrite bool_decide_eq_true_2 by done. cbn [negb mbind option_bind]. rewrite strip_prefix_app. cbn [tail].
    rewrite concat_unlines. cbn [unlines] in *. rewrite Hu. fold payload. by rewrite String.eqb_refl.
Qed.

Lemma unlines_app a b : unlines (a ++ b)%list = unlines a ++ unlines b.
Proof. induction a as [|l a IH]; [done|]. cbn [app unlines]. by rewrite IH, !string_app_assoc. Qed.

(** A text of lines with a first and a last one. *)
Lemma payload_shape l1 ls ln : existsb (str_contains cr) (ls ++ [ln])%list = false →
  ∃ rest, unlines (l1 :: ls ++ [ln])%list = l1 ++ nl ++ rest ++ nl ∧ str_contains cr rest = false.
Proof.
  intros H. rewrite existsb_app in H. apply orb_false_iff in H as [H1 H2]. cbn [existsb] in H2. rewrite orb_false_r in H2. exists (unlines ls ++ ln). split.
  - cbn [unlines]. rewrite unlines_app. cbn [unlines]. by rewrite string_app_nil_r, !string_app_assoc.
  - rewrite str_contains_string_app, str_contains_unlines by done. by rewrite H1, H2.
Qed.

Lemma strip_prefix_Some s p r : strip_prefix s p = Some r ↔ s = p ++ r.
Proof.
  split; [|intros ->; apply strip_prefix_app]. unfold strip_prefix, starts_with. revert s. induction p as [|c p IH]; intros s; [by destruct s; intros [= <-]|].
  destruct s as [|d s]; [done|]. cbn [String.prefix]. destruct (ascii_dec c d) as [<-|]; [|done]. cbn [String.length str_drop]. intros H.
  rewrite string_cons_app. f_equal. by apply IH.
Qed.

(** The specification of an owned text: below an optional [#!] line the marker and a digest
    of the rest. *)
Definition owned_text (c : string) : Prop :=
  ∃ shebang h body,
    (shebang = [] ∨ ∃ l, shebang = [l] ∧ starts_with l "#!" = true) ∧
    lines c = List.app shebang (OWNER_MARKER :: (HASH_PREFIX ++ h) :: body) ∧
    h = digest (unlines shebang ++ String.concat nl body ++ nl).

Lemma classify_text_owned desired desired_mode c mode :
  is_hard_failure (classify_text desired desired_mode c mode) = false ↔ c = desired ∨ owned_text c.
Proof.
  unfold ServiceArtifact.classify_text. destruct (String.eqb_spec c desired) as [->|Hne].
  { split; [by left|]. by destruct (mode_matches _ _). }
  split.
  - destruct (lines c) as [|l1 ls] eqn:El; [done|]. cbn [head opt_filter]. destruct (starts_with l1 "#!") eqn:Es; cbn [head tail].
    + destruct ls as [|m ls]; [done|]. cbn [head tail]. case_bool_decide as Hm; [|done]. injection Hm as ->. cbn [negb]. destruct ls as [|hl ls]; [done|]. cbn [head tail mbind option_bind].
      destruct (strip_prefix hl HASH_PREFIX) as [h|] eqn:Eh; [|done]. apply strip_prefix_Some in Eh as ->.
      destruct (String.eqb_spec (digest (l1 ++ nl ++ String.concat nl ls ++ nl)) h) as [<-|]; [|done]. intros _. right. exists [l1]. eexists _, ls. split; [right; by exists l1|].
      split; [exact El|]. cbn [unlines]. by rewrite string_app_nil_r, !string_app_assoc.
    + case_bool_decide as Hm; [|done]. injection Hm as ->. cbn [negb]. destruct ls as [|hl ls]; [done|]. cbn [head tail mbind option_bind].
      destruct (strip_prefix hl HASH_PREFIX) as [h|] eqn:Eh; [|done]. apply strip_prefix_Some in Eh as ->.
      destruct (String.eqb_spec (digest (String.concat nl ls ++ nl)) h) as [<-|]; [|done]. intros _. right. exists []. eexists _, ls. split; [by left|]. by split.
  - intros [?|(sh & h & body & Hsh & El & Eh)]; [done|]. rewrite El. destruct Hsh as [->|(l & -> & Hl)]; cbn [app head opt_filter unlines] in *.
    + change (starts_with OWNER_MARKER "#!") with false. cbn [tail head]. rewrite bool_decide_eq_true_2 by done. cbn [negb mbind option_bind]. rewrite strip_prefix_app. cbn [tail].
      rewrite Eh. change ("" ++ ?x) with x. by rewrite String.eqb_refl.
    + rewrite Hl. cbn [tail head]. rewrite bool_decide_eq_true_2 by done. cbn [negb mbind option_bind]. rewrite strip_prefix_app. cbn [tail].
      rewrite Eh, string_app_nil_r, !string_app_assoc. by rewrite String.eqb_refl.
Qed.

(** ** The texts of the two managers *)
Definition no_cr (s : string) : Prop := str_contains cr s = false.
Definition spec_no_cr (spec : ServiceSpec) : Prop :=
  no_cr (spec_user spec) ∧ no_cr (spec_executable spec) ∧ no_cr (spec_config spec) ∧
  match spec_environment_file spec with Some p => no_cr p | None => True end.

Lemma escape_no_cr s : no_cr s → no_cr (escape_quotes s).
Proof.
  unfold no_cr. induction s as [|c s IH]; [done|]. cbn [str_contains escape_quotes]. intros [Hc Hs]%orb_false_iff. rewrite str_contains_string_app, IH by done.
  destruct (Ascii.eqb c "'"); cbn [str_contains]; [done|]. by rewrite Hc.
Qed.

Lemma path_text_Ok p v : path_text p = Ok v → v = p.
Proof. unfold path_text. repeat case_match; congruence. Qed.

Lemma path_arg_Ok p v : path_arg p = Ok v → v = p.
Proof. intros (x & ->%path_text_Ok & H)%outcome_bind_Ok_inv. revert H. case_match; congruence. Qed.

Lemma shell_arg_Ok p v : shell_arg p = Ok v → v = "'" ++ escape_quotes p ++ "'".
Proof. intros (x & ->%path_text_Ok & H)%outcome_bind_Ok_inv. congruence. Qed.

Lemma shell_arg_no_cr p v : shell_arg p = Ok v → no_cr p → no_cr v.
Proof. intros ->%shell_arg_Ok Hp%escape_no_cr. unfold no_cr in *. by rewrite !str_contains_string_app, Hp. Qed.

Lemma optional_Ok {A B E} (f : A → outcome E B) o r : optional f o = Ok r →
  match o with Some a => ∃ b, f a = Ok b ∧ r = Some b | None => r = None end.
Proof. destruct o as [a|]; [|by intros [= <-]]. intros (b & Hb & H)%outcome_bind_Ok_inv. exists b. split; [done|congruence]. Qed.

(** The payload of every artifact is a line, more lines without carriage returns, and a
    last line feed. *)
Lemma artifact_payload spec paths m a : artifact sha256 spec paths m = Ok a → spec_no_cr spec →
  ∃ l1 rest, artifact_content a = managed_content (l1 ++ nl ++ rest ++ nl) ∧ line_ok l1 ∧ str_contains cr rest = false.
Proof.
  intros Ha (Hu & He & Hc & Hv). destruct m; [done|..]; apply outcome_bind_Ok_inv in Ha as (c & Hco & Ha).
  - assert (artifact_content a = c) as -> by (by injection Ha as <-). clear Ha. unfold unit_content in Hco.
    apply outcome_bind_Ok_inv in Hco as (x & ->%path_arg_Ok & Hco). apply outcome_bind_Ok_inv in Hco as (y & ->%path_arg_Ok & Hco).
    apply outcome_bind_Ok_inv in Hco as (z & Hz%optional_Ok & Hco). assert (c = managed_content (unit_payload (spec_user spec) (spec_executable spec) (spec_config spec) z)) as -> by congruence. clear Hco.
    assert (match z with Some p => no_cr p | None => True end) as Hzc. { destruct (spec_environment_file spec) as [p|]; [destruct Hz as (b & ->%path_arg_Ok & ->); done|by subst]. }
    unfold unit_payload. unfold no_cr in *. 
    lazymatch goal with |- context [unlines (List.app (List.app (List.app (?l1 :: ?ls) ?e) ?l2) [?ln])] =>
      destruct (payload_shape l1 (List.app (List.app ls e) l2) ln) as (rest & E & Hr) end.
    { rewrite !existsb_app. destruct z; cbn [existsb]; rewrite !str_contains_string_app, ?Hu, ?He, ?Hc, ?Hzc; done. }
    exists "[Unit]", rest. cbn [List.app] in E |- *. rewrite E. done.
  - assert (artifact_content a = c) as -> by (by injection Ha as <-). clear Ha. unfold init_content in Hco.
    apply outcome_bind_Ok_inv in Hco as (x & Hx & Hco). apply outcome_bind_Ok_inv in Hco as (y & Hy & Hco). apply (shell_arg_no_cr _ _ Hx) in He. apply (shell_arg_no_cr _ _ Hy) in Hc.
    apply outcome_bind_Ok_inv in Hco as (z & Hz%optional_Ok & Hco). assert (c = managed_content (init_payload x y z)) as -> by congruence. clear Hco.
    assert (match z with Some p => no_cr p | None => True end) as Hzc. { destruct (spec_environment_file spec) as [p|]; [destruct Hz as (b & Hb & ->); by apply (shell_arg_no_cr p)|by subst]. }
    unfold init_payload. unfold no_cr in *. 
    lazymatch goal with |- context [unlines (List.app (?l1 :: ?ls) [?ln])] => destruct (payload_shape l1 ls ln) as (rest & E & Hr) end.
    { rewrite !existsb_app. destruct z; cbn [existsb]; rewrite !str_contains_string_app, ?He, ?Hc, ?Hzc; done. }
    exists "#!/bin/sh /etc/rc.common", rest. cbn [List.app] in E |- *. rewrite E. done.
Qed.
End ownership.

(** ** Replacing the file *)
Section atomic.
Context {H : Type} (process_id creation_mode : Z).
Implicit Types w : World H.

Lemma components_last p n : last (components p) = Some n → components p = List.app (removelast (components p)) [n].
Proof.
  intros Hn. destruct (decide (components p = [])) as [E|E]; [by rewrite E in Hn|]. pose proof (app_removelast_last n E) as Ha.
  rewrite Ha at 1. do 2 f_equal. rewrite Ha in Hn. rewrite last_snoc in Hn. congruence.
Qed.

Lemma put_run k n w : put k n w = (set_tree w (<[k := n]> (tree w)), Ok tt).
Proof. done. Qed.

Lemma write_content_spec t content w w' r : write_content creation_mode t content w = (w', r) →
  host (machine w') = host (machine w) ∧
  match r with
  | Ok _ => tree w' = <[t := Regular content creation_mode]> (tree w)
  | Err _ => ∃ c m, tree w' = <[t := Regular c m]> (tree w)
  | Panic => False
  end.
Proof.
  intros [(w1 & f & [E _]%next_fault_inv & Hw)|[(e & E & _)|[E _]]]%act_bind_cases; [|apply next_fault_inv in E as [_ [? ?]]; done..].
  pose proof (tree_machine _ _ E) as T. destruct f as [x|]; injection Hw as <- <-; cbn; rewrite E; (split; [done|]); [eexists _, _|]; by rewrite <- T.
Qed.

Lemma set_mode_spec t mode c m w w' r : tree w !! t = Some (Regular c m) → set_mode t mode w = (w', r) →
  host (machine w') = host (machine w) ∧
  match r with
  | Ok _ => tree w' = <[t := Regular c mode]> (tree w)
  | Err _ => tree w' = tree w
  | Panic => False
  end.
Proof.
  intros Ht [[E [e ->]]|(w1 & E & Hw)]%fs_call_inv; [rewrite E; split; [done|by apply tree_machine]|].
  rewrite <- (tree_machine _ _ E) in Ht |- *. unfold mbind, act_bind, get in Hw. rewrite Ht in Hw. injection Hw as <- <-. cbn. by rewrite E.
Qed.

Lemma rename_spec t path n w w' r : tree w !! t = Some n → t ≠ key path → rename t path w = (w', r) →
  host (machine w') = host (machine w) ∧
  match r with
  | Ok _ => tree w' = <[key path := n]> (delete t (tree w))
  | Err _ => tree w' = tree w
  | Panic => False
  end.
Proof.
  intros Ht Hne [[E [e ->]]|(w1 & E & Hw)]%fs_call_inv; [rewrite E; split; [done|by apply tree_machine]|].
  rewrite <- (tree_machine _ _ E) in Ht |- *. unfold mbind, act_bind, get in Hw. rewrite Ht in Hw. rewrite <- E.
  destruct (tree w1 !! key path) as [[]|]; injection Hw as <- <-; done.
Qed.

Lemma try_write_spec t path content mode w w' r : t ≠ key path →
  try_write creation_mode t path content mode w = (w', r) →
  host (machine w') = host (machine w) ∧
  match r with
  | Ok _ => tree w' = <[key path := Regular content mode]> (delete t (tree w))
  | Err _ => ∃ c m, tree w' = <[t := Regular c m]> (tree w)
  | Panic => False
  end.
Proof.
  intros Hne [(w1 & [] & E1 & Hw)|[(e & E1 & ->)|[E1 ->]]]%act_bind_cases; apply write_content_spec in E1 as [H1 T1]; [|done..].
  rewrite <- H1. apply act_bind_cases in Hw as [(w2 & [] & E2 & Hw)|[(e & E2 & ->)|[E2 ->]]]; apply fs_call_inv in E2 as [[E2 [? ?]]|(? & E2 & Er)]; try done.
  2: { rewrite E2, (tree_machine _ _ E2), T1. eauto. }
  injection Er as ->. rewrite <- E2. rewrite <- (tree_machine _ _ E2) in T1. clear E2.
  assert (tree w2 !! t = Some (Regular content creation_mode)) as Ht by (rewrite T1; apply lookup_insert_eq).
  apply act_bind_cases in Hw as [(w3 & [] & E3 & Hw)|[(e & E3 & ->)|[E3 ->]]]; apply (set_mode_spec _ _ _ _ _ _ _ Ht) in E3 as [H3 T3]; [|rewrite H3, T3; eauto|done].
  rewrite T1, insert_insert_eq in T3. rewrite <- H3. apply (rename_spec _ _ (Regular content mode)) in Hw as [H4 T4]; [|rewrite T3; apply lookup_insert_eq|done]. split; [done|].
  destruct r; [|rewrite T4; eauto|done]. rewrite T4, T3. f_equal. apply delete_insert_eq.
Qed.

Lemma create_new_spec t w w' r : create_new creation_mode t w = (w', r) →
  host (machine w') = host (machine w) ∧
  match r with
  | Ok _ => tree w !! t = None ∧ tree w' = <[t := Regular "" creation_mode]> (tree w)
  | Err _ => tree w' = tree w
  | Panic => False
  end.
Proof.
  intros [[E [e ->]]|(w1 & E & Hw)]%fs_call_inv; [rewrite E; split; [done|by apply tree_machine]|].
  rewrite <- (tree_machine _ _ E), <- E. unfold mbind, act_bind, get in Hw. destruct (tree w1 !! t) eqn:Et; injection Hw as <- <-; done.
Qed.

(** *** Which calls were made

    The calls between two worlds are the answers that were taken from the list. *)
Definition made w w' (l : list (option Fault)) : Prop := faults w = List.app l (faults w').
Definition last_failed w w' : Prop := ∃ l x, made w w' (List.app l [Some x]).

Lemma made_trans w1 w2 w3 l1 l2 : made w1 w2 l1 → made w2 w3 l2 → made w1 w3 (List.app l1 l2).
Proof. unfold made. intros -> ->. by rewrite app_assoc. Qed.

Lemma last_failed_behind w1 w2 w3 l : made w1 w2 l → last_failed w2 w3 → last_failed w1 w3.
Proof. intros H1 (l' & x & H2). exists (List.app l l'), x. rewrite <- app_assoc. by eapply made_trans. Qed.

Lemma next_fault_made w w' f : next_fault w = (w', Ok f) → made w w' [f] ∨ (f = None ∧ made w w' [] ∧ faults w' = []).
Proof. unfold next_fault, made. destruct (faults w) eqn:E; intros [= <- <-]; [by right; rewrite E|by left]. Qed.

Lemma fs_call_made {A} describe (m : act (World H) string A) w w' r : fs_call describe m w = (w', r) →
  (last_failed w w' ∧ ∃ e, r = Err e) ∨ ∃ w1, machine w1 = machine w ∧ (made w w1 [None] ∨ made w w1 [] ∧ faults w1 = []) ∧ m w1 = (w', r).
Proof.
  intros [(w1 & f & E & Hw)|[(e & E & _)|[E _]]]%act_bind_cases; [|by apply next_fault_inv in E as [_ [? ?]]..].
  pose proof (next_fault_made _ _ _ E) as Hm. apply next_fault_inv in E as [E _]. destruct f as [x|].
  - injection Hw as <- <-. left. split; [|by eexists]. destruct Hm as [Hm|[[=] _]]. by exists [], x.
  - right. exists w1. split; [done|]. split; [|done]. destruct Hm as [|(_ & ? & ?)]; auto.
Qed.

Lemma fs_call_ok {A} describe (m : act (World H) string A) (a : A) w w' : (∀ w1 w2 b, m w1 = (w2, Ok b) → faults w2 = faults w1) →
  fs_call describe m w = (w', Ok a) → ∃ l, made w w' l.
Proof. intros Hm [[_ [? ?]]|(w1 & _ & Hl & E%Hm)]%fs_call_made; [done|]. unfold made in *. rewrite E. destruct Hl as [|[]]; by eexists. Qed.

(** Writing fails at a call that fails, or because a directory is in the way. *)
Lemma try_write_made t path content mode w w' e : t ≠ key path → try_write creation_mode t path content mode w = (w', Err e) →
  last_failed w w' ∨ (tree w !! key path = Some Directory ∧ (faults w' = [] ∨ ∃ l, made w w' (List.app l [None]))).
Proof.
  intros Hne [(w1 & [] & E1 & Hw)|[(e1 & E1 & _)|[E1 [=]]]]%act_bind_cases.
  2: { apply act_bind_cases in E1 as [(w1 & f & E & Hw)|[(e0 & E & _)|[E _]]]; [|by apply next_fault_inv in E as [_ [? ?]]..].
    destruct f as [x|]; [|done]. apply next_fault_made in E as [E|[[=] _]]. left. exists [], x. injection Hw as <- _. exact E. }
  pose proof (write_content_spec _ _ _ _ _ E1) as [_ T1].
  assert (∃ l, made w w1 l) as [l1 M1].
  { apply act_bind_cases in E1 as [(w0 & f & E & Hc)|[(e0 & E & _)|[E _]]]; [|by apply next_fault_inv in E as [_ [? ?]]..].
    destruct f as [x|]; [done|]. injection Hc as <-. apply next_fault_made in E as [E|(_ & E & _)]; by eexists. }
  apply act_bind_cases in Hw as [(w2 & [] & E2 & Hw)|[(e2 & E2 & _)|[E2 [=]]]].
  2: { apply fs_call_made in E2 as [[E2 _]|(? & _ & _ & [=])]. left. by eapply last_failed_behind. }
  pose proof (fs_call_inv _ _ _ _ _ E2) as [[_ [? ?]]|(w2' & K2 & [= ->])]; [done|]. rewrite <- (tree_machine _ _ K2) in T1.
  assert (∃ l, made w1 w2 l) as [l2 M2] by (apply fs_call_ok in E2; [done|by intros w4 w5 [] [= <-]]).
  assert (tree w2 !! t = Some (Regular content creation_mode)) as Ht by (rewrite T1; apply lookup_insert_eq).
  pose proof (made_trans _ _ _ _ _ M1 M2) as M12. clear M1 M2 E1 E2 K2.
  apply act_bind_cases in Hw as [(w3 & [] & E3 & Hw)|[(e3 & E3 & _)|[E3 [=]]]].
  2: { apply fs_call_made in E3 as [[E3 _]|(w4 & K4 & _ & E3)]; [left; by eapply last_failed_behind|].
    unfold mbind, act_bind, get in E3. rewrite (tree_machine _ _ K4), Ht in E3. discriminate E3. }
  pose proof (set_mode_spec _ _ _ _ _ _ _ Ht E3) as [_ T3].
  assert (∃ l, made w2 w3 l) as [l3 M3].
  { apply fs_call_ok in E3; [done|]. intros w4 w5 []. unfold mbind, act_bind, get. destruct (tree w4 !! t) as [[]|]; by intros [= <-]. }
  pose proof (made_trans _ _ _ _ _ M12 M3) as M13. clear M12 M3 E3.
  apply fs_call_made in Hw as [[Hw _]|(w4 & K4 & M4 & Hw)]; [left; by eapply last_failed_behind|right].
  unfold mbind, act_bind, get in Hw. rewrite (tree_machine _ _ K4), T3, lookup_insert_eq in Hw.
  rewrite lookup_insert_ne, T1, lookup_insert_ne in Hw by done.
  destruct (tree w !! key path) as [[]|]; try discriminate Hw. injection Hw as <- _. split; [done|].
  destruct M4 as [M4|[_ M4]]; [right|by left]. exists (List.app (List.app l1 l2) l3). by eapply made_trans.
Qed.

Lemma remove_made t n w w' e : tree w !! t = Some n → n ≠ Directory → remove_file t id w = (w', Err e) → ∃ x, made w w' [Some x].
Proof.
  intros Ht Hn [(w1 & f & E & Hw)|[(e1 & E & _)|[E _]]]%act_bind_cases; [|by apply next_fault_inv in E as [_ [? ?]]..].
  pose proof (next_fault_inv _ _ _ E) as [K _]. destruct f as [x|].
  - apply next_fault_made in E as [E|[[=] _]]. injection Hw as <- _. by exists x.
  - unfold mbind, act_bind, get in Hw. rewrite (tree_machine _ _ K), Ht in Hw. by destruct n.
Qed.

Lemma is_dir_made k w w' r : is_dir k w = (w', r) → ∃ l, made w w' l.
Proof.
  intros [(w1 & f & E & Hw)|[(e1 & E & _)|[E _]]]%act_bind_cases; [|by apply next_fault_inv in E as [_ [? ?]]..].
  apply next_fault_made in E. injection Hw as <- _. destruct E as [E|(_ & E & _)]; by eexists.
Qed.

Lemma create_new_made t w w' : create_new creation_mode t w = (w', Ok tt) → ∃ l, made w w' l.
Proof. apply fs_call_ok. intros w1 w2 []. unfold mbind, act_bind, get. destruct (tree w1 !! t); by intros [= <-]. Qed.

(** What a run must have met to leave its temporary file: the last call, which removes it,
    failed, behind a call that failed as well, or that found a directory at the path. *)
Definition removal_failed (path : string) w w' : Prop :=
  ∃ l g x, made w w' (List.app l [g; Some x]) ∧ (is_Some g ∨ tree w !! key path = Some Directory).

Definition temporary (path : string) : option FileKey :=
  p ← parent path; n ← opt_filter (λ n, utf8_valid (list_byte_of_string n)) (file_name path);
  Some (join_key p (temporary_name process_id n)).

Lemma temporary_ne path t : temporary path = Some t → t ≠ key path.
Proof.
  unfold temporary, parent, file_name. destruct (components path) as [|c cs] eqn:Ec; [done|]. rewrite <- Ec. cbn [mbind option_bind].
  destruct (last (components path)) as [n|] eqn:El; [|done]. destruct (String.eqb n ".."); [done|]. unfold opt_filter. destruct (utf8_valid _); [|done]. cbn [mbind option_bind].
  intros [= <-] Heq. unfold key, join_key in Heq. injection Heq as Heq. cbn [snd] in Heq. rewrite (components_last path n El) in Heq. rewrite removelast_last in Heq.
  apply app_inj_tail in Heq as [_ Heq]. apply (f_equal String.length) in Heq. unfold temporary_name in Heq. rewrite !string_length_app in Heq. cbn in Heq. lia.
Qed.

Lemma atomic_write_facts path content mode w w' r :
  atomic_write process_id creation_mode path content mode w = (w', r) →
  host (machine w') = host (machine w) ∧
  (∀ k, k ≠ key path → Some k ≠ temporary path → tree w' !! k = tree w !! k) ∧
  match r with
  | Ok _ => tree w' !! key path = Some (Regular content mode) ∧ (∀ t, temporary path = Some t → tree w !! t = None ∧ tree w' !! t = None)
  | Err _ => tree w' !! key path = tree w !! key path ∧
      ∀ t, temporary path = Some t → tree w' !! t = tree w !! t ∨ removal_failed path w w'
  | Panic => False
  end.
Proof.
  unfold atomic_write. destruct (parent path) as [pk|] eqn:Ep; [|intros [= <- <-]; split_and!; auto]. cbn [ok_or].
  intros [(w1 & pk' & [= <- <-] & Hw)|[(e & [=] & _)|[[=] _]]]%act_bind_cases.
  apply act_bind_cases in Hw as [(w1 & b & E1 & Hw)|[(e & E1 & ->)|[E1 ->]]]; pose proof (is_dir_made _ _ _ _ E1) as [l1 M1]; apply obeys_is_dir in E1 as [E1 Hnp]; [|rewrite E1, (tree_machine _ _ E1); split_and!; auto|done]. clear Hnp.
  pose proof (tree_machine _ _ E1) as Ed. rewrite <- E1, <- (tree_machine _ _ E1). clear E1. destruct b; cbn [negb] in Hw; [|injection Hw as <- <-; split_and!; auto].
  destruct (opt_filter _ (file_name path)) as [n|] eqn:En; cbn [ok_or] in Hw; [|injection Hw as <- <-; split_and!; auto].
  apply act_bind_cases in Hw as [(w2 & n' & [= <- <-] & Hw)|[(e & [=] & _)|[[=] _]]]. set (t := join_key pk (temporary_name process_id n)) in *.
  assert (temporary path = Some t) as Et by (unfold temporary; rewrite Ep; cbn [mbind option_bind]; by rewrite En).
  pose proof (temporary_ne path t Et) as Hne. rewrite Et.
  apply act_bind_cases in Hw as [(w2 & [] & E2 & Hw)|[(e & E2 & ->)|[E2 ->]]]; [pose proof (create_new_made _ _ _ E2) as [l2 M2]|..]; apply create_new_spec in E2 as [H2 T2]; [|split_and!; [done|intros; by rewrite T2|by rewrite T2|intros ? _; left; by rewrite T2]|done].
  destruct T2 as [Hnone T2]. unfold write_or_remove in Hw. destruct (try_write _ _ _ _ _ w2) as [w3 r3] eqn:E3. pose proof E3 as E3'. apply try_write_spec in E3 as [H3 T3]; [|done].
  destruct r3 as [[]|e|]; [| |done].
  - injection Hw as <- <-. split; [congruence|]. split; [|split].
    + intros k Hk Hkt. rewrite T3, lookup_insert_ne, lookup_delete_ne, T2, lookup_insert_ne by congruence. done.
    + rewrite T3. apply lookup_insert_eq.
    + intros ? [= <-]. split; [done|]. rewrite T3, lookup_insert_ne by congruence. apply lookup_delete_eq.
  - destruct T3 as (c & m & T3). rewrite T2, insert_insert_eq in T3. destruct (remove_file t id w3) as [w4 r4] eqn:E4. injection Hw as <- <-. cbn [fst].
    pose proof E4 as E4'. apply remove_file_spec in E4 as [H4 T4]. split; [congruence|]. split; [|split].
    + intros k Hk Hkt. destruct r4; try done; rewrite T4, ?lookup_delete_ne, T3, lookup_insert_ne by congruence; done.
    + destruct r4; try done; rewrite T4, ?lookup_delete_ne, T3, lookup_insert_ne by congruence; done.
    + intros ? [= <-]. destruct r4 as [[]|e'|]; [left; rewrite T4, Hnone; apply lookup_delete_eq|right|done].
      apply (remove_made _ (Regular c m)) in E4' as [x M4]; [|rewrite T3; apply lookup_insert_eq|done].
      assert (made w w2 (List.app l1 l2)) as M12 by (by eapply made_trans). unfold removal_failed.
      apply try_write_made in E3' as [(l3 & y & M3)|(Hdir & [Hnil|(l3 & M3)])]; [..|done].
      * exists (List.app (List.app l1 l2) l3), (Some y), x. split; [|left; by eexists].
        pose proof (made_trans _ _ _ _ _ M12 (made_trans _ _ _ _ _ M3 M4)) as M. by rewrite <- !app_assoc in M |- *.
      * unfold made in M4. by rewrite Hnil in M4.
      * exists (List.app (List.app l1 l2) l3), None, x. rewrite T2, lookup_insert_ne, Ed in Hdir by done. split; [|by right].
        pose proof (made_trans _ _ _ _ _ M12 (made_trans _ _ _ _ _ M3 M4)) as M. by rewrite <- !app_assoc in M |- *.
Qed.

(** C15: replacing the file is all or nothing, wherever a call fails: the path has the
    complete new content and mode, or what it had, and nothing else of the machine changes but
    the temporary file. A run that ends in an error leaves that file as it found it, unless the call that
    removes it, the last of the run, fails: then the one before it has failed too, or has
    found a directory at the path. *)
Theorem atomic_write_spec path content mode w w' r :
  atomic_write process_id creation_mode path content mode w = (w', r) →
  host (machine w') = host (machine w) ∧
  (∀ k, k ≠ key path → Some k ≠ temporary path → tree w' !! k = tree w !! k) ∧
  match r with
  | Ok _ => tree w' !! key path = Some (Regular content mode) ∧ (∀ t, temporary path = Some t → tree w !! t = None ∧ tree w' !! t = None)
  | Err _ => tree w' !! key path = tree w !! key path ∧
      ∀ t, temporary path = Some t → tree w' !! t = tree w !! t ∨ removal_failed path w w'
  | Panic => False
  end.
Proof. exact (atomic_write_facts path content mode w w' r). Qed.
End atomic.

(** files are told apart by their content: what is not refused is the wanted text or a text
    whose marker carries the digest of the rest, and the artifact of every specification, whatever is wanted
    instead of it, is recognised as the service's own, so that a new version always replaces the old
    one; it is ready exactly if text and mode are the wanted ones. *)
Theorem ownership_spec sha256 :
  (∀ desired desired_mode c mode,
    is_hard_failure (classify_text sha256 desired desired_mode c mode) = false ↔ c = desired ∨ owned_text sha256 c) ∧
  ∀ spec paths m a desired desired_mode mode, artifact sha256 spec paths m = Ok a → spec_no_cr spec →
    classify_text sha256 desired desired_mode (artifact_content a) mode =
      (if String.eqb (artifact_content a) desired && mode_matches mode desired_mode then Ready else ManagedUpdate).
Proof.
  split; [exact (classify_text_owned sha256)|]. intros spec paths m a desired dm mode Ha Hspec.
  destruct (artifact_payload sha256 spec paths m a Ha Hspec) as (l1 & rest & -> & Hl & Hr). by apply classify_managed.
Qed.

(** ** The shell reads the arguments back

    A word of a POSIX shell made of quoted parts and escaped or plain characters. *)
Fixpoint sh_word (quoted : bool) (s : string) : option (string * string) :=
  match s with
  | "" => if quoted then None else Some ("", "")
  | String c r =>
      let plain := match sh_word quoted r with Some (w, rest) => Some (String c w, rest) | None => None end in
      if quoted then if Ascii.eqb c "'" then sh_word false r else plain
      else if Ascii.eqb c "'" then sh_word true r
      else if Ascii.eqb c "\" then
        match r with
        | "" => None
        | String d r' => match sh_word false r' with Some (w, rest) => Some (String d w, rest) | None => None end
        end
      else if Ascii.eqb c " " || Ascii.eqb c lf then Some ("", s)
      else plain
  end.

(** Where a word ends. *)
Definition word_ends (s : string) : Prop := match s with "" => True | String c _ => c = " "%char ∨ c = lf end.

Lemma sh_word_ends s : word_ends s → sh_word false s = Some ("", s).
Proof. destruct s as [|c s]; [done|]. by intros [-> | ->]. Qed.

Lemma sh_word_escape s : sh_word true ("'\''" ++ s) = match sh_word true s with Some (w, rest) => Some (String "'" w, rest) | None => None end.
Proof. done. Qed.

Lemma sh_word_quoted v rest : word_ends rest → sh_word true (escape_quotes v ++ "'" ++ rest) = Some (v, rest).
Proof.
  intros Hr. induction v as [|c v IH]; [exact (sh_word_ends rest Hr)|]. cbn [escape_quotes]. rewrite string_app_assoc.
  destruct (Ascii.eqb c "'") eqn:Ec.
  - apply Ascii.eqb_eq in Ec as ->. rewrite sh_word_escape. by rewrite IH.
  - rewrite string_cons_app, string_nil_app. cbn [sh_word]. by rewrite Ec, IH.
Qed.

(** Whatever characters a path has, the shell that runs the init script reads the quoted
    argument back as exactly that path. *)
Theorem shell_arg_read p v rest : shell_arg p = Ok v → word_ends rest → sh_word false (v ++ rest) = Some (p, rest).
Proof.
  intros ->%shell_arg_Ok Hr. rewrite !string_app_assoc, string_cons_app, string_nil_app. cbn [sh_word]. by apply sh_word_quoted.
Qed.

(** ** Witnesses *)
Definition toy_service : ServiceSpec := {|
  spec_manager := Procd; spec_user := "dynet"; spec_executable := "/opt/it's/dynet"; spec_config := "/etc/dynet.toml";
  spec_runtime_database := "/var/dynet.sqlite"; spec_environment_file := Some "/etc/dynet.env" |}.
Definition toy_artifact : Artifact := unwrap_or {| artifact_id := ""; artifact_path := ""; artifact_content := ""; artifact_mode := 0 |}
  (artifact (λ l, take 2 l) toy_service default_paths Procd).

Lemma ownership_spec_witness : artifact_path toy_artifact = "/etc/init.d/dynet" ∧
  classify_text (λ l, take 2 l) "other" 420 (artifact_content toy_artifact) 493 = ManagedUpdate.
Proof.
  split; [vm_compute; reflexivity|].
  refine (eq_trans (proj2 (ownership_spec (λ l, take 2 l)) toy_service default_paths Procd toy_artifact "other" 420%Z 493%Z _ _) _).
  - apply is_ok_unwrap. vm_compute. reflexivity.
  - vm_compute. done.
  - vm_compute. reflexivity.
Defined.

Definition toy_files : World unit := mk_world (mk_machine
  (list_to_map [(key "/etc/init.d", Directory); (key "/etc/init.d/dynet", Regular "old" 420)]) tt)
  [None; None; Some {| fault_text := "No space left on device"; fault_written := 2 |}].
Definition toy_write : World unit * outcome string unit := atomic_write 7 420 "/etc/init.d/dynet" "new" 493 toy_files.

(** The disk is full after two bytes: the old file is there, the temporary one is not. *)
Lemma atomic_write_spec_witness : is_ok toy_write.2 = false ∧
  tree toy_write.1 !! key "/etc/init.d/dynet" = Some (Regular "old" 420) ∧ tree toy_write.1 !! key "/etc/init.d/.dynet.dynet-7" = None.
Proof.
  assert (tree toy_files !! key "/etc/init.d/dynet" = Some (Regular "old" 420)) as E0 by (vm_compute; reflexivity).
  assert (faults toy_write.1 = []) as Ef by (vm_compute; reflexivity).
  assert (is_ok toy_write.2 = false) as E1 by (vm_compute; reflexivity). split; [exact E1|].
  pose proof (atomic_write_spec 7 420 "/etc/init.d/dynet" "new" 493 toy_files toy_write.1 toy_write.2 (surjective_pairing toy_write)) as (_ & _ & H).
  destruct toy_write.2 as [u|e|]; [discriminate E1| |destruct H]. destruct H as [H1 H2]. split; [exact (eq_trans H1 E0)|].
  destruct (H2 (key "/etc/init.d/.dynet.dynet-7")) as [H|(l & g & x & Hm & Hg)]; [vm_compute; reflexivity|rewrite H; vm_compute; reflexivity|exfalso].
  unfold made in Hm. rewrite Ef, app_nil_r in Hm. cbn [faults toy_files] in Hm. destruct l as [|g1 [|g2 l]]; [discriminate Hm| |].
  - injection Hm as _ <- _. destruct Hg as [[y Hy]|Hd]; [discriminate Hy|]. rewrite E0 in Hd. discriminate Hd.
  - apply (f_equal length) in Hm. rewrite !length_app in Hm. cbn in Hm. lia.
Defined.

Lemma shell_arg_read_witness : is_ok (shell_arg "/opt/it's/dynet") = true ∧
  sh_word false (unwrap_or "" (shell_arg "/opt/it's/dynet") ++ " service") = Some ("/opt/it's/dynet", " service").
Proof.
  split; [vm_compute; reflexivity|].
  exact (shell_arg_read "/opt/it's/dynet" (unwrap_or "" (shell_arg "/opt/it's/dynet")) " service" (is_ok_unwrap "" (shell_arg "/opt/it's/dynet") eq_refl) (or_introl eq_refl)).
Defined.
