(* ===== verification/Service.v ===== *)
(** * Service: the controller of the system service

    [crates/dynet-service/src/lib.rs] with [runner.rs] and the process id of [procd.rs]: what the
    controller reads, writes and runs, over the files and commands of HostFiles and
    the owned file of ServiceArtifact. *)
From Stdlib Require Import ZArith Lia Ascii String Strings.Byte.
From stdpp Require Import base list numbers option strings gmap.
From S2P Require Import Prelude Net RustStd Wire HostFiles ConfigData ServiceArtifact.
Local Open Scope string_scope.

Definition SERVICE_NAME : string := "dynet".
Definition SYSTEMD_UNIT : string := "dynet.service".

(** ** model.rs: the reports *)
Record ServiceCheck := { check_id : string; check_state : ResourceState; check_detail : string }.
Record ServicePlan := { plan_manager : ServiceManager; plan_items : list string }.
Record ServiceStatus := {
  status_manager : ServiceManager; status_checks : list ServiceCheck; status_enabled : bool; status_active : bool; status_main_pid : option Z }.
Record ServiceApplyReport := {
  apply_manager : ServiceManager; apply_changed : list string; restart_required : bool; started : bool }.
Record ServiceCleanupReport := { cleanup_manager : ServiceManager; cleanup_changed : list string }.
Record ServiceIdentity := { uid : Z; gid : Z }.

Section controller.
Context {H : Type} `{!ServiceRunner H}.
(** The digest, the process id and mode of new files, the process id in the answer of
    [ubus] (serde_json). *)
Context (sha256 : bytes → bytes) (process_id creation_mode : Z) (json_main_pid : string → option Z).
Context (spec : ServiceSpec) (paths : ServicePaths).

Abbreviation service := (act (World H) string).
Abbreviation artifact := (artifact sha256 spec paths).
Abbreviation classify := (classify sha256).

(** ** runner.rs *)
Definition call (command : string) (args : list string) : service CommandOutput := λ w,
  let '(m, r) := run_command command args (machine w) in (mk_world m (faults w), of_result r).
Definition stream (command : string) (args : list string) : service unit := λ w,
  let '(m, r) := stream_command command args (machine w) in (mk_world m (faults w), of_result r).

Definition command_failure (command : string) (args : list string) (output : CommandOutput) : string :=
  let detail := if is_empty (stderr output) then stdout output else stderr output in
  command ++ " " ++ String.concat " " args ++ " failed: " ++ detail.

Definition run_required (command : string) (args : list string) : service CommandOutput :=
  output ← call command args;
  if success output then mret output else fail (command_failure command args output).

Definition command_success (command : string) (args : list string) : service bool :=
  output ← call command args; mret (success output).

(** ** procd.rs: [main_pid], where failures are no answer *)
Definition nonzero_u32 (pid : Z) : bool := bool_decide (pid < 2 ^ 32)%Z && negb (pid =? 0)%Z.
Definition main_pid : service (option Z) := λ w,
  let '(w', r) := call "ubus" ["call"; "service"; "list"; "{" ++ dq ++ "name" ++ dq ++ ":" ++ dq ++ "dynet" ++ dq ++ "}"] w in
  (w', Ok match r with
          | Ok output => if success output then opt_filter nonzero_u32 (json_main_pid (stdout output)) else None
          | _ => None
          end).

(** ** lib.rs *)
Definition manager : service ServiceManager :=
  match spec_manager spec with
  | Auto =>
      b ← is_dir (key (systemd_runtime_dir paths));
      if b : bool then mret Systemd
      else
        c ← is_file (key (procd_binary paths));
        if c : bool then mret Procd else fail "dynet service could not detect systemd or procd"
  | m => mret m
  end.

Definition plan : service ServicePlan :=
  m ← manager;
  a ← lift (artifact m);
  mret {| plan_manager := m; plan_items :=
    ["verify stable non-root service user " ++ spec_user spec;
     "reconcile owned service artifact " ++ artifact_path a;
     "enable dynet at boot";
     "start only when the service is currently inactive";
     "run the procd child as the configured non-root UID with only CAP_NET_ADMIN retained";
     "reconcile the takeover runtime skeleton before every start";
     "clean owned capture hooks and optional DNS mappings after every terminal process exit"] |}.

Definition resolve_identity_with (user : string) : service ServiceIdentity :=
  if negb (valid_user_name user) then
    fail "service user must contain only ASCII letters, digits, underscore, hyphen, or dot and must not start with a hyphen"
  else
    output ← run_required "id" ["-u"; user];
    u ← lift (ok_or (parse_uint 32 (stdout output)) ("invalid uid for service user " ++ user ++ ": {error}"));
    if (u =? 0)%Z then fail "service user must not resolve to uid 0"
    else
      output ← run_required "id" ["-g"; user];
      g ← lift (ok_or (parse_uint 32 (stdout output)) ("invalid gid for service user " ++ user ++ ": {error}"));
      mret {| uid := u; gid := g |}.

Definition identity : service ServiceIdentity := resolve_identity_with (spec_user spec).

Definition check (id : string) (state : ResourceState) (detail : string) : ServiceCheck :=
  {| check_id := id; check_state := state; check_detail := detail |}.

Definition path_check (id path : string) : service ServiceCheck :=
  if negb (is_absolute path) then mret (check id Invalid path)
  else
    b ← is_file (key path);
    mret (check id (if b : bool then Ready else Invalid) path).

Definition parent_check (id path : string) : service ServiceCheck :=
  let detail := match parent path with None => path | Some p => display p end in
  match is_absolute path, parent path with
  | true, Some p => b ← is_dir p; mret (check id (if b : bool then Ready else Invalid) detail)
  | _, _ => mret (check id Invalid detail)
  end.

Definition directory_check (id path : string) : service ServiceCheck :=
  b ← is_dir (key path);
  mret (check id (if b : bool then Ready else Invalid) path).

Definition identity_check : service ServiceCheck := λ w,
  let '(w', r) := resolve_identity_with (spec_user spec) w in
  (w', match r with
       | Ok i =>
           if negb (uid i =? 0)%Z then
             Ok (check "service.identity" Ready (spec_user spec ++ " uid=" ++ to_string (uid i) ++ " gid=" ++ to_string (gid i)))
           else Ok (check "service.identity" Invalid "service user must not resolve to uid 0")
       | Err error => Ok (check "service.identity" Invalid error)
       | Panic => Panic
       end).

Definition carrier_check (m : ServiceManager) : service ServiceCheck :=
  match m with
  | Systemd => directory_check "service.systemd.carrier" (systemd_system_dir paths)
  | Procd =>
      c ← directory_check "service.procd.carrier" (procd_init_dir paths);
      b ← is_file (key (procd_binary paths));
      mret (if b : bool then c else check (check_id c) Invalid (procd_binary paths ++ " is missing"))
  | Auto => lift Panic
  end.

Definition doctor : service (list ServiceCheck) :=
  m ← manager;
  c1 ← path_check "service.executable" (spec_executable spec);
  c2 ← path_check "service.config" (spec_config spec);
  c3 ← parent_check "service.runtime-database.parent" (spec_runtime_database spec);
  c4 ← identity_check;
  c5 ← match spec_environment_file spec with
       | Some path => c ← path_check "service.environment-file" path; mret [c]
       | None => mret []
       end;
  c6 ← carrier_check m;
  mret (List.app [c1; c2; c3; c4] (List.app c5 [c6])).

Definition unknown_artifact (s : ResourceState) : bool := match s with Missing | Drifted | Foreign | Invalid => true | _ => false end.

Definition manager_status (m : ServiceManager) : service (bool * bool * option Z) :=
  a ← lift (artifact m);
  state ← classify (artifact_path a) (artifact_content a) (artifact_mode a);
  if unknown_artifact state then mret (false, false, None)
  else
    match m with
    | Systemd =>
        enabled ← command_success "systemctl" ["is-enabled"; SYSTEMD_UNIT];
        active ← command_success "systemctl" ["is-active"; SYSTEMD_UNIT];
        pid ← (if active : bool then
                 output ← call "systemctl" ["show"; "--property"; "MainPID"; "--value"; SYSTEMD_UNIT];
                 mret (opt_filter (λ pid, negb (pid =? 0)%Z) (parse_uint 32 (stdout output)))
               else mret None);
        mret (enabled, active, pid)
    | Procd =>
        let command := artifact_path a in
        enabled ← command_success command ["enabled"];
        active ← command_success command ["running"];
        pid ← (if active : bool then main_pid else mret None);
        mret (enabled, active, pid)
    | Auto => lift Panic
    end.

Definition manager_command (m : ServiceManager) (action : string) : service unit :=
  match m with
  | Systemd => _ ← run_required "systemctl" [action; SYSTEMD_UNIT]; mret tt
  | Procd => _ ← run_required (init_path paths) [action]; mret tt
  | Auto => lift Panic
  end.

Definition reload_manager_definition (m : ServiceManager) : service unit :=
  match m with
  | Systemd => _ ← run_required "systemctl" ["daemon-reload"]; mret tt
  | Procd => mret tt
  | Auto => lift Panic
  end.

Definition status : service ServiceStatus :=
  m ← manager;
  checks ← doctor;
  a ← lift (artifact m);
  state ← classify (artifact_path a) (artifact_content a) (artifact_mode a);
  '(enabled, active, pid) ← manager_status m;
  mret {| status_manager := m; status_checks := List.app checks [check (artifact_id a) state (artifact_path a)];
          status_enabled := enabled; status_active := active; status_main_pid := pid |}.

Definition require_doctor_ready : service unit :=
  checks ← doctor;
  let failures := List.filter (λ c, negb (bool_decide (check_state c = Ready))) checks in
  match failures with
  | [] => mret tt
  | _ => fail ("dynet service doctor failed: " ++
      String.concat "; " (List.map (λ c, check_id c ++ "=" ++ label (check_state c) ++ " (" ++ check_detail c ++ ")") failures))
  end.

Definition require_applied : service ServiceManager :=
  m ← manager;
  a ← lift (artifact m);
  state ← classify (artifact_path a) (artifact_content a) (artifact_mode a);
  if negb (bool_decide (state = Ready)) then fail ("dynet service artifact is " ++ label state ++ "; run service apply first")
  else mret m.

Definition replaces (s : ResourceState) : bool := match s with Missing | ManagedUpdate => true | _ => false end.

Definition write_artifact (m : ServiceManager) (a : Artifact) : service (list string) :=
  _ ← atomic_write process_id creation_mode (artifact_path a) (artifact_content a) (artifact_mode a);
  _ ← reload_manager_definition m;
  mret ["wrote " ++ artifact_path a].

Definition apply : service ServiceApplyReport :=
  m ← manager;
  _ ← require_doctor_ready;
  before ← status;
  a ← lift (artifact m);
  state ← classify (artifact_path a) (artifact_content a) (artifact_mode a);
  if is_hard_failure state then fail (artifact_path a ++ " is " ++ label state ++ "; refusing to overwrite")
  else
    changed1 ← (if replaces state then write_artifact m a else mret []);
    changed2 ← (if status_enabled before then mret [] else _ ← manager_command m "enable"; mret ["enabled " ++ SERVICE_NAME]);
    changed3 ← (if status_active before then mret [] else _ ← manager_command m "start"; mret ["started " ++ SERVICE_NAME]);
    mret {| apply_manager := m; apply_changed := List.app changed1 (List.app changed2 changed3);
            restart_required := replaces state && status_active before; started := negb (status_active before) |}.

Definition cleanup : service ServiceCleanupReport :=
  m ← manager;
  a ← lift (artifact m);
  state ← classify (artifact_path a) (artifact_content a) (artifact_mode a);
  if is_hard_failure state then fail (artifact_path a ++ " is " ++ label state ++ "; refusing cleanup")
  else
    '(_, active, _) ← manager_status m;
    changed1 ← (if active : bool then _ ← manager_command m "stop"; mret ["stopped " ++ SERVICE_NAME] else mret []);
    '(enabled, _, _) ← manager_status m;
    changed2 ← (if enabled : bool then _ ← manager_command m "disable"; mret ["disabled " ++ SERVICE_NAME] else mret []);
    removed ← remove_owned sha256 (artifact_path a) (artifact_content a) (artifact_mode a);
    changed3 ← (if removed : bool then _ ← reload_manager_definition m; mret ["removed " ++ artifact_path a] else mret []);
    mret {| cleanup_manager := m; cleanup_changed := List.app changed1 (List.app changed2 changed3) |}.

Definition start : service unit := m ← require_applied; manager_command m "start".
Definition stop : service unit := m ← require_applied; manager_command m "stop".
Definition restart : service unit := m ← require_applied; manager_command m "restart".

Definition reload : service unit :=
  m ← manager;
  '(_, active, _) ← manager_status m;
  if negb active then fail "dynet service is not active" else manager_command m "reload".

Definition logs (lines : Z) (follow : bool) : service unit :=
  m ← manager;
  let follow_args := if follow then ["-f"] else [] in
  match m with
  | Systemd => stream "journalctl" (List.app ["-u"; SYSTEMD_UNIT; "-n"; to_string lines; "--no-pager"] follow_args)
  | Procd => stream "logread" (List.app ["-e"; SERVICE_NAME; "-l"; to_string lines] follow_args)
  | Auto => lift Panic
  end.
End controller.

(** ** What the controller does to the files *)
Section safety.
Context {H : Type} `{!ServiceRunner H} (sha256 : bytes → bytes) (process_id creation_mode : Z) (json_main_pid : string → option Z).
Context (spec : ServiceSpec) (paths : ServicePaths).

Abbreviation service := (act (World H) string).
Abbreviation artifact := (artifact sha256 spec paths).

(** The operations, as one. *)
Inductive Request := Apply | Cleanup | Start | Stop | Restart | Reload | Logs (lines : Z) (follow : bool) | Status | Plan | Doctor | Identity.

#[export] Instance Request_eq_dec : EqDecision Request.
Proof. solve_decision. Defined.

Definition done_by {A} (m : service A) : service unit := _ ← m; mret tt.

Definition perform (q : Request) : service unit :=
  match q with
  | Apply => done_by (apply sha256 process_id creation_mode json_main_pid spec paths)
  | Cleanup => done_by (cleanup sha256 json_main_pid spec paths)
  | Start => start sha256 spec paths
  | Stop => stop sha256 spec paths
  | Restart => restart sha256 spec paths
  | Reload => reload sha256 json_main_pid spec paths
  | Logs n f => logs spec paths n f
  | Status => done_by (status sha256 json_main_pid spec paths)
  | Plan => done_by (plan sha256 spec paths)
  | Doctor => done_by (doctor spec paths)
  | Identity => done_by (identity spec)
  end.






Implicit Types w : World H.

(** A path that no command changes and that is not a temporary file. *)
Context (k : FileKey).
Hypothesis commands_keep : ∀ command args m,
  files (run_command command args m).1 !! k = files m !! k ∧ files (stream_command command args m).1 !! k = files m !! k.





































End safety.

(** ** A host *)
Definition toy_output (command : string) (args : list string) : CommandOutput :=
  {| success := match args with a :: _ => negb (starts_with a "is-") | [] => true end; stdout := "1000"; stderr := "" |}.

#[local] Instance toy_runner : ServiceRunner (list string) := {|
  run_command command args m := (mk_machine (files m) (List.app (host m) [command ++ " " ++ String.concat " " args]), inr (toy_output command args));
  stream_command _ _ m := (m, inr tt) |}.

Definition toy_spec : ServiceSpec := {|
  spec_manager := Auto; spec_user := "dynet"; spec_executable := "/usr/bin/dynet"; spec_config := "/etc/dynet.toml";
  spec_runtime_database := "/var/dynet.sqlite"; spec_environment_file := None |}.

Definition toy_world : World (list string) := mk_world (mk_machine
  (list_to_map [(key "/usr/bin/dynet", Regular "elf" 493); (key "/etc/dynet.toml", Regular "" 420); (key "/var", Directory);
                (key "/etc/systemd/system", Directory); (key "/run/systemd/system", Directory)]) []) [].

Definition toy_result : World (list string) * outcome string unit := perform (λ l, l) 7 420 (λ _, None) toy_spec default_paths Apply toy_world.

Example toy_commands : host (machine toy_result.1) =
  ["id -u dynet"; "id -g dynet"; "id -u dynet"; "id -g dynet"; "systemctl daemon-reload"; "systemctl enable dynet.service"; "systemctl start dynet.service"].
Proof. vm_compute. reflexivity. Qed.



