(* ===== verification/Supervisor.v ===== *)
(** * Supervisor: the process that runs the runtime under procd

    [crates/dynet-service/src/supervisor.rs]: cleaning up, applying, starting the child with
    the identity of the service, waiting for it while signals come, and cleaning up again
    however it ends. What happened is kept as a trace. *)
From Stdlib Require Import ZArith Lia Ascii String Strings.Byte.
From stdpp Require Import base list numbers option strings gmap.
From S2P Require Import Prelude Net RustStd Wire HostFiles ConfigData ServiceArtifact Service.
Local Open Scope string_scope.

(** ** The identity of the child ([configure_child_identity], [retain_net_admin_capability]) *)
Definition CAP_NET_ADMIN : Z := 12.
Definition LINUX_CAPABILITY_VERSION_3 : Z := 537396514.

Record CapabilityHeader := { version : Z; pid : Z }.
Record CapabilityData := { effective : Z; permitted : Z; inheritable : Z }.

Inductive Syscall :=
| SetGroups (n : Z) | KeepCaps (on : bool) | SetGid (g : Z) | SetUid (u : Z)
| CapSet (header : CapabilityHeader) (low high : CapabilityData) | RaiseAmbient (cap : Z).

Inductive ExecError := PermissionDenied (text : string) | OsError (text : string).

(** System calls in order, the failing ones given. *)
Abbreviation calls := (act (list Syscall * list (option string)) ExecError).
Definition cvt (s : Syscall) : calls unit := λ '(done, results),
  match results with
  | Some e :: r => ((List.app done [s], r), Err (OsError e))
  | None :: r => ((List.app done [s], r), Ok tt)
  | [] => ((List.app done [s], []), Ok tt)
  end.

Definition retain_net_admin_capability : calls unit :=
  let mask := Z.shiftl 1 CAP_NET_ADMIN in
  cvt (CapSet {| version := LINUX_CAPABILITY_VERSION_3; pid := 0 |}
         {| effective := mask; permitted := mask; inheritable := mask |} {| effective := 0; permitted := 0; inheritable := 0 |}).

Definition configure_child_identity (current_uid current_gid : Z) (i : ServiceIdentity) : calls unit :=
  if negb (current_uid =? 0)%Z then
    if (current_uid =? uid i)%Z && (current_gid =? gid i)%Z then mret tt
    else fail (PermissionDenied "non-root dynet supervisor cannot change child identity")
  else
    _ ← cvt (SetGroups 0);
    _ ← cvt (KeepCaps true);
    _ ← cvt (SetGid (gid i));
    _ ← cvt (SetUid (uid i));
    _ ← retain_net_admin_capability;
    _ ← cvt (RaiseAmbient CAP_NET_ADMIN);
    cvt (KeepCaps false).

(** ** The supervisor *)
Inductive Event := CleanedUp | Applied | Spawned (i : ServiceIdentity) (inherited_tun : bool) | Signalled (signal : Z) | Killed | Reaped | KilledOnDrop.

Definition SIGHUP : Z := 1.
Definition SIGTERM : Z := 15.
Definition TUN_DEVICE : string := "/dev/net/tun".

Record ExitStatus := { status_success : bool; status_text : string }.
Abbreviation waited := (string + ExitStatus)%type.

(** What ends the waiting, and what happens after a termination signal: the child ends in
    eight seconds, or it is killed. *)
Inductive Shutdown := InTime (r : waited) | TimedOut (kill_error : option string) (r : waited).
Inductive LastWake := Exited (r : waited) | Terminate (is_open : bool) | Interrupt (is_open : bool).

Section supervisor.
Context {H : Type} `{!ServiceRunner H}.
(** The clean-up that the caller gives, the TUN setting of the configuration, the identity
    of the supervisor. *)
Context (cleanup : Machine H → Machine H * (string + unit)) (tun_enabled : Machine H → string + bool) (current_uid current_gid : Z).
Context (spec : ServiceSpec).
(** The outcomes of starting: failing system calls, a failing exec, the id. *)
Context (exec_results : list (option string)) (spawn_error : option string) (child_id : option Z).
(** The hang-ups while the child runs, what ends the waiting, and the shutdown. *)
Context (hangups : list bool) (last : LastWake) (shutdown : Shutdown).

Abbreviation supervisor := (act (World H * list Event) string).

Definition emit (e : Event) : supervisor unit := modify (λ '(w, t), (w, List.app t [e])).

Definition run_cleanup : supervisor unit :=
  _ ← emit CleanedUp;
  on_fst (λ w, let '(m, r) := cleanup (machine w) in (mk_world m (faults w), of_result r)).

(** Opening the device, and the two calls on the descriptor. *)
Definition preopen_tun (path : string) : act (World H) string unit :=
  _ ← fs_call id (w ← get; match tree w !! key path with None => fail "No such file or directory (os error 2)" | Some _ => mret tt end);
  _ ← fs_call id (mret tt);
  fs_call id (mret tt).

Definition inherited_tun_device : supervisor bool :=
  enabled ← on_fst (λ w, (w, of_result (tun_enabled (machine w))));
  if negb enabled then mret false
  else
    _ ← on_fst (map_err (λ error, "failed pre-opening " ++ TUN_DEVICE ++ " for the supervised runtime: " ++ error) (preopen_tun TUN_DEVICE));
    mret true.

Definition send_signal (pid signal : Z) : supervisor unit :=
  if (pid <? 2 ^ 31)%Z then
    _ ← emit (Signalled signal);
    on_fst (fs_call (λ e, "failed sending signal " ++ to_string signal ++ " to dynet pid " ++ to_string pid ++ ": " ++ e) (mret tt))
  else fail ("process id " ++ to_string pid ++ " does not fit i32").

Definition wait_result (text : string) (r : waited) : supervisor ExitStatus :=
  match r with inl error => fail (text ++ ": " ++ error) | inr s => _ ← emit Reaped; mret s end.

Definition terminate_child (pid : Z) : supervisor ExitStatus :=
  _ ← send_signal pid SIGTERM;
  match shutdown with
  | InTime r => wait_result "failed waiting for dynet shutdown" r
  | TimedOut (Some error) _ => fail ("failed killing timed-out dynet runtime: " ++ error)
  | TimedOut None r => _ ← emit Killed; wait_result "failed reaping killed dynet runtime" r
  end.

Definition register (name : string) : supervisor unit :=
  on_fst (fs_call (λ e, "failed registering supervisor " ++ name ++ " handler: " ++ e) (mret tt)).

Definition terminated (name : string) (pid : Z) (is_open : bool) : supervisor (ExitStatus * bool) :=
  if negb is_open then fail ("supervisor " ++ name ++ " stream closed")
  else s ← terminate_child pid; mret (s, true).

(** The loop, over the hang-ups before it ends. *)
Fixpoint wait_loop (pid : Z) (hangups : list bool) : supervisor (ExitStatus * bool) :=
  match hangups with
  | is_open :: r =>
      if negb is_open then fail "supervisor SIGHUP stream closed"
      else _ ← send_signal pid SIGHUP; wait_loop pid r
  | [] =>
      match last with
      | Exited r => s ← wait_result "failed waiting for supervised dynet runtime" r; mret (s, false)
      | Terminate o => terminated "SIGTERM" pid o
      | Interrupt o => terminated "SIGINT" pid o
      end
  end.

Definition wait_for_child (pid : Z) : supervisor (ExitStatus * bool) :=
  _ ← register "SIGHUP"; _ ← register "SIGTERM"; _ ← register "SIGINT"; wait_loop pid hangups.

(** [Command::spawn] with the identity set before the program is executed. *)
Definition spawn (i : ServiceIdentity) (inherited : bool) : supervisor unit :=
  match (configure_child_identity current_uid current_gid i ([], exec_results)).2, spawn_error with
  | Ok _, None => emit (Spawned i inherited)
  | Ok _, Some e => fail ("failed starting supervised dynet runtime: " ++ e)
  | Err (PermissionDenied e | OsError e), _ => fail ("failed starting supervised dynet runtime: " ++ e)
  | Panic, _ => lift Panic
  end.

(** The result of the waiting is looked at after the second clean-up. *)
Definition try_wait (pid : Z) : supervisor (outcome string (ExitStatus * bool)) := λ s, let '(s', r) := wait_for_child pid s in (s', Ok r).

Definition finish (pid : Z) : supervisor unit :=
  outcome ← try_wait pid;
  _ ← map_err (λ error, "dynet service fail-open cleanup failed: " ++ error) run_cleanup;
  '(status, terminated) ← lift outcome;
  if terminated || status_success status then mret tt else fail ("supervised dynet runtime exited with " ++ status_text status).

(** [kill_on_drop(true)]: a handle that goes out of scope kills its child, unless the child was waited for
    or killed. *)
Definition disarms (e : Event) : bool := match e with Killed | Reaped => true | _ => false end.
Definition drop_child : supervisor unit := λ s, if existsb disarms s.2 then (s, Ok tt) else emit KilledOnDrop s.
Definition holding_child (m : supervisor unit) : supervisor unit := λ s, let '(s', r) := m s in ((drop_child s').1, r).

Definition supervise_with : supervisor unit :=
  i ← on_fst (resolve_identity_with (spec_user spec));
  _ ← map_err (λ error, "dynet service startup cleanup failed: " ++ error) run_cleanup;
  executable ← lift (if utf8_valid (list_byte_of_string (spec_executable spec)) then Ok (spec_executable spec)
                     else Err ("service executable " ++ spec_executable spec ++ " is not UTF-8"));
  _ ← on_fst (run_required executable ["apply"; "--auto"]);
  _ ← emit Applied;
  inherited ← inherited_tun_device;
  _ ← spawn i inherited;
  holding_child
    (pid ← lift (ok_or child_id "supervised dynet runtime has no process id");
     finish pid).
End supervisor.

(** ** The child's identity *)
Definition drop_privileges (i : ServiceIdentity) : list Syscall :=
  [SetGroups 0; KeepCaps true; SetGid (gid i); SetUid (uid i);
   CapSet {| version := 537396514; pid := 0 |} {| effective := 4096; permitted := 4096; inheritable := 4096 |}
     {| effective := 0; permitted := 0; inheritable := 0 |};
   RaiseAmbient 12; KeepCaps false].

Fixpoint in_order (l : list Syscall) : calls unit :=
  match l with [] => mret tt | [s] => cvt s | s :: r => _ ← cvt s; in_order r end.

Lemma cvt_inv s d results st' r : cvt s (d, results) = (st', r) → st'.1 = List.app d [s] ∧ (r = Ok tt ∨ ∃ e, r = Err e).
Proof. destruct results as [|[e|] l]; intros [= <- <-]; cbn; eauto. Qed.

Lemma in_order_spec l d results st' r : in_order l (d, results) = (st', r) →
  no_panic r ∧ (∃ n, st'.1 = List.app d (take n l)) ∧ (r = Ok tt → st'.1 = List.app d l).
Proof.
  revert d results. induction l as [|s l IH]; intros d results.
  { intros [= <- <-]. cbn [fst]. pose proof (app_nil_r d) as Hd. split; [done|]. split; [exists 0%nat|intros _]; symmetry; exact Hd. }
  destruct l as [|s' l].
  - intros [-> [-> | [e ->]]]%cvt_inv; (split; [done|split; [by exists 1%nat|done]]).
  - intros [([d1 l1] & [] & Hs & Hc)|[(e & Hs & ->)|[Hs ->]]]%act_bind_cases; apply cvt_inv in Hs as [Hd Hr]; cbn [fst] in Hd.
    + subst d1. apply IH in Hc as (Hp & [n Hn] & Hok). split; [done|]. split; [exists (S n); by rewrite Hn, <- app_assoc|intros Hr'; by rewrite (Hok Hr'), <- app_assoc].
    + split; [done|]. split; [by exists 1%nat|done].
    + by destruct Hr as [|[? ?]].
Qed.

(** The calls are a prefix of the list, all of it on success; nothing is called without the
    rights to. *)
Lemma configure_spec cu cg i results st r : configure_child_identity cu cg i ([], results) = (st, r) →
  no_panic r ∧ (∃ n, st.1 = take n (drop_privileges i)) ∧
  (r = Ok tt → (cu = 0 ∧ st.1 = drop_privileges i) ∨ (cu = uid i ∧ cg = gid i ∧ st.1 = []))%Z.
Proof.
  unfold configure_child_identity. destruct (Z.eqb_spec cu 0) as [->|Hcu]; cbn [negb].
  - intros (Hp & Hn & Hok)%(in_order_spec (drop_privileges i)). split; [done|]. split; [done|]. intros Hr. left. by rewrite (Hok Hr).
  - destruct (Z.eqb_spec cu (uid i)), (Z.eqb_spec cg (gid i)); intros [= <- <-]; (split; [done|split; [by exists 0%nat|]]); [by right|done..].
Qed.

(** ** Cleaning up behind the child *)
Section cleaning.
Context {H : Type} `{!ServiceRunner H}.
Context (cleanup : Machine H → Machine H * (string + unit)) (tun_enabled : Machine H → string + bool) (current_uid current_gid : Z).
Context (spec : ServiceSpec) (exec_results : list (option string)) (spawn_error : option string) (child_id : option Z).
Context (hangups : list bool) (last : LastWake) (shutdown : Shutdown).
Implicit Types s : World H * list Event.
Abbreviation supervisor := (act (World H * list Event) string).

(** What is done with the child while it is waited for. *)
Definition is_signal (e : Event) : Prop := match e with Signalled _ | Killed | Reaped => True | _ => False end.

(** The trace grows by signals, or stays. *)
Definition signals s s' : Prop := ∃ l, s'.2 = List.app s.2 l ∧ Forall is_signal l.
Definition quiet s s' : Prop := s'.2 = s.2.

#[local] Instance signals_pre : PreOrder signals.
Proof.
  split; [intros s; exists []; by rewrite app_nil_r|]. intros a b c (l & H1 & F1) (l' & H2 & F2). exists (List.app l l').
  rewrite H2, H1, app_assoc. split; [done|]. by apply Forall_app_2.
Qed.
#[local] Instance quiet_pre : PreOrder quiet.
Proof. split; [done|]. intros a b c H1 H2. unfold quiet in *. congruence. Qed.

Definition anything (w w' : World H) : Prop := True.
#[local] Instance anything_pre : PreOrder anything.
Proof. done. Qed.

Lemma quiet_signals {A} (m : supervisor A) : obeys quiet m → obeys signals m.
Proof. apply obeys_mono. intros s s' E. exists []. by rewrite app_nil_r. Qed.

Lemma quiet_on_fst {A} (m : act (World H) string A) : obeys anything m → obeys quiet (on_fst m).
Proof. intros Hm [w t] s' r. unfold on_fst. destruct (m w) as [w1 r1] eqn:E. intros [= <- <-]. split; [done|]. by destruct (Hm _ _ _ E). Qed.

Lemma anything_call command args : obeys anything (call (H:=H) command args).
Proof. intros w w' r. unfold call. destruct (run_command _ _ _) as [m [e|o]]; by intros [= <- <-]. Qed.

Lemma anything_fs_call {A} d (m : act (World H) string A) : obeys anything m → obeys anything (fs_call d m).
Proof. by apply obeys_fs_call; [apply _|]. Qed.

Lemma anything_run command args : obeys anything (run_required (H:=H) command args).
Proof. unfold run_required. apply obeys_bind; [apply _|apply anything_call|intros o]. destruct (success o); [apply obeys_ret, _|apply obeys_fail, _]. Qed.

Lemma anything_identity : obeys anything (resolve_identity_with (H:=H) (spec_user spec)).
Proof.
  unfold resolve_identity_with. destruct (negb _); [apply obeys_fail, _|]. apply obeys_bind; [apply _|apply anything_run|intros o1].
  apply obeys_bind; [apply _|apply obeys_lift; [apply _|apply no_panic_ok_or]|intros u]. destruct (u =? 0)%Z; [apply obeys_fail, _|].
  apply obeys_bind; [apply _|apply anything_run|intros o2]. apply obeys_bind; [apply _|apply obeys_lift; [apply _|apply no_panic_ok_or]|intros g]. apply obeys_ret, _.
Qed.

Lemma quiet_cleanup s s' r : run_cleanup cleanup s = (s', r) → s'.2 = List.app s.2 [CleanedUp] ∧ no_panic r.
Proof.
  destruct s as [w t]. unfold run_cleanup, emit, mbind, act_bind, modify, on_fst. destruct (cleanup (machine w)) as [m o]. intros [= <- <-]. split; [done|]. by destruct o.
Qed.

Lemma quiet_tun : obeys quiet (inherited_tun_device tun_enabled).
Proof.
  unfold inherited_tun_device. apply obeys_bind; [apply _| |intros []].
  - apply quiet_on_fst. intros w w' r [= <- <-]. split; [done|]. by destruct (tun_enabled _).
  - apply obeys_bind; [apply _| |intros _; apply obeys_ret, _]. apply quiet_on_fst, obeys_map_err. unfold preopen_tun.
    apply obeys_bind; [apply _| |intros _; apply obeys_bind; [apply _| |intros _]]; apply anything_fs_call; try apply obeys_ret, _.
    apply obeys_bind; [apply _|apply obeys_get, _|intros w]. destruct (_ !! _); [apply obeys_ret, _|apply obeys_fail, _].
  - apply obeys_ret, _.
Qed.

Lemma signals_emit e : is_signal e → obeys signals (emit (H:=H) e).
Proof. intros He [w t] s' r [= <- <-]. split; [|done]. exists [e]. split; [done|]. by constructor. Qed.

Lemma signals_send pid sg : obeys signals (send_signal (H:=H) pid sg).
Proof.
  unfold send_signal. destruct (pid <? 2 ^ 31)%Z; [|apply obeys_fail, _]. apply obeys_bind; [apply _|by apply signals_emit|intros _].
  apply quiet_signals, quiet_on_fst, anything_fs_call, obeys_ret, _.
Qed.

Lemma signals_result text r : obeys signals (wait_result (H:=H) text r).
Proof. destruct r; [apply obeys_fail, _|]. apply obeys_bind; [apply _|by apply signals_emit|intros _; apply obeys_ret, _]. Qed.

Lemma signals_terminated name pid o : obeys signals (terminated (H:=H) shutdown name pid o).
Proof.
  unfold terminated. destruct (negb o); [apply obeys_fail, _|]. apply obeys_bind; [apply _| |intros st; apply obeys_ret, _]. unfold terminate_child.
  apply obeys_bind; [apply _|apply signals_send|intros _]. destruct shutdown as [r|[e|] r]; [apply signals_result|apply obeys_fail, _|].
  apply obeys_bind; [apply _|by apply signals_emit|intros _; apply signals_result].
Qed.

Lemma signals_wait pid : obeys signals (wait_for_child (H:=H) hangups last shutdown pid).
Proof.
  unfold wait_for_child. do 3 (apply obeys_bind; [apply _|apply quiet_signals, quiet_on_fst, anything_fs_call, obeys_ret, _|intros _]).
  induction hangups as [|o l IH]; cbn [wait_loop].
  - destruct last; [|apply signals_terminated..]. apply obeys_bind; [apply _|apply signals_result|intros st; apply obeys_ret, _].
  - destruct (negb o); [apply obeys_fail, _|]. apply obeys_bind; [apply _|apply signals_send|intros _; exact IH].
Qed.

Lemma identity_not_root s s' i : on_fst (resolve_identity_with (H:=H) (spec_user spec)) s = (s', Ok i) → uid i ≠ 0%Z.
Proof.
  destruct s as [w t]. unfold on_fst, resolve_identity_with. destruct (negb _); [done|]. match goal with |- (let '(_, _) := ?m w in _) = _ → _ => destruct (m w) as [w1 r1] eqn:E end. intros [= _ ->].
  apply act_bind_inv in E as (? & ? & _ & E). apply act_bind_inv in E as (? & u & _ & E). destruct (Z.eqb_spec u 0); [done|].
  apply act_bind_inv in E as (? & ? & _ & E). apply act_bind_inv in E as (? & g & _ & E). by injection E as _ <-.
Qed.

Lemma act_bind_inv_emit {B} e (f : unit → supervisor B) s s' r : (emit e ≫= f) s = (s', r) →
  ∃ s1, s1.2 = List.app s.2 [e] ∧ f tt s1 = (s', r).
Proof. destruct s as [w t]. intros Hf. by exists (w, List.app t [e]). Qed.

(** What a successful end is. *)
Definition ended_well (st : ExitStatus) (t : bool) : Prop :=
  match last with
  | Exited (inr st') => st' = st ∧ t = false
  | Exited (inl _) => False
  | Terminate o | Interrupt o => o = true ∧ t = true
  end.

Lemma result_reaped text x s s' st : wait_result (H:=H) text x s = (s', Ok st) → x = inr st ∧ Reaped ∈ s'.2.
Proof.
  destruct x as [e|st0]; [done|]. destruct s as [w t]. intros [= <- <-]. split; [done|]. cbn [snd]. apply elem_of_app. right. by left.
Qed.

Lemma terminated_Ok name pid o s s' st t : terminated (H:=H) shutdown name pid o s = (s', Ok (st, t)) → (o = true ∧ t = true) ∧ Reaped ∈ s'.2.
Proof.
  unfold terminated. destruct o; [|done]. intros (s1 & st1 & E1 & E)%act_bind_inv. injection E as <- _ <-. split; [done|].
  apply act_bind_inv in E1 as (s2 & [] & _ & E). destruct shutdown as [x|[e|] x]; [by apply result_reaped in E as [_ ?]|done|].
  apply act_bind_inv in E as (s3 & [] & _ & E). by apply result_reaped in E as [_ ?].
Qed.

Lemma wait_Ok pid s s' st t : wait_for_child (H:=H) hangups last shutdown pid s = (s', Ok (st, t)) → ended_well st t ∧ Reaped ∈ s'.2.
Proof.
  unfold wait_for_child, ended_well. do 3 (intros (? & ? & _ & E)%act_bind_inv; revert E). match goal with |- wait_loop _ _ _ _ ?x = _ → _ => generalize x; clear end. revert s'.
  induction hangups as [|o l IH]; cbn [wait_loop]; intros s' y.
  - destruct last as [r|o|o]; [|by apply terminated_Ok..]. intros (s1 & st1 & E1 & E)%act_bind_inv. injection E as <- <- <-. by apply result_reaped in E1 as [-> ?].
  - destruct o; [|done]. cbn [negb]. intros (s1 & [] & _ & E)%act_bind_inv. by apply IH in E.
Qed.

Lemma spawn_spec i b s s' r : spawn (H:=H) current_uid current_gid exec_results spawn_error i b s = (s', r) →
  no_panic r ∧ (r ≠ Ok tt ∧ s'.2 = s.2 ∨
    r = Ok tt ∧ s'.2 = List.app s.2 [Spawned i b] ∧
    let made := (configure_child_identity current_uid current_gid i ([], exec_results)).1.1 in
    (current_uid = 0 ∧ made = drop_privileges i ∨ current_uid = uid i ∧ current_gid = gid i ∧ made = [])%Z).
Proof.
  unfold spawn. destruct (configure_child_identity _ _ _ _) as [[made rest] o] eqn:E. apply configure_spec in E as (Hp & _ & Hok). cbn [fst snd] in *.
  destruct o as [[]|[e|e]|]; [destruct spawn_error|..|done]; try (intros [= <- <-]; split; [done|by left]).
  destruct s as [w t]. intros [= <- <-]. split; [done|]. right. split; [done|]. split; [done|]. by apply Hok.
Qed.

Lemma finish_spec pid s s' r : finish cleanup hangups last shutdown pid s = (s', r) →
  no_panic r ∧ ∃ sigs, s'.2 = List.app s.2 (List.app sigs [CleanedUp]) ∧ Forall is_signal sigs ∧
  (r = Ok tt → Reaped ∈ List.app s.2 sigs ∧ ∃ st t, ended_well st t ∧ (t = true ∨ status_success st = true)).
Proof.
  unfold finish, try_wait. intros Hf. unfold mbind at 1, act_bind at 1 in Hf. destruct (wait_for_child _ _ _ pid s) as [s1 o] eqn:E.
  pose proof (signals_wait _ _ _ _ E) as [(sigs & Hs & Hsig) Ho].
  apply act_bind_cases in Hf as [(s2 & [] & (r0 & E2 & _)%map_err_inv & Hf)|[(e & (r0 & E2 & _)%map_err_inv & ->)|[(r0 & E2 & Hr0)%map_err_inv ->]]];
    apply quiet_cleanup in E2 as [E2 Hp2]; rewrite Hs, <- app_assoc in E2; [|by split; [done|exists sigs]|by destruct r0].
  destruct o as [[st t]|e|]; [|injection Hf as <- <-; by split; [done|exists sigs]|done].
  unfold lift, mbind, act_bind in Hf. apply wait_Ok in E as [E Hreap]. rewrite Hs in Hreap. destruct (t || status_success st) eqn:Eb; injection Hf as <- <-; (split; [done|exists sigs; split; [done|split; [done|]]]); [|done].
  intros _. split; [done|]. exists st, t. split; [done|]. by apply orb_true_iff in Eb.
Qed.

(** Dropping the handle behind what was done with the child. *)
Definition dropped (sigs : list Event) : list Event := if existsb disarms sigs then [] else [KilledOnDrop].

Lemma holding_child_inv (m : supervisor unit) s s' r : holding_child m s = (s', r) →
  ∃ s1, m s = (s1, r) ∧ s'.2 = List.app s1.2 (dropped s1.2).
Proof.
  unfold holding_child. destruct (m s) as [s1 r1] eqn:E. intros [= <- <-]. exists s1. split; [done|]. unfold drop_child, dropped.
  destruct (existsb disarms s1.2); [by rewrite app_nil_r|]. by destruct s1.
Qed.

Lemma dropped_sigs i b sigs : dropped (List.app [CleanedUp; Applied; Spawned i b] (List.app sigs [CleanedUp])) = dropped sigs.
Proof. unfold dropped. rewrite !existsb_app. cbn [existsb disarms orb]. by rewrite orb_false_r. Qed.

(** C12: the supervisor fails open: whatever fails and however the child ends, before it is started there were the
    clean-up and the apply, and behind the signals to it and the waiting for it comes the
    clean-up again, and then nothing but the kill of a child that was neither
    waited for nor killed, so that none is left behind. A child that has no id (tokio gives one to every child
    that was not waited for) is killed without the second clean-up. The child never has
    the identity of root, and the process that becomes it made exactly the calls that leave it one
    capability. The supervisor reports success only where the child was waited for, and succeeded or was
    told to end. *)
Theorem supervise_fail_open w s' r :
  supervise_with cleanup tun_enabled current_uid current_gid spec exec_results spawn_error child_id hangups last shutdown (w, []) = (s', r) →
  no_panic r ∧
  (r ≠ Ok tt ∧ s'.2 ∈ [[]; [CleanedUp]; [CleanedUp; Applied]] ∨
   ∃ i inherited, uid i ≠ 0%Z ∧
     (let made := (configure_child_identity current_uid current_gid i ([], exec_results)).1.1 in
      current_uid = 0 ∧ made = drop_privileges i ∨ current_uid = uid i ∧ current_gid = gid i ∧ made = [])%Z ∧
     (child_id = None ∧ r ≠ Ok tt ∧ s'.2 = [CleanedUp; Applied; Spawned i inherited; KilledOnDrop] ∨
      is_Some child_id ∧
      ∃ sigs, Forall is_signal sigs ∧
        s'.2 = List.app [CleanedUp; Applied; Spawned i inherited] (List.app sigs (CleanedUp :: dropped sigs)) ∧
        (r = Ok tt → Reaped ∈ sigs ∧ ∃ st t, ended_well st t ∧ (t = true ∨ status_success st = true)))).
Proof.
  unfold supervise_with. intros Hs.
  apply act_bind_cases in Hs as [(s1 & i & E1 & Hs)|[(e & E1 & ->)|[E1 ->]]]; pose proof (quiet_on_fst _ anything_identity _ _ _ E1) as [Q1 P1]; unfold quiet in Q1; cbn [snd] in Q1;
    [|split; [done|]; left; split; [done|]; rewrite Q1; by left|done].
  assert (uid i ≠ 0%Z) as Hu by (by eapply identity_not_root).
  apply act_bind_cases in Hs as [(s2 & [] & (r0 & E2 & _)%map_err_inv & Hs)|[(e & (r0 & E2 & _)%map_err_inv & ->)|[(r0 & E2 & Hr0)%map_err_inv ->]]];
    apply quiet_cleanup in E2 as [Q2 P2]; rewrite Q1 in Q2; [|split; [done|]; left; split; [done|]; rewrite Q2; right; by left|by destruct r0].
  apply act_bind_cases in Hs as [(s3 & x & E3 & Hs)|[(e & E3 & ->)|[E3 ->]]]; (destruct (utf8_valid _); try discriminate E3);
    [injection E3 as -> _|injection E3 as -> _; split; [done|]; left; split; [done|]; rewrite Q2; right; by left].
  apply act_bind_cases in Hs as [(s4 & out & E4 & Hs)|[(e & E4 & ->)|[E4 ->]]]; pose proof (quiet_on_fst _ (anything_run _ _) _ _ _ E4) as [Q4 P4]; unfold quiet in Q4; rewrite Q2 in Q4;
    [|split; [done|]; left; split; [done|]; rewrite Q4; right; by left|done].
  apply act_bind_inv_emit in Hs as (s5 & Q5 & Hs). rewrite Q4 in Q5.
  apply act_bind_cases in Hs as [(s6 & b & E6 & Hs)|[(e & E6 & ->)|[E6 ->]]]; pose proof (quiet_tun _ _ _ E6) as [Q6 P6]; unfold quiet in Q6; rewrite Q5 in Q6;
    [|split; [done|]; left; split; [done|]; rewrite Q6; right; right; by left|done].
  apply act_bind_cases in Hs as [(s7 & [] & E7 & Hs)|[(e & E7 & ->)|[E7 ->]]]; apply spawn_spec in E7 as (P7 & [[Hne Q7]|(Hr7 & Q7 & Hc)]); rewrite Q6 in Q7; try done;
    [|split; [done|]; left; split; [done|]; rewrite Q7; right; right; by left].
  apply holding_child_inv in Hs as (s0 & Hs & Q0).
  apply act_bind_cases in Hs as [(s8 & p & E8 & Hs)|[(e & E8 & ->)|[E8 ->]]]; destruct child_id as [p'|]; try discriminate E8.
  - injection E8 as -> _. apply finish_spec in Hs as (Hp & sigs & Hsig & Hf & Hok). rewrite Q7 in Hsig, Hok. cbn [List.app] in Hsig, Hok. split; [done|]. right. exists i, b. split; [done|]. split; [done|]. right.
    split; [by eexists|]. exists sigs. split; [done|]. split.
    + rewrite Q0, Hsig. change (CleanedUp :: Applied :: Spawned i b :: List.app sigs [CleanedUp]) with (List.app [CleanedUp; Applied; Spawned i b] (List.app sigs [CleanedUp])).
      rewrite dropped_sigs, <- !app_assoc. done.
    + intros Hr. destruct (Hok Hr) as [Hreap He]. split; [|done]. by repeat (apply elem_of_cons in Hreap as [[=]|Hreap]).
  - injection E8 as -> _. split; [done|]. right. exists i, b. split; [done|]. split; [done|]. left. by rewrite Q0, Q7.
Qed.
End cleaning.

(** ** A run: one hang-up, then the child ends *)
#[local] Existing Instance toy_runner.

Definition toy_run : (World (list string) * list Event) * outcome string unit :=
  supervise_with (λ m, (m, inr tt)) (λ _, inr false) 0 0 toy_spec [] None (Some 42%Z) [true]
    (Exited (inr {| status_success := true; status_text := "exit status: 0" |})) (InTime (inl "")) (toy_world, []).

Example toy_trace : toy_run.1.2 = [CleanedUp; Applied; Spawned {| uid := 1000; gid := 1000 |} false; Signalled 1; Reaped; CleanedUp] ∧ toy_run.2 = Ok tt.
Proof. vm_compute. done. Qed.

(** When the waiting itself fails, the clean-up comes while the child is alive: the handle kills it behind that. *)
Definition unwaited_run : (World (list string) * list Event) * outcome string unit :=
  supervise_with (λ m, (m, inr tt)) (λ _, inr false) 0 0 toy_spec [] None (Some 42%Z) [false]
    (Exited (inl "")) (InTime (inl "")) (toy_world, []).

Example cleaned_up_before_kill : unwaited_run.1.2 = [CleanedUp; Applied; Spawned {| uid := 1000; gid := 1000 |} false; CleanedUp; KilledOnDrop] ∧
  unwaited_run.2 = Err "supervisor SIGHUP stream closed".
Proof. vm_compute. done. Qed.

Lemma supervise_fail_open_witness : toy_run.2 = Ok tt ∧
  ∃ i sigs, uid i ≠ 0%Z ∧ toy_run.1.2 = List.app [CleanedUp; Applied; Spawned i false] (List.app sigs [CleanedUp]) ∧ Reaped ∈ sigs.
Proof.
  assert (toy_run.2 = Ok tt) as Hr by (vm_compute; reflexivity). split; [exact Hr|].
  destruct (supervise_fail_open (λ m, (m, inr tt)) (λ _, inr false) 0 0 toy_spec [] None (Some 42%Z) [true]
    (Exited (inr {| status_success := true; status_text := "exit status: 0" |})) (InTime (inl "")) toy_world toy_run.1 toy_run.2 (surjective_pairing toy_run))
    as (_ & [[Hne _]|(i & b & Hu & _ & [([=] & _)|(_ & sigs & _ & Ht & Hok)])]); [by rewrite Hr in Hne|].
  destruct (Hok Hr) as [Hreap _]. exists i, sigs. split; [exact Hu|]. split; [|exact Hreap].
  assert (dropped sigs = []) as Hd.
  { unfold dropped. assert (existsb disarms sigs = true) as ->; [|reflexivity]. apply existsb_exists. exists Reaped. split; [by apply list_elem_of_In|reflexivity]. }
  rewrite Hd in Ht. rewrite Ht. assert (nth 2 toy_run.1.2 CleanedUp = Spawned i b) as Hn by (rewrite Ht; reflexivity).
  assert (nth 2 toy_run.1.2 CleanedUp = Spawned {| uid := 1000; gid := 1000 |} false) as Hc by (vm_compute; reflexivity).
  rewrite Hc in Hn. by injection Hn as _ <-.
Defined.
