(* ===== verification/Forwarding.v ===== *)
(** * Forwarding: the loader of the [forwarding] section of the configuration

    [crates/dynet-state/src/forwarding_config.rs] and its submodules. The records are
    those that [toml] deserialises into; an [f64] is a [spec_float] of 53 bits. The
    digest of a node fingerprint is a parameter, the text it covers is not. *)
From Stdlib Require Import ZArith Lia Strings.Byte Ascii String Sorting.Sorted Floats.SpecFloat.
From stdpp Require Import base list numbers option strings gmap sets.
From S2P Require Import Prelude Collections Net RustStd Model Stores ConfigData.
Local Open Scope string_scope.
Local Open Scope nat_scope.

(** ** Deserialised records *)
Record FileGroupThresholds := {
  file_window_secs : option Z;
  file_min_confidence : option spec_float;
  file_max_explore_ratio : option spec_float;
  file_failure_cooldown_secs : option Z;
  file_min_success_rate : option spec_float;
  file_min_samples : option Z;
  file_max_active_sessions : option Z;
}.

Record FileForwardGroupConfig := {
  fg_id : string;
  fg_enabled : option bool;
  fg_mode : string;
  fg_profile : option string;
  fg_next : option string;
  fg_members : list string;
  fg_thresholds : option FileGroupThresholds;
}.

Record FileRealityOptions := {
  ro_public_key : option string;
  ro_short_id : option string;
}.

Record FileForwardNodeConfig := {
  fn_id : string;
  fn_enabled : option bool;
  fn_kind : string;
  fn_server : option string;
  fn_port : option Z;
  fn_method : option string;
  fn_cipher : option string;
  fn_alter_id : option Z;
  fn_uuid : option string;
  fn_flow : option string;
  fn_network : option string;
  fn_tls : option bool;
  fn_password : option string;
  fn_sni : option string;
  fn_servername : option string;
  fn_client_fingerprint : option string;
  fn_reality_opts : option FileRealityOptions;
  fn_skip_cert_verify : option bool;
  fn_udp : option bool;
  fn_ipv6 : option bool;
}.

Record FileRouteRuleConfig := {
  fr_id : string;
  fr_priority : Z;
  fr_matcher : string;
  fr_value : string;
  fr_group : string;
  fr_enabled : option bool;
  fr_ipv6 : option string;
}.

Record FileDnsUpstreamConfig := {
  fd_id : string;
  fd_kind : string;
  fd_address : string;
  fd_host : option string;
  fd_path : option string;
  fd_enabled : option bool;
  fd_priority : option Z;
}.

Record FileForwardingConfig := {
  ff_default_group : option string;
  ff_nodes : option (list FileForwardNodeConfig);
  ff_groups : option (list FileForwardGroupConfig);
  ff_rules : option (list FileRouteRuleConfig);
  ff_dns_upstreams : option (list FileDnsUpstreamConfig);
  ff_dns_race_timeout_ms : option Z;
  ff_thresholds : option FileGroupThresholds;
}.

(** ** Shared checks *)

(** A word between double quotes *)
Definition quoted (s : string) : string := String (chr 34) (s ++ String (chr 34) "").

Definition non_empty (name value : string) : load string :=
  if is_empty (trim value) then Err (Text (name ++ " must not be empty")) else Ok value.

Definition require {A} (o : option A) (message : string) : load A := ok_or o (Text message).

Definition reject (b : bool) (message : string) : load unit :=
  if b then Err (Text message) else Ok tt.

Definition unwrap_or_default (o : option string) : string := default "" o.

(** [Option::transpose] after [map] *)
Definition map_transpose {A B} (f : A → load B) (o : option A) : load (option B) :=
  match o with None => Ok None | Some a => b ← f a; Ok (Some b) end.

(** ** Thresholds: [f64] arithmetic *)
Definition f64_zero : spec_float := S754_zero false.
Definition f64_one : spec_float := S754_finite false 4503599627370496 (-52).
Definition f64_million : spec_float := S754_finite false 8589934592000000 (-33).

(** [(0.0..=1.0).contains(&value)] *)
Definition unit_interval (v : spec_float) : bool := SFleb f64_zero v && SFleb v f64_one.

(** [value.round() as u32]: to the nearest integer, halves away from zero; the cast
    saturates and sends NaN to zero. *)
Definition f64_round_u32 (v : spec_float) : Z :=
  match v with
  | S754_finite false m e =>
      let z := if (0 <=? e)%Z then (Zpos m * 2 ^ e)%Z
               else ((Zpos m + 2 ^ (- e - 1)) / 2 ^ (- e))%Z in
      Z.min u32_max z
  | S754_infinity false => u32_max
  | _ => 0%Z
  end.

Definition rate_to_ppm (v : spec_float) : load Z :=
  if negb (unit_interval v) then
    Err (Text "forwarding.groups[].thresholds.min_success_rate must be between 0 and 1")
  else Ok (f64_round_u32 (SFmul 53 1024 v f64_million)).

Definition load_thresholds (t : option FileGroupThresholds) (defaults : GroupThresholds)
    : load GroupThresholds :=
  match t with
  | None => Ok defaults
  | Some t =>
      ppm ← map_transpose rate_to_ppm (file_min_success_rate t);
      Ok {| min_success_rate_ppm := default (min_success_rate_ppm defaults) ppm;
            min_samples := default (min_samples defaults) (file_min_samples t);
            max_active_sessions := or_else (file_max_active_sessions t) (max_active_sessions defaults) |}
  end.

Definition is_zero (o : option Z) : bool := match o with Some z => (z =? 0)%Z | None => false end.

(** One round of the loop over the ratios. *)
Definition validate_ratio (id : string) (_ : unit) (nv : string * option spec_float) : load unit :=
  match nv.2 with
  | Some v =>
      if negb (unit_interval v) then
        Err (Format ("forwarding group {id:?} thresholds." ++ nv.1 ++ " must be between 0 and 1") [id])
      else Ok tt
  | None => Ok tt
  end.

Definition reject_group (b : bool) (field id : string) : load unit :=
  if b then Err (Format ("forwarding group {id:?} thresholds." ++ field ++ " must be positive") [id])
  else Ok tt.

Definition validate_thresholds (id : string) (t : option FileGroupThresholds) : load unit :=
  match t with
  | None => Ok tt
  | Some t =>
      _ ← reject_group (is_zero (file_window_secs t)) "window_secs" id;
      _ ← for_each (validate_ratio id) tt
            [("min_confidence", file_min_confidence t);
             ("max_explore_ratio", file_max_explore_ratio t);
             ("min_success_rate", file_min_success_rate t)];
      _ ← reject_group (is_zero (file_min_samples t)) "min_samples" id;
      reject_group (is_zero (file_max_active_sessions t)) "max_active_sessions" id
  end.

(** ** Nodes *)
Definition parse_shadowsocks_method (value : string) : load ShadowsocksMethod :=
  if String.eqb value "aes-256-gcm" then Ok Aes256Gcm
  else if String.eqb value "2022-blake3-aes-128-gcm" then Ok Blake3Aes128Gcm2022
  else Err (Text ("unsupported shadowsocks cipher: " ++ value)).

Definition is_some_true (o : option bool) : bool := match o with Some b => b | None => false end.

(** [matches!(value, None | Some(x))] *)
Definition absent_or (x : string) (o : option string) : bool :=
  match o with None => true | Some v => String.eqb v x end.

Definition some_is (x : string) (o : option string) : bool :=
  match o with None => false | Some v => String.eqb v x end.

(** The match over two spellings of one setting. *)
Definition agree (a b : option string) (disagree : string) : load (option string) :=
  match a, b with
  | Some x, None | None, Some x => Ok (Some x)
  | Some x, Some y => if String.eqb x y then Ok (Some x) else Err (Text disagree)
  | None, None => Ok None
  end.

Definition sni_disagree : string :=
  "forwarding.nodes[].sni and forwarding.nodes[].servername disagree".

Definition load_shadowsocks (n : FileForwardNodeConfig) : load EgressNodeConfig :=
  _ ← reject (negb (is_some_true (fn_udp n)))
        "forwarding.nodes[].udp must be true for shadowsocks cold start";
  server ← require (fn_server n) "forwarding.nodes[].server is required for shadowsocks";
  port ← require (fn_port n) "forwarding.nodes[].port is required for shadowsocks";
  spelled ← agree (fn_method n) (fn_cipher n)
        "forwarding.nodes[].method and forwarding.nodes[].cipher disagree";
  method ← require spelled "forwarding.nodes[].method is required for shadowsocks";
  password ← require (fn_password n) "forwarding.nodes[].password is required for shadowsocks";
  m ← parse_shadowsocks_method method;
  Ok (EgressShadowsocks {| ss_server := server; ss_port := port; ss_method := m;
                           ss_password := password |}).

Definition load_trojan (n : FileForwardNodeConfig) : load EgressNodeConfig :=
  _ ← reject (negb (is_some_true (fn_udp n)))
        "forwarding.nodes[].udp must be true for trojan cold start";
  server ← require (fn_server n) "forwarding.nodes[].server is required for trojan";
  port ← require (fn_port n) "forwarding.nodes[].port is required for trojan";
  password ← require (fn_password n) "forwarding.nodes[].password is required for trojan";
  sni ← agree (fn_sni n) (fn_servername n) sni_disagree;
  Ok (EgressTrojan {| trojan_server := server; trojan_port := port; trojan_password := password;
                      trojan_sni := sni;
                      skip_cert_verify := default false (fn_skip_cert_verify n) |}).

Definition load_vmess (n : FileForwardNodeConfig) : load EgressNodeConfig :=
  _ ← reject (negb (is_some_true (fn_udp n)))
        "forwarding.nodes[].udp must be true for vmess cold start";
  _ ← reject (negb (is_zero (fn_alter_id n)))
        "forwarding.nodes[].alterId must be 0 for vmess cold start";
  _ ← reject (negb (some_is "auto" (fn_cipher n)))
        "forwarding.nodes[].cipher must be auto for vmess cold start";
  _ ← reject (negb (absent_or "tcp" (fn_network n)))
        "forwarding.nodes[].network must be tcp for vmess cold start";
  _ ← reject (is_some_true (fn_tls n))
        "forwarding.nodes[].tls is not supported for vmess cold start";
  server ← require (fn_server n) "forwarding.nodes[].server is required for vmess";
  port ← require (fn_port n) "forwarding.nodes[].port is required for vmess";
  uuid ← require (fn_uuid n) "forwarding.nodes[].uuid is required for vmess";
  Ok (EgressVmess {| vmess_server := server; vmess_port := port; vmess_uuid := uuid |}).

Definition load_vless (n : FileForwardNodeConfig) : load EgressNodeConfig :=
  _ ← reject (negb (is_some_true (fn_udp n)))
        "forwarding.nodes[].udp must be true for vless cold start";
  _ ← reject (negb (some_is "xtls-rprx-vision" (fn_flow n)))
        "forwarding.nodes[].flow must be xtls-rprx-vision for vless cold start";
  _ ← reject (negb (absent_or "tcp" (fn_network n)))
        "forwarding.nodes[].network must be tcp for vless cold start";
  _ ← reject (negb (is_some_true (fn_tls n)))
        "forwarding.nodes[].tls must be true for vless reality cold start";
  _ ← reject (negb (absent_or "chrome" (fn_client_fingerprint n)))
        "forwarding.nodes[].client-fingerprint must be chrome for vless cold start";
  server ← require (fn_server n) "forwarding.nodes[].server is required for vless";
  port ← require (fn_port n) "forwarding.nodes[].port is required for vless";
  uuid ← require (fn_uuid n) "forwarding.nodes[].uuid is required for vless";
  spelled ← agree (fn_sni n) (fn_servername n) sni_disagree;
  name ← require spelled "forwarding.nodes[].servername is required for vless reality";
  opts ← require (fn_reality_opts n) "forwarding.nodes[].reality-opts is required for vless reality";
  key ← require (ro_public_key opts) "forwarding.nodes[].reality-opts.public-key is required";
  sid ← require (ro_short_id opts) "forwarding.nodes[].reality-opts.short-id is required";
  Ok (EgressVless {| vless_server := server; vless_port := port; vless_uuid := uuid;
                     server_name := name; public_key := key; short_id := sid |}).

Definition load_execution_config (n : FileForwardNodeConfig) : load EgressNodeConfig :=
  let kind := fn_kind n in
  if String.eqb kind "direct" then Ok EgressDirect
  else if String.eqb kind "shadowsocks" || String.eqb kind "ss" then load_shadowsocks n
  else if String.eqb kind "trojan" then load_trojan n
  else if String.eqb kind "vless" then load_vless n
  else if String.eqb kind "vmess" then load_vmess n
  else Err (Text ("forwarding.nodes[].type unsupported: " ++ kind)).

(** ** Fingerprints of nodes *)
Definition bool_str (b : bool) : string := if b then "true" else "false".

Definition tls_server_name (n : FileForwardNodeConfig) : option string :=
  option_map to_ascii_lowercase (or_else (fn_sni n) (fn_servername n)).

Definition canonical_kind (kind : string) : string :=
  if String.eqb kind "ss" then "shadowsocks" else kind.

Definition shadowsocks_parts (n : FileForwardNodeConfig) : list (string * string) :=
  [("method", unwrap_or_default (or_else (fn_method n) (fn_cipher n)));
   ("password", unwrap_or_default (fn_password n))].

Definition trojan_parts (n : FileForwardNodeConfig) : list (string * string) :=
  [("password", unwrap_or_default (fn_password n));
   ("sni", unwrap_or_default (tls_server_name n))].

Definition vmess_parts (n : FileForwardNodeConfig) : list (string * string) :=
  [("uuid", unwrap_or_default (fn_uuid n));
   ("cipher", default "auto" (fn_cipher n));
   ("alterId", default "0" (option_map to_string (fn_alter_id n)))].

Definition vless_parts (n : FileForwardNodeConfig) : list (string * string) :=
  ([("uuid", unwrap_or_default (fn_uuid n));
    ("flow", unwrap_or_default (fn_flow n));
    ("servername", unwrap_or_default (tls_server_name n))]
   ++ match fn_reality_opts n with
      | Some o => [("reality.public-key", unwrap_or_default (ro_public_key o));
                   ("reality.short-id", unwrap_or_default (ro_short_id o))]
      | None => []
      end)%list.

Definition fingerprint_parts (n : FileForwardNodeConfig) : list (string * string) :=
  let kind := canonical_kind (fn_kind n) in
  ([("type", kind);
    ("ipv6", bool_str (default true (fn_ipv6 n)));
    ("server", to_ascii_lowercase (unwrap_or_default (fn_server n)));
    ("port", unwrap_or_default (option_map to_string (fn_port n)))]
   ++ (if String.eqb kind "shadowsocks" then shadowsocks_parts n
       else if String.eqb kind "trojan" then trojan_parts n
       else if String.eqb kind "vmess" then vmess_parts n
       else if String.eqb kind "vless" then vless_parts n
       else []))%list.

(** The line feed that ends each part. *)
Definition newline : string := String (chr 10) "".

Definition fingerprint_text (parts : list (string * string)) : string :=
  fold_right (λ kv acc, kv.1 ++ "=" ++ kv.2 ++ newline ++ acc) "" parts.

(** ** Route rules *)
Definition parse_ipv6_policy (id : string) (value : option string) : load Ipv6RulePolicy :=
  let v := default "inherit" value in
  if String.eqb v "inherit" then Ok Inherit
  else if String.eqb v "allow" then Ok Allow
  else if String.eqb v "deny" then Ok Deny
  else Err (Format "forwarding rule {id:?} ipv6 must be allow, deny, or inherit, got {value:?}" [id; v]).

Definition parse_ip_exact_rule (id value : string) : load RouteMatcher :=
  match parse_ip value with
  | Some a => Ok (IpExact a)
  | None => Err (Format "forwarding rule {id:?} value must be an IP: {error}" [id])
  end.

Definition load_matcher (id matcher value : string) : load RouteMatcher :=
  if String.eqb matcher "domain-exact" then Ok (DomainExact (to_ascii_lowercase value))
  else if String.eqb matcher "domain-suffix" then Ok (DomainSuffix (to_ascii_lowercase value))
  else if String.eqb matcher "ip-exact" then parse_ip_exact_rule id value
  else if String.eqb matcher "ip-cidr" then Ok (IpCidr value)
  else Err (Format "forwarding rule {id:?} match {:?} is unsupported" [id; matcher]).

Definition load_rule (r : FileRouteRuleConfig) : load RouteRule :=
  id ← non_empty "forwarding.rules[].id" (fr_id r);
  v6 ← parse_ipv6_policy id (fr_ipv6 r);
  matcher ← load_matcher id (fr_matcher r) (fr_value r);
  group ← non_empty "forwarding.rules[].group" (fr_group r);
  Ok {| rule_id := id; rule_priority := fr_priority r; rule_enabled := default true (fr_enabled r);
        rule_matcher := matcher; rule_group_id := group; rule_ipv6 := v6 |}.

(** ** DNS upstreams *)
Definition load_https_transport (d : FileDnsUpstreamConfig) (id : string) : load DnsUpstreamTransport :=
  given ← ok_or (fd_host d) (Format "forwarding.dns_upstreams {id:?} host is required" [id]);
  h ← non_empty "forwarding.dns_upstreams[].host" given;
  let p := default "/dns-query" (fd_path d) in
  if negb (starts_with p "/") then
    Err (Format "forwarding.dns_upstreams {id:?} path must start with '/'" [id])
  else Ok (TransportHttps {| host := h; path := p |}).

Definition is_some {A} (o : option A) : bool := match o with Some _ => true | None => false end.

Definition load_transport (d : FileDnsUpstreamConfig) (id : string) : load DnsUpstreamTransport :=
  if String.eqb (fd_kind d) "udp" then
    if is_some (fd_host d) || is_some (fd_path d) then
      Err (Format ("forwarding.dns_upstreams {id:?} host/path require type = " ++ quoted "https") [id])
    else Ok TransportUdp
  else if String.eqb (fd_kind d) "https" || String.eqb (fd_kind d) "doh" then load_https_transport d id
  else Err (Format "forwarding.dns_upstreams {id:?} type {:?} is unsupported" [id; fd_kind d]).

Definition load_upstream (d : FileDnsUpstreamConfig) : load DnsUpstream :=
  id ← non_empty "forwarding.dns_upstreams[].id" (fd_id d);
  address ← ok_or (parse_socket_addr (fd_address d))
    (Format "forwarding.dns_upstreams {id:?} address must be a socket address: {error}" [id]);
  transport ← load_transport d id;
  Ok {| upstream_id := id; upstream_address := address; upstream_transport := transport;
        upstream_enabled := default true (fd_enabled d);
        upstream_priority := default 0%Z (fd_priority d) |}.

(** ** The graph *)
Section Load.
(** The lower-case hexadecimal SHA-256 of a text. *)
Variable sha256_hex : string → string.

Definition stable_fingerprint (n : FileForwardNodeConfig) : string :=
  "node-config-sha256:" ++ sha256_hex (fingerprint_text (fingerprint_parts n)).

Definition load_execution_node (n : FileForwardNodeConfig) : load (ForwardNode * EgressNodeConfig) :=
  id ← non_empty "forwarding.nodes[].id" (fn_id n);
  c ← load_execution_config n;
  Ok (with_capabilities
        (with_fingerprint id (fn_kind n) (default true (fn_enabled n)) (stable_fingerprint n))
        (default true (fn_ipv6 n)), c).

(** One round of the loop of [load_nodes]. *)
Definition push_node (acc : list ForwardNode * gmap string EgressNodeConfig)
    (n : FileForwardNodeConfig) : load (list ForwardNode * gmap string EgressNodeConfig) :=
  '(node, c) ← load_execution_node n;
  let id := node_id node in
  match acc.2 !! id with
  | Some _ => Err (Format "forwarding node id {id:?} is duplicated" [id])
  | None => Ok ((acc.1 ++ [node])%list, <[id := c]> acc.2)
  end.

Definition load_nodes (nodes : list FileForwardNodeConfig)
    : load (list ForwardNode * gmap string EgressNodeConfig) :=
  for_each push_node ([], ∅) nodes.

Definition validate_group_header (id : string) (g : FileForwardGroupConfig) (ids : gset string)
    : load (gset string) :=
  if String.eqb id DIRECT_AUDIT_OUTLET then Err (Text "forwarding group id 'direct' is reserved")
  else if bool_decide (id ∈ ids) then Err (Format "forwarding group id {id:?} is duplicated" [id])
  else if negb (String.eqb (fg_mode g) "smart") then
    Err (Format "forwarding group {id:?} mode must be smart, got {:?}" [id; fg_mode g])
  else
    _ ← validate_thresholds id (fg_thresholds g);
    Ok ({[id]} ∪ ids).

(** The loop of [push_group_members] from the given index. *)
Fixpoint push_group_members (gid : string) (priority : nat) (members : list string)
    (acc : list GroupMember) : load (list GroupMember) :=
  match members with
  | [] => Ok acc
  | m :: members' =>
      nid ← non_empty "forwarding.groups[].members[]" m;
      p ← ok_or (try_u 32 (Z.of_nat priority))
            (Format "forwarding group {group_id:?} has too many members" [gid]);
      push_group_members gid (S priority) members'
        (acc ++ [{| member_group_id := gid; member_node_id := nid; member_enabled := true;
                    member_priority := p |}])%list
  end.

Definition group_next_of (next : option string) : NextRef :=
  match next with None => DirectAuditOutlet | Some v => named v end.

(** One round of the loop of [load_groups]. *)
Definition push_group (defaults : GroupThresholds)
    (acc : list ForwardGroup * list GroupMember * gset string) (g : FileForwardGroupConfig)
    : load (list ForwardGroup * list GroupMember * gset string) :=
  let '(groups, members, ids) := acc in
  id ← non_empty "forwarding.groups[].id" (fg_id g);
  ids' ← validate_group_header id g ids;
  th ← load_thresholds (fg_thresholds g) defaults;
  members' ← push_group_members id 0 (fg_members g) members;
  Ok ((groups ++ [{| group_id := id; group_enabled := default true (fg_enabled g);
                     group_scheduler := SingleFirstEnabled; group_thresholds := th;
                     group_next := group_next_of (fg_next g) |}])%list, members', ids').

Definition load_groups (groups : list FileForwardGroupConfig) (defaults : GroupThresholds)
    : load (list ForwardGroup * list GroupMember) :=
  acc ← for_each (push_group defaults) ([], [], ∅) groups;
  Ok acc.1.

(** The head member of the default group has an execution node. *)
Definition validate_execution_node (default_gid : string) (groups : list ForwardGroup)
    (members : list GroupMember) (configs : gmap string EgressNodeConfig) : load unit :=
  g ← ok_or (List.find (λ g, String.eqb (group_id g) default_gid) groups)
        (Format "forwarding.default_group {default_group:?} is missing" [default_gid]);
  if negb (group_enabled g) then
    Err (Format "forwarding.default_group {default_group:?} is disabled" [default_gid])
  else
    m ← ok_or (min_by member_cmp
                 (List.filter (λ m, String.eqb (member_group_id m) (group_id g)) members))
          (Format "forwarding.default_group {default_group:?} has no members" [default_gid]);
    match configs !! member_node_id m with
    | Some _ => Ok tt
    | None => Err (Format "forwarding.default_group {default_group:?} member {:?} is missing"
                     [default_gid; member_node_id m])
    end.

Definition load_dns_timeout (ms : option Z) (policy : DnsRacePolicy) : load DnsRacePolicy :=
  match ms with
  | None => Ok policy
  | Some t =>
      if (t =? 0)%Z then Err (Text "forwarding.dns_race_timeout_ms must be positive")
      else Ok {| dns_timeout := from_millis t; dns_strategy := dns_strategy policy |}
  end.

Definition load_dns_upstreams (ups : option (list FileDnsUpstreamConfig)) : load (list DnsUpstream) :=
  loaded ← map_transpose (collect_ok load_upstream) ups;
  Ok (default (seed_dns_upstreams (single_node "direct")) loaded).

Definition build_graph (default_group : option string) (nodes : list FileForwardNodeConfig)
    (groups : list FileForwardGroupConfig) (rules : option (list FileRouteRuleConfig))
    (ups : option (list FileDnsUpstreamConfig)) (timeout_ms : option Z)
    (thresholds : option FileGroupThresholds) : load ForwardingConfig :=
  gid ← match default_group with
        | Some g => Ok g
        | None => match groups with g :: _ => Ok (fg_id g) | [] => Panic end
        end;
  '(runtime_nodes, configs) ← load_nodes nodes;
  _ ← validate_thresholds "forwarding" thresholds;
  defaults ← load_thresholds thresholds default_thresholds;
  '(runtime_groups, members) ← load_groups groups defaults;
  route_rules ← collect_ok load_rule (default [] rules);
  dns ← load_dns_upstreams ups;
  policy ← load_dns_timeout timeout_ms (seed_dns_policy (single_node "direct"));
  _ ← validate_execution_node gid runtime_groups members configs;
  Ok {| fwd_seed :=
          {| seed_ipv6_enabled := false; seed_nodes := runtime_nodes; seed_default_group_id := gid;
             seed_groups := runtime_groups; seed_group_members := members;
             seed_route_rules := route_rules; seed_dns_upstreams := dns; seed_dns_policy := policy |};
        execution_nodes := configs |}.

(** [FileForwardingConfig::load] *)
Definition load_forwarding (f : FileForwardingConfig) : load ForwardingConfig :=
  nodes ← require (ff_nodes f) "forwarding.nodes is required";
  groups ← require (ff_groups f) "forwarding.groups is required";
  _ ← reject (length nodes =? 0) "forwarding.nodes must not be empty";
  _ ← reject (length groups =? 0) "forwarding.groups must not be empty";
  build_graph (ff_default_group f) nodes groups (ff_rules f) (ff_dns_upstreams f)
    (ff_dns_race_timeout_ms f) (ff_thresholds f).
End Load.

(** ** Successful loads *)
Lemma non_empty_Ok name v r : non_empty name v = Ok r ↔ r = v ∧ trim v ≠ "".
Proof.
  unfold non_empty, is_empty. destruct (String.eqb_spec (trim v) "") as [->|Hne].
  - by split; [|intros [_ ?]].
  - split; [by intros [= <-]|by intros [-> _]].
Qed.

Section loaded.
Variable sha256_hex : string → string.

(** The nodes and their egress configurations after the nodes [done]. *)
Definition nodes_loaded (done : list FileForwardNodeConfig)
    (acc : list ForwardNode * gmap string EgressNodeConfig) : Prop :=
  List.map node_id acc.1 = List.map fn_id done ∧ NoDup (List.map node_id acc.1) ∧
  (∀ id c, acc.2 !! id = Some c ↔ ∃ n, n ∈ done ∧ fn_id n = id ∧ load_execution_config n = Ok c) ∧
  ∀ n, n ∈ done → ∃ c, load_execution_config n = Ok c.

Lemma push_node_loaded done n acc acc' :
  nodes_loaded done acc → push_node sha256_hex acc n = Ok acc' → nodes_loaded (done ++ [n])%list acc'.
Proof.
  intros (Hids & Hnd & Hcfg & Hall) Hp. unfold push_node in Hp. bind_inv Hp. destruct x as [node c].
  unfold load_execution_node in E. bind_inv E. injection E as [= <- <-].
  apply non_empty_Ok in E0 as [-> _]. cbn in Hp.
  destruct (acc.2 !! fn_id n) as [c'|] eqn:Hl; [done|]. injection Hp as [= <-].
  assert (fn_id n ∉ List.map fn_id done) as Hfresh.
  { intros Hin. apply list_elem_of_In, in_map_iff in Hin as (n' & Hn' & Hin%list_elem_of_In).
    destruct (Hall n' Hin) as [c' Hc']. enough (acc.2 !! fn_id n = Some c') by congruence.
    apply Hcfg. by exists n'. }
  split_and!; cbn.
  - rewrite !List.map_app. cbn. by rewrite Hids.
  - rewrite List.map_app. cbn. apply NoDup_app. split_and!; [done| |apply NoDup_singleton].
    intros i Hi ->%list_elem_of_singleton. apply Hfresh. by rewrite <- Hids.
  - intros id c0. destruct (decide (id = fn_id n)) as [->|Hne].
    + rewrite lookup_insert_eq. setoid_rewrite elem_of_app. setoid_rewrite list_elem_of_singleton. split.
      * intros [= <-]. exists n. split; [by right|done].
      * intros (n' & [Hin| ->] & Hid & Hc); [|congruence].
        destruct Hfresh. rewrite <- Hid. by apply list_elem_of_In, in_map, list_elem_of_In.
    + rewrite lookup_insert_ne by done. rewrite Hcfg. setoid_rewrite elem_of_app.
      setoid_rewrite list_elem_of_singleton. naive_solver.
  - intros n' [Hin|Hin%list_elem_of_singleton]%elem_of_app; [by apply Hall|subst; eauto].
Qed.

Lemma load_nodes_loaded nodes acc : load_nodes sha256_hex nodes = Ok acc → nodes_loaded nodes acc.
Proof.
  apply for_each_ind; [|intros ? ? ? ?; apply push_node_loaded].
  split_and!; cbn; [done|constructor| |by intros n ?%elem_of_nil].
  intros id c. rewrite lookup_empty. split; [done|]. by intros (n & ?%elem_of_nil & _).
Qed.
End loaded.

(** The members that a group lists, with their positions as priorities. *)
Fixpoint listed_members (gid : string) (priority : nat) (ms : list string) : list GroupMember :=
  match ms with
  | [] => []
  | m :: ms' => {| member_group_id := gid; member_node_id := m; member_enabled := true;
                   member_priority := Z.of_nat priority |} :: listed_members gid (S priority) ms'
  end.

Lemma push_group_members_listed gid k ms acc l :
  push_group_members gid k ms acc = Ok l →
  l = (acc ++ listed_members gid k ms)%list ∧ Forall (λ m, trim m ≠ "") ms.
Proof.
  revert k acc; induction ms as [|m ms IH]; intros k acc Hp; cbn in *.
  { injection Hp as <-. by rewrite app_nil_r. }
  bind_inv Hp. apply non_empty_Ok in E as [-> Hm]. apply ok_or_Ok in E0.
  unfold try_u in E0. case_match; [|done]. injection E0 as <-.
  apply IH in Hp as [-> Hms]. rewrite <- app_assoc. split; [done|by constructor].
Qed.

(** What a loaded group keeps of the file. *)
Definition group_loaded (defaults : GroupThresholds) (fg : FileForwardGroupConfig) (g : ForwardGroup) : Prop :=
  group_id g = fg_id fg ∧ group_enabled g = default true (fg_enabled fg) ∧
  load_thresholds (fg_thresholds fg) defaults = Ok (group_thresholds g) ∧
  validate_thresholds (fg_id fg) (fg_thresholds fg) = Ok tt ∧
  group_next g = group_next_of (fg_next fg).

Definition file_members (fg : FileForwardGroupConfig) : list GroupMember :=
  listed_members (fg_id fg) 0 (fg_members fg).

Definition groups_loaded (defaults : GroupThresholds) (done : list FileForwardGroupConfig)
    (acc : list ForwardGroup * list GroupMember * gset string) : Prop :=
  Forall2 (group_loaded defaults) done acc.1.1 ∧ acc.1.2 = List.flat_map file_members done ∧
  acc.2 = list_to_set (List.map fg_id done) ∧ NoDup (List.map fg_id done) ∧
  DIRECT_AUDIT_OUTLET ∉ List.map fg_id done.

Lemma push_group_loaded defaults done g acc acc' :
  groups_loaded defaults done acc → push_group defaults acc g = Ok acc' →
  groups_loaded defaults (done ++ [g])%list acc'.
Proof.
  destruct acc as [[gs ms] ids]. intros (Hgs & Hms & Hids & Hnd & Hres) Hp. cbn in Hgs, Hms, Hids.
  unfold push_group in Hp. bind_inv Hp. injection Hp as [= <-].
  apply non_empty_Ok in E as [-> _]. unfold validate_group_header in E0.
  destruct (String.eqb_spec (fg_id g) DIRECT_AUDIT_OUTLET) as [|Hd]; [done|].
  case_bool_decide as Hin; [done|]. destruct (negb _); [done|]. bind_inv E0. injection E0 as <-.
  destruct x. apply push_group_members_listed in E2 as [-> _].
  rewrite Hids, elem_of_list_to_set in Hin.
  split_and!; cbn.
  - apply Forall2_app; [done|]. repeat constructor; cbn; done.
  - rewrite List.flat_map_app. cbn. by rewrite app_nil_r, Hms.
  - rewrite List.map_app, list_to_set_app_L. cbn. rewrite Hids. set_solver.
  - rewrite List.map_app. apply NoDup_app. split_and!; [done| |apply NoDup_singleton].
    by intros i Hi ->%list_elem_of_singleton.
  - rewrite List.map_app, elem_of_app. cbn. rewrite list_elem_of_singleton. naive_solver.
Qed.

Lemma load_groups_loaded fgs defaults gs ms :
  load_groups fgs defaults = Ok (gs, ms) →
  Forall2 (group_loaded defaults) fgs gs ∧ ms = List.flat_map file_members fgs ∧
  NoDup (List.map fg_id fgs) ∧ DIRECT_AUDIT_OUTLET ∉ List.map fg_id fgs.
Proof.
  unfold load_groups. intros H. bind_inv H. destruct x as [[gs' ms'] ids]. injection H as [= -> ->].
  apply (for_each_ind _ (groups_loaded defaults)) in E as (? & ? & _ & ? & ?); [done| |].
  - split_and!; cbn; [constructor|done|done|constructor|by intros ?%elem_of_nil].
  - intros ? ? ? ?. apply push_group_loaded.
Qed.

Lemma loaded_group_ids defaults fgs gs :
  Forall2 (group_loaded defaults) fgs gs → List.map group_id gs = List.map fg_id fgs.
Proof. induction 1 as [|fg g fgs gs (Hid & _) _ IH]; [done|]. cbn. by rewrite Hid, IH. Qed.

(** ** The members of a loaded group *)
Lemma listed_members_In gid k ms m :
  m ∈ listed_members gid k ms → member_group_id m = gid ∧ (Z.of_nat k ≤ member_priority m)%Z.
Proof.
  revert k; induction ms as [|x ms IH]; intros k; cbn; [by intros ?%elem_of_nil|].
  intros [->|Hm]%elem_of_cons; cbn; [split; [done|lia]|].
  apply IH in Hm as [? ?]. split; [done|lia].
Qed.

Lemma listed_members_nodes gid k ms : List.map member_node_id (listed_members gid k ms) = ms.
Proof. revert k; induction ms as [|m ms IH]; intros k; cbn; [done|]. by rewrite IH. Qed.

Lemma member_cmp_priority a b :
  (member_priority a < member_priority b)%Z → cmp_leb member_cmp a b = true.
Proof.
  intros Hlt. unfold cmp_leb, member_cmp. cbn. unfold pair_cmp. cbn.
  by rewrite (proj2 (Z.compare_lt_iff _ _) Hlt).
Qed.

Lemma listed_members_sorted gid k ms :
  StronglySorted (λ a b, cmp_leb member_cmp a b = true) (listed_members gid k ms).
Proof.
  revert k; induction ms as [|m ms IH]; intros k; cbn; constructor; [done|].
  apply Forall_forall. intros x [_ Hx]%listed_members_In. apply member_cmp_priority. cbn. lia.
Qed.

Lemma filter_listed gid gid' k ms :
  List.filter (λ m, String.eqb (member_group_id m) gid) (listed_members gid' k ms) =
    if String.eqb gid' gid then listed_members gid' k ms else [].
Proof.
  revert k; induction ms as [|m ms IH]; intros k; cbn; [by case_match|].
  rewrite IH. by destruct (String.eqb gid' gid).
Qed.

Lemma filter_file_members fgs fg :
  NoDup (List.map fg_id fgs) → fg ∈ fgs →
  List.filter (λ m, String.eqb (member_group_id m) (fg_id fg)) (List.flat_map file_members fgs) =
    file_members fg.
Proof.
  intros Hnd Hin. induction fgs as [|g fgs IH]; [by apply elem_of_nil in Hin|].
  apply NoDup_cons in Hnd as [Hg Hnd]. cbn. rewrite List.filter_app. unfold file_members at 1.
  rewrite filter_listed. apply elem_of_cons in Hin as [->|Hin].
  - rewrite String.eqb_refl. change (listed_members (fg_id g) 0 (fg_members g)) with (file_members g).
    rewrite <- (app_nil_r (file_members g)) at 2. f_equal.
    clear IH Hnd. induction fgs as [|h fgs IH]; [done|]. cbn in *.
    rewrite List.filter_app. unfold file_members at 1. rewrite filter_listed.
    apply not_elem_of_cons in Hg as [Hne Hg].
    destruct (String.eqb_spec (fg_id h) (fg_id g)); [congruence|]. by apply IH.
  - destruct (String.eqb_spec (fg_id g) (fg_id fg)) as [E|_]; [|by apply IH].
    destruct Hg. rewrite E. by apply list_elem_of_In, in_map, list_elem_of_In.
Qed.

(** ** Theorems *)
Section theorems.
Variable sha256_hex : string → string.
Local Abbreviation load_forwarding := (load_forwarding sha256_hex).

(** What the loader establishes, in one inversion. *)
Lemma load_forwarding_inv f c :
  load_forwarding f = Ok c →
  ∃ nodes fgs defaults g m,
    ff_nodes f = Some nodes ∧ ff_groups f = Some fgs ∧ nodes ≠ [] ∧
    nodes_loaded nodes (seed_nodes (fwd_seed c), execution_nodes c) ∧
    validate_thresholds "forwarding" (ff_thresholds f) = Ok tt ∧
    load_thresholds (ff_thresholds f) default_thresholds = Ok defaults ∧
    Forall2 (group_loaded defaults) fgs (seed_groups (fwd_seed c)) ∧
    seed_group_members (fwd_seed c) = List.flat_map file_members fgs ∧
    NoDup (List.map fg_id fgs) ∧ (DIRECT_AUDIT_OUTLET ∉ List.map fg_id fgs) ∧
    g ∈ seed_groups (fwd_seed c) ∧ group_id g = seed_default_group_id (fwd_seed c) ∧
    group_enabled g = true ∧
    min_by member_cmp (List.filter (λ m, String.eqb (member_group_id m) (group_id g))
                         (seed_group_members (fwd_seed c))) = Some m ∧
    is_Some (execution_nodes c !! member_node_id m) ∧
    seed_ipv6_enabled (fwd_seed c) = false.
Proof.
  unfold load_forwarding, Forwarding.load_forwarding.
  intros (nodes & Hn%ok_or_Ok & H)%outcome_bind_Ok_inv.
  apply outcome_bind_Ok_inv in H as (fgs & Hf%ok_or_Ok & H).
  apply seq_ok in H as [Hn0%guard_ok H]. apply seq_ok in H as [_ H].
  apply outcome_bind_Ok_inv in H as (gid & _ & H).
  apply outcome_bind_Ok_inv in H as ([ns cfg] & Hnodes%load_nodes_loaded & H).
  apply seq_ok in H as [Hth H]. apply outcome_bind_Ok_inv in H as (defaults & Hd & H).
  apply outcome_bind_Ok_inv in H as ([gs ms] & (Hgs & -> & Hnd & Hres)%load_groups_loaded & H).
  apply outcome_bind_Ok_inv in H as (rules & _ & H).
  apply outcome_bind_Ok_inv in H as (dns & _ & H).
  apply outcome_bind_Ok_inv in H as (policy & _ & H).
  apply seq_ok in H as [Hv [= <-]]. unfold validate_execution_node in Hv.
  apply outcome_bind_Ok_inv in Hv as (g & Hg%ok_or_Ok & Hv).
  destruct (group_enabled g) eqn:Hen; [|done].
  apply outcome_bind_Ok_inv in Hv as (m & Hm%ok_or_Ok & Hv).
  destruct (cfg !! member_node_id m) as [c0|] eqn:Hc; [|done].
  apply find_Some_elem in Hg as [Hg Hid%String.eqb_eq].
  exists nodes, fgs, defaults, g, m. split_and!; try done; cbn.
  by intros ->.
Qed.

(** Thresholds that admit some node. *)
Definition thresholds_usable (t : GroupThresholds) : Prop :=
  min_samples t ≠ 0%Z ∧ max_active_sessions t ≠ Some 0%Z.

Lemma load_thresholds_usable id ft defaults t :
  validate_thresholds id ft = Ok tt → load_thresholds ft defaults = Ok t →
  thresholds_usable defaults → thresholds_usable t.
Proof.
  unfold validate_thresholds, load_thresholds, thresholds_usable. destruct ft as [ft|].
  2: by intros _ [= <-].
  intros [_ H]%seq_ok (ppm & _ & [= <-])%outcome_bind_Ok_inv [Hd1 Hd2].
  apply seq_ok in H as [_ [Hs%guard_ok Ha%guard_ok]%seq_ok].
  cbn. destruct (file_min_samples ft), (file_max_active_sessions ft); cbn in *; bool_hyps;
    split; congruence.
Qed.

(** What the later stages rely on. *)
Record forwarding_valid (c : ForwardingConfig) : Prop := {
  fv_nodes : seed_nodes (fwd_seed c) ≠ [];
  fv_node_ids : NoDup (List.map node_id (seed_nodes (fwd_seed c)));
  fv_execution : ∀ id, is_Some (execution_nodes c !! id) ↔ id ∈ List.map node_id (seed_nodes (fwd_seed c));
  fv_group_ids : NoDup (List.map group_id (seed_groups (fwd_seed c)));
  fv_reserved : DIRECT_AUDIT_OUTLET ∉ List.map group_id (seed_groups (fwd_seed c));
  fv_default : ∃ g m, g ∈ seed_groups (fwd_seed c) ∧ group_id g = seed_default_group_id (fwd_seed c) ∧
    group_enabled g = true ∧ m ∈ seed_group_members (fwd_seed c) ∧ member_group_id m = group_id g ∧
    (∀ m', m' ∈ seed_group_members (fwd_seed c) → member_group_id m' = group_id g →
      (member_priority m ≤ member_priority m')%Z) ∧
    is_Some (execution_nodes c !! member_node_id m);
  fv_thresholds : Forall (λ g, thresholds_usable (group_thresholds g)) (seed_groups (fwd_seed c));
}.

Lemma member_cmp_le a b : cmp_leb member_cmp a b = true → (member_priority a ≤ member_priority b)%Z.
Proof.
  unfold cmp_leb, member_cmp. cbn. unfold pair_cmp. cbn.
  destruct (Z.compare_spec (member_priority a) (member_priority b)); [lia|lia|done].
Qed.

Lemma load_forwarding_valid f c : load_forwarding f = Ok c → forwarding_valid c.
Proof.
  intros (nodes & fgs & defaults & g & m & _ & _ & Hne & (Hids & Hnd & Hcfg & Hall) & Hth & Hd & Hgs &
    Hms & Hfnd & Hres & Hg & Hgid & Hen & Hmin & Hexec & _)%load_forwarding_inv. cbn in *.
  assert (thresholds_usable defaults) as Hdef.
  { eapply load_thresholds_usable; [exact Hth|exact Hd|done]. }
  split.
  - intros E. rewrite E in Hids. by destruct nodes.
  - done.
  - intros id. rewrite Hids, list_elem_of_In, in_map_iff. split.
    + intros [c' (n & Hn & <- & _)%Hcfg]. exists n. by rewrite <- list_elem_of_In.
    + intros (n & <- & Hn%list_elem_of_In). destruct (Hall n Hn) as [c' Hc].
      exists c'. apply Hcfg. by exists n.
  - by rewrite (loaded_group_ids _ _ _ Hgs).
  - by rewrite (loaded_group_ids _ _ _ Hgs).
  - exists g, m.
    destruct (List.filter _ _) as [|x l] eqn:Ef in Hmin; [done|].
    destruct (min_by_Some member_cmp (x :: l)) as (y & Hy & Hin & Hle); [done|].
    rewrite Hy in Hmin. injection Hmin as [= ->]. rewrite <- Ef in Hin, Hle.
    apply list_elem_of_In, filter_In in Hin as [Hin%list_elem_of_In Hmg%String.eqb_eq].
    split_and!; try done. intros m' Hm' Hg'. destruct (Hle m') as [->|Hl]; [|done|by apply member_cmp_le].
    apply list_elem_of_In, filter_In. split; [by apply list_elem_of_In|by apply String.eqb_eq].
  - clear -Hgs Hdef. induction Hgs as [|fg g fgs gs (_ & _ & Hl & Hv & _) _ IH]; [done|].
    constructor; [|done]. by eapply load_thresholds_usable.
Qed.

(** the loader establishes the invariant of a forwarding section: node ids are
    unique and are exactly the keys of the egress configurations, group ids are
    unique and unreserved, the default group is enabled and its first member can be
    executed, and every threshold admits some node. *)
Theorem load_forwarding_sound f c : load_forwarding f = Ok c → forwarding_valid c.
Proof. apply load_forwarding_valid. Qed.

(** the members of a loaded group are tried in the order in which the file lists
    them: after the store has sorted them by priority and node id, the member list of
    each group is the listed one. *)
Theorem loaded_member_order f c fgs fg :
  load_forwarding f = Ok c → ff_groups f = Some fgs → fg ∈ fgs →
  let s := fwd_seed c in
  default [] (members (from_parts (seed_default_group_id s) (seed_groups s) (seed_group_members s))
                !! fg_id fg) = file_members fg ∧
  List.map member_node_id (file_members fg) = fg_members fg.
Proof.
  intros (nodes & fgs' & defaults & g & m & _ & Hf & _ & _ & _ & _ & _ & Hms & Hnd & _)%load_forwarding_inv
    Hf' Hin. rewrite Hf in Hf'. injection Hf' as [= ->]. cbn [fwd_seed]. split; [|apply listed_members_nodes].
  cbn. rewrite lookup_fmap, fold_push_member, lookup_empty, Hms, filter_file_members by done.
  destruct (file_members fg) as [|x l] eqn:E; [done|].
  change (sort_by member_cmp (x :: l) = x :: l). rewrite <- E.
  apply sort_by_id, listed_members_sorted.
Qed.

Lemma no_panic_non_empty name v : no_panic (non_empty name v).
Proof. unfold non_empty. no_panics. Qed.
Local Hint Resolve no_panic_non_empty : dynet.

Lemma no_panic_agree a b d : no_panic (agree a b d).
Proof. unfold agree. no_panics. Qed.
Local Hint Resolve no_panic_agree : dynet.

Lemma no_panic_load_execution_config n : no_panic (load_execution_config n).
Proof.
  unfold load_execution_config, load_shadowsocks, load_trojan, load_vless, load_vmess, require, reject,
    parse_shadowsocks_method. no_panics.
Qed.
Local Hint Resolve no_panic_load_execution_config : dynet.

Lemma no_panic_load_thresholds t d : no_panic (load_thresholds t d).
Proof. unfold load_thresholds, map_transpose, rate_to_ppm. no_panics. Qed.
Local Hint Resolve no_panic_load_thresholds : dynet.

Lemma no_panic_validate_thresholds id t : no_panic (validate_thresholds id t).
Proof. unfold validate_thresholds, reject_group, validate_ratio. no_panics. Qed.
Local Hint Resolve no_panic_validate_thresholds : dynet.

Lemma no_panic_push_group_members gid k ms acc : no_panic (push_group_members gid k ms acc).
Proof. revert k acc; induction ms as [|m ms IH]; intros k acc; cbn; no_panics. Qed.
Local Hint Resolve no_panic_push_group_members : dynet.

Lemma no_panic_load_rule r : no_panic (load_rule r).
Proof. unfold load_rule, parse_ipv6_policy, load_matcher, parse_ip_exact_rule. no_panics. Qed.

Lemma no_panic_load_upstream d : no_panic (load_upstream d).
Proof. unfold load_upstream, load_transport, load_https_transport. no_panics. Qed.
Local Hint Resolve no_panic_load_rule no_panic_load_upstream : dynet.

(** Loading a forwarding section returns a section or an error: the only partial
    operation, the first group taken as the default, is guarded. *)
Theorem load_forwarding_no_panic f : no_panic (load_forwarding f).
Proof.
  unfold load_forwarding, Forwarding.load_forwarding, require, reject.
  apply no_panic_bind; [no_panics|]. intros nodes _.
  apply no_panic_bind; [no_panics|]. intros fgs _.
  apply no_panic_bind; [no_panics|]. intros _ _.
  apply no_panic_bind; [no_panics|]. intros [] Hg%guard_ok. bool_hyps.
  unfold build_graph. apply no_panic_bind.
  { destruct (ff_default_group f); [no_panics|]. by destruct fgs. }
  intros gid _. unfold load_nodes, push_node, load_execution_node, load_groups, push_group,
    validate_group_header, load_dns_upstreams, map_transpose, load_dns_timeout, validate_execution_node.
  no_panics.
Qed.
End theorems.

(** ** A concrete section *)
Definition demo_file_node (id kind : string) : FileForwardNodeConfig :=
  {| fn_id := id; fn_enabled := None; fn_kind := kind; fn_server := Some "Proxy.example";
     fn_port := Some 8388%Z; fn_method := None; fn_cipher := Some "aes-256-gcm";
     fn_alter_id := None; fn_uuid := None; fn_flow := None; fn_network := None; fn_tls := None;
     fn_password := Some "secret"; fn_sni := None; fn_servername := None;
     fn_client_fingerprint := None; fn_reality_opts := None; fn_skip_cert_verify := None;
     fn_udp := Some true; fn_ipv6 := None |}.

Definition demo_file_group (id : string) (next : option string) (ms : list string) : FileForwardGroupConfig :=
  {| fg_id := id; fg_enabled := None; fg_mode := "smart"; fg_profile := None; fg_next := next;
     fg_members := ms; fg_thresholds := None |}.

Definition demo_file_groups : list FileForwardGroupConfig :=
  [demo_file_group "entry" (Some "exit") ["zeta"; "alpha"]; demo_file_group "exit" None ["alpha"]].

Definition demo_forwarding_file : FileForwardingConfig :=
  {| ff_default_group := None;
     ff_nodes := Some [demo_file_node "zeta" "ss"; demo_file_node "alpha" "direct"];
     ff_groups := Some demo_file_groups; ff_rules := None; ff_dns_upstreams := None;
     ff_dns_race_timeout_ms := Some 1500%Z;
     ff_thresholds := Some {| file_window_secs := None; file_min_confidence := None;
       file_max_explore_ratio := None; file_failure_cooldown_secs := None;
       file_min_success_rate := Some (S754_finite false 4503599627370496 (-53));
       file_min_samples := Some 3%Z; file_max_active_sessions := None |} |}.

Definition demo_digest (s : string) : string := s.

Example demo_thresholds :
  (c ← load_forwarding demo_digest demo_forwarding_file;
   Ok (List.map (λ g, min_success_rate_ppm (group_thresholds g)) (seed_groups (fwd_seed c))))
  = Ok [500000; 500000]%Z.
Proof. vm_compute. reflexivity. Qed.

Lemma load_forwarding_sound_witness :
  ∃ c, load_forwarding demo_digest demo_forwarding_file = Ok c ∧ forwarding_valid c.
Proof.
  eexists. match goal with |- ?A ∧ _ => assert A as H by (vm_compute; reflexivity) end.
  exact (conj H (load_forwarding_sound demo_digest _ _ H)).
Defined.

Lemma loaded_member_order_witness :
  ∃ c, load_forwarding demo_digest demo_forwarding_file = Ok c ∧
    default [] (members (from_parts (seed_default_group_id (fwd_seed c)) (seed_groups (fwd_seed c))
      (seed_group_members (fwd_seed c))) !! "entry") = file_members (demo_file_group "entry" (Some "exit") ["zeta"; "alpha"]).
Proof.
  eexists. match goal with |- ?A ∧ _ => assert A as H by (vm_compute; reflexivity) end.
  refine (conj H (proj1 (loaded_member_order demo_digest _ _ _ (demo_file_group "entry" (Some "exit") ["zeta"; "alpha"]) H eq_refl _))).
  apply list_elem_of_here.
Defined.
