(* ===== verification/Settings.v ===== *)
(** * Settings: loading the configuration from a file and the environment

    [Config::from_config_path] of [crates/dynet-state/src/lib.rs]: the defaults, then
    the file, then the environment, then the policy that the runtime seed shares with
    the configuration. [toml] and the file system are outside: the loader takes the
    deserialised file, or nothing when the default file does not exist. The
    environment is a function of the variable name. *)
From Stdlib Require Import ZArith Lia Strings.Byte Ascii String.
From stdpp Require Import base list numbers option strings gmap sets.
From S2P Require Import Prelude Collections Net RustStd Model Stores ConfigData Forwarding.
Local Open Scope string_scope.
Local Open Scope nat_scope.

(** ** Shared parsers *)
Definition parse_socket (name value : string) : load SocketAddr :=
  ok_or (parse_socket_addr value) (Format (name ++ " must be a socket address: {error}") []).

Definition parse_ip_setting (name value : string) : load IpAddr :=
  ok_or (parse_ip value) (Format (name ++ " must be an IP address: {error}") []).

Definition non_empty_string (name value : string) : load string :=
  if is_empty value then Err (Text (name ++ " requires a non-empty value")) else Ok value.

Definition positive_usize (name : string) (value : Z) : load Z :=
  if (value =? 0)%Z then Err (Text (name ++ " must be a positive integer")) else Ok value.

(** [if let Some(value) = field { target = f(value)? }] *)
Definition set_if {A B} (o : option A) (target : B) (f : A → load B) : load B :=
  match o with Some a => f a | None => Ok target end.

(** ** integration_config *)
Definition is_ascii_alphanumeric (c : ascii) : bool :=
  let z := code c in
  (((48 <=? z) && (z <=? 57)) || ((65 <=? z) && (z <=? 90)) || ((97 <=? z) && (z <=? 122)))%Z.

Definition interface_char (c : ascii) : bool := is_ascii_alphanumeric c || str_contains c "_.:-".

Fixpoint all_chars (p : ascii → bool) (s : string) : bool :=
  match s with "" => true | String c s' => p c && all_chars p s' end.

Definition validate_interface (name value : string) : load string :=
  if (15 <? String.length value) || negb (all_chars interface_char value) then
    Err (Text (name ++ " must be a 1-15 character Linux interface name using letters, digits, _, ., :, or -"))
  else Ok value.

Definition load_interface (name value : string) : load (option string) :=
  v ← non_empty_string name value;
  i ← validate_interface name v;
  Ok (Some i).

Definition MAX_SOURCE_SELECTORS : nat := 64.

Inductive SourceFamily := SourceV4 | SourceV6.

(** [require_canonical_v4] and [require_canonical_v6] *)
Definition require_canonical (w : Z) (show : Z → string) (name source : string) (address prefix : Z)
    : load unit :=
  let canonical := Z.land address (cidr_mask w prefix) in
  if (canonical =? address)%Z then Ok tt
  else Err (Format (name ++ " entry {source:?} has host bits set; use {canonical}/{prefix}")
              [source; show canonical; to_string prefix]).

Definition validate_source (name source : string) (family : SourceFamily) : load string :=
  let bad text := Err (Format (name ++ " entry {source:?} " ++ text) [source]) in
  '(base, p) ← ok_or (split_once "/" source)
     (Format (name ++ " entry {source:?} must be an explicit CIDR") [source]);
  address ← ok_or (parse_ip base)
     (Format (name ++ " entry {source:?} has an invalid address: {error}") [source]);
  prefix ← ok_or (parse_uint 8 p)
     (Format (name ++ " entry {source:?} has an invalid prefix: {error}") [source]);
  match family, address with
  | SourceV4, V4 a =>
      if (prefix <=? 32)%Z then
        _ ← require_canonical 32 ipv4_to_string name source a prefix;
        Ok (ip_to_string (V4 a) ++ "/" ++ to_string prefix)
      else bad "prefix must be between 0 and 32"
  | SourceV6, V6 a =>
      if (prefix <=? 128)%Z then
        _ ← require_canonical 128 ipv6_to_string name source a prefix;
        Ok (ip_to_string (V6 a) ++ "/" ++ to_string prefix)
      else bad "prefix must be between 0 and 128"
  | SourceV4, V6 _ => bad "must be an IPv4 CIDR"
  | SourceV6, V4 _ => bad "must be an IPv6 CIDR"
  end.

(** One round of the loop of [validate_sources]. *)
Definition push_source (name : string) (family : SourceFamily) (acc : gset string * list string)
    (source : string) : load (gset string * list string) :=
  normalized ← validate_source name source family;
  if bool_decide (normalized ∈ acc.1) then
    Err (Text (name ++ " contains duplicate selector " ++ normalized))
  else Ok ({[normalized]} ∪ acc.1, (acc.2 ++ [normalized])%list).

Definition validate_sources (name : string) (sources : list string) (family : SourceFamily)
    : load (list string) :=
  if MAX_SOURCE_SELECTORS <? length sources then
    Err (Text (name ++ " accepts at most 64 CIDR selectors"))
  else
    acc ← for_each (push_source name family) (∅, []) sources;
    Ok acc.2.

Record FileRouterIngressConfig := {
  fri_interface : option string;
  fri_ipv4_sources : option (list string);
  fri_ipv6_sources : option (list string);
}.

Definition apply_router_ingress (f : FileRouterIngressConfig) (c : RouterIngressConfig)
    : load RouterIngressConfig :=
  i ← set_if (fri_interface f) (router_interface c) (load_interface "capture.router_ingress.interface");
  v4 ← set_if (fri_ipv4_sources f) (ipv4_sources c)
         (λ l, validate_sources "capture.router_ingress.ipv4_sources" l SourceV4);
  v6 ← set_if (fri_ipv6_sources f) (ipv6_sources c)
         (λ l, validate_sources "capture.router_ingress.ipv6_sources" l SourceV6);
  Ok {| router_interface := i; ipv4_sources := v4; ipv6_sources := v6 |}.

Record FileDnsMappingConfig := { fdm_interface : option string; fdm_source_port : option Z }.

Definition apply_dns_mapping (f : FileDnsMappingConfig) (c : DnsMappingConfig) : load DnsMappingConfig :=
  i ← set_if (fdm_interface f) (map_interface c) (load_interface "dns_mapping.interface");
  p ← set_if (fdm_source_port f) (source_port c)
        (λ p, if (p =? 0)%Z then Err (Text "dns_mapping.source_port must be between 1 and 65535") else Ok p);
  Ok {| map_interface := i; source_port := p |}.

Definition parse_port (name value : string) : load Z :=
  port ← ok_or (parse_uint 16 value) (Format (name ++ " must be a port between 1 and 65535: {error}") []);
  if (port =? 0)%Z then Err (Text (name ++ " must be a port between 1 and 65535")) else Ok port.

(** ** persistence_config *)
Definition MIN_PERSISTENCE_BYTES : Z := 4194304.

(** [PersistencePolicy::validate], with the prefix that the loaders add *)
Definition validate_policy (p : PersistencePolicy) : load unit :=
  if (retention p =? 0)%Z then
    Err (Text "invalid persistence configuration: retention must be greater than zero")
  else if (max_bytes p <? MIN_PERSISTENCE_BYTES)%Z then
    Err (Text "invalid persistence configuration: max_bytes must be at least 4194304")
  else Ok tt.

Definition duration_from_hours (name : string) (hours : Z) : load Z :=
  if (hours =? 0)%Z then Err (Text (name ++ " must be a positive integer"))
  else
    s ← ok_or (try_u 64 (hours * (60 * 60))) (Text (name ++ " is too large"));
    Ok (from_secs s).

Record FilePersistenceConfig := { fpc_retention_hours : option Z; fpc_max_bytes : option Z }.

Definition apply_persistence (f : FilePersistenceConfig) (p : PersistencePolicy) : load PersistencePolicy :=
  r ← set_if (fpc_retention_hours f) (retention p) (duration_from_hours "persistence.retention_hours");
  b ← set_if (fpc_max_bytes f) (max_bytes p) (positive_usize "persistence.max_bytes");
  let p' := {| retention := r; max_bytes := b |} in
  _ ← validate_policy p';
  Ok p'.

(** ** service_config *)
Definition parse_manager (name value : string) : load ServiceManager :=
  if String.eqb value "auto" then Ok Auto
  else if String.eqb value "systemd" then Ok Systemd
  else if String.eqb value "procd" then Ok Procd
  else Err (Text (name ++ " must be auto, systemd, or procd")).

Definition non_empty_path (name value : string) : load PathBuf :=
  if is_empty value then Err (Text (name ++ " requires a non-empty path")) else Ok (path_from value).

Record FileServiceConfig := {
  fsc_manager : option string;
  fsc_user : option string;
  fsc_runtime_database : option string;
  fsc_environment_file : option string;
}.

Definition apply_service (f : FileServiceConfig) (c : ServiceConfig) : load ServiceConfig :=
  m ← set_if (fsc_manager f) (manager c) (parse_manager "service.manager");
  u ← set_if (fsc_user f) (service_user c) (non_empty_string "service.user");
  d ← set_if (fsc_runtime_database f) (runtime_database c) (non_empty_path "service.runtime_database");
  e ← set_if (fsc_environment_file f) (environment_file c)
        (λ v, p ← non_empty_path "service.environment_file" v; Ok (Some p));
  Ok {| manager := m; service_user := u; runtime_database := d; environment_file := e |}.

(** ** socks_config and the listeners *)
Record FileSocks5IngressConfig := {
  fsi_bind : option string;
  fsi_udp_advertise_ip : option string;
  fsi_udp_idle_timeout_ms : option Z;
  fsi_max_sessions : option Z;
}.

Definition set_millis (o : option Z) (target : Z) : Z :=
  match o with Some ms => from_millis ms | None => target end.

Definition apply_socks5 (f : FileSocks5IngressConfig) (c : Socks5IngressConfig) : load Socks5IngressConfig :=
  b ← set_if (fsi_bind f) (socks5_bind c) (parse_socket "ingress.socks5.bind");
  a ← set_if (fsi_udp_advertise_ip f) (udp_advertise_ip c)
        (λ v, ip ← parse_ip_setting "ingress.socks5.udp_advertise_ip" v; Ok (Some ip));
  n ← set_if (fsi_max_sessions f) (socks5_max_sessions c) (positive_usize "ingress.socks5.max_sessions");
  Ok {| socks5_bind := b; udp_advertise_ip := a;
        socks5_idle_timeout := set_millis (fsi_udp_idle_timeout_ms f) (socks5_idle_timeout c);
        socks5_max_sessions := n |}.

Record FileDnsRelayConfig := { fdr_bind : option string; fdr_max_sessions : option Z }.

Definition apply_dns_relay (f : FileDnsRelayConfig) (c : DnsRelayConfig) : load DnsRelayConfig :=
  b ← set_if (fdr_bind f) (dns_bind c) (parse_socket "ingress.dns.bind");
  n ← set_if (fdr_max_sessions f) (dns_max_sessions c) (positive_usize "ingress.dns.max_sessions");
  Ok {| dns_bind := b; dns_max_sessions := n |}.

Record FileTcpRelayConfig := {
  ftr_bind : option string;
  ftr_upstream : option string;
  ftr_max_sessions : option Z;
}.

Definition apply_tcp_relay (f : FileTcpRelayConfig) (c : TcpRelayConfig) : load TcpRelayConfig :=
  b ← set_if (ftr_bind f) (tcp_bind c) (parse_socket "ingress.tcp.bind");
  u ← set_if (ftr_upstream f) (tcp_upstream c) (parse_socket "ingress.tcp.upstream");
  n ← set_if (ftr_max_sessions f) (tcp_max_sessions c) (positive_usize "ingress.tcp.max_sessions");
  Ok {| tcp_bind := b; tcp_upstream := u; tcp_max_sessions := n |}.

Record FileUdpRelayConfig := {
  fur_bind : option string;
  fur_upstream : option string;
  fur_idle_timeout_ms : option Z;
  fur_max_sessions : option Z;
}.

Definition apply_udp_relay (f : FileUdpRelayConfig) (c : UdpRelayConfig) : load UdpRelayConfig :=
  b ← set_if (fur_bind f) (udp_bind c) (parse_socket "ingress.udp.bind");
  u ← set_if (fur_upstream f) (udp_upstream c) (parse_socket "ingress.udp.upstream");
  n ← set_if (fur_max_sessions f) (udp_max_sessions c) (positive_usize "ingress.udp.max_sessions");
  Ok {| udp_bind := b; udp_upstream := u;
        udp_idle_timeout := set_millis (fur_idle_timeout_ms f) (udp_idle_timeout c);
        udp_max_sessions := n |}.

Record FileIngressConfig := {
  fi_dns : option FileDnsRelayConfig;
  fi_tcp : option FileTcpRelayConfig;
  fi_udp : option FileUdpRelayConfig;
  fi_socks5 : option FileSocks5IngressConfig;
}.

Definition apply_ingress (f : FileIngressConfig) (c : IngressConfig) : load IngressConfig :=
  d ← set_if (fi_dns f) (ingress_dns c) (λ x, apply_dns_relay x (ingress_dns c));
  t ← set_if (fi_tcp f) (ingress_tcp c) (λ x, apply_tcp_relay x (ingress_tcp c));
  u ← set_if (fi_udp f) (ingress_udp c) (λ x, apply_udp_relay x (ingress_udp c));
  s ← set_if (fi_socks5 f) (ingress_socks5 c) (λ x, apply_socks5 x (ingress_socks5 c));
  Ok {| ingress_dns := d; ingress_tcp := t; ingress_udp := u; ingress_socks5 := s |}.

(** ** Capture, control and the whole file *)
Record FileTunCaptureConfig := {
  ft_enabled : option bool;
  ft_interface : option string;
  ft_tcp_idle_timeout_ms : option Z;
  ft_udp_idle_timeout_ms : option Z;
  ft_udp_response_timeout_ms : option Z;
}.

Definition apply_tun (f : FileTunCaptureConfig) (c : TunCaptureConfig) : load TunCaptureConfig :=
  i ← set_if (ft_interface f) (tun_interface c) (non_empty_string "capture.tun.interface");
  Ok {| tun_enabled := default (tun_enabled c) (ft_enabled f); tun_interface := i;
        tun_tcp_idle_timeout := set_millis (ft_tcp_idle_timeout_ms f) (tun_tcp_idle_timeout c);
        tun_udp_idle_timeout := set_millis (ft_udp_idle_timeout_ms f) (tun_udp_idle_timeout c);
        tun_udp_response_timeout :=
          set_millis (ft_udp_response_timeout_ms f) (tun_udp_response_timeout c) |}.

Record FileCaptureConfig := {
  fca_tun : option FileTunCaptureConfig;
  fca_router_ingress : option FileRouterIngressConfig;
}.

Definition apply_capture (f : FileCaptureConfig) (c : CaptureConfig) : load CaptureConfig :=
  t ← set_if (fca_tun f) (capture_tun c) (λ x, apply_tun x (capture_tun c));
  r ← set_if (fca_router_ingress f) (router_ingress c) (λ x, apply_router_ingress x (router_ingress c));
  Ok {| capture_tun := t; router_ingress := r |}.

Record FileControlConfig := { fco_bind : option string }.

Definition apply_control (f : FileControlConfig) (c : ControlConfig) : load ControlConfig :=
  b ← set_if (fco_bind f) (control_bind c) (parse_socket "control.bind");
  Ok {| control_bind := b |}.

Record FileIpv6Config := { fv6_enabled : option bool }.

Definition apply_ipv6 (f : FileIpv6Config) (c : Ipv6Config) : Ipv6Config :=
  {| v6_enabled := default (v6_enabled c) (fv6_enabled f) |}.

Record FileConfig := {
  f_control : option FileControlConfig;
  f_ingress : option FileIngressConfig;
  f_capture : option FileCaptureConfig;
  f_ipv6 : option FileIpv6Config;
  f_dns_mapping : option FileDnsMappingConfig;
  f_persistence : option FilePersistenceConfig;
  f_forwarding : option FileForwardingConfig;
  f_service : option FileServiceConfig;
}.

Section FromPath.
Variable sha256_hex : string → string.

(** [FileConfig::apply] *)
Definition apply_file (f : FileConfig) (c : Config) : load Config :=
  co ← set_if (f_control f) (control c) (λ x, apply_control x (control c));
  i ← set_if (f_ingress f) (ingress c) (λ x, apply_ingress x (ingress c));
  ca ← set_if (f_capture f) (capture c) (λ x, apply_capture x (capture c));
  let v6 := match f_ipv6 f with Some x => apply_ipv6 x (ipv6 c) | None => ipv6 c end in
  d ← set_if (f_dns_mapping f) (dns_mapping c) (λ x, apply_dns_mapping x (dns_mapping c));
  p ← set_if (f_persistence f) (persistence c) (λ x, apply_persistence x (persistence c));
  fw ← set_if (f_forwarding f) (forwarding c) (load_forwarding sha256_hex);
  s ← set_if (f_service f) (service c) (λ x, apply_service x (service c));
  Ok {| control := co; ingress := i; capture := ca; ipv6 := v6; dns_mapping := d;
        persistence := p; forwarding := fw; service := s |}.

(** ** The environment

    A value that is not Unicode is an error for [env::var] and a path for
    [env::var_os]. *)
Inductive env_value := Unicode (v : string) | NotUnicode (raw : string).
Abbreviation environment := (string → option env_value).

Variable env : environment.

(** [match env::var(name)] with a fallback *)
Definition env_or {A} (name : string) (fallback : A) (parse : string → load A) : load A :=
  match env name with
  | Some (Unicode v) => parse v
  | None => Ok fallback
  | Some (NotUnicode _) => Err (Format ("failed to read " ++ name ++ ": {error}") [])
  end.

Definition env_socket (name : string) (fallback : SocketAddr) : load SocketAddr :=
  env_or name fallback (parse_socket name).

Definition env_optional_ip (name : string) (fallback : option IpAddr) : load (option IpAddr) :=
  env_or name fallback (λ v, ip ← parse_ip_setting name v; Ok (Some ip)).

Definition env_duration_ms (name : string) (fallback : Z) : load Z :=
  env_or name fallback (λ v,
    ms ← ok_or (parse_uint 64 v) (Format (name ++ " must be an integer millisecond value: {error}") []);
    Ok (from_millis ms)).

Definition env_positive_usize (name : string) (fallback : Z) : load Z :=
  env_or name fallback (λ v,
    n ← ok_or (parse_uint 64 v) (Format (name ++ " must be a positive integer: {error}") []);
    positive_usize name n).

Definition env_non_empty_string (name fallback : string) : load string :=
  env_or name fallback (non_empty_string name).

Definition parse_bool (name value : string) : load bool :=
  if eq_ignore_ascii_case value "true" || eq_ignore_ascii_case value "yes"
     || eq_ignore_ascii_case value "on" || String.eqb value "1" then Ok true
  else if eq_ignore_ascii_case value "false" || eq_ignore_ascii_case value "no"
     || eq_ignore_ascii_case value "off" || String.eqb value "0" then Ok false
  else Err (Text (name ++ " must be a boolean")).

Definition env_bool (name : string) (fallback : bool) : load bool :=
  env_or name fallback (parse_bool name).

(** [env::var_os] *)
Definition env_path (name : string) (fallback : PathBuf) : load PathBuf :=
  match env name with
  | Some (Unicode v) | Some (NotUnicode v) => non_empty_path name v
  | None => Ok fallback
  end.

Definition env_optional_path (name : string) (fallback : option PathBuf) : load (option PathBuf) :=
  match env name with
  | Some (Unicode v) | Some (NotUnicode v) => p ← non_empty_path name v; Ok (Some p)
  | None => Ok fallback
  end.

Definition env_positive_u64 (name : string) : load (option Z) :=
  env_or name None (λ v,
    n ← ok_or (parse_uint 64 v) (Format (name ++ " must be a positive integer: {error}") []);
    p ← positive_usize name n;
    Ok (Some p)).

Definition socks5_env (c : Socks5IngressConfig) : load Socks5IngressConfig :=
  b ← env_socket "DYNET_SOCKS5_BIND" (socks5_bind c);
  a ← env_optional_ip "DYNET_SOCKS5_UDP_ADVERTISE_IP" (udp_advertise_ip c);
  t ← env_duration_ms "DYNET_SOCKS5_UDP_IDLE_TIMEOUT_MS" (socks5_idle_timeout c);
  n ← env_positive_usize "DYNET_SOCKS5_MAX_SESSIONS" (socks5_max_sessions c);
  Ok {| socks5_bind := b; udp_advertise_ip := a; socks5_idle_timeout := t; socks5_max_sessions := n |}.

Definition dns_relay_env (c : DnsRelayConfig) : load DnsRelayConfig :=
  b ← env_socket "DYNET_DNS_BIND" (dns_bind c);
  n ← env_positive_usize "DYNET_DNS_MAX_SESSIONS" (dns_max_sessions c);
  Ok {| dns_bind := b; dns_max_sessions := n |}.

Definition tcp_relay_env (c : TcpRelayConfig) : load TcpRelayConfig :=
  b ← env_socket "DYNET_TCP_BIND" (tcp_bind c);
  u ← env_socket "DYNET_TCP_UPSTREAM" (tcp_upstream c);
  n ← env_positive_usize "DYNET_TCP_MAX_SESSIONS" (tcp_max_sessions c);
  Ok {| tcp_bind := b; tcp_upstream := u; tcp_max_sessions := n |}.

Definition udp_relay_env (c : UdpRelayConfig) : load UdpRelayConfig :=
  b ← env_socket "DYNET_UDP_BIND" (udp_bind c);
  u ← env_socket "DYNET_UDP_UPSTREAM" (udp_upstream c);
  t ← env_duration_ms "DYNET_UDP_IDLE_TIMEOUT_MS" (udp_idle_timeout c);
  n ← env_positive_usize "DYNET_UDP_MAX_SESSIONS" (udp_max_sessions c);
  Ok {| udp_bind := b; udp_upstream := u; udp_idle_timeout := t; udp_max_sessions := n |}.

Definition tun_env (c : TunCaptureConfig) : load TunCaptureConfig :=
  e ← env_bool "DYNET_CAPTURE_TUN_ENABLED" (tun_enabled c);
  i ← env_non_empty_string "DYNET_CAPTURE_TUN_INTERFACE" (tun_interface c);
  t ← env_duration_ms "DYNET_CAPTURE_TUN_TCP_IDLE_TIMEOUT_MS" (tun_tcp_idle_timeout c);
  u ← env_duration_ms "DYNET_CAPTURE_TUN_UDP_IDLE_TIMEOUT_MS" (tun_udp_idle_timeout c);
  r ← env_duration_ms "DYNET_CAPTURE_TUN_UDP_RESPONSE_TIMEOUT_MS" (tun_udp_response_timeout c);
  Ok {| tun_enabled := e; tun_interface := i; tun_tcp_idle_timeout := t;
        tun_udp_idle_timeout := u; tun_udp_response_timeout := r |}.

Definition dns_mapping_env (c : DnsMappingConfig) : load DnsMappingConfig :=
  i ← env_or "DYNET_DNS_MAPPING_INTERFACE" (map_interface c) (load_interface "DYNET_DNS_MAPPING_INTERFACE");
  p ← env_or "DYNET_DNS_MAPPING_SOURCE_PORT" (source_port c) (parse_port "DYNET_DNS_MAPPING_SOURCE_PORT");
  Ok {| map_interface := i; source_port := p |}.

Definition persistence_env (p : PersistencePolicy) : load PersistencePolicy :=
  hours ← env_positive_u64 "DYNET_PERSISTENCE_RETENTION_HOURS";
  r ← set_if hours (retention p) (duration_from_hours "DYNET_PERSISTENCE_RETENTION_HOURS");
  bytes ← env_positive_u64 "DYNET_PERSISTENCE_MAX_BYTES";
  let p' := {| retention := r; max_bytes := default (max_bytes p) bytes |} in
  _ ← validate_policy p';
  Ok p'.

Definition service_env (c : ServiceConfig) : load ServiceConfig :=
  m ← env_or "DYNET_SERVICE_MANAGER" (manager c) (parse_manager "DYNET_SERVICE_MANAGER");
  u ← env_non_empty_string "DYNET_SERVICE_USER" (service_user c);
  d ← env_path "DYNET_RUNTIME_DB" (runtime_database c);
  e ← env_optional_path "DYNET_SERVICE_ENVIRONMENT_FILE" (environment_file c);
  Ok {| manager := m; service_user := u; runtime_database := d; environment_file := e |}.

(** [apply_env], in the order of the code *)
Definition apply_env (c : Config) : load Config :=
  co ← env_socket "DYNET_CONTROL_BIND" (control_bind (control c));
  dns ← dns_relay_env (ingress_dns (ingress c));
  tcp ← tcp_relay_env (ingress_tcp (ingress c));
  udp ← udp_relay_env (ingress_udp (ingress c));
  socks ← socks5_env (ingress_socks5 (ingress c));
  tun ← tun_env (capture_tun (capture c));
  v6 ← env_bool "DYNET_IPV6_ENABLED" (v6_enabled (ipv6 c));
  d ← dns_mapping_env (dns_mapping c);
  p ← persistence_env (persistence c);
  s ← service_env (service c);
  Ok {| control := {| control_bind := co |};
        ingress := {| ingress_dns := dns; ingress_tcp := tcp; ingress_udp := udp; ingress_socks5 := socks |};
        capture := {| capture_tun := tun; router_ingress := router_ingress (capture c) |};
        ipv6 := {| v6_enabled := v6 |}; dns_mapping := d; persistence := p;
        forwarding := forwarding c; service := s |}.

Definition set_seed_ipv6 (s : RuntimeSeed) (b : bool) : RuntimeSeed :=
  {| seed_ipv6_enabled := b; seed_nodes := seed_nodes s;
     seed_default_group_id := seed_default_group_id s; seed_groups := seed_groups s;
     seed_group_members := seed_group_members s; seed_route_rules := seed_route_rules s;
     seed_dns_upstreams := seed_dns_upstreams s; seed_dns_policy := seed_dns_policy s |}.

Definition sync_runtime_policy (c : Config) : Config :=
  {| control := control c; ingress := ingress c; capture := capture c; ipv6 := ipv6 c;
     dns_mapping := dns_mapping c; persistence := persistence c;
     forwarding := {| fwd_seed := set_seed_ipv6 (fwd_seed (forwarding c)) (v6_enabled (ipv6 c));
                      execution_nodes := execution_nodes (forwarding c) |};
     service := service c |}.

(** [Config::from_config_path] after the file was read and deserialised *)
Definition from_config_file (file : option FileConfig) : load Config :=
  c ← set_if file default_config (λ f, apply_file f default_config);
  c' ← apply_env c;
  Ok (sync_runtime_policy c').
End FromPath.

(** ** What loading establishes *)
Definition interface_name (s : string) : Prop :=
  s ≠ "" ∧ String.length s ≤ 15 ∧ all_chars interface_char s = true.

Definition source_family (a : IpAddr) : SourceFamily := match a with V4 _ => SourceV4 | V6 _ => SourceV6 end.

(** The text of a network address of the family: no host bits. *)
Definition canonical_source (family : SourceFamily) (s : string) : Prop :=
  ∃ a p, s = ip_to_string a ++ "/" ++ to_string p ∧ source_family a = family ∧ wf_ip a ∧
    (0 ≤ p ≤ addr_width a)%Z ∧ (addr_bits a mod 2 ^ (addr_width a - p) = 0)%Z.

Definition sources_valid (family : SourceFamily) (l : list string) : Prop :=
  length l ≤ MAX_SOURCE_SELECTORS ∧ NoDup l ∧ Forall (canonical_source family) l.

Definition ingress_valid (c : IngressConfig) : Prop :=
  dns_max_sessions (ingress_dns c) ≠ 0%Z ∧ tcp_max_sessions (ingress_tcp c) ≠ 0%Z ∧
  udp_max_sessions (ingress_udp c) ≠ 0%Z ∧ socks5_max_sessions (ingress_socks5 c) ≠ 0%Z.

Definition capture_valid (c : CaptureConfig) : Prop :=
  tun_interface (capture_tun c) ≠ "" ∧
  (∀ i, router_interface (router_ingress c) = Some i → interface_name i) ∧
  sources_valid SourceV4 (ipv4_sources (router_ingress c)) ∧
  sources_valid SourceV6 (ipv6_sources (router_ingress c)).

Definition dns_mapping_valid (c : DnsMappingConfig) : Prop :=
  (∀ i, map_interface c = Some i → interface_name i) ∧ source_port c ≠ 0%Z.

Definition service_valid (c : ServiceConfig) : Prop :=
  service_user c ≠ "" ∧ runtime_database c ≠ [] ∧ environment_file c ≠ Some [].

Record config_valid (c : Config) : Prop := {
  cv_ingress : ingress_valid (ingress c);
  cv_capture : capture_valid (capture c);
  cv_dns_mapping : dns_mapping_valid (dns_mapping c);
  cv_persistence : validate_policy (persistence c) = Ok tt;
  cv_forwarding : forwarding_valid (forwarding c);
  cv_service : service_valid (service c);
  cv_ipv6 : seed_ipv6_enabled (fwd_seed (forwarding c)) = v6_enabled (ipv6 c);
}.

Lemma set_if_Ok {A B} (P : B → Prop) (o : option A) target f r :
  set_if o target f = Ok r → P target → (∀ a b, f a = Ok b → P b) → P r.
Proof. destruct o as [a|]; cbn; [intros H _ Hf; by apply (Hf a)|by intros [= <-]]. Qed.

Lemma env_or_Ok {A} (P : A → Prop) env name (fb : A) parse r :
  env_or env name fb parse = Ok r → P fb → (∀ v b, parse v = Ok b → P b) → P r.
Proof.
  unfold env_or. destruct (env name) as [[v|v]|]; [|done|by intros [= <-]].
  intros H _ Hf. by apply (Hf v).
Qed.

Lemma non_empty_string_Ok name v r : non_empty_string name v = Ok r → r = v ∧ r ≠ "".
Proof.
  unfold non_empty_string, is_empty. destruct (String.eqb_spec v ""); [done|]. by intros [= <-].
Qed.

Lemma positive_usize_Ok name v r : positive_usize name v = Ok r → r = v ∧ r ≠ 0%Z.
Proof. unfold positive_usize. destruct (Z.eqb_spec v 0); [done|]. by intros [= <-]. Qed.

Lemma env_positive_usize_Ok env name fb r :
  env_positive_usize env name fb = Ok r → fb ≠ 0%Z → r ≠ 0%Z.
Proof.
  intros H Hfb. eapply (env_or_Ok (λ n, n ≠ 0%Z)); [exact H|done|].
  intros v b Hb. bind_inv Hb. by apply positive_usize_Ok in Hb as [_ ?].
Qed.

Lemma load_interface_Ok name v r : load_interface name v = Ok r → ∀ i, r = Some i → interface_name i.
Proof.
  unfold load_interface. intros H i ->. bind_inv H. injection H as [= ->].
  apply non_empty_string_Ok in E as [-> Hv]. unfold validate_interface in E0.
  destruct (_ || _) eqn:Hb in E0; [done|]. injection E0 as [= <-]. bool_hyps. by split_and!; [|lia|].
Qed.

(** The list of components of a path is empty exactly for the empty path. *)
Lemma path_from_nonempty s : s ≠ "" → path_from s ≠ [].
Proof.
  destruct s as [|c s]; [done|]. intros _. unfold path_from, starts_with. cbn [split String.prefix].
  destruct (Ascii.eqb_spec "/" c) as [<-|Hc].
  { destruct (ascii_dec "/" "/"); [|done]. by destruct s. }
  destruct (ascii_dec "/" c) as [|_]; [done|].
  assert (∀ p, String c p ≠ "") as Hne by done.
  assert (∀ p ps, ((if String.eqb (String c p) "." then [CurDir] else [])
                   ++ omap path_segment (String c p :: ps))%list ≠ []) as Hcase.
  { intros p ps. destruct (String.eqb_spec (String c p) ".") as [E|E]; [done|]. cbn [app].
    cbn [omap list_omap]. unfold path_segment at 1. rewrite (proj2 (String.eqb_neq _ _) (Hne p)).
    rewrite (proj2 (String.eqb_neq _ _) E). cbn [orb]. by destruct (String.eqb (String c p) ".."). }
  destruct (split "/" s) as [|p ps]; apply Hcase.
Qed.

Lemma non_empty_path_Ok name v r : non_empty_path name v = Ok r → r ≠ [].
Proof.
  unfold non_empty_path, is_empty. destruct (String.eqb_spec v ""); [done|].
  intros [= <-]. by apply path_from_nonempty.
Qed.

(** An address that its mask leaves unchanged has no host bits. *)
Lemma land_mask_aligned w p a :
  (0 ≤ p ≤ w)%Z → Z.land a (cidr_mask w p) = a → (a mod 2 ^ (w - p) = 0)%Z.
Proof.
  intros Hp Ha. apply Z.bits_inj'. intros n Hn. rewrite Z.bits_0.
  destruct (Z.lt_ge_cases n (w - p)); [|apply Z.mod_pow2_bits_high; lia].
  rewrite Z.mod_pow2_bits_low by lia. rewrite <- Ha, Z.land_spec, testbit_cidr_mask by lia.
  rewrite bool_decide_eq_false_2 by lia. apply andb_false_r.
Qed.

Lemma require_canonical_Ok w show name s a p :
  require_canonical w show name s a p = Ok tt → Z.land a (cidr_mask w p) = a.
Proof. unfold require_canonical. by destruct (Z.eqb_spec (Z.land a (cidr_mask w p)) a). Qed.

Lemma validate_source_canonical name s family r :
  validate_source name s family = Ok r → canonical_source family r.
Proof.
  unfold validate_source. intros H. apply outcome_bind_Ok_inv in H as ([base pre] & _ & H).
  apply outcome_bind_Ok_inv in H as (a & Ha%ok_or_Ok%parse_ip_wf & H).
  apply outcome_bind_Ok_inv in H as (p & Hp%ok_or_Ok & H).
  apply parse_uint_range in Hp as [Hp _]; [|done].
  destruct family, a as [n|n]; try done.
  all: destruct (Z.leb_spec p 32), (Z.leb_spec p 128); try lia; try done.
  all: apply seq_ok in H as [Hc%require_canonical_Ok [= <-]];
    first [exists (V4 n), p; split_and!; [reflexivity|reflexivity|..]
          |exists (V6 n), p; split_and!; [reflexivity|reflexivity|..]];
    cbn; [done|lia|lia|by apply land_mask_aligned].
Qed.

Lemma validate_sources_valid name l family r :
  validate_sources name l family = Ok r → sources_valid family r.
Proof.
  unfold validate_sources. destruct (Nat.ltb_spec MAX_SOURCE_SELECTORS (length l)) as [|Hl]; [done|].
  intros H. bind_inv H. injection H as [= <-].
  apply (for_each_ind _ (λ d acc, length acc.2 = length d ∧ NoDup acc.2 ∧
    acc.1 = list_to_set acc.2 ∧ Forall (canonical_source family) acc.2)) in E as (Hlen & Hnd & _ & Hc).
  - split_and!; [by rewrite Hlen|done|done].
  - split_and!; cbn; [done|constructor|done|constructor].
  - intros d s [seen acc] s2 (Hlen & Hnd & Hseen & Hc) Hp. cbn in *. unfold push_source in Hp. bind_inv Hp.
    case_bool_decide as Hin; [done|]. injection Hp as [= <-]. cbn in *.
    rewrite Hseen, elem_of_list_to_set in Hin. split_and!.
    + rewrite !length_app. cbn. by rewrite Hlen.
    + apply NoDup_app. split_and!; [done| |apply NoDup_singleton].
      by intros y Hy ->%list_elem_of_singleton.
    + rewrite list_to_set_app_L, Hseen. cbn. set_solver.
    + apply Forall_app. split; [done|]. apply Forall_singleton. by eapply validate_source_canonical.
Qed.

(** ** Each section keeps its part of the invariant *)
Create HintDb settings discriminated.

(** A field that the step may replace keeps a property that the parser ensures. *)
Ltac keep P H := eapply (set_if_Ok P); [exact H|done|cbn beta; eauto with settings].
Ltac keep_env P H := eapply (env_or_Ok P); [exact H|done|cbn beta; eauto with settings].

Lemma usize_nonzero name v r : positive_usize name v = Ok r → r ≠ 0%Z.
Proof. by intros [_ ?]%positive_usize_Ok. Qed.

Lemma string_nonempty name v r : non_empty_string name v = Ok r → r ≠ "".
Proof. by intros [_ ?]%non_empty_string_Ok. Qed.

#[local] Hint Resolve usize_nonzero string_nonempty non_empty_path_Ok load_interface_Ok
  validate_sources_valid : settings.

Lemma apply_ingress_valid f c r : apply_ingress f c = Ok r → ingress_valid c → ingress_valid r.
Proof.
  unfold apply_ingress. intros H (Hd & Ht & Hu & Hs).
  apply outcome_bind_Ok_inv in H as (d & Ed & H). apply outcome_bind_Ok_inv in H as (t & Et & H).
  apply outcome_bind_Ok_inv in H as (u & Eu & H). apply outcome_bind_Ok_inv in H as (s & Es & [= <-]).
  split_and!; cbn.
  - eapply (set_if_Ok (λ d, dns_max_sessions d ≠ 0%Z)); [exact Ed|done|].
    unfold apply_dns_relay. intros ? ? Hb. bind_inv Hb. injection Hb as [= <-]. cbn.
    eapply (set_if_Ok (λ n, n ≠ 0%Z)); cbn beta; eauto with settings.
  - eapply (set_if_Ok (λ d, tcp_max_sessions d ≠ 0%Z)); [exact Et|done|].
    unfold apply_tcp_relay. intros ? ? Hb. bind_inv Hb. injection Hb as [= <-]. cbn.
    eapply (set_if_Ok (λ n, n ≠ 0%Z)); cbn beta; eauto with settings.
  - eapply (set_if_Ok (λ d, udp_max_sessions d ≠ 0%Z)); [exact Eu|done|].
    unfold apply_udp_relay. intros ? ? Hb. bind_inv Hb. injection Hb as [= <-]. cbn.
    eapply (set_if_Ok (λ n, n ≠ 0%Z)); cbn beta; eauto with settings.
  - eapply (set_if_Ok (λ d, socks5_max_sessions d ≠ 0%Z)); [exact Es|done|].
    unfold apply_socks5. intros ? ? Hb. bind_inv Hb. injection Hb as [= <-]. cbn.
    eapply (set_if_Ok (λ n, n ≠ 0%Z)); cbn beta; eauto with settings.
Qed.

Lemma apply_router_ingress_valid f c r :
  apply_router_ingress f c = Ok r →
  (∀ i, router_interface c = Some i → interface_name i) →
  sources_valid SourceV4 (ipv4_sources c) → sources_valid SourceV6 (ipv6_sources c) →
  (∀ i, router_interface r = Some i → interface_name i) ∧
  sources_valid SourceV4 (ipv4_sources r) ∧ sources_valid SourceV6 (ipv6_sources r).
Proof.
  unfold apply_router_ingress. intros H Hi H4 H6. bind_inv H. injection H as [= <-]. cbn. split_and!.
  - keep (λ o, ∀ i, o = Some i → interface_name i) E.
  - keep (sources_valid SourceV4) E0.
  - keep (sources_valid SourceV6) E1.
Qed.

Lemma apply_capture_valid f c r : apply_capture f c = Ok r → capture_valid c → capture_valid r.
Proof.
  unfold apply_capture. intros H (Ht & Hi & H4 & H6).
  apply outcome_bind_Ok_inv in H as (t & Et & H). apply outcome_bind_Ok_inv in H as (ri & Er & [= <-]).
  split; cbn.
  - eapply (set_if_Ok (λ t, tun_interface t ≠ "")); [exact Et|done|].
    unfold apply_tun. intros ? ? Hb. bind_inv Hb. injection Hb as [= <-]. cbn.
    eapply (set_if_Ok (λ s, s ≠ "")); cbn beta; eauto with settings.
  - eapply (set_if_Ok (λ c, (∀ i, router_interface c = Some i → interface_name i) ∧
      sources_valid SourceV4 (ipv4_sources c) ∧ sources_valid SourceV6 (ipv6_sources c))); [exact Er|done|].
    cbn beta. intros ? ? Hb. by eapply apply_router_ingress_valid.
Qed.

Lemma apply_dns_mapping_valid f c r :
  apply_dns_mapping f c = Ok r → dns_mapping_valid c → dns_mapping_valid r.
Proof.
  unfold apply_dns_mapping. intros H [Hi Hp]. bind_inv H. injection H as [= <-]. split; cbn.
  - keep (λ o, ∀ i, o = Some i → interface_name i) E.
  - eapply (set_if_Ok (λ n, n ≠ 0%Z)); [exact E0|done|]. cbn beta. intros a b.
    destruct (Z.eqb_spec a 0); [done|]. by intros [= <-].
Qed.

Lemma apply_persistence_valid f p r : apply_persistence f p = Ok r → validate_policy r = Ok tt.
Proof.
  unfold apply_persistence. intros H. bind_inv H. injection H as [= <-]. by destruct x1.
Qed.

Lemma apply_service_valid f c r : apply_service f c = Ok r → service_valid c → service_valid r.
Proof.
  unfold apply_service. intros H (Hu & Hd & He). bind_inv H. injection H as [= <-]. split_and!; cbn.
  - keep (λ s, s ≠ "") E0.
  - keep (λ s : PathBuf, s ≠ []) E1.
  - eapply (set_if_Ok (λ s : option PathBuf, s ≠ Some [])); [exact E2|done|]. cbn beta. intros a b Hb. bind_inv Hb.
    injection Hb as [= <-]. intros [= ->]. by eapply non_empty_path_Ok.
Qed.

(** ** The environment keeps it too *)
#[local] Hint Resolve env_positive_usize_Ok : settings.

Lemma env_non_empty_Ok env name fb r : env_non_empty_string env name fb = Ok r → fb ≠ "" → r ≠ "".
Proof. intros H Hfb. keep_env (λ s, s ≠ "") H. Qed.

Lemma ingress_env_valid env c dns tcp udp socks :
  dns_relay_env env (ingress_dns c) = Ok dns → tcp_relay_env env (ingress_tcp c) = Ok tcp →
  udp_relay_env env (ingress_udp c) = Ok udp → socks5_env env (ingress_socks5 c) = Ok socks →
  ingress_valid c →
  ingress_valid {| ingress_dns := dns; ingress_tcp := tcp; ingress_udp := udp; ingress_socks5 := socks |}.
Proof.
  intros Hd Ht Hu Hs (? & ? & ? & ?).
  unfold dns_relay_env, tcp_relay_env, udp_relay_env, socks5_env in *.
  bind_inv Hd; injection Hd as [= <-]. bind_inv Ht; injection Ht as [= <-].
  bind_inv Hu; injection Hu as [= <-]. bind_inv Hs; injection Hs as [= <-].
  split_and!; cbn; by eapply env_positive_usize_Ok.
Qed.

Lemma tun_env_valid env c r : tun_env env c = Ok r → tun_interface c ≠ "" → tun_interface r ≠ "".
Proof.
  unfold tun_env. intros H Hi. bind_inv H. injection H as [= <-]. cbn. by eapply env_non_empty_Ok.
Qed.

Lemma dns_mapping_env_valid env c r :
  dns_mapping_env env c = Ok r → dns_mapping_valid c → dns_mapping_valid r.
Proof.
  unfold dns_mapping_env. intros H [Hi Hp]. bind_inv H. injection H as [= <-]. split; cbn.
  - keep_env (λ o, ∀ i, o = Some i → interface_name i) E.
  - eapply (env_or_Ok (λ n, n ≠ 0%Z)); [exact E0|done|]. intros v b Hb. unfold parse_port in Hb.
    bind_inv Hb. destruct (Z.eqb_spec x1 0); [done|]. by injection Hb as [= <-].
Qed.

Lemma persistence_env_valid env p r : persistence_env env p = Ok r → validate_policy r = Ok tt.
Proof.
  unfold persistence_env. intros H. bind_inv H. injection H as [= <-]. by destruct x2.
Qed.

Lemma service_env_valid env c r : service_env env c = Ok r → service_valid c → service_valid r.
Proof.
  unfold service_env, env_path, env_optional_path. intros H (Hu & Hd & He). bind_inv H.
  injection H as [= <-]. split_and!; cbn.
  - by eapply env_non_empty_Ok.
  - destruct (env "DYNET_RUNTIME_DB") as [[v|v]|]; [by eapply non_empty_path_Ok..|by injection E1 as [= <-]].
  - destruct (env "DYNET_SERVICE_ENVIRONMENT_FILE") as [[v|v]|]; [..|by injection E2 as [= <-]].
    all: bind_inv E2; injection E2 as [= <-]; intros [= ->]; by eapply non_empty_path_Ok.
Qed.

Lemma sources_valid_nil f : sources_valid f [].
Proof. split_and!; [cbn; lia|constructor|constructor]. Qed.

Lemma default_forwarding_valid : forwarding_valid default_forwarding.
Proof.
  split; cbn.
  - done.
  - apply NoDup_singleton.
  - intros id. rewrite list_elem_of_singleton, lookup_insert_is_Some. split.
    + intros [<-|[_ H]]; [done|]. rewrite lookup_empty in H. by destruct H.
    + intros ->. by left.
  - apply NoDup_singleton.
  - by intros ?%list_elem_of_singleton.
  - eexists _, _. split_and!; [apply list_elem_of_here|done|done|apply list_elem_of_here|done| |].
    + intros m' ->%list_elem_of_singleton _. cbn. lia.
    + by eexists.
  - by repeat constructor.
Qed.

Lemma default_config_valid : config_valid default_config.
Proof.
  split; cbn; try done.
  - split_and!; cbn; [done|done|apply sources_valid_nil|apply sources_valid_nil].
  - apply default_forwarding_valid.
Qed.

Section loaded.
Variable sha256_hex : string → string.

(** The invariant without the agreement of the two [ipv6] switches. *)
Definition sections_valid (c : Config) : Prop :=
  ingress_valid (ingress c) ∧ capture_valid (capture c) ∧ dns_mapping_valid (dns_mapping c) ∧
  validate_policy (persistence c) = Ok tt ∧ forwarding_valid (forwarding c) ∧ service_valid (service c).

Lemma apply_file_valid f c r : apply_file sha256_hex f c = Ok r → sections_valid c → sections_valid r.
Proof.
  unfold apply_file. intros H (Hi & Hc & Hd & Hp & Hf & Hs). bind_inv H. injection H as [= <-].
  split_and!; cbn.
  - eapply (set_if_Ok ingress_valid); [exact E0|done|]. cbn beta. intros ? ? Hb. by eapply apply_ingress_valid.
  - eapply (set_if_Ok capture_valid); [exact E1|done|]. cbn beta. intros ? ? Hb. by eapply apply_capture_valid.
  - eapply (set_if_Ok dns_mapping_valid); [exact E2|done|]. cbn beta. intros ? ? Hb. by eapply apply_dns_mapping_valid.
  - eapply (set_if_Ok (λ p, validate_policy p = Ok tt)); [exact E3|done|].
    cbn beta. intros ? ? Hb. by eapply apply_persistence_valid.
  - eapply (set_if_Ok forwarding_valid); [exact E4|done|]. apply load_forwarding_valid.
  - eapply (set_if_Ok service_valid); [exact E5|done|]. cbn beta. intros ? ? Hb. by eapply apply_service_valid.
Qed.

Lemma apply_env_valid env c r : apply_env env c = Ok r → sections_valid c → sections_valid r.
Proof.
  unfold apply_env. intros H (Hi & (Ht & Hri) & Hd & Hp & Hf & Hs). bind_inv H. injection H as [= <-].
  split_and!; cbn.
  - by eapply ingress_env_valid.
  - split; [by eapply tun_env_valid|done].
  - by eapply dns_mapping_env_valid.
  - by eapply persistence_env_valid.
  - done.
  - by eapply service_env_valid.
Qed.

(** C16: a configuration that loads is valid whatever the file and the environment say:
    every session limit is positive, interface names are legal, the source selectors
    are at most 64 distinct canonical CIDRs of their family, the persistence policy
    passes its own check, the forwarding section satisfies its invariant, no required
    name or path is empty, and the runtime seed carries the [ipv6] switch of the
    configuration. *)
Theorem loaded_config_valid env file c : from_config_file sha256_hex env file = Ok c → config_valid c.
Proof.
  unfold from_config_file. intros H. apply outcome_bind_Ok_inv in H as (c0 & H0 & H).
  apply outcome_bind_Ok_inv in H as (c1 & H1 & [= <-]).
  assert (sections_valid default_config) as Hdef by (pose proof default_config_valid as []; by split_and!).
  assert (sections_valid c0) as Hc0.
  { eapply (set_if_Ok sections_valid); [exact H0|done|]. cbn beta. intros f b Hb. by eapply apply_file_valid. }
  apply apply_env_valid in H1 as (? & ? & ? & ? & [? ? ? ? ? ? ?] & ?); [|done].
  split; cbn; [done|done|done|done|by split|done|done].
Qed.
End loaded.

(** ** A concrete load *)
Definition demo_environment (name : string) : option env_value :=
  if String.eqb name "DYNET_TCP_MAX_SESSIONS" then Some (Unicode "+32")
  else if String.eqb name "DYNET_RUNTIME_DB" then Some (NotUnicode (String "255" "db")) else None.

Definition demo_file : FileConfig :=
  {| f_control := Some {| fco_bind := Some "[::1]:9000" |}; f_ingress := None;
     f_capture := Some
       {| fca_tun := None;
          fca_router_ingress := Some
            {| fri_interface := Some "br-lan"; fri_ipv4_sources := Some ["10.0.0.0/8"; "192.168.4.0/22"];
               fri_ipv6_sources := Some ["fd00::/8"] |} |};
     f_ipv6 := Some {| fv6_enabled := Some true |}; f_dns_mapping := None; f_persistence := None;
     f_forwarding := Some demo_forwarding_file; f_service := None |}.

Definition demo_config : Config :=
  unwrap_or default_config (from_config_file demo_digest demo_environment (Some demo_file)).

Example demo_config_values :
  (tcp_max_sessions (ingress_tcp (ingress demo_config)), sa_port (control_bind (control demo_config)),
   ipv4_sources (router_ingress (capture demo_config)),
   seed_ipv6_enabled (fwd_seed (forwarding demo_config)))
  = (32%Z, 9000%Z, ["10.0.0.0/8"; "192.168.4.0/22"], true).
Proof. vm_compute. reflexivity. Qed.

Example defaults_load : from_config_file demo_digest (λ _, None) None = Ok default_config.
Proof. reflexivity. Qed.

Lemma loaded_config_valid_witness : config_valid demo_config.
Proof.
  apply (loaded_config_valid demo_digest demo_environment (Some demo_file)).
  apply is_ok_unwrap. vm_compute. reflexivity.
Defined.
