(* ===== verification/TakeoverScope.v ===== *)
(** * TakeoverScope: the traffic a router takes over

    [crates/dynet-capture/src/linux/scope.rs]: the interface and source networks whose traffic
    the nft chains of a router select, and which of them are accepted. *)
From Stdlib Require Import ZArith Lia Strings.Byte Ascii String.
From stdpp Require Import base list numbers option strings gmap sets.
From S2P Require Import Prelude Collections Net RustStd Model Stores ConfigData Forwarding Settings.
Local Open Scope string_scope.
Local Open Scope nat_scope.

Record TrafficScope := { interface : string; ipv4_sources : list string; ipv6_sources : list string }.

Module Scope.
Definition validate_interface (interface : string) : load unit :=
  if is_empty interface || (15 <? String.length interface) || negb (all_chars interface_char interface)
  then Err (Text "traffic scope interface must be a 1-15 character Linux interface name using letters, digits, _, ., :, or -")
  else Ok tt.

(** [require_canonical_v4] and [require_canonical_v6] *)
Definition require_canonical (w : Z) (show : Z → string) (label source : string) (address prefix : Z) : load unit :=
  let canonical := Z.land address (cidr_mask w prefix) in
  if (canonical =? address)%Z then Ok tt
  else Err (Format ("traffic scope " ++ label ++ " source {source:?} has host bits set; use {canonical}/{prefix}")
              [source; show canonical; to_string prefix]).

Definition validate_source (label source : string) (family : SourceFamily) : load unit :=
  let bad text := Err (Format ("traffic scope " ++ label ++ " source {source:?} " ++ text) [source]) in
  '(address, prefix) ← ok_or (split_once "/" source) (Format ("traffic scope " ++ label ++ " source {source:?} must be a CIDR") [source]);
  address ← ok_or (parse_ip address) (Format ("traffic scope " ++ label ++ " source {source:?} has an invalid address: {error}") [source]);
  prefix ← ok_or (parse_uint 8 prefix) (Format ("traffic scope " ++ label ++ " source {source:?} has an invalid prefix: {error}") [source]);
  match family, address with
  | SourceV4, V4 a => if (prefix <=? 32)%Z then require_canonical 32 ipv4_to_string label source a prefix else bad "has an out-of-range prefix"
  | SourceV6, V6 a => if (prefix <=? 128)%Z then require_canonical 128 ipv6_to_string label source a prefix else bad "has an out-of-range prefix"
  | SourceV4, V6 _ => bad "must be IPv4"
  | SourceV6, V4 _ => bad "must be IPv6"
  end.

(** One round of the loop of [validate_sources]. *)
Definition insert_source (label : string) (family : SourceFamily) (unique : gset string) (source : string) : load (gset string) :=
  _ ← validate_source label source family;
  if bool_decide (source ∈ unique) then Err (Text ("traffic scope contains duplicate " ++ label ++ " source CIDR " ++ source))
  else Ok ({[source]} ∪ unique).

Definition validate_sources (label : string) (sources : list string) (family : SourceFamily) : load unit :=
  if MAX_SOURCE_SELECTORS <? length sources then Err (Text ("traffic scope accepts at most 64 " ++ label ++ " source CIDRs"))
  else _ ← for_each (insert_source label family) ∅ sources; Ok tt.

Definition validate (scope : TrafficScope) (ipv6_enabled : bool) : load unit :=
  _ ← validate_interface (interface scope);
  _ ← validate_sources "IPv4" (ipv4_sources scope) SourceV4;
  _ ← validate_sources "IPv6" (ipv6_sources scope) SourceV6;
  if bool_decide (ipv4_sources scope = []) then Err (Text "traffic scope requires at least one IPv4 source CIDR")
  else if ipv6_enabled && bool_decide (ipv6_sources scope = []) then Err (Text "IPv6-enabled traffic scope requires at least one IPv6 source CIDR")
  else Ok tt.

(** ** What is accepted *)
Definition family_width (family : SourceFamily) : Z := match family with SourceV4 => 32 | SourceV6 => 128 end.

(** A network as CIDR notation has it: no bit of the address behind the prefix is set. *)
Definition network (family : SourceFamily) (source : string) : Prop :=
  ∃ base p a n, split_once "/" source = Some (base, p) ∧
    parse_ip base = Some (match family with SourceV4 => V4 a | SourceV6 => V6 a end) ∧ parse_uint 8 p = Some n ∧
    (n ≤ family_width family)%Z ∧ (a mod 2 ^ (family_width family - n) = 0)%Z.

Definition well_formed (scope : TrafficScope) (ipv6_enabled : bool) : Prop :=
  (0 < String.length (interface scope) ≤ 15 ∧ all_chars interface_char (interface scope) = true) ∧
  (0 < length (ipv4_sources scope) ≤ MAX_SOURCE_SELECTORS ∧ NoDup (ipv4_sources scope) ∧ Forall (network SourceV4) (ipv4_sources scope)) ∧
  (length (ipv6_sources scope) ≤ MAX_SOURCE_SELECTORS ∧ NoDup (ipv6_sources scope) ∧ Forall (network SourceV6) (ipv6_sources scope) ∧
   (ipv6_enabled = true → ipv6_sources scope ≠ [])).

(** ** Lemmas *)
Lemma land_mask_iff w p a : (0 ≤ p ≤ w)%Z → in_u w a → Z.land a (cidr_mask w p) = a ↔ (a mod 2 ^ (w - p) = 0)%Z.
Proof.
  intros Hp Ha. split; [by apply land_mask_aligned|]. intros Hm. apply Z.bits_inj'. intros k Hk. rewrite Z.land_spec, testbit_cidr_mask by lia.
  destruct (Z.lt_ge_cases k (w - p)) as [Hlow|Hlow].
  - rewrite <- (Z.mod_pow2_bits_low a (w - p) k), Hm, Z.bits_0 by lia. done.
  - destruct (Z.lt_ge_cases k w) as [Hw|Hw].
    + rewrite bool_decide_eq_true_2 by lia. apply andb_true_r.
    + rewrite (in_u_testbit w a k) by (done || lia). done.
Qed.

Lemma require_canonical_iff w show label s a p : (0 ≤ p ≤ w)%Z → in_u w a →
  require_canonical w show label s a p = Ok tt ↔ (a mod 2 ^ (w - p) = 0)%Z.
Proof.
  intros Hp Ha. rewrite <- land_mask_iff by done. unfold require_canonical. by destruct (Z.eqb_spec (Z.land a (cidr_mask w p)) a).
Qed.

Lemma validate_source_iff label s family : validate_source label s family = Ok tt ↔ network family s.
Proof.
  unfold validate_source, network. destruct (split_once "/" s) as [[base p]|] eqn:Es; cbn; [|split; [done|naive_solver]].
  destruct (parse_ip base) as [a|] eqn:Ea; cbn; [|split; [done|naive_solver]]. pose proof (parse_ip_wf _ _ Ea) as Hwf.
  destruct (parse_uint 8 p) as [n|] eqn:En; cbn; [|split; [done|naive_solver]]. apply parse_uint_range in En as Hn; [|done].
  destruct Hn as [Hn _]. destruct family, a as [a|a]; try (split; [done|naive_solver]).
  all: cbn [family_width].
  - destruct (Z.leb_spec n 32); [|split; [done|intros (? & ? & ? & ? & ? & ? & ? & ? & ?); simplify_eq; lia]].
    rewrite require_canonical_iff by (done || lia). split; [intros Hm; exists base, p, a, n; by split_and!|]. intros (? & ? & ? & ? & ? & ? & ? & ? & ?). by simplify_eq.
  - destruct (Z.leb_spec n 128); [|split; [done|intros (? & ? & ? & ? & ? & ? & ? & ? & ?); simplify_eq; lia]].
    rewrite require_canonical_iff by (done || lia). split; [intros Hm; exists base, p, a, n; by split_and!|]. intros (? & ? & ? & ? & ? & ? & ? & ? & ?). by simplify_eq.
Qed.

Lemma insert_source_Ok label family u s u' : insert_source label family u s = Ok u' ↔ network family s ∧ (s ∉ u) ∧ u' = ({[s]} ∪ u).
Proof.
  unfold insert_source. split.
  - intros [[] [Hs H]]%outcome_bind_Ok_inv. apply validate_source_iff in Hs. case_bool_decide; [done|]. split; [done|]. split; [done|]. congruence.
  - intros (Hn & Hu & ->). apply (validate_source_iff label) in Hn. rewrite Hn. cbn. by rewrite bool_decide_eq_false_2.
Qed.

Lemma insert_sources_Ok label family l u : is_ok (for_each (insert_source label family) u l) = true ↔
  NoDup l ∧ Forall (network family) l ∧ ∀ s, s ∈ l → s ∉ u.
Proof.
  revert u. induction l as [|s l IH]; intros u; cbn [for_each].
  { split; [intros _; split; [constructor|]; split; [constructor|]; by intros s ?%elem_of_nil|done]. }
  rewrite NoDup_cons, Forall_cons. destruct (insert_source label family u s) as [u'|e|] eqn:E; cbn.
  - apply insert_source_Ok in E as (Hn & Hu & ->). rewrite IH. setoid_rewrite elem_of_cons. set_solver.
  - split; [done|]. intros ([Hs Hd] & [Hn Hf] & Hu). assert (insert_source label family u s = Ok ({[s]} ∪ u)) as E'; [|congruence].
    apply insert_source_Ok. split; [done|]. split; [|done]. apply Hu. by left.
  - split; [done|]. intros ([Hs Hd] & [Hn Hf] & Hu). assert (insert_source label family u s = Ok ({[s]} ∪ u)) as E'; [|congruence].
    apply insert_source_Ok. split; [done|]. split; [|done]. apply Hu. by left.
Qed.

Lemma validate_sources_iff label l family : validate_sources label l family = Ok tt ↔
  length l ≤ MAX_SOURCE_SELECTORS ∧ NoDup l ∧ Forall (network family) l.
Proof.
  unfold validate_sources. destruct (Nat.ltb_spec MAX_SOURCE_SELECTORS (length l)); [split; [done|lia]|].
  pose proof (insert_sources_Ok label family l ∅) as Hi. assert (∀ s, s ∈ l → s ∉ (∅ : gset string)) as He by set_solver.
  destruct (for_each _ _ _); cbn in *; split; try done; naive_solver.
Qed.

Lemma validate_interface_iff i : validate_interface i = Ok tt ↔ 0 < String.length i ≤ 15 ∧ all_chars interface_char i = true.
Proof.
  unfold validate_interface. destruct i as [|c i]; [split; [done|cbn; lia]|]. cbn [is_empty String.eqb orb].
  destruct (Nat.ltb_spec 15 (String.length (String c i))); cbn [orb]; [split; [done|lia]|].
  destruct (all_chars interface_char (String c i)); cbn [negb]; split; try done; [|naive_solver]. intros _. split; [cbn [String.length] in *; lia|done].
Qed.

Lemma validate_no_panic scope ipv6_enabled : no_panic (validate scope ipv6_enabled).
Proof.
  assert (∀ w show label s a p, no_panic (require_canonical w show label s a p)) as Hc by (intros; unfold require_canonical; by destruct (_ =? _)%Z).
  assert (∀ label s family, no_panic (validate_source label s family)) as Hv.
  { intros label s family. unfold validate_source. apply no_panic_bind; [apply no_panic_ok_or|intros [base p] _]. apply no_panic_bind; [apply no_panic_ok_or|intros a _].
    apply no_panic_bind; [apply no_panic_ok_or|intros n _]. destruct family, a; try done; destruct (_ <=? _)%Z; done || apply Hc. }
  assert (∀ label l family, no_panic (validate_sources label l family)) as Hs.
  { intros label l family. unfold validate_sources. destruct (_ <? _); [done|]. apply no_panic_bind; [|done]. apply no_panic_for_each. intros u s.
    unfold insert_source. apply no_panic_bind; [apply Hv|intros _ _]. by case_bool_decide. }
  unfold validate. apply no_panic_bind; [unfold validate_interface; by destruct (_ || _)|intros _ _]. apply no_panic_bind; [apply Hs|intros _ _]. apply no_panic_bind; [apply Hs|intros _ _].
  case_bool_decide; [done|]. by destruct (_ && _).
Qed.

(** C24: a traffic scope is accepted exactly when its interface is a name of 1 to 15 allowed characters,
    there are between one and 64 different IPv4 networks and at most 64 different IPv6 networks (at least one
    when IPv6 is enabled), and no network has a bit set behind its prefix. *)
Theorem validate_iff scope ipv6_enabled : validate scope ipv6_enabled = Ok tt ↔ well_formed scope ipv6_enabled.
Proof.
  unfold validate, well_formed. rewrite !seq_ok, validate_interface_iff, !validate_sources_iff.
  destruct (ipv4_sources scope) as [|s4 l4]; cbn [length]; [rewrite bool_decide_eq_true_2 by done; split; [by intros (_ & _ & _ & ?)|intros (_ & [? _] & _); lia]|].
  rewrite bool_decide_eq_false_2 by done. destruct ipv6_enabled; cbn [andb].
  - case_bool_decide as E6; split.
    + by intros (_ & _ & _ & ?).
    + intros (_ & _ & _ & _ & _ & Hn). by destruct (Hn eq_refl).
    + intros (Hi & (H4 & H4') & H6 & _). split; [done|]. split; [split; [lia|done]|]. destruct H6 as (H6 & H6' & H6''). by split_and!.
    + intros (Hi & ([_ H4] & H4') & H6 & H6' & H6'' & _). tauto.
  - split.
    + intros (Hi & (H4 & H4') & H6 & _). split; [done|]. split; [split; [lia|done]|]. destruct H6 as (H6 & H6' & H6''). by split_and!.
    + intros (Hi & ([_ H4] & H4') & H6 & H6' & H6'' & _). tauto.
Qed.
End Scope.
