(* ===== verification/Takeover.v ===== *)
(** * Takeover: the skeleton that the process takes over the host with

    [linux_types.rs], [linux_checks.rs], [linux_plan.rs], [linux.rs], [linux/fragments.rs] and
    [linux/nft.rs] of [crates/dynet-capture/src]: what the host is asked, the files and the
    nft table that dynet owns, and the commands that make and remove them. A runner of
    commands is an argument; it may change anything on the host. *)
From Stdlib Require Import ZArith Lia Ascii String Strings.Byte.
From stdpp Require Import base list numbers option strings gmap.
From S2P Require Import Prelude Net RustStd Wire HostFiles.
Local Open Scope string_scope.

(** ** linux_types.rs *)
Inductive CheckState := Ready | MissingAutoCreatable | MissingHardFail | InvalidHardFail.
#[export] Instance CheckState_eq_dec : EqDecision CheckState.
Proof. solve_decision. Defined.

Record TakeoverCheck := mk_check { check_id : string; check_label : string; check_path : option string; check_state : CheckState; auto_action : option string }.
Record TakeoverReport := { checks : list TakeoverCheck }.
Record TakeoverStatus := { status_doctor : TakeoverReport; status_runtime : list TakeoverCheck }.

Inductive PlanPhase := IsolatedFragments | RuntimeSkeleton | VmOnlyCapture.
Inductive PlanSafety := LocalSafe | VmOnly | DecisionBlocked.
Record TakeoverPlanItem := plan_item { plan_id : string; phase : PlanPhase; action : string; safety : PlanSafety }.

Record ApplyReport := { apply_status : TakeoverReport; created : list string; apply_actions : list string }.
Record CleanupReport := { removed : list string; cleanup_actions : list string }.

Definition state_is (s : CheckState) (c : TakeoverCheck) : bool := bool_decide (check_state c = s).
Definition is_ready : TakeoverCheck → bool := state_is Ready.
Definition is_hard_failure (c : TakeoverCheck) : bool := match check_state c with MissingHardFail | InvalidHardFail => true | _ => false end.
Definition state_label (s : CheckState) : string :=
  match s with Ready => "ready" | MissingAutoCreatable => "missing-auto-creatable" | MissingHardFail => "missing-hard-fail" | InvalidHardFail => "invalid-hard-fail" end.
Definition summary (c : TakeoverCheck) : string :=
  check_id c ++ "=" ++ state_label (check_state c) ++ match check_path c with Some p => " (" ++ p ++ ")" | None => "" end.

Definition ready (r : TakeoverReport) : bool := forallb is_ready (checks r).
Definition has_hard_failures (r : TakeoverReport) : bool := existsb is_hard_failure (checks r).
Definition needs_auto (r : TakeoverReport) : bool := existsb (state_is MissingAutoCreatable) (checks r).
Definition failure_summary (r : TakeoverReport) : string :=
  match List.filter is_hard_failure (checks r) with
  | [] => "dynet takeover has no hard failures"
  | failures => "dynet takeover hard fail: " ++ String.concat "; " (List.map summary failures)
  end.
(** The summaries of the checks that found something foreign or drifted, in
    [apply_with_runner] and [reject_hook_collisions]. *)
Definition collisions (l : list TakeoverCheck) : list string := List.map summary (List.filter (state_is InvalidHardFail) l).

Definition phase_label (p : PlanPhase) : string :=
  match p with IsolatedFragments => "isolated-fragments" | RuntimeSkeleton => "runtime-skeleton" | VmOnlyCapture => "vm-only-capture" end.
Definition safety_label (s : PlanSafety) : string :=
  match s with LocalSafe => "local-safe" | VmOnly => "vm-only" | DecisionBlocked => "decision-blocked" end.

(** ** linux_plan.rs *)
Definition plan : list TakeoverPlanItem := [
  plan_item "sysctl.fragment" IsolatedFragments "/etc/sysctl.d/90-dynet.conf" LocalSafe;
  plan_item "rt_tables.fragment" IsolatedFragments "/etc/iproute2/rt_tables.d/dynet.conf" LocalSafe;
  plan_item "tun.interface" RuntimeSkeleton "create dynet0 TUN interface" VmOnly;
  plan_item "nft.table" RuntimeSkeleton "create inet dynet table" VmOnly;
  plan_item "nft.chain.bypass" RuntimeSkeleton "create inert bypass chain without hook" VmOnly;
  plan_item "nft.chain.dns" RuntimeSkeleton "create inert DNS chain without hook" VmOnly;
  plan_item "nft.chain.tcp" RuntimeSkeleton "create inert TCP chain without hook" VmOnly;
  plan_item "nft.chain.udp" RuntimeSkeleton "create inert UDP chain without hook" VmOnly;
  plan_item "packet.parser" VmOnlyCapture "parse IPv4/IPv6 TCP/UDP/DNS packet metadata from captured bytes" LocalSafe;
  plan_item "tun.io" VmOnlyCapture "bind dynet0 through /dev/net/tun and expose packet read/write" VmOnly;
  plan_item "capture.hooks" VmOnlyCapture "install VM-only nft output hook and fwmark route rules" VmOnly].

(** ** linux/nft.rs *)
Definition NFT_CHAINS : list string := ["dynet_bypass"; "dynet_dns"; "dynet_tcp"; "dynet_udp"].
Definition NFT_TABLE_OWNER_MARKER : string := "dynet-owned: runtime-skeleton:v1".

(** The [match] on the name of a chain. *)
Definition by_chain (chain : string) (bypass dns tcp udp other : string) : string :=
  if String.eqb chain "dynet_bypass" then bypass else if String.eqb chain "dynet_dns" then dns
  else if String.eqb chain "dynet_tcp" then tcp else if String.eqb chain "dynet_udp" then udp else other.
Definition nft_chain_owner_marker (chain : string) : string :=
  by_chain chain "dynet-owned: runtime-bypass:v1" "dynet-owned: runtime-dns:v1" "dynet-owned: runtime-tcp:v1" "dynet-owned: runtime-udp:v1" "dynet-owned: runtime-unknown:v1".
Definition nft_chain_id (chain : string) : string :=
  by_chain chain "nft.chain.bypass" "nft.chain.dns" "nft.chain.tcp" "nft.chain.udp" "nft.chain.unknown".
Definition nft_chain_label (chain : string) : string :=
  by_chain chain "dynet bypass nftables chain" "dynet DNS nftables chain" "dynet TCP nftables chain" "dynet UDP nftables chain" "dynet unknown nftables chain".
Definition nft_chain_action (chain : string) : string :=
  by_chain chain "create inert bypass nftables chain" "create inert DNS nftables chain" "create inert TCP nftables chain" "create inert UDP nftables chain" "create inert nftables chain".

(** ** linux/fragments.rs *)
Definition OWNER_MARKER : string := "# dynet-owned: full-takeover".
Definition SYSCTL_FRAGMENT : string := "90-dynet.conf".
Definition RT_TABLES_FRAGMENT : string := "dynet.conf".
Definition DYN_TABLE_ID : Z := 51880.
Definition TUN_INTERFACE : string := "dynet0".
Definition NFT_FAMILY : string := "inet".
Definition NFT_TABLE : string := "dynet".

(** [env::split_paths] on Unix *)
Definition path_dirs (path : option string) : list string := match path with Some p => split ":" p | None => [] end.
Definition sysctl_fragment_content : string :=
  OWNER_MARKER ++ nl
  ++ "# Installed by dynet apply --auto. Loaded by sysctl tooling, not by writing global sysctl files." ++ nl
  ++ "net.ipv4.ip_forward = 1" ++ nl ++ "net.ipv4.conf.all.rp_filter = 0" ++ nl
  ++ "net.ipv4.conf.default.rp_filter = 0" ++ nl ++ "net.ipv4.conf.dynet0.rp_filter = 0" ++ nl.
Definition rt_tables_fragment_content : string := OWNER_MARKER ++ nl ++ to_string DYN_TABLE_ID ++ " dynet" ++ nl.

Record LinuxTakeoverPaths := { sysctl_dir : string; rt_tables_dir : string; systemd_system_dir : string; tun_device : string; command_dirs : list string }.
Definition default_paths (path : option string) : LinuxTakeoverPaths :=
  {| sysctl_dir := "/etc/sysctl.d"; rt_tables_dir := "/etc/iproute2/rt_tables.d"; systemd_system_dir := "/etc/systemd/system";
     tun_device := "/dev/net/tun"; command_dirs := path_dirs path |}.

(** ** Commands *)
Definition SystemRunner (H : Type) : Type := string → list string → Machine H → Machine H * (string + CommandOutput).

(** What [Command::output] gives: the status and the two texts, as [String::from_utf8_lossy] reads them. *)
Definition HostRunner {H} (command_output : string → list string → Machine H → Machine H * (string + bool * string * string)) : SystemRunner H :=
  λ command args m, let '(m', r) := command_output command args m in
  (m', match r with
       | inl e => inl ("failed running " ++ command ++ ": " ++ e)
       | inr (ok, out, err) => inr {| success := ok; stdout := trim out; stderr := trim err |}
       end).

Section runner.
Context {H : Type}.
Abbreviation service := (act (World H) string).
(** What is done with a [&mut Vec] of actions or paths. *)
Abbreviation doing := (act (World H * list string) string).

Context (runner : SystemRunner H).

Definition run (command : string) (args : list string) : service (string + CommandOutput) := λ w,
  let '(m, r) := runner command args (machine w) in (mk_world m (faults w), Ok r).

Definition run_required (command : string) (args : list string) : service unit :=
  r ← run command args;
  match r with
  | inl e => fail e
  | inr output => if success output then mret tt else fail (command ++ " " ++ String.concat " " args ++ " failed: " ++ stderr output)
  end.

Definition push (entry : string) : doing unit := modify (λ s, (s.1, (s.2 ++ [entry])%list)).

(** A body with a [Vec] of its own, which is lost when it fails. *)
Definition collecting {A} (m : doing A) : service (A * list string) := λ w,
  let '((w', l), r) := m (w, []) in
  (w', match r with Ok a => Ok (a, l) | Err e => Err e | Panic => Panic end).

(** ** linux_checks.rs *)
Definition directory_auto_check (id label path auto_action : string) : service TakeoverCheck :=
  d ← is_dir (key path);
  state ← (if d : bool then mret Ready else e ← path_exists (key path); mret (if e : bool then InvalidHardFail else MissingAutoCreatable));
  mret (mk_check id label (Some path) state (Some auto_action)).

Definition device_check (id label path : string) : service TakeoverCheck :=
  e ← path_exists (key path);
  mret (mk_check id label (Some path) (if e : bool then Ready else MissingHardFail) None).

Definition fragment_check (id label path auto_action : string) : service TakeoverCheck :=
  f ← is_file (key path);
  state ← (if f : bool then mret Ready else e ← path_exists (key path); mret (if e : bool then InvalidHardFail else MissingAutoCreatable));
  mret (mk_check id label (Some path) state (Some auto_action)).

Fixpoint command_in_dirs (command : string) (dirs : list string) : service bool :=
  match dirs with
  | [] => mret false
  | d :: r => f ← is_file (key (join d command)); if f : bool then mret true else command_in_dirs command r
  end.

Definition command_check (id label command : string) (dirs : list string) : service TakeoverCheck :=
  b ← command_in_dirs command dirs;
  mret (mk_check id label None (if b : bool then Ready else MissingHardFail) None).

Definition runtime_command_check (id label : string) (result : string + CommandOutput) (auto_action : string) : TakeoverCheck :=
  mk_check id label None
    match result with inr output => if success output then Ready else MissingAutoCreatable | inl _ => MissingHardFail end (Some auto_action).

(** ** linux.rs: what the host is asked *)
Definition owned_nft_check (id label : string) (output : string + CommandOutput) (owner_marker action : string) : TakeoverCheck :=
  let state := match output with
    | inr output => if success output then if contains owner_marker (stdout output) then Ready else InvalidHardFail else MissingAutoCreatable
    | inl _ => MissingHardFail
    end in
  mk_check id label None state (if decide (state = MissingAutoCreatable) then Some action else None).

Definition tun_status : service TakeoverCheck :=
  output ← run "ip" ["-br"; "link"; "show"; "dev"; TUN_INTERFACE; "up"];
  let state := match output with
    | inr output => if success output && negb (is_empty (stdout output)) then Ready else MissingAutoCreatable
    | inl _ => MissingHardFail
    end in
  mret (mk_check "tun.interface" "dynet TUN interface" None state (Some "create dynet0 TUN interface")).

Definition tun_exists_status : service TakeoverCheck :=
  output ← run "ip" ["link"; "show"; "dev"; TUN_INTERFACE];
  mret (runtime_command_check "tun.interface.exists" "dynet TUN interface exists" output "create dynet0 TUN interface").

Definition nft_status : service TakeoverCheck :=
  output ← run "nft" ["list"; "table"; NFT_FAMILY; NFT_TABLE];
  mret (owned_nft_check "nft.table" "dynet-owned nftables table" output NFT_TABLE_OWNER_MARKER "create inet dynet nftables table").

Definition nft_chain_status (chain : string) : service TakeoverCheck :=
  output ← run "nft" ["list"; "chain"; NFT_FAMILY; NFT_TABLE; chain];
  mret (owned_nft_check (nft_chain_id chain) (nft_chain_label chain) output (nft_chain_owner_marker chain) (nft_chain_action chain)).

Definition tuntap_capability_check : service TakeoverCheck :=
  output ← run "ip" ["tuntap"; "show"];
  let state := match output with inr output => if success output then Ready else MissingHardFail | inl _ => MissingHardFail end in
  mret (mk_check "ip.tuntap-capability" "functional ip tuntap support" None state None).
End runner.

(** Evaluating a list of checks one after the other. *)
Fixpoint sequence {S E A} (l : list (act S E A)) : act S E (list A) :=
  match l with [] => mret [] | m :: r => a ← m; rest ← sequence r; mret (a :: rest) end.

Section takeover.
Context {H : Type} `{!LinkedFiles H}.
(** The mode of new files, and the runner of [HostRunner]. *)
Context (creation_mode : Z) (host_runner : SystemRunner H) (paths : LinuxTakeoverPaths).
Abbreviation service := (act (World H) string).
Abbreviation doing := (act (World H * list string) string).

Definition sysctl_fragment : string := join (sysctl_dir paths) SYSCTL_FRAGMENT.
Definition rt_tables_fragment : string := join (rt_tables_dir paths) RT_TABLES_FRAGMENT.

Definition doctor_with_runner (runner : SystemRunner H) : service TakeoverReport :=
  l ← sequence [
    directory_auto_check "sysctl.d" "sysctl .d carrier" (sysctl_dir paths) "create /etc/sysctl.d";
    fragment_check "sysctl.fragment" "dynet sysctl fragment" sysctl_fragment "create /etc/sysctl.d/90-dynet.conf";
    directory_auto_check "rt_tables.d" "iproute2 route-table .d carrier" (rt_tables_dir paths) "create /etc/iproute2/rt_tables.d";
    fragment_check "rt_tables.fragment" "dynet route-table fragment" rt_tables_fragment "create /etc/iproute2/rt_tables.d/dynet.conf";
    device_check "tun.device" "Linux TUN device" (tun_device paths);
    command_check "ip.command" "iproute2 command" "ip" (command_dirs paths);
    command_check "nft.command" "nftables command" "nft" (command_dirs paths);
    command_check "sysctl.command" "sysctl command" "sysctl" (command_dirs paths);
    tuntap_capability_check runner];
  mret {| checks := l |}.
Definition doctor : service TakeoverReport := doctor_with_runner host_runner.

Definition status_with_runner (runner : SystemRunner H) : service TakeoverStatus :=
  runtime ← sequence (tun_status runner :: nft_status runner :: List.map (nft_chain_status runner) NFT_CHAINS);
  d ← doctor_with_runner runner;
  mret {| status_doctor := d; status_runtime := runtime |}.

(** ** linux.rs: files *)
Definition ensure_directory (path : string) : doing unit :=
  d ← on_fst (is_dir (key path));
  if d : bool then mret tt
  else
    e ← on_fst (path_exists (key path));
    if e : bool then fail (path ++ " exists but is not a directory; refusing to overwrite")
    else _ ← on_fst (create_dir_all (λ e, "failed creating " ++ path ++ ": " ++ e) (key path)); push path.

Definition write_fragment (path content : string) : doing unit :=
  _ ← on_fst (fs_write creation_mode (λ e, "failed writing " ++ path ++ ": " ++ e) (key path) content); push path.

Definition ensure_fragment (path content : string) : doing unit :=
  e ← on_fst (path_exists (key path));
  if e : bool then
    r ← on_fst (read_to_string (key path));
    match r with
    | NotFound => fail ("failed reading " ++ path ++ ": " ++ not_found)
    | ReadError e => fail ("failed reading " ++ path ++ ": " ++ e)
    | Content existing =>
        if negb (contains OWNER_MARKER existing) then fail (path ++ " exists but is not dynet-owned; refusing to overwrite")
        else if String.eqb existing content then mret tt else write_fragment path content
    end
  else write_fragment path content.

Definition remove_owned_fragment (path : string) : doing unit :=
  r ← on_fst (read_to_string (key path));
  match r with
  | Content content =>
      if contains OWNER_MARKER content then
        _ ← on_fst (remove_file (key path) (λ e, "failed removing " ++ path ++ ": " ++ e)); push path
      else fail (path ++ " exists but is not dynet-owned; refusing to remove")
  | NotFound => mret tt
  | ReadError e => fail ("failed reading " ++ path ++ ": " ++ e)
  end.

(** ** linux.rs: the runtime skeleton *)
Section skeleton.
Context (runner : SystemRunner H).
Abbreviation required command args := (on_fst (run_required runner command args)).

Definition ensure_tun : doing unit :=
  c ← on_fst (tun_status runner);
  if is_ready c then mret tt
  else
    x ← on_fst (tun_exists_status runner);
    _ ← (if is_ready x then mret tt
         else _ ← required "ip" ["tuntap"; "add"; "dev"; TUN_INTERFACE; "mode"; "tun"]; push ("created TUN interface " ++ TUN_INTERFACE));
    _ ← required "ip" ["link"; "set"; "dev"; TUN_INTERFACE; "up"];
    push ("set " ++ TUN_INTERFACE ++ " up").

Definition ensure_sysctl_loaded : doing unit :=
  _ ← required "sysctl" ["-p"; sysctl_fragment];
  push ("loaded dynet sysctl fragment " ++ sysctl_fragment).

Definition ensure_nft_table : doing unit :=
  c ← on_fst (nft_status runner);
  if is_ready c then mret tt
  else
    c' ← on_fst (nft_status runner);
    if state_is InvalidHardFail c' then fail "inet dynet exists without the dynet runtime owner marker"
    else
      _ ← required "nft" ["add"; "table"; NFT_FAMILY; NFT_TABLE; "{"; "comment"; dq ++ "dynet-owned: runtime-skeleton:v1" ++ dq ++ ";"; "}"];
      push ("created nft table " ++ NFT_FAMILY ++ " " ++ NFT_TABLE).

Definition ensure_nft_chain (chain : string) : doing unit :=
  c ← on_fst (nft_chain_status runner chain);
  if is_ready c then mret tt
  else
    c' ← on_fst (nft_chain_status runner chain);
    if state_is InvalidHardFail c' then fail (NFT_FAMILY ++ " " ++ NFT_TABLE ++ " " ++ chain ++ " exists without its dynet owner marker")
    else
      let owner := dq ++ nft_chain_owner_marker chain ++ dq ++ ";" in
      _ ← required "nft" ["add"; "chain"; NFT_FAMILY; NFT_TABLE; chain; "{"; "comment"; owner; "}"];
      push ("created nft chain " ++ NFT_FAMILY ++ " " ++ NFT_TABLE ++ " " ++ chain).

(** The loops over a list of chains or rules. *)
Fixpoint each {A} (body : A → doing unit) (l : list A) : doing unit :=
  match l with [] => mret tt | a :: r => _ ← body a; each body r end.

Definition ensure_nft_chains : doing unit := each ensure_nft_chain NFT_CHAINS.

Definition delete_tun : doing unit :=
  c ← on_fst (tun_status runner);
  if negb (is_ready c) then mret tt
  else _ ← required "ip" ["link"; "delete"; "dev"; TUN_INTERFACE]; push ("deleted TUN interface " ++ TUN_INTERFACE).

Definition delete_nft_table : doing unit :=
  c ← on_fst (nft_status runner);
  if negb (is_ready c) then
    c' ← on_fst (nft_status runner);
    if state_is InvalidHardFail c' then fail "inet dynet exists without the dynet runtime owner marker; refusing cleanup" else mret tt
  else
    _ ← required "nft" ["delete"; "table"; NFT_FAMILY; NFT_TABLE];
    push ("deleted nft table " ++ NFT_FAMILY ++ " " ++ NFT_TABLE).

(** ** linux.rs: apply and cleanup *)
Definition ensure_files : doing unit :=
  _ ← ensure_directory (sysctl_dir paths);
  _ ← ensure_directory (rt_tables_dir paths);
  _ ← ensure_fragment sysctl_fragment sysctl_fragment_content;
  ensure_fragment rt_tables_fragment rt_tables_fragment_content.
Definition ensure_skeleton : doing unit :=
  _ ← ensure_tun; _ ← ensure_sysctl_loaded; _ ← ensure_nft_table; ensure_nft_chains.

Definition apply_with_runner (auto : bool) : service ApplyReport :=
  before ← doctor_with_runner runner;
  if has_hard_failures before then fail (failure_summary before)
  else if needs_auto before && negb auto then fail "dynet takeover requires --auto to create isolated fragments"
  else
    status ← status_with_runner runner;
    match collisions (status_runtime status) with
    | [] =>
        '(_, created) ← collecting (if auto then ensure_files else mret tt);
        '(_, runtime_actions) ← collecting (if auto then ensure_skeleton else mret tt);
        d ← doctor;
        mret {| apply_status := d; created := created; apply_actions := runtime_actions |}
    | l => fail ("dynet runtime skeleton found foreign or drifted artifacts and refuses to overwrite them: " ++ String.concat "; " l)
    end.

Definition cleanup_with_runner : service CleanupReport :=
  '(_, runtime_actions) ← collecting (_ ← delete_nft_table; delete_tun);
  '(_, removed) ← collecting (_ ← remove_owned_fragment sysctl_fragment; remove_owned_fragment rt_tables_fragment);
  mret {| removed := removed; cleanup_actions := runtime_actions |}.
End skeleton.

Definition apply (auto : bool) : service ApplyReport := apply_with_runner host_runner auto.
Definition cleanup : service CleanupReport := cleanup_with_runner host_runner.
End takeover.
