(* ===== verification/TakeoverHooks.v ===== *)
(** * TakeoverHooks: the hooks that capture traffic

    [linux/hooks.rs], [linux/hooks/status.rs] and [linux/router_ingress.rs] of
    [crates/dynet-capture/src]: the policy routes and rules of both IP versions, the output chain
    for the traffic of the host and the prerouting chain for that of a router. *)
From Stdlib Require Import ZArith Lia Ascii String Strings.Byte.
From stdpp Require Import base list numbers option strings gmap.
From S2P Require Import Prelude Net RustStd Wire HostFiles Takeover ConfigData Settings TakeoverScope.
Local Open Scope string_scope.

(** ** hooks.rs: constants *)
Definition DYNET_NFT_OUTPUT_PRIORITY : string := "-150".
Definition MARK_VALUE_HEX : string := "0x40000000".
Definition MARK_MASK_HEX : string := "0x40000000".
Definition MARK_WITH_MASK : string := "0x40000000/0x40000000".
Definition RULE_PRIORITY : string := "10000".
Definition LEGACY_RULE_PRIORITY : string := "51880".
Definition LEGACY_MARK_HEX : string := "0x51880".
Definition ROUTE_TABLE : string := "51880".
Definition OUTPUT_CHAIN : string := "dynet_output".
Definition OUTPUT_OWNER_MARKER : string := "dynet-owned: capture-output:v1".
Definition DYNET_NFT_ROUTER_INGRESS_PRIORITY : string := "-151".
Definition ROUTER_CHAIN : string := "dynet_router_ingress".
Definition ROUTER_OWNER_MARKER : string := "dynet-owned: router-ingress:v1".

Record HookOptions := { service_uid : Z; hook_ipv6_enabled : bool }.
Record RouterHookOptions := { scope : TrafficScope; router_ipv6_enabled : bool }.

(** ** hooks/status.rs *)
Inductive IpVersion := IPv4 | IPv6.
Definition flag (v : IpVersion) : string := match v with IPv4 => "-4" | IPv6 => "-6" end.
Definition version_label (v : IpVersion) : string := match v with IPv4 => "IPv4" | IPv6 => "IPv6" end.
Definition route_check_id (v : IpVersion) : string := match v with IPv4 => "route.table.ipv4.default" | IPv6 => "route.table.ipv6.default" end.
Definition rule_check_id (v : IpVersion) : string := match v with IPv4 => "route.rule.ipv4.mark" | IPv6 => "route.rule.ipv6.mark" end.

Definition missing_check (id label action : string) : TakeoverCheck := mk_check id label None MissingAutoCreatable (Some action).

Definition owned_command_check (id label : string) (output : string + CommandOutput) (is_owned : string → bool) (action : string) : TakeoverCheck :=
  match output with
  | inr output =>
      if success output && is_empty (stdout output) then missing_check id label action
      else if success output && is_owned (stdout output) then mk_check id label None Ready None
      else if negb (success output) then missing_check id label action
      else mk_check id label None InvalidHardFail None
  | inl _ => mk_check id label None InvalidHardFail None
  end.

Definition route_is_owned (stdout : string) : bool :=
  match lines stdout with [line] => starts_with line "default dev dynet0" | _ => false end.
Definition rule_is_owned (mark stdout : string) : bool :=
  (length (lines stdout) =? 1)%nat && contains ("fwmark " ++ mark) stdout && (contains "lookup dynet" stdout || contains "lookup 51880" stdout).
Definition mark_guard (stdout : string) : bool :=
  contains ("meta mark & " ++ MARK_MASK_HEX ++ " != 0 return") stdout || contains ("meta mark & " ++ MARK_MASK_HEX ++ " != 0x00000000 return") stdout.
Definition output_is_owned (options : option HookOptions) (stdout : string) : bool :=
  if negb (contains OUTPUT_OWNER_MARKER stdout) then false
  else match options with
  | None => true
  | Some o =>
      contains ("meta skuid " ++ to_string (service_uid o) ++ " return") stdout
      && contains (if hook_ipv6_enabled o then "ip6 daddr ::1 return" else "meta nfproto ipv6 return") stdout
      && mark_guard stdout
      && (contains "type route hook output priority mangle;" stdout || contains ("type route hook output priority " ++ DYNET_NFT_OUTPUT_PRIORITY ++ ";") stdout)
      && contains ("meta l4proto tcp meta mark set meta mark | " ++ MARK_VALUE_HEX) stdout
      && contains ("meta l4proto udp meta mark set meta mark | " ++ MARK_VALUE_HEX) stdout
  end.

(** ** router_ingress.rs: what a listing of the chain has to hold *)
Definition source_matches (line family source : string) : bool :=
  contains (family ++ " saddr " ++ source) line
  || match split_once "/" source with
     | None => false
     | Some (address, prefix) =>
         ((String.eqb family "ip" && String.eqb prefix "32") || (String.eqb family "ip6" && String.eqb prefix "128"))
         && contains (family ++ " saddr " ++ address) line
     end.
(** The families and sources of the options, in the order of the chain of iterators. *)
Definition router_sources (o : RouterHookOptions) : list (string * string) :=
  (List.map (pair "ip") (ipv4_sources (scope o)) ++ (if router_ipv6_enabled o then List.map (pair "ip6") (ipv6_sources (scope o)) else []))%list.
Definition source_line (o : RouterHookOptions) (family source protocol line : string) : bool :=
  contains ("iifname " ++ dq ++ interface (scope o) ++ dq) line && source_matches line family source
  && contains ("meta l4proto " ++ protocol) line && contains ("meta mark set meta mark | " ++ MARK_VALUE_HEX) line.
Definition router_chain_is_expected (stdout : string) (options : option RouterHookOptions) : bool :=
  if negb (contains ROUTER_OWNER_MARKER stdout) then false
  else match options with
  | None => true
  | Some o =>
      (contains "type filter hook prerouting priority -151;" stdout || contains "type filter hook prerouting priority mangle - 1;" stdout
       || contains ("type filter hook prerouting priority " ++ DYNET_NFT_ROUTER_INGRESS_PRIORITY ++ ";") stdout)
      && mark_guard stdout
      && forallb (λ '(family, source), forallb (λ protocol, existsb (source_line o family source protocol) (lines stdout)) ["tcp"; "udp"]) (router_sources o)
      && (if router_ipv6_enabled o
          then contains "ip6 daddr fe80::/10 return" stdout && contains "ip6 daddr fc00::/7 return" stdout && contains "ip6 daddr ff00::/8 return" stdout
          else contains "meta nfproto ipv6 return" stdout)
      && contains "fib daddr type local return" stdout && contains "ip daddr 10.0.0.0/8 return" stdout
      && contains "ip daddr 172.16.0.0/12 return" stdout && contains "ip daddr 192.168.0.0/16 return" stdout
  end.

(** The state behind [router_chain_status] and the [mapping_status] of dns_mapping.rs. *)
Definition chain_state (output : string + CommandOutput) (expected : string → bool) : CheckState :=
  match output with
  | inr output => if negb (success output) then MissingAutoCreatable else if expected (stdout output) then Ready else InvalidHardFail
  | inl _ => MissingHardFail
  end.
Definition chain_check (id label action : string) (state : CheckState) : TakeoverCheck :=
  mk_check id label None state (if decide (state = MissingAutoCreatable) then Some action else None).
(** [router_interface_status] and [mapping_interface_status] *)
Definition interface_check (id label : string) (output : string + CommandOutput) : TakeoverCheck :=
  mk_check id label None match output with inr output => if success output then Ready else MissingHardFail | inl _ => MissingHardFail end None.

(** ** The rules *)
Definition nft_rule (chain : string) (rule : list string) : list string := (["add"; "rule"; NFT_FAMILY; NFT_TABLE; chain] ++ rule)%list.

Definition mark_protocol (protocol : string) : list string := ["meta"; "l4proto"; protocol; "meta"; "mark"; "set"; "meta"; "mark"; "|"; MARK_VALUE_HEX].

Definition output_rules (o : HookOptions) : list (list string) :=
  List.map (nft_rule OUTPUT_CHAIN)
  ([ ["meta"; "skuid"; to_string (service_uid o); "return"];
     ["meta"; "mark"; "&"; MARK_MASK_HEX; "!="; "0"; "return"] ]
   ++ (if hook_ipv6_enabled o
       then [ ["ip6"; "daddr"; "::1"; "return"]; ["ip6"; "daddr"; "fe80::/10"; "return"]; ["ip6"; "daddr"; "ff00::/8"; "return"] ]
       else [ ["meta"; "nfproto"; "ipv6"; "return"] ])
   ++ [ ["ip"; "daddr"; "127.0.0.0/8"; "return"]; ["ip"; "daddr"; "169.254.0.0/16"; "return"];
        ["ip"; "daddr"; "224.0.0.0/4"; "return"]; ["ip"; "daddr"; "255.255.255.255"; "return"];
        ["tcp"; "sport"; "22"; "return"]; ["tcp"; "dport"; "22"; "return"];
        mark_protocol "tcp"; mark_protocol "udp" ])%list.

Definition mark_rule (interface family source protocol : string) : list string :=
  (["iifname"; (dq ++ interface ++ dq)%string; family; "saddr"; source] ++ mark_protocol protocol)%list.

Definition source_rules (interface family : string) (sources : list string) : list (list string) :=
  List.concat (List.map (λ s, [mark_rule interface family s "tcp"; mark_rule interface family s "udp"]) sources).

Definition router_rules (o : RouterHookOptions) : list (list string) :=
  List.map (nft_rule ROUTER_CHAIN)
  ([ ["meta"; "mark"; "&"; MARK_MASK_HEX; "!="; "0"; "return"]; ["fib"; "daddr"; "type"; "local"; "return"];
     ["ip"; "daddr"; "0.0.0.0/8"; "return"]; ["ip"; "daddr"; "10.0.0.0/8"; "return"]; ["ip"; "daddr"; "127.0.0.0/8"; "return"];
     ["ip"; "daddr"; "169.254.0.0/16"; "return"]; ["ip"; "daddr"; "172.16.0.0/12"; "return"]; ["ip"; "daddr"; "192.168.0.0/16"; "return"];
     ["ip"; "daddr"; "224.0.0.0/4"; "return"]; ["ip"; "daddr"; "255.255.255.255"; "return"] ]
   ++ (if router_ipv6_enabled o
       then [ ["ip6"; "daddr"; "::1"; "return"]; ["ip6"; "daddr"; "fe80::/10"; "return"]; ["ip6"; "daddr"; "fc00::/7"; "return"]; ["ip6"; "daddr"; "ff00::/8"; "return"] ]
       else [ ["meta"; "nfproto"; "ipv6"; "return"] ])
   ++ source_rules (interface (scope o)) "ip" (ipv4_sources (scope o))
   ++ (if router_ipv6_enabled o then source_rules (interface (scope o)) "ip6" (ipv6_sources (scope o)) else []))%list.

(** ** Status *)
Section status.
Context {H : Type} (runner : SystemRunner H).
Abbreviation service := (act (World H) string).

Definition route_status (v : IpVersion) : service TakeoverCheck :=
  output ← run runner "ip" [flag v; "route"; "show"; "table"; ROUTE_TABLE];
  mret (owned_command_check (route_check_id v) ("dynet " ++ version_label v ++ " policy route default") output route_is_owned "route marked traffic to dynet0").

Definition rule_status (v : IpVersion) : service TakeoverCheck :=
  output ← run runner "ip" [flag v; "rule"; "show"; "pref"; RULE_PRIORITY];
  mret (owned_command_check (rule_check_id v) ("dynet " ++ version_label v ++ " fwmark policy rule") output (rule_is_owned MARK_WITH_MASK)
    "route the masked dynet mark through the dynet table").

Definition family_status (v : IpVersion) : service (list TakeoverCheck) := sequence [route_status v; rule_status v].

Definition legacy_rule_status : service TakeoverCheck :=
  output ← run runner "ip" ["rule"; "show"; "pref"; LEGACY_RULE_PRIORITY];
  mret (owned_command_check "route.rule.mark.legacy" "legacy dynet fwmark policy rule" output (rule_is_owned LEGACY_MARK_HEX) "remove the legacy dynet fwmark rule").

Definition output_chain_status (options : option HookOptions) : service TakeoverCheck :=
  output ← run runner "nft" ["list"; "chain"; NFT_FAMILY; NFT_TABLE; OUTPUT_CHAIN];
  mret (owned_command_check "nft.chain.output" "dynet-owned output capture hook" output (output_is_owned options) "create the owned output capture hook").

Definition router_chain_status (options : option RouterHookOptions) : service TakeoverCheck :=
  output ← run runner "nft" ["list"; "chain"; NFT_FAMILY; NFT_TABLE; ROUTER_CHAIN];
  mret (chain_check "nft.chain.router-ingress" "dynet-owned source-scoped router ingress hook" "explicitly apply the source-scoped router hook"
    (chain_state output (λ stdout, router_chain_is_expected stdout options))).

Definition router_interface_status (o : RouterHookOptions) : service TakeoverCheck :=
  output ← run runner "ip" ["link"; "show"; "dev"; interface (scope o)];
  mret (interface_check "router-ingress.interface" "caller-selected router ingress interface" output).

Definition reject_hook_collisions (l : list TakeoverCheck) : service unit :=
  match collisions l with
  | [] => mret tt
  | c => fail ("dynet hooks found foreign or drifted artifacts and refuse to overwrite them: " ++ String.concat "; " c)
  end.

Definition reject_cleanup_collisions : service unit :=
  v4 ← family_status IPv4;
  v6 ← family_status IPv6;
  output ← output_chain_status None;
  router ← router_chain_status None;
  legacy ← legacy_rule_status;
  reject_hook_collisions (v4 ++ v6 ++ [output; router; legacy])%list.

Definition hooks_status_with_runner : service (list TakeoverCheck) :=
  v4 ← family_status IPv4; v6 ← family_status IPv6; c ← output_chain_status None; mret (v4 ++ v6 ++ [c])%list.
Definition hooks_status_with (o : HookOptions) : service (list TakeoverCheck) :=
  v4 ← family_status IPv4;
  v6 ← (if hook_ipv6_enabled o then family_status IPv6 else mret []);
  c ← output_chain_status (Some o);
  mret (v4 ++ v6 ++ [c])%list.
Definition router_hooks_status_with (options : option RouterHookOptions) : service (list TakeoverCheck) :=
  v4 ← family_status IPv4;
  v6 ← (if match options with Some o => router_ipv6_enabled o | None => true end then family_status IPv6 else mret []);
  c ← router_chain_status options;
  mret (v4 ++ v6 ++ [c])%list.
End status.

(** ** Installing and removing *)
Section hooks.
Context {H : Type} `{!LinkedFiles H}.
Context (host_runner : SystemRunner H) (paths : LinuxTakeoverPaths).
(** [Display] of the errors that carry values. *)
Context (error_text : config_error → string).
Abbreviation service := (act (World H) string).
Abbreviation doing := (act (World H * list string) string).

Section with_runner.
Context (runner : SystemRunner H).
Abbreviation required command args := (on_fst (run_required runner command args)).

Definition route_args (v : IpVersion) (verb : string) : list string := [flag v; "route"; verb; "default"; "dev"; TUN_INTERFACE; "table"; ROUTE_TABLE].
Definition rule_args (v : IpVersion) (verb : string) : list string :=
  [flag v; "rule"; verb; "pref"; RULE_PRIORITY; "fwmark"; MARK_WITH_MASK; "lookup"; ROUTE_TABLE].

Definition ensure_family_hooks (v : IpVersion) : doing unit :=
  c ← on_fst (route_status runner v);
  _ ← (if is_ready c then mret tt
       else _ ← required "ip" (route_args v "add");
            push ("created " ++ version_label v ++ " route table " ++ ROUTE_TABLE ++ " default dev " ++ TUN_INTERFACE));
  c' ← on_fst (rule_status runner v);
  if is_ready c' then mret tt
  else _ ← required "ip" (rule_args v "add");
       push ("created " ++ version_label v ++ " fwmark " ++ MARK_WITH_MASK ++ " policy rule pref " ++ RULE_PRIORITY).

Definition add_chain_args (chain kind hook priority comment : string) : list string :=
  ["add"; "chain"; NFT_FAMILY; NFT_TABLE; chain; "{"; "type"; kind; "hook"; hook; "priority"; priority ++ ";"; "policy"; "accept;"; "comment"; dq ++ comment ++ dq ++ ";"; "}"].
Definition delete_chain_args (chain : string) : list string := ["delete"; "chain"; NFT_FAMILY; NFT_TABLE; chain].

Definition add_rules (rules : list (list string)) : doing unit := each (λ rule, required "nft" rule) rules.

Definition ensure_output_chain (o : HookOptions) : doing unit :=
  c ← on_fst (output_chain_status runner (Some o));
  if is_ready c then mret tt
  else
    _ ← required "nft" (add_chain_args OUTPUT_CHAIN "route" "output" "-150" OUTPUT_OWNER_MARKER);
    _ ← push ("created owned nft output hook " ++ NFT_FAMILY ++ " " ++ NFT_TABLE ++ " " ++ OUTPUT_CHAIN ++ " priority " ++ DYNET_NFT_OUTPUT_PRIORITY);
    _ ← add_rules (output_rules o);
    push ("installed dual-stack-safe output capture rules preserving marks outside " ++ MARK_MASK_HEX).

Definition delete_output_chain : doing unit :=
  c ← on_fst (output_chain_status runner None);
  if negb (is_ready c) then mret tt
  else _ ← required "nft" (delete_chain_args OUTPUT_CHAIN);
       push ("deleted owned nft output hook " ++ NFT_FAMILY ++ " " ++ NFT_TABLE ++ " " ++ OUTPUT_CHAIN).

Definition delete_family_rule (v : IpVersion) : doing unit :=
  c ← on_fst (rule_status runner v);
  if is_ready c then
    _ ← required "ip" (rule_args v "del");
    push ("deleted " ++ version_label v ++ " fwmark " ++ MARK_WITH_MASK ++ " policy rule pref " ++ RULE_PRIORITY)
  else mret tt.
Definition delete_family_route (v : IpVersion) : doing unit :=
  c ← on_fst (route_status runner v);
  if is_ready c then
    _ ← required "ip" (route_args v "del");
    push ("deleted " ++ version_label v ++ " route table " ++ ROUTE_TABLE ++ " default dev " ++ TUN_INTERFACE)
  else mret tt.
Definition delete_family_hooks (v : IpVersion) : doing unit := _ ← delete_family_rule v; delete_family_route v.

Definition delete_legacy_rule : doing unit :=
  c ← on_fst (legacy_rule_status runner);
  if negb (is_ready c) then mret tt
  else _ ← required "ip" ["rule"; "del"; "pref"; LEGACY_RULE_PRIORITY; "fwmark"; LEGACY_MARK_HEX; "lookup"; ROUTE_TABLE];
       push ("deleted legacy fwmark " ++ LEGACY_MARK_HEX ++ " policy rule pref " ++ LEGACY_RULE_PRIORITY).

(** The checks of the skeleton, shared by the applying operations of both files. *)
Definition require_skeleton (what : string) : service unit :=
  status ← status_with_runner paths runner;
  if has_hard_failures (status_doctor status) then fail (failure_summary (status_doctor status))
  else match List.filter (λ c, negb (is_ready c)) (status_runtime status) with
       | [] => mret tt
       | c :: _ => fail ("dynet " ++ what ++ " apply requires ready runtime skeleton: " ++ summary c)
       end.

Definition hooks_apply_options_with (o : HookOptions) : service (list string) :=
  if (service_uid o =? 0)%Z then fail "dynet hooks refuse uid 0 as the service bypass identity"
  else
    _ ← require_skeleton "hook";
    l ← hooks_status_with runner o;
    _ ← reject_hook_collisions l;
    '(_, actions) ← collecting
      (_ ← ensure_family_hooks IPv4;
       _ ← (if hook_ipv6_enabled o then ensure_family_hooks IPv6 else mret tt);
       ensure_output_chain o);
    mret actions.

Definition hooks_cleanup_with_runner : service (list string) :=
  _ ← reject_cleanup_collisions runner;
  '(_, actions) ← collecting
    (_ ← delete_output_chain;
     c ← on_fst (router_chain_status runner None);
     _ ← (if is_ready c then mret tt else _ ← delete_family_hooks IPv6; delete_family_hooks IPv4);
     delete_legacy_rule);
  mret actions.

(** ** router_ingress.rs *)
Definition validate_router (o : RouterHookOptions) : service unit :=
  λ w, (w, match Scope.validate (scope o) (router_ipv6_enabled o) with Ok _ => Ok tt | Err e => Err (error_text e) | Panic => Panic end).

Definition router_hooks_plan (o : RouterHookOptions) : service (list string) :=
  _ ← validate_router o;
  mret [
    "capture only caller-selected TCP/UDP arriving on " ++ interface (scope o) ++ " from " ++ to_string (Z.of_nat (length (ipv4_sources (scope o)))) ++ " IPv4 and "
      ++ to_string (if router_ipv6_enabled o then Z.of_nat (length (ipv6_sources (scope o))) else 0) ++ " active IPv6 CIDRs";
    "create only owned nft chain " ++ NFT_FAMILY ++ " " ++ NFT_TABLE ++ " " ++ ROUTER_CHAIN ++ " at prerouting priority " ++ DYNET_NFT_ROUTER_INGRESS_PRIORITY;
    "OR only dynet mark bit " ++ MARK_VALUE_HEX ++ "/" ++ MARK_MASK_HEX ++ "; preserve all foreign mark bits";
    "bypass local, private, link-local, multicast, non-TCP/UDP, and already dynet-marked traffic";
    "require caller-owned downstream interceptors to bypass the dynet mark"].

Definition ensure_router_chain (o : RouterHookOptions) : doing unit :=
  c ← on_fst (router_chain_status runner (Some o));
  if is_ready c then mret tt
  else
    _ ← required "nft" (add_chain_args ROUTER_CHAIN "filter" "prerouting" "-151" ROUTER_OWNER_MARKER);
    _ ← push ("created owned nft router ingress hook " ++ NFT_FAMILY ++ " " ++ NFT_TABLE ++ " " ++ ROUTER_CHAIN ++ " priority " ++ DYNET_NFT_ROUTER_INGRESS_PRIORITY);
    _ ← add_rules (router_rules o);
    push ("installed source-scoped dual-stack router capture rules preserving marks outside " ++ MARK_MASK_HEX).

Definition delete_router_chain : doing unit :=
  c ← on_fst (router_chain_status runner None);
  if negb (is_ready c) then mret tt
  else _ ← required "nft" (delete_chain_args ROUTER_CHAIN);
       push ("deleted owned nft router ingress hook " ++ NFT_FAMILY ++ " " ++ NFT_TABLE ++ " " ++ ROUTER_CHAIN).

(** The command that an action is undone with, by the beginning of its text. *)
Definition undo (action : string) : option (string * list string) :=
  if starts_with action "created owned nft router ingress hook" then Some ("nft", delete_chain_args ROUTER_CHAIN)
  else if starts_with action "created IPv6 fwmark" then Some ("ip", rule_args IPv6 "del")
  else if starts_with action "created IPv6 route table" then Some ("ip", route_args IPv6 "del")
  else if starts_with action "created IPv4 fwmark" then Some ("ip", rule_args IPv4 "del")
  else if starts_with action "created IPv4 route table" then Some ("ip", route_args IPv4 "del")
  else None.

(** The actions come last first. *)
Fixpoint undo_actions (actions : list string) : service unit :=
  match actions with
  | [] => mret tt
  | a :: r => _ ← match undo a with Some (command, args) => run_required runner command args | None => mret tt end; undo_actions r
  end.
Definition rollback_router_apply (actions : list string) : service unit := undo_actions (rev actions).

Definition install_router (o : RouterHookOptions) : doing unit :=
  _ ← ensure_family_hooks IPv4;
  _ ← (if router_ipv6_enabled o then ensure_family_hooks IPv6 else mret tt);
  ensure_router_chain o.

(** The closure, and what follows from its result. *)
Definition install_or_roll_back (o : RouterHookOptions) : service (list string) := λ w,
  let '((w1, actions), result) := install_router o (w, []) in
  match result with
  | Ok _ => (w1, Ok actions)
  | Panic => (w1, Panic)
  | Err error =>
      let '(w2, rollback) := rollback_router_apply actions w1 in
      (w2, match rollback with
           | Ok _ => Err ("router hook apply failed and rolled back newly owned artifacts: " ++ error)
           | Err e => Err ("router hook apply failed: " ++ error ++ "; rollback also failed: " ++ e)
           | Panic => Panic
           end)
  end.

Definition router_hooks_apply_with (o : RouterHookOptions) : service (list string) :=
  _ ← validate_router o;
  _ ← require_skeleton "router hook";
  i ← router_interface_status runner o;
  if negb (is_ready i) then fail ("dynet router hook apply requires its caller-selected interface: " ++ summary i)
  else
    l ← router_hooks_status_with runner (Some o);
    _ ← reject_hook_collisions l;
    install_or_roll_back o.

Definition router_hooks_cleanup_with : service (list string) :=
  router ← router_chain_status runner None;
  output ← output_chain_status runner None;
  _ ← reject_hook_collisions [router; output];
  '(_, actions) ← collecting
    (_ ← delete_router_chain;
     c ← on_fst (output_chain_status runner None);
     _ ← (if is_ready c then mret tt else _ ← delete_family_hooks IPv6; delete_family_hooks IPv4);
     delete_legacy_rule);
  mret actions.
End with_runner.

(** ** The operations on the host's own runner *)
Definition hooks_apply (service_uid : Z) : service (list string) := hooks_apply_options_with host_runner {| service_uid := service_uid; hook_ipv6_enabled := false |}.
Definition router_hooks_doctor_for (o : RouterHookOptions) : service (list TakeoverCheck) :=
  _ ← validate_router o; sequence [nft_status host_runner; router_interface_status host_runner o].
Definition router_hooks_status_for (o : RouterHookOptions) : service (list TakeoverCheck) :=
  _ ← validate_router o; router_hooks_status_with host_runner (Some o).
End hooks.
