(* ===== verification/DnsMapping.v ===== *)
(** * DnsMapping: the mapping of a DNS port of the router

    [linux/dns_mapping.rs] of [crates/dynet-capture/src]: an nft chain of its own that redirects the DNS
    traffic of the scope to the listener of dynet, applied and removed on demand only. *)
From Stdlib Require Import ZArith Lia Ascii String Strings.Byte.
From stdpp Require Import base list numbers option strings gmap.
From S2P Require Import Prelude Net RustStd Wire HostFiles Takeover ConfigData Settings TakeoverScope TakeoverHooks.
Local Open Scope string_scope.

Definition DYNET_NFT_DNS_MAPPING_PRIORITY : string := "-100".
Definition MAPPING_CHAIN : string := "dynet_dns_mapping".
Definition MAPPING_OWNER_MARKER : string := "dynet-owned: dns-mapping:v1".
Definition MARK_CLEAR_MASK_HEX : string := "0xbfffffff".

Record DnsMappingOptions := { mapping_scope : TrafficScope; source_port : Z; target : SocketAddr; mapping_ipv6_enabled : bool }.

Definition is_unspecified (a : IpAddr) : bool := match a with V4 n | V6 n => (n =? 0)%Z end.

(** [DnsMappingOptions::validate] *)
Definition validate_mapping (o : DnsMappingOptions) : load unit :=
  _ ← Scope.validate (mapping_scope o) (mapping_ipv6_enabled o);
  if (source_port o =? 0)%Z || (sa_port (target o) =? 0)%Z then Err (Text "dns mapping ports must be between 1 and 65535")
  else if (source_port o =? sa_port (target o))%Z then Err (Text "dns mapping source port must differ from the dynet DNS listener port")
  else if negb (is_unspecified (sa_ip (target o))) then Err (Text "dns mapping requires the dynet DNS listener to use an unspecified bind address")
  else if mapping_ipv6_enabled o && is_ipv4 (sa_ip (target o)) then Err (Text "IPv6 DNS mapping requires an IPv6 unspecified listener such as [::]:1053")
  else if negb (mapping_ipv6_enabled o) && negb (is_ipv4 (sa_ip (target o))) then Err (Text "IPv4-only DNS mapping requires an IPv4 unspecified listener such as 0.0.0.0:1053")
  else Ok tt.

Lemma validate_mapping_no_panic o : no_panic (validate_mapping o).
Proof.
  unfold validate_mapping. apply no_panic_bind; [apply Scope.validate_no_panic|intros _ _]. by repeat (match goal with |- context [if ?b then _ else _] => destruct b end).
Qed.

(** The families of the options with their sources, as [mapping_rules] and [mapping_is_expected] build them. *)
Definition mapping_families (o : DnsMappingOptions) : list (string * string * list string) :=
  (("ipv4", "ip", ipv4_sources (mapping_scope o))
   :: if mapping_ipv6_enabled o then [("ipv6", "ip6", ipv6_sources (mapping_scope o))] else [])%list.

Definition mapping_line (o : DnsMappingOptions) (nfproto family source protocol line : string) : bool :=
  contains ("iifname " ++ dq ++ interface (mapping_scope o) ++ dq) line
  && source_matches line family source
  && (contains ("meta nfproto " ++ nfproto) line || contains (family ++ " saddr") line)
  && contains (protocol ++ " dport " ++ to_string (source_port o)) line
  && contains ("meta mark set meta mark & " ++ MARK_CLEAR_MASK_HEX) line
  && contains ("redirect to :" ++ to_string (sa_port (target o))) line.

Definition mapping_is_expected (stdout : string) (options : option DnsMappingOptions) : bool :=
  if negb (contains MAPPING_OWNER_MARKER stdout) then false
  else match options with
  | None => true
  | Some o =>
      (contains "type nat hook prerouting priority dstnat;" stdout || contains ("type nat hook prerouting priority " ++ DYNET_NFT_DNS_MAPPING_PRIORITY ++ ";") stdout)
      && forallb (λ '(nfproto, family, sources),
           forallb (λ source, forallb (λ protocol, existsb (mapping_line o nfproto family source protocol) (lines stdout)) ["udp"; "tcp"]) sources) (mapping_families o)
      && negb (negb (mapping_ipv6_enabled o) && existsb (λ line, contains "meta nfproto ipv6" line || contains "ip6 saddr" line) (lines stdout))
  end.

Definition mapping_rule (o : DnsMappingOptions) (nfproto family source protocol : string) : list string :=
  nft_rule MAPPING_CHAIN
    ["iifname"; dq ++ interface (mapping_scope o) ++ dq; "meta"; "nfproto"; nfproto; family; "saddr"; source;
     protocol; "dport"; to_string (source_port o); "meta"; "mark"; "set"; "meta"; "mark"; "&"; MARK_CLEAR_MASK_HEX;
     "redirect"; "to"; ":" ++ to_string (sa_port (target o))].

Definition mapping_rules (o : DnsMappingOptions) : list (list string) :=
  List.concat (List.map (λ '(nfproto, family, sources),
    List.concat (List.map (λ source, [mapping_rule o nfproto family source "udp"; mapping_rule o nfproto family source "tcp"]) sources)) (mapping_families o)).

Section mapping.
Context {H : Type} (host_runner : SystemRunner H) (error_text : config_error → string).
Abbreviation service := (act (World H) string).

Definition check_mapping (o : DnsMappingOptions) : service unit :=
  λ w, (w, match validate_mapping o with Ok _ => Ok tt | Err e => Err (error_text e) | Panic => Panic end).

Definition dns_mapping_plan (o : DnsMappingOptions) : service (list string) :=
  _ ← check_mapping o;
  mret [
    "map " ++ (if mapping_ipv6_enabled o then "IPv4 and IPv6" else "IPv4 only") ++ " UDP/TCP " ++ interface (mapping_scope o) ++ ":" ++ to_string (source_port o)
      ++ " to dynet DNS port " ++ to_string (sa_port (target o));
    "leave firewall admission, DHCP, dnsmasq, UCI, and fw4 policy caller-owned";
    "create only owned nft chain " ++ NFT_FAMILY ++ " " ++ NFT_TABLE ++ " " ++ MAPPING_CHAIN ++ " at priority " ++ DYNET_NFT_DNS_MAPPING_PRIORITY;
    "never apply this mapping from service start, hooks apply, or runtime start";
    "clear only dynet mark bit " ++ MARK_MASK_HEX ++ " before redirect so policy routing remains fail-open"].

Section with_runner.
Context (runner : SystemRunner H).

Definition mapping_status (options : option DnsMappingOptions) : service TakeoverCheck :=
  output ← run runner "nft" ["list"; "chain"; NFT_FAMILY; NFT_TABLE; MAPPING_CHAIN];
  mret (chain_check "nft.chain.dns-mapping" "dynet-owned optional DNS port mapping" "explicitly apply the optional DNS mapping"
    (chain_state output (λ stdout, mapping_is_expected stdout options))).

Definition mapping_interface_status (o : DnsMappingOptions) : service TakeoverCheck :=
  output ← run runner "ip" ["link"; "show"; "dev"; interface (mapping_scope o)];
  mret (interface_check "dns-mapping.interface" "caller-selected DNS mapping interface" output).

Definition mapping_status_with (o : DnsMappingOptions) : service (list TakeoverCheck) :=
  _ ← check_mapping o; c ← mapping_status (Some o); mret [c].

(** The loop over the rules: the first that fails removes the chain again. *)
Fixpoint add_mapping_rules (rules : list (list string)) : service unit :=
  match rules with
  | [] => mret tt
  | rule :: rest => λ w,
      let '(w1, result) := run_required runner "nft" rule w in
      match result with
      | Ok _ => add_mapping_rules rest w1
      | Panic => (w1, Panic)
      | Err error =>
          let '(w2, rollback) := run_required runner "nft" (delete_chain_args MAPPING_CHAIN) w1 in
          (w2, match rollback with
               | Ok _ => Err ("dns mapping apply failed and rolled back its owned chain: " ++ error)
               | Err rollback => Err ("dns mapping apply failed: " ++ error ++ "; owned-chain rollback also failed: " ++ rollback)
               | Panic => Panic
               end)
      end
  end.

Definition mapping_apply_with_runner (o : DnsMappingOptions) : service (list string) :=
  _ ← check_mapping o;
  table ← nft_status runner;
  if negb (is_ready table) then fail ("dns mapping requires the owned dynet runtime skeleton: " ++ summary table)
  else
    i ← mapping_interface_status o;
    if negb (is_ready i) then fail ("dns mapping requires its caller-selected interface: " ++ summary i)
    else
      status ← mapping_status (Some o);
      match check_state status with
      | Ready => mret []
      | InvalidHardFail => fail ("dns mapping found a foreign or drifted chain and refuses to overwrite it: " ++ summary status)
      | MissingHardFail => fail ("dns mapping status failed: " ++ summary status)
      | MissingAutoCreatable =>
          _ ← run_required runner "nft" (add_chain_args MAPPING_CHAIN "nat" "prerouting" "-100" MAPPING_OWNER_MARKER);
          _ ← add_mapping_rules (mapping_rules o);
          mret ["created owned DNS mapping chain " ++ NFT_FAMILY ++ " " ++ NFT_TABLE ++ " " ++ MAPPING_CHAIN;
                "mapped UDP/TCP port " ++ to_string (source_port o) ++ " on " ++ interface (mapping_scope o) ++ " to dynet DNS port " ++ to_string (sa_port (target o))]
      end.

Definition mapping_cleanup_with_runner : service (list string) :=
  status ← mapping_status None;
  match check_state status with
  | MissingAutoCreatable => mret []
  | Ready =>
      _ ← run_required runner "nft" (delete_chain_args MAPPING_CHAIN);
      mret ["deleted owned DNS mapping chain " ++ NFT_FAMILY ++ " " ++ NFT_TABLE ++ " " ++ MAPPING_CHAIN]
  | InvalidHardFail => fail "dns mapping chain exists without the dynet owner marker; refusing cleanup"
  | MissingHardFail => fail "dns mapping status command failed"
  end.
End with_runner.

Definition dns_mapping_doctor_for (o : DnsMappingOptions) : service (list TakeoverCheck) :=
  _ ← check_mapping o; sequence [nft_status host_runner; mapping_interface_status host_runner o].
Definition dns_mapping_status_for (o : DnsMappingOptions) : service (list TakeoverCheck) := mapping_status_with host_runner o.
Definition dns_mapping_apply (o : DnsMappingOptions) : service (list string) := mapping_apply_with_runner host_runner o.
Definition dns_mapping_cleanup : service (list string) := mapping_cleanup_with_runner host_runner.
End mapping.
