(* ===== verification/TakeoverPolicy.v ===== *)
(** * TakeoverPolicy: what the takeover may do to the host

    The abstract specification of [crates/dynet-capture/src/linux*]: artifacts of the host, when
    they are there and when they are dynet's, and a step relation that only makes what
    is not there and only removes what is dynet's. Under it the documented behaviour of
    the commands, and the rules with which the operations are shown to follow it. *)
From Stdlib Require Import ZArith Lia Ascii String Strings.Byte Relations.
From stdpp Require Import base list numbers option strings gmap relations.
From S2P Require Import Prelude Net RustStd Wire HostFiles Takeover ConfigData Settings TakeoverScope TakeoverHooks DnsMapping.
Local Open Scope string_scope.

(** ** Artifacts *)
Inductive Artifact := Table | Chain (name : string) | Tun | Route (v : IpVersion) | Rule (v : IpVersion) | LegacyRule.
#[export] Instance IpVersion_eq_dec : EqDecision IpVersion.
Proof. solve_decision. Defined.
#[export] Instance Artifact_eq_dec : EqDecision Artifact.
Proof. solve_decision. Defined.

Definition chain_owner (name : string) : string :=
  if String.eqb name OUTPUT_CHAIN then OUTPUT_OWNER_MARKER else if String.eqb name ROUTER_CHAIN then ROUTER_OWNER_MARKER
  else if String.eqb name MAPPING_CHAIN then MAPPING_OWNER_MARKER else nft_chain_owner_marker name.

(** The command that lists an artifact, and the text of the listing that makes it dynet's. The
    interface carries no mark. *)
Definition query (a : Artifact) : string * list string :=
  match a with
  | Table => ("nft", ["list"; "table"; NFT_FAMILY; NFT_TABLE])
  | Chain c => ("nft", ["list"; "chain"; NFT_FAMILY; NFT_TABLE; c])
  | Tun => ("ip", ["link"; "show"; "dev"; TUN_INTERFACE])
  | Route v => ("ip", [flag v; "route"; "show"; "table"; ROUTE_TABLE])
  | Rule v => ("ip", [flag v; "rule"; "show"; "pref"; RULE_PRIORITY])
  | LegacyRule => ("ip", ["rule"; "show"; "pref"; LEGACY_RULE_PRIORITY])
  end.
Definition owned_text (a : Artifact) (text : string) : bool :=
  match a with
  | Table => contains NFT_TABLE_OWNER_MARKER text
  | Chain c => contains (chain_owner c) text
  | Tun => false
  | Route _ => route_is_owned text
  | Rule _ => rule_is_owned MARK_WITH_MASK text
  | LegacyRule => rule_is_owned LEGACY_MARK_HEX text
  end.

(** The commands that make and remove an artifact. A chain is made with its owner marker. *)
Definition makes (a : Artifact) (command : string) (args : list string) : Prop :=
  match a with
  | Table => command = "nft" ∧ args = ["add"; "table"; NFT_FAMILY; NFT_TABLE; "{"; "comment"; (dq ++ NFT_TABLE_OWNER_MARKER ++ dq ++ ";")%string; "}"]
  | Chain c => command = "nft" ∧ ∃ rest, args = (["add"; "chain"; NFT_FAMILY; NFT_TABLE; c; "{"] ++ rest ++ ["comment"; (dq ++ chain_owner c ++ dq ++ ";")%string; "}"])%list
  | Tun => command = "ip" ∧ args = ["tuntap"; "add"; "dev"; TUN_INTERFACE; "mode"; "tun"]
  | Route v => command = "ip" ∧ args = route_args v "add"
  | Rule v => command = "ip" ∧ args = rule_args v "add"
  | LegacyRule => False
  end.
Definition removal (a : Artifact) : string * list string :=
  match a with
  | Table => ("nft", ["delete"; "table"; NFT_FAMILY; NFT_TABLE])
  | Chain c => ("nft", delete_chain_args c)
  | Tun => ("ip", ["link"; "delete"; "dev"; TUN_INTERFACE])
  | Route v => ("ip", route_args v "del")
  | Rule v => ("ip", rule_args v "del")
  | LegacyRule => ("ip", ["rule"; "del"; "pref"; LEGACY_RULE_PRIORITY; "fwmark"; LEGACY_MARK_HEX; "lookup"; ROUTE_TABLE])
  end.

(** Commands that only list. *)
Definition is_flag (arg : string) : bool := starts_with arg "-".
Definition is_listing (command : string) (args : list string) : bool :=
  if String.eqb command "nft" then match args with a :: _ => String.eqb a "list" | [] => false end
  else String.eqb command "ip" &&
       match match args with a :: r => if is_flag a then r else args | [] => [] end with _ :: a :: _ => String.eqb a "show" | _ => false end.

Definition succeeded (r : string + CommandOutput) : bool := match r with inr o => success o | inl _ => false end.

Section policy.
Context {H : Type} `{!LinkedFiles H} (runner : SystemRunner H) (paths : LinuxTakeoverPaths).

Definition listing (a : Artifact) (m : Machine H) : string + CommandOutput := (runner (query a).1 (query a).2 m).2.

(** Something is there when the listing shows something, and it is dynet's by the text. *)
Definition present (a : Artifact) (m : Machine H) : Prop :=
  match listing a m with inr o => success o = true ∧ stdout o ≠ "" | inl _ => False end.
Definition ours (a : Artifact) (m : Machine H) : Prop :=
  ∃ o, listing a m = inr o ∧ success o = true ∧ owned_text a (stdout o) = true.

(** The interface is known by its name, and that it is up. *)
Definition tun_up (m : Machine H) : Prop :=
  ∃ o, (runner "ip" ["-br"; "link"; "show"; "dev"; TUN_INTERFACE; "up"] m).2 = inr o ∧ success o = true ∧ stdout o ≠ "".

(** *** Files *)
Definition text_at (m : Machine H) (k : FileKey) : option string :=
  match files m !! k with
  | Some (Regular content _) => Some content
  | Some (Special _) => match linked_read k m with inr content => Some content | inl _ => None end
  | _ => None
  end.
Definition owned_file (k : FileKey) (m : Machine H) : Prop := ∃ content, text_at m k = Some content ∧ contains OWNER_MARKER content = true.
Definition vacant (k : FileKey) (m : Machine H) : Prop := files m !! k = None ∨ files m !! k = Some (Special ToNothing).
Definition fragments : list FileKey := [key (sysctl_fragment paths); key (rt_tables_fragment paths)].
(** The directories of the two files, and what is above them. *)
Definition carrier (k : FileKey) : Prop := ∃ d, d ∈ [key (sysctl_dir paths); key (rt_tables_dir paths)] ∧ k.1 = d.1 ∧ k.2 `prefix_of` d.2.

(** ** The policy

    A state is the machine and the artifacts that the running operation has made. [blind] holds
    when a call on a file can fail: then an existing file can be taken for none, and a
    fragment is written without its marker having been seen. *)
Context (blind : Prop).
Abbreviation PolicyState := (Machine H * list Artifact)%type.

Inductive step : PolicyState → PolicyState → Prop :=
  | step_make a command args m m' r C : makes a command args → ¬ present a m → runner command args m = (m', r) →
      step (m, C) (m', if succeeded r then a :: C else C)
  | step_fill c rule m m' r C : Chain c ∈ C → runner "nft" (nft_rule c rule) m = (m', r) → step (m, C) (m', C)
  | step_remove a m m' r C : ours a m ∨ a ∈ C → runner (removal a).1 (removal a).2 m = (m', r) → step (m, C) (m', C)
  | step_remove_tun m m' r C : tun_up m → runner (removal Tun).1 (removal Tun).2 m = (m', r) → step (m, C) (m', C)
  | step_up m m' r C : runner "ip" ["link"; "set"; "dev"; TUN_INTERFACE; "up"] m = (m', r) → step (m, C) (m', C)
  | step_sysctl m m' r C : runner "sysctl" ["-p"; sysctl_fragment paths] m = (m', r) → step (m, C) (m', C)
  | step_directory k m C : carrier k → files m !! k = None → step (m, C) (mk_machine (<[k := Directory]> (files m)) (host m), C)
  | step_write k content mode m C : k ∈ fragments → (vacant k m ∨ owned_file k m ∨ blind) →
      step (m, C) (mk_machine (<[k := Regular content mode]> (files m)) (host m), C)
  | step_write_linked k content m m' r C : k ∈ fragments → (vacant k m ∨ owned_file k m ∨ blind) →
      linked_write k content m = (m', r) → step (m, C) (m', C)
  | step_delete k m C : k ∈ fragments → owned_file k m → step (m, C) (mk_machine (delete k (files m)) (host m), C).

Definition reaches (m0 m : Machine H) (C : list Artifact) : Prop := rtc step (m0, []) (m, C).

(** ** Documented behaviour of the commands

    Listing changes nothing. The artifacts behind the hooks do not show in each other's
    listings. A command that fails leaves the listing of its artifact, and what was removed is
    not there. *)
Definition hook (a : Artifact) : Prop := match a with Route _ | Rule _ => True | Chain c => c = OUTPUT_CHAIN ∨ c = ROUTER_CHAIN | _ => False end.

Class CommandLaws : Prop := {
  list_pure command args m : is_listing command args = true → (runner command args m).1 = m;
  make_local a b command args m m' r : hook a → hook b → makes a command args → runner command args m = (m', r) →
    a ≠ b ∨ succeeded r = false → listing b m' = listing b m;
  fill_local c b rule m m' r : hook b → b ≠ Chain c → runner "nft" (nft_rule c rule) m = (m', r) → listing b m' = listing b m;
  remove_local a b m m' r : hook a → hook b → a ≠ b → runner (removal a).1 (removal a).2 m = (m', r) → listing b m' = listing b m;
  remove_removes a m m' r : hook a → runner (removal a).1 (removal a).2 m = (m', r) → succeeded r = true → ¬ present a m' }.
End policy.
