(* ===== verification/TakeoverSafety.v ===== *)
(** * TakeoverSafety: the takeover follows its policy

    Every operation of Takeover, TakeoverHooks and DnsMapping against the policy of TakeoverPolicy: they
    only make what is not there and remove what is dynet's; a router hook that fails is
    rolled back to what was there; applying hooks that are ready changes nothing. *)
From Stdlib Require Import ZArith Lia Ascii String Strings.Byte Relations.
From stdpp Require Import base list numbers option strings gmap relations.
From S2P Require Import Prelude Net RustStd Wire HostFiles Takeover ConfigData Settings TakeoverScope TakeoverHooks DnsMapping TakeoverPolicy.
Local Open Scope string_scope.

(** ** Looking at the host *)
Section looking.
Context {H : Type} `{!LinkedFiles H}.

(** The machine is as it was, and fewer calls are left to fail. *)
Definition looked (w w' : World H) : Prop := machine w' = machine w ∧ ∃ l, faults w = (l ++ faults w')%list.
#[export] Instance looked_pre : PreOrder looked.
Proof.
  split; [intros w; split; [done|by exists []]|]. intros a b c [Hab [l Hl]] [Hbc [l' Hl']]. split; [congruence|].
  exists (l ++ l')%list. by rewrite Hl, Hl', <- app_assoc.
Qed.

Lemma next_fault_looked w : ∃ f w', next_fault w = (w', Ok f) ∧ looked w w' ∧ (∀ x, f = Some x → Some x ∈ faults w).
Proof.
  unfold next_fault. destruct (faults w) as [|f r] eqn:E; eexists _, _; (split; [reflexivity|]).
  - split; [reflexivity|done].
  - split; [split; [done|exists [f]; cbn; by rewrite E]|]. intros x ->. by left.
Qed.

Lemma is_dir_looked k : obeys looked (is_dir k : act (World H) string bool).
Proof. intros w w' r. destruct (next_fault_looked w) as (f & w1 & E & Hl & _). unfold is_dir. rewrite (act_bind_ok _ _ _ _ _ E). intros [= <- <-]. done. Qed.

Lemma is_file_looked k : obeys looked (is_file k : act (World H) string bool).
Proof. intros w w' r. destruct (next_fault_looked w) as (f & w1 & E & Hl & _). unfold is_file. rewrite (act_bind_ok _ _ _ _ _ E). intros [= <- <-]. done. Qed.

Lemma path_exists_spec k w w' r : path_exists k w = (w', r) → looked w w' ∧ ∃ b, r = Ok b ∧ (b = false → vacant k (machine w) ∨ ∃ x, Some x ∈ faults w).
Proof.
  destruct (next_fault_looked w) as (f & w1 & E & Hl & Hf). unfold path_exists. rewrite (act_bind_ok _ _ _ _ _ E). intros [= <- <-]. split; [done|].
  eexists. split; [done|]. destruct f as [x|]; [intros _; right; exists x; by apply Hf|]. destruct Hl as [Hm _]. unfold tree, vacant. rewrite Hm.
  destruct (files (machine w) !! k) as [[]|]; try destruct to; try done; auto.
Qed.

Lemma path_exists_looked k : obeys looked (path_exists k : act (World H) string bool).
Proof. intros w w' r (Hl & b & -> & _)%path_exists_spec. done. Qed.

Lemma read_to_string_spec k w w' r : read_to_string k w = (w', r) → looked w w' ∧ ∃ x, r = Ok x ∧ (∀ c, x = Content c → text_at (machine w) k = Some c).
Proof.
  destruct (next_fault_looked w) as (f & w1 & E & Hl & Hf). unfold read_to_string. rewrite (act_bind_ok _ _ _ _ _ E). intros [= <- <-]. split; [done|].
  eexists. split; [done|]. intros c. destruct f as [x|]; [done|]. destruct Hl as [Hm _]. unfold tree, text_at, read_text. rewrite Hm.
  destruct (files (machine w) !! k) as [[]|]; try destruct to; try done.
  all: try (destruct (linked_read k (machine w)); [done|]). all: destruct (utf8_valid _); [congruence|done].
Qed.

Lemma sequence_obeys {A} (l : list (act (World H) string A)) : Forall (obeys looked) l → obeys looked (sequence l).
Proof.
  induction 1 as [|m l Hm _ IH]; cbn [sequence]; [apply obeys_ret, _|].
  apply obeys_bind; [apply _|done|intros a]. apply obeys_bind; [apply _|done|intros r]. apply obeys_ret, _.
Qed.

(** *** Writing *)
Lemma fs_call_spec {A} describe (m : act (World H) string A) w w' r : fs_call describe m w = (w', r) →
  (looked w w' ∧ ∃ e, r = Err e) ∨ ∃ w1, looked w w1 ∧ m w1 = (w', r).
Proof.
  destruct (next_fault_looked w) as (f & w1 & E & Hl & _). unfold fs_call. rewrite (act_bind_ok _ _ _ _ _ E).
  destruct f as [x|]; [intros [= <- <-]; left; eauto|]. right. eauto.
Qed.

(** What a file operation may leave: the machine as it was, or changed by [f]. *)
Definition changed (Q : Machine H → Machine H → Prop) (w w' : World H) : Prop :=
  (machine w' = machine w ∨ Q (machine w) (machine w')) ∧ ∃ l, faults w = (l ++ faults w')%list.

Lemma changed_looked (Q : Machine H → Machine H → Prop) w w1 w' : looked w w1 → changed Q w1 w' → changed Q w w'.
Proof. intros [Hm [l Hl]] [Hc [l' Hl']]. split; [by rewrite <- Hm|]. exists (l ++ l')%list. by rewrite Hl, Hl', <- app_assoc. Qed.

Definition file_written (k : FileKey) (m m' : Machine H) : Prop :=
  (∃ content mode, m' = mk_machine (<[k := Regular content mode]> (files m)) (host m)) ∨ ∃ content r, linked_write k content m = (m', r).

Lemma write_body_spec describe k content mode w w' r : write_body describe k content mode w = (w', r) → changed (file_written k) w w' ∧ no_panic r.
Proof.
  unfold write_body, put, modify, mbind, act_bind, next_fault. cbn [faults set_tree machine].
  destruct (faults w) as [|[x|] fs] eqn:Ef; intros [= <- <-]; (split; [|done]); unfold changed; cbn [machine faults set_tree files host]; rewrite Ef;
    (split; [right; left; eexists _, mode; unfold tree; cbn; by rewrite insert_insert_eq|]).
  - by exists [].
  - by exists [Some x].
  - by exists [None].
Qed.

Lemma changed_refl Q w : changed Q w w.
Proof. split; [by left|by exists []]. Qed.

Lemma fs_write_spec mode describe k content w w' r : fs_write mode describe k content w = (w', r) → changed (file_written k) w w' ∧ no_panic r.
Proof.
  intros [[[Hm Hl] [e ->]]|(w1 & Hl & Hw)]%fs_call_spec; [split; [split; [by left|done]|done]|].
  unfold mbind at 1, act_bind, get in Hw. assert (changed (file_written k) w1 w' ∧ no_panic r) as [Hc Hn]; [|split; [by eapply changed_looked|done]].
  destruct (tree w1 !! k) as [[c md| |to]|].
  - by eapply write_body_spec.
  - injection Hw as <- <-. split; [apply changed_refl|done].
  - destruct to; try (injection Hw as <- <-; split; [apply changed_refl|done]).
    all: destruct (linked_write k content (machine w1)) as [m' o] eqn:E; injection Hw as <- <-; split; [|by destruct o]; split; [right; right; by exists content, o|by exists []].
  - destruct (node_above (tree w1) k) as [[| |[]]|]; try (injection Hw as <- <-; split; [apply changed_refl|done]). all: by eapply write_body_spec.
Qed.

Definition directory_made (k : FileKey) (m m' : Machine H) : Prop := files m !! k = None ∧ m' = mk_machine (<[k := Directory]> (files m)) (host m).

Lemma mkdir_spec k w w' r : mkdir k w = (w', r) → changed (directory_made k) w w' ∧ ∃ x, r = Ok x.
Proof.
  destruct (next_fault_looked w) as (f & w1 & E & Hl & Hf). unfold mkdir. rewrite (act_bind_ok _ _ _ _ _ E). unfold mbind at 1, act_bind, get.
  assert (changed (directory_made k) w w1) as Hc by (eapply changed_looked; [done|apply changed_refl]).
  destruct f as [x|]; [intros [= <- <-]; eauto|]. destruct (tree w1 !! k) eqn:Ek; [intros [= <- <-]; eauto|].
  destruct (node_above (tree w1) k) as [[| |[]]|]; intros [= <- <-]; (split; [|eauto]); try exact Hc.
  all: eapply changed_looked; [done|]; split; [by right|by exists []].
Qed.

Lemma remove_file_changed k describe w w' r : remove_file k describe w = (w', r) →
  changed (λ m m', m' = mk_machine (delete k (files m)) (host m)) w w' ∧ no_panic r.
Proof.
  intros [[[Hm Hl] [e ->]]|(w1 & Hl & Hw)]%fs_call_spec; [split; [split; [by left|done]|done]|].
  unfold mbind, act_bind, get in Hw.
  assert (changed (λ m m', m' = mk_machine (delete k (files m)) (host m)) w1 w' ∧ no_panic r) as [Hc Hn]; [|split; [by eapply changed_looked|done]].
  destruct (tree w1 !! k) as [[]|]; injection Hw as <- <-; (split; [|done]); try apply changed_refl. all: split; [by right|by exists []].
Qed.
End looking.

(** ** Rules *)
Section rules.
Context {H : Type} `{!LinkedFiles H} (runner : SystemRunner H) (paths : LinuxTakeoverPaths) (blind : Prop).
Context `{!CommandLaws runner}.
Context (creation_mode : Z) (m0 : Machine H).
Abbreviation service := (act (World H) string).
Abbreviation doing := (act (World H * list string) string).
Abbreviation step := (step runner paths blind).
Abbreviation reaches := (reaches runner paths blind m0).

(** The host follows the policy from [m0], and a call that can fail makes the operation [blind]. *)
Definition good (w : World H) : Prop := (∃ C, reaches (machine w) C) ∧ ∀ x, Some x ∈ faults w → blind.

Lemma good_extend w w' : good w → (∀ C, ∃ C', rtc step (machine w, C) (machine w', C')) → (∃ l, faults w = (l ++ faults w')%list) → good w'.
Proof.
  intros [[C HC] Hf] Hs [l Hl]. destruct (Hs C) as [C' Hs']. split; [exists C'; unfold TakeoverPolicy.reaches in *; by etransitivity|].
  intros x Hx. apply (Hf x). rewrite Hl. set_solver.
Qed.

Lemma good_looked w w' : looked w w' → good w → good w'.
Proof. intros [Hm Hl] Hg. apply (good_extend w); [done| |done]. intros C. exists C. by rewrite Hm. Qed.

Lemma good_changed Q w w' : changed Q w w' → (∀ m m' C, Q m m' → m = machine w → ∃ C', step (m, C) (m', C')) → good w → good w'.
Proof.
  intros [[Hm|Hq] Hl] Hs Hg; apply (good_extend w); try done; intros C; [exists C; by rewrite Hm|].
  destruct (Hs _ _ C Hq eq_refl) as [C' Hc]. exists C'. by apply rtc_once.
Qed.

(** *** Triples about the world and what was pushed *)
Lemma triple_looks {A B} (m : service A) (f : A → service B) (Q : B → World H → Prop) :
  obeys looked m → (∀ a, triple good (f a) Q good) → triple good (m ≫= f) Q good.
Proof.
  intros Hm Hf. apply (triple_bind _ _ _ _ (λ _, good)); [|done]. intros w w' r Hg Hw. destruct (Hm _ _ _ Hw) as [Hl Hn].
  destruct r; [by eapply good_looked|by eapply good_looked|done].
Qed.

Lemma triple_on_fst {A} (m : service A) (P X : World H → Prop) (Q : A → World H → Prop) :
  triple P m Q X → triple (λ s, P s.1) (on_fst m : doing A) (λ a s, Q a s.1) (λ s, X s.1).
Proof. intros Hm [w l] s' r Hs. unfold on_fst. destruct (m w) as [w1 r1] eqn:E. intros [= <- <-]. exact (Hm _ _ _ Hs E). Qed.

Lemma triple_push t (P X : World H → Prop) : triple (λ s, P s.1) (push t : doing unit) (λ _ s, P s.1) (λ s, X s.1).
Proof. by apply triple_modify. Qed.

Lemma triple_collecting {A} (m : doing A) (P Q X : World H → Prop) :
  triple (λ s, P s.1) m (λ _ s, Q s.1) (λ s, X s.1) → triple P (collecting m) (λ _, Q) X.
Proof. intros Hm w w' r Hw. unfold collecting. destruct (m (w, [])) as [[w1 l] r1] eqn:E. intros [= <- <-]. specialize (Hm (w, []) _ _ Hw E). by destruct r1. Qed.

(** *** Commands *)
Lemma run_spec command args w : ∃ m' o, runner command args (machine w) = (m', o) ∧ run runner command args w = (mk_world m' (faults w), Ok o).
Proof. unfold run. destruct (runner command args (machine w)) as [m' o] eqn:E. eauto. Qed.

Lemma run_listing command args w : is_listing command args = true → run runner command args w = (w, Ok (runner command args (machine w)).2).
Proof.
  intros Hl. pose proof (list_pure runner command args (machine w) Hl) as Hp. unfold run. destruct (runner command args (machine w)) as [m' o]. cbn in Hp. subst m'. by destruct w.
Qed.

Lemma run_required_spec command args w w' r : run_required runner command args w = (w', r) →
  faults w' = faults w ∧ ∃ o, runner command args (machine w) = (machine w', o) ∧ ((r = Ok tt ∧ succeeded o = true) ∨ ((∃ e, r = Err e) ∧ succeeded o = false)).
Proof.
  destruct (run_spec command args w) as (m' & o & E & E'). unfold run_required. rewrite (act_bind_ok _ _ _ _ _ E'), E.
  destruct o as [e|o]; [|destruct (success o) eqn:Es]; intros [= <- <-]; split; try done; eexists; (split; [reflexivity|]); cbn; eauto.
Qed.

(** A command whose every outcome is a step. *)
Lemma triple_command command args w :
  good w → (∀ m' o C, runner command args (machine w) = (m', o) → ∃ C', step (machine w, C) (m', C')) →
  triple (λ x, x = w) (run_required runner command args) (λ _, good) good.
Proof.
  intros Hg Hs x w' r -> (Hf & o & E & Hr)%run_required_spec.
  assert (good w') as Hg'.
  { apply (good_extend w); [done| |exists []; by rewrite Hf]. intros C. destruct (Hs _ _ C E) as [C' Hc]. exists C'. by apply rtc_once. }
  destruct Hr as [[-> _]|[[e ->] _]]; done.
Qed.

(** *** Checks *)
Ltac by_listing := intros; unfold tun_status, tun_exists_status, nft_status, nft_chain_status, tuntap_capability_check; erewrite act_bind_ok; [|apply run_listing; reflexivity]; reflexivity.

Lemma tun_status_eq w : ∃ g, tun_status runner w = (w, Ok g) ∧ (is_ready g = true → tun_up runner (machine w)).
Proof.
  eexists. split; [by by_listing|]. unfold is_ready, state_is. intros Hr%bool_decide_eq_true. revert Hr. cbn. unfold tun_up.
  destruct (runner "ip" _ _).2 as [e|o]; [done|]. destruct (success o) eqn:Es, (is_empty (stdout o)) eqn:Ee; try done. intros _. exists o. split; [done|]. split; [done|].
  intros Hn. by rewrite Hn in Ee.
Qed.

Lemma tun_exists_status_eq w : ∃ g, tun_exists_status runner w = (w, Ok g) ∧ (is_ready g = false → ¬ present runner Tun (machine w)).
Proof.
  eexists. split; [by by_listing|]. unfold is_ready, state_is. intros Hr%bool_decide_eq_false. revert Hr. cbn. unfold present, listing. cbn [query fst snd].
  destruct (runner "ip" _ _).2 as [e|o]; [by intros _ []|]. destruct (success o); [done|by intros _ []].
Qed.

(** What [owned_nft_check] finds. *)
Lemma owned_nft_check_spec id label a m marker action : (∀ t, owned_text a t = contains marker t) → a ≠ Tun →
  let g := owned_nft_check id label (listing runner a m) marker action in
  (is_ready g = true → ours runner a m) ∧ (is_ready g = false → state_is InvalidHardFail g = false → ¬ present runner a m).
Proof.
  intros Ht Hn. unfold is_ready, state_is, ours, present. cbn. destruct (listing runner a m) as [e|o]; cbn; [split; [done|by intros _ _ []]|].
  destruct (success o) eqn:Es; [|split; [done|by intros _ _ []]]. destruct (contains marker (stdout o)) eqn:Ec; [|done]. split; [|done].
  intros _. destruct a; try done; exists o; (split; [done|]; split; [done|]); by rewrite Ht.
Qed.

Lemma nft_status_eq w : ∃ g, nft_status runner w = (w, Ok g) ∧
  (is_ready g = true → ours runner Table (machine w)) ∧ (is_ready g = false → state_is InvalidHardFail g = false → ¬ present runner Table (machine w)).
Proof. eexists. split; [by by_listing|]. by apply (owned_nft_check_spec _ _ Table). Qed.

Lemma nft_chain_status_eq chain w : chain ∈ NFT_CHAINS → ∃ g, nft_chain_status runner chain w = (w, Ok g) ∧
  (is_ready g = false → state_is InvalidHardFail g = false → ¬ present runner (Chain chain) (machine w)).
Proof.
  intros Hc. eexists. split; [by by_listing|]. apply (owned_nft_check_spec _ _ (Chain chain)); [|done]. intros t. cbn [owned_text]. f_equal.
  unfold NFT_CHAINS in Hc. set_unfold in Hc. by destruct Hc as [->|[->|[->|[->|[]]]]].
Qed.

(** *** The skeleton *)
Abbreviation kept m := (triple (λ s : World H * list string, good s.1) m (λ _ s, good s.1) (λ s, good s.1)).

Lemma kept_ret : kept (mret tt : doing unit).
Proof. by apply triple_ret. Qed.

Lemma kept_bind {A B} (m : doing A) (f : A → doing B) : kept m → (∀ a, kept (f a)) → kept (m ≫= f).
Proof. intros Hm Hf. by apply (triple_bind _ _ _ _ (λ _ s, good s.1)). Qed.

(** State by state: looking, and a required command with what is pushed behind it. *)
Lemma kept_at {A} (m : doing A) : (∀ w l, good w → triple (λ x, x = (w, l)) m (λ _ s, good s.1) (λ s, good s.1)) → kept m.
Proof. intros Hm. apply triple_at. intros [w l] Hg. by apply Hm. Qed.

Lemma kept_for {A} (m : doing A) w l : good w → kept m → triple (λ x, x = (w, l)) m (λ _ s, good s.1) (λ s, good s.1).
Proof. intros Hg Hm. eapply triple_conseq; [exact Hm| |done|done]. by intros s ->. Qed.

Lemma look {B} (m : service TakeoverCheck) (f : TakeoverCheck → doing B) w l g Q X :
  m w = (w, Ok g) → triple (λ x, x = (w, l)) (f g) Q X → triple (λ x, x = (w, l)) (on_fst m ≫= f) Q X.
Proof. intros Hm. apply triple_run. unfold on_fst. by rewrite Hm. Qed.

Lemma command_pushes command args t w l :
  good w → (∀ m' o C, runner command args (machine w) = (m', o) → ∃ C', step (machine w, C) (m', C')) →
  triple (λ x, x = (w, l)) (_ ← on_fst (run_required runner command args); push t : doing unit) (λ _ s, good s.1) (λ s, good s.1).
Proof.
  intros Hg Hs. apply (triple_bind _ _ _ _ (λ _ s, good s.1)); [|intros _; apply triple_push].
  eapply triple_conseq; [apply (triple_on_fst _ (λ x, x = w) good (λ _, good)); by apply triple_command|by intros s ->|done|done].
Qed.

Lemma make_step a command args m m' o C : makes a command args → ¬ present runner a m → runner command args m = (m', o) → ∃ C', step (m, C) (m', C').
Proof. intros Hm Hp E. eexists. by apply (step_make _ _ _ a command args). Qed.

Lemma ensure_tun_kept : kept (ensure_tun runner).
Proof.
  apply kept_at. intros w l Hg. unfold ensure_tun. destruct (tun_status_eq w) as (c & E & _). apply (look _ _ _ _ c); [done|].
  destruct (is_ready c); [by apply kept_for, kept_ret|]. destruct (tun_exists_status_eq w) as (x & Ex & Hx). apply (look _ _ _ _ x); [done|].
  apply (triple_bind _ _ _ _ (λ _ s, good s.1)).
  - destruct (is_ready x); [by apply kept_for, kept_ret|]. apply command_pushes; [done|]. intros m' o C Er. by apply (make_step Tun _ _ _ _ _ _ (conj eq_refl eq_refl) (Hx eq_refl) Er).
  - intros _. apply kept_at. intros w1 l1 Hg1. apply command_pushes; [done|]. intros m' o C Er. eexists. by eapply step_up.
Qed.

Lemma ensure_sysctl_loaded_kept : kept (ensure_sysctl_loaded paths runner).
Proof. apply kept_at. intros w l Hg. apply command_pushes; [done|]. intros m' o C Er. eexists. by eapply step_sysctl. Qed.

Lemma ensure_nft_table_kept : kept (ensure_nft_table runner).
Proof.
  apply kept_at. intros w l Hg. unfold ensure_nft_table. destruct (nft_status_eq w) as (c & E & _ & Hn). apply (look _ _ _ _ c); [done|].
  destruct (is_ready c); [by apply kept_for, kept_ret|]. apply (look _ _ _ _ c); [done|].
  destruct (state_is InvalidHardFail c); [by apply triple_fail; intros s ->|]. apply command_pushes; [done|]. intros m' o C Er.
  by apply (make_step Table _ _ _ _ _ _ (conj eq_refl eq_refl) (Hn eq_refl eq_refl) Er).
Qed.

Lemma ensure_nft_chain_kept chain : chain ∈ NFT_CHAINS → kept (ensure_nft_chain runner chain).
Proof.
  intros Hc. apply kept_at. intros w l Hg. unfold ensure_nft_chain. destruct (nft_chain_status_eq chain w Hc) as (c & E & Hn). apply (look _ _ _ _ c); [done|].
  destruct (is_ready c); [by apply kept_for, kept_ret|]. apply (look _ _ _ _ c); [done|].
  destruct (state_is InvalidHardFail c); [by apply triple_fail; intros s ->|]. apply command_pushes; [done|]. intros m' o C Er.
  refine (make_step (Chain chain) _ _ _ _ _ _ _ (Hn eq_refl eq_refl) Er). split; [done|]. exists []. cbn [app]. do 9 f_equal.
  unfold NFT_CHAINS in Hc. set_unfold in Hc. by destruct Hc as [->|[->|[->|[->|[]]]]].
Qed.

Lemma each_kept {A} (body : A → doing unit) (l : list A) : (∀ a, a ∈ l → kept (body a)) → kept (each body l).
Proof.
  induction l as [|a l IH]; intros Hb; [apply kept_ret|]. cbn [each]. apply kept_bind; [apply Hb; by left|]. intros _. apply IH. intros x Hx. apply Hb. by right.
Qed.

Lemma ensure_skeleton_kept : kept (ensure_skeleton paths runner).
Proof.
  unfold ensure_skeleton. apply kept_bind; [apply ensure_tun_kept|intros _]. apply kept_bind; [apply ensure_sysctl_loaded_kept|intros _].
  apply kept_bind; [apply ensure_nft_table_kept|intros _]. apply each_kept. apply ensure_nft_chain_kept.
Qed.

Lemma delete_tun_kept : kept (delete_tun runner).
Proof.
  apply kept_at. intros w l Hg. unfold delete_tun. destruct (tun_status_eq w) as (c & E & Ho). apply (look _ _ _ _ c); [done|].
  destruct (is_ready c); [|by apply kept_for, kept_ret]. apply command_pushes; [done|]. intros m' o C Er. exists C. apply (step_remove_tun _ _ _ _ _ o); [|done]. by apply Ho.
Qed.

Lemma delete_nft_table_kept : kept (delete_nft_table runner).
Proof.
  apply kept_at. intros w l Hg. unfold delete_nft_table. destruct (nft_status_eq w) as (c & E & Ho & _). apply (look _ _ _ _ c); [done|].
  destruct (is_ready c); cbn [negb].
  - apply command_pushes; [done|]. intros m' o C Er. exists C. apply (step_remove _ _ _ Table _ _ o); [|done]. left. by apply Ho.
  - apply (look _ _ _ _ c); [done|]. destruct (state_is InvalidHardFail c); [by apply triple_fail; intros s ->|by apply kept_for, kept_ret].
Qed.

(** *** Files *)
Lemma good_fault w x : good w → Some x ∈ faults w → blind.
Proof. intros [_ Hf]. apply Hf. Qed.

Lemma triple_changed {A} (m : service A) Q w : good w → (∀ w' r, m w = (w', r) → changed Q w w' ∧ no_panic r) →
  (∀ m' C, Q (machine w) m' → ∃ C', step (machine w, C) (m', C')) → triple (λ x, x = w) m (λ _, good) good.
Proof.
  intros Hg Hm Hs x w' r -> Hw. destruct (Hm _ _ Hw) as [Hc Hn]. assert (good w') by (eapply good_changed; [done| |done]; intros a b C Hq ->; by apply Hs).
  by destruct r.
Qed.

Lemma kept_changes {A} (m : service A) Q w l : good w → (∀ w' r, m w = (w', r) → changed Q w w' ∧ no_panic r) →
  (∀ m' C, Q (machine w) m' → ∃ C', step (machine w, C) (m', C')) → triple (λ x, x = (w, l)) (on_fst m : doing A) (λ _ s, good s.1) (λ s, good s.1).
Proof.
  intros Hg Hm Hs. eapply triple_conseq; [apply (triple_on_fst _ (λ x, x = w) good (λ _, good)); by eapply triple_changed|by intros s ->|done|done].
Qed.

Lemma kept_looked {A} (m : service A) : obeys looked m → kept (on_fst m : doing A).
Proof.
  intros Hm. apply (triple_on_fst _ _ _ (λ _, good)). intros w w' r Hg Hw. destruct (Hm _ _ _ Hw) as [Hl Hn]. destruct r; [by eapply good_looked|by eapply good_looked|done].
Qed.

Lemma create_dirs_kept describe absolute rcs : carrier paths (absolute, rev rcs) → triple good (create_dirs describe absolute rcs : service unit) (λ _, good) good.
Proof.
  intros Hd. assert (∀ k, carrier paths k → triple good (mkdir k : service _) (λ _, good) good) as Hk.
  { intros k Hc. apply triple_at. intros w Hg. apply (triple_changed _ (directory_made k)); [done| |].
    - intros w' r [Hm [x ->]]%mkdir_spec. done.
    - intros m' C (Hk & ->). exists C. by apply step_directory. }
  assert (∀ k e, triple good (b ← is_dir k; if b : bool then mret tt else fail (describe (default not_found e)) : service unit) (λ _, good) good) as Ha.
  { intros k e. apply triple_looks; [apply is_dir_looked|]. intros b. destruct b; [by apply triple_ret|by apply triple_fail]. }
  induction rcs as [|c rcs IH]; cbn [create_dirs]; [by apply triple_ret|]. cbv zeta.
  assert (carrier paths (absolute, rev rcs)) as Hup.
  { destruct Hd as (d & Hd & H1 & [z H2]). exists d. split; [done|]. split; [done|]. cbn [fst snd rev] in *. exists (c :: z). by rewrite H2, <- app_assoc. }
  apply (triple_bind _ _ _ _ (λ _, good)); [by apply Hk|]. intros [[e|]|[]]; [apply Ha| |by apply triple_ret].
  apply (triple_bind _ _ _ _ (λ _, good)); [by apply IH|intros _]. apply (triple_bind _ _ _ _ (λ _, good)); [by apply Hk|]. intros [e|[]]; [apply Ha|by apply triple_ret].
Qed.

Lemma kept_push t : kept (push t).
Proof. by apply triple_push. Qed.

Lemma ensure_directory_kept path : path ∈ [sysctl_dir paths; rt_tables_dir paths] → kept (ensure_directory path).
Proof.
  intros Hp. unfold ensure_directory. apply kept_bind; [apply kept_looked, is_dir_looked|]. intros [|]; [apply kept_ret|].
  apply kept_bind; [apply kept_looked, path_exists_looked|]. intros [|]; [by apply triple_fail|].
  apply kept_bind; [|intros _; apply kept_push]. apply (triple_on_fst _ _ _ (λ _, good)), create_dirs_kept. rewrite rev_involutive.
  exists (key path). split; [|by split]. set_unfold in Hp. destruct Hp as [->|[->|[]]]; set_solver.
Qed.

Lemma write_fragment_kept path content w l : key path ∈ fragments paths → good w →
  vacant (key path) (machine w) ∨ owned_file (key path) (machine w) ∨ blind →
  triple (λ x, x = (w, l)) (write_fragment creation_mode path content) (λ _ s, good s.1) (λ s, good s.1).
Proof.
  intros Hk Hg Ho. unfold write_fragment. apply (triple_bind _ _ _ _ (λ _ s, good s.1)); [|intros _; apply kept_push].
  apply (kept_changes _ (file_written (key path))); [done|intros w' r; apply fs_write_spec|].
  intros m' C [(c & mode & ->)|(c & r & E)]; exists C; [by apply step_write|by eapply step_write_linked].
Qed.

Lemma ensure_fragment_kept path content : key path ∈ fragments paths → kept (ensure_fragment creation_mode path content).
Proof.
  intros Hk. apply kept_at. intros w l Hg. unfold ensure_fragment.
  destruct (path_exists (key path) w) as [w1 r1] eqn:E1. apply path_exists_spec in E1 as E1'. destruct E1' as (Hl1 & b & -> & Hb).
  apply (triple_run _ _ _ _ _ (w1, l) b); [unfold on_fst; by rewrite E1|]. assert (good w1) as Hg1 by (by eapply good_looked). destruct Hl1 as [Hm1 _]. destruct b.
  - destruct (read_to_string (key path) w1) as [w2 r2] eqn:E2. apply read_to_string_spec in E2 as E2'. destruct E2' as (Hl2 & x & -> & Hx).
    apply (triple_run _ _ _ _ _ (w2, l) x); [unfold on_fst; by rewrite E2|]. assert (good w2) as Hg2 by (by eapply good_looked). destruct Hl2 as [Hm2 _].
    destruct x as [existing| |e]; [|by apply triple_fail; intros s ->..]. destruct (contains OWNER_MARKER existing) eqn:Ec; cbn [negb]; [|by apply triple_fail; intros s ->].
    destruct (String.eqb existing content); [by apply kept_for, kept_ret|]. apply write_fragment_kept; [done|done|]. right. left. exists existing. rewrite Hm2. by auto.
  - apply write_fragment_kept; [done|done|]. rewrite Hm1. destruct (Hb eq_refl) as [Hv|[x Hx]]; [by left|]. right. right. by apply (good_fault w x).
Qed.

Lemma remove_owned_fragment_kept path : key path ∈ fragments paths → kept (remove_owned_fragment path).
Proof.
  intros Hk. apply kept_at. intros w l Hg. unfold remove_owned_fragment.
  destruct (read_to_string (key path) w) as [w2 r2] eqn:E2. apply read_to_string_spec in E2 as E2'. destruct E2' as (Hl2 & x & -> & Hx).
  apply (triple_run _ _ _ _ _ (w2, l) x); [unfold on_fst; by rewrite E2|]. assert (good w2) as Hg2 by (by eapply good_looked). destruct Hl2 as [Hm2 _].
  destruct x as [content| |e]; [|by apply kept_for, kept_ret|by apply triple_fail; intros s ->].
  destruct (contains OWNER_MARKER content) eqn:Ec; [|by apply triple_fail; intros s ->].
  apply (triple_bind _ _ _ _ (λ _ s, good s.1)); [|intros _; apply kept_push].
  eapply (kept_changes _ (λ m m', m' = _)); [done|intros w' r; apply remove_file_changed|]. intros m' C ->. exists C. apply step_delete; [done|]. exists content. rewrite Hm2. by auto.
Qed.

Lemma ensure_files_kept : kept (ensure_files creation_mode paths).
Proof.
  unfold ensure_files. do 2 (apply kept_bind; [apply ensure_directory_kept; set_solver|intros _]).
  apply kept_bind; [|intros _]; apply ensure_fragment_kept; unfold fragments; set_solver.
Qed.

(** *** The doctor *)
Lemma run_looked command args : is_listing command args = true → obeys looked (run runner command args).
Proof. intros Hl w w' r. rewrite run_listing by done. intros [= <- <-]. done. Qed.

Lemma checks_looked {A} (m : service A) (f : A → TakeoverCheck) : obeys looked m → obeys looked (a ← m; mret (f a)).
Proof. intros Hm. apply obeys_bind; [apply _|done|intros a]. apply obeys_ret, _. Qed.

Lemma directory_auto_check_looked a b c d : obeys looked (directory_auto_check a b c d : service _).
Proof.
  unfold directory_auto_check. apply obeys_bind; [apply _|apply is_dir_looked|intros x]. apply obeys_bind; [apply _| |intros s; apply obeys_ret, _].
  destruct x; [apply obeys_ret, _|]. apply obeys_bind; [apply _|apply path_exists_looked|intros e; apply obeys_ret, _].
Qed.
Lemma fragment_check_looked a b c d : obeys looked (fragment_check a b c d : service _).
Proof.
  unfold fragment_check. apply obeys_bind; [apply _|apply is_file_looked|intros x]. apply obeys_bind; [apply _| |intros s; apply obeys_ret, _].
  destruct x; [apply obeys_ret, _|]. apply obeys_bind; [apply _|apply path_exists_looked|intros e; apply obeys_ret, _].
Qed.
Lemma command_check_looked a b c dirs : obeys looked (command_check a b c dirs : service _).
Proof.
  apply checks_looked. induction dirs as [|d r IH]; cbn [command_in_dirs]; [apply obeys_ret, _|]. apply obeys_bind; [apply _|apply is_file_looked|intros [|]; [apply obeys_ret, _|done]].
Qed.

Lemma doctor_looked : obeys looked (doctor_with_runner paths runner).
Proof.
  unfold doctor_with_runner. apply obeys_bind; [apply _| |intros l; apply obeys_ret, _]. apply sequence_obeys. repeat (apply Forall_cons; split).
  all: try (apply directory_auto_check_looked || apply fragment_check_looked || apply command_check_looked).
  - apply checks_looked, path_exists_looked.
  - apply checks_looked. by apply run_looked.
  - by apply Forall_nil.
Qed.

Lemma status_looked : obeys looked (status_with_runner paths runner).
Proof.
  unfold status_with_runner. apply obeys_bind; [apply _| |intros l; apply obeys_bind; [apply _|apply doctor_looked|intros d; apply obeys_ret, _]].
  apply sequence_obeys. repeat (apply Forall_cons; split); [..|by apply Forall_nil]. all: by apply checks_looked, run_looked.
Qed.

(** *** Apply and cleanup *)
Lemma triple_then {A B} (m : service A) (f : A → service B) : triple good m (λ _, good) good → (∀ a, triple good (f a) (λ _, good) good) → triple good (m ≫= f) (λ _, good) good.
Proof. intros Hm Hf. by apply (triple_bind _ _ _ _ (λ _, good)). Qed.

Lemma apply_good auto : triple good (apply_with_runner creation_mode runner paths runner auto) (λ _, good) good.
Proof.
  unfold apply_with_runner. apply triple_looks; [apply doctor_looked|intros before].
  destruct (has_hard_failures before); [by apply triple_fail|]. destruct (needs_auto before && negb auto); [by apply triple_fail|].
  apply triple_looks; [apply status_looked|intros status]. destruct (collisions _); [|by apply triple_fail].
  apply triple_then; [apply triple_collecting; destruct auto; [apply ensure_files_kept|apply kept_ret]|intros [[] created]].
  apply triple_then; [apply triple_collecting; destruct auto; [apply ensure_skeleton_kept|apply kept_ret]|intros [[] actions]].
  apply triple_looks; [apply doctor_looked|intros d]. by apply triple_ret.
Qed.

Lemma cleanup_good : triple good (cleanup_with_runner paths runner) (λ _, good) good.
Proof.
  unfold cleanup_with_runner. apply triple_then; [apply triple_collecting; apply kept_bind; [apply delete_nft_table_kept|intros _; apply delete_tun_kept]|intros [[] actions]].
  apply triple_then; [|intros [[] removed]; by apply triple_ret].
  apply triple_collecting. apply kept_bind; [|intros _]; apply remove_owned_fragment_kept; unfold fragments; set_solver.
Qed.
End rules.
