(* ===== verification/HookSafety.v ===== *)
(** * HookSafety: the hooks follow the policy, and a failing router hook is rolled back

    The operations of TakeoverHooks and DnsMapping against TakeoverPolicy, with the artifacts that an
    operation has made so far and the actions that it reports for them. *)
From Stdlib Require Import ZArith Lia Ascii String Strings.Byte Relations.
From stdpp Require Import base list numbers option strings gmap relations.
From S2P Require Import Prelude Net RustStd Wire HostFiles Takeover ConfigData Settings TakeoverScope TakeoverHooks DnsMapping TakeoverPolicy TakeoverSafety.
Local Open Scope string_scope.

(** The artifact whose making an action reports, as far as a rollback knows it. *)
Definition names (action : string) : option Artifact :=
  if starts_with action "created owned nft router ingress hook" then Some (Chain ROUTER_CHAIN)
  else if starts_with action "created IPv6 fwmark" then Some (Rule IPv6)
  else if starts_with action "created IPv6 route table" then Some (Route IPv6)
  else if starts_with action "created IPv4 fwmark" then Some (Rule IPv4)
  else if starts_with action "created IPv4 route table" then Some (Route IPv4)
  else None.

Lemma undo_names t : undo t = option_map removal (names t).
Proof. unfold undo, names. by repeat (destruct (starts_with _ _)). Qed.

Section hooks.
Context {H : Type} `{!LinkedFiles H} (runner : SystemRunner H) (paths : LinuxTakeoverPaths) (blind : Prop).
Context `{!CommandLaws runner}.
Context (m0 : Machine H).
Abbreviation service := (act (World H) string).
Abbreviation doing := (act (World H * list string) string).
Abbreviation step := (step runner paths blind).
Abbreviation reaches := (reaches runner paths blind m0).
Abbreviation good := (good runner paths blind m0).
Abbreviation listing := (listing runner).
Abbreviation present := (present runner).
Abbreviation ours := (ours runner).

(** ** What the checks say of a machine *)
Definition route_check (v : IpVersion) (m : Machine H) : TakeoverCheck :=
  owned_command_check (route_check_id v) ("dynet " ++ version_label v ++ " policy route default") (listing (Route v) m) route_is_owned "route marked traffic to dynet0".
Definition rule_check (v : IpVersion) (m : Machine H) : TakeoverCheck :=
  owned_command_check (rule_check_id v) ("dynet " ++ version_label v ++ " fwmark policy rule") (listing (Rule v) m) (rule_is_owned MARK_WITH_MASK)
    "route the masked dynet mark through the dynet table".
Definition legacy_check (m : Machine H) : TakeoverCheck :=
  owned_command_check "route.rule.mark.legacy" "legacy dynet fwmark policy rule" (listing LegacyRule m) (rule_is_owned LEGACY_MARK_HEX) "remove the legacy dynet fwmark rule".
Definition output_check (options : option HookOptions) (m : Machine H) : TakeoverCheck :=
  owned_command_check "nft.chain.output" "dynet-owned output capture hook" (listing (Chain OUTPUT_CHAIN) m) (output_is_owned options) "create the owned output capture hook".
Definition router_check (options : option RouterHookOptions) (m : Machine H) : TakeoverCheck :=
  chain_check "nft.chain.router-ingress" "dynet-owned source-scoped router ingress hook" "explicitly apply the source-scoped router hook"
    (chain_state (listing (Chain ROUTER_CHAIN) m) (λ stdout, router_chain_is_expected stdout options)).
Definition mapping_check (options : option DnsMappingOptions) (m : Machine H) : TakeoverCheck :=
  chain_check "nft.chain.dns-mapping" "dynet-owned optional DNS port mapping" "explicitly apply the optional DNS mapping"
    (chain_state (listing (Chain MAPPING_CHAIN) m) (λ stdout, mapping_is_expected stdout options)).

Ltac by_listing := erewrite act_bind_ok; [|apply (run_listing runner); reflexivity]; reflexivity.
Lemma route_status_eq v w : route_status runner v w = (w, Ok (route_check v (machine w))).
Proof. unfold route_status. destruct v; by_listing. Qed.
Lemma rule_status_eq v w : rule_status runner v w = (w, Ok (rule_check v (machine w))).
Proof. unfold rule_status. destruct v; by_listing. Qed.
Lemma legacy_rule_status_eq w : legacy_rule_status runner w = (w, Ok (legacy_check (machine w))).
Proof. unfold legacy_rule_status. by_listing. Qed.
Lemma output_chain_status_eq o w : output_chain_status runner o w = (w, Ok (output_check o (machine w))).
Proof. unfold output_chain_status. by_listing. Qed.
Lemma router_chain_status_eq o w : router_chain_status runner o w = (w, Ok (router_check o (machine w))).
Proof. unfold router_chain_status. by_listing. Qed.
Lemma mapping_status_eq o w : mapping_status runner o w = (w, Ok (mapping_check o (machine w))).
Proof. unfold mapping_status. by_listing. Qed.

(** Not ready and not foreign is not there; ready is dynet's. *)
Lemma owned_command_spec id label a m owned action : a ≠ Tun → (∀ t, owned t = true → owned_text a t = true) →
  let g := owned_command_check id label (listing a m) owned action in
  (is_ready g = true → ours a m) ∧ (is_ready g = false → state_is InvalidHardFail g = false → ¬ present a m).
Proof.
  intros Hn Ho. unfold is_ready, state_is, TakeoverPolicy.ours, TakeoverPolicy.present. cbn. destruct (listing a m) as [e|o]; cbn; [done|].
  destruct (success o) eqn:Es; cbn [andb]; [|split; [done|by intros _ _ []]].
  destruct (is_empty (stdout o)) eqn:Ee; [split; [done|]; intros _ _ [_ Hs]; apply String.eqb_eq in Ee; done|].
  destruct (owned (stdout o)) eqn:Ew; [|done]. split; [|done]. intros _. apply Ho in Ew. destruct a; try done; exists o; (split; [done|]; split; [done|]); done.
Qed.

Lemma chain_state_spec id label action c expected m : (∀ t, expected t = true → owned_text (Chain c) t = true) →
  let g := chain_check id label action (chain_state (listing (Chain c) m) expected) in
  (is_ready g = true → ours (Chain c) m) ∧ (is_ready g = false → state_is InvalidHardFail g = false → ¬ present (Chain c) m).
Proof.
  intros Ho. unfold is_ready, state_is, TakeoverPolicy.ours, TakeoverPolicy.present. cbn. destruct (listing (Chain c) m) as [e|o]; cbn; [split; [done|by intros _ _ []]|].
  destruct (success o) eqn:Es; cbn [negb]; [|split; [done|by intros _ _ []]]. destruct (expected (stdout o)) eqn:Ee; [|done]. split; [|done]. intros _. exists o. split; [done|]. split; [done|]. by apply Ho.
Qed.

Lemma output_owned_text o t : output_is_owned o t = true → owned_text (Chain OUTPUT_CHAIN) t = true.
Proof. unfold output_is_owned. cbn. by destruct (contains OUTPUT_OWNER_MARKER t). Qed.
Lemma router_owned_text o t : router_chain_is_expected t o = true → owned_text (Chain ROUTER_CHAIN) t = true.
Proof. unfold router_chain_is_expected. cbn. by destruct (contains ROUTER_OWNER_MARKER t). Qed.
Lemma mapping_owned_text o t : mapping_is_expected t o = true → owned_text (Chain MAPPING_CHAIN) t = true.
Proof. unfold mapping_is_expected. cbn. by destruct (contains MAPPING_OWNER_MARKER t). Qed.

(** The check of a hook's artifact with the options that are applied. *)
Definition check_at (o : option HookOptions) (r : option RouterHookOptions) (a : Artifact) (m : Machine H) : TakeoverCheck :=
  match a with
  | Route v => route_check v m
  | Rule v => rule_check v m
  | LegacyRule => legacy_check m
  | Chain c => if String.eqb c OUTPUT_CHAIN then output_check o m else router_check r m
  | _ => route_check IPv4 m
  end.

Lemma check_at_spec o r a m : hook a ∨ a = LegacyRule → let g := check_at o r a m in
  (is_ready g = true → ours a m) ∧ (is_ready g = false → state_is InvalidHardFail g = false → ¬ present a m).
Proof.
  intros Ha. destruct a; try (destruct Ha; done); cbn [check_at].
  - destruct Ha as [[->| ->]|]; [| |done]; cbn [String.eqb].
    + apply (owned_command_spec _ _ (Chain OUTPUT_CHAIN)); [done|apply output_owned_text].
    + apply (chain_state_spec _ _ _ ROUTER_CHAIN), router_owned_text.
  - by apply (owned_command_spec _ _ (Route v)).
  - by apply (owned_command_spec _ _ (Rule v)).
  - by apply (owned_command_spec _ _ LegacyRule).
Qed.

Lemma check_at_listing o r a m m' : hook a ∨ a = LegacyRule → listing a m' = listing a m → check_at o r a m' = check_at o r a m.
Proof.
  intros Ha E. destruct a; try (destruct Ha; done); cbn [check_at]; unfold output_check, router_check, route_check, rule_check, legacy_check; try (by rewrite E).
  destruct Ha as [[->| ->]|]; [| |done]; cbn [String.eqb]; unfold output_check, router_check; by rewrite E.
Qed.

(** ** Removing *)
Abbreviation kept m := (triple (λ s : World H * list string, good s.1) m (λ _ s, good s.1) (λ s, good s.1)).

Lemma remove_pushes a t w l : good w → ours a (machine w) →
  triple (λ x, x = (w, l)) (_ ← on_fst (run_required runner (removal a).1 (removal a).2); push t : doing unit) (λ _ s, good s.1) (λ s, good s.1).
Proof. intros Hg Ho. apply (command_pushes runner paths blind m0); [done|]. intros m' o C E. exists C. eapply step_remove; [by left|exact E]. Qed.

(** An owned artifact of a hook is looked at and removed when it is ready. *)
Lemma remove_ready o r a t (status : service TakeoverCheck) : hook a ∨ a = LegacyRule → (∀ w, status w = (w, Ok (check_at o r a (machine w)))) →
  kept (c ← on_fst status; if is_ready c then _ ← on_fst (run_required runner (removal a).1 (removal a).2); push t else mret tt : doing unit).
Proof.
  intros Ha Hs. apply kept_at. intros w l Hg. eapply look; [apply Hs|]. destruct (is_ready (check_at o r a (machine w))) eqn:Er; [|by apply kept_for, kept_ret].
  apply remove_pushes; [done|]. by apply (check_at_spec o r a).
Qed.

Lemma kept_if_negb (m : service TakeoverCheck) (x y : doing unit) :
  kept (c ← on_fst m; if is_ready c then y else x : doing unit) → kept (c ← on_fst m; if negb (is_ready c) then x else y : doing unit).
Proof.
  intros Hk s s' r Hs Hm. apply (Hk s s' r Hs). rewrite <- Hm. unfold mbind, act_bind. destruct (on_fst m s) as [s1 [c|e|]]; [by destruct (is_ready c)|done|done].
Qed.

Lemma delete_family_rule_kept v : kept (delete_family_rule runner v).
Proof. apply (remove_ready None None (Rule v)); [by left|apply rule_status_eq]. Qed.
Lemma delete_family_route_kept v : kept (delete_family_route runner v).
Proof. apply (remove_ready None None (Route v)); [by left|apply route_status_eq]. Qed.
Lemma delete_legacy_rule_kept : kept (delete_legacy_rule runner).
Proof. apply kept_if_negb, (remove_ready None None LegacyRule); [by right|apply legacy_rule_status_eq]. Qed.
Lemma delete_output_chain_kept : kept (delete_output_chain runner).
Proof. apply kept_if_negb, (remove_ready None None (Chain OUTPUT_CHAIN)); [by left; left|apply output_chain_status_eq]. Qed.
Lemma delete_router_chain_kept : kept (delete_router_chain runner).
Proof. apply kept_if_negb, (remove_ready None None (Chain ROUTER_CHAIN)); [by left; right|apply router_chain_status_eq]. Qed.
Lemma delete_family_hooks_kept v : kept (delete_family_hooks runner v).
Proof. apply kept_bind; [apply delete_family_rule_kept|intros _; apply delete_family_route_kept]. Qed.
Lemma looks_then {B} (m : service B) (f : B → doing unit) : obeys looked m → (∀ b, kept (f b)) → kept (on_fst m ≫= f).
Proof. intros Hm Hf. apply kept_bind; [by apply kept_looked|done]. Qed.

Lemma eq_looked {A} (m : service A) (g : Machine H → A) : (∀ w, m w = (w, Ok (g (machine w)))) → obeys looked m.
Proof. intros Hm w w' r. rewrite Hm. intros [= <- <-]. done. Qed.

(** The tail of both cleanups: the routes and rules unless the other hook needs them. *)
Lemma shared_cleanup_kept (other : service TakeoverCheck) : obeys looked other →
  kept (c ← on_fst other; _ ← (if is_ready c then mret tt else _ ← delete_family_hooks runner IPv6; delete_family_hooks runner IPv4); delete_legacy_rule runner : doing unit).
Proof.
  intros Ho. apply looks_then; [done|intros c]. apply kept_bind; [|intros _; apply delete_legacy_rule_kept].
  destruct (is_ready c); [apply kept_ret|]. apply kept_bind; [|intros _]; apply delete_family_hooks_kept.
Qed.

Lemma family_status_looked v : obeys looked (family_status runner v).
Proof. apply sequence_obeys. repeat (apply Forall_cons; split); [by eapply eq_looked, route_status_eq|by eapply eq_looked, rule_status_eq|by apply Forall_nil]. Qed.

Lemma reject_looked l : obeys looked (reject_hook_collisions l : service unit).
Proof. unfold reject_hook_collisions. destruct (collisions l); [apply obeys_ret, _|apply obeys_fail, _]. Qed.

Lemma hooks_cleanup_good : triple good (hooks_cleanup_with_runner runner) (λ _, good) good.
Proof.
  unfold hooks_cleanup_with_runner, reject_cleanup_collisions. apply (triple_looks runner paths blind m0).
  { apply obeys_bind; [apply _|apply family_status_looked|intros v4]. apply obeys_bind; [apply _|apply family_status_looked|intros v6].
    apply obeys_bind; [apply _|by eapply eq_looked, output_chain_status_eq|intros c]. apply obeys_bind; [apply _|by eapply eq_looked, router_chain_status_eq|intros d].
    apply obeys_bind; [apply _|by eapply eq_looked, legacy_rule_status_eq|intros e]. apply reject_looked. }
  intros _. apply (triple_then runner paths blind m0); [|intros [[] actions]; by apply triple_ret]. apply triple_collecting. apply kept_bind; [apply delete_output_chain_kept|intros _].
  apply shared_cleanup_kept. by eapply eq_looked, router_chain_status_eq.
Qed.

Lemma router_cleanup_good : triple good (router_hooks_cleanup_with runner) (λ _, good) good.
Proof.
  unfold router_hooks_cleanup_with. apply (triple_looks runner paths blind m0); [by eapply eq_looked, router_chain_status_eq|intros router].
  apply (triple_looks runner paths blind m0); [by eapply eq_looked, output_chain_status_eq|intros output]. apply (triple_looks runner paths blind m0); [apply reject_looked|intros _].
  apply (triple_then runner paths blind m0); [|intros [[] actions]; by apply triple_ret]. apply triple_collecting. apply kept_bind; [apply delete_router_chain_kept|intros _].
  apply shared_cleanup_kept. by eapply eq_looked, output_chain_status_eq.
Qed.

(** ** Making

    What an operation has made so far: the policy led there, the actions name what was made,
    and everything else is listed as at the start, where what was made was not there. *)
(** Whether the operation can be rolled back: then every artifact has its action. *)
Context (rollback : bool).
Definition covers (C : list Artifact) (actions : list string) : Prop :=
  (∀ t a, t ∈ actions → names t = Some a → a ∈ C) ∧ (∀ a, a ∈ C → rollback = true → ∃ t, t ∈ actions ∧ names t = Some a).
Definition stable (C : list Artifact) (m : Machine H) : Prop :=
  ∀ a, hook a → (a ∉ C → listing a m = listing a m0) ∧ (a ∈ C → ¬ present a m0).
Definition trail (C : list Artifact) (s : World H * list string) : Prop :=
  reaches (machine s.1) C ∧ (∀ x, Some x ∈ faults s.1 → blind) ∧ covers C s.2 ∧ stable C (machine s.1) ∧ (∀ a, a ∈ C → hook a).
(** With nothing but artifacts of [L] added to [C]. *)
Definition extended (L C : list Artifact) (s : World H * list string) : Prop := ∃ C', trail C' s ∧ ∀ a, a ∈ C' → a ∈ L ∨ a ∈ C.
Definition some_trail (s : World H * list string) : Prop := ∃ C, trail C s.

Lemma trail_good C s : trail C s → good s.1.
Proof. intros (Hr & Hf & _). split; [by exists C|done]. Qed.

Lemma extended_some L C s : extended L C s → some_trail s.
Proof. intros (C' & Ht & _). by exists C'. Qed.

Lemma extended_self L C s : trail C s → extended L C s.
Proof. intros Ht. exists C. auto. Qed.

Lemma trail_push C t (s : World H * list string) : trail C s → names t = None → trail C (s.1, (s.2 ++ [t])%list).
Proof.
  intros (Hr & Hf & [H1 H2] & Hs & Hh) Hn. repeat (split; [done|]). split; [|done]. split.
  - intros t' a [Ht| ->%list_elem_of_singleton]%elem_of_app Ha; [by eapply H1|congruence].
  - intros a Ha Ho. destruct (H2 a Ha Ho) as (t' & Ht & Hna). exists t'. split; [|done]. apply elem_of_app. by left.
Qed.

Lemma make_pushes a command args t C w l : trail C (w, l) → hook a → a ∉ C → makes a command args → ¬ present a m0 →
  (names t = Some a ∨ rollback = false ∧ names t = None) →
  triple (λ x, x = (w, l)) (_ ← on_fst (run_required runner command args); push t : doing unit) (λ _, trail (a :: C)) (trail C).
Proof.
  intros (Hr & Hf & [H1 H2] & Hs & Hh) Ha HC Hm Hp Ht s s' r ->. cbn [fst snd] in *.
  assert (¬ present a (machine w)) as Hp'. { unfold TakeoverPolicy.present. by rewrite (proj1 (Hs a Ha) HC). }
  unfold mbind, act_bind, on_fst. destruct (run_required runner command args w) as [w1 r1] eqn:E. apply run_required_spec in E as (Hfs & o & Eo & Hres).
  assert (∀ D, D = (if succeeded o then a :: C else C) → reaches (machine w1) D) as Hr1.
  { intros D ->. unfold TakeoverPolicy.reaches in *. eapply rtc_r; [exact Hr|]. by eapply step_make. }
  assert (∀ b, hook b → a ≠ b ∨ succeeded o = false → listing b (machine w1) = listing b (machine w)) as Hl by (intros b Hb; by apply (make_local runner a b command args)).
  destruct Hres as [[-> Ho]|[[e ->] Ho]]; intros [= <- <-]; rewrite Ho in *.
  - split; [by apply Hr1|]. cbn [fst snd]. rewrite Hfs. split; [done|]. split; [split|split].
    + intros t' b [Hin| ->%list_elem_of_singleton]%elem_of_app Hb; [right; by eapply H1|]. destruct Ht as [Ht|[_ Ht]]; [|congruence]. assert (b = a) as -> by congruence. by left.
    + intros b [->|Hb]%elem_of_cons Hno.
      * destruct Ht as [Ht|[Hno' _]]; [|congruence]. exists t. split; [apply elem_of_app; right; by left|done].
      * destruct (H2 b Hb Hno) as (t' & Hin & Hn). exists t'. split; [|done]. apply elem_of_app. by left.
    + intros b Hb. rewrite not_elem_of_cons, elem_of_cons. split; [intros [Hne HbC]; rewrite Hl by auto; by apply Hs|]. intros [->|HbC]; [done|by apply Hs].
    + intros b [->|Hb]%elem_of_cons; auto.
  - split; [by apply Hr1|]. cbn [fst snd]. rewrite Hfs. split; [done|]. split; [done|]. split; [|done]. intros b Hb. rewrite Hl by auto. by apply Hs.
Qed.

Section applying.
Context (o : option HookOptions) (r : option RouterHookOptions).
Definition undrifted (a : Artifact) : Prop := state_is InvalidHardFail (check_at o r a m0) = false.

(** The check of what was not made yet is that of the start. *)
Lemma check_not_present a C w l : trail C (w, l) → hook a → a ∉ C → undrifted a → is_ready (check_at o r a (machine w)) = false → ¬ present a m0.
Proof.
  intros (_ & _ & _ & Hs & _) Ha HC Hu Hr. rewrite (check_at_listing o r a m0) in Hr; [|by left|by apply Hs]. by apply (check_at_spec o r a m0); [left| |].
Qed.

Lemma triple_from {A} (P : World H * list string → Prop) (m : doing A) Q X :
  (∀ w l, P (w, l) → triple (λ x, x = (w, l)) m Q X) → triple P m Q X.
Proof. intros Hm. apply triple_at. intros [w l]. apply Hm. Qed.

Lemma triple_assoc {A B D} (m : doing A) (f : A → doing B) (g : B → doing D) P Q X :
  triple P ((m ≫= f) ≫= g) Q X → triple P (m ≫= λ a, f a ≫= g) Q X.
Proof. intros Hm s s' r' Hs E. apply (Hm s s' r' Hs). rewrite <- E. unfold mbind, act_bind. by destruct (m s) as [? []]. Qed.

Lemma ensure_hook a (status : service TakeoverCheck) command args t C w l :
  (∀ w, status w = (w, Ok (check_at o r a (machine w)))) → trail C (w, l) → hook a → a ∉ C → undrifted a → makes a command args →
  (names t = Some a ∨ rollback = false ∧ names t = None) →
  triple (λ x, x = (w, l)) (c ← on_fst status; if is_ready c then mret tt else _ ← on_fst (run_required runner command args); push t : doing unit)
    (λ _, extended [a] C) some_trail.
Proof.
  intros Hs Ht Ha HC Hu Hm Hn. eapply look; [apply Hs|]. destruct (is_ready (check_at o r a (machine w))) eqn:Er.
  - apply triple_ret. intros x ->. by apply extended_self.
  - eapply triple_conseq; [apply (make_pushes a command args t C w l); try done; by eapply check_not_present|done| |by intros x Hx; exists C].
    intros u x Hx. exists (a :: C). split; [done|]. intros b [Hb|Hb]%elem_of_cons; [left; rewrite Hb; by left|by right].
Qed.

Lemma extended_not_in L C s b : extended L C s → b ∉ L → b ∉ C → ∃ C', trail C' s ∧ (b ∉ C') ∧ ∀ a, a ∈ C' → a ∈ L ∨ a ∈ C.
Proof. intros (C' & Ht & Hsub) HL HC. exists C'. split; [done|]. split; [|done]. intros Hb. by destruct (Hsub b Hb). Qed.

Lemma ensure_family_hooks_trail v C w l : trail C (w, l) → Route v ∉ C → Rule v ∉ C → undrifted (Route v) → undrifted (Rule v) →
  triple (λ x, x = (w, l)) (ensure_family_hooks runner v) (λ _, extended [Route v; Rule v] C) some_trail.
Proof.
  intros Ht H1 H2 U1 U2. unfold ensure_family_hooks. apply triple_assoc.
  apply (triple_bind _ _ _ _ (λ _, extended [Route v] C)); [apply (ensure_hook (Route v)); try done; [apply route_status_eq|]; left; by destruct v|].
  intros _. apply triple_from. intros w2 l2 Hx. destruct (extended_not_in _ _ _ (Rule v) Hx) as (C' & Ht' & Hn & Hsub); [set_solver|done|].
  eapply triple_conseq; [apply (ensure_hook (Rule v)); try done; [apply rule_status_eq|]; left; by destruct v|done| |done].
  intros u x (C2 & Ht2 & Hsub2). exists C2. split; [done|]. set_solver.
Qed.

(** *** The rules of a chain that was just made *)
Lemma add_rules_trail c rules C : Chain c ∈ C → triple (trail C) (add_rules runner (List.map (nft_rule c) rules) : doing unit) (λ _, trail C) (trail C).
Proof.
  intros Hc. unfold add_rules. induction rules as [|rule rules IH]; cbn [List.map each]; [by apply triple_ret|].
  apply (triple_bind _ _ _ _ (λ _, trail C)); [|done]. intros [w l] s' r' (Hr & Hf & Hcov & Hs & Hh). unfold on_fst.
  destruct (run_required runner "nft" (nft_rule c rule) w) as [w1 r1] eqn:E. intros [= <- <-]. apply run_required_spec in E as (Hfs & out & Eo & Hres).
  assert (trail C (w1, l)) as Ht.
  { split; [|split; [cbn [fst]; by rewrite Hfs|split; [done|split; [|done]]]]; cbn [fst snd] in *.
    - unfold TakeoverPolicy.reaches in *. eapply rtc_r; [exact Hr|]. by eapply step_fill.
    - intros a Ha. split; [|by apply Hs]. intros HaC. rewrite <- (proj1 (Hs a Ha) HaC). apply (fill_local runner c a rule _ _ out); [done|congruence|done]. }
  by destruct Hres as [[-> _]|[[e ->] _]].
Qed.

(** A chain with its rules, and the two actions that are reported for it. *)
Lemma make_chain c (status : service TakeoverCheck) command args t rules t' C w l :
  (∀ w, status w = (w, Ok (check_at o r (Chain c) (machine w)))) → trail C (w, l) → hook (Chain c) → Chain c ∉ C → undrifted (Chain c) → makes (Chain c) command args →
  (names t = Some (Chain c) ∨ rollback = false ∧ names t = None) → names t' = None →
  triple (λ x, x = (w, l)) (k ← on_fst status; if is_ready k then mret tt else
    _ ← on_fst (run_required runner command args); _ ← push t; _ ← add_rules runner (List.map (nft_rule c) rules); push t' : doing unit) (λ _, some_trail) some_trail.
Proof.
  intros Hs Ht Ha HC Hu Hm Hn Hn'. eapply look; [apply Hs|]. destruct (is_ready (check_at o r (Chain c) (machine w))) eqn:Er.
  - apply triple_ret. intros x ->. by exists C.
  - apply triple_assoc. apply (triple_bind _ _ _ _ (λ _, trail (Chain c :: C))).
    + eapply triple_conseq; [apply (make_pushes (Chain c) command args t C w l); try done; by eapply check_not_present|done|done|by intros x Hx; exists C].
    + intros _. apply (triple_bind _ _ _ _ (λ _, trail (Chain c :: C))).
      * eapply triple_conseq; [apply (add_rules_trail c rules (Chain c :: C)); by left|done|done|by intros x Hx; eexists].
      * intros _. apply triple_modify. intros x Hx. eexists. by apply trail_push.
Qed.

Definition start (w : World H) : Prop := machine w = m0 ∧ ∀ x, Some x ∈ faults w → blind.
Lemma start_trail w : start w → trail [] (w, []).
Proof.
  intros [Hm Hf]. split; [cbn; rewrite Hm; by apply rtc_refl|]. split; [done|]. split; [split; [by intros t a ?%elem_of_nil|by intros a ?%elem_of_nil]|].
  split; [|by intros a ?%elem_of_nil]. intros a Ha. cbn. rewrite Hm. split; [done|by intros ?%elem_of_nil].
Qed.
Lemma start_looked w w' : looked w w' → start w → start w'.
Proof. intros [Hm [l Hl]] [Hs Hf]. split; [congruence|]. intros x Hx. apply (Hf x). rewrite Hl. set_solver. Qed.
Lemma start_good w : start w → good w.
Proof. intros Hs. apply (trail_good [] (w, [])), start_trail, Hs. Qed.

(** Looking first, from the start. *)
Lemma start_looks {A B} (m : service A) (f : A → service B) : obeys looked m → (∀ a, triple start (f a) (λ _, good) good) → triple start (m ≫= f) (λ _, good) good.
Proof.
  intros Hm Hf. apply (triple_bind _ _ _ _ (λ _, start)); [|done]. intros w w' r' Hs Hw. destruct (Hm _ _ _ Hw) as [Hl Hn].
  destruct r'; [by eapply start_looked|by eapply start_good, start_looked|done].
Qed.

(** The routes and rules of the versions that are enabled. *)
Lemma ensure_versions_trail (v6 : bool) w : start w → (∀ v, v = IPv4 ∨ v6 = true → undrifted (Route v) ∧ undrifted (Rule v)) →
  triple (λ x, x = (w, [])) (_ ← ensure_family_hooks runner IPv4; if v6 then ensure_family_hooks runner IPv6 else mret tt : doing unit)
    (λ _, extended [Route IPv6; Rule IPv6; Route IPv4; Rule IPv4] []) some_trail.
Proof.
  intros Hs Hu. apply (triple_bind _ _ _ _ (λ _, extended [Route IPv4; Rule IPv4] [])).
  { destruct (Hu IPv4 (or_introl eq_refl)). apply ensure_family_hooks_trail; try done; [by apply start_trail|set_solver..]. }
  intros _. apply triple_from. intros w1 l1 (C & Ht & Hsub). destruct v6.
  - destruct (Hu IPv6 (or_intror eq_refl)). eapply triple_conseq; [apply (ensure_family_hooks_trail IPv6 C); try done; set_solver|done| |done].
    intros u x (C2 & Ht2 & Hsub2). exists C2. split; [done|]. intros a Ha. destruct (Hsub2 a Ha) as [?|Hc]; [set_solver|]. specialize (Hsub a Hc). set_solver.
  - apply triple_ret. intros x ->. exists C. split; [done|]. set_solver.
Qed.

(** *** The operations *)
Definition hook_list (v6 : bool) (c : string) : list Artifact := ([Route IPv4; Rule IPv4] ++ (if v6 then [Route IPv6; Rule IPv6] else []) ++ [Chain c])%list.

Lemma family_status_eq v w : family_status runner v w = (w, Ok [route_check v (machine w); rule_check v (machine w)]).
Proof.
  unfold family_status. cbn [sequence]. rewrite (act_bind_ok _ _ _ _ _ (route_status_eq v w)).
  rewrite (act_bind_ok _ _ w w [rule_check v (machine w)]); [done|]. rewrite (act_bind_ok _ _ _ _ _ (rule_status_eq v w)). done.
Qed.

(** The checks of a hook in front of applying it. *)
Lemma hook_checks_eq (v6 : bool) c (status : service TakeoverCheck) w : (∀ w, status w = (w, Ok (check_at o r (Chain c) (machine w)))) →
  (v4 ← family_status runner IPv4; l6 ← (if v6 then family_status runner IPv6 else mret []); k ← status; mret (v4 ++ l6 ++ [k])%list : service _) w
  = (w, Ok (List.map (λ a, check_at o r a (machine w)) (hook_list v6 c))).
Proof.
  intros Hs. rewrite (act_bind_ok _ _ _ _ _ (family_status_eq IPv4 w)). destruct v6.
  - rewrite (act_bind_ok _ _ _ _ _ (family_status_eq IPv6 w)), (act_bind_ok _ _ _ _ _ (Hs w)). done.
  - rewrite (act_bind_ok _ _ w w []) by done. rewrite (act_bind_ok _ _ _ _ _ (Hs w)). done.
Qed.

Lemma reject_spec l (w w' : World H) res : reject_hook_collisions l w = (w', res) →
  w' = w ∧ ((res = Ok tt ∧ Forall (λ k, state_is InvalidHardFail k = false) l) ∨ ∃ e, res = Err e).
Proof.
  unfold reject_hook_collisions, collisions. destruct (List.map summary _) eqn:E; intros [= <- <-]; (split; [done|]); [left|by right; eexists].
  split; [done|]. apply map_eq_nil in E. induction l as [|k l IH]; [done|]. cbn in E. destruct (state_is InvalidHardFail k) eqn:Ek; [done|]. constructor; auto.
Qed.

(** Behind the checks and the rejection nothing that is to be made is foreign. *)
Lemma checked_hooks (v6 : bool) c (checks : service (list TakeoverCheck)) {B} (f : service B) :
  (∀ w, checks w = (w, Ok (List.map (λ a, check_at o r a (machine w)) (hook_list v6 c)))) →
  ((∀ a, a ∈ hook_list v6 c → undrifted a) → triple start f (λ _, good) good) →
  triple start (l ← checks; _ ← reject_hook_collisions l; f) (λ _, good) good.
Proof.
  intros Hc Hf. apply triple_at. intros w Hs. eapply triple_run; [apply Hc|]. intros w1 w2 res ->. unfold mbind, act_bind.
  destruct (reject_hook_collisions _ w) as [w3 r3] eqn:E. apply reject_spec in E as (-> & [[-> Hl]|[e ->]]); [|by intros [= <- <-]; apply start_good].
  apply Hf; [|done]. intros a Ha. apply (Forall_map (λ a, check_at o r a (machine w))) in Hl. rewrite List.Forall_forall in Hl. unfold undrifted. destruct Hs as [<- _]. apply Hl. by apply list_elem_of_In.
Qed.

Lemma router_interface_status_looked ro : obeys looked (router_interface_status runner ro).
Proof. unfold router_interface_status. by apply checks_looked, (run_looked runner). Qed.

Lemma require_skeleton_looked what : obeys looked (require_skeleton paths runner what).
Proof.
  unfold require_skeleton. apply obeys_bind; [apply _|by apply status_looked|intros st]. destruct (has_hard_failures _); [apply obeys_fail, _|].
  destruct (List.filter _ _); [apply obeys_ret, _|apply obeys_fail, _].
Qed.
End applying.
End hooks.

(** ** Applying, and rolling back *)
Section operations.
Context {H : Type} `{!LinkedFiles H} (runner : SystemRunner H) (paths : LinuxTakeoverPaths) (blind : Prop).
Context `{!CommandLaws runner}.
Context (error_text : config_error → string) (m0 : Machine H).
Abbreviation service := (act (World H) string).
Abbreviation doing := (act (World H * list string) string).
Abbreviation good := (good runner paths blind m0).
Abbreviation start := (start blind m0).
Abbreviation some_trail := (some_trail runner paths blind m0).
Abbreviation listing := (listing runner).
Abbreviation present := (present runner).

Lemma to_good w : start w → good w.
Proof. intros Hs. apply (start_good runner paths blind m0 true w Hs). Qed.

Lemma some_trail_collecting {A} (m : doing A) w rollback : triple (λ x, x = (w, [])) m (λ _, some_trail rollback) (some_trail rollback) →
  triple (λ x, x = w) (collecting m) (λ _, good) good.
Proof.
  intros Hm x w' r -> . unfold collecting. destruct (m (w, [])) as [[w1 l] r1] eqn:E. intros [= <- <-]. specialize (Hm _ _ _ eq_refl E).
  destruct r1; try done; destruct Hm as [C Ht]; by apply trail_good in Ht.
Qed.

Lemma hooks_apply_good ho : triple start (hooks_apply_options_with paths runner ho) (λ _, good) good.
Proof.
  unfold hooks_apply_options_with. destruct (service_uid ho =? 0)%Z; [apply triple_fail, to_good|].
  apply (start_looks runner paths blind m0 true); [by apply require_skeleton_looked|intros _].
  apply (checked_hooks runner paths blind m0 false (Some ho) None (hook_ipv6_enabled ho) OUTPUT_CHAIN).
  { intros w. apply (hook_checks_eq runner). intros w1. by apply output_chain_status_eq. }
  intros Hu. apply triple_at. intros w Hs. apply (triple_bind _ _ _ _ (λ _, good)); [|intros [? ?]; by apply triple_ret].
  apply (some_trail_collecting _ _ false). apply triple_assoc.
  apply (triple_bind _ _ _ _ (λ _, extended runner paths blind m0 false [Route IPv6; Rule IPv6; Route IPv4; Rule IPv4] [])).
  - apply (ensure_versions_trail _ _ _ _ _ (Some ho) None); [done|]. unfold hook_list in Hu. intros v [->|E]; [|rewrite E in Hu; destruct v]; split; apply Hu; set_solver.
  - intros _. apply triple_from. intros w1 l1 (C & Ht & Hsub).
    apply (make_chain runner paths blind m0 false (Some ho) None OUTPUT_CHAIN _ _ _ _ _ _ C); try done; [intros w2; by apply output_chain_status_eq|by left| | | |by right].
    + intros Hc. specialize (Hsub _ Hc). set_solver.
    + apply Hu. unfold hook_list. set_solver.
    + split; [done|]. by exists ["type"; "route"; "hook"; "output"; "priority"; "-150;"; "policy"; "accept;"].
Qed.

(** *** Undoing *)

(** While [C] is undone: what is not in [C] is listed as at the start, and [D] is gone. *)
Definition undoing (C : list Artifact) (D : Artifact → Prop) (w : World H) : Prop :=
  reaches runner paths blind m0 (machine w) C ∧ (∀ x, Some x ∈ faults w → blind) ∧
  (∀ a, hook a → a ∉ C → listing a (machine w) = listing a m0) ∧ (∀ a, hook a → D a → ¬ present a (machine w)).

Lemma undo_trail C D actions : (∀ a, a ∈ C → hook a) → (∀ t a, t ∈ actions → names t = Some a → a ∈ C) →
  triple (undoing C D) (undo_actions runner actions) (λ _, undoing C (λ a, D a ∨ ∃ t, t ∈ actions ∧ names t = Some a)) good.
Proof.
  intros HC. revert D. induction actions as [|t actions IH]; intros D Hc; cbn [undo_actions].
  { apply triple_ret. intros w (Hr & Hf & Hl & Hd). repeat (split; [done|]). intros a Ha [HD|(t & ?%elem_of_nil & _)]; [by apply Hd|done]. }
  apply (triple_bind _ _ _ _ (λ _, undoing C (λ a, D a ∨ names t = Some a))).
  - rewrite undo_names. destruct (names t) as [a|] eqn:En; cbn [option_map].
    + assert (a ∈ C) as Ha by (eapply Hc; [by left|done]). intros w w' res (Hr & Hf & Hl & Hd) E.
      destruct (removal a) as [command args] eqn:Er. apply run_required_spec in E as (Hfs & out & Eo & Hres).
      assert (runner (removal a).1 (removal a).2 (machine w) = (machine w', out)) as Eo' by by rewrite Er.
      assert (∀ b, hook b → a ≠ b → listing b (machine w') = listing b (machine w)) as Hlb by (intros b Hb Hne; apply (remove_local runner a b _ _ out); auto).
      assert (reaches runner paths blind m0 (machine w') C) as Hr'.
      { unfold TakeoverPolicy.reaches in *. eapply rtc_r; [exact Hr|]. eapply step_remove; [by right|exact Eo']. }
      destruct Hres as [[-> Ho]|[[e ->] Ho]]; [|split; [by exists C|by rewrite Hfs]].
      split; [done|]. split; [by rewrite Hfs|]. split.
      * intros b Hb HbC. rewrite Hlb; [by apply Hl|done|]. intros ->. done.
      * intros b Hb HD. destruct (decide (a = b)) as [->|Hne]; [by eapply (remove_removes runner b)|]. unfold TakeoverPolicy.present. rewrite Hlb by done.
        destruct HD as [HD|HD]; [by apply Hd|congruence].
    + apply triple_ret. intros w (Hr & Hf & Hl & Hd). repeat (split; [done|]). intros a Ha [HD|?]; [by apply Hd|done].
  - intros _. eapply triple_conseq; [apply (IH (λ a, D a ∨ names t = Some a))| | |]; [intros t' a Ht; apply Hc; by right|done| |done].
    intros _ w (Hr & Hf & Hl & Hd). repeat (split; [done|]). intros a Ha Hx. apply Hd; [done|]. destruct Hx as [HD|(t' & [->|Ht]%elem_of_cons & Hn)]; eauto.
Qed.

Lemma trail_undoing C w l : trail runner paths blind m0 true C (w, l) → undoing C (λ _, False) w.
Proof. intros (Hr & Hf & _ & Hs & _). repeat (split; [done|]). split; [|done]. intros a Ha HC. by apply Hs. Qed.

(** Everything is listed as at the start, or there neither then nor now. *)
Definition restored (m : Machine H) : Prop := ∀ a, hook a → listing a m = listing a m0 ∨ (¬ present a m0 ∧ ¬ present a m).

Lemma rollback_restores C w l : trail runner paths blind m0 true C (w, l) →
  triple (λ x, x = w) (rollback_router_apply runner l) (λ _ w', good w' ∧ restored (machine w')) good.
Proof.
  intros Ht. pose proof Ht as (_ & _ & [Hc1 Hc2] & Hs & Hh). eapply triple_conseq; [apply (undo_trail C (λ _, False) (rev l))|intros x ->; by apply (trail_undoing C w l)| |done].
  - done.
  - intros t a Hin%list_elem_of_In%in_rev%list_elem_of_In. by apply Hc1.
  - intros _ w' (Hr & Hf & Hl & Hd). split; [split; [by exists C|done]|]. intros a Ha. destruct (decide (a ∈ C)) as [HaC|HaC]; [|left; by apply Hl].
    right. split; [by apply Hs|]. apply Hd; [done|]. right. destruct (Hc2 a HaC eq_refl) as (t & Hin & Hn). exists t. split; [|done].
    apply list_elem_of_In. rewrite <- in_rev. by apply list_elem_of_In.
Qed.

(** *** The router *)
Lemma install_router_trail ro w : start w → (∀ a, a ∈ hook_list (router_ipv6_enabled ro) ROUTER_CHAIN → undrifted runner m0 None (Some ro) a) →
  triple (λ x, x = (w, [])) (install_router runner ro) (λ _, some_trail true) (some_trail true).
Proof.
  intros Hs Hu. unfold install_router. apply triple_assoc.
  apply (triple_bind _ _ _ _ (λ _, extended runner paths blind m0 true [Route IPv6; Rule IPv6; Route IPv4; Rule IPv4] [])).
  - apply (ensure_versions_trail _ _ _ _ _ None (Some ro)); [done|]. unfold hook_list in Hu. intros v [->|E]; [|rewrite E in Hu; destruct v]; split; apply Hu; set_solver.
  - intros _. apply triple_from. intros w1 l1 (C & Ht & Hsub).
    apply (make_chain runner paths blind m0 true None (Some ro) ROUTER_CHAIN _ _ _ _ _ _ C); try done; [intros w2; by apply router_chain_status_eq|by right| | | |by left].
    + intros Hc. specialize (Hsub _ Hc). set_solver.
    + apply Hu. unfold hook_list. set_solver.
    + split; [done|]. by exists ["type"; "filter"; "hook"; "prerouting"; "priority"; "-151;"; "policy"; "accept;"].
Qed.

Lemma looks_cases {A B} (m : service A) (f : A → service B) w w' r : obeys looked m → (m ≫= f) w = (w', r) →
  ((∃ e, r = Err e) ∧ looked w w') ∨ ∃ w1 a, looked w w1 ∧ f a w1 = (w', r).
Proof.
  intros Hm [(w1 & a & E & Hf)|[(e & E & ->)|[E ->]]]%act_bind_cases; destruct (Hm _ _ _ E) as [Hl Hn]; [right; eauto|left; eauto|done].
Qed.

(** How applying the router hook ends: refused with nothing done, installed, rolled back, or, where
    undoing fails as well, with that said. *)
Definition router_outcome (w' : World H) (r : outcome string (list string)) : Prop :=
  good w' ∧ match r with
  | Ok _ => True
  | Err e => machine w' = m0 ∨ restored (machine w') ∨ ∃ rest, e = "router hook apply failed: " ++ rest
  | Panic => False
  end.

Lemma install_or_roll_back_spec ro w w' r : start w → (∀ a, a ∈ hook_list (router_ipv6_enabled ro) ROUTER_CHAIN → undrifted runner m0 None (Some ro) a) →
  install_or_roll_back runner ro w = (w', r) → router_outcome w' r.
Proof.
  intros Hs Hu. pose proof (install_router_trail ro w Hs Hu) as Hi. unfold install_or_roll_back.
  destruct (install_router runner ro (w, [])) as [[w1 actions] res] eqn:E. specialize (Hi _ _ _ eq_refl E). destruct res as [u|e|]; [| |done].
  - intros [= <- <-]. destruct Hi as [C Ht]. by apply trail_good in Ht.
  - destruct Hi as [C Ht]. pose proof (rollback_restores C w1 actions Ht w1) as Hroll.
    destruct (rollback_router_apply runner actions w1) as [w2 rb]. intros [= <- <-]. specialize (Hroll _ _ eq_refl eq_refl).
    destruct rb as [[]|e'|]; [|split; [done|right; right; by eexists]|done]. destruct Hroll as [Hg Hr]. split; [done|]. right. by left.
Qed.

Lemma refused (w w' : World H) (r : outcome string (list string)) : start w → (∃ e, r = Err e) ∧ looked w w' → router_outcome w' r.
Proof.
  intros Hs [[e ->] Hl]. assert (start w') as Hs' by (by apply (start_looked runner blind m0 w)). split; [by apply to_good|]. left. by destruct Hs'.
Qed.

Lemma validate_router_looked ro : obeys looked (validate_router error_text ro : service unit).
Proof.
  intros w w' r [= <- <-]. split; [reflexivity|]. pose proof (Scope.validate_no_panic (scope ro) (router_ipv6_enabled ro)). by destruct (Scope.validate _ _).
Qed.

Lemma router_apply_outcome ro w w' r : start w → router_hooks_apply_with paths error_text runner ro w = (w', r) → router_outcome w' r.
Proof.
  intros Hs E. unfold router_hooks_apply_with in E.
  apply looks_cases in E as [E|(w1 & [] & H1 & E)]; [by eapply refused| |apply validate_router_looked].
  assert (start w1) as Hs1 by (by apply (start_looked runner blind m0 w)).
  apply looks_cases in E as [E|(w2 & [] & H2 & E)]; [by eapply refused| |by apply require_skeleton_looked].
  assert (start w2) as Hs2 by (by apply (start_looked runner blind m0 w1)).
  apply looks_cases in E as [E|(w3 & k & H3 & E)]; [by eapply refused| |by apply router_interface_status_looked].
  assert (start w3) as Hs3 by (by apply (start_looked runner blind m0 w2)).
  destruct (negb (is_ready k)); [injection E as <- <-; apply (refused w3); [done|split; [by eexists|reflexivity]]|].
  assert (router_hooks_status_with runner (Some ro) w3 = (w3, Ok (List.map (λ a, check_at runner None (Some ro) a (machine w3)) (hook_list (router_ipv6_enabled ro) ROUTER_CHAIN)))) as Ec.
  { apply (hook_checks_eq runner). intros w4. by apply router_chain_status_eq. }
  rewrite (act_bind_ok _ _ _ _ _ Ec) in E. unfold mbind, act_bind in E.
  destruct (reject_hook_collisions _ w3) as [w4 r4] eqn:Er. apply reject_spec in Er as (-> & [[-> Hl]|[e ->]]).
  - apply (install_or_roll_back_spec ro w3); [done| |done]. intros a Ha. apply (Forall_map (λ a, check_at runner None (Some ro) a (machine w3))) in Hl.
    rewrite List.Forall_forall in Hl. unfold undrifted. destruct Hs3 as [<- _]. apply Hl. by apply list_elem_of_In.
  - injection E as <- <-. apply (refused w3); [done|split; [by eexists|reflexivity]].
Qed.

(** *** The DNS mapping *)
Lemma check_mapping_looked o : obeys looked (check_mapping error_text o : service unit).
Proof.
  intros w w' r [= <- <-]. split; [reflexivity|]. pose proof (validate_mapping_no_panic o). by destruct (validate_mapping o).
Qed.

Definition made_mapping (w : World H) : Prop := good w ∧ ∃ C, reaches runner paths blind m0 (machine w) C ∧ Chain MAPPING_CHAIN ∈ C.

Lemma mapping_command command args w w' r : made_mapping w →
  (∀ C, Chain MAPPING_CHAIN ∈ C → ∀ o, runner command args (machine w) = (machine w', o) → TakeoverPolicy.step runner paths blind (machine w, C) (machine w', C)) →
  run_required runner command args w = (w', r) → made_mapping w' ∧ no_panic r.
Proof.
  intros [[_ Hf] (C & Hr & HC)] Hs (Hfs & o & Eo & Hres)%run_required_spec.
  assert (reaches runner paths blind m0 (machine w') C) as Hr' by (unfold TakeoverPolicy.reaches in *; eapply rtc_r; [exact Hr|by eapply Hs]).
  split; [|destruct Hres as [[-> _]|[[e ->] _]]; done]. split; [split; [by exists C|by rewrite Hfs]|by exists C].
Qed.

Lemma add_mapping_rules_good rules : triple made_mapping (add_mapping_rules runner (List.map (nft_rule MAPPING_CHAIN) rules)) (λ _, good) good.
Proof.
  induction rules as [|rule rules IH]; cbn [List.map add_mapping_rules]; [apply triple_ret; by intros s []|]. intros w w' r Hw.
  destruct (run_required runner "nft" (nft_rule MAPPING_CHAIN rule) w) as [w1 r1] eqn:E1. apply mapping_command in E1 as [Hw1 Hn1]; [|done|intros C HC out Eo; by eapply step_fill].
  destruct r1 as [u|e|]; [by apply IH| |done]. destruct (run_required runner "nft" _ w1) as [w2 r2] eqn:E2.
  apply mapping_command in E2 as [[Hg2 _] Hn2]; [|done|intros C HC out Eo; eapply (step_remove _ _ _ (Chain MAPPING_CHAIN)); [by right|exact Eo]].
  intros [= <- <-]. by destruct r2.
Qed.

Lemma mapping_rules_shape o : ∃ rules, mapping_rules o = List.map (nft_rule MAPPING_CHAIN) rules.
Proof.
  unfold mapping_rules. generalize (mapping_families o). intros fs.
  assert (∀ (A : Type) (f : A → list (list string)) l, (∀ a, ∃ rs, f a = List.map (nft_rule MAPPING_CHAIN) rs) → ∃ rs, List.concat (List.map f l) = List.map (nft_rule MAPPING_CHAIN) rs) as Hc.
  { intros A f l Hf. induction l as [|a l [rs IH]]; [by exists []|]. destruct (Hf a) as [ra Ea]. exists (ra ++ rs)%list. cbn. by rewrite Ea, IH, map_app. }
  apply Hc. intros [[nfproto family] sources]. apply Hc. intros source. unfold mapping_rule. by eexists [_; _].
Qed.

Lemma mapping_apply_good o : triple good (mapping_apply_with_runner error_text runner o) (λ _, good) good.
Proof.
  unfold mapping_apply_with_runner. apply (triple_looks runner paths blind m0); [apply check_mapping_looked|intros _].
  apply (triple_looks runner paths blind m0); [unfold nft_status; by apply checks_looked, (run_looked runner)|intros table]. destruct (negb (is_ready table)); [by apply triple_fail|].
  apply (triple_looks runner paths blind m0); [unfold mapping_interface_status; by apply checks_looked, (run_looked runner)|intros i]. destruct (negb (is_ready i)); [by apply triple_fail|].
  apply triple_at. intros w Hg. eapply triple_run; [by apply mapping_status_eq|].
  destruct (chain_state_spec runner "nft.chain.dns-mapping" "dynet-owned optional DNS port mapping" "explicitly apply the optional DNS mapping" MAPPING_CHAIN
    (λ stdout, mapping_is_expected stdout (Some o)) (machine w) (mapping_owned_text _)) as [_ Hn].
  destruct (check_state (mapping_check runner (Some o) (machine w))) eqn:Es; [by apply triple_ret; intros s ->| |by apply triple_fail; intros s ->..].
  unfold mapping_check in Es. unfold is_ready, state_is in Hn. rewrite Es in Hn. specialize (Hn eq_refl eq_refl).
  apply (triple_bind _ _ _ _ (λ _, made_mapping)).
  - intros x w' r -> (Hfs & out & Eo & Hres)%run_required_spec. destruct Hg as [[C Hr] Hf].
    assert (∀ D, D = (if succeeded out then Chain MAPPING_CHAIN :: C else C) → reaches runner paths blind m0 (machine w') D) as Hr1.
    { intros D ->. unfold TakeoverPolicy.reaches in *. eapply rtc_r; [exact Hr|]. eapply step_make; [|done|exact Eo]. split; [done|].
      by exists ["type"; "nat"; "hook"; "prerouting"; "priority"; "-100;"; "policy"; "accept;"]. }
    specialize (Hr1 _ eq_refl). destruct Hres as [[-> Ho]|[[e ->] Ho]]; rewrite Ho in Hr1; [split; [split; [by eexists|by rewrite Hfs]|eexists; split; [exact Hr1|by left]]|split; [by eexists|by rewrite Hfs]].
  - intros _. apply (triple_bind _ _ _ _ (λ _, good)); [|intros _; by apply triple_ret]. destruct (mapping_rules_shape o) as [rules ->]. by apply add_mapping_rules_good.
Qed.

Lemma mapping_cleanup_good : triple good (mapping_cleanup_with_runner runner) (λ _, good) good.
Proof.
  unfold mapping_cleanup_with_runner. apply triple_at. intros w Hg. eapply triple_run; [by apply mapping_status_eq|].
  destruct (chain_state_spec runner "nft.chain.dns-mapping" "dynet-owned optional DNS port mapping" "explicitly apply the optional DNS mapping" MAPPING_CHAIN
    (λ stdout, mapping_is_expected stdout None) (machine w) (mapping_owned_text _)) as [Ho _].
  destruct (check_state (mapping_check runner None (machine w))) eqn:Es; [|by apply triple_ret; intros s ->|by apply triple_fail; intros s ->..].
  unfold mapping_check in Es. unfold is_ready, state_is in Ho. rewrite Es in Ho. specialize (Ho eq_refl).
  apply (triple_bind _ _ _ _ (λ _, good)); [|intros _; by apply triple_ret]. apply (triple_command runner paths blind m0); [done|].
  intros m' out C E. exists C. eapply (step_remove _ _ _ (Chain MAPPING_CHAIN)); [by left|exact E].
Qed.
End operations.
