(* ===== verification/TakeoverHost.v ===== *)
(** * TakeoverHost: a small host for the commands of the takeover

    A concrete runner under which the documented behaviour of TakeoverPolicy holds: what is listed
    of every artifact, and how many more rules nft takes. The examples and witnesses of
    the takeover run on it. *)
From Stdlib Require Import ZArith Lia Ascii String Strings.Byte Relations.
From stdpp Require Import base list numbers option strings gmap relations.
From S2P Require Import Prelude Net RustStd Wire HostFiles Takeover ConfigData Settings TakeoverScope TakeoverHooks DnsMapping TakeoverPolicy.
Local Open Scope string_scope.

Record Host := { shown : Artifact → option string; budget : nat }.

#[export] Instance host_links : LinkedFiles Host := {
  linked_read := λ _ _, inl "Too many levels of symbolic links (os error 40)";
  linked_write := λ _ _ m, (m, inl "Too many levels of symbolic links (os error 40)") }.

Definition known : list Artifact :=
  ([Table; Tun; Route IPv4; Route IPv6; Rule IPv4; Rule IPv6; LegacyRule] ++ List.map Chain (OUTPUT_CHAIN :: ROUTER_CHAIN :: MAPPING_CHAIN :: NFT_CHAINS))%list.

Definition same_command (x y : string * list string) : bool := bool_decide (x = y).
Definition listed (command : string) (args : list string) : option Artifact :=
  if same_command (command, args) ("ip", ["-br"; "link"; "show"; "dev"; TUN_INTERFACE; "up"]) then Some Tun
  else List.find (λ a, same_command (command, args) (query a)) known.

Definition output_of (a : Artifact) (text : option string) : CommandOutput :=
  match a, text with
  | _, Some t => {| success := true; stdout := t; stderr := "" |}
  | (Route _ | Rule _ | LegacyRule), None => {| success := true; stdout := ""; stderr := "" |}
  | _, None => {| success := false; stdout := ""; stderr := "No such file or directory" |}
  end.

Definition fine : CommandOutput := {| success := true; stdout := "ok"; stderr := "" |}.
Definition show (a : Artifact) (text : option string) (m : Machine Host) : Machine Host :=
  mk_machine (files m) {| shown := λ b, if decide (a = b) then text else shown (host m) b; budget := budget (host m) |}.

(** The text that is listed of a new artifact. *)
Definition new_text (a : Artifact) : string :=
  match a with
  | Table => NFT_TABLE_OWNER_MARKER
  | Chain c => chain_owner c ++ nl ++
      (if String.eqb c ROUTER_CHAIN then "type filter hook prerouting priority -151;" else if String.eqb c OUTPUT_CHAIN then "type route hook output priority -150;"
       else if String.eqb c MAPPING_CHAIN then "type nat hook prerouting priority -100;" else "")
  | Tun => "dynet0"
  | Route _ => "default dev dynet0 scope link"
  | Rule _ => "10000: from all fwmark 0x40000000/0x40000000 lookup 51880"
  | LegacyRule => "51880: from all fwmark 0x51880 lookup dynet"
  end.

Definition made_by (command : string) (args : list string) : option Artifact :=
  if String.eqb command "nft" then Some Table
  else List.find (λ a, match a with Tun => same_command (command, args) ("ip", ["tuntap"; "add"; "dev"; TUN_INTERFACE; "mode"; "tun"])
                       | Route v => same_command (command, args) ("ip", route_args v "add") | Rule v => same_command (command, args) ("ip", rule_args v "add") | _ => false end) known.

Definition add_rule (c : string) (rule : list string) (m : Machine Host) : Machine Host * (string + CommandOutput) :=
  match budget (host m) with
  | O => (m, inr {| success := false; stdout := ""; stderr := "Operation not supported" |})
  | S n =>
      let text := match shown (host m) (Chain c) with Some t => Some (t ++ nl ++ String.concat " " rule) | None => None end in
      let m' := show (Chain c) text m in
      (mk_machine (files m') {| shown := shown (host m'); budget := n |}, inr fine)
  end.

Definition host_run : SystemRunner Host := λ command args m,
  if is_listing command args then (m, inr match listed command args with Some a => output_of a (shown (host m) a) | None => fine end)
  else
    let other :=
      match List.find (λ a, same_command (command, args) (removal a)) known with
      | Some a => (show a None m, inr fine)
      | None => match made_by command args with Some a => (show a (Some (new_text a)) m, inr fine) | None => (m, inr fine) end
      end in
    match args with
    | verb :: kind :: _ :: _ :: name :: rest =>
        if String.eqb verb "add" && String.eqb kind "chain" then (show (Chain name) (Some (new_text (Chain name))) m, inr fine)
        else if String.eqb verb "add" && String.eqb kind "rule" then add_rule name rest m
        else other
    | _ => other
    end.

(** ** The documented behaviour holds *)
Lemma listing_shown a m : hook a → listing host_run a m = inr (output_of a (shown (host m) a)).
Proof. destruct a as [|c| |v|v|]; try done; [intros [->| ->]|destruct v..]; reflexivity. Qed.

Lemma listing_show a t b m m' : hook b → a ≠ b → shown (host m') = shown (host (show a t m)) → listing host_run b m' = listing host_run b m.
Proof. intros Hb Hne E. rewrite !listing_shown by done. rewrite E. cbn. by rewrite decide_False. Qed.

Lemma make_shows a command args m : hook a → makes a command args → host_run command args m = (show a (Some (new_text a)) m, inr fine).
Proof. destruct a as [|c| |v|v|]; try done; [intros _ [-> [rest ->]]; reflexivity|intros _ [-> ->]; destruct v; reflexivity..]. Qed.

Lemma removal_shows a m : hook a → host_run (removal a).1 (removal a).2 m = (show a None m, inr fine).
Proof. destruct a as [|c| |v|v|]; try done; [intros [->| ->]|destruct v..]; reflexivity. Qed.

Lemma fill_shows c rule m : host_run "nft" (nft_rule c rule) m = add_rule c rule m.
Proof. reflexivity. Qed.

#[export] Instance host_laws : CommandLaws host_run.
Proof.
  split.
  - intros command args m Hl. unfold host_run. by rewrite Hl.
  - intros a b command args m m' r Ha Hb Hm E Hne. rewrite (make_shows a) in E by done. injection E as <- <-. destruct Hne as [Hne|]; [|done]. by eapply listing_show.
  - intros c b rule m m' r Hb Hne E. rewrite fill_shows in E. unfold add_rule in E. destruct (budget (host m)); injection E as <- <-; [done|]. eapply (listing_show (Chain c)); [done|congruence|reflexivity].
  - intros a b m m' r Ha Hb Hne E. rewrite removal_shows in E by done. injection E as <- <-. by eapply listing_show.
  - intros a m m' r Ha E _. rewrite removal_shows in E by done. injection E as <- <-. unfold present. rewrite listing_shown by done. cbn. rewrite decide_True by done.
    destruct a; try done; cbn; intros []; done.
Qed.

(** ** A host with the skeleton in place *)
Definition sample_paths : LinuxTakeoverPaths :=
  {| sysctl_dir := "/etc/sysctl.d"; rt_tables_dir := "/etc/iproute2/rt_tables.d"; systemd_system_dir := "/etc/systemd/system"; tun_device := "/dev/net/tun"; command_dirs := ["/bin"] |}.
Definition sample_files : Files := list_to_map [
  (key "/etc/sysctl.d", Directory); (key "/etc/sysctl.d/90-dynet.conf", Regular sysctl_fragment_content 420);
  (key "/etc/iproute2/rt_tables.d", Directory); (key "/etc/iproute2/rt_tables.d/dynet.conf", Regular rt_tables_fragment_content 420);
  (key "/dev/net/tun", Special ToDevice); (key "/bin/ip", Regular "" 493); (key "/bin/nft", Regular "" 493); (key "/bin/sysctl", Regular "" 493)].
Definition skeleton_shown : Artifact → option string := λ a,
  if decide (a ∈ Table :: Tun :: List.map Chain NFT_CHAINS) then Some (new_text a) else None.
Definition sample_world (rules : nat) : World Host := mk_world (mk_machine sample_files {| shown := skeleton_shown; budget := rules |}) [].
Definition sample_router : RouterHookOptions :=
  {| scope := {| interface := "br-lan"; ipv4_sources := ["192.168.1.0/24"]; ipv6_sources := [] |}; router_ipv6_enabled := false |}.

Definition sample_hooks : HookOptions := {| service_uid := 999; hook_ipv6_enabled := true |}.
Definition sample_mapping : DnsMappingOptions :=
  {| mapping_scope := scope sample_router; source_port := 53; target := socket_addr (V4 0) 1053; mapping_ipv6_enabled := false |}.
