(* ===== verification/TakeoverClaims.v ===== *)
(** * TakeoverClaims: what holds of every operation of the takeover

    The operations of [LinuxTakeover] as one type; that each follows the policy of
    TakeoverPolicy, that a failing router hook is rolled back, and that what is applied is not
    applied again; with a small host on which the operations run. *)
From Stdlib Require Import ZArith Lia Ascii String Strings.Byte Relations.
From stdpp Require Import base list numbers option strings gmap relations.
From S2P Require Import Prelude Net RustStd Wire HostFiles Takeover ConfigData Settings TakeoverScope TakeoverHooks DnsMapping TakeoverPolicy TakeoverSafety HookSafety TakeoverHost.
Local Open Scope string_scope.

(** ** The operations that change the host *)
Inductive Operation :=
  | Apply (auto : bool) | Cleanup
  | HooksApply (o : HookOptions) | HooksCleanup
  | RouterApply (o : RouterHookOptions) | RouterCleanup
  | MappingApply (o : DnsMappingOptions) | MappingCleanup.

Section claims.
Context {H : Type} `{!LinkedFiles H} (creation_mode : Z) (runner : SystemRunner H) (paths : LinuxTakeoverPaths) (error_text : config_error → string).

(** The public operation with the runner of the host, and the actions that it reports. *)
Definition perform (op : Operation) : act (World H) string (list string) :=
  match op with
  | Apply auto => r ← apply creation_mode runner paths auto; mret (apply_actions r)
  | Cleanup => r ← cleanup runner paths; mret (cleanup_actions r)
  | HooksApply o => hooks_apply_options_with paths runner o
  | HooksCleanup => hooks_cleanup_with_runner runner
  | RouterApply o => router_hooks_apply_with paths error_text runner o
  | RouterCleanup => router_hooks_cleanup_with runner
  | MappingApply o => dns_mapping_apply runner error_text o
  | MappingCleanup => dns_mapping_cleanup runner
  end.

(** What makes an operation have nothing to do. *)
Definition applied (op : Operation) (m : Machine H) : Prop :=
  match op with
  | HooksApply o => ∀ a, a ∈ hook_list (hook_ipv6_enabled o) OUTPUT_CHAIN → is_ready (check_at runner (Some o) None a m) = true
  | RouterApply o => ∀ a, a ∈ hook_list (router_ipv6_enabled o) ROUTER_CHAIN → is_ready (check_at runner None (Some o) a m) = true
  | MappingApply o => is_ready (mapping_check runner (Some o) m) = true
  | _ => False
  end.

Section ready.
Context `{!CommandLaws runner}.
Abbreviation doing := (act (World H * list string) string).

(** A body that finds everything ready: the world and the actions stay. *)
Definition idle (m : doing unit) (w : World H) : Prop := ∀ l, m (w, l) = ((w, l), Ok tt).

Lemma idle_bind (m k : doing unit) w : idle m w → idle k w → idle (_ ← m; k) w.
Proof. intros Hm Hk l. rewrite (act_bind_ok _ _ _ _ _ (Hm l)). apply Hk. Qed.

Lemma idle_look (status : act (World H) string TakeoverCheck) (f : TakeoverCheck → doing unit) w g : status w = (w, Ok g) → idle (f g) w → idle (on_fst status ≫= f) w.
Proof. intros Hs Hf l. rewrite (act_bind_ok _ _ _ (w, l) g); [apply Hf|]. unfold on_fst. by rewrite Hs. Qed.

Lemma idle_collecting (m : doing unit) w : idle m w → ('(_, actions) ← collecting m; mret actions) w = (w, Ok []).
Proof. intros Hm. rewrite (act_bind_ok _ _ w w (tt, [])); [done|]. unfold collecting. by rewrite Hm. Qed.

Lemma idle_family v w : is_ready (route_check runner v (machine w)) = true → is_ready (rule_check runner v (machine w)) = true → idle (ensure_family_hooks runner v) w.
Proof.
  intros H1 H2. unfold ensure_family_hooks. eapply idle_look; [by apply route_status_eq|]. rewrite H1. apply idle_bind; [done|].
  eapply idle_look; [by apply rule_status_eq|]. by rewrite H2.
Qed.

Lemma idle_versions o r (v6 : bool) c (k : doing unit) w : (∀ a, a ∈ hook_list v6 c → is_ready (check_at runner o r a (machine w)) = true) → idle k w →
  idle (_ ← ensure_family_hooks runner IPv4; _ ← (if v6 then ensure_family_hooks runner IPv6 else mret tt); k) w.
Proof.
  unfold hook_list. intros Hr Hk. apply idle_bind; [apply idle_family; [apply (Hr (Route IPv4))|apply (Hr (Rule IPv4))]; set_solver|].
  apply idle_bind; [|done]. destruct v6; [|done]. apply idle_family; [apply (Hr (Route IPv6))|apply (Hr (Rule IPv6))]; set_solver.
Qed.

(** Behind checks that only look, an idle installation leaves the machine. *)
Lemma looks_idle {A} (m : act (World H) string A) (f : A → act (World H) string (list string)) (P : Machine H → Prop) w w' r : obeys looked m → P (machine w) →
  (∀ a w w' r, P (machine w) → f a w = (w', r) → machine w' = machine w ∧ (r = Ok [] ∨ ∃ e, r = Err e)) → (m ≫= f) w = (w', r) →
  machine w' = machine w ∧ (r = Ok [] ∨ ∃ e, r = Err e).
Proof.
  intros Hm Hp Hf [[[e ->] [Hl _]]|(w1 & a & [Hl _] & E)]%looks_cases; [by eauto| |done]. rewrite <- Hl in Hp. destruct (Hf _ _ _ _ Hp E). split; [congruence|done].
Qed.

Lemma hooks_idle o w w' r : applied (HooksApply o) (machine w) → perform (HooksApply o) w = (w', r) → machine w' = machine w ∧ (r = Ok [] ∨ ∃ e, r = Err e).
Proof.
  intros Ha. cbn [perform]. unfold hooks_apply_options_with. destruct (service_uid o =? 0)%Z; [intros [= <- <-]; eauto|].
  apply (looks_idle _ _ (applied (HooksApply o))); [by apply require_skeleton_looked|done|clear w w' r Ha; intros _ w w' r Ha].
  assert (hooks_status_with runner o w = (w, Ok (List.map (λ a, check_at runner (Some o) None a (machine w)) (hook_list (hook_ipv6_enabled o) OUTPUT_CHAIN)))) as Ec.
  { apply (hook_checks_eq runner). intros w4. by apply output_chain_status_eq. }
  rewrite (act_bind_ok _ _ _ _ _ Ec). apply (looks_idle _ _ (applied (HooksApply o))); [apply reject_looked|done|]. clear w w' r Ha Ec. intros _ w w' r Ha.
  rewrite idle_collecting; [intros [= <- <-]; auto|]. apply (idle_versions (Some o) None _ OUTPUT_CHAIN); [done|].
  eapply idle_look; [by apply output_chain_status_eq|]. assert (is_ready (output_check runner (Some o) (machine w)) = true) as ->; [|done]. apply (Ha (Chain OUTPUT_CHAIN)). unfold hook_list. set_solver.
Qed.

Lemma router_idle o w w' r : applied (RouterApply o) (machine w) → perform (RouterApply o) w = (w', r) → machine w' = machine w ∧ (r = Ok [] ∨ ∃ e, r = Err e).
Proof.
  intros Ha. cbn [perform]. unfold router_hooks_apply_with.
  apply (looks_idle _ _ (applied (RouterApply o))); [apply validate_router_looked|done|clear w w' r Ha; intros _ w w' r Ha].
  apply (looks_idle _ _ (applied (RouterApply o))); [by apply require_skeleton_looked|done|clear w w' r Ha; intros _ w w' r Ha].
  apply (looks_idle _ _ (applied (RouterApply o))); [by apply router_interface_status_looked|done|clear w w' r Ha; intros k w w' r Ha].
  destruct (negb (is_ready k)); [intros [= <- <-]; eauto|].
  assert (router_hooks_status_with runner (Some o) w = (w, Ok (List.map (λ a, check_at runner None (Some o) a (machine w)) (hook_list (router_ipv6_enabled o) ROUTER_CHAIN)))) as Ec.
  { apply (hook_checks_eq runner). intros w4. by apply router_chain_status_eq. }
  rewrite (act_bind_ok _ _ _ _ _ Ec). apply (looks_idle _ _ (applied (RouterApply o))); [apply reject_looked|done|]. clear w w' r Ha Ec. intros _ w w' r Ha.
  unfold install_or_roll_back. assert (idle (install_router runner o) w) as ->; [|intros [= <- <-]; auto].
  apply (idle_versions None (Some o) _ ROUTER_CHAIN); [done|].
  eapply idle_look; [by apply router_chain_status_eq|]. assert (is_ready (router_check runner (Some o) (machine w)) = true) as ->; [|done]. apply (Ha (Chain ROUTER_CHAIN)). unfold hook_list. set_solver.
Qed.

Lemma mapping_idle o w w' r : applied (MappingApply o) (machine w) → perform (MappingApply o) w = (w', r) → machine w' = machine w ∧ (r = Ok [] ∨ ∃ e, r = Err e).
Proof.
  intros Ha. cbn [perform]. unfold dns_mapping_apply, mapping_apply_with_runner.
  apply (looks_idle _ _ (applied (MappingApply o))); [apply check_mapping_looked|done|clear w w' r Ha; intros _ w w' r Ha].
  apply (looks_idle _ _ (applied (MappingApply o))); [unfold nft_status; by apply checks_looked, (run_looked runner)|done|clear w w' r Ha; intros k w w' r Ha].
  destruct (negb (is_ready k)); [intros [= <- <-]; eauto|].
  apply (looks_idle _ _ (applied (MappingApply o))); [unfold mapping_interface_status; by apply checks_looked, (run_looked runner)|done|clear w w' r Ha; intros i w w' r Ha].
  destruct (negb (is_ready i)); [intros [= <- <-]; eauto|]. rewrite (act_bind_ok _ _ _ _ _ (mapping_status_eq runner (Some o) w)).
  cbn [applied] in Ha. unfold is_ready, state_is in Ha. apply bool_decide_eq_true in Ha. rewrite Ha. intros [= <- <-]. auto.
Qed.
End ready.

(** ** Claims *)

(** C13: every operation of the takeover, whatever the commands answer, does not panic, only makes
    artifacts that are not listed, fills only chains that it has just made, and removes only what
    carries dynet's mark or what it has just made; the interface, which carries no mark, is removed when one
    of its name is up. It makes directories only on the paths of its two directories where nothing
    is, deletes only those of its two files that carry its marker, and writes only these two
    files: when no call on a file fails, only where nothing is or a file with its
    marker. When one fails this is not so (a failing look counts as finding nothing), and
    the policy then allows writing the two files whatever they hold. *)
Theorem takeover_follows_policy (laws : CommandLaws runner) op w w' r : perform op w = (w', r) →
  no_panic r ∧ ∃ C, reaches runner paths (∃ x, Some x ∈ faults w) (machine w) (machine w') C.
Proof.
  set (blind := ∃ x, Some x ∈ faults w). assert (start blind (machine w) w) as Hs by (split; [done|intros x Hx; by exists x]).
  assert (good runner paths blind (machine w) w) as Hg by (apply (start_good runner paths blind (machine w) true w Hs)).
  assert (∀ m : act (World H) string (list string), triple (start blind (machine w)) m (λ _, good runner paths blind (machine w)) (good runner paths blind (machine w)) → m w = (w', r) →
    no_panic r ∧ ∃ C, reaches runner paths blind (machine w) (machine w') C) as Ht.
  { intros m Hm E. specialize (Hm w w' r Hs E). destruct r; [by destruct Hm|by destruct Hm|done]. }
  assert (∀ m : act (World H) string (list string), triple (good runner paths blind (machine w)) m (λ _, good runner paths blind (machine w)) (good runner paths blind (machine w)) → m w = (w', r) →
    no_panic r ∧ ∃ C, reaches runner paths blind (machine w) (machine w') C) as Ht'.
  { intros m Hm. apply Ht. eapply triple_conseq; [exact Hm| |done|done]. intros s. apply (start_good runner paths blind (machine w) true s). }
  destruct op; cbn [perform].
  - apply Ht'. apply (triple_then runner paths blind (machine w)); [by apply apply_good|intros a; by apply triple_ret].
  - apply Ht'. apply (triple_then runner paths blind (machine w)); [by apply cleanup_good|intros a; by apply triple_ret].
  - apply Ht. by apply hooks_apply_good.
  - apply Ht'. by apply hooks_cleanup_good.
  - intros E. apply (router_apply_outcome runner paths blind error_text (machine w)) in E as [[Hc _] Hr]; [|done]. split; [by destruct r|done].
  - apply Ht'. by apply router_cleanup_good.
  - apply Ht'. by apply mapping_apply_good.
  - apply Ht'. by apply mapping_cleanup_good.
Qed.

(** C14: applying the router hook is all or nothing: when it does not succeed and does not report that
    undoing failed as well, every route, rule and chain of the hooks is listed as before, or
    was not there before and is not there now. *)
Theorem router_apply_all_or_nothing (laws : CommandLaws runner) o w w' e :
  perform (RouterApply o) w = (w', Err e) → starts_with e "router hook apply failed: " = false →
  ∀ a, hook a → listing runner a (machine w') = listing runner a (machine w) ∨ (¬ present runner a (machine w) ∧ ¬ present runner a (machine w')).
Proof.
  intros E He a Ha. apply (router_apply_outcome runner paths (∃ x, Some x ∈ faults w) error_text (machine w)) in E as [_ [Hm|[Hr|[rest ->]]]].
  - left. by rewrite Hm.
  - by apply Hr.
  - unfold starts_with in He; by rewrite prefix_app in He.
  - split; [done|]. intros x Hx. by exists x.
Qed.

(** C: applying hooks or a mapping that are already there changes nothing on the host and reports no action. *)
Theorem applied_is_idle (laws : CommandLaws runner) op w w' r : applied op (machine w) → perform op w = (w', r) →
  machine w' = machine w ∧ (r = Ok [] ∨ ∃ e, r = Err e).
Proof. destruct op; try done; intros Ha; [by apply hooks_idle|by apply router_idle|by apply mapping_idle]. Qed.
End claims.

(** ** On the sample host *)
Abbreviation performed op w := (perform 420 host_run sample_paths (λ _, "invalid scope") op w).
Definition host_shows (w : World Host) (a : Artifact) : bool := match shown (host (machine w)) a with Some _ => true | None => false end.
Definition same_shown (w w' : World Host) : bool := forallb (λ a, bool_decide (shown (host (machine w)) a = shown (host (machine w')) a)) known.
Definition err_text {A} (r : outcome string A) : string := match r with Err e => e | _ => "" end.

(** nft takes three of the rules of the router: the hook is rolled back. *)
Example router_rolled_back :
  let '(w', r) := performed (RouterApply sample_router) (sample_world 3) in
  starts_with (err_text r) "router hook apply failed and rolled back newly owned artifacts: nft add rule" = true ∧ same_shown (sample_world 3) w' = true.
Proof. vm_compute. done. Qed.

(** With all rules it is there, and removing it leaves what was before. *)
Example router_applied_and_removed :
  let '(w1, r1) := performed (RouterApply sample_router) (sample_world 20) in
  let '(w2, r2) := performed RouterCleanup w1 in
  is_ok r1 = true ∧ host_shows w1 (Chain ROUTER_CHAIN) = true ∧ is_ok r2 = true ∧ same_shown (sample_world 20) w2 = true.
Proof. vm_compute. done. Qed.

(** The output hook is not rolled back: what a failing one leaves is refused as drifted. *)
Example output_left_behind :
  let '(w1, r1) := performed (HooksApply sample_hooks) (sample_world 3) in
  let '(w2, r2) := performed (HooksApply sample_hooks) w1 in
  host_shows w1 (Chain OUTPUT_CHAIN) = true ∧
  starts_with (err_text r2) "dynet hooks found foreign or drifted artifacts and refuse to overwrite them: nft.chain.output=invalid-hard-fail" = true.
Proof. vm_compute. done. Qed.

(** A scope that was made narrower counts as applied although the network that was dropped is still marked. *)
Example narrowed_scope_stays :
  let wide := {| scope := {| interface := "br-lan"; ipv4_sources := ["192.168.1.0/24"; "192.168.2.0/24"]; ipv6_sources := [] |}; router_ipv6_enabled := false |} in
  let '(w1, r1) := performed (RouterApply wide) (sample_world 20) in
  let '(w2, r2) := performed (RouterApply sample_router) w1 in
  r2 = Ok [] ∧ match shown (host (machine w2)) (Chain ROUTER_CHAIN) with Some t => contains "192.168.2.0/24" t | None => false end = true.
Proof. vm_compute. done. Qed.

Definition router_world : World Host := (performed (RouterApply sample_router) (sample_world 20)).1.
Definition rolled_back_error : string := err_text (performed (RouterApply sample_router) (sample_world 3)).2.

Lemma takeover_follows_policy_witness :
  no_panic (performed (RouterApply sample_router) (sample_world 20)).2 ∧
  ∃ C, reaches host_run sample_paths (∃ x, Some x ∈ faults (sample_world 20)) (machine (sample_world 20)) (machine router_world) C.
Proof.
  apply (takeover_follows_policy 420 host_run sample_paths (λ _, "invalid scope") host_laws (RouterApply sample_router) (sample_world 20) router_world (performed (RouterApply sample_router) (sample_world 20)).2).
  apply surjective_pairing.
Defined.

Lemma router_apply_all_or_nothing_witness :
  starts_with rolled_back_error "router hook apply failed: " = false ∧
  let w' := (performed (RouterApply sample_router) (sample_world 3)).1 in
  (listing host_run (Chain ROUTER_CHAIN) (machine w') = listing host_run (Chain ROUTER_CHAIN) (machine (sample_world 3)) ∨
   (¬ present host_run (Chain ROUTER_CHAIN) (machine (sample_world 3)) ∧ ¬ present host_run (Chain ROUTER_CHAIN) (machine w'))).
Proof.
  split; [vm_compute; reflexivity|]. cbv zeta.
  apply (router_apply_all_or_nothing 420 host_run sample_paths (λ _, "invalid scope") host_laws sample_router (sample_world 3) _ rolled_back_error).
  - rewrite (surjective_pairing (performed (RouterApply sample_router) (sample_world 3))). f_equal; vm_compute; reflexivity.
  - vm_compute. reflexivity.
  - by right.
Defined.

Lemma applied_is_idle_witness : machine (performed (RouterApply sample_router) router_world).1 = machine router_world ∧
  ((performed (RouterApply sample_router) router_world).2 = Ok [] ∨ ∃ e, (performed (RouterApply sample_router) router_world).2 = Err e).
Proof.
  apply (applied_is_idle 420 host_run sample_paths (λ _, "invalid scope") host_laws (RouterApply sample_router)); [|apply surjective_pairing].
  intros a Ha. assert (forallb (λ a, is_ready (check_at host_run None (Some sample_router) a (machine router_world))) (hook_list false ROUTER_CHAIN) = true) as Hf by (vm_compute; reflexivity).
  rewrite forallb_forall in Hf. apply Hf. by apply list_elem_of_In.
Defined.
