(* ===== verification/Maintenance.v ===== *)
(** * Maintenance: retention and the size budget of the store

    [crates/dynet-runtime/src/persistence/maintenance.rs] and the budgets of
    [RuntimeStore::open_with_policy]. How many pages the tables take is SQLite's
    affair: each reading of the page counters is an argument. *)
From Stdlib Require Import ZArith Lia Strings.Byte Ascii String Sorting.Sorted.
From stdpp Require Import base list numbers option strings gmap sets.
From S2P Require Import Prelude Collections Net RustStd Model Stores Validation Traffic MatrixStats Matrix Bootstrap Observations Runtime Recovery ConfigData Forwarding Settings.
Local Open Scope string_scope.
Local Open Scope nat_scope.

Definition DATABASE_BUDGET_NUMERATOR : Z := 7.
Definition DATABASE_BUDGET_DENOMINATOR : Z := 8.
Definition HIGH_WATER_PERCENT : Z := 85.
Definition LOW_WATER_PERCENT : Z := 65.
Definition DELETE_BATCH_SIZE : nat := 512.

(** [u64::saturating_mul], [i64::saturating_sub] *)
Definition sat_mul_u64 (a b : Z) : Z := Z.min (a * b) (2 ^ 64 - 1).
Definition sat_sub_i64 (a b : Z) : Z := Z.max (a - b) (- 2 ^ 63).

Definition database_budget (p : PersistencePolicy) : Z :=
  sat_mul_u64 (max_bytes p) DATABASE_BUDGET_NUMERATOR / DATABASE_BUDGET_DENOMINATOR.

(** ** Page counters *)
Record PageMetrics := { page_size : Z; page_count : Z; freelist_count : Z }.

Definition allocated_bytes (m : PageMetrics) : Z := sat_mul_u64 (page_count m) (page_size m).
Definition live_bytes (m : PageMetrics) : Z := sat_mul_u64 (sat_sub (page_count m) (freelist_count m)) (page_size m).

(** ** Expiry *)
Definition cutoff (p : PersistencePolicy) (now : Z) : Z := sat_sub_i64 now (u64_to_i64 (as_millis (retention p))).

Definition prune_expired (p : PersistencePolicy) (now : Z) (o : Observations) : Observations :=
  let c := cutoff p now in
  {| runtime_events := List.filter (λ r, negb (er_observed_at r <? c)%Z) (runtime_events o);
     selection_decisions := List.filter (λ r, negb (dr_observed_at r <? c)%Z) (selection_decisions o);
     runtime_traffic_sessions :=
       filter (λ kr, negb ((sr_last_observed_at kr.2 <? c)%Z && completed_row kr.2) = true) (runtime_traffic_sessions o);
     matrix_shadow_decisions := List.filter (λ r, negb (hr_observed_at r <? c)%Z) (matrix_shadow_decisions o);
     last_row_id := last_row_id o |}.

(** ** Size *)

(** [delete from t where key in (select key from t order by ... limit n)] *)
Definition oldest {R} (order : R → R → comparison) (n : nat) (t : list R) : list R := firstn n (sort_by order t).

Definition delete_oldest {K R} `{EqDecision K} (order : R → R → comparison) (key : R → K) (n : nat) (t : list R) : list R :=
  List.filter (λ r, negb (existsb (λ r', bool_decide (key r' = key r)) (oldest order n t))) t.

Definition event_row_order (a b : EventRow) : comparison :=
  then_with (cmp (er_observed_at a) (er_observed_at b)) (cmp (er_row_id a) (er_row_id b)).
Definition decision_row_order (a b : DecisionRow) : comparison :=
  then_with (cmp (dr_observed_at a) (dr_observed_at b)) (cmp (dr_row_id a) (dr_row_id b)).

Definition delete_oldest_sessions (n : nat) (m : gmap string SessionRow) : gmap string SessionRow :=
  filter (λ kr, negb (existsb (λ r, String.eqb (sr_session_key r) kr.1) (oldest session_row_order n (btree_values m))) = true) m.

Definition total_rows (o : Observations) : nat :=
  length (runtime_events o) + length (selection_decisions o) + size (runtime_traffic_sessions o)
  + length (matrix_shadow_decisions o).

(** The tables after a batch; the number of rows deleted is the difference. *)
Definition delete_oldest_batch (o : Observations) : Observations * nat :=
  let o' :=
    {| runtime_events := delete_oldest event_row_order er_row_id DELETE_BATCH_SIZE (runtime_events o);
       selection_decisions := delete_oldest decision_row_order dr_row_id DELETE_BATCH_SIZE (selection_decisions o);
       runtime_traffic_sessions := delete_oldest_sessions DELETE_BATCH_SIZE (runtime_traffic_sessions o);
       matrix_shadow_decisions := delete_oldest shadow_row_order hr_row_id DELETE_BATCH_SIZE (matrix_shadow_decisions o);
       last_row_id := last_row_id o |} in
  (o', total_rows o - total_rows o').

(** The loop of [prune_for_size]; [reading n] is what the counters show the [n]th time
    they are read. [None] when the fuel is spent. *)
Fixpoint prune_loop (fuel : nat) (low_water : Z) (force first_batch : bool) (reading : nat → PageMetrics) (n : nat)
    (o : Observations) : option Observations :=
  match fuel with
  | O => None
  | S fuel' =>
      if (negb force || negb first_batch) && (live_bytes (reading n) <=? low_water)%Z then Some o
      else
        let '(o', deleted) := delete_oldest_batch o in
        if deleted =? 0 then Some o' else prune_loop fuel' low_water force false reading (S n) o'
  end.

Definition high_water (p : PersistencePolicy) : Z := sat_mul_u64 (database_budget p) HIGH_WATER_PERCENT / 100.
Definition low_water (p : PersistencePolicy) : Z := sat_mul_u64 (database_budget p) LOW_WATER_PERCENT / 100.

(** Every round but the last deletes a row. *)
Definition prune_for_size (p : PersistencePolicy) (force : bool) (reading : nat → PageMetrics) (o : Observations)
    : option Observations :=
  if negb force && (allocated_bytes (reading 0%nat) <? high_water p)%Z then Some o
  else prune_loop (total_rows o + 2) (low_water p) force true reading 1 o.

(** [maintain]; the checkpoint does not change the tables. *)
Definition maintain (p : PersistencePolicy) (now : Z) (force : bool) (reading : nat → PageMetrics) (o : Observations)
    : option Observations :=
  prune_for_size p force reading (prune_expired p now o).

(** ** The tables stay well keyed *)
Record tables_ok (o : Observations) : Prop := {
  ok_events : NoDup (List.map er_row_id (runtime_events o));
  ok_decisions : NoDup (List.map dr_row_id (selection_decisions o));
  ok_shadows : NoDup (List.map hr_row_id (matrix_shadow_decisions o));
  ok_sessions : rows_keyed (runtime_traffic_sessions o);
  ok_event_ids : Forall (λ r, er_row_id r ≤ (last_row_id o).1.1)%Z (runtime_events o);
  ok_decision_ids : Forall (λ r, dr_row_id r ≤ (last_row_id o).1.2)%Z (selection_decisions o);
  ok_shadow_ids : Forall (λ r, hr_row_id r ≤ (last_row_id o).2)%Z (matrix_shadow_decisions o) }.

(** One more row under the next row id. *)
Lemma next_row_ok {R} (id : R → Z) (l : list R) (r : R) (last : Z) :
  NoDup (List.map id l) → Forall (λ x, id x ≤ last)%Z l → id r = (last + 1)%Z →
  NoDup (List.map id (l ++ [r])) ∧ Forall (λ x, id x ≤ last + 1)%Z (l ++ [r])%list.
Proof.
  intros Hnd Hl Hr. split.
  - rewrite map_app. apply NoDup_app. split_and!; [done| |apply NoDup_singleton].
    intros z Hz%list_elem_of_In%in_map_iff Hz'%list_elem_of_singleton. destruct Hz as (x & <- & Hx%list_elem_of_In).
    rewrite Forall_forall in Hl. specialize (Hl x Hx). cbn in Hz'. lia.
  - apply Forall_app. split; [eapply Forall_impl; [exact Hl|cbn; lia]|]. apply Forall_singleton. lia.
Qed.

Lemma no_observations_ok : tables_ok no_observations.
Proof. split; cbn; try constructor. intros k r. by rewrite lookup_empty. Qed.

Lemma insert_event_ok o e : tables_ok o → tables_ok (insert_event o e).
Proof.
  intros [He Hd Hh Hk Hei Hdi Hhi]. unfold insert_event. destruct (last_row_id o) as [[er dr] hr] eqn:El.
  destruct (next_row_ok er_row_id (runtime_events o)
    {| er_row_id := er + 1; er_event_id := u64_to_i64 (event_id e); er_observed_at := u64_to_i64 (event_at e);
       er_kind := kind_str (event_kind e); er_fields := event_fields e |} er He Hei eq_refl) as [H1 H2].
  split; cbn; [exact H1|done|done| |exact H2|done|done].
  destruct (session_update_from_event e); [by apply upsert_keyed|done].
Qed.

Lemma insert_decision_ok o t c d : tables_ok o → tables_ok (insert_selection_decision o t c d).
Proof.
  intros [He Hd Hh Hk Hei Hdi Hhi]. unfold insert_selection_decision. destruct (last_row_id o) as [[er dr] hr] eqn:El.
  destruct (next_row_ok dr_row_id (selection_decisions o) (decision_row (dr + 1) t c d) dr Hd Hdi eq_refl) as [H1 H2].
  split; cbn; [done|exact H1|done|done|done|exact H2|done].
Qed.

Lemma insert_shadow_ok o d : tables_ok o → tables_ok (insert_matrix_shadow o d).
Proof.
  intros [He Hd Hh Hk Hei Hdi Hhi]. unfold insert_matrix_shadow. destruct (last_row_id o) as [[er dr] hr] eqn:El.
  edestruct (next_row_ok hr_row_id (matrix_shadow_decisions o)) as [H1 H2]; [exact Hh|exact Hhi| |].
  2: { split; cbn; [done|done|exact H1|done|done|done|exact H2]. }
  done.
Qed.

Lemma record_events_ok evs o : tables_ok o → tables_ok (record_events o evs).
Proof. revert o. induction evs as [|e evs IH]; intros o Ho; [done|]. apply IH. by apply insert_event_ok. Qed.

Lemma Forall_List_filter {A} (P : A → Prop) (p : A → bool) l : Forall P l → Forall P (List.filter p l).
Proof. induction 1 as [|x l Hx _ IH]; cbn; [done|]. destruct (p x); [by constructor|done]. Qed.

Lemma filter_keyed (P : string * SessionRow → Prop) `{∀ x, Decision (P x)} m : rows_keyed m → rows_keyed (filter P m).
Proof. intros Hm k r [Hk _]%map_lookup_filter_Some. by apply Hm. Qed.

Lemma prune_expired_ok p now o : tables_ok o → tables_ok (prune_expired p now o).
Proof.
  intros []. split; cbn; try (by apply NoDup_map_filter); try (by apply Forall_List_filter). by apply filter_keyed.
Qed.

Lemma delete_batch_ok o : tables_ok o → tables_ok (delete_oldest_batch o).1.
Proof.
  intros []. split; cbn; try (by apply NoDup_map_filter); try (by apply Forall_List_filter). by apply filter_keyed.
Qed.

(** ** One batch *)
Lemma elem_delete_oldest {K R} `{EqDecision K} (order : R → R → comparison) (key : R → K) n t r :
  r ∈ delete_oldest order key n t ↔ r ∈ t ∧ ∀ r', r' ∈ oldest order n t → key r' ≠ key r.
Proof.
  unfold delete_oldest. rewrite list_elem_of_In, filter_In, <- list_elem_of_In, negb_true_iff. split; intros [Hr He]; split; try done.
  - intros r' Hr' Hk. apply not_true_iff_false in He. apply He, existsb_Exists. exists r'. by rewrite bool_decide_eq_true.
  - apply not_true_iff_false. intros (r' & Hr' & Hk%bool_decide_eq_true)%existsb_Exists. by apply (He r').
Qed.

Lemma oldest_elem {R} (order : R → R → comparison) n t r : r ∈ oldest order n t → r ∈ t.
Proof. intros Hr. apply (elem_of_sort_by order). unfold oldest in Hr. rewrite <- (firstn_skipn n (sort_by order t)). apply elem_of_app. by left. Qed.

Lemma elem_firstn_skipn {A} n (l : list A) x : x ∈ l ↔ x ∈ firstn n l ∨ x ∈ skipn n l.
Proof. rewrite <- (firstn_skipn n l) at 1. apply elem_of_app. Qed.

(** A batch leaves the table without its [n] oldest rows. *)
Lemma delete_oldest_rest {K R} `{EqDecision K} (order : R → R → comparison) (key : R → K) n t :
  NoDup (List.map key t) → delete_oldest order key n t ≡ₚ skipn n (sort_by order t).
Proof.
  intros Hnd. assert (NoDup (List.map key (sort_by order t))) as Hs.
  { rewrite (sort_by_perm order t). done. }
  apply NoDup_Permutation.
  - eapply NoDup_of_map, NoDup_map_filter, Hnd.
  - apply NoDup_of_map in Hs. rewrite <- (firstn_skipn n (sort_by order t)) in Hs. by apply NoDup_app in Hs as (_ & _ & ?).
  - intros r. rewrite elem_delete_oldest, <- (elem_of_sort_by order), (elem_firstn_skipn n). unfold oldest. split.
    + intros [[Hr|Hr] Hk]; [|done]. by destruct (Hk r).
    + intros Hr. split; [by right|]. intros r' Hr' He.
      rewrite <- (firstn_skipn n (sort_by order t)), map_app in Hs. apply NoDup_app in Hs as (_ & Hd & _).
      apply (Hd (key r')).
      * rewrite list_elem_of_In. by apply in_map, list_elem_of_In.
      * rewrite He, list_elem_of_In. by apply in_map, list_elem_of_In.
Qed.

(** Sorted, the rows that go come before those that stay. *)
Lemma oldest_first {R} (order : R → R → comparison) `{!CmpPreorder order} n t x y :
  x ∈ oldest order n t → y ∈ skipn n (sort_by order t) → cmp_leb order x y = true.
Proof.
  intros Hx Hy. pose proof (sort_by_sorted order t) as Hs. unfold oldest in Hx.
  rewrite <- (firstn_skipn n (sort_by order t)) in Hs.
  revert Hs Hx. generalize (firstn n (sort_by order t)) as l.
  induction l as [|z l IH]; [by intros _ ?%elem_of_nil|]. intros [Hs Hall]%StronglySorted_inv [->|Hx]%elem_of_cons; [|by apply IH].
  rewrite Forall_forall in Hall. apply Hall, elem_of_app. by right.
Qed.

Lemma session_table_rest n o : rows_keyed (runtime_traffic_sessions o) →
  btree_values (delete_oldest_sessions n (runtime_traffic_sessions o)) ≡ₚ skipn n (sort_by session_row_order (session_rows o)).
Proof.
  intros Hk. etransitivity; [|by apply (delete_oldest_rest _ sr_session_key), session_keys_NoDup].
  pose proof (session_keys_NoDup o Hk) as Hnd.
  assert (rows_keyed (delete_oldest_sessions n (runtime_traffic_sessions o))) as Hk' by by apply filter_keyed.
  apply NoDup_Permutation.
  - eapply NoDup_of_map. by apply (session_keys_NoDup {| runtime_events := []; selection_decisions := [];
      runtime_traffic_sessions := delete_oldest_sessions n (runtime_traffic_sessions o); matrix_shadow_decisions := [];
      last_row_id := last_row_id o |}).
  - by eapply NoDup_of_map, NoDup_map_filter.
  - intros r. rewrite elem_of_btree_values, elem_delete_oldest, elem_session_rows.
    split.
    + intros (k & [Hm Hf]%map_lookup_filter_Some). split; [by exists k|]. intros r' Hr' He. cbn in Hf.
      apply negb_true_iff, not_true_iff_false in Hf. apply Hf, existsb_Exists. exists r'. split; [done|].
      apply String.eqb_eq. rewrite He. by apply Hk.
    + intros [[k Hm] Hf]. exists k. apply map_lookup_filter_Some. split; [done|]. cbn.
      apply negb_true_iff, not_true_iff_false. intros (r' & Hr' & He%String.eqb_eq)%existsb_Exists.
      apply (Hf r' Hr'). rewrite He. symmetry. by apply Hk.
Qed.

Lemma size_btree_values {V} (m : gmap string V) : length (btree_values m) = size m.
Proof. unfold btree_values, btree_iter. rewrite length_fmap, length_sort_by. apply length_map_to_list. Qed.

(** The rows that a batch leaves, of each table. *)
Definition batch (o : Observations) : Observations := (delete_oldest_batch o).1.

Lemma batch_rows o : tables_ok o →
  total_rows (batch o) =
    (length (runtime_events o) - DELETE_BATCH_SIZE) + (length (selection_decisions o) - DELETE_BATCH_SIZE)
    + (size (runtime_traffic_sessions o) - DELETE_BATCH_SIZE) + (length (matrix_shadow_decisions o) - DELETE_BATCH_SIZE).
Proof.
  intros [He Hd Hh Hk _ _ _]. unfold total_rows, batch, delete_oldest_batch.
  cbn [fst runtime_events selection_decisions runtime_traffic_sessions matrix_shadow_decisions].
  rewrite (Permutation_length (delete_oldest_rest event_row_order er_row_id DELETE_BATCH_SIZE _ He)),
    (Permutation_length (delete_oldest_rest decision_row_order dr_row_id DELETE_BATCH_SIZE _ Hd)),
    (Permutation_length (delete_oldest_rest shadow_row_order hr_row_id DELETE_BATCH_SIZE _ Hh)).
  rewrite <- size_btree_values, (Permutation_length (session_table_rest DELETE_BATCH_SIZE o Hk)), !length_skipn, !length_sort_by.
  unfold session_rows. by rewrite size_btree_values.
Qed.

Lemma batch_count o : tables_ok o → (delete_oldest_batch o).2 = total_rows o - total_rows (batch o).
Proof. done. Qed.

Lemma batch_nothing o : tables_ok o → (delete_oldest_batch o).2 = 0 → total_rows o = 0.
Proof.
  intros Ho. rewrite batch_count, (batch_rows o) by done. unfold total_rows.
  assert (0 < DELETE_BATCH_SIZE) as Hb by (unfold DELETE_BATCH_SIZE; lia). lia.
Qed.

Lemma batches_ok k o : tables_ok o → tables_ok (Nat.iter k batch o).
Proof. intros Ho. induction k as [|k IH]; [done|]. cbn. by apply delete_batch_ok. Qed.

(** The loop stops; the batches it ran are the ones the counters asked for. *)
Definition wants_batch (force : bool) (low : Z) (reading : nat → PageMetrics) (j : nat) : Prop :=
  (force = true ∧ j = 0) ∨ (low < live_bytes (reading (S j)))%Z.

Lemma prune_loop_spec low force reading fuel i o :
  tables_ok o → total_rows o + 1 ≤ fuel →
  ∃ k, prune_loop fuel low force (i =? 0) reading (S i) o = Some (Nat.iter k batch o) ∧
    (∀ j, j < k → wants_batch force low reading (i + j)) ∧
    (total_rows (Nat.iter k batch o) = 0 ∨ ¬ wants_batch force low reading (i + k)).
Proof.
  revert i o. induction fuel as [|fuel IH]; intros i o Ho Hfuel; [lia|]. cbn [prune_loop].
  assert (((negb force || negb (i =? 0)) && (live_bytes (reading (S i)) <=? low)%Z) = false ↔
          wants_batch force low reading i) as Hw.
  { unfold wants_batch. destruct force, (Nat.eqb_spec i 0), (Z.leb_spec (live_bytes (reading (S i))) low); cbn; split; intros ?; try done;
      try (by left); try (right; lia); destruct_or?; destruct_and?; try done; lia. }
  destruct (_ && _) eqn:E.
  - exists 0. split; [done|]. split; [intros j Hj; lia|]. right. rewrite Nat.add_0_r. intros Hx%Hw. done.
  - assert (wants_batch force low reading i) as Hi by by apply Hw.
    pose proof (batch_nothing o Ho) as Hnone. pose proof (batch_count o Ho) as Hc.
    destruct (delete_oldest_batch o) as [o' deleted] eqn:Eb. cbn [snd] in *.
    assert (batch o = o') as Hb by (unfold batch; by rewrite Eb).
    destruct (Nat.eqb_spec deleted 0) as [Hd|Hd].
    + exists 1. cbn [Nat.iter nat_rect]. rewrite Hb. split; [done|]. split.
      * intros j Hj. replace (i + j) with i by lia. done.
      * left. pose proof (batch_rows o Ho) as Hr. rewrite Hb in Hr. specialize (Hnone Hd). unfold total_rows in Hnone at 1. rewrite Hr. lia.
    + destruct (IH (S i) o') as (k & Hrun & Hwants & Hstop); [rewrite <- Hb; by apply delete_batch_ok|rewrite Hb in Hc; lia|].
      exists (S k). rewrite Nat.iter_succ_r, Hb. split; [exact Hrun|]. split; [|by rewrite Nat.add_succ_r].
      intros [|j] Hj; [by rewrite Nat.add_0_r|]. rewrite Nat.add_succ_r. apply (Hwants j). lia.
Qed.

(** ** Opening the store *)

(** The options of [open_with_policy]; the product is not checked. *)
Record StoreOptions := { journal_size_limit : Z; wal_autocheckpoint : Z; opt_max_page_count : Z }.
Definition open_options (p : PersistencePolicy) : StoreOptions :=
  let wal_budget := (max_bytes p / 8)%Z in
  let database_budget := (wrap_u 64 (max_bytes p * 7) / 8)%Z in
  {| journal_size_limit := wal_budget;
     wal_autocheckpoint := Z.max (wal_budget / 4096 / 2) 1;
     opt_max_page_count := Z.max (database_budget / 4096) 1 |}.

Lemma open_options_limit p :
  (0 ≤ max_bytes p)%Z → (max_bytes p * 7 < 2 ^ 64)%Z → opt_max_page_count (open_options p) = Z.max (database_budget p / 4096) 1.
Proof.
  intros H0 H1. unfold open_options, database_budget, sat_mul_u64, DATABASE_BUDGET_NUMERATOR, DATABASE_BUDGET_DENOMINATOR. cbn [opt_max_page_count].
  rewrite wrap_u_small by (split; lia). by rewrite Z.min_l by lia.
Qed.

(**     [initialize]: the tables are pruned, the file is vacuumed when it is over its
    budget and the page limit is set. [first] and [vacuumed] are the counters before
    and after the vacuum, [applied] is the limit SQLite reports. *)
Inductive open_error :=
| OverBudget (budget required : Z)
| PageLimitRefused (limit : Z).

Definition initialize (p : PersistencePolicy) (now : Z) (reading : nat → PageMetrics) (first vacuumed : PageMetrics)
    (applied : Z → Z) (o : Observations) : outcome open_error (option Observations * Z) :=
  let o := prune_for_size p false reading (prune_expired p now o) in
  let budget := database_budget p in
  let metrics := if (budget <? allocated_bytes first)%Z then vacuumed else first in
  if (budget <? allocated_bytes metrics)%Z then Err (OverBudget budget (allocated_bytes metrics))
  else if (page_size metrics =? 0)%Z then Panic
  else
    let max_page_count := Z.max (budget / page_size metrics) 1 in
    if (max_page_count <? i64_to_u64 (applied max_page_count))%Z then Err (PageLimitRefused max_page_count)
    else Ok (o, max_page_count).

Lemma prune_for_size_spec p force reading o :
  tables_ok o →
  ∃ k, prune_for_size p force reading o = Some (Nat.iter k batch o) ∧
    (if negb force && (allocated_bytes (reading 0%nat) <? high_water p)%Z then k = 0
     else (∀ j, j < k → wants_batch force (low_water p) reading j) ∧
          (total_rows (Nat.iter k batch o) = 0 ∨ ¬ wants_batch force (low_water p) reading k)).
Proof.
  intros Ho. unfold prune_for_size. destruct (negb force && _); [by exists 0|].
  apply (prune_loop_spec (low_water p) force reading (total_rows o + 2) 0 o Ho). lia.
Qed.

Lemma maintain_rest p now force reading o : tables_ok o → ∃ o', maintain p now force reading o = Some o' ∧ tables_ok o'.
Proof.
  intros Ho%(prune_expired_ok p now). destruct (prune_for_size_spec p force reading _ Ho) as (k & Hk & _).
  exists (Nat.iter k batch (prune_expired p now o)). split; [exact Hk|by apply batches_ok].
Qed.

(** C28: Maintenance terminates, and deletes what it should: the tables that it leaves are
    the unexpired ones after some number of batches; every batch was asked for, by the
    force flag for the first or by a counter above the low-water mark; and it stops only
    when no batch is asked for any more or when the tables are empty. Without the force
    flag and below the high-water mark there is none. *)
Theorem maintain_spec p now force reading o :
  tables_ok o →
  ∃ k, maintain p now force reading o = Some (Nat.iter k batch (prune_expired p now o)) ∧
    tables_ok (Nat.iter k batch (prune_expired p now o)) ∧
    (if negb force && (allocated_bytes (reading 0%nat) <? high_water p)%Z then k = 0
     else (∀ j, j < k → wants_batch force (low_water p) reading j) ∧
          (total_rows (Nat.iter k batch (prune_expired p now o)) = 0 ∨ ¬ wants_batch force (low_water p) reading k)).
Proof.
  intros Ho%(prune_expired_ok p now). destruct (prune_for_size_spec p force reading _ Ho) as (k & Hk & Hw).
  exists k. split_and!; [exact Hk|by apply batches_ok|exact Hw].
Qed.

(** A batch deletes, of each of the four tables, the rows that come first by time and
    key, up to 512 of them, and leaves the rest as it was. *)
Theorem delete_oldest_batch_spec o :
  tables_ok o →
  runtime_events (batch o) ≡ₚ skipn DELETE_BATCH_SIZE (sort_by event_row_order (runtime_events o)) ∧
  selection_decisions (batch o) ≡ₚ skipn DELETE_BATCH_SIZE (sort_by decision_row_order (selection_decisions o)) ∧
  session_rows (batch o) ≡ₚ skipn DELETE_BATCH_SIZE (sort_by session_row_order (session_rows o)) ∧
  matrix_shadow_decisions (batch o) ≡ₚ skipn DELETE_BATCH_SIZE (sort_by shadow_row_order (matrix_shadow_decisions o)) ∧
  (delete_oldest_batch o).2 =
    Nat.min DELETE_BATCH_SIZE (length (runtime_events o)) + Nat.min DELETE_BATCH_SIZE (length (selection_decisions o))
    + Nat.min DELETE_BATCH_SIZE (size (runtime_traffic_sessions o))
    + Nat.min DELETE_BATCH_SIZE (length (matrix_shadow_decisions o)).
Proof.
  intros Ho. pose proof (batch_rows o Ho) as Hr. pose proof (batch_count o Ho) as Hc. destruct Ho as [He Hd Hh Hk _ _ _].
  split_and!.
  - by apply (delete_oldest_rest _ er_row_id).
  - by apply (delete_oldest_rest _ dr_row_id).
  - by apply session_table_rest.
  - by apply (delete_oldest_rest _ hr_row_id).
  - rewrite Hc, Hr. unfold total_rows. lia.
Qed.

(** SQLite's pages have at most 65536 bytes. *)
Definition page_size_ok (m : PageMetrics) : Prop := (0 < page_size m ≤ 65536)%Z.

Lemma database_budget_bounds p : in_u 64 (max_bytes p) → validate_policy p = Ok tt →
  (65536 ≤ database_budget p)%Z ∧ (database_budget p + max_bytes p / 8 ≤ max_bytes p)%Z.
Proof.
  intros Hu Hv. assert (MIN_PERSISTENCE_BYTES ≤ max_bytes p)%Z as Hmin.
  { unfold validate_policy in Hv. destruct (retention p =? 0)%Z; [done|].
    destruct (Z.ltb_spec (max_bytes p) MIN_PERSISTENCE_BYTES); [done|lia]. }
  unfold MIN_PERSISTENCE_BYTES in Hmin. unfold database_budget, sat_mul_u64, DATABASE_BUDGET_NUMERATOR, DATABASE_BUDGET_DENOMINATOR.
  destruct Hu as [Hu0 Hu1]. split.
  - apply Z.div_le_lower_bound; lia.
  - pose proof (Z.div_le_mono (Z.min (max_bytes p * 7) (2 ^ 64 - 1)) (max_bytes p * 7) 8).
    assert (max_bytes p * 7 / 8 + max_bytes p / 8 ≤ max_bytes p)%Z; [|lia].
    Z.div_mod_to_equations. lia.
Qed.

(** Opening the store gives it tables that maintenance has pruned and a page limit
    under which the file keeps to its share of the byte budget, seven eighths, and with
    the log's eighth to all of it; or it fails, because the file is larger than that or
    because SQLite does not take the limit. It does not panic. *)
Theorem initialize_limit p now reading first vacuumed applied o :
  in_u 64 (max_bytes p) → validate_policy p = Ok tt → page_size_ok first → page_size_ok vacuumed → tables_ok o →
  match initialize p now reading first vacuumed applied o with
  | Ok (o', limit) =>
      (∃ o'', o' = Some o'' ∧ tables_ok o'') ∧
      (1 ≤ limit)%Z ∧ (applied limit ≤ limit)%Z ∧
      (limit * page_size (if (database_budget p <? allocated_bytes first)%Z then vacuumed else first) + max_bytes p / 8
       ≤ max_bytes p)%Z
  | Err (OverBudget budget required) => budget = database_budget p ∧ (budget < allocated_bytes vacuumed)%Z ∧ (budget < allocated_bytes first)%Z
  | Err (PageLimitRefused limit) => (limit < applied limit)%Z
  | Panic => False
  end.
Proof.
  intros Hu Hv Hf Hva Ho. destruct (database_budget_bounds p Hu Hv) as [Hlow Hsum].
  destruct (maintain_rest p now false reading o Ho) as (o'' & Hm & Ho''). unfold maintain in Hm.
  unfold initialize. rewrite Hm. set (m := if (database_budget p <? allocated_bytes first)%Z then vacuumed else first).
  assert (page_size_ok m) as [Hm0 Hm1] by (unfold m; by destruct (_ <? _)%Z).
  destruct (Z.ltb_spec (database_budget p) (allocated_bytes m)) as [Hb|Hb].
  { split; [done|]. unfold m in Hb. destruct (Z.ltb_spec (database_budget p) (allocated_bytes first)); lia. }
  destruct (Z.eqb_spec (page_size m) 0); [lia|].
  assert (1 ≤ database_budget p / page_size m)%Z as H1 by (apply Z.div_le_lower_bound; lia).
  assert (page_size m * (database_budget p / page_size m) ≤ database_budget p)%Z as H2 by (apply Z.mul_div_le; lia).
  rewrite Z.max_l by lia.
  set (limit := (database_budget p / page_size m)%Z) in *.
  destruct (Z.ltb_spec limit (i64_to_u64 (applied limit))) as [Ha|Ha];
    unfold i64_to_u64 in Ha; destruct (Z.leb_spec 0 (applied limit)); try lia.
  all: split_and!; [by exists o''|lia|lia|lia].
Qed.

(** ** Witnesses *)
Definition demo_tables : Observations := record_events no_observations demo_events.
Definition demo_policy : PersistencePolicy := default_persistence.
Definition small_pages : PageMetrics := {| page_size := 4096; page_count := 20; freelist_count := 0 |}.
Definition many_pages : PageMetrics := {| page_size := 4096; page_count := 16000; freelist_count := 0 |}.

Lemma demo_tables_ok : tables_ok demo_tables.
Proof. apply record_events_ok, no_observations_ok. Qed.

Lemma maintain_spec_witness :
  tables_ok demo_tables ∧
  (∃ k, maintain demo_policy 0 false (λ n, if n <? 2 then many_pages else small_pages) demo_tables =
     Some (Nat.iter k batch (prune_expired demo_policy 0 demo_tables)) ∧ 0 < k) ∧
  negb (total_rows demo_tables =? 0) = true.
Proof.
  split; [exact demo_tables_ok|]. split; [|by vm_compute].
  destruct (maintain_spec demo_policy 0 false (λ n, if n <? 2 then many_pages else small_pages) demo_tables demo_tables_ok)
    as (k & Hk & _ & Hw). exists k. split; [exact Hk|].
  replace (negb false && _) with false in Hw by by vm_compute. destruct Hw as [_ [Hw|Hw]].
  - destruct k; [|lia]. vm_compute in Hw. lia.
  - destruct k; [|lia]. exfalso. apply Hw. right. by vm_compute.
Defined.

Lemma delete_oldest_batch_spec_witness :
  tables_ok demo_tables ∧
  runtime_events (batch demo_tables) ≡ₚ skipn DELETE_BATCH_SIZE (sort_by event_row_order (runtime_events demo_tables)).
Proof. split; [exact demo_tables_ok|]. apply (delete_oldest_batch_spec demo_tables demo_tables_ok). Defined.

Lemma initialize_limit_witness :
  tables_ok demo_tables ∧
  match initialize demo_policy 0 (λ _, small_pages) many_pages small_pages id demo_tables with
  | Ok (o', limit) => is_Some o' ∧ (limit * 4096 + max_bytes demo_policy / 8 ≤ max_bytes demo_policy)%Z
  | _ => False
  end.
Proof.
  split; [exact demo_tables_ok|].
  pose proof (initialize_limit demo_policy 0 (λ _, small_pages) many_pages small_pages id demo_tables) as H.
  specialize (H ltac:(split; [by vm_compute|reflexivity]) eq_refl ltac:(split; [reflexivity|by vm_compute])
    ltac:(split; [reflexivity|by vm_compute]) demo_tables_ok).
  destruct (initialize _ _ _ _ _ _ _) as [[o' limit]|e|] eqn:E.
  - destruct H as ((o'' & -> & _) & _ & _ & H). split; [by eexists|exact H].
  - exfalso. unfold initialize in E. revert E. by vm_compute.
  - done.
Defined.
