(* ===== verification/Sink.v ===== *)
(** * Sink: the queue and the worker that write observations to the store

    [crates/dynet-runtime/src/persistence/sink.rs]: a bounded queue that the
    recording side never waits for, and one task that takes the observations off it,
    writes them, makes room when the database is full, and runs maintenance. A run is a
    sequence of labelled steps; how each statement of the store fares is part of the
    label. The side that records touches only the queue and its own counter, so a step
    of the worker stands for all that it does between two [select!]s. *)
From Stdlib Require Import ZArith Lia Strings.Byte Ascii String.
From stdpp Require Import base list numbers option strings gmap sets.
From S2P Require Import Prelude Collections Net RustStd Model Stores Validation Traffic MatrixStats Matrix Bootstrap Observations Runtime Recovery ConfigData Maintenance.
Local Open Scope string_scope.
Local Open Scope nat_scope.

Definition OBSERVATION_QUEUE_CAPACITY : nat := Z.to_nat 16384.
Definition MAINTENANCE_EVERY_OBSERVATIONS : Z := 128.

(** The sender of a flush is the number of the one-shot channel. *)
Inductive RuntimeObservation :=
| Event (e : IngressEvent)
| SelectionDecisionMade (observed_at : Z) (context : SelectionContext) (decision : SelectionDecision)
| MatrixShadow (decision : MatrixShadowDecision)
| Flush (sender : nat).

(** ** What the store does *)

(** One data write: all of it, only the event's own row (its session's row is a second
    statement), or nothing. *)
Inductive write_outcome :=
| Written
| EventRowOnly (e : StoreError)
| Unwritten (e : StoreError).

(** One call of [maintain]: the clock, the page counters, and the statement that fails if
    any: the expiry, or the one after so many batches. *)
Record MaintenanceRun := {
  run_now : Z; run_reading : nat → PageMetrics; run_failure : option (option nat * StoreError) }.

(** What reaches the tables. *)
Inductive table_op :=
| Wrote (o : RuntimeObservation)
| WroteEventRow (e : IngressEvent)
| Maintained (force : bool) (m : MaintenanceRun).

Definition event_row_only (o : Observations) (e : IngressEvent) : Observations :=
  let o' := insert_event o e in
  {| runtime_events := runtime_events o'; selection_decisions := selection_decisions o';
     runtime_traffic_sessions := runtime_traffic_sessions o;
     matrix_shadow_decisions := matrix_shadow_decisions o'; last_row_id := last_row_id o' |}.

(** [persist_data], when its statements succeed *)
Definition insert_observation (o : Observations) (obs : RuntimeObservation) : Observations :=
  match obs with
  | Event e => insert_event o e
  | SelectionDecisionMade t c d => insert_selection_decision o t c d
  | MatrixShadow d => insert_matrix_shadow o d
  | Flush _ => o
  end.

Definition maintained (p : PersistencePolicy) (force : bool) (m : MaintenanceRun) (o : Observations) : Observations :=
  match run_failure m with
  | None => default o (maintain p (run_now m) force (run_reading m) o)
  | Some (None, _) => o
  | Some (Some k, _) => Nat.iter k batch (prune_expired p (run_now m) o)
  end.

Definition apply_op (p : PersistencePolicy) (o : Observations) (op : table_op) : Observations :=
  match op with
  | Wrote obs => insert_observation o obs
  | WroteEventRow e => event_row_only o e
  | Maintained force m => maintained p force m o
  end.

(** ** [persist]

    The operations on the tables, the counter, and the error if any. *)
Record Script := {
  first_write : write_outcome; forced : MaintenanceRun; second_write : write_outcome; periodic : MaintenanceRun }.

Definition persist_data (obs : RuntimeObservation) (w : write_outcome) : list table_op * option StoreError :=
  match w with
  | Written => ([Wrote obs], None)
  | EventRowOnly e => (match obs with Event ev => [WroteEventRow ev] | _ => [] end, Some e)
  | Unwritten e => ([], Some e)
  end.

Definition run_maintain (force : bool) (m : MaintenanceRun) : list table_op * option StoreError :=
  ([Maintained force m], snd <$> run_failure m).

(** [a?; b] *)
Definition and_then (a b : list table_op * option StoreError) : list table_op * option StoreError :=
  match a with (l, Some e) => (l, Some e) | (l, None) => ((l ++ b.1)%list, b.2) end.

Definition sat_add_u64 (a b : Z) : Z := Z.min (a + b) (2 ^ 64 - 1).

Definition write_with_retry (obs : RuntimeObservation) (sc : Script) : list table_op * option StoreError :=
  match persist_data obs (first_write sc) with
  | (l, None) => (l, None)
  | (l, Some e) =>
      if negb (is_database_full e) then (l, Some e)
      else and_then (l, None) (and_then (run_maintain true (forced sc)) (persist_data obs (second_write sc)))
  end.

Definition persist (since : Z) (obs : RuntimeObservation) (sc : Script) : list table_op * Z * option StoreError :=
  match obs with
  | Flush _ =>
      match run_maintain false (periodic sc) with
      | (l, Some e) => (l, since, Some e)
      | (l, None) => (l, 0%Z, None)
      end
  | _ =>
      match write_with_retry obs sc with
      | (l, Some e) => (l, since, Some e)
      | (l, None) =>
          let since := sat_add_u64 since 1 in
          if (MAINTENANCE_EVERY_OBSERVATIONS <=? since)%Z then
            match run_maintain false (periodic sc) with
            | (l', Some e) => ((l ++ l')%list, since, Some e)
            | (l', None) => ((l ++ l')%list, 0%Z, None)
            end
          else (l, since, None)
      end
  end.

(** ** The sink and its worker *)
Record Sink := {
  queue : list RuntimeObservation;
  worker_gone : bool;
  dropped_observations : Z;
  sink_errors : Z;
  observations_since_maintenance : Z;
  tables : Observations;
  acknowledged : list nat }.

(** [spawn_observation_sink] *)
Definition spawn_observation_sink (o : Observations) : Sink :=
  {| queue := []; worker_gone := false; dropped_observations := 0; sink_errors := 0;
     observations_since_maintenance := 0; tables := o; acknowledged := [] |}.

(** [fetch_add(1)] *)
Definition count (z : Z) : Z := wrap_u 64 (z + 1).

Definition try_send (s : Sink) (obs : RuntimeObservation) : Sink :=
  if worker_gone s then
    {| queue := queue s; worker_gone := true; dropped_observations := dropped_observations s;
       sink_errors := count (sink_errors s);
       observations_since_maintenance := observations_since_maintenance s; tables := tables s; acknowledged := acknowledged s |}
  else if OBSERVATION_QUEUE_CAPACITY <=? length (queue s) then
    {| queue := queue s; worker_gone := false; dropped_observations := count (dropped_observations s);
       sink_errors := sink_errors s;
       observations_since_maintenance := observations_since_maintenance s; tables := tables s; acknowledged := acknowledged s |}
  else
    {| queue := (queue s ++ [obs])%list; worker_gone := false; dropped_observations := dropped_observations s;
       sink_errors := sink_errors s;
       observations_since_maintenance := observations_since_maintenance s; tables := tables s; acknowledged := acknowledged s |}.

(** [flush] waits for a place in the queue; when the worker is gone it fails. *)
Definition flush (s : Sink) (sender : nat) : option Sink :=
  if worker_gone s then Some s
  else if OBSERVATION_QUEUE_CAPACITY <=? length (queue s) then None
  else Some
    {| queue := (queue s ++ [Flush sender])%list; worker_gone := false; dropped_observations := dropped_observations s;
       sink_errors := sink_errors s;
       observations_since_maintenance := observations_since_maintenance s; tables := tables s; acknowledged := acknowledged s |}.

(** The arm of [run] that receives. *)
Definition work (p : PersistencePolicy) (s : Sink) (sc : Script) : option (Sink * list table_op) :=
  match queue s with
  | [] => None
  | obs :: q =>
      if worker_gone s then None
      else
        let '(ops, since, r) := persist (observations_since_maintenance s) obs sc in
        Some ({| queue := q; worker_gone := false; dropped_observations := dropped_observations s;
                 sink_errors := match r with Some _ => count (sink_errors s) | None => sink_errors s end;
                 observations_since_maintenance := since;
                 tables := fold_left (apply_op p) ops (tables s);
                 acknowledged := match obs, r with
                                 | Flush sender, None => (acknowledged s ++ [sender])%list
                                 | _, _ => acknowledged s
                                 end |}, ops)
  end.

(** [run_maintenance], the arm of the timer *)
Definition tick (p : PersistencePolicy) (s : Sink) (m : MaintenanceRun) : option (Sink * list table_op) :=
  if worker_gone s then None
  else
    let '(ops, r) := run_maintain false m in
    Some ({| queue := queue s; worker_gone := false; dropped_observations := dropped_observations s;
             sink_errors := match r with Some _ => count (sink_errors s) | None => sink_errors s end;
             observations_since_maintenance := match r with Some _ => observations_since_maintenance s | None => 0 end;
             tables := fold_left (apply_op p) ops (tables s); acknowledged := acknowledged s |}, ops).

Inductive label :=
| Record_event (e : IngressEvent)
| Record_selection_decision (unix_ms : Z) (context : SelectionContext) (decision : SelectionDecision)
| Record_matrix_shadow (decision : MatrixShadowDecision)
| Send_flush (sender : nat)
| Work (sc : Script)
| Tick (m : MaintenanceRun)
| Worker_ends.

(** A step and what it does to the tables; [None] when it cannot be taken. *)
Definition step (p : PersistencePolicy) (s : Sink) (l : label) : option (Sink * list table_op) :=
  match l with
  | Record_event e => Some (try_send s (Event e), [])
  | Record_selection_decision t c d => Some (try_send s (SelectionDecisionMade t c d), [])
  | Record_matrix_shadow d => Some (try_send s (MatrixShadow d), [])
  | Send_flush sender => (λ s', (s', [])) <$> flush s sender
  | Work sc => work p s sc
  | Tick m => tick p s m
  | Worker_ends =>
      Some ({| queue := []; worker_gone := true; dropped_observations := dropped_observations s;
               sink_errors := sink_errors s; observations_since_maintenance := observations_since_maintenance s;
               tables := tables s; acknowledged := acknowledged s |}, [])
  end.

Fixpoint run (p : PersistencePolicy) (s : Sink) (ls : list label) : option (Sink * list table_op) :=
  match ls with
  | [] => Some (s, [])
  | l :: ls =>
      '(s', ops) ← step p s l;
      '(s'', ops') ← run p s' ls;
      Some (s'', (ops ++ ops')%list)
  end.

(** ** What is offered, queued and written *)
Definition offered_by (l : label) : option RuntimeObservation :=
  match l with
  | Record_event e => Some (Event e)
  | Record_selection_decision t c d => Some (SelectionDecisionMade t c d)
  | Record_matrix_shadow d => Some (MatrixShadow d)
  | _ => None
  end.
Definition offered (ls : list label) : list RuntimeObservation := omap offered_by ls.

Definition data (obs : RuntimeObservation) : option RuntimeObservation :=
  match obs with Flush _ => None | _ => Some obs end.
Definition queued (q : list RuntimeObservation) : list RuntimeObservation := omap data q.

Definition written_by (op : table_op) : option RuntimeObservation := match op with Wrote o => Some o | _ => None end.
Definition written (ops : list table_op) : list RuntimeObservation := omap written_by ops.

(** One observation is written at most once, and if it is not there is an error. *)
Definition errors (r : option StoreError) : nat := match r with Some _ => 1 | None => 0 end.

Lemma written_app a b : written (a ++ b) = (written a ++ written b)%list.
Proof. apply omap_app. Qed.

Lemma persist_data_written obs w l r : data obs = Some obs → persist_data obs w = (l, r) →
  (written l = [obs] ∧ r = None) ∨ (written l = [] ∧ is_Some r).
Proof. intros Hd. destruct w; cbn; intros [= <- <-]; [by left|right|by right]. destruct obs; by split. Qed.

Lemma run_maintain_written force m : written (run_maintain force m).1 = [].
Proof. done. Qed.

Lemma write_with_retry_written obs sc l r : data obs = Some obs → write_with_retry obs sc = (l, r) →
  (written l = [obs] ∧ r = None) ∨ (written l = [] ∧ is_Some r).
Proof.
  intros Hd. unfold write_with_retry. destruct (persist_data obs (first_write sc)) as [l1 r1] eqn:E1.
  apply (persist_data_written obs _ l1 r1 Hd) in E1 as [[Hl ->]|[Hl [e ->]]]; [intros [= <- <-]; by left|].
  destruct (negb _); [intros [= <- <-]; right; split; by try eexists|].
  destruct (persist_data obs (second_write sc)) as [l2 r2] eqn:E2. apply (persist_data_written obs _ l2 r2 Hd) in E2.
  unfold run_maintain. destruct (run_failure (forced sc)) as [[? e']|]; cbn; intros [= <- <-].
  - right. rewrite written_app, Hl. split; by try eexists.
  - rewrite written_app, Hl. exact E2.
Qed.

Lemma persist_written since obs sc l since' r : data obs = Some obs → persist since obs sc = (l, since', r) →
  (written l = [obs] ∧ errors r ≤ 1) ∨ (written l = [] ∧ errors r = 1).
Proof.
  intros Hd. assert (∀ x, persist since obs sc = x → x = (l, since', r) →
    (written l = [obs] ∧ errors r ≤ 1) ∨ (written l = [] ∧ errors r = 1)) as H; [|by apply H].
  intros x <-. unfold persist. destruct (write_with_retry obs sc) as [l1 r1] eqn:E.
  apply (write_with_retry_written obs sc l1 r1 Hd) in E.
  assert (r1 = None → written l1 = [obs]) as Hn by (intros ->; destruct E as [[? _]|[_ [? ?]]]; done).
  assert (∀ e, r1 = Some e → written l1 = []) as Hs by (intros e ->; destruct E as [[_ ?]|[? _]]; done).
  destruct obs; try done; destruct r1 as [err|]; try (intros [= <- <- <-]; right; by split; [eapply Hs|]);
    (destruct (_ <=? _)%Z; [|intros [= <- <- <-]; left; split; [by apply Hn|cbn; lia]]);
    unfold run_maintain; destruct (run_failure (periodic sc)) as [[? e']|]; cbn; intros [= <- <- <-]; left;
    rewrite written_app, Hn by done; (split; [done|cbn; lia]).
Qed.

Lemma flush_persist since sender sc l since' r : persist since (Flush sender) sc = (l, since', r) → written l = [].
Proof. cbn. destruct (run_failure (periodic sc)) as [[? e]|]; cbn; by intros [= <- <- <-]. Qed.

Lemma errors_count (z : Z) (r : option StoreError) : (0 ≤ z < 2 ^ 64 - 1)%Z →
  match r with Some _ => count z | None => z end = (z + Z.of_nat (errors r))%Z.
Proof. intros Hz. destruct r; unfold count; cbn [errors]; [rewrite wrap_u_small; [done|split; lia]|lia]. Qed.

(** ** The account of a run *)
Record account (p : PersistencePolicy) (o : Observations) (ls : list label) (s : Sink) (ops : list table_op) : Prop := {
  acc_tables : tables s = fold_left (apply_op p) ops o;
  acc_bound : length (queue s) ≤ OBSERVATION_QUEUE_CAPACITY;
  acc_order : (written ops ++ queued (queue s))%list `sublist_of` offered ls;
  acc_dropped : (0 ≤ dropped_observations s)%Z;
  acc_errors : (0 ≤ sink_errors s)%Z;
  acc_counters : (dropped_observations s + sink_errors s ≤ Z.of_nat (length ls))%Z;
  acc_lost : worker_gone s = false →
    (Z.of_nat (length (offered ls)) ≤
     Z.of_nat (length (written ops)) + Z.of_nat (length (queued (queue s))) + dropped_observations s + sink_errors s)%Z }.

Lemma run_snoc p s ls l : run p s (ls ++ [l]) =
  '(s', ops) ← run p s ls; '(s'', ops') ← step p s' l; Some (s'', (ops ++ ops')%list).
Proof.
  revert s. induction ls as [|l' ls IH]; intros s; cbn.
  - destruct (step p s l) as [[? ?]|]; cbn; [|done]. by rewrite app_nil_r.
  - destruct (step p s l') as [[s' ops]|]; cbn; [|done]. rewrite IH.
    destruct (run p s' ls) as [[s1 ops1]|]; cbn; [|done]. destruct (step p s1 l) as [[s2 ops2]|]; cbn; [|done]. by rewrite app_assoc.
Qed.

Lemma offered_snoc ls l : offered (ls ++ [l]) = (offered ls ++ match offered_by l with Some o => [o] | None => [] end)%list.
Proof. unfold offered. rewrite omap_app. cbn. by destruct (offered_by l). Qed.

Lemma queued_snoc q obs : data obs = Some obs → queued (q ++ [obs]) = (queued q ++ [obs])%list.
Proof. intros Hd. unfold queued. rewrite omap_app. cbn. by rewrite Hd. Qed.

(** One offer. *)
Lemma try_send_account p o ls s ops l obs :
  offered_by l = Some obs → data obs = Some obs → (Z.of_nat (length ls) < 2 ^ 64 - 1)%Z →
  account p o ls s ops → account p o (ls ++ [l]) (try_send s obs) ops.
Proof.
  intros Hl Hd Hb [H1 H2 H3 H4 H5 H6 H7].
  assert (offered (ls ++ [l]) = (offered ls ++ [obs])%list) as Ho by by rewrite offered_snoc, Hl.
  unfold try_send. destruct (worker_gone s) eqn:Eg; [|destruct (Nat.leb_spec OBSERVATION_QUEUE_CAPACITY (length (queue s)))];
    split; cbn [tables queue dropped_observations sink_errors worker_gone]; rewrite ?Ho; try done.
  all: unfold count; rewrite ?wrap_u_small by (split; lia); rewrite ?length_app; cbn [length]; try lia.
  - by apply sublist_inserts_r.
  - by apply sublist_inserts_r.
  - rewrite queued_snoc, app_assoc by done. by apply sublist_app.
  - rewrite queued_snoc, length_app by done. cbn [length]. specialize (H7 eq_refl). lia.
Qed.

Lemma flush_account p o ls s s' ops sender :
  flush s sender = Some s' → account p o ls s ops → account p o (ls ++ [Send_flush sender]) s' ops.
Proof.
  intros Hf [H1 H2 H3 H4 H5 H6 H7]. unfold flush in Hf.
  assert (offered (ls ++ [Send_flush sender]) = offered ls) as Ho by (rewrite offered_snoc; apply app_nil_r).
  destruct (worker_gone s) eqn:Eg; [|destruct (Nat.leb_spec OBSERVATION_QUEUE_CAPACITY (length (queue s))); [done|]];
    injection Hf as <-; split; cbn [tables queue dropped_observations sink_errors worker_gone]; rewrite ?Ho, ?length_app; cbn [length];
    rewrite ?Eg; try done; try lia.
  - unfold queued in *. rewrite omap_app. cbn. by rewrite app_nil_r.
  - unfold queued in *. rewrite omap_app. cbn. by rewrite app_nil_r.
Qed.

Lemma work_account p o ls s s' ops ops' sc :
  work p s sc = Some (s', ops') → (Z.of_nat (length ls) < 2 ^ 64 - 1)%Z →
  account p o ls s ops → account p o (ls ++ [Work sc]) s' (ops ++ ops').
Proof.
  intros Hw Hb [H1 H2 H3 H4 H5 H6 H7]. unfold work in Hw. destruct (queue s) as [|obs q] eqn:Eq; [done|].
  destruct (worker_gone s) eqn:Eg; [done|]. destruct (persist _ obs sc) as [[l since] r] eqn:Ep. injection Hw as <- <-.
  assert (offered (ls ++ [Work sc]) = offered ls) as Ho by (rewrite offered_snoc; apply app_nil_r).
  assert (errors r ≤ 1) as Hr by (destruct r; cbn; lia).
  specialize (H7 eq_refl). cbn [length] in H2.
  assert (queued (obs :: q) = match data obs with Some _ => obs :: queued q | None => queued q end) as Hq by (destruct obs; done).
  rewrite Hq in H3, H7.
  split; cbn [tables queue dropped_observations sink_errors worker_gone];
    rewrite ?(errors_count (sink_errors s) r), ?Ho, ?written_app, ?length_app, ?fold_left_app by lia; cbn [length]; try lia.
  - by rewrite H1.
  - destruct (data obs) as [x|] eqn:Ed.
    + assert (data obs = Some obs) as Hd by by destruct obs.
      destruct (persist_written _ obs sc l since r Hd Ep) as [[-> _]|[-> _]].
      * by rewrite <- app_assoc.
      * rewrite app_nil_r. etransitivity; [|exact H3]. apply sublist_app; [done|]. by apply sublist_cons.
    + destruct obs; try done. rewrite (flush_persist _ _ sc l since r Ep), app_nil_r. done.
  - intros _. destruct (data obs) as [x|] eqn:Ed.
    + assert (data obs = Some obs) as Hd by by destruct obs. cbn [length] in H7.
      destruct (persist_written _ obs sc l since r Hd Ep) as [[-> _]|[-> ->]]; cbn [length]; lia.
    + lia.
Qed.

Lemma tick_account p o ls s s' ops ops' m :
  tick p s m = Some (s', ops') → (Z.of_nat (length ls) < 2 ^ 64 - 1)%Z →
  account p o ls s ops → account p o (ls ++ [Tick m]) s' (ops ++ ops').
Proof.
  intros Ht Hb [H1 H2 H3 H4 H5 H6 H7]. unfold tick in Ht. destruct (worker_gone s) eqn:Eg; [done|].
  unfold run_maintain in Ht. injection Ht as <- <-.
  assert (offered (ls ++ [Tick m]) = offered ls) as Ho by (rewrite offered_snoc; apply app_nil_r).
  assert (errors (snd <$> run_failure m) ≤ 1) as Hr by (destruct (run_failure m); cbn; lia). specialize (H7 eq_refl).
  assert (written (ops ++ [Maintained false m]) = written ops) as Hw by (rewrite written_app; apply app_nil_r).
  split; cbn [tables queue dropped_observations sink_errors worker_gone];
    rewrite ?(errors_count (sink_errors s) (snd <$> run_failure m)), ?Ho, ?Hw, ?length_app by lia; cbn [length]; try lia; try done.
  by rewrite fold_left_app, H1.
Qed.

Lemma step_account p o ls s s' ops ops' l :
  step p s l = Some (s', ops') → (Z.of_nat (length ls) < 2 ^ 64 - 1)%Z →
  account p o ls s ops → account p o (ls ++ [l]) s' (ops ++ ops').
Proof.
  intros Hs Hb Ha. destruct l; cbn [step] in Hs.
  - injection Hs as <- <-. rewrite app_nil_r. by eapply try_send_account.
  - injection Hs as <- <-. rewrite app_nil_r. by eapply try_send_account.
  - injection Hs as <- <-. rewrite app_nil_r. by eapply try_send_account.
  - destruct (flush s sender) eqn:Ef; [|done]. injection Hs as <- <-. rewrite app_nil_r. by eapply flush_account.
  - by eapply work_account.
  - by eapply tick_account.
  - injection Hs as <- <-. destruct Ha as [H1 H2 H3 H4 H5 H6 H7].
    split; cbn [tables queue dropped_observations sink_errors worker_gone]; rewrite ?app_nil_r, ?length_app; cbn [length]; try lia; try done.
    rewrite offered_snoc. cbn. rewrite !app_nil_r. etransitivity; [|exact H3]. by apply sublist_inserts_r.
Qed.

Lemma run_account p o ls s ops :
  run p (spawn_observation_sink o) ls = Some (s, ops) → (Z.of_nat (length ls) < 2 ^ 64)%Z → account p o ls s ops.
Proof.
  revert s ops. induction ls as [|l ls IH] using rev_ind; intros s ops Hr Hb.
  - injection Hr as <- <-. split; cbn; try done; lia.
  - rewrite run_snoc in Hr. destruct (run p _ ls) as [[s1 ops1]|] eqn:E1; cbn in Hr; [|done].
    destruct (step p s1 l) as [[s2 ops2]|] eqn:E2; cbn in Hr; [|done]. injection Hr as <- <-.
    rewrite length_app in Hb. cbn in Hb. eapply step_account; [exact E2|lia|]. apply IH; [done|lia].
Qed.

Lemma sublist_same_length {A} (l k : list A) : l `sublist_of` k → length k ≤ length l → l = k.
Proof. induction 1 as [|x l k Hs IH|x l k Hs IH]; cbn; intros Hl; [done|f_equal; apply IH; lia|]. apply sublist_length in Hs. lia. Qed.

(** C26: Nothing that is offered to the sink is lost without being counted. Whatever the
    order of offers, work and timer and however the statements fare, the tables are what
    the operations on them make of those at the start; what was written and what waits,
    in this order, is a part of what was offered, in its order; the queue keeps to its
    capacity; and while the worker runs every observation that is in neither has been
    counted as dropped or as an error. When neither counter has moved nothing is missing. *)
Theorem sink_accounts p o ls s ops :
  run p (spawn_observation_sink o) ls = Some (s, ops) → (Z.of_nat (length ls) < 2 ^ 64)%Z →
  tables s = fold_left (apply_op p) ops o ∧
  length (queue s) ≤ OBSERVATION_QUEUE_CAPACITY ∧
  (written ops ++ queued (queue s))%list `sublist_of` offered ls ∧
  (worker_gone s = false →
     (Z.of_nat (length (offered ls)) ≤
      Z.of_nat (length (written ops ++ queued (queue s))) + dropped_observations s + sink_errors s)%Z ∧
     (dropped_observations s = 0%Z → sink_errors s = 0%Z → (written ops ++ queued (queue s))%list = offered ls)).
Proof.
  intros Hr Hb. destruct (run_account p o ls s ops Hr Hb) as [H1 H2 H3 H4 H5 H6 H7]. split_and!; [done|done|done|].
  intros Hg. specialize (H7 Hg). rewrite length_app. split; [lia|]. intros Hd He.
  apply sublist_same_length; [done|]. rewrite length_app. lia.
Qed.

(** ** A flush is a barrier *)

(** What a step does to the queue and to the acknowledgements. *)
Lemma step_queue p s l s' ops t :
  step p s l = Some (s', ops) → l ≠ Send_flush t → Flush t ∉ queue s → t ∉ acknowledged s →
  (Flush t ∉ queue s') ∧ (t ∉ acknowledged s').
Proof.
  intros Hs Hl Hq Ha.
  assert (∀ obs, data obs = Some obs → (Flush t ∉ queue (try_send s obs)) ∧ (t ∉ acknowledged (try_send s obs))) as Htry.
  { intros obs Hd. unfold try_send. destruct (worker_gone s); [done|]. destruct (_ <=? _); [done|]. cbn. split; [|done].
    rewrite elem_of_app, list_elem_of_singleton. intros [?|<-]; done. }
  destruct l; cbn [step] in Hs.
  - injection Hs as <- <-. by apply Htry.
  - injection Hs as <- <-. by apply Htry.
  - injection Hs as <- <-. by apply Htry.
  - unfold flush in Hs. destruct (worker_gone s); [by injection Hs as <- <-|]. destruct (_ <=? _); [done|]. injection Hs as <- <-.
    cbn. split; [|done]. rewrite elem_of_app, list_elem_of_singleton. intros [?|[= <-]]; done.
  - unfold work in Hs. destruct (queue s) as [|obs q]; [done|]. destruct (worker_gone s); [done|].
    destruct (persist _ obs sc) as [[l since] r]. injection Hs as <- <-. cbn [queue acknowledged]. apply not_elem_of_cons in Hq as [Hobs Hq].
    split; [done|]. destruct obs; try done. destruct r; [done|]. rewrite elem_of_app, list_elem_of_singleton. intros [?|<-]; done.
  - unfold tick, run_maintain in Hs. destruct (worker_gone s); [done|]. by injection Hs as <- <-.
  - injection Hs as <- <-. split; [apply not_elem_of_nil|done].
Qed.

Lemma run_fresh p o ls s ops t :
  run p (spawn_observation_sink o) ls = Some (s, ops) → Send_flush t ∉ ls → (Flush t ∉ queue s) ∧ (t ∉ acknowledged s).
Proof.
  revert s ops. induction ls as [|l ls IH] using rev_ind; intros s ops Hr Ht.
  - injection Hr as <- <-. split; apply not_elem_of_nil.
  - rewrite run_snoc in Hr. destruct (run p _ ls) as [[s1 ops1]|] eqn:E1; cbn in Hr; [|done].
    destruct (step p s1 l) as [[s2 ops2]|] eqn:E2; cbn in Hr; [|done]. injection Hr as <- <-.
    apply not_elem_of_app in Ht as [Ht Hl]. destruct (IH s1 ops1 eq_refl Ht) as [Hq Ha].
    eapply step_queue; [exact E2| |done|done]. intros ->. apply Hl. by left.
Qed.

(** While no counter moves, a step takes the head of the queue and writes it. *)
Definition clean (s : Sink) : Prop := dropped_observations s = 0%Z ∧ sink_errors s = 0%Z.

Lemma step_clean p s l s' ops :
  step p s l = Some (s', ops) → (0 ≤ dropped_observations s)%Z → (0 ≤ sink_errors s)%Z →
  (dropped_observations s + sink_errors s < 2 ^ 64 - 1)%Z → clean s' → clean s.
Proof.
  intros Hs Hd He Hb [Hd' He'].
  assert (∀ z, (0 ≤ z < 2 ^ 64 - 1)%Z → count z = 0%Z → False) as Hc.
  { intros z Hz. unfold count. rewrite wrap_u_small by (split; lia). lia. }
  assert (∀ obs, clean (try_send s obs) → clean s) as Htry.
  { intros obs. unfold try_send. destruct (worker_gone s); [|destruct (_ <=? _)]; intros [Hx Hy]; cbn in Hx, Hy; [| |done];
      exfalso; [eapply Hc; [|exact Hy]|eapply Hc; [|exact Hx]]; lia. }
  destruct l; cbn [step] in Hs.
  - injection Hs as <- <-. by eapply Htry.
  - injection Hs as <- <-. by eapply Htry.
  - injection Hs as <- <-. by eapply Htry.
  - unfold flush in Hs. destruct (worker_gone s); [by injection Hs as <- <-|]. destruct (_ <=? _); [done|]. by injection Hs as <- <-.
  - unfold work in Hs. destruct (queue s); [done|]. destruct (worker_gone s); [done|]. destruct (persist _ _ _) as [[? ?] [e|]];
      injection Hs as <- <-; cbn in Hd', He'; [exfalso; eapply Hc; [|exact He']; lia|done].
  - unfold tick, run_maintain in Hs. destruct (worker_gone s); [done|]. injection Hs as <- <-. cbn in Hd', He'.
    destruct (run_failure m); [exfalso; eapply Hc; [|exact He']; lia|done].
  - by injection Hs as <- <-.
Qed.

(** Where a flush stands, for the observations [P] accepted before it. *)
Definition barrier (t : nat) (P : list RuntimeObservation) (s : Sink) (ops : list table_op) : Prop :=
  (∃ q1 q2, queue s = (q1 ++ Flush t :: q2)%list ∧ (Flush t ∉ q1) ∧ (Flush t ∉ q2) ∧ (t ∉ acknowledged s) ∧
     P `prefix_of` (written ops ++ queued q1)%list) ∨
  ((Flush t ∉ queue s) ∧ P `prefix_of` written ops) ∨
  ((Flush t ∉ queue s) ∧ (t ∉ acknowledged s)).

Lemma barrier_append t P s s' ops q :
  barrier t P s ops → queue s' = (queue s ++ q)%list → acknowledged s' = acknowledged s → (Flush t ∉ q) → barrier t P s' ops.
Proof.
  intros Hb Hq Ha Ht. unfold barrier. rewrite Hq, Ha. destruct Hb as [(q1 & q2 & Hs & H1 & H2 & H3 & H4)|[[Hs H]|[Hs H]]].
  - left. exists q1, (q2 ++ q)%list. rewrite Hs, <- app_assoc. split_and!; try done. by apply not_elem_of_app.
  - right. left. split; [by apply not_elem_of_app|done].
  - right. right. split; [by apply not_elem_of_app|done].
Qed.

Lemma work_clean p s sc s' ops' :
  work p s sc = Some (s', ops') → clean s → clean s' →
  ∃ obs q, queue s = obs :: q ∧ queue s' = q ∧ written ops' = queued [obs] ∧
    acknowledged s' = match obs with Flush t => (acknowledged s ++ [t])%list | _ => acknowledged s end.
Proof.
  intros Hw [_ He] [_ He']. unfold work in Hw. destruct (queue s) as [|obs q]; [done|]. destruct (worker_gone s); [done|].
  destruct (persist _ obs sc) as [[l since] r] eqn:Ep. injection Hw as <- <-. cbn [sink_errors queue acknowledged] in *.
  rewrite He, errors_count in He' by done. exists obs, q. split_and!; [done|done| |].
  - destruct (data obs) eqn:Ed.
    + assert (data obs = Some obs) as Hd by by destruct obs. cbn. rewrite Hd.
      destruct (persist_written _ obs sc l since r Hd Ep) as [[-> _]|[_ Hr]]; [done|]. rewrite Hr in He'. done.
    + destruct obs; try done. by rewrite (flush_persist _ _ _ _ _ _ Ep).
  - destruct obs; try done. by destruct r.
Qed.

Lemma barrier_step p t P s s' ops ops' l :
  barrier t P s ops → step p s l = Some (s', ops') → l ≠ Send_flush t → clean s → clean s' → barrier t P s' (ops ++ ops').
Proof.
  intros Hb Hs Hl Hc Hc'.
  assert (∀ obs, data obs = Some obs → barrier t P (try_send s obs) ops) as Htry.
  { intros obs Hd. unfold try_send. destruct (worker_gone s); [|destruct (_ <=? _)];
      (eapply barrier_append; [exact Hb| |done|]); [symmetry; apply app_nil_r|apply not_elem_of_nil|symmetry; apply app_nil_r|
      apply not_elem_of_nil|done|]. rewrite list_elem_of_singleton. by intros <-. }
  destruct l; cbn [step] in Hs.
  - injection Hs as <- <-. rewrite app_nil_r. by apply Htry.
  - injection Hs as <- <-. rewrite app_nil_r. by apply Htry.
  - injection Hs as <- <-. rewrite app_nil_r. by apply Htry.
  - unfold flush in Hs. destruct (worker_gone s); [injection Hs as <- <-; by rewrite app_nil_r|]. destruct (_ <=? _); [done|].
    injection Hs as <- <-. rewrite app_nil_r. eapply barrier_append; [exact Hb|done|done|].
    rewrite list_elem_of_singleton. intros [= <-]. by apply Hl.
  - destruct (work_clean p s sc s' ops' Hs Hc Hc') as (obs & q & Hq & Hq' & Hw & Ha).
    assert (∀ x, x ∉ acknowledged s → obs ≠ Flush x → x ∉ acknowledged s') as Hack.
    { intros x Hx Ho. rewrite Ha. destruct obs; try done. rewrite not_elem_of_app, list_elem_of_singleton. split; [done|].
      intros ->. by apply Ho. }
    unfold barrier. rewrite Hq', written_app, Hw. destruct Hb as [(q1 & q2 & Hs1 & H1 & H2 & H3 & H4)|[[Hs1 H]|[Hs1 H]]].
    + rewrite Hq in Hs1. destruct q1 as [|x q1]; cbn in Hs1; injection Hs1 as -> ->.
      * right. left. split; [done|]. cbn in *. by rewrite app_nil_r in *.
      * left. apply not_elem_of_cons in H1 as [H1x H1]. exists q1, q2. split_and!; try done; [apply Hack; [done|by intros ->]|].
        rewrite <- app_assoc. unfold queued in *. cbn in *. by destruct (data x).
    + right. left. rewrite Hq in Hs1. apply not_elem_of_cons in Hs1 as [_ Hs1]. split; [done|]. by apply prefix_app_r.
    + right. right. rewrite Hq in Hs1. apply not_elem_of_cons in Hs1 as [Hx Hs1]. split; [done|]. apply Hack; [done|]. by intros ->.
  - unfold tick, run_maintain in Hs. destruct (worker_gone s); [done|]. injection Hs as <- <-.
    unfold barrier. cbn [queue acknowledged]. rewrite written_app, app_nil_r. exact Hb.
  - injection Hs as <- <-. rewrite app_nil_r. unfold barrier. cbn [queue acknowledged].
    destruct Hb as [(q1 & q2 & _ & _ & _ & H3 & _)|[[_ H]|[_ H]]].
    + right. right. split; [apply not_elem_of_nil|done].
    + right. left. split; [apply not_elem_of_nil|done].
    + right. right. split; [apply not_elem_of_nil|done].
Qed.

Lemma run_clean p o ls l s s' ops ops' :
  run p (spawn_observation_sink o) ls = Some (s, ops) → step p s l = Some (s', ops') →
  (Z.of_nat (length (ls ++ [l])) < 2 ^ 64)%Z → clean s' → clean s.
Proof.
  intros Hr Hs Hb Hc. rewrite length_app in Hb. cbn in Hb.
  destruct (run_account p o ls s ops Hr) as [_ _ _ H4 H5 H6 _]; [lia|]. eapply step_clean; [exact Hs|lia|lia|lia|done].
Qed.

Lemma barrier_run p o ls1 t ls2 s ops :
  run p (spawn_observation_sink o) (ls1 ++ Send_flush t :: ls2) = Some (s, ops) →
  (Z.of_nat (length (ls1 ++ Send_flush t :: ls2)) < 2 ^ 64)%Z →
  (Send_flush t ∉ ls1) → (Send_flush t ∉ ls2) → clean s → barrier t (offered ls1) s ops.
Proof.
  intros Hr Hb H1 H2. revert s ops Hr Hb. induction ls2 as [|l ls2 IH] using rev_ind; intros s ops Hr Hb Hc.
  - rewrite run_snoc in Hr. destruct (run p _ ls1) as [[s1 ops1]|] eqn:E1; cbn [mbind option_bind] in Hr; [|done].
    destruct (step p s1 (Send_flush t)) as [[s2 ops2]|] eqn:E2; cbn in Hr; [|done]. injection Hr as <- <-.
    pose proof (run_clean p o ls1 _ s1 s2 ops1 ops2 E1 E2 Hb Hc) as [Hd He].
    destruct (run_fresh p o ls1 s1 ops1 t E1 H1) as [Hq Ha].
    rewrite length_app in Hb. destruct (run_account p o ls1 s1 ops1 E1) as [_ _ Ho _ _ _ Hl]; [cbn in Hb; lia|].
    cbn [step] in E2. unfold flush in E2. destruct (worker_gone s1); [injection E2 as <- <-; right; right; done|].
    destruct (_ <=? _); [done|]. injection E2 as <- <-. rewrite app_nil_r. left. exists (queue s1), []. cbn [queue acknowledged].
    split_and!; [done|done|apply not_elem_of_nil|done|]. specialize (Hl eq_refl).
    rewrite (sublist_same_length _ _ Ho); [done|]. rewrite length_app. lia.
  - rewrite app_comm_cons, app_assoc in Hr, Hb. rewrite run_snoc in Hr.
    destruct (run p _ (ls1 ++ Send_flush t :: ls2)) as [[s1 ops1]|] eqn:E1; cbn [mbind option_bind] in Hr; [|done].
    destruct (step p s1 l) as [[s2 ops2]|] eqn:E2; cbn in Hr; [|done]. injection Hr as <- <-.
    apply not_elem_of_app in H2 as [H2 Hl].
    pose proof (run_clean p o _ l s1 s2 ops1 ops2 E1 E2 Hb Hc) as Hc1.
    eapply barrier_step; [|exact E2|intros ->; apply Hl; by left|done|done].
    apply IH; [done|done| |done]. rewrite length_app in Hb. lia.
Qed.

(** C27: A flush that is acknowledged while no counter has moved is a barrier: every
    observation recorded before it has been written, in the order of recording. *)
Theorem flush_is_barrier p o ls1 t ls2 s ops :
  run p (spawn_observation_sink o) (ls1 ++ Send_flush t :: ls2) = Some (s, ops) →
  (Z.of_nat (length (ls1 ++ Send_flush t :: ls2)) < 2 ^ 64)%Z →
  (Send_flush t ∉ ls1) → (Send_flush t ∉ ls2) → t ∈ acknowledged s →
  dropped_observations s = 0%Z → sink_errors s = 0%Z →
  offered ls1 `prefix_of` written ops.
Proof.
  intros Hr Hb H1 H2 Ht Hd He.
  destruct (barrier_run p o ls1 t ls2 s ops Hr Hb H1 H2 (conj Hd He)) as [(q1 & q2 & _ & _ & _ & Hn & _)|[[_ H]|[_ Hn]]]; done.
Qed.

(** ** Witnesses

    Two events and a flush; the second event finds the database full and is written
    after maintenance. *)
Definition quiet : MaintenanceRun := {| run_now := 0; run_reading := λ _, small_pages; run_failure := None |}.
Definition no_trouble : Script := {| first_write := Written; forced := quiet; second_write := Written; periodic := quiet |}.
Definition full_once : Script :=
  {| first_write := EventRowOnly (ErrSqlx DatabaseFull); forced := quiet; second_write := Written; periodic := quiet |}.
Definition demo_labels : list label :=
  [Record_event (demo_event UdpSessionStart 5 [("sessionId", "7"); ("decisionId", "3")]);
   Work no_trouble;
   Record_event (demo_event UdpSessionClose 30 [("sessionId", "7"); ("decisionId", "3")])].
Definition demo_run := run demo_policy (spawn_observation_sink no_observations) (demo_labels ++ Send_flush 1 :: [Work full_once; Work no_trouble]).

Definition demo_sink : Sink * list table_op := default (spawn_observation_sink no_observations, []) demo_run.

Lemma demo_run_taken : demo_run = Some demo_sink.
Proof. unfold demo_sink. assert (match demo_run with Some _ => true | None => false end = true) as H by (vm_compute; reflexivity).
  destruct demo_run; done. Qed.

Lemma sink_accounts_witness :
  demo_run = Some demo_sink ∧
  (written demo_sink.2 ++ queued (queue demo_sink.1))%list =
    offered (demo_labels ++ Send_flush 1 :: [Work full_once; Work no_trouble]).
Proof.
  split; [exact demo_run_taken|].
  pose proof demo_run_taken as H. rewrite (surjective_pairing demo_sink) in H.
  destruct (sink_accounts _ _ _ _ _ H) as (_ & _ & _ & Hn); [reflexivity|].
  apply Hn; vm_compute; reflexivity.
Defined.

Lemma flush_is_barrier_witness :
  demo_run = Some demo_sink ∧ offered demo_labels `prefix_of` written demo_sink.2 ∧ length (offered demo_labels) = 2.
Proof.
  split; [exact demo_run_taken|]. split; [|reflexivity].
  pose proof demo_run_taken as H. rewrite (surjective_pairing demo_sink) in H.
  apply (flush_is_barrier _ _ _ _ _ _ _ H).
  - reflexivity.
  - intros Hx. apply list_elem_of_In in Hx. destruct Hx as [?|[?|[?|[]]]]; discriminate.
  - intros Hx. apply list_elem_of_In in Hx. destruct Hx as [?|[?|[]]]; discriminate.
  - replace (acknowledged demo_sink.1) with [1] by (vm_compute; reflexivity). by left.
  - vm_compute. reflexivity.
  - vm_compute. reflexivity.
Defined.
