(* ===== verification/Egress.v ===== *)
(** * Egress: the execution graph behind a selection decision

    [crates/dynet-ingress/src/egress.rs], [egress/graph.rs], [egress/reloadable.rs] and
    the error signals of [egress/observation.rs]. The protocol clients are a parameter:
    their constructors use foreign crates (uuid, base64, curve points), and what a
    dispatched session does on the wire is not modelled here. Dispatch itself returns
    the call that the code awaits: which node carries the session and through which
    dialer. *)
From Stdlib Require Import ZArith Lia Strings.Byte Ascii String Sorting.Sorted.
From stdpp Require Import base list numbers option strings gmap sets sorting.
From S2P Require Import Prelude Collections Net RustStd Model Stores ConfigData.
Local Open Scope string_scope.
Local Open Scope nat_scope.

(** ** Errors *)
Record EgressError := {
  ee_stage : string;
  ee_upstream : option SocketAddr;
  ee_message : string;
  ee_client_to_upstream_bytes : option Z;
  ee_upstream_to_client_bytes : option Z;
}.

Definition egress_error (stage : string) (upstream : option SocketAddr) (message : string) : EgressError :=
  {| ee_stage := stage; ee_upstream := upstream; ee_message := message;
     ee_client_to_upstream_bytes := None; ee_upstream_to_client_bytes := None |}.

Definition with_plaintext_bytes (e : EgressError) (up down : Z) : EgressError :=
  {| ee_stage := ee_stage e; ee_upstream := ee_upstream e; ee_message := ee_message e;
     ee_client_to_upstream_bytes := Some up; ee_upstream_to_client_bytes := Some down |}.

Record EgressErrorSignal := {
  sig_code : string;
  sig_class : string;
  sig_side : string;
  sig_phase : string;
  sig_protocol_phase : string;
  sig_score_impact : string;
}.

Definition signal (code class side phase protocol_phase score_impact : string) : EgressErrorSignal :=
  {| sig_code := code; sig_class := class; sig_side := side; sig_phase := phase;
     sig_protocol_phase := protocol_phase; sig_score_impact := score_impact |}.

Definition contains_eof (m : string) : bool :=
  contains "early eof" m || contains "unexpected eof" m || contains "end of file" m.

Definition response_salt_eof (m : string) : bool := contains "response salt" m && contains_eof m.

(** The pairs that have a code of their own. *)
Definition protocol_codes : list (string * string) :=
  [("ss", "response-salt-eof"); ("ss", "response-eof"); ("ss", "request-write-failed");
   ("ss", "protocol-invalid"); ("trojan", "response-eof"); ("trojan", "request-write-failed");
   ("trojan", "tls-handshake-failed"); ("trojan", "protocol-invalid"); ("vmess", "response-eof");
   ("vmess", "request-write-failed"); ("vmess", "protocol-invalid"); ("vless", "response-eof");
   ("vless", "request-write-failed"); ("vless", "reality-handshake-eof");
   ("vless", "tls-handshake-failed"); ("vless", "protocol-invalid");
   ("direct", "request-write-failed"); ("direct", "egress-error")].

Definition protocol_code (protocol suffix : string) : string :=
  if bool_decide ((protocol, suffix) ∈ protocol_codes) then protocol ++ "-" ++ suffix
  else "egress-error".

Definition classify_egress_error (protocol : string) (e : EgressError) : EgressErrorSignal :=
  let message := to_ascii_lowercase (ee_message e) in
  let stage := ee_stage e in
  let code := protocol_code protocol in
  if String.eqb stage "egress-resolve" then
    signal "resolve-failed" "connect-failed" "local" "resolve" "resolve" "hard-failure"
  else if String.eqb stage "egress-connect" then
    signal "connect-failed" "connect-failed" "upstream" "connect" "connect" "hard-failure"
  else if String.eqb stage "inbound-write" || contains "broken pipe" message then
    signal "client-write-failed" "client-aborted" "client" "relay" "downstream-write" "neutral"
  else if response_salt_eof message then
    signal (code "response-salt-eof") "no-response-before-first-byte" "upstream"
      "response-first-byte" "response-salt" "hard-failure"
  else if String.eqb stage "outbound-read" && contains_eof message then
    signal (code "response-eof") "response-interrupted" "upstream" "response-frame" "response-read"
      "hard-failure"
  else if String.eqb stage "outbound-write" then
    signal (code "request-write-failed") "request-write-failed" "upstream" "request-write"
      "request-write" "hard-failure"
  else if String.eqb stage "outbound-tls" && contains "reality handshake" message then
    signal (code "reality-handshake-eof") "handshake-failed" "upstream" "handshake"
      "reality-handshake" "hard-failure"
  else if String.eqb stage "outbound-tls" then
    signal (code "tls-handshake-failed") "handshake-failed" "upstream" "handshake" "tls-handshake"
      "hard-failure"
  else if String.eqb stage "outbound-crypto" || String.eqb stage "outbound-protocol" then
    signal (code "protocol-invalid") "protocol-invalid" "protocol" "response-frame" stage
      "hard-failure"
  else signal (code "egress-error") "unknown-failure" "unknown" stage stage "hard-failure".

Definition bytes_field (name : string) (o : option Z) : list (string * string) :=
  match o with Some b => [(name, to_string b)] | None => [] end.

(** [push_egress_error_fields] *)
Definition egress_error_fields (protocol : string) (e : EgressError) : list (string * string) :=
  let s := classify_egress_error protocol e in
  ([("errorStage", ee_stage e); ("error", ee_message e)]
   ++ bytes_field "clientToUpstreamBytes" (ee_client_to_upstream_bytes e)
   ++ bytes_field "upstreamToClientBytes" (ee_upstream_to_client_bytes e)
   ++ [("errorCode", sig_code s); ("errorClass", sig_class s); ("errorSide", sig_side s);
       ("errorPhase", sig_phase s); ("errorProtocolPhase", sig_protocol_phase s);
       ("errorScoreImpact", sig_score_impact s)])%list.

(** ** The clients *)
Class EgressClients := {
  ss_client : Type;
  trojan_client : Type;
  vless_client : Type;
  vmess_client : Type;
  ss_new : ShadowsocksConfig → string + ss_client;
  trojan_new : TrojanConfig → trojan_client;
  vless_new : VlessConfig → string + vless_client;
  vmess_new : VmessConfig → string + vmess_client;
}.

Section graph.
Context `{Clients : EgressClients}.

Inductive EgressMedium :=
| MediumDirect
| MediumShadowsocks (c : ss_client)
| MediumTrojan (c : trojan_client)
| MediumVless (c : vless_client)
| MediumVmess (c : vmess_client).

(** [EgressMedium::try_from] *)
Definition medium_of (c : EgressNodeConfig) : outcome string EgressMedium :=
  match c with
  | EgressDirect => Ok MediumDirect
  | EgressShadowsocks c => m ← of_result (ss_new c); Ok (MediumShadowsocks m)
  | EgressTrojan c => Ok (MediumTrojan (trojan_new c))
  | EgressVless c => m ← of_result (vless_new c); Ok (MediumVless m)
  | EgressVmess c => m ← of_result (vmess_new c); Ok (MediumVmess m)
  end.

Definition medium_tag (m : EgressMedium) : string :=
  match m with
  | MediumDirect => "direct"
  | MediumShadowsocks _ => "ss"
  | MediumTrojan _ => "trojan"
  | MediumVless _ => "vless"
  | MediumVmess _ => "vmess"
  end.

(** [EgressMedium::tcp_dialer]: every node can dial. *)
Definition tcp_dialer (m : EgressMedium) : option EgressMedium := Some m.

(** ** [GraphEgress] *)
Abbreviation GraphEgress := (gmap string EgressMedium).

Definition insert_medium (nodes : GraphEgress) (idc : string * EgressNodeConfig)
    : outcome string GraphEgress :=
  m ← medium_of idc.2;
  Ok (<[idc.1 := m]> nodes).

(** [GraphEgress::try_from]: in key order, the first failure wins. *)
Definition graph_of (configs : gmap string EgressNodeConfig) : outcome string GraphEgress :=
  for_each insert_medium ∅ (btree_iter configs).

Definition chained_error (protocol : string) : EgressError :=
  egress_error "egress-select" None (protocol ++ " chained graph execution is not implemented").

Definition no_execution_egress (id : string) : EgressError :=
  egress_error "egress-select" None ("selection node " ++ id ++ " has no execution egress").

Definition final_egress_for_decision (g : GraphEgress) (d : SelectionDecision)
    : outcome EgressError EgressMedium :=
  hop ← ok_or (last (trace d)) (chained_error "TCP");
  ok_or (g !! hop_node_id hop) (no_execution_egress (hop_node_id hop)).

Definition egress_for_node (g : GraphEgress) (id : string) : outcome EgressError EgressMedium :=
  ok_or (g !! id) (no_execution_egress id).

Definition tcp_dialer_for_head (g : GraphEgress) (d : SelectionDecision)
    : outcome EgressError EgressMedium :=
  if negb (length (trace d) =? 2) then
    Err (egress_error "egress-select" None
           ("TCP graph execution supports exactly one dialer hop, got "
            ++ to_string (Z.of_nat (length (trace d))) ++ " hops"))
  else
    h ← ok_or (head (trace d)) (chained_error "TCP");
    m ← egress_for_node g (hop_node_id h);
    ok_or (tcp_dialer m)
      (egress_error "egress-select" None
         ("TCP chained graph dialer node " ++ hop_node_id h ++ " has no TCP dialer")).

Definition graph_decision_tag (g : GraphEgress) (d : SelectionDecision) : string :=
  match final_egress_for_decision g d with Ok m => medium_tag m | _ => "graph" end.

(** The call that carries a session: the node alone, the node through a TCP dialer,
    or (UDP only) one Shadowsocks node inside another. *)
Inductive dispatch :=
| Plain (m : EgressMedium)
| ViaDialer (m dialer : EgressMedium)
| OverShadowsocks (m underlay : EgressMedium).

Definition ends_direct (d : SelectionDecision) : bool := String.eqb (terminal_kind (terminal d)) "direct".

(** [GraphEgress::handle_tcp] *)
Definition handle_tcp (g : GraphEgress) (d : SelectionDecision) : outcome EgressError dispatch :=
  m ← final_egress_for_decision g d;
  if (length (trace d) =? 1) && ends_direct d then Ok (Plain m)
  else if ends_direct d then dialer ← tcp_dialer_for_head g d; Ok (ViaDialer m dialer)
  else Err (chained_error "TCP").

(** [EgressMedium::handle_udp_with_dialer] *)
Definition handle_udp_with_dialer (m dialer : EgressMedium) : outcome EgressError dispatch :=
  match m with
  | MediumTrojan _ | MediumVless _ | MediumVmess _ => Ok (ViaDialer m dialer)
  | MediumDirect | MediumShadowsocks _ =>
      Err (egress_error "egress-select" None
             ("UDP final egress " ++ medium_tag m ++ " does not support TCP-dialer underlay"))
  end.

(** [GraphEgress::handle_udp] *)
Definition handle_udp (g : GraphEgress) (d : SelectionDecision) : outcome EgressError dispatch :=
  if (length (trace d) =? 1) && ends_direct d then
    m ← final_egress_for_decision g d; Ok (Plain m)
  else if (length (trace d) =? 2) && ends_direct d then
    h ← ok_or (head (trace d)) (chained_error "UDP");
    t ← ok_or (last (trace d)) (chained_error "UDP");
    hm ← egress_for_node g (hop_node_id h);
    tm ← egress_for_node g (hop_node_id t);
    match hm, tm with
    | MediumShadowsocks _, MediumShadowsocks _ => Ok (OverShadowsocks tm hm)
    | _, _ =>
        match tcp_dialer hm with
        | Some dialer => handle_udp_with_dialer tm dialer
        | None => Err (chained_error "UDP")
        end
    end
  else Err (chained_error "UDP").

(** ** [ReloadableEgress]: the graphs of recent generations *)
Definition RETAINED_GENERATIONS : nat := 8.

Abbreviation ReloadableEgress := (gmap Z GraphEgress).

Definition egress_new (generation : Z) (configs : gmap string EgressNodeConfig)
    : outcome string ReloadableEgress :=
  g ← graph_of configs;
  Ok {[generation := g]}.

(** The [while] loop of [install]; the first key is the least one. *)
Fixpoint evict (fuel : nat) (m : ReloadableEgress) : outcome string ReloadableEgress :=
  match fuel with
  | O => Ok m
  | S fuel' =>
      if RETAINED_GENERATIONS <? size m then
        oldest ← expect (head (btree_keys m));
        evict fuel' (delete oldest m)
      else Ok m
  end.

(** Each round removes one entry. *)
Definition install (m : ReloadableEgress) (generation : Z) (configs : gmap string EgressNodeConfig)
    : outcome string ReloadableEgress :=
  g ← graph_of configs;
  evict (S (size m)) (<[generation := g]> m).

Definition remove (m : ReloadableEgress) (generation : Z) : ReloadableEgress := delete generation m.

Definition generations (m : ReloadableEgress) : list Z := btree_keys m.

Definition graph_for (m : ReloadableEgress) (generation : Z) : outcome EgressError GraphEgress :=
  ok_or (m !! generation)
    (egress_error "egress-generation" None
       ("egress generation " ++ to_string generation ++ " is no longer retained")).

Definition decision_tag (m : ReloadableEgress) (d : SelectionDecision) : string :=
  match graph_for m (config_generation d) with
  | Ok g => graph_decision_tag g d
  | _ => "reloadable-graph"
  end.

Definition reloadable_handle_tcp (m : ReloadableEgress) (d : SelectionDecision)
    : outcome EgressError dispatch :=
  g ← graph_for m (config_generation d); handle_tcp g d.

Definition reloadable_handle_udp (m : ReloadableEgress) (d : SelectionDecision)
    : outcome EgressError dispatch :=
  g ← graph_for m (config_generation d); handle_udp g d.

(** ** Building a graph *)
Lemma graph_of_no_panic cfg : no_panic (graph_of cfg).
Proof.
  apply no_panic_for_each. intros g [id c]. unfold insert_medium, medium_of, of_result.
  apply no_panic_bind; [no_panics|]. intros m _. no_panics.
Qed.

Definition graph_built (cfg : gmap string EgressNodeConfig) (g : GraphEgress) : Prop :=
  ∀ id, match cfg !! id with
        | Some c => ∃ m, medium_of c = Ok m ∧ g !! id = Some m
        | None => g !! id = None
        end.

Lemma graph_of_built cfg g : graph_of cfg = Ok g → graph_built cfg g.
Proof.
  intros Hg.
  assert ((∀ id c, (id, c) ∈ btree_iter cfg → ∃ m, medium_of c = Ok m ∧ g !! id = Some m) ∧
          ∀ id, id ∉ (btree_iter cfg).*1 → g !! id = None) as [Hin Hout].
  { pose proof (NoDup_btree_keys cfg) as Hnd. unfold btree_keys in Hnd. revert Hnd Hg. unfold graph_of.
    revert g. induction (btree_iter cfg) as [|[k c] l IH] using rev_ind; intros g Hnd Hg.
    { injection Hg as <-. split; [by intros ? ? ?%elem_of_nil|done]. }
    rewrite fmap_app in Hnd. cbn in Hnd. apply NoDup_app in Hnd as (Hnd & Hk & _).
    rewrite for_each_app in Hg. apply outcome_bind_Ok_inv in Hg as (g0 & Hg0 & Hg). cbn in Hg.
    apply outcome_bind_Ok_inv in Hg as (g1 & Hg1 & [= <-]). unfold insert_medium in Hg1.
    apply outcome_bind_Ok_inv in Hg1 as (m & Hm & [= <-]). cbn in *.
    destruct (IH g0 Hnd Hg0) as [Hin Hout]. split.
    - intros id c' [Hi|Hi]%elem_of_app.
      + destruct (Hin id c' Hi) as (m' & Hm' & Hl). exists m'. split; [done|].
        rewrite lookup_insert_ne; [done|]. intros ->. apply (Hk id); [|apply list_elem_of_here].
        apply list_elem_of_fmap. by exists (id, c').
      + apply list_elem_of_singleton in Hi. injection Hi as [= -> ->]. exists m. by rewrite lookup_insert_eq.
    - intros id. rewrite fmap_app, not_elem_of_app. cbn. rewrite list_elem_of_singleton. intros [Hi Hne].
      rewrite lookup_insert_ne by done. by apply Hout. }
  intros id. destruct (cfg !! id) as [c|] eqn:E.
  - by apply Hin, elem_of_btree_iter.
  - apply Hout. change (id ∉ btree_keys cfg). rewrite elem_of_btree_keys, E. by intros [? ?].
Qed.

Lemma graph_built_dom cfg g id : graph_built cfg g → is_Some (g !! id) ↔ is_Some (cfg !! id).
Proof.
  intros Hb. specialize (Hb id). destruct (cfg !! id) as [c|].
  - destruct Hb as (m & _ & ->). by split.
  - by rewrite Hb.
Qed.

(** ** The retention window *)
Lemma evict_spec fuel m :
  size m ≤ fuel + RETAINED_GENERATIONS →
  ∃ r, evict fuel m = Ok r ∧ generations r = last_n RETAINED_GENERATIONS (generations m) ∧ r ⊆ m.
Proof.
  assert (∀ m : ReloadableEgress, length (generations m) = size m) as Hlen.
  { intros m'. unfold generations, btree_keys. by rewrite length_fmap, length_btree_iter. }
  revert m; induction fuel as [|fuel IH]; intros m Hf; cbn [evict].
  { exists m. split_and!; [done| |done]. unfold last_n. rewrite Hlen.
    by replace (size m - RETAINED_GENERATIONS) with 0 by lia. }
  destruct (Nat.ltb_spec RETAINED_GENERATIONS (size m)) as [Hlt|Hge].
  2: { exists m. split_and!; [done| |done]. unfold last_n. rewrite Hlen.
       by replace (size m - RETAINED_GENERATIONS) with 0 by lia. }
  specialize (Hlen m). unfold generations in *.
  destruct (btree_keys m) as [|k l] eqn:Hk; [cbn in *; lia|]. cbn [head expect mbind outcome_bind].
  assert (is_Some (m !! k)) as [g Hg] by (apply elem_of_btree_keys; rewrite Hk; apply list_elem_of_here).
  destruct (IH (delete k m)) as (r & Hr & Hkeys & Hsub).
  { rewrite map_size_delete_Some by (by exists g). lia. }
  exists r. split_and!; [done| |by etrans; [|apply delete_subseteq]].
  rewrite Hkeys, (btree_keys_delete_head m k l Hk). unfold last_n. cbn [length] in *.
  by replace (S (length l) - RETAINED_GENERATIONS) with (S (length l - RETAINED_GENERATIONS)) by lia.
Qed.

(** The newest generation is the last key. *)
Lemma newest_last (m : ReloadableEgress) k :
  is_Some (m !! k) → (∀ j, is_Some (m !! j) → (j ≤ k)%Z) → last (generations m) = Some k.
Proof.
  intros Hk%elem_of_btree_keys Hmax. unfold generations. pose proof (btree_keys_sorted m) as Hs.
  destruct (last (btree_keys m)) as [x|] eqn:El.
  - assert (x ∈ btree_keys m) as Hx by by apply last_Some_elem_of.
    apply elem_of_btree_keys, Hmax in Hx.
    apply last_Some in El as [l El]. rewrite El in Hk, Hs.
    apply StronglySorted_app in Hs as (Hle & _ & _).
    apply elem_of_app in Hk as [Hk| ->%list_elem_of_singleton]; [|done].
    specialize (Hle k x Hk (list_elem_of_here x [])). f_equal. unfold cmp_le in Hle. cbn in Hle.
    destruct (Z.compare_spec k x); [done|lia|done].
  - apply last_None in El. rewrite El in Hk. by apply elem_of_nil in Hk.
Qed.

Lemma install_spec m gen cfg g :
  graph_of cfg = Ok g → (∀ k, is_Some (m !! k) → (k < gen)%Z) → size m ≤ RETAINED_GENERATIONS →
  ∃ r, install m gen cfg = Ok r ∧ generations r = push_bounded RETAINED_GENERATIONS (generations m) gen ∧
    r !! gen = Some g ∧ (∀ k g', r !! k = Some g' → k = gen ∨ m !! k = Some g') ∧
    (∀ k g', last (generations m) = Some k → m !! k = Some g' → r !! k = Some g').
Proof.
  intros Hg Hlt Hsize. unfold install. rewrite Hg. cbn [mbind outcome_bind].
  assert (m !! gen = None) as Hnone.
  { destruct (m !! gen) eqn:E; [|done]. specialize (Hlt gen). rewrite E in Hlt.
    exfalso. enough (gen < gen)%Z by lia. by apply Hlt. }
  destruct (evict_spec (S (size m)) (<[gen := g]> m)) as (r & Hr & Hk & Hsub).
  { rewrite map_size_insert_None by done. lia. }
  assert (generations (<[gen := g]> m) = (generations m ++ [gen])%list) as Hins.
  { apply btree_keys_insert_last. intros k Hk'%elem_of_btree_keys. unfold cmp_lt. cbn.
    by apply Z.compare_lt_iff, Hlt. }
  assert (length (generations m) = size m) as Hlen
    by (unfold generations, btree_keys; by rewrite length_fmap, length_btree_iter).
  rewrite Hins in Hk.
  assert (last_n RETAINED_GENERATIONS (generations m ++ [gen])%list =
          push_bounded RETAINED_GENERATIONS (generations m) gen) as Hlast0.
  { unfold last_n, push_bounded. rewrite length_app, Hlen. cbn [length].
    destruct (Nat.eqb_spec (size m) RETAINED_GENERATIONS) as [E|E].
    - rewrite E. change (RETAINED_GENERATIONS + 1 - RETAINED_GENERATIONS) with 1.
      destruct (generations m); [|done]. cbn in Hlen. by rewrite <- Hlen in E.
    - replace (size m + 1 - RETAINED_GENERATIONS) with 0 by lia. done. }
  assert (∀ k g', r !! k = Some g' → k = gen ∨ m !! k = Some g') as Hold.
  { intros k g' Hl. apply (lookup_weaken _ _ _ _ Hl) in Hsub.
    destruct (decide (k = gen)) as [->|Hne]; [by left|right]. by rewrite lookup_insert_ne in Hsub. }
  exists r. split_and!; [done|by rewrite Hk| |done|].
  - assert (gen ∈ generations r) as Hin.
    { rewrite Hk, Hlast0. unfold push_bounded. apply elem_of_app. right. apply list_elem_of_here. }
    apply elem_of_btree_keys in Hin as [g' Hg']. rewrite Hg'.
    apply (lookup_weaken _ _ _ _ Hg') in Hsub. by rewrite lookup_insert_eq in Hsub.
  - intros k g' Hlast Hl.
    assert (k ∈ generations r) as [x Hx]%elem_of_btree_keys.
    { rewrite Hk, Hlast0. unfold push_bounded. apply elem_of_app. left.
      apply last_Some in Hlast as [l Hl']. rewrite Hl' in *.
      destruct (_ =? _) eqn:E; [|apply elem_of_app; right; apply list_elem_of_here].
      apply Nat.eqb_eq in E. destruct l; [done|]. cbn. apply elem_of_app. right. apply list_elem_of_here. }
    destruct (Hold k x Hx) as [->|Ho]; [|congruence].
    rewrite Hl in Hnone. done.
Qed.

(** A history of installations *)
Definition install_all (m : ReloadableEgress) (l : list (Z * gmap string EgressNodeConfig))
    : outcome string ReloadableEgress :=
  for_each (λ m p, install m p.1 p.2) m l.

(** The map after the installations [h]: the last eight generations, each with the
    graph of its own configuration. *)
Definition window_inv (h : list (Z * gmap string EgressNodeConfig)) (m : ReloadableEgress) : Prop :=
  generations m = last_n RETAINED_GENERATIONS h.*1 ∧
  ∀ k g, m !! k = Some g → ∃ cfg, (k, cfg) ∈ h ∧ graph_of cfg = Ok g.

Lemma window_step h m gen cfg r :
  window_inv h m → Forall (λ k, (k < gen)%Z) h.*1 → install m gen cfg = Ok r →
  window_inv (h ++ [(gen, cfg)])%list r.
Proof.
  intros [Hk Hg] Hlt Hi. unfold install in Hi. pose proof Hi as Hi'.
  apply outcome_bind_Ok_inv in Hi as (g & Hcfg & _).
  destruct (install_spec m gen cfg g Hcfg) as (r' & Hr & Hkeys & Hgen & Hold & _).
  - intros k Hs. apply elem_of_btree_keys in Hs. change (k ∈ generations m) in Hs. rewrite Hk in Hs.
    rewrite Forall_forall in Hlt. apply Hlt. by eapply elem_of_last_n.
  - assert (size m = length (generations m)) as ->
      by (unfold generations, btree_keys; by rewrite length_fmap, length_btree_iter).
    rewrite Hk, length_last_n. lia.
  - unfold install in Hr. rewrite Hi' in Hr. injection Hr as [= <-]. split.
    + rewrite Hkeys, Hk, fmap_app. cbn. apply push_bounded_last_n. unfold RETAINED_GENERATIONS. lia.
    + intros k g' Hl. destruct (Hold k g' Hl) as [->|Ho].
      * rewrite Hgen in Hl. injection Hl as [= <-]. exists cfg. split; [|done].
        apply elem_of_app. right. apply list_elem_of_here.
      * destruct (Hg k g' Ho) as (c & Hc & Hcg). exists c. split; [|done]. apply elem_of_app. by left.
Qed.

(** the execution graphs of the last eight configuration generations are retained
    and no others: after any history of installations with increasing generations,
    the retained generations are the last eight of the history and each maps to the
    graph built from the configuration installed under it, so a session selected under
    a recent generation is executed by the graph it was selected for. *)
Theorem egress_window g0 cfg0 l m r :
  egress_new g0 cfg0 = Ok m → StronglySorted Z.lt (g0 :: l.*1) → install_all m l = Ok r →
  generations r = last_n RETAINED_GENERATIONS (g0 :: l.*1) ∧
  ∀ gen cfg, (gen, cfg) ∈ (g0, cfg0) :: l → gen ∈ generations r →
    ∃ g, graph_of cfg = Ok g ∧ graph_for r gen = Ok g.
Proof.
  intros Hnew Hs Hall.
  assert (window_inv ((g0, cfg0) :: l) r) as [Hk Hg].
  { unfold egress_new in Hnew. apply outcome_bind_Ok_inv in Hnew as (g & Hg & [= <-]).
    revert r Hs Hall. unfold install_all. induction l as [|[k cfg] l IH] using rev_ind; intros r Hs Hall.
    - injection Hall as <-. split.
      { unfold generations, btree_keys, btree_iter. by rewrite map_to_list_singleton. }
      intros k g' [<- <-]%lookup_singleton_Some.
      exists cfg0. split; [apply list_elem_of_here|done].
    - rewrite for_each_app in Hall. apply outcome_bind_Ok_inv in Hall as (m' & Hm & Hi). cbn in Hi.
      apply outcome_bind_Ok_inv in Hi as (r' & Hi & [= ->]).
      rewrite fmap_app, app_comm_cons in Hs. apply StronglySorted_app in Hs as (Hlt & Hs & _).
      rewrite app_comm_cons. apply (window_step _ m'); [by apply IH| |done].
      apply Forall_forall. intros x Hx. apply (Hlt x k Hx). apply list_elem_of_here. }
  split; [exact Hk|]. intros gen cfg Hin Hr%elem_of_btree_keys. destruct Hr as [g Hl].
  exists g. unfold graph_for. rewrite Hl. split; [|done].
  destruct (Hg gen g Hl) as (cfg' & Hin' & Hc).
  assert (NoDup ((g0, cfg0) :: l).*1) as Hnd.
  { change (NoDup (g0 :: l.*1)). clear -Hs. induction Hs as [|x xs _ IH Hall]; constructor; [|done].
    intros Hx. rewrite Forall_forall in Hall. specialize (Hall x Hx). lia. }
  by rewrite (NoDup_fst_inj _ _ _ _ Hnd Hin Hin').
Qed.

(** ** Dispatch *)
Lemma ends_direct_iff d : ends_direct d = true ↔ terminal d = TerminalDirect.
Proof. unfold ends_direct. by destruct (terminal d). Qed.

(** Every node of the trace is in the graph. *)
Definition trace_executable (g : GraphEgress) (d : SelectionDecision) : Prop :=
  Forall (λ h, is_Some (g !! hop_node_id h)) (trace d).

(** TCP sessions are dispatched by the shape of the decision: one hop that ends
    directly is carried by its node alone, two hops by the second node through the
    first, and every other shape is refused with a selection error before any
    connection is made; the dispatch itself never panics. *)
Theorem tcp_dispatch_spec g d :
  trace_executable g d →
  match handle_tcp g d with
  | Ok (Plain m) =>
      ∃ h, trace d = [h] ∧ terminal d = TerminalDirect ∧ g !! hop_node_id h = Some m
  | Ok (ViaDialer m dialer) =>
      ∃ h1 h2, trace d = [h1; h2] ∧ terminal d = TerminalDirect ∧
        g !! hop_node_id h1 = Some dialer ∧ g !! hop_node_id h2 = Some m
  | Ok (OverShadowsocks _ _) => False
  | Err e => ee_stage e = "egress-select" ∧
      ¬ (terminal d = TerminalDirect ∧ 1 ≤ length (trace d) ≤ 2)
  | Panic => False
  end.
Proof.
  unfold trace_executable, handle_tcp, final_egress_for_decision, tcp_dialer_for_head, egress_for_node.
  pose proof (ends_direct_iff d) as Hd. intros Hall.
  destruct (trace d) as [|h1 [|h2 [|h3 hs]]] eqn:Et.
  - cbn. split; [done|]. cbn. lia.
  - apply Forall_singleton in Hall as [m1 H1]. cbn. rewrite H1. cbn.
    destruct (ends_direct d); [|split; [done|]; naive_solver]. exists h1. naive_solver.
  - apply Forall_cons in Hall as [[m1 H1] [[m2 H2] _]%Forall_cons]. cbn. rewrite H2. cbn.
    destruct (ends_direct d); [|split; [done|]; naive_solver]. cbn. rewrite H1. cbn. exists h1, h2. naive_solver.
  - assert (∃ h, last (h1 :: h2 :: h3 :: hs) = Some h ∧ is_Some (g !! hop_node_id h)) as (h & Hl & [m Hm]).
    { destruct (last (h1 :: h2 :: h3 :: hs)) as [h|] eqn:El; [|by apply last_None in El].
      exists h. split; [done|]. rewrite Forall_forall in Hall. apply Hall. by apply last_Some_elem_of. }
    rewrite Hl. cbn [ok_or mbind outcome_bind]. rewrite Hm. cbn.
    destruct (ends_direct d); cbn; (split; [done|]; lia).
Qed.

Definition carries_udp_over_tcp (m : EgressMedium) : bool :=
  match m with MediumTrojan _ | MediumVless _ | MediumVmess _ => true | _ => false end.

Definition is_shadowsocks (m : EgressMedium) : bool :=
  match m with MediumShadowsocks _ => true | _ => false end.

(** UDP associations with two hops run only where the protocols allow it: one
    Shadowsocks node inside another, or a last node that carries UDP over TCP (Trojan,
    VLESS, VMess) through the first as dialer; every other combination is refused with
    a selection error. *)
Theorem udp_dispatch_spec g d :
  trace_executable g d →
  match handle_udp g d with
  | Ok (Plain m) =>
      ∃ h, trace d = [h] ∧ terminal d = TerminalDirect ∧ g !! hop_node_id h = Some m
  | Ok (OverShadowsocks m underlay) =>
      ∃ h1 h2, trace d = [h1; h2] ∧ terminal d = TerminalDirect ∧
        g !! hop_node_id h1 = Some underlay ∧ g !! hop_node_id h2 = Some m ∧
        is_shadowsocks underlay = true ∧ is_shadowsocks m = true
  | Ok (ViaDialer m dialer) =>
      ∃ h1 h2, trace d = [h1; h2] ∧ terminal d = TerminalDirect ∧
        g !! hop_node_id h1 = Some dialer ∧ g !! hop_node_id h2 = Some m ∧
        carries_udp_over_tcp m = true
  | Err e => ee_stage e = "egress-select" ∧
      ¬ (∃ h, trace d = [h] ∧ terminal d = TerminalDirect) ∧
      ¬ (∃ h1 h2 m1 m2, trace d = [h1; h2] ∧ terminal d = TerminalDirect ∧
           g !! hop_node_id h1 = Some m1 ∧ g !! hop_node_id h2 = Some m2 ∧
           (carries_udp_over_tcp m2 = true ∨ (is_shadowsocks m1 = true ∧ is_shadowsocks m2 = true)))
  | Panic => False
  end.
Proof.
  unfold trace_executable, handle_udp, final_egress_for_decision, egress_for_node.
  pose proof (ends_direct_iff d) as Hd. intros Hall.
  destruct (trace d) as [|h1 [|h2 [|h3 hs]]] eqn:Et.
  - cbn. split_and!; [done|naive_solver..].
  - apply Forall_singleton in Hall as [m1 H1]. cbn.
    destruct (ends_direct d); cbn; [|split_and!; [done|naive_solver..]].
    rewrite H1. cbn. exists h1. naive_solver.
  - apply Forall_cons in Hall as [[m1 H1] [[m2 H2] _]%Forall_cons]. cbn.
    destruct (ends_direct d); cbn; [|split_and!; [done|naive_solver..]].
    rewrite H1. cbn. rewrite H2. cbn.
    assert (terminal d = TerminalDirect) as Ht by by apply Hd.
    destruct m1, m2; cbn;
      first [by exists h1, h2
            |split_and!; [done|by intros (? & ? & _)|];
             intros (? & ? & ? & ? & [= <- <-] & _ & E1 & E2 & E3);
             rewrite H1 in E1; rewrite H2 in E2; injection E1 as [= <-]; injection E2 as [= <-];
             cbn in E3; naive_solver].
  - cbn. split_and!; [done|naive_solver..].
Qed.
End graph.

(** ** A concrete graph *)
Definition demo_clients : EgressClients :=
  {| ss_client := ShadowsocksConfig; trojan_client := TrojanConfig; vless_client := VlessConfig;
     vmess_client := VmessConfig;
     ss_new := λ c, if is_empty (ss_password c) then inl "empty key" else inr c;
     trojan_new := λ c, c;
     vless_new := λ c, if is_empty (server_name c) then inl "empty name" else inr c;
     vmess_new := inr |}.

Definition demo_ss : EgressNodeConfig :=
  EgressShadowsocks {| ss_server := "a.example"; ss_port := 8388; ss_method := Aes256Gcm;
                       ss_password := "k" |}.
Definition demo_trojan : EgressNodeConfig :=
  EgressTrojan {| trojan_server := "b.example"; trojan_port := 443; trojan_password := "p";
                  trojan_sni := None; skip_cert_verify := false |}.
Definition demo_nodes_config : gmap string EgressNodeConfig :=
  <["head" := demo_ss]> (<["tail" := demo_trojan]> ∅).

Definition demo_hop (group node : string) (next : NextRef) : SelectionTraceHop :=
  {| hop_group_id := group; hop_node_id := node; hop_next := next;
     hop_scheduler := SingleFirstEnabled; hop_candidate_count := 1 |}.

Definition demo_decision : SelectionDecision :=
  {| decision_id := 1; config_generation := 3; decision_group_id := "entry"; matched_rule_id := None;
     decision_node_id := "head"; decision_next := Named "exit";
     trace := [demo_hop "entry" "head" (Named "exit"); demo_hop "exit" "tail" DirectAuditOutlet];
     terminal := TerminalDirect; reason := SingleNode; scheduler := SingleFirstEnabled;
     candidate_count := 1; ip_family := Ipv4; ipv6_policy_source := None |}.

Definition demo_installs : list (Z * gmap string EgressNodeConfig) :=
  List.map (λ k, (Z.of_nat k, demo_nodes_config)) (List.seq 2 9).

Definition demo_window0 := unwrap_or ∅ (egress_new (Clients:=demo_clients) 1 demo_nodes_config).
Definition demo_window := unwrap_or ∅ (install_all (Clients:=demo_clients) demo_window0 demo_installs).
Definition demo_graph := unwrap_or ∅ (graph_of (Clients:=demo_clients) demo_nodes_config).

Lemma egress_window_witness :
  generations (Clients:=demo_clients) demo_window = [3; 4; 5; 6; 7; 8; 9; 10]%Z.
Proof.
  assert (egress_new (Clients:=demo_clients) 1 demo_nodes_config = Ok demo_window0) as H1
    by (apply is_ok_unwrap; vm_compute; reflexivity).
  assert (install_all (Clients:=demo_clients) demo_window0 demo_installs = Ok demo_window) as H2
    by (apply is_ok_unwrap; vm_compute; reflexivity).
  assert (StronglySorted Z.lt (1%Z :: demo_installs.*1)) as Hs by (repeat constructor).
  exact (proj1 (egress_window (Clients:=demo_clients) 1 demo_nodes_config _ _ _ H1 Hs H2)).
Defined.

Lemma demo_executable : trace_executable (Clients:=demo_clients) demo_graph demo_decision.
Proof. apply Forall_cons. split; [|apply Forall_singleton]; eexists; vm_compute; reflexivity. Qed.

Lemma tcp_dispatch_spec_witness :
  ∃ m dialer, handle_tcp (Clients:=demo_clients) demo_graph demo_decision = Ok (ViaDialer m dialer) ∧
    ∃ h1 h2, trace demo_decision = [h1; h2] ∧ demo_graph !! hop_node_id h2 = Some m.
Proof.
  eexists _, _.
  match goal with |- ?A ∧ _ => assert A as H2 by (vm_compute; reflexivity) end.
  split; [exact H2|].
  pose proof (tcp_dispatch_spec (Clients:=demo_clients) demo_graph demo_decision demo_executable) as H.
  rewrite H2 in H. destruct H as (h1 & h2 & Ht & _ & _ & Hm). exists h1, h2. exact (conj Ht Hm).
Defined.

Lemma udp_dispatch_spec_witness :
  ∃ m dialer, handle_udp (Clients:=demo_clients) demo_graph demo_decision = Ok (ViaDialer m dialer) ∧
    carries_udp_over_tcp (Clients:=demo_clients) m = true.
Proof.
  eexists _, _.
  match goal with |- ?A ∧ _ => assert A as H2 by (vm_compute; reflexivity) end.
  split; [exact H2|].
  pose proof (udp_dispatch_spec (Clients:=demo_clients) demo_graph demo_decision demo_executable) as H.
  rewrite H2 in H. destruct H as (h1 & h2 & _ & _ & _ & _ & Hm). exact Hm.
Defined.
