(* ===== verification/Reload.v ===== *)
(** * Reload: replacing the configuration of a running process

    The plan of [crates/dynet-state/src/reload.rs], the audit trail of
    [crates/dynet-runtime/src/model/runtime_config.rs] and the procedure of
    [crates/dynet-cli/src/runtime_reload.rs], which moves the runtime, the stored seed,
    the egress graphs and the TUN settings to a new configuration or leaves the last
    good one in place. The clock, the outcome of each database transaction and the
    steps that other tasks take while the procedure awaits are arguments; the digest of
    a configuration is a parameter. *)
From Stdlib Require Import ZArith Lia Strings.Byte Ascii String Sorting.Sorted.
From stdpp Require Import base list numbers option strings gmap sets.
From S2P Require Import Prelude Collections Net RustStd Model Stores Validation Traffic MatrixStats Matrix Runtime ConfigData Forwarding Settings Egress.
Local Open Scope string_scope.
Local Open Scope nat_scope.

(** ** The plan *)
Inductive ReloadDisposition := PlanNoop | PlanApply | PlanRestartRequired.

Record ReloadPlan := {
  disposition : ReloadDisposition;
  changed_fields : list string;
  restart_required_fields : list string;
}.

(** [ReloadPlan::new] *)
Definition plan_new (changed restart : list string) : ReloadPlan :=
  {| disposition :=
       if length changed =? 0 then PlanNoop
       else if length restart =? 0 then PlanApply else PlanRestartRequired;
     changed_fields := changed; restart_required_fields := restart |}.

Definition differs {A} `{EqDecision A} (a b : A) : bool := negb (bool_decide (a = b)).

Definition restart_field (acc : list string * list string) (f : string * bool) : list string * list string :=
  if f.2 then ((acc.1 ++ [f.1])%list, (acc.2 ++ [f.1])%list) else acc.

Definition hot_field (changed : list string) (f : string * bool) : list string :=
  if f.2 then (changed ++ [f.1])%list else changed.

(** The comparisons of [plan_reload], in order. *)
Definition restart_fields (c n : Config) : list (string * bool) :=
  [("control.bind", differs (control_bind (control c)) (control_bind (control n)));
   ("ingress.dns.bind", differs (dns_bind (ingress_dns (ingress c))) (dns_bind (ingress_dns (ingress n))));
   ("ingress.dns.max_sessions",
     differs (dns_max_sessions (ingress_dns (ingress c))) (dns_max_sessions (ingress_dns (ingress n))));
   ("ingress.tcp.bind", differs (tcp_bind (ingress_tcp (ingress c))) (tcp_bind (ingress_tcp (ingress n))));
   ("ingress.tcp.upstream",
     differs (tcp_upstream (ingress_tcp (ingress c))) (tcp_upstream (ingress_tcp (ingress n))));
   ("ingress.tcp.max_sessions",
     differs (tcp_max_sessions (ingress_tcp (ingress c))) (tcp_max_sessions (ingress_tcp (ingress n))));
   ("ingress.udp.bind", differs (udp_bind (ingress_udp (ingress c))) (udp_bind (ingress_udp (ingress n))));
   ("ingress.udp.upstream",
     differs (udp_upstream (ingress_udp (ingress c))) (udp_upstream (ingress_udp (ingress n))));
   ("ingress.udp.idle_timeout",
     differs (udp_idle_timeout (ingress_udp (ingress c))) (udp_idle_timeout (ingress_udp (ingress n))));
   ("ingress.udp.max_sessions",
     differs (udp_max_sessions (ingress_udp (ingress c))) (udp_max_sessions (ingress_udp (ingress n))));
   ("ingress.socks5.bind",
     differs (socks5_bind (ingress_socks5 (ingress c))) (socks5_bind (ingress_socks5 (ingress n))));
   ("ingress.socks5.udp_advertise_ip",
     differs (udp_advertise_ip (ingress_socks5 (ingress c))) (udp_advertise_ip (ingress_socks5 (ingress n))));
   ("ingress.socks5.idle_timeout",
     differs (socks5_idle_timeout (ingress_socks5 (ingress c))) (socks5_idle_timeout (ingress_socks5 (ingress n))));
   ("ingress.socks5.max_sessions",
     differs (socks5_max_sessions (ingress_socks5 (ingress c))) (socks5_max_sessions (ingress_socks5 (ingress n))));
   ("capture.tun.enabled",
     differs (tun_enabled (capture_tun (capture c))) (tun_enabled (capture_tun (capture n))));
   ("capture.tun.interface",
     differs (tun_interface (capture_tun (capture c))) (tun_interface (capture_tun (capture n))));
   ("capture.router_ingress", differs (router_ingress (capture c)) (router_ingress (capture n)));
   ("ipv6.enabled", differs (v6_enabled (ipv6 c)) (v6_enabled (ipv6 n)));
   ("dns_mapping", differs (dns_mapping c) (dns_mapping n));
   ("persistence", differs (persistence c) (persistence n));
   ("service", differs (service c) (service n))].

Definition hot_fields (c n : Config) : list (string * bool) :=
  [("capture.tun.tcp_idle_timeout",
     differs (tun_tcp_idle_timeout (capture_tun (capture c))) (tun_tcp_idle_timeout (capture_tun (capture n))));
   ("capture.tun.udp_idle_timeout",
     differs (tun_udp_idle_timeout (capture_tun (capture c))) (tun_udp_idle_timeout (capture_tun (capture n))));
   ("capture.tun.udp_response_timeout",
     differs (tun_udp_response_timeout (capture_tun (capture c)))
             (tun_udp_response_timeout (capture_tun (capture n))));
   ("forwarding", differs (forwarding c) (forwarding n))].

Definition plan_reload (c n : Config) : ReloadPlan :=
  let '(changed, restart) := fold_left restart_field (restart_fields c n) ([], []) in
  plan_new (fold_left hot_field (hot_fields c n) changed) restart.

(** ** The audit trail *)
Definition RELOAD_AUDIT_LIMIT : nat := 128.

Inductive ConfigReloadTrigger := Sighup | Manual.

Inductive ConfigReloadOutcome :=
| OutcomeApplied | OutcomeNoop | OutcomeRestartRequired | OutcomeInvalid | OutcomeFailed.

Definition outcome_str (o : ConfigReloadOutcome) : string :=
  match o with
  | OutcomeApplied => "applied"
  | OutcomeNoop => "no-op"
  | OutcomeRestartRequired => "restart-required"
  | OutcomeInvalid => "invalid"
  | OutcomeFailed => "failed"
  end.

Record RuntimeConfigStatus := {
  status_generation : Z;
  status_fingerprint : string;
  status_source : string;
  status_started_at : Z;
  status_applied_at : Z;
  last_reload_at : option Z;
  last_reload_outcome : option ConfigReloadOutcome;
}.

Record ConfigReloadAudit := {
  audit_id : Z;
  audit_observed_at : Z;
  audit_trigger : ConfigReloadTrigger;
  audit_outcome : ConfigReloadOutcome;
  generation_before : Z;
  generation_after : Z;
  candidate_fingerprint : option string;
  audit_changed_fields : list string;
  audit_restart_fields : list string;
  audit_message : option string;
}.

Record RuntimeConfigAudit := {
  audit_next_id : Z;
  audit_status : RuntimeConfigStatus;
  audits : list ConfigReloadAudit;
}.

(** [RuntimeConfigAudit::new] *)
Definition audit_new (now generation : Z) (fingerprint source : string) : RuntimeConfigAudit :=
  {| audit_next_id := 0;
     audit_status :=
       {| status_generation := generation; status_fingerprint := fingerprint; status_source := source;
          status_started_at := now; status_applied_at := now; last_reload_at := None;
          last_reload_outcome := None |};
     audits := [] |}.

(** [RuntimeConfigAudit::push], with the status already replaced *)
Definition audit_push (a : RuntimeConfigAudit) (status : RuntimeConfigStatus) (r : ConfigReloadAudit)
    : RuntimeConfigAudit :=
  let id := wrap_u 64 (audit_next_id a + 1) in
  {| audit_next_id := id; audit_status := status;
     audits := push_bounded RELOAD_AUDIT_LIMIT (audits a)
       {| audit_id := id; audit_observed_at := audit_observed_at r; audit_trigger := audit_trigger r;
          audit_outcome := audit_outcome r; generation_before := generation_before r;
          generation_after := generation_after r; candidate_fingerprint := candidate_fingerprint r;
          audit_changed_fields := audit_changed_fields r; audit_restart_fields := audit_restart_fields r;
          audit_message := audit_message r |} |}.

Definition record_applied (a : RuntimeConfigAudit) (now : Z) (t : ConfigReloadTrigger) (gen : Z)
    (fingerprint : string) (changed : list string) : RuntimeConfigAudit :=
  let s := audit_status a in
  audit_push a
    {| status_generation := gen; status_fingerprint := fingerprint; status_source := status_source s;
       status_started_at := status_started_at s; status_applied_at := now;
       last_reload_at := Some now; last_reload_outcome := Some OutcomeApplied |}
    {| audit_id := 0; audit_observed_at := now; audit_trigger := t; audit_outcome := OutcomeApplied;
       generation_before := status_generation s; generation_after := gen;
       candidate_fingerprint := Some fingerprint; audit_changed_fields := changed;
       audit_restart_fields := []; audit_message := None |}.

Definition record_unchanged (a : RuntimeConfigAudit) (now : Z) (t : ConfigReloadTrigger)
    (o : ConfigReloadOutcome) (fingerprint : option string) (changed restart : list string)
    (message : option string) : RuntimeConfigAudit :=
  let s := audit_status a in
  audit_push a
    {| status_generation := status_generation s; status_fingerprint := status_fingerprint s;
       status_source := status_source s; status_started_at := status_started_at s;
       status_applied_at := status_applied_at s; last_reload_at := Some now;
       last_reload_outcome := Some o |}
    {| audit_id := 0; audit_observed_at := now; audit_trigger := t; audit_outcome := o;
       generation_before := status_generation s; generation_after := status_generation s;
       candidate_fingerprint := fingerprint; audit_changed_fields := changed;
       audit_restart_fields := restart; audit_message := message |}.

Definition record_noop a now t (fingerprint : string) : RuntimeConfigAudit :=
  record_unchanged a now t OutcomeNoop (Some fingerprint) [] [] None.

Definition record_restart_required a now t (fingerprint : string) (changed restart : list string)
    : RuntimeConfigAudit :=
  record_unchanged a now t OutcomeRestartRequired (Some fingerprint) changed restart
    (Some "configuration changes require a process restart").

Definition record_invalid a now t : RuntimeConfigAudit :=
  record_unchanged a now t OutcomeInvalid None [] []
    (Some "configuration parsing or validation failed").

Definition record_failed a now t : RuntimeConfigAudit :=
  record_unchanged a now t OutcomeFailed None [] [] (Some "runtime configuration commit failed").

(** ** The stored seed *)

(** [RuntimeStore::replace_bootstrap]: validation, then one transaction, which either
    commits or leaves the store as it was. [None] is the error of the database. *)
Definition replace_bootstrap (stored seed : RuntimeSeed) (committed : bool)
    : RuntimeSeed * outcome (option RuntimeStoreError) unit :=
  match validate_seed seed with
  | Ok _ => if committed then (seed, Ok tt) else (stored, Err None)
  | Err e => (stored, Err (Some e))
  | Panic => (stored, Panic)
  end.

(** ** The procedure *)
Section Reload.
Context `{Clients : EgressClients}.
Variable fingerprint : Config → string.

Record RuntimeReload := {
  rl_current : Config;
  rl_runtime : RuntimeState;
  rl_store : RuntimeSeed;
  rl_egress : gmap Z (gmap string EgressMedium);
  rl_tun : TunCaptureConfig;
  rl_audit : RuntimeConfigAudit;
}.

Inductive ReloadResult :=
| Applied (generation : Z) (changed : list string)
| Noop (generation : Z)
| RestartRequired (generation : Z) (fields : list string)
| Invalid (generation : Z)
| Failed (generation : Z).

(** What happens around the procedure: the clock, the two transactions, and the steps
    of other tasks between the preparation and the commit. *)
Record reload_env := {
  at_time : Z;
  replace_commits : bool;
  restore_commits : bool;
  meanwhile : RuntimeState → RuntimeState;
}.

(** [RuntimeReload::new] *)
Definition reload_new (config : Config) (source : string) (runtime : RuntimeState) (store : RuntimeSeed)
    (now : Z) : outcome string RuntimeReload :=
  let gen := generation (rt_routing runtime) in
  egress ← egress_new gen (execution_nodes (forwarding config));
  Ok {| rl_current := config; rl_runtime := runtime; rl_store := store; rl_egress := egress;
        rl_tun := capture_tun (capture config);
        rl_audit := audit_new now gen (fingerprint config) source |}.

Definition with_audit (s : RuntimeReload) (a : RuntimeConfigAudit) : RuntimeReload :=
  {| rl_current := rl_current s; rl_runtime := rl_runtime s; rl_store := rl_store s;
     rl_egress := rl_egress s; rl_tun := rl_tun s; rl_audit := a |}.

Definition with_runtime (s : RuntimeReload) (st : RuntimeState) : RuntimeReload :=
  {| rl_current := rl_current s; rl_runtime := st; rl_store := rl_store s;
     rl_egress := rl_egress s; rl_tun := rl_tun s; rl_audit := rl_audit s |}.

Definition with_egress (s : RuntimeReload) (e : gmap Z (gmap string EgressMedium)) : RuntimeReload :=
  {| rl_current := rl_current s; rl_runtime := rl_runtime s; rl_store := rl_store s;
     rl_egress := e; rl_tun := rl_tun s; rl_audit := rl_audit s |}.

Definition with_store (s : RuntimeReload) (seed : RuntimeSeed) : RuntimeReload :=
  {| rl_current := rl_current s; rl_runtime := rl_runtime s; rl_store := seed;
     rl_egress := rl_egress s; rl_tun := rl_tun s; rl_audit := rl_audit s |}.

Definition current_generation (s : RuntimeReload) : Z := generation (rt_routing (rl_runtime s)).

Definition failed (s : RuntimeReload) (now : Z) (t : ConfigReloadTrigger) : RuntimeReload * ReloadResult :=
  (with_audit s (record_failed (rl_audit s) now t), Failed (current_generation s)).

(** [RuntimeReload::apply_candidate] *)
Definition apply_candidate (s : RuntimeReload) (e : reload_env) (candidate : Config) (fp : string)
    (changed : list string) (t : ConfigReloadTrigger) : outcome Empty_set (RuntimeReload * ReloadResult) :=
  let seed := fwd_seed (forwarding candidate) in
  let prepared := prepare_reconfigure (rl_runtime s) seed in
  let gen := generation (prepared_routing prepared) in
  match install (rl_egress s) gen (execution_nodes (forwarding candidate)) with
  | Panic => Panic
  | Err _ => Ok (failed s (at_time e) t)
  | Ok egress =>
      let s1 := with_runtime (with_egress s egress) (meanwhile e (rl_runtime s)) in
      let previous := fwd_seed (forwarding (rl_current s)) in
      match replace_bootstrap (rl_store s1) seed (replace_commits e) with
      | (_, Panic) => Panic
      | (_, Err _) => Ok (failed (with_egress s1 (remove egress gen)) (at_time e) t)
      | (stored, Ok _) =>
          let s2 := with_store s1 stored in
          match commit_reconfigure (rl_runtime s2) prepared with
          | (_, Panic) => Panic
          | (_, Err _) =>
              let restored := (replace_bootstrap stored previous (restore_commits e)).1 in
              Ok (failed (with_store (with_egress s2 (remove egress gen)) restored) (at_time e) t)
          | (runtime, Ok _) =>
              Ok ({| rl_current := candidate; rl_runtime := runtime; rl_store := stored;
                     rl_egress := egress; rl_tun := capture_tun (capture candidate);
                     rl_audit := record_applied (rl_audit s) (at_time e) t gen fp changed |},
                  Applied gen changed)
          end
      end
  end.

(** [RuntimeReload::reload]; [loaded] is what [Config::from_config_path] returned. *)
Definition reload (s : RuntimeReload) (e : reload_env) (t : ConfigReloadTrigger)
    (loaded : config_error + Config) : outcome Empty_set (RuntimeReload * ReloadResult) :=
  let gen := current_generation s in
  match loaded with
  | inl _ => Ok (with_audit s (record_invalid (rl_audit s) (at_time e) t), Invalid gen)
  | inr candidate =>
      let fp := fingerprint candidate in
      let plan := plan_reload (rl_current s) candidate in
      match disposition plan with
      | PlanNoop => Ok (with_audit s (record_noop (rl_audit s) (at_time e) t fp), Noop gen)
      | PlanRestartRequired =>
          Ok (with_audit s (record_restart_required (rl_audit s) (at_time e) t fp
                              (changed_fields plan) (restart_required_fields plan)),
              RestartRequired gen (restart_required_fields plan))
      | PlanApply => apply_candidate s e candidate fp (changed_fields plan) t
      end
  end.
End Reload.

(** ** The plan, declaratively *)
Definition differing (l : list (string * bool)) : list string := List.map fst (List.filter snd l).

Lemma fold_restart_field l acc :
  fold_left restart_field l acc = ((acc.1 ++ differing l)%list, (acc.2 ++ differing l)%list).
Proof.
  unfold differing. revert acc; induction l as [|[name b] l IH]; intros [x y]; cbn; [by rewrite !app_nil_r|].
  rewrite IH. unfold restart_field; cbn. destruct b; cbn; [by rewrite <- !app_assoc|done].
Qed.

Lemma fold_hot_field l acc : fold_left hot_field l acc = (acc ++ differing l)%list.
Proof.
  unfold differing. revert acc; induction l as [|[name b] l IH]; intros x; cbn; [by rewrite app_nil_r|].
  rewrite IH. unfold hot_field; cbn. destruct b; cbn; [by rewrite <- app_assoc|done].
Qed.

Lemma plan_reload_fields c n :
  plan_reload c n = plan_new (differing (restart_fields c n) ++ differing (hot_fields c n))
                             (differing (restart_fields c n)).
Proof. unfold plan_reload. by rewrite fold_restart_field, fold_hot_field. Qed.

Lemma differing_nil l : differing l = [] ↔ Forall (λ f, f.2 = false) l.
Proof.
  unfold differing. induction l as [|[name b] l IH]; cbn; [done|].
  rewrite Forall_cons. destruct b; cbn; [split; [done|by intros [? _]]|]. rewrite IH. by split; [|intros [_ ?]].
Qed.

Lemma differs_false {A} `{EqDecision A} (a b : A) : differs a b = false ↔ a = b.
Proof. unfold differs. rewrite negb_false_iff. apply bool_decide_eq_true. Qed.

(** [c] with the settings that a running process can take from [n]. *)
Definition hot_update (c n : Config) : Config :=
  {| control := control c; ingress := ingress c;
     capture :=
       {| capture_tun :=
            {| tun_enabled := tun_enabled (capture_tun (capture c));
               tun_interface := tun_interface (capture_tun (capture c));
               tun_tcp_idle_timeout := tun_tcp_idle_timeout (capture_tun (capture n));
               tun_udp_idle_timeout := tun_udp_idle_timeout (capture_tun (capture n));
               tun_udp_response_timeout := tun_udp_response_timeout (capture_tun (capture n)) |};
          router_ingress := router_ingress (capture c) |};
     ipv6 := ipv6 c; dns_mapping := dns_mapping c; persistence := persistence c;
     forwarding := forwarding n; service := service c |}.

Lemma ingress_eq (c n : IngressConfig) :
  c = n ↔
    dns_bind (ingress_dns c) = dns_bind (ingress_dns n) ∧
    dns_max_sessions (ingress_dns c) = dns_max_sessions (ingress_dns n) ∧
    tcp_bind (ingress_tcp c) = tcp_bind (ingress_tcp n) ∧
    tcp_upstream (ingress_tcp c) = tcp_upstream (ingress_tcp n) ∧
    tcp_max_sessions (ingress_tcp c) = tcp_max_sessions (ingress_tcp n) ∧
    udp_bind (ingress_udp c) = udp_bind (ingress_udp n) ∧
    udp_upstream (ingress_udp c) = udp_upstream (ingress_udp n) ∧
    udp_idle_timeout (ingress_udp c) = udp_idle_timeout (ingress_udp n) ∧
    udp_max_sessions (ingress_udp c) = udp_max_sessions (ingress_udp n) ∧
    socks5_bind (ingress_socks5 c) = socks5_bind (ingress_socks5 n) ∧
    udp_advertise_ip (ingress_socks5 c) = udp_advertise_ip (ingress_socks5 n) ∧
    socks5_idle_timeout (ingress_socks5 c) = socks5_idle_timeout (ingress_socks5 n) ∧
    socks5_max_sessions (ingress_socks5 c) = socks5_max_sessions (ingress_socks5 n).
Proof.
  split; [by intros ->|]. destruct c as [[] [] [] []], n as [[] [] [] []]; cbn. intros Hf.
  destruct_and! Hf. congruence.
Qed.

Lemma tun_eq (c n : TunCaptureConfig) :
  c = n ↔ tun_enabled c = tun_enabled n ∧ tun_interface c = tun_interface n ∧
    tun_tcp_idle_timeout c = tun_tcp_idle_timeout n ∧ tun_udp_idle_timeout c = tun_udp_idle_timeout n ∧
    tun_udp_response_timeout c = tun_udp_response_timeout n.
Proof.
  split; [by intros ->|]. destruct c, n; cbn. intros Hf. destruct_and! Hf. congruence.
Qed.

Lemma config_eq (c n : Config) :
  c = n ↔ control_bind (control c) = control_bind (control n) ∧ ingress c = ingress n ∧
    capture_tun (capture c) = capture_tun (capture n) ∧
    router_ingress (capture c) = router_ingress (capture n) ∧
    v6_enabled (ipv6 c) = v6_enabled (ipv6 n) ∧ dns_mapping c = dns_mapping n ∧
    persistence c = persistence n ∧ service c = service n ∧ forwarding c = forwarding n.
Proof.
  split; [by intros ->|]. destruct c as [[] ? [] [] ? ? ? ?], n as [[] ? [] [] ? ? ? ?]; cbn. intros Hf.
  destruct_and! Hf. congruence.
Qed.

Lemma field_agrees {A} `{EqDecision A} name (a b : A) l :
  differing ((name, differs a b) :: l) = [] ↔ a = b ∧ differing l = [].
Proof. rewrite !differing_nil, Forall_cons. cbn. by rewrite differs_false. Qed.

(** Reads off, or proves, the agreement of a list of compared fields. *)
Ltac read_fields H := repeat match type of H with
  | differing (_ :: _) = [] => let E := fresh "E" in apply field_agrees in H as [E H] end.
Ltac prove_fields := repeat (apply field_agrees; split; [assumption|]); reflexivity.

Lemma no_restart_iff c n : differing (restart_fields c n) = [] ↔ hot_update c n = n.
Proof.
  rewrite config_eq, ingress_eq, tun_eq. unfold restart_fields. split.
  - intros H. read_fields H. by split_and!.
  - intros H. cbn in H. destruct_and! H. prove_fields.
Qed.

Lemma no_change_iff c n :
  differing (restart_fields c n) = [] ∧ differing (hot_fields c n) = [] ↔ c = n.
Proof.
  rewrite no_restart_iff, !config_eq, !ingress_eq, !tun_eq. unfold hot_fields. split.
  - intros [H1 H2]. read_fields H2. cbn in H1. destruct_and! H1. by split_and!.
  - intros H. destruct_and! H. split; [by split_and!|]. apply field_agrees; split; [assumption|].
    prove_fields.
Qed.

Lemma plan_cases c n :
  (disposition (plan_reload c n) = PlanNoop ∧ n = c) ∨
  (disposition (plan_reload c n) = PlanApply ∧ c ≠ n ∧ hot_update c n = n) ∨
  (disposition (plan_reload c n) = PlanRestartRequired ∧ hot_update c n ≠ n).
Proof.
  rewrite plan_reload_fields, <- (no_restart_iff c n).
  pose proof (no_change_iff c n) as Hc. revert Hc.
  generalize (differing (restart_fields c n)) (differing (hot_fields c n)). intros rs hs Hc.
  unfold plan_new. cbn [disposition]. rewrite length_app. destruct rs, hs; cbn; naive_solver.
Qed.

(** the plan is exact: it is a no-op iff the configurations are equal (paths up to
    their components), it is applied live iff they differ and agree outside of the
    forwarding section and the three TUN timeouts, it asks for a restart otherwise, and
    every field that needs the restart is among the changed ones. *)
Theorem plan_reload_spec c n :
  (disposition (plan_reload c n) = PlanNoop ↔ c = n) ∧
  (disposition (plan_reload c n) = PlanApply ↔ c ≠ n ∧ hot_update c n = n) ∧
  (disposition (plan_reload c n) = PlanRestartRequired ↔ hot_update c n ≠ n) ∧
  (∀ f, f ∈ restart_required_fields (plan_reload c n) → f ∈ changed_fields (plan_reload c n)).
Proof.
  rewrite plan_reload_fields, <- (no_restart_iff c n), <- (no_change_iff c n).
  generalize (differing (restart_fields c n)) (differing (hot_fields c n)). intros rs hs.
  unfold plan_new. cbn [disposition changed_fields restart_required_fields]. rewrite length_app.
  split_and!; [destruct rs, hs; cbn; naive_solver..|]. intros f Hf. apply elem_of_app. by left.
Qed.

(** ** The invariant of a running process *)
Section invariant.
Context `{Clients : EgressClients}.
Variable fingerprint : Config → string.
Implicit Types s : RuntimeReload.
Local Abbreviation reload := (reload fingerprint).

(** Everything that serves traffic agrees with the current configuration: the routing
    tables, the egress graph of the generation, the TUN settings and the audit. *)
Record reload_ok (s : RuntimeReload) : Prop := {
  ok_generation : in_u 64 (current_generation s);
  ok_routing : rt_routing (rl_runtime s) =
    routing_from_seed (current_generation s) (fwd_seed (forwarding (rl_current s)));
  ok_newest : ∀ k, is_Some (rl_egress s !! k) → (k ≤ current_generation s)%Z;
  ok_window : size (rl_egress s) ≤ RETAINED_GENERATIONS;
  ok_graph : ∃ g, rl_egress s !! current_generation s = Some g ∧
    graph_of (execution_nodes (forwarding (rl_current s))) = Ok g;
  ok_tun : rl_tun s = capture_tun (capture (rl_current s));
  ok_status : status_generation (audit_status (rl_audit s)) = current_generation s;
  ok_audits : length (audits (rl_audit s)) ≤ RELOAD_AUDIT_LIMIT;
}.

(** The other tasks record events, select and allocate sessions; they do not replace
    the routing tables. *)
Definition keeps_routing (e : reload_env) : Prop :=
  ∀ st, rt_routing (meanwhile e st) = rt_routing st.

Lemma reload_ok_unchanged s a :
  reload_ok s → audit_status a = audit_status (rl_audit s) ∨
    status_generation (audit_status a) = status_generation (audit_status (rl_audit s)) →
  length (audits a) ≤ RELOAD_AUDIT_LIMIT → reload_ok (with_audit s a).
Proof.
  intros [] Ha Hl. split; try done. cbn. destruct Ha as [->| ->]; done.
Qed.

Lemma record_unchanged_ok a now t o fp ch rs msg :
  length (audits a) ≤ RELOAD_AUDIT_LIMIT →
  status_generation (audit_status (record_unchanged a now t o fp ch rs msg)) =
    status_generation (audit_status a) ∧
  length (audits (record_unchanged a now t o fp ch rs msg)) ≤ RELOAD_AUDIT_LIMIT.
Proof.
  intros Hl. split; [done|]. apply length_push_bounded; [unfold RELOAD_AUDIT_LIMIT; lia|done].
Qed.

Lemma with_runtime_ok s st :
  rt_routing st = rt_routing (rl_runtime s) → reload_ok s → reload_ok (with_runtime s st).
Proof.
  intros He []. split; unfold current_generation in *; cbn in *; rewrite ?He; done.
Qed.

Lemma length_generations (m : gmap Z (gmap string EgressMedium)) : length (generations m) = size m.
Proof. unfold generations, btree_keys. by rewrite length_fmap, length_btree_iter. Qed.

Lemma evict_insert (m : gmap Z (gmap string EgressMedium)) k g :
  ∃ r, evict (S (size m)) (<[k := g]> m) = Ok r.
Proof.
  destruct (evict_spec (S (size m)) (<[k := g]> m)) as (r & Hr & _); [|by exists r].
  rewrite map_size_insert. destruct (m !! k); unfold id; lia.
Qed.

(** What an installation for the next generation does to the window. *)
Lemma install_next s cfg egress :
  reload_ok s → install (rl_egress s) (current_generation s + 1) cfg = Ok egress →
  ∃ g, graph_of cfg = Ok g ∧ egress !! (current_generation s + 1)%Z = Some g ∧
    size egress ≤ RETAINED_GENERATIONS ∧
    (∀ k, is_Some (egress !! k) → k = (current_generation s + 1)%Z ∨ is_Some (rl_egress s !! k)) ∧
    egress !! current_generation s = rl_egress s !! current_generation s.
Proof.
  intros [? ? Hnew Hwin (gc & Hgc & Hgraph) ? ? ?] Hi.
  pose proof Hi as (g & Hg & _)%outcome_bind_Ok_inv.
  destruct (install_spec (rl_egress s) (current_generation s + 1) cfg g Hg) as (r & Hr & Hk & Hgen & Hold & Hkeep);
    [intros k Hs%Hnew; lia|done|].
  rewrite Hr in Hi. injection Hi as [= ->]. exists g. split_and!; [done|done| | |].
  - rewrite <- length_generations, Hk. apply length_push_bounded; [unfold RETAINED_GENERATIONS; lia|].
    by rewrite length_generations.
  - intros k [x [->|Hx]%Hold]; [by left|right; by exists x].
  - rewrite Hgc. apply Hkeep; [|done]. apply newest_last; [by exists gc|done].
Qed.

(** An installation that is withdrawn again evicts at most an old graph. *)
Lemma withdrawn_ok s cfg egress :
  reload_ok s → install (rl_egress s) (current_generation s + 1) cfg = Ok egress →
  reload_ok (with_egress s (remove egress (current_generation s + 1))).
Proof.
  intros Hok Hi. destruct (install_next s cfg egress Hok Hi) as (g & _ & Hgen & Hsize & Hkeys & Hcur).
  destruct Hok as [? ? Hnew Hwin (gc & Hgc & Hgraph) ? ? ?].
  split; try done; cbn [rl_egress with_egress]; unfold remove.
  - intros k [x Hx]. apply lookup_delete_Some in Hx as [Hne Hx].
    destruct (Hkeys k) as [->|Hk]; [by exists x|done|by apply Hnew].
  - rewrite map_size_delete_Some by (by exists g). lia.
  - exists gc. unfold current_generation in *; cbn. split; [|done]. rewrite lookup_delete_ne by lia. congruence.
Qed.

(** The commit that the procedure makes, with the other tasks in between. *)
Lemma commit_next s e candidate egress stored a :
  reload_ok s → keeps_routing e → (current_generation s + 1 < 2 ^ 64)%Z →
  install (rl_egress s) (current_generation s + 1) (execution_nodes (forwarding candidate)) = Ok egress →
  status_generation (audit_status a) = (current_generation s + 1)%Z →
  length (audits a) ≤ RELOAD_AUDIT_LIMIT →
  reload_ok {| rl_current := candidate;
    rl_runtime := (commit_reconfigure (meanwhile e (rl_runtime s))
      (prepare_reconfigure (rl_runtime s) (fwd_seed (forwarding candidate)))).1;
    rl_store := stored; rl_egress := egress; rl_tun := capture_tun (capture candidate); rl_audit := a |}.
Proof.
  intros Hok He Hb Hi Ha Hl. destruct (install_next _ _ _ Hok Hi) as (g & Hg & Hgen & Hsize & Hkeys & _).
  assert (wrap_u 64 (current_generation s + 1) = current_generation s + 1)%Z as Hw.
  { apply Z.mod_small. destruct Hok as [[? _]]. lia. }
  unfold commit_reconfigure. rewrite He. unfold prepare_reconfigure; cbn.
  fold (current_generation s). rewrite Z.eqb_refl. cbn. rewrite Hw.
  assert (current_generation {| rl_current := candidate; rl_runtime :=
    {| rt_events := rt_events (meanwhile e (rl_runtime s));
       rt_routing := routing_from_seed (current_generation s + 1) (fwd_seed (forwarding candidate));
       rt_dns_map := rt_dns_map (meanwhile e (rl_runtime s)); rt_matrix := rt_matrix (meanwhile e (rl_runtime s));
       rt_next_decision_id := rt_next_decision_id (meanwhile e (rl_runtime s)) |};
    rl_store := stored; rl_egress := egress; rl_tun := capture_tun (capture candidate); rl_audit := a |}
    = current_generation s + 1)%Z as Hcur by done.
  split; rewrite ?Hcur; cbn; try done.
  - split; [|done]. destruct Hok as [[? _]]. lia.
  - intros k Hk. destruct (Hkeys k Hk) as [->|Hold]; [done|]. destruct Hok as [? ? Hnew]. specialize (Hnew k Hold). lia.
  - by exists g.
Qed.

Lemma commit_succeeds s e seed :
  keeps_routing e →
  ∃ st g, commit_reconfigure (meanwhile e (rl_runtime s)) (prepare_reconfigure (rl_runtime s) seed) = (st, Ok g).
Proof.
  intros He. unfold commit_reconfigure. rewrite He. cbn. rewrite Z.eqb_refl. cbn. by eexists _, _.
Qed.

Definition result_outcome (r : ReloadResult) : ConfigReloadOutcome :=
  match r with
  | Applied _ _ => OutcomeApplied | Noop _ => OutcomeNoop
  | RestartRequired _ _ => OutcomeRestartRequired | Invalid _ => OutcomeInvalid | Failed _ => OutcomeFailed
  end.

Definition result_generation (r : ReloadResult) : Z :=
  match r with
  | Applied g _ | Noop g | RestartRequired g _ | Invalid g | Failed g => g
  end.

(** Why a candidate that could be applied was not. *)
Definition commit_refused (e : reload_env) (c : Config) : Prop :=
  is_ok (graph_of (execution_nodes (forwarding c))) = false ∨
  validate_seed (fwd_seed (forwarding c)) ≠ Ok tt ∨ replace_commits e = false.

(** The cause of each result. *)
Definition result_cause s (e : reload_env) (loaded : config_error + Config) (r : ReloadResult) : Prop :=
  match r with
  | Applied _ changed => ∃ c, loaded = inr c ∧ rl_current s ≠ c ∧ hot_update (rl_current s) c = c ∧
      changed = changed_fields (plan_reload (rl_current s) c) ∧ ¬ commit_refused e c
  | Noop _ => loaded = inr (rl_current s)
  | RestartRequired _ fields => ∃ c, loaded = inr c ∧ hot_update (rl_current s) c ≠ c ∧
      fields = restart_required_fields (plan_reload (rl_current s) c)
  | Invalid _ => ∃ err, loaded = inl err
  | Failed _ => ∃ c, loaded = inr c ∧ rl_current s ≠ c ∧ hot_update (rl_current s) c = c ∧ commit_refused e c
  end.

(** What the procedure leaves behind. *)
Definition result_state s s' (loaded : config_error + Config) (r : ReloadResult) : Prop :=
  match r with
  | Applied g _ => ∃ c, loaded = inr c ∧ rl_current s' = c ∧ g = (current_generation s + 1)%Z ∧
      rl_store s' = fwd_seed (forwarding c) ∧
      rt_routing (rl_runtime s') = routing_from_seed g (fwd_seed (forwarding c)) ∧
      rl_tun s' = capture_tun (capture c)
  | _ => rl_current s' = rl_current s ∧ rl_store s' = rl_store s ∧ rl_tun s' = rl_tun s ∧
      rt_routing (rl_runtime s') = rt_routing (rl_runtime s)
  end.

(** The audit record of one reload. *)
Definition result_audit s s' (e : reload_env) (t : ConfigReloadTrigger) (r : ReloadResult) : Prop :=
  ∃ a, audits (rl_audit s') = push_bounded RELOAD_AUDIT_LIMIT (audits (rl_audit s)) a ∧
    audit_outcome a = result_outcome r ∧ audit_trigger a = t ∧ audit_observed_at a = at_time e ∧
    generation_before a = status_generation (audit_status (rl_audit s)) ∧
    generation_after a = status_generation (audit_status (rl_audit s')) ∧
    last_reload_outcome (audit_status (rl_audit s')) = Some (result_outcome r).

Definition reload_result_ok s e t loaded s' r : Prop :=
  reload_ok s' ∧ result_cause s e loaded r ∧ result_state s s' loaded r ∧ result_audit s s' e t r ∧
  result_generation r = current_generation s'.

Lemma failed_result s s1 e t loaded c :
  reload_ok s1 → loaded = inr c → rl_current s ≠ c → hot_update (rl_current s) c = c → commit_refused e c →
  rl_current s1 = rl_current s → rl_store s1 = rl_store s → rl_tun s1 = rl_tun s → rl_audit s1 = rl_audit s →
  rt_routing (rl_runtime s1) = rt_routing (rl_runtime s) →
  reload_result_ok s e t loaded (failed s1 (at_time e) t).1 (failed s1 (at_time e) t).2.
Proof.
  intros Hok -> Hne Hhot Href Hc Hs Ht Ha Hr. unfold failed; cbn [fst snd]. split_and!.
  - destruct (record_unchanged_ok (rl_audit s1) (at_time e) t OutcomeFailed None [] []
      (Some "runtime configuration commit failed") ltac:(by destruct Hok)) as [? ?].
    apply reload_ok_unchanged; [done|by right|done].
  - by exists c.
  - by split_and!.
  - eexists. unfold with_audit, record_failed; cbn. rewrite Ha. by split_and!.
  - done.
Qed.

Lemma apply_candidate_ok s e t c fp :
  reload_ok s → keeps_routing e → (current_generation s + 1 < 2 ^ 64)%Z →
  rl_current s ≠ c → hot_update (rl_current s) c = c →
  ∃ s' r, apply_candidate s e c fp (changed_fields (plan_reload (rl_current s) c)) t = Ok (s', r) ∧
    reload_result_ok s e t (inr c) s' r.
Proof.
  intros Hok He Hb Hne Hhot. unfold apply_candidate.
  assert (generation (prepared_routing (prepare_reconfigure (rl_runtime s) (fwd_seed (forwarding c))))
    = (current_generation s + 1)%Z) as ->.
  { cbn. apply Z.mod_small. destruct Hok as [[? _]]. unfold current_generation in *. lia. }
  assert (∀ s1, rl_current s1 = rl_current s → rl_store s1 = rl_store s → rl_tun s1 = rl_tun s →
    rl_audit s1 = rl_audit s → rt_routing (rl_runtime s1) = rt_routing (rl_runtime s) →
    reload_ok s1 → commit_refused e c →
    ∃ s' r, Ok (E:=Empty_set) (failed s1 (at_time e) t) = Ok (s', r) ∧ reload_result_ok s e t (inr c) s' r) as Hfail.
  { intros s1 ? ? ? ? ? ? ?. eexists _, _. split; [reflexivity|]. by eapply failed_result. }
  destruct (install (rl_egress s) (current_generation s + 1) (execution_nodes (forwarding c)))
    as [egress|err|] eqn:Hi.
  2: { apply Hfail; try done. left. unfold install in Hi.
       destruct (graph_of (execution_nodes (forwarding c))) as [g|x|]; [|done|done].
       cbn [mbind outcome_bind] in Hi. destruct (evict_insert (rl_egress s) (current_generation s + 1) g) as [r Hr].
       by rewrite Hr in Hi. }
  2: { exfalso. unfold install in Hi. pose proof (graph_of_no_panic (execution_nodes (forwarding c))) as Hnp.
       destruct (graph_of (execution_nodes (forwarding c))) as [g|x|] eqn:Hg; [|done|done].
       cbn [mbind outcome_bind] in Hi. destruct (evict_insert (rl_egress s) (current_generation s + 1) g) as [r Hr].
       by rewrite Hr in Hi. }
  assert (is_ok (graph_of (execution_nodes (forwarding c))) = true) as Hgraph.
  { pose proof Hi as (g & Hg & _)%outcome_bind_Ok_inv. by rewrite Hg. }
  set (s1 := with_runtime (with_egress s egress) (meanwhile e (rl_runtime s))).
  assert (reload_ok (with_egress s1 (remove egress (current_generation s + 1)))) as Hok1.
  { apply (withdrawn_ok _ _ _ Hok) in Hi.
    by apply (with_runtime_ok _ (meanwhile e (rl_runtime s))) in Hi; [|cbn; apply He]. }
  unfold replace_bootstrap at 1. destruct (validate_seed (fwd_seed (forwarding c))) as [[]|err|] eqn:Hv.
  2: { apply Hfail; try done; [cbn; apply He|by right; left; rewrite Hv]. }
  2: { exfalso. by apply (validate_seed_no_panic (fwd_seed (forwarding c))). }
  destruct (replace_commits e) eqn:Hc; [|apply Hfail; try done; [cbn; apply He|by right; right]].
  destruct (commit_succeeds s e (fwd_seed (forwarding c)) He) as (st & g & Hcommit).
  change (rl_runtime (with_store s1 (fwd_seed (forwarding c)))) with (meanwhile e (rl_runtime s)).
  set (a := record_applied (rl_audit s) (at_time e) t (current_generation s + 1) fp
    (changed_fields (plan_reload (rl_current s) c))).
  pose proof (commit_next s e c egress (fwd_seed (forwarding c)) a Hok He Hb Hi eq_refl) as Hnext.
  rewrite Hcommit in Hnext |- *. eexists _, _. split; [reflexivity|].
  assert (rt_routing st = routing_from_seed (current_generation s + 1) (fwd_seed (forwarding c))) as Hst.
  { unfold commit_reconfigure in Hcommit. rewrite He in Hcommit. cbn in Hcommit.
    rewrite Z.eqb_refl in Hcommit. injection Hcommit as [= <- _]. cbn. f_equal. apply Z.mod_small.
    destruct Hok as [[? _]]. unfold current_generation in *. lia. }
  split_and!.
  - apply Hnext. apply length_push_bounded; [unfold RELOAD_AUDIT_LIMIT; lia|by destruct Hok].
  - exists c. split_and!; try done. intros [Hx|[Hx|Hx]]; [|done|]; congruence.
  - exists c. by split_and!.
  - eexists. unfold a, record_applied; cbn. by split_and!.
  - unfold current_generation at 2. cbn. by rewrite Hst.
Qed.

Lemma unchanged_result s e t loaded r fp ch rs msg :
  reload_ok s → result_cause s e loaded r → result_state s s loaded r →
  result_generation r = current_generation s →
  reload_result_ok s e t loaded
    (with_audit s (record_unchanged (rl_audit s) (at_time e) t (result_outcome r) fp ch rs msg)) r.
Proof.
  intros Hok Hcause Hst Hg.
  destruct (record_unchanged_ok (rl_audit s) (at_time e) t (result_outcome r) fp ch rs msg) as [Hs Hl];
    [by destruct Hok|].
  split_and!.
  - apply reload_ok_unchanged; [done|by right|done].
  - done.
  - by destruct r.
  - eexists. unfold with_audit, record_unchanged, audit_push; cbn. by split_and!.
  - done.
Qed.

Lemma reload_cases s e t loaded :
  reload_ok s → keeps_routing e → (current_generation s + 1 < 2 ^ 64)%Z →
  ∃ s' r, reload s e t loaded = Ok (s', r) ∧ reload_result_ok s e t loaded s' r.
Proof.
  intros Hok He Hb. unfold reload, Reload.reload. destruct loaded as [err|c].
  { eexists _, _. split; [reflexivity|].
    apply (unchanged_result s e t (inl err) (Invalid (current_generation s))); [done|by exists err|done|done]. }
  destruct (plan_cases (rl_current s) c) as [[-> ->]|[(-> & Hne & Hhot)|[-> Hhot]]].
  - eexists _, _. split; [reflexivity|].
    by apply (unchanged_result s e t (inr (rl_current s)) (Noop (current_generation s))).
  - by apply apply_candidate_ok.
  - eexists _, _. split; [reflexivity|].
    apply (unchanged_result s e t (inr c) (RestartRequired (current_generation s) _)); [done|by exists c|done|done].
Qed.

(** C7: reloading keeps the process coherent: from every coherent state, whatever the
    file loads to, whether the transactions commit and whatever the other tasks do
    meanwhile, the procedure returns without a panic in a coherent state, where the
    routing tables, the egress graph of the current generation, the TUN settings and
    the audit all belong to one configuration and at most eight graphs and 128 audit
    records are kept. *)
Theorem reload_coherent s e t loaded :
  reload_ok s → keeps_routing e → (current_generation s + 1 < 2 ^ 64)%Z →
  ∃ s' r, reload s e t loaded = Ok (s', r) ∧ reload_ok s' ∧ result_generation r = current_generation s'.
Proof.
  intros Hok He Hb. destruct (reload_cases s e t loaded Hok He Hb) as (s' & r & Hr & ? & _ & _ & _ & ?).
  by exists s', r.
Qed.

(** C6: last good configuration: a reload either moves configuration, routing tables,
    stored seed and TUN settings to the candidate together under the next generation,
    which happens exactly when the candidate loads, differs only in live settings,
    builds, validates and is committed; or it leaves all of them as they were and says
    why; in both cases exactly one audit record with that result is appended. *)
Theorem reload_last_good s e t loaded s' r :
  reload_ok s → keeps_routing e → (current_generation s + 1 < 2 ^ 64)%Z →
  reload s e t loaded = Ok (s', r) →
  result_cause s e loaded r ∧ result_state s s' loaded r ∧ result_audit s s' e t r.
Proof.
  intros Hok He Hb Hr. destruct (reload_cases s e t loaded Hok He Hb) as (s1 & r1 & Hr1 & ? & ? & ? & ? & ?).
  rewrite Hr in Hr1. by injection Hr1 as [= <- <-].
Qed.

(** A new process is coherent when the runtime was built from its configuration. *)
Lemma reload_new_coherent config source runtime store now s :
  in_u 64 (generation (rt_routing runtime)) →
  rt_routing runtime =
    routing_from_seed (generation (rt_routing runtime)) (fwd_seed (forwarding config)) →
  reload_new fingerprint config source runtime store now = Ok s → reload_ok s.
Proof.
  intros Hg Hr H. unfold reload_new in H. bind_inv H. injection H as [= <-].
  unfold egress_new in E. bind_inv E. injection E as [= <-].
  split; unfold current_generation; cbn; try done.
  - intros k [y Hy]. apply lookup_singleton_Some in Hy as [<- _]. lia.
  - rewrite map_size_singleton. unfold RETAINED_GENERATIONS. lia.
  - exists x0. by rewrite lookup_singleton_eq.
  - unfold RELOAD_AUDIT_LIMIT. lia.
Qed.

(** The nodes of a walk are nodes of the seed. *)
Lemma walk_nodes store ns f gid hs t h :
  walk store ns f gid hs t → h ∈ hs → is_Some (nodes ns !! hop_node_id h).
Proof.
  assert (∀ gid h, hop_sound store ns f gid h → is_Some (nodes ns !! hop_node_id h)) as Hhop.
  { intros g h' (? & ? & m & _ & _ & _ & _ & _ & _ & _ & Hm & <- & _).
    unfold member_candidate in Hm. apply andb_prop in Hm as [_ Hm]. unfold is_eligible in Hm.
    by destruct (nodes ns !! member_node_id m). }
  induction 1 as [g h0 Hs _|g h0 name nid Hs _ _|g h0 name hs t Hs _ _ _ IH];
    [intros ->%list_elem_of_singleton; eauto..|].
  intros [->|Hin]%elem_of_cons; eauto.
Qed.

(** what is selected can be executed: in a coherent process whose forwarding section
    is valid, every decision of the runtime finds the graph of its own generation, and
    every node of its trace has an execution node in that graph, so a session is never
    refused for a missing generation or a missing egress. *)
Theorem decision_executable s now c st' d :
  reload_ok s → forwarding_valid (forwarding (rl_current s)) →
  select (rl_runtime s) now c = (st', Ok d) →
  ∃ g, graph_for (rl_egress s) (config_generation d) = Ok g ∧ trace_executable g d.
Proof.
  intros Hok Hf Hsel. destruct Hok as [_ Hrt _ _ (g & Hg & Hgraph) _ _ _].
  pose proof (select_cases (rl_runtime s) now c) as Hs. rewrite Hsel, Hrt in Hs.
  destruct Hs as [Hd _]; [apply from_parts_keyed|].
  destruct Hd as (Hw & _ & _ & _ & _ & Hgen & _). rewrite Hrt in Hw, Hgen. cbn in Hgen.
  exists g. unfold graph_for. rewrite Hgen, Hg. split; [done|].
  apply Forall_forall. intros h Hh. apply graph_of_built in Hgraph.
  rewrite (graph_built_dom _ _ _ Hgraph). apply (fv_execution _ Hf).
  destruct (walk_nodes _ _ _ _ _ _ _ Hw Hh) as [n Hn]. cbn in Hn.
  apply (lookup_keyed node_id) in Hn as [Hin <-]. by apply list_elem_of_In, in_map, list_elem_of_In.
Qed.
End invariant.

(** ** A concrete process *)
Definition demo_fingerprint (c : Config) : string := tun_interface (capture_tun (capture c)).

Definition demo_reload : RuntimeReload (Clients:=demo_clients) :=
  unwrap_or
    {| rl_current := default_config; rl_runtime := demo_runtime; rl_store := Model.single_node "direct";
       rl_egress := ∅; rl_tun := default_tun; rl_audit := audit_new 0 1 "" "" |}
    (reload_new (Clients:=demo_clients) demo_fingerprint default_config "dynet.toml" demo_runtime
       (Model.single_node "direct") 5).

Lemma demo_reload_ok : reload_ok (Clients:=demo_clients) demo_reload.
Proof.
  eapply (reload_new_coherent (Clients:=demo_clients) demo_fingerprint default_config "dynet.toml" demo_runtime
    (Model.single_node "direct") 5).
  - split; vm_compute; [discriminate|reflexivity].
  - reflexivity.
  - apply is_ok_unwrap. vm_compute. reflexivity.
Qed.

Definition demo_env : reload_env :=
  {| at_time := 9; replace_commits := true; restore_commits := true; meanwhile := λ st, st |}.

(** The candidate renames the direct node. *)
Definition demo_candidate : Config :=
  {| control := control default_config; ingress := ingress default_config;
     capture := capture default_config; ipv6 := ipv6 default_config;
     dns_mapping := dns_mapping default_config; persistence := persistence default_config;
     forwarding := {| fwd_seed := Model.single_node "renamed";
                      execution_nodes := execution_nodes default_forwarding |};
     service := service default_config |}.

Lemma reload_coherent_witness :
  ∃ s' r, reload (Clients:=demo_clients) demo_fingerprint demo_reload demo_env Manual (inr demo_candidate) = Ok (s', r) ∧
    reload_ok (Clients:=demo_clients) s' ∧ result_generation r = current_generation (Clients:=demo_clients) s'.
Proof.
  apply (reload_coherent (Clients:=demo_clients) demo_fingerprint demo_reload demo_env Manual (inr demo_candidate)).
  - exact demo_reload_ok.
  - intros st. reflexivity.
  - vm_compute. reflexivity.
Defined.

Lemma reload_last_good_witness :
  ∃ s', reload (Clients:=demo_clients) demo_fingerprint demo_reload demo_env Sighup (inl (Text "bad")) = Ok (s', Invalid 1) ∧
    result_state (Clients:=demo_clients) demo_reload s' (inl (Text "bad")) (Invalid 1).
Proof.
  eexists. match goal with |- ?A ∧ _ => assert A as H by reflexivity end. split; [exact H|].
  refine (proj1 (proj2 (reload_last_good (Clients:=demo_clients) demo_fingerprint demo_reload demo_env Sighup
    (inl (Text "bad")) _ _ demo_reload_ok _ _ H))).
  - intros st. reflexivity.
  - vm_compute. reflexivity.
Defined.

Lemma decision_executable_witness :
  ∃ st' d, select (rl_runtime (Clients:=demo_clients) demo_reload) 7 demo_context = (st', Ok d) ∧
    ∃ g, graph_for (Clients:=demo_clients) (rl_egress demo_reload) (config_generation d) = Ok g ∧
      trace_executable (Clients:=demo_clients) g d.
Proof.
  destruct (select (rl_runtime (Clients:=demo_clients) demo_reload) 7 demo_context) as [st' [d|e|]] eqn:E.
  - exists st', d. split; [reflexivity|].
    exact (decision_executable (Clients:=demo_clients) demo_reload 7 demo_context st' d demo_reload_ok
      default_forwarding_valid E).
  - exfalso. vm_compute in E. discriminate E.
  - exfalso. vm_compute in E. discriminate E.
Defined.
