(* ===== verification/Socks.v ===== *)
(** * Socks: the SOCKS5 wire format

    [crates/dynet-ingress/src/socks/protocol.rs] and the response packets of
    [egress/udp_downstream.rs]. A TCP client is the bytes it still has to send and a
    flag that says whether it accepts what is written to it; every reader returns the
    bytes it left. The UDP parsers index and slice the packet as the code does, so
    their totality is a theorem and not a convention. *)
From Stdlib Require Import ZArith Lia Strings.Byte Ascii String.
From stdpp Require Import base list numbers option strings.
From S2P Require Import Prelude Net.
Local Open Scope string_scope.
Local Open Scope nat_scope.

(** ** Data *)
Inductive SocksDestination :=
| DestSocket (address : SocketAddr)
| DestDomain (domain : bytes) (port : Z).

Record SocksRequest := { command : Z; destination : SocksDestination }.
Record SocksUdpPacket := { udp_destination : SocksDestination; udp_payload : bytes }.
Record SocksError := { socks_stage : string; socks_message : string }.

Definition socks_error (stage message : string) : SocksError :=
  {| socks_stage := stage; socks_message := message |}.

(** [SocksError::with_source]: the text of the I/O error is left out. *)
Definition with_source (stage message : string) : SocksError :=
  socks_error stage (message ++ ": {error}").

(** [SocksDestination::domain] *)
Definition dest_domain (d : SocksDestination) : option bytes :=
  match d with DestSocket _ => None | DestDomain domain _ => Some domain end.

Abbreviation socks := (outcome SocksError).

Definition SOCKS_VERSION : Z := 5.
Definition SOCKS_NO_AUTH : Z := 0.
Definition SOCKS_NO_ACCEPTABLE_METHODS : Z := 255.
Definition SOCKS_ATYP_IPV4 : Z := 1.
Definition SOCKS_ATYP_DOMAIN : Z := 3.
Definition SOCKS_ATYP_IPV6 : Z := 4.
Definition SOCKS_CMD_CONNECT : Z := 1.
Definition SOCKS_CMD_BIND : Z := 2.
Definition SOCKS_CMD_UDP_ASSOCIATE : Z := 3.
Definition SOCKS_REPLY_SUCCEEDED : Z := 0.
Definition SOCKS_REPLY_COMMAND_NOT_SUPPORTED : Z := 7.

(** ** The TCP handshake *)
Definition read_bytes (n : nat) (stage message : string) (s : stream) : socks (bytes * stream) :=
  ok_or (read_exact n s) (with_source stage message).

Definition byte_at (l : bytes) (i : nat) : Z := b2z (nth i l x00).

(** The method selection, the bytes written and the rest of the input. *)
Definition negotiate_no_auth (s : stream) (accepts : bool) : bytes * socks stream :=
  match read_bytes 2 "socks-handshake" "failed reading greeting" s with
  | Ok (header, s1) =>
      if negb (byte_at header 0 =? SOCKS_VERSION)%Z then
        ([], Err (socks_error "socks-handshake" "unsupported SOCKS version"))
      else
        match read_bytes (Z.to_nat (byte_at header 1)) "socks-handshake" "failed reading methods" s1 with
        | Ok (methods, s2) =>
            let method :=
              if existsb (λ m, b2z m =? SOCKS_NO_AUTH)%Z methods then SOCKS_NO_AUTH
              else SOCKS_NO_ACCEPTABLE_METHODS in
            if negb accepts then
              ([], Err (with_source "socks-handshake" "failed writing method selection"))
            else
              ([z2b SOCKS_VERSION; z2b method],
               if (method =? SOCKS_NO_ACCEPTABLE_METHODS)%Z then
                 Err (socks_error "socks-handshake" "SOCKS5 no-auth method is not offered")
               else Ok s2)
        | Err e => ([], Err e)
        | Panic => ([], Panic)
        end
  | Err e => ([], Err e)
  | Panic => ([], Panic)
  end.

Definition read_port (s : stream) : socks (Z * stream) :=
  '(port, s') ← read_bytes 2 "socks-request" "failed reading target port" s;
  Ok (from_be port, s').

Definition read_ipv4_destination (s : stream) : socks (SocksDestination * stream) :=
  '(a, s1) ← read_bytes 4 "socks-request" "failed reading IPv4 target" s;
  '(port, s2) ← read_port s1;
  Ok (DestSocket (socket_addr (ipv4_from a) port), s2).

Definition read_ipv6_destination (s : stream) : socks (SocksDestination * stream) :=
  '(a, s1) ← read_bytes 16 "socks-request" "failed reading IPv6 target" s;
  '(port, s2) ← read_port s1;
  Ok (DestSocket (socket_addr (ipv6_from a) port), s2).

Definition from_utf8 (stage message : string) (l : bytes) : socks bytes :=
  if utf8_valid l then Ok l else Err (socks_error stage (message ++ ": {error}")).

Definition read_domain_destination (s : stream) : socks (SocksDestination * stream) :=
  '(len, s1) ← read_bytes 1 "socks-request" "failed reading domain length" s;
  '(raw, s2) ← read_bytes (Z.to_nat (byte_at len 0)) "socks-request" "failed reading domain target" s1;
  domain ← from_utf8 "socks-request" "domain target is not UTF-8" raw;
  '(port, s3) ← read_port s2;
  Ok (DestDomain domain port, s3).

Definition read_destination (atyp : Z) (s : stream) : socks (SocksDestination * stream) :=
  if (atyp =? SOCKS_ATYP_IPV4)%Z then read_ipv4_destination s
  else if (atyp =? SOCKS_ATYP_IPV6)%Z then read_ipv6_destination s
  else if (atyp =? SOCKS_ATYP_DOMAIN)%Z then read_domain_destination s
  else Err (socks_error "socks-request" "unsupported SOCKS5 address type").

Definition read_request (s : stream) : socks (SocksRequest * stream) :=
  '(header, s1) ← read_bytes 4 "socks-request" "failed reading request header" s;
  if negb (byte_at header 0 =? SOCKS_VERSION)%Z then
    Err (socks_error "socks-request" "unsupported SOCKS version")
  else if negb (byte_at header 2 =? 0)%Z then
    Err (socks_error "socks-request" "SOCKS5 reserved byte must be zero")
  else
    '(d, s2) ← read_destination (byte_at header 3) s1;
    Ok ({| command := byte_at header 1; destination := d |}, s2).

(** The address block that the writers share. *)
Definition address_block (a : SocketAddr) : bytes :=
  match sa_ip a with
  | V4 _ => [z2b SOCKS_ATYP_IPV4] ++ octets (sa_ip a) ++ to_be 2 (sa_port a)
  | V6 _ => [z2b SOCKS_ATYP_IPV6] ++ octets (sa_ip a) ++ to_be 2 (sa_port a)
  end%list.

(** The bytes of [write_reply] *)
Definition reply_bytes (reply : Z) (bind : SocketAddr) : bytes :=
  ([z2b SOCKS_VERSION; z2b reply; z2b 0] ++ address_block bind)%list.

(** ** UDP packets *)
Definition udp_fail {A} (message : string) : socks A := Err (socks_error "socks-udp-read" message).

Definition parse_udp_ipv4 (packet : bytes) (cursor : nat) : socks (SocksDestination * nat) :=
  if length packet <? cursor + 6 then udp_fail "SOCKS5 UDP IPv4 target is truncated"
  else
    a ← index packet cursor; b ← index packet (cursor + 1);
    c ← index packet (cursor + 2); d ← index packet (cursor + 3);
    p1 ← index packet (cursor + 4); p2 ← index packet (cursor + 5);
    Ok (DestSocket (socket_addr (ipv4_from [a; b; c; d]) (from_be [p1; p2])), cursor + 6).

Definition parse_udp_ipv6 (packet : bytes) (cursor : nat) : socks (SocksDestination * nat) :=
  if length packet <? cursor + 18 then udp_fail "SOCKS5 UDP IPv6 target is truncated"
  else
    a ← slice packet cursor (cursor + 16);
    p1 ← index packet (cursor + 16); p2 ← index packet (cursor + 17);
    Ok (DestSocket (socket_addr (ipv6_from a) (from_be [p1; p2])), cursor + 18).

Definition parse_udp_domain (packet : bytes) (cursor : nat) : socks (SocksDestination * nat) :=
  match packet !! cursor with
  | None => udp_fail "SOCKS5 UDP domain length is missing"
  | Some len =>
      let domain_start := cursor + 1 in
      let domain_end := domain_start + Z.to_nat (b2z len) in
      if length packet <? domain_end + 2 then udp_fail "SOCKS5 UDP domain target is truncated"
      else
        raw ← slice packet domain_start domain_end;
        domain ← from_utf8 "socks-udp-read" "SOCKS5 UDP domain is not UTF-8" raw;
        p1 ← index packet domain_end; p2 ← index packet (domain_end + 1);
        Ok (DestDomain domain (from_be [p1; p2]), domain_end + 2)
  end.

Definition parse_udp_destination (packet : bytes) (offset : nat) : socks (SocksDestination * nat) :=
  match packet !! offset with
  | None => udp_fail "SOCKS5 UDP address type is missing"
  | Some atyp =>
      let cursor := offset + 1 in
      if (b2z atyp =? SOCKS_ATYP_IPV4)%Z then parse_udp_ipv4 packet cursor
      else if (b2z atyp =? SOCKS_ATYP_IPV6)%Z then parse_udp_ipv6 packet cursor
      else if (b2z atyp =? SOCKS_ATYP_DOMAIN)%Z then parse_udp_domain packet cursor
      else udp_fail "unsupported SOCKS5 UDP address type"
  end.

Definition parse_udp_packet (packet : bytes) : socks SocksUdpPacket :=
  if length packet <? 4 then udp_fail "SOCKS5 UDP packet is too short"
  else
    r0 ← index packet 0; r1 ← index packet 1;
    if negb (b2z r0 =? 0)%Z || negb (b2z r1 =? 0)%Z then
      udp_fail "SOCKS5 UDP reserved bytes must be zero"
    else
      frag ← index packet 2;
      if negb (b2z frag =? 0)%Z then udp_fail "SOCKS5 UDP fragmentation is not supported"
      else
        '(d, offset) ← parse_udp_destination packet 3;
        payload ← slice packet offset (length packet);
        Ok {| udp_destination := d; udp_payload := payload |}.

(** [socks5_udp_packet] of udp_downstream.rs *)
Definition socks5_udp_packet (target : SocketAddr) (payload : bytes) : bytes :=
  ([z2b 0; z2b 0; z2b 0] ++ address_block target ++ payload)%list.

(** ** The format, declaratively *)
Definition encode_destination (d : SocksDestination) : bytes :=
  match d with
  | DestSocket a => address_block a
  | DestDomain domain port =>
      ([z2b SOCKS_ATYP_DOMAIN; z2b (Z.of_nat (length domain))] ++ domain ++ to_be 2 port)%list
  end.

Definition destination_ok (d : SocksDestination) : Prop :=
  match d with
  | DestSocket a => wf_addr a ∧ sa_scope a = 0%Z
  | DestDomain domain port => length domain ≤ 255 ∧ utf8_valid domain = true ∧ in_u 16 port
  end.

Lemma index_app {E} (pre l : bytes) i n :
  n = length pre + i → index (E:=E) (pre ++ l) n = index l i.
Proof. intros ->. unfold index. rewrite lookup_app_r by lia. by replace (_ - _) with i by lia. Qed.

Lemma slice_app {E} (pre l : bytes) a b n m :
  n = length pre + a → m = length pre + b → slice (E:=E) (pre ++ l) n m = slice l a b.
Proof.
  intros -> ->. unfold slice, get_range. rewrite length_app.
  replace (length pre + a <=? length pre + b) with (a <=? b)
    by (destruct (Nat.leb_spec a b), (Nat.leb_spec (length pre + a) (length pre + b)); lia || done).
  replace (length pre + b <=? length pre + length l) with (b <=? length l)
    by (destruct (Nat.leb_spec b (length l)), (Nat.leb_spec (length pre + b) (length pre + length l)); lia || done).
  rewrite drop_app_ge by lia. by replace (length pre + b - (length pre + a)) with (b - a) by lia;
    replace (length pre + a - length pre) with a by lia.
Qed.

Lemma b2z_inv b z : b2z b = z → b = z2b z.
Proof. intros <-. by rewrite z2b_b2z. Qed.

Lemma from_be_u16 p1 p2 : in_u 16 (from_be [p1; p2]).
Proof. exact (from_be_range [p1; p2]). Qed.

Lemma to_be_pair p1 p2 : to_be 2 (from_be [p1; p2]) = [p1; p2].
Proof. by apply to_be_from_be_n. Qed.

Lemma address_block_v4 a p : length a = 4 →
  address_block (socket_addr (ipv4_from a) p) = (z2b 1 :: a ++ to_be 2 p)%list.
Proof. intros Hl. unfold address_block, ipv4_from, octets; cbn -[to_be]. by rewrite to_be_from_be_n. Qed.

Lemma address_block_v6 a p : length a = 16 →
  address_block (socket_addr (ipv6_from a) p) = (z2b 4 :: a ++ to_be 2 p)%list.
Proof. intros Hl. unfold address_block, ipv6_from, octets; cbn -[to_be]. by rewrite to_be_from_be_n. Qed.

(** ** Reading from a stream *)
Lemma read_bytes_iff n st msg s l s' :
  read_bytes n st msg s = Ok (l, s') ↔ length l = n ∧ s = (l ++ s')%list.
Proof.
  unfold read_bytes. rewrite ok_or_Ok. split; [apply read_exact_inv|].
  intros [Hl ->]. by apply read_exact_app.
Qed.

Lemma read_port_iff s p s' : read_port s = Ok (p, s') ↔ in_u 16 p ∧ s = (to_be 2 p ++ s')%list.
Proof.
  unfold read_port. rewrite outcome_bind_Ok_inv. split.
  - intros ([l s1] & [Hl ->]%read_bytes_iff & [= <- <-]). rewrite to_be_from_be_n by done.
    split; [|done]. pose proof (from_be_range l) as Hr. by rewrite Hl in Hr.
  - intros [Hp ->]. exists (to_be 2 p, s'). rewrite read_bytes_iff, length_to_be. split; [done|].
    by rewrite from_be_to_be_u16.
Qed.

Lemma read_ipv4_iff s d s' :
  read_ipv4_destination s = Ok (d, s') ↔
    ∃ a p, length a = 4 ∧ in_u 16 p ∧ d = DestSocket (socket_addr (ipv4_from a) p) ∧
      s = (a ++ to_be 2 p ++ s')%list.
Proof.
  unfold read_ipv4_destination. rewrite outcome_bind_Ok_inv. split.
  - intros ([a s1] & [Ha ->]%read_bytes_iff & ([p s2] & [Hp ->]%read_port_iff & [= <- <-])%outcome_bind_Ok_inv).
    by exists a, p.
  - intros (a & p & Ha & Hp & -> & ->). exists (a, (to_be 2 p ++ s')%list). rewrite read_bytes_iff. split; [done|].
    apply outcome_bind_Ok_inv. exists (p, s'). by rewrite read_port_iff.
Qed.

Lemma read_ipv6_iff s d s' :
  read_ipv6_destination s = Ok (d, s') ↔
    ∃ a p, length a = 16 ∧ in_u 16 p ∧ d = DestSocket (socket_addr (ipv6_from a) p) ∧
      s = (a ++ to_be 2 p ++ s')%list.
Proof.
  unfold read_ipv6_destination. rewrite outcome_bind_Ok_inv. split.
  - intros ([a s1] & [Ha ->]%read_bytes_iff & ([p s2] & [Hp ->]%read_port_iff & [= <- <-])%outcome_bind_Ok_inv).
    by exists a, p.
  - intros (a & p & Ha & Hp & -> & ->). exists (a, (to_be 2 p ++ s')%list). rewrite read_bytes_iff. split; [done|].
    apply outcome_bind_Ok_inv. exists (p, s'). by rewrite read_port_iff.
Qed.

Lemma from_utf8_Ok st msg l r : from_utf8 st msg l = Ok r ↔ r = l ∧ utf8_valid l = true.
Proof. unfold from_utf8. destruct (utf8_valid l); split; naive_solver. Qed.

Lemma domain_length (dom : bytes) :
  length dom ≤ 255 → Z.to_nat (b2z (z2b (Z.of_nat (length dom)))) = length dom.
Proof. intros Hl. rewrite b2z_z2b, Z.mod_small by lia. lia. Qed.

Lemma read_domain_iff s d s' :
  read_domain_destination s = Ok (d, s') ↔
    ∃ dom p, length dom ≤ 255 ∧ utf8_valid dom = true ∧ in_u 16 p ∧ d = DestDomain dom p ∧
      s = (z2b (Z.of_nat (length dom)) :: dom ++ to_be 2 p ++ s')%list.
Proof.
  unfold read_domain_destination. rewrite outcome_bind_Ok_inv. split.
  - intros ([len s1] & [Hlen ->]%read_bytes_iff & H). destruct len as [|b [|]]; try done. cbn in H.
    apply outcome_bind_Ok_inv in H as ([raw s2] & [Hraw ->]%read_bytes_iff & H).
    apply outcome_bind_Ok_inv in H as (dom & [-> Hutf]%from_utf8_Ok & H).
    apply outcome_bind_Ok_inv in H as ([p s3] & [Hp ->]%read_port_iff & [= <- <-]).
    unfold byte_at in Hraw. cbn in Hraw. pose proof (b2z_range b). exists raw, p.
    split_and!; [lia|done|done|done|]. rewrite Hraw, Z2Nat.id by lia. by rewrite z2b_b2z.
  - intros (dom & p & Hl & Hutf & Hp & -> & ->).
    exists ([z2b (Z.of_nat (length dom))], (dom ++ to_be 2 p ++ s')%list). rewrite read_bytes_iff.
    split; [done|]. apply outcome_bind_Ok_inv. exists (dom, (to_be 2 p ++ s')%list).
    unfold byte_at; cbn [nth]. rewrite read_bytes_iff, domain_length by done. split; [done|].
    apply outcome_bind_Ok_inv. exists dom. rewrite from_utf8_Ok. split; [done|].
    apply outcome_bind_Ok_inv. exists (p, s'). by rewrite read_port_iff.
Qed.

(** The three shapes of an encoded destination. *)
Lemma encoded_cases d s s' :
  destination_ok d ∧ s = (encode_destination d ++ s')%list ↔
    (∃ a p, length a = 4 ∧ in_u 16 p ∧ d = DestSocket (socket_addr (ipv4_from a) p) ∧
       s = (z2b 1 :: a ++ to_be 2 p ++ s')%list) ∨
    (∃ a p, length a = 16 ∧ in_u 16 p ∧ d = DestSocket (socket_addr (ipv6_from a) p) ∧
       s = (z2b 4 :: a ++ to_be 2 p ++ s')%list) ∨
    (∃ dom p, length dom ≤ 255 ∧ utf8_valid dom = true ∧ in_u 16 p ∧ d = DestDomain dom p ∧
       s = (z2b 3 :: z2b (Z.of_nat (length dom)) :: dom ++ to_be 2 p ++ s')%list).
Proof.
  split.
  - intros [Hok ->]. destruct d as [[[n|n] port scope]|dom port]; cbn [destination_ok] in Hok.
    + destruct Hok as [[Hip Hp] Hs]; cbn in Hip, Hp, Hs. subst scope. left. exists (to_be 4 n), port.
      split_and!; [apply length_to_be|done|unfold socket_addr; do 2 f_equal; symmetry; by apply ipv4_from_octets|].
      unfold encode_destination, address_block, octets; cbn -[to_be]. by rewrite <- app_assoc.
    + destruct Hok as [[Hip Hp] Hs]; cbn in Hip, Hp, Hs. subst scope. right. left. exists (to_be 16 n), port.
      split_and!; [apply length_to_be|done|unfold socket_addr; do 2 f_equal; symmetry; by apply ipv6_from_octets|].
      unfold encode_destination, address_block, octets; cbn -[to_be]. by rewrite <- app_assoc.
    + destruct Hok as (? & ? & ?). right. right. exists dom, port. split_and!; try done.
      unfold encode_destination. cbn -[to_be]. by rewrite <- app_assoc.
  - intros [(a & p & Hl & Hp & -> & ->)|[(a & p & Hl & Hp & -> & ->)|(dom & p & Hl & Hu & Hp & -> & ->)]].
    + cbn [destination_ok encode_destination]. rewrite address_block_v4 by done.
      split_and!; [split; [by apply wf_ipv4_from|done]|done|]. cbn -[to_be]. by rewrite <- app_assoc.
    + cbn [destination_ok encode_destination]. rewrite address_block_v6 by done.
      split_and!; [split; [by apply wf_ipv6_from|done]|done|]. cbn -[to_be]. by rewrite <- app_assoc.
    + split; [by split_and!|]. unfold encode_destination. cbn -[to_be]. by rewrite <- app_assoc.
Qed.

Lemma read_destination_iff b s d s' :
  read_destination (b2z b) s = Ok (d, s') ↔
    destination_ok d ∧ (b :: s)%list = (encode_destination d ++ s')%list.
Proof.
  rewrite encoded_cases. unfold read_destination.
  assert (∀ z, (0 ≤ z < 256)%Z → (b2z b =? z)%Z = true ↔ b = z2b z) as Hb.
  { intros z Hz. rewrite Z.eqb_eq. split; [apply b2z_inv|intros ->; rewrite b2z_z2b; by apply Z.mod_small]. }
  split.
  - destruct (b2z b =? SOCKS_ATYP_IPV4)%Z eqn:E4.
    { apply Hb in E4 as ->; [|done]. intros (a & p & ? & ? & ? & ->)%read_ipv4_iff. left. by exists a, p. }
    destruct (b2z b =? SOCKS_ATYP_IPV6)%Z eqn:E6.
    { apply Hb in E6 as ->; [|done]. intros (a & p & ? & ? & ? & ->)%read_ipv6_iff. right. left. by exists a, p. }
    destruct (b2z b =? SOCKS_ATYP_DOMAIN)%Z eqn:E3; [|done].
    apply Hb in E3 as ->; [|done]. intros (dom & p & ? & ? & ? & ? & ->)%read_domain_iff.
    right. right. by exists dom, p.
  - intros [(a & p & Hl & Hp & Hd & [= -> ->])|[(a & p & Hl & Hp & Hd & [= -> ->])|(dom & p & Hl & Hu & Hp & Hd & [= -> ->])]].
    + change (read_ipv4_destination (a ++ to_be 2 p ++ s')%list = Ok (d, s')). apply read_ipv4_iff. by exists a, p.
    + change (read_ipv6_destination (a ++ to_be 2 p ++ s')%list = Ok (d, s')). apply read_ipv6_iff. by exists a, p.
    + change (read_domain_destination (z2b (Z.of_nat (length dom)) :: dom ++ to_be 2 p ++ s')%list = Ok (d, s')).
      apply read_domain_iff. by exists dom, p.
Qed.

(** C29: the request reader accepts exactly the well-formed SOCKS5 requests and leaves
    the stream right behind them: it returns a request and a rest iff the input is the
    encoding of the request followed by the rest, with a domain of at most 255 bytes
    of valid UTF-8. *)
Theorem read_request_iff s r rest :
  read_request s = Ok (r, rest) ↔
    in_u 8 (command r) ∧ destination_ok (destination r) ∧
    s = ([z2b 5; z2b (command r); z2b 0] ++ encode_destination (destination r) ++ rest)%list.
Proof.
  unfold read_request. rewrite outcome_bind_Ok_inv. split.
  - intros ([h s1] & [Hl ->]%read_bytes_iff & H).
    destruct h as [|h0 [|h1 [|h2 [|h3 [|]]]]]; try done. unfold byte_at in H; cbn [nth] in H.
    destruct (Z.eqb_spec (b2z h0) SOCKS_VERSION) as [E0|]; [|done].
    destruct (Z.eqb_spec (b2z h2) 0) as [E2|]; [|done]. cbn in H.
    apply outcome_bind_Ok_inv in H as ([d s2] & [Hd Hs]%read_destination_iff & [= <- <-]). cbn.
    split_and!; [apply in_u_u8_from_be|done|]. rewrite z2b_b2z, <- Hs.
    apply b2z_inv in E0 as ->. apply b2z_inv in E2 as ->. done.
  - intros (Hc & Hd & ->). destruct r as [cmd d]; cbn in *.
    destruct (encode_destination d ++ rest)%list as [|b s] eqn:E.
    { destruct d as [[[] ? ?]|]; discriminate E. }
    exists ([z2b 5; z2b cmd; z2b 0; b], s). rewrite read_bytes_iff. split; [done|].
    unfold byte_at; cbn [nth]. rewrite !b2z_z2b. cbn [negb Z.eqb SOCKS_VERSION Z.modulo].
    change (5 mod 256)%Z with 5%Z. change (0 mod 256)%Z with 0%Z. cbn [Z.eqb Pos.eqb negb SOCKS_VERSION].
    apply outcome_bind_Ok_inv. exists (d, rest). rewrite read_destination_iff. split; [by split|].
    by rewrite (Z.mod_small cmd).
Qed.

(** ** Reading from a packet *)
Lemma six_bytes (l : bytes) : 6 ≤ length l → ∃ a b c d p q l', l = (a :: b :: c :: d :: p :: q :: l')%list.
Proof. intros Hl. do 6 (destruct l as [|? l]; [cbn in Hl; lia|]). by eexists _, _, _, _, _, _, _. Qed.

Lemma to_be_pair_app q1 q2 s p s' :
  (q1 :: q2 :: s)%list = (to_be 2 p ++ s')%list → to_be 2 p = [q1; q2] ∧ s' = s.
Proof. intros H. apply (app_inj_1 [q1; q2] (to_be 2 p) s s') in H as [<- <-]; [done|by rewrite length_to_be]. Qed.

Lemma parse_udp_ipv4_iff pre l d n :
  parse_udp_ipv4 (pre ++ l) (length pre) = Ok (d, n) ↔
    ∃ a p s', length a = 4 ∧ in_u 16 p ∧ d = DestSocket (socket_addr (ipv4_from a) p) ∧
      l = (a ++ to_be 2 p ++ s')%list ∧ n = length pre + 6.
Proof.
  unfold parse_udp_ipv4. rewrite length_app. destruct (Nat.ltb_spec (length pre + length l) (length pre + 6)) as [Hlt|Hge].
  { split; [done|]. intros (a & p & s' & Hl & _ & _ & -> & _). exfalso. rewrite !length_app, length_to_be in Hlt. lia. }
  destruct (six_bytes l ltac:(lia)) as (a & b & c & e & p & q & s' & ->).
  rewrite (index_app pre _ 0 (length pre)), (index_app pre _ 1 (length pre + 1)),
    (index_app pre _ 2 (length pre + 2)), (index_app pre _ 3 (length pre + 3)),
    (index_app pre _ 4 (length pre + 4)), (index_app pre _ 5 (length pre + 5)) by lia. cbn [index expect lookup list_lookup mbind outcome_bind].
  split.
  - intros [= <- <-]. exists [a; b; c; e], (from_be [p; q]), s'.
    split_and!; [done|apply from_be_u16|done|by rewrite to_be_pair|done].
  - intros (a' & p' & s & Hl & Hp & -> & El & ->). 
    apply (app_inj_1 [a; b; c; e] a' (p :: q :: s')%list) in El as [<- El]; [|by rewrite Hl].
    apply to_be_pair_app in El as [Hpq _]. rewrite <- Hpq, from_be_to_be_u16 by done. done.
Qed.

Lemma take_exact (l l' : bytes) n : length l = n → take n (l ++ l')%list = l.
Proof. intros <-. apply take_app_length. Qed.

Lemma parse_udp_ipv6_iff pre l d n :
  parse_udp_ipv6 (pre ++ l) (length pre) = Ok (d, n) ↔
    ∃ a p s', length a = 16 ∧ in_u 16 p ∧ d = DestSocket (socket_addr (ipv6_from a) p) ∧
      l = (a ++ to_be 2 p ++ s')%list ∧ n = length pre + 18.
Proof.
  unfold parse_udp_ipv6. rewrite length_app.
  destruct (Nat.ltb_spec (length pre + length l) (length pre + 18)) as [Hlt|Hge].
  { split; [done|]. intros (a & p & s' & Hl & _ & _ & -> & _). exfalso. rewrite !length_app, length_to_be in Hlt. lia. }
  rewrite (slice_app pre _ 0 16 (length pre) (length pre + 16)), (index_app pre _ 16 (length pre + 16)),
    (index_app pre _ 17 (length pre + 17)) by lia.
  rewrite slice_ok by lia. cbn [mbind outcome_bind]. change (drop 0 l) with l.
  assert (∃ a p q s', length a = 16 ∧ l = (a ++ p :: q :: s')%list) as (a & p & q & s' & Ha & ->).
  { exists (take 16 l). destruct (drop 16 l) as [|p [|q s']] eqn:E.
    1,2: apply (f_equal length) in E; rewrite length_drop in E; cbn in E; lia.
    exists p, q, s'. split; [rewrite length_take; lia|]. by rewrite <- E, take_drop. }
  rewrite take_exact by done.
  rewrite (index_app a _ 0 16), (index_app a _ 1 17) by lia. cbn [index expect lookup list_lookup mbind outcome_bind].
  split.
  - intros [= <- <-]. exists a, (from_be [p; q]), s'. split_and!; [done|apply from_be_u16|done|by rewrite to_be_pair|done].
  - intros (a' & p' & s & Hl & Hp & -> & El & ->). apply app_inj_1 in El as [<- El]; [|congruence].
    apply to_be_pair_app in El as [Hpq _]. rewrite <- Hpq, from_be_to_be_u16 by done. done.
Qed.

Lemma parse_udp_domain_iff pre l d n :
  parse_udp_domain (pre ++ l) (length pre) = Ok (d, n) ↔
    ∃ dom p s', length dom ≤ 255 ∧ utf8_valid dom = true ∧ in_u 16 p ∧ d = DestDomain dom p ∧
      l = (z2b (Z.of_nat (length dom)) :: dom ++ to_be 2 p ++ s')%list ∧
      n = length pre + 3 + length dom.
Proof.
  unfold parse_udp_domain. rewrite lookup_app_r, Nat.sub_diag by lia.
  destruct l as [|b l]; [cbn; split; [done|naive_solver]|]. cbn [lookup list_lookup].
  pose proof (b2z_range b) as Hb. remember (Z.to_nat (b2z b)) as k eqn:Ek.
  replace (length pre + 1) with (length (pre ++ [b])%list) by (rewrite length_app; cbn; lia).
  replace (pre ++ b :: l)%list with ((pre ++ [b]) ++ l)%list by (by rewrite <- app_assoc).
  rewrite (length_app (pre ++ [b])%list).
  destruct (Nat.ltb_spec (length (pre ++ [b]) + length l) (length (pre ++ [b]) + k + 2)) as [Hlt|Hge].
  { split; [done|]. intros (dom & p & s' & Hl & _ & _ & _ & [= -> ->] & _). exfalso.
    rewrite domain_length in Ek by done. subst k. revert Hlt. rewrite !length_app; cbn [length]. lia. }
  assert (∃ a p q s', length a = k ∧ l = (a ++ p :: q :: s')%list) as (a & p & q & s' & Ha & ->).
  { exists (take k l). destruct (drop k l) as [|p [|q s']] eqn:E.
    1,2: apply (f_equal length) in E; rewrite length_drop in E; cbn in E; lia.
    exists p, q, s'. split; [rewrite length_take; lia|]. by rewrite <- E, take_drop. }
  remember (pre ++ [b])%list as pre' eqn:Epre.
  rewrite (slice_app pre' _ 0 k (length pre') (length pre' + k)), (index_app pre' _ k (length pre' + k)),
    (index_app pre' _ (k + 1) (length pre' + k + 1)) by lia.
  rewrite slice_ok by lia. cbn [mbind outcome_bind]. change (drop 0 ?x) with x. rewrite Nat.sub_0_r, take_exact by done.
  rewrite (index_app a _ 0 k), (index_app a _ 1 (k + 1)) by lia. cbn [index expect lookup list_lookup mbind outcome_bind].
  rewrite outcome_bind_Ok_inv. setoid_rewrite from_utf8_Ok. 
  assert (length pre' = length pre + 1) as Hpre by (rewrite Epre, length_app; cbn; lia).
  split.
  - intros (x & [-> Hu] & [= <- <-]). exists a, (from_be [p; q]), s'.
    split_and!; [lia|done|apply from_be_u16|done| |lia].
    rewrite to_be_pair, Ha, Ek, Z2Nat.id by lia. by rewrite z2b_b2z.
  - intros (a' & p' & s & Hl & Hu & Hp & -> & El & ->).
    apply (app_inj_1 [b] [_]) in El as [[= ->] El]; [|done]. rewrite domain_length in Ek by done.
    apply app_inj_1 in El as [-> El]; [|lia]. apply to_be_pair_app in El as [Hpq _].
    exists a'. split; [done|]. rewrite <- Hpq, from_be_to_be_u16 by done. do 2 f_equal. lia.
Qed.

Lemma byte_is b z : (0 ≤ z < 256)%Z → (b2z b =? z)%Z = true ↔ b = z2b z.
Proof.
  intros Hz. rewrite Z.eqb_eq. split; [apply b2z_inv|intros ->; rewrite b2z_z2b; by apply Z.mod_small].
Qed.

Lemma parse_udp_destination_iff pre l d n :
  parse_udp_destination (pre ++ l) (length pre) = Ok (d, n) ↔
    ∃ s', destination_ok d ∧ l = (encode_destination d ++ s')%list ∧
      n = length pre + length (encode_destination d).
Proof.
  assert (∀ s', destination_ok d ∧ l = (encode_destination d ++ s')%list ∧ n = length pre + length (encode_destination d) ↔
    (destination_ok d ∧ l = (encode_destination d ++ s')%list) ∧ n + length s' = length pre + length l) as Hre.
  { intros s'. split.
    - intros (? & -> & ->). rewrite length_app. split; [done|lia].
    - intros [[? ->] Hn]. rewrite length_app in Hn. split_and!; [done|done|lia]. }
  setoid_rewrite Hre. setoid_rewrite encoded_cases. clear Hre.
  unfold parse_udp_destination. rewrite lookup_app_r, Nat.sub_diag by lia.
  destruct l as [|b l].
  { cbn. split; [done|]. intros (s' & [(?&?&?&?&?&?)|[(?&?&?&?&?&?)|(?&?&?&?&?&?&?)]] & _); done. }
  cbn [lookup list_lookup].
  replace (length pre + 1) with (length (pre ++ [b])%list) by (rewrite length_app; cbn; lia).
  replace (pre ++ b :: l)%list with ((pre ++ [b]) ++ l)%list by (by rewrite <- app_assoc).
  assert (length (pre ++ [b])%list = length pre + 1) as Hpre by (rewrite length_app; cbn; lia).
  assert (∀ a p s', length ((a : bytes) ++ to_be 2 p ++ s')%list = length a + 2 + length s') as Hlen.
  { intros a p s'. rewrite !length_app, length_to_be. lia. }
  split.
  - destruct (b2z b =? SOCKS_ATYP_IPV4)%Z eqn:E4.
    { apply byte_is in E4 as ->; [|done]. intros (a & p & s' & Ha & Hp & Hd & -> & ->)%parse_udp_ipv4_iff.
      exists s'. split; [left; by exists a, p|]. cbn [length]. rewrite Hlen. lia. }
    destruct (b2z b =? SOCKS_ATYP_IPV6)%Z eqn:E6.
    { apply byte_is in E6 as ->; [|done]. intros (a & p & s' & Ha & Hp & Hd & -> & ->)%parse_udp_ipv6_iff.
      exists s'. split; [right; left; by exists a, p|]. cbn [length]. rewrite Hlen. lia. }
    destruct (b2z b =? SOCKS_ATYP_DOMAIN)%Z eqn:E3; [|done].
    apply byte_is in E3 as ->; [|done]. intros (dom & p & s' & Hl & Hu & Hp & Hd & -> & ->)%parse_udp_domain_iff.
    exists s'. split; [right; right; by exists dom, p|]. cbn [length]. rewrite Hlen. lia.
  - intros (s' & Hs & Hn). cbn [length] in Hn.
    destruct Hs as [(a & p & Hl & Hp & Hd & Hs)|[(a & p & Hl & Hp & Hd & Hs)|(dom & p & Hl & Hu & Hp & Hd & Hs)]];
      apply (app_inj_1 [b] [_]) in Hs as [[= ->] ->]; try done; rewrite ?b2z_z2b.
    + change (parse_udp_ipv4 ((pre ++ [z2b 1]) ++ a ++ to_be 2 p ++ s') (length (pre ++ [z2b 1])%list) = Ok (d, n)).
      apply parse_udp_ipv4_iff. exists a, p, s'. rewrite Hlen in Hn. split_and!; try done. lia.
    + change (parse_udp_ipv6 ((pre ++ [z2b 4]) ++ a ++ to_be 2 p ++ s') (length (pre ++ [z2b 4])%list) = Ok (d, n)).
      apply parse_udp_ipv6_iff. exists a, p, s'. rewrite Hlen in Hn. split_and!; try done. lia.
    + change (parse_udp_domain ((pre ++ [z2b 3]) ++ z2b (Z.of_nat (length dom)) :: dom ++ to_be 2 p ++ s')
        (length (pre ++ [z2b 3])%list) = Ok (d, n)).
      apply parse_udp_domain_iff. exists dom, p, s'. cbn [length] in Hn. rewrite Hlen in Hn. split_and!; try done. lia.
Qed.

Lemma parse_udp_packet_Ok packet d payload :
  parse_udp_packet packet = Ok {| udp_destination := d; udp_payload := payload |} ↔
    destination_ok d ∧ packet = ([z2b 0; z2b 0; z2b 0] ++ encode_destination d ++ payload)%list.
Proof.
  unfold parse_udp_packet. destruct (Nat.ltb_spec (length packet) 4) as [Hlt|Hge].
  { split; [done|]. intros [_ ->]. exfalso. revert Hlt. rewrite !length_app. destruct d as [[[] ? ?]|]; cbn; lia. }
  destruct packet as [|r0 [|r1 [|r2 l]]]; try (cbn in Hge; lia). cbn [index expect lookup list_lookup mbind outcome_bind].
  change (r0 :: r1 :: r2 :: l)%list with ([r0; r1; r2] ++ l)%list. split.
  - destruct (b2z r0 =? 0)%Z eqn:E0; [|done]. destruct (b2z r1 =? 0)%Z eqn:E1; [|done].
    destruct (b2z r2 =? 0)%Z eqn:E2; [|done]. cbn [negb orb].
    apply byte_is in E0 as ->; [|done]. apply byte_is in E1 as ->; [|done]. apply byte_is in E2 as ->; [|done].
    intros ([d' n] & (s' & Hok & -> & ->)%(parse_udp_destination_iff [_; _; _]) & H)%outcome_bind_Ok_inv.
    apply outcome_bind_Ok_inv in H as (payload' & Hs & [= -> <-]). split; [done|]. do 2 f_equal.
    unfold slice, expect in Hs. destruct (get_range _ _ _) as [l'|] eqn:Hg; [|done].
    injection Hs as <-. apply get_range_inv in Hg as (_ & -> & _). rewrite app_assoc.
    rewrite drop_app_ge by (rewrite length_app; lia). rewrite length_app, Nat.sub_diag.
    rewrite take_ge; [done|]. rewrite !length_app. cbn [length]. change (drop 0 s') with s'. lia.
  - intros [Hok E]. apply (app_inj_1 [r0; r1; r2] [_; _; _]) in E as [[= -> -> ->] ->]; [|done].
    change (b2z (z2b 0)) with 0%Z. cbn [negb orb Z.eqb].
    apply outcome_bind_Ok_inv. exists (d, 3 + length (encode_destination d)). split.
    { apply (parse_udp_destination_iff [_; _; _]). by exists payload. }
    apply outcome_bind_Ok_inv. exists payload. split; [|done]. rewrite app_assoc. unfold slice.
    rewrite get_range_Some by (rewrite !length_app; cbn [length]; lia). rewrite drop_app_ge by (rewrite length_app; cbn [length]; lia).
    rewrite length_app. cbn [length plus]. rewrite Nat.sub_diag, take_ge by (change (drop 0 payload) with payload; rewrite !length_app; cbn [length]; lia). done.
Qed.

Lemma no_panic_ite {E A} (b : bool) (x y : outcome E A) :
  (b = true → no_panic x) → (b = false → no_panic y) → no_panic (if b then x else y).
Proof. destruct b; auto. Qed.

Lemma no_panic_parse_udp_destination packet n : no_panic (parse_udp_destination packet n).
Proof.
  unfold parse_udp_destination, parse_udp_ipv4, parse_udp_ipv6, parse_udp_domain, udp_fail, from_utf8.
  repeat first
    [ done
    | progress case_match; try done
    | apply no_panic_bind; [|intros ? _]
    | match goal with H : (_ <? _) = false |- _ => apply Nat.ltb_ge in H end
    | apply no_panic_index; lia
    | rewrite slice_ok by lia ].
Qed.

(** the UDP packet parser never panics, on any bytes, and accepts exactly the packets
    of the SOCKS5 format: it returns a destination and a payload iff the packet is
    three zero bytes, the encoded destination (with a domain of at most 255 bytes of
    valid UTF-8) and the payload, so what it returns is determined by the packet. *)
Theorem parse_udp_packet_spec packet :
  no_panic (parse_udp_packet packet) ∧
  ∀ p, parse_udp_packet packet = Ok p ↔
    destination_ok (udp_destination p) ∧
    packet = ([z2b 0; z2b 0; z2b 0] ++ encode_destination (udp_destination p) ++ udp_payload p)%list.
Proof.
  split; [|intros [d payload]; apply parse_udp_packet_Ok].
  unfold parse_udp_packet. destruct (Nat.ltb_spec (length packet) 4); [done|].
  do 2 (apply no_panic_bind; [apply no_panic_index; lia|intros ? _]).
  apply no_panic_ite; intros _; [done|].
  apply no_panic_bind; [apply no_panic_index; lia|intros ? _].
  apply no_panic_ite; intros _; [done|].
  apply no_panic_bind; [apply no_panic_parse_udp_destination|intros [d n] Hd].
  apply no_panic_bind; [|done]. destruct packet as [|r0 [|r1 [|r2 l]]]; try (cbn in *; lia).
  apply (parse_udp_destination_iff [r0; r1; r2] l) in Hd as (s' & _ & -> & ->).
  rewrite slice_ok by (cbn [length]; rewrite length_app; lia). done.
Qed.

(** the packet that carries a UDP response back to a SOCKS5 client parses to its
    response target and payload. *)
Theorem udp_response_roundtrip target payload :
  wf_addr target → sa_scope target = 0%Z →
  parse_udp_packet (socks5_udp_packet target payload) =
    Ok {| udp_destination := DestSocket target; udp_payload := payload |}.
Proof. intros Hwf Hs. apply parse_udp_packet_Ok. by split. Qed.

Definition demo_target : SocketAddr := socket_addr (ipv4_from [x0a; x00; x00; x07]) 5353.

Lemma udp_response_roundtrip_witness :
  socks5_udp_packet demo_target [xde; xad] = [x00; x00; x00; x01; x0a; x00; x00; x07; x14; xe9; xde; xad] ∧
  parse_udp_packet (socks5_udp_packet demo_target [xde; xad]) =
    Ok {| udp_destination := DestSocket demo_target; udp_payload := [xde; xad] |}.
Proof.
  split; [vm_compute; reflexivity|].
  apply (udp_response_roundtrip demo_target [xde; xad]); vm_compute; repeat split; congruence.
Defined.

(** The handshake is completed exactly when the no-auth method is among those the
    client offers, and the rest of its input is untouched. *)
Lemma negotiate_no_auth_iff s accepts out rest :
  negotiate_no_auth s accepts = (out, Ok rest) ↔
    accepts = true ∧ out = [z2b 5; z2b 0] ∧
    ∃ methods, length methods ≤ 255 ∧ z2b 0 ∈ methods ∧
      s = ([z2b 5; z2b (Z.of_nat (length methods))] ++ methods ++ rest)%list.
Proof.
  assert (∀ methods : bytes, existsb (λ m, b2z m =? SOCKS_NO_AUTH)%Z methods = true ↔ z2b 0 ∈ methods) as Hex.
  { intros methods. rewrite existsb_exists. split.
    - intros (m & Hm & ->%byte_is); [by apply list_elem_of_In|done].
    - intros Hm. exists (z2b 0). split; [by apply list_elem_of_In|done]. }
  unfold negotiate_no_auth. split.
  - destruct (read_bytes 2 _ _ s) as [[h s1]|e|] eqn:H1; try done.
    apply read_bytes_iff in H1 as [Hh ->]. destruct h as [|h0 [|h1 [|]]]; try done. unfold byte_at; cbn [nth].
    destruct (b2z h0 =? SOCKS_VERSION)%Z eqn:E; [|done]. apply byte_is in E as ->; [|done]. cbn [negb].
    destruct (read_bytes _ _ _ s1) as [[ms s2]|e|] eqn:H2; try done. apply read_bytes_iff in H2 as [Hm ->].
    destruct accepts; [|done]. cbn [negb]. pose proof (b2z_range h1).
    destruct (existsb _ ms) eqn:Hb; [|done]. intros [= <- <-]. split_and!; [done|done|].
    exists ms. split_and!; [lia|by apply Hex|]. rewrite Hm, Z2Nat.id by lia. by rewrite z2b_b2z.
  - intros (-> & -> & ms & Hl & Hin & ->).
    destruct (read_bytes 2 _ _ _) as [[h s1]|e|] eqn:H1.
    2,3: exfalso; revert H1; rewrite (proj2 (read_bytes_iff 2 _ _ _ [z2b 5; z2b (Z.of_nat (length ms))] (ms ++ rest)%list)); done.
    apply read_bytes_iff in H1 as [Hh H1]. apply app_inj_1 in H1 as [<- <-]; [|done].
    unfold byte_at; cbn [nth]. rewrite domain_length by done. change (b2z (z2b 5) =? SOCKS_VERSION)%Z with true. cbn [negb].
    rewrite (proj2 (read_bytes_iff (length ms) _ _ (ms ++ rest)%list ms rest)) by done.
    by rewrite (proj2 (Hex ms) Hin).
Qed.
