(* ===== verification/Vision.v ===== *)
(** * Vision: the padded framing of the VLESS Vision flow

    [prototype/vless/src/vision_pad.rs] and [vision_unpad.rs], with the loop of
    [vision_stream.rs] that feeds decrypted chunks to the unpadder. The unpadder is
    an incremental parser: it is fed chunks that cut the stream anywhere, and it
    returns what it can after each of them. It is proved to refine a machine that reads
    one byte at a time, which makes its output independent of the chunks, and the
    padded packets are proved to come back as they were written. *)
From Stdlib Require Import ZArith Lia Strings.Byte Ascii String.
From stdpp Require Import base list numbers option strings.
From S2P Require Import Prelude.
Local Open Scope string_scope.
Local Open Scope nat_scope.

(** ** vision_pad.rs *)
Definition LONG_PADDING_MIN : nat := 900.
Definition LONG_PADDING_RANDOM_MAX : nat := 500.
Definition SHORT_PADDING_RANDOM_MAX : nat := 256.
Definition MAX_PADDING_SIZE : nat := Z.to_nat 8171.

(** The random number generator: [random_range(0..n)] and [fill] of [n] bytes. *)
Record Rng := { random_range : nat → nat; fill : nat → bytes }.

Definition rng_ok (rng : Rng) : Prop :=
  (∀ n, 0 < n → random_range rng n < n) ∧ (∀ n, length (fill rng n) = n).

Definition calculate_padding_length (rng : Rng) (content_len : nat) (is_tls : bool) : nat :=
  let max_allowable := MAX_PADDING_SIZE - content_len in
  if is_tls && (content_len <? LONG_PADDING_MIN) then
    Nat.min (LONG_PADDING_MIN - content_len + random_range rng LONG_PADDING_RANDOM_MAX) max_allowable
  else Nat.min (random_range rng SHORT_PADDING_RANDOM_MAX) max_allowable.

Definition pad (rng : Rng) (data : bytes) (uuid : option bytes) (command : Z) (is_tls : bool) : bytes :=
  let content_len := wrap_u 16 (Z.of_nat (length data)) in
  let padding_len := calculate_padding_length rng (Z.to_nat content_len) is_tls in
  (match uuid with Some id => id | None => [] end ++ [z2b command] ++ to_be 2 content_len
   ++ to_be 2 (wrap_u 16 (Z.of_nat padding_len)) ++ data
   ++ if 0 <? padding_len then fill rng padding_len else [])%list.

Definition pad_with_uuid_and_command rng data uuid command is_tls : bytes := pad rng data (Some uuid) command is_tls.
Definition pad_with_command rng data command is_tls : bytes := pad rng data None command is_tls.

(** ** vision_unpad.rs *)
Inductive UnpadCommand := Continue | End | Direct.

Definition command_byte (c : UnpadCommand) : Z :=
  match c with Continue => 0 | End => 1 | Direct => 2 end.

Definition command_try_from (value : byte) : outcome string UnpadCommand :=
  let v := b2z value in
  if (v =? 0)%Z then Ok Continue else if (v =? 1)%Z then Ok End else if (v =? 2)%Z then Ok Direct
  else Err "Invalid padding command: {value}".

Record UnpadResult := { content : bytes; res_command : option UnpadCommand }.
Definition default_result : UnpadResult := {| content := []; res_command := None |}.

Inductive UnpadState :=
| Initial (expected_uuid : bytes)
| ReadingCommand
| ReadingContentLength (command : UnpadCommand) (first_byte : option byte)
| ReadingPaddingLength (command : UnpadCommand) (content_len : Z) (first_byte : option byte)
| ReadingContent (command : UnpadCommand) (partial_content : bytes) (remaining_content_len padding_len : Z)
| ReadingPadding (command : UnpadCommand) (block_content : bytes) (remaining_padding_len : Z)
| Done.

Record VisionUnpadder := { state : UnpadState; first_block : bool; accumulated_buffer : bytes }.

Definition new_unpadder (expected_uuid : bytes) : VisionUnpadder :=
  {| state := Initial expected_uuid; first_block := true; accumulated_buffer := [] |}.

(** [(high as u16) << 8 | low as u16] *)
Definition u16_of (high low : byte) : Z := Z.lor (Z.shiftl (b2z high) 8) (b2z low).

(** One turn of the loop: it goes on with the data that is left, or returns. *)
Inductive stepped :=
| Next (u : VisionUnpadder) (data : bytes)
| Return (u : VisionUnpadder) (r : outcome string UnpadResult).

Definition with_state (u : VisionUnpadder) (s : UnpadState) : VisionUnpadder :=
  {| state := s; first_block := first_block u; accumulated_buffer := accumulated_buffer u |}.

(** [std::mem::take(&mut self.accumulated_buffer)], returned with a command. *)
Definition take_buffer (u : VisionUnpadder) (s : UnpadState) (c : option UnpadCommand) : stepped :=
  Return {| state := s; first_block := first_block u; accumulated_buffer := [] |}
    (Ok {| content := accumulated_buffer u; res_command := c |}).

(** The header states run out of data: the accumulated content after the first block,
    nothing (with a debug assertion that there is nothing) in it. *)
Definition out_of_header (u : VisionUnpadder) : stepped :=
  if negb (first_block u) then take_buffer u (state u) (Some Continue)
  else Return u (match accumulated_buffer u with [] => Ok default_result | _ => Panic end).

(** The body states run out of data, with the content they hold moved to the buffer. *)
Definition out_of_body (u : VisionUnpadder) (held : bytes) (s : UnpadState) : stepped :=
  take_buffer {| state := state u; first_block := first_block u;
                 accumulated_buffer := (accumulated_buffer u ++ held)%list |} s
    (if negb (first_block u) then Some Continue else None).

Definition step_initial (u : VisionUnpadder) (expected_uuid data : bytes) : stepped :=
  if length data <? 16 then Return u (Ok default_result)
  else if bool_decide (take 16 data = expected_uuid) then Next (with_state u ReadingCommand) (drop 16 data)
  else Return u (Ok {| content := data; res_command := None |}).

Definition step_command (u : VisionUnpadder) (data : bytes) : stepped :=
  match data with
  | [] => out_of_header u
  | b :: data' =>
      match command_try_from b with
      | Ok c => Next (with_state u (ReadingContentLength c None)) data'
      | Err e => Return u (Err e)
      | Panic => Return u Panic
      end
  end.

Definition step_content_length (u : VisionUnpadder) c (first_byte : option byte) (data : bytes) : stepped :=
  match data, first_byte with
  | [], _ => out_of_header u
  | b :: data', None => Next (with_state u (ReadingContentLength c (Some b))) data'
  | b :: data', Some h => Next (with_state u (ReadingPaddingLength c (u16_of h b) None)) data'
  end.

Definition step_padding_length (u : VisionUnpadder) c content_len (first_byte : option byte) (data : bytes) : stepped :=
  match data, first_byte with
  | [], _ => out_of_header u
  | b :: data', None => Next (with_state u (ReadingPaddingLength c content_len (Some b))) data'
  | b :: data', Some h => Next (with_state u (ReadingContent c [] content_len (u16_of h b))) data'
  end.

(** The state after a content step: padding once nothing remains. *)
Definition content_state c (partial : bytes) (remaining padding_len : Z) : UnpadState :=
  if (remaining =? 0)%Z then ReadingPadding c partial padding_len
  else ReadingContent c partial remaining padding_len.

Definition step_content (u : VisionUnpadder) c partial remaining padding_len (data : bytes) : stepped :=
  if (0 <? remaining)%Z then
    match data with
    | [] => out_of_body u partial (ReadingContent c [] remaining padding_len)
    | _ =>
        let to_read := Nat.min (Z.to_nat remaining) (length data) in
        Next (with_state u (content_state c (partial ++ take to_read data)%list
                              (remaining - Z.of_nat to_read) padding_len)) (drop to_read data)
    end
  else Next (with_state u (content_state c partial remaining padding_len)) data.

(** The end of a block. *)
Definition block_complete (u : VisionUnpadder) c (block_content data : bytes) : stepped :=
  let acc := (accumulated_buffer u ++ block_content)%list in
  match c with
  | Continue => Next {| state := ReadingCommand; first_block := false; accumulated_buffer := acc |} data
  | _ => take_buffer {| state := state u; first_block := false; accumulated_buffer := (acc ++ data)%list |} Done (Some c)
  end.

Definition step_padding (u : VisionUnpadder) c block_content remaining (data : bytes) : stepped :=
  if (0 <? remaining)%Z then
    match data with
    | [] => out_of_body u block_content (ReadingPadding c [] remaining)
    | _ =>
        let to_skip := Nat.min (Z.to_nat remaining) (length data) in
        let remaining' := (remaining - Z.of_nat to_skip)%Z in
        if (remaining' =? 0)%Z then block_complete u c block_content (drop to_skip data)
        else Next (with_state u (ReadingPadding c block_content remaining')) (drop to_skip data)
    end
  else block_complete u c block_content data.

Definition unpad_step (u : VisionUnpadder) (data : bytes) : stepped :=
  match state u with
  | Initial expected_uuid => step_initial u expected_uuid data
  | ReadingCommand => step_command u data
  | ReadingContentLength c fb => step_content_length u c fb data
  | ReadingPaddingLength c n fb => step_padding_length u c n fb data
  | ReadingContent c partial n p => step_content u c partial n p data
  | ReadingPadding c held n => step_padding u c held n data
  | Done => Return u (Err "Already in UnpadState::Done")
  end.

Fixpoint unpad_loop (fuel : nat) (u : VisionUnpadder) (data : bytes) : VisionUnpadder * outcome string UnpadResult :=
  match fuel with
  | O => (u, Panic)
  | S fuel' =>
      match unpad_step u data with
      | Return u' r => (u', r)
      | Next u' data' => unpad_loop fuel' u' data'
      end
  end.

(** Every turn of the loop reads a byte or moves to a later part of the block. *)
Definition unpad_fuel (data : bytes) : nat := 3 * length data + 4.

Definition unpad (u : VisionUnpadder) (data : bytes) : VisionUnpadder * outcome string UnpadResult :=
  unpad_loop (unpad_fuel data) {| state := state u; first_block := first_block u; accumulated_buffer := [] |} data.

(** ** The reader of vision_stream.rs

    Decrypted chunks are unpadded into [pending_read] until the unpadder reports the
    end of the padded part; the chunks after it are not unpadded. *)
Fixpoint read_padded (u : VisionUnpadder) (pending : bytes) (chunks : list bytes)
    : outcome string (bytes * option (UnpadCommand * list bytes)) :=
  match chunks with
  | [] => Ok (pending, None)
  | chunk :: chunks' =>
      match unpad u chunk with
      | (u', Ok r) =>
          let pending' := (pending ++ content r)%list in
          match res_command r with
          | Some End => Ok (pending', Some (End, chunks'))
          | Some Direct => Ok (pending', Some (Direct, chunks'))
          | _ => read_padded u' pending' chunks'
          end
      | (_, Err e) => Err e
      | (_, Panic) => Panic
      end
  end.

(** ** The byte machine

    The reference decoder: one byte of the stream after the UUID at a time, with no
    buffer and no chunk. Empty contents and paddings are passed over when the header
    is complete, and every byte after the final block is output as it is. *)
Module Machine.
Inductive vstate :=
| VCommand
| VLength (c : UnpadCommand) (high : option byte)
| VPadLength (c : UnpadCommand) (len : nat) (high : option byte)
| VContent (c : UnpadCommand) (remaining padding : nat)
| VPadding (c : UnpadCommand) (remaining : nat)
| VDone (c : UnpadCommand).

Definition finish (c : UnpadCommand) : vstate := match c with Continue => VCommand | _ => VDone c end.
Definition after_content (c : UnpadCommand) (padding : nat) : vstate :=
  match padding with O => finish c | _ => VPadding c padding end.
Definition after_header (c : UnpadCommand) (len padding : nat) : vstate :=
  match len with O => after_content c padding | _ => VContent c len padding end.

Definition be16 (h l : byte) : nat := Z.to_nat (from_be [h; l]).

Definition vstep (s : vstate) (b : byte) : option (vstate * bytes) :=
  match s with
  | VCommand =>
      match command_try_from b with Ok c => Some (VLength c None, []) | _ => None end
  | VLength c None => Some (VLength c (Some b), [])
  | VLength c (Some h) => Some (VPadLength c (be16 h b) None, [])
  | VPadLength c len None => Some (VPadLength c len (Some b), [])
  | VPadLength c len (Some h) => Some (after_header c len (be16 h b), [])
  | VContent c n padding => Some (after_header c (n - 1) padding, [b])
  | VPadding c n => Some (after_content c (n - 1), [])
  | VDone c => Some (VDone c, [b])
  end.

Fixpoint vrun (s : vstate) (l : bytes) : option (vstate * bytes) :=
  match l with
  | [] => Some (s, [])
  | b :: l' =>
      match vstep s b with
      | Some (s1, o1) =>
          match vrun s1 l' with Some (s2, o2) => Some (s2, o1 ++ o2)%list | None => None end
      | None => None
      end
  end.

Definition is_done (s : vstate) : bool := match s with VDone _ => true | _ => false end.

Lemma vrun_app s l1 l2 :
  vrun s (l1 ++ l2) =
    match vrun s l1 with
    | Some (s1, o1) => match vrun s1 l2 with Some (s2, o2) => Some (s2, o1 ++ o2)%list | None => None end
    | None => None
    end.
Proof.
  revert s. induction l1 as [|b l1 IH]; intros s; cbn.
  { by destruct (vrun s l2) as [[]|]. }
  destruct (vstep s b) as [[s1 o1]|]; [|done]. rewrite IH.
  destruct (vrun s1 l1) as [[s2 o2]|]; [|done]. destruct (vrun s2 l2) as [[s3 o3]|]; [|done].
  by rewrite app_assoc.
Qed.

Lemma vrun_done c l : vrun (VDone c) l = Some (VDone c, l).
Proof. induction l as [|b l IH]; cbn; [done|]. by rewrite IH. Qed.

Lemma vrun_content c l n p :
  length l ≤ n → vrun (VContent c (S n) p) l = Some (VContent c (S n - length l) p, l).
Proof.
  revert n. induction l as [|b l IH]; intros n Hl; cbn in *; [done|].
  rewrite Nat.sub_0_r. destruct n as [|n]; [lia|]. cbn. by rewrite IH by lia.
Qed.

Lemma vrun_padding c l n :
  length l ≤ n → vrun (VPadding c (S n)) l = Some (VPadding c (S n - length l), []).
Proof.
  revert n. induction l as [|b l IH]; intros n Hl; cbn in *; [done|].
  rewrite Nat.sub_0_r. destruct n as [|n]; [lia|]. cbn. by rewrite IH by lia.
Qed.

(** A whole content or padding. *)
Lemma vrun_content_all c l n p :
  length l = n → vrun (after_header c n p) l = Some (after_content c p, l).
Proof.
  intros <-. destruct l as [|b l] using rev_ind; [done|]. rewrite length_app; cbn [length].
  rewrite Nat.add_1_r; cbn [after_header]. rewrite vrun_app, vrun_content by done.
  cbn [vrun vstep]. replace (S (length l) - length l - 1) with 0 by lia. by rewrite app_nil_r.
Qed.

Lemma vrun_padding_all c l n :
  length l = n → vrun (after_content c n) l = Some (finish c, []).
Proof.
  intros <-. destruct l as [|b l] using rev_ind; [done|]. rewrite length_app; cbn [length].
  rewrite Nat.add_1_r; cbn [after_content]. rewrite vrun_app, vrun_padding by done.
  cbn [vrun vstep]. by replace (S (length l) - length l - 1) with 0 by lia.
Qed.

(** Taking at most what remains. *)
Lemma vrun_content_some c l n p k :
  k = Nat.min n (length l) →
  vrun (after_header c n p) l =
    match vrun (after_header c (n - k) p) (drop k l) with
    | Some (s, o) => Some (s, take k l ++ o)%list | None => None end.
Proof.
  intros ->. destruct (Nat.leb_spec n (length l)) as [Hle|Hlt].
  - rewrite Nat.min_l, Nat.sub_diag by done. rewrite <- (take_drop n l) at 1.
    rewrite vrun_app, vrun_content_all by (rewrite length_take; lia). by destruct (vrun _ (drop n l)) as [[]|].
  - rewrite Nat.min_r by lia. destruct n as [|n]; [lia|]. cbn [after_header]. rewrite vrun_content by lia.
    rewrite drop_ge, take_ge by done. destruct (S n - length l) eqn:E; [lia|]. cbn. by rewrite app_nil_r.
Qed.

Lemma vrun_padding_some c l n k :
  k = Nat.min n (length l) →
  vrun (after_content c n) l = vrun (after_content c (n - k)) (drop k l).
Proof.
  intros ->. destruct (Nat.leb_spec n (length l)) as [Hle|Hlt].
  - rewrite Nat.min_l, Nat.sub_diag by done. rewrite <- (take_drop n l) at 1.
    rewrite vrun_app, vrun_padding_all by (rewrite length_take; lia). by destruct (vrun _ (drop n l)) as [[]|].
  - rewrite Nat.min_r by lia. destruct n as [|n]; [lia|]. cbn [after_content]. rewrite vrun_padding by lia.
    rewrite drop_ge by done. destruct (S n - length l) eqn:E; [lia|]. done.
Qed.
End Machine.
Import Machine.

Lemma u16_of_spec h l : u16_of h l = from_be [h; l].
Proof.
  unfold u16_of, from_be; cbn [fold_left]. pose proof (b2z_range h). pose proof (b2z_range l).
  assert (Z.land (Z.shiftl (b2z h) 8) (b2z l) = 0)%Z as Hland.
  { apply Z.bits_inj'. intros i Hi. rewrite Z.land_spec, Z.bits_0. destruct (Z.ltb_spec i 8).
    - by rewrite Z.shiftl_spec_low by lia.
    - replace (Z.testbit (b2z l) i) with false; [by rewrite andb_false_r|]. symmetry. apply Z.testbit_false; [done|].
      rewrite Z.div_small; [done|]. split; [lia|]. apply Z.lt_le_trans with 256%Z; [lia|]. change 256%Z with (2 ^ 8)%Z. by apply Z.pow_le_mono_r. }
  pose proof (Z.add_lor_land (Z.shiftl (b2z h) 8) (b2z l)) as Hor. rewrite Hland, Z.add_0_r in Hor.
  rewrite Hor, Z.shiftl_mul_pow2 by lia. lia.
Qed.

Lemma u16_of_nonneg h l : (0 ≤ u16_of h l)%Z.
Proof. rewrite u16_of_spec. pose proof (from_be_range [h; l]). lia. Qed.

(** ** The unpadder against the machine *)
Definition abs (s : UnpadState) : vstate :=
  match s with
  | ReadingContentLength c fb => VLength c fb
  | ReadingPaddingLength c n fb => VPadLength c (Z.to_nat n) fb
  | ReadingContent c _ n p => after_header c (Z.to_nat n) (Z.to_nat p)
  | ReadingPadding c _ n => after_content c (Z.to_nat n)
  | _ => VCommand
  end.

(** The content of the block in hand. *)
Definition held (s : UnpadState) : bytes :=
  match s with ReadingContent _ l _ _ | ReadingPadding _ l _ => l | _ => [] end.

Definition in_stream (s : UnpadState) : Prop :=
  match s with
  | Initial _ | Done => False
  | ReadingPaddingLength _ n _ | ReadingPadding _ _ n => (0 ≤ n)%Z
  | ReadingContent _ _ n p => (0 ≤ n)%Z ∧ (0 ≤ p)%Z
  | _ => True
  end.

(** Inside a call the buffer holds what earlier blocks gave; in the first block, nothing. *)
Definition loop_inv (u : VisionUnpadder) : Prop :=
  in_stream (state u) ∧ (first_block u = true → accumulated_buffer u = []).

(** Between calls nothing is held back. *)
Definition at_rest (u : VisionUnpadder) : Prop :=
  in_stream (state u) ∧ accumulated_buffer u = [] ∧ held (state u) = [].

Definition total (u : VisionUnpadder) (data : bytes) : option (vstate * bytes) :=
  match vrun (abs (state u)) data with
  | Some (s, o) => Some (s, accumulated_buffer u ++ held (state u) ++ o)%list
  | None => None
  end.

(** What a call returns when the machine has reached [s] and output [o]. *)
Definition returns (u : VisionUnpadder) (r : outcome string UnpadResult) (m : option (vstate * bytes)) : Prop :=
  match m with
  | None => ∃ e, r = Err e
  | Some (VDone c, o) => r = Ok {| content := o; res_command := Some c |} ∧ state u = Done
  | Some (s, o) =>
      r = Ok {| content := o; res_command := if first_block u then None else Some Continue |} ∧
      at_rest u ∧ abs (state u) = s
  end.

Definition weight (s : UnpadState) : nat :=
  match s with ReadingContent _ _ _ _ => 2 | ReadingPadding _ _ _ => 1 | _ => 0 end.
Definition measure (u : VisionUnpadder) (data : bytes) : nat := 3 * length data + weight (state u).

Definition step_ok (u : VisionUnpadder) (data : bytes) : Prop :=
  match unpad_step u data with
  | Next u' data' => loop_inv u' ∧ total u' data' = total u data ∧ measure u' data' < measure u data
  | Return u' r => returns u' r (total u data)
  end.

(** Header and body states that run out of data. *)
Lemma out_of_header_ok u :
  loop_inv u → held (state u) = [] → is_done (abs (state u)) = false →
  match out_of_header u with Return u' r => returns u' r (total u []) | Next _ _ => False end.
Proof.
  intros [Hs Hf] Hh Hd. unfold out_of_header, total. cbn [vrun]. rewrite Hh, !app_nil_r.
  destruct (first_block u) eqn:Ef; cbn [negb take_buffer].
  - rewrite Hf by done. cbn [returns]. destruct (abs (state u)) eqn:E; cbn in Hd; try done;
      (split; [unfold default_result; cbn; by rewrite Ef|]); (split; [|done]); by split_and!; auto.
  - cbn [returns]. destruct (abs (state u)) eqn:E; cbn in Hd; try done;
      (split; [cbn; by rewrite Ef|]); (split; [|done]); by split_and!.
Qed.

Lemma out_of_body_ok u l s :
  in_stream s → held s = [] → abs s = abs (state u) → held (state u) = l → is_done (abs (state u)) = false →
  match out_of_body u l s with Return u' r => returns u' r (total u []) | Next _ _ => False end.
Proof.
  intros Hs Hh Ha Hl Hd. unfold out_of_body, total, take_buffer. cbn [vrun first_block accumulated_buffer]. rewrite Hl, !app_nil_r.
  cbn [returns]. destruct (abs (state u)) eqn:E; cbn in Hd; try done;
    (split; [cbn; by destruct (first_block u)|]); (split; [|by cbn]); by split_and!.
Qed.

Lemma total_next u data s' data' :
  vrun (abs s') data' = vrun (abs (state u)) data → held s' = held (state u) →
  total (with_state u s') data' = total u data.
Proof. intros Hv Hh. unfold total, with_state. cbn [state accumulated_buffer]. by rewrite Hv, Hh. Qed.

Lemma vrun_silent s b s1 l : vstep s b = Some (s1, []) → vrun s (b :: l) = vrun s1 l.
Proof. intros H. cbn [vrun]. rewrite H. by destruct (vrun s1 l) as [[]|]. Qed.

Lemma step_command_ok u data : loop_inv u → state u = ReadingCommand → step_ok u data.
Proof.
  intros Hu Es. unfold step_ok, unpad_step, step_command. rewrite Es. destruct data as [|b data].
  { pose proof (out_of_header_ok u Hu) as H. rewrite Es in H. specialize (H eq_refl eq_refl). by destruct (out_of_header u). }
  destruct (command_try_from b) as [c|e|] eqn:Ec.
  - split_and!; [by destruct Hu| |unfold measure; rewrite Es; cbn; lia].
    apply total_next; rewrite Es; [|done]. symmetry. apply vrun_silent. cbn. by rewrite Ec.
  - unfold total. rewrite Es. cbn. rewrite Ec. cbn. by exists e.
  - unfold command_try_from in Ec. by repeat case_match.
Qed.

Lemma step_content_length_ok u c fb data : loop_inv u → state u = ReadingContentLength c fb → step_ok u data.
Proof.
  intros Hu Es. unfold step_ok, unpad_step, step_content_length. rewrite Es. destruct data as [|b data].
  { pose proof (out_of_header_ok u Hu) as H. rewrite Es in H. specialize (H eq_refl eq_refl). by destruct (out_of_header u). }
  destruct fb as [h|].
  - split_and!; [split; [apply u16_of_nonneg|apply Hu]| |unfold measure; rewrite Es; cbn; lia].
    apply total_next; rewrite Es; [|done]. cbn [abs]. rewrite u16_of_spec. by rewrite (vrun_silent _ b (VPadLength c (be16 h b) None)).
  - split_and!; [by destruct Hu| |unfold measure; rewrite Es; cbn; lia].
    apply total_next; rewrite Es; [|done]. cbn [abs]. by rewrite (vrun_silent _ b (VLength c (Some b))).
Qed.

Lemma step_padding_length_ok u c n fb data : loop_inv u → state u = ReadingPaddingLength c n fb → step_ok u data.
Proof.
  intros Hu Es. pose proof Hu as [Hin Hf]. rewrite Es in Hin; cbn in Hin.
  unfold step_ok, unpad_step, step_padding_length. rewrite Es. destruct data as [|b data].
  { pose proof (out_of_header_ok u Hu) as H. rewrite Es in H. specialize (H eq_refl eq_refl). by destruct (out_of_header u). }
  destruct fb as [h|].
  - split_and!; [split; [split; [done|apply u16_of_nonneg]|done]| |unfold measure; rewrite Es; cbn; lia].
    apply total_next; rewrite Es; [|done]. cbn [abs]. rewrite u16_of_spec.
    by rewrite (vrun_silent _ b (after_header c (Z.to_nat n) (be16 h b))).
  - split_and!; [by split| |unfold measure; rewrite Es; cbn; lia].
    apply total_next; rewrite Es; [|done]. cbn [abs]. by rewrite (vrun_silent _ b (VPadLength c (Z.to_nat n) (Some b))).
Qed.

Lemma abs_content_state c l n p : (0 ≤ n)%Z → abs (content_state c l n p) = after_header c (Z.to_nat n) (Z.to_nat p).
Proof. intros Hn. unfold content_state. destruct (Z.eqb_spec n 0) as [->|]; [done|]. cbn. by destruct (Z.to_nat n) eqn:E; [lia|]. Qed.

Lemma held_content_state c l n p : held (content_state c l n p) = l.
Proof. unfold content_state. by destruct (n =? 0)%Z. Qed.

Lemma step_content_ok u c l n p data : loop_inv u → state u = ReadingContent c l n p → step_ok u data.
Proof.
  intros Hu Es. pose proof Hu as [Hin Hf]. rewrite Es in Hin; cbn in Hin. destruct Hin as [Hn Hp].
  assert (∀ l' n', (0 ≤ n')%Z → loop_inv (with_state u (content_state c l' n' p))) as Hinv.
  { intros l' n' Hn'. split; [|done]. cbn. unfold content_state. by destruct (n' =? 0)%Z. }
  unfold step_ok, unpad_step, step_content. rewrite Es. destruct (Z.ltb_spec 0 n) as [Hpos|Hle].
  - destruct data as [|b data].
    { pose proof (out_of_body_ok u l (ReadingContent c [] n p)) as H. rewrite Es in H. specialize (H ltac:(done) eq_refl eq_refl eq_refl).
      cbn [abs] in H. destruct (Z.to_nat n) eqn:En; [lia|]. specialize (H eq_refl). by destruct (out_of_body u l _). }
    remember (b :: data)%list as d eqn:Ed. remember (Nat.min (Z.to_nat n) (length d)) as k eqn:Ek.
    assert (1 ≤ k) as Hk by (rewrite Ek, Ed; cbn; lia). assert (Z.of_nat k ≤ n)%Z as Hkn by lia.
    split_and!; [apply Hinv; lia| |].
    + unfold total. cbn [state with_state accumulated_buffer]. rewrite held_content_state, abs_content_state, Es by lia.
      cbn [abs held]. rewrite (vrun_content_some c d (Z.to_nat n) (Z.to_nat p) k Ek).
      replace (Z.to_nat (n - Z.of_nat k)) with (Z.to_nat n - k) by lia.
      destruct (vrun _ (drop k d)) as [[s o]|]; [|done]. by rewrite <- !app_assoc.
    + unfold measure. cbn [state with_state]. rewrite length_drop, Es. unfold content_state.
      assert (k ≤ length d) by lia. destruct (_ =? 0)%Z; cbn [weight]; lia.
  - assert (n = 0)%Z as -> by lia. split_and!; [by apply Hinv| |].
    + unfold total. cbn [state with_state accumulated_buffer]. by rewrite held_content_state, abs_content_state, Es by lia.
    + unfold measure. cbn [state with_state]. rewrite Es. cbn. lia.
Qed.

Lemma block_complete_ok u c l n data data' :
  loop_inv u → state u = ReadingPadding c l n → vrun (abs (state u)) data = vrun (finish c) data' →
  length data' ≤ length data →
  match block_complete u c l data' with
  | Next u' d => loop_inv u' ∧ total u' d = total u data ∧ measure u' d < measure u data
  | Return u' r => returns u' r (total u data)
  end.
Proof.
  intros [Hin Hf] Es Hv Hlen. unfold total. rewrite Hv, Es. cbn [held]. destruct c; cbn [block_complete finish].
  - split_and!; [done| |unfold measure; rewrite Es; cbn; lia]. unfold total; cbn [state abs held accumulated_buffer].
    destruct (vrun VCommand data') as [[s o]|]; [|done]. cbn. by rewrite <- app_assoc.
  - rewrite vrun_done. cbn. by rewrite <- app_assoc.
  - rewrite vrun_done. cbn. by rewrite <- app_assoc.
Qed.

Lemma step_padding_ok u c l n data : loop_inv u → state u = ReadingPadding c l n → step_ok u data.
Proof.
  intros Hu Es. pose proof Hu as [Hin Hf]. rewrite Es in Hin; cbn in Hin.
  unfold step_ok, unpad_step, step_padding. rewrite Es. destruct (Z.ltb_spec 0 n) as [Hpos|Hle].
  2: { apply (block_complete_ok u c l n); try done. rewrite Es. cbn. by assert (Z.to_nat n = 0) as -> by lia. }
  destruct data as [|b data].
  { pose proof (out_of_body_ok u l (ReadingPadding c [] n)) as H. rewrite Es in H. specialize (H ltac:(done) eq_refl eq_refl eq_refl).
    cbn [abs] in H. destruct (Z.to_nat n) eqn:En; [lia|]. specialize (H eq_refl). by destruct (out_of_body u l _). }
  remember (b :: data)%list as d eqn:Ed. remember (Nat.min (Z.to_nat n) (length d)) as k eqn:Ek.
  assert (1 ≤ k) as Hk by (rewrite Ek, Ed; cbn; lia). assert (k ≤ length d) by lia.
  destruct (Z.eqb_spec (n - Z.of_nat k) 0) as [Hz|Hnz].
  - apply (block_complete_ok u c l n); [done|done| |rewrite length_drop; lia].
    rewrite Es. cbn [abs]. rewrite (vrun_padding_some c d (Z.to_nat n) k Ek).
    by replace (Z.to_nat n - k) with 0 by lia.
  - split_and!; [split; [cbn; lia|done]| |unfold measure; cbn [state with_state]; rewrite length_drop, Es; cbn; lia].
    apply total_next; rewrite Es; [|done]. cbn [abs].
    rewrite (vrun_padding_some c d (Z.to_nat n) k Ek). do 2 f_equal. lia.
Qed.

Lemma unpad_step_ok u data : loop_inv u → step_ok u data.
Proof.
  intros Hu. destruct (state u) eqn:Es.
  1, 7: exfalso; destruct Hu as [Hin _]; by rewrite Es in Hin.
  - by apply step_command_ok.
  - by eapply step_content_length_ok.
  - by eapply step_padding_length_ok.
  - by eapply step_content_ok.
  - by eapply step_padding_ok.
Qed.

Lemma unpad_loop_ok fuel u data :
  loop_inv u → measure u data < fuel →
  let '(u', r) := unpad_loop fuel u data in returns u' r (total u data).
Proof.
  revert u data. induction fuel as [|fuel IH]; intros u data Hu Hm; [lia|]. cbn [unpad_loop].
  pose proof (unpad_step_ok u data Hu) as Hs. unfold step_ok in Hs. destruct (unpad_step u data) as [u' data'|u' r]; [|done].
  destruct Hs as (Hu' & <- & Hm'). apply IH; [done|lia].
Qed.

Lemma unpad_at_rest u data :
  at_rest u → let '(u', r) := unpad u data in returns u' r (vrun (abs (state u)) data).
Proof.
  intros (Hin & Ha & Hh). unfold unpad.
  pose proof (unpad_loop_ok (unpad_fuel data) {| state := state u; first_block := first_block u; accumulated_buffer := [] |} data) as H.
  unfold total in H. cbn [state accumulated_buffer] in H. rewrite Hh in H. destruct (unpad_loop _ _ data) as [u' r].
  replace (vrun (abs (state u)) data) with (match vrun (abs (state u)) data with Some (s, o) => Some (s, [] ++ [] ++ o)%list | None => None end)
    by (by destruct (vrun _ data) as [[]|]).
  apply H; [by split|]. unfold measure, unpad_fuel. cbn [state]. destruct (state u); cbn [weight]; lia.
Qed.

(** The fuel is enough, so more of it changes nothing. *)
Lemma unpad_loop_fuel f1 f2 u data :
  loop_inv u → measure u data < f1 → measure u data < f2 → unpad_loop f1 u data = unpad_loop f2 u data.
Proof.
  revert f2 u data. induction f1 as [|f1 IH]; intros [|f2] u data Hu H1 H2; try lia. cbn [unpad_loop].
  pose proof (unpad_step_ok u data Hu) as Hs. unfold step_ok in Hs. destruct (unpad_step u data) as [u' data'|u' r]; [|done].
  destruct Hs as (Hu' & _ & Hm'). apply IH; [done|lia|lia].
Qed.

(** Behind the UUID the unpadder is one that expects a command. *)
Definition after_uuid (u : VisionUnpadder) : VisionUnpadder :=
  {| state := ReadingCommand; first_block := first_block u; accumulated_buffer := [] |}.

Lemma unpad_initial u uuid data :
  length uuid = 16 → state u = Initial uuid → unpad u (uuid ++ data) = unpad (after_uuid u) data.
Proof.
  intros Hl Es. unfold unpad. destruct (unpad_fuel (uuid ++ data)) as [|f] eqn:Ef; [unfold unpad_fuel in Ef; lia|].
  cbn [unpad_loop]. unfold unpad_step at 1. cbn [state]. rewrite Es. unfold step_initial.
  destruct (Nat.ltb_spec (length (uuid ++ data)%list) 16) as [Hlt|_]; [rewrite length_app in Hlt; lia|].
  rewrite <- Hl, take_app_length, drop_app_length, bool_decide_eq_true_2 by done.
  unfold unpad_fuel in Ef. rewrite length_app in Ef.
  apply unpad_loop_fuel; [by split|unfold measure; cbn; lia|unfold measure, unpad_fuel; cbn; lia].
Qed.

(** ** Padded packets *)
Record Packet := { pk_data : bytes; pk_tls : bool; pk_rng : Rng }.

Definition packet_ok (p : Packet) : Prop := (Z.of_nat (length (pk_data p)) < 65536)%Z ∧ rng_ok (pk_rng p).

Definition pad_packet (uuid : option bytes) (p : Packet) (c : UnpadCommand) : bytes :=
  pad (pk_rng p) (pk_data p) uuid (command_byte c) (pk_tls p).

(** The writer of vision_stream.rs: the first packet carries the UUID, every packet but
    the last the continue command. *)
Fixpoint write_padded (uuid : option bytes) (packets : list Packet) (last : Packet) (final : UnpadCommand) : bytes :=
  match packets with
  | [] => pad_packet uuid last final
  | p :: packets' => (pad_packet uuid p Continue ++ write_padded None packets' last final)%list
  end.

Lemma calculate_padding_bound rng n tls :
  rng_ok rng → (Z.of_nat (calculate_padding_length rng n tls) < 65536)%Z.
Proof.
  intros [Hr _]. unfold calculate_padding_length. pose proof (Hr LONG_PADDING_RANDOM_MAX ltac:(unfold LONG_PADDING_RANDOM_MAX; lia)).
  pose proof (Hr SHORT_PADDING_RANDOM_MAX ltac:(unfold SHORT_PADDING_RANDOM_MAX; lia)).
  unfold LONG_PADDING_RANDOM_MAX, SHORT_PADDING_RANDOM_MAX, LONG_PADDING_MIN in *.
  destruct (tls && _); lia.
Qed.

(** A packet is a header of five bytes, the content and the padding it announces. *)
Lemma pad_shape uuid p c :
  packet_ok p →
  ∃ l1 l2 p1 p2 padding,
    pad_packet uuid p c =
      (match uuid with Some id => id | None => [] end ++ [z2b (command_byte c); l1; l2; p1; p2] ++ pk_data p ++ padding)%list ∧
    be16 l1 l2 = length (pk_data p) ∧ be16 p1 p2 = length padding.
Proof.
  intros [Hl Hr]. unfold pad_packet, pad. cbn [to_be app].
  set (n := calculate_padding_length _ _ _). pose proof (calculate_padding_bound (pk_rng p) (Z.to_nat (wrap_u 16 (Z.of_nat (length (pk_data p))))) (pk_tls p) Hr) as Hn.
  fold n in Hn. rewrite !wrap_u_small by (unfold in_u; cbn; lia).
  eexists _, _, _, _, (if 0 <? n then fill (pk_rng p) n else []). split; [reflexivity|].
  unfold be16. change [z2b (Z.of_nat (length (pk_data p)) / 256); z2b (Z.of_nat (length (pk_data p)))] with (to_be 2 (Z.of_nat (length (pk_data p)))).
  split.
  - change (Z.to_nat (from_be (to_be 2 (Z.of_nat (length (pk_data p))))) = length (pk_data p)).
    rewrite from_be_to_be_u16 by (unfold in_u; cbn; lia). lia.
  - change (Z.to_nat (from_be (to_be 2 (Z.of_nat n))) = length (if 0 <? n then fill (pk_rng p) n else [])).
    rewrite from_be_to_be_u16 by (unfold in_u; cbn; lia). destruct (Nat.ltb_spec 0 n); [rewrite (proj2 Hr)|cbn]; lia.
Qed.

Lemma command_byte_round c : command_try_from (z2b (command_byte c)) = Ok c.
Proof. by destruct c. Qed.

Lemma vrun_header c l1 l2 p1 p2 rest :
  vrun VCommand ([z2b (command_byte c); l1; l2; p1; p2] ++ rest)%list =
    vrun (after_header c (be16 l1 l2) (be16 p1 p2)) rest.
Proof.
  cbn [app]. rewrite (vrun_silent _ _ (VLength c None)) by (cbn; by rewrite command_byte_round).
  rewrite (vrun_silent _ _ (VLength c (Some l1))) by done. rewrite (vrun_silent _ _ (VPadLength c (be16 l1 l2) None)) by done.
  rewrite (vrun_silent _ _ (VPadLength c (be16 l1 l2) (Some p1))) by done.
  by rewrite (vrun_silent _ _ (after_header c (be16 l1 l2) (be16 p1 p2))).
Qed.

Lemma vrun_packet p c : packet_ok p → vrun VCommand (pad_packet None p c) = Some (finish c, pk_data p).
Proof.
  intros Hp. destruct (pad_shape None p c Hp) as (l1 & l2 & p1 & p2 & padding & -> & Hl & Hpad).
  cbn [app]. change (z2b (command_byte c) :: l1 :: l2 :: p1 :: p2 :: ?x)%list with ([z2b (command_byte c); l1; l2; p1; p2] ++ x)%list.
  rewrite vrun_header, vrun_app, vrun_content_all by done. rewrite vrun_padding_all by done. by rewrite app_nil_r.
Qed.

(** [l] takes the machine from [s] to the end of the padded part with its last byte. *)
Definition ends (s : vstate) (l : bytes) (c : UnpadCommand) (out : bytes) : Prop :=
  ∃ e b s1 o1 o2, l = (e ++ [b])%list ∧ vrun s e = Some (s1, o1) ∧ is_done s1 = false ∧
    vstep s1 b = Some (VDone c, o2) ∧ out = (o1 ++ o2)%list.

Lemma ends_app s l1 s1 o1 l2 c out :
  vrun s l1 = Some (s1, o1) → ends s1 l2 c out → ends s (l1 ++ l2)%list c (o1 ++ out)%list.
Proof.
  intros H1 (e & b & s2 & o2 & o3 & -> & H2 & Hd & Hb & ->).
  exists (l1 ++ e)%list, b, s2, (o1 ++ o2)%list, o3. split_and!; try done; [by rewrite app_assoc| |by rewrite app_assoc].
  by rewrite vrun_app, H1, H2.
Qed.

Lemma finish_final c : c ≠ Continue → finish c = VDone c.
Proof. by destruct c. Qed.

Lemma ends_packet p c : packet_ok p → c ≠ Continue → ends VCommand (pad_packet None p c) c (pk_data p).
Proof.
  intros Hp Hc. destruct (pad_shape None p c Hp) as (l1 & l2 & p1 & p2 & padding & -> & Hl & Hpad).
  cbn [app]. change (z2b (command_byte c) :: l1 :: l2 :: p1 :: p2 :: ?x)%list with ([z2b (command_byte c); l1; l2; p1; p2] ++ x)%list.
  destruct padding as [|b padding _] using rev_ind.
  - rewrite app_nil_r. destruct (pk_data p) as [|b data _] using rev_ind.
    + exists [z2b (command_byte c); l1; l2; p1], p2, (VPadLength c (be16 l1 l2) (Some p1)), [], [].
      split_and!; try done.
      * rewrite (vrun_silent _ _ (VLength c None)) by (cbn; by rewrite command_byte_round). done.
      * cbn [vstep]. rewrite Hl, Hpad. cbn. by rewrite finish_final.
    + exists ([z2b (command_byte c); l1; l2; p1; p2] ++ data)%list, b, (VContent c 1 0), data, [b].
      rewrite length_app in Hl; cbn [length] in Hl, Hpad.
      split_and!; [done| |done|cbn; by rewrite finish_final|done].
      rewrite vrun_header, Hl, Hpad, Nat.add_1_r; cbn [after_header]. rewrite vrun_content by done.
      do 3 f_equal. lia.
  - exists ([z2b (command_byte c); l1; l2; p1; p2] ++ pk_data p ++ padding)%list, b, (VPadding c 1), (pk_data p), [].
    rewrite length_app in Hpad; cbn [length] in Hpad.
    split_and!; [by rewrite <- !app_assoc| |done|cbn; by rewrite finish_final|by rewrite app_nil_r].
    rewrite vrun_header, vrun_app, vrun_content_all by done. rewrite Hpad, Nat.add_1_r; cbn [after_content].
    rewrite vrun_padding by done. rewrite app_nil_r. do 3 f_equal. lia.
Qed.

Lemma ends_write packets last final :
  Forall packet_ok packets → packet_ok last → final ≠ Continue →
  ends VCommand (write_padded None packets last final) final (concat (map pk_data packets) ++ pk_data last)%list.
Proof.
  intros Hps Hl Hf. induction Hps as [|p packets Hp _ IH]; cbn [write_padded map concat]; [by apply ends_packet|].
  rewrite <- app_assoc. eapply ends_app; [by apply (vrun_packet p Continue)|done].
Qed.

(** ** Theorems *)

(** C33: between calls the unpadder is the byte machine: fed any chunk, it returns exactly
    what the machine outputs on these bytes and is left in the machine's state, with no
    command before the first block is complete, [Continue] after it, and the final
    command in the call that reaches it, together with the bytes behind it. It fails
    exactly on an invalid command byte. So a call always returns, and its output does not
    depend on how the stream is cut. From the initial state this holds behind the UUID,
    if the first chunk has all of it. *)
Theorem unpad_refines u data :
  (at_rest u → let '(u', r) := unpad u data in returns u' r (vrun (abs (state u)) data)) ∧
  (∀ uuid, length uuid = 16 → state u = Initial uuid →
     let '(u', r) := unpad u (uuid ++ data) in returns u' r (vrun VCommand data)).
Proof.
  split; [apply unpad_at_rest|]. intros uuid Hl Es. rewrite (unpad_initial u uuid data) by done.
  by apply (unpad_at_rest (after_uuid u)).
Qed.

Definition demo_uuid : bytes := repeat x06 16.

(** Two chunks that cut a final block inside its padding. *)
Definition demo_chunk1 : bytes := (demo_uuid ++ [x01; x00; x03; x00; x05; x0a; x0b; x0c; x00; x00])%list.
Definition demo_rest : VisionUnpadder := (unpad (new_unpadder demo_uuid) demo_chunk1).1.

Lemma unpad_refines_witness :
  unpad (new_unpadder demo_uuid) demo_chunk1 =
    (demo_rest, Ok {| content := [x0a; x0b; x0c]; res_command := None |}) ∧
  returns demo_rest (Ok {| content := [x0a; x0b; x0c]; res_command := None |})
    (vrun VCommand (drop 16 demo_chunk1)) ∧
  returns (unpad demo_rest [x00; x00; x00; x63]).1 (unpad demo_rest [x00; x00; x00; x63]).2
    (vrun (abs (state demo_rest)) [x00; x00; x00; x63]).
Proof.
  split; [vm_compute; reflexivity|]. split.
  - apply (proj2 (unpad_refines (new_unpadder demo_uuid) (drop 16 demo_chunk1)) demo_uuid); reflexivity.
  - pose proof (proj1 (unpad_refines demo_rest [x00; x00; x00; x63])) as H.
    destruct (unpad demo_rest _) as [u' r]. apply H. vm_compute. repeat split; congruence.
Defined.

Lemma read_padded_ends chunks u pending e c out tail :
  at_rest u → c ≠ Continue → ends (abs (state u)) e c out → concat chunks = (e ++ tail)%list →
  ∃ tail' rest, read_padded u pending chunks = Ok ((pending ++ out ++ tail')%list, Some (c, rest)) ∧
    tail = (tail' ++ concat rest)%list.
Proof.
  intros Hu Hc (e' & b & s1 & o1 & o2 & -> & He & Hd & Hb & ->).
  revert u pending e' o1 Hu He. induction chunks as [|chunk chunks IH]; intros u pending e' o1 Hu He Hcat.
  { apply (f_equal length) in Hcat. rewrite !length_app in Hcat. cbn in Hcat. lia. }
  cbn [concat] in Hcat. cbn [read_padded].
  pose proof (unpad_at_rest u chunk Hu) as H. destruct (unpad u chunk) as [u' r].
  destruct (Nat.leb_spec (length chunk) (length e')) as [Hle|Hlt].
  - assert (∃ e1, e' = (chunk ++ e1)%list) as [e1 ->].
    { exists (drop (length chunk) e'). apply (f_equal (take (length chunk))) in Hcat.
      rewrite take_app_length, <- app_assoc, take_app_le in Hcat by done. rewrite Hcat at 1. by rewrite take_drop. }
    rewrite vrun_app in He. destruct (vrun (abs (state u)) chunk) as [[s2 o2']|]; [|done].
    destruct (vrun s2 e1) as [[s3 o3]|] eqn:E1; [|done]. injection He as -> <-.
    assert (is_done s2 = false) as Hd2.
    { destruct s2; try done. rewrite vrun_done in E1. by injection E1 as <- <-. }
    rewrite <- !app_assoc in Hcat. apply app_inv_head in Hcat.
    assert (r = Ok {| content := o2'; res_command := if first_block u' then None else Some Continue |} ∧ at_rest u' ∧ abs (state u') = s2)
      as (-> & Hu' & Hs2) by (by destruct s2).
    cbn [res_command content]. subst s2. rewrite app_assoc in Hcat.
    destruct (IH u' (pending ++ o2')%list e1 o3 Hu' E1 Hcat) as (tail' & rest & Hr & ->).
    exists tail', rest. split; [|done]. rewrite <- !app_assoc in Hr |- *. by destruct (first_block u').
  - assert (∃ t, chunk = (e' ++ b :: t)%list) as [t ->].
    { apply (f_equal (take (length chunk))) in Hcat. rewrite take_app_length in Hcat. rewrite Hcat.
      rewrite <- app_assoc, take_app_ge by lia. destruct (length chunk - length e') as [|k] eqn:Ek; [lia|]. cbn. by eexists. }
    rewrite <- !app_assoc in Hcat. apply app_inv_head in Hcat. cbn [app] in Hcat. injection Hcat as Hcat.
    rewrite vrun_app, He in H. cbn [vrun] in H. rewrite Hb, vrun_done in H. cbn [returns] in H. destruct H as [-> _].
    exists t, chunks. split; [|done]. cbn [res_command content]. rewrite <- !app_assoc. by destruct c.
Qed.

(** what the writer pads, the reader gives back: for any packets of fewer than 65536
    bytes, with whatever padding the generator draws, and any way the stream and
    whatever follows it are cut into chunks of which the first has the whole UUID, the
    reader returns the data of the packets in order, the final command, and the rest of
    the chunk the padded part ends in; the chunks behind it are left. *)
Theorem padded_stream_roundtrip uuid packets last final tail chunk chunks :
  length uuid = 16 → Forall packet_ok packets → packet_ok last → final ≠ Continue →
  16 ≤ length chunk →
  (chunk ++ concat chunks)%list = (write_padded (Some uuid) packets last final ++ tail)%list →
  ∃ tail' rest,
    read_padded (new_unpadder uuid) [] (chunk :: chunks) =
      Ok ((concat (map pk_data packets) ++ pk_data last ++ tail')%list, Some (final, rest)) ∧
    tail = (tail' ++ concat rest)%list.
Proof.
  intros Hl Hps Hlast Hf H16 Hcat.
  assert (write_padded (Some uuid) packets last final = uuid ++ write_padded None packets last final)%list as Hw.
  { destruct packets as [|p packets]; cbn [write_padded]; unfold pad_packet, pad; by rewrite <- ?app_assoc. }
  rewrite Hw, <- app_assoc in Hcat. clear Hw.
  assert (∃ chunk', chunk = (uuid ++ chunk')%list) as [chunk' ->].
  { apply (f_equal (take (length chunk))) in Hcat. rewrite take_app_length in Hcat.
    rewrite Hcat, take_app_ge by lia. by eexists. }
  rewrite <- app_assoc in Hcat. apply app_inv_head in Hcat.
  cbn [read_padded]. rewrite unpad_initial by done.
  change (∃ tail' rest, read_padded (after_uuid (new_unpadder uuid)) [] (chunk' :: chunks) =
    Ok ((concat (map pk_data packets) ++ pk_data last ++ tail')%list, Some (final, rest)) ∧
    tail = (tail' ++ concat rest)%list).
  edestruct (read_padded_ends (chunk' :: chunks) (after_uuid (new_unpadder uuid)) []) as (tail' & rest & Hr & Ht);
    [done|exact Hf|by apply ends_write|exact Hcat|].
  exists tail', rest. by rewrite Hr, <- app_assoc.
Qed.

(** A generator that always draws two. *)
Definition demo_rng : Rng := {| random_range := λ n, Nat.min 2 (n - 1); fill := λ n, repeat x00 n |}.
Lemma demo_rng_ok : rng_ok demo_rng.
Proof. split; [|apply repeat_length]. intros n Hn. change (Nat.min 2 (n - 1) < n). lia. Qed.

Definition demo_packet (l : bytes) : Packet := {| pk_data := l; pk_tls := false; pk_rng := demo_rng |}.
Definition demo_stream : bytes :=
  (write_padded (Some demo_uuid) [demo_packet [x0a; x0b]] (demo_packet [x0c]) Direct ++ [x63; x62])%list.

Lemma padded_stream_roundtrip_witness :
  ∃ tail' rest,
    read_padded (new_unpadder demo_uuid) [] [take 19 demo_stream; drop 19 demo_stream] =
      Ok (([x0a; x0b] ++ [x0c] ++ tail')%list, Some (Direct, rest)) ∧
    [x63; x62] = (tail' ++ concat rest)%list.
Proof.
  apply (padded_stream_roundtrip demo_uuid [demo_packet [x0a; x0b]] (demo_packet [x0c]) Direct [x63; x62]
    (take 19 demo_stream) [drop 19 demo_stream]).
  - reflexivity.
  - repeat constructor; apply demo_rng_ok.
  - split; [reflexivity|apply demo_rng_ok].
  - congruence.
  - apply Nat.leb_le. vm_compute. reflexivity.
  - vm_compute. reflexivity.
Defined.

(** ** What the framing does not do *)

(** A first chunk that is shorter than the UUID is dropped: the state does not keep it,
    although the reader relies on the unpadder to keep what it has not returned. *)
Lemma short_first_chunk_dropped uuid chunk :
  length chunk < 16 → unpad (new_unpadder uuid) chunk = (new_unpadder uuid, Ok default_result).
Proof.
  intros Hl. unfold unpad. destruct (unpad_fuel chunk) as [|f] eqn:E; [unfold unpad_fuel in E; lia|].
  cbn [unpad_loop]. unfold unpad_step, new_unpadder, step_initial. cbn [state].
  destruct (Nat.ltb_spec (length chunk) 16) as [_|Hge]; [done|lia].
Qed.

(** So a padded stream whose first chunk is cut inside the UUID is handed on padded. *)
Example short_first_chunk_breaks_stream :
  read_padded (new_unpadder demo_uuid) [] [take 8 demo_stream; drop 8 demo_stream] =
    Ok (drop 8 demo_stream, None).
Proof. vm_compute. reflexivity. Qed.

(** The announced length of a packet of 65536 bytes is zero. *)
Lemma long_packet_announces_zero rng data c tls :
  Z.of_nat (length data) = 65536%Z →
  ∃ rest, pad rng data None c tls = ([z2b c; x00; x00] ++ rest)%list.
Proof.
  intros Hl. unfold pad. rewrite Hl. change (to_be 2 (wrap_u 16 65536)) with [x00; x00]. by eexists.
Qed.
