(* ===== verification/VisionStream.v ===== *)
(** * VisionStream: the Vision stream over the Reality connection

    [prototype/vless/src/vision_stream.rs], with the one-constructor wrapper of
    [crypto.rs]: inside the encrypted connection data is padded until the filter has seen
    enough; then each direction goes on, on its own, with plain encryption or straight
    over the transport. The random numbers of the n-th packet, and the search of memchr,
    are parameters. *)
From Stdlib Require Import ZArith Lia Strings.Byte Ascii String.
From stdpp Require Import base list numbers option.
From S2P Require Import Prelude Wire SlideBuffer RealityRecords RealityKeys RealityClient Transport TlsRecords TlsHello Vision.
Local Open Scope nat_scope.

Definition COMMAND_CONTINUE : Z := 0.
Definition COMMAND_END : Z := 1.
Definition COMMAND_DIRECT : Z := 2.

(** ** crypto.rs: [CryptoConnection] has the one constructor [RealityClient]. *)
Section crypto.
Context `{Crypto}.
Definition new_reality_client (conn : Connection) : Connection := conn.
Definition is_client (c : Connection) : bool := true.
Definition feed_crypto_connection (l : bytes) : io unit := feed_reality_client_connection l.

Definition feed_and_process_crypto_connection (l : bytes) : io nat :=
  _ ← feed_crypto_connection l;
  map_err (λ e, io_error InvalidData (text e)) process_new_packets.
End crypto.

(** ** State *)
Inductive VisionMode := PaddingTls | Tls | DirectIo.
#[export] Instance VisionMode_eq_dec : EqDecision VisionMode.
Proof. solve_decision. Defined.

(** The fields of the two directions. *)
Record ReadSide := {
  read_mode : VisionMode; outer_read_deframer : option TlsDeframer; read_unpadder : VisionUnpadder; inner_read_deframer : FuzzyTlsDeframer;
  pending_read : bytes; vless_response_pending : bool; partial_vless_response : bytes; tls_read_buffer_len : nat; is_read_eof : bool }.
Record WriteSide := {
  write_mode : VisionMode; inner_write_deframer : FuzzyTlsDeframer; write_first_packet : bool; vless_response_to_send : bool;
  pending_direct_mode_switch : bool; pending_tls_mode_switch : bool; pending_plain_writes : bytes; packets : nat }.
Record VisionStream := { vlink : Transport * Connection; rd : ReadSide; wr : WriteSide; vfilter : VisionFilter; user_uuid : bytes }.

Definition vtcp (s : VisionStream) : Transport := (vlink s).1.
Definition vconn (s : VisionStream) : Connection := (vlink s).2.

Definition new_common (l : Transport * Connection) (user_uuid : bytes) (response_pending response_to_send : bool) : VisionStream :=
  {| vlink := l;
     rd := {| read_mode := PaddingTls; outer_read_deframer := Some new_deframer; read_unpadder := new_unpadder user_uuid; inner_read_deframer := new_fuzzy;
              pending_read := []; vless_response_pending := response_pending; partial_vless_response := []; tls_read_buffer_len := 32 * 256; is_read_eof := false |};
     wr := {| write_mode := PaddingTls; inner_write_deframer := new_fuzzy; write_first_packet := true; vless_response_to_send := response_to_send;
              pending_direct_mode_switch := false; pending_tls_mode_switch := false; pending_plain_writes := []; packets := 0 |};
     vfilter := new_filter; user_uuid := user_uuid |}.

Definition new_client (l : Transport * Connection) (user_uuid : bytes) : run VisionStream :=
  if negb (is_client l.2) then Panic else Ok (new_common l user_uuid true false).

(** Assignments *)
Definition set_link (l : Transport * Connection) (s : VisionStream) : VisionStream := {| vlink := l; rd := rd s; wr := wr s; vfilter := vfilter s; user_uuid := user_uuid s |}.
Definition set_rd (r : ReadSide) (s : VisionStream) : VisionStream := {| vlink := vlink s; rd := r; wr := wr s; vfilter := vfilter s; user_uuid := user_uuid s |}.
Definition set_wr (w : WriteSide) (s : VisionStream) : VisionStream := {| vlink := vlink s; rd := rd s; wr := w; vfilter := vfilter s; user_uuid := user_uuid s |}.
Definition set_filter (f : VisionFilter) (s : VisionStream) : VisionStream := {| vlink := vlink s; rd := rd s; wr := wr s; vfilter := f; user_uuid := user_uuid s |}.

Definition set_read_mode (m : VisionMode) (r : ReadSide) : ReadSide :=
  Build_ReadSide m (outer_read_deframer r) (read_unpadder r) (inner_read_deframer r) (pending_read r) (vless_response_pending r) (partial_vless_response r) (tls_read_buffer_len r) (is_read_eof r).
Definition set_outer (d : option TlsDeframer) (r : ReadSide) : ReadSide :=
  Build_ReadSide (read_mode r) d (read_unpadder r) (inner_read_deframer r) (pending_read r) (vless_response_pending r) (partial_vless_response r) (tls_read_buffer_len r) (is_read_eof r).
Definition set_unpadder (u : VisionUnpadder) (r : ReadSide) : ReadSide :=
  Build_ReadSide (read_mode r) (outer_read_deframer r) u (inner_read_deframer r) (pending_read r) (vless_response_pending r) (partial_vless_response r) (tls_read_buffer_len r) (is_read_eof r).
Definition set_inner_read (f : FuzzyTlsDeframer) (r : ReadSide) : ReadSide :=
  Build_ReadSide (read_mode r) (outer_read_deframer r) (read_unpadder r) f (pending_read r) (vless_response_pending r) (partial_vless_response r) (tls_read_buffer_len r) (is_read_eof r).
Definition set_pending_read (l : bytes) (r : ReadSide) : ReadSide :=
  Build_ReadSide (read_mode r) (outer_read_deframer r) (read_unpadder r) (inner_read_deframer r) l (vless_response_pending r) (partial_vless_response r) (tls_read_buffer_len r) (is_read_eof r).
Definition set_response (pending : bool) (partial : bytes) (r : ReadSide) : ReadSide :=
  Build_ReadSide (read_mode r) (outer_read_deframer r) (read_unpadder r) (inner_read_deframer r) (pending_read r) pending partial (tls_read_buffer_len r) (is_read_eof r).
Definition set_read_buffer (n : nat) (r : ReadSide) : ReadSide :=
  Build_ReadSide (read_mode r) (outer_read_deframer r) (read_unpadder r) (inner_read_deframer r) (pending_read r) (vless_response_pending r) (partial_vless_response r) n (is_read_eof r).
Definition set_eof (r : ReadSide) : ReadSide :=
  Build_ReadSide (read_mode r) (outer_read_deframer r) (read_unpadder r) (inner_read_deframer r) (pending_read r) (vless_response_pending r) (partial_vless_response r) (tls_read_buffer_len r) true.

Definition set_write_mode (m : VisionMode) (w : WriteSide) : WriteSide :=
  Build_WriteSide m (inner_write_deframer w) (write_first_packet w) (vless_response_to_send w) (pending_direct_mode_switch w) (pending_tls_mode_switch w) (pending_plain_writes w) (packets w).
Definition set_inner_write (f : FuzzyTlsDeframer) (w : WriteSide) : WriteSide :=
  Build_WriteSide (write_mode w) f (write_first_packet w) (vless_response_to_send w) (pending_direct_mode_switch w) (pending_tls_mode_switch w) (pending_plain_writes w) (packets w).
Definition set_packet_sent (w : WriteSide) : WriteSide :=
  Build_WriteSide (write_mode w) (inner_write_deframer w) false (vless_response_to_send w) (pending_direct_mode_switch w) (pending_tls_mode_switch w) (pending_plain_writes w) (S (packets w)).
Definition set_response_sent (w : WriteSide) : WriteSide :=
  Build_WriteSide (write_mode w) (inner_write_deframer w) (write_first_packet w) false (pending_direct_mode_switch w) (pending_tls_mode_switch w) (pending_plain_writes w) (packets w).
Definition set_switches (direct tls : bool) (w : WriteSide) : WriteSide :=
  Build_WriteSide (write_mode w) (inner_write_deframer w) (write_first_packet w) (vless_response_to_send w) direct tls (pending_plain_writes w) (packets w).
Definition set_plain_writes (l : bytes) (w : WriteSide) : WriteSide :=
  Build_WriteSide (write_mode w) (inner_write_deframer w) (write_first_packet w) (vless_response_to_send w) (pending_direct_mode_switch w) (pending_tls_mode_switch w) l (packets w).

Abbreviation vio := (act VisionStream IoError).
Abbreviation vpolls A := (act VisionStream IoError (option A)).

Definition on_vlink {A} (m : act (Transport * Connection) IoError A) : vio A := λ s, let '(l, r) := m (vlink s) in (set_link l s, r).
Definition on_vconn {A} (m : io A) : vio A := on_vlink (on_snd m).
Definition on_vtcp {A} (m : act Transport IoError A) : vio A := on_vlink (on_fst m).
Definition mod_rd (f : ReadSide → ReadSide) : vio unit := modify (λ s, set_rd (f (rd s)) s).
Definition mod_wr (f : WriteSide → WriteSide) : vio unit := modify (λ s, set_wr (f (wr s)) s).

(** ** Switching modes *)
Definition post_padding_cleanup : vio unit :=
  s ← get;
  if bool_decide (read_mode (rd s) = PaddingTls) || bool_decide (write_mode (wr s) = PaddingTls) then mret tt
  else
    _ ← mod_rd (λ r, set_read_buffer 0 (set_inner_read (fuzzy_deallocate (inner_read_deframer r)) r));
    mod_wr (λ w, set_plain_writes [] (set_inner_write (fuzzy_deallocate (inner_write_deframer w)) w)).

Definition switch_read (m : VisionMode) (name : string) : vio unit :=
  s ← get;
  if negb (bool_decide (read_mode (rd s) = PaddingTls)) then fail (other name)
  else _ ← mod_rd (set_read_mode m); post_padding_cleanup.
Definition switch_read_to_direct_mode : vio unit := switch_read DirectIo "switch_read_to_direct_mode called from mode {}".
Definition switch_read_to_tls_mode : vio unit := switch_read Tls "switch_read_to_tls_mode called from mode {}".

Definition switch_write (m : VisionMode) (name : string) : vio unit :=
  s ← get;
  if negb (bool_decide (write_mode (wr s) = PaddingTls)) then fail (other name)
  else _ ← mod_wr (set_write_mode m); post_padding_cleanup.
Definition switch_write_to_direct_mode : vio unit := switch_write DirectIo "switch_write_to_direct_mode called from mode {}".
Definition switch_write_to_tls_mode : vio unit := switch_write Tls "switch_write_to_tls_mode called from mode {}".

Section vision.
Context `{Crypto} (find : bytes → option nat) (rng : nat → Rng).

(** ** Writing to the session and on to the transport *)
Definition vwrite_tls_direct : vpolls nat := on_vlink link_write_tls_direct.

(** The writer of the session takes all it is given; [Ok(0)] would end the loop. *)
Fixpoint drain_plain_loop (fuel : nat) : vio unit :=
  match fuel with
  | O => lift Panic
  | S fuel =>
      s ← get;
      if bool_decide (pending_plain_writes (wr s) = []) then mret tt
      else
        n ← on_vconn (writer_write (pending_plain_writes (wr s)));
        match n with
        | O => mret tt
        | _ => _ ← mod_wr (λ w, set_plain_writes (drop n (pending_plain_writes w)) w); drain_plain_loop fuel
        end
  end.

Definition drain_pending_plain_writes : vio nat :=
  s ← get;
  if bool_decide (pending_plain_writes (wr s) = []) then mret 0
  else
    let initial_len := length (pending_plain_writes (wr s)) in
    _ ← drain_plain_loop (S initial_len);
    s ← get;
    mret (initial_len - length (pending_plain_writes (wr s))).

Fixpoint drain_padding_loop (fuel : nat) : vpolls unit :=
  match fuel with
  | O => lift Panic
  | S fuel =>
      s ← get;
      if wants_write (vconn s) then
        o ← vwrite_tls_direct;
        match o with
        | None => mret None
        | Some O => write_zero
        | Some _ => drain_padding_loop fuel
        end
      else if negb (bool_decide (pending_plain_writes (wr s) = [])) then
        written ← drain_pending_plain_writes;
        if 0 <? written then drain_padding_loop fuel
        else fail (other "drain stuck: session buffer full but wants_write is false")
      else mret (Some tt)
  end.

(** Every write uses up an answer of the transport, and the pending bytes move once. *)
Definition drain_all_writes_padding : vpolls unit := s ← get; drain_padding_loop (3 + writes_left (vtcp s)).

Definition drain_all_writes_tls : vpolls unit :=
  s ← get; while_wants_write (λ s, wants_write (vconn s)) vwrite_tls_direct (mret tt) write_zero (S (writes_left (vtcp s))).

Fixpoint write_to_session_loop (fuel : nat) (written : nat) (data : bytes) : vio unit :=
  match fuel with
  | O => lift Panic
  | S fuel =>
      if written <? length data then
        n ← on_vconn (writer_write (drop written data));
        match n with
        | O => mod_wr (λ w, set_plain_writes (pending_plain_writes w ++ drop written data) w)
        | _ => write_to_session_loop fuel (written + n) data
        end
      else mret tt
  end.

Definition write_to_session (data : bytes) : vio unit :=
  s ← get;
  if negb (bool_decide (pending_plain_writes (wr s) = [])) then mod_wr (λ w, set_plain_writes (pending_plain_writes w ++ data) w)
  else write_to_session_loop 2 0 data.

Fixpoint poll_write_tls_loop (fuel : nat) (pos : nat) (buf : bytes) : vpolls nat :=
  match fuel with
  | O => lift Panic
  | S fuel =>
      if pos <? length buf then
        n ← on_vconn (writer_write (drop pos buf));
        let pos := pos + n in
        s ← get;
        o ← while_wants_write (λ s, wants_write (vconn s)) vwrite_tls_direct (mret tt) (mret None) (S (writes_left (vtcp s)));
        match o with
        | None => if pos =? 0 then mret None else mret (Some pos)
        | Some _ => poll_write_tls_loop fuel pos buf
        end
      else mret (Some pos)
  end.
Definition poll_write_tls (buf : bytes) : vpolls nat := poll_write_tls_loop 2 0 buf.

(** ** Writing with padding *)

(** The first packet carries the UUID. *)
Definition pad_next (data : bytes) (command : Z) (tls : bool) : vio bytes :=
  s ← get;
  let r := rng (packets (wr s)) in
  _ ← mod_wr set_packet_sent;
  mret (if write_first_packet (wr s) then pad_with_uuid_and_command r data (user_uuid s) command tls else pad_with_command r data command tls).

Definition next_inner_write : vio (tls DeframeResult) := λ s,
  let '(f, r) := fuzzy_next find (inner_write_deframer (wr s)) in (set_wr (set_inner_write f (wr s)) s, match r with Panic => Panic | r => Ok r end).

Definition clear_inner_write : vio unit := mod_wr (λ w, set_inner_write (fuzzy_clear (inner_write_deframer w)) w).
Definition filter_next (record : bytes) : vio unit := s ← get; match filter_record (vfilter s) record with Ok f => modify (set_filter f) | _ => lift Panic end.
Definition decrement_filter : vio unit := modify (λ s, set_filter (decrement_filter_count (vfilter s)) s).

(** [processed_len - existing_inner_len]: a build with overflow checks panics below 0. *)
Definition consumed (processed_len existing_inner_len : nat) : vpolls nat :=
  if existing_inner_len <=? processed_len then mret (Some (processed_len - existing_inner_len)) else lift Panic.

(** The end of a call that switches modes: [Pending] is left to the next call. *)
Definition send_final (packet : bytes) : vio unit :=
  _ ← write_to_session packet;
  _ ← drain_all_writes_padding;
  mret tt.

(** One turn of the loop on a record: a result ends the call. *)
Definition write_record (buf record : bytes) (processed_len existing_inner_len : nat) : vio (option (option nat)) :=
  let processed_len := processed_len + length record in
  _ ← filter_next record;
  s ← get;
  let f := vfilter s in
  let is_app_data := is_tls f && (3 <=? length record) && byte_eq 23 record 0 && byte_eq 3 record 1 in
  let non_tls_filtering_ended := negb is_app_data && negb (is_filtering f) && negb (is_tls12_or_above f) in
  if is_app_data || non_tls_filtering_ended then
    _ ← mod_wr (λ w, if supports_xtls f then set_switches true (pending_tls_mode_switch w) w else set_switches (pending_direct_mode_switch w) true w);
    let command := if supports_xtls f then COMMAND_DIRECT else COMMAND_END in
    final_padded_packet ← pad_next record command true;
    _ ← write_to_session final_padded_packet;
    _ ← lift (if existing_inner_len <? processed_len then Ok tt else Panic);
    _ ← drain_all_writes_padding;
    _ ← clear_inner_write;
    r ← consumed processed_len existing_inner_len; mret (Some r)
  else
    padded_packet ← pad_next record COMMAND_CONTINUE (is_tls f);
    _ ← write_to_session padded_packet;
    o ← drain_all_writes_padding;
    match o with
    | None =>
        _ ← lift (if existing_inner_len <=? processed_len then Ok tt else Panic);
        s ← get;
        let unprocessed_buf_len := length buf - (processed_len - existing_inner_len) in
        _ ← lift (if fuzzy_pending_bytes (inner_write_deframer (wr s)) =? unprocessed_buf_len then Ok tt else Panic);
        _ ← clear_inner_write;
        r ← consumed processed_len existing_inner_len; mret (Some r)
    | Some _ => mret None
    end.

(** One turn on bytes that are no record. *)
Definition write_prefix (prefix : bytes) (processed_len existing_inner_len : nat) : vio (option (option nat)) :=
  let processed_len := processed_len + length prefix in
  _ ← decrement_filter;
  s ← get;
  let f := vfilter s in
  if is_filtering f then
    padded_packet ← pad_next prefix COMMAND_CONTINUE (is_tls f);
    _ ← write_to_session padded_packet;
    _ ← drain_all_writes_padding;
    mret None
  else
    _ ← mod_wr (λ w, set_switches (pending_direct_mode_switch w) true w);
    padded_packet ← pad_next prefix COMMAND_END (is_tls f);
    _ ← clear_inner_write;
    _ ← send_final padded_packet;
    r ← consumed processed_len existing_inner_len; mret (Some r).

(** Invalid data behind valid records: all of it is sent as the last packet. *)
Definition write_invalid (buf : bytes) : vio (option (option nat)) :=
  _ ← mod_wr (λ w, set_switches (pending_direct_mode_switch w) true w);
  _ ← modify (λ s, set_filter (stop_filtering (vfilter s)) s);
  s ← get;
  padded_packet ← pad_next (remaining_data (inner_write_deframer (wr s))) COMMAND_END (is_tls (vfilter s));
  _ ← send_final padded_packet;
  _ ← clear_inner_write;
  mret (Some (Some (length buf))).

Fixpoint write_padding_loop (fuel : nat) (buf : bytes) (processed_len existing_inner_len : nat) : vpolls nat :=
  match fuel with
  | O => lift Panic
  | S fuel =>
      r ← next_inner_write;
      match r with
      | Ok NeedData => mret (Some (length buf))
      | Ok (TlsRecord record) =>
          o ← write_record buf record processed_len existing_inner_len;
          match o with Some r => mret r | None => write_padding_loop fuel buf (processed_len + length record) existing_inner_len end
      | Ok (UnknownPrefix prefix) =>
          o ← write_prefix prefix processed_len existing_inner_len;
          match o with Some r => mret r | None => write_padding_loop fuel buf (processed_len + length prefix) existing_inner_len end
      | Err _ => o ← write_invalid buf; match o with Some r => mret r | None => mret None end
      | Panic => lift Panic
      end
  end.

Definition VLESS_RESPONSE : bytes := [x00; x00].

Definition poll_write_padding_tls (buf : bytes) : vpolls nat :=
  s ← get;
  _ ← (if vless_response_to_send (wr s) then _ ← write_to_session VLESS_RESPONSE; mod_wr set_response_sent else mret tt);
  s ← get;
  poll_bind (if negb (bool_decide (pending_plain_writes (wr s) = [])) || wants_write (vconn s) then drain_all_writes_padding else mret (Some tt)) (λ _,
  s ← get;
  if pending_direct_mode_switch (wr s) then
    _ ← mod_wr (λ w, set_switches false (pending_tls_mode_switch w) w);
    _ ← switch_write_to_direct_mode;
    on_vtcp (tcp_poll_write buf)
  else if pending_tls_mode_switch (wr s) then
    _ ← mod_wr (λ w, set_switches (pending_direct_mode_switch w) false w);
    _ ← switch_write_to_tls_mode;
    poll_write_tls buf
  else
    let existing_inner_len := fuzzy_pending_bytes (inner_write_deframer (wr s)) in
    _ ← mod_wr (λ w, set_inner_write (fuzzy_feed (inner_write_deframer w) buf) w);
    write_padding_loop (2 + (existing_inner_len + length buf)) buf 0 existing_inner_len).

(** ** AsyncWrite *)
Definition vpoll_write (buf : bytes) : vpolls nat :=
  s ← get;
  match write_mode (wr s) with
  | PaddingTls => poll_write_padding_tls buf
  | Tls => poll_write_tls buf
  | DirectIo => on_vtcp (tcp_poll_write buf)
  end.

Definition vpoll_flush : vpolls unit :=
  s ← get;
  match write_mode (wr s) with
  | PaddingTls => poll_bind drain_all_writes_padding (λ _, on_vtcp tcp_poll_flush)
  | Tls => poll_bind drain_all_writes_tls (λ _, on_vtcp tcp_poll_flush)
  | DirectIo => on_vtcp tcp_poll_flush
  end.

Definition vpoll_shutdown : vpolls unit := on_vtcp tcp_poll_shutdown.

(** ** Reading from the session

    [while i < plaintext_len { fill_buf; ..; consume }]: what is read, with [empty] for a
    buffer that is empty although there should be plaintext, and [failed] for an error. *)
Fixpoint read_session_loop (fuel : nat) (empty : option IoError) (failed : ErrorKind) (i plaintext_len : nat) (acc : bytes) : io bytes :=
  match fuel with
  | O => lift Panic
  | S fuel =>
      if i <? plaintext_len then
        f ← fill_buf;
        match f with
        | NothingYet => fail (io_error failed "would block")
        | Available [] => match empty with Some e => fail e | None => read_session_loop fuel empty failed i plaintext_len acc end
        | Available part => _ ← reader_consume (length part); read_session_loop fuel empty failed (i + length part) plaintext_len (acc ++ part)
        end
      else mret acc
  end.
Definition read_session (empty : option IoError) (failed : ErrorKind) (plaintext_len : nat) : io bytes :=
  _ ← reader; read_session_loop (S plaintext_len) empty failed 0 plaintext_len [].

(** Feeding one record, and what it decrypts to *)
Definition feed_record (empty : option IoError) (failed : ErrorKind) (record : bytes) : io bytes :=
  plaintext_len ← feed_and_process_crypto_connection record;
  read_session empty failed plaintext_len.

(** ** Unpadding *)
Definition from_io {A} (m : tls A) : res A := match m with Ok a => Ok a | Err e => Err (invalid_data e) | Panic => Panic end.

Definition next_inner_read : vio (tls DeframeResult) := λ s,
  let '(f, r) := fuzzy_next find (inner_read_deframer (rd s)) in (set_rd (set_inner_read f (rd s)) s, match r with Panic => Panic | r => Ok r end).

Fixpoint filter_read_loop (fuel : nat) : vio unit :=
  match fuel with
  | O => lift Panic
  | S fuel =>
      r ← next_inner_read;
      match r with
      | Ok (TlsRecord record) => _ ← filter_next record; s ← get; if negb (is_filtering (vfilter s)) then mret tt else filter_read_loop fuel
      | Ok (UnknownPrefix prefix) =>
          if bool_decide (prefix = []) then fail (other "FuzzyTlsDeframer returned empty prefix")
          else _ ← decrement_filter; filter_read_loop fuel
      | Ok NeedData => mret tt
      | Err _ => modify (λ s, set_filter (stop_filtering (vfilter s)) s)
      | Panic => lift Panic
      end
  end.

Definition unpad_next (decrypted : bytes) : vio UnpadResult := λ s,
  let '(u, r) := unpad (read_unpadder (rd s)) decrypted in (set_rd (set_unpadder u (rd s)) s, from_io r).

Definition append_pending (l : bytes) : vio unit := mod_rd (λ r, set_pending_read (pending_read r ++ l) r).

(** [outer_read_deframer.take().expect(..)] *)
Definition take_outer : vio TlsDeframer :=
  s ← get;
  d ← lift (expect (outer_read_deframer (rd s)));
  _ ← mod_rd (set_outer None);
  mret d.

(** The records that are left behind the last padded one are decrypted as they are. *)
Fixpoint end_records_loop (fuel : nat) (d : TlsDeframer) : vio TlsDeframer :=
  match fuel with
  | O => lift Panic
  | S fuel =>
      let '(d', r) := next_record d in
      o ← lift (from_io r);
      match o with
      | None => mret d'
      | Some record =>
          plain ← on_vconn (feed_record None InvalidData record);
          _ ← append_pending plain;
          end_records_loop fuel d'
      end
  end.

Definition handle_padded_bytes (decrypted : bytes) : vio unit :=
  res ← unpad_next decrypted;
  let unpadded := content res in
  s ← get;
  _ ← (if negb (bool_decide (unpadded = [])) && is_filtering (vfilter s) then
         _ ← mod_rd (λ r, set_inner_read (fuzzy_feed (inner_read_deframer r) unpadded) r);
         s ← get;
         filter_read_loop (2 + fuzzy_pending_bytes (inner_read_deframer (rd s)))
       else mret tt);
  match res_command res with
  | Some Direct =>
      d ← take_outer;
      _ ← append_pending (unpadded ++ buffer d);
      switch_read_to_direct_mode
  | Some End =>
      _ ← append_pending unpadded;
      d ← take_outer;
      d ← end_records_loop (S (length (buffer d))) d;
      let remaining := buffer d in
      _ ← (if negb (bool_decide (remaining = [])) then
             plaintext_len ← on_vconn (feed_and_process_crypto_connection remaining);
             lift (if plaintext_len =? 0 then Ok tt else Panic)
           else mret tt);
      switch_read_to_tls_mode
  | Some Continue | None => append_pending unpadded
  end.

Definition feed_initial_read_data (data : bytes) : vio unit := if bool_decide (data = []) then mret tt else handle_padded_bytes data.

Definition feed_initial_session_data : vio unit :=
  plaintext_len ← on_vconn (map_err (λ e, io_error InvalidData (text e)) process_new_packets);
  decrypted ← on_vconn (read_session (Some (invalid_data "TLS session filled buffer with zero bytes")) InvalidData plaintext_len);
  handle_padded_bytes decrypted.

(** ** Reading *)

(** [buf.put_slice(&self.pending_read[..len]); self.pending_read.advance(len)] *)
Definition take_pending (room : nat) : vio bytes :=
  s ← get;
  let len := room `min` length (pending_read (rd s)) in
  _ ← mod_rd (λ r, set_pending_read (drop len (pending_read r)) r);
  mret (take len (pending_read (rd s))).

Definition with_outer {A} (f : TlsDeframer → TlsDeframer * tls A) : vio A := λ s,
  match outer_read_deframer (rd s) with
  | Some d => let '(d', r) := f d in (set_rd (set_outer (Some d') (rd s)) s, from_io r)
  | None => (s, Panic)
  end.
Definition feed_outer (l : bytes) : vio unit := with_outer (λ d, (feed d l, Ok tt)).

(** One read of the transport into the buffer of the stream *)
Definition read_tcp : vpolls bytes := s ← get; on_vtcp (tcp_poll_read (tls_read_buffer_len (rd s))).

Fixpoint response_records (records : list bytes) : vio unit :=
  match records with
  | [] => mret tt
  | record :: records =>
      plain ← on_vconn (feed_record (Some (other "no plaintext data when some is available")) WouldBlock record);
      _ ← mod_rd (λ r, set_response (vless_response_pending r) (partial_vless_response r ++ plain) r);
      response_records records
  end.

(** The version and the length of the addon, once they are there: what is behind. *)
Definition parse_response (l : bytes) : res (option bytes) :=
  match l with
  | version :: addon_length :: _ =>
      if negb (bool_decide (version = x00)) then Err (invalid_data "Invalid VLESS response version: {}")
      else
        let total_response_len := 2 + Z.to_nat (b2z addon_length) in
        if length l <? total_response_len then Ok None else Ok (Some (drop total_response_len l))
  | _ => Ok None
  end.

Fixpoint read_response_loop (fuel : nat) : vpolls bytes :=
  match fuel with
  | O => lift Panic
  | S fuel =>
      poll_bind read_tcp (λ tcp_bytes,
        if bool_decide (tcp_bytes = []) then fail (io_error UnexpectedEof "Connection closed while reading VLESS response")
        else
          _ ← feed_outer tcp_bytes;
          tls_records ← with_outer next_records;
          _ ← response_records tls_records;
          s ← get;
          o ← lift (parse_response (partial_vless_response (rd s)));
          match o with
          | None => read_response_loop fuel
          | Some remaining_data => _ ← mod_rd (λ r, set_response (vless_response_pending r) [] r); mret (Some remaining_data)
          end)
  end.
Definition poll_read_vless_response : vpolls bytes := s ← get; read_response_loop (S (reads_left (vtcp s))).

Fixpoint read_tls_loop (fuel : nat) (room : nat) : vpolls bytes :=
  match fuel with
  | O => lift Panic
  | S fuel =>
      poll_bind (on_vlink (block_is_pending link_read_tls)) (λ n,
        match n with
        | O => _ ← mod_rd set_eof; mret (Some [])
        | _ =>
            plaintext_len ← on_vconn (map_err (λ e, io_error InvalidData (text e)) process_new_packets);
            if plaintext_len =? 0 then read_tls_loop fuel room
            else
              _ ← on_vconn reader;
              f ← on_vconn fill_buf;
              match f with
              | NothingYet => fail (invalid_data "would block")
              | Available [] => fail (io_error UnexpectedEof "Read zero bytes when plaintext is available")
              | Available available =>
                  let len := room `min` length available in
                  _ ← on_vconn (reader_consume len);
                  mret (Some (take len available))
              end
        end)
  end.

Definition poll_read_tls (room : nat) : vpolls bytes :=
  _ ← on_vconn reader;
  f ← on_vconn fill_buf;
  match f with
  | Available (x :: l) =>
      let available := x :: l in
      let len := room `min` length available in
      _ ← on_vconn (reader_consume len);
      mret (Some (take len available))
  | _ =>
      s ← get;
      if is_read_eof (rd s) then mret (Some [])
      else read_tls_loop (S (reads_left (vtcp s))) room
  end.

(** What follows once the mode has changed, if nothing is pending *)
Definition read_in_mode (room : nat) (padding : vpolls bytes) : vpolls bytes :=
  s ← get;
  match read_mode (rd s) with
  | PaddingTls => padding
  | Tls => poll_read_tls room
  | DirectIo => on_vtcp (tcp_poll_read room)
  end.

Definition pending_or (room : nat) (m : vpolls bytes) : vpolls bytes :=
  s ← get;
  if negb (bool_decide (pending_read (rd s) = [])) then l ← take_pending room; mret (Some l) else m.

(** The records of the deframer, one at a time: a result, once the mode has changed *)
Fixpoint padded_records_loop (fuel : nat) (room : nat) : vio (option (option bytes)) :=
  match fuel with
  | O => lift Panic
  | S fuel =>
      o ← with_outer next_record;
      match o with
      | None => mret None
      | Some tls_record =>
          plaintext_len ← on_vconn (feed_and_process_crypto_connection tls_record);
          if plaintext_len =? 0 then padded_records_loop fuel room
          else
            decrypted ← on_vconn (read_session None InvalidData plaintext_len);
            _ ← handle_padded_bytes decrypted;
            s ← get;
            if bool_decide (read_mode (rd s) = PaddingTls) then padded_records_loop fuel room
            else r ← pending_or room (read_in_mode room (mret None)); mret (Some r)
      end
  end.

Fixpoint read_padding_loop (fuel : nat) (room : nat) : vpolls bytes :=
  match fuel with
  | O => lift Panic
  | S fuel =>
      poll_bind read_tcp (λ tcp_bytes,
        if bool_decide (tcp_bytes = []) then _ ← mod_rd set_eof; mret (Some [])
        else
          _ ← feed_outer tcp_bytes;
          s ← get;
          o ← padded_records_loop (S (default 0 (pending_bytes <$> outer_read_deframer (rd s)))) room;
          match o with
          | Some r => mret r
          | None => pending_or room (read_padding_loop fuel room)
          end)
  end.

Definition poll_read_padding_tls (room : nat) : vpolls bytes :=
  s ← get;
  if is_read_eof (rd s) then mret (Some []) else read_padding_loop (S (reads_left (vtcp s))) room.

(** ** AsyncRead: what is put into a buffer with [room] *)
Definition vpoll_read (room : nat) : vpolls bytes :=
  pending_or room (
    s ← get;
    match read_mode (rd s) with
    | PaddingTls =>
        if vless_response_pending (rd s) then
          poll_bind poll_read_vless_response (λ decrypted_data,
            _ ← mod_rd (λ r, set_response false (partial_vless_response r) r);
            if negb (bool_decide (decrypted_data = [])) then
              _ ← handle_padded_bytes decrypted_data;
              pending_or room (read_in_mode room (poll_read_padding_tls room))
            else poll_read_padding_tls room)
        else poll_read_padding_tls room
    | _ => read_in_mode room (mret None)
    end).
End vision.
