(* ===== verification/VisionDuplex.v ===== *)
(** * VisionDuplex: what is written to a Vision stream arrives

    The theorems on [VisionStream]: whatever the sizes of the writes, the pace of the
    transport and the moments at which it flushes and reads, the bytes that were accepted
    are what a decoder of the padded framing reads from the session, followed by what is
    sent behind it, and they do not depend on what the filter decides. *)
From Stdlib Require Import ZArith Lia Strings.Byte Ascii String.
From stdpp Require Import base list numbers option.
From S2P Require Import Prelude Wire SlideBuffer AeadStream RealityRecords RealityMessages RealityKeys RealityClient RealitySession Transport TlsRecords TlsHello Vision RealityDuplex VisionStream.
Import Machine.
Local Open Scope nat_scope.

(** ** The fuzzy deframer, call by call *)

(** Its parts fit together; between two writes it holds less than a record, or the start
    of what may become a pattern. *)
Definition fuzzy_ok (f : FuzzyTlsDeframer) : Prop :=
  match fuzzy_state f with Searching => inner f = new_deframer | Deframing => deframer_ok (inner f) ∧ search_buffer f = [] end.
Definition fuzzy_rest (f : FuzzyTlsDeframer) : Prop :=
  fuzzy_ok f ∧ match fuzzy_state f with Searching => length (search_buffer f) ≤ 5 | Deframing => incomplete (buffer (inner f)) end.

Lemma check_header_max b n : check_header b = Ok n → n ≤ MAX_TLS_CIPHERTEXT_LEN.
Proof.
  unfold check_header. destruct (index b 0); [|done..]. destruct (index b 1); [|done..]. destruct (index b 2); [|done..]. destruct (index b 3); [|done..]. destruct (index b 4); [|done..]. cbn [mbind outcome_bind].
  destruct (negb _ || _); [done|]. destruct (Nat.ltb_spec MAX_TLS_CIPHERTEXT_LEN (Z.to_nat (from_be [a2; a3]))); [done|]. destruct (negb _); [done|]. by intros [= <-].
Qed.

Lemma incomplete_short b : incomplete b → (Z.of_nat (length b) < 18437)%Z.
Proof.
  unfold incomplete, spec_next, TLS_RECORD_HEADER_SIZE. destruct (Nat.ltb_spec (length b) 5); [lia|]. destruct (check_header b) as [n|e|] eqn:Ec; [|done..].
  apply check_header_max in Ec. unfold MAX_TLS_CIPHERTEXT_LEN in Ec. destruct (Nat.ltb_spec (length b) (5 + n)); [lia|done].
Qed.

Lemma held_back_short f : fuzzy_rest f → (Z.of_nat (length (remaining_data f)) < 18437)%Z.
Proof. intros [_ Hr]. unfold remaining_data. destruct (fuzzy_state f); [lia|]. by apply incomplete_short. Qed.

(** A record that is complete now has new bytes in it. *)
Lemma incomplete_extended b l u r : incomplete b → spec_next (b ++ l) = (u, Ok (Some r)) → length b < length r.
Proof.
  unfold incomplete, spec_next, TLS_RECORD_HEADER_SIZE. rewrite length_app. intros Hb. destruct (Nat.ltb_spec (length b + length l) 5); [done|].
  destruct (check_header (b ++ l)) as [n|e|] eqn:Ec; [|done..]. destruct (Nat.ltb_spec (length b + length l) (5 + n)); [done|]. intros [= _ <-]. rewrite length_take, length_app.
  destruct (Nat.ltb_spec (length b) 5); [lia|]. rewrite (check_header_app b l) in Ec by (unfold TLS_RECORD_HEADER_SIZE; lia). rewrite Ec in Hb. destruct (Nat.ltb_spec (length b) (5 + n)); [lia|done].
Qed.

Lemma spec_next_record u u' r : spec_next u = (u', Ok (Some r)) → 5 ≤ length r.
Proof.
  unfold spec_next, TLS_RECORD_HEADER_SIZE. destruct (_ <? _); [done|]. destruct (check_header u) as [n|e|]; [|done..]. destruct (Nat.ltb_spec (length u) (5 + n)); [done|].
  intros [= _ <-]. rewrite length_take. lia.
Qed.

Lemma fuzzy_feed_ok f l : fuzzy_ok f → fuzzy_ok (fuzzy_feed f l) ∧ remaining_data (fuzzy_feed f l) = remaining_data f ++ l ∧ fuzzy_state (fuzzy_feed f l) = fuzzy_state f.
Proof. unfold fuzzy_ok, fuzzy_feed, remaining_data. destruct (fuzzy_state f); cbn; [done|]. intros [Hd Hs]. split_and!; try done. by apply feed_ok. Qed.

Lemma fuzzy_clear_rest f : fuzzy_rest (fuzzy_clear f) ∧ remaining_data (fuzzy_clear f) = [].
Proof. split; [|done]. split; [reflexivity|]. cbn. lia. Qed.

Lemma pending_remaining f : fuzzy_pending_bytes f = length (remaining_data f).
Proof. unfold fuzzy_pending_bytes, remaining_data. by destruct (fuzzy_state f). Qed.

(** What one answer takes *)
Definition parts (find : bytes → option nat) (f f' : FuzzyTlsDeframer) (r : tls DeframeResult) : Prop :=
  match r with
  | Ok (TlsRecord rec) => remaining_data f = rec ++ remaining_data f' ∧ 5 ≤ length rec ∧ fuzzy_state f' = Deframing ∧ (fuzzy_state f = Searching → byte_is 22 (rec !! 0) = true)
  | Ok (UnknownPrefix p) => remaining_data f = p ++ remaining_data f' ∧ p ≠ [] ∧ fuzzy_state f = Searching ∧ (fuzzy_state f' = Deframing ∨ fuzzy_next find f' = (f', Ok NeedData))
  | Ok NeedData => remaining_data f' = remaining_data f ∧ fuzzy_rest f'
  | Err _ => remaining_data f' = remaining_data f
  | Panic => False
  end.

Lemma deframing_parts find f : fuzzy_ok f → fuzzy_state f = Deframing → let '(f', r) := deframing_arm f in fuzzy_ok f' ∧ parts find f f' r ∧ fuzzy_state f' = Deframing.
Proof.
  intros Hf Es. unfold fuzzy_ok in Hf. rewrite Es in Hf. destruct Hf as [Hd Hs]. unfold deframing_arm. destruct (next_record_spec (inner f) Hd) as [Hd' Hn].
  assert (no_panic (next_record (inner f)).2) as Hnp.
  { destruct (next_record (inner f)) as [d r]. cbn [fst snd] in *. unfold spec_next in Hn. destruct (Nat.ltb_spec (length (buffer (inner f))) TLS_RECORD_HEADER_SIZE) as [|Hl]; [by injection Hn as _ <-|].
    pose proof (check_header_no_panic _ Hl) as Hc. destruct (check_header _); [destruct (_ <? _)|..]; by injection Hn as _ <-. }
  destruct (next_record (inner f)) as [d r]. cbn [fst snd] in *. pose proof Hn as Hp. apply spec_next_parts in Hp. unfold fuzzy_ok, parts, remaining_data. rewrite Es.
  destruct r as [[rec|]|e|]; cbn [mbind outcome_bind fuzzy_state inner search_buffer]; (split; [by split|]); (split; [|done]); try done.
  - split_and!; try done. by eapply spec_next_record.
  - split; [done|]. split; [by split|]. cbn [fuzzy_state inner]. unfold incomplete. rewrite Hp at 1. exact Hn.
Qed.

Lemma longest_valid n d : n ≤ length d → is_valid_tls_handshake_prefix (drop (length d - longest_prefix_suffix n d) d) = true.
Proof.
  induction n as [|n IH]; intros Hn; cbn [longest_prefix_suffix]; [by rewrite Nat.sub_0_r, drop_all|].
  destruct (is_valid_tls_handshake_prefix (drop (length d - S n) d)) eqn:E; [done|]. apply IH. lia.
Qed.

(** What is kept back is kept back. *)
Lemma kept_suffix find f : fuzzy_state f = Searching → length (search_buffer f) ≤ 5 → is_valid_tls_handshake_prefix (search_buffer f) = true → fuzzy_next find f = (f, Ok NeedData).
Proof.
  intros Es Hl Hv. unfold fuzzy_next. rewrite Es. destruct (_ =? 0) eqn:E0; [done|]. destruct (Nat.leb_spec MIN_TLS_HANDSHAKE_PATTERN_LEN (length (search_buffer f))) as [H6|_]; [unfold MIN_TLS_HANDSHAKE_PATTERN_LEN in H6; lia|].
  unfold flush_prefix, find_potential_tls_suffix_len. rewrite Nat.min_l by done. apply Nat.eqb_neq in E0. destruct (length (search_buffer f)) as [|n] eqn:En; [done|]. cbn [longest_prefix_suffix]. rewrite En, Nat.sub_diag. cbn [drop]. rewrite drop_0, Hv.
  by rewrite Nat.ltb_irrefl.
Qed.

Lemma flush_parts find f : fuzzy_ok f → fuzzy_state f = Searching → let '(f', r) := flush_prefix f in fuzzy_ok f' ∧ parts find f f' r.
Proof.
  intros Hf Es. pose proof Hf as Hi. unfold fuzzy_ok in Hi. rewrite Es in Hi. unfold flush_prefix. pose proof (longest_suffix_le (length (search_buffer f) `min` 5) (search_buffer f)) as Hle.
  pose proof (longest_valid (length (search_buffer f) `min` 5) (search_buffer f) (Nat.le_min_l _ _)) as Hv. fold (find_potential_tls_suffix_len (search_buffer f)) in Hle, Hv. set (k := find_potential_tls_suffix_len (search_buffer f)) in *.
  destruct (Nat.ltb_spec k (length (search_buffer f))) as [Hl|Hl].
  - split; [done|]. unfold parts, remaining_data. rewrite Es. cbn [fuzzy_state search_buffer]. split; [by rewrite take_drop|]. split.
    { intros Hx. apply (f_equal length) in Hx. rewrite length_take in Hx. cbn in Hx. lia. }
    split; [done|]. right. apply kept_suffix; [done| |done]. cbn [search_buffer]. rewrite length_drop. lia.
  - split; [done|]. cbn. split; [done|]. split; [done|]. rewrite Es. lia.
Qed.

Lemma fuzzy_next_parts find f : finds_first find → fuzzy_ok f → let '(f', r) := fuzzy_next find f in fuzzy_ok f' ∧ parts find f f' r.
Proof.
  intros Hfind Hf. unfold fuzzy_next. destruct (fuzzy_state f) eqn:Es.
  2: { pose proof (deframing_parts find f Hf Es) as H. destruct (deframing_arm f) as [f' r]. by destruct H as (H1 & H2 & _). }
  pose proof (flush_parts find f Hf Es) as Hflush. destruct (Nat.eqb_spec (length (search_buffer f)) 0) as [E0|E0].
  { split; [done|]. cbn. split; [done|]. split; [done|]. rewrite Es. lia. }
  destruct (_ <=? _); [|done]. pose proof (find_start_spec find Hfind (search_buffer f)) as Hs. destruct (find_tls_handshake_start find (search_buffer f)) as [o|]; [|done].
  destruct Hs as [(Hp & _) _]. unfold fuzzy_ok in Hf. rewrite Es in Hf. destruct (Nat.ltb_spec 0 o) as [Ho|Ho].
  - unfold fuzzy_ok, parts, remaining_data, start_deframing. rewrite Es, Hf. cbn. rewrite take_drop. split_and!; try done; [|by left].
    intros Hx. apply (f_equal length) in Hx. rewrite length_take in Hx. cbn in Hx. lia.
  - assert (fuzzy_ok (start_deframing f 0)) as Hs0 by (unfold fuzzy_ok, start_deframing; cbn; rewrite Hf; split; [by apply feed_ok|done]).
    pose proof (deframing_parts find _ Hs0 eq_refl) as H. destruct (deframing_arm (start_deframing f 0)) as [f' r]. destruct H as (H1 & H2 & H3). split; [done|].
    assert (remaining_data (start_deframing f 0) = remaining_data f) as Hrem by (unfold remaining_data, start_deframing; rewrite Es, Hf; cbn; by rewrite drop_0).
    unfold parts in *. rewrite Hrem in H2. destruct r as [[rec|p|]|e|]; try done.
    + destruct H2 as (Hr & Hl & Hd & _). split_and!; try done. intros _. replace o with 0 in Hp by lia. unfold remaining_data in Hr. rewrite Es in Hr. rewrite Hr in Hp. by destruct rec; [cbn in Hl; lia|].
    + by destruct H2 as (_ & _ & ? & _).
Qed.

(** ** The state of the writer *)

(** The session was given the UUID of the user, once, and a stream that takes the decoder of the
    framing to [st] with [out] read from it. *)
Definition decodes (user uuid : bytes) (first : bool) (given : bytes) (st : vstate) (out : bytes) : Prop :=
  uuid = user ∧ if first then given = [] ∧ st = VCommand ∧ out = [] else ∃ l, given = uuid ++ l ∧ vrun VCommand l = Some (st, out).

(** What a write decides on, apart from the session *)
Definition control (s : VisionStream) : FuzzyTlsDeframer * (bool * bool) * VisionFilter :=
  (inner_write_deframer (wr s), (pending_direct_mode_switch (wr s), pending_tls_mode_switch (wr s)), vfilter s).

(** An announced length has sixteen bits: a write may have that many bytes, less those of a
    record that is held back. *)
Definition MAX_WRITE : Z := 47098.

Section writing.
Context `{CryptoLaws} (find : bytes → option nat) (rng : nat → Rng) (key : AeadKey) (iv base header user : bytes).
Hypothesis Hfind : finds_first find.
Hypothesis Hrng : ∀ n, rng_ok (rng n).
Hypothesis Hiv : length iv = 12.

(** The session has [owed] still to be given, and then the decoder is at [st]; a [header]
    came before. *)
Definition owes (owed : bytes) (st : vstate) (out : bytes) (s : VisionStream) : Prop :=
  ∃ given, writes key iv base (tcp_sent (vtcp s)) (header ++ given) false (vconn s) ∧ decodes user (user_uuid s) (write_first_packet (wr s)) (given ++ owed) st out ∧
    vless_response_to_send (wr s) = false ∧ pending_plain_writes (wr s) = [].
Definition sending (owed : bytes) (st : vstate) (out : bytes) (m : VisionMode) (k : FuzzyTlsDeframer * (bool * bool) * VisionFilter) (s : VisionStream) : Prop :=
  (owes owed st out s ∧ write_mode (wr s) = m) ∧ control s = k.

Abbreviation any := (λ _ : VisionStream, True).

Lemma decodes_more uuid given c l p : packet_ok p → decodes user uuid false given VCommand l →
  decodes user uuid false (given ++ pad_packet None p c) (finish c) (l ++ pk_data p).
Proof. intros Hp (Hu & x & -> & Hx). split; [done|]. exists (x ++ pad_packet None p c). split; [by rewrite app_assoc|]. by rewrite vrun_app, Hx, vrun_packet. Qed.

(** The next packet, on its way to the session *)
Lemma pad_next_ok data (c : UnpadCommand) tls out k m : (Z.of_nat (length data) < 65536)%Z →
  triple (sending [] VCommand out m k) (pad_next rng data (command_byte c) tls)
    (λ l s, sending l (finish c) (out ++ data) m k s) any.
Proof.
  intros Hd s s' r [[(given & Hw & Hdec & Hresp & Hplain) Hm] Hk]. unfold pad_next. rewrite (act_bind_ok get _ s s s eq_refl). intros [= <- <-].
  split; [split; [|exact Hm]|exact Hk]. exists given. split; [exact Hw|]. split; [|by split]. cbn [user_uuid set_wr wr write_first_packet set_packet_sent]. rewrite app_nil_r in Hdec.
  set (p := {| pk_data := data; pk_tls := tls; pk_rng := rng (packets (wr s)) |}). assert (packet_ok p) as Hp by (split; [exact Hd|apply Hrng]).
  destruct (write_first_packet (wr s)).
  - destruct Hdec as (Hu & -> & _ & ->). split; [done|]. exists (pad_packet None p c). split; [|by rewrite vrun_packet]. done.
  - by apply (decodes_more _ _ c out p).
Qed.

Lemma on_vconn_run {A} (m : io A) c' a s : m (vconn s) = (c', Ok a) → on_vconn m s = (set_link (vtcp s, c') s, Ok a).
Proof. intros E. unfold on_vconn, on_vlink, on_snd, vconn, vtcp in *. destruct (vlink s) as [t c]. cbn in *. by rewrite E. Qed.

(** The session takes all of it at once. *)
Lemma write_to_session_run l st out s : owes l st out s →
  ∃ s', write_to_session l s = (s', Ok tt) ∧ owes [] st out s' ∧ wr s' = wr s ∧ vfilter s' = vfilter s.
Proof.
  intros (given & Hw & Hdec & Hresp & Hplain). unfold write_to_session. rewrite (act_bind_ok get _ s s s eq_refl), Hplain. cbn [bool_decide negb write_to_session_loop].
  rewrite bool_decide_eq_true_2 by done. cbn [negb]. destruct (Nat.ltb_spec 0 (length l)) as [Hl|Hl].
  - rewrite (act_bind_ok _ _ _ _ _ (on_vconn_run (writer_write (drop 0 l)) (set_pending (plaintext_write_buf (vconn s) ++ l) (vconn s)) (length l) s eq_refl)).
    destruct (length l) as [|n] eqn:El; [lia|]. cbn [Nat.add]. rewrite Nat.ltb_irrefl. eexists. split; [reflexivity|]. split; [|done].
    exists (given ++ l). rewrite app_nil_r, app_assoc. split_and!; try done. by apply given_writes.
  - destruct l; [|cbn in Hl; lia]. exists s. split_and!; try done. by exists given.
Qed.

Lemma write_to_session_ok l st out k m : triple (sending l st out m k) (write_to_session l) (λ _ s, sending [] st out m k s) any.
Proof.
  intros s s' r [[Ho Hm] Hk] E. destruct (write_to_session_run l st out s Ho) as (s1 & E1 & Ho1 & Hwr & Hf). rewrite E1 in E. injection E as <- <-.
  unfold sending, control in *. by rewrite Hwr, Hf.
Qed.

(** One write to the transport *)
Lemma link_direct_ok given t c t' c' r : writes key iv base (tcp_sent t) given false c → link_write_tls_direct (t, c) = ((t', c'), r) →
  match r with Ok o => writes key iv base (tcp_sent t') given false c' ∧ (o ≠ None → writes_left t' < writes_left t) | Err _ => True | Panic => False end.
Proof.
  intros Hw. unfold link_write_tls_direct, block_is_pending, link_write_tls. destruct ((_ ← on_snd encrypt_pending; write_out) (t, c)) as [[t1 c1] r1] eqn:E.
  apply act_bind_cases in E as [([t2 c2] & [] & E1 & E2)|[(e & E1 & ->)|[E1 ->]]]; cbn [on_snd] in E1; destruct (encrypt_pending c) as [c3 r3] eqn:Ee; injection E1 as <- <- ->;
    pose proof (encrypt_writes _ _ Hiv _ _ _ _ _ _ _ Hw Ee) as Hx; [| |done].
  - destruct Hx as [Hw1 _]. destruct (write_out_writes key iv Hiv base given _ t c3 t1 c1 r1 Hw1 E2) as (Hw2 & _ & _ & _ & Hres). destruct r1 as [n|e|]; [|destruct (bool_decide _)|done]; intros [= <- <- <-]; [|by split|done].
    split; [done|]. intros _. by destruct Hres.
  - intros [= <- <- <-]. by rewrite (bool_decide_eq_false_2 _ Hx).
Qed.

Lemma direct_keeps n st out m k : triple (λ s, sending [] st out m k s ∧ writes_left (vtcp s) = n) vwrite_tls_direct
  (λ o s, sending [] st out m k s ∧ (o ≠ None → writes_left (vtcp s) < n)) any.
Proof.
  intros s s' r [[[(given & Hw & Hdec) Hm] Hk] Hn]. unfold vwrite_tls_direct, on_vlink. unfold vtcp, vconn in *. destruct (vlink s) as [t c] eqn:El. destruct (link_write_tls_direct (t, c)) as [[t' c'] r'] eqn:E.
  apply (link_direct_ok (header ++ given)) in E; [|done]. intros [= <- <-]. destruct r' as [o|e|]; [|done..]. destruct E as [Hw' Ho]. split; [|intros Hne; cbn in *; specialize (Ho Hne); lia].
  split; [split; [|exact Hm]|exact Hk]. exists given. by split.
Qed.

(** Draining ends, and when it was not held up the session has nothing left to send. *)
Lemma drain_loop_ok st out m k fuel : triple (λ s, sending [] st out m k s ∧ S (writes_left (vtcp s)) < fuel) (drain_padding_loop fuel)
  (λ o s, sending [] st out m k s ∧ (o = Some tt → wants_write (vconn s) = false)) any.
Proof.
  induction fuel as [|fuel IH]; [intros s s' r [_ Hs]; lia|]. cbn [drain_padding_loop]. apply triple_get. intros s0 [H0 Hf]. destruct (wants_write (vconn s0)) eqn:Ew.
  - eapply triple_bind; [eapply triple_conseq; [apply (direct_keeps (writes_left (vtcp s0)) st out m k)|by intros s (-> & _)|intros o s Hs; exact Hs|done]|]. intros [[|n]|].
    + by apply triple_fail.
    + eapply triple_conseq; [exact IH|intros s [Hs Hlt]; split; [exact Hs|]; specialize (Hlt ltac:(done)); lia|done|done].
    + apply triple_ret. intros s [Hs _]. by split.
  - pose proof H0 as [[(given & _ & _ & _ & Hp) _] _]. rewrite Hp, bool_decide_eq_true_2 by done. cbn [negb]. apply triple_ret. by intros s [-> _].
Qed.

Lemma drain_padding_ok st out m k : triple (sending [] st out m k) drain_all_writes_padding (λ o s, sending [] st out m k s ∧ (o = Some tt → wants_write (vconn s) = false)) any.
Proof. unfold drain_all_writes_padding. apply triple_get. intros s0 H0. eapply triple_conseq; [apply (drain_loop_ok st out m k)|intros s [-> _]; split; [done|lia]|done|done]. Qed.

Lemma drain_tls_ok each zero st out m k (stuck : Prop) : (∀ n, triple (λ s, sending [] st out m k s ∧ writes_left (vtcp s) < n) each (λ _ s, sending [] st out m k s ∧ writes_left (vtcp s) < n) any) →
  triple (sending [] st out m k) zero (λ o s, sending [] st out m k s ∧ (o = Some tt → stuck)) any →
  ∀ s0, triple (λ s, s = s0 ∧ sending [] st out m k s) (while_wants_write (λ s, wants_write (vconn s)) vwrite_tls_direct each zero (S (writes_left (vtcp s0))))
    (λ o s, sending [] st out m k s ∧ (o = Some tt → wants_write (vconn s) = false ∨ stuck)) any.
Proof.
  intros He Hz s0. eapply triple_conseq; [apply (while_rule (λ s, wants_write (vconn s)) vwrite_tls_direct each zero (sending [] st out m k) any (λ s, writes_left (vtcp s))
    (λ o s, sending [] st out m k s ∧ (o = Some tt → wants_write (vconn s) = false ∨ stuck)) (S (writes_left (vtcp s0))))|intros s [-> Hs]; split; [done|lia]|done|done].
  - intros n. apply direct_keeps.
  - exact He.
  - eapply triple_conseq; [exact Hz|done| |done]. intros o s [Hs Ho]. split; [done|]. intros E. right. by apply Ho.
  - intros s Hs. by split.
  - intros s Hs Hd. split; [done|]. by left.
Qed.

(** A packet, given to the session and sent as far as the transport takes it *)
Lemma send_packet_ok data (c : UnpadCommand) tls out m k {A} (f : option unit → vio A) (Q : A → VisionStream → Prop) : (Z.of_nat (length data) < 65536)%Z →
  (∀ o, triple (sending [] (finish c) (out ++ data) m k) (f o) Q any) →
  triple (sending [] VCommand out m k) (p ← pad_next rng data (command_byte c) tls; _ ← write_to_session p; o ← drain_all_writes_padding; f o) Q any.
Proof.
  intros Hd Hf. eapply triple_bind; [by apply pad_next_ok|]. intros p. eapply triple_bind; [apply write_to_session_ok|]. intros []. eapply triple_bind; [apply drain_padding_ok|].
  intros o. eapply triple_conseq; [apply Hf|by intros s [Hs _]|done|done].
Qed.

(** ** What was accepted

    In the padded part it is what a decoder reads from the session and what the deframer
    holds back; behind the padded part, all that a decoder reads; behind a direct switch,
    that and what the transport itself was given. *)
Definition final_state (switches : bool * bool) : vstate := if switches.1 then VDone Direct else if switches.2 then VDone End else VCommand.

Definition sent_direct (accepted : bytes) (s : VisionStream) : Prop := ∃ sent raw given out,
  tcp_sent (vtcp s) = sent ++ raw ∧ writes key iv base sent (header ++ given) false (vconn s) ∧ wants_write (vconn s) = false ∧
  decodes user (user_uuid s) (write_first_packet (wr s)) given (VDone Direct) out ∧ accepted = out ++ raw.

Definition vwrites (accepted : bytes) (s : VisionStream) : Prop :=
  match write_mode (wr s) with
  | PaddingTls =>
      let '(f, switches, _) := control s in
      fuzzy_rest f ∧ (switches ≠ (false, false) → remaining_data f = []) ∧ ∃ out, owes [] (final_state switches) out s ∧ accepted = out ++ remaining_data f
  | Tls => owes [] (VDone End) accepted s
  | DirectIo => sent_direct accepted s
  end.

(** A write accepts a part of what it is given, and a write that has to wait nothing. *)
Definition wrote (accepted buf : bytes) (o : option nat) (s : VisionStream) : Prop :=
  default 0 o ≤ length buf ∧ vwrites (accepted ++ take (default 0 o) buf) s.

Lemma accepted_part (x rest a buf : bytes) n : x ++ rest = a ++ buf → length x = length a + n → n ≤ length buf ∧ a ++ take n buf = x.
Proof.
  intros E Hl. pose proof (f_equal length E) as Hle. rewrite !length_app in Hle. split; [lia|].
  apply (f_equal (take (length x))) in E. rewrite take_app_length in E. rewrite E, Hl, take_app_add. done.
Qed.

Lemma wrote_all (x a buf : bytes) n s : x = a ++ buf → n = length buf → vwrites x s → wrote a buf (Some n) s.
Proof. intros -> -> Hs. split; [done|]. cbn [default]. by rewrite take_ge. Qed.

(** What a step does to the control alone *)
Lemma control_ok (g : VisionStream → VisionStream) owed st out m k k' :
  (∀ s, vlink (g s) = vlink s ∧ user_uuid (g s) = user_uuid s ∧ write_first_packet (wr (g s)) = write_first_packet (wr s) ∧ vless_response_to_send (wr (g s)) = vless_response_to_send (wr s) ∧
    pending_plain_writes (wr (g s)) = pending_plain_writes (wr s) ∧ write_mode (wr (g s)) = write_mode (wr s)) → (∀ s, control s = k → control (g s) = k') →
  triple (sending owed st out m k) (modify g : vio unit) (λ _, sending owed st out m k') any.
Proof.
  intros Hg Hk s s' r [[Ho Hm] Hc] [= <- <-]. destruct (Hg s) as (G1 & G2 & G3 & G4 & G5 & G6). split; [|by apply Hk]. split; [|by rewrite G6].
  unfold owes, vtcp, vconn. by rewrite G1, G2, G3, G4, G5.
Qed.

Lemma clear_ok owed st out m f b flt : triple (sending owed st out m (f, b, flt)) clear_inner_write (λ _, sending owed st out m (fuzzy_clear f, b, flt)) any.
Proof. apply control_ok; [by intros s; split_and!|]. unfold control. by intros s [= <- <- <-]. Qed.

Lemma mod_wr_ok (g : WriteSide → WriteSide) owed st out m k k' :
  (∀ w, write_first_packet (g w) = write_first_packet w ∧ vless_response_to_send (g w) = vless_response_to_send w ∧ pending_plain_writes (g w) = pending_plain_writes w ∧ write_mode (g w) = write_mode w) →
  (∀ s, control s = k → control (set_wr (g (wr s)) s) = k') → triple (sending owed st out m k) (mod_wr g) (λ _, sending owed st out m k') any.
Proof. intros Hg Hk. apply control_ok; [|done]. intros s. destruct (Hg (wr s)) as (G1 & G2 & G3 & G4). by split_and!. Qed.

Lemma filter_next_ok owed st out m f b flt flt' record : filter_record flt record = Ok flt' →
  triple (sending owed st out m (f, b, flt)) (filter_next record) (λ _, sending owed st out m (f, b, flt')) any.
Proof.
  intros Hf. unfold filter_next. apply triple_get. intros s0 [_ Hk]. injection Hk as _ _ <-. rewrite Hf.
  eapply triple_conseq; [apply (control_ok (set_filter flt') owed st out m (f, b, vfilter s0) (f, b, flt')); [by intros s; split_and!|]|by intros s [_ Hs]|done|done].
  unfold control. by intros s [= <- <- _].
Qed.

Lemma decrement_ok owed st out m f b flt : triple (sending owed st out m (f, b, flt)) decrement_filter (λ _, sending owed st out m (f, b, decrement_filter_count flt)) any.
Proof. apply control_ok; [by intros s; split_and!|]. unfold control. by intros s [= <- <- <-]. Qed.

(** A handshake record never ends the padding before the last packet that is looked at. *)
Lemma early_record_goes_on flt flt' record : filter_record flt record = Ok flt' → 5 ≤ length record → 2 ≤ record_filter_count flt → is_filtering flt' = true ∨ is_tls12_or_above flt' = true.
Proof.
  unfold filter_record. intros Hx Hl Hc. destruct (Nat.eqb_spec (record_filter_count flt) 0); [lia|]. destruct (Nat.ltb_spec (length record) 5); [lia|].
  set (g := if negb (is_tls (decrement_filter_count flt)) && _ then _ else _) in Hx. assert (is_filtering g = true) as Hg.
  { clear Hx. unfold is_filtering. apply Nat.ltb_lt. subst g. destruct (_ && _); cbn; lia. }
  destruct (negb _ && server_hello_shaped record); [|injection Hx as <-; by left].
  destruct (parse_server_hello record) as [h|e|]; [|injection Hx as <-; by right|done]. destruct (is_tls13 h); [|injection Hx as <-; by left]. injection Hx as <-. right. by destruct (_ =? _)%Z.
Qed.

(** ** One turn of the loop

    [out] has been read so far, [rest] is still to come of what was accepted before and of
    [buf]; the counters of the code say the same. *)
Definition counted (accepted buf out rest : bytes) (processed_len existing_inner_len : nat) : Prop :=
  out ++ rest = accepted ++ buf ∧ length out + existing_inner_len = length accepted + processed_len.

Lemma counted_next accepted buf out part rest p e : counted accepted buf out (part ++ rest) p e → counted accepted buf (out ++ part) rest (p + length part) e.
Proof. intros [H1 H2]. split; [by rewrite <- app_assoc|]. rewrite length_app. lia. Qed.

Lemma counted_consumed accepted buf out rest p e s : counted accepted buf out rest p e → e ≤ p → vwrites out s → wrote accepted buf (Some (p - e)) s.
Proof. intros [H1 H2] He Hs. destruct (accepted_part out rest accepted buf (p - e) H1) as [Hn Ht]; [lia|]. split; [done|]. change (vwrites (accepted ++ take (p - e) buf) s). by rewrite Ht. Qed.

Lemma sending_vwrites st out f b flt s : sending [] st out PaddingTls (f, b, flt) s → st = final_state b → fuzzy_rest f → (b ≠ (false, false) → remaining_data f = []) → vwrites (out ++ remaining_data f) s.
Proof. intros [[Ho Hm] Hk] -> Hf Hb. unfold vwrites. rewrite Hm, Hk. split; [done|]. split; [done|]. by exists out. Qed.

Lemma cleared_vwrites st out f b flt s : sending [] st out PaddingTls (fuzzy_clear f, b, flt) s → st = final_state b → vwrites out s.
Proof.
  intros Hs Hb. destruct (fuzzy_clear_rest f) as [H1 H2]. rewrite <- (app_nil_r out), <- H2. eapply sending_vwrites; [exact Hs|done|done|done].
Qed.

(** A call ends when its last packet is on its way. *)
Lemma consumed_ok accepted buf out rest p e b st f flt : counted accepted buf out rest p e → e ≤ p → st = final_state b →
  triple (sending [] st out PaddingTls (fuzzy_clear f, b, flt)) (r ← consumed p e; mret (Some r)) (λ (o : option (option nat)) s, ∃ r, o = Some r ∧ wrote accepted buf r s) any.
Proof.
  intros Hc He Hb. unfold consumed. rewrite (proj2 (Nat.leb_le e p) He). intros s s' r Hs [= <- <-]. eexists. split; [done|]. eapply counted_consumed; [done|done|]. by eapply cleared_vwrites.
Qed.

Lemma assert_ok {A} (b : bool) P (f : unit → vio A) Q : b = true → triple P (f tt) Q any → triple P (x ← lift (if b then Ok tt else Panic); f x) Q any.
Proof. intros -> Ht. exact Ht. Qed.

(** What a turn leaves: the result of the call, or the next turn *)
Definition turned (accepted buf out : bytes) (f : FuzzyTlsDeframer) (o : option (option nat)) (s : VisionStream) : Prop :=
  match o with Some r => wrote accepted buf r s | None => ∃ flt, sending [] VCommand out PaddingTls (f, (false, false), flt) s end.

(** The record is the last one to be padded. *)
Definition ends_padding (f : VisionFilter) (record : bytes) : bool :=
  let is_app_data := is_tls f && (3 <=? length record) && byte_eq 23 record 0 && byte_eq 3 record 1 in
  is_app_data || (negb is_app_data && negb (is_filtering f) && negb (is_tls12_or_above f)).

Lemma early_record_no_end flt flt' record : filter_record flt record = Ok flt' → 5 ≤ length record → 2 ≤ record_filter_count flt → byte_is 22 (record !! 0) = true → ends_padding flt' record = false.
Proof.
  intros Hx H5 Hcount H22. unfold ends_padding. assert (byte_eq 23 record 0 = false) as E23.
  { unfold byte_eq. destruct (record !! 0); [|done]. cbn in H22. apply Z.eqb_eq in H22. apply Z.eqb_neq. lia. }
  rewrite E23, !andb_false_r. cbn [andb orb negb]. destruct (early_record_goes_on _ _ _ Hx H5 Hcount) as [E|E]; rewrite E; cbn [negb andb]; [done|by rewrite andb_false_r].
Qed.

Lemma write_record_ok accepted buf out record f flt flt' p e : counted accepted buf out (record ++ remaining_data f) p e → (Z.of_nat (length record) < 65536)%Z →
  e ≤ p + length record → filter_record flt record = Ok flt' → (ends_padding flt' record = true → e < p + length record) →
  triple (sending [] VCommand out PaddingTls (f, (false, false), flt)) (write_record rng buf record p e) (turned accepted buf (out ++ record) f) any.
Proof.
  intros Hc Hl He Hx Hlast. apply counted_next in Hc. unfold write_record. eapply triple_bind; [by apply filter_next_ok|]. intros []. apply triple_get. intros s0 [_ Hk]. injection Hk as _ _ _ Hk. rewrite Hk.
  fold (ends_padding flt' record). destruct (ends_padding flt' record) eqn:Efin.
  - specialize (Hlast eq_refl).
    set (c := if supports_xtls flt' then Direct else End). replace (if supports_xtls flt' then COMMAND_DIRECT else COMMAND_END) with (command_byte c) by (subst c; by destruct (supports_xtls flt')).
    set (b := if supports_xtls flt' then (true, false) else (false, true)). assert (finish c = final_state b) as Hcb by (subst b c; by destruct (supports_xtls flt')).
    eapply (triple_bind _ _ _ _ (λ _, sending [] VCommand out PaddingTls (f, b, flt'))).
    { eapply triple_conseq; [apply (mod_wr_ok _ [] VCommand out PaddingTls (f, (false, false), flt') (f, b, flt'))|by intros s [_ Hs]|done|done]; [intros w; by destruct (supports_xtls flt')|].
      unfold control. subst b. intros s [= E0 E1 E2 E3]. destruct (supports_xtls flt'); cbn; by rewrite ?E0, ?E1, ?E2, ?E3. }
    intros []. eapply triple_bind; [by apply pad_next_ok|]. intros packet. eapply triple_bind; [apply write_to_session_ok|]. intros []. apply assert_ok; [by apply Nat.ltb_lt|].
    eapply triple_bind; [apply drain_padding_ok|]. intros o. eapply triple_bind; [eapply triple_conseq; [apply clear_ok|by intros s [Hs _]|intros ? s Hs; exact Hs|done]|]. intros [].
    eapply triple_conseq; [apply (consumed_ok accepted buf (out ++ record) (remaining_data f)); [exact Hc|lia|done]|done| |done]. by intros ? s (r & -> & Hs).
  - eapply triple_conseq with (P := sending [] VCommand out PaddingTls (f, (false, false), flt')) (X := any); [|by intros s [_ Hs]|by intros o s Hs; exact Hs|done].
    apply (send_packet_ok record Continue); [done|]. intros [u|]; [apply triple_ret; intros s Hs; by exists flt'|]. apply assert_ok; [by apply Nat.leb_le|]. apply triple_get. intros s1 H1.
    apply assert_ok.
    { destruct H1 as [_ Hk1]. injection Hk1 as -> _ _ _. rewrite pending_remaining. apply Nat.eqb_eq. destruct Hc as [Hc1 Hc2]. apply (f_equal length) in Hc1. rewrite !length_app in *. lia. }
    eapply triple_bind; [eapply triple_conseq; [apply clear_ok|by intros s [_ Hs]|intros ? s Hs; exact Hs|done]|]. intros [].
    eapply triple_conseq; [apply (consumed_ok accepted buf (out ++ record) (remaining_data f) _ _ (false, false) (finish Continue)); [exact Hc|lia|done]|done| |done]. by intros ? s (r & -> & Hs).
Qed.

Lemma send_final_ok packet st out m k : triple (sending packet st out m k) (send_final packet) (λ _, sending [] st out m k) any.
Proof.
  unfold send_final. eapply triple_bind; [apply write_to_session_ok|]. intros []. eapply (triple_bind _ _ _ _ (λ _, sending [] st out m k)); [|intros ?; by apply triple_ret].
  eapply triple_conseq; [apply drain_padding_ok|done|by intros ? s [Hs _]|done].
Qed.

Lemma write_prefix_ok accepted buf out prefix f flt p e : counted accepted buf out (prefix ++ remaining_data f) p e → (Z.of_nat (length prefix) < 65536)%Z →
  (is_filtering (decrement_filter_count flt) = false → e ≤ p + length prefix) →
  triple (sending [] VCommand out PaddingTls (f, (false, false), flt)) (write_prefix rng prefix p e) (turned accepted buf (out ++ prefix) f) any.
Proof.
  intros Hc Hl Hlast. apply counted_next in Hc. unfold write_prefix. eapply triple_bind; [apply decrement_ok|]. intros []. apply triple_get. intros s0 [_ Hk]. injection Hk as _ _ _ Hk. rewrite Hk.
  eapply triple_conseq with (P := sending [] VCommand out PaddingTls (f, (false, false), decrement_filter_count flt)) (X := any); [|by intros s [_ Hs]|by intros o s Hs; exact Hs|done].
  destruct (is_filtering (decrement_filter_count flt)) eqn:Ef.
  - apply (send_packet_ok prefix Continue); [done|]. intros _. apply triple_ret. intros s Hs. by eexists.
  - specialize (Hlast eq_refl).
    eapply (triple_bind _ _ _ _ (λ _, sending [] VCommand out PaddingTls (f, (false, true), decrement_filter_count flt))).
    { apply mod_wr_ok; [by intros w|]. unfold control. intros s [= E0 E1 E2 E3]. cbn. by rewrite ?E0, ?E1, ?E3. }
    intros []. eapply triple_bind; [by apply (pad_next_ok prefix End)|]. intros packet. eapply triple_bind; [apply clear_ok|]. intros []. eapply triple_bind; [apply send_final_ok|].
    intros []. eapply triple_conseq; [apply (consumed_ok accepted buf (out ++ prefix) (remaining_data f) _ _ (false, true) (finish End)); [exact Hc|lia|done]|done| |done]. by intros ? s (r & -> & Hs).
Qed.

Lemma write_invalid_ok accepted buf out f flt p e : counted accepted buf out (remaining_data f) p e → (Z.of_nat (length (remaining_data f)) < 65536)%Z →
  triple (sending [] VCommand out PaddingTls (f, (false, false), flt)) (write_invalid rng buf) (λ o s, ∃ r, o = Some r ∧ wrote accepted buf r s) any.
Proof.
  intros [Hc _] Hl. unfold write_invalid. eapply (triple_bind _ _ _ _ (λ _, sending [] VCommand out PaddingTls (f, (false, true), flt))).
  { apply mod_wr_ok; [by intros w|]. unfold control. intros s [= E0 E1 E2 E3]. cbn. by rewrite ?E0, ?E1, ?E3. }
  intros []. eapply (triple_bind _ _ _ _ (λ _, sending [] VCommand out PaddingTls (f, (false, true), stop_filtering flt))).
  { apply control_ok; [by intros s; split_and!|]. unfold control. intros s [= E0 E1 E2 E3]. cbn. by rewrite E0, E1, E2, E3. }
  intros []. apply triple_get. intros s0 [_ Hk]. injection Hk as -> _ _ _.
  eapply triple_conseq with (P := sending [] VCommand out PaddingTls (f, (false, true), stop_filtering flt)) (X := any); [|by intros s [_ Hs]|by intros o s Hs; exact Hs|done].
  eapply triple_bind; [by apply (pad_next_ok (remaining_data f) End)|]. intros packet. eapply triple_bind; [apply send_final_ok|].
  intros []. eapply triple_bind; [apply clear_ok|]. intros []. apply triple_ret. intros s Hs. eexists. split; [done|]. eapply wrote_all; [exact Hc|done|]. by eapply cleared_vwrites.
Qed.

(** ** The loop

    What a turn may do without a panic, and what it leaves for the next: behind the first
    part the deframer cuts records, or has had all it can give. *)
Definition going (f : FuzzyTlsDeframer) (p e : nat) : Prop := (fuzzy_state f = Deframing ∧ e < p + 5) ∨ fuzzy_next find f = (f, Ok NeedData).
(** What a turn finds, and when it may end the call *)
Definition turns (f : FuzzyTlsDeframer) (p e : nat) : Prop :=
  match fuzzy_next find f with
  | (f', Ok (TlsRecord rec)) => e ≤ p + length rec ∧ going f' (p + length rec) e
  | (f', Ok (UnknownPrefix l)) => going f' (p + length l) e
  | _ => True
  end.
Definition may_end (f : FuzzyTlsDeframer) (flt : VisionFilter) (p e : nat) : Prop :=
  match fuzzy_next find f with
  | (f', Ok (TlsRecord rec)) => ∀ flt', filter_record flt rec = Ok flt' → ends_padding flt' rec = true → e < p + length rec
  | (f', Ok (UnknownPrefix l)) => is_filtering (decrement_filter_count flt) = false → e ≤ p + length l
  | _ => True
  end.

Lemma going_safe f flt p e : fuzzy_ok f → going f p e → turns f p e ∧ may_end f flt p e.
Proof.
  intros Hf [[Hd He]|Hn]; unfold turns, may_end; [|by rewrite Hn]. pose proof (fuzzy_next_parts find f Hfind Hf) as Hp. destruct (fuzzy_next find f) as [f' [[rec|l|]|er|]]; try done; destruct Hp as [_ Hp].
  - destruct Hp as (_ & H5 & Hd' & _). split_and!; [lia| |intros; lia]. left. split; [done|lia].
  - destruct Hp as (_ & _ & Hs & _). congruence.
Qed.

Lemma first_turns f flt buf : fuzzy_rest f → turns (fuzzy_feed f buf) 0 (length (remaining_data f)) ∧
  ((fuzzy_state f = Searching → search_buffer f ≠ [] → 2 ≤ record_filter_count flt) → may_end (fuzzy_feed f buf) flt 0 (length (remaining_data f))).
Proof.
  intros [Hf Hr]. destruct (fuzzy_feed_ok f buf Hf) as (Hf' & Hrem & Es). pose proof (fuzzy_next_parts find _ Hfind Hf') as Hp. unfold turns, may_end. set (e := length (remaining_data f)).
  destruct (fuzzy_state f) eqn:Ef.
  - assert (e ≤ 5) as He by (subst e; unfold remaining_data; by rewrite Ef).
    assert ((fuzzy_state f = Searching → search_buffer f ≠ [] → 2 ≤ record_filter_count flt) → e = 0 ∨ 2 ≤ record_filter_count flt) as Hor.
    { intros Hc. subst e. unfold remaining_data. rewrite Ef. destruct (search_buffer f) eqn:Eb; [by left|right]. by apply Hc. }
    rewrite Ef in Hor. destruct (fuzzy_next find (fuzzy_feed f buf)) as [f' [[rec|l|]|er|]]; try (by split); destruct Hp as [_ Hp]; cbn [Nat.add].
    + destruct Hp as (_ & H5 & Hd & H22). specialize (H22 Es). split; [split; [lia|left; split; [done|lia]]|]. intros [Ez|Hc]%Hor flt' Hx; [lia|]. by rewrite (early_record_no_end _ _ _ Hx H5 Hc H22).
    + destruct Hp as (_ & Hne & _ & Hg). split; [destruct Hg as [Hd|Hn]; [left; split; [done|]|by right]; destruct l; [done|cbn; lia]|]. intros [Ez|Hc]%Hor; [lia|]. unfold is_filtering. intros Hfl%Nat.ltb_ge. cbn in Hfl. lia.
  - unfold fuzzy_next in *. rewrite Es in *. unfold fuzzy_ok in Hf'. rewrite Es in Hf'. destruct Hf' as [Hd _]. unfold deframing_arm in *. pose proof (next_record_spec _ Hd) as [_ Hn].
    destruct (next_record (inner (fuzzy_feed f buf))) as [d r]. cbn [fst snd] in Hn. destruct r as [[rec|]|er|]; cbn [mbind outcome_bind] in *; try done.
    unfold remaining_data in Hrem. rewrite Es, Ef in Hrem. rewrite Hrem in Hn. pose proof (incomplete_extended _ _ _ _ Hr Hn) as Hlt. assert (e = length (buffer (inner f))) as -> by (unfold e, remaining_data; by rewrite Ef).
    cbn [Nat.add]. split; [split; [lia|left; split; [done|lia]]|]. intros _ flt' _ _. lia.
Qed.

Lemma next_inner_run owed st out m f b flt f' r s : fuzzy_next find f = (f', r) → no_panic r → sending owed st out m (f, b, flt) s →
  ∃ s', next_inner_write find s = (s', Ok r) ∧ sending owed st out m (f', b, flt) s'.
Proof.
  intros E Hr [[Ho Hm] Hk]. unfold control in Hk. injection Hk as Hk Hb Hflt. exists (set_wr (set_inner_write f' (wr s)) s). split; [unfold next_inner_write; rewrite Hk, E; by destruct r|].
  split; [by split|]. unfold control. cbn. by rewrite <- Hb, Hflt.
Qed.

Lemma next_inner_ok {A} (next : tls DeframeResult → vio A) Q owed st out m f b flt f' r : fuzzy_next find f = (f', r) → no_panic r →
  triple (sending owed st out m (f', b, flt)) (next r) Q any → triple (sending owed st out m (f, b, flt)) (x ← next_inner_write find; next x) Q any.
Proof. intros E Hr Hn s s' x Hs. destruct (next_inner_run _ _ _ _ _ _ _ _ _ _ E Hr Hs) as (s1 & Er & Hs1). rewrite (act_bind_ok _ _ _ _ _ Er). by apply Hn. Qed.

Lemma next_inner_partial {A} (next : tls DeframeResult → vio A) Q owed st out m f b flt f' r : fuzzy_next find f = (f', r) → no_panic r →
  ptriple (sending owed st out m (f', b, flt)) (next r) Q any → ptriple (sending owed st out m (f, b, flt)) (x ← next_inner_write find; next x) Q any.
Proof. intros E Hr Hn s s' x Hs. destruct (next_inner_run _ _ _ _ _ _ _ _ _ _ E Hr Hs) as (s1 & Er & Hs1). rewrite (act_bind_ok _ _ _ _ _ Er). by apply Hn. Qed.

(** A turn, with what follows it *)
Lemma padding_turn_ok accepted buf e fuel out f flt p : fuzzy_ok f → counted accepted buf out (remaining_data f) p e → (Z.of_nat (length (remaining_data f)) < 65536)%Z → turns f p e → may_end f flt p e →
  (∀ f' out' flt' p', fuzzy_ok f' → counted accepted buf out' (remaining_data f') p' e → length (remaining_data f') < length (remaining_data f) → going f' p' e →
    triple (sending [] VCommand out' PaddingTls (f', (false, false), flt')) (write_padding_loop find rng fuel buf p' e) (wrote accepted buf) any) →
  triple (sending [] VCommand out PaddingTls (f, (false, false), flt)) (write_padding_loop find rng (S fuel) buf p e) (wrote accepted buf) any.
Proof.
  intros Hf Hc Hl Ht Hend Hnext. cbn [write_padding_loop]. pose proof (fuzzy_next_parts find f Hfind Hf) as Hp. unfold turns, may_end in *. destruct (fuzzy_next find f) as [f' r] eqn:En. destruct Hp as [Hf' Hp].
  assert (no_panic r) as Hnp by by destruct r. apply (next_inner_ok _ _ _ _ _ _ _ _ _ _ _ En Hnp).
  destruct r as [[rec|l|]|er|]; cbn [parts] in Hp; [| | | |done].
  - destruct Hp as (Er & H5 & _ & _). destruct Ht as [T1 T2]. rewrite Er in Hc, Hl, Hnext. rewrite length_app in Hl, Hnext. destruct (filter_record_Ok flt rec) as [flt' Hx].
    eapply triple_bind; [apply (write_record_ok accepted buf out rec f' flt flt' p e); [done|lia|done|done|by apply Hend]|]. intros [o|]; [by apply triple_ret|].
    intros s s' y [flt2 Hs]. apply (Hnext f' (out ++ rec) flt2); [done|by apply counted_next|lia|done|done].
  - destruct Hp as (Er & Hne & _ & _). rewrite Er in Hc, Hl, Hnext. rewrite length_app in Hl, Hnext. assert (0 < length l) by (destruct l; [done|cbn; lia]).
    eapply triple_bind; [apply (write_prefix_ok accepted buf out l f' flt p e); [done|lia|done]|]. intros [o|]; [by apply triple_ret|].
    intros s s' y [flt2 Hs]. apply (Hnext f' (out ++ l) flt2); [done|by apply counted_next|lia|done|done].
  - destruct Hp as [Er Hrest]. apply triple_ret. intros s Hs. destruct Hc as [Hc _]. eapply wrote_all; [exact Hc|done|]. rewrite <- Er. by eapply sending_vwrites.
  - eapply triple_bind; [apply (write_invalid_ok accepted buf out f' flt p e); by rewrite Hp|]. intros o s s' y (r1 & -> & Hs) [= <- <-]. exact Hs.
Qed.

Lemma padding_loop_ok accepted buf e fuel out f flt p : fuzzy_ok f → counted accepted buf out (remaining_data f) p e → (Z.of_nat (length (remaining_data f)) < 65536)%Z → length (remaining_data f) < fuel → going f p e →
  triple (sending [] VCommand out PaddingTls (f, (false, false), flt)) (write_padding_loop find rng fuel buf p e) (wrote accepted buf) any.
Proof.
  revert out f flt p. induction fuel as [|fuel IH]; intros out f flt p Hf Hc Hl Hfuel Hg; [lia|]. destruct (going_safe f flt p e Hf Hg) as [Ht Hend]. apply padding_turn_ok; [done..|].
  intros f' out' flt' p' Hf' Hc' Hlt Hg'. apply IH; [done|done|lia|lia|done].
Qed.

(** A call that would have to give back what an earlier one accepted does not return. *)
Lemma ptriple_top {A} (P : VisionStream → Prop) (m : vio A) : ptriple P m (λ _ _, True) any.
Proof. intros s s' r _ _. by destruct r. Qed.

Lemma write_record_stuck buf out record f flt flt' p e : filter_record flt record = Ok flt' → ends_padding flt' record = true → p + length record ≤ e →
  ptriple (sending [] VCommand out PaddingTls (f, (false, false), flt)) (write_record rng buf record p e) (λ _ _, False) any.
Proof.
  intros Hx Hend He. unfold write_record. eapply ptriple_bind; [by apply ptriple_of_triple, filter_next_ok|]. intros []. apply ptriple_get. intros s0 s s' r [-> [_ Hk]]. injection Hk as _ _ _ Hk. rewrite Hk.
  fold (ends_padding flt' record). rewrite Hend. refine ((_ : ptriple (λ _, True) _ (λ _ _, False) any) s0 s' r I).
  eapply ptriple_bind; [apply ptriple_top|]. intros []. eapply ptriple_bind; [apply ptriple_top|]. intros packet. eapply ptriple_bind; [apply ptriple_top|]. intros [].
  rewrite (proj2 (Nat.ltb_ge _ _) He). by intros s1 s1' r1 _ [= _ <-].
Qed.

Lemma write_prefix_stuck out prefix f flt p e : is_filtering (decrement_filter_count flt) = false → p + length prefix < e →
  ptriple (sending [] VCommand out PaddingTls (f, (false, false), flt)) (write_prefix rng prefix p e) (λ _ _, False) any.
Proof.
  intros Hend He. unfold write_prefix. eapply ptriple_bind; [apply ptriple_of_triple, decrement_ok|]. intros []. apply ptriple_get. intros s0 s s' r [-> [_ Hk]]. injection Hk as _ _ _ Hk. rewrite Hk, Hend.
  refine ((_ : ptriple (λ _, True) _ (λ _ _, False) any) s0 s' r I). unfold consumed. rewrite (proj2 (Nat.leb_gt _ _) He).
  eapply ptriple_bind; [apply ptriple_top|]. intros []. eapply ptriple_bind; [apply ptriple_top|]. intros packet. eapply ptriple_bind; [apply ptriple_top|]. intros []. eapply ptriple_bind; [apply ptriple_top|]. intros [].
  by intros s1 s1' r1 _ [= _ <-].
Qed.

(** So the loop is right whenever it returns, and it returns unless its first turn is such
    a call. *)
Lemma padding_first_ok accepted buf e fuel out f flt p : fuzzy_ok f → counted accepted buf out (remaining_data f) p e → (Z.of_nat (length (remaining_data f)) < 65536)%Z → length (remaining_data f) < fuel → turns f p e →
  ptriple (sending [] VCommand out PaddingTls (f, (false, false), flt)) (write_padding_loop find rng (S fuel) buf p e) (wrote accepted buf) any ∧
  (may_end f flt p e → triple (sending [] VCommand out PaddingTls (f, (false, false), flt)) (write_padding_loop find rng (S fuel) buf p e) (wrote accepted buf) any).
Proof.
  intros Hf Hc Hl Hfuel Ht.
  assert (may_end f flt p e → triple (sending [] VCommand out PaddingTls (f, (false, false), flt)) (write_padding_loop find rng (S fuel) buf p e) (wrote accepted buf) any) as Htotal.
  { intros Hend. apply padding_turn_ok; [done..|]. intros f' out' flt' p' Hf' Hc' Hlt Hg'. apply padding_loop_ok; [done|done|lia|lia|done]. }
  split; [|exact Htotal]. assert (may_end f flt p e ∨ ∃ f' part, (∃ flt', fuzzy_next find f = (f', Ok (TlsRecord part)) ∧ filter_record flt part = Ok flt' ∧ ends_padding flt' part = true ∧ p + length part ≤ e) ∨
    (fuzzy_next find f = (f', Ok (UnknownPrefix part)) ∧ is_filtering (decrement_filter_count flt) = false ∧ p + length part < e)) as [Hend|(f' & part & [(flt' & En & Hx & Hend & He)|(En & Hend & He)])].
  - unfold may_end. destruct (fuzzy_next find f) as [f' [[rec|l|]|er|]]; try (by left).
    + destruct (filter_record_Ok flt rec) as [flt' Hx]. destruct (ends_padding flt' rec) eqn:Eend; [|left; congruence]. destruct (Nat.le_gt_cases (p + length rec) e); [|left; congruence]. right. exists f', rec. left. by exists flt'.
    + destruct (is_filtering (decrement_filter_count flt)) eqn:Eend; [by left|]. destruct (Nat.le_gt_cases e (p + length l)); [by left|]. right. exists f', l. by right.
  - by apply ptriple_of_triple, Htotal.
  - cbn [write_padding_loop]. apply (next_inner_partial _ _ _ _ _ _ _ _ _ _ _ En); [done|].
    eapply (ptriple_bind _ _ _ _ (λ _ _, False)); [by eapply write_record_stuck|by intros o x x' y].
  - cbn [write_padding_loop]. apply (next_inner_partial _ _ _ _ _ _ _ _ _ _ _ En); [done|].
    eapply (ptriple_bind _ _ _ _ (λ _ _, False)); [by apply write_prefix_stuck|by intros o x x' y].
Qed.

(** ** The three modes *)
Definition last_look (s : VisionStream) : bool :=
  bool_decide (write_mode (wr s) = PaddingTls) && match fuzzy_state (inner_write_deframer (wr s)) with Searching => true | Deframing => false end &&
  negb (bool_decide (search_buffer (inner_write_deframer (wr s)) = [])) && (record_filter_count (vfilter s) <=? 1).

Lemma switch_write_ok st out k m name l : triple (λ s, sending [] st out PaddingTls k s ∧ vlink s = l) (switch_write m name) (λ _ s, (owes [] st out s ∧ write_mode (wr s) = m) ∧ vlink s = l) any.
Proof.
  intros s s' r [[[Ho Hm] _] Hl]. unfold switch_write. rewrite (act_bind_ok get _ s s s eq_refl), Hm, bool_decide_eq_true_2 by done. cbn [negb].
  unfold post_padding_cleanup, mod_wr, mod_rd, modify, mbind, act_bind, get. destruct (bool_decide _ || bool_decide _); intros [= <- <-]; [by split|]. split; [|exact Hl]. split; [|done].
  destruct Ho as (given & Hw & Hd & Hr & _). by exists given.
Qed.

Lemma decodes_done uuid first given c out l : decodes user uuid first given (VDone c) out → decodes user uuid first (given ++ l) (VDone c) (out ++ l).
Proof.
  unfold decodes. intros [Hu Hx]. split; [done|]. destruct first; [by destruct Hx as (_ & ? & _)|]. destruct Hx as (x & -> & Hx). exists (x ++ l). split; [by rewrite app_assoc|]. by rewrite vrun_app, Hx, vrun_done.
Qed.

Lemma poll_write_tls_ok accepted buf : triple (λ s, owes [] (VDone End) accepted s ∧ write_mode (wr s) = Tls) (poll_write_tls buf) (wrote accepted buf) any.
Proof.
  apply triple_at. intros s0 [H0 Hm]. unfold poll_write_tls. cbn [poll_write_tls_loop]. destruct (Nat.ltb_spec 0 (length buf)) as [Hl|Hl].
  2: { destruct buf; [|cbn in Hl; lia]. apply triple_ret. intros s ->. apply (wrote_all accepted); [by rewrite app_nil_r|done|]. unfold vwrites. by rewrite Hm. }
  destruct H0 as (given & Hw & Hd & Hr & Hp). rewrite app_nil_r in Hd.
  set (s1 := set_link (vtcp s0, set_pending (plaintext_write_buf (vconn s0) ++ buf) (vconn s0)) s0). assert (on_vconn (writer_write (drop 0 buf)) s0 = (s1, Ok (length buf))) as E1 by (by apply on_vconn_run; rewrite drop_0).
  assert (sending [] (VDone End) (accepted ++ buf) Tls (control s0) s1) as H1.
  { split; [split; [|done]|done]. exists (given ++ buf). rewrite app_nil_r. split; [rewrite app_assoc; by apply given_writes|]. split; [by apply decodes_done|by split]. }
  eapply triple_run; [exact E1|]. cbn [Nat.add]. apply triple_get. intros s2 ->.
  assert (∀ s, sending [] (VDone End) (accepted ++ buf) Tls (control s0) s → wrote accepted buf (Some (length buf)) s) as Hdone.
  { intros s [[Ho Hms] _]. apply (wrote_all (accepted ++ buf)); [done..|]. unfold vwrites. by rewrite Hms. }
  eapply triple_bind.
  - eapply triple_conseq; [apply (drain_tls_ok (mret tt) (mret None) (VDone End) (accepted ++ buf) Tls (control s0) True)|by intros s [-> _]|intros o s [Hs _]; exact Hs|done]; [intros n; by apply triple_ret|by apply triple_ret].
  - intros [u|]; [|destruct (Nat.eqb_spec (length buf) 0); [lia|]; by apply triple_ret]. destruct (Nat.ltb_spec (length buf) (length buf)); [lia|]. by apply triple_ret.
Qed.

Lemma poll_write_direct_ok accepted buf : triple (λ s, sent_direct accepted s ∧ write_mode (wr s) = DirectIo) (on_vtcp (tcp_poll_write buf)) (wrote accepted buf) any.
Proof.
  intros s s' r [(sent & raw & given & out & Hs & Hw & Hd & Hdec & ->) Hm]. unfold on_vtcp, on_vlink, on_fst, tcp_poll_write. unfold vtcp, vconn in *. destruct (vlink s) as [t c] eqn:El. cbn [fst snd] in *.
  assert (∀ t' raw' b, b = raw ++ raw' → tcp_sent t' = tcp_sent t ++ raw' → vwrites (out ++ b) (set_link (t', c) s)) as Hok.
  { intros t' raw' b -> Et. unfold vwrites. cbn [wr set_link]. rewrite Hm. exists sent, (raw ++ raw'), given, out. unfold vtcp, vconn. cbn. rewrite Et, Hs, <- app_assoc. by split_and!. }
  destruct (accepts t) as [|[n|e|] a]; intros [= <- <-]; [split; [cbn; lia|]|split; [cbn; lia|]|done|split; [cbn; lia|]].
  - rewrite <- app_assoc. apply (Hok _ []); [done|by rewrite app_nil_r].
  - rewrite <- app_assoc. eapply Hok; [done|]. cbn. f_equal. destruct (Nat.le_gt_cases n (length buf)); [by rewrite Nat.min_l|]. rewrite Nat.min_r by lia. by rewrite !take_ge by lia.
  - rewrite <- app_assoc. apply (Hok _ []); [done|done].
Qed.

Lemma poll_write_padding_ok total accepted buf : (Z.of_nat (length buf) ≤ MAX_WRITE)%Z →
  judged total (λ s, vwrites accepted s ∧ write_mode (wr s) = PaddingTls ∧ (total = true → last_look s = false)) (poll_write_padding_tls find rng buf) (wrote accepted buf) any.
Proof.
  intros Hbuf. apply judged_at. intros s0 (Hv & Hm & Hlook). unfold vwrites in Hv. rewrite Hm in Hv. destruct (control s0) as [[f b] flt] eqn:Ek. destruct Hv as (Hrest & Hb & out & Ho & ->).
  assert (sending [] (final_state b) out PaddingTls (f, b, flt) s0) as H0 by by split. pose proof Ho as (_ & _ & _ & Hresp & Hplain). unfold poll_write_padding_tls. eapply judged_run; [reflexivity|]. rewrite Hresp.
  eapply (judged_run _ _ _ _ _ s0 s0 tt); [done|]. eapply judged_run; [reflexivity|]. rewrite Hplain, bool_decide_eq_true_2 by done. cbn [negb orb]. unfold poll_bind.
  eapply (judged_bind _ _ _ _ _ (λ o s, sending [] (final_state b) out PaddingTls (f, b, flt) s ∧ (o = Some tt → wants_write (vconn s) = false))).
  { destruct (wants_write (vconn s0)) eqn:Ew; [|apply triple_ret; by intros s ->]. eapply triple_conseq; [apply drain_padding_ok|by intros s ->|done|done]. }
  intros [[]|]. 2: { apply judged_of_triple, triple_ret. intros s [Hs _]. split; [cbn; lia|]. change (vwrites ((out ++ remaining_data f) ++ []) s). rewrite app_nil_r. by eapply sending_vwrites. }
  apply judged_get. intros s1 [H1 Hnone]. specialize (Hnone eq_refl). pose proof H1 as [_ Hk1]. unfold control in Hk1. injection Hk1 as Ef Eb Eflt. rewrite <- Eb in *. clear b Eb.
  destruct (pending_direct_mode_switch (wr s1)) eqn:Ed; [|destruct (pending_tls_mode_switch (wr s1)) eqn:Et].
  - apply judged_of_triple. rewrite (Hb ltac:(done)) in *. rewrite app_nil_r. eapply (triple_bind _ _ _ _ (λ _ s, sending [] (VDone Direct) out PaddingTls (f, (false, pending_tls_mode_switch (wr s1)), flt) s ∧ vlink s = vlink s1)).
    { intros s s' r [-> Hs] [= <- <-]. split; [|done]. split; [exact (proj1 (proj1 Hs))|]. unfold control. cbn. by rewrite Ef, Eflt. }
    intros []. eapply triple_bind; [apply switch_write_ok|]. intros []. eapply triple_conseq; [apply (poll_write_direct_ok out)| |done|done].
    intros s [[(given & Hw & Hd & Hr & Hp) Hms] Hl]. split; [|done]. exists (tcp_sent (vtcp s)), [], given, out. rewrite !app_nil_r in *. split_and!; try done. unfold vconn in *. by rewrite Hl.
  - apply judged_of_triple. rewrite (Hb ltac:(done)) in *. rewrite app_nil_r. eapply (triple_bind _ _ _ _ (λ _ s, sending [] (VDone End) out PaddingTls (f, (false, false), flt) s ∧ vlink s = vlink s1)).
    { intros s s' r [-> Hs] [= <- <-]. split; [|done]. split; [exact (proj1 (proj1 Hs))|]. unfold control. cbn. by rewrite Ef, Ed, Eflt. }
    intros []. eapply triple_bind; [apply switch_write_ok|]. intros []. eapply triple_conseq; [apply (poll_write_tls_ok out)| |done|done]. by intros s [Hs _].
  - rewrite Ef. destruct (fuzzy_feed_ok f buf (proj1 Hrest)) as (Hf' & Hrem & _).
    eapply (judged_bind _ _ _ _ _ (λ _, sending [] VCommand out PaddingTls (fuzzy_feed f buf, (false, false), flt))).
    { intros s s' r [-> Hs] [= <- <-]. split; [exact (proj1 (proj1 Hs))|]. unfold control. cbn. by rewrite Ef, Ed, Et, Eflt. }
    intros []. pose proof (held_back_short f Hrest) as Hshort. unfold MAX_WRITE in Hbuf. rewrite pending_remaining. destruct (first_turns f flt buf Hrest) as [Hturns Hend].
    destruct (padding_first_ok (out ++ remaining_data f) buf (length (remaining_data f)) (S (length (remaining_data f) + length buf)) out (fuzzy_feed f buf) flt 0) as [Hpart Htot]; [done| | | |done|].
    + rewrite Hrem. split; [by rewrite app_assoc|]. rewrite length_app. lia.
    + rewrite Hrem, length_app. lia.
    + rewrite Hrem, length_app. lia.
    + destruct total; [|exact Hpart]. apply Htot, Hend. intros Es Hne. specialize (Hlook eq_refl). unfold last_look in Hlook. unfold control in Ek. injection Ek as E1 _ _ E2.
      rewrite Hm, E1, E2, Es, bool_decide_eq_true_2, (bool_decide_eq_false_2 _ Hne) in Hlook by done. cbn [negb andb] in Hlook. apply Nat.leb_gt in Hlook. lia.
Qed.
End writing.
