(* ===== verification/VisionDelivery.v ===== *)
(** * VisionDelivery: a Vision stream under any use

    Reads leave what was written alone, a flush sends it, and any sequence of operations
    keeps the two together: the frames of the reading half of [VisionStream], and what an
    observer of the transport can say after the operations. *)
From Stdlib Require Import ZArith Lia Strings.Byte Ascii String.
From stdpp Require Import base list numbers option.
From S2P Require Import Prelude Wire SlideBuffer AeadStream RealityRecords RealityMessages RealityKeys RealityClient RealitySession Transport TlsRecords TlsHello Vision RealityDuplex VisionStream VisionDuplex RealityConnect.
Import Machine.
Local Open Scope nat_scope.

(** ** What reading keeps *)

(** A connection past its handshake, as seen by the writer *)
Definition kept (c c' : Connection) : Prop := handshake_state c = Complete → same_out c c'.
#[export] Instance kept_preorder : PreOrder kept.
Proof.
  split; [by intros c _|]. intros a b c Hab Hbc Ha. specialize (Hab Ha). etransitivity; [exact Hab|]. apply Hbc. destruct Hab as (_ & -> & _). done.
Qed.

Lemma always_kept {A} (m : io A) : always same_out m → always kept m.
Proof. intros H c c' r E _. by eapply H. Qed.

Definition writer_view (w : WriteSide) := (write_mode w, write_first_packet w, vless_response_to_send w, pending_direct_mode_switch w, pending_tls_mode_switch w).

Definition keeps (s s' : VisionStream) : Prop :=
  kept (vconn s) (vconn s') ∧ tcp_sent (vtcp s') = tcp_sent (vtcp s) ∧ user_uuid s' = user_uuid s ∧ writer_view (wr s') = writer_view (wr s) ∧
  (pending_plain_writes (wr s) = [] → pending_plain_writes (wr s') = []) ∧ (write_mode (wr s) = PaddingTls → inner_write_deframer (wr s') = inner_write_deframer (wr s)).
#[export] Instance keeps_preorder : PreOrder keeps.
Proof.
  split; [by intros s; split_and!|]. intros a b c (A1 & A2 & A3 & A4 & A5 & A6) (B1 & B2 & B3 & B4 & B5 & B6). split_and!; [by etransitivity|congruence..|by auto|].
  intros Hm. rewrite <- A6 by done. apply B6. unfold writer_view in A4. congruence.
Qed.

Section frames.
Context `{Crypto} (find : bytes → option nat).

Lemma process_kept : always kept process_new_packets.
Proof. intros c c' r E Hc. by eapply process_out. Qed.

Lemma map_err_always {S E F A} (R : S → S → Prop) (f : E → F) (m : act S E A) : always R m → always R (map_err f m).
Proof. intros H1 s s' r (r0 & E0 & _)%map_err_inv. by eapply H1. Qed.

Lemma reader_kept : always kept reader.
Proof. apply always_kept. unfold reader. frames; apply on_plain_out. Qed.

Lemma fill_buf_kept : always kept fill_buf.
Proof. apply always_kept. unfold fill_buf. frames; apply peek_plain_out. Qed.

Lemma consume_kept n : always kept (reader_consume n).
Proof. apply always_kept. unfold reader_consume. frames; apply on_plain_out. Qed.

Lemma feed_kept l : always kept (feed_reality_client_connection l).
Proof.
  apply always_kept. unfold feed_reality_client_connection. generalize (S (length l)). intros fuel. revert l.
  induction fuel as [|fuel IH]; intros l; cbn [feed_loop]; frames; apply map_err_always, read_tls_out.
Qed.
#[local] Hint Resolve process_kept reader_kept fill_buf_kept consume_kept feed_kept map_err_always : always.

Lemma feed_and_process_kept l : always kept (feed_and_process_crypto_connection l).
Proof. unfold feed_and_process_crypto_connection, feed_crypto_connection. frames. Qed.

Lemma read_session_kept empty failed n : always kept (read_session empty failed n).
Proof.
  unfold read_session. assert (∀ fuel i acc, always kept (read_session_loop fuel empty failed i n acc)) as Hl; [|frames].
  intros fuel. induction fuel as [|fuel IH]; intros i acc; cbn [read_session_loop]; frames.
Qed.
#[local] Hint Resolve feed_and_process_kept read_session_kept : always.

Lemma feed_record_kept empty failed l : always kept (feed_record empty failed l).
Proof. unfold feed_record. frames. Qed.
#[local] Hint Resolve feed_record_kept : always.

(** ** Lifted to the stream *)
Lemma on_vconn_keeps {A} (m : io A) : always kept m → always keeps (on_vconn m).
Proof.
  intros Hm s s' r. unfold on_vconn, on_vlink, on_snd. unfold keeps, vconn, vtcp in *. destruct (vlink s) as [t c] eqn:El. destruct (m c) as [c' r'] eqn:E. intros [= <- <-]. cbn. rewrite ?El. split_and!; try done. by eapply Hm.
Qed.

Lemma tcp_read_sent room t t' r : tcp_poll_read room t = (t', r) → tcp_sent t' = tcp_sent t.
Proof. unfold tcp_poll_read. destruct (incoming t) as [|[l|e|] i]; [|destruct (_ <=? _)|..]; by intros [= <- _]. Qed.

Lemma on_vtcp_keeps {A} (m : act Transport IoError A) : (∀ t t' r, m t = (t', r) → tcp_sent t' = tcp_sent t) → always keeps (on_vtcp m).
Proof.
  intros Hm s s' r. unfold on_vtcp, on_vlink, on_fst. unfold keeps, vconn, vtcp in *. destruct (vlink s) as [t c] eqn:El. destruct (m t) as [t' r'] eqn:E. intros [= <- <-]. cbn. rewrite ?El. split_and!; try done. by eapply Hm.
Qed.

Lemma poll_tcp_keeps room : always keeps (on_vtcp (tcp_poll_read room)).
Proof. apply on_vtcp_keeps. intros t t' r. apply tcp_read_sent. Qed.

Lemma link_read_keeps : always keeps (on_vlink (block_is_pending link_read_tls)).
Proof.
  intros s s' r. unfold on_vlink, block_is_pending, link_read_tls. unfold keeps, vconn, vtcp in *. destruct (vlink s) as [t c] eqn:El. destruct (SyncReadAdapter_read _ t) as [t' d] eqn:Et. destruct (read_tls d c) as [c' n] eqn:Ec.
  assert (tcp_sent t' = tcp_sent t) as Hs.
  { unfold SyncReadAdapter_read, ready_or_block in Et. apply act_bind_cases in Et as [(t1 & o & E1 & E2)|[(e & E1 & _)|[E1 _]]]; apply tcp_read_sent in E1; [|done..]. by destruct o; injection E2 as <- _. }
  apply read_tls_out in Ec. destruct n as [n|e|]; intros [= <- <-]; cbn; rewrite ?El; split_and!; try done; by intros _.
Qed.

Lemma mod_rd_keeps f : always keeps (mod_rd f).
Proof. unfold mod_rd. apply always_modify. intros s. by split_and!. Qed.

Lemma set_filter_keeps f : always keeps (modify (λ s, set_filter (f s) s) : vio unit).
Proof. apply always_modify. intros s. by split_and!. Qed.
#[local] Hint Resolve on_vconn_keeps poll_tcp_keeps link_read_keeps mod_rd_keeps set_filter_keeps : always.

Lemma post_padding_keeps : always keeps post_padding_cleanup.
Proof.
  unfold post_padding_cleanup. apply always_get_bind. intros s s' r. destruct (bool_decide_reflect (read_mode (rd s) = PaddingTls)), (bool_decide_reflect (write_mode (wr s) = PaddingTls)); cbn [orb]; intros [= <- <-]; by split_and!.
Qed.
#[local] Hint Resolve post_padding_keeps : always.

Lemma switch_read_keeps m name : always keeps (switch_read m name).
Proof. unfold switch_read. frames. Qed.
#[local] Hint Resolve switch_read_keeps : always.

Lemma next_inner_read_keeps : always keeps (next_inner_read find).
Proof. intros s s' r. unfold next_inner_read. destruct (fuzzy_next _ _) as [f x]. intros [= <- <-]. by split_and!. Qed.
Lemma filter_next_keeps l : always keeps (filter_next l).
Proof. unfold filter_next. apply always_get_bind. intros s s' r. destruct (filter_record _ _); intros [= <- _]; by split_and!. Qed.
Lemma decrement_keeps : always keeps decrement_filter.
Proof. apply set_filter_keeps. Qed.
#[local] Hint Resolve next_inner_read_keeps filter_next_keeps decrement_keeps : always.

Lemma filter_read_keeps fuel : always keeps (filter_read_loop find fuel).
Proof. induction fuel as [|fuel IH]; cbn [filter_read_loop]; frames. Qed.
Lemma unpad_next_keeps l : always keeps (unpad_next l).
Proof. intros s s' r. unfold unpad_next. destruct (unpad _ _) as [u x]. intros [= <- <-]. by split_and!. Qed.
Lemma take_outer_keeps : always keeps take_outer.
Proof. unfold take_outer. frames. Qed.
Lemma append_pending_keeps l : always keeps (append_pending l).
Proof. apply mod_rd_keeps. Qed.
#[local] Hint Resolve filter_read_keeps unpad_next_keeps take_outer_keeps append_pending_keeps : always.

Lemma end_records_keeps fuel d : always keeps (end_records_loop fuel d).
Proof. revert d. induction fuel as [|fuel IH]; intros d; cbn [end_records_loop]; frames. Qed.
#[local] Hint Resolve end_records_keeps : always.

Lemma handle_padded_keeps l : always keeps (handle_padded_bytes find l).
Proof. unfold handle_padded_bytes, switch_read_to_direct_mode, switch_read_to_tls_mode. frames. Qed.
Lemma take_pending_keeps n : always keeps (take_pending n).
Proof. unfold take_pending. frames. Qed.
Lemma with_outer_keeps {A} (f : TlsDeframer → TlsDeframer * tls A) : always keeps (with_outer f).
Proof. intros s s' r. unfold with_outer. destruct (outer_read_deframer (rd s)) as [d|]; [destruct (f d) as [d' x]|]; intros [= <- <-]; by split_and!. Qed.
#[local] Hint Resolve handle_padded_keeps take_pending_keeps with_outer_keeps : always.

Lemma poll_bind_keeps {A B} (p : vpolls A) (f : A → vpolls B) : always keeps p → (∀ a, always keeps (f a)) → always keeps (poll_bind p f).
Proof. intros Hp Hf. unfold poll_bind. frames. Qed.
Lemma feed_outer_keeps l : always keeps (feed_outer l).
Proof. apply with_outer_keeps. Qed.
Lemma read_tcp_keeps : always keeps read_tcp.
Proof. unfold read_tcp. frames. Qed.
Lemma response_records_keeps l : always keeps (response_records l).
Proof. induction l as [|x l IH]; cbn [response_records]; frames. Qed.
#[local] Hint Resolve poll_bind_keeps feed_outer_keeps read_tcp_keeps response_records_keeps : always.

Lemma read_response_keeps fuel : always keeps (read_response_loop fuel).
Proof. induction fuel as [|fuel IH]; cbn [read_response_loop]; [frames|]. apply poll_bind_keeps; [frames|]. intros l. frames. Qed.
Lemma read_tls_loop_keeps fuel room : always keeps (read_tls_loop fuel room).
Proof. induction fuel as [|fuel IH]; cbn [read_tls_loop]; [frames|]. apply poll_bind_keeps; [frames|]. intros l. frames. Qed.
#[local] Hint Resolve read_response_keeps read_tls_loop_keeps : always.

Lemma poll_read_tls_keeps room : always keeps (poll_read_tls room).
Proof. unfold poll_read_tls. frames. Qed.
#[local] Hint Resolve poll_read_tls_keeps : always.

Lemma read_in_mode_keeps room m : always keeps m → always keeps (read_in_mode room m).
Proof. intros Hm. unfold read_in_mode. frames. Qed.
Lemma pending_or_keeps room m : always keeps m → always keeps (pending_or room m).
Proof. intros Hm. unfold pending_or. frames. Qed.
#[local] Hint Resolve read_in_mode_keeps pending_or_keeps : always.

Lemma padded_records_keeps fuel room : always keeps (padded_records_loop find fuel room).
Proof. induction fuel as [|fuel IH]; cbn [padded_records_loop]; frames. Qed.
#[local] Hint Resolve padded_records_keeps : always.

Lemma read_padding_keeps fuel room : always keeps (read_padding_loop find fuel room).
Proof. induction fuel as [|fuel IH]; cbn [read_padding_loop]; [frames|]. apply poll_bind_keeps; [frames|]. intros l. frames. Qed.
#[local] Hint Resolve read_padding_keeps : always.

Lemma poll_read_padding_keeps room : always keeps (poll_read_padding_tls find room).
Proof. unfold poll_read_padding_tls. frames. Qed.
#[local] Hint Resolve poll_read_padding_keeps : always.

Lemma vpoll_read_keeps room : always keeps (vpoll_read find room).
Proof. unfold vpoll_read, poll_read_vless_response. apply pending_or_keeps. frames. Qed.
End frames.

(** ** The operations *)
Inductive vision_operation := VWrite (l : bytes) | VFlush | VRead (room : nat) | VShutdown.

Section operations.
Context `{CryptoLaws} (find : bytes → option nat) (rng : nat → Rng) (key : AeadKey) (iv base header user : bytes).
Hypothesis Hfind : finds_first find.
Hypothesis Hrng : ∀ n, rng_ok (rng n).
Hypothesis Hiv : length iv = 12.

Abbreviation vw := (vwrites key iv base header user).
Abbreviation any := (λ _ : VisionStream, True).

Lemma vpoll_write_ok total accepted buf : (Z.of_nat (length buf) ≤ MAX_WRITE)%Z →
  judged total (λ s, vw accepted s ∧ (total = true → last_look s = false)) (vpoll_write find rng buf) (wrote key iv base header user accepted buf) any.
Proof.
  intros Hb. apply judged_at. intros s0 [Hv Hl]. unfold vpoll_write. eapply judged_run; [reflexivity|]. pose proof Hv as Hv'. unfold vwrites in Hv'. destruct (write_mode (wr s0)) eqn:Em.
  - pose proof (poll_write_padding_ok find rng key iv base header user Hfind Hrng Hiv total accepted buf Hb) as Hw. destruct total; intros s s' r ->; by apply Hw.
  - apply judged_of_triple. eapply triple_conseq; [by apply (poll_write_tls_ok key iv base header user Hiv accepted)|by intros s ->|done|done].
  - apply judged_of_triple. eapply triple_conseq; [by apply (poll_write_direct_ok key iv base header user Hiv accepted)|by intros s ->|done|done].
Qed.

(** Nothing of what was given to the session waits. *)
Definition all_sent (s : VisionStream) : Prop := wants_write (vconn s) = false.

Lemma on_vtcp_same {A} (p : polls Transport A) (P : VisionStream → Prop) : (∀ t t' r, p t = (t', r) → received t' = received t ∧ tcp_sent t' = tcp_sent t ∧ no_panic r) →
  (∀ s t, P s → tcp_sent t = tcp_sent (vtcp s) → P (set_link (t, vconn s) s)) → triple P (on_vtcp p) (λ _, P) P.
Proof.
  intros Hp HP s s' r Hs. unfold on_vtcp, on_vlink, on_fst. specialize (HP s). unfold vtcp, vconn in *. destruct (vlink s) as [t c] eqn:El. destruct (p t) as [t' r'] eqn:E. destruct (Hp _ _ _ E) as (_ & Es & Hn). intros [= <- <-].
  cbn [fst snd] in HP. destruct r'; [by apply HP|by apply HP|done].
Qed.

Lemma vwrites_tcp a s t : vw a s → tcp_sent t = tcp_sent (vtcp s) → vw a (set_link (t, vconn s) s).
Proof.
  intros Hs Ht. unfold vwrites, owes, sent_direct, control in *. cbn [wr user_uuid set_link vfilter]. change (vtcp (set_link (t, vconn s) s)) with t. change (vconn (set_link (t, vconn s) s)) with (vconn s). by rewrite Ht.
Qed.

Lemma vpoll_flush_ok accepted : triple (vw accepted) vpoll_flush (λ o s, vw accepted s ∧ (o = Some tt → all_sent s)) any.
Proof.
  assert (∀ P : Prop, triple (λ s, vw accepted s ∧ all_sent s) (on_vtcp tcp_poll_flush) (λ o s, vw accepted s ∧ (o = Some tt → all_sent s)) any) as Hflush.
  { intros _. eapply triple_conseq; [apply (on_vtcp_same _ (λ s, vw accepted s ∧ all_sent s) tcp_poll_flush_same)|done|intros o s [Hs Ha]; by split|done]. intros s t [Hs Ha] Ht. split; [by apply vwrites_tcp|exact Ha]. }
  apply triple_at. intros s0 Hv. unfold vpoll_flush. eapply triple_run; [reflexivity|]. pose proof Hv as Hv'. unfold vwrites in Hv'. destruct (write_mode (wr s0)) eqn:Em.
  - destruct (control s0) as [[f b] flt] eqn:Ek. destruct Hv' as (Hf & Hb & out & Ho & ->). unfold poll_bind.
    eapply triple_bind; [eapply triple_conseq; [apply (drain_padding_ok key iv base header user Hiv (final_state b) out PaddingTls (f, b, flt))|by intros s ->|intros o s Hs; exact Hs|done]|].
    intros [[]|]; [eapply triple_conseq; [apply (Hflush True)| |done|done]|apply triple_ret]; intros s [Hs Hn]; (split; [by eapply sending_vwrites|]); [by apply Hn|done].
  - unfold poll_bind, drain_all_writes_tls.
    eapply triple_bind; [eapply triple_run; [reflexivity|]; eapply triple_conseq; [apply (drain_tls_ok key iv base header user Hiv (mret tt) write_zero (VDone End) accepted Tls (control s0) False)|by intros s ->|intros o s Hs; exact Hs|done]; [intros n; by apply triple_ret|by apply triple_fail]|].
    assert (∀ s, sending key iv base header user [] (VDone End) accepted Tls (control s0) s → vw accepted s) as Hback by (intros s [[Ho Hm] _]; unfold vwrites; by rewrite Hm).
    intros [[]|]; [eapply triple_conseq; [apply (Hflush True)| |done|done]|apply triple_ret]; intros s [Hs Hn]; (split; [by apply Hback|]); [|done]. by destruct (Hn eq_refl) as [?|[]].
  - eapply triple_conseq; [apply (Hflush True)| |done|done]. intros s ->. split; [done|]. by destruct Hv' as (? & ? & ? & ? & _ & _ & ? & _).
Qed.

Lemma vpoll_shutdown_ok accepted : triple (vw accepted) vpoll_shutdown (λ _, vw accepted) any.
Proof.
  unfold vpoll_shutdown. eapply triple_conseq; [apply (on_vtcp_same _ (vw accepted) tcp_poll_shutdown_same)|done|done|done]. intros s t. apply vwrites_tcp.
Qed.

Lemma keeps_owes owed st out s s' : owes key iv base header user owed st out s → keeps s s' → owes key iv base header user owed st out s'.
Proof.
  intros (given & Hw & Hd & Hr & Hp) (K1 & K2 & K3 & K4 & K5 & _). unfold writer_view in K4. injection K4 as _ E2 E3 _ _. exists given. rewrite K2, K3, E2, E3. split_and!; try done; [|by apply K5].
  eapply writes_same_out; [exact Hw|]. apply K1. apply Hw.
Qed.

Lemma keeps_vwrites accepted s s' : vw accepted s → keeps s s' → vw accepted s'.
Proof.
  intros Hv Hk. pose proof Hk as (K1 & K2 & K3 & K4 & K5 & K6). unfold writer_view in K4. injection K4 as E1 E2 E3 E4 E5. unfold vwrites in *. rewrite E1. destruct (write_mode (wr s)) eqn:Em.
  - unfold control in *. rewrite K6, E4, E5 by done. destruct Hv as (Hf & Hb & out & Ho & ->). split_and!; try done. exists out. split; [by eapply keeps_owes|done].
  - by eapply keeps_owes.
  - destruct Hv as (sent & raw & given & out & Hs & Hw & Hd & Hdec & ->). pose proof (K1 (proj1 Hw)) as Hso. exists sent, raw, given, out. rewrite K2, K3, E2. split_and!; try done; [by eapply writes_same_out|].
    unfold wants_write in *. by destruct Hso as ((_ & _ & _ & -> & ->) & _).
Qed.

(** What was read, and what was accepted *)
Definition vision_operate (o : vision_operation) : vio (bytes * bytes) :=
  match o with
  | VWrite l => r ← vpoll_write find rng l; mret ([], take (default 0 r) l)
  | VFlush => _ ← vpoll_flush; mret ([], [])
  | VRead n => r ← vpoll_read find n; mret (default [] r, [])
  | VShutdown => _ ← vpoll_shutdown; mret ([], [])
  end.

Fixpoint vision_operate_all (l : list vision_operation) : vio (bytes * bytes) :=
  match l with
  | [] => mret ([], [])
  | o :: l => '(a, b) ← vision_operate o; '(c, d) ← vision_operate_all l; mret (a ++ c, b ++ d)
  end.

Definition op_fits (o : vision_operation) : Prop := match o with VWrite l => (Z.of_nat (length l) ≤ MAX_WRITE)%Z | _ => True end.

Lemma vision_operate_ok o accepted : op_fits o → ptriple (vw accepted) (vision_operate o) (λ p, vw (accepted ++ p.2)) any.
Proof.
  intros Ho s s' r Hs. destruct o as [l| |n|]; cbn [vision_operate]; intros [(s1 & x & E & [= <- <-])|[(e & E & ->)|[E ->]]]%act_bind_cases; try done; cbn [fst snd]; rewrite ?app_nil_r.
  - apply (vpoll_write_ok false accepted l Ho) in E; [by destruct E|by split].
  - by apply (vpoll_flush_ok accepted) in E as [Hv _].
  - eapply keeps_vwrites; [exact Hs|]. by eapply vpoll_read_keeps.
  - by apply (vpoll_shutdown_ok accepted) in E.
Qed.

Lemma vision_operate_all_ok l accepted : Forall op_fits l → ptriple (vw accepted) (vision_operate_all l) (λ p, vw (accepted ++ p.2)) any.
Proof.
  intros Hl. revert accepted. induction Hl as [|o l Ho _ IH]; intros accepted; cbn [vision_operate_all]; [apply ptriple_ret; intros s Hs; by rewrite app_nil_r|].
  eapply ptriple_bind; [by apply vision_operate_ok|]. intros [a b]. cbn [snd]. eapply ptriple_bind; [apply IH|]. intros [c d]. apply ptriple_ret. intros s Hs. cbn [snd] in *. by rewrite app_assoc.
Qed.
End operations.
