(* ===== verification/VlessClient.v ===== *)
(** * VlessClient: the client of [prototype/vless/src/lib.rs]

    Its configuration, the connection set-ups for TCP and UDP, and the handles it gives
    out, over the Reality stream, the Vision stream and the request header; and the
    theorem that puts the layers together: what the application writes is what a server
    that opens the records, parses the request and unpads the framing reads. Parsing a
    UUID and base64 are parameters; dialling is the transport that is given. *)
From Stdlib Require Import ZArith Lia Strings.Byte Ascii String.
From stdpp Require Import base list numbers option strings.
From S2P Require Import Prelude Net Wire SlideBuffer AeadStream RealityRecords RealityMessages RealityKeys RealityClient RealitySession Transport RealityStream RealityDuplex RealityConnect TlsRecords TlsHello Vision Vless VisionStream VisionDuplex VisionDelivery.
Import Machine.
Local Open Scope nat_scope.

Record ClientConfig := { cfg_server : bytes; cfg_port : Z; cfg_uuid : bytes; cfg_server_name : bytes; cfg_public_key : bytes; cfg_short_id : bytes }.
Record Client := { server : bytes; server_port : Z; user_id : bytes; sni : bytes; client_public_key : bytes; client_short_id : bytes }.

Definition config_error (text : string) : Error := mk_error "outbound-config" text.

Definition try_new (parse_uuid base64_decode : bytes → option bytes) (config : ClientConfig) : outcome Error Client :=
  uuid ← ok_or (parse_uuid (cfg_uuid config)) (config_error "failed parsing VLESS UUID: {error}");
  if bool_decide (cfg_server_name config = []) then Err (config_error "VLESS Reality server_name is required")
  else
    match decode_public_key base64_decode (cfg_public_key config) with
    | Panic => Panic
    | Err _ => Err (config_error "failed decoding VLESS Reality public_key: {error}")
    | Ok public_key =>
        match decode_short_id (cfg_short_id config) with
        | Panic => Panic
        | Err _ => Err (config_error "failed decoding VLESS Reality short_id: {error}")
        | Ok short_id =>
            Ok {| server := cfg_server config; server_port := cfg_port config; user_id := uuid; sni := cfg_server_name config;
                  client_public_key := public_key; client_short_id := short_id |}
        end
    end.

(** ** Awaiting

    A future ends with a value, with an error, or stays pending ([None]). *)
Abbreviation future A := (outcome Error (option A)).
Definition and_then {A B} (m : future A) (f : A → future B) : future B := o ← m; match o with Some a => f a | None => Ok None end.

(** A future of [IO] on a stream, with its error replaced *)
Definition awaited {S A} (e : Error) (m : S * outcome IoError (option A)) : future S :=
  match m with
  | (s, Ok (Some _)) => Ok (Some s)
  | (_, Ok None) => Ok None
  | (_, Err _) => Err e
  | (_, Panic) => Panic
  end.

Lemma and_then_Some {A B} (m : future A) (f : A → future B) b : and_then m f = Ok (Some b) → ∃ a, m = Ok (Some a) ∧ f a = Ok (Some b).
Proof. unfold and_then. intros (o & -> & Ho)%outcome_bind_Ok_inv. destruct o as [a|]; [by exists a|done]. Qed.

Lemma awaited_Some {S A} e (m : S * outcome IoError (option A)) s : awaited e m = Ok (Some s) → ∃ a, m = (s, Ok (Some a)).
Proof. unfold awaited. destruct m as [s' [[a|]|e'|]]; try done. intros [= ->]. by exists a. Qed.

Section client.
Context `{Crypto}.

Definition stream_write_all (l : bytes) : polls RealityStream unit := s ← get; write_all_loop poll_write (2 + answers_left (tcp s)) l.
Definition stream_flush : polls RealityStream unit := s ← get; await (answers_left (tcp s)) poll_flush.

Definition reality_config (c : Client) : RealityClientConfig :=
  {| public_key := client_public_key c; short_id := client_short_id c; server_name := sni c; cipher_suites := [] |}.

(** What a connection takes from outside: its two buffers, its secrets and the clock *)
Record Seed := { memory_cipher : bytes; memory_plain : bytes; private : bytes; random : bytes; now : option Z }.
Definition connect_reality (c : Client) (x : Seed) (io : Transport) : future RealityStream :=
  connect_reality_with_io (reality_config c) (memory_cipher x) (memory_plain x) (private x) (random x) (now x) io.

Definition connect_tcp_with_io (c : Client) (x : Seed) (target : SocketAddr) (io : Transport) : future VisionStream :=
  and_then (connect_reality c x io) (λ stream,
    header ← tcp_request_header (user_id c) (target_socket target);
    and_then (awaited (mk_error "outbound-write" "failed writing VLESS TCP request: {error}") (stream_write_all header stream)) (λ stream,
    and_then (awaited (mk_error "outbound-write" "failed flushing VLESS TCP request: {error}") (stream_flush stream)) (λ stream,
      match new_client (tcp stream, new_reality_client (conn stream)) (user_id c) with Ok v => Ok (Some v) | _ => Panic end))).

Definition connect_udp_with_reality (c : Client) (target : SocketAddr) (stream : RealityStream) : future RealityStream :=
  header ← udp_request_header (user_id c) (target_socket target);
  and_then (awaited (mk_error "outbound-write" "failed writing VLESS UDP request: {error}") (stream_write_all header stream)) (λ stream,
    awaited (mk_error "outbound-write" "failed flushing VLESS UDP request: {error}") (stream_flush stream)).

(** The reader waits for the response header: the flag of [Vless.read_datagram]. *)
Definition connect_udp_with_io (c : Client) (x : Seed) (target : SocketAddr) (io : Transport) : future (RealityStream * bool) :=
  and_then (connect_reality c x io) (λ stream,
  and_then (connect_udp_with_reality c target stream) (λ stream, Ok (Some (stream, true)))).
End client.

(** ** TcpWriter and TcpReader *)
Section handles.
Context `{Crypto} (find : bytes → option nat) (rng : nat → Rng).

Definition vision_write_all (l : bytes) : vpolls unit := s ← get; write_all_loop (vpoll_write find rng) (1 + length l + answers_left (vtcp s)) l.
Definition vision_flush : vpolls unit := s ← get; await (answers_left (vtcp s)) vpoll_flush.

Definition tcp_writer_write_all (payload : bytes) (stream : VisionStream) : future VisionStream :=
  and_then (awaited (mk_error "outbound-write" "failed writing VLESS TCP payload: {error}") (vision_write_all payload stream)) (λ stream,
    awaited (mk_error "outbound-write" "failed flushing VLESS TCP payload: {error}") (vision_flush stream)).

Definition tcp_writer_shutdown (stream : VisionStream) : future VisionStream :=
  awaited (mk_error "outbound-write" "failed shutting down VLESS TCP stream: {error}") (await (answers_left (vtcp stream)) vpoll_shutdown stream).

Definition tcp_reader_read (room : nat) (stream : VisionStream) : VisionStream * future bytes :=
  let '(s, r) := await (answers_left (vtcp stream)) (vpoll_read find room) stream in
  (s, match r with Ok o => Ok o | Err _ => Err (mk_error "outbound-read" "failed reading VLESS TCP payload: {error}") | Panic => Panic end).
End handles.

(** ** Configuration *)
Lemma decode_pairs_length k hex l : length hex = k * 2 → decode_hex_pairs hex = Ok l → length l = k.
Proof.
  revert hex l. induction k as [|k IH]; intros [|a [|b hex]] l; cbn [length]; try lia; [by intros _ [= <-]|]. intros Hl. cbn [decode_hex_pairs].
  intros (high & _ & (low & _ & (l' & Hx & [= <-])%outcome_bind_Ok_inv)%outcome_bind_Ok_inv)%outcome_bind_Ok_inv. cbn [length]. f_equal. apply (IH hex); [lia|done].
Qed.

Lemma short_id_length hex l : decode_short_id hex = Ok l → length l = 8.
Proof.
  unfold decode_short_id, decode_hex_to_slice. destruct (_ <? _); [done|]. destruct (Nat.eqb_spec (length (pad_right 16 hex)) (8 * 2)) as [Hl|Hl]; cbn [negb]; [|done].
  destruct (decode_hex_pairs _) as [x| |] eqn:E; [|done..]. intros [= <-]. by apply (decode_pairs_length 8 (pad_right 16 hex)).
Qed.

Lemma try_new_ok parse_uuid base64_decode config c : try_new parse_uuid base64_decode config = Ok c →
  parse_uuid (cfg_uuid config) = Some (user_id c) ∧ length (client_public_key c) = 32 ∧ length (client_short_id c) = 8 ∧ sni c = cfg_server_name config ∧ sni c ≠ [] ∧
  server c = cfg_server config ∧ server_port c = cfg_port config.
Proof.
  unfold try_new. intros (uuid & Hu%ok_or_Ok & Hx)%outcome_bind_Ok_inv. destruct (bool_decide_reflect (cfg_server_name config = [])); [done|].
  destruct (decode_public_key _ _) as [pk| |] eqn:Ep; [|done..]. destruct (decode_short_id _) as [sid| |] eqn:Es; [|done..]. injection Hx as <-. cbn. split_and!; try done; [|by eapply short_id_length].
  unfold decode_public_key, decode_key in Ep. apply outcome_bind_Ok_inv in Ep as (d & _ & Ep). destruct (Nat.eqb_spec (length d) 32); cbn [negb] in Ep; [|done]. by injection Ep as <-.
Qed.

(** ** The server

    What it makes of the application data: the request must be of the user, for TCP with
    the Vision flow; behind it come the UUID once more, and padded packets. *)
Definition server_reads (user data : bytes) : option (TargetAddress * vstate * bytes) :=
  '(u, addon, cmd, target, rest) ← parse_vless_request data;
  if bool_decide (u = user) && bool_decide (addon = vision_flow_addon_data) && (cmd =? COMMAND_TCP)%Z then
    match rest with
    | [] => Some (target, VCommand, [])
    | _ =>
        '(id, l) ← read_exact 16 rest;
        if bool_decide (id = user) then '(st, out) ← vrun VCommand l; Some (target, st, out) else None
    end
  else None.

Lemma server_reads_decodes user uuid target header first given st out : length user = 16 → wf_target target → tcp_request_header user target = Ok header →
  decodes user uuid first given st out → server_reads user (header ++ given) = Some (target, st, out).
Proof.
  intros Hu Ht Hh Hd. unfold server_reads, tcp_request_header in *. rewrite (request_parses user COMMAND_TCP vision_flow_addon_data target header given Hu); [|by vm_compute|done|done]. cbn [mbind option_bind].
  rewrite !bool_decide_eq_true_2 by done. rewrite Z.eqb_refl. cbn [andb]. destruct Hd as [-> Hd]. destruct first; [by destruct Hd as (-> & -> & ->)|]. destruct Hd as (l & -> & Hl).
  rewrite (read_exact_app 16 user l Hu). cbn [mbind option_bind]. rewrite bool_decide_eq_true_2 by done. rewrite Hl. destruct user; [done|]. done.
Qed.

(** What was [sent] behind [base]: records that open from number 0 and carry [data], and
    then [raw]. *)
Definition on_the_wire `{Crypto} (key : AeadKey) (iv base sent data raw : bytes) : Prop := ∃ wire, sent = base ++ wire ++ raw ∧ carries key iv wire data.

Section set_up.
Context `{CryptoLaws} (rkey wkey : AeadKey) (riv wiv base_in base_out : bytes).
Hypothesis Hwiv : length wiv = 12.
Abbreviation dup t g := (λ s, duplex rkey wkey riv wiv base_in base_out t g s ∧ mode s = Stream).
Abbreviation any := (λ _ : RealityStream, True).

Lemma stream_write_all_ok t g l : triple (dup t g) (stream_write_all l) (λ o s, o = Some tt ∧ dup t (g ++ l) s) any.
Proof.
  unfold stream_write_all. apply triple_get. intros s0 _. cbn [Nat.add write_all_loop]. destruct (bool_decide_reflect (l = [])) as [->|Hl]; [apply triple_ret; intros s [_ Hs]; by rewrite app_nil_r|].
  eapply triple_bind; [eapply triple_conseq; [by apply (poll_write_ok rkey wkey riv wiv base_in base_out Hwiv t g Stream l)|by intros s [_ Hs]|intros o s Hs; exact Hs|done]|].
  intros o s s' r (-> & Hs). destruct (length l) as [|n] eqn:En; [by destruct l|]. rewrite <- En, drop_all, bool_decide_eq_true_2 by done. by intros [= <- <-].
Qed.

Lemma await_rule {S A} (P X : S → Prop) (Q : A → S → Prop) (p : polls S A) fuel : triple P p (λ o s, P s ∧ ∀ a, o = Some a → Q a s) X → triple P (await fuel p) (λ o s, P s ∧ ∀ a, o = Some a → Q a s) X.
Proof.
  intros Hp. induction fuel as [|fuel IH]; cbn [await]; (eapply triple_bind; [exact Hp|]); (intros [a|]; [apply triple_ret; intros s Hs; split; [apply Hs|]; intros b [= <-]; by apply Hs|]).
  - by apply triple_ret.
  - eapply triple_conseq; [exact IH|by intros s [Hs _]|done|done].
Qed.

Lemma stream_flush_ok t g : triple (dup t g) stream_flush (λ o s, dup t g s ∧ ∀ a, o = Some a → wants_write (conn s) = false) any.
Proof.
  unfold stream_flush. apply triple_get. intros s0 _. eapply triple_conseq; [apply (await_rule (dup t g) any (λ (_ : unit) s, wants_write (conn s) = false))|by intros s [_ Hs]|done|done].
  eapply triple_conseq; [apply (poll_flush_ok rkey wkey riv wiv base_in base_out Hwiv t g Stream)|done| |done]. intros o s [Hs Hd]. split; [done|]. intros [] E. by apply Hd.
Qed.
End set_up.

(** ** What an observer of the transport sees *)
Section view.
Context `{CryptoLaws} (key : AeadKey) (iv base user header : bytes) (target : TargetAddress).
Hypothesis Huser : length user = 16.
Hypothesis Htarget : wf_target target.
Hypothesis Hheader : tcp_request_header user target = Ok header.

(** The records sent, with those that are ready, carry [data]; [waiting] is not sealed yet;
    [raw] went over the transport as it is; [held] waits in the deframer. What a server
    reads, what is held and what went raw are the bytes that were [accepted]. *)
Definition delivered (accepted : bytes) (complete : Prop) (s : VisionStream) : Prop := ∃ sent wire later data waiting raw st out held,
  tcp_sent (vtcp s) = sent ++ raw ∧ sent ++ later = base ++ wire ∧ carries key iv wire data ∧ server_reads user (data ++ waiting) = Some (target, st, out) ∧
  accepted = out ++ held ++ raw ∧ (raw = [] ∨ st = VDone Direct ∧ held = [] ∧ later = [] ∧ waiting = []) ∧
  (held ≠ [] → write_mode (wr s) = PaddingTls ∧ (Z.of_nat (length held) < 18437)%Z) ∧ (complete → later = [] ∧ waiting = []).

Lemma writes_carry sent given c : writes key iv base sent given false c → ∃ wire data, sent ++ ciphertext_write_buf c = base ++ wire ∧ carries key iv wire data ∧ data ++ plaintext_write_buf c = given.
Proof. intros (_ & _ & _ & _ & wire & apps & ends & H5 & H6 & _ & H8 & ->). exists wire, (app_payload apps). split_and!; try done. exists apps, (write_seq c). rewrite app_nil_r in H6. by split. Qed.

Lemma vwrites_delivered accepted s : vwrites key iv base header user accepted s → delivered accepted (all_sent s) s.
Proof.
  intros Hv.
  assert (∀ sent raw given st out held, tcp_sent (vtcp s) = sent ++ raw → writes key iv base sent (header ++ given) false (vconn s) → decodes user (user_uuid s) (write_first_packet (wr s)) given st out →
    accepted = out ++ held ++ raw → (raw = [] ∨ st = VDone Direct ∧ held = [] ∧ all_sent s) → (held ≠ [] → write_mode (wr s) = PaddingTls ∧ (Z.of_nat (length held) < 18437)%Z) → delivered accepted (all_sent s) s) as Hgo.
  { intros sent raw given st out held Hs Hw Hd Ha Hraw Hheld. destruct (writes_carry _ _ _ Hw) as (wire & data & E1 & E2 & E3).
    exists sent, wire, (ciphertext_write_buf (vconn s)), data, (plaintext_write_buf (vconn s)), raw, st, out, held. split_and!; try done.
    - rewrite E3. by eapply server_reads_decodes.
    - destruct Hraw as [|(H1 & H2 & H3%wants_nothing)]; [by left|right]. by destruct H3.
    - by intros H3%wants_nothing. }
  unfold vwrites in Hv. destruct (write_mode (wr s)) eqn:Em.
  - destruct (control s) as [[f b] flt]. destruct Hv as (Hf & _ & out & (given & Hw & Hd & _) & ->). rewrite app_nil_r in Hd.
    eapply (Hgo (tcp_sent (vtcp s)) [] given _ out (remaining_data f)); [by rewrite app_nil_r|done|done|by rewrite app_nil_r|by left|]. intros _. split; [done|]. by apply held_back_short.
  - destruct Hv as (given & Hw & Hd & _). rewrite app_nil_r in Hd. eapply (Hgo (tcp_sent (vtcp s)) [] given _ accepted []); [by rewrite app_nil_r|done|done|by rewrite app_nil_r|by left|done].
  - destruct Hv as (sent & raw & given & out & Hs & Hw & Hn & Hd & ->). eapply (Hgo sent raw given _ out []); [done|done|done|done|by right|done].
Qed.
End view.

Lemma authenticated_same `{Crypto} hello private auth c c' : app_read_key c' = app_read_key c → app_read_iv c' = app_read_iv c → app_write_key c' = app_write_key c → app_write_iv c' = app_write_iv c →
  authenticated hello private auth c → authenticated hello private auth c'.
Proof. unfold authenticated. by intros -> -> -> ->. Qed.

Lemma duplex_keys `{CryptoLaws} rkey wkey riv wiv base_in base_out t g s : duplex rkey wkey riv wiv base_in base_out t g s →
  app_read_key (conn s) = Some rkey ∧ app_read_iv (conn s) = Some riv ∧ app_write_key (conn s) = Some wkey ∧ app_write_iv (conn s) = Some wiv.
Proof. intros [(_ & R1 & R2 & _) (_ & W1 & W2 & _)]. by split_and!. Qed.

(** The Vision stream starts where the request was sent. *)
Lemma connected_vision `{CryptoLaws} c x target io v :
  length (client_short_id c) = 8 → length (memory_cipher x) = CIPHERTEXT_READ_BUF_CAPACITY → length (memory_plain x) = PLAINTEXT_READ_BUF_CAPACITY → length (random x) = 32 →
  connect_tcp_with_io c x target io = Ok (Some v) →
  ∃ hello shared auth wkey wiv base header,
    agree (private x) (client_public_key c) = Some shared ∧ derive_auth_key shared (take 20 (random x)) REALITY_INFO = Ok auth ∧ authenticated hello (private x) auth (vconn v) ∧
    app_write_key (vconn v) = Some wkey ∧ app_write_iv (vconn v) = Some wiv ∧ length wiv = 12 ∧
    tcp_request_header (user_id c) (target_socket target) = Ok header ∧ vwrites wkey wiv base header (user_id c) [] v.
Proof.
  intros Hsid Hmc Hmp Hr Hc. unfold connect_tcp_with_io in Hc.
  apply and_then_Some in Hc as (s0 & E0 & Hc). destruct (connected_duplex (reality_config c) _ _ _ _ _ _ _ Hmc Hmp Hr Hsid E0) as (hello & shared & auth & Hsh & Ha & Hau & _ & Hm & rkey & riv & wkey & wiv & base_in & _ & _ & _ & _ & Hwiv & Hd).
  apply outcome_bind_Ok_inv in Hc as (header & Eh & Hc). apply and_then_Some in Hc as (s1 & [u1 E1]%awaited_Some & Hc). apply and_then_Some in Hc as (s2 & [u2 E2]%awaited_Some & Hc).
  apply (stream_write_all_ok rkey wkey riv wiv base_in (tcp_sent (tcp s0)) Hwiv [] [] header) in E1 as (_ & Hd1); [|by split].
  apply (stream_flush_ok rkey wkey riv wiv base_in (tcp_sent (tcp s0)) Hwiv [] ([] ++ header)) in E2 as ((Hd2 & Hm2) & _); [|exact Hd1]. cbn [app] in Hd2. destruct (new_client _ _) as [v'| |] eqn:En; [|done..]. injection Hc as <-. injection En as <-.
  destruct (duplex_keys _ _ _ _ _ _ _ _ _ Hd) as (A1 & A2 & A3 & A4), (duplex_keys _ _ _ _ _ _ _ _ _ Hd2) as (B1 & B2 & B3 & B4).
  exists hello, shared, auth, wkey, wiv, (tcp_sent (tcp s0)), header. split_and!; try done; [eapply (authenticated_same _ _ _ (conn s0) (conn s2)); [congruence..|exact Hau]|].
  split; [split; [done|cbn; lia]|]. split; [done|]. exists []. split; [|done]. exists []. rewrite app_nil_r. destruct Hd2 as [_ Hw]. rewrite Hm2 in Hw. split_and!; try done.
Qed.

(** C17: Whatever the transport does and however the stream is used, with writes of up to 47098
    bytes and any reads, flushes and shutdowns between them: a connection that is set up
    is authenticated, and the server that opens its records reads the request of the user
    for the target and then, unpadded, the bytes that were accepted, in order, from their first on; missing at
    the end are only what was not sent yet and what the deframer holds back, up to 18436
    bytes, and that only while packets are padded. What goes over the
    bare transport does so behind all of the records, and behind the direct command. A
    flush that is done leaves nothing unsent but what the deframer holds back. A write accepts a part of its bytes, fails
    or has to wait, and it ends without a panic unless the last packet that the filter
    looks at would begin in bytes that an earlier write has accepted. *)
Theorem vision_client_delivers `{CryptoLaws} find rng parse_uuid base64_decode config c x target io v :
  finds_first find → (∀ n, rng_ok (rng n)) → (∀ t u, parse_uuid t = Some u → length u = 16) → wf_target (target_socket target) →
  length (memory_cipher x) = CIPHERTEXT_READ_BUF_CAPACITY → length (memory_plain x) = PLAINTEXT_READ_BUF_CAPACITY → length (random x) = 32 →
  try_new parse_uuid base64_decode config = Ok c → connect_tcp_with_io c x target io = Ok (Some v) →
  ∃ hello shared auth wkey wiv base,
    agree (private x) (client_public_key c) = Some shared ∧ derive_auth_key shared (take 20 (random x)) REALITY_INFO = Ok auth ∧ authenticated hello (private x) auth (vconn v) ∧
    app_write_key (vconn v) = Some wkey ∧ app_write_iv (vconn v) = Some wiv ∧
    ∀ ops v' taken accepted, Forall op_fits ops → vision_operate_all find rng ops v = (v', Ok (taken, accepted)) →
      delivered wkey wiv base (user_id c) (target_socket target) accepted (all_sent v') v' ∧
      (∀ v'' r, vpoll_flush v' = (v'', r) → no_panic r ∧ (r = Ok (Some tt) → delivered wkey wiv base (user_id c) (target_socket target) accepted True v'')) ∧
      (∀ l v'' r, (Z.of_nat (length l) ≤ MAX_WRITE)%Z → vpoll_write find rng l v' = (v'', r) →
         match r with Ok o => default 0 o ≤ length l | Err _ => True | Panic => last_look v' = true end).
Proof.
  intros Hfind Hrng Huuid Ht Hmc Hmp Hr Hnew Hc. destruct (try_new_ok _ _ _ _ Hnew) as (Hu%Huuid & _ & Hsid & _).
  destruct (connected_vision c x target io v Hsid Hmc Hmp Hr Hc) as (hello & shared & auth & wkey & wiv & base & header & Hsh & Ha & Hau & K1 & K2 & Hwiv & Eh & Hv).
  exists hello, shared, auth, wkey, wiv, base. do 5 (split; [done|]). intros ops v' taken accepted Hops Eo.
  apply (vision_operate_all_ok find rng wkey wiv base header (user_id c) Hfind Hrng Hwiv ops [] Hops) in Eo as Hv'; [|exact Hv]. cbn [app snd] in Hv'. split_and!.
  - by eapply vwrites_delivered.
  - intros v'' r E. apply (vpoll_flush_ok wkey wiv base header (user_id c) Hwiv accepted) in E; [|done]. destruct r as [o|e|]; [|by split|done]. split; [done|]. intros [= ->]. destruct E as [Hv'' Hall]. specialize (Hall eq_refl).
    eapply vwrites_delivered in Hv''; [|done..]. destruct Hv'' as (sent & wire & later & data & waiting & raw & st & out & held & V1 & V2 & V3 & V4 & V5 & V6 & V7 & V8).
    exists sent, wire, later, data, waiting, raw, st, out, held. split_and!; try done. intros _. by apply V8.
  - intros l v'' r Hl E. destruct (last_look v') eqn:Elook.
    + apply (vpoll_write_ok find rng wkey wiv base header (user_id c) Hfind Hrng Hwiv false accepted l Hl) in E; [|by split]. destruct r as [o|e|]; [apply E|done|done].
    + apply (vpoll_write_ok find rng wkey wiv base header (user_id c) Hfind Hrng Hwiv true accepted l Hl) in E; [|by split]. destruct r as [o|e|]; [apply E|done|done].
Qed.

(** ** A client under toy primitives, over a slow transport: data that is no TLS, in two
    writes, the second of which ends in what may become the start of a record *)
Definition demo_client_config : ClientConfig :=
  {| cfg_server := list_byte_of_string "203.0.113.7"; cfg_port := 443; cfg_uuid := list_byte_of_string "06060606-0606-0606-0606-060606060606"; cfg_server_name := list_byte_of_string "example.org";
     cfg_public_key := replicate 32 x01; cfg_short_id := list_byte_of_string "0202020202020202" |}.
Definition demo_parse_uuid (l : bytes) : option bytes := Some demo_uuid.
Definition demo_base64 (l : bytes) : option bytes := Some l.
Definition demo_client : Client :=
  {| server := list_byte_of_string "203.0.113.7"; server_port := 443; user_id := demo_uuid; sni := list_byte_of_string "example.org"; client_public_key := replicate 32 x01; client_short_id := replicate 8 x02 |}.
Definition demo_seed : Seed := {| memory_cipher := demo_memory; memory_plain := demo_memory; private := demo_private; random := demo_random; now := Some 1700000000%Z |}.
Definition demo_target : SocketAddr := {| sa_ip := V4 3221225985%Z; sa_port := 443; sa_scope := 0 |}.
Definition demo_io : Transport :=
  {| incoming := take 4 demo_arrivals; accepts := [Gives 100; Waits; Gives 4000; Gives 4000; Waits; Gives 10] ++ replicate 12 (Gives 4000); flushes := replicate 8 (Gives tt); closes := [Gives tt]; received := []; tcp_sent := [] |}.
Abbreviation demo_connect_tcp := (connect_tcp_with_io demo_client demo_seed demo_target demo_io).
Definition demo_vision : VisionStream := match demo_connect_tcp with Ok (Some v) => v | _ => new_common (demo_io, demo_c0) [] false false end.
Definition demo_vision_ops : list vision_operation := [VWrite (list_byte_of_string "GET / "); VRead 100; VFlush; VWrite ([x0d; x0a; x16; x03])].
Definition demo_accepted : bytes := list_byte_of_string "GET / " ++ [x0d; x0a; x16; x03].

Lemma demo_vision_connected : demo_connect_tcp = Ok (Some demo_vision).
Proof.
  assert (match demo_connect_tcp with Ok (Some _) => true | _ => false end = true) as H by (vm_compute; reflexivity). unfold demo_vision. destruct demo_connect_tcp as [[s|]|e|]; [reflexivity|discriminate H..].
Qed.

Definition demo_vision_end : VisionStream := (vision_operate_all first_pair (λ _, demo_rng) demo_vision_ops demo_vision).1.
Lemma demo_vision_operated : vision_operate_all first_pair (λ _, demo_rng) demo_vision_ops demo_vision = (demo_vision_end, Ok ([], demo_accepted)).
Proof.
  assert (match (vision_operate_all first_pair (λ _, demo_rng) demo_vision_ops demo_vision).2 with Ok (a, b) => bool_decide (a = []) && bool_decide (b = demo_accepted) | _ => false end = true) as H by (vm_compute; reflexivity).
  unfold demo_vision_end. destruct (vision_operate_all _ _ _ demo_vision) as [s [[a b]|e|]]; [|discriminate H..]. cbn [fst snd] in *. by bool_hyps; subst.
Qed.

Lemma vision_client_delivers_witness : ∃ wkey wiv base s, vpoll_flush demo_vision_end = (s, Ok (Some tt)) ∧
  delivered wkey wiv base demo_uuid (target_socket demo_target) demo_accepted True s.
Proof.
  destruct (vision_client_delivers first_pair (λ _, demo_rng) demo_parse_uuid demo_base64 demo_client_config demo_client demo_seed demo_target demo_io demo_vision)
    as (hello & shared & auth & wkey & wiv & base & _ & _ & _ & _ & _ & Hops);
    [exact first_pair_first|intros n; exact demo_rng_ok|by intros t u [= <-]|split; vm_compute; (split; [intros [=]|reflexivity])|exact demo_memory_length|exact (eq_trans demo_memory_length equal_capacities)|reflexivity|vm_compute; reflexivity|exact demo_vision_connected|].
  destruct (Hops demo_vision_ops demo_vision_end [] demo_accepted) as (_ & Hf & _); [repeat apply Forall_cons_2; try exact I; try (vm_compute; intros [=]); apply Forall_nil_2|exact demo_vision_operated|].
  assert ((vpoll_flush demo_vision_end).2 = Ok (Some tt)) as Hr by (apply is_ready_ok; vm_compute; reflexivity).
  destruct (Hf _ _ (run_snd _ _ Hr)) as [_ Hd]. exists wkey, wiv, base, (vpoll_flush demo_vision_end).1. split; [exact (run_snd _ _ Hr)|]. apply Hd. reflexivity.
Defined.

(** The writes that do panic: seven packets have gone; five bytes that are the header of an
    empty record are held back and counted as accepted; the byte that makes them a record
    ends the filter, and the record has nothing of the new bytes in it. *)
Definition is_panic {A} (r : outcome IoError A) : bool := match r with Panic => true | _ => false end.
Abbreviation demo_after l := (vision_operate_all first_pair (λ _, demo_rng) (replicate 7 (VWrite [x41]) ++ l) demo_vision).

Example held_record_panics : is_panic (demo_after [VWrite [x16; x03; x01; x00; x00]; VWrite [x01]]).2 = true ∧ is_panic (demo_after [VWrite [x16; x03; x01; x00; x00]]).2 = false.
Proof. split; vm_compute; reflexivity. Qed.

(** A prefix that is shorter than what is held back: the count of the bytes of this call
    underflows. *)
Example held_prefix_underflows : is_panic (demo_after [VWrite [x16; x03; x01; x16; x03]; VWrite [x03]]).2 = true ∧ is_panic (demo_after [VWrite [x16; x03; x01; x16; x03]]).2 = false.
Proof. split; vm_compute; reflexivity. Qed.
