(* ===== verification/IngressFields.v ===== *)
(** * IngressFields: what the inbound servers write about a session

    The field builders of [crates/dynet-ingress/src/lib.rs], [inbound.rs], [captured.rs],
    [socks/events.rs] and [dns.rs], and what [traffic_session.rs] reads back from them. The
    builders append to a vector of pairs; [into_fields] collects the pairs into a map, so the
    last value of a name counts. *)
From Stdlib Require Import ZArith Lia Strings.Byte Ascii String Sorting.Sorted.
From stdpp Require Import base list numbers option strings gmap sets.
From S2P Require Import Prelude Collections Net RustStd Model Stores Traffic MatrixStats Matrix Runtime DnsWire DnsResolve Bootstrap Observations ConfigData Egress Socks.
Local Open Scope string_scope.
Local Open Scope nat_scope.

(** [Vec<(&'static str, String)>] *)
Abbreviation Fields := (list (string * string)).

(** ** The builders of [lib.rs] *)
Definition push_endpoint_fields (prefix : string) (address : SocketAddr) : Fields :=
  let ip := ip_to_string (sa_ip address) in
  let port := to_string (sa_port address) in
  if String.eqb prefix "peer" then [("peerIp", ip); ("peerPort", port)]
  else if String.eqb prefix "upstream" then [("upstreamIp", ip); ("upstreamPort", port)]
  else if String.eqb prefix "target" then [("targetIp", ip); ("targetPort", port)]
  else if String.eqb prefix "source" then [("sourceIp", ip); ("sourcePort", port)]
  else [].

Definition session_fields (session_id : Z) (inbound node_protocol : string)
    (peer target upstream : SocketAddr) : Fields :=
  ([("sessionId", to_string session_id); ("inbound", inbound); ("nodeProtocol", node_protocol);
    ("peer", socket_to_string peer); ("target", socket_to_string target);
    ("upstream", socket_to_string upstream)]
   ++ push_endpoint_fields "peer" peer ++ push_endpoint_fields "target" target
   ++ push_endpoint_fields "upstream" upstream)%list.

(** [selectionTrace], [selectionGroups], [selectionNodes] *)
Definition trace_labels (d : SelectionDecision) : string := String.concat "|" (List.map hop_label (trace d)).
Definition trace_groups (d : SelectionDecision) : string := String.concat "," (List.map hop_group_id (trace d)).
Definition trace_nodes (d : SelectionDecision) : string := String.concat "," (List.map hop_node_id (trace d)).

Definition push_decision_fields (d : SelectionDecision) : Fields :=
  ([("decisionId", to_string (decision_id d)); ("configGeneration", to_string (config_generation d));
    ("groupId", decision_group_id d)]
   ++ match matched_rule_id d with Some rule => [("matchedRuleId", rule)] | None => [] end
   ++ [("nodeId", decision_node_id d); ("groupNext", next_label (decision_next d));
       ("selectionTrace", trace_labels d); ("selectionGroups", trace_groups d);
       ("selectionNodes", trace_nodes d); ("terminalEgress", terminal_label (terminal d));
       ("terminalKind", terminal_kind (terminal d)); ("selectionReason", reason_str (reason d));
       ("scheduler", scheduler_str (scheduler d));
       ("candidateCount", to_string (Z.of_nat (candidate_count d)));
       ("ipFamily", family_str (ip_family d))]
   ++ match ipv6_policy_source d with
      | Some p => [("ipv6Policy", "allow"); ("ipv6PolicySource", policy_source_str p)]
      | None => []
      end)%list.

Definition push_target_context_fields (t : TargetContext) : Fields :=
  ("targetSource", target_source_str (target_source t))
  :: match target_domain t with Some d => [("targetDomain", d)] | None => [] end.

(** ** The relay servers: [inbound.rs] *)
Definition TCP_INBOUND : string := "tcp".
Definition UDP_INBOUND : string := "udp".

(** The fields of a session with its decision, which most events start with. *)
Definition decided_fields (session_id : Z) (inbound node_protocol : string) (peer target upstream : SocketAddr)
    (context : TargetContext) (d : SelectionDecision) : Fields :=
  (session_fields session_id inbound node_protocol peer target upstream
   ++ push_target_context_fields context ++ push_decision_fields d)%list.

Record TcpRelayOutcome := {
  out_upstream : SocketAddr;
  client_to_upstream_bytes : Z;
  upstream_to_client_bytes : Z;
  out_close_reason : string;
}.

Record UdpRelayOutcome := { udp_out_upstream : SocketAddr; udp_out_close_reason : string }.

Definition tcp_outcome_fields (o : TcpRelayOutcome) : Fields :=
  [("clientToUpstreamBytes", to_string (client_to_upstream_bytes o));
   ("upstreamToClientBytes", to_string (upstream_to_client_bytes o));
   ("closeReason", out_close_reason o)].

Definition stage_fields (stage message : string) : Fields := [("errorStage", stage); ("error", message)].

Definition capacity_fields (message : string) (max_sessions : Z) : Fields :=
  (stage_fields "inbound-capacity" message ++ [("maxSessions", to_string max_sessions)])%list.

Definition datagram_fields (size : nat) : Fields :=
  [("direction", "client-to-upstream"); ("bytes", to_string (Z.of_nat size))].

Definition error_upstream (e : EgressError) (target : SocketAddr) : SocketAddr := default target (ee_upstream e).

Definition opt_decision_fields (d : option SelectionDecision) : Fields :=
  match d with Some d => push_decision_fields d | None => [] end.

Definition error_fields (session_id : Z) (inbound egress : string) (peer target : SocketAddr) (e : EgressError)
    (d : option SelectionDecision) : Fields :=
  (session_fields session_id inbound egress peer target (error_upstream e target)
   ++ opt_decision_fields d ++ Egress.egress_error_fields egress e)%list.

(** ** Captured sessions: [captured.rs] *)
Definition TUN_INBOUND : string := "tun".

Definition selection_error_fields (session_id : Z) (peer target : SocketAddr) (e : SelectionError) : Fields :=
  (session_fields session_id TUN_INBOUND "selection" peer target target
   ++ [("errorStage", "egress-select"); ("errorCode", err_code e);
       ("ipFamily", if is_ipv4 (sa_ip target) then "ipv4" else "ipv6")]
   ++ match err_matched_rule_id e with
      | Some rule => [("matchedRuleId", rule); ("ipv6Policy", "deny"); ("ipv6PolicySource", "rule")]
      | None => []
      end
   ++ [("error", err_message e)])%list.

Definition captured_error_fields (session_id : Z) (node_protocol : string) (peer target : SocketAddr)
    (context : TargetContext) (e : EgressError) (d : option SelectionDecision) : Fields :=
  (session_fields session_id TUN_INBOUND node_protocol peer target (error_upstream e target)
   ++ push_target_context_fields context ++ opt_decision_fields d
   ++ Egress.egress_error_fields node_protocol e
   ++ push_endpoint_fields "upstream" (error_upstream e target))%list.

(** ** SOCKS5 sessions: [socks/events.rs] *)
Definition SOCKS5_INBOUND : string := "socks5".

Definition push_destination_fields (d : SocksDestination) : Fields :=
  match dest_domain d with Some domain => [("targetDomain", text_of domain)] | None => [] end.

Definition socks_session_fields (session_id : Z) (node_protocol : string) (peer target : SocketAddr)
    (d : SocksDestination) : Fields :=
  (session_fields session_id SOCKS5_INBOUND node_protocol peer target target ++ push_destination_fields d)%list.

Definition socks_egress_error_fields (session_id : Z) (node_protocol : string) (peer target : SocketAddr)
    (dest : SocksDestination) (e : EgressError) (d : option SelectionDecision) : Fields :=
  (session_fields session_id SOCKS5_INBOUND node_protocol peer target (error_upstream e target)
   ++ push_destination_fields dest ++ opt_decision_fields d ++ Egress.egress_error_fields node_protocol e)%list.

Definition base_socks_fields (session_id : Z) (node_protocol : string) (peer : SocketAddr) : Fields :=
  ([("sessionId", to_string session_id); ("inbound", SOCKS5_INBOUND); ("nodeProtocol", node_protocol);
    ("peer", socket_to_string peer)] ++ push_endpoint_fields "peer" peer)%list.

(** The fields of [record_socks_error]. *)
Definition socks_error_fields (session_id : Z) (peer : SocketAddr) (e : SocksError) : Fields :=
  (base_socks_fields session_id "unknown" peer ++ stage_fields (socks_stage e) (socks_message e))%list.

(** ** DNS exchanges: [dns.rs] *)
Definition query_fields (peer : SocketAddr) (transport : string) (query : bytes) : Fields :=
  ([("peer", socket_to_string peer); ("transport", transport); ("bytes", to_string (Z.of_nat (length query)))]
   ++ push_endpoint_fields "peer" peer
   ++ match sniff_dns_query query with
      | Some i => [("transactionId", to_string (q_transaction_id i)); ("queryName", q_query_name i);
                   ("queryType", q_query_type i)]
      | None => []
      end)%list.

Definition dns_error_fields (peer : SocketAddr) (transport : string) (e : DnsResolveError) : Fields :=
  ([("peer", socket_to_string peer); ("transport", transport); ("error", message e)]
   ++ push_endpoint_fields "peer" peer)%list.

Definition opt_field (name : string) (o : option string) : Fields :=
  match o with Some v => [(name, v)] | None => [] end.

Definition response_info_fields (i : DnsResponseInfo) : Fields :=
  ([("transactionId", to_string (r_transaction_id i))]
   ++ opt_field "queryName" (r_query_name i) ++ opt_field "queryType" (r_query_type i)
   ++ match r_answer_ips i with
      | [] => []
      | ips => [("answerIps", String.concat "," (List.map ip_to_string ips))]
      end)%list.

Definition response_fields (peer : SocketAddr) (transport : string) (r : DnsResolution) : Fields :=
  ([("peer", socket_to_string peer); ("transport", transport);
    ("upstreamId", upstream_id (DnsResolve.upstream r));
    ("upstream", socket_to_string (upstream_address (DnsResolve.upstream r)));
    ("source", socket_to_string (source r)); ("bytes", to_string (Z.of_nat (length (response r))))]
   ++ push_endpoint_fields "peer" peer
   ++ push_endpoint_fields "upstream" (upstream_address (DnsResolve.upstream r))
   ++ push_endpoint_fields "source" (source r)
   ++ match opt_or (response_info r) (sniff_dns_response (response r)) with
      | Some i => response_info_fields i
      | None => []
      end
   ++ (if ipv6_filtered r then
         [("ipv6Policy", "deny"); ("ipv6PolicySource", "rule")]
         ++ opt_field "matchedRuleId" (resolution_rule_id r)
       else []))%list.
