(* ===== verification/IngressReport.v ===== *)
(** * IngressReport: reading back what the inbound servers write

    [session_update_from_event] takes apart the fields that the builders of IngressFields
    put together: the lemmas compute a field of a list of pairs without the map in between,
    and the update that an event with given fields is read as. *)
From Stdlib Require Import ZArith Lia Strings.Byte Ascii String Sorting.Sorted.
From stdpp Require Import base list numbers option strings gmap sets.
From S2P Require Import Prelude Collections Net RustStd Model Stores Traffic MatrixStats Matrix Runtime DnsWire DnsResolve Bootstrap Observations ConfigData Egress Socks IngressFields.
Local Open Scope string_scope.
Local Open Scope nat_scope.

(** The last value of a name. *)
Definition field (name : string) (l : Fields) : option string :=
  option_map snd (List.find (λ p, String.eqb p.1 name) (rev l)).

Lemma field_app name a b :
  field name (a ++ b)%list = match field name b with Some v => Some v | None => field name a end.
Proof.
  unfold field. rewrite rev_app_distr. induction (rev b) as [|p l IH]; [done|]. cbn.
  destruct (String.eqb p.1 name); [done|exact IH].
Qed.

Lemma field_cons name p l :
  field name (p :: l) = match field name l with Some v => Some v | None => field name [p] end.
Proof. apply (field_app name [p] l). Qed.

Lemma field_one name p : field name [p] = if String.eqb p.1 name then Some p.2 else None.
Proof. unfold field. cbn. by destruct (String.eqb p.1 name). Qed.

Lemma into_fields_lookup l name : into_fields l !! name = field name l.
Proof.
  unfold into_fields, btree_collect. induction l as [|p l IH] using rev_ind; [done|].
  rewrite fold_left_app, field_app, field_one. cbn. destruct (String.eqb_spec p.1 name) as [<-|Hne]; cbn.
  - by rewrite lookup_insert_eq.
  - by rewrite lookup_insert_ne.
Qed.

Lemma field_absent name l : name ∉ l.*1 → field name l = None.
Proof. intros Hn. rewrite <- into_fields_lookup. by apply btree_collect_None. Qed.

(** ** The update of an event *)
Definition update_at (k : IngressEventKind) (at_ : Z) (session_id : Z) (decision : option Z)
    (get : string → option string) : TrafficSessionUpdate :=
  let num n := match get n with Some v => parse_u64 v | None => None end in
  let inbound := default "unknown" (get "inbound") in
  {| up_session_key := session_key inbound session_id decision;
     up_session_id := session_id; up_decision_id := decision;
     up_config_generation := num "configGeneration"; up_inbound := inbound; up_observed_at := at_;
     up_node_protocol := get "nodeProtocol"; up_peer := get "peer"; up_target := get "target";
     up_target_ip := get "targetIp";
     up_target_port := match get "targetPort" with Some v => parse_uint 16 v | None => None end;
     up_target_domain := get "targetDomain"; up_target_source := get "targetSource";
     up_upstream := get "upstream"; up_selection_groups := get "selectionGroups";
     up_selection_nodes := get "selectionNodes"; up_selection_trace := get "selectionTrace";
     up_close_reason := get "closeReason"; up_error_stage := get "errorStage";
     up_error_code := get "errorCode"; up_error_class := get "errorClass"; up_error_side := get "errorSide";
     up_error_phase := get "errorPhase"; up_error_protocol_phase := get "errorProtocolPhase";
     up_error_score_impact := get "errorScoreImpact"; up_error := get "error";
     up_client_to_upstream_bytes := num "clientToUpstreamBytes";
     up_upstream_to_client_bytes := num "upstreamToClientBytes";
     up_client_to_upstream_datagram :=
       if bool_decide (get "direction" = Some "client-to-upstream") then num "bytes" else None;
     up_upstream_to_client_datagram :=
       if bool_decide (get "direction" = Some "upstream-to-client") then num "bytes" else None;
     up_closes_session := is_close_event k |}.

(** The session that an event names, whatever its kind. *)
Definition named_session (e : IngressEvent) : option Z :=
  match event_fields e !! "sessionId" with Some v => parse_u64 v | None => None end.

Definition names (session_id : Z) (l : Fields) : Prop := field "sessionId" l = Some (to_string session_id).

Lemma parse_u64_to_string z : in_u 64 z → parse_u64 (to_string z) = Some z.
Proof. intros Hz. apply parse_uint_to_string; [exact Hz|lia]. Qed.

Definition event_with (id at_ : Z) (k : IngressEventKind) (l : Fields) : IngressEvent :=
  {| event_id := id; event_at := at_; event_kind := k; event_fields := into_fields l |}.

Lemma named_session_of id at_ k l session_id :
  names session_id l → in_u 64 session_id → named_session (event_with id at_ k l) = Some session_id.
Proof. intros Hn Hs. unfold named_session. cbn. rewrite into_fields_lookup, Hn. by apply parse_u64_to_string. Qed.

Lemma update_of_event id at_ k l session_id decision :
  is_dns_event k = false → names session_id l → in_u 64 session_id →
  field "decisionId" l = option_map to_string decision → (∀ d, decision = Some d → in_u 64 d) →
  k ≠ UdpSessionStart ∨ decision ≠ None →
  session_update_from_event (event_with id at_ k l) = Some (update_at k at_ session_id decision (λ n, field n l)).
Proof.
  intros Hk Hn Hs Hd Hdr Hk'. unfold session_update_from_event, event_with. cbn [event_fields event_kind event_at].
  rewrite Hk, !into_fields_lookup, Hn. cbn [mbind option_bind]. rewrite (parse_u64_to_string session_id) by done.
  cbn [mbind option_bind].
  assert (match field "decisionId" l with Some v => parse_u64 v | None => None end = decision) as ->.
  { rewrite Hd. destruct decision as [d|]; cbn; [|done]. by apply parse_u64_to_string, Hdr. }
  unfold update_at. destruct k, decision; (reflexivity || (by destruct Hk')).
Qed.

(** ** Computing a field of a builder

    The names are constants, the values are not looked at. *)
Ltac field_blocks :=
  rewrite ?field_app;
  repeat match goal with
  | |- context [field ?n (session_fields ?a ?b ?c ?d ?e ?f)] =>
      let r := eval lazy [field session_fields push_endpoint_fields rev app List.find option_map fst snd String.eqb Ascii.eqb Bool.eqb]
        in (field n (session_fields a b c d e f)) in
      change (field n (session_fields a b c d e f)) with r
  end.

Lemma field_tail name a b : field name b = None → field name (a ++ b)%list = field name a.
Proof. intros H. by rewrite field_app, H. Qed.

Lemma field_last name a b v : field name b = Some v → field name (a ++ b)%list = Some v.
Proof. intros H. by rewrite field_app, H. Qed.

(** Names that no block after the first writes. *)
Definition session_names : list string := ["sessionId"; "inbound"; "nodeProtocol"; "peer"; "target"; "peerIp"; "peerPort"; "targetIp"; "targetPort"].

Ltac absent := let n := fresh in let H := fresh in
  intros n H; repeat (apply elem_of_cons in H as [->|H]); [..|by apply elem_of_nil in H].

Lemma decision_absent d name : name ∈ session_names → field name (push_decision_fields d) = None.
Proof.
  revert name. unfold push_decision_fields. absent; rewrite !field_app; by destruct (matched_rule_id d), (ipv6_policy_source d).
Qed.

Lemma context_absent c name : name ∈ session_names → field name (push_target_context_fields c) = None.
Proof. revert name. unfold push_target_context_fields. absent; by destruct (target_domain c). Qed.

Lemma egress_error_absent protocol e name : name ∈ session_names → field name (Egress.egress_error_fields protocol e) = None.
Proof.
  revert name. unfold Egress.egress_error_fields. cbv zeta. generalize (classify_egress_error protocol e). intros s.
  absent; rewrite !field_app; by destruct (ee_client_to_upstream_bytes e), (ee_upstream_to_client_bytes e).
Qed.

Lemma dest_absent d name : name ∈ session_names → field name (push_destination_fields d) = None.
Proof. revert name. unfold push_destination_fields. absent; by destruct (dest_domain d). Qed.

Lemma opt_decision_absent d name : name ∈ session_names → field name (opt_decision_fields d) = None.
Proof. destruct d; [apply decision_absent|done]. Qed.

(** ** Every event names its session *)
Lemma names_session s inbound protocol peer target up : names s (session_fields s inbound protocol peer target up).
Proof. reflexivity. Qed.

Lemma names_base s protocol peer : names s (base_socks_fields s protocol peer).
Proof. reflexivity. Qed.

Lemma names_app s a b : names s a → field "sessionId" b = None → names s (a ++ b)%list.
Proof. intros Ha Hb. unfold names. by rewrite field_tail. Qed.

Lemma tail_app a b : field "sessionId" a = None → field "sessionId" b = None → field "sessionId" (a ++ b)%list = None.
Proof. intros Ha Hb. by rewrite field_tail. Qed.

Lemma session_id_name : "sessionId" ∈ session_names.
Proof. apply list_elem_of_here. Qed.

Lemma endpoint_absent a : field "sessionId" (push_endpoint_fields "upstream" a) = None.
Proof. reflexivity. Qed.

Lemma upstream_tail v l : field "sessionId" l = None → field "sessionId" (("upstream", v) :: l) = None.
Proof. intros Hl. by rewrite field_cons, Hl. Qed.

Create HintDb ingress.

#[export] Hint Resolve names_session names_base names_app tail_app session_id_name endpoint_absent upstream_tail
  decision_absent context_absent egress_error_absent dest_absent opt_decision_absent : ingress.

Lemma names_decided s inbound protocol peer target up c d : names s (decided_fields s inbound protocol peer target up c d).
Proof. unfold decided_fields. auto 10 with ingress. Qed.

Lemma names_error s inbound protocol peer target e d : names s (error_fields s inbound protocol peer target e d).
Proof. unfold error_fields. auto 10 with ingress. Qed.

Lemma names_selection_error s peer target e : names s (selection_error_fields s peer target e).
Proof.
  unfold selection_error_fields. apply names_app; [auto with ingress|].
  apply tail_app; [done|]. apply tail_app; [|done]. by destruct (err_matched_rule_id e).
Qed.

Lemma names_captured_error s protocol peer target c e d : names s (captured_error_fields s protocol peer target c e d).
Proof. unfold captured_error_fields. auto 12 with ingress. Qed.

Lemma names_socks s protocol peer target dest : names s (socks_session_fields s protocol peer target dest).
Proof. unfold socks_session_fields. auto 10 with ingress. Qed.

Lemma names_socks_egress_error s protocol peer target dest e d :
  names s (socks_egress_error_fields s protocol peer target dest e d).
Proof. unfold socks_egress_error_fields. auto 12 with ingress. Qed.

Lemma names_socks_error s peer e : names s (socks_error_fields s peer e).
Proof. unfold socks_error_fields. auto with ingress. Qed.

#[export] Hint Resolve names_decided names_error names_selection_error names_captured_error names_socks
  names_socks_egress_error names_socks_error : ingress.
