(* ===== verification/Inbound.v ===== *)
(** * Inbound: the handlers of the inbound servers as programs

    [crates/dynet-ingress/src/inbound.rs], [captured.rs], [socks.rs] and [dns.rs]. A handler
    is a program over actions: the calls on the shared runtime, on the egress node and on
    the sockets, each with the type of its answer. Between two actions any other task may
    run, which InboundPool makes precise; a program says only what its task does. *)
From Stdlib Require Import ZArith Lia Strings.Byte Ascii String Sorting.Sorted.
From stdpp Require Import base list numbers option strings gmap sets.
From S2P Require Import Prelude Collections Net RustStd Model Stores Traffic MatrixStats Matrix Runtime DnsWire DnsResolve Bootstrap Observations ConfigData Egress Socks IngressFields.
Local Open Scope string_scope.
Local Open Scope nat_scope.

#[export] Instance sum_ip_eq : EqDecision IpAddr.
Proof. solve_decision. Defined.
#[export] Instance socket_eq : EqDecision SocketAddr.
Proof. solve_decision. Defined.
#[export] Instance ip_countable : Countable IpAddr :=
  inj_countable' (λ a, match a with V4 n => inl n | V6 n => inr n end)
    (λ s, match s with inl n => V4 n | inr n => V6 n end) ltac:(by intros []).
#[export] Instance socket_countable : Countable SocketAddr :=
  inj_countable' (λ a, (sa_ip a, sa_port a, sa_scope a))
    (λ '(ip, port, scope), {| sa_ip := ip; sa_port := port; sa_scope := scope |}) ltac:(by intros []).

(** ** Data handed to other parts *)

(** The client's stream of a session belongs to the task that relays it. *)
Record TcpRelaySession := {
  relay_target : SocketAddr;
  relay_decision : SelectionDecision;
  relay_idle_timeout : option Z;
}.

Inductive UdpDownstream := Raw | Channel | Socks5 (response_target : SocketAddr).

Record UdpRelayAssociation := {
  assoc_session_id : Z;
  assoc_inbound : string;
  assoc_peer : SocketAddr;
  assoc_target : SocketAddr;
  assoc_idle_timeout : Z;
  assoc_downstream : UdpDownstream;
  assoc_decision : SelectionDecision;
}.

(** A sender names the channel it belongs to. *)
Record UdpSessionSender := {
  sender_session_id : Z;
  sender_decision : SelectionDecision;
  sender_context : TargetContext;
  sender_protocol : string;
  sender_tx : nat;
}.

Record UdpAssociationTask := {
  task_peer : SocketAddr;
  task_config : UdpRelayConfig;
  task_session_id : Z;
  task_decision : SelectionDecision;
  task_context : TargetContext;
  task_rx : nat;
}.

Record SocksUdpTask := {
  udp_peer : SocketAddr;
  udp_target : SocketAddr;
  udp_context : TargetContext;
  udp_response_target : SocketAddr;
  udp_dest : SocksDestination;
  udp_session_id : Z;
  udp_decision : SelectionDecision;
  udp_idle : Z;
  udp_rx : nat;
}.

(** The tasks that a server spawns. *)
Inductive child :=
| TcpTask (config : TcpRelayConfig) (peer : SocketAddr)
| UdpTask (t : UdpAssociationTask)
| SocksTask (config : Socks5IngressConfig) (peer : SocketAddr)
| SocksUdpChild (t : SocksUdpTask)
| DnsTask (peer : SocketAddr).

(** What a [select!] of a server loop meets. *)
Inductive incoming :=
| ShutdownRequested
| TaskJoined
| Accepted (peer : SocketAddr)
| AcceptFailed (error : string)
| CompletedPeer (peer : SocketAddr)
| CompletedPair (peer target : SocketAddr)
| ControlClosed
| Datagram (payload : bytes) (peer : SocketAddr)
| ReceiveFailed (error : string).

(** [Some] of a response, [None] when the channel is closed, or the timeout. *)
Inductive awaited := Response (payload : bytes) | ChannelClosed | ResponseTimedOut.

(** The end of a spawned [handle_udp]: the task failed, or what it returned. *)
Abbreviation joined := (string + (EgressError + UdpRelayOutcome))%type.

(** ** Actions *)
Inductive action :=
(* the runtime *)
| NextSessionId
| Select (c : SelectionContext)
| RecordEvent (k : IngressEventKind) (fields : Fields)
| DomainForIp (ip : IpAddr)
| ResolveDomainA (domain : string) (port : Z)
| ResolveDnsWire (query : bytes)
(* the egress node *)
| Tag
| DecisionTag (d : SelectionDecision)
| HandleTcp (s : TcpRelaySession)
| HandleUdp (a : UdpRelayAssociation)
| SpawnUdp (a : UdpRelayAssociation)
| JoinUdp
| JoinUdpWithin (timeout : Z)
| AbortUdp
(* tasks and channels *)
| Incoming
| TryAcquire
| Spawn (c : child)
| NewChannel
| SendPayload (tx : nat) (payload : bytes)
| SendCompletion (peer target : SocketAddr)
(* the client's sockets *)
| Cancelled
| ReadPayload
| Wrote (l : bytes)
| WritePayload (payload : bytes)
| RecvResponse (timeout : Z)
| WriteReply (reply : Z) (bind : SocketAddr)
| BindUdp (ip : IpAddr)
| SendDatagram (payload : bytes) (peer : SocketAddr).

Definition answer (a : action) : Type :=
  match a with
  | NextSessionId => Z
  | Select _ => outcome SelectionError SelectionDecision
  | RecordEvent _ _ => unit
  | DomainForIp _ => option string
  | ResolveDomainA _ _ => resolve SocketAddr
  | ResolveDnsWire _ => resolve DnsResolution
  | Tag | DecisionTag _ => string
  | HandleTcp _ => EgressError + TcpRelayOutcome
  | HandleUdp _ => EgressError + UdpRelayOutcome
  | SpawnUdp _ | AbortUdp | Spawn _ | Wrote _ | SendCompletion _ _ => unit
  | JoinUdp => joined
  | JoinUdpWithin _ => option joined
  | Incoming => incoming
  | TryAcquire | Cancelled | SendPayload _ _ => bool
  | NewChannel => nat
  | ReadPayload => string + bytes
  | WritePayload _ | SendDatagram _ _ => string + unit
  | RecvResponse _ => awaited
  | WriteReply _ _ => SocksError + unit
  | BindUdp _ => SocksError + SocketAddr
  end.

(** ** Programs *)
Inductive prog (A : Type) : Type :=
| Return (a : A)
| Act (a : action) (k : answer a → prog A)
| Crash.
Arguments Return {A} a.
Arguments Act {A} a k.
Arguments Crash {A}.

#[export] Instance prog_ret : MRet prog := λ A a, Return a.
#[export] Instance prog_bind : MBind prog := λ A B f,
  fix go m := match m with
              | Return a => f a
              | Act a k => Act a (λ x, go (k x))
              | Crash => Crash
              end.

#[export] Instance prog_fmap : FMap prog := λ A B f m, x ← m; mret (f x).

Definition act (a : action) : prog (answer a) := Act a Return.

Definition record (k : IngressEventKind) (fields : Fields) : prog unit := act (RecordEvent k fields).

(** A fallible handler, and [?]. *)
Abbreviation fallible E A := (prog (outcome E A)).

Definition try_ {E A B} (m : fallible E A) (f : A → fallible E B) : fallible E B :=
  r ← m;
  match r with Ok a => f a | Err e => mret (Err e) | Panic => Crash end.

(** The answer of an action that fails with a [Result]. *)
Definition attempt {E A} (m : prog (E + A)) : fallible E A :=
  r ← m; mret (of_result r).

Lemma prog_bind_act {A B} a (k : answer a → prog A) (f : A → prog B) :
  Act a k ≫= f = Act a (λ x, k x ≫= f).
Proof. reflexivity. Qed.

Lemma prog_bind_ret {A B} (x : A) (f : A → prog B) : (mret x : prog A) ≫= f = f x.
Proof. reflexivity. Qed.

(** [runtime.select], whose panic ends the task. *)
Definition run_select (session_id : Z) (inbound : InboundKind) (target : TargetContext)
    : fallible SelectionError SelectionDecision :=
  r ← act (Select {| ctx_session_id := session_id; ctx_inbound := inbound; ctx_target := target |});
  match r with Panic => Crash | _ => mret r end.

(** ** The TCP relay *)
Definition tcp_finish (session_id : Z) (protocol : string) (peer target : SocketAddr) (context : TargetContext)
    (d : SelectionDecision) (r : EgressError + TcpRelayOutcome) : prog unit :=
  match r with
  | inr o =>
      record TcpClose (decided_fields session_id TCP_INBOUND protocol peer target (out_upstream o) context d
                       ++ tcp_outcome_fields o)
  | inl e => record TcpError (error_fields session_id TCP_INBOUND protocol peer target e (Some d))
  end.

(** The task of one accepted connection. *)
Definition tcp_session (config : TcpRelayConfig) (peer : SocketAddr) : prog unit :=
  session_id ← act NextSessionId;
  let target := tcp_upstream config in
  let context := fixed_upstream target in
  r ← run_select session_id InboundTcp context;
  match r with
  | Ok d =>
      protocol ← act (DecisionTag d);
      record TcpAccept (decided_fields session_id TCP_INBOUND protocol peer target target context d) ;;
      r ← act (HandleTcp {| relay_target := target; relay_decision := d; relay_idle_timeout := None |});
      tcp_finish session_id protocol peer target context d r
  | Err e =>
      tag ← act Tag;
      record TcpError (session_fields session_id TCP_INBOUND tag peer target target
                       ++ stage_fields "egress-select" (err_message e))
  | Panic => Crash
  end.

(** A connection beyond the limit. *)
Definition tcp_refuse (config : TcpRelayConfig) (peer : SocketAddr) : prog unit :=
  session_id ← act NextSessionId;
  let target := tcp_upstream config in
  tag ← act Tag;
  record TcpError (session_fields session_id TCP_INBOUND tag peer target target
                   ++ capacity_fields "TCP session limit reached" (tcp_max_sessions config)).

(** The loop of [run_tcp] for a number of rounds; [None] when it still runs. *)
Fixpoint run_tcp (rounds : nat) (config : TcpRelayConfig) : prog (option (outcome string unit)) :=
  match rounds with
  | O => mret None
  | S rounds =>
      i ← act Incoming;
      match i with
      | ShutdownRequested => mret (Some (Ok tt))
      | AcceptFailed e => mret (Some (Err (("failed accepting TCP connection: " ++ e)%string)))
      | Accepted peer =>
          permit ← act TryAcquire;
          match permit with true => act (Spawn (TcpTask config peer)) | false => tcp_refuse config peer end ;;
          run_tcp rounds config
      | _ => run_tcp rounds config
      end
  end.

(** ** The UDP relay *)
Abbreviation UdpSessions := (gmap SocketAddr UdpSessionSender).

(** The task of one association. *)
Definition udp_association (t : UdpAssociationTask) : prog unit :=
  let target := udp_upstream (task_config t) in
  let session_id := task_session_id t in
  let peer := task_peer t in
  let d := task_decision t in
  let context := task_context t in
  protocol ← act (DecisionTag d);
  record UdpSessionStart (decided_fields session_id UDP_INBOUND protocol peer target target context d) ;;
  r ← act (HandleUdp
        {| assoc_session_id := session_id; assoc_inbound := UDP_INBOUND; assoc_peer := peer;
           assoc_target := target; assoc_idle_timeout := udp_idle_timeout (task_config t);
           assoc_downstream := Raw; assoc_decision := d |});
  match r with
  | inr o =>
      record UdpSessionClose
        (decided_fields session_id UDP_INBOUND protocol peer target (udp_out_upstream o) context d
         ++ [("closeReason", udp_out_close_reason o)])
  | inl e =>
      record UdpError (error_fields session_id UDP_INBOUND protocol peer target e (Some d)) ;;
      record UdpSessionClose
        (decided_fields session_id UDP_INBOUND protocol peer target target context d
         ++ [("closeReason", "error")])
  end ;;
  act (SendCompletion peer target).

Definition udp_refuse (config : UdpRelayConfig) (peer : SocketAddr) : prog unit :=
  session_id ← act NextSessionId;
  let target := udp_upstream config in
  tag ← act Tag;
  record UdpError (session_fields session_id UDP_INBOUND tag peer target target
                   ++ capacity_fields "UDP session limit reached" (udp_max_sessions config)).

(** A session for a new peer: [None] when the selection fails. *)
Definition udp_open (config : UdpRelayConfig) (sessions : UdpSessions) (peer : SocketAddr)
    : prog (option (UdpSessionSender * UdpSessions)) :=
  tx ← (act NewChannel : prog nat);
  session_id ← (act NextSessionId : prog Z);
  let target := udp_upstream config in
  let context := fixed_upstream target in
  r ← run_select session_id InboundUdp context;
  match r with
  | Ok d =>
      protocol ← (act (DecisionTag d) : prog string);
      let sender := {| sender_session_id := session_id; sender_decision := d; sender_context := context;
                       sender_protocol := protocol; sender_tx := tx |} in
      act (Spawn (UdpTask {| task_peer := peer; task_config := config; task_session_id := session_id;
                             task_decision := d; task_context := context; task_rx := tx |})) ;;
      mret (Some (sender, <[peer := sender]> sessions))
  | Err e =>
      tag ← (act Tag : prog string);
      record UdpError (session_fields session_id UDP_INBOUND tag peer target target
                       ++ stage_fields "egress-select" (err_message e)) ;;
      mret None
  | Panic => Crash
  end.

(** The datagram goes to its session, which is forgotten when its channel is closed. *)
Definition udp_forward (config : UdpRelayConfig) (sender : UdpSessionSender) (sessions : UdpSessions)
    (payload : bytes) (peer : SocketAddr) : prog UdpSessions :=
  let target := udp_upstream config in
  record UdpDatagram
    (decided_fields (sender_session_id sender) UDP_INBOUND (sender_protocol sender) peer target target
       (sender_context sender) (sender_decision sender) ++ datagram_fields (length payload)) ;;
  sent ← act (SendPayload (sender_tx sender) payload);
  match sent with true => mret sessions | false => mret (delete peer sessions) end.

Definition udp_received (config : UdpRelayConfig) (sessions : UdpSessions) (payload : bytes) (peer : SocketAddr)
    : prog UdpSessions :=
  match sessions !! peer with
  | Some sender => udp_forward config sender sessions payload peer
  | None =>
      if (udp_max_sessions config <=? Z.of_nat (size sessions))%Z then udp_refuse config peer ;; mret sessions
      else
        opened ← udp_open config sessions peer;
        match opened with
        | Some (sender, sessions) => udp_forward config sender sessions payload peer
        | None => mret sessions
        end
  end.

(** The loop of [run_udp]. *)
Fixpoint run_udp (rounds : nat) (config : UdpRelayConfig) (sessions : UdpSessions)
    : prog (option (outcome string unit)) :=
  match rounds with
  | O => mret None
  | S rounds =>
      i ← act Incoming;
      match i with
      | ShutdownRequested => mret (Some (Ok tt))
      | CompletedPeer peer => run_udp rounds config (delete peer sessions)
      | ReceiveFailed e => mret (Some (Err (("failed receiving UDP datagram: " ++ e)%string)))
      | Datagram payload peer =>
          sessions ← udp_received config sessions payload peer;
          run_udp rounds config sessions
      | _ => run_udp rounds config sessions
      end
  end.

(** ** Targets behind observed names *)

(** [resolve_socket_destination], the same in [captured.rs] and [socks.rs] *)
Definition resolve_socket_destination (address : SocketAddr) : prog TargetContext :=
  name ← (act (DomainForIp (sa_ip address)) : prog (option string));
  match name with
  | None => mret (external_context address None)
  | Some domain =>
      r ← (act (ResolveDomainA domain (sa_port address)) : fallible DnsResolveError SocketAddr);
      match r with
      | Ok restored => mret (dynet_dns restored domain)
      | Err _ => mret (external_context address (Some domain))
      | Panic => Crash
      end
  end.

(** ** Captured TCP *)
Record CapturedTcpRelayOutcome := {
  captured_session_id : Z;
  captured_target : SocketAddr;
  captured_outcome : TcpRelayOutcome;
}.

(** [tcp_close_outcome] *)
Definition tcp_close_outcome (session_id : Z) (protocol : string) (peer target : SocketAddr)
    (context : TargetContext) (d : SelectionDecision) (o : TcpRelayOutcome) : prog CapturedTcpRelayOutcome :=
  record TcpClose (decided_fields session_id TUN_INBOUND protocol peer target (out_upstream o) context d
                   ++ tcp_outcome_fields o) ;;
  mret {| captured_session_id := session_id; captured_target := target; captured_outcome := o |}.

Definition relay_captured_tcp (peer target : SocketAddr) (idle_timeout : Z)
    : fallible string CapturedTcpRelayOutcome :=
  session_id ← (act NextSessionId : prog Z);
  context ← resolve_socket_destination target;
  r ← run_select session_id InboundTcp context;
  match r with
  | Err e =>
      record TcpError (selection_error_fields session_id peer target e) ;;
      mret (Err (err_message e))
  | Ok d =>
      protocol ← (act (DecisionTag d) : prog string);
      record TcpAccept (decided_fields session_id TUN_INBOUND protocol peer target target context d) ;;
      r ← (act (HandleTcp {| relay_target := target; relay_decision := d;
                             relay_idle_timeout := Some idle_timeout |}) : prog (EgressError + TcpRelayOutcome));
      match r with
      | inr o => o ← tcp_close_outcome session_id protocol peer target context d o; mret (Ok o)
      | inl e =>
          record TcpError (captured_error_fields session_id protocol peer target context e (Some d)) ;;
          mret (Err (ee_message e))
      end
  | Panic => Crash
  end.

(** ** Captured UDP *)
Record CapturedUdpRelayOutcome := {
  captured_udp_session_id : Z;
  captured_udp_target : SocketAddr;
  captured_udp_upstream : SocketAddr;
  request_bytes : nat;
  response_bytes : nat;
  captured_close_reason : string;
}.

(** [Duration::as_millis] of a number of nanoseconds *)
Definition as_millis (d : Z) : string := to_string (d / 1000000).

Definition await_udp_error : prog string :=
  r ← act JoinUdp;
  match r with
  | inr (inr o) => mret (("captured UDP relay closed before response: " ++ udp_out_close_reason o)%string)
  | inr (inl e) => mret (ee_message e)
  | inl error => mret (("captured UDP relay task failed: " ++ error)%string)
  end.

Definition await_udp_outcome (timeout : Z) : fallible string UdpRelayOutcome :=
  r ← act (JoinUdpWithin timeout);
  match r with
  | Some (inr (inr o)) => mret (Ok o)
  | Some (inr (inl e)) => mret (Err (ee_message e))
  | Some (inl error) => mret (Err (("captured UDP relay task failed: " ++ error)%string))
  | None =>
      act AbortUdp ;;
      mret (Err (("timed out after " ++ as_millis timeout ++ "ms waiting for captured UDP relay to close")%string))
  end.

(** The datagram is accepted: the event, the relay task, and its first response. *)
Definition captured_udp_relay (session_id : Z) (protocol : string) (peer target : SocketAddr)
    (context : TargetContext) (d : SelectionDecision) (payload : bytes) (idle_timeout response_timeout : Z)
    : fallible string CapturedUdpRelayOutcome :=
  record UdpDatagram (decided_fields session_id TUN_INBOUND protocol peer target target context d
                      ++ datagram_fields (length payload)) ;;
  tx ← act NewChannel;
  sent ← act (SendPayload tx payload);
  match sent with
  | false => mret (Err "captured UDP downstream channel closed before relay")
  | true =>
      act (SpawnUdp {| assoc_session_id := session_id; assoc_inbound := TUN_INBOUND; assoc_peer := peer;
                       assoc_target := target; assoc_idle_timeout := idle_timeout;
                       assoc_downstream := Channel; assoc_decision := d |}) ;;
      let failed error :=
        record UdpError (captured_error_fields session_id protocol peer target context
                           (egress_error "relay" (Some target) error) (Some d)) ;;
        mret (Err error) in
      r ← act (RecvResponse response_timeout);
      match r with
      | ChannelClosed => error ← await_udp_error; failed error
      | ResponseTimedOut =>
          act AbortUdp ;;
          failed (("timed out after " ++ as_millis response_timeout
                   ++ "ms waiting for captured UDP response")%string)
      | Response response =>
          w ← act (WritePayload response);
          match w with
          | inl e => mret (Err (("failed writing captured UDP response: " ++ e)%string))
          | inr _ =>
              try_ (await_udp_outcome (idle_timeout + response_timeout)) (λ o,
                record UdpSessionClose
                  (decided_fields session_id TUN_INBOUND protocol peer target (udp_out_upstream o) context d
                   ++ [("closeReason", udp_out_close_reason o)]) ;;
                mret (Ok {| captured_udp_session_id := session_id; captured_udp_target := target;
                            captured_udp_upstream := udp_out_upstream o; request_bytes := length payload;
                            response_bytes := length response;
                            captured_close_reason := udp_out_close_reason o |}))
          end
      end
  end.

Definition relay_captured_udp (peer target : SocketAddr) (idle_timeout response_timeout : Z)
    : fallible string CapturedUdpRelayOutcome :=
  r ← act ReadPayload;
  match r with
  | inl e => mret (Err (("failed reading captured UDP payload: " ++ e)%string))
  | inr [] => mret (Err "captured UDP stream returned empty payload")
  | inr payload =>
      session_id ← (act NextSessionId : prog Z);
      context ← resolve_socket_destination target;
      r ← run_select session_id InboundUdp context;
      match r with
      | Err e =>
          record UdpError (selection_error_fields session_id peer target e) ;;
          mret (Err (err_message e))
      | Ok d =>
          protocol ← (act (DecisionTag d) : prog string);
          captured_udp_relay session_id protocol peer target context d payload idle_timeout response_timeout
      | Panic => Crash
      end
  end.

(** ** SOCKS5 *)
Definition unspecified : SocketAddr := socket_addr (V4 0) 0.

Definition resolve_destination (d : SocksDestination) : fallible SocksError TargetContext :=
  match d with
  | DestSocket address => context ← resolve_socket_destination address; mret (Ok context)
  | DestDomain domain port =>
      r ← (act (ResolveDomainA (text_of domain) port) : fallible DnsResolveError SocketAddr);
      match r with
      | Ok address => mret (Ok (dynet_dns address (text_of domain)))
      | Err e =>
          mret (Err (socks_error "socks-resolve"
            ("failed resolving " ++ text_of domain ++ ":" ++ to_string port ++ ": " ++ message e)))
      | Panic => Crash
      end
  end.

Definition select_target (session_id : Z) (inbound : InboundKind) (context : TargetContext)
    : fallible SocksError SelectionDecision :=
  r ← run_select session_id inbound context;
  mret (map_err (λ e, socks_error "egress-select" (err_message e)) r).

Definition write_reply (reply : Z) (bind : SocketAddr) : fallible SocksError unit :=
  attempt (act (WriteReply reply bind)).

(** The fields of a session whose decision and context are known. *)
Definition socks_decided_fields (session_id : Z) (protocol : string) (peer target : SocketAddr)
    (dest : SocksDestination) (context : TargetContext) (d : SelectionDecision) : Fields :=
  (socks_session_fields session_id protocol peer target dest
   ++ push_target_context_fields context ++ push_decision_fields d)%list.

Definition upstream_fields (a : SocketAddr) : Fields :=
  (("upstream", socket_to_string a) :: push_endpoint_fields "upstream" a)%list.

Definition handle_connect (peer : SocketAddr) (session_id : Z) (dest : SocksDestination)
    : fallible SocksError unit :=
  try_ (resolve_destination dest) (λ context,
  let target := target_address context in
  try_ (select_target session_id InboundTcp context) (λ d,
  try_ (write_reply SOCKS_REPLY_SUCCEEDED unspecified) (λ _,
  protocol ← (act (DecisionTag d) : prog string);
  record TcpAccept (socks_decided_fields session_id protocol peer target dest context d) ;;
  r ← (act (HandleTcp {| relay_target := target; relay_decision := d; relay_idle_timeout := None |})
        : prog (EgressError + TcpRelayOutcome));
  match r with
  | inr o =>
      record TcpClose (socks_decided_fields session_id protocol peer target dest context d
                       ++ upstream_fields (out_upstream o) ++ tcp_outcome_fields o)
  | inl e => record TcpError (socks_egress_error_fields session_id protocol peer target dest e (Some d))
  end ;;
  mret (Ok tt)))).

(** The task of one association of a client. *)
Definition socks_udp_association (t : SocksUdpTask) : prog unit :=
  let session_id := udp_session_id t in
  let d := udp_decision t in
  protocol ← (act (DecisionTag d) : prog string);
  r ← (act (HandleUdp
        {| assoc_session_id := session_id; assoc_inbound := SOCKS5_INBOUND; assoc_peer := udp_peer t;
           assoc_target := udp_target t; assoc_idle_timeout := udp_idle t;
           assoc_downstream := Socks5 (udp_response_target t); assoc_decision := d |})
        : prog (EgressError + UdpRelayOutcome));
  match r with
  | inr o =>
      record UdpSessionClose
        (socks_decided_fields session_id protocol (udp_peer t) (udp_target t) (udp_dest t) (udp_context t) d
         ++ upstream_fields (udp_out_upstream o) ++ [("closeReason", udp_out_close_reason o)])
  | inl e =>
      record UdpError
        (socks_egress_error_fields session_id protocol (udp_peer t) (udp_target t) (udp_dest t) e (Some d))
  end ;;
  act (SendCompletion (udp_peer t) (udp_target t)).

Definition response_target_for_destination (d : SocksDestination) (target : SocketAddr) : SocketAddr :=
  match d with DestSocket address => address | DestDomain _ _ => target end.

Record UdpAssociationSender := {
  as_protocol : string;
  as_decision : SelectionDecision;
  as_context : TargetContext;
  as_tx : nat;
}.

Abbreviation Associations := (gmap (SocketAddr * SocketAddr) UdpAssociationSender).

(** The sender for a pair of peer and target, made when there is none. *)
Definition socks_sender (config : Socks5IngressConfig) (session_id : Z) (m : Associations) (p : SocketAddr)
    (dest : SocksDestination) (context : TargetContext)
    : fallible SocksError (UdpAssociationSender * Associations) :=
  let target := target_address context in
  match m !! (p, target) with
  | Some sender => mret (Ok (sender, m))
  | None =>
      try_ (select_target session_id InboundUdp context) (λ d,
      tx ← (act NewChannel : prog nat);
      protocol ← (act (DecisionTag d) : prog string);
      let sender := {| as_protocol := protocol; as_decision := d; as_context := context; as_tx := tx |} in
      act (Spawn (SocksUdpChild
        {| udp_peer := p; udp_target := target; udp_context := context;
           udp_response_target := response_target_for_destination dest target; udp_dest := dest;
           udp_session_id := session_id; udp_decision := d;
           udp_idle := socks5_idle_timeout config; udp_rx := tx |})) ;;
      mret (Ok (sender, <[(p, target) := sender]> m)))
  end.

Definition socks_udp_received (config : Socks5IngressConfig) (peer : SocketAddr) (session_id : Z)
    (m : Associations) (datagram : bytes) (p : SocketAddr) : fallible SocksError Associations :=
  match parse_udp_packet datagram with
  | Err e => mret (Err e)
  | Panic => Crash
  | Ok packet =>
      let dest := udp_destination packet in
      try_ (resolve_destination dest) (λ context,
      try_ (socks_sender config session_id m p dest context) (λ '(sender, m),
      let target := target_address context in
      record UdpDatagram
        (socks_decided_fields session_id (as_protocol sender) peer target dest (as_context sender)
           (as_decision sender)
         ++ ("udpPeer", socket_to_string p) :: datagram_fields (length (udp_payload packet))) ;;
      sent ← act (SendPayload (as_tx sender) (udp_payload packet));
      match sent with true => mret (Ok m) | false => mret (Ok (delete (p, target) m)) end))
  end.

(** The loop of one UDP association of a client. *)
Fixpoint run_socks_udp_loop (rounds : nat) (config : Socks5IngressConfig) (peer : SocketAddr) (session_id : Z)
    (m : Associations) : prog (option (socks unit)) :=
  match rounds with
  | O => mret None
  | S rounds =>
      i ← act Incoming;
      match i with
      | ControlClosed => mret (Some (Ok tt))
      | CompletedPair p target => run_socks_udp_loop rounds config peer session_id (delete (p, target) m)
      | ReceiveFailed e =>
          mret (Some (Err (with_source "socks-udp-read" "failed receiving SOCKS5 UDP datagram")))
      | Datagram payload p =>
          r ← socks_udp_received config peer session_id m payload p;
          match r with
          | Ok m => run_socks_udp_loop rounds config peer session_id m
          | Err e => mret (Some (Err e))
          | Panic => Crash
          end
      | _ => run_socks_udp_loop rounds config peer session_id m
      end
  end.

(** [handle_udp_associate]; the control connection is watched by the loop's inputs. *)
Definition handle_udp_associate (rounds : nat) (config : Socks5IngressConfig) (peer : SocketAddr)
    (session_id : Z) : prog (option (socks unit)) :=
  r ← (act (BindUdp (sa_ip (socks5_bind config))) : prog (SocksError + SocketAddr));
  match r with
  | inl e => mret (Some (Err e))
  | inr bind =>
      let advertised := socket_addr (default (sa_ip bind) (udp_advertise_ip config)) (sa_port bind) in
      w ← write_reply SOCKS_REPLY_SUCCEEDED advertised;
      match w with
      | Ok _ =>
          tag ← (act Tag : prog string);
          record UdpSessionStart
            (base_socks_fields session_id tag peer
             ++ [("udpBind", socket_to_string advertised); ("udpListen", socket_to_string bind)]
             ++ push_endpoint_fields "upstream" advertised) ;;
          run_socks_udp_loop rounds config peer session_id ∅
      | Err e => mret (Some (Err e))
      | Panic => Crash
      end
  end.

Definition not_supported (message : string) : fallible SocksError unit :=
  try_ (write_reply SOCKS_REPLY_COMMAND_NOT_SUPPORTED unspecified) (λ _,
    mret (Err (socks_error "socks-request" message))).

(** [handle_client]: [s] is what the client sends, [accepts] whether it takes the method
    selection. *)
Definition handle_client (rounds : nat) (config : Socks5IngressConfig) (peer : SocketAddr) (session_id : Z)
    (s : stream) (accepts : bool) : prog (option (socks unit)) :=
  let '(method, r) := negotiate_no_auth s accepts in
  act (Wrote method) ;;
  match (s1 ← r; read_request s1) with
  | Ok (request, _) =>
      if (command request =? SOCKS_CMD_CONNECT)%Z then Some <$> handle_connect peer session_id (destination request)
      else if (command request =? SOCKS_CMD_UDP_ASSOCIATE)%Z then
        handle_udp_associate rounds config peer session_id
      else if (command request =? SOCKS_CMD_BIND)%Z then Some <$> not_supported "SOCKS5 BIND is not supported"
      else Some <$> not_supported "SOCKS5 command is not supported"
  | Err e => mret (Some (Err e))
  | Panic => Crash
  end.

Definition record_socks_error (session_id : Z) (peer : SocketAddr) (e : SocksError) : prog unit :=
  record TcpError (socks_error_fields session_id peer e).

(** The task of one client. *)
Definition socks_session (rounds : nat) (config : Socks5IngressConfig) (peer : SocketAddr) (s : stream)
    (accepts : bool) : prog unit :=
  session_id ← (act NextSessionId : prog Z);
  r ← handle_client rounds config peer session_id s accepts;
  match r with
  | Some (Err e) => record_socks_error session_id peer e
  | Some Panic => Crash
  | _ => mret tt
  end.

Definition socks_refuse (peer : SocketAddr) : prog unit :=
  session_id ← (act NextSessionId : prog Z);
  record_socks_error session_id peer (socks_error "inbound-capacity" "SOCKS5 session limit reached").

(** The loop of [run_socks5]: a failed accept is not the end. *)
Fixpoint run_socks5 (rounds : nat) (config : Socks5IngressConfig) : prog (option (outcome string unit)) :=
  match rounds with
  | O => mret None
  | S rounds =>
      i ← act Incoming;
      match i with
      | ShutdownRequested => mret (Some (Ok tt))
      | Accepted peer =>
          permit ← act TryAcquire;
          match permit with true => act (Spawn (SocksTask config peer)) | false => socks_refuse peer end ;;
          run_socks5 rounds config
      | _ => run_socks5 rounds config
      end
  end.

(** ** DNS *)
Definition resolve_query (peer : SocketAddr) (query : bytes) (transport : string) : prog (option bytes) :=
  record DnsQuery (query_fields peer transport query) ;;
  r ← (act (ResolveDnsWire query) : fallible DnsResolveError DnsResolution);
  match r with
  | Ok resolution =>
      record DnsResponse (response_fields peer transport resolution) ;;
      mret (Some (response resolution))
  | Err e => record DnsError (dns_error_fields peer transport e) ;; mret None
  | Panic => Crash
  end.

(** The loop of [run_udp] in [dns.rs]. *)
Fixpoint run_dns_udp (rounds : nat) : prog (option (outcome string unit)) :=
  match rounds with
  | O => mret None
  | S rounds =>
      i ← act Incoming;
      match i with
      | ShutdownRequested => mret (Some (Ok tt))
      | ReceiveFailed e => mret (Some (Err (("failed receiving DNS datagram: " ++ e)%string)))
      | Datagram query peer =>
          r ← resolve_query peer query "udp";
          match r with
          | None => run_dns_udp rounds
          | Some response =>
              w ← (act (SendDatagram response peer) : prog (string + unit));
              match w with
              | inl e => mret (Some (Err (("failed sending DNS response: " ++ e)%string)))
              | inr _ => run_dns_udp rounds
              end
          end
      | _ => run_dns_udp rounds
      end
  end.

(** What a stream gives when it is read beyond its bytes: its end, or an I/O error. *)
Definition short_read (broken : option string) (at_end : outcome string unit) (failing : string → outcome string unit) : outcome string unit :=
  match broken with None => at_end | Some error => failing error end.
(** The text of the end of a stream in [read_exact] of tokio. *)
Definition early_eof : string := "early eof".

(** A step of a session that [shutdown] may pre-empt. *)
Definition unless_cancelled (m : fallible string unit) : fallible string unit :=
  cancelled ← act Cancelled;
  match cancelled with true => mret (Ok tt) | false => m end.

(** The loop of [handle_tcp_session] on what the client sends. *)
Fixpoint dns_session_loop (fuel : nat) (peer : SocketAddr) (s : stream) (broken : option string)
    : fallible string unit :=
  match fuel with
  | O => Crash
  | S fuel =>
      unless_cancelled
        match read_exact 2 s with
        | None => mret (short_read broken (Ok tt) (λ error, Err ("failed reading DNS TCP length: " ++ error)%string))
        | Some (header, s1) =>
            let length := Z.to_nat (from_be header) in
            if length =? 0 then mret (Err "DNS TCP query length must be non-zero")
            else
              unless_cancelled
                match read_exact length s1 with
                | None => mret (Err ("failed reading DNS TCP query: " ++ default early_eof broken)%string)
                | Some (query, s2) =>
                    r ← resolve_query peer query "tcp";
                    match r with
                    | None => dns_session_loop fuel peer s2 broken
                    | Some response =>
                        match try_u 16 (Z.of_nat (List.length response)) with
                        | None => mret (Err "DNS TCP response exceeds 65535 bytes")
                        | Some n =>
                            unless_cancelled
                              (w ← act (WritePayload (to_be 2 n ++ response)%list);
                               match w with
                               | inl e => mret (Err (("failed writing DNS TCP response: " ++ e)%string))
                               | inr _ => dns_session_loop fuel peer s2 broken
                               end)
                        end
                    end
                end
        end
  end.

(** Every round takes three bytes at least. *)
Definition handle_tcp_session (peer : SocketAddr) (s : stream) (broken : option string) : fallible string unit :=
  dns_session_loop (S (length s)) peer s broken.

Definition dns_transport_fields (peer : SocketAddr) (error : string) : Fields :=
  [("peer", socket_to_string peer); ("transport", "tcp"); ("error", error)].

(** The task of one TCP session. *)
Definition dns_tcp_session (peer : SocketAddr) (s : stream) (broken : option string) : prog unit :=
  r ← handle_tcp_session peer s broken;
  match r with
  | Err e => record DnsError (dns_transport_fields peer e)
  | Panic => Crash
  | Ok _ => mret tt
  end.

(** The loop of [run_tcp] in [dns.rs]. *)
Fixpoint run_dns_tcp (rounds : nat) (max_sessions : Z) : prog (option (outcome string unit)) :=
  match rounds with
  | O => mret None
  | S rounds =>
      i ← act Incoming;
      match i with
      | ShutdownRequested => mret (Some (Ok tt))
      | AcceptFailed e => mret (Some (Err (("failed accepting TCP DNS session: " ++ e)%string)))
      | Accepted peer =>
          permit ← act TryAcquire;
          match permit with
          | true => act (Spawn (DnsTask peer))
          | false =>
              record DnsError (dns_transport_fields peer "DNS TCP session capacity exhausted"
                               ++ [("maxSessions", to_string max_sessions)])
          end ;;
          run_dns_tcp rounds max_sessions
      | _ => run_dns_tcp rounds max_sessions
      end
  end.
