(* ===== verification/InboundPool.v ===== *)
(** * InboundPool: the tasks of all inbound servers over one runtime

    The servers and their sessions run concurrently; what they share is the runtime, one
    semaphore per server, and nothing else. A state holds the tasks that were ever started
    with the calls each has made; a step lets one task make one call, or lets a running UDP
    relay of the egress report a response, or lets another part of the process commit a
    reload or observe a DNS answer. *)
From Stdlib Require Import ZArith Lia Strings.Byte Ascii String Sorting.Sorted.
From stdpp Require Import base list numbers option strings gmap sets relations.
From S2P Require Import Prelude Collections Net RustStd Model Stores Traffic MatrixStats Matrix Runtime DnsWire DnsResolve Bootstrap Observations ConfigData Egress Socks IngressFields Inbound.
Local Open Scope string_scope.
Local Open Scope nat_scope.

(** ** The answers of the runtime, with the events that they leave *)
Definition u64_counts (r : EgressError + TcpRelayOutcome) : Prop :=
  match r with
  | inr o => in_u 64 (client_to_upstream_bytes o) ∧ in_u 64 (upstream_to_client_bytes o)
  | inl e => (∀ n, ee_client_to_upstream_bytes e = Some n → in_u 64 n) ∧
             (∀ n, ee_upstream_to_client_bytes e = Some n → in_u 64 n)
  end.

(** Actions whose answer the runtime gives. *)
Definition on_runtime (a : action) : bool :=
  match a with
  | NextSessionId | Select _ | RecordEvent _ _ | DomainForIp _ | ResolveDomainA _ _ | ResolveDnsWire _ => true
  | _ => false
  end.

Definition typed_answer (a : action) : answer a → Prop :=
  match a with HandleTcp _ => u64_counts | _ => λ _, True end.

Definition event_of (st : RuntimeState) (now : Z) (k : IngressEventKind) (fields : Fields) : IngressEvent :=
  (record_event (rt_events st) now k (into_fields fields)).2.

Inductive answers (st : RuntimeState) : ∀ a, answer a → RuntimeState → option IngressEvent → Prop :=
| ans_session : answers st NextSessionId (next_session st).2 (next_session st).1 None
| ans_select now c : answers st (Select c) (select st now c).2 (select st now c).1 None
| ans_record now k f :
    answers st (RecordEvent k f) tt (runtime_record st now k (into_fields f)) (Some (event_of st now k f))
| ans_domain ip : answers st (DomainForIp ip) (domain_for_ip (rt_dns_map st) ip) st None
| ans_resolve ms domain port replies deadline :
    answers st (ResolveDomainA domain port) (resolve_domain_a st ms domain port replies deadline).2
      (resolve_domain_a st ms domain port replies deadline).1 None
| ans_wire query replies deadline :
    answers st (ResolveDnsWire query) (resolve_dns_wire st query replies deadline).2
      (resolve_dns_wire st query replies deadline).1 None
| ans_other a x : on_runtime a = false → typed_answer a x → answers st a x st None.

(** ** Tasks *)
Inductive call := Called (a : action) (x : answer a).

(** [t_capacity] is the size of the semaphore of a server, [t_held] the permits it holds for the
    task it is about to spawn, [t_permit] the server whose permit a task has; [t_relays] are
    spawned egress relays. *)
Record task := {
  t_start : prog unit;
  t_prog : prog unit;
  t_calls : list call;
  t_inherited : list Z;
  t_relays : list UdpRelayAssociation;
  t_capacity : nat;
  t_held : nat;
  t_permit : option nat;
}.

Definition new_task (p : prog unit) (ids : list Z) (capacity : nat) (permit : option nat) : task :=
  {| t_start := p; t_prog := p; t_calls := []; t_inherited := ids; t_relays := []; t_capacity := capacity;
     t_held := 0; t_permit := permit |}.

(** [UdpRelayAssociation]s that the egress is carrying for a task. *)
Definition relaying (t : task) : list UdpRelayAssociation :=
  match t_prog t with Act (HandleUdp a) _ => a :: t_relays t | _ => t_relays t end.

Definition relays_after (a : action) : answer a → list UdpRelayAssociation → list UdpRelayAssociation :=
  match a with
  | SpawnUdp r => λ _ l, r :: l
  | JoinUdp | AbortUdp => λ _ _, []
  | JoinUdpWithin _ => λ x l, match x with Some _ => [] | None => l end
  | _ => λ _ l, l
  end.

(** A task after a call, [held] permits later. *)
Definition advance (t : task) (a : action) (x : answer a) (p : prog unit) (held : nat) : task :=
  {| t_start := t_start t; t_prog := p; t_calls := (t_calls t ++ [Called a x])%list;
     t_inherited := t_inherited t; t_relays := relays_after a x (t_relays t);
     t_capacity := t_capacity t; t_held := held; t_permit := t_permit t |}.

(** ** Starting tasks *)
Definition server {A} (m : prog A) : prog unit := _ ← m; mret tt.

(** What the process starts, with the capacity of its semaphore. *)
Inductive entry : prog unit → nat → Prop :=
| entry_tcp n config : entry (server (run_tcp n config)) (Z.to_nat (tcp_max_sessions config))
| entry_udp n config : entry (server (run_udp n config ∅)) 0
| entry_socks n config : entry (server (run_socks5 n config)) (Z.to_nat (socks5_max_sessions config))
| entry_dns_udp n : entry (server (run_dns_udp n)) 0
| entry_dns_tcp n max : entry (server (run_dns_tcp n max)) (Z.to_nat max)
| entry_captured_tcp peer target idle : entry (server (relay_captured_tcp peer target idle)) 0
| entry_captured_udp peer target idle response : entry (server (relay_captured_udp peer target idle response)) 0.

Inductive runs_child : child → prog unit → Prop :=
| run_tcp_task config peer : runs_child (TcpTask config peer) (tcp_session config peer)
| run_udp_task t : runs_child (UdpTask t) (udp_association t)
| run_socks_task n config peer s accepts : runs_child (SocksTask config peer) (socks_session n config peer s accepts)
| run_socks_udp t : runs_child (SocksUdpChild t) (socks_udp_association t)
| run_dns_task peer s broken : runs_child (DnsTask peer) (dns_tcp_session peer s broken).

(** The session ids that a child is given, and whether it takes a permit along. *)
Definition child_ids (c : child) : list Z :=
  match c with UdpTask t => [task_session_id t] | SocksUdpChild t => [udp_session_id t] | _ => [] end.

Definition takes_permit (c : child) : bool :=
  match c with TcpTask _ _ | SocksTask _ _ | DnsTask _ => true | _ => false end.

(** ** The system *)
Inductive origin := Own (i : nat) | Relay (i : nat).
Definition owner (o : origin) : nat := match o with Own i | Relay i => i end.

Record sys := {
  s_rt : RuntimeState;
  s_tasks : gmap nat task;
  s_permits : gmap nat nat;
  s_log : list (origin * IngressEvent);
}.

Definition sys_start (st : RuntimeState) : sys :=
  {| s_rt := st; s_tasks := ∅; s_permits := ∅; s_log := [] |}.

(** [relay_udp_response] *)
Definition response_datagram_fields (a : UdpRelayAssociation) (protocol : string) (upstream : SocketAddr)
    (payload : bytes) (extra : Fields) : Fields :=
  (session_fields (assoc_session_id a) (assoc_inbound a) protocol (assoc_peer a) (assoc_target a) upstream
   ++ push_decision_fields (assoc_decision a)
   ++ [("direction", "upstream-to-client"); ("bytes", to_string (Z.of_nat (length payload)))] ++ extra)%list.

(** The clients add the fields of their underlay, none that names the session. *)
Definition extra_ok (extra : Fields) : Prop :=
  ("sessionId" ∉ extra.*1) ∧ ("decisionId" ∉ extra.*1) ∧ ("inbound" ∉ extra.*1).

Definition log_event (o : origin) (e : option IngressEvent) : list (origin * IngressEvent) :=
  match e with Some e => [(o, e)] | None => [] end.

(** Calls that concern only the task and the runtime. A permit is a value that moves: the task of
    a connection takes one that its server holds. That the server holds one then is not a rule of
    the system but a property of the programs, see InboundPermits. *)
Definition plain (a : action) : bool := match a with Spawn _ | TryAcquire => false | _ => true end.

Inductive sys_step : sys → sys → Prop :=
| step_start s i p capacity :
    s_tasks s !! i = None → entry p capacity →
    sys_step s {| s_rt := s_rt s; s_tasks := <[i := new_task p [] capacity None]> (s_tasks s);
                  s_permits := <[i := capacity]> (s_permits s); s_log := s_log s |}
| step_call s i t a k x st e :
    s_tasks s !! i = Some t → t_prog t = Act a k → plain a = true → answers (s_rt s) a x st e →
    sys_step s {| s_rt := st; s_tasks := <[i := advance t a x (k x) (t_held t)]> (s_tasks s);
                  s_permits := s_permits s; s_log := (s_log s ++ log_event (Own i) e)%list |}
| step_acquire s i t k free :
    s_tasks s !! i = Some t → t_prog t = Act TryAcquire k → s_permits s !! i = Some free →
    sys_step s
      (let x : answer TryAcquire := (0 <? free) in
       {| s_rt := s_rt s;
          s_tasks := <[i := advance t TryAcquire x (k x) (if 0 <? free then S (t_held t) else t_held t)]> (s_tasks s);
          s_permits := <[i := pred free]> (s_permits s); s_log := s_log s |})
| step_spawn s i t c k j p :
    s_tasks s !! i = Some t → t_prog t = Act (Spawn c) k → s_tasks s !! j = None → runs_child c p →
    sys_step s
      {| s_rt := s_rt s;
         s_tasks :=
           <[j := new_task p (child_ids c) 0 (if takes_permit c then Some i else None)]>
             (<[i := advance t (Spawn c) tt (k tt) (if takes_permit c then pred (t_held t) else t_held t)]>
                (s_tasks s));
         s_permits := s_permits s; s_log := s_log s |}
| step_finish s i t srv free :
    s_tasks s !! i = Some t → t_prog t = Return tt ∨ t_prog t = Crash → t_permit t = Some srv →
    s_permits s !! srv = Some free →
    sys_step s
      {| s_rt := s_rt s;
         s_tasks := <[i := {| t_start := t_start t; t_prog := t_prog t; t_calls := t_calls t;
                              t_inherited := t_inherited t; t_relays := t_relays t;
                              t_capacity := t_capacity t; t_held := t_held t; t_permit := None |}]> (s_tasks s);
         s_permits := <[srv := S free]> (s_permits s); s_log := s_log s |}
| step_relay s i t a now protocol upstream payload extra :
    s_tasks s !! i = Some t → a ∈ relaying t → extra_ok extra →
    let f := response_datagram_fields a protocol upstream payload extra in
    sys_step s {| s_rt := runtime_record (s_rt s) now UdpDatagram (into_fields f); s_tasks := s_tasks s;
                  s_permits := s_permits s;
                  s_log := (s_log s ++ [(Relay i, event_of (s_rt s) now UdpDatagram f)])%list |}
| step_commit s st0 seed :
    sys_step s {| s_rt := (commit_reconfigure (s_rt s) (prepare_reconfigure st0 seed)).1; s_tasks := s_tasks s;
                  s_permits := s_permits s; s_log := s_log s |}
| step_observe s domain ips :
    sys_step s {| s_rt := observe_dns (s_rt s) domain ips; s_tasks := s_tasks s; s_permits := s_permits s;
                  s_log := s_log s |}.

(** The 64-bit counter of sessions has not come to its end. *)
Definition room (s : sys) : Prop := (next_session_id (rt_events (s_rt s)) < u64_max)%Z.

Definition sys_reaches (st : RuntimeState) : sys → Prop := rtc (λ s s', room s ∧ sys_step s s') (sys_start st).
