(* ===== verification/InboundScope.v ===== *)
(** * InboundScope: a task records only for sessions that it knows

    A program knows the session ids that it has allocated and those that it was started
    with. [holds] is a rule system in the style of a weakest precondition: along every
    sequence of answers each event names a known session (or is a DNS event), and each task
    or egress relay is given known sessions only. *)
From Stdlib Require Import ZArith Lia Strings.Byte Ascii String Sorting.Sorted.
From stdpp Require Import base list numbers option strings gmap sets relations.
From S2P Require Import Prelude Collections Net RustStd Model Stores Traffic MatrixStats Matrix Runtime DnsWire DnsResolve Bootstrap Observations ConfigData Egress Socks IngressFields IngressReport Inbound InboundPool.
Local Open Scope string_scope.
Local Open Scope nat_scope.

Abbreviation known := (list Z).

(** The session id that an answer allocates. *)
Definition learns (a : action) : answer a → known :=
  match a with NextSessionId => λ x, [x] | _ => λ _, [] end.

(** The sessions handed to another task. *)
Definition passes (a : action) : known := match a with Spawn c => child_ids c | _ => [] end.

Definition act_ok (K : known) (a : action) : Prop :=
  match a with
  | RecordEvent k f => is_dns_event k = true ∨ ∃ s, s ∈ K ∧ names s f
  | Spawn c => child_ids c ⊆ K
  | HandleUdp r | SpawnUdp r => assoc_session_id r ∈ K
  | _ => True
  end.

Fixpoint wp {A} (K : known) (p : prog A) (Q : known → A → Prop) : Prop :=
  match p with
  | Return a => Q K a
  | Crash => True
  | Act a k => act_ok K a ∧ ∀ x, wp (learns a x ++ K)%list (k x) Q
  end.

(** Knowledge only grows, and the result satisfies [P]. *)
Definition holds {A} (K : known) (p : prog A) (P : known → A → Prop) : Prop :=
  wp K p (λ K' a, K ⊆ K' ∧ P K' a).

Definition anything {A} : known → A → Prop := λ _ _, True.

Abbreviation scoped K p := (holds K p anything).

Lemma wp_mono {A} K (p : prog A) (P Q : known → A → Prop) : (∀ K' a, P K' a → Q K' a) → wp K p P → wp K p Q.
Proof.
  intros HPQ. revert K; induction p as [a|a k IH|]; intros K; cbn; [auto| |done].
  intros [Ha Hk]. split; [done|]. intros x. by apply IH.
Qed.

Lemma wp_bind {A B} K (m : prog A) (f : A → prog B) Q : wp K m (λ K' a, wp K' (f a) Q) → wp K (m ≫= f) Q.
Proof.
  revert K; induction m as [a|a k IH|]; intros K; cbn; [done| |done].
  intros [Ha Hk]. split; [done|]. intros x. apply IH, Hk.
Qed.

Lemma wp_grow {A} K (p : prog A) (Q : known → A → Prop) : wp K p Q → wp K p (λ K' a, K ⊆ K' ∧ Q K' a).
Proof.
  enough (∀ K0, K0 ⊆ K → wp K p Q → wp K p (λ K' a, K0 ⊆ K' ∧ Q K' a)) as Hgen by (intros; by apply Hgen).
  revert K; induction p as [a|a k IH|]; intros K K0 Hs; cbn; [done| |done].
  intros [Ha Hk]. split; [done|]. intros x. apply IH; [|apply Hk].
  etrans; [exact Hs|]. intros z Hz. apply elem_of_app. by right.
Qed.

Lemma holds_bind {A B} K (m : prog A) (f : A → prog B) P Q :
  holds K m P → (∀ K' a, K ⊆ K' → P K' a → holds K' (f a) Q) → holds K (m ≫= f) Q.
Proof.
  intros Hm Hf. apply wp_bind. eapply wp_mono, Hm. cbn. intros K' a [Hs Hp].
  eapply wp_mono, Hf; [|done..]. cbn. intros K'' b [Hs' Hq]. split; [by etrans|done].
Qed.

Lemma holds_ret {A} K (a : A) P : P K a → holds K (mret a) P.
Proof. intros Hp. by split. Qed.

Lemma holds_act K a : act_ok K a → scoped K (act a).
Proof. intros Ha. split; [done|]. intros x. split; [|done]. intros z Hz. apply elem_of_app. by right. Qed.

Lemma holds_crash {A} K P : holds K (Crash : prog A) P.
Proof. done. Qed.

Lemma holds_session K : holds K (act NextSessionId) (λ K' s, s ∈ K').
Proof. split; [done|]. intros x. cbn. split; [|apply list_elem_of_here]. intros z Hz. apply elem_of_cons. by right. Qed.

Lemma holds_weaken {A} K (p : prog A) (P Q : known → A → Prop) :
  holds K p P → (∀ K' a, P K' a → Q K' a) → holds K p Q.
Proof. intros Hp HPQ. eapply wp_mono, Hp. cbn. naive_solver. Qed.

Lemma holds_any {A} K (p : prog A) P : holds K p P → scoped K p.
Proof. intros Hp. by eapply holds_weaken. Qed.

Lemma record_scoped K k f s : s ∈ K → names s f → scoped K (record k f).
Proof. intros Hs Hn. apply holds_act. cbn. right. by exists s. Qed.

Lemma record_dns_scoped K k f : is_dns_event k = true → scoped K (record k f).
Proof. intros Hk. apply holds_act. by left. Qed.

Lemma try_scoped {E A B} K (m : fallible E A) (f : A → fallible E B) P :
  holds K m P → (∀ K' a, K ⊆ K' → P K' (Ok a) → scoped K' (f a)) → scoped K (try_ m f).
Proof. intros Hm Hf. eapply holds_bind; [exact Hm|]. intros K' [a|e|] Hs Hp; [by apply Hf|by apply holds_ret|done]. Qed.

Lemma holds_fmap {A B} K (m : prog A) (f : A → B) P Q :
  holds K m P → (∀ K' a, K ⊆ K' → P K' a → Q K' (f a)) → holds K (f <$> m) Q.
Proof. intros Hm Hf. eapply holds_bind; [exact Hm|]. intros K' a Hs Hp. by apply holds_ret, Hf. Qed.

(** The step of a program: knowledge that was there before is there after. *)
Ltac carry :=
  repeat match goal with
  | H : ?s ∈ ?K0, H' : ?K0 ⊆ ?K |- _ => lazymatch goal with _ : s ∈ K |- _ => fail | _ => pose proof (H' _ H) end
  end.

Ltac step_in :=
  let K := fresh "K" in let x := fresh "x" in let Hs := fresh "Hs" in
  intros K x Hs _; carry.

Ltac scope1 :=
  first
    [ apply holds_crash
    | apply holds_ret; exact I
    | eapply record_scoped; [eassumption|eauto 12 with ingress]
    | apply record_dns_scoped; reflexivity
    | apply holds_act; cbn; first [exact I | assumption] ].

Ltac scope :=
  repeat first
    [ scope1
    | eapply holds_bind; [scope1|step_in]
    | lazymatch goal with |- holds _ (match ?x with _ => _ end) _ => destruct x end ].

(** ** The handlers *)
Lemma run_select_scoped K s inbound t : scoped K (run_select s inbound t).
Proof. unfold run_select. scope. Qed.

Lemma resolve_socket_destination_scoped K a : scoped K (resolve_socket_destination a).
Proof. unfold resolve_socket_destination. scope. Qed.

Ltac known_calls := first [apply run_select_scoped | apply resolve_socket_destination_scoped].

Ltac handler :=
  scope; repeat first [eapply holds_bind; [first [known_calls|apply holds_session]|step_in]; scope].

Lemma names_tail s a b : names s a → (∀ p, p ∈ b → p.1 ≠ "sessionId") → names s (a ++ b)%list.
Proof.
  intros Ha Hb. apply names_app; [done|]. apply field_absent. intros (p & Hp & Hin)%list_elem_of_fmap.
  by apply (Hb p Hin).
Qed.

Lemma allocated_scoped {A} K (f : Z → prog A) P :
  (∀ K' s, K ⊆ K' → s ∈ K' → holds K' (f s) P) → holds K (s ← act NextSessionId; f s) P.
Proof. intros Hf. eapply holds_bind; [apply holds_session|]. intros K' s Hs Hin. by apply Hf. Qed.

Lemma tcp_session_scoped K config peer : scoped K (tcp_session config peer).
Proof.
  unfold tcp_session. apply allocated_scoped. intros K1 s _ Hs.
  eapply holds_bind; [apply run_select_scoped|step_in]. unfold tcp_finish. scope.
Qed.

Lemma tcp_refuse_scoped K config peer : scoped K (tcp_refuse config peer).
Proof. unfold tcp_refuse. apply allocated_scoped. intros K1 s _ Hs. scope. Qed.

Lemma server_scoped {A} K (m : prog A) : scoped K m → scoped K (server m).
Proof. intros Hm. eapply holds_bind; [exact Hm|]. intros. by apply holds_ret. Qed.

Lemma run_tcp_scoped n config K : scoped K (run_tcp n config).
Proof.
  revert K. induction n as [|n IH]; intros K; cbn [run_tcp]; [by apply holds_ret|].
  eapply holds_bind; [by apply holds_act|step_in]. destruct x; try apply IH; try (by apply holds_ret).
  eapply holds_bind; [by apply holds_act|step_in].
  eapply holds_bind; [destruct x; [by apply holds_act, list_subseteq_nil|apply tcp_refuse_scoped]|].
  intros. apply IH.
Qed.

Lemma udp_association_scoped K t : task_session_id t ∈ K → scoped K (udp_association t).
Proof.
  intros Hs. unfold udp_association. scope.
  eapply holds_bind; [|intros; by apply holds_act]. destruct x1; scope.
Qed.

Lemma udp_refuse_scoped K config peer : scoped K (udp_refuse config peer).
Proof. unfold udp_refuse. apply allocated_scoped. intros K1 s _ Hs. scope. Qed.

Lemma one_known (s : Z) K : s ∈ K → [s] ⊆ K.
Proof. intros Hs z Hz. by apply list_elem_of_singleton in Hz as ->. Qed.

(** Every sender of the map has a known session. *)
Definition senders_known (K : known) (m : UdpSessions) : Prop :=
  map_Forall (λ _ sender, sender_session_id sender ∈ K) m.

Lemma senders_mono K K' m : K ⊆ K' → senders_known K m → senders_known K' m.
Proof. intros Hs Hm peer sender Hl. by eapply Hs, Hm. Qed.

Lemma udp_forward_scoped K config sender m payload peer :
  sender_session_id sender ∈ K → senders_known K m → holds K (udp_forward config sender m payload peer) senders_known.
Proof.
  intros Hs Hm. unfold udp_forward. eapply holds_bind; [scope1|step_in].
  eapply holds_bind; [by apply holds_act|step_in].
  assert (senders_known K1 m) as Hm' by (eapply senders_mono, Hm; by etrans).
  destruct x0; apply holds_ret; [done|by apply map_Forall_delete].
Qed.

Definition opened_known (K : known) (o : option (UdpSessionSender * UdpSessions)) : Prop :=
  match o with Some (sender, m) => sender_session_id sender ∈ K ∧ senders_known K m | None => True end.

Lemma udp_open_scoped K config m peer : senders_known K m → holds K (udp_open config m peer) opened_known.
Proof.
  intros Hm. unfold udp_open. eapply holds_bind; [by apply holds_act|step_in].
  apply allocated_scoped. intros K1 s Hs1 Hin. eapply holds_bind; [apply run_select_scoped|step_in].
  destruct x0 as [d|e|]; [| |done].
  - eapply holds_bind; [by apply holds_act|step_in].
    eapply holds_bind; [by apply holds_act, one_known|step_in].
    apply holds_ret. cbn. split; [done|]. apply map_Forall_insert_2; [done|]. eapply senders_mono, Hm.
    by repeat (etrans; [eassumption|]).
  - eapply holds_bind; [by apply holds_act|step_in]. eapply holds_bind; [scope1|step_in]. by apply holds_ret.
Qed.

Lemma udp_received_scoped K config m payload peer :
  senders_known K m → holds K (udp_received config m payload peer) senders_known.
Proof.
  intros Hm. unfold udp_received. destruct (m !! peer) as [sender|] eqn:E.
  - apply udp_forward_scoped; [|done]. by apply (Hm peer).
  - destruct (_ <=? _)%Z.
    + eapply holds_bind; [apply udp_refuse_scoped|]. intros K1 ? Hs _. apply holds_ret. by eapply senders_mono.
    + eapply holds_bind; [by apply udp_open_scoped|]. intros K1 [[sender m1]|] Hs Ho.
      * destruct Ho. by apply udp_forward_scoped.
      * apply holds_ret. by eapply senders_mono.
Qed.

Lemma run_udp_scoped n config K m : senders_known K m → scoped K (run_udp n config m).
Proof.
  revert K m. induction n as [|n IH]; intros K m Hm; cbn [run_udp]; [by apply holds_ret|].
  eapply holds_bind; [by apply holds_act|step_in].
  assert (senders_known K0 m) as Hm' by by eapply senders_mono.
  destruct x; try (by apply IH); try (by apply holds_ret).
  - by apply IH, map_Forall_delete.
  - eapply holds_bind; [by apply udp_received_scoped|]. intros K1 m1 _ Hm1. by apply IH.
Qed.

Lemma relay_captured_tcp_scoped K peer target idle : scoped K (relay_captured_tcp peer target idle).
Proof.
  unfold relay_captured_tcp. apply allocated_scoped. intros K1 s _ Hs.
  eapply holds_bind; [apply resolve_socket_destination_scoped|step_in].
  eapply holds_bind; [apply run_select_scoped|step_in]. unfold tcp_close_outcome. scope.
Qed.

Lemma await_udp_error_scoped K : scoped K await_udp_error.
Proof. unfold await_udp_error. scope. Qed.

Lemma await_udp_outcome_scoped K timeout : scoped K (await_udp_outcome timeout).
Proof. unfold await_udp_outcome. scope. Qed.

Lemma captured_udp_relay_scoped K s protocol peer target context d payload idle response :
  s ∈ K → scoped K (captured_udp_relay s protocol peer target context d payload idle response).
Proof.
  intros Hs. unfold captured_udp_relay. cbv zeta. scope.
  - eapply try_scoped; [apply await_udp_outcome_scoped|step_in]. scope.
  - eapply holds_bind; [apply await_udp_error_scoped|step_in]. scope.
Qed.

Lemma relay_captured_udp_scoped K peer target idle response : scoped K (relay_captured_udp peer target idle response).
Proof.
  unfold relay_captured_udp. eapply holds_bind; [by apply holds_act|step_in].
  destruct x as [e|[|b l]]; [by apply holds_ret..|]. apply allocated_scoped. intros K1 s _ Hin.
  eapply holds_bind; [apply resolve_socket_destination_scoped|step_in].
  eapply holds_bind; [apply run_select_scoped|step_in]. destruct x0 as [d|e|]; [|scope|done].
  eapply holds_bind; [by apply holds_act|step_in]. by apply captured_udp_relay_scoped.
Qed.

(** ** SOCKS5 *)
Lemma resolve_destination_scoped K d : scoped K (resolve_destination d).
Proof.
  destruct d as [a|domain port]; cbn [resolve_destination].
  - eapply holds_bind; [apply resolve_socket_destination_scoped|step_in]. scope.
  - scope.
Qed.

Lemma select_target_scoped K s inbound c : scoped K (select_target s inbound c).
Proof. unfold select_target. eapply holds_bind; [apply run_select_scoped|step_in]. scope. Qed.

Lemma write_reply_scoped K reply bind : scoped K (write_reply reply bind).
Proof. unfold write_reply, attempt. scope. Qed.

Lemma handle_connect_scoped K peer s dest : s ∈ K → scoped K (handle_connect peer s dest).
Proof.
  intros Hs. unfold handle_connect. eapply try_scoped; [apply resolve_destination_scoped|step_in].
  eapply try_scoped; [apply select_target_scoped|step_in]. eapply try_scoped; [apply write_reply_scoped|step_in].
  unfold socks_decided_fields. scope.
  eapply holds_bind; [|intros; by apply holds_ret]. scope.
Qed.

Lemma socks_udp_association_scoped K t : udp_session_id t ∈ K → scoped K (socks_udp_association t).
Proof.
  intros Hs. unfold socks_udp_association, socks_decided_fields, upstream_fields. scope.
  eapply holds_bind; [|intros; by apply holds_act]. scope.
Qed.

Lemma socks_sender_scoped K config s m p dest context : s ∈ K → scoped K (socks_sender config s m p dest context).
Proof.
  intros Hs. unfold socks_sender. destruct (m !! _); [by apply holds_ret|].
  eapply try_scoped; [apply select_target_scoped|step_in]. scope.
  eapply holds_bind; [by apply holds_act, one_known|step_in]. scope.
Qed.

Lemma socks_udp_received_scoped K config peer s m datagram p :
  s ∈ K → scoped K (socks_udp_received config peer s m datagram p).
Proof.
  intros Hs. unfold socks_udp_received, socks_decided_fields.
  destruct (parse_udp_packet datagram) as [packet|e|]; [|by apply holds_ret|done].
  eapply try_scoped; [apply resolve_destination_scoped|step_in].
  eapply try_scoped; [by apply socks_sender_scoped|]. intros K1 [sender m'] Hs1 _. carry. scope.
Qed.

Lemma run_socks_udp_loop_scoped n config peer s K m : s ∈ K → scoped K (run_socks_udp_loop n config peer s m).
Proof.
  revert K m. induction n as [|n IH]; intros K m Hs; cbn [run_socks_udp_loop]; [by apply holds_ret|].
  eapply holds_bind; [by apply holds_act|step_in]. destruct x; try (by apply IH); try (by apply holds_ret).
  eapply holds_bind; [by apply socks_udp_received_scoped|step_in]. destruct x; [by apply IH|by apply holds_ret|done].
Qed.

Lemma handle_udp_associate_scoped n config peer s K : s ∈ K → scoped K (handle_udp_associate n config peer s).
Proof.
  intros Hs. unfold handle_udp_associate. eapply holds_bind; [by apply holds_act|step_in].
  destruct x as [e|bind]; [by apply holds_ret|]. eapply holds_bind; [apply write_reply_scoped|step_in].
  destruct x; [|by apply holds_ret|done]. scope. by apply run_socks_udp_loop_scoped.
Qed.

Lemma not_supported_scoped K m : scoped K (not_supported m).
Proof. eapply try_scoped; [apply write_reply_scoped|step_in]. scope. Qed.

Lemma socks_session_scoped n config peer stream accepts K : scoped K (socks_session n config peer stream accepts).
Proof.
  unfold socks_session. apply allocated_scoped. intros K1 s _ Hs.
  eapply holds_bind with (P := anything); [|step_in; destruct x as [[]|]; try done; unfold record_socks_error; scope].
  unfold handle_client. destruct (negotiate_no_auth stream accepts) as [method r].
  eapply holds_bind; [by apply holds_act|step_in].
  destruct (r ≫= _) as [[request rest]|e|]; [|by apply holds_ret|done].
  destruct (_ =? _)%Z; [eapply holds_fmap; [by apply handle_connect_scoped|done]|].
  destruct (_ =? _)%Z; [by apply handle_udp_associate_scoped|].
  destruct (_ =? _)%Z; (eapply holds_fmap; [apply not_supported_scoped|done]).
Qed.

Lemma socks_refuse_scoped K peer : scoped K (socks_refuse peer).
Proof. unfold socks_refuse. apply allocated_scoped. intros K1 s _ Hs. unfold record_socks_error. scope. Qed.

Lemma run_socks5_scoped n config K : scoped K (run_socks5 n config).
Proof.
  revert K. induction n as [|n IH]; intros K; cbn [run_socks5]; [by apply holds_ret|].
  eapply holds_bind; [by apply holds_act|step_in]. destruct x; try apply IH; try (by apply holds_ret).
  eapply holds_bind; [by apply holds_act|step_in].
  eapply holds_bind; [destruct x; [by apply holds_act, list_subseteq_nil|apply socks_refuse_scoped]|].
  intros. apply IH.
Qed.

(** ** DNS *)
Lemma resolve_query_scoped K peer query transport : scoped K (resolve_query peer query transport).
Proof. unfold resolve_query. scope. Qed.

Lemma run_dns_udp_scoped n K : scoped K (run_dns_udp n).
Proof.
  revert K. induction n as [|n IH]; intros K; cbn [run_dns_udp]; [by apply holds_ret|].
  eapply holds_bind; [by apply holds_act|step_in]. destruct x; try apply IH; try (by apply holds_ret).
  eapply holds_bind; [apply resolve_query_scoped|step_in]. destruct x; [|apply IH].
  eapply holds_bind; [by apply holds_act|step_in]. destruct x; [by apply holds_ret|apply IH].
Qed.

Lemma dns_session_loop_scoped fuel peer s broken K : scoped K (dns_session_loop fuel peer s broken).
Proof.
  revert s K. induction fuel as [|fuel IH]; intros s K; cbn [dns_session_loop]; [done|].
  assert (∀ K' m, scoped K' m → scoped K' (unless_cancelled m)) as Hc.
  { intros K' m Hm. unfold unless_cancelled. split; [done|]. intros x.
    destruct x; cbn; [split; [|done]|]; [done|exact Hm]. }
  apply Hc. destruct (read_exact 2 s) as [[header s1]|]; [|by apply holds_ret].
  destruct (_ =? 0); [by apply holds_ret|]. apply Hc.
  destruct (read_exact _ s1) as [[query s2]|]; [|by apply holds_ret].
  eapply holds_bind; [apply resolve_query_scoped|step_in]. destruct x as [response|]; [|apply IH].
  destruct (try_u 16 _); [|by apply holds_ret]. apply Hc.
  eapply holds_bind; [by apply holds_act|step_in]. destruct x; [by apply holds_ret|apply IH].
Qed.

Lemma dns_tcp_session_scoped K peer s broken : scoped K (dns_tcp_session peer s broken).
Proof.
  unfold dns_tcp_session. eapply holds_bind; [apply dns_session_loop_scoped|step_in]. destruct x; scope.
Qed.

Lemma run_dns_tcp_scoped n max K : scoped K (run_dns_tcp n max).
Proof.
  revert K. induction n as [|n IH]; intros K; cbn [run_dns_tcp]; [by apply holds_ret|].
  eapply holds_bind; [by apply holds_act|step_in]. destruct x; try apply IH; try (by apply holds_ret).
  eapply holds_bind; [by apply holds_act|step_in].
  eapply holds_bind; [destruct x; [by apply holds_act, list_subseteq_nil|by apply record_dns_scoped]|].
  intros. apply IH.
Qed.

(** ** Everything that runs *)
Lemma entry_scoped p capacity K : entry p capacity → scoped K p.
Proof.
  intros []; apply server_scoped; [apply run_tcp_scoped|apply run_udp_scoped, map_Forall_empty|apply run_socks5_scoped
    |apply run_dns_udp_scoped|apply run_dns_tcp_scoped|apply relay_captured_tcp_scoped|apply relay_captured_udp_scoped].
Qed.

Lemma child_scoped c p K : runs_child c p → child_ids c ⊆ K → scoped K p.
Proof.
  intros [] Hc; [apply tcp_session_scoped|apply udp_association_scoped|apply socks_session_scoped
    |apply socks_udp_association_scoped|apply dns_tcp_session_scoped]; apply Hc, list_elem_of_here.
Qed.
