(* ===== verification/InboundIsolation.v ===== *)
(** * InboundIsolation: what the log says about one session

    Invariants of the system of InboundPool. The events of a session that was allocated by
    one task and not handed to another are those that this task recorded, in its order,
    whatever the other tasks did in between. *)
From Stdlib Require Import ZArith Lia Strings.Byte Ascii String Sorting.Sorted.
From stdpp Require Import base list numbers option strings gmap sets relations.
From S2P Require Import Prelude Collections Net RustStd Model Stores Traffic MatrixStats Matrix Runtime DnsWire DnsResolve Bootstrap Observations ConfigData Egress Socks IngressFields IngressReport Inbound InboundPool InboundScope.
Local Open Scope string_scope.
Local Open Scope nat_scope.

(** ** The calls of a task *)
Definition call_learns (c : call) : known := match c with Called a x => learns a x end.
Definition call_passes (c : call) : known := match c with Called a _ => passes a end.

Definition allocated (cs : list call) : known := mjoin (call_learns <$> cs).
Definition handed (cs : list call) : known := mjoin (call_passes <$> cs).
Definition known_of (t : task) : known := (allocated (t_calls t) ++ t_inherited t)%list.

(** The events that a task recorded itself. *)
Definition recorded (cs : list call) : list (IngressEventKind * Fields) :=
  omap (λ c, match c with Called (RecordEvent k f) _ => Some (k, f) | _ => None end) cs.

Definition is_udp (c : call) : bool :=
  match c with Called (HandleUdp _) _ | Called (SpawnUdp _) _ => true | _ => false end.

Definition at_udp {A} (p : prog A) : bool := match p with Act (HandleUdp _) _ => true | _ => false end.

(** The task has used the UDP relay of the egress, or waits for it. *)
Definition used_udp (t : task) : bool := existsb is_udp (t_calls t) || at_udp (t_prog t).

Lemma allocated_app a b : allocated (a ++ b) = (allocated a ++ allocated b)%list.
Proof. unfold allocated. by rewrite fmap_app, join_app. Qed.
Lemma handed_app a b : handed (a ++ b) = (handed a ++ handed b)%list.
Proof. unfold handed. by rewrite fmap_app, join_app. Qed.
Lemma recorded_concat a b : recorded (a ++ b) = (recorded a ++ recorded b)%list.
Proof. unfold recorded. by rewrite omap_app. Qed.

(** ** Runs of a program *)
Inductive runs {A} : prog A → list call → prog A → Prop :=
| runs_nil p : runs p [] p
| runs_snoc p cs a k x : runs p cs (Act a k) → runs p (cs ++ [Called a x])%list (k x).

(** ** Answers *)
Definition decided_ok (r : outcome SelectionError SelectionDecision) : Prop :=
  match r with Ok d => in_u 64 (decision_id d) ∧ in_u 64 (config_generation d) | _ => True end.

Definition call_ok (c : call) : Prop :=
  match c with
  | Called a x =>
      match a return answer a → Prop with
      | NextSessionId => in_u 64
      | Select _ => decided_ok
      | HandleTcp _ => u64_counts
      | _ => λ _, True
      end x
  end.

Definition generation_ok (st : RuntimeState) : Prop := in_u 64 (generation (rt_routing st)).

Lemma wrap_u_range w z : (0 ≤ w)%Z → in_u w (wrap_u w z).
Proof. intros Hw. unfold in_u, wrap_u. apply Z.mod_pos_bound. lia. Qed.

Lemma resolve_wire_routing st query replies deadline :
  rt_routing (resolve_dns_wire st query replies deadline).1 = rt_routing st ∧
  next_session_id (rt_events (resolve_dns_wire st query replies deadline).1) = next_session_id (rt_events st).
Proof.
  unfold resolve_dns_wire. destruct (enabled_upstreams _); [done|]. destruct (race _ _ _ _); [|done..].
  cbn. unfold record_dns_resolution. destruct (response_info _); [|done]. by destruct (r_query_name _).
Qed.

Lemma resolve_a_routing st ms domain port replies deadline :
  rt_routing (resolve_domain_a st ms domain port replies deadline).1 = rt_routing st ∧
  next_session_id (rt_events (resolve_domain_a st ms domain port replies deadline).1) = next_session_id (rt_events st).
Proof.
  unfold resolve_domain_a. destruct (build_a_query ms domain) as [query|e|]; [|done..].
  pose proof (resolve_wire_routing st query (replies query) deadline) as Hr.
  by destruct (resolve_dns_wire st query (replies query) deadline).
Qed.

Lemma select_effect st now c :
  rt_routing (select st now c).1 = rt_routing st ∧ rt_events (select st now c).1 = rt_events st ∧
  (generation_ok st → decided_ok (select st now c).2).
Proof.
  unfold select. destruct (select_path st c) as [[[[[m f] source] gid] sel]|e|]; [|done..].
  destruct (head (sel_trace sel)); [|done]. split_and!; [done..|]. intros Hg.
  split; [apply wrap_u_range; lia|exact Hg].
Qed.

Lemma answers_ok st a x st' e : answers st a x st' e → generation_ok st → call_ok (Called a x) ∧ generation_ok st'.
Proof.
  unfold generation_ok. intros [|now c|now k f|ip|ms domain port replies deadline|query replies deadline|a' x' Hr Hx] Hg.
  - split; [|exact Hg]. apply wrap_u_range. lia.
  - destruct (select_effect st now c) as (-> & _ & Hd). split; [by apply Hd|done].
  - split; [done|exact Hg].
  - done.
  - destruct (resolve_a_routing st ms domain port replies deadline) as [-> _]. done.
  - destruct (resolve_wire_routing st query replies deadline) as [-> _]. done.
  - split; [|done]. by destruct a'.
Qed.

(** The counter of sessions, and what an answer takes from it. *)
Definition counter (st : RuntimeState) : Z := next_session_id (rt_events st).

Lemma answers_counter st a x st' e :
  answers st a x st' e → (0 ≤ counter st < u64_max)%Z →
  match learns a x with
  | [] => counter st' = counter st
  | v :: l => l = [] ∧ v = (counter st + 1)%Z ∧ counter st' = v
  end.
Proof.
  unfold counter. intros [|now c|now k f|ip|ms domain port replies deadline|query replies deadline|a' x' Hr Hx] Hc; cbn [learns].
  - unfold next_session, alloc_session_id. cbn. unfold wrap_u. rewrite Z.mod_small; [done|]. unfold u64_max in Hc. lia.
  - by destruct (select_effect st now c) as (_ & -> & _).
  - done.
  - done.
  - by destruct (resolve_a_routing st ms domain port replies deadline).
  - by destruct (resolve_wire_routing st query replies deadline).
  - by destruct a'.
Qed.

(** Only a record leaves an event. *)
Lemma answers_event st a x st' e :
  answers st a x st' e →
  match a with
  | RecordEvent k f => ∃ now, e = Some (event_of st now k f)
  | _ => e = None
  end.
Proof.
  intros [|now c|now k f|ip|ms domain port replies deadline|query replies deadline|a' x' Hr Hx]; [done..|by exists now|done|done|done|].
  by destruct a'.
Qed.

(** ** The invariant *)
Definition session_of_event (e : IngressEvent) : option Z := option_map up_session_id (session_update_from_event e).

Lemma update_named e u : session_update_from_event e = Some u → named_session e = Some (up_session_id u).
Proof.
  unfold session_update_from_event, named_session. destruct (is_dns_event (event_kind e)); [done|].
  destruct (event_fields e !! "sessionId") as [v|]; [|done]. destruct (parse_u64 v) as [sid|]; [|done]. cbn.
  set (d := match event_fields e !! "decisionId" with Some v => parse_u64 v | None => None end).
  intros Hu. destruct (event_kind e), d; first [discriminate Hu | by injection Hu as <-].
Qed.

Lemma session_of_named id at_ k f s v :
  names s f → in_u 64 s → session_of_event (event_with id at_ k f) = Some v → v = s.
Proof.
  intros Hn Hs. unfold session_of_event. destruct (session_update_from_event _) as [u|] eqn:E; [|done].
  intros [= <-]. apply update_named in E. rewrite (named_session_of _ _ _ _ s) in E by done. by injection E.
Qed.

Definition event_matches (e : IngressEvent) (kf : IngressEventKind * Fields) : Prop :=
  ∃ id at_, e = event_with id at_ kf.1 kf.2.

Definition own_events (i : nat) (log : list (origin * IngressEvent)) : list IngressEvent :=
  omap (λ p, match p.1 with Own j => if j =? i then Some p.2 else None | Relay _ => None end) log.

(** One task, by itself. *)
Record task_inv (n : Z) (t : task) : Prop := {
  inv_run : runs (t_start t) (t_calls t) (t_prog t);
  inv_calls : Forall call_ok (t_calls t);
  inv_scoped : scoped (known_of t) (t_prog t);
  inv_relays : ∀ a, a ∈ t_relays t → assoc_session_id a ∈ known_of t;
  inv_spawned : t_relays t ≠ [] → existsb is_udp (t_calls t) = true;
  inv_range : ∀ v, v ∈ known_of t → in_u 64 v;
  inv_alloc : ∀ v, v ∈ allocated (t_calls t) → (v ≤ n)%Z;
  inv_nodup : NoDup (allocated (t_calls t));
}.

Definition log_ok (tasks : gmap nat task) (p : origin * IngressEvent) : Prop :=
  ∃ t, tasks !! owner p.1 = Some t ∧ (∀ v, session_of_event p.2 = Some v → v ∈ known_of t) ∧
       match p.1 with Relay _ => used_udp t = true | Own _ => True end.

Record sys_inv (s : sys) : Prop := {
  inv_generation : generation_ok (s_rt s);
  inv_counter : (0 ≤ counter (s_rt s))%Z;
  inv_tasks : ∀ i t, s_tasks s !! i = Some t → task_inv (counter (s_rt s)) t;
  inv_own : ∀ i t, s_tasks s !! i = Some t → Forall2 event_matches (own_events i (s_log s)) (recorded (t_calls t));
  inv_none : ∀ i, s_tasks s !! i = None → own_events i (s_log s) = [];
  inv_disjoint : ∀ i j t t' v, s_tasks s !! i = Some t → s_tasks s !! j = Some t' →
    v ∈ allocated (t_calls t) → v ∈ allocated (t_calls t') → i = j;
  inv_inherit : ∀ j t v, s_tasks s !! j = Some t → v ∈ t_inherited t →
    ∃ i ti, s_tasks s !! i = Some ti ∧ v ∈ allocated (t_calls ti) ∧ v ∈ handed (t_calls ti);
  inv_log : Forall (log_ok (s_tasks s)) (s_log s);
}.

(** A later state of a task. *)
Record later (t t' : task) : Prop := {
  later_known : known_of t ⊆ known_of t';
  later_allocated : allocated (t_calls t) ⊆ allocated (t_calls t');
  later_handed : handed (t_calls t) ⊆ handed (t_calls t');
  later_inherited : t_inherited t' = t_inherited t;
  later_used : used_udp t = true → used_udp t' = true;
}.

Lemma own_events_app i a b : own_events i (a ++ b) = (own_events i a ++ own_events i b)%list.
Proof. unfold own_events. by rewrite omap_app. Qed.

Lemma wp_sub {A} K K' (p : prog A) Q : K ⊆ K' → wp K p Q → wp K' p (λ _ _, True).
Proof.
  revert K K'. induction p as [a|a k IH|]; intros K K' Hs; cbn; [done| |done]. intros [Ha Hk]. split.
  - destruct a; cbn in *; try done; [|by apply Hs|by apply Hs|by etrans].
    destruct Ha as [Ha|(s & Hin & Hn)]; [by left|right]. exists s. split; [by apply Hs|done].
  - intros x. eapply IH; [|apply Hk]. intros z [Hz|Hz]%elem_of_app; apply elem_of_app; [by left|right; by apply Hs].
Qed.

Lemma scoped_sub {A} K K' (p : prog A) : K ⊆ K' → scoped K p → scoped K' p.
Proof.
  intros Hs Hp. eapply wp_sub in Hp; [|exact Hs]. apply wp_grow in Hp. eapply wp_mono, Hp. cbn. naive_solver.
Qed.

Lemma log_ok_later tasks i t t' p :
  tasks !! i = Some t → later t t' → log_ok tasks p → log_ok (<[i := t']> tasks) p.
Proof.
  intros Ht Hl (t0 & Ho & Hv & Hr). unfold log_ok. destruct (decide (owner p.1 = i)) as [Heq|Hne].
  - rewrite Heq in *. rewrite lookup_insert_eq. exists t'. split; [done|].
    assert (t0 = t) as -> by congruence. split; [intros v ?; by apply (later_known _ _ Hl), Hv|].
    destruct p.1; [done|]. by apply (later_used _ _ Hl).
  - rewrite lookup_insert_ne by done. by exists t0.
Qed.

Lemma log_ok_new tasks j t p : tasks !! j = None → log_ok tasks p → log_ok (<[j := t]> tasks) p.
Proof.
  intros Hj (t0 & Ho & Hv). exists t0. rewrite lookup_insert_ne; [done|]. intros ->. congruence.
Qed.

Lemma task_inv_mono n n' t : (n ≤ n')%Z → task_inv n t → task_inv n' t.
Proof. intros Hn []. constructor; try done. intros v Hv. etrans; [by eauto|done]. Qed.

Lemma later_refl t : later t t.
Proof. by constructor. Qed.

(** One task moves on. *)
Lemma inv_update s i t t' st permits evs new :
  sys_inv s → s_tasks s !! i = Some t → later t t' → task_inv (counter st) t' →
  (counter (s_rt s) ≤ counter st)%Z → generation_ok st →
  (∀ v, v ∈ allocated (t_calls t') → v ∈ allocated (t_calls t) ∨ (counter (s_rt s) < v)%Z) →
  recorded (t_calls t') = (recorded (t_calls t) ++ new)%list → Forall2 event_matches (own_events i evs) new →
  (∀ j, j ≠ i → own_events j evs = []) → Forall (log_ok (<[i := t']> (s_tasks s))) evs →
  sys_inv {| s_rt := st; s_tasks := <[i := t']> (s_tasks s); s_permits := permits; s_log := (s_log s ++ evs)%list |}.
Proof.
  intros Hinv Ht Hl Htask Hc Hg Halloc Hrec Hnew Hother Hlog. destruct Hinv as [_ Hc0 Htasks Hown Hnone Hdis Hinh Hlog0].
  constructor; cbn [s_rt s_tasks s_log]; [done|lia|..].
  - intros j u [[<- <-]|[Hne Hj]]%lookup_insert_Some; [done|]. by eapply task_inv_mono, Htasks.
  - intros j u [[<- <-]|[Hne Hj]]%lookup_insert_Some; rewrite own_events_app.
    + rewrite Hrec. apply Forall2_app; [by apply Hown|done].
    + rewrite Hother by done. rewrite app_nil_r. by apply Hown.
  - intros j [Hj Hne]%lookup_insert_None. rewrite own_events_app, Hother by done. rewrite app_nil_r. by apply Hnone.
  - assert (∀ j u v, j ≠ i → s_tasks s !! j = Some u → v ∈ allocated (t_calls u) → v ∉ allocated (t_calls t')) as Hapart.
    { intros j u v Hne Hj Hv Hv'. destruct (Halloc v Hv') as [Hin|Hgt]; [by destruct (Hne (Hdis _ _ _ _ _ Hj Ht Hv Hin))|].
      pose proof (inv_alloc _ _ (Htasks j u Hj) v Hv). lia. }
    intros j j' u u' v [[<- <-]|[Hne Hj]]%lookup_insert_Some [[<- <-]|[Hne' Hj']]%lookup_insert_Some Hv Hv'; [done|..].
    + by destruct (Hapart j' u' v).
    + by destruct (Hapart j u v).
    + by eapply Hdis.
  - assert (∀ v k tk, s_tasks s !! k = Some tk → v ∈ allocated (t_calls tk) → v ∈ handed (t_calls tk) →
      ∃ i1 ti, <[i := t']> (s_tasks s) !! i1 = Some ti ∧ v ∈ allocated (t_calls ti) ∧ v ∈ handed (t_calls ti)) as Hmove.
    { intros v k tk Hk Ha Hh. destruct (decide (k = i)) as [->|Hne].
      - exists i, t'. rewrite lookup_insert_eq. assert (tk = t) as -> by congruence. split; [done|].
        split; [by apply (later_allocated _ _ Hl)|by apply (later_handed _ _ Hl)].
      - exists k, tk. by rewrite lookup_insert_ne. }
    intros j u v [[<- <-]|[Hne Hj]]%lookup_insert_Some Hv.
    + rewrite (later_inherited _ _ Hl) in Hv. destruct (Hinh i t v Ht Hv) as (k & tk & Hk & Ha & Hh). by eapply Hmove.
    + destruct (Hinh j u v Hj Hv) as (k & tk & Hk & Ha & Hh). by eapply Hmove.
  - apply Forall_app. split; [|done]. eapply Forall_impl; [exact Hlog0|]. intros p Hp. by eapply log_ok_later.
Qed.

(** A task starts; what it is given was allocated and handed on. *)
Lemma inv_new s j p ids capacity permit permits :
  sys_inv s → s_tasks s !! j = None → scoped ids p →
  (∀ v, v ∈ ids → in_u 64 v) →
  (∀ v, v ∈ ids → ∃ i ti, s_tasks s !! i = Some ti ∧ v ∈ allocated (t_calls ti) ∧ v ∈ handed (t_calls ti)) →
  sys_inv {| s_rt := s_rt s; s_tasks := <[j := new_task p ids capacity permit]> (s_tasks s); s_permits := permits; s_log := s_log s |}.
Proof.
  intros Hinv Hj Hp Hr Hids. destruct Hinv as [Hg Hc Htasks Hown Hnone Hdis Hinh Hlog].
  constructor; cbn [s_rt s_tasks s_log]; [done|done|..].
  - intros i u [[<- <-]|[Hne Hi]]%lookup_insert_Some; [|exact (Htasks i u Hi)].
    split; cbn; [apply runs_nil|constructor|exact Hp|by intros a ?%elem_of_nil|done|exact Hr|by intros v ?%elem_of_nil|constructor].
  - intros i u [[<- <-]|[Hne Hi]]%lookup_insert_Some; [|exact (Hown i u Hi)]. by rewrite Hnone.
  - intros i [Hi Hne]%lookup_insert_None. by apply Hnone.
  - intros i k u u' v [[<- <-]|[Hne Hi]]%lookup_insert_Some [[<- <-]|[Hne' Hk]]%lookup_insert_Some Hv Hv'; [done|..].
    + by apply elem_of_nil in Hv.
    + by apply elem_of_nil in Hv'.
    + by eapply Hdis.
  - assert (∀ v, (∃ i ti, s_tasks s !! i = Some ti ∧ v ∈ allocated (t_calls ti) ∧ v ∈ handed (t_calls ti)) →
      ∃ i ti, <[j := new_task p ids capacity permit]> (s_tasks s) !! i = Some ti ∧ v ∈ allocated (t_calls ti) ∧ v ∈ handed (t_calls ti)) as Hmove.
    { intros v (i & ti & Hi & Ha & Hh). exists i, ti. rewrite lookup_insert_ne; [done|]. intros ->. congruence. }
    intros i u v [[<- <-]|[Hne Hi]]%lookup_insert_Some Hv; apply Hmove; [by apply Hids|exact (Hinh i u v Hi Hv)].
  - eapply Forall_impl; [exact Hlog|]. intros q Hq. by apply log_ok_new.
Qed.

(** The runtime changes by itself. *)
Lemma inv_runtime s st permits :
  sys_inv s → counter st = counter (s_rt s) → generation_ok st →
  sys_inv {| s_rt := st; s_tasks := s_tasks s; s_permits := permits; s_log := s_log s |}.
Proof. intros [] Hc Hg. constructor; cbn [s_rt s_tasks s_log]; rewrite ?Hc; done. Qed.

(** ** Steps *)
Lemma advance_later t a k x held : t_prog t = Act a k → later t (advance t a x (k x) held).
Proof.
  intros Hp. assert (allocated (t_calls t) ⊆ allocated (t_calls t ++ [Called a x])) as Ha.
  { rewrite allocated_app. intros v Hv. apply elem_of_app. by left. }
  constructor; cbn [advance t_calls t_inherited]; [|done| |done|].
  - unfold known_of; cbn [advance t_calls t_inherited]. intros v [Hv|Hv]%elem_of_app; apply elem_of_app; [left; by apply Ha|by right].
  - rewrite handed_app. intros v Hv. apply elem_of_app. by left.
  - unfold used_udp; cbn. rewrite existsb_app, Hp. intros [Hu|Hu]%orb_true_iff; [by rewrite Hu|].
    assert (existsb is_udp [Called a x] = true) as -> by (destruct a; try discriminate Hu; done).
    by rewrite orb_true_r.
Qed.

Lemma relays_after_sub a x l r : r ∈ relays_after a x l → r ∈ l ∨ a = SpawnUdp r.
Proof.
  destruct a; cbn in *; try (by left); try (by intros ?%elem_of_nil).
  - intros [->|]%elem_of_cons; [by right|by left].
  - destruct x; [by intros ?%elem_of_nil|by left].
Qed.

Lemma advance_inv n n' t a k x held :
  task_inv n t → t_prog t = Act a k → call_ok (Called a x) → (n ≤ n')%Z →
  (∀ v, v ∈ learns a x → in_u 64 v ∧ (n < v ≤ n')%Z) → NoDup (learns a x) →
  task_inv n' (advance t a x (k x) held).
Proof.
  intros [Hrun Hcalls Hsc Hrel Hsp Hrange Halloc Hnd] Hp Hx Hn Hnew Hndx. rewrite Hp in *.
  pose proof (advance_later t a k x held Hp) as Hl.
  assert (∀ v, v ∈ allocated (t_calls t ++ [Called a x]) ↔ v ∈ allocated (t_calls t) ∨ v ∈ learns a x) as Hin.
  { intros v. rewrite allocated_app, elem_of_app. unfold allocated at 2. cbn. by rewrite app_nil_r. }
  destruct Hsc as [Hok Hk]. constructor; cbn [advance t_start t_calls t_prog t_relays].
  - by apply runs_snoc.
  - apply Forall_app. split; [done|by apply Forall_singleton].
  - specialize (Hk x). apply scoped_sub with (learns a x ++ known_of t)%list.
    { intros v [Hv|Hv]%elem_of_app; [|by apply (later_known _ _ Hl)].
      unfold known_of; cbn [advance t_calls t_inherited]. apply elem_of_app. left. apply Hin. by right. }
    eapply wp_sub in Hk; [|done]. apply wp_grow in Hk. eapply wp_mono, Hk. cbn. naive_solver.
  - intros r [Hr| ->]%relays_after_sub; [by apply (later_known _ _ Hl), Hrel|].
    by apply (later_known _ _ Hl).
  - intros Hne. rewrite existsb_app. destruct (t_relays t) as [|r l] eqn:E.
    + assert (∃ r, r ∈ relays_after a x []) as [r [Hr| ->]%relays_after_sub].
      { destruct (relays_after a x []) as [|r l]; [done|]. exists r. apply list_elem_of_here. }
      * by apply elem_of_nil in Hr.
      * cbn. by rewrite orb_true_r.
    + by rewrite Hsp.
  - intros v. unfold known_of; cbn [advance t_calls t_inherited]. intros [[Hv|Hv]%Hin|Hv]%elem_of_app.
    + apply Hrange. unfold known_of. apply elem_of_app. by left.
    + by apply Hnew.
    + apply Hrange. unfold known_of. apply elem_of_app. by right.
  - intros v [Hv|Hv]%Hin; [specialize (Halloc v Hv); lia|]. destruct (Hnew v Hv). lia.
  - rewrite allocated_app. unfold allocated at 2. cbn. rewrite app_nil_r. apply NoDup_app. split_and!; [done| |done].
    intros v Hv Hv'. specialize (Halloc v Hv). destruct (Hnew v Hv'). lia.
Qed.

Lemma advance_recorded t a x p held :
  recorded (t_calls (advance t a x p held)) =
    (recorded (t_calls t) ++ match a with RecordEvent k f => [(k, f)] | _ => [] end)%list.
Proof. cbn. rewrite recorded_concat. f_equal. by destruct a. Qed.

Lemma own_events_log i j e : own_events j (log_event (Own i) e) = if i =? j then option_list e else [].
Proof. destruct e; cbn; by destruct (i =? j). Qed.

(** Rules for the calls that leave the runtime alone. *)
Lemma quiet_call s i t a k (x : answer a) held permits :
  sys_inv s → s_tasks s !! i = Some t → t_prog t = Act a k → on_runtime a = false → call_ok (Called a x) →
  sys_inv {| s_rt := s_rt s; s_tasks := <[i := advance t a x (k x) held]> (s_tasks s); s_permits := permits; s_log := s_log s |}.
Proof.
  intros Hinv Ht Hp Ha Hx. rewrite <- (app_nil_r (s_log s)).
  assert (learns a x = []) as Hl by by destruct a.
  eapply inv_update with (t := t) (new := []); try done.
  - by apply advance_later.
  - eapply advance_inv; [exact (inv_tasks s Hinv i t Ht)|done|done|lia| |]; rewrite Hl; [by intros v ?%elem_of_nil|constructor].
  - apply Hinv.
  - cbn [advance t_calls]. intros v. rewrite allocated_app. unfold allocated at 2. cbn. rewrite Hl, !app_nil_r. by left.
  - rewrite advance_recorded. f_equal. by destruct a.
Qed.

Lemma call_step s i t a k x st e :
  sys_inv s → room s → s_tasks s !! i = Some t → t_prog t = Act a k → answers (s_rt s) a x st e →
  sys_inv {| s_rt := st; s_tasks := <[i := advance t a x (k x) (t_held t)]> (s_tasks s);
             s_permits := s_permits s; s_log := (s_log s ++ log_event (Own i) e)%list |}.
Proof.
  intros Hinv Hroom Ht Hp Ha. destruct (answers_ok _ _ _ _ _ Ha (inv_generation _ Hinv)) as [Hcall Hgen].
  pose proof (answers_counter _ _ _ _ _ Ha (conj (inv_counter _ Hinv) Hroom)) as Hc.
  pose proof (answers_event _ _ _ _ _ Ha) as He. pose proof (inv_counter _ Hinv) as Hc0.
  pose proof (inv_tasks s Hinv i t Ht) as Htask.
  assert (counter (s_rt s) ≤ counter st ∧ NoDup (learns a x) ∧
    ∀ v, v ∈ learns a x → in_u 64 v ∧ (counter (s_rt s) < v ≤ counter st))%Z as (Hle & Hnd & Hnew).
  { unfold room in Hroom. change (next_session_id (rt_events (s_rt s))) with (counter (s_rt s)) in Hroom.
    destruct (learns a x) as [|v l]; [split_and!; [lia|constructor|by intros v ?%elem_of_nil]|].
    destruct Hc as (-> & -> & ->). split_and!; [lia|apply NoDup_singleton|].
    intros v ->%list_elem_of_singleton. unfold in_u, u64_max in *. lia. }
  eapply inv_update with (t := t) (new := match a with RecordEvent k f => [(k, f)] | _ => [] end);
    [done|done|by apply advance_later|by eapply advance_inv|done|done|..].
  - cbn [advance t_calls]. intros v. rewrite allocated_app, elem_of_app. unfold allocated at 2. cbn. rewrite app_nil_r.
    intros [Hv|Hv]; [by left|right]. apply Hnew in Hv. lia.
  - apply advance_recorded.
  - rewrite own_events_log, Nat.eqb_refl. destruct a; subst; try solve [constructor].
    destruct He as (now & ->). apply Forall2_cons. split; [|constructor]. by eexists _, _.
  - intros j Hj. rewrite own_events_log. by destruct (Nat.eqb_spec i j) as [->|].
  - assert (t_prog t = Act a k) as Hp' by done. pose proof (inv_scoped _ _ Htask) as Hsc. rewrite Hp in Hsc.
    destruct Hsc as [Hok _]. destruct a; subst; try solve [constructor].
    destruct He as (now & ->). apply Forall_singleton.
    exists (advance t (RecordEvent k0 fields) x (k x) (t_held t)). cbn [owner fst snd]. rewrite lookup_insert_eq.
    split; [done|]. split; [|done]. intros v Hv. apply (later_known t); [by apply advance_later|].
    destruct Hok as [Hdns|(z & Hz & Hn)].
    + unfold session_of_event, session_update_from_event in Hv. cbn [event_of record_event snd event_kind] in Hv.
      by rewrite Hdns in Hv.
    + replace v with z; [done|]. symmetry. eapply session_of_named; [exact Hn| |exact Hv].
      by apply (inv_range _ _ Htask).
Qed.

Lemma response_names a protocol upstream payload extra :
  extra_ok extra → names (assoc_session_id a) (response_datagram_fields a protocol upstream payload extra).
Proof.
  intros (He & _). unfold response_datagram_fields. apply names_app; [apply names_session|].
  apply tail_app; [apply decision_absent, session_id_name|]. apply tail_app; [done|]. by apply field_absent.
Qed.

Lemma relay_step s i t a now protocol upstream payload extra :
  sys_inv s → s_tasks s !! i = Some t → a ∈ relaying t → extra_ok extra →
  sys_inv {| s_rt := runtime_record (s_rt s) now UdpDatagram
                       (into_fields (response_datagram_fields a protocol upstream payload extra));
             s_tasks := s_tasks s; s_permits := s_permits s;
             s_log := (s_log s ++ [(Relay i, event_of (s_rt s) now UdpDatagram
                         (response_datagram_fields a protocol upstream payload extra))])%list |}.
Proof.
  intros Hinv Ht Ha Hx. pose proof (inv_tasks s Hinv i t Ht) as Htask.
  rewrite <- (insert_id (s_tasks s) i t) at 1 by done.
  eapply inv_update with (t := t) (new := []);
    [done|done|apply later_refl|exact Htask|done|exact (inv_generation _ Hinv)|by left|by rewrite app_nil_r|constructor|done|].
  constructor; [|constructor]. exists t. cbn [owner fst snd]. rewrite lookup_insert_eq. split; [done|].
  assert (assoc_session_id a ∈ known_of t ∧ used_udp t = true) as [Hk Hu].
  { unfold relaying in Ha. unfold used_udp.
    assert (a ∈ t_relays t → assoc_session_id a ∈ known_of t ∧ existsb is_udp (t_calls t) || at_udp (t_prog t) = true) as Hr.
    { intros Hin. split; [by apply (inv_relays _ _ Htask)|]. rewrite (inv_spawned _ _ Htask); [done|].
      intros Hn. rewrite Hn in Hin. by apply elem_of_nil in Hin. }
    destruct (t_prog t) as [| act k|] eqn:Ep; [by apply Hr| |by apply Hr].
    destruct act; try (by apply Hr). apply elem_of_cons in Ha as [->|Ha]; [|by apply Hr].
    pose proof (inv_scoped _ _ Htask) as Hsc. rewrite Ep in Hsc. destruct Hsc as [Hok _].
    split; [exact Hok|]. cbn. apply orb_true_r. }
  split; [|exact Hu]. intros v Hv. replace v with (assoc_session_id a); [exact Hk|]. symmetry.
  eapply session_of_named; [by apply response_names| |exact Hv]. by apply (inv_range _ _ Htask).
Qed.

Lemma observe_same st domain ips :
  counter (observe_dns st domain ips) = counter st ∧ rt_routing (observe_dns st domain ips) = rt_routing st.
Proof. done. Qed.

Lemma commit_same st st0 seed :
  generation_ok st →
  counter (commit_reconfigure st (prepare_reconfigure st0 seed)).1 = counter st ∧
  generation_ok (commit_reconfigure st (prepare_reconfigure st0 seed)).1.
Proof.
  intros Hg. unfold commit_reconfigure. destruct (negb _); [done|]. split; [done|]. apply wrap_u_range. lia.
Qed.

Lemma spawn_step s i t c k j p permits held capacity permit :
  sys_inv s → s_tasks s !! i = Some t → t_prog t = Act (Spawn c) k → s_tasks s !! j = None → runs_child c p →
  sys_inv {| s_rt := s_rt s;
             s_tasks := <[j := new_task p (child_ids c) capacity permit]> (<[i := advance t (Spawn c) tt (k tt) held]> (s_tasks s));
             s_permits := permits; s_log := s_log s |}.
Proof.
  intros Hinv Ht Hp Hj Hc. pose proof (inv_tasks s Hinv i t Ht) as Htask.
  assert (i ≠ j) as Hne by congruence.
  pose proof (inv_scoped _ _ Htask) as Hsc. rewrite Hp in Hsc. destruct Hsc as [Hok _]. cbn in Hok.
  refine (inv_new {| s_rt := s_rt s; s_tasks := <[i := advance t (Spawn c) tt (k tt) held]> (s_tasks s);
                    s_permits := permits; s_log := s_log s |} j p (child_ids c) capacity permit permits _ _ _ _ _); cbn [s_tasks s_rt s_log].
  - exact (quiet_call s i t (Spawn c) k tt held permits Hinv Ht Hp eq_refl I).
  - by rewrite lookup_insert_ne.
  - by eapply child_scoped.
  - intros v Hv. by apply (inv_range _ _ Htask), Hok.
  - intros v Hv. destruct (decide (v ∈ allocated (t_calls t))) as [Ha|Ha].
    + exists i, (advance t (Spawn c) tt (k tt) held). rewrite lookup_insert_eq. split; [done|].
      cbn [advance t_calls]. rewrite allocated_app, handed_app, !elem_of_app. split; [by left|right].
      unfold handed. cbn. by rewrite app_nil_r.
    + specialize (Hok v Hv). unfold known_of in Hok. apply elem_of_app in Hok as [Hin|Hin]; [done|].
      destruct (inv_inherit s Hinv i t v Ht Hin) as (m & tm & Hm & Hma & Hmh).
      assert (m ≠ i) as Hmi by (intros ->; assert (tm = t) as -> by congruence; done).
      exists m, tm. by rewrite lookup_insert_ne.
Qed.

Lemma step_inv s s' : sys_inv s → room s → sys_step s s' → sys_inv s'.
Proof.
  intros Hinv Hroom Hstep. destruct Hstep as [s i p n Hi Hp|s i t a k x st e Ht Hp _ Ha|s i t k free Ht Hp Hf
    |s i t c k j p Ht Hp Hj Hc|s i t srv free Ht Hp Hper Hf|s i t a now protocol up payload extra Ht Ha Hx f|s st0 seed|s domain ips].
  - apply (inv_new s i p [] n None _); [done|done|by eapply entry_scoped|by intros v ?%elem_of_nil|by intros v ?%elem_of_nil].
  - by eapply call_step.
  - exact (quiet_call s i t TryAcquire k _ _ _ Hinv Ht Hp eq_refl I).
  - by eapply spawn_step.
  - rewrite <- (app_nil_r (s_log s)). pose proof (inv_tasks s Hinv i t Ht) as Htask.
    eapply inv_update with (t := t) (new := []);
      [done|done|by constructor| |done|exact (inv_generation _ Hinv)|by left|by rewrite app_nil_r|constructor|done|constructor].
    destruct Htask. by constructor.
  - by eapply relay_step.
  - destruct (commit_same (s_rt s) st0 seed (inv_generation _ Hinv)). by apply inv_runtime.
  - apply inv_runtime; [done|done|exact (inv_generation _ Hinv)].
Qed.

Lemma reaches_inv st s : generation_ok st → (0 ≤ counter st)%Z → sys_reaches st s → sys_inv s.
Proof.
  intros Hg Hc Hr. unfold sys_reaches in Hr. remember (sys_start st) as s0 eqn:E0.
  assert (sys_inv s0) as H0.
  { subst. constructor; cbn; try done; by intros i t Hl%lookup_empty_Some || constructor. }
  clear E0. induction Hr as [s|s1 s2 s3 [Hroom Hs] _ IH]; [done|]. apply IH. by eapply step_inv.
Qed.

(** ** Isolation *)
Definition events_of (s : sys) : list IngressEvent := (s_log s).*2.
Definition session_events (v : Z) (s : sys) : list IngressEvent :=
  List.filter (λ e, bool_decide (session_of_event e = Some v)) (events_of s).

(** A session that only its task knows: all its events are the task's own. *)
Lemma session_owner s i t v o e :
  sys_inv s → s_tasks s !! i = Some t → v ∈ allocated (t_calls t) → v ∉ handed (t_calls t) → used_udp t = false →
  (o, e) ∈ s_log s → session_of_event e = Some v → o = Own i.
Proof.
  intros Hinv Ht Hv Hh Hu Hin He. pose proof (inv_log s Hinv) as Hlog. rewrite Forall_forall in Hlog.
  destruct (Hlog _ Hin) as (t0 & Ho & Hk & Hr). cbn [fst snd] in *. specialize (Hk v He).
  assert (owner o = i) as <-.
  { unfold known_of in Hk. apply elem_of_app in Hk as [Hk|Hk]; [by eapply (inv_disjoint s Hinv)|].
    destruct (inv_inherit s Hinv _ _ v Ho Hk) as (m & tm & Hm & Hma & Hmh).
    assert (m = i) as -> by by eapply (inv_disjoint s Hinv). assert (tm = t) as -> by congruence. done. }
  destruct o; [done|]. cbn in *. congruence.
Qed.
