(* ===== verification/InboundAccounts.v ===== *)
(** * InboundAccounts: every relayed connection is accounted for

    The TCP relay, the relay of captured TCP and SOCKS5 CONNECT leave two events for a
    connection that a decision was made for, and one for a connection that was not. Read
    back by [traffic_session.rs] from the log of the whole process, they give the session
    as it was. *)
From Stdlib Require Import ZArith Lia Strings.Byte Ascii String Sorting.Sorted.
From stdpp Require Import base list numbers option strings gmap sets relations.
From S2P Require Import Prelude Collections Net RustStd Model Stores Traffic MatrixStats Matrix Runtime DnsWire DnsResolve Bootstrap Observations ConfigData Egress Socks IngressFields IngressReport Inbound InboundPool InboundScope InboundIsolation.
Local Open Scope string_scope.
Local Open Scope nat_scope.

(** ** All runs of a program *)
Fixpoint all_runs {A} (p : prog A) (cs : list call) (Q : list call → A → Prop) : Prop :=
  match p with
  | Return a => Q cs a
  | Crash => True
  | Act a k => ∀ x, call_ok (Called a x) → all_runs (k x) (cs ++ [Called a x])%list Q
  end.

Lemma runs_all {A} (p q : prog A) cs Q : runs p cs q → Forall call_ok cs → all_runs p [] Q → all_runs q cs Q.
Proof.
  induction 1 as [|p cs a k x _ IH]; intros Hcs Hp; [done|].
  apply Forall_app in Hcs as [Hcs Hx]. rewrite Forall_singleton in Hx. exact (IH Hcs Hp x Hx).
Qed.

Lemma all_runs_mono {A} (p : prog A) cs (P Q : list call → A → Prop) :
  (∀ cs a, P cs a → Q cs a) → all_runs p cs P → all_runs p cs Q.
Proof.
  intros HPQ. revert cs. induction p as [a|a k IH|]; intros cs; cbn; [auto| |done]. intros Hk x Hx. by apply IH, Hk.
Qed.

Lemma all_runs_bind {A B} (m : prog A) (f : A → prog B) cs Q :
  all_runs m cs (λ cs' a, all_runs (f a) cs' Q) → all_runs (m ≫= f) cs Q.
Proof.
  revert cs. induction m as [a|a k IH|]; intros cs; cbn; [done| |done]. intros Hk x Hx. by apply IH, Hk.
Qed.

(** ** The fields of a session *)
Definition describes (f : Fields) (v : Z) (inbound protocol : string) (peer target : SocketAddr) (d : SelectionDecision)
    : Prop :=
  names v f ∧ field "inbound" f = Some inbound ∧ field "nodeProtocol" f = Some protocol ∧
  field "peer" f = Some (socket_to_string peer) ∧ field "target" f = Some (socket_to_string target) ∧
  field "decisionId" f = Some (to_string (decision_id d)) ∧
  field "configGeneration" f = Some (to_string (config_generation d)) ∧
  field "selectionTrace" f = Some (trace_labels d) ∧ field "direction" f = None.

Definition count_field (o : option Z) : option string := option_map to_string o.

(** How the outcome of the relay shows. *)
Definition reports (f : Fields) (target : SocketAddr) (r : EgressError + TcpRelayOutcome) : Prop :=
  match r with
  | inr o =>
      field "upstream" f = Some (socket_to_string (out_upstream o)) ∧
      field "clientToUpstreamBytes" f = Some (to_string (client_to_upstream_bytes o)) ∧
      field "upstreamToClientBytes" f = Some (to_string (upstream_to_client_bytes o)) ∧
      field "closeReason" f = Some (out_close_reason o) ∧ field "error" f = None ∧ field "errorStage" f = None
  | inl e =>
      field "upstream" f = Some (socket_to_string (error_upstream e target)) ∧
      field "clientToUpstreamBytes" f = count_field (ee_client_to_upstream_bytes e) ∧
      field "upstreamToClientBytes" f = count_field (ee_upstream_to_client_bytes e) ∧
      field "closeReason" f = None ∧ field "error" f = Some (ee_message e) ∧ field "errorStage" f = Some (ee_stage e)
  end.

Definition undecided (f : Fields) (v : Z) (inbound : string) : Prop :=
  names v f ∧ field "inbound" f = Some inbound ∧ field "decisionId" f = None ∧ is_Some (field "error" f).

Definition closing_kind (r : EgressError + TcpRelayOutcome) : IngressEventKind :=
  match r with inr _ => TcpClose | inl _ => TcpError end.

(** The events before the outcome tell nothing of it. *)
Definition opens (f : Fields) : Prop :=
  Forall (λ n, field n f = None) ["clientToUpstreamBytes"; "upstreamToClientBytes"; "closeReason"; "error"; "errorStage"].

(** The decision was made for the address that the relay went to, or the target was captured. *)
Definition judged (inbound : string) (session : TcpRelaySession) (cs : list call) : Prop :=
  ∃ c, Called (Select c) (Ok (relay_decision session)) ∈ cs ∧
       (inbound = TUN_INBOUND ∨ target_address (ctx_target c) = relay_target session).

(** What a finished relay of a connection has done. *)
Definition relayed (inbound : string) (peer : SocketAddr) (cs : list call) : Prop :=
  ∃ v, allocated cs = [v] ∧ handed cs = [] ∧ existsb is_udp cs = false ∧
    ((∃ f, recorded cs = [(TcpError, f)] ∧ undecided f v inbound) ∨
     (∃ session r protocol f1 f2,
        let d := relay_decision session in let target := relay_target session in
        Called (HandleTcp session) r ∈ cs ∧ judged inbound session cs ∧ decided_ok (Ok d) ∧ u64_counts r ∧
        recorded cs = [(TcpAccept, f1); (closing_kind r, f2)] ∧
        describes f1 v inbound protocol peer target d ∧ opens f1 ∧
        describes f2 v inbound protocol peer target d ∧ reports f2 target r)).

(** ** The fields of the builders *)
Definition describe_names : list string :=
  ["sessionId"; "inbound"; "nodeProtocol"; "peer"; "target"; "decisionId"; "configGeneration"; "selectionTrace"; "direction"].
Definition report_names : list string :=
  ["upstream"; "clientToUpstreamBytes"; "upstreamToClientBytes"; "closeReason"; "error"; "errorStage"].

(** Blocks that say nothing about the names of a list. *)
Definition silent (ns : list string) (f : Fields) : Prop := Forall (λ n, field n f = None) ns.

Ltac silences := repeat (apply Forall_cons; split; [reflexivity|]); apply Forall_nil_2.

Lemma silent_app ns a b : silent ns a → silent ns b → silent ns (a ++ b)%list.
Proof.
  intros Ha Hb. apply Forall_forall. intros n Hn. unfold silent in *. rewrite Forall_forall in Ha, Hb.
  by rewrite field_tail; [apply Ha|apply Hb].
Qed.

Lemma silent_nil ns : silent ns [].
Proof. by apply Forall_forall. Qed.

Lemma silent_field ns n f : silent ns f → n ∈ ns → field n f = None.
Proof. intros Hs. unfold silent in Hs. rewrite Forall_forall in Hs. apply Hs. Qed.

Lemma describes_app a b v inbound protocol peer target d :
  describes a v inbound protocol peer target d → silent describe_names b →
  describes (a ++ b)%list v inbound protocol peer target d.
Proof.
  intros Ha Hb. assert (∀ n, n ∈ describe_names → field n (a ++ b)%list = field n a) as He.
  { intros n Hn. apply field_tail. by eapply silent_field. }
  unfold describes, names in *. rewrite !He by (set_solver-). exact Ha.
Qed.

Lemma opens_more a b : opens a → silent (tail report_names) b → opens (a ++ b)%list.
Proof. apply silent_app. Qed.

Lemma context_silent c : silent describe_names (push_target_context_fields c) ∧ silent report_names (push_target_context_fields c).
Proof. unfold push_target_context_fields. destruct (target_domain c); split; silences. Qed.

Lemma dest_silent d : silent describe_names (push_destination_fields d) ∧ silent report_names (push_destination_fields d).
Proof. unfold push_destination_fields. destruct (dest_domain d); split; silences. Qed.

Lemma endpoint_silent a :
  silent describe_names (push_endpoint_fields "upstream" a) ∧ silent report_names (push_endpoint_fields "upstream" a).
Proof. split; silences. Qed.

Lemma decision_silent d : silent report_names (push_decision_fields d).
Proof.
  unfold push_decision_fields. destruct (matched_rule_id d), (ipv6_policy_source d); silences.
Qed.

Lemma outcome_silent o : silent describe_names (tcp_outcome_fields o).
Proof. silences. Qed.

Lemma upstream_silent a : silent describe_names (upstream_fields a).
Proof. silences. Qed.

Lemma egress_error_silent protocol e : silent describe_names (Egress.egress_error_fields protocol e).
Proof.
  unfold Egress.egress_error_fields. cbv zeta. generalize (classify_egress_error protocol e). intros s.
  destruct (ee_client_to_upstream_bytes e), (ee_upstream_to_client_bytes e); silences.
Qed.

Lemma egress_error_reports protocol e target a :
  field "upstream" a = Some (socket_to_string (error_upstream e target)) → opens a →
  reports (a ++ Egress.egress_error_fields protocol e)%list target (inl e).
Proof.
  intros Hu Ho. unfold opens in Ho. rewrite !Forall_cons in Ho. destruct Ho as (H1 & H2 & H3 & H4 & H5 & _).
  unfold reports. rewrite !field_app, Hu, H1, H2, H3.
  unfold Egress.egress_error_fields. cbv zeta. generalize (classify_egress_error protocol e). intros s.
  destruct (ee_client_to_upstream_bytes e), (ee_upstream_to_client_bytes e); split_and!; reflexivity.
Qed.

Lemma outcome_reports a target o :
  field "upstream" a = Some (socket_to_string (out_upstream o)) → opens a →
  reports (a ++ tcp_outcome_fields o)%list target (inr o).
Proof.
  intros Hu Ho. unfold opens in Ho. rewrite !Forall_cons in Ho. destruct Ho as (_ & _ & _ & H4 & H5 & _).
  unfold reports. rewrite !field_app, Hu, H4, H5. split_and!; reflexivity.
Qed.

Lemma reports_app a c target r : silent report_names c → reports a target r → reports (a ++ c)%list target r.
Proof.
  intros Hc Ha. assert (∀ n, n ∈ report_names → field n (a ++ c)%list = field n a) as He.
  { intros n Hn. apply field_tail. by eapply silent_field. }
  destruct r; unfold reports in *; rewrite !He by (set_solver-); exact Ha.
Qed.

Lemma decided_block v inbound protocol peer target up d :
  let f := (session_fields v inbound protocol peer target up ++ push_decision_fields d)%list in
  describes f v inbound protocol peer target d ∧ opens f ∧ field "upstream" f = Some (socket_to_string up).
Proof.
  cbv zeta. split; [|split].
  - unfold describes, names. rewrite !field_app. unfold push_decision_fields.
    destruct (matched_rule_id d), (ipv6_policy_source d); split_and!; reflexivity.
  - apply opens_more; [silences|]. pose proof (decision_silent d) as Hs. by apply Forall_cons in Hs as [_ ?].
  - apply field_tail. eapply silent_field; [apply decision_silent|apply list_elem_of_here].
Qed.

(** A block that says nothing, put between the session and the decision. *)
Lemma block_between v inbound protocol peer target up b d :
  silent describe_names b → silent report_names b →
  let f := (session_fields v inbound protocol peer target up ++ b ++ push_decision_fields d)%list in
  describes f v inbound protocol peer target d ∧ opens f ∧ field "upstream" f = Some (socket_to_string up).
Proof.
  intros Hb Hb'. cbv zeta. destruct (decided_block v inbound protocol peer target up d) as (Hd & Ho & Hu).
  assert (∀ n, n ∈ (describe_names ++ report_names)%list →
    field n (session_fields v inbound protocol peer target up ++ b ++ push_decision_fields d)%list =
    field n (session_fields v inbound protocol peer target up ++ push_decision_fields d)%list) as He.
  { intros n Hn. rewrite !field_app. destruct (field n (push_decision_fields d)); [done|].
    apply elem_of_app in Hn as [Hn|Hn]; [by rewrite (silent_field _ n b Hb Hn)|by rewrite (silent_field _ n b Hb' Hn)]. }
  split; [|split].
  - unfold describes, names in *. rewrite !He by (set_solver-). exact Hd.
  - unfold opens in *. rewrite Forall_forall in Ho. apply Forall_forall. intros n Hn.
    rewrite He; [by apply Ho|]. apply elem_of_app. right. by apply list_elem_of_further.
  - rewrite He by (set_solver-). exact Hu.
Qed.

Lemma decided_describes v inbound protocol peer target up c d :
  describes (decided_fields v inbound protocol peer target up c d) v inbound protocol peer target d ∧
  opens (decided_fields v inbound protocol peer target up c d) ∧
  field "upstream" (decided_fields v inbound protocol peer target up c d) = Some (socket_to_string up).
Proof. destruct (context_silent c). by apply block_between. Qed.

(** ** The three relays *)
Lemma all_runs_act {A} a (f : answer a → prog A) cs Q :
  (∀ x, call_ok (Called a x) → all_runs (f x) (cs ++ [Called a x])%list Q) → all_runs (act a ≫= f) cs Q.
Proof. exact id. Qed.

Lemma attempt_runs {E A} (m : prog (E + A)) (f : outcome E A → prog unit) cs Q :
  all_runs m cs (λ cs' r, all_runs (f (of_result r)) cs' Q) → all_runs (attempt m ≫= f) cs Q.
Proof.
  intros Hm. unfold attempt. apply all_runs_bind, all_runs_bind. eapply all_runs_mono, Hm. by intros cs' [].
Qed.

(** A run whose only event is an error before any decision. *)
Lemma relayed_refused inbound peer cs v f :
  allocated cs = [v] → handed cs = [] → existsb is_udp cs = false → recorded cs = [(TcpError, f)] →
  undecided f v inbound → relayed inbound peer cs.
Proof. intros Ha Hh Hu Hr Hf. exists v. split_and!; [done..|]. left. by exists f. Qed.

Lemma relayed_decided inbound peer cs v session r protocol f1 f2 :
  allocated cs = [v] → handed cs = [] → existsb is_udp cs = false → Called (HandleTcp session) r ∈ cs →
  judged inbound session cs →
  decided_ok (Ok (relay_decision session)) → u64_counts r →
  recorded cs = [(TcpAccept, f1); (closing_kind r, f2)] →
  describes f1 v inbound protocol peer (relay_target session) (relay_decision session) → opens f1 →
  describes f2 v inbound protocol peer (relay_target session) (relay_decision session) →
  reports f2 (relay_target session) r → relayed inbound peer cs.
Proof. intros. exists v. split_and!; [done..|]. right. by exists session, r, protocol, f1, f2. Qed.

Ltac called := cbn [app]; repeat first [apply list_elem_of_here|apply list_elem_of_further].

(** The events of a decision, for whatever the relay says in the end. *)
Lemma relayed_as inbound peer cs v session r protocol f1 f2 :
  allocated cs = [v] → handed cs = [] → existsb is_udp cs = false → Called (HandleTcp session) r ∈ cs →
  judged inbound session cs →
  decided_ok (Ok (relay_decision session)) → u64_counts r →
  recorded cs = [(TcpAccept, f1); (closing_kind r, f2)] →
  let opened f up := describes f v inbound protocol peer (relay_target session) (relay_decision session) ∧ opens f ∧
                     field "upstream" f = Some (socket_to_string up) in
  (∃ up, opened f1 up) →
  (∃ f b c, f2 = ((f ++ b) ++ c)%list ∧ silent describe_names c ∧ silent report_names c ∧
    match r with
    | inr o => opened f (out_upstream o) ∧ b = tcp_outcome_fields o
    | inl e => opened f (error_upstream e (relay_target session)) ∧ b = Egress.egress_error_fields protocol e
    end) → relayed inbound peer cs.
Proof.
  intros Ha Hh Hu Hin Hj Hd Hc Hr opened (up & Hf1 & Ho1 & _) (f & b & c & -> & Hs1 & Hs2 & Hf).
  eapply relayed_decided; [done..| |]; [apply describes_app; [|done]|apply reports_app; [done|]];
    destruct r as [e|o]; destruct Hf as ((Hf & Ho & Hup) & ->).
  - by apply describes_app, egress_error_silent.
  - by apply describes_app, outcome_silent.
  - by apply egress_error_reports.
  - by apply outcome_reports.
Qed.

Lemma tcp_session_runs config peer : all_runs (tcp_session config peer) [] (λ cs _, relayed TCP_INBOUND peer cs).
Proof.
  intros v _ r Hr. destruct r as [d|e|]; [|intros tag _ [] _|done].
  2: { eapply relayed_refused; [reflexivity..|]. split_and!; [reflexivity..|by eexists]. }
  intros protocol _ [] _ r Hc. destruct r as [e|o]; intros [] _;
    (eapply relayed_as; [reflexivity|reflexivity|reflexivity|called|eexists; split; [called|by right]|exact Hr|exact Hc|reflexivity| |]);
    try (eexists; apply decided_describes).
  - exists (session_fields v TCP_INBOUND protocol peer (tcp_upstream config) (error_upstream e (tcp_upstream config)) ++ push_decision_fields d)%list.
    eexists _, []. split; [unfold error_fields; by rewrite app_nil_r, <- app_assoc|].
    split; [apply silent_nil|split; [apply silent_nil|split; [apply decided_block|done]]].
  - eexists _, _, []. split; [by rewrite app_nil_r|]. split; [apply silent_nil|split; [apply silent_nil|split; [apply decided_describes|done]]].
Qed.

(** Calls that leave no trace in an account. *)
Definition quiet (l : list call) : Prop :=
  allocated l = [] ∧ handed l = [] ∧ existsb is_udp l = false ∧ recorded l = [].

Lemma quiet_app a b : quiet a → quiet b → quiet (a ++ b)%list.
Proof.
  intros (H1 & H2 & H3 & H4) (G1 & G2 & G3 & G4). unfold quiet.
  by rewrite allocated_app, handed_app, existsb_app, recorded_concat, H1, H2, H3, H4, G1, G2, G3, G4.
Qed.

Definition quietly {A} (m : prog A) (P : list call → A → Prop) : Prop :=
  ∀ cs, all_runs m cs (λ cs' a, ∃ l, cs' = (cs ++ l)%list ∧ quiet l ∧ P l a).

Lemma quietly_bind {A B} (m : prog A) (f : A → prog B) P cs Q :
  quietly m P → (∀ l a, quiet l → P l a → all_runs (f a) (cs ++ l)%list Q) → all_runs (m ≫= f) cs Q.
Proof.
  intros Hm Hf. apply all_runs_bind. eapply all_runs_mono, Hm. intros cs' a (l & -> & Hl & Hp). by apply Hf.
Qed.

Lemma quietly_then {A B} (m : prog A) (f : A → prog B) P Q :
  quietly m P → (∀ l a, quiet l → P l a → quietly (f a) (λ l' b, Q (l ++ l')%list b)) → quietly (m ≫= f) Q.
Proof.
  intros Hm Hf cs. eapply quietly_bind; [exact Hm|]. intros l a Hl Hp. eapply all_runs_mono, (Hf l a Hl Hp).
  intros cs' b (l' & -> & Hl' & Hq). exists (l ++ l')%list. rewrite app_assoc. split_and!; [done|by apply quiet_app|done].
Qed.

Lemma quietly_act a (P : list call → answer a → Prop) :
  (∀ x, call_ok (Called a x) → quiet [Called a x] ∧ P [Called a x] x) → quietly (act a) P.
Proof. intros Ha cs x Hx. destruct (Ha x Hx). by exists [Called a x]. Qed.

Lemma quietly_ret {A} (a : A) (P : list call → A → Prop) : P [] a → quietly (mret a) P.
Proof. intros Hp cs. exists []. by rewrite app_nil_r. Qed.

Definition any_result {A} : list call → A → Prop := λ _ _, True.

Lemma resolve_quiet a : quietly (resolve_socket_destination a) any_result.
Proof.
  unfold resolve_socket_destination. eapply quietly_then with (P := any_result); [by apply quietly_act|].
  intros l [domain|] _ _; [|by apply quietly_ret].
  eapply quietly_then with (P := any_result); [by apply quietly_act|].
  intros l' [r|e|] _ _; [by apply quietly_ret|by apply quietly_ret|by intros cs].
Qed.

(** A decision among the calls, for an address. *)
Definition chosen (a : SocketAddr) (l : list call) (r : outcome SelectionError SelectionDecision) : Prop :=
  decided_ok r ∧ ∃ c, Called (Select c) r ∈ l ∧ target_address (ctx_target c) = a.

Lemma run_select_quiet v inbound t : quietly (run_select v inbound t) (chosen (target_address t)).
Proof.
  unfold run_select. eapply quietly_then with (P := chosen (target_address t)).
  - apply quietly_act. intros r Hr. split; [done|]. split; [exact Hr|]. eexists. split; [apply list_elem_of_here|done].
  - intros l [d|e|] _ Hr; [by apply quietly_ret; rewrite app_nil_r|by apply quietly_ret; rewrite app_nil_r|by intros cs].
Qed.

Lemma chosen_judged inbound session cs l d a :
  chosen a l (Ok d) → relay_decision session = d → inbound = TUN_INBOUND ∨ a = relay_target session →
  (∀ c, c ∈ l → c ∈ cs) → judged inbound session cs.
Proof. intros (_ & c & Hc & <-) <- Ha Hl. exists c. split; [by apply Hl|exact Ha]. Qed.

(** A part of the calls. *)
Ltac among := let c := fresh in let H := fresh in intros c H; rewrite !elem_of_app; tauto.

(** The account of calls among quiet ones. *)
Ltac account :=
  repeat match goal with H : quiet ?l |- _ => destruct H as (? & ? & ? & ?) end;
  rewrite ?allocated_app, ?handed_app, ?existsb_app, ?recorded_concat;
  repeat match goal with H : _ = _ |- _ => rewrite H end; reflexivity.

Lemma captured_tcp_runs peer target idle :
  all_runs (server (relay_captured_tcp peer target idle)) [] (λ cs _, relayed TUN_INBOUND peer cs).
Proof.
  unfold server. apply all_runs_bind. unfold relay_captured_tcp. apply all_runs_act. intros v _.
  eapply quietly_bind; [apply resolve_quiet|]. intros l1 context Hl1 _.
  eapply quietly_bind; [apply run_select_quiet|]. intros l2 [d|e|] Hl2 Hr; [| |done].
  2: { intros [] _. eapply relayed_refused; [account|account|account|account|].
       split_and!; [apply names_selection_error| | |]; unfold selection_error_fields;
         destruct (err_matched_rule_id e); first [reflexivity|by eexists]. }
  apply all_runs_act. intros protocol _. apply all_runs_act. intros [] _. apply all_runs_act. intros r Hc.
  pose proof (decided_describes v TUN_INBOUND protocol peer target target context d) as H1.
  destruct r as [e|o]; intros [] _;
    (eapply relayed_as; [account|account|account|apply elem_of_app; left; apply elem_of_app; right; apply list_elem_of_here
                        |eapply chosen_judged; [exact Hr|done|by left|among]|apply Hr|exact Hc|account|eexists; exact H1|]).
  - unfold captured_error_fields.
    exists (session_fields v TUN_INBOUND protocol peer target (error_upstream e target)
            ++ push_target_context_fields context ++ push_decision_fields d)%list.
    exists (Egress.egress_error_fields protocol e), (push_endpoint_fields "upstream" (error_upstream e target)).
    split; [by rewrite <- !app_assoc|]. destruct (endpoint_silent (error_upstream e target)) as [Hs1 Hs2].
    destruct (context_silent context) as [Hc1 Hc2].
    split; [exact Hs1|split; [exact Hs2|split; [exact (block_between _ _ _ _ _ _ _ d Hc1 Hc2)|reflexivity]]].
  - eexists _, _, []. split; [by rewrite app_nil_r|]. split; [apply silent_nil|split; [apply silent_nil|split; [apply decided_describes|done]]].
Qed.

(** ** SOCKS5 *)
Lemma all_runs_try {E A B} (m : fallible E A) (f : A → fallible E B) cs Q :
  all_runs m cs (λ cs' r, match r with Ok a => all_runs (f a) cs' Q | Err e => Q cs' (Err e) | Panic => True end) →
  all_runs (try_ m f) cs Q.
Proof. intros Hm. apply all_runs_bind. eapply all_runs_mono, Hm. by intros cs' [a|e|]. Qed.

Lemma quietly_try {E A B} (m : fallible E A) (f : A → fallible E B) P cs Q :
  quietly m P → (∀ l a, quiet l → P l (Ok a) → all_runs (f a) (cs ++ l)%list Q) →
  (∀ l e, quiet l → Q (cs ++ l)%list (Err e)) → all_runs (try_ m f) cs Q.
Proof.
  intros Hm Hf He. apply all_runs_try. eapply all_runs_mono, Hm.
  intros cs' [a|e|] (l & -> & Hl & Hp); [by apply Hf|by apply He|done].
Qed.

Lemma resolve_destination_quiet d : quietly (resolve_destination d) any_result.
Proof.
  destruct d as [a|domain port]; cbn [resolve_destination].
  - eapply quietly_then; [apply resolve_quiet|]. intros l c _ _. by apply quietly_ret.
  - eapply quietly_then with (P := any_result); [by apply quietly_act|].
    intros l [a|e|] _ _; [by apply quietly_ret|by apply quietly_ret|by intros cs].
Qed.

Lemma select_target_quiet v inbound c :
  quietly (select_target v inbound c) (λ l r, match r with Ok d => chosen (target_address c) l (Ok d) | _ => True end).
Proof.
  unfold select_target. eapply quietly_then; [apply run_select_quiet|].
  intros l r _ Hr. apply quietly_ret. rewrite app_nil_r. by destruct r.
Qed.

Lemma write_reply_quiet reply bind : quietly (write_reply reply bind) any_result.
Proof.
  unfold write_reply, attempt. eapply quietly_then with (P := any_result); [by apply quietly_act|].
  intros l r _ _. by apply quietly_ret.
Qed.

Lemma not_supported_quiet m : quietly (not_supported m) any_result.
Proof.
  unfold not_supported, try_. eapply quietly_then; [apply write_reply_quiet|].
  intros l [[]|e|] _ _; [by apply quietly_ret|by apply quietly_ret|by intros cs].
Qed.

(** What follows [handle_client]. *)
Definition socks_end (v : Z) (peer : SocketAddr) (r : option (socks unit)) : prog unit :=
  match r with Some (Err e) => record_socks_error v peer e | Some Panic => Crash | _ => mret tt end.

Lemma socks_failed v peer l e :
  quiet l →
  all_runs (socks_end v peer (Some (Err e))) ([Called NextSessionId v] ++ l)%list (λ cs _, relayed SOCKS5_INBOUND peer cs).
Proof.
  intros Hl [] _. eapply (relayed_refused _ _ _ v); [account|account|account|account|].
  split; [apply names_socks_error|]. split; [reflexivity|]. split; [reflexivity|by eexists].
Qed.

Lemma socks_block v protocol peer target up dest c d :
  silent describe_names c → silent report_names c →
  let f := (session_fields v SOCKS5_INBOUND protocol peer target up
            ++ (push_destination_fields dest ++ c) ++ push_decision_fields d)%list in
  describes f v SOCKS5_INBOUND protocol peer target d ∧ opens f ∧ field "upstream" f = Some (socket_to_string up).
Proof. destruct (dest_silent dest). intros Hc1 Hc2. apply block_between; by apply silent_app. Qed.

(** The block of an accepted connection, and of a closed one, whose upstream comes later. *)
Lemma socks_decided v protocol peer target dest c d :
  let f := socks_decided_fields v protocol peer target dest c d in
  describes f v SOCKS5_INBOUND protocol peer target d ∧ opens f ∧ field "upstream" f = Some (socket_to_string target).
Proof.
  cbv zeta. unfold socks_decided_fields, socks_session_fields. destruct (context_silent c).
  rewrite <- app_assoc, (app_assoc (push_destination_fields dest)). by apply socks_block.
Qed.

Lemma upstream_appended v protocol peer target up0 d f a :
  describes f v SOCKS5_INBOUND protocol peer target d ∧ opens f ∧ field "upstream" f = Some up0 →
  let g := (f ++ upstream_fields a)%list in
  describes g v SOCKS5_INBOUND protocol peer target d ∧ opens g ∧ field "upstream" g = Some (socket_to_string a).
Proof.
  intros (Hd & Ho & _). cbv zeta. split; [|split].
  - apply describes_app; [exact Hd|apply upstream_silent].
  - apply opens_more; [exact Ho|silences].
  - by rewrite field_app.
Qed.

Lemma handle_connect_runs v peer dest l0 :
  quiet l0 →
  all_runs (handle_connect peer v dest) ([Called NextSessionId v] ++ l0)%list
    (λ cs r, all_runs (socks_end v peer (Some r)) cs (λ cs _, relayed SOCKS5_INBOUND peer cs)).
Proof.
  intros Hl0. unfold handle_connect.
  eapply quietly_try; [apply resolve_destination_quiet| |].
  2: { intros l e Hl. rewrite <- app_assoc. apply socks_failed. by apply quiet_app. }
  intros l1 context Hl1 _. eapply quietly_try; [apply select_target_quiet| |].
  2: { intros l e Hl. rewrite <- !app_assoc. apply socks_failed. repeat apply quiet_app; assumption. }
  intros l2 d Hl2 Hd. eapply quietly_try; [apply write_reply_quiet| |].
  2: { intros l e Hl. rewrite <- !app_assoc. apply socks_failed. repeat apply quiet_app; assumption. }
  intros l3 [] Hl3 _. apply all_runs_act. intros protocol _. apply all_runs_act. intros [] _.
  apply all_runs_act. intros r Hc.
  pose proof (socks_decided v protocol peer (target_address context) dest context d) as H1.
  destruct r as [e|o]; intros [] _;
    (eapply relayed_as; [account|account|account|apply elem_of_app; left; apply elem_of_app; right; apply list_elem_of_here
                        |eapply chosen_judged; [exact Hd|done|by right|among]|apply Hd|exact Hc|account|eexists; exact H1|]).
  - exists (session_fields v SOCKS5_INBOUND protocol peer (target_address context) (error_upstream e (target_address context))
            ++ (push_destination_fields dest ++ []) ++ push_decision_fields d)%list.
    exists (Egress.egress_error_fields protocol e), []. unfold socks_egress_error_fields.
    split; [by rewrite !app_nil_r, <- !app_assoc|].
    split; [apply silent_nil|split; [apply silent_nil|split; [|reflexivity]]]. apply socks_block; apply silent_nil.
  - eexists _, _, []. split; [by rewrite app_nil_r, app_assoc|].
    split; [apply silent_nil|split; [apply silent_nil|split; [|reflexivity]]]. exact (upstream_appended _ _ _ _ _ _ _ _ H1).
Qed.

(** The request of a client, if it gets that far. *)
Definition requested (s : stream) (accepts : bool) : socks (SocksRequest * stream) :=
  s1 ← (negotiate_no_auth s accepts).2; read_request s1.

Definition no_association (s : stream) (accepts : bool) : Prop :=
  ∀ request rest, requested s accepts = Ok (request, rest) → command request ≠ SOCKS_CMD_UDP_ASSOCIATE.

Lemma socks_session_runs n config peer s accepts :
  no_association s accepts →
  all_runs (socks_session n config peer s accepts) [] (λ cs _, relayed SOCKS5_INBOUND peer cs).
Proof.
  intros Hs. unfold socks_session. apply all_runs_act. intros v _. apply all_runs_bind. unfold handle_client.
  unfold no_association, requested in Hs. destruct (negotiate_no_auth s accepts) as [method r]. cbn [snd] in Hs.
  apply all_runs_act. intros [] _. assert (quiet [Called (Wrote method) ()]) as Hq by done.
  change ([] ++ [Called NextSessionId v])%list with [Called NextSessionId v].
  destruct (r ≫= read_request) as [[request rest]|e|] eqn:E; [|by apply (socks_failed v peer _ e)|done].
  assert (∀ m, all_runs (Some <$> not_supported m) ([Called NextSessionId v] ++ [Called (Wrote method) ()])%list
    (λ cs r, all_runs (socks_end v peer r) cs (λ cs _, relayed SOCKS5_INBOUND peer cs))) as Hns.
  { intros m. apply all_runs_bind, all_runs_try. eapply all_runs_mono, write_reply_quiet.
    intros cs' [[]|e|] (l & -> & Hl & _); [|rewrite <- app_assoc; by apply socks_failed, quiet_app|done].
    rewrite <- app_assoc. by apply (socks_failed v peer), quiet_app. }
  destruct (command request =? SOCKS_CMD_CONNECT)%Z; [apply all_runs_bind; by apply (handle_connect_runs v peer)|].
  destruct (Z.eqb_spec (command request) SOCKS_CMD_UDP_ASSOCIATE) as [Hu|_]; [by destruct (Hs request rest eq_refl)|].
  destruct (_ =? _)%Z; apply Hns.
Qed.

(** ** From the log back to the session *)
Lemma updates_for_app k a b : updates_for k (a ++ b) = (updates_for k a ++ updates_for k b)%list.
Proof. unfold updates_for, updates_of. by rewrite omap_app, List.filter_app. Qed.

Lemma updates_for_one k e :
  updates_for k [e] =
    match session_update_from_event e with
    | Some u => if String.eqb (up_session_key u) k then [u] else []
    | None => []
    end.
Proof. unfold updates_for, updates_of. cbn. destruct (session_update_from_event e) as [u|]; cbn; [by destruct (String.eqb _ k)|done]. Qed.

Lemma updates_for_owned k i l :
  Forall (λ p : origin * IngressEvent, ∀ u, session_update_from_event p.2 = Some u → up_session_key u = k → p.1 = Own i) l →
  updates_for k l.*2 = updates_for k (own_events i l).
Proof.
  induction 1 as [|[o e] l Hp _ IH]; [done|].
  change (((o, e) :: l).*2) with ([e] ++ l.*2)%list. change ((o, e) :: l) with ([(o, e)] ++ l)%list.
  rewrite own_events_app, !updates_for_app, IH. f_equal. cbn [fst snd] in Hp. rewrite updates_for_one.
  assert (own_events i [(o, e)] = [e] ∨ own_events i [(o, e)] = [] ∧ o ≠ Own i) as [->|[-> Ho]].
  { destruct o as [j|j]; cbn; [|by right]. destruct (Nat.eqb_spec j i); [by left|right]. split; [done|congruence]. }
  - by rewrite updates_for_one.
  - destruct (session_update_from_event e) as [u|]; [|done].
    destruct (String.eqb_spec (up_session_key u) k) as [Hk|]; [|done]. by destruct Ho, (Hp u).
Qed.

Lemma updates_own s i t v e0 u0 :
  sys_inv s → s_tasks s !! i = Some t → v ∈ allocated (t_calls t) → v ∉ handed (t_calls t) → used_udp t = false →
  session_update_from_event e0 = Some u0 → up_session_id u0 = v →
  updates_for (up_session_key u0) (events_of s) = updates_for (up_session_key u0) (own_events i (s_log s)).
Proof.
  intros Hinv Ht Hv Hh Hu He0 Hid. apply updates_for_owned, Forall_forall. intros [o e] Hin u He Hk. cbn [fst snd] in *.
  destruct (session_key_identifies _ _ _ _ He He0 Hk) as (_ & Hs & _).
  eapply session_owner; [exact Hinv|exact Ht|exact Hv|exact Hh|exact Hu|exact Hin|].
  unfold session_of_event. rewrite He. cbn. by rewrite Hs, Hid.
Qed.

(** The session that a finished relay should leave. *)
Definition accounted (v : Z) (inbound : string) (peer : SocketAddr) (session : TcpRelaySession)
    (r : EgressError + TcpRelayOutcome) (t : TrafficSession) : Prop :=
  let d := relay_decision session in
  ts_session_id t = v ∧ ts_inbound t = inbound ∧ ts_decision_id t = Some (decision_id d) ∧
  ts_config_generation t = Some (config_generation d) ∧ ts_peer t = Some (socket_to_string peer) ∧
  ts_target t = Some (socket_to_string (relay_target session)) ∧ ts_selection_trace t = Some (trace_labels d) ∧
  is_Some (ts_closed_at t) ∧ is_Some (ts_duration t) ∧
  match r with
  | inr o =>
      ts_upstream t = Some (socket_to_string (out_upstream o)) ∧
      ts_client_to_upstream_bytes t = client_to_upstream_bytes o ∧
      ts_upstream_to_client_bytes t = upstream_to_client_bytes o ∧
      ts_close_reason t = Some (out_close_reason o) ∧ ts_error t = None
  | inl e =>
      ts_upstream t = Some (socket_to_string (error_upstream e (relay_target session))) ∧
      ts_client_to_upstream_bytes t = default 0%Z (ee_client_to_upstream_bytes e) ∧
      ts_upstream_to_client_bytes t = default 0%Z (ee_upstream_to_client_bytes e) ∧
      ts_close_reason t = None ∧ ts_error t = Some (ee_message e) ∧ ts_error_stage t = Some (ee_stage e)
  end.

Lemma parse_count o : (∀ n, o = Some n → in_u 64 n) →
  match count_field o with Some v => parse_u64 v | None => None end = o.
Proof. intros Ho. destruct o as [n|]; cbn; [|done]. by apply parse_u64_to_string, Ho. Qed.

(** The session of two updates, the second of which closes it, without datagrams. *)
Lemma session_of_two u1 u2 :
  up_closes_session u2 = true → up_client_to_upstream_datagram u1 = None → up_client_to_upstream_datagram u2 = None →
  up_upstream_to_client_datagram u1 = None → up_upstream_to_client_datagram u2 = None →
  let t := session_of u1 [u2] in
  ts_session_id t = up_session_id u1 ∧ ts_inbound t = up_inbound u1 ∧
  ts_decision_id t = opt_or (opt_or (up_decision_id u1) (up_decision_id u1)) (up_decision_id u2) ∧
  ts_config_generation t =
    opt_or (opt_or (up_config_generation u1) (up_config_generation u1)) (up_config_generation u2) ∧
  ts_peer t = set_if_some (set_if_some None (up_peer u1)) (up_peer u2) ∧
  ts_target t = set_if_some (set_if_some None (up_target u1)) (up_target u2) ∧
  ts_selection_trace t = set_if_some (set_if_some None (up_selection_trace u1)) (up_selection_trace u2) ∧
  is_Some (ts_closed_at t) ∧ is_Some (ts_duration t) ∧
  ts_upstream t = set_if_some (set_if_some None (up_upstream u1)) (up_upstream u2) ∧
  ts_client_to_upstream_bytes t = default (default 0%Z (up_client_to_upstream_bytes u1)) (up_client_to_upstream_bytes u2) ∧
  ts_upstream_to_client_bytes t = default (default 0%Z (up_upstream_to_client_bytes u1)) (up_upstream_to_client_bytes u2) ∧
  ts_close_reason t = set_if_some (set_if_some None (up_close_reason u1)) (up_close_reason u2) ∧
  ts_error t = set_if_some (set_if_some None (up_error u1)) (up_error u2) ∧
  ts_error_stage t = set_if_some (set_if_some None (up_error_stage u1)) (up_error_stage u2).
Proof.
  intros Hc H1 H2 H3 H4. cbv zeta. unfold session_of. cbn [fold_left].
  destruct u1, u2; cbn in Hc, H1, H2, H3, H4; subst.
  repeat match goal with |- _ ∧ _ => split end; first [reflexivity|eexists; reflexivity].
Qed.

Lemma accounted_session v inbound protocol peer session r f1 f2 at1 at2 k :
  let d := relay_decision session in let target := relay_target session in
  decided_ok (Ok d) → u64_counts r → is_close_event k = true →
  describes f1 v inbound protocol peer target d → opens f1 →
  describes f2 v inbound protocol peer target d → reports f2 target r →
  accounted v inbound peer session r
    (session_of (update_at TcpAccept at1 v (Some (decision_id d)) (λ n, field n f1))
                [update_at k at2 v (Some (decision_id d)) (λ n, field n f2)]).
Proof.
  cbv zeta. intros [Hd Hg] Hc Hk (_ & I1 & P1 & E1 & T1 & _ & G1 & S1 & D1) Ho (_ & I2 & P2 & E2 & T2 & _ & G2 & S2 & D2) Hr.
  unfold opens in Ho. rewrite !Forall_cons in Ho. destruct Ho as (O1 & O2 & O3 & O4 & O5 & _).
  set (u1 := update_at TcpAccept at1 v _ _). set (u2 := update_at k at2 v _ _).
  destruct (session_of_two u1 u2) as (A1 & A2 & A3 & A4 & A5 & A6 & A7 & A8 & A9 & A10 & A11 & A12 & A13 & A14 & A15);
    [exact Hk|unfold u1, u2; cbn; by rewrite ?D1, ?D2..|].
  unfold accounted. cbv zeta. rewrite A1, A2, A3, A4, A5, A6, A7, A10, A11, A12, A13, A14, A15.
  clear A1 A2 A3 A4 A5 A6 A7 A10 A11 A12 A13 A14 A15.
  unfold u1, u2. cbn [update_at up_session_id up_inbound up_decision_id up_config_generation up_peer up_target
    up_selection_trace up_upstream up_client_to_upstream_bytes up_upstream_to_client_bytes up_close_reason up_error up_error_stage].
  rewrite I1, G1, G2, E1, E2, T1, T2, S1, S2, O1, O2, O3, O4, O5, parse_u64_to_string by done.
  repeat (split; [reflexivity||assumption|]).
  destruct r as [e|o]; unfold reports in Hr; cbn [u64_counts] in Hc; destruct Hc as [Hc1 Hc2].
  - destruct Hr as (-> & -> & -> & -> & -> & ->). rewrite !parse_count by done. by destruct (ee_client_to_upstream_bytes e), (ee_upstream_to_client_bytes e).
  - destruct Hr as (-> & -> & -> & -> & -> & _). by rewrite !parse_u64_to_string by done.
Qed.

(** The tasks that relay one TCP connection, with the inbound they report. *)
Inductive relay_task (peer : SocketAddr) : string → prog unit → Prop :=
| relay_tcp config : relay_task peer TCP_INBOUND (tcp_session config peer)
| relay_captured target idle : relay_task peer TUN_INBOUND (server (relay_captured_tcp peer target idle))
| relay_socks n config s accepts :
    no_association s accepts → relay_task peer SOCKS5_INBOUND (socks_session n config peer s accepts).

Lemma relay_task_runs peer inbound p : relay_task peer inbound p → all_runs p [] (λ cs _, relayed inbound peer cs).
Proof. intros []; [apply tcp_session_runs|apply captured_tcp_runs|by apply socks_session_runs]. Qed.

Lemma own_pair s i t kf :
  sys_inv s → s_tasks s !! i = Some t → recorded (t_calls t) = [kf] →
  ∃ id at_, own_events i (s_log s) = [event_with id at_ kf.1 kf.2].
Proof.
  intros Hinv Ht Hr. pose proof (inv_own s Hinv i t Ht) as Ho. rewrite Hr in Ho.
  apply Forall2_cons_inv_r in Ho as (e & l & (id & at_ & ->) & Hn & ->). apply Forall2_nil_inv_r in Hn as ->.
  by exists id, at_.
Qed.

Lemma own_two s i t kf kf' :
  sys_inv s → s_tasks s !! i = Some t → recorded (t_calls t) = [kf; kf'] →
  ∃ id at_ id' at', own_events i (s_log s) = [event_with id at_ kf.1 kf.2; event_with id' at' kf'.1 kf'.2].
Proof.
  intros Hinv Ht Hr. pose proof (inv_own s Hinv i t Ht) as Ho. rewrite Hr in Ho.
  apply Forall2_cons_inv_r in Ho as (e & l & (id & at_ & ->) & Hn & ->).
  apply Forall2_cons_inv_r in Hn as (e' & l' & (id' & at' & ->) & Hn & ->). apply Forall2_nil_inv_r in Hn as ->.
  by exists id, at_, id', at'.
Qed.

(** C3: every TCP connection that the process relays is accounted for exactly once, whatever
    runs beside it: for each finished task of the TCP relay, of captured TCP or of SOCKS5
    (other than a UDP association) the log of the whole process holds under the key of its
    session either one closing event with an error, when no decision was made, or two events,
    and the session read back from them is the one that was relayed: its decision, its peer
    and target, the bytes of both directions, its upstream, and how it ended. The decision
    was made for the address that was dialled, unless the connection was captured. *)
Theorem relays_accounted st s i t peer inbound :
  generation_ok st → (0 ≤ counter st)%Z → sys_reaches st s → s_tasks s !! i = Some t →
  relay_task peer inbound (t_start t) → t_prog t = Return tt →
  ∃ v, allocated (t_calls t) = [v] ∧
    ((∃ u, updates_for (session_key inbound v None) (events_of s) = [u] ∧ up_closes_session u = true ∧
           is_Some (up_error u)) ∨
     (∃ session r u1 u2,
        Called (HandleTcp session) r ∈ t_calls t ∧ judged inbound session (t_calls t) ∧
        updates_for (session_key inbound v (Some (decision_id (relay_decision session)))) (events_of s) = [u1; u2] ∧
        accounted v inbound peer session r (session_of u1 [u2]))).
Proof.
  intros Hg Hc Hreach Ht Htask Hret. pose proof (reaches_inv _ _ Hg Hc Hreach) as Hinv.
  pose proof (inv_tasks s Hinv i t Ht) as Hi.
  pose proof (runs_all _ _ _ _ (inv_run _ _ Hi) (inv_calls _ _ Hi) (relay_task_runs _ _ _ Htask)) as Hrel.
  rewrite Hret in Hrel. destruct Hrel as (v & Hv & Hh & Hu & Hrel). exists v. split; [done|].
  assert (used_udp t = false) as Hused by (unfold used_udp; by rewrite Hu, Hret).
  assert (v ∈ allocated (t_calls t)) as Hin by (rewrite Hv; apply list_elem_of_here).
  assert (v ∉ handed (t_calls t)) as Hnh by (rewrite Hh; apply not_elem_of_nil).
  assert (in_u 64 v) as Hr64 by (apply (inv_range _ _ Hi); unfold known_of; apply elem_of_app; by left).
  destruct Hrel as [(f & Hrec & Hn & Hi1 & Hd & He)|(session & r & protocol & f1 & f2 & Hrel)]; [left|right].
  - destruct (own_pair s i t _ Hinv Ht Hrec) as (id & at_ & Hown). cbn [fst snd] in Hown.
    assert (session_update_from_event (event_with id at_ TcpError f) = Some (update_at TcpError at_ v None (λ n, field n f))) as Hup
      by (apply update_of_event; [reflexivity|exact Hn|exact Hr64|exact Hd|intros x Hx; discriminate Hx|by left]).
    exists (update_at TcpError at_ v None (λ n, field n f)). split; [|split; [reflexivity|exact He]].
    assert (session_key inbound v None = up_session_key (update_at TcpError at_ v None (λ n, field n f))) as ->
      by (cbn [update_at up_session_key]; by rewrite Hi1).
    rewrite (updates_own s i t v _ _ Hinv Ht Hin Hnh Hused Hup eq_refl), Hown, updates_for_one, Hup.
    by rewrite String.eqb_refl.
  - cbv zeta in Hrel. destruct Hrel as (Hcall & Hj & Hok & Hcnt & Hrec & Hd1 & Ho & Hd2 & Hrep).
    destruct (own_two s i t _ _ Hinv Ht Hrec) as (id & at_ & id' & at' & Hown). cbn [fst snd] in Hown.
    set (d := relay_decision session) in *.
    assert (∀ k id at_ f, is_dns_event k = false → describes f v inbound protocol peer (relay_target session) d →
      session_update_from_event (event_with id at_ k f) = Some (update_at k at_ v (Some (decision_id d)) (λ n, field n f)) ∧
      up_session_key (update_at k at_ v (Some (decision_id d)) (λ n, field n f)) = session_key inbound v (Some (decision_id d)))
      as Hup.
    { intros k id0 at0 f Hk (Hn & Hi1 & _ & _ & _ & Hdid & _). split.
      - apply update_of_event; [done|done|done|done| |by right]. intros x [= <-]. apply Hok.
      - cbn [update_at up_session_key]. by rewrite Hi1. }
    destruct (Hup TcpAccept id at_ f1 eq_refl Hd1) as [Hup1 Hkey1].
    destruct (Hup (closing_kind r) id' at' f2) as [Hup2 Hkey2]; [by destruct r|exact Hd2|].
    exists session, r, (update_at TcpAccept at_ v (Some (decision_id d)) (λ n, field n f1)),
      (update_at (closing_kind r) at' v (Some (decision_id d)) (λ n, field n f2)).
    split; [exact Hcall|split; [exact Hj|split]].
    + fold d. rewrite <- Hkey1. rewrite (updates_own s i t v _ _ Hinv Ht Hin Hnh Hused Hup1 eq_refl), Hown.
      change [?a; ?b] with ([a] ++ [b])%list. rewrite updates_for_app, !updates_for_one, Hup1, Hup2, Hkey1, Hkey2.
      by rewrite String.eqb_refl.
    + apply (accounted_session v inbound protocol peer session r f1 f2);
        [exact Hok|exact Hcnt|by destruct r|exact Hd1|exact Ho|exact Hd2|exact Hrep].
Qed.
