(* ===== verification/InboundPermits.v ===== *)
(** * InboundPermits: a server spawns a session only with a permit

    The system lets a task spawn whatever it asks for. That the three servers with a
    semaphore spawn the task of a connection only after they got a permit for it, one task
    for one permit, is a property of their programs: [spends] counts the permits that a
    program holds along every sequence of answers. *)
From Stdlib Require Import ZArith Lia Strings.Byte Ascii String Sorting.Sorted.
From stdpp Require Import base list numbers option strings gmap sets relations.
From S2P Require Import Prelude Collections Net RustStd Model Stores Traffic MatrixStats Matrix Runtime DnsWire DnsResolve Bootstrap Observations ConfigData Egress Socks IngressFields Inbound InboundPool.
Local Open Scope string_scope.
Local Open Scope nat_scope.

(** ** Counting permits *)
Definition can_do (a : action) (held : nat) : Prop :=
  match a with Spawn c => takes_permit c = true → 0 < held | _ => True end.

Definition held_after (a : action) : answer a → nat → nat :=
  match a with
  | TryAcquire => λ got h, if got then S h else h
  | Spawn c => λ _ h, if takes_permit c then pred h else h
  | _ => λ _ h, h
  end.

Fixpoint spends {A} (held : nat) (p : prog A) (Q : nat → A → Prop) : Prop :=
  match p with
  | Return a => Q held a
  | Crash => True
  | Act a k => can_do a held ∧ ∀ x, spends (held_after a x held) (k x) Q
  end.

Abbreviation frugal held p := (spends held p (λ _ _, True)).

Lemma spends_bind {A B} h (m : prog A) (f : A → prog B) Q :
  spends h m (λ h' a, spends h' (f a) Q) → spends h (m ≫= f) Q.
Proof.
  revert h; induction m as [a|a k IH|]; intros h; cbn; [done| |done].
  intros [Ha Hk]. split; [done|]. intros x. apply IH, Hk.
Qed.

(** Programs that have to do with no permit. *)
Definition lends_nothing (a : action) : bool :=
  match a with TryAcquire => false | Spawn c => negb (takes_permit c) | _ => true end.

Fixpoint modest {A} (p : prog A) : Prop :=
  match p with Act a k => lends_nothing a = true ∧ ∀ x, modest (k x) | _ => True end.

Lemma modest_spends {A} h (p : prog A) (Q : nat → A → Prop) : modest p → (∀ a, Q h a) → spends h p Q.
Proof.
  intros Hp HQ. revert Hp. induction p as [a|a k IH|]; cbn; [intros _; apply HQ| |done].
  intros [Ha Hk]. split.
  - destruct a; cbn in *; try exact I. intros Hc. by rewrite Hc in Ha.
  - intros x. assert (held_after a x h = h) as -> by
      (destruct a; cbn in *; try reflexivity; [discriminate|by destruct (takes_permit c)]).
    by apply IH.
Qed.

Lemma modest_bind {A B} (m : prog A) (f : A → prog B) : modest m → (∀ a, modest (f a)) → modest (m ≫= f).
Proof. intros Hm Hf. revert Hm. induction m as [a|a k IH|]; cbn; [intros _; apply Hf| |done]. naive_solver. Qed.

Lemma modest_act a : lends_nothing a = true → modest (act a).
Proof. by split. Qed.

Lemma modest_fmap {A B} (f : A → B) (m : prog A) : modest m → modest (f <$> m).
Proof. intros Hm. by apply modest_bind. Qed.

Lemma modest_try {E A B} (m : fallible E A) (f : A → fallible E B) :
  modest m → (∀ a, modest (f a)) → modest (try_ m f).
Proof. intros Hm Hf. apply modest_bind; [exact Hm|]. intros []; [apply Hf|exact I|exact I]. Qed.

Create HintDb modest.

Ltac modest1 :=
  first
    [ exact I
    | apply modest_act; reflexivity
    | progress auto with modest nocore
    | apply modest_bind; [|intros ?]
    | apply modest_try; [|intros ?]
    | apply modest_fmap
    | lazymatch goal with
      | |- modest (match ?x with _ => _ end) => destruct x
      | |- modest (let x := _ in _) => cbv zeta
      | |- modest (record _ _) => unfold record
      | |- modest (attempt _) => unfold attempt
      end ].

Ltac modest := repeat modest1.

(** ** The handlers that have to do with no permit *)
Lemma run_select_modest s inbound t : modest (run_select s inbound t).
Proof. unfold run_select. modest. Qed.
#[export] Hint Resolve run_select_modest : modest.

Lemma tcp_session_modest config peer : modest (tcp_session config peer).
Proof. unfold tcp_session, tcp_finish. modest. Qed.

Lemma udp_association_modest t : modest (udp_association t).
Proof. unfold udp_association. modest. Qed.

Lemma udp_received_modest config m payload peer : modest (udp_received config m payload peer).
Proof. unfold udp_received, udp_refuse, udp_open, udp_forward. modest. Qed.
#[export] Hint Resolve udp_received_modest : modest.

Lemma run_udp_modest n config m : modest (run_udp n config m).
Proof. revert m. induction n as [|n IH]; intros m; cbn [run_udp]; modest. Qed.

Lemma resolve_socket_destination_modest a : modest (resolve_socket_destination a).
Proof. unfold resolve_socket_destination. modest. Qed.
#[export] Hint Resolve resolve_socket_destination_modest : modest.

Lemma relay_captured_tcp_modest peer target idle : modest (relay_captured_tcp peer target idle).
Proof. unfold relay_captured_tcp, tcp_close_outcome. modest. Qed.

Lemma relay_captured_udp_modest peer target idle response : modest (relay_captured_udp peer target idle response).
Proof. unfold relay_captured_udp, captured_udp_relay, await_udp_error, await_udp_outcome. modest. Qed.

Lemma resolve_destination_modest d : modest (resolve_destination d).
Proof. unfold resolve_destination. modest. Qed.

Lemma select_target_modest s inbound c : modest (select_target s inbound c).
Proof. unfold select_target. modest. Qed.
#[export] Hint Resolve resolve_destination_modest select_target_modest : modest.

Lemma handle_connect_modest peer s dest : modest (handle_connect peer s dest).
Proof. unfold handle_connect, write_reply. modest. Qed.

Lemma socks_udp_association_modest t : modest (socks_udp_association t).
Proof. unfold socks_udp_association. modest. Qed.

Lemma socks_udp_received_modest config peer s m datagram p : modest (socks_udp_received config peer s m datagram p).
Proof. unfold socks_udp_received, socks_sender. modest. Qed.
#[export] Hint Resolve handle_connect_modest socks_udp_received_modest : modest.

Lemma run_socks_udp_loop_modest n config peer s m : modest (run_socks_udp_loop n config peer s m).
Proof. revert m. induction n as [|n IH]; intros m; cbn [run_socks_udp_loop]; modest. Qed.
#[export] Hint Resolve run_socks_udp_loop_modest : modest.

Lemma handle_udp_associate_modest n config peer s : modest (handle_udp_associate n config peer s).
Proof. unfold handle_udp_associate, write_reply. modest. Qed.

Lemma not_supported_modest m : modest (not_supported m).
Proof. unfold not_supported, write_reply. modest. Qed.
#[export] Hint Resolve handle_udp_associate_modest not_supported_modest : modest.

Lemma socks_session_modest n config peer s accepts : modest (socks_session n config peer s accepts).
Proof. unfold socks_session, handle_client, record_socks_error. modest. Qed.

Lemma resolve_query_modest peer query transport : modest (resolve_query peer query transport).
Proof. unfold resolve_query. modest. Qed.
#[export] Hint Resolve resolve_query_modest : modest.

Lemma run_dns_udp_modest n : modest (run_dns_udp n).
Proof. induction n as [|n IH]; cbn [run_dns_udp]; modest. Qed.

Lemma dns_session_loop_modest fuel peer s broken : modest (dns_session_loop fuel peer s broken).
Proof.
  revert s. induction fuel as [|fuel IH]; intros s; cbn [dns_session_loop]; unfold unless_cancelled; modest.
Qed.
#[export] Hint Resolve dns_session_loop_modest : modest.

Lemma dns_tcp_session_modest peer s broken : modest (dns_tcp_session peer s broken).
Proof. unfold dns_tcp_session, handle_tcp_session. modest. Qed.

(** ** The servers with a semaphore *)

(** One round: a permit is taken, and with it the task of the connection is spawned. *)
Lemma frugal_round {A} h c (refuse : prog unit) (next : prog A) :
  takes_permit c = true → modest refuse → frugal h next →
  frugal h (permit ← act TryAcquire; (match permit with true => act (Spawn c) | false => refuse end ;; next)).
Proof.
  intros Hc Hr Hn. split; [exact I|]. intros [].
  - cbn. rewrite Hc. split; [lia|]. intros _. exact Hn.
  - apply (spends_bind h refuse). apply modest_spends; [exact Hr|intros _; exact Hn].
Qed.

Lemma run_tcp_frugal n config : frugal 0 (run_tcp n config).
Proof.
  induction n as [|n IH]; cbn [run_tcp]; [exact I|]. split; [exact I|].
  intros []; try exact IH; try exact I. apply frugal_round; [reflexivity| |exact IH]. unfold tcp_refuse. modest.
Qed.

Lemma run_socks5_frugal n config : frugal 0 (run_socks5 n config).
Proof.
  induction n as [|n IH]; cbn [run_socks5]; [exact I|]. split; [exact I|].
  intros []; try exact IH; try exact I. apply frugal_round; [reflexivity| |exact IH]. unfold socks_refuse, record_socks_error. modest.
Qed.

Lemma run_dns_tcp_frugal n max : frugal 0 (run_dns_tcp n max).
Proof.
  induction n as [|n IH]; cbn [run_dns_tcp]; [exact I|]. split; [exact I|].
  intros []; try exact IH; try exact I. apply frugal_round; [reflexivity| |exact IH]. modest.
Qed.

(** ** Everything that runs *)
Lemma server_frugal {A} h (m : prog A) : frugal h m → frugal h (server m).
Proof.
  unfold server. revert h. induction m as [a|a k IH|]; intros h; cbn; [done| |done].
  intros [Ha Hk]. split; [done|]. intros x. apply IH, Hk.
Qed.

Lemma modest_frugal {A} h (p : prog A) : modest p → frugal h p.
Proof. intros Hp. by apply modest_spends. Qed.

Lemma entry_frugal p capacity : entry p capacity → frugal 0 p.
Proof.
  intros []; apply server_frugal;
    [apply run_tcp_frugal|apply modest_frugal, run_udp_modest|apply run_socks5_frugal|apply modest_frugal, run_dns_udp_modest
    |apply run_dns_tcp_frugal|apply modest_frugal, relay_captured_tcp_modest|apply modest_frugal, relay_captured_udp_modest].
Qed.

Lemma child_frugal c p : runs_child c p → frugal 0 p.
Proof.
  intros []; apply modest_frugal; [apply tcp_session_modest|apply udp_association_modest|apply socks_session_modest
    |apply socks_udp_association_modest|apply dns_tcp_session_modest].
Qed.
