(* ===== verification/InboundCapacity.v ===== *)
(** * InboundCapacity: the limits of the servers

    A server whose loop takes a permit for each connection never has more tasks than its
    semaphore has permits, and refuses a connection only when all of them are out. The
    programs spend their permits as InboundPermits says, so the sum of running tasks, held
    permits and free permits stays what the server was configured with. *)
From Stdlib Require Import ZArith Lia Strings.Byte Ascii String Sorting.Sorted.
From stdpp Require Import base list numbers option strings gmap sets relations.
From S2P Require Import Prelude Collections Net RustStd Model Stores Traffic MatrixStats Matrix Runtime DnsWire DnsResolve Bootstrap Observations ConfigData Egress Socks IngressFields IngressReport Inbound InboundPool InboundPermits.
Local Open Scope string_scope.
Local Open Scope nat_scope.

(** ** Counting tasks *)
Section count.
Context (P : task → bool).

Definition tasks_with (m : gmap nat task) : nat := size (filter (λ p : nat * task, P p.2 = true) m).
Definition one (t : task) : nat := if P t then 1 else 0.

Lemma tasks_with_new m j t : m !! j = None → tasks_with (<[j := t]> m) = one t + tasks_with m.
Proof.
  intros Hj. unfold tasks_with, one. destruct (P t) eqn:E.
  - rewrite map_filter_insert_True by done. rewrite map_size_insert_None; [done|].
    apply map_lookup_filter_None. by left.
  - rewrite map_filter_insert_False by (cbn; congruence). by rewrite delete_id.
Qed.

Lemma tasks_with_update m i t t' : m !! i = Some t → tasks_with (<[i := t']> m) + one t = tasks_with m + one t'.
Proof.
  intros Hi. rewrite <- (insert_id m i t Hi) at 2. rewrite <- (insert_delete_eq m i t'), <- (insert_delete_eq m i t).
  rewrite !tasks_with_new by apply lookup_delete_eq. lia.
Qed.

Lemma tasks_with_empty : tasks_with ∅ = 0.
Proof. unfold tasks_with. by rewrite map_filter_empty, map_size_empty. Qed.
End count.

(** The tasks that run with a permit of a server. *)
Definition permit_of (i : nat) (t : task) : bool := bool_decide (t_permit t = Some i).
Definition running (s : sys) (i : nat) : nat := tasks_with (permit_of i) (s_tasks s).

(** ** Permits are neither made nor lost *)
Definition accounts_permits (s : sys) (i : nat) (t : task) : Prop :=
  match s_permits s !! i with
  | Some free => free + t_held t + running s i = t_capacity t
  | None => t_held t = 0 ∧ running s i = 0
  end.

Record permits_inv (s : sys) : Prop := {
  permits_tasks : ∀ i t, s_tasks s !! i = Some t → accounts_permits s i t;
  permits_absent : ∀ i, s_tasks s !! i = None → s_permits s !! i = None ∧ running s i = 0;
  permits_spent : ∀ i t, s_tasks s !! i = Some t → frugal (t_held t) (t_prog t);
}.

Lemma running_update s i t t' j permits st lg :
  s_tasks s !! i = Some t → t_permit t' = t_permit t →
  running {| s_rt := st; s_tasks := <[i := t']> (s_tasks s); s_permits := permits; s_log := lg |} j = running s j.
Proof.
  intros Hi Hp. unfold running. cbn. pose proof (tasks_with_update (permit_of j) (s_tasks s) i t t' Hi) as H.
  assert (one (permit_of j) t' = one (permit_of j) t) as He by (unfold one, permit_of; by rewrite Hp). lia.
Qed.

(** A task moves on, and the number of free permits of its server with it. *)
Lemma permits_call s i t t' st lg permits :
  permits_inv s → s_tasks s !! i = Some t → t_permit t' = t_permit t → t_capacity t' = t_capacity t →
  frugal (t_held t') (t_prog t') → (∀ j, j ≠ i → permits !! j = s_permits s !! j) →
  match s_permits s !! i with
  | Some free => ∃ free', permits !! i = Some free' ∧ free' + t_held t' = free + t_held t
  | None => permits !! i = None ∧ t_held t' = t_held t
  end →
  permits_inv {| s_rt := st; s_tasks := <[i := t']> (s_tasks s); s_permits := permits; s_log := lg |}.
Proof.
  intros [Ht Ha Hs] Hi Hp Hc Hs' Hj Hf. constructor.
  - intros j u Hl. cbn [s_tasks] in Hl. unfold accounts_permits. rewrite (running_update s i t) by done. cbn [s_permits].
    apply lookup_insert_Some in Hl as [[<- <-]|[Hne Hl]].
    + specialize (Ht i t Hi). unfold accounts_permits in Ht. destruct (s_permits s !! i) as [free|].
      * destruct Hf as (free' & -> & Hf). lia.
      * destruct Hf as [-> ->]. done.
    + rewrite Hj by done. apply (Ht j u Hl).
  - intros j Hl. cbn [s_tasks] in Hl. apply lookup_insert_None in Hl as [Hl Hne].
    rewrite (running_update s i t) by done. cbn [s_permits]. rewrite Hj by done. by apply Ha.
  - intros j u Hl. cbn [s_tasks] in Hl. apply lookup_insert_Some in Hl as [[<- <-]|[Hne Hl]]; [exact Hs'|by apply (Hs j)].
Qed.

Lemma permits_same s i t t' st lg :
  permits_inv s → s_tasks s !! i = Some t → t_permit t' = t_permit t → t_capacity t' = t_capacity t →
  t_held t' = t_held t → frugal (t_held t') (t_prog t') →
  permits_inv {| s_rt := st; s_tasks := <[i := t']> (s_tasks s); s_permits := s_permits s; s_log := lg |}.
Proof.
  intros Hinv Hi Hp Hc Hh Hs. eapply permits_call; [done..|]. destruct (s_permits s !! i) as [free|]; [|done].
  exists free. by rewrite Hh.
Qed.

(** A task is added, with a permit or without. *)
Lemma running_new s j t i permits st lg :
  s_tasks s !! j = None →
  running {| s_rt := st; s_tasks := <[j := t]> (s_tasks s); s_permits := permits; s_log := lg |} i =
    one (permit_of i) t + running s i.
Proof. intros Hj. by apply tasks_with_new. Qed.

Lemma permits_start s j p capacity :
  permits_inv s → s_tasks s !! j = None → frugal 0 p →
  permits_inv {| s_rt := s_rt s; s_tasks := <[j := new_task p [] capacity None]> (s_tasks s);
                 s_permits := <[j := capacity]> (s_permits s); s_log := s_log s |}.
Proof.
  intros [Ht Ha Hs] Hj Hp.
  assert (∀ i, one (permit_of i) (new_task p [] capacity None) = 0) as Hone
    by (intros i; unfold one, permit_of; by rewrite bool_decide_eq_false_2).
  constructor.
  - intros i u Hl. cbn [s_tasks] in Hl. unfold accounts_permits. rewrite running_new, Hone by done. cbn [s_permits].
    apply lookup_insert_Some in Hl as [[<- <-]|[Hne Hl]].
    + rewrite lookup_insert_eq. destruct (Ha j Hj) as [_ ->]. cbn [new_task t_held t_capacity]. lia.
    + rewrite lookup_insert_ne by done. apply (Ht i u Hl).
  - intros i Hl. cbn [s_tasks] in Hl. apply lookup_insert_None in Hl as [Hl Hne].
    rewrite running_new, Hone by done. cbn [s_permits]. rewrite lookup_insert_ne by done. by apply Ha.
  - intros i u Hl. cbn [s_tasks] in Hl. apply lookup_insert_Some in Hl as [[<- <-]|[Hne Hl]]; [exact Hp|by apply (Hs i)].
Qed.

Lemma permits_spawn s i t c k j p :
  permits_inv s → s_tasks s !! i = Some t → t_prog t = Act (Spawn c) k → s_tasks s !! j = None → frugal 0 p →
  permits_inv
    {| s_rt := s_rt s;
       s_tasks := <[j := new_task p (child_ids c) 0 (if takes_permit c then Some i else None)]>
                    (<[i := advance t (Spawn c) tt (k tt) (if takes_permit c then pred (t_held t) else t_held t)]> (s_tasks s));
       s_permits := s_permits s; s_log := s_log s |}.
Proof.
  intros [Ht Ha Hs] Hi Hp Hj Hfp. assert (i ≠ j) as Hne by congruence.
  pose proof (Hs i t Hi) as Hk. rewrite Hp in Hk. destruct Hk as [Hc Hk]. cbn [can_do] in Hc.
  set (t' := advance t (Spawn c) tt (k tt) _).
  set (s1 := {| s_rt := s_rt s; s_tasks := <[i := t']> (s_tasks s); s_permits := s_permits s; s_log := s_log s |}).
  assert (∀ m, running {| s_rt := s_rt s; s_tasks := <[j := new_task p (child_ids c) 0 (if takes_permit c then Some i else None)]> (s_tasks s1);
      s_permits := s_permits s; s_log := s_log s |} m =
    (if takes_permit c then if m =? i then 1 else 0 else 0) + running s m) as Hrun.
  { intros m. rewrite (running_new s1) by (cbn; by rewrite lookup_insert_ne).
    assert (running s1 m = running s m) as -> by by apply (running_update s i t).
    f_equal. unfold one, permit_of. cbn. destruct (takes_permit c); [|done].
    destruct (Nat.eqb_spec m i) as [->|Hm]; [by rewrite bool_decide_eq_true_2|by rewrite bool_decide_eq_false_2 by congruence]. }
  destruct (Ha j Hj) as [Hpj Hrj]. constructor.
  - intros m u Hl. cbn [s_tasks] in Hl. unfold accounts_permits. change (<[i := t']> (s_tasks s)) with (s_tasks s1).
    rewrite Hrun. cbn [s_permits]. apply lookup_insert_Some in Hl as [[<- <-]|[Hmj Hl]].
    + rewrite Hpj, Hrj. rewrite (proj2 (Nat.eqb_neq j i)) by done. by destruct (takes_permit c).
    + apply lookup_insert_Some in Hl as [[<- <-]|[Hmi Hl]].
      * specialize (Ht i t Hi). unfold accounts_permits in Ht. rewrite Nat.eqb_refl. cbn [t' advance t_held t_capacity].
        destruct (s_permits s !! i) as [free|]; destruct (takes_permit c);
          [specialize (Hc eq_refl); lia|exact Ht|specialize (Hc eq_refl); lia|exact Ht].
      * rewrite (proj2 (Nat.eqb_neq m i)) by done. specialize (Ht m u Hl). by destruct (takes_permit c).
  - intros m Hl. cbn [s_tasks] in Hl. apply lookup_insert_None in Hl as [Hl Hmj]. apply lookup_insert_None in Hl as [Hl Hmi].
    change (<[i := t']> (s_tasks s)) with (s_tasks s1). rewrite Hrun. cbn [s_permits].
    rewrite (proj2 (Nat.eqb_neq m i)) by done. destruct (Ha m Hl) as [-> ->]. by destruct (takes_permit c).
  - intros m u Hl. cbn [s_tasks] in Hl. apply lookup_insert_Some in Hl as [[<- <-]|[Hmj Hl]]; [exact Hfp|].
    apply lookup_insert_Some in Hl as [[<- <-]|[Hmi Hl]]; [exact (Hk tt)|by apply (Hs m)].
Qed.

Lemma permits_finish s i t srv free :
  permits_inv s → s_tasks s !! i = Some t → t_permit t = Some srv → s_permits s !! srv = Some free →
  permits_inv
    {| s_rt := s_rt s;
       s_tasks := <[i := {| t_start := t_start t; t_prog := t_prog t; t_calls := t_calls t; t_inherited := t_inherited t;
                            t_relays := t_relays t; t_capacity := t_capacity t; t_held := t_held t; t_permit := None |}]> (s_tasks s);
       s_permits := <[srv := S free]> (s_permits s); s_log := s_log s |}.
Proof.
  intros [Ht Ha Hs] Hi Hp Hf. set (t' := {| t_start := _ |}).
  assert (∀ m, running {| s_rt := s_rt s; s_tasks := <[i := t']> (s_tasks s); s_permits := <[srv := S free]> (s_permits s);
      s_log := s_log s |} m + (if m =? srv then 1 else 0) = running s m) as Hrun.
  { intros m. unfold running. cbn [s_tasks]. pose proof (tasks_with_update (permit_of m) (s_tasks s) i t t' Hi) as Hu.
    assert (one (permit_of m) t' = 0) as H0 by done. rewrite H0, Nat.add_0_r in Hu. rewrite <- Hu. f_equal.
    unfold one, permit_of. rewrite Hp. destruct (Nat.eqb_spec m srv) as [->|Hne];
      [by rewrite bool_decide_eq_true_2|by rewrite bool_decide_eq_false_2 by congruence]. }
  constructor.
  - intros m u Hl. cbn [s_tasks] in Hl. unfold accounts_permits. cbn [s_permits]. specialize (Hrun m).
    assert (∃ u0, s_tasks s !! m = Some u0 ∧ t_held u = t_held u0 ∧ t_capacity u = t_capacity u0) as (u0 & Hu0 & Hh & Hcap).
    { apply lookup_insert_Some in Hl as [[<- <-]|[Hne Hl]]; [by exists t|by exists u]. }
    specialize (Ht m u0 Hu0). unfold accounts_permits in Ht. destruct (Nat.eqb_spec m srv) as [->|Hne].
    + rewrite lookup_insert_eq. rewrite Hf in Ht. rewrite Hh, Hcap. lia.
    + rewrite lookup_insert_ne by done. rewrite Nat.add_0_r in Hrun. rewrite Hrun, Hh, Hcap. exact Ht.
  - intros m Hl. cbn [s_tasks s_permits] in *. apply lookup_insert_None in Hl as [Hl Hne]. destruct (Ha m Hl) as [Hm Hr].
    specialize (Hrun m). assert (m ≠ srv) as Hms by congruence. rewrite lookup_insert_ne by done. split; [done|lia].
  - intros m u Hl. cbn [s_tasks] in Hl. apply lookup_insert_Some in Hl as [[<- <-]|[Hne Hl]]; [exact (Hs i t Hi)|exact (Hs m u Hl)].
Qed.

Lemma plain_spends {A} h a (k : answer a → prog A) x : plain a = true → frugal h (Act a k) → frugal h (k x).
Proof. intros Ha [_ Hk]. specialize (Hk x). by destruct a. Qed.

Lemma permits_step s s' : permits_inv s → sys_step s s' → permits_inv s'.
Proof.
  intros Hinv Hstep. destruct Hstep as [s i p n Hi Hp|s i t a k x st e Ht Hp Hplain Ha|s i t k free Ht Hp Hf
    |s i t c k j p Ht Hp Hj Hc|s i t srv free Ht Hp Hper Hf|s i t a now protocol up payload extra Ht Ha Hx f|s st0 seed|s domain ips].
  - apply permits_start; [done..|]. by eapply entry_frugal.
  - eapply permits_same; [done..|]. cbn [advance t_held t_prog].
    pose proof (permits_spent s Hinv i t Ht) as Hs. rewrite Hp in Hs. eapply plain_spends; [eassumption|exact Hs].
  - cbv zeta. eapply permits_call; [done|exact Ht|done|done| | |]; [|intros j Hj; by rewrite lookup_insert_ne|].
    { pose proof (permits_spent s Hinv i t Ht) as Hs. rewrite Hp in Hs. exact (proj2 Hs (0 <? free)). }
    rewrite Hf. exists (pred free). rewrite lookup_insert_eq. split; [done|].
    cbn. destruct free; cbn; lia.
  - eapply permits_spawn; [done..|]. by eapply child_frugal.
  - by eapply permits_finish.
  - destruct Hinv as [H1 H2 H3]. by constructor.
  - destruct Hinv as [H1 H2 H3]. by constructor.
  - destruct Hinv as [H1 H2 H3]. by constructor.
Qed.

Lemma permits_reachable st s : sys_reaches st s → permits_inv s.
Proof.
  intros Hr. unfold sys_reaches in Hr. remember (sys_start st) as s0 eqn:E0.
  assert (permits_inv s0) as H0.
  { subst. constructor; cbn; [by intros i t Hl%lookup_empty_Some| |by intros i t Hl%lookup_empty_Some].
    intros i _. split; [done|apply tasks_with_empty]. }
  clear E0. induction Hr as [s|s1 s2 s3 [Hroom Hs] _ IH]; [done|]. apply IH. by eapply permits_step.
Qed.

(** ** A server has the capacity that it was configured with *)
Definition configured (s : sys) : Prop :=
  ∀ i t, s_tasks s !! i = Some t → is_Some (s_permits s !! i) → entry (t_start t) (t_capacity t).

Lemma configured_update s i t t' st permits lg :
  configured s → s_tasks s !! i = Some t → t_start t' = t_start t → t_capacity t' = t_capacity t →
  (∀ j, is_Some (permits !! j) → is_Some (s_permits s !! j)) →
  configured {| s_rt := st; s_tasks := <[i := t']> (s_tasks s); s_permits := permits; s_log := lg |}.
Proof.
  intros Hc Hi Hs Hcap Hp j u Hl Hj. cbn [s_tasks s_permits] in *.
  apply lookup_insert_Some in Hl as [[<- <-]|[Hne Hl]]; [rewrite Hs, Hcap|]; eapply Hc; eauto.
Qed.

Lemma configured_step s s' : permits_inv s → configured s → sys_step s s' → configured s'.
Proof.
  intros Hinv Hcon Hstep. destruct Hstep as [s i p n Hi Hp|s i t a k x st e Ht Hp _ Ha|s i t k free Ht Hp Hf
    |s i t c k j p Ht Hp Hj Hc|s i t srv free Ht Hp Hper Hf|s i t a now protocol up payload extra Ht Ha Hx f|s st0 seed|s domain ips];
    try exact Hcon.
  - intros j u Hl Hj. cbn [s_tasks s_permits] in *. apply lookup_insert_Some in Hl as [[<- <-]|[Hne Hl]]; [exact Hp|].
    rewrite lookup_insert_ne in Hj by done. by apply Hcon with j.
  - eapply configured_update; [exact Hcon|exact Ht|done|done|done].
  - cbv zeta. eapply configured_update; [exact Hcon|exact Ht|done|done|].
    intros j [y [[<- <-]|[Hne Hy]]%lookup_insert_Some]; [by eexists|by exists y].
  - intros m u Hl Hm. cbn [s_tasks s_permits] in *. apply lookup_insert_Some in Hl as [[<- <-]|[Hne Hl]].
    + destruct (permits_absent s Hinv j Hj) as [Hn _]. rewrite Hn in Hm. by destruct Hm.
    + apply lookup_insert_Some in Hl as [[<- <-]|[Hne' Hl]]; [by apply (Hcon i t)|by apply (Hcon m u)].
  - eapply configured_update; [exact Hcon|exact Ht|done|done|].
    intros j [y [[<- <-]|[Hne Hy]]%lookup_insert_Some]; [by eexists|by exists y].
Qed.

Lemma configured_reachable st s : sys_reaches st s → permits_inv s ∧ configured s.
Proof.
  intros Hr. split; [by eapply permits_reachable|]. unfold sys_reaches in Hr. remember (sys_start st) as s0 eqn:E0.
  assert (permits_inv s0) as H0 by (subst; apply (permits_reachable st), rtc_refl).
  assert (configured s0) as H1 by (subst; intros i t Hl; cbn in Hl; by rewrite lookup_empty in Hl).
  clear E0. induction Hr as [s|s1 s2 s3 [Hroom Hs] _ IH]; [done|]. apply IH; [by eapply permits_step|by eapply configured_step].
Qed.

(** C9: the limits of the TCP, SOCKS5 and DNS servers hold whatever order connections come and
    end in: the tasks that run with a permit of a server, the permits that wait for the task
    that is being spawned and the free ones add up to the limit that the server was configured
    with, so never more than that many connections are open, and a connection is refused only
    when none is free. *)
Theorem sessions_limited st s i t free :
  sys_reaches st s → s_tasks s !! i = Some t → s_permits s !! i = Some free →
  entry (t_start t) (t_capacity t) ∧ running s i ≤ t_capacity t ∧
  (free = 0 ↔ running s i + t_held t = t_capacity t).
Proof.
  intros Hr Ht Hf. destruct (configured_reachable _ _ Hr) as [Hinv Hcon].
  pose proof (permits_tasks s Hinv i t Ht) as Hp. unfold accounts_permits in Hp. rewrite Hf in Hp.
  split; [eapply Hcon; [exact Ht|by eexists]|]. lia.
Qed.
