(* ===== verification/InboundRun.v ===== *)
(** * InboundRun: running one task to its end

    An executable schedule of the system of InboundPool: the task of a number makes calls
    until it ends, the runtime answers as it does, and an environment answers the rest. With
    it, runs of the handlers on concrete inputs. *)
From Stdlib Require Import ZArith Lia Strings.Byte Ascii String Sorting.Sorted.
From stdpp Require Import base list numbers option strings gmap sets relations.
From S2P Require Import Prelude Collections Net RustStd Model Stores Traffic MatrixStats Matrix Runtime DnsWire DnsResolve Bootstrap Observations ConfigData Egress Socks IngressFields IngressReport Inbound InboundPool InboundScope InboundIsolation InboundAccounts InboundPermits InboundCapacity.
Local Open Scope string_scope.
Local Open Scope nat_scope.

(** The clock, the answers of sockets and egress, and what the DNS upstreams send. *)
Record environment := {
  env_now : Z;
  env_answer : ∀ a, answer a;
  env_replies : bytes → list (DnsUpstream * reply);
}.

Definition typed_env (env : environment) : Prop := ∀ a, typed_answer a (env_answer env a).

Definition respond (env : environment) (st : RuntimeState) (a : action) : answer a * RuntimeState * option IngressEvent :=
  match a return answer a * RuntimeState * option IngressEvent with
  | NextSessionId => ((next_session st).2, (next_session st).1, None)
  | Select c => ((select st (env_now env) c).2, (select st (env_now env) c).1, None)
  | RecordEvent k f =>
      (tt, runtime_record st (env_now env) k (into_fields f), Some (event_of st (env_now env) k f))
  | DomainForIp ip => (domain_for_ip (rt_dns_map st) ip, st, None)
  | ResolveDomainA domain port =>
      let r := resolve_domain_a st (env_now env) domain port (env_replies env) false in (r.2, r.1, None)
  | ResolveDnsWire query => let r := resolve_dns_wire st query (env_replies env query) false in (r.2, r.1, None)
  | a => (env_answer env a, st, None)
  end.

Lemma respond_answers env st a :
  typed_env env → answers st a (respond env st a).1.1 (respond env st a).1.2 (respond env st a).2.
Proof.
  intros He. specialize (He a).
  destruct a;
    [exact (ans_session st)|exact (ans_select st (env_now env) c)|exact (ans_record st (env_now env) k fields)
    |exact (ans_domain st ip)|exact (ans_resolve st (env_now env) domain port (env_replies env) false)
    |exact (ans_wire st query (env_replies env query) false)|..]; apply ans_other; [reflexivity|exact He|..]; done.
Qed.

Definition has_room (s : sys) : bool := (next_session_id (rt_events (s_rt s)) <? u64_max)%Z.

(** The calls of task [i], at most [fuel] of them. *)
Fixpoint drive (fuel : nat) (env : environment) (i : nat) (s : sys) : sys :=
  match fuel with
  | O => s
  | S fuel =>
      match s_tasks s !! i with
      | None => s
      | Some t =>
          match t_prog t with
          | Act a k =>
              if plain a && has_room s then
                let '(x, st, e) := respond env (s_rt s) a in
                drive fuel env i
                  {| s_rt := st; s_tasks := <[i := advance t a x (k x) (t_held t)]> (s_tasks s);
                     s_permits := s_permits s; s_log := (s_log s ++ log_event (Own i) e)%list |}
              else s
          | _ => s
          end
      end
  end.

Lemma drive_reaches fuel env i s :
  typed_env env → rtc (λ s s', room s ∧ sys_step s s') s (drive fuel env i s).
Proof.
  intros He. revert s. induction fuel as [|fuel IH]; intros s; cbn [drive]; [reflexivity|].
  destruct (s_tasks s !! i) as [t|] eqn:Et; [|reflexivity]. destruct (t_prog t) as [|a k|] eqn:Ep; [reflexivity| |reflexivity].
  destruct (plain a && has_room s) eqn:Eb; [|reflexivity]. apply andb_true_iff in Eb as [Ha Hr].
  pose proof (respond_answers env (s_rt s) a He) as Hx. destruct (respond env (s_rt s) a) as [[x st] e]. cbn [fst snd] in Hx.
  eapply rtc_l; [|apply IH]. split; [by apply Z.ltb_lt|]. by eapply step_call.
Qed.

(** The task is still the one that was started. *)
Lemma drive_start fuel env i s t :
  s_tasks s !! i = Some t → ∃ t', s_tasks (drive fuel env i s) !! i = Some t' ∧ t_start t' = t_start t.
Proof.
  revert s t. induction fuel as [|fuel IH]; intros s t Ht; cbn [drive]; [by exists t|]. rewrite Ht.
  destruct (t_prog t) as [|a k|]; [by exists t| |by exists t]. destruct (plain a && has_room s); [|by exists t].
  destruct (respond env (s_rt s) a) as [[x st] e].
  destruct (IH {| s_rt := st; s_tasks := <[i := advance t a x (k x) (t_held t)]> (s_tasks s);
                  s_permits := s_permits s; s_log := (s_log s ++ log_event (Own i) e)%list |}
              (advance t a x (k x) (t_held t))) as (t' & Ht' & Hs); [apply lookup_insert_eq|].
  by exists t'.
Qed.

(** A process with one task. *)
Definition single (st : RuntimeState) (p : prog unit) (capacity : nat) : sys :=
  {| s_rt := st; s_tasks := {[0 := new_task p [] capacity None]}; s_permits := {[0 := capacity]}; s_log := [] |}.

Lemma single_reaches st p capacity fuel env :
  typed_env env → room (sys_start st) → entry p capacity → sys_reaches st (drive fuel env 0 (single st p capacity)).
Proof.
  intros He Hr Hp. eapply rtc_l; [|by apply drive_reaches]. split; [exact Hr|].
  exact (step_start (sys_start st) 0 p capacity eq_refl Hp).
Qed.

(** The task after its run. *)
Definition ended (s : sys) : task := default (new_task Crash [] 0 None) (s_tasks s !! 0).

Lemma single_ended st p capacity fuel env :
  let s := drive fuel env 0 (single st p capacity) in s_tasks s !! 0 = Some (ended s) ∧ t_start (ended s) = p.
Proof.
  cbv zeta. destruct (drive_start fuel env 0 (single st p capacity) (new_task p [] capacity None)) as (t & Ht & Hs); [done|].
  unfold ended. by rewrite Ht.
Qed.

(** ** A captured connection *)
Definition demo_peer : SocketAddr := socket_addr (ipv4_from [x0a; x00; x00; x07]) 40000.
Definition demo_server : SocketAddr := socket_addr (ipv4_from [x0a; x00; x00; x01]) 443.

Definition demo_outcome : TcpRelayOutcome :=
  {| out_upstream := demo_server; client_to_upstream_bytes := 4; upstream_to_client_bytes := 6;
     out_close_reason := "normal" |}.

(** The egress is done with every session, the sockets are fine. *)
Definition demo_answer (a : action) : answer a :=
  match a with
  | NextSessionId => 0%Z
  | Select _ => Panic
  | RecordEvent _ _ => tt
  | DomainForIp _ => None
  | ResolveDomainA _ _ => Panic
  | ResolveDnsWire _ => Panic
  | Tag | DecisionTag _ => "direct"
  | HandleTcp _ => inr demo_outcome
  | HandleUdp _ => inr {| udp_out_upstream := demo_server; udp_out_close_reason := "idle-timeout" |}
  | SpawnUdp _ | AbortUdp | Spawn _ | Wrote _ | SendCompletion _ _ => tt
  | JoinUdp => inl "cancelled"
  | JoinUdpWithin _ => None
  | Incoming => ShutdownRequested
  | TryAcquire | SendPayload _ _ => true
  | Cancelled => false
  | NewChannel => 0
  | ReadPayload => inr [x01]
  | WritePayload _ | SendDatagram _ _ => inr tt
  | RecvResponse _ => Response [x02]
  | WriteReply _ _ => inr tt
  | BindUdp _ => inr demo_server
  end.

Definition demo_env : environment := {| env_now := 1000; env_answer := demo_answer; env_replies := λ _, [] |}.

Lemma demo_typed : typed_env demo_env.
Proof. intros []; try exact I. cbn. unfold in_u. lia. Qed.

Definition demo_captured : sys :=
  drive 20 demo_env 0 (single demo_runtime (server (relay_captured_tcp demo_peer demo_server 1000)) 0).

Lemma relays_accounted_witness :
  generation_ok demo_runtime ∧ sys_reaches demo_runtime demo_captured ∧ t_prog (ended demo_captured) = Return tt ∧
  ∃ v, allocated (t_calls (ended demo_captured)) = [v] ∧
    ((∃ u, updates_for (session_key "tun" v None) (events_of demo_captured) = [u] ∧ up_closes_session u = true ∧
           is_Some (up_error u)) ∨
     (∃ session r u1 u2,
        Called (HandleTcp session) r ∈ t_calls (ended demo_captured) ∧
        judged "tun" session (t_calls (ended demo_captured)) ∧
        updates_for (session_key "tun" v (Some (decision_id (relay_decision session)))) (events_of demo_captured) = [u1; u2] ∧
        accounted v "tun" demo_peer session r (session_of u1 [u2]))).
Proof.
  assert (generation_ok demo_runtime) as Hg by (split; [vm_compute; discriminate|vm_compute; reflexivity]).
  assert (sys_reaches demo_runtime demo_captured) as Hr
    by (apply single_reaches; [apply demo_typed|vm_compute; reflexivity|apply entry_captured_tcp]).
  assert (t_prog (ended demo_captured) = Return tt) as Hp by (vm_compute; reflexivity).
  destruct (single_ended demo_runtime (server (relay_captured_tcp demo_peer demo_server 1000)) 0 20 demo_env) as [Ht Hs].
  split; [exact Hg|]. split; [exact Hr|]. split; [exact Hp|].
  apply (relays_accounted demo_runtime demo_captured 0 (ended demo_captured) demo_peer "tun" Hg);
    [vm_compute; discriminate|exact Hr|exact Ht| |exact Hp].
  unfold demo_captured. rewrite Hs. apply relay_captured.
Defined.

(** What the session of this run is read back as. *)
Example demo_captured_session :
  List.map (λ t, (ts_session_key t, ts_target t, ts_client_to_upstream_bytes t, ts_upstream_to_client_bytes t, ts_close_reason t))
    (session_snapshot (fold_left record_session_event (events_of demo_captured) ∅)) =
  [("tun:1:1", Some "10.0.0.1:443", 4, 6, Some "normal")]%Z.
Proof. vm_compute. reflexivity. Qed.

(** ** An IPv6 target whose name was observed

    The selection judges the IPv4 address that the name resolves to, the relay goes to the
    IPv6 address that was captured. *)
Definition demo_v6 : SocketAddr := socket_addr (V6 (2 ^ 125 + 5)) 443.

Definition a_reply (query : bytes) : bytes :=
  (take 2 query ++ to_be 2 33152 ++ to_be 2 1 ++ to_be 2 1 ++ to_be 4 0 ++ drop 12 query
   ++ [xc0; x0c] ++ to_be 2 1 ++ to_be 2 1 ++ to_be 4 60 ++ to_be 2 4 ++ octets (sa_ip demo_server))%list.

Definition resolving_env : environment :=
  {| env_now := 1000; env_answer := demo_answer;
     env_replies := λ query, List.map (λ u, (u, DnsResolve.Datagram (a_reply query) (upstream_address u))) default_dns_upstreams |}.

(** Where the relays of a task went. *)
Definition relay_targets (cs : list call) : list SocketAddr :=
  omap (λ c, match c with Called (HandleTcp s) _ => Some (relay_target s) | _ => None end) cs.

Definition captured_v6 (st : RuntimeState) : task :=
  ended (drive 20 resolving_env 0 (single st (server (relay_captured_tcp demo_peer demo_v6 1000)) 0)).

Definition dual_stack : RuntimeState := observe_dns demo_runtime "dual.test" [sa_ip demo_v6].

Example captured_v6_refused :
  ipv6_enabled (rt_routing demo_runtime) = false ∧ relay_targets (t_calls (captured_v6 demo_runtime)) = [].
Proof. vm_compute. done. Qed.

Example captured_v6_unjudged :
  ipv6_enabled (rt_routing dual_stack) = false ∧ relay_targets (t_calls (captured_v6 dual_stack)) = [demo_v6].
Proof. vm_compute. done. Qed.

(** SOCKS5 goes where the selection was made for. *)
Definition connect_v6 : stream :=
  ([x05; x01; x00] ++ [x05; x01; x00] ++ encode_destination (DestSocket demo_v6))%list.

Example socks_v6_restored :
  relay_targets (t_calls (ended (drive 20 resolving_env 0
    (single dual_stack (socks_session 0 default_socks5 demo_peer connect_v6 true) 0)))) = [demo_server].
Proof. vm_compute. done. Qed.

(** ** Several tasks *)
Definition launch (c : child) : prog unit :=
  match c with
  | TcpTask config peer => tcp_session config peer
  | UdpTask t => udp_association t
  | SocksTask config peer => socks_session 0 config peer [] false
  | SocksUdpChild t => socks_udp_association t
  | DnsTask peer => dns_tcp_session peer [] None
  end.

Lemma launch_runs c : runs_child c (launch c).
Proof. destruct c; constructor. Qed.

Definition called (env : environment) (i : nat) (s : sys) (t : task) (a : action) (k : answer a → prog unit) : sys :=
  let '(x, st, e) := respond env (s_rt s) a in
  {| s_rt := st; s_tasks := <[i := advance t a x (k x) (t_held t)]> (s_tasks s);
     s_permits := s_permits s; s_log := (s_log s ++ log_event (Own i) e)%list |}.

Definition acquired (i : nat) (s : sys) (t : task) (free : nat) (k : bool → prog unit) : sys :=
  {| s_rt := s_rt s;
     s_tasks := <[i := advance t TryAcquire (0 <? free) (k (0 <? free)) (if 0 <? free then S (t_held t) else t_held t)]> (s_tasks s);
     s_permits := <[i := pred free]> (s_permits s); s_log := s_log s |}.

Definition spawned (i j : nat) (s : sys) (t : task) (c : child) (k : unit → prog unit) : sys :=
  {| s_rt := s_rt s;
     s_tasks := <[j := new_task (launch c) (child_ids c) 0 (if takes_permit c then Some i else None)]>
                  (<[i := advance t (Spawn c) tt (k tt) (if takes_permit c then pred (t_held t) else t_held t)]> (s_tasks s));
     s_permits := s_permits s; s_log := s_log s |}.

(** One call of task [i]; a task that it spawns has the number [j]. *)
Definition move (env : environment) (i j : nat) (s : sys) : sys :=
  match s_tasks s !! i with
  | Some t =>
      match t_prog t with
      | Act a k =>
          if negb (has_room s) then s
          else
            match a return (answer a → prog unit) → sys with
            | TryAcquire => λ k, match s_permits s !! i with Some free => acquired i s t free k | None => s end
            | Spawn c => λ k,
                if bool_decide (s_tasks s !! j = None) then spawned i j s t c k else s
            | a => λ k, called env i s t a k
            end k
      | _ => s
      end
  | None => s
  end.

Lemma move_reaches env i j s : typed_env env → rtc (λ s s', room s ∧ sys_step s s') s (move env i j s).
Proof.
  intros He. unfold move. destruct (s_tasks s !! i) as [t|] eqn:Et; [|reflexivity].
  destruct (t_prog t) as [|a k|] eqn:Ep; [reflexivity| |reflexivity].
  destruct (has_room s) eqn:Er; [|reflexivity]. cbn [negb]. apply Z.ltb_lt in Er.
  assert (plain a = true → rtc (λ s s', room s ∧ sys_step s s') s (called env i s t a k)) as Hcall.
  { intros Ha. apply rtc_once. split; [exact Er|]. unfold called. pose proof (respond_answers env (s_rt s) a He) as Hx.
    destruct (respond env (s_rt s) a) as [[x st] e]. by eapply step_call. }
  destruct a; try (by apply Hcall).
  - destruct (s_permits s !! i) as [free|] eqn:Ef; [|reflexivity]. apply rtc_once. split; [exact Er|].
    by apply (step_acquire s i t k free).
  - destruct (bool_decide (s_tasks s !! j = None)) eqn:Eb; [|reflexivity].
    apply bool_decide_eq_true in Eb. apply rtc_once. split; [exact Er|].
    apply (step_spawn s i t c k j (launch c)); [done..|apply launch_runs].
Qed.

Definition moves (env : environment) (l : list (nat * nat)) (s : sys) : sys := fold_left (λ s ij, move env ij.1 ij.2 s) l s.

Lemma moves_reaches env l st p capacity :
  typed_env env → room (sys_start st) → entry p capacity → sys_reaches st (moves env l (single st p capacity)).
Proof.
  intros He Hr Hp. apply rtc_l with (single st p capacity).
  { split; [exact Hr|]. exact (step_start (sys_start st) 0 p capacity eq_refl Hp). }
  generalize (single st p capacity). induction l as [|[i j] l IH]; intros s; [reflexivity|].
  etrans; [by apply move_reaches|apply IH].
Qed.

(** ** Two connections to a server with one permit *)
Definition accepting_env : environment :=
  {| env_now := 1000;
     env_answer := λ a, match a return answer a with Incoming => Accepted demo_peer | a => demo_answer a end;
     env_replies := λ _, [] |}.

Lemma accepting_typed : typed_env accepting_env.
Proof. intros []; try exact I. cbn. unfold in_u. lia. Qed.

Definition one_session : TcpRelayConfig :=
  {| tcp_bind := demo_server; tcp_upstream := demo_server; tcp_max_sessions := 1 |}.

Definition crowded : sys :=
  moves accepting_env [(0, 1); (0, 1); (0, 1); (0, 2); (0, 2); (0, 2); (0, 2); (0, 2)]
    (single demo_runtime (server (run_tcp 2 one_session)) 1).

Lemma first_task s : match s_tasks s !! 0 with Some _ => true | None => false end = true → s_tasks s !! 0 = Some (ended s).
Proof. unfold ended. destruct (s_tasks s !! 0); done. Qed.

Lemma sessions_limited_witness :
  sys_reaches demo_runtime crowded ∧ s_permits crowded !! 0 = Some 0 ∧
  running crowded 0 ≤ t_capacity (ended crowded) ∧
  (0 = 0 ↔ running crowded 0 + t_held (ended crowded) = t_capacity (ended crowded)).
Proof.
  assert (sys_reaches demo_runtime crowded) as Hr
    by (apply moves_reaches; [apply accepting_typed|vm_compute; reflexivity|exact (entry_tcp 2 one_session)]).
  assert (s_permits crowded !! 0 = Some 0) as Hf by (vm_compute; reflexivity).
  split; [exact Hr|]. split; [exact Hf|].
  assert (s_tasks crowded !! 0 = Some (ended crowded)) as Ht.
  { apply first_task. vm_compute. reflexivity. }
  exact (proj2 (sessions_limited demo_runtime crowded 0 (ended crowded) 0 Hr Ht Hf)).
Defined.

(** One runs, the other left an error. *)
Example crowded_refused :
  running crowded 0 = 1 ∧
  List.map (λ e, (event_kind e, event_fields e !! "error")) (events_of crowded) = [(TcpError, Some "TCP session limit reached")].
Proof. vm_compute. done. Qed.

(** ** UDP sessions of one peer

    A completion names the peer and not the session, so the end of an association that was
    already replaced removes the session that replaced it. *)
Definition meeting (i : incoming) (sent : bool) : environment :=
  {| env_now := 1000;
     env_answer := λ a, match a return answer a with
                        | Incoming => i
                        | SendPayload _ _ => sent
                        | a => demo_answer a
                        end;
     env_replies := λ _, [] |}.

Lemma meeting_typed i sent : typed_env (meeting i sent).
Proof. intros []; try exact I. cbn. unfold in_u. lia. Qed.

(** Moves, each under what the server meets then. *)
Definition script (l : list (incoming * bool * list (nat * nat))) (s : sys) : sys :=
  fold_left (λ s r, moves (meeting r.1.1 r.1.2) r.2 s) l s.

Lemma script_reaches l s s0 : sys_reaches s0 s → sys_reaches s0 (script l s).
Proof.
  revert s. induction l as [|[[i sent] ms] l IH]; intros s Hs; [done|]. apply IH. clear IH.
  cbn [fst snd]. revert s Hs. induction ms as [|[a b] ms IH]; intros s Hs; [done|]. apply IH.
  unfold sys_reaches in *. etrans; [exact Hs|]. apply move_reaches, meeting_typed.
Qed.

Definition one_association : UdpRelayConfig :=
  {| udp_bind := demo_server; udp_upstream := demo_server; udp_idle_timeout := 1000; udp_max_sessions := 1 |}.

Definition replaced : sys :=
  let payload := Datagram [x01] demo_peer in
  script
    [(payload, true, replicate 8 (0, 1));              (* a session is opened, its task is 1 *)
     (payload, true, replicate 3 (1, 9));              (* its relay ends *)
     (payload, false, replicate 3 (0, 9));             (* the next datagram finds the channel closed *)
     (payload, true, replicate 8 (0, 2));              (* a second session, its task is 2 *)
     (payload, true, replicate 2 (2, 9));              (* which relays *)
     (CompletedPeer demo_peer, true, [(0, 9)]);        (* the end of the first is noticed *)
     (payload, true, replicate 8 (0, 3));              (* a third session *)
     (payload, true, replicate 2 (3, 9))]              (* which relays as well *)
    (single demo_runtime (server (run_udp 20 one_association ∅)) 0).

Lemma replaced_reached : sys_reaches demo_runtime replaced.
Proof.
  apply script_reaches. apply rtc_once. split; [vm_compute; reflexivity|].
  exact (step_start (sys_start demo_runtime) 0 _ 0 eq_refl (entry_udp 20 one_association)).
Qed.

Example udp_sessions_exceed_limit :
  List.map (λ e, (event_kind e, event_fields e !! "sessionId"))
    (List.filter (λ e, match event_kind e with UdpSessionStart | UdpError => true | _ => false end) (events_of replaced)) =
  [(UdpSessionStart, Some "1"); (UdpSessionStart, Some "2"); (UdpSessionStart, Some "3")]
  ∧ udp_max_sessions one_association = 1%Z
  ∧ List.map (λ i, match s_tasks replaced !! i with Some t => length (relaying t) | None => 0 end) [2; 3] = [1; 1].
Proof. vm_compute. done. Qed.

(** The datagram that finds the channel closed is reported and lost: there are as many reports as
    datagrams, and one fewer is taken by a session. *)
Example udp_datagram_lost :
  length (List.filter (λ e, match event_kind e with UdpDatagram => true | _ => false end) (events_of replaced)) = 4
  ∧ length (omap (λ c, match c with Called (SendPayload _ _) true => Some tt | _ => None end) (t_calls (ended replaced))) = 3.
Proof. vm_compute. done. Qed.

(** ** A captured datagram whose response cannot be written

    The relay task is neither awaited nor aborted and nothing closes the session. *)
Definition unwritable_env : environment :=
  {| env_now := 1000;
     env_answer := λ a, match a return answer a with WritePayload _ => inl "broken pipe" | a => demo_answer a end;
     env_replies := λ _, [] |}.

Definition unwritten : sys :=
  drive 30 unwritable_env 0 (single demo_runtime (server (relay_captured_udp demo_peer demo_server 1000 1000)) 0).

Example captured_udp_left_open :
  List.map event_kind (events_of unwritten) = [UdpDatagram]
  ∧ List.map (λ t, ts_closed_at t) (session_snapshot (fold_left record_session_event (events_of unwritten) ∅)) = [None]
  ∧ length (relaying (ended unwritten)) = 1.
Proof. vm_compute. done. Qed.
