(* ===== verification/EgressRelay.v ===== *)
(** * EgressRelay: TCP sessions on the egress side

    [crates/dynet-ingress/src/egress/direct.rs], the TCP halves of [shadowsocks.rs],
    [trojan.rs], [vmess.rs] and [vless.rs], [await_relay_idle] of [egress.rs] and the byte
    counters of [observation.rs]. What the sockets do is a script: the reads that complete
    and the times at which the idle timer fires. What tokio's [copy_bidirectional] and
    [lookup_host] return is given. A write succeeds or fails as a whole. *)
From Stdlib Require Import ZArith Lia Strings.Byte Ascii String Sorting.Sorted.
From stdpp Require Import base list numbers option strings gmap sets.
From S2P Require Import Prelude Collections Net RustStd Wire Model Stores Traffic MatrixStats Matrix Runtime DnsWire DnsResolve Bootstrap Observations ConfigData Egress Socks IngressFields Inbound.
Local Open Scope string_scope.
Local Open Scope nat_scope.

(** ** The counters around the client's stream: [observation.rs] *)
Record PlaintextByteCounts := { counted_up : Z; counted_down : Z }.
Definition no_counts : PlaintextByteCounts := {| counted_up := 0; counted_down := 0 |}.

(** [poll_read] that is ready with [n] bytes, [poll_write] that took [n] *)
Definition count_read (n : nat) (c : PlaintextByteCounts) : PlaintextByteCounts :=
  {| counted_up := wrap_u 64 (counted_up c + Z.of_nat n); counted_down := counted_down c |}.
Definition count_written (n : nat) (c : PlaintextByteCounts) : PlaintextByteCounts :=
  {| counted_up := counted_up c; counted_down := wrap_u 64 (counted_down c + Z.of_nat n) |}.

(** The two streams of a relay. *)
Record wires := { to_upstream : sink; to_client : sink; counts : PlaintextByteCounts }.

Definition on_upstream {E A} (m : Wire.act sink E A) : Wire.act wires E A := λ w,
  let '(s, r) := m (to_upstream w) in ({| to_upstream := s; to_client := to_client w; counts := counts w |}, r).

(** The client's stream counts what goes through it. *)
Definition read_client {E} (r : E + bytes) : Wire.act wires E bytes := λ w,
  match r with
  | inl e => (w, Err e)
  | inr l => ({| to_upstream := to_upstream w; to_client := to_client w; counts := count_read (length l) (counts w) |}, Ok l)
  end.

Definition write_client {E} (e : E) (l : bytes) : Wire.act wires E unit := λ w,
  match write_all e l (to_client w) with
  | (s, Ok tt) => ({| to_upstream := to_upstream w; to_client := s; counts := count_written (length l) (counts w) |}, Ok tt)
  | (s, r) => ({| to_upstream := to_upstream w; to_client := s; counts := counts w |}, r)
  end.

(** ** Copying until the session is idle: [direct.rs] *)
Inductive relay_event :=
| ClientRead (r : io_error + bytes)
| UpstreamRead (r : io_error + bytes)
| IdleElapsed.

Record progress := { client_bytes : Z; upstream_bytes : Z; client_closed : bool; upstream_closed : bool }.
Definition at_start : progress := {| client_bytes := 0; upstream_bytes := 0; client_closed := false; upstream_closed := false |}.

Definition finished (p : progress) : bool :=
  (client_closed p && upstream_closed p) || (upstream_closed p && (0 <? upstream_bytes p)%Z).

Definition write_failed : io_error := OtherError "write failed".

Definition client_ready (r : io_error + bytes) (p : progress) : Wire.act wires io_error progress :=
  l ← read_client r;
  match l with
  | [] =>
      _ ← on_upstream (shutdown write_failed);
      mret {| client_bytes := client_bytes p; upstream_bytes := upstream_bytes p; client_closed := true;
              upstream_closed := upstream_closed p |}
  | _ =>
      _ ← on_upstream (write_all write_failed l);
      mret {| client_bytes := wrap_u 64 (client_bytes p + Z.of_nat (length l)); upstream_bytes := upstream_bytes p;
              client_closed := client_closed p; upstream_closed := upstream_closed p |}
  end.

Definition upstream_ready (r : io_error + bytes) (p : progress) : Wire.act wires io_error progress :=
  l ← lift (of_result r);
  match l with
  | [] =>
      mret {| client_bytes := client_bytes p; upstream_bytes := upstream_bytes p; client_closed := client_closed p;
              upstream_closed := true |}
  | _ =>
      _ ← write_client write_failed l;
      mret {| client_bytes := client_bytes p; upstream_bytes := wrap_u 64 (upstream_bytes p + Z.of_nat (length l));
              client_closed := client_closed p; upstream_closed := upstream_closed p |}
  end.

(** [None] when the script ends before the relay does. A branch of the [select!] whose guard is
    false is not ready. *)
Fixpoint copy_bidirectional_until_idle (evs : list relay_event) (p : progress) : Wire.act wires io_error (option (Z * Z * string)) :=
  if finished p then mret (Some (client_bytes p, upstream_bytes p, "normal"))
  else
    match evs with
    | [] => mret None
    | IdleElapsed :: _ => mret (Some (client_bytes p, upstream_bytes p, "idle-timeout"))
    | ClientRead r :: evs =>
        if client_closed p then copy_bidirectional_until_idle evs p
        else p ← client_ready r p; copy_bidirectional_until_idle evs p
    | UpstreamRead r :: evs =>
        if upstream_closed p then copy_bidirectional_until_idle evs p
        else p ← upstream_ready r p; copy_bidirectional_until_idle evs p
    end.

(** [handle_tcp_with_dialer] of the direct egress, with the result of the dial and of tokio's
    [copy_bidirectional]. *)
Definition relay_failed (target : SocketAddr) (c : PlaintextByteCounts) : EgressError :=
  with_plaintext_bytes (egress_error "relay" (Some target) "TCP relay failed: {error}") (counted_up c) (counted_down c).

Definition copied (session : TcpRelaySession) (evs : list relay_event) (whole : io_error + (Z * Z))
    : Wire.act wires io_error (option (Z * Z * string)) :=
  match relay_idle_timeout session with
  | Some _ => copy_bidirectional_until_idle evs at_start
  | None => '(a, b) ← lift (of_result whole); mret (Some (a, b, "normal"))
  end.

Definition direct_handle_tcp (session : TcpRelaySession) (dialed : EgressError + SocketAddr) (evs : list relay_event)
    (whole : io_error + (Z * Z)) : Wire.act wires EgressError (option TcpRelayOutcome) := λ w,
  match dialed with
  | inl e => (w, Err e)
  | inr _ =>
      match copied session evs whole w with
      | (w, Ok None) => (w, Ok None)
      | (w, Ok (Some (a, b, reason))) =>
          (w, Ok (Some {| out_upstream := relay_target session; IngressFields.client_to_upstream_bytes := a;
                          IngressFields.upstream_to_client_bytes := b; out_close_reason := reason |}))
      | (w, Err _) => (w, Err (relay_failed (relay_target session) (counts w)))
      | (w, Panic) => (w, Panic)
      end
  end.

(** ** The idle watchdog: [await_relay_idle] *)
Inductive relay_tick :=
| RelayDone (r : outcome EgressError TcpRelayOutcome)
| TimerFired (now : PlaintextByteCounts).

Definition idle_outcome (upstream : SocketAddr) (c : PlaintextByteCounts) : TcpRelayOutcome :=
  {| out_upstream := upstream; IngressFields.client_to_upstream_bytes := counted_up c;
     IngressFields.upstream_to_client_bytes := counted_down c; out_close_reason := "idle-timeout" |}.

Definition same_counts (a b : PlaintextByteCounts) : bool :=
  (counted_up a =? counted_up b)%Z && (counted_down a =? counted_down b)%Z.

Fixpoint idle_loop (ticks : list relay_tick) (last : PlaintextByteCounts) (upstream : SocketAddr) : option (outcome EgressError TcpRelayOutcome) :=
  match ticks with
  | [] => None
  | RelayDone r :: _ => Some r
  | TimerFired now :: ticks =>
      if same_counts now last then Some (Ok (idle_outcome upstream now)) else idle_loop ticks now upstream
  end.

Fixpoint relay_alone (ticks : list relay_tick) : option (outcome EgressError TcpRelayOutcome) :=
  match ticks with
  | [] => None
  | RelayDone r :: _ => Some r
  | TimerFired _ :: ticks => relay_alone ticks
  end.

Definition await_relay_idle (ticks : list relay_tick) (before : PlaintextByteCounts) (idle_timeout : option Z) (upstream : SocketAddr)
    : option (outcome EgressError TcpRelayOutcome) :=
  match idle_timeout with None => relay_alone ticks | Some _ => idle_loop ticks before upstream end.

(** ** Dialing *)
Inductive TcpDialTarget := TargetSocket (a : SocketAddr) | TargetHost (host : string) (port : Z).

Definition target_label (t : TcpDialTarget) : string :=
  match t with TargetSocket a => socket_to_string a | TargetHost host port => (host ++ ":" ++ to_string port)%string end.

Definition target_upstream (t : TcpDialTarget) : option SocketAddr :=
  match t with TargetSocket a => Some a | TargetHost _ _ => None end.

(** [lookup] is what [lookup_host] returns. *)
Definition resolve_socket (lookup : string → Z → string + list SocketAddr) (t : TcpDialTarget) : outcome EgressError SocketAddr :=
  match t with
  | TargetSocket a => Ok a
  | TargetHost host port =>
      match lookup host port with
      | inl error => Err (egress_error "egress-resolve" None ("failed resolving TCP target " ++ target_label t ++ ": " ++ error))
      | inr [] => Err (egress_error "egress-resolve" None ("TCP target " ++ target_label t ++ " resolved no addresses"))
      | inr (a :: _) => Ok a
      end
  end.

(** [connect] is what connecting returns, then [peer] what [peer_addr] does. *)
Definition direct_dial_tcp (connect : TcpDialTarget → string + (string + SocketAddr)) (t : TcpDialTarget) : outcome EgressError SocketAddr :=
  match connect t with
  | inl error => Err (egress_error "egress-connect" (target_upstream t) ("failed dialing TCP target " ++ target_label t ++ ": " ++ error))
  | inr (inl error) =>
      Err (egress_error "egress-connect" (target_upstream t) ("failed reading TCP target address " ++ target_label t ++ ": " ++ error))
  | inr (inr a) => Ok a
  end.

(** [dial_tcp] of a client with a server: the connection goes to the server, a task relays to
    the resolved target, which is returned as well. *)
Definition proxy_dial_tcp (lookup : string → Z → string + list SocketAddr) (connect : TcpDialTarget → string + (string + SocketAddr))
    (server : TcpDialTarget) (t : TcpDialTarget) : outcome EgressError (SocketAddr * SocketAddr) :=
  target ← resolve_socket lookup t;
  upstream ← direct_dial_tcp connect server;
  Ok (upstream, target).

(** ** A session through a client *)

(** [shadowsocks_error], [trojan_error], [vmess_error], [vless_error] *)
Definition client_error (e : Wire.Error) (upstream : option SocketAddr) : EgressError := egress_error (Wire.stage e) upstream (Wire.message e).

(** The relay future of [handle_tcp_via_dialer] when [relay_tcp_with_io] of the client is done and
    the counters say [c]. *)
Definition client_relay (r : outcome Wire.Error (SocketAddr * Z * Z)) (c : PlaintextByteCounts) : outcome EgressError TcpRelayOutcome :=
  match r with
  | Ok (upstream, a, b) =>
      Ok {| out_upstream := upstream; IngressFields.client_to_upstream_bytes := a; IngressFields.upstream_to_client_bytes := b;
            out_close_reason := "normal" |}
  | Err e => Err (with_plaintext_bytes (client_error e None) (counted_up c) (counted_down c))
  | Panic => Panic
  end.

(** What the relay does: it ends with a result, or the timer fires; the counters at that time. *)
Inductive client_tick (R : Type) :=
| ClientDone (r : R) (c : PlaintextByteCounts)
| ClientIdle (c : PlaintextByteCounts).
Arguments ClientDone {R} r c.
Arguments ClientIdle {R} c.

Definition tick_of {R} (f : R → PlaintextByteCounts → outcome EgressError TcpRelayOutcome) (t : client_tick R) : relay_tick :=
  match t with ClientDone r c => RelayDone (f r c) | ClientIdle c => TimerFired c end.

Definition handle_tcp_via_dialer (session : TcpRelaySession) (dialed : outcome EgressError SocketAddr) (ticks : list (client_tick (outcome Wire.Error (SocketAddr * Z * Z))))
    : option (outcome EgressError TcpRelayOutcome) :=
  match dialed with
  | Err e => Some (Err e)
  | Panic => Some Panic
  | Ok upstream => await_relay_idle (List.map (tick_of client_relay) ticks) no_counts (relay_idle_timeout session) upstream
  end.

(** The VLESS client connects first and then copies; [copied] is tokio's [copy_bidirectional]. *)
Definition vless_copy (upstream : SocketAddr) (copied : io_error + (Z * Z)) (c : PlaintextByteCounts) : outcome EgressError TcpRelayOutcome :=
  match copied with
  | inr (a, b) =>
      Ok {| out_upstream := upstream; IngressFields.client_to_upstream_bytes := a; IngressFields.upstream_to_client_bytes := b;
            out_close_reason := "normal" |}
  | inl _ =>
      Err (with_plaintext_bytes (egress_error "relay" (Some upstream) "VLESS TCP relay failed: {error}") (counted_up c) (counted_down c))
  end.

Definition vless_handle_tcp (session : TcpRelaySession) (dialed : outcome EgressError SocketAddr)
    (connected : outcome Wire.Error SocketAddr) (ticks : list (client_tick (io_error + (Z * Z)))) : option (outcome EgressError TcpRelayOutcome) :=
  match dialed with
  | Err e => Some (Err e)
  | Panic => Some Panic
  | Ok _ =>
      match connected with
      | Err e => Some (Err (client_error e None))
      | Panic => Some Panic
      | Ok upstream => await_relay_idle (List.map (tick_of (vless_copy upstream)) ticks) no_counts (relay_idle_timeout session) upstream
      end
  end.

(** ** The protocols *)
Definition ss_handle_tcp := handle_tcp_via_dialer.
Definition trojan_handle_tcp := handle_tcp_via_dialer.
Definition vmess_handle_tcp := handle_tcp_via_dialer.
Definition ss_dial_tcp := proxy_dial_tcp.
Definition trojan_dial_tcp := proxy_dial_tcp.
Definition vmess_dial_tcp := proxy_dial_tcp.

(** The VLESS client is connected to the target before the stream is handed out. *)
Definition vless_dial_tcp (lookup : string → Z → string + list SocketAddr) (connect : TcpDialTarget → string + (string + SocketAddr))
    (connected : SocketAddr → outcome Wire.Error unit) (server : TcpDialTarget) (t : TcpDialTarget) : outcome EgressError SocketAddr :=
  target ← resolve_socket lookup t;
  upstream ← direct_dial_tcp connect server;
  match connected target with
  | Ok _ => Ok upstream
  | Err e => Err (client_error e (Some upstream))
  | Panic => Panic
  end.

(** ** What a relay moves *)

(** What the client sends until its end, or until a read fails. *)
Fixpoint from_client (evs : list relay_event) : bytes :=
  match evs with
  | [] => []
  | ClientRead (inr []) :: _ | ClientRead (inl _) :: _ => []
  | ClientRead (inr l) :: evs => (l ++ from_client evs)%list
  | _ :: evs => from_client evs
  end.

Fixpoint from_upstream (evs : list relay_event) : bytes :=
  match evs with
  | [] => []
  | UpstreamRead (inr []) :: _ | UpstreamRead (inl _) :: _ => []
  | UpstreamRead (inr l) :: evs => (l ++ from_upstream evs)%list
  | _ :: evs => from_upstream evs
  end.

Definition client_part (p : progress) (evs : list relay_event) : bytes := if client_closed p then [] else from_client evs.
Definition upstream_part (p : progress) (evs : list relay_event) : bytes := if upstream_closed p then [] else from_upstream evs.

(** The counters agree with what the loop counts, and nothing overflows. *)
Definition in_step (p : progress) (w : wires) : Prop :=
  counts w = {| counted_up := client_bytes p; counted_down := upstream_bytes p |}.

Definition fits (p : progress) (evs : list relay_event) : Prop :=
  (0 ≤ client_bytes p ∧ client_bytes p + Z.of_nat (length (client_part p evs)) < 2 ^ 64)%Z ∧
  (0 ≤ upstream_bytes p ∧ upstream_bytes p + Z.of_nat (length (upstream_part p evs)) < 2 ^ 64)%Z.

(** Why a relay of [evs] that moved [x] and [y] ended. *)
Definition ended_for (reason : string) (p : progress) (evs : list relay_event) (x y : bytes) : Prop :=
  (reason = "normal" ∧ y = upstream_part p evs ∧ (upstream_closed p = true ∨ UpstreamRead (inr []) ∈ evs) ∧
   (x = client_part p evs ∧ (client_closed p = true ∨ ClientRead (inr []) ∈ evs) ∨
    (0 < upstream_bytes p)%Z ∨ y ≠ [])) ∨
  (reason = "idle-timeout" ∧ ∃ before after, evs = (before ++ IdleElapsed :: after)%list ∧
   x = client_part p before ∧ y = upstream_part p before).

(** [x] went to the upstream, [y] to the client, [z] was read from the client. *)
Definition moved (p : progress) (evs : list relay_event) (w w' : wires) (x y z : bytes) : Prop :=
  sent (to_upstream w') = (sent (to_upstream w) ++ x)%list ∧ sent (to_client w') = (sent (to_client w) ++ y)%list ∧
  counts w' = {| counted_up := client_bytes p + Z.of_nat (length z); counted_down := upstream_bytes p + Z.of_nat (length y) |} ∧
  x `prefix_of` z ∧ z `prefix_of` client_part p evs ∧ y `prefix_of` upstream_part p evs.

Definition relay_result (p : progress) (evs : list relay_event) (w' : wires) (x y z : bytes)
    (r : outcome io_error (option (Z * Z * string))) : Prop :=
  match r with
  | Panic => False
  | Err _ => True
  | Ok None => z = x ∧ x = client_part p evs ∧ y = upstream_part p evs
  | Ok (Some (a, b, reason)) =>
      z = x ∧ a = counted_up (counts w') ∧ b = counted_down (counts w') ∧ ended_for reason p evs x y
  end.

Lemma wrap_u_small64 n : (0 ≤ n < 2 ^ 64)%Z → wrap_u 64 n = n.
Proof. intros Hn. unfold wrap_u. by apply Z.mod_small. Qed.

Lemma write_all_cases {E} (e : E) l s s' r : write_all e l s = (s', r) →
  (r = Ok tt ∧ sent s' = (sent s ++ l)%list) ∨ (r = Err e ∧ s' = s).
Proof.
  unfold write_all. destruct (budget s) as [[|n]|]; intros [= <- <-]; [by right|left..]; split; try done; apply sent_app.
Qed.

Lemma shutdown_cases {E} (e : E) s s' r : shutdown e s = (s', r) → sent s' = sent s ∧ (r = Ok tt ∨ r = Err e).
Proof. unfold shutdown. destruct (budget s) as [[|n]|]; intros [= <- <-]; split; auto. Qed.

Lemma moved_nothing p evs w : in_step p w → moved p evs w w [] [] [].
Proof.
  intros Hw. unfold moved. rewrite !app_nil_r, Hw. cbn [length].
  split; [done|]. split; [done|]. split; [f_equal; lia|]. split; [done|]. split; apply prefix_nil.
Qed.

Lemma finished_reason p evs : finished p = true → ended_for "normal" p evs [] [].
Proof.
  unfold finished. intros Hf. apply orb_true_iff in Hf as [[Hc Hu]%andb_true_iff|[Hu Hb]%andb_true_iff]; left;
    unfold upstream_part, client_part; rewrite Hu; (split; [done|]; split; [done|]; split; [by left|]).
  - rewrite Hc. by left; split; [|left].
  - right. left. by apply Z.ltb_lt.
Qed.

(** One event that moves [x] and [y] on. *)
Record step_to (p : progress) (ev : relay_event) (x y : bytes) (p1 : progress) : Prop := {
  step_client : ∀ evs, client_part p (ev :: evs) = (x ++ client_part p1 evs)%list;
  step_upstream : ∀ evs, upstream_part p (ev :: evs) = (y ++ upstream_part p1 evs)%list;
  step_client_bytes : client_bytes p1 = (client_bytes p + Z.of_nat (length x))%Z;
  step_upstream_bytes : upstream_bytes p1 = (upstream_bytes p + Z.of_nat (length y))%Z;
  step_client_closed : client_closed p1 = true → client_closed p = true ∨ ev = ClientRead (inr []);
  step_upstream_closed : upstream_closed p1 = true → upstream_closed p = true ∨ ev = UpstreamRead (inr []);
}.

Lemma step_fits p ev x y p1 evs : step_to p ev x y p1 → fits p (ev :: evs) → fits p1 evs.
Proof.
  intros [Hc Hu Hcb Hub _ _]. unfold fits. rewrite Hc, Hu, Hcb, Hub, !length_app. lia.
Qed.

Lemma step_moved p ev x0 y0 p1 evs w w1 w' x y z :
  step_to p ev x0 y0 p1 → sent (to_upstream w1) = (sent (to_upstream w) ++ x0)%list →
  sent (to_client w1) = (sent (to_client w) ++ y0)%list → moved p1 evs w1 w' x y z →
  moved p (ev :: evs) w w' (x0 ++ x)%list (y0 ++ y)%list (x0 ++ z)%list.
Proof.
  intros [Hc Hu Hcb Hub _ _] Hx Hy (Hx' & Hy' & Hn & Hxz & Hz & Hy''). unfold moved.
  rewrite Hx', Hy', Hx, Hy, Hn, Hcb, Hub, Hc, Hu, !length_app, !app_assoc.
  split; [done|]. split; [done|]. split; [f_equal; lia|].
  split; [by apply prefix_app|]. split; by apply prefix_app.
Qed.

Lemma step_ended p ev x0 y0 p1 evs reason x y :
  step_to p ev x0 y0 p1 → (0 ≤ upstream_bytes p)%Z → ended_for reason p1 evs x y →
  ended_for reason p (ev :: evs) (x0 ++ x)%list (y0 ++ y)%list.
Proof.
  intros [Hc Hu Hcb Hub Hcc Huc] H0 [(-> & -> & Hend & Hwhy)|(-> & before & after & -> & -> & ->)].
  - left. split; [done|]. split; [by rewrite Hu|]. split.
    { destruct Hend as [He|He]; [destruct (Huc He) as [?|<-]; [by left|right; apply list_elem_of_here]|right; by apply list_elem_of_further]. }
    destruct Hwhy as [[-> Hce]|[Hpos|Hne]].
    + left. split; [by rewrite Hc|].
      destruct Hce as [He|He]; [destruct (Hcc He) as [?|<-]; [by left|right; apply list_elem_of_here]|right; by apply list_elem_of_further].
    + destruct y0 as [|b y0]; [right; left; rewrite Hub in Hpos; cbn in Hpos; lia|right; right; by destruct (upstream_part p1 evs)].
    + right. right. by intros [_ ?]%app_nil.
  - right. split; [done|]. exists (ev :: before), after. by rewrite Hc, Hu.
Qed.

Lemma step_result p ev x0 y0 p1 evs w' x y z r :
  step_to p ev x0 y0 p1 → (0 ≤ upstream_bytes p)%Z → relay_result p1 evs w' x y z r →
  relay_result p (ev :: evs) w' (x0 ++ x)%list (y0 ++ y)%list (x0 ++ z)%list r.
Proof.
  intros Hstep H0. destruct r as [[[[a b] reason]|]|e|]; cbn [relay_result]; [| |done|done].
  - intros (-> & Ha & Hb & He). split; [done|]. split; [done|]. split; [done|]. by eapply step_ended.
  - intros (-> & -> & ->). destruct Hstep as [Hc Hu _ _ _ _]. by rewrite Hc, Hu.
Qed.

(** What a ready read does: it fails and the relay with it, or it is a step. *)
Definition ready_outcome (p : progress) (ev : relay_event) (w w1 : wires) (r : outcome io_error progress) : Prop :=
  match r with
  | Panic => False
  | Err _ => ∀ evs, ∃ z, moved p (ev :: evs) w w1 [] [] z
  | Ok p1 => in_step p1 w1 ∧ ∃ x y, step_to p ev x y p1 ∧
      sent (to_upstream w1) = (sent (to_upstream w) ++ x)%list ∧ sent (to_client w1) = (sent (to_client w) ++ y)%list
  end.

Lemma client_part_read p b l evs : client_closed p = false →
  client_part p (ClientRead (inr (b :: l)) :: evs) = ((b :: l) ++ client_part p evs)%list.
Proof. unfold client_part. by intros ->. Qed.

Lemma upstream_part_read p b l evs : upstream_closed p = false →
  upstream_part p (UpstreamRead (inr (b :: l)) :: evs) = ((b :: l) ++ upstream_part p evs)%list.
Proof. unfold upstream_part. by intros ->. Qed.

Lemma client_ready_end p w : client_ready (inr []) p w =
  let w1 := {| to_upstream := to_upstream w; to_client := to_client w; counts := count_read 0 (counts w) |} in
  let '(s, r) := shutdown write_failed (to_upstream w) in
  ({| to_upstream := s; to_client := to_client w1; counts := counts w1 |},
   r' ← r; Ok {| client_bytes := client_bytes p; upstream_bytes := upstream_bytes p; client_closed := true; upstream_closed := upstream_closed p |}).
Proof. by destruct w as [[x [[|n]|] z] u c]. Qed.

Lemma client_ready_some b l p w : client_ready (inr (b :: l)) p w =
  let w1 := {| to_upstream := to_upstream w; to_client := to_client w; counts := count_read (length (b :: l)) (counts w) |} in
  let '(s, r) := write_all write_failed (b :: l) (to_upstream w) in
  ({| to_upstream := s; to_client := to_client w1; counts := counts w1 |},
   r' ← r; Ok {| client_bytes := wrap_u 64 (client_bytes p + Z.of_nat (length (b :: l))); upstream_bytes := upstream_bytes p;
                 client_closed := client_closed p; upstream_closed := upstream_closed p |}).
Proof. by destruct w as [[x [[|n]|] z] u c]. Qed.

Lemma upstream_ready_some b l p w : upstream_ready (inr (b :: l)) p w =
  let '(s, r) := write_all write_failed (b :: l) (to_client w) in
  ({| to_upstream := to_upstream w; to_client := s;
      counts := if is_ok r then count_written (length (b :: l)) (counts w) else counts w |},
   r' ← r; Ok {| client_bytes := client_bytes p; upstream_bytes := wrap_u 64 (upstream_bytes p + Z.of_nat (length (b :: l)));
                 client_closed := client_closed p; upstream_closed := upstream_closed p |}).
Proof. by destruct w as [u [x [[|n]|] z] c]. Qed.

Lemma client_ready_spec r p evs w w1 o : in_step p w → fits p (ClientRead r :: evs) → client_closed p = false →
  client_ready r p w = (w1, o) → ready_outcome p (ClientRead r) w w1 o.
Proof.
  intros Hw [Hfit _] Hc. destruct r as [e|[|b l]].
  - cbn. intros [= <- <-] evs'. exists []. by apply moved_nothing.
  - rewrite client_ready_end. cbv zeta. destruct (shutdown write_failed (to_upstream w)) as [s o'] eqn:Es.
    apply shutdown_cases in Es as [Hs [-> | ->]]; intros [= <- <-]; cbn [ready_outcome].
    + split; [unfold in_step in *; cbn; rewrite Hw; unfold count_read; cbn; f_equal;
        rewrite Z.add_0_r; apply wrap_u_small64; unfold client_part in Hfit; rewrite Hc in Hfit; cbn in Hfit; lia|].
      exists [], []. split; [|cbn; by rewrite Hs, !app_nil_r].
      split; cbn; try done; try lia; [intros evs'; unfold client_part; cbn; by rewrite Hc|by right|by left].
    + intros evs'. exists []. split; [cbn; by rewrite Hs, app_nil_r|]. split; [cbn; by rewrite app_nil_r|].
      split; [cbn; rewrite Hw; unfold count_read; cbn; f_equal; [|lia]; rewrite Z.add_0_r; apply wrap_u_small64;
        unfold client_part in Hfit; rewrite Hc in Hfit; cbn in Hfit; lia|].
      split; [done|]. split; apply prefix_nil.
  - rewrite client_part_read, length_app in Hfit by done.
    rewrite client_ready_some. cbv zeta. destruct (write_all write_failed (b :: l) (to_upstream w)) as [s o'] eqn:Es.
    apply write_all_cases in Es as [[-> Hs]|[-> ->]]; intros [= <- <-]; cbn [ready_outcome].
    + split; [unfold in_step in *; cbn -[length wrap_u]; by rewrite Hw|].
      exists (b :: l), []. split; [|cbn [to_upstream to_client]; by rewrite Hs, !app_nil_r].
      split; cbn -[length wrap_u]; try done; try (cbn [length]; lia); try (by auto).
      * intros evs'. rewrite client_part_read by done. by unfold client_part.
      * apply wrap_u_small64. lia.
    + intros evs'. exists (b :: l). split; [cbn; by rewrite app_nil_r|]. split; [cbn; by rewrite app_nil_r|].
      split; [cbn -[length wrap_u]; rewrite Hw; unfold count_read; cbn -[length wrap_u]; f_equal; [apply wrap_u_small64; lia|cbn; lia]|].
      split; [apply prefix_nil|]. split; [rewrite client_part_read by done; by apply prefix_app_r|apply prefix_nil].
Qed.

Lemma upstream_ready_spec r p evs w w1 o : in_step p w → fits p (UpstreamRead r :: evs) → upstream_closed p = false →
  upstream_ready r p w = (w1, o) → ready_outcome p (UpstreamRead r) w w1 o.
Proof.
  intros Hw [_ Hfit] Hc. destruct r as [e|[|b l]].
  - cbn. intros [= <- <-] evs'. exists []. by apply moved_nothing.
  - cbn. intros [= <- <-]. split; [exact Hw|]. exists [], []. split; [|by rewrite !app_nil_r].
    split; cbn; try done; try lia; [intros evs'; unfold upstream_part; cbn; by rewrite Hc|by left|by right].
  - rewrite upstream_part_read, length_app in Hfit by done.
    rewrite upstream_ready_some. destruct (write_all write_failed (b :: l) (to_client w)) as [s o'] eqn:Es.
    apply write_all_cases in Es as [[-> Hs]|[-> ->]]; intros [= <- <-]; cbn [ready_outcome is_ok].
    + split; [unfold in_step in *; cbn -[length wrap_u]; by rewrite Hw|].
      exists [], (b :: l). split; [|cbn [to_upstream to_client]; by rewrite Hs, !app_nil_r].
      split; cbn -[length wrap_u]; try done; try (cbn [length]; lia); try (by auto).
      * intros evs'. rewrite upstream_part_read by done. by unfold upstream_part.
      * apply wrap_u_small64. lia.
    + intros evs'. exists []. exact (moved_nothing p (UpstreamRead (inr (b :: l)) :: evs') w Hw).
Qed.

(** An event of a closed side is not looked at. *)
Lemma skipped p ev : (∃ r, ev = ClientRead r ∧ client_closed p = true) ∨ (∃ r, ev = UpstreamRead r ∧ upstream_closed p = true) →
  step_to p ev [] [] p.
Proof.
  intros [(r & -> & Hc)|(r & -> & Hc)]; split; cbn; try done; try lia; try (by left);
    intros evs; unfold client_part, upstream_part; try rewrite Hc; try done.
Qed.

Lemma finished_result p evs w : in_step p w → finished p = true →
  relay_result p evs w [] [] [] (Ok (Some (client_bytes p, upstream_bytes p, "normal"))).
Proof. intros Hw Hf. cbn. rewrite Hw. split; [done|]. split; [done|]. split; [done|]. by apply finished_reason. Qed.

Lemma unfinished_nothing p w : in_step p w → relay_result p [] w [] [] [] (Ok None).
Proof. intros Hw. cbn. unfold client_part, upstream_part. by destruct (client_closed p), (upstream_closed p). Qed.

Lemma idle_result p evs w : in_step p w →
  relay_result p (IdleElapsed :: evs) w [] [] [] (Ok (Some (client_bytes p, upstream_bytes p, "idle-timeout"))).
Proof.
  intros Hw. cbn. rewrite Hw. split; [done|]. split; [done|]. split; [done|]. right. split; [done|].
  exists [], evs. unfold client_part, upstream_part. by destruct (client_closed p), (upstream_closed p).
Qed.

(** The rest of a relay after a ready read. *)
Lemma ready_then p ev evs w w1 w' o r (rest : progress → Wire.act wires io_error (option (Z * Z * string))) :
  in_step p w → fits p (ev :: evs) → ready_outcome p ev w w1 o →
  (∀ p1, in_step p1 w1 → fits p1 evs → rest p1 w1 = (w', r) →
     ∃ x y z, moved p1 evs w1 w' x y z ∧ relay_result p1 evs w' x y z r) →
  (match o with Ok p1 => rest p1 w1 | Err e => (w1, Err e) | Panic => (w1, Panic) end) = (w', r) →
  ∃ x y z, moved p (ev :: evs) w w' x y z ∧ relay_result p (ev :: evs) w' x y z r.
Proof.
  intros Hw Hfit Hready IH Hrun. destruct o as [p1|e|]; cbn in Hready; [| |done].
  - destruct Hready as (Hw1 & x0 & y0 & Hstep & Hx & Hy).
    destruct (IH p1 Hw1 (step_fits _ _ _ _ _ _ Hstep Hfit) Hrun) as (x & y & z & Hm & Hr).
    exists (x0 ++ x)%list, (y0 ++ y)%list, (x0 ++ z)%list. split; [by eapply step_moved|].
    eapply step_result; [exact Hstep|apply Hfit|exact Hr].
  - injection Hrun as <- <-. destruct (Hready evs) as [z Hm]. by exists [], [], z.
Qed.

Lemma copy_spec evs p w w' r : in_step p w → fits p evs → copy_bidirectional_until_idle evs p w = (w', r) →
  ∃ x y z, moved p evs w w' x y z ∧ relay_result p evs w' x y z r.
Proof.
  revert p w. induction evs as [|ev evs IH]; intros p w Hw Hfit; cbn [copy_bidirectional_until_idle];
    (destruct (finished p) eqn:Ef;
      [intros [= <- <-]; exists [], [], []; split; [by apply moved_nothing|by apply finished_result]|]).
  - intros [= <- <-]. exists [], [], []. split; [by apply moved_nothing|by apply unfinished_nothing].
  - destruct ev as [rd|rd|].
    + destruct (client_closed p) eqn:Ec.
      * intros Hrun. eapply (ready_then p _ evs w w w' (Ok p) r (copy_bidirectional_until_idle evs)); [done|done| |eauto|exact Hrun].
        split; [done|]. exists [], []. rewrite !app_nil_r. split; [apply skipped; left; by exists rd|done].
      * intros Hrun. unfold mbind, act_bind in Hrun. destruct (client_ready rd p w) as [w1 o] eqn:Er.
        eapply (ready_then p _ evs w w1 w' o r (copy_bidirectional_until_idle evs)); [done|done| |eauto|by destruct o].
        by eapply client_ready_spec.
    + destruct (upstream_closed p) eqn:Ec.
      * intros Hrun. eapply (ready_then p _ evs w w w' (Ok p) r (copy_bidirectional_until_idle evs)); [done|done| |eauto|exact Hrun].
        split; [done|]. exists [], []. rewrite !app_nil_r. split; [apply skipped; right; by exists rd|done].
      * intros Hrun. unfold mbind, act_bind in Hrun. destruct (upstream_ready rd p w) as [w1 o] eqn:Er.
        eapply (ready_then p _ evs w w1 w' o r (copy_bidirectional_until_idle evs)); [done|done| |eauto|by destruct o].
        by eapply upstream_ready_spec.
    + intros [= <- <-]. exists [], [], []. split; [by apply moved_nothing|by apply idle_result].
Qed.

(** C19: a captured TCP session is relayed exactly: whatever the sockets do, the upstream gets a
    prefix of what the client sent and the client a prefix of what the upstream sent, in order,
    and the counts that are reported are the bytes that passed. The relay ends as normal only
    when the upstream ended, with all of its bytes delivered and either all of the client's
    bytes too or some response, as idle only at a firing of the timer with everything before it
    delivered, and with an error otherwise, whose counts are what was read from the client and
    written to it. It does not panic. *)
Theorem direct_relay_exact session addr evs whole w w' r :
  is_Some (relay_idle_timeout session) → counts w = no_counts →
  (Z.of_nat (length (from_client evs)) < 2 ^ 64)%Z → (Z.of_nat (length (from_upstream evs)) < 2 ^ 64)%Z →
  direct_handle_tcp session (inr addr) evs whole w = (w', r) →
  ∃ x y z, sent (to_upstream w') = (sent (to_upstream w) ++ x)%list ∧ sent (to_client w') = (sent (to_client w) ++ y)%list ∧
    x `prefix_of` z ∧ z `prefix_of` from_client evs ∧ y `prefix_of` from_upstream evs ∧
    match r with
    | Ok None => x = from_client evs ∧ y = from_upstream evs
    | Ok (Some o) =>
        out_upstream o = relay_target session ∧
        IngressFields.client_to_upstream_bytes o = Z.of_nat (length x) ∧
        IngressFields.upstream_to_client_bytes o = Z.of_nat (length y) ∧
        ((out_close_reason o = "normal" ∧ UpstreamRead (inr []) ∈ evs ∧ y = from_upstream evs ∧
          (x = from_client evs ∧ ClientRead (inr []) ∈ evs ∨ y ≠ [])) ∨
         (out_close_reason o = "idle-timeout" ∧ ∃ before after, evs = (before ++ IdleElapsed :: after)%list ∧
          x = from_client before ∧ y = from_upstream before))
    | Err e =>
        ee_stage e = "relay" ∧ ee_upstream e = Some (relay_target session) ∧
        ee_client_to_upstream_bytes e = Some (Z.of_nat (length z)) ∧
        ee_upstream_to_client_bytes e = Some (Z.of_nat (length y))
    | Panic => False
    end.
Proof.
  intros [t Ht] Hw Hx Hy Hrun. unfold direct_handle_tcp, copied in Hrun. rewrite Ht in Hrun.
  destruct (copy_bidirectional_until_idle evs at_start w) as [w1 o] eqn:Ec.
  destruct (copy_spec evs at_start w w1 o) as (x & y & z & (Hup & Hdown & Hcnt & Hxz & Hz & Hyp) & Hres);
    [exact Hw|unfold fits, client_part, upstream_part; cbn; lia|exact Ec|].
  cbn [client_bytes upstream_bytes at_start] in Hcnt. rewrite !Z.add_0_l in Hcnt.
  exists x, y, z. destruct o as [[[[a b] reason]|]|e|]; injection Hrun as <- <-; do 5 (split; [done|]).
  - cbn in Hres. destruct Hres as (-> & -> & -> & He). rewrite Hcnt. do 3 (split; [done|]).
    destruct He as [(-> & Hy1 & [?|Hend] & Hwhy)|(-> & Hi)]; [done|left|by right].
    do 3 (split; [done|]). destruct Hwhy as [[? [?|?]]|[?|?]]; [done|by left|done|by right].
  - by destruct Hres as (_ & -> & ->).
  - by rewrite Hcnt.
  - exact Hres.
Qed.

(** ** The watchdog cuts a relay only when nothing passed for a whole period *)
Definition samples (ticks : list relay_tick) : list PlaintextByteCounts :=
  omap (λ t, match t with TimerFired c => Some c | RelayDone _ => None end) ticks.

Lemma same_counts_eq a b : same_counts a b = true ↔ a = b.
Proof.
  unfold same_counts. rewrite andb_true_iff, !Z.eqb_eq. destruct a, b; cbn. split; [by intros [-> ->]|by intros [= -> ->]].
Qed.

Theorem idle_watchdog_spec ticks before upstream r : idle_loop ticks before upstream = Some r →
  (∃ l rest, ticks = (l ++ RelayDone r :: rest)%list ∧ length (samples l) = length l) ∨
  (∃ l c rest, ticks = (l ++ TimerFired c :: rest)%list ∧ length (samples l) = length l ∧
     list.last (before :: samples l) = Some c ∧ r = Ok (idle_outcome upstream c)).
Proof.
  revert before. induction ticks as [|[d|c] ticks IH]; intros before; cbn [idle_loop]; [done|..].
  - intros [= ->]. left. by exists [], ticks.
  - destruct (same_counts c before) eqn:Es.
    + apply same_counts_eq in Es as ->. intros [= <-]. right. by exists [], before, ticks.
    + intros [(l & rest & -> & Hl)|(l & c' & rest & -> & Hl & Hc & Hr)]%IH; [left|right].
      * exists (TimerFired c :: l), rest. split; [done|]. cbn. by f_equal.
      * exists (TimerFired c :: l), c', rest. split; [done|]. split; [cbn; by f_equal|]. split; [|done].
        change (samples (TimerFired c :: l)) with (c :: samples l). by rewrite last_cons_cons.
Qed.

(** ** On a concrete session *)
Definition idle_address : SocketAddr := socket_addr (ipv4_from [x0a; x00; x00; x01]) 443.

Definition idle_decision : SelectionDecision := demo_decision.

Definition idle_session : TcpRelaySession :=
  {| relay_target := idle_address; relay_decision := idle_decision; relay_idle_timeout := Some 1000%Z |}.

Definition fresh_wires (up down : option nat) : wires :=
  {| to_upstream := new_sink up; to_client := new_sink down; counts := no_counts |}.

Definition idle_script : list relay_event :=
  [ClientRead (inr [x41; x42]); UpstreamRead (inr [x61]); ClientRead (inr []); UpstreamRead (inr [x62; x63]);
   UpstreamRead (inr []); ClientRead (inr [x43])].

Lemma direct_relay_exact_witness :
  let run := direct_handle_tcp idle_session (inr idle_address) idle_script (inr (0, 0)%Z) (fresh_wires None None) in
  (∃ o, run.2 = Ok (Some o) ∧ out_close_reason o = "normal") ∧
  ∃ x y z, sent (to_upstream run.1) = x ∧ sent (to_client run.1) = y ∧ x `prefix_of` z.
Proof.
  destruct (direct_handle_tcp idle_session (inr idle_address) idle_script (inr (0, 0)%Z) (fresh_wires None None)) as [w' r] eqn:E.
  split; [injection E as <- <-; eexists; split; reflexivity|].
  destruct (direct_relay_exact idle_session idle_address idle_script (inr (0, 0)%Z) (fresh_wires None None) w' r) as (x & y & z & Hx & Hy & Hp & _);
    [by eexists|reflexivity|reflexivity|reflexivity|exact E|].
  exists x, y, z. split; [exact Hx|]. split; [exact Hy|exact Hp].
Defined.

(** What was read from the client counts although writing it to the upstream failed. *)
Example failed_write_counted :
  (direct_handle_tcp idle_session (inr idle_address) idle_script (inr (0, 0)%Z) (fresh_wires (Some 0) None)).2 =
  Err (with_plaintext_bytes (egress_error "relay" (Some idle_address) "TCP relay failed: {error}") 2 0).
Proof. reflexivity. Qed.
