(* ===== verification/EgressUdp.v ===== *)
(** * EgressUdp: UDP associations on the egress side

    The relay loops of [crates/dynet-ingress/src/egress/direct.rs], [shadowsocks.rs],
    [trojan.rs], [vmess.rs] and [vless.rs], [relay_udp_response] of [udp_observation.rs] and
    [UdpDownstream] of [udp_downstream.rs]. The loops differ in how a datagram is written to
    and read from the other end; [UdpTransport] is what a loop needs of that, [DuplexLaws]
    what it promises: the two directions do not disturb each other, and a read that is dropped
    half-way does not disturb the writes. *)
From Stdlib Require Import ZArith Lia Strings.Byte Ascii String Sorting.Sorted.
From stdpp Require Import base list numbers option strings gmap sets.
From S2P Require Import Prelude Collections Net RustStd Wire AeadStream Replay Shadowsocks Vmess Trojan Vless Model Stores Traffic MatrixStats Matrix Runtime DnsWire DnsResolve Bootstrap Observations ConfigData Egress Socks IngressFields Inbound InboundPool EgressRelay.
Local Open Scope string_scope.
Local Open Scope nat_scope.

(** ** The interface *)
Class UdpTransport := {
  ut_tag : string;
  ut_state : Type;
  (** what a write draws (a salt, the time) *)
  ut_draw : Type;
  (** what completes a read (a packet, nothing for a stream) *)
  ut_arrival : Type;
  ut_write : ut_draw → SocketAddr → bytes → Wire.act ut_state EgressError unit;
  ut_read : ut_arrival → Wire.act ut_state EgressError bytes;
  (** a read that the [select!] drops after it took [n] bytes *)
  ut_cancel : nat → ut_state → ut_state;
  (** further fields of the events *)
  ut_fields : Fields;
}.

Class DuplexLaws (T : UdpTransport) : Prop := {
  duplex_write : ∀ s a d t p, (ut_write d t p (ut_read a s).1).2 = (ut_write d t p s).2;
  duplex_read : ∀ s a d t p, (ut_read a (ut_write d t p s).1).2 = (ut_read a s).2;
  duplex_state : ∀ s a d t p, (ut_read a (ut_write d t p s).1).1 = (ut_write d t p (ut_read a s).1).1;
  duplex_torn_write : ∀ s n d t p, (ut_write d t p (ut_cancel n s)).2 = (ut_write d t p s).2;
  duplex_torn_state : ∀ s n d t p, (ut_write d t p (ut_cancel n s)).1 = ut_cancel n (ut_write d t p s).1;
  duplex_fields : extra_ok ut_fields;
}.

(** ** What reaches the client *)
Record observer := { to_peer : list bytes; peer_budget : option nat; reported : list Fields }.

(** The bytes that [send_to_peer] hands to the socket or the channel. *)
Definition downstream_bytes (d : UdpDownstream) (payload : bytes) : bytes :=
  match d with Socks5 response_target => socks5_udp_packet response_target payload | Raw | Channel => payload end.

Definition send_to_peer (d : UdpDownstream) (payload : bytes) : Wire.act observer string unit := λ o,
  let taken b := {| to_peer := to_peer o ++ [downstream_bytes d payload]; peer_budget := b; reported := reported o |} in
  match peer_budget o with
  | Some 0 => (o, Err "{error}")
  | Some (S n) => (taken (Some n), Ok tt)
  | None => (taken None, Ok tt)
  end.

Definition report (f : Fields) : Wire.act observer EgressError unit :=
  modify (λ o, {| to_peer := to_peer o; peer_budget := peer_budget o; reported := reported o ++ [f] |}).

Definition inbound_write_error (upstream : SocketAddr) : EgressError :=
  egress_error "inbound-write" (Some upstream) "failed sending UDP downstream datagram: {error}".

Definition relay_udp_response (a : UdpRelayAssociation) (protocol : string) (upstream : SocketAddr) (payload : bytes) (extra : Fields)
    : Wire.act observer EgressError unit :=
  _ ← Wire.map_err (λ _, inbound_write_error upstream) (send_to_peer (assoc_downstream a) payload);
  report (response_datagram_fields a protocol upstream payload extra).

(** ** The loop *)
Section relay.
Context {T : UdpTransport}.

(** What a [select!] under the idle timeout meets. A datagram of the client may come while a read
    of the other direction has taken [lost] bytes. *)
Inductive udp_event :=
| FromInbound (payload : bytes) (draw : ut_draw) (lost : nat)
| FromUpstream (a : ut_arrival)
| RelayClosed
| RelayIdle.

Abbreviation relay_act := (Wire.act (ut_state * observer) EgressError).

Definition udp_outcome (upstream : SocketAddr) (reason : string) : UdpRelayOutcome :=
  {| udp_out_upstream := upstream; udp_out_close_reason := reason |}.

Definition downstream_step (a : UdpRelayAssociation) (payload : bytes) (d : ut_draw) (lost : nat) : relay_act unit :=
  _ ← on_fst (modify (ut_cancel lost));
  on_fst (ut_write d (assoc_target a) payload).

Definition upstream_step (a : UdpRelayAssociation) (upstream : SocketAddr) (x : ut_arrival) : relay_act unit :=
  payload ← on_fst (ut_read x);
  on_snd (relay_udp_response a ut_tag upstream payload ut_fields).

(** [None] when the script ends before the relay does. *)
Fixpoint relay_udp (evs : list udp_event) (a : UdpRelayAssociation) (upstream : SocketAddr) : relay_act (option UdpRelayOutcome) :=
  match evs with
  | [] => mret None
  | FromInbound payload d lost :: evs => _ ← downstream_step a payload d lost; relay_udp evs a upstream
  | FromUpstream x :: evs => _ ← upstream_step a upstream x; relay_udp evs a upstream
  | RelayClosed :: _ => mret (Some (udp_outcome upstream "inbound-closed"))
  | RelayIdle :: _ => mret (Some (udp_outcome upstream "idle-timeout"))
  end.

(** ** The two directions on their own

    What happens to the side of the upstream: an arrival is read, or a read that has taken some bytes
    is dropped, as it is whenever a datagram of the client comes first. *)
Definition ut_reading : Type := ut_arrival + nat.

Definition arrivals (evs : list udp_event) : list ut_reading :=
  omap (λ e, match e with FromUpstream x => Some (inl x) | FromInbound _ _ lost => Some (inr lost) | _ => None end) evs.

Definition payloads (evs : list udp_event) : list (bytes * ut_draw) :=
  omap (λ e, match e with FromInbound p d _ => Some (p, d) | _ => None end) evs.

Definition read_one (x : ut_reading) : Wire.act ut_state EgressError (list bytes) :=
  match x with inl x => p ← ut_read x; mret [p] | inr lost => _ ← modify (ut_cancel lost); mret [] end.

Fixpoint read_all (l : list ut_reading) : Wire.act ut_state EgressError (list bytes) :=
  match l with [] => mret [] | x :: l => p ← read_one x; ps ← read_all l; mret (p ++ ps)%list end.

Fixpoint write_each (t : SocketAddr) (l : list (bytes * ut_draw)) : Wire.act ut_state EgressError unit :=
  match l with [] => mret tt | (p, d) :: l => _ ← ut_write d t p; write_each t l end.

(** A read that is dropped loses nothing. *)
Definition harmless (lost : nat) : Prop := ∀ s, ut_cancel lost s = s.
Definition unbroken (e : udp_event) : Prop := match e with FromInbound _ _ lost => harmless lost | _ => True end.

(** Where no dropped read loses anything, it is the arrivals in order that are read. *)
Definition complete (l : list ut_reading) : list ut_reading := List.filter (λ x, match x with inl _ => true | inr _ => false end) l.

Lemma read_all_complete evs s : Forall unbroken evs → read_all (arrivals evs) s = read_all (complete (arrivals evs)) s.
Proof.
  intros Hev. revert s. induction Hev as [|ev evs Hx _ IH]; intros s; [done|]. destruct ev as [p d lost|x| |]; cbn [arrivals omap list_omap]; [| |by apply IH..].
  - cbn [complete List.filter]. rewrite <- IH. cbn [read_all read_one]. unfold mbind, act_bind, modify. cbn. rewrite (Hx s).
    change (omap _ evs) with (arrivals evs). by destruct (read_all (arrivals evs) s) as [s1 [ps|e|]].
  - cbn [complete List.filter read_all]. unfold mbind, act_bind. destruct (read_one (inl x) s) as [s1 [q|e|]]; [|done..].
    change (omap _ evs) with (arrivals evs). by rewrite IH.
Qed.
End relay.

Arguments udp_event T : clear implicits.

(** ** The transports *)

(** [FromInbound] and [FromUpstream] of [udp_step]; a [recv] that fails is [RelayClosed]. A socket
    loses nothing when its [recv] is dropped. *)
Definition socket_write (e : EgressError) (packet : bytes) : Wire.act sink EgressError unit := write_all e packet.

Definition direct_transport (target : SocketAddr) : UdpTransport :=
  {| ut_tag := "direct"; ut_state := sink; ut_draw := unit; ut_arrival := bytes;
     ut_write := λ _ _ payload,
       socket_write (egress_error "egress-write" (Some target) "failed sending UDP target datagram: {error}") payload;
     ut_read := λ packet, mret packet;
     ut_cancel := λ _ s, s;
     ut_fields := [] |}.

(** The packet of a stream is read from what is to come; a read that is dropped has moved the reader
    to where it waited for more. *)
Definition cut {R} (read : Wire.act (R * input) Wire.Error bytes) (n : nat) (s : R * input) : R * input :=
  let '(r, i) := s in
  ((read (r, {| pending := take n (pending i); broken := None |})).1.1, {| pending := drop n (pending i); broken := broken i |}).

Definition wire_error {S A} (upstream : SocketAddr) (m : Wire.act S Wire.Error A) : Wire.act S EgressError A :=
  Wire.map_err (λ e, client_error e (Some upstream)) m.

(** A client over a stream, from its reader and its writer. *)
Definition stream_transport {R W} (tag : string) (upstream : SocketAddr) (read : Wire.act (R * input) Wire.Error bytes)
    (write : SocketAddr → bytes → Wire.act W Wire.Error unit) : UdpTransport :=
  {| ut_tag := tag; ut_state := (R * input) * W; ut_draw := unit; ut_arrival := unit;
     ut_write := λ _ target payload, on_snd (wire_error upstream (write target payload));
     ut_read := λ _, on_fst (wire_error upstream read);
     ut_cancel := λ n s, (cut read n s.1, s.2);
     ut_fields := [] |}.

Definition trojan_transport (upstream : SocketAddr) : UdpTransport :=
  stream_transport "trojan" upstream (on_snd (S := unit) read_udp_packet) Trojan.write_datagram.

Definition vless_transport (upstream : SocketAddr) : UdpTransport :=
  stream_transport "vless" upstream Vless.read_datagram (λ _, Vless.write_datagram).

Section vmess.
Context (aes128 : Aead) (hmac_sha256 : bytes → bytes → bytes).

Definition vmess_transport (upstream : SocketAddr) : UdpTransport :=
  stream_transport "vmess" upstream (Vmess.read_datagram aes128 hmac_sha256) (λ _, Vmess.write_datagram aes128).
End vmess.

Section shadowsocks.
Context (aes256 aes128 : Aead) (hkdf : bytes → bytes → option bytes) (derive_key : bytes → bytes)
  (encrypt_block decrypt_block : bytes → bytes → bytes).

Abbreviation encode := (Client.encode_udp_datagram aes256 aes128 hkdf derive_key encrypt_block).
Abbreviation decode := (Client.decode_udp_datagram aes256 aes128 hkdf derive_key decrypt_block).

Definition DATAGRAM_LIMIT : nat := Z.to_nat 65535.

(** The draw is a salt and the time, an arrival a packet and the time. *)
Definition ss_transport (upstream : SocketAddr) : UdpTransport :=
  {| ut_tag := "ss"; ut_state := Client.UdpProtocol * sink; ut_draw := bytes * Z; ut_arrival := Z * bytes;
     ut_write := λ '(salt, now) target payload,
       packet ← on_fst (wire_error upstream (encode salt now target payload));
       on_snd (socket_write (egress_error "egress-write" (Some upstream) "failed sending Shadowsocks UDP packet: {error}") packet);
     ut_read := λ '(now, packet), on_fst (wire_error upstream (decode now packet));
     ut_cancel := λ _ s, s;
     ut_fields := [] |}.

Definition shadowsocks_chain_error (stage : string) (upstream : SocketAddr) (e : Wire.Error) : EgressError :=
  egress_error stage (Some upstream) (Wire.message e).

Definition ensure_datagram_limit (stage : string) (size : nat) (upstream : SocketAddr) : outcome EgressError unit :=
  if size <=? DATAGRAM_LIMIT then Ok tt
  else Err (egress_error stage (Some upstream) ("encoded UDP packet exceeds 65535 bytes: " ++ to_string (Z.of_nat size))).

(** The session with the final server, the one with the underlay, and the socket. *)
Abbreviation chain_state := (Client.UdpProtocol * (Client.UdpProtocol * sink))%type.

Definition send_chained_udp_request (final_server upstream : SocketAddr) (draw : (bytes * Z) * (bytes * Z)) (target : SocketAddr)
    (payload : bytes) : Wire.act chain_state EgressError unit :=
  inner ← on_fst (Wire.map_err (shadowsocks_chain_error "egress-udp-inner-encode" final_server)
                    (encode draw.1.1 draw.1.2 target payload));
  _ ← lift (ensure_datagram_limit "egress-udp-inner-encode" (length inner) final_server);
  outer ← on_snd (on_fst (Wire.map_err (shadowsocks_chain_error "egress-udp-outer-encode" upstream)
                            (encode draw.2.1 draw.2.2 final_server inner)));
  _ ← lift (ensure_datagram_limit "egress-udp-outer-encode" (length outer) upstream);
  on_snd (on_snd (socket_write (egress_error "egress-udp-outer-write" (Some upstream)
                                  "failed sending Shadowsocks UDP underlay packet: {error}") outer)).

Definition decode_chained_udp_response (final_server upstream : SocketAddr) (times : Z * Z) (packet : bytes)
    : Wire.act chain_state EgressError bytes :=
  outer ← on_snd (on_fst (Wire.map_err (shadowsocks_chain_error "egress-udp-outer-decode" upstream) (decode times.1 packet)));
  on_fst (Wire.map_err (shadowsocks_chain_error "egress-udp-inner-decode" final_server) (decode times.2 outer)).

Definition chain_fields (final_server upstream : SocketAddr) : Fields :=
  [("udpUnderlay", socket_to_string upstream); ("udpFinalServer", socket_to_string final_server)].

Definition chain_transport (final_server upstream : SocketAddr) : UdpTransport :=
  {| ut_tag := "ss"; ut_state := chain_state; ut_draw := (bytes * Z) * (bytes * Z); ut_arrival := (Z * Z) * bytes;
     ut_write := send_chained_udp_request final_server upstream;
     ut_read := λ '(times, packet), decode_chained_udp_response final_server upstream times packet;
     ut_cancel := λ _ s, s;
     ut_fields := chain_fields final_server upstream |}.
End shadowsocks.

(** ** Opening an association *)
Section open.
Context {T : UdpTransport}.
Abbreviation relay_act := (Wire.act (ut_state * observer) EgressError).

(** [handle_udp] over a socket of its own: binding, connecting to a server and reading its address. *)
Definition bind_error (text : string) : EgressError := egress_error "egress-bind" None text.
Definition connect_error (upstream : option SocketAddr) (text : string) : EgressError := egress_error "egress-connect" upstream text.

Definition direct_open (target : SocketAddr) (bound connected : option string) : outcome EgressError SocketAddr :=
  match bound with
  | Some error => Err (bind_error ("failed to bind UDP egress socket: " ++ error))
  | None =>
      match connected with
      | Some error => Err (connect_error (Some target) ("failed connecting UDP target " ++ socket_to_string target ++ ": " ++ error))
      | None => Ok target
      end
  end.

Definition ss_open (connecting reading endpoint : string) (bound connected : option string) (peer : string + SocketAddr) : outcome EgressError SocketAddr :=
  match bound with
  | Some error => Err (bind_error ("failed to bind Shadowsocks UDP socket: " ++ error))
  | None =>
      match connected with
      | Some error => Err (connect_error None ("failed connecting Shadowsocks UDP " ++ connecting ++ endpoint ++ ": " ++ error))
      | None =>
          match peer with
          | inl error => Err (connect_error None ("failed reading Shadowsocks UDP " ++ reading ++ "address: " ++ error))
          | inr a => Ok a
          end
      end
  end.

(** [resolve_udp_server], with what [lookup_host] returns *)
Definition resolve_udp_server (label : string) (looked_up : string + list SocketAddr) : outcome EgressError SocketAddr :=
  match looked_up with
  | inl error => Err (egress_error "egress-udp-inner-resolve" None ("failed resolving Shadowsocks UDP server " ++ label ++ ": " ++ error))
  | inr [] => Err (egress_error "egress-udp-inner-resolve" None ("Shadowsocks UDP server " ++ label ++ " resolved no addresses"))
  | inr (a :: _) => Ok a
  end.

(** [handle_udp] and [handle_udp_over_ss] up to their loops; the endpoints are the servers'. *)
Definition ss_handle_udp_open (endpoint : string) (bound connected : option string) (peer : string + SocketAddr)
    : outcome EgressError SocketAddr := ss_open "server " "server " endpoint bound connected peer.

Definition chain_open (label : string) (looked_up : string + list SocketAddr) (endpoint : string) (bound connected : option string)
    (peer : string + SocketAddr) : outcome EgressError (SocketAddr * SocketAddr) :=
  final_server ← resolve_udp_server label looked_up;
  upstream ← ss_open "underlay server " "underlay " endpoint bound connected peer;
  Ok (final_server, upstream).

(** The relay on what the opening gave. *)
Definition relay_opened (opened : outcome EgressError SocketAddr) (a : UdpRelayAssociation) (evs : list (udp_event T))
    : relay_act (option UdpRelayOutcome) :=
  upstream ← lift opened; relay_udp evs a upstream.

(** [handle_udp] of a client over a stream, and [handle_udp_via_dialer]: the errors of the connect
    know the address that was dialled. *)
Definition connected_udp (connected : outcome Wire.Error SocketAddr) : outcome EgressError SocketAddr :=
  match connected with Ok a => Ok a | Err e => Err (client_error e None) | Panic => Panic end.

Definition dialed_udp (dialed : outcome EgressError SocketAddr) (connected : SocketAddr → outcome Wire.Error SocketAddr)
    : outcome EgressError SocketAddr :=
  upstream ← dialed;
  match connected upstream with Ok a => Ok a | Err e => Err (client_error e (Some upstream)) | Panic => Panic end.
End open.

(** ** The protocols

    The addresses in a transport are those that its opening gives. *)
Abbreviation udp_relay T := (Wire.act (@ut_state T * observer) EgressError (option UdpRelayOutcome)).

Definition direct_handle_udp (target : SocketAddr) (bound connected : option string) (a : UdpRelayAssociation)
    (evs : list (udp_event (direct_transport target))) : udp_relay (direct_transport target) :=
  relay_opened (direct_open target bound connected) a evs.

Definition trojan_relay_udp (upstream : SocketAddr) (a : UdpRelayAssociation) (evs : list (udp_event (trojan_transport upstream)))
    : udp_relay (trojan_transport upstream) := relay_udp evs a upstream.

(** The request of the Trojan client goes out before the relay starts. *)
Definition trojan_handle_udp_via_dialer (hash : bytes) (upstream : SocketAddr) (dialed : outcome EgressError SocketAddr)
    (a : UdpRelayAssociation) (evs : list (udp_event (trojan_transport upstream))) : udp_relay (trojan_transport upstream) :=
  _ ← lift dialed;
  _ ← on_fst (on_snd (wire_error upstream (Trojan.connect_udp hash (assoc_target a))));
  trojan_relay_udp upstream a evs.

Definition trojan_handle_udp (upstream : SocketAddr) (connected : outcome Wire.Error SocketAddr) (a : UdpRelayAssociation)
    (evs : list (udp_event (trojan_transport upstream))) : udp_relay (trojan_transport upstream) :=
  relay_opened (connected_udp connected) a evs.

Definition vless_relay_udp (upstream : SocketAddr) (a : UdpRelayAssociation) (evs : list (udp_event (vless_transport upstream)))
    : udp_relay (vless_transport upstream) := relay_udp evs a upstream.

Definition vless_handle_udp_via_dialer (upstream : SocketAddr) (dialed : outcome EgressError SocketAddr)
    (connected : SocketAddr → outcome Wire.Error SocketAddr) (a : UdpRelayAssociation)
    (evs : list (udp_event (vless_transport upstream))) : udp_relay (vless_transport upstream) :=
  relay_opened (dialed_udp dialed connected) a evs.

Definition vless_handle_udp (upstream : SocketAddr) (connected : outcome Wire.Error SocketAddr) (a : UdpRelayAssociation)
    (evs : list (udp_event (vless_transport upstream))) : udp_relay (vless_transport upstream) :=
  relay_opened (connected_udp connected) a evs.

Definition vmess_relay_udp aes128 hmac_sha256 (upstream : SocketAddr) (a : UdpRelayAssociation)
    (evs : list (udp_event (vmess_transport aes128 hmac_sha256 upstream))) : udp_relay (vmess_transport aes128 hmac_sha256 upstream) :=
  relay_udp evs a upstream.

Definition vmess_handle_udp_via_dialer aes128 hmac_sha256 (upstream : SocketAddr) (dialed : outcome EgressError SocketAddr)
    (connected : SocketAddr → outcome Wire.Error SocketAddr) (a : UdpRelayAssociation)
    (evs : list (udp_event (vmess_transport aes128 hmac_sha256 upstream))) : udp_relay (vmess_transport aes128 hmac_sha256 upstream) :=
  relay_opened (dialed_udp dialed connected) a evs.

Definition vmess_handle_udp aes128 hmac_sha256 (upstream : SocketAddr) (connected : outcome Wire.Error SocketAddr) (a : UdpRelayAssociation)
    (evs : list (udp_event (vmess_transport aes128 hmac_sha256 upstream))) : udp_relay (vmess_transport aes128 hmac_sha256 upstream) :=
  relay_opened (connected_udp connected) a evs.

Section shadowsocks_protocols.
Context (aes256 aes128 : Aead) (hkdf : bytes → bytes → option bytes) (derive_key : bytes → bytes)
  (encrypt_block decrypt_block : bytes → bytes → bytes).
Abbreviation ss := (ss_transport aes256 aes128 hkdf derive_key encrypt_block decrypt_block).
Abbreviation chain := (chain_transport aes256 aes128 hkdf derive_key encrypt_block decrypt_block).

Definition ss_handle_udp (upstream : SocketAddr) (endpoint : string) (bound connected : option string) (peer : string + SocketAddr)
    (a : UdpRelayAssociation) (evs : list (udp_event (ss upstream))) : udp_relay (ss upstream) :=
  relay_opened (ss_handle_udp_open endpoint bound connected peer) a evs.

Definition handle_udp_over_ss (final upstream : SocketAddr) (label : string) (looked_up : string + list SocketAddr) (endpoint : string)
    (bound connected : option string) (peer : string + SocketAddr) (a : UdpRelayAssociation) (evs : list (udp_event (chain final upstream)))
    : udp_relay (chain final upstream) :=
  relay_opened (snd <$> chain_open label looked_up endpoint bound connected peer) a evs.
End shadowsocks_protocols.

(** ** The transports keep the two directions apart *)
Lemma no_extra : extra_ok [].
Proof. unfold extra_ok. cbn. split; [|split]; apply not_elem_of_nil. Qed.

#[export] Instance direct_duplex target : DuplexLaws (direct_transport target).
Proof. split; [done|done|done|done|done|apply no_extra]. Qed.

#[export] Instance stream_duplex {R W} tag upstream read write : DuplexLaws (@stream_transport R W tag upstream read write).
Proof.
  split; [| | |intros [x y] n [] t p; cbn; by destruct (wire_error upstream (write t p) y)..|apply no_extra]; intros [x y] [] [] t p; cbn; destruct (wire_error upstream read x) as [x' r] eqn:Er;
    destruct (wire_error upstream (write t p) y) as [y' r'] eqn:Ew; cbn; rewrite ?Er, ?Ew; done.
Qed.

#[export] Instance trojan_duplex upstream : DuplexLaws (trojan_transport upstream).
Proof. apply stream_duplex. Qed.

#[export] Instance vless_duplex upstream : DuplexLaws (vless_transport upstream).
Proof. apply stream_duplex. Qed.

#[export] Instance vmess_duplex aes128 hmac upstream : DuplexLaws (vmess_transport aes128 hmac upstream).
Proof. apply stream_duplex. Qed.

Section shadowsocks_duplex.
Context (aes256 aes128 : Aead) (hkdf : bytes → bytes → option bytes) (derive_key : bytes → bytes)
  (encrypt_block decrypt_block : bytes → bytes → bytes).
Abbreviation encode := (Client.encode_udp_datagram aes256 aes128 hkdf derive_key encrypt_block).
Abbreviation decode := (Client.decode_udp_datagram aes256 aes128 hkdf derive_key decrypt_block).

(** Sealing a datagram moves the counter of the session, opening one its windows. *)
Lemma aead2022_square s now t p now' packet :
  let enc := Aead2022.encode_udp_datagram aes128 derive_key encrypt_block now t p in
  let dec := Aead2022.decode_udp_datagram aes128 derive_key decrypt_block now' packet in
  ∃ s3, enc (dec s).1 = (s3, (enc s).2) ∧ dec (enc s).1 = (s3, (dec s).2).
Proof.
  cbv zeta. unfold Aead2022.decode_udp_datagram.
  assert (∀ n, Aead2022.open_udp_datagram aes128 derive_key decrypt_block now'
    {| Aead2022.session_key := Aead2022.session_key s; Aead2022.session_id := Aead2022.session_id s;
       Aead2022.packet_id := n; Aead2022.server_windows := Aead2022.server_windows s |} packet =
    Aead2022.open_udp_datagram aes128 derive_key decrypt_block now' s packet) as Hopen by done.
  unfold Aead2022.encode_udp_datagram.
  destruct (Aead2022.open_udp_datagram aes128 derive_key decrypt_block now' s packet) as [[[sid id] payload]|e|] eqn:Eo;
    [destruct (check_and_update (Aead2022.window_of s sid) id) as [w o] eqn:Ec|..];
    cbn [fst snd Aead2022.packet_id Aead2022.session_key Aead2022.session_id Aead2022.server_windows];
    destruct (try_u 64 (Aead2022.packet_id s + 1)) as [next|]; (eexists; split; [reflexivity|]);
    cbn [fst snd]; rewrite ?Hopen, ?Eo; try reflexivity.
  - by change (Aead2022.window_of {| Aead2022.packet_id := next |} sid) with (Aead2022.window_of s sid); rewrite Ec.
  - by rewrite Ec.
Qed.

Lemma session_square s salt now t p now' packet :
  ∃ s3, encode salt now t p (decode now' packet s).1 = (s3, (encode salt now t p s).2) ∧
        decode now' packet (encode salt now t p s).1 = (s3, (decode now' packet s).2).
Proof.
  destruct s as [key|s]; [by eexists|].
  destruct (aead2022_square s now t p now' packet) as (s3 & He & Hd).
  cbn [Client.encode_udp_datagram Client.decode_udp_datagram].
  destruct (Aead2022.encode_udp_datagram aes128 derive_key encrypt_block now t p s) as [s1 r1].
  destruct (Aead2022.decode_udp_datagram aes128 derive_key decrypt_block now' packet s) as [s2 r2].
  cbn [fst snd] in *. exists (Client.UdpAead2022 s3). cbn [Client.encode_udp_datagram Client.decode_udp_datagram].
  by rewrite He, Hd.
Qed.
(** The same with errors translated. *)
Lemma error_square f g s salt now t p now' packet :
  let enc := Wire.map_err (E := Wire.Error) (F := EgressError) f (encode salt now t p) in
  let dec := Wire.map_err (E := Wire.Error) (F := EgressError) g (decode now' packet) in
  ∃ s1 s2 s3 r r', enc s = (s1, r) ∧ dec s = (s2, r') ∧ enc s2 = (s3, r) ∧ dec s1 = (s3, r').
Proof.
  cbv zeta. destruct (session_square s salt now t p now' packet) as (s3 & He & Hd). unfold Wire.map_err.
  destruct (encode salt now t p s) as [s1 r1] eqn:E1. destruct (decode now' packet s) as [s2 r2] eqn:E2. cbn [fst snd] in *.
  exists s1, s2, s3. rewrite He, Hd. destruct r1, r2; eauto 10.
Qed.

Local Ltac runs :=
  repeat first [progress cbn [fst snd] | match goal with H : Wire.map_err ?f ?m ?s = _ |- context [Wire.map_err ?f ?m ?s] => rewrite H end].

#[export] Instance ss_duplex upstream : DuplexLaws (ss_transport aes256 aes128 hkdf derive_key encrypt_block decrypt_block upstream).
Proof.
  split; [| | |done|done|apply no_extra]; intros [s k] [now' packet] [salt now] t p; cbn -[Client.encode_udp_datagram Client.decode_udp_datagram];
    unfold mbind, act_bind, on_fst, on_snd, wire_error;
    destruct (error_square (λ e, client_error e (Some upstream)) (λ e, client_error e (Some upstream)) s salt now t p now' packet)
      as (s1 & s2 & s3 & r & r' & H1 & H2 & H3 & H4); rewrite H1, H2; cbn [fst snd];
    destruct r as [l|e|]; try destruct (socket_write _ l k) as [k' r''] eqn:Ek; cbn [fst snd]; rewrite ?H3, ?H4; cbn [fst snd]; rewrite ?Ek; done.
Qed.

Lemma chain_extra final upstream : extra_ok (chain_fields final upstream).
Proof. unfold extra_ok. cbn. split; [|split]; apply (bool_decide_unpack _); vm_compute; exact I. Qed.

#[export] Instance chain_duplex final upstream :
  DuplexLaws (chain_transport aes256 aes128 hkdf derive_key encrypt_block decrypt_block final upstream).
Proof.
  split; [| | |done|done|apply chain_extra]; intros [u [v k]] [[n1 n2] packet] [[salt1 m1] [salt2 m2]] t p;
    cbn -[Client.encode_udp_datagram Client.decode_udp_datagram].
  all: unfold send_chained_udp_request, decode_chained_udp_response, mbind, act_bind, on_fst, on_snd, lift; cbn [fst snd].
  all: set (f1 := shadowsocks_chain_error "egress-udp-inner-encode" final) in *; set (f2 := shadowsocks_chain_error "egress-udp-outer-encode" upstream) in *;
    set (g1 := shadowsocks_chain_error "egress-udp-outer-decode" upstream) in *; set (g2 := shadowsocks_chain_error "egress-udp-inner-decode" final) in *.
  all: destruct (Wire.map_err g1 (decode n1 packet) v) as [v2 rd] eqn:D1; destruct (Wire.map_err f1 (encode salt1 m1 t p) u) as [u1 re] eqn:E1; runs.
  all: destruct re as [inner|e|]; [destruct (error_square f2 g1 v salt2 m2 final inner n1 packet) as (v1 & v2' & v3 & rv & rv' & V1 & V2 & V3 & V4);
         rewrite D1 in V2; injection V2 as <- <-|..].
  all: destruct rd as [outer|e'|]; [destruct (error_square f1 g2 u salt1 m1 t p n2 outer) as (u1' & u2 & u3 & ru & ru' & U1 & U2 & U3 & U4);
         rewrite E1 in U1; injection U1 as <- <-|..]; runs.
  all: repeat first
    [ done
    | match goal with |- context [ensure_datagram_limit ?t ?n ?a] => destruct (ensure_datagram_limit t n a) end; runs
    | match goal with H : _ = (_, ?r) |- context [match ?r with _ => _ end] => is_var r; destruct r end; runs
    | match goal with |- context [socket_write ?e ?l ?k] => destruct (socket_write e l k) end; runs ].
Qed.
End shadowsocks_duplex.

(** ** What a relay does is what its two directions do on their own *)
Definition same_failure {A B} (o : outcome EgressError A) (r : outcome EgressError B) : Prop :=
  match o, r with Err e, Err e' => e = e' | Panic, Panic => True | _, _ => False end.

Section faithful.
Context {T : UdpTransport} {Laws : DuplexLaws T}.
Implicit Types (s : ut_state) (l : list ut_reading) (w : list (bytes * ut_draw)).

(** One reading and one write do not see each other. *)
Lemma one_after_write x d t p s :
  (read_one x (ut_write d t p s).1).2 = (read_one x s).2 ∧
  (read_one x (ut_write d t p s).1).1 = (ut_write d t p (read_one x s).1).1 ∧
  (ut_write d t p (read_one x s).1).2 = (ut_write d t p s).2.
Proof.
  destruct x as [x|lost].
  - pose proof (duplex_read s x d t p) as H1. pose proof (duplex_state s x d t p) as H2. pose proof (duplex_write s x d t p) as H3.
    cbn [read_one]. unfold mbind, act_bind. destruct (ut_read x s) as [s1 [q|e|]], (ut_read x (ut_write d t p s).1) as [s2 [q'|e'|]];
      cbn in *; simplify_eq; done.
  - cbn. split; [done|]. split; [symmetry; apply duplex_torn_state|apply duplex_torn_write].
Qed.

Lemma write_each_after_read t w x s :
  (write_each t w (read_one x s).1).2 = (write_each t w s).2 ∧
  (write_each t w (read_one x s).1).1 = (read_one x (write_each t w s).1).1.
Proof.
  revert s. induction w as [|[p d] w IH]; intros s; [done|]. cbn [write_each]. unfold mbind, act_bind.
  destruct (one_after_write x d t p s) as (_ & H2 & H1).
  destruct (ut_write d t p s) as [s1 o] eqn:E1. destruct (ut_write d t p (read_one x s).1) as [s2 o'] eqn:E2.
  cbn [fst snd] in *. subst o'. destruct o as [[]|e|]; [|done..].
  destruct (IH s1) as [Ha Hb]. rewrite H2 in Ha, Hb. done.
Qed.

Lemma read_all_after_write l t p d s :
  (read_all l (ut_write d t p s).1).2 = (read_all l s).2 ∧
  (read_all l (ut_write d t p s).1).1 = (ut_write d t p (read_all l s).1).1 ∧
  (ut_write d t p (read_all l s).1).2 = (ut_write d t p s).2.
Proof.
  revert s. induction l as [|x l IH]; intros s; [done|]. cbn [read_all]. unfold mbind, act_bind.
  destruct (one_after_write x d t p s) as (H1 & H2 & H3).
  destruct (read_one x s) as [s1 o] eqn:E1. destruct (read_one x (ut_write d t p s).1) as [s2 o'] eqn:E2.
  cbn [fst snd] in *. subst o' s2. destruct o as [q|e|]; [|done..].
  destruct (IH s1) as (Ha & Hb & Hc). rewrite H3 in Hc.
  destruct (read_all l s1) as [s3 [ps|e|]], (read_all l (ut_write d t p s1).1) as [s4 [ps'|e'|]]; cbn in *; simplify_eq; done.
Qed.

(** The state after both directions. *)
Definition both (t : SocketAddr) (l : list ut_reading) w s : ut_state := (write_each t w (read_all l s).1).1.

Lemma both_write t l p d w s : (ut_write d t p s).2 = Ok tt →
  both t l w (ut_write d t p s).1 = both t l ((p, d) :: w) s.
Proof.
  intros Hok. unfold both. destruct (read_all_after_write l t p d s) as (_ & -> & H). cbn [write_each]. unfold mbind, act_bind.
  rewrite Hok in H. by destruct (ut_write d t p (read_all l s).1) as [s2 o]; cbn in *; subst o.
Qed.

Lemma read_all_cons x l s q ps : (read_one x s).2 = Ok q → (read_all l (read_one x s).1).2 = Ok ps → (read_all (x :: l) s).2 = Ok (q ++ ps)%list.
Proof.
  intros Hq Hps. cbn [read_all]. unfold mbind, act_bind. destruct (read_one x s) as [s1 o]; cbn in *; subst o.
  destruct (read_all l s1) as [s2 o]; cbn in *; by subst o.
Qed.

Lemma read_all_cons_failure {B} x l s q (r : outcome EgressError B) : (read_one x s).2 = Ok q →
  same_failure (read_all l (read_one x s).1).2 r → same_failure (read_all (x :: l) s).2 r.
Proof.
  intros Hq Hf. cbn [read_all]. unfold mbind, act_bind. destruct (read_one x s) as [s1 o]; cbn in *; subst o.
  by destruct (read_all l s1) as [s2 [ps|e|]].
Qed.

Lemma both_read t l w x s q : (read_one x s).2 = Ok q → both t l w (read_one x s).1 = both t (x :: l) w s.
Proof.
  intros Hq. unfold both. cbn [read_all]. unfold mbind, act_bind. destruct (read_one x s) as [s1 o]; cbn in *; subst o.
  by destruct (read_all l s1) as [s2 [ps|e|]].
Qed.

Lemma write_each_cons t p d w s : (ut_write d t p s).2 = Ok tt →
  (write_each t ((p, d) :: w) s).2 = (write_each t w (ut_write d t p s).1).2.
Proof. intros Hok. cbn [write_each]. unfold mbind, act_bind. by destruct (ut_write d t p s) as [s1 o]; cbn in *; subst o. Qed.

Lemma first_read_failure {B} x s (r : outcome EgressError B) : same_failure (ut_read x s).2 r → same_failure (read_all [inl x] s).2 r.
Proof. cbn [read_all read_one]. unfold mbind, act_bind. by destruct (ut_read x s) as [s1 [q|e|]]. Qed.

Lemma read_one_ok a s q : (ut_read a s).2 = Ok q → (read_one (inl a) s).2 = Ok [q] ∧ (read_one (inl a) s).1 = (ut_read a s).1.
Proof. cbn [read_one]. unfold mbind, act_bind. destruct (ut_read a s) as [s1 o]; cbn; intros ->. done. Qed.

Lemma write_one_failure {B} t p d s (r : outcome EgressError B) : same_failure (ut_write d t p s).2 r → same_failure (write_each t [(p, d)] s).2 r.
Proof. cbn [write_each]. unfold mbind, act_bind. by destruct (ut_write d t p s) as [s1 [[]|e|]]. Qed.

(** What [relay_udp_response] did. *)
Lemma send_cases d payload o o' r : send_to_peer d payload o = (o', r) →
  (r = Ok tt ∧ to_peer o' = (to_peer o ++ [downstream_bytes d payload])%list ∧ reported o' = reported o) ∨
  (r = Err "{error}" ∧ o' = o).
Proof.
  unfold send_to_peer. destruct (peer_budget o) as [[|n]|]; intros Heq; apply pair_eq in Heq as [<- <-]; [by right|by left..].
Qed.

Lemma response_cases a protocol upstream payload extra o o' r : relay_udp_response a protocol upstream payload extra o = (o', r) →
  (r = Ok tt ∧ to_peer o' = (to_peer o ++ [downstream_bytes (assoc_downstream a) payload])%list ∧
   reported o' = (reported o ++ [response_datagram_fields a protocol upstream payload extra])%list) ∨
  (r = Err (inbound_write_error upstream) ∧ o' = o).
Proof.
  unfold relay_udp_response, Wire.map_err, mbind, act_bind.
  destruct (send_to_peer (assoc_downstream a) payload o) as [o1 r1] eqn:Es.
  apply send_cases in Es as [(-> & Hp & Hr)|[-> ->]]; intros Heq.
  - left. unfold report, modify in Heq. apply pair_eq in Heq as [<- <-]. cbn [to_peer reported]. by rewrite Hp, Hr.
  - right. apply pair_eq in Heq as [<- <-]. done.
Qed.

(** The event at which a relay of [done], which read [ds], stopped with a failure. *)
Definition stopped_by (a : UdpRelayAssociation) (upstream : SocketAddr) (done : list (udp_event T)) (ds : list bytes) s
    (ev : udp_event T) (r : outcome EgressError (option UdpRelayOutcome)) : Prop :=
  match ev with
  | FromUpstream x =>
      same_failure (read_all (arrivals done ++ [inl x]) s).2 r ∨
      ((∃ d, (read_all (arrivals done ++ [inl x]) s).2 = Ok (ds ++ [d])%list) ∧ r = Err (inbound_write_error upstream))
  | FromInbound p d _ => same_failure (write_each (assoc_target a) (payloads done ++ [(p, d)]) s).2 r
  | RelayClosed | RelayIdle => False
  end.

(** [ds] went to the client and was reported. *)
Definition passed_on (a : UdpRelayAssociation) (upstream : SocketAddr) (ds : list bytes) (o o' : observer) : Prop :=
  to_peer o' = (to_peer o ++ List.map (downstream_bytes (assoc_downstream a)) ds)%list ∧
  reported o' = (reported o ++ List.map (λ p, response_datagram_fields a ut_tag upstream p ut_fields) ds)%list.

Definition relay_of (a : UdpRelayAssociation) (upstream : SocketAddr) (evs : list (udp_event T)) s (s' : ut_state) (o o' : observer)
    (r : outcome EgressError (option UdpRelayOutcome)) : Prop :=
  ∃ done rest ds, evs = (done ++ rest)%list ∧
    (read_all (arrivals done) s).2 = Ok ds ∧ (write_each (assoc_target a) (payloads done) s).2 = Ok tt ∧
    passed_on a upstream ds o o' ∧
    match r with
    | Ok None => rest = [] ∧ s' = both (assoc_target a) (arrivals done) (payloads done) s
    | Ok (Some out) =>
        s' = both (assoc_target a) (arrivals done) (payloads done) s ∧ udp_out_upstream out = upstream ∧
        ∃ more, (rest = RelayClosed :: more ∧ udp_out_close_reason out = "inbound-closed") ∨
                (rest = RelayIdle :: more ∧ udp_out_close_reason out = "idle-timeout")
    | _ => ∃ ev more, rest = ev :: more ∧ stopped_by a upstream done ds s ev r
    end.

Lemma passed_nothing a upstream o : passed_on a upstream [] o o.
Proof. unfold passed_on. cbn [List.map]. by rewrite !app_nil_r. Qed.

Lemma passed_one a upstream q ds o o1 o' :
  to_peer o1 = (to_peer o ++ [downstream_bytes (assoc_downstream a) q])%list →
  reported o1 = (reported o ++ [response_datagram_fields a ut_tag upstream q ut_fields])%list →
  passed_on a upstream ds o1 o' → passed_on a upstream (q :: ds) o o'.
Proof. unfold passed_on. cbn [List.map]. intros -> -> [-> ->]. by rewrite <- !app_assoc. Qed.

(** A datagram of the client behind a dropped read. *)
Lemma stopped_after_write a upstream done ds s ev r p d lost : (ut_write d (assoc_target a) p (ut_cancel lost s)).2 = Ok tt →
  stopped_by a upstream done ds (ut_write d (assoc_target a) p (ut_cancel lost s)).1 ev r →
  stopped_by a upstream (FromInbound p d lost :: done) ds s ev r.
Proof.
  intros Hok. destruct ev as [p' d' lost'|x| |]; cbn [stopped_by]; [| |done..].
  - change (payloads (FromInbound p d lost :: done) ++ [(p', d')])%list with ((p, d) :: (payloads done ++ [(p', d')]))%list.
    rewrite <- (write_each_cons _ p d _ (ut_cancel lost s)) by done.
    by destruct (write_each_after_read (assoc_target a) ((p, d) :: (payloads done ++ [(p', d')])%list) (inr lost) s) as [<- _].
  - change (arrivals (FromInbound p d lost :: done) ++ [inl x])%list with (inr lost :: (arrivals done ++ [inl x]))%list.
    destruct (read_all_after_write (arrivals done ++ [inl x])%list (assoc_target a) p d (ut_cancel lost s)) as [-> _].
    intros [Hf|[[q Hq] Hr]]; [left|right].
    + by apply (read_all_cons_failure (inr lost) _ s []).
    + split; [|done]. exists q. by apply (read_all_cons (inr lost) _ s []).
Qed.

Lemma relay_after_write a upstream evs s s' o o' r p d lost :
  (ut_write d (assoc_target a) p (ut_cancel lost s)).2 = Ok tt →
  relay_of a upstream evs (ut_write d (assoc_target a) p (ut_cancel lost s)).1 s' o o' r →
  relay_of a upstream (FromInbound p d lost :: evs) s s' o o' r.
Proof.
  intros Hok (done & rest & ds & -> & Hread & Hwrite & Hpass & Hr).
  exists (FromInbound p d lost :: done), rest, ds.
  change (arrivals (FromInbound p d lost :: done)) with (inr lost :: arrivals done).
  change (payloads (FromInbound p d lost :: done)) with ((p, d) :: payloads done).
  destruct (read_all_after_write (arrivals done) (assoc_target a) p d (ut_cancel lost s)) as [Hra _].
  assert (both (assoc_target a) (arrivals done) (payloads done) (ut_write d (assoc_target a) p (ut_cancel lost s)).1 =
    both (assoc_target a) (inr lost :: arrivals done) ((p, d) :: payloads done) s) as Hboth.
  { rewrite both_write by done. by apply (both_read _ _ _ (inr lost) s []). }
  split; [done|]. split; [apply (read_all_cons (inr lost) _ s []); [done|by rewrite Hra in Hread]|].
  split. { destruct (write_each_after_read (assoc_target a) ((p, d) :: payloads done) (inr lost) s) as [<- _]. cbn [read_one]. by rewrite <- Hwrite, <- write_each_cons. }
  split; [exact Hpass|]. rewrite Hboth in Hr.
  destruct r as [[out|]|e|]; [done|done|..]; destruct Hr as (ev & more & -> & Hs); exists ev, more; (split; [done|by apply stopped_after_write]).
Qed.

Lemma stopped_after_read a upstream done ds s ev r x q : (ut_read x s).2 = Ok q →
  stopped_by a upstream done ds (ut_read x s).1 ev r →
  stopped_by a upstream (FromUpstream x :: done) (q :: ds) s ev r.
Proof.
  intros [Hok Hst]%read_one_ok. rewrite <- Hst. destruct ev as [p d lost|x'| |]; cbn [stopped_by]; [| |done..].
  - change (payloads (FromUpstream x :: done)) with (payloads done).
    by destruct (write_each_after_read (assoc_target a) (payloads done ++ [(p, d)])%list (inl x) s) as [-> _].
  - change (arrivals (FromUpstream x :: done) ++ [inl x'])%list with (inl x :: (arrivals done ++ [inl x']))%list.
    intros [Hf|[[d Hd] Hr]]; [left; by eapply read_all_cons_failure|right]. split; [|done].
    exists d. by apply (read_all_cons (inl x) _ s [q]).
Qed.

Lemma relay_after_read a upstream evs s s' o o1 o' r x q : (ut_read x s).2 = Ok q →
  to_peer o1 = (to_peer o ++ [downstream_bytes (assoc_downstream a) q])%list →
  reported o1 = (reported o ++ [response_datagram_fields a ut_tag upstream q ut_fields])%list →
  relay_of a upstream evs (ut_read x s).1 s' o1 o' r →
  relay_of a upstream (FromUpstream x :: evs) s s' o o' r.
Proof.
  intros Hread1 Hp Hrep (done & rest & ds & -> & Hread & Hwrite & Hpass & Hr). pose proof (read_one_ok _ _ _ Hread1) as [Hok Hst].
  exists (FromUpstream x :: done), rest, (q :: ds).
  change (arrivals (FromUpstream x :: done)) with (inl x :: arrivals done).
  change (payloads (FromUpstream x :: done)) with (payloads done).
  rewrite <- Hst in Hread, Hwrite.
  destruct (write_each_after_read (assoc_target a) (payloads done) (inl x) s) as [Hwa _].
  split; [done|]. split; [by apply (read_all_cons (inl x) _ s [q])|]. split; [by rewrite <- Hwa|]. split; [by eapply passed_one|].
  destruct r as [[out|]|e|].
  - by rewrite <- (both_read _ _ _ (inl x) s [q]), Hst.
  - by rewrite <- (both_read _ _ _ (inl x) s [q]), Hst.
  - destruct Hr as (ev & more & -> & Hs). exists ev, more. split; [done|]. by apply stopped_after_read.
  - destruct Hr as (ev & more & -> & Hs). exists ev, more. split; [done|]. by apply stopped_after_read.
Qed.

(** A relay that stops at its first event, or has none. *)
Lemma relay_stops a upstream ev evs s s' o r : same_failure (A := unit) (match r with Ok _ => Ok tt | Err e => Err e | Panic => Panic end) r →
  stopped_by a upstream [] [] s ev r → relay_of a upstream (ev :: evs) s s' o o r.
Proof.
  intros Hr Hs. exists [], (ev :: evs), []. split; [done|]. split; [done|]. split; [done|]. split; [apply passed_nothing|].
  destruct r as [x|e|]; [done|by exists ev, evs..].
Qed.

Lemma relay_ends a upstream evs s o reason more :
  (evs = RelayClosed :: more ∧ reason = "inbound-closed") ∨ (evs = RelayIdle :: more ∧ reason = "idle-timeout") →
  relay_of a upstream evs s s o o (Ok (Some (udp_outcome upstream reason))).
Proof.
  intros Hend. exists [], evs, []. split; [done|]. split; [done|]. split; [done|]. split; [apply passed_nothing|].
  split; [done|]. split; [done|]. by exists more.
Qed.

(** C18: a UDP association relays both directions as if each were alone, however they interleave,
    for every protocol that keeps them apart: what the client gets is what reading the
    arrivals in order gives, where a read that a datagram of the client interrupts has consumed
    what it had taken; every datagram that is read goes out once, in order, framed for its inbound, and is
    reported by one event with the session, the decision and the size; what goes to the server is
    what writing the client's datagrams in order gives, whatever was interrupted. The relay ends as closed or as
    idle only when that happened, and with an error only at the first read, write or delivery
    that fails, with that error. *)
Theorem udp_relay_faithful evs a upstream s s' o o' r :
  relay_udp evs a upstream (s, o) = ((s', o'), r) → relay_of a upstream evs s s' o o' r.
Proof.
  revert s o. induction evs as [|ev evs IH]; intros s o; cbn [relay_udp].
  - intros Heq. apply pair_eq in Heq as [[= <- <-] <-]. exists [], [], []. split; [done|]. split; [done|]. split; [done|].
    split; [apply passed_nothing|done].
  - destruct ev as [p d lost|x| |].
    + unfold downstream_step, on_fst, modify, mbind, act_bind. cbn [fst snd].
      destruct (ut_write d (assoc_target a) p (ut_cancel lost s)) as [s1 [[]|e|]] eqn:Ew; intros Hrun; [|
        assert (same_failure (ut_write d (assoc_target a) p s).2 r) as Hsf by (rewrite <- (duplex_torn_write s lost), Ew; by apply pair_eq in Hrun as [_ <-])..].
      * apply relay_after_write; rewrite Ew; [done|]. by apply IH.
      * apply pair_eq in Hrun as [[= <- <-] <-]. apply relay_stops; [done|]. cbn [stopped_by]. by apply write_one_failure.
      * apply pair_eq in Hrun as [[= <- <-] <-]. apply relay_stops; [done|]. cbn [stopped_by]. by apply write_one_failure.
    + unfold upstream_step, on_fst, on_snd, mbind, act_bind.
      destruct (ut_read x s) as [s1 [q|e|]] eqn:Er; [|intros Hrun; apply pair_eq in Hrun as [[= <- <-] <-]; apply relay_stops;
        [done|cbn [stopped_by]; left; apply first_read_failure; by rewrite Er]..].
      destruct (relay_udp_response a ut_tag upstream q ut_fields o) as [o1 r1] eqn:Ed.
      apply response_cases in Ed as [(-> & Hp & Hr)|[-> ->]]; intros Hrun.
      * eapply relay_after_read; [by rewrite Er|exact Hp|exact Hr|]. rewrite Er. by apply IH.
      * apply pair_eq in Hrun as [[= <- <-] <-]. apply relay_stops; [done|]. cbn [stopped_by]. right. split; [|done].
        exists q. cbn [arrivals omap list_omap app]. apply (read_all_cons (inl x) [] s [q] []); [|done]. by apply read_one_ok; rewrite Er.
    + intros Heq. apply pair_eq in Heq as [[= <- <-] <-]. apply (relay_ends _ _ _ _ _ _ evs). by left.
    + intros Heq. apply pair_eq in Heq as [[= <- <-] <-]. apply (relay_ends _ _ _ _ _ _ evs). by right.
Qed.
End faithful.

(** ** Dropped reads *)
Lemma sockets_harmless target : ∀ lost, @harmless (direct_transport target) lost.
Proof. done. Qed.

Lemma ss_harmless aes256 aes128 hkdf derive_key enc dec upstream :
  ∀ lost, @harmless (ss_transport aes256 aes128 hkdf derive_key enc dec upstream) lost.
Proof. done. Qed.

Lemma chain_harmless aes256 aes128 hkdf derive_key enc dec final upstream :
  ∀ lost, @harmless (chain_transport aes256 aes128 hkdf derive_key enc dec final upstream) lost.
Proof. done. Qed.

(** A read that waits for its first byte. *)
Lemma cut_nothing {R} (read : Wire.act (R * input) Wire.Error bytes) r i :
  (read (r, {| pending := []; broken := None |})).1.1 = r → cut read 0 (r, i) = (r, i).
Proof. intros Hr. unfold cut. rewrite take_0, drop_0, Hr. by destruct i. Qed.

Lemma trojan_harmless upstream : @harmless (trojan_transport upstream) 0.
Proof. intros [[[] i] w]. cbn [ut_cancel trojan_transport stream_transport fst snd]. by rewrite cut_nothing. Qed.

Lemma vless_harmless upstream : @harmless (vless_transport upstream) 0.
Proof. intros [[[|] i] w]; cbn [ut_cancel vless_transport stream_transport fst snd]; by rewrite cut_nothing. Qed.

Lemma vmess_harmless aes128 hmac upstream : @harmless (vmess_transport aes128 hmac upstream) 0.
Proof.
  intros [[r i] w]. cbn [ut_cancel vmess_transport stream_transport fst snd]. rewrite cut_nothing; [done|].
  destruct r as [key iv auth [|] n]; reflexivity.
Qed.

(** ** A Trojan association *)
Definition relay_server : SocketAddr := socket_addr (ipv4_from [x0a; x00; x00; x01]) 443.
Definition relay_client : SocketAddr := socket_addr (ipv4_from [x0a; x00; x00; x07]) 40000.

Definition trojan_association : UdpRelayAssociation :=
  {| assoc_session_id := 7; assoc_inbound := "socks5"; assoc_peer := relay_client; assoc_target := relay_server;
     assoc_idle_timeout := 1000; assoc_downstream := Socks5 relay_server; assoc_decision := demo_decision |}.

Definition trojan_input : bytes := unwrap_or [] (udp_packets [(relay_server, [x61; x62]); (relay_server, [x63])]).

Definition trojan_start : @ut_state (trojan_transport relay_server) :=
  ((tt, {| pending := trojan_input; broken := None |}), new_sink None).

Definition fresh_observer : observer := {| to_peer := []; peer_budget := None; reported := [] |}.

(** The second datagram of the client comes while the read of the first response has [lost] bytes. *)
Definition trojan_script (lost : nat) : list (udp_event (trojan_transport relay_server)) :=
  let inbound := @FromInbound (trojan_transport relay_server) in
  let upstream := @FromUpstream (trojan_transport relay_server) in
  [inbound [x01] tt 0; inbound [x02] tt lost; upstream tt; upstream tt; RelayClosed].

Definition trojan_run (lost : nat) := relay_udp (T := trojan_transport relay_server) (trojan_script lost) trojan_association relay_server (trojan_start, fresh_observer).

(** Whole reads, and a read that is interrupted after three bytes. *)
Lemma udp_relay_faithful_witness :
  (relay_of (T := trojan_transport relay_server) trojan_association relay_server (trojan_script 0) trojan_start (trojan_run 0).1.1 fresh_observer (trojan_run 0).1.2 (trojan_run 0).2 ∧
   ∃ out, (trojan_run 0).2 = Ok (Some out)) ∧
  relay_of (T := trojan_transport relay_server) trojan_association relay_server (trojan_script 3) trojan_start (trojan_run 3).1.1 fresh_observer (trojan_run 3).1.2 (trojan_run 3).2.
Proof.
  split; [split; [|eexists; vm_compute; reflexivity]|]; apply (udp_relay_faithful (T := trojan_transport relay_server)).
  - exact (eq_trans (surjective_pairing (trojan_run 0)) (f_equal2 pair (surjective_pairing (trojan_run 0).1) eq_refl)).
  - exact (eq_trans (surjective_pairing (trojan_run 3)) (f_equal2 pair (surjective_pairing (trojan_run 3).1) eq_refl)).
Defined.

Example trojan_delivers :
  to_peer (trojan_run 0).1.2 = List.map (socks5_udp_packet relay_server) [[x61; x62]; [x63]].
Proof. vm_compute. reflexivity. Qed.

(** The [select!] drops a read that has started: its bytes are gone, and what follows is read from the
    middle of a packet. *)
Example trojan_torn_read :
  to_peer (trojan_run 3).1.2 = [] ∧
  (trojan_run 3).2 = Err (egress_error "outbound-protocol" (Some relay_server) "unsupported Trojan UDP address type").
Proof. vm_compute. split; reflexivity. Qed.

(** One packet of the server that does not open ends a Shadowsocks association. *)
Definition ss_demo : UdpTransport := ss_transport toy_aead toy_aead toy_hkdf toy_derive toy_block toy_block relay_server.

Example ss_garbage_ends :
  is_ok (relay_udp (T := ss_demo) [@FromUpstream ss_demo (0%Z, [x00]); @FromInbound ss_demo [x01] ([], 0%Z) 0] trojan_association relay_server
    ((Client.UdpAead2017 [], new_sink None), fresh_observer)).2 = false.
Proof. vm_compute. reflexivity. Qed.
